(* ===== verification/_CoqProject ===== *)
-Q . S2P
Prelude.v
Keeps.v
Text.v
Regex.v
Json.v
OperationalPolicy.v
HealthDecision.v
Sql.v
HealthStore.v
OutboxStore.v
NodeSyncStore.v
Worker.v
NodeAgentContract.v
XrayAccess.v
SafeLogger.v
HealthEvidence.v
HealthAction.v
HealthInvariant.v
HealthSystem.v
HealthExact.v
ControlPlane.v
DataPlaneCredential.v
AccessPolicy.v
ControlPlaneInvariant.v
Orchestration.v
OrchestrationSafety.v
NodeAgentApi.v
NodeAgentApiSafety.v
SubscriptionAccess.v
SubscriptionAccessSafety.v
SubscriptionFeed.v
Reconciliation.v
AccessMaintenance.v
TrialAccess.v
TrialAccessSafety.v
ControlFrame.v
ControlPlaneSystem.v
ControlPlaneTheorems.v
Accounts.v
AccountInvariant.v
Base64Url.v
BotSigningKey.v
BotRequests.v
BotCredentials.v
Trial.v
Cabinet.v
TelegramInitData.v
Login.v
BotClient.v
HttpApi.v
AccountFrame.v
AccountSystem.v
TrialSafety.v
CabinetSafety.v
BotSafety.v
LoginSafety.v
AccountHistory.v
AccountTheorems.v
Redis.v
RateLimits.v
RateLimitBounds.v
ProbeIngestion.v
ProbeSafety.v
DurableFiles.v
AgentState.v
XrayRuntime.v
ReconcileLoop.v
LocalXrayAdapter.v
AgentLoops.v
NodeAgent.v
ClockTrust.v
EndToEnd.v
AgentExamples.v
ControlPlaneExamples.v
HealthExamples.v
AccountExamples.v
SubscriptionFeedTheorems.v
HttpSafety.v
ProbeSystem.v
SafeLoggerSafety.v
