(* ===== verification/Prelude.v ===== *)
(** * VPNPlatform: the control plane, its workers and its node agents

    VPNPlatform sells VPN access.  An API (src/apps/api) keeps users,
    subscriptions, devices, nodes and access grants in PostgreSQL; workers
    (src/apps/worker) deliver what changed to the nodes; a node agent
    (src/apps/node-agent) runs beside Xray on each node, applies the
    configuration the API hands out and reports back; probes report whether
    routes work, and a health store turns the reports into decisions.  The
    stores the API and the workers share are in src/packages/orchestration-store,
    the wire contracts in src/packages/contracts, the tables, constraints and
    triggers in src/prisma.  This library models these parts and proves what
    they promise, separately and together.

    ** How the code is modelled

    - A service method is a Definition of the same name in the monad [M S E]
      below: state passing with throws that keep the mutations made before
      them.  [prisma.$transaction] is [atomically], which rolls back.
    - The database is a record of tables ([ControlPlane.Db], [HealthStore.HealthDb]),
      finite maps from primary keys to rows.  One Prisma call or raw statement
      is one operation with its CHECKs, unique indexes, foreign keys and
      triggers as errors.  A transaction is one atomic step: the services
      take row locks and advisory locks to get that.  Systems of transactions
      are step relations ([ControlPlaneSystem.step], [HealthSystem.health_step])
      and theorems hold of every reachable state; the statements of the
      workers' stores (OutboxStore.v, NodeSyncStore.v) interleave singly.
    - The node agent's file system fails at any operation, and so may starting
      and stopping its runtime; its clock and its clock-trust probe are oracles
      of the number of earlier readings.
    - An unknown document is a [json]; a Zod schema is a partial function.
    - Instants are milliseconds in Z; SQL's INTEGER bounds are kept where a
      column has them.  Strings are UTF-8 bytes; Text.v measures them as
      JavaScript does, in UTF-16 units, and as char_length does, in characters.
    - A uuid the health stores cast is the lower-case text PostgreSQL returns
      ([HealthStore.uuid_text]); elsewhere identifiers are taken as the database
      prints them, since they come from it.
    - HMAC, SHA-256, UUID syntax, [Date.parse], [localeCompare], [net.isIP],
      BullMQ, Docker and Xray are parameters or type classes whose laws state
      what the code relies on; the files and sections of examples instantiate them
      and apply every theorem that has a hypothesis to a concrete run.
    - No definition needs fuel: every loop of the modelled code is over a
      list.  The maintenance worker's pages are a cursor that wraps around;
      AccessMaintenance.v bounds the pages until every candidate was visited.

    ** The files

    Shared: Prelude.v (this file), Keeps.v, Text.v, Json.v, Sql.v.

    Health (packages/orchestration-store): OperationalPolicy.v
    (operational-policy.ts), HealthDecision.v (health-decision.ts, the pure
    decision function), HealthStore.v (tables and triggers), HealthEvidence.v
    (health-evidence-store.ts), HealthAction.v (health-action-store.ts),
    HealthInvariant.v, HealthSystem.v and HealthExact.v (theorems):
    availability is the run of the decision function over recorded evidence,
    verdicts are backed by independent quorums, results count once,
    promotions are justified, and a cycle whose results are named in lower case
    commits exactly when the stores' own guards pass, retries included (one
    named in upper case passes the schema and is refused by the triggers).

    Delivery (packages/orchestration-store, apps/worker): OutboxStore.v
    (outbox-store.ts), NodeSyncStore.v (node-sync-store.ts), Worker.v
    (outbox-publisher.ts, node-sync-processor.ts, job-retention.ts): fencing
    by lease tokens, bounded claims, delivery before publication, at-least-once.

    Control plane (apps/api/src/orchestration, node-agent, subscription-access;
    packages/orchestration-store): ControlPlane.v (tables), AccessPolicy.v
    (access-policy.ts, node-access-control.ts), DataPlaneCredential.v
    (data-plane-credential.ts), Orchestration.v (grant scheduling, device
    revocation, node lifecycle, route publication, acknowledgement),
    NodeAgentApi.v (configuration snapshots, heartbeats, agent credentials),
    SubscriptionAccess.v (expiry, cancellation, reconciliation),
    SubscriptionFeed.v (the feed).  ControlPlaneInvariant.v and the ...Safety.v
    files carry the invariant through every transaction; Reconciliation.v and
    AccessMaintenance.v compare the reconciler with what it is for;
    ControlPlaneSystem.v, ControlPlaneTheorems.v and SubscriptionFeedTheorems.v
    hold the theorems: access that is shown is acknowledged, revocation is
    permanent, a change is announced, delivered and can be acknowledged, the
    agents' endpoints act for the authenticated node only.

    Node agent (apps/node-agent): NodeAgentContract.v (contracts/node-agent.ts),
    XrayAccess.v (xray-access.ts, security-timing.ts), ClockTrust.v
    (clock-trust.ts), DurableFiles.v, AgentState.v, XrayRuntime.v
    (xray-runtime.ts, xray-serving-verifier.ts), LocalXrayAdapter.v
    (local-xray-adapter.ts), NodeAgent.v (agent.ts, simulation-adapter.ts),
    ReconcileLoop.v (local-state-reconciler.ts) and AgentLoops.v (the two loops
    of main.ts over one adapter): what is served is the snapshot and nothing
    else, the stop latch holds (a stop that fails is thrown and not taken for
    one), versions do not decrease, files are replaced atomically, and the
    reconcile loop wakes by the next expiry and returns when it is stopped.

    Accounts (apps/api/src/auth, trials, cabinet): Accounts.v (tables,
    constraints and statements beside the control plane's), BotSigningKey.v
    and Base64Url.v (bot-signing-key.ts), BotRequests.v
    (bot-request-authentication.service.ts, bot-request-execution.service.ts),
    BotCredentials.v (bot-credential-lifecycle.ts), Trial.v and TrialAccess.v
    (trial-activation.service.ts), Cabinet.v (cabinet-device.service.ts,
    cabinet.service.ts), TelegramInitData.v (telegram-init-data.ts), Login.v
    (bot-auth-challenge.service.ts, pending-login.service.ts,
    auth-session.service.ts).  AccountInvariant.v and ControlFrame.v say what a
    statement keeps, which Keeps.v composes over transactions; AccountSystem.v
    is the step relation, whose steps are the control plane's on its tables;
    TrialSafety.v, CabinetSafety.v, BotSafety.v, LoginSafety.v, AccountFrame.v
    and AccountHistory.v lead to AccountTheorems.v: a bot request happens once,
    a trial happens once, a trial and a device give access within their limits, a session goes back
    to a login its user confirmed, keys authenticate and requests do not
    replay.

    Bot and HTTP (apps/bot, apps/api/src controllers and guards): BotClient.v
    (contracts/bot-auth.ts, bot-api-client.ts, telegram-login-launch.ts,
    telegram-confirmation.ts) and HttpApi.v (bot-request-authentication.guard.ts,
    trusted-origin.guard.ts, the auth, trial and cabinet controllers);
    HttpSafety.v takes a message (a launch command; a confirmation code alone or
    after its command) from the bot's signature through the guard to the service
    and back, and the session cookie from the login to the cabinet.

    Limits and probes (apps/api/src/redis, auth, trials, subscription-access,
    probe-agent): Redis.v (redis.service.ts: keys with their expiry, the scripts
    command by command), RateLimits.v (every rate limiter) and RateLimitBounds.v
    (at most twice the maximum within a window, whatever else is done with
    Redis; the in-process limiter answers as the counters do).
    ProbeIngestion.v (probe-source-credential.service.ts,
    probe-ingestion.service.ts, contracts/probe-agent.ts) joins the limiters, the
    credentials of the probe sources and the health tables; ProbeSafety.v and
    ProbeSystem.v show that its steps are steps of [HealthSystem], that results
    on record were submitted with a live secret, and that a replaced secret is
    dead.

    Logging (packages/safe-logger): Regex.v is the backtracking matcher of
    JavaScript with what a pattern denotes, SafeLogger.v the whole of
    safe-logger/src/index.ts on a heap of objects, SafeLoggerSafety.v that what
    is handed to pino is clean and small and that plain data is handed on
    unchanged.

    Together: EndToEnd.v composes the API with the agent: what a node serves are
    exactly the rows of the database that give access, and the agent reads a
    delivered snapshot exactly when it also keeps the bounds of the contract that
    the columns do not have.

    ** Interfaces

    Clients are proved against type classes: Worker.v against [OutboxStore],
    [NodeSyncStore] and a queue, with [PrismaOutbox] discharging the store's
    promises; LocalXrayAdapter.v against the runtime class of XrayRuntime.v,
    which both runtimes satisfy; NodeAgent.v against the control plane and the
    data-plane adapter; [DateStrings] and [LocaleCompare] for JavaScript's
    dates and string order.

    ** Not modelled, and why

    Process wiring (main.ts files, Nest modules, environment schemas, Telegraf
    and HTTP transport, Swagger, health endpoints, the one-line controllers of
    the probes and the feed), the prototype subscription service, the web
    application, the command-line tools, the bootstraps and harnesses of named
    nodes, and infrastructure scripts: input, output and configuration apart
    from the state above.  What pino makes of the arguments the safe logger hands
    it (printf interpolation, merged bindings, keys as they are) and Proxies among
    the logged values are left out.  The account services take what the
    limiters' Redis answers them as an argument. *)

From Stdlib Require Export ZArith Lia Sorted Permutation.
From stdpp Require Export base tactics strings gmap list sorting option fin_maps relations.

(** ** The error-and-state monad of the imperative code

    [M S E A] is a computation over the state [S] that throws errors of type
    [E].  As in JavaScript, a throw keeps the mutations made before it; a
    database transaction ([atomically]) rolls them back. *)

Inductive outcome (E A : Type) : Type :=
| Ok (a : A)
| Throw (e : E).
Arguments Ok {E A} a.
Arguments Throw {E A} e.

Definition M (S E A : Type) : Type := S → outcome E A * S.

#[export] Instance M_ret {S E} : MRet (M S E) := λ A a s, (Ok a, s).
#[export] Instance M_bind {S E} : MBind (M S E) := λ A B f m s,
  match m s with
  | (Ok a, s') => f a s'
  | (Throw e, s') => (Throw e, s')
  end.

Definition throw {S E A} (e : E) : M S E A := λ s, (Throw e, s).
Definition get {S E} : M S E S := λ s, (Ok s, s).
Definition gets {S E A} (f : S → A) : M S E A := λ s, (Ok (f s), s).
Definition modify {S E} (f : S → S) : M S E unit := λ s, (Ok tt, f s).
Definition ret {S E A} (a : A) : M S E A := λ s, (Ok a, s).

(** [try { m } catch (e) { h(e) }] *)
Definition try_catch {S E A} (m : M S E A) (h : E → M S E A) : M S E A := λ s,
  match m s with
  | (Ok a, s') => (Ok a, s')
  | (Throw e, s') => h e s'
  end.

(** [prisma.$transaction(m)]: a throw rolls the store back. *)
Definition atomically {S E A} (m : M S E A) : M S E A := λ s,
  match m s with
  | (Ok a, s') => (Ok a, s')
  | (Throw e, _) => (Throw e, s)
  end.

Definition when {S E} (b : bool) (m : M S E unit) : M S E unit :=
  if b then m else ret tt.

(** [if (b) throw e] *)
Definition throw_if {S E} (b : bool) (e : E) : M S E unit :=
  if b then throw e else ret tt.

(** [for (const x of l) await f(x)] *)
Fixpoint for_each {S E A} (l : list A) (f : A → M S E unit) : M S E unit :=
  match l with
  | [] => ret tt
  | x :: l' => f x ≫= λ _, for_each l' f
  end.

Lemma bind_ok {S E A B} (m : M S E A) (f : A → M S E B) s a s' :
  m s = (Ok a, s') → (m ≫= f) s = f a s'.
Proof. unfold mbind, M_bind. by intros ->. Qed.

Lemma bind_throw {S E A B} (m : M S E A) (f : A → M S E B) s e s' :
  m s = (Throw e, s') → (m ≫= f) s = (Throw e, s').
Proof. unfold mbind, M_bind. by intros ->. Qed.

(** ** Running statements forward

    The rewrite database [run] carries a state through the statements of a
    transaction; a guard needs the proof that it does not throw. *)

Lemma bind_get {S E A} (f : S → M S E A) s : (get ≫= f) s = f s s.
Proof. done. Qed.
Lemma bind_gets {S E A B} (g : S → B) (f : B → M S E A) s : (gets g ≫= f) s = f (g s) s.
Proof. done. Qed.
Lemma bind_modify {S E A} (g : S → S) (f : unit → M S E A) s : (modify g ≫= f) s = f tt (g s).
Proof. done. Qed.
Lemma bind_mret {S E A B} (b : B) (f : B → M S E A) s : (mret b ≫= f) s = f b s.
Proof. done. Qed.
Lemma bind_bind {S E A B C} (m : M S E A) (f : A → M S E B) (g : B → M S E C) s :
  ((m ≫= f) ≫= g) s = (m ≫= λ a, f a ≫= g) s.
Proof. unfold mbind, M_bind. by destruct (m s) as [[]]. Qed.
Lemma throw_if_pass {S E A} (b : bool) (e : E) (f : unit → M S E A) s :
  b = false → (throw_if b e ≫= f) s = f tt s.
Proof. by intros ->. Qed.

#[export] Hint Rewrite @bind_get @bind_gets @bind_modify @bind_mret @bind_bind : run.

(** ** Inversion of successful runs

    [ok_inv H] takes a successful run [H : m s = (Ok a, s')] apart into the
    runs of the statements [m] is composed of. *)

Lemma bind_ok_inv {S E A B} (m : M S E A) (f : A → M S E B) s b s'' :
  (m ≫= f) s = (Ok b, s'') → ∃ a s', m s = (Ok a, s') ∧ f a s' = (Ok b, s'').
Proof. unfold mbind, M_bind. destruct (m s) as [[a|e] s']; naive_solver. Qed.

Lemma throw_if_ok_inv {S E} (b : bool) (e : E) (s : S) u s' :
  throw_if b e s = (Ok u, s') → b = false ∧ s' = s.
Proof. destruct b; unfold throw_if, throw, ret; naive_solver. Qed.

Lemma when_ok_inv {S E} (b : bool) (m : M S E unit) s u s' :
  when b m s = (Ok u, s') → (b = true ∧ m s = (Ok u, s')) ∨ (b = false ∧ s' = s).
Proof. destruct b; unfold when, ret; naive_solver. Qed.

Lemma atomically_ok_inv {S E A} (m : M S E A) s a s' :
  atomically m s = (Ok a, s') → m s = (Ok a, s').
Proof. unfold atomically. destruct (m s) as [[|] ]; naive_solver. Qed.

Lemma atomically_throw_inv {S E A} (m : M S E A) s e s' :
  atomically m s = (Throw e, s') → s' = s.
Proof. unfold atomically. destruct (m s) as [[|] ]; naive_solver. Qed.

Lemma for_each_ok_inv {S E A} (P : S → Prop) (l : list A) (f : A → M S E unit) s u s' :
  (∀ x s u s', x ∈ l → f x s = (Ok u, s') → P s → P s') →
  for_each l f s = (Ok u, s') → P s → P s'.
Proof.
  revert s. induction l as [|x l IH]; intros s Hf; simpl.
  - unfold ret. by intros [= <- <-].
  - intros (v & s1 & H1 & H2)%bind_ok_inv HP. eapply IH; [|exact H2|].
    + intros y ??? Hy. apply (Hf y). by right.
    + eapply (Hf x); [left|exact H1|exact HP].
Qed.

(** Every iteration establishes its [Q], and later iterations keep it. *)
Lemma for_each_ok_all {S E A} (P : S → Prop) (R : relation S) `{!PreOrder R}
    (Q : A → S → Prop) (l : list A) (f : A → M S E unit) s u s' :
  (∀ x s u s', x ∈ l → f x s = (Ok u, s') → P s → P s' ∧ R s s' ∧ Q x s') →
  (∀ x s s', Q x s → R s s' → Q x s') →
  for_each l f s = (Ok u, s') → P s → P s' ∧ R s s' ∧ ∀ x, x ∈ l → Q x s'.
Proof.
  intros Hf HQ. revert s. induction l as [|x l IH]; intros s; simpl.
  - unfold ret. intros [= <- <-] HP. split_and!; [done|done|]. intros x Hx. by apply elem_of_nil in Hx.
  - intros (v & s1 & H1 & H2)%bind_ok_inv HP.
    destruct (Hf x s v s1) as (HP1 & HR1 & HQ1); [left|done|done|].
    destruct (IH ltac:(intros y ? ? ? Hy; apply Hf; by right) s1 H2 HP1) as (HP2 & HR2 & HQ2).
    split_and!; [done|by etrans|]. intros y [->|Hy]%elem_of_cons; [by eapply HQ|by apply HQ2].
Qed.

(** The same for a loop that collects results. *)
Lemma mapM_ok_all {S E A B} (P : S → Prop) (R : relation S) `{!PreOrder R}
    (Q : A → B → S → Prop) (l : list A) (f : A → M S E B) s bs s' :
  (∀ x s b s', x ∈ l → f x s = (Ok b, s') → P s → P s' ∧ R s s' ∧ Q x b s') →
  (∀ x b s s', Q x b s → R s s' → Q x b s') →
  mapM f l s = (Ok bs, s') → P s → P s' ∧ R s s' ∧ Forall2 (λ x b, Q x b s') l bs.
Proof.
  intros Hf HQ. revert s bs. induction l as [|x l IH]; intros s bs; simpl.
  - intros [= <- <-] HP. by split_and!.
  - intros (b & s1 & H1 & H2)%bind_ok_inv HP. apply bind_ok_inv in H2 as (bs' & s2 & H2 & H3).
    injection H3 as <- <-.
    destruct (Hf x s b s1) as (HP1 & HR1 & HQ1); [left|done|done|].
    destruct (IH ltac:(intros y ? ? ? Hy; apply Hf; by right) s1 bs' H2 HP1) as (HP2 & HR2 & HQ2).
    split_and!; [done|by etrans|]. constructor; [by eapply HQ|done].
Qed.

Lemma for_each_mapM {S E A} (l : list A) (f : A → M S E unit) s u s' :
  for_each l f s = (Ok u, s') → ∃ us, mapM f l s = (Ok us, s').
Proof.
  revert s. induction l as [|x l IH]; intros s; simpl.
  - intros [= <- <-]. by exists [].
  - intros ([] & s1 & H1 & H2)%bind_ok_inv. destruct (IH s1 H2) as [us Hus]. exists (tt :: us).
    rewrite (bind_ok _ _ _ _ _ H1), (bind_ok _ _ _ _ _ Hus). done.
Qed.

(** A loop over distinct keys whose iterations touch only the part of the
    state that belongs to their key: each one finds its part as the loop found
    it, and leaves it as the loop does. *)
Section separate.
Context {S E A B K : Type} (key : A → K) (P : S → Prop) (Same : K → relation S).
Context `{∀ k, PreOrder (Same k)} (Q : A → B → relation S).
Context (Qframe : ∀ x b s0 s s' s2,
  Same (key x) s0 s → Q x b s s' → Same (key x) s' s2 → Q x b s0 s2).

Lemma mapM_separate_from (l : list A) (f : A → M S E B) s0 s bs s' :
  (∀ x s b s', x ∈ l → f x s = (Ok b, s') → P s → Same (key x) s0 s →
     P s' ∧ (∀ k, k ≠ key x → Same k s s') ∧ Q x b s s') →
  (∀ x, x ∈ l → Same (key x) s0 s) →
  NoDup (key <$> l) → mapM f l s = (Ok bs, s') → P s →
  P s' ∧ (∀ k, k ∉ key <$> l → Same k s s') ∧ Forall2 (λ x b, Q x b s s') l bs.
Proof using Qframe H.
  intros Hf. revert s bs. induction l as [|x l IH]; intros s bs Hs0 Hnd; simpl.
  - intros [= <- <-] HP. by split_and!.
  - apply NoDup_cons in Hnd as [Hx Hnd].
    assert (Hne : ∀ y, y ∈ l → key y ≠ key x).
    { intros y Hy Heq. apply Hx. rewrite <- Heq. apply list_elem_of_fmap. by exists y. }
    intros (b & s1 & H1 & H2)%bind_ok_inv HP. apply bind_ok_inv in H2 as (bs' & s2 & H2 & H3).
    injection H3 as <- <-.
    destruct (Hf x s b s1) as (HP1 & HS1 & HQ1); [left|done|done|apply Hs0; left|].
    destruct (IH ltac:(intros y ? ? ? Hy; apply Hf; by right) s1 bs') as (HP2 & HS2 & HQ2);
      [intros y Hy; etrans; [apply Hs0; by right|by apply HS1, Hne]|done..|].
    split_and!; [done| |].
    + intros k [Hk1 Hk2]%not_elem_of_cons. etrans; [by apply HS1|by apply HS2].
    + constructor; [eapply Qframe; [reflexivity|exact HQ1|by apply HS2]|].
      apply Forall2_same_length_lookup in HQ2 as [Hlen HQ2]. apply Forall2_same_length_lookup.
      split; [done|]. intros i y c Hy Hc. eapply Qframe; [|by eapply HQ2|reflexivity].
      apply HS1, Hne. by eapply list_elem_of_lookup_2.
Qed.

Lemma mapM_separate (l : list A) (f : A → M S E B) s0 bs s' :
  (∀ x s b s', x ∈ l → f x s = (Ok b, s') → P s → Same (key x) s0 s →
     P s' ∧ (∀ k, k ≠ key x → Same k s s') ∧ Q x b s s') →
  NoDup (key <$> l) → mapM f l s0 = (Ok bs, s') → P s0 →
  P s' ∧ (∀ k, k ∉ key <$> l → Same k s0 s') ∧ Forall2 (λ x b, Q x b s0 s') l bs.
Proof using Qframe H. intros Hf. by apply mapM_separate_from with (s0 := s0). Qed.
End separate.

Lemma for_each_separate {S E A K} (key : A → K) (P : S → Prop) (Same : K → relation S)
    `{∀ k, PreOrder (Same k)} (Q : A → relation S) (l : list A) (f : A → M S E unit) s u s' :
  (∀ x s0 s s' s2, Same (key x) s0 s → Q x s s' → Same (key x) s' s2 → Q x s0 s2) →
  (∀ x s1 u s2, x ∈ l → f x s1 = (Ok u, s2) → P s1 → Same (key x) s s1 →
     P s2 ∧ (∀ k, k ≠ key x → Same k s1 s2) ∧ Q x s1 s2) →
  NoDup (key <$> l) → for_each l f s = (Ok u, s') → P s →
  P s' ∧ (∀ k, k ∉ key <$> l → Same k s s') ∧ ∀ x, x ∈ l → Q x s s'.
Proof.
  intros HQ Hf Hnd [us Hus]%for_each_mapM HP.
  destruct (mapM_separate key P Same (λ x _, Q x) (λ x _, HQ x) l f s us s' Hf Hnd Hus HP)
    as (HP' & HS & Hall).
  split_and!; [done|done|]. intros x [i Hx]%list_elem_of_lookup.
  by destruct (Forall2_lookup_l _ _ _ _ _ Hall Hx) as (? & _ & Hq).
Qed.

Ltac ok_inv H :=
  lazymatch type of H with
  | (?m ≫= ?f) ?s = (Ok _, _) =>
      let a := fresh "a" in let s' := fresh "s" in let H1 := fresh "Hrun" in
      apply bind_ok_inv in H as (a & s' & H1 & H); ok_inv H1; cbv beta in H; ok_inv H
  | throw_if _ _ _ = (Ok _, _) =>
      let Hb := fresh "Hguard" in apply throw_if_ok_inv in H as [Hb ->]
  | throw _ _ = (Ok _, _) => discriminate H
  | atomically _ _ = (Ok _, _) => apply atomically_ok_inv in H; ok_inv H
  | get _ = (Ok _, _) => unfold get in H; injection H as <- <-
  | gets _ _ = (Ok _, _) => unfold gets in H; injection H as <- <-
  | modify _ _ = (Ok _, _) => unfold modify in H; injection H as <- <-
  | mret _ _ = (Ok _, _) => unfold mret, M_ret in H; injection H as <- <-
  | ret _ _ = (Ok _, _) => unfold ret in H; injection H as <- <-
  | (let _ := _ in _) = (Ok _, _) => cbv zeta in H; ok_inv H
  | _ => idtac
  end.

(** ** Partial-correctness triples for [M] *)

Definition triple {S E A} (P : S → Prop) (m : M S E A)
    (Q : A → S → Prop) (X : E → S → Prop) : Prop :=
  ∀ s, P s → match m s with
             | (Ok a, s') => Q a s'
             | (Throw e, s') => X e s'
             end.

Section triple_rules.
Context {S E : Type}.
Implicit Types P : S → Prop.

Lemma triple_ret {A} (a : A) P (Q : A → S → Prop) X :
  (∀ s, P s → Q a s) → triple (E:=E) P (ret a) Q X.
Proof. intros H s HP. by apply H. Qed.

Lemma triple_mret {A} (a : A) P (Q : A → S → Prop) X :
  (∀ s, P s → Q a s) → triple (E:=E) P (mret a) Q X.
Proof. intros H s HP. by apply H. Qed.

Lemma triple_throw {A} (e : E) P (Q : A → S → Prop) X :
  (∀ s, P s → X e s) → triple P (throw e) Q X.
Proof. intros H s HP. by apply H. Qed.

Lemma triple_gets {A} (f : S → A) P (Q : A → S → Prop) X :
  (∀ s, P s → Q (f s) s) → triple (E:=E) P (gets f) Q X.
Proof. intros H s HP. by apply H. Qed.

Lemma triple_modify (f : S → S) P Q X :
  (∀ s, P s → Q tt (f s)) → triple (E:=E) P (modify f) Q X.
Proof. intros H s HP. by apply H. Qed.

Lemma triple_bind {A B} (m : M S E A) (f : A → M S E B) P R Q X :
  triple P m R X → (∀ a, triple (R a) (f a) Q X) → triple P (m ≫= f) Q X.
Proof.
  intros Hm Hf s HP. specialize (Hm s HP). unfold mbind, M_bind.
  destruct (m s) as [[a|e] s']; [by apply Hf | done].
Qed.

Lemma triple_try {A} (m : M S E A) h P Q Y X :
  triple P m Q Y → (∀ e, triple (Y e) (h e) Q X) → triple P (try_catch m h) Q X.
Proof.
  intros Hm Hh s HP. specialize (Hm s HP). unfold try_catch.
  destruct (m s) as [[a|e] s']; [done | by apply Hh].
Qed.

Lemma triple_weaken {A} (m : M S E A) P P' (Q Q' : A → S → Prop) (X X' : E → S → Prop) :
  triple P' m Q' X' → (∀ s, P s → P' s) → (∀ a s, Q' a s → Q a s) →
  (∀ e s, X' e s → X e s) → triple P m Q X.
Proof.
  intros Hm HP HQ HX s Hs. specialize (Hm s (HP s Hs)).
  destruct (m s) as [[a|e] s']; eauto.
Qed.

Lemma triple_pure {A} (φ : Prop) (m : M S E A) P Q X :
  (φ → triple P m Q X) → triple (λ s, P s ∧ φ) m Q X.
Proof. intros H s [HP Hφ]. by apply H. Qed.

Lemma triple_if {A} (b : bool) (m1 m2 : M S E A) P Q X :
  (b = true → triple P m1 Q X) → (b = false → triple P m2 Q X) →
  triple P (if b then m1 else m2) Q X.
Proof. destruct b; eauto. Qed.

Lemma triple_conj {A} (m : M S E A) P P' Q Q' X X' :
  triple P m Q X → triple P' m Q' X' →
  triple (λ s, P s ∧ P' s) m (λ a s, Q a s ∧ Q' a s) (λ e s, X e s ∧ X' e s).
Proof.
  intros H H' s [HP HP']. specialize (H s HP). specialize (H' s HP').
  by destruct (m s) as [[a|e] s'].
Qed.

Lemma triple_for_each {A} (l : list A) (f : A → M S E unit) P X :
  (∀ x, x ∈ l → triple P (f x) (λ _, P) X) →
  triple P (for_each l f) (λ _, P) X.
Proof.
  induction l as [|x l IH]; intros H; simpl; [by apply triple_ret|].
  eapply triple_bind; [apply H; left | intros []; apply IH; intros y Hy; apply H; by right].
Qed.
End triple_rules.

(** ** Insertion-ordered dictionaries (JavaScript's [Map] and [Set])

    A [Map] iterates its entries in insertion order and [set] on a present
    key keeps its place. *)

Section jsmap.
Context {K V : Type} `{EqDecision K}.
Implicit Types m : list (K * V).

Fixpoint map_get (k : K) m : option V :=
  match m with
  | [] => None
  | (k', v) :: m' => if decide (k = k') then Some v else map_get k m'
  end.

Fixpoint map_set (k : K) (v : V) m : list (K * V) :=
  match m with
  | [] => [(k, v)]
  | (k', v') :: m' =>
      if decide (k = k') then (k, v) :: m' else (k', v') :: map_set k v m'
  end.

Definition map_has (k : K) m : bool := bool_decide (k ∈ m.*1).

Definition map_of (l : list (K * V)) : list (K * V) :=
  foldl (λ m kv, map_set kv.1 kv.2 m) [] l.

Lemma map_get_None k m : map_get k m = None ↔ k ∉ m.*1.
Proof.
  induction m as [|[k' v] m IH]; simpl; [set_solver|].
  rewrite not_elem_of_cons. case_decide; [naive_solver|]. rewrite IH. naive_solver.
Qed.

Lemma map_get_elem k v m : map_get k m = Some v → (k, v) ∈ m.
Proof.
  induction m as [|[k' v'] m IH]; simpl; [done|].
  case_decide as Hk; intros; simplify_eq; [left | right; auto].
Qed.

Lemma map_get_NoDup k v m : NoDup m.*1 → (k, v) ∈ m → map_get k m = Some v.
Proof.
  induction m as [|[k' v'] m IH]; simpl; [set_solver|].
  intros [Hn Hd]%NoDup_cons [Heq|Hin]%elem_of_cons.
  - simplify_eq. by rewrite decide_True.
  - rewrite decide_False; [by apply IH|]. intros ->. apply Hn.
    apply list_elem_of_fmap. by exists (k', v).
Qed.

Lemma map_get_set_eq k v m : map_get k (map_set k v m) = Some v.
Proof.
  induction m as [|[k' v'] m IH]; simpl; [by rewrite decide_True|].
  case_decide; simpl; [by rewrite decide_True | by rewrite decide_False].
Qed.

Lemma map_get_set_ne k k' v m : k ≠ k' → map_get k (map_set k' v m) = map_get k m.
Proof.
  intros Hne. induction m as [|[k'' v'] m IH]; simpl.
  - by rewrite decide_False.
  - repeat (case_decide; simplify_eq/=); congruence.
Qed.

Lemma map_set_absent k v m : k ∉ m.*1 → map_set k v m = m ++ [(k, v)].
Proof.
  induction m as [|[k' v'] m IH]; simpl; [done|]. intros Hn.
  rewrite decide_False by set_solver. rewrite IH; [done|set_solver].
Qed.

Lemma map_set_keys k v m :
  (map_set k v m).*1 = if decide (k ∈ m.*1) then m.*1 else m.*1 ++ [k].
Proof.
  induction m as [|[k' v'] m IH]; simpl.
  - done.
  - destruct (decide (k = k')) as [->|Hne]; csimpl.
    + rewrite decide_True; [done|left].
    + rewrite IH. destruct (decide (k ∈ m.*1)) as [Hin|Hin].
      * rewrite decide_True; [done|by right].
      * rewrite decide_False; [done|]. by apply not_elem_of_cons.
Qed.

Lemma map_set_NoDup k v m : NoDup m.*1 → NoDup (map_set k v m).*1.
Proof.
  intros Hd. rewrite map_set_keys. case_decide; [done|].
  apply NoDup_app. split_and!; [done|set_solver|apply NoDup_singleton].
Qed.

Lemma map_set_elem k v m x : x ∈ map_set k v m → x = (k, v) ∨ x ∈ m.
Proof.
  induction m as [|[k' v'] m IH]; simpl; [set_solver|].
  case_decide; set_solver.
Qed.

Lemma map_of_absent (l m : list (K * V)) :
  NoDup (m ++ l).*1 → foldl (λ m kv, map_set kv.1 kv.2 m) m l = m ++ l.
Proof.
  revert m. induction l as [|[k v] l IH]; intros m Hd; simpl; [by rewrite app_nil_r|].
  rewrite map_set_absent.
  - rewrite IH; rewrite <- app_assoc; done.
  - rewrite fmap_app in Hd. apply NoDup_app in Hd as (_ & Hn & _). intros Hk.
    apply (Hn _ Hk). left.
Qed.

(** [new Map(l.map(x => [key(x), x]))] of a list without duplicate keys. *)
Lemma map_of_get_by (key : V → K) (l : list V) k v :
  NoDup (key <$> l) →
  map_get k (map_of ((λ x, (key x, x)) <$> l)) = Some v ↔ v ∈ l ∧ key v = k.
Proof.
  intros Hd. assert (Hk : ((λ x, (key x, x)) <$> l).*1 = key <$> l)
    by (by rewrite <- list_fmap_compose).
  unfold map_of. rewrite (map_of_absent _ []) by (simpl; by rewrite Hk). simpl. split.
  - intros Hg%map_get_elem. apply list_elem_of_fmap in Hg as (x & [= -> ->] & Hx). done.
  - intros [Hv <-]. apply map_get_NoDup; [by rewrite Hk|].
    apply list_elem_of_fmap. by exists v.
Qed.
End jsmap.

(** ** Partial functions and comparisons *)

Lemma guard_bind_Some (P : Prop) `{Decision P} {B} (k : P → option B) b :
  (guard P ≫= k) = Some b → ∃ p : P, k p = Some b.
Proof. case_guard; naive_solver. Qed.

Lemma omap_ext_in {A B} (f g : A → option B) (l : list A) :
  (∀ x, x ∈ l → f x = g x) → omap f l = omap g l.
Proof.
  induction l as [|x l IH]; intros H; simpl; [done|].
  rewrite (H x) by left.
  assert (omap f l = omap g l) as Hl by (apply IH; intros y Hy; apply H; by right).
  destruct (g x); [f_equal|]; exact Hl.
Qed.

Lemma existsb_none {A} (p : A → bool) l : existsb p l = false → ∀ x, x ∈ l → p x = false.
Proof.
  intros He x Hx. destruct (p x) eqn:Hp; [|done].
  assert (existsb p l = true) by (apply existsb_exists; exists x; by rewrite <- list_elem_of_In). congruence.
Qed.

(** Unfolds one step of a chain of option binds that produced a value. *)
Ltac option_step H :=
  first
    [ let p := fresh "Hg" in apply guard_bind_Some in H as [p H]
    | let x := fresh "x" in let E := fresh "E" in apply bind_Some in H as (x & E & H) ].
Ltac option_invert H := repeat (option_step H; cbv beta zeta in H).

(** SQL comparisons: a comparison with NULL is not true, so a WHERE clause
    that needs it does not select the row. *)
Definition sql_le (o : option Z) (now : Z) : bool :=
  match o with Some t => (t <=? now)%Z | None => false end.
Definition sql_gt (o : option Z) (now : Z) : bool :=
  match o with Some t => (now <? t)%Z | None => false end.
Definition sql_eq {A} `{EqDecision A} (o : option A) (a : A) : bool :=
  match o with Some x => bool_decide (x = a) | None => false end.
(** [col IS NULL OR col <= now] *)
Definition null_or_le (o : option Z) (now : Z) : bool :=
  match o with Some t => (t <=? now)%Z | None => true end.

Definition is_null {A} (o : option A) : bool :=
  match o with None => true | Some _ => false end.

(** ** String orders

    [Array.prototype.sort] without a comparator orders strings by code units:
    stdpp's [String.le].  [String.prototype.localeCompare] is
    implementation-defined; ECMA-402 makes it a consistent comparator, and on
    the identifiers of this program (ASCII letters, digits and hyphens) it
    separates distinct strings. *)

Lemma string_length_app (s1 s2 : string) :
  String.length (s1 +:+ s2) = (String.length s1 + String.length s2)%nat.
Proof. induction s1 as [|a s1 IH]; simpl; [done|]. by rewrite IH. Qed.

Definition id_char (a : Ascii.ascii) : bool :=
  let n := Ascii.nat_of_ascii a in
  ((48 <=? n) && (n <=? 57) || (65 <=? n) && (n <=? 90)
   || (97 <=? n) && (n <=? 122) || (n =? 45))%nat.

Fixpoint string_forall (p : Ascii.ascii → bool) (s : string) : bool :=
  match s with
  | String.EmptyString => true
  | String.String a s' => p a && string_forall p s'
  end.

Definition identifier (s : string) : bool := string_forall id_char s.

Lemma string_forall_app p s t : string_forall p (s +:+ t) = string_forall p s && string_forall p t.
Proof. induction s as [|a s IH]; simpl; [done|]. by rewrite IH, andb_assoc. Qed.

Lemma string_forall_impl (p q : Ascii.ascii → bool) s :
  (∀ a, p a = true → q a = true) → string_forall p s = true → string_forall q s = true.
Proof. intros Hpq. induction s as [|a s IH]; simpl; [done|]. intros [? ?]%andb_prop. by rewrite Hpq, IH. Qed.

(** A fact about all characters, by computation. *)
Lemma for_ascii (p : Ascii.ascii → bool) :
  forallb p (Ascii.ascii_of_nat <$> seq 0 256) = true → ∀ a, p a = true.
Proof.
  intros Hall a. eapply forallb_forall in Hall; [exact Hall|].
  apply list_elem_of_In, list_elem_of_fmap. exists (Ascii.nat_of_ascii a).
  rewrite Ascii.ascii_nat_embedding. split; [done|]. apply elem_of_seq. pose proof (Ascii.nat_ascii_bounded a). lia.
Qed.

Lemma for_ascii_impl (p q : Ascii.ascii → bool) :
  forallb (λ a, negb (p a) || q a) (Ascii.ascii_of_nat <$> seq 0 256) = true →
  ∀ a, p a = true → q a = true.
Proof. intros H a Hp. pose proof (for_ascii _ H a) as Ha. cbv beta in Ha. by rewrite Hp in Ha. Qed.

Class LocaleCompare := {
  localeCompare : string → string → Z;
  lc_refl a : (localeCompare a a ≤ 0)%Z;
  lc_total a b : (localeCompare a b ≤ 0)%Z ∨ (localeCompare b a ≤ 0)%Z;
  lc_trans a b c : (localeCompare a b ≤ 0)%Z → (localeCompare b c ≤ 0)%Z →
                   (localeCompare a c ≤ 0)%Z;
  lc_sign a b : (localeCompare a b < 0)%Z ↔ (0 < localeCompare b a)%Z;
  lc_identifiers a b : identifier a → identifier b →
    localeCompare a b = 0%Z → a = b;
}.

(** Code-unit comparison is one such comparator. *)
#[local] Definition code_unit_compare (a b : string) : Z :=
  if decide (a = b) then 0 else if decide (String.le a b) then -1 else 1.

#[local] Lemma code_unit_le a b : (code_unit_compare a b ≤ 0)%Z ↔ String.le a b.
Proof.
  unfold code_unit_compare. case_decide; [subst; split; [done|lia]|].
  case_decide; split; (done || lia).
Qed.

Definition codeUnitLocale : LocaleCompare.
Proof.
  refine {| localeCompare := code_unit_compare |}.
  - intros a. by apply code_unit_le.
  - intros a b. rewrite !code_unit_le. apply (total String.le).
  - intros a b c. rewrite !code_unit_le. apply (transitivity (R:=String.le)).
  - intros a b. unfold code_unit_compare.
    repeat case_decide; subst; try (split; lia); try congruence.
    + exfalso. by apply H, (anti_symm String.le).
    + exfalso. destruct (total String.le a b); done.
  - intros a b _ _. unfold code_unit_compare. repeat case_decide; done || lia.
Defined.

Section locale_order.
Context `{LocaleCompare}.
Definition locale_le (a b : string) : Prop := (localeCompare a b ≤ 0)%Z.
#[export] Instance locale_le_dec a b : Decision (locale_le a b).
Proof. unfold locale_le. apply _. Defined.
#[export] Instance locale_le_total : Total locale_le.
Proof. intros a b. apply lc_total. Qed.
#[export] Instance locale_le_trans : Transitive locale_le.
Proof. intros a b c. apply lc_trans. Qed.
Lemma locale_le_antisymm a b :
  identifier a → identifier b → locale_le a b → locale_le b a → a = b.
Proof.
  unfold locale_le. intros Ha Hb Hab Hba. apply lc_identifiers; [done..|].
  destruct (decide (localeCompare a b < 0)%Z) as [Hlt|]; [|lia].
  apply lc_sign in Hlt. lia.
Qed.
End locale_order.

(** [l.sort()] on strings *)
Definition sort_strings (l : list string) : list string := merge_sort String.le l.

(** A sort by a total order does not depend on the order of its input when
    the order separates the elements. *)
Lemma merge_sort_Permutation_eq {A} (R : relation A) `{∀ x y, Decision (R x y)}
    `{!Total R} `{!Transitive R} (l1 l2 : list A) :
  (∀ x y, x ∈ l1 → y ∈ l1 → R x y → R y x → x = y) →
  l1 ≡ₚ l2 → merge_sort R l1 = merge_sort R l2.
Proof.
  intros Hanti Hp.
  assert (Hq : merge_sort R l1 ≡ₚ merge_sort R l2)
    by (by rewrite !merge_sort_Permutation).
  apply (StronglySorted_unique_strong R); [|by apply StronglySorted_merge_sort..|done].
  intros x y Hx Hy. rewrite merge_sort_Permutation in Hx, Hy.
  apply Hanti; [done|by rewrite Hp].
Qed.

Lemma elem_of_merge_sort {A} (R : relation A) `{∀ x y, Decision (R x y)} (l : list A) x :
  x ∈ merge_sort R l ↔ x ∈ l.
Proof. by rewrite merge_sort_Permutation. Qed.

(** [new Set(...)]: [add] keeps the first occurrence. *)
Definition set_add {A} `{EqDecision A} (x : A) (s : list A) : list A :=
  if decide (x ∈ s) then s else s ++ [x].

(** ** [ORDER BY] over several keys *)

Definition lex {A B} `{EqDecision B} (key : A → B) (R : relation B) (rest : relation A) : relation A :=
  λ x y, if decide (key x = key y) then rest x y else R (key x) (key y).
Definition by_key {A B} (key : A → B) (R : relation B) : relation A := λ x y, R (key x) (key y).

(** Distinct keys are ordered. *)
Class Connected {A} (R : relation A) : Prop := connected x y : R x y ∨ x = y ∨ R y x.

Section lex.
Context {A B : Type} `{EqDecision B} (key : A → B) (R : relation B) (rest : relation A).

#[export] Instance lex_dec : RelDecision R → RelDecision rest → RelDecision (lex key R rest).
Proof. intros ? ? x y. unfold lex. case_decide; apply _. Defined.
#[export] Instance lex_trans :
  AntiSymm (=) R → Transitive R → Transitive rest → Transitive (lex key R rest).
Proof.
  intros Ha HR Hrest x y z. unfold lex.
  destruct (decide (key x = key y)) as [E1|N1], (decide (key y = key z)) as [E2|N2].
  - rewrite decide_True by congruence. apply Hrest.
  - rewrite decide_False, E1 by congruence. done.
  - rewrite decide_False, <- E2 by congruence. done.
  - intros H1 H2. destruct (decide (key x = key z)) as [E|N]; [|by etrans].
    destruct N1. apply (anti_symm R); [done|]. by rewrite E.
Qed.
#[export] Instance lex_total : Connected R → Total rest → Total (lex key R rest).
Proof.
  intros HR Hrest x y. unfold lex. destruct (decide (key x = key y)) as [E|N].
  - rewrite decide_True by done. apply (total rest).
  - rewrite (decide_False (P := key y = key x)) by congruence.
    destruct (HR (key x) (key y)) as [|[|]]; tauto.
Qed.

#[export] Instance by_key_dec : RelDecision R → RelDecision (by_key key R).
Proof. intros ? x y. unfold by_key. apply _. Defined.
#[export] Instance by_key_trans : Transitive R → Transitive (by_key key R).
Proof. intros HR x y z. apply HR. Qed.
#[export] Instance by_key_total : Total R → Total (by_key key R).
Proof. intros HR x y. apply HR. Qed.
End lex.

#[export] Instance Z_lt_antisymm : AntiSymm (=) Z.lt.
Proof. intros x y. lia. Qed.
#[export] Instance Z_gt_antisymm : AntiSymm (=) (flip Z.lt).
Proof. intros x y. unfold flip. lia. Qed.
#[export] Instance Z_lt_connected : Connected Z.lt.
Proof. intros x y. lia. Qed.
#[export] Instance Z_gt_connected : Connected (flip Z.lt).
Proof. intros x y. unfold flip. lia. Qed.
#[export] Instance string_le_connected : Connected String.le.
Proof. intros x y. destruct (total String.le x y); tauto. Qed.
