(* ===== verification/Keeps.v ===== *)
(** * What a computation leaves as it is

    [keeps R m]: whether [m] returns or throws, it takes every state to a state
    in the preorder [R].  A statement is looked at once; the transactions
    composed of statements follow by their syntax (tactic [keeps]). *)

From S2P Require Import Prelude.

Definition keeps {S E A} (R : relation S) (m : M S E A) : Prop := ∀ s, R s (m s).2.

Create HintDb keeps.

Section rules.
Context {S E : Type} (R : relation S) `{!PreOrder R}.

Lemma keeps_mret {A} (a : A) : keeps (E:=E) R (mret a).
Proof. intros s. reflexivity. Qed.
Lemma keeps_ret {A} (a : A) : keeps (E:=E) R (ret a).
Proof. intros s. reflexivity. Qed.
Lemma keeps_throw {A} (e : E) : keeps R (A:=A) (throw e).
Proof. intros s. reflexivity. Qed.
Lemma keeps_get : keeps (E:=E) R get.
Proof. intros s. reflexivity. Qed.
Lemma keeps_gets {A} (f : S → A) : keeps (E:=E) R (gets f).
Proof. intros s. reflexivity. Qed.
Lemma keeps_modify (f : S → S) : (∀ s, R s (f s)) → keeps (E:=E) R (modify f).
Proof. intros Hf s. apply Hf. Qed.
Lemma keeps_bind {A B} (m : M S E A) (f : A → M S E B) :
  keeps R m → (∀ a, keeps R (f a)) → keeps R (m ≫= f).
Proof using PreOrder0.
  intros Hm Hf s. specialize (Hm s). unfold mbind, M_bind.
  destruct (m s) as [[a|e] s']; [|done]. etrans; [exact Hm|apply Hf].
Qed.
Lemma keeps_throw_if b (e : E) : keeps R (throw_if b e).
Proof. intros s. destruct b; reflexivity. Qed.
Lemma keeps_when b (m : M S E unit) : keeps R m → keeps R (when b m).
Proof. intros Hm s. destruct b; [apply Hm|reflexivity]. Qed.
Lemma keeps_atomically {A} (m : M S E A) : keeps R m → keeps R (atomically m).
Proof.
  intros Hm s. specialize (Hm s). unfold atomically. destruct (m s) as [[a|e] s']; [done|reflexivity].
Qed.
Lemma keeps_try {A} (m : M S E A) h : keeps R m → (∀ e, keeps R (h e)) → keeps R (try_catch m h).
Proof using PreOrder0.
  intros Hm Hh s. specialize (Hm s). unfold try_catch.
  destruct (m s) as [[a|e] s']; [done|]. etrans; [exact Hm|apply Hh].
Qed.
Lemma keeps_for_each {A} (l : list A) (f : A → M S E unit) :
  (∀ x, keeps R (f x)) → keeps R (for_each l f).
Proof using PreOrder0.
  intros Hf. induction l as [|x l IH]; simpl; [apply keeps_ret|]. apply keeps_bind; auto.
Qed.
Lemma keeps_mapM {A B} (l : list A) (f : A → M S E B) :
  (∀ x, keeps R (f x)) → keeps R (mapM f l).
Proof using PreOrder0.
  intros Hf. induction l as [|x l IH]; simpl; [apply keeps_mret|].
  apply keeps_bind; [done|]. intros y. apply keeps_bind; [done|]. intros. apply keeps_mret.
Qed.

(** The state a run ends in. *)
Lemma keeps_run {A} (m : M S E A) s r s' : keeps R m → m s = (r, s') → R s s'.
Proof. intros Hm Hr. specialize (Hm s). by rewrite Hr in Hm. Qed.
End rules.

(** [commits R m]: the same of the runs that return.  What a transaction is
    composed of needs no more: a throw rolls it back. *)
Definition commits {S E A} (R : relation S) (m : M S E A) : Prop :=
  ∀ s a s', m s = (Ok a, s') → R s s'.

Create HintDb commits.

Section commits_rules.
Context {S E : Type} (R : relation S) `{!PreOrder R}.

Lemma commits_keeps {A} (m : M S E A) : keeps R m → commits R m.
Proof. intros Hm s a s'. by apply keeps_run. Qed.
Lemma commits_mret {A} (a : A) : commits (E:=E) R (mret a).
Proof. by apply commits_keeps, keeps_mret. Qed.
Lemma commits_ret {A} (a : A) : commits (E:=E) R (ret a).
Proof. by apply commits_keeps, keeps_ret. Qed.
Lemma commits_throw {A} (e : E) : commits R (A:=A) (throw e).
Proof. by apply commits_keeps, keeps_throw. Qed.
Lemma commits_get : commits (E:=E) R get.
Proof. by apply commits_keeps, keeps_get. Qed.
Lemma commits_gets {A} (f : S → A) : commits (E:=E) R (gets f).
Proof. by apply commits_keeps, keeps_gets. Qed.
Lemma commits_throw_if b (e : E) : commits R (throw_if b e).
Proof. by apply commits_keeps, keeps_throw_if. Qed.
Lemma commits_bind {A B} (m : M S E A) (f : A → M S E B) :
  commits R m → (∀ a, commits R (f a)) → commits R (m ≫= f).
Proof using PreOrder0. intros Hm Hf s b s' (a & s1 & H1 & H2)%bind_ok_inv. etrans; [by eapply Hm|by eapply Hf]. Qed.
Lemma commits_when b (m : M S E unit) : commits R m → commits R (when b m).
Proof. intros Hm s a s' [[_ Hr]|[_ ->]]%when_ok_inv; [by eapply Hm|reflexivity]. Qed.
Lemma commits_for_each {A} (l : list A) (f : A → M S E unit) :
  (∀ x, commits R (f x)) → commits R (for_each l f).
Proof using PreOrder0.
  intros Hf. induction l as [|x l IH]; simpl; [apply commits_ret|]. apply commits_bind; auto.
Qed.
Lemma commits_atomically {A} (m : M S E A) : commits R m → commits R (atomically m).
Proof. intros Hm s a s' Hr%atomically_ok_inv. by eapply Hm. Qed.

(** A transaction that throws has changed nothing. *)
Lemma transaction_keeps {A} (m : M S E A) : commits R m → keeps R (atomically m).
Proof.
  intros Hm s. specialize (Hm s). unfold atomically. destruct (m s) as [[a|e] s']; [by eapply Hm|reflexivity].
Qed.
End commits_rules.
(** [undone R m]: the same of the runs that throw. *)
Definition undone {S E A} (R : relation S) (m : M S E A) : Prop :=
  ∀ s e s', m s = (Throw e, s') → R s s'.
Lemma undone_atomically {S E A} (R : relation S) `{!Reflexive R} (m : M S E A) : undone R (atomically m).
Proof. intros s e s' ->%atomically_throw_inv. reflexivity. Qed.
Lemma undone_bind {S E A B} (R : relation S) `{!PreOrder R} (m : M S E A) (f : A → M S E B) :
  keeps R m → (∀ a, undone R (f a)) → undone R (m ≫= f).
Proof.
  intros Hm Hf s e s'. specialize (Hm s). unfold mbind, M_bind.
  destruct (m s) as [[a|e'] s1]; simpl in Hm; [|by intros [= <- <-]]. intros Hr. etrans; [exact Hm|by eapply Hf].
Qed.
(** [keeps_unless R B m]: the same, unless it throws in a state of [B]; and
    [undone_unless R B m], the same of the runs that throw. *)
Definition keeps_unless {S E A} (R : relation S) (B : S → Prop) (m : M S E A) : Prop :=
  ∀ s, match m s with (Ok _, s') => R s s' | (Throw _, s') => R s s' ∨ B s' end.
Definition undone_unless {S E A} (R : relation S) (B : S → Prop) (m : M S E A) : Prop :=
  ∀ s e s', m s = (Throw e, s') → R s s' ∨ B s'.

Create HintDb keeps_unless.

Section unless_rules.
Context {S E : Type} (R : relation S) `{!PreOrder R} (B : S → Prop).

Lemma unless_keeps {A} (m : M S E A) : keeps R m → keeps_unless R B m.
Proof. intros Hm s. specialize (Hm s). destruct (m s) as [[a|e] s']; [done|by left]. Qed.
Lemma unless_bind {A B'} (m : M S E A) (f : A → M S E B') :
  keeps_unless R B m → (∀ a, keeps_unless R B (f a)) → keeps_unless R B (m ≫= f).
Proof using PreOrder0.
  intros Hm Hf s. specialize (Hm s). unfold mbind, M_bind. destruct (m s) as [[a|e] s1]; [|done].
  specialize (Hf a s1). destruct (f a s1) as [[b|e] s2]; [by etrans|]. destruct Hf; [left; by etrans|by right].
Qed.
Lemma unless_when b (m : M S E unit) : keeps_unless R B m → keeps_unless R B (when b m).
Proof. intros Hm. destruct b; [done|]. apply unless_keeps, keeps_mret. apply _. Qed.
Lemma unless_try {A} (m : M S E A) h :
  keeps R m → (∀ e, keeps_unless R B (h e)) → keeps_unless R B (try_catch m h).
Proof using PreOrder0.
  intros Hm Hh s. specialize (Hm s). unfold try_catch. destruct (m s) as [[a|e] s1]; [done|].
  specialize (Hh e s1). simpl in Hm. destruct (h e s1) as [[b|e'] s2]; [by etrans|].
  destruct Hh; [left; by etrans|by right].
Qed.
Lemma undone_unless_bind {A B'} (m : M S E A) (f : A → M S E B') :
  keeps_unless R B m → (∀ a, undone_unless R B (f a)) → undone_unless R B (m ≫= f).
Proof using PreOrder0.
  intros Hm Hf s e s'. specialize (Hm s). unfold mbind, M_bind.
  destruct (m s) as [[a|e'] s1]; [|by intros [= <- <-]]. intros Hr.
  destruct (Hf a s1 e s' Hr); [left; by etrans|by right].
Qed.
End unless_rules.

(** What follows and changes nothing does not matter to the state. *)
Lemma then_same {S E A B} (m : M S E A) (f : A → M S E B) s :
  (∀ a, keeps eq (f a)) → ((m ≫= f) s).2 = (m s).2.
Proof.
  intros Hf. unfold mbind, M_bind. destruct (m s) as [[a|e] s1]; [|done]. symmetry. apply Hf.
Qed.
Ltac keeps_step :=
  lazymatch goal with
  | |- keeps _ (mret _) => apply keeps_mret; apply _
  | |- keeps _ (ret _) => apply keeps_ret; apply _
  | |- keeps _ (throw _) => apply keeps_throw; apply _
  | |- keeps _ get => apply keeps_get; apply _
  | |- keeps _ (gets _) => apply keeps_gets; apply _
  | |- keeps _ (throw_if _ _) => apply keeps_throw_if; apply _
  | |- keeps _ (when _ _) => apply keeps_when; [apply _|]
  | |- keeps _ (atomically _) => apply keeps_atomically; [apply _|]
  | |- keeps _ (try_catch _ _) => apply keeps_try; [apply _| |intros ?]
  | |- keeps _ (for_each _ _) => apply keeps_for_each; [apply _|intros ?]
  | |- keeps _ (mapM _ _) => apply keeps_mapM; [apply _|intros ?]
  | |- keeps _ (_ ≫= _) => apply keeps_bind; [apply _| |intros ?]
  | |- keeps _ (let _ := _ in _) => cbv zeta
  | |- keeps _ (match ?x with _ => _ end) => destruct x
  | |- keeps _ ((match ?x with _ => _ end) _) => destruct x
  | |- _ => solve [eauto with keeps]
  end.
Ltac keeps := repeat keeps_step.

Ltac unless_step :=
  match goal with
  | |- keeps_unless _ _ (when _ _) => apply unless_when; [apply _|]
  | |- keeps_unless _ _ (try_catch _ _) => apply unless_try; [apply _|solve [keeps]|intros ?]
  | |- keeps_unless _ _ (_ ≫= _) => apply unless_bind; [apply _| |intros ?]
  | |- keeps_unless _ _ (let _ := _ in _) => cbv zeta
  | |- keeps_unless _ _ (match ?x with _ => _ end) => destruct x
  | |- _ => solve [eauto with keeps_unless]
  | |- keeps_unless _ _ _ => apply unless_keeps; solve [keeps]
  end.
Ltac keeps_unless := repeat unless_step.

Ltac commits_step :=
  lazymatch goal with
  | |- commits _ (mret _) => apply commits_mret; apply _
  | |- commits _ (ret _) => apply commits_ret; apply _
  | |- commits _ (throw _) => apply commits_throw; apply _
  | |- commits _ get => apply commits_get; apply _
  | |- commits _ (gets _) => apply commits_gets; apply _
  | |- commits _ (throw_if _ _) => apply commits_throw_if; apply _
  | |- commits _ (when _ _) => apply commits_when; [apply _|]
  | |- commits _ (atomically _) => apply commits_atomically
  | |- commits _ (for_each _ _) => apply commits_for_each; [apply _|intros ?]
  | |- commits _ (_ ≫= _) => apply commits_bind; [apply _| |intros ?]
  | |- commits _ (let _ := _ in _) => cbv zeta
  | |- commits _ (match ?x with _ => _ end) => destruct x
  | |- commits _ ((match ?x with _ => _ end) _) => destruct x
  | |- _ => solve [eauto with commits]
  end.
Ltac commits := repeat commits_step.

(** The state a computation ends in, as a property of the computation. *)
Tactic Notation "as_relation" constr(R) :=
  lazymatch goal with |- _ ?s (?m ?s).2 => apply (λ K : keeps R m, K s) end.
