(* ===== verification/Text.v ===== *)
(** * Texts

    A JavaScript string is kept as its UTF-8 bytes: texts come from the
    database and from JSON, so they are well formed.  Here are the lengths the
    sources measure and the white space they trim. *)

From Stdlib Require Import Ascii.
From S2P Require Import Prelude.
Open Scope nat_scope.

Definition byte_of (a : ascii) : nat := nat_of_ascii a.

(** A byte that continues a character. *)
Definition continues (a : ascii) : bool := (128 <=? byte_of a) && (byte_of a <? 192).

(** [[...value].length] *)
Fixpoint codePointLength (s : string) : nat :=
  match s with
  | EmptyString => 0
  | String a s' => (if continues a then 0 else 1) + codePointLength s'
  end.
(** [value.length]: a character of four bytes is two code units. *)
Fixpoint utf16_length (s : string) : nat :=
  match s with
  | EmptyString => 0
  | String a s' => (if continues a then 0 else if 240 <=? byte_of a then 2 else 1) + utf16_length s'
  end.

(** [z.string().min(1).max(n)] *)
Definition bounded_text (n : nat) (s : string) : bool :=
  (1 <=? utf16_length s) && (utf16_length s <=? n).

(** [s.trim()]: ECMAScript's white space and line terminators are U+0009-000D,
    0020, 00A0, 1680, 2000-200A, 2028, 2029, 202F, 205F, 3000 and FEFF. *)
Fixpoint trimStart (s : string) : string :=
  match s with
  | EmptyString => EmptyString
  | String a s1 =>
      if (9 <=? byte_of a) && (byte_of a <=? 13) || (byte_of a =? 32) then trimStart s1 else
      match s1 with
      | EmptyString => s
      | String b s2 =>
          if (byte_of a =? 194) && (byte_of b =? 160) then trimStart s2 else
          match s2 with
          | EmptyString => s
          | String c s3 =>
              let '(x, y, z) := (byte_of a, byte_of b, byte_of c) in
              if (x =? 225) && (y =? 154) && (z =? 128) ||
                 (x =? 226) && (y =? 128) && ((128 <=? z) && (z <=? 138) || (168 <=? z) && (z <=? 169) || (z =? 175)) ||
                 (x =? 226) && (y =? 129) && (z =? 159) ||
                 (x =? 227) && (y =? 128) && (z =? 128) ||
                 (x =? 239) && (y =? 187) && (z =? 191)
              then trimStart s3 else s
          end
      end
  end.
Fixpoint trimEnd (s : string) : string :=
  match s with
  | EmptyString => EmptyString
  | String a s' =>
      if bool_decide (trimStart s = EmptyString) then EmptyString else String a (trimEnd s')
  end.
Definition trim (s : string) : string := trimEnd (trimStart s).

Example trim_spaces : trim "  a b  "%string = "a b"%string.
Proof. reflexivity. Qed.

(** A text is trimmed once. *)

Lemma shorter_ind (P : string → Prop) :
  (∀ s, (∀ t, String.length t < String.length s → P t) → P s) → ∀ s, P s.
Proof. intros Hstep s. induction s using (well_founded_ind (well_founded_ltof _ String.length)). by apply Hstep. Qed.

#[local] Ltac read_text :=
  cbn [String.length] in *; unfold String.append in *; fold String.append in *; cbn [trimStart] in *.
#[local] Ltac split_white H := match goal with |- context [if ?b then _ else _] => destruct b eqn:H end.

(** White space at the front goes whatever follows. *)
Lemma trimStart_app t s : trimStart s = EmptyString → trimStart (s +:+ t) = trimStart t.
Proof.
  revert s. refine (shorter_ind _ _). intros s IH.
  destruct s as [|a s]; [done|]. read_text. split_white Ha; [by apply IH; lia|].
  destruct s as [|b s]; [done|]. read_text. split_white Hb; [by apply IH; lia|].
  destruct s as [|c s]; [done|]. read_text. split_white Hc; [by apply IH; lia|done].
Qed.
Lemma trimStart_length s : String.length (trimStart s) ≤ String.length s.
Proof.
  revert s. refine (shorter_ind _ _). intros s IH.
  destruct s as [|a s]; [done|]. read_text. split_white Ha; [etrans; [apply IH|]; lia|].
  destruct s as [|b s]; [done|]. read_text. split_white Hb; [etrans; [apply IH|]; lia|].
  destruct s as [|c s]; [done|]. read_text. split_white Hc; [etrans; [apply IH|]; lia|done].
Qed.
Lemma trimStart_fixed s : trimStart (trimStart s) = trimStart s.
Proof.
  revert s. refine (shorter_ind _ _). intros s IH.
  destruct s as [|a s]; [done|]. read_text. split_white Ha; [apply IH; lia|].
  destruct s as [|b s]; [cbn [trimStart]; by rewrite Ha|]. read_text. split_white Hb; [apply IH; lia|].
  destruct s as [|c s]; [cbn [trimStart]; by rewrite Ha, Hb|]. read_text. cbv zeta in *.
  split_white Hc; [apply IH; lia|]. cbn [trimStart]. by rewrite Ha, Hb, Hc.
Qed.

Lemma shorter_text s t : String.length s < String.length t → s ≠ t.
Proof. intros ? ->. lia. Qed.
(** A text that begins with none has no beginning that does. *)
Lemma trimStart_prefix s t : trimStart (s +:+ t) = s +:+ t → trimStart s = s.
Proof.
  destruct s as [|a s]; [done|]. pose proof (trimStart_length (s +:+ t)) as Hlen. read_text.
  split_white Ha; [intros []%shorter_text; read_text; lia|].
  destruct s as [|b s]; [done|]. pose proof (trimStart_length (s +:+ t)) as Hlen'. read_text.
  split_white Hb; [intros []%shorter_text; read_text; lia|].
  destruct s as [|c s]; [done|]. pose proof (trimStart_length (s +:+ t)) as Hlen2. read_text.
  split_white Hc; [intros []%shorter_text; read_text; lia|done].
Qed.

Lemma trimEnd_split s : ∃ white, s = trimEnd s +:+ white ∧ trimStart white = EmptyString.
Proof.
  induction s as [|a s (white & Hs & Hw)]; [by exists EmptyString|]. cbn [trimEnd].
  case_bool_decide as Ht; [by exists (String a s)|]. exists white. split; [|done].
  change (String a s = String a (trimEnd s +:+ white)). by rewrite <- Hs.
Qed.
Lemma trimEnd_idemp s : trimEnd (trimEnd s) = trimEnd s.
Proof.
  induction s as [|a s IH]; [done|]. cbn [trimEnd]. case_bool_decide as Ht; [done|].
  cbn [trimEnd]. rewrite IH, bool_decide_eq_false_2; [done|]. intros Hw. apply Ht.
  destruct (trimEnd_split s) as (white & Hs & Hwhite). rewrite Hs.
  change (String a (trimEnd s +:+ white)) with (String a (trimEnd s) +:+ white). by rewrite trimStart_app.
Qed.
Lemma trim_idemp s : trim (trim s) = trim s.
Proof.
  unfold trim. destruct (trimEnd_split (trimStart s)) as (white & Hs & _).
  rewrite (trimStart_prefix (trimEnd (trimStart s)) white); [apply trimEnd_idemp|].
  rewrite <- Hs. apply trimStart_fixed.
Qed.
