(* ===== verification/Regex.v ===== *)
(** * Regular expressions of JavaScript

    Those the sources write: classes, sequences, alternatives, greedy
    quantifiers, anchors, word boundaries and negative lookahead, on strings of
    UTF-16 code units.  [ends] is the backtracking matcher of ECMAScript, all
    its answers in order of preference; [denote] says what a pattern matches,
    and the two agree.  An ignored case is written out in the classes. *)

From Stdlib Require Import Ascii.
From S2P Require Import Prelude.
Open Scope nat_scope.

(** A JavaScript string: its code units. *)
Notation jstring := (list Z).
(** The code units of an ASCII text. *)
Definition units (s : string) : jstring :=
  (λ a, Z.of_nat (nat_of_ascii a)) <$> String.list_ascii_of_string s.

(** A class: ranges of code units, or all others. *)
Record charclass := { cc_negated : bool; cc_ranges : list (Z * Z) }.
Definition in_class (cc : charclass) (c : Z) : bool :=
  xorb (cc_negated cc) (existsb (λ r : Z * Z, (r.1 <=? c)%Z && (c <=? r.2)%Z) (cc_ranges cc)).

Inductive regex :=
| Eps
| Chars (cc : charclass)
| Seq (a b : regex)
| Alt (a b : regex)
| Repeat (a : regex) (min : nat) (max : option nat)
| StartOf
| EndOf
| WordBoundary
| NotAhead (a : regex).

(** [[A-Za-z0-9_]] *)
Definition word_class : charclass :=
  {| cc_negated := false; cc_ranges := [(48, 57); (65, 90); (95, 95); (97, 122)]%Z |}.
Definition is_word (s : jstring) (i : nat) : bool :=
  match s !! i with Some c => in_class word_class c | None => false end.
Definition boundary (s : jstring) (i : nat) : bool :=
  xorb (match i with O => false | S p => is_word s p end) (is_word s i).

Section matching.
Context (s : jstring).

(** ** The matcher *)

(** One more round of a quantifier, after which it may stop. *)
Definition pred_max (max : option nat) : option nat := Nat.pred <$> max.
Fixpoint rounds (one : nat → list nat) (fuel min : nat) (max : option nat) (i : nat) : list nat :=
  match fuel with
  | O => []
  | S fuel =>
      if bool_decide (max = Some 0) then [i] else
      flat_map (λ j, if (min =? 0) && (j =? i) then []
                     else rounds one fuel (Nat.pred min) (pred_max max) j) (one i) ++
      (if min =? 0 then [i] else [])
  end.

(** Where a match that starts at [i] may end. *)
Fixpoint ends (r : regex) (i : nat) : list nat :=
  match r with
  | Eps => [i]
  | Chars cc => match s !! i with Some c => if in_class cc c then [S i] else [] | None => [] end
  | Seq a b => flat_map (ends b) (ends a i)
  | Alt a b => ends a i ++ ends b i
  | Repeat a min max => rounds (ends a) (S (min + (length s - i))) min max i
  | StartOf => if i =? 0 then [i] else []
  | EndOf => if i =? length s then [i] else []
  | WordBoundary => if boundary s i then [i] else []
  | NotAhead a => match ends a i with [] => [i] | _ => [] end
  end.

(** [regex.test(s)] *)
Definition test (r : regex) : bool :=
  existsb (λ i, negb (bool_decide (ends r i = []))) (seq 0 (S (length s))).

(** The first match from [i] on: where it starts and ends. *)
Fixpoint find_from (fuel : nat) (r : regex) (i : nat) : option (nat * nat) :=
  match fuel with
  | O => None
  | S fuel =>
      if length s <? i then None else
      match ends r i with
      | j :: _ => Some (i, j)
      | [] => find_from fuel r (S i)
      end
  end.
(** [s.matchAll(regex)]: after an empty match the next search starts a unit
    later. *)
Fixpoint match_all_from (fuel : nat) (r : regex) (i : nat) : list jstring :=
  match fuel with
  | O => []
  | S fuel =>
      match find_from (S (length s)) r i with
      | None => []
      | Some (start, stop) =>
          take (stop - start) (drop start s) ::
          match_all_from fuel r (if stop =? start then S stop else stop)
      end
  end.
Definition match_all (r : regex) : list jstring := match_all_from (S (length s)) r 0.

(** ** What a pattern matches *)

Fixpoint iterate (R : nat → nat → Prop) (k i j : nat) : Prop :=
  match k with
  | O => i = j
  | S k => ∃ m, R i m ∧ iterate R k m j
  end.

Fixpoint denote (r : regex) (i j : nat) : Prop :=
  match r with
  | Eps => i = j
  | Chars cc => ∃ c, s !! i = Some c ∧ in_class cc c = true ∧ j = S i
  | Seq a b => ∃ m, denote a i m ∧ denote b m j
  | Alt a b => denote a i j ∨ denote b i j
  | Repeat a min max => ∃ k, min ≤ k ∧ from_option (λ m, k ≤ m) True max ∧ iterate (denote a) k i j
  | StartOf => i = 0 ∧ i = j
  | EndOf => i = length s ∧ i = j
  | WordBoundary => boundary s i = true ∧ i = j
  | NotAhead a => (∀ m, ¬ denote a i m) ∧ i = j
  end.

(** Matches go forward, within the string. *)
Lemma iterate_forward (R : nat → nat → Prop) k i j :
  (∀ i j, R i j → i ≤ j ∧ (i ≤ length s → j ≤ length s)) → iterate R k i j →
  i ≤ j ∧ (i ≤ length s → j ≤ length s).
Proof.
  intros HR. revert i. induction k as [|k IH]; intros i; simpl; [intros <-; lia|].
  intros (m & Hm & [? ?]%IH). apply HR in Hm as [? ?]. lia.
Qed.
Lemma denote_forward r i j : denote r i j → i ≤ j ∧ (i ≤ length s → j ≤ length s).
Proof.
  revert i j. induction r as [|cc|a IHa b IHb|a IHa b IHb|a IH min max| | | |a IH]; intros i j; simpl.
  - intros <-. lia.
  - intros (c & Hc%lookup_lt_Some & _ & ->). lia.
  - intros (m & [? ?]%IHa & [? ?]%IHb). lia.
  - intros [?|?]; auto.
  - intros (k & _ & _ & Hk). by eapply iterate_forward.
  - intros [-> <-]. lia.
  - intros [-> <-]. lia.
  - intros [_ <-]. lia.
  - intros [_ <-]. lia.
Qed.

(** ** The matcher is right *)

Lemma in_flat_map_elem {A B} (f : A → list B) l y : y ∈ flat_map f l ↔ ∃ x, x ∈ l ∧ y ∈ f x.
Proof. rewrite list_elem_of_In, in_flat_map. by setoid_rewrite list_elem_of_In. Qed.

(** The bounds of a quantifier, as the grammar has them. *)
Definition bounds_ok (min : nat) (max : option nat) : Prop := from_option (λ m, min ≤ m) True max.
Lemma bounds_pred min max : bounds_ok min max → bounds_ok (Nat.pred min) (pred_max max).
Proof. destruct max; simpl; [lia|done]. Qed.

(** A round that counts brings the quantifier nearer to its end. *)
Lemma empty_round min m i : (min =? 0) && (m =? i) = false ↔ ¬ (min = 0 ∧ m = i).
Proof. destruct (Nat.eqb_spec min 0), (Nat.eqb_spec m i); simpl; naive_solver. Qed.

Lemma rounds_spec one (R : nat → nat → Prop) fuel : ∀ min max i j,
  (∀ i j, i ≤ length s → (j ∈ one i ↔ R i j)) →
  (∀ i j, R i j → i ≤ j ∧ (i ≤ length s → j ≤ length s)) →
  bounds_ok min max → i ≤ length s → min + (length s - i) < fuel →
  j ∈ rounds one fuel min max i ↔ ∃ k, min ≤ k ∧ bounds_ok k max ∧ iterate R k i j.
Proof.
  induction fuel as [|fuel IH]; intros min max i j HR Hfwd Hb Hi Hfuel; [lia|]. simpl.
  case_bool_decide as Hmax.
  { subst max. unfold bounds_ok in *. simpl in *. rewrite list_elem_of_singleton. split.
    - intros ->. exists 0. by split_and!; [lia..|].
    - intros (k & _ & Hk & Hit). assert (k = 0) as -> by lia. done. }
  rewrite elem_of_app, in_flat_map_elem. split.
  - intros [(m & Hm & Hj)|Hin].
    + apply HR in Hm; [|done]. pose proof (Hfwd _ _ Hm) as [Hle Hend].
      destruct ((min =? 0) && (m =? i)) eqn:Hempty; [by apply elem_of_nil in Hj|].
      apply IH in Hj as (k & Hk & Hkb & Hit);
        [|done|done|by apply bounds_pred|auto|apply empty_round in Hempty; lia].
      exists (S k). unfold bounds_ok in *. split_and!; [lia| |by exists m].
      destruct max as [[|mx]|]; simpl in *; done || lia.
    + destruct (Nat.eqb_spec min 0) as [->|]; [|by apply elem_of_nil in Hin].
      apply list_elem_of_singleton in Hin as ->. exists 0. unfold bounds_ok. split_and!; [lia| |done].
      destruct max; simpl; [lia|done].
  - intros (k & Hk & Hkb & Hit). revert Hk Hkb Hit. induction k as [|k IHk]; intros Hk Hkb Hit.
    { simpl in Hit. subst j. right. replace (min =? 0) with true by (symmetry; apply Nat.eqb_eq; lia).
      by apply list_elem_of_singleton. }
    destruct Hit as (m & Hm & Hit). destruct (decide (min = 0 ∧ m = i)) as [[-> ->]|Hne].
    { apply IHk; [lia| |done]. unfold bounds_ok in *. destruct max; simpl in *; [lia|done]. }
    pose proof (Hfwd _ _ Hm) as [Hle Hend]. left. exists m. split; [by apply HR|].
    rewrite (proj2 (empty_round min m i) Hne).
    apply IH; [done|done|by apply bounds_pred|auto|destruct (decide (min = 0)); lia|].
    exists k. split_and!; [lia| |done]. unfold bounds_ok in *.
    destruct max as [[|mx]|]; simpl in *; done || lia.
Qed.

Fixpoint well_formed (r : regex) : bool :=
  match r with
  | Seq a b | Alt a b => well_formed a && well_formed b
  | Repeat a min max => well_formed a && match max with Some m => min <=? m | None => true end
  | NotAhead a => well_formed a
  | _ => true
  end.

(** The matcher finds what the pattern matches. *)
Lemma ends_spec r i j : well_formed r = true → i ≤ length s → j ∈ ends r i ↔ denote r i j.
Proof.
  revert i j. induction r as [|cc|a IHa b IHb|a IHa b IHb|a IH min max| | | |a IH]; intros i j; cbn [ends denote well_formed].
  - intros _ _. rewrite list_elem_of_singleton. naive_solver.
  - intros _ _. destruct (s !! i) as [c|]; [|by rewrite elem_of_nil; split; [|intros (? & ? & _)]].
    destruct (in_class cc c) eqn:Hc; [rewrite list_elem_of_singleton|rewrite elem_of_nil].
    + split; [intros ->; eauto|by intros (? & _ & _ & ->)].
    + split; [done|]. intros (? & [= <-] & ? & _). congruence.
  - intros [Ha Hb]%andb_true_iff Hi. rewrite in_flat_map_elem. split.
    + intros (m & Hm & Hj). apply IHa in Hm; [|done..]. exists m. split; [done|].
      apply IHb; [done| |done]. by apply denote_forward in Hm as [_ ?]; auto.
    + intros (m & Hm & Hj). exists m. split; [by apply IHa|]. apply IHb; [done| |done].
      by apply denote_forward in Hm as [_ ?]; auto.
  - intros [Ha Hb]%andb_true_iff Hi. by rewrite elem_of_app, IHa, IHb.
  - intros [Ha Hm]%andb_true_iff Hi.
    assert (Hb : bounds_ok min max) by (destruct max; [by apply Nat.leb_le|done]).
    rewrite (rounds_spec _ (denote a)); [done|by intros; apply IH|apply denote_forward|done|done|lia].
  - intros _ _. destruct (Nat.eqb_spec i 0); [rewrite list_elem_of_singleton|rewrite elem_of_nil]; naive_solver.
  - intros _ _. destruct (Nat.eqb_spec i (length s)); [rewrite list_elem_of_singleton|rewrite elem_of_nil]; naive_solver.
  - intros _ _. destruct (boundary s i); [rewrite list_elem_of_singleton|rewrite elem_of_nil]; naive_solver.
  - intros Ha Hi. destruct (ends a i) as [|m l] eqn:He.
    + rewrite list_elem_of_singleton. split; [|naive_solver]. intros ->. split; [|done].
      intros m Hm%IH; [|done..]. rewrite He in Hm. by apply elem_of_nil in Hm.
    + split; [by intros ?%elem_of_nil|]. intros [Hno _]. destruct (Hno m). apply IH; [done..|].
      rewrite He. left.
Qed.

Lemma test_spec r : well_formed r = true → test r = true ↔ ∃ i j, i ≤ length s ∧ denote r i j.
Proof.
  intros Hwf. unfold test. rewrite existsb_exists. split.
  - intros (i & [_ Hi]%in_seq & Hne%negb_true_iff%bool_decide_eq_false).
    destruct (ends r i) as [|j l] eqn:He; [done|]. exists i, j. split; [lia|].
    apply ends_spec; [done|lia|]. rewrite He. left.
  - intros (i & j & Hi & Hj). exists i. split; [apply in_seq; lia|].
    apply negb_true_iff, bool_decide_eq_false. intros He.
    apply ends_spec in Hj; [|done..]. rewrite He in Hj. by apply elem_of_nil in Hj.
Qed.
End matching.

(** ** Patterns that cannot match *)

(** Every match of the pattern has a code unit outside the alphabet. *)
Fixpoint blocked (alphabet : jstring) (r : regex) : bool :=
  match r with
  | Chars cc => forallb (λ c, negb (in_class cc c)) alphabet
  | Seq a b => blocked alphabet a || blocked alphabet b
  | Alt a b => blocked alphabet a && blocked alphabet b
  | Repeat a min _ => (0 <? min) && blocked alphabet a
  | _ => false
  end.
(** Every match is at least this long. *)
Fixpoint min_width (r : regex) : nat :=
  match r with
  | Chars _ => 1
  | Seq a b => min_width a + min_width b
  | Alt a b => Nat.min (min_width a) (min_width b)
  | Repeat a min _ => min * min_width a
  | _ => 0
  end.

Lemma blocked_sound alphabet s r i j :
  Forall (λ c, c ∈ alphabet) s → blocked alphabet r = true → ¬ denote s r i j.
Proof.
  intros Hs. revert i j. induction r as [|cc|a IHa b IHb|a IHa b IHb|a IH min max| | | |a IH]; intros i j; simpl;
    try done.
  - intros Hb (c & Hc & Hin & _). rewrite forallb_forall in Hb.
    assert (Hal : c ∈ alphabet) by (by eapply (Forall_lookup_1 (λ c, c ∈ alphabet))).
    apply list_elem_of_In, Hb in Hal. by rewrite Hin in Hal.
  - intros [Hb|Hb]%orb_true_iff (m & Hm & Hj); [by eapply IHa|by eapply IHb].
  - intros [Ha Hb]%andb_true_iff [Hm|Hm]; [by eapply IHa|by eapply IHb].
  - intros [Hm%Nat.ltb_lt Hb]%andb_true_iff (k & Hk & _ & Hit).
    destruct k as [|k]; [lia|]. destruct Hit as (m & Hm' & _). by eapply IH.
Qed.

Lemma min_width_sound s r i j : denote s r i j → i + min_width r ≤ j.
Proof.
  revert i j. induction r as [|cc|a IHa b IHb|a IHa b IHb|a IH min max| | | |a IH]; intros i j; simpl.
  - lia.
  - intros (c & _ & _ & ->). lia.
  - intros (m & ?%IHa & ?%IHb). lia.
  - intros [?%IHa|?%IHb]; lia.
  - intros (k & Hk & _ & Hit). assert (i + k * min_width a ≤ j); [|nia]. clear Hk.
    revert i Hit. induction k as [|k IHk]; intros i; simpl; [lia|]. intros (m & ?%IH & ?%IHk). lia.
  - lia.
  - lia.
  - lia.
  - lia.
Qed.

Lemma test_blocked alphabet s r :
  well_formed r = true → Forall (λ c, c ∈ alphabet) s → blocked alphabet r = true → test s r = false.
Proof.
  intros Hwf Hs Hb. apply not_true_iff_false. intros (i & j & _ & Hd)%test_spec; [|done].
  by eapply blocked_sound.
Qed.
Lemma test_short s r : well_formed r = true → length s < min_width r → test s r = false.
Proof.
  intros Hwf Hlen. apply not_true_iff_false. intros (i & j & Hi & Hd)%test_spec; [|done].
  pose proof (min_width_sound _ _ _ _ Hd). apply denote_forward in Hd as [_ Hd]. specialize (Hd Hi). lia.
Qed.

(** A pattern without a match anywhere has none in [matchAll]. *)
Lemma find_from_sound s r fuel i start stop :
  find_from s fuel r i = Some (start, stop) → stop ∈ ends s r start ∧ start ≤ length s.
Proof.
  revert i. induction fuel as [|fuel IH]; intros i; simpl; [done|].
  destruct (Nat.ltb_spec (length s) i); [done|]. destruct (ends s r i) as [|j l] eqn:He; [apply IH|].
  intros [= <- <-]. rewrite He. split; [left|done].
Qed.
Lemma match_all_none s r : well_formed r = true → test s r = false → match_all s r = [].
Proof.
  intros Hwf Ht. unfold match_all. cbn [match_all_from].
  destruct (find_from s (S (length s)) r 0) as [[start stop]|] eqn:Hf; [|done].
  apply find_from_sound in Hf as [Hin Hle]. apply not_true_iff_false in Ht as [].
  apply test_spec; [done|]. exists start, stop. split; [done|]. by apply ends_spec.
Qed.

(** ** Classes *)

Definition one_of (ranges : list (Z * Z)) : charclass := {| cc_negated := false; cc_ranges := ranges |}.
Definition none_of (ranges : list (Z * Z)) : charclass := {| cc_negated := true; cc_ranges := ranges |}.
Definition unit_range (c : Z) : Z * Z := (c, c).
(** The two cases of a letter. *)
Definition both_cases (c : Z) : list (Z * Z) :=
  if ((97 <=? c) && (c <=? 122))%Z then [unit_range c; unit_range (c - 32)%Z]
  else if ((65 <=? c) && (c <=? 90))%Z then [unit_range c; unit_range (c + 32)%Z] else [unit_range c].
(** A text, and a text whose case does not matter. *)
Definition literal (s : string) : regex :=
  foldr (λ c r, Seq (Chars (one_of [unit_range c])) r) Eps (units s).
Definition literal_i (s : string) : regex :=
  foldr (λ c r, Seq (Chars (one_of (both_cases c))) r) Eps (units s).
Definition any_literal (lits : list regex) : regex :=
  match lits with [] => NotAhead Eps | r :: rest => foldl Alt r rest end.
(** [\d], [A-Z] and [a-z], [\s]. *)
Definition digits : Z * Z := (48, 57)%Z.
Definition upper : Z * Z := (65, 90)%Z.
Definition lower : Z * Z := (97, 122)%Z.
Definition white_space : list (Z * Z) :=
  [(9, 13); (32, 32); (160, 160); (5760, 5760); (8192, 8202); (8232, 8233); (8239, 8239); (8287, 8287);
   (12288, 12288); (65279, 65279)]%Z.
Definition plus (a : regex) : regex := Repeat a 1 None.
Definition star (a : regex) : regex := Repeat a 0 None.
Definition maybe (a : regex) : regex := Repeat a 0 (Some 1).
Definition times (n : nat) (a : regex) : regex := Repeat a n (Some n).
Definition sequence (l : list regex) : regex := foldr Seq Eps l.
