(* ===== verification/Json.v ===== *)
(** * JSON values and the Zod checks the sources build their schemas from

    A parsed JSON document ([unknown] in the sources), and the meaning of the
    primitive Zod schemas used by them.  A schema is a partial function from
    documents to values: [None] is a [ZodError].  An object lists its members
    in order; JavaScript keeps one member per key. *)

From Stdlib Require Import QArith.
From S2P Require Import Prelude.
Open Scope Z_scope.

Inductive json : Type :=
| JNull
| JBool (b : bool)
| JNum (q : Q)
| JStr (s : string)
| JArr (l : list json)
| JObj (members : list (string * json)).

Fixpoint json_eq_dec (x y : json) {struct x} : {x = y} + {x ≠ y}.
Proof.
  destruct x as [|b|q|s|l|m], y as [|b'|q'|s'|l'|m']; try (right; congruence).
  - by left.
  - destruct (decide (b = b')); [left|right]; congruence.
  - destruct q as [n d], q' as [n' d'].
    destruct (decide (n = n')), (decide (d = d')); [left|right..]; congruence.
  - destruct (decide (s = s')); [left|right]; congruence.
  - assert ({l = l'} + {l ≠ l'}) as [|].
    { revert l l'. fix go 1. intros [|a l] [|a' l']; try (right; congruence).
      - by left.
      - destruct (json_eq_dec a a'); [|right; congruence].
        destruct (go l l'); [left|right]; congruence. }
    + left. congruence.
    + right. congruence.
  - assert ({m = m'} + {m ≠ m'}) as [|].
    { revert m m'. fix go 1. intros [|[k a] m] [|[k' a'] m']; try (right; congruence).
      - by left.
      - destruct (decide (k = k')); [|right; congruence].
        destruct (json_eq_dec a a'); [|right; congruence].
        destruct (go m m'); [left|right]; congruence. }
    + left. congruence.
    + right. congruence.
Defined.
#[export] Instance json_eq_decision : EqDecision json := json_eq_dec.

Definition jint (z : Z) : json := JNum (z # 1).

(** [Number.MAX_SAFE_INTEGER] *)
Definition MAX_SAFE_INTEGER : Z := 9007199254740991.

Definition Q_int (q : Q) : option Z :=
  if Qnum q mod Zpos (Qden q) =? 0 then Some (Qnum q / Zpos (Qden q)) else None.

(** [z.number().int()]: a safe integer. *)
Definition zod_int (j : json) : option Z :=
  match j with
  | JNum q => n ← Q_int q; guard (Z.abs n ≤ MAX_SAFE_INTEGER);; Some n
  | _ => None
  end.

(** [z.number().int().min(lo)] and [.min(lo).max(hi)] *)
Definition zod_int_min (lo : Z) (j : json) : option Z :=
  n ← zod_int j; guard (lo ≤ n);; Some n.
Definition zod_int_range (lo hi : Z) (j : json) : option Z :=
  n ← zod_int_min lo j; guard (n ≤ hi);; Some n.

Definition zod_boolean (j : json) : option bool :=
  match j with JBool b => Some b | _ => None end.
Definition zod_literal_true (j : json) : option bool :=
  match j with JBool true => Some true | _ => None end.
Definition zod_string (j : json) : option string :=
  match j with JStr s => Some s | _ => None end.
Definition zod_array {A} (schema : json → option A) (j : json) : option (list A) :=
  match j with JArr l => mapM schema l | _ => None end.
Definition zod_nullable {A} (schema : json → option A) (j : json) : option (option A) :=
  match j with JNull => Some None | _ => Some <$> schema j end.

(** A required member of an object. *)
Definition field {A} (members : list (string * json)) (key : string)
    (schema : json → option A) : option A :=
  map_get key members ≫= schema.

(** [.strict()]: no member outside the schema's keys. *)
Definition strict_keys (keys : list string) (members : list (string * json)) : bool :=
  forallb (λ m, bool_decide (m.1 ∈ keys)) members.

Definition zod_object (j : json) : option (list (string * json)) :=
  match j with JObj m => Some m | _ => None end.

Lemma Q_int_inject z : Q_int (z # 1) = Some z.
Proof. unfold Q_int. simpl. by rewrite Z.mod_1_r, Z.div_1_r. Qed.

Lemma zod_int_range_spec lo hi j n :
  zod_int_range lo hi j = Some n → lo ≤ n ≤ hi.
Proof.
  unfold zod_int_range, zod_int_min. intros H.
  destruct (zod_int j); simplify_option_eq; lia.
Qed.

Lemma zod_int_min_spec lo j n : zod_int_min lo j = Some n → lo ≤ n ≤ MAX_SAFE_INTEGER.
Proof.
  unfold zod_int_min, zod_int. intros H.
  destruct j; simplify_option_eq; lia.
Qed.

Lemma zod_int_range_complete lo hi n :
  Z.abs n ≤ MAX_SAFE_INTEGER → lo ≤ n ≤ hi → zod_int_range lo hi (jint n) = Some n.
Proof.
  intros Ha Hn. unfold zod_int_range, zod_int_min, jint, zod_int.
  rewrite Q_int_inject. simpl.
  rewrite option_guard_True by done. simpl. rewrite option_guard_True by lia. simpl.
  by rewrite option_guard_True by lia.
Qed.
