(* ===== verification/OperationalPolicy.v ===== *)
(** * Operational policies: [packages/orchestration-store/src/operational-policy.ts]

    The two policy schemas, with every field, bound and cross-field
    refinement, as decision procedures on JSON documents, and the lookup of
    the active policies over the activation and version tables. *)

From S2P Require Import Prelude.
From S2P Require Import Json.
Open Scope Z_scope.

(** [ROUTE_FAILURE_CLASSES] *)
Inductive RouteFailureClass := DNS | TCP_TLS | VPN_HANDSHAKE | TEST_TRAFFIC.

#[export] Instance RouteFailureClass_eq_dec : EqDecision RouteFailureClass.
Proof. solve_decision. Defined.

Definition ROUTE_FAILURE_CLASSES : list RouteFailureClass :=
  [DNS; TCP_TLS; VPN_HANDSHAKE; TEST_TRAFFIC].

(** [z.enum(['DNS', 'TCP_TLS', 'VPN_HANDSHAKE', 'TEST_TRAFFIC'])] *)
Definition zod_route_failure_class (j : json) : option RouteFailureClass :=
  match j with
  | JStr s =>
      if bool_decide (s = "DNS"%string) then Some DNS
      else if bool_decide (s = "TCP_TLS"%string) then Some TCP_TLS
      else if bool_decide (s = "VPN_HANDSHAKE"%string) then Some VPN_HANDSHAKE
      else if bool_decide (s = "TEST_TRAFFIC"%string) then Some TEST_TRAFFIC
      else None
  | _ => None
  end.

Definition positiveDatabaseInteger : json → option Z := zod_int_range 1 2147483647.
Definition percent : json → option Z := zod_int_range 0 100.

(** ** The health policy *)

Record HealthPolicyConfig := {
  heartbeatIntervalSeconds : Z;
  probeIntervalSeconds : Z;
  probeTimeoutSeconds : Z;
  probeSourceQuorum : Z;
  degradedFailureCycles : Z;
  excludeFailureCycles : Z;
  recoverySuccessCycles : Z;
  recoveryMinimumSeconds : Z;
  cooldownSeconds : Z;
  staleHeartbeatSeconds : Z;
  resultFreshnessSeconds : Z;
  mixedUnknownDegradedCycles : Z;
  additionalProbeDelaySeconds : Z;
  partialBlockedFailureCycles : Z;
  blockedTargetNetworkQuorum : Z;
  routeFailureClasses : list RouteFailureClass;
}.

Definition health_policy_keys : list string :=
  ["heartbeatIntervalSeconds"; "probeIntervalSeconds"; "probeTimeoutSeconds";
   "probeSourceQuorum"; "degradedFailureCycles"; "excludeFailureCycles";
   "recoverySuccessCycles"; "recoveryMinimumSeconds"; "cooldownSeconds";
   "staleHeartbeatSeconds"; "resultFreshnessSeconds";
   "mixedUnknownDegradedCycles"; "additionalProbeDelaySeconds";
   "partialBlockedFailureCycles"; "blockedTargetNetworkQuorum";
   "routeFailureClasses"]%string.

(** [z.array(z.enum(..)).length(4).refine(all distinct)] *)
Definition zod_route_failure_classes (j : json) : option (list RouteFailureClass) :=
  classes ← zod_array zod_route_failure_class j;
  guard (length classes = 4%nat);;
  guard (NoDup classes);;
  Some classes.

(** The two [superRefine] issues. *)
Definition health_policy_refinement (p : HealthPolicyConfig) : bool :=
  (degradedFailureCycles p <? excludeFailureCycles p) &&
  (probeTimeoutSeconds p <? probeIntervalSeconds p).

Definition healthPolicyConfigSchema (j : json) : option HealthPolicyConfig :=
  m ← zod_object j;
  guard (strict_keys health_policy_keys m);;
  let pos key := field m key positiveDatabaseInteger in
  v1 ← pos "heartbeatIntervalSeconds"%string;
  v2 ← pos "probeIntervalSeconds"%string;
  v3 ← pos "probeTimeoutSeconds"%string;
  v4 ← pos "probeSourceQuorum"%string;
  v5 ← pos "degradedFailureCycles"%string;
  v6 ← pos "excludeFailureCycles"%string;
  v7 ← pos "recoverySuccessCycles"%string;
  v8 ← pos "recoveryMinimumSeconds"%string;
  v9 ← pos "cooldownSeconds"%string;
  v10 ← pos "staleHeartbeatSeconds"%string;
  v11 ← pos "resultFreshnessSeconds"%string;
  v12 ← pos "mixedUnknownDegradedCycles"%string;
  v13 ← pos "additionalProbeDelaySeconds"%string;
  v14 ← pos "partialBlockedFailureCycles"%string;
  v15 ← pos "blockedTargetNetworkQuorum"%string;
  classes ← field m "routeFailureClasses"%string zod_route_failure_classes;
  let p := {|
    heartbeatIntervalSeconds := v1; probeIntervalSeconds := v2;
    probeTimeoutSeconds := v3; probeSourceQuorum := v4;
    degradedFailureCycles := v5; excludeFailureCycles := v6;
    recoverySuccessCycles := v7; recoveryMinimumSeconds := v8;
    cooldownSeconds := v9; staleHeartbeatSeconds := v10;
    resultFreshnessSeconds := v11; mixedUnknownDegradedCycles := v12;
    additionalProbeDelaySeconds := v13; partialBlockedFailureCycles := v14;
    blockedTargetNetworkQuorum := v15; routeFailureClasses := classes |} in
  guard (health_policy_refinement p);;
  Some p.

(** What an accepted health policy guarantees its readers. *)
Record health_policy_wf (p : HealthPolicyConfig) : Prop := {
  wf_quorum : 1 ≤ probeSourceQuorum p ≤ 2147483647;
  wf_degraded : 1 ≤ degradedFailureCycles p < excludeFailureCycles p;
  wf_exclude : excludeFailureCycles p ≤ 2147483647;
  wf_recovery : 1 ≤ recoverySuccessCycles p ≤ 2147483647;
  wf_recovery_window : 1 ≤ recoveryMinimumSeconds p ≤ 2147483647;
  wf_cooldown : 1 ≤ cooldownSeconds p ≤ 2147483647;
  wf_stale : 1 ≤ staleHeartbeatSeconds p ≤ 2147483647;
  wf_freshness : 1 ≤ resultFreshnessSeconds p ≤ 2147483647;
  wf_uncertain : 1 ≤ mixedUnknownDegradedCycles p ≤ 2147483647;
  wf_probe_timeout : 1 ≤ probeTimeoutSeconds p < probeIntervalSeconds p;
  wf_probe_interval : probeIntervalSeconds p ≤ 2147483647;
  wf_heartbeat : 1 ≤ heartbeatIntervalSeconds p ≤ 2147483647;
  wf_additional : 1 ≤ additionalProbeDelaySeconds p ≤ 2147483647;
  wf_partial : 1 ≤ partialBlockedFailureCycles p ≤ 2147483647;
  wf_blocked : 1 ≤ blockedTargetNetworkQuorum p ≤ 2147483647;
  wf_classes : ∀ c, c ∈ routeFailureClasses p;
  wf_classes_nodup : NoDup (routeFailureClasses p);
}.

Lemma all_classes_covered (l : list RouteFailureClass) :
  NoDup l → length l = 4%nat → ∀ c, c ∈ l.
Proof.
  intros Hd Hl c.
  assert (Hsub : ∀ x : RouteFailureClass, x ∈ ROUTE_FAILURE_CLASSES)
    by (intros []; unfold ROUTE_FAILURE_CLASSES; set_solver).
  assert (Hp : l ≡ₚ ROUTE_FAILURE_CLASSES).
  { apply submseteq_length_Permutation; [|simpl; lia].
    apply NoDup_submseteq; auto. }
  by rewrite Hp.
Qed.

Lemma zod_route_failure_classes_spec j l :
  zod_route_failure_classes j = Some l → NoDup l ∧ ∀ c, c ∈ l.
Proof.
  unfold zod_route_failure_classes. intros H.
  destruct (zod_array _ j) as [l'|]; simplify_option_eq.
  split; [done|]. by apply all_classes_covered.
Qed.

Lemma field_positive m key n :
  field m key positiveDatabaseInteger = Some n → 1 ≤ n ≤ 2147483647.
Proof.
  unfold field. destruct (map_get key m) as [j|]; [|done].
  apply zod_int_range_spec.
Qed.

Lemma healthPolicyConfigSchema_wf j p :
  healthPolicyConfigSchema j = Some p → health_policy_wf p.
Proof.
  unfold healthPolicyConfigSchema. intros H. option_invert H. simplify_eq.
  repeat match goal with
  | E : field _ _ positiveDatabaseInteger = Some _ |- _ => apply field_positive in E
  end.
  match goal with E : field _ _ zod_route_failure_classes = Some _ |- _ =>
    unfold field in E; apply bind_Some in E as (? & _ & E);
    apply zod_route_failure_classes_spec in E as [Hnd Hall] end.
  match goal with Hr : Is_true (health_policy_refinement _) |- _ =>
    unfold health_policy_refinement in Hr; simpl in Hr;
    apply andb_prop_elim in Hr as [H1%Is_true_true H2%Is_true_true] end.
  apply Z.ltb_lt in H1, H2. split; simpl; (done || lia).
Qed.

(** ** The capacity policy *)

Record CapacityPolicyConfig := {
  runtimeFreshnessSeconds : Z;
  warningUtilizationPercent : Z;
  warningSustainSeconds : Z;
  stopAssignmentUtilizationPercent : Z;
  stopAssignmentSustainSeconds : Z;
  criticalUtilizationPercent : Z;
  criticalSustainSeconds : Z;
  recoveryBelowUtilizationPercent : Z;
  recoverySustainSeconds : Z;
  diskWarningFreePercent : Z;
  diskStopFreePercent : Z;
  trafficSnapshotFreshnessSeconds : Z;
  trafficForecastMinimumElapsedSeconds : Z;
  trafficWarningForecastPercent : Z;
  trafficStopActualPercent : Z;
  trafficStopForecastPercent : Z;
  overageOverrideMaximumSeconds : Z;
  plannedDrainDefaultSeconds : Z;
  plannedDrainMinimumSeconds : Z;
  plannedDrainMaximumSeconds : Z;
  promotionTargetSeconds : Z;
  promotionHardTimeoutSeconds : Z;
  reserveAggregateLoadPercent : Z;
  reserveLargestNodeMultiplierPercent : Z;
  reserveRequiresIndependentFailureDomain : bool;
}.

Definition capacity_policy_keys : list string :=
  ["runtimeFreshnessSeconds"; "warningUtilizationPercent"; "warningSustainSeconds";
   "stopAssignmentUtilizationPercent"; "stopAssignmentSustainSeconds";
   "criticalUtilizationPercent"; "criticalSustainSeconds";
   "recoveryBelowUtilizationPercent"; "recoverySustainSeconds";
   "diskWarningFreePercent"; "diskStopFreePercent";
   "trafficSnapshotFreshnessSeconds"; "trafficForecastMinimumElapsedSeconds";
   "trafficWarningForecastPercent"; "trafficStopActualPercent";
   "trafficStopForecastPercent"; "overageOverrideMaximumSeconds";
   "plannedDrainDefaultSeconds"; "plannedDrainMinimumSeconds";
   "plannedDrainMaximumSeconds"; "promotionTargetSeconds";
   "promotionHardTimeoutSeconds"; "reserveAggregateLoadPercent";
   "reserveLargestNodeMultiplierPercent";
   "reserveRequiresIndependentFailureDomain"]%string.

(** The four [superRefine] issues. *)
Definition capacity_policy_refinement (p : CapacityPolicyConfig) : bool :=
  ((recoveryBelowUtilizationPercent p <? warningUtilizationPercent p) &&
   (warningUtilizationPercent p <? stopAssignmentUtilizationPercent p) &&
   (stopAssignmentUtilizationPercent p <? criticalUtilizationPercent p)) &&
  (diskStopFreePercent p <? diskWarningFreePercent p) &&
  ((plannedDrainMinimumSeconds p <=? plannedDrainDefaultSeconds p) &&
   (plannedDrainDefaultSeconds p <=? plannedDrainMaximumSeconds p)) &&
  (promotionTargetSeconds p <? promotionHardTimeoutSeconds p).

Definition capacityPolicyConfigSchema (j : json) : option CapacityPolicyConfig :=
  m ← zod_object j;
  guard (strict_keys capacity_policy_keys m);;
  let pos key := field m key positiveDatabaseInteger in
  let pct key := field m key percent in
  v1 ← pos "runtimeFreshnessSeconds"%string;
  v2 ← pct "warningUtilizationPercent"%string;
  v3 ← pos "warningSustainSeconds"%string;
  v4 ← pct "stopAssignmentUtilizationPercent"%string;
  v5 ← pos "stopAssignmentSustainSeconds"%string;
  v6 ← pct "criticalUtilizationPercent"%string;
  v7 ← pos "criticalSustainSeconds"%string;
  v8 ← pct "recoveryBelowUtilizationPercent"%string;
  v9 ← pos "recoverySustainSeconds"%string;
  v10 ← pct "diskWarningFreePercent"%string;
  v11 ← pct "diskStopFreePercent"%string;
  v12 ← pos "trafficSnapshotFreshnessSeconds"%string;
  v13 ← pos "trafficForecastMinimumElapsedSeconds"%string;
  v14 ← pct "trafficWarningForecastPercent"%string;
  v15 ← pct "trafficStopActualPercent"%string;
  v16 ← field m "trafficStopForecastPercent"%string (zod_int_min 0);
  v17 ← pos "overageOverrideMaximumSeconds"%string;
  v18 ← pos "plannedDrainDefaultSeconds"%string;
  v19 ← pos "plannedDrainMinimumSeconds"%string;
  v20 ← pos "plannedDrainMaximumSeconds"%string;
  v21 ← pos "promotionTargetSeconds"%string;
  v22 ← pos "promotionHardTimeoutSeconds"%string;
  v23 ← pct "reserveAggregateLoadPercent"%string;
  v24 ← field m "reserveLargestNodeMultiplierPercent"%string (zod_int_min 100);
  v25 ← field m "reserveRequiresIndependentFailureDomain"%string zod_literal_true;
  let p := {|
    runtimeFreshnessSeconds := v1; warningUtilizationPercent := v2;
    warningSustainSeconds := v3; stopAssignmentUtilizationPercent := v4;
    stopAssignmentSustainSeconds := v5; criticalUtilizationPercent := v6;
    criticalSustainSeconds := v7; recoveryBelowUtilizationPercent := v8;
    recoverySustainSeconds := v9; diskWarningFreePercent := v10;
    diskStopFreePercent := v11; trafficSnapshotFreshnessSeconds := v12;
    trafficForecastMinimumElapsedSeconds := v13;
    trafficWarningForecastPercent := v14; trafficStopActualPercent := v15;
    trafficStopForecastPercent := v16; overageOverrideMaximumSeconds := v17;
    plannedDrainDefaultSeconds := v18; plannedDrainMinimumSeconds := v19;
    plannedDrainMaximumSeconds := v20; promotionTargetSeconds := v21;
    promotionHardTimeoutSeconds := v22; reserveAggregateLoadPercent := v23;
    reserveLargestNodeMultiplierPercent := v24;
    reserveRequiresIndependentFailureDomain := v25 |} in
  guard (capacity_policy_refinement p);;
  Some p.

(** ** The active policies *)

(** A row of [HealthPolicyVersion] or [CapacityPolicyVersion]. *)
Record PolicyVersion := { pv_id : string; pv_code : string; pv_config : json }.
(** A row of [HealthPolicyActivation] or [CapacityPolicyActivation]. *)
Record PolicyActivation := { pa_sequence : Z; pa_policyVersionId : string }.

Definition activation_newest_first (a b : PolicyActivation * PolicyVersion) : Prop :=
  pa_sequence b.1 ≤ pa_sequence a.1.
#[export] Instance activation_newest_first_dec a b : Decision (activation_newest_first a b).
Proof. unfold activation_newest_first. apply _. Defined.
#[export] Instance activation_newest_first_total : Total activation_newest_first.
Proof. intros a b. unfold activation_newest_first. lia. Qed.
#[export] Instance activation_newest_first_trans : Transitive activation_newest_first.
Proof. intros a b c. unfold activation_newest_first. lia. Qed.

(** [activation INNER JOIN version ORDER BY sequence DESC LIMIT 1] *)
Definition latest_policy (activations : list PolicyActivation)
    (versions : list PolicyVersion) : option PolicyVersion :=
  snd <$> head (merge_sort activation_newest_first
    (a ← activations;
     v ← filter (λ v, pv_id v = pa_policyVersionId a) versions;
     [(a, v)])).

Record ActivePolicy (C : Type) := { ap_id : string; ap_code : string; ap_config : C }.
Arguments ap_id {C}. Arguments ap_code {C}. Arguments ap_config {C}.
Arguments Build_ActivePolicy {C}.

Inductive PolicyError :=
| ActivePoliciesUnavailable  (** 'Active operational policies are unavailable' *)
| PolicyZodError.

(** [schema.parse(row.config)] *)
Definition parse_policy {C} (schema : json → option C) (row : PolicyVersion)
    : outcome PolicyError (ActivePolicy C) :=
  match schema (pv_config row) with
  | Some c => Ok (Build_ActivePolicy (pv_id row) (pv_code row) c)
  | None => Throw PolicyZodError
  end.

(** [PrismaOperationalPolicyStore.loadActive] *)
Definition loadActive
    (health_activations : list PolicyActivation) (health_versions : list PolicyVersion)
    (capacity_activations : list PolicyActivation) (capacity_versions : list PolicyVersion)
    : outcome PolicyError (ActivePolicy HealthPolicyConfig * ActivePolicy CapacityPolicyConfig) :=
  match latest_policy health_activations health_versions,
        latest_policy capacity_activations capacity_versions with
  | Some health, Some capacity =>
      match parse_policy healthPolicyConfigSchema health with
      | Throw e => Throw e
      | Ok h =>
          match parse_policy capacityPolicyConfigSchema capacity with
          | Throw e => Throw e
          | Ok c => Ok (h, c)
          end
      end
  | _, _ => Throw ActivePoliciesUnavailable
  end.

(** ** Properties *)

Definition encode_route_failure_class (c : RouteFailureClass) : json :=
  JStr (match c with
        | DNS => "DNS" | TCP_TLS => "TCP_TLS"
        | VPN_HANDSHAKE => "VPN_HANDSHAKE" | TEST_TRAFFIC => "TEST_TRAFFIC"
        end)%string.

(** The document an operator stores for a health policy. *)
Definition encode_health_policy (p : HealthPolicyConfig) : json :=
  JObj (zip health_policy_keys
    [jint (heartbeatIntervalSeconds p); jint (probeIntervalSeconds p);
     jint (probeTimeoutSeconds p); jint (probeSourceQuorum p);
     jint (degradedFailureCycles p); jint (excludeFailureCycles p);
     jint (recoverySuccessCycles p); jint (recoveryMinimumSeconds p);
     jint (cooldownSeconds p); jint (staleHeartbeatSeconds p);
     jint (resultFreshnessSeconds p); jint (mixedUnknownDegradedCycles p);
     jint (additionalProbeDelaySeconds p); jint (partialBlockedFailureCycles p);
     jint (blockedTargetNetworkQuorum p);
     JArr (encode_route_failure_class <$> routeFailureClasses p)]).

Lemma positive_encode n : 1 ≤ n ≤ 2147483647 → positiveDatabaseInteger (jint n) = Some n.
Proof.
  intros Hn. apply zod_int_range_complete; [|done].
  unfold MAX_SAFE_INTEGER. lia.
Qed.

Lemma zod_route_failure_classes_encode l :
  NoDup l → (∀ c, c ∈ l) →
  zod_route_failure_classes (JArr (encode_route_failure_class <$> l)) = Some l.
Proof.
  intros Hd Hall. unfold zod_route_failure_classes, zod_array.
  assert (mapM zod_route_failure_class (encode_route_failure_class <$> l) = Some l) as ->.
  { apply mapM_Some, Forall2_fmap_l, Forall_Forall2_diag, Forall_forall. by intros []. }
  simpl. rewrite option_guard_True.
  - simpl. by rewrite option_guard_True.
  - assert (l ≡ₚ ROUTE_FAILURE_CLASSES) as Hp; [|by rewrite Hp].
    apply NoDup_Permutation; [done| |].
    + unfold ROUTE_FAILURE_CLASSES. repeat constructor; set_solver.
    + intros c. split; [|done]. intros _. unfold ROUTE_FAILURE_CLASSES. destruct c; set_solver.
Qed.

(** The health policy schema accepts exactly the well-formed policies:
    everything it returns satisfies the bounds, the cross-field conditions and
    the coverage of all failure classes, and the encoding of every well-formed
    policy parses back to it. *)
Theorem health_policy_roundtrip :
  (∀ j p, healthPolicyConfigSchema j = Some p → health_policy_wf p) ∧
  (∀ p, health_policy_wf p → healthPolicyConfigSchema (encode_health_policy p) = Some p).
Proof.
  split; [apply healthPolicyConfigSchema_wf|].
  intros p Hwf. pose proof Hwf as []. unfold healthPolicyConfigSchema, encode_health_policy. simpl.
  unfold field. simpl.
  rewrite !positive_encode by lia. simpl.
  rewrite zod_route_failure_classes_encode by done. simpl.
  rewrite option_guard_True.
  - by destruct p.
  - unfold health_policy_refinement. simpl. apply Is_true_true, andb_true_iff.
    rewrite !Z.ltb_lt. lia.
Qed.

(** What an accepted capacity policy guarantees its readers. *)
Record capacity_policy_wf (p : CapacityPolicyConfig) : Prop := {
  cwf_utilization : 0 ≤ recoveryBelowUtilizationPercent p < warningUtilizationPercent p;
  cwf_stop : warningUtilizationPercent p < stopAssignmentUtilizationPercent p
             < criticalUtilizationPercent p;
  cwf_critical : criticalUtilizationPercent p ≤ 100;
  cwf_disk : 0 ≤ diskStopFreePercent p < diskWarningFreePercent p;
  cwf_disk_max : diskWarningFreePercent p ≤ 100;
  cwf_drain : 1 ≤ plannedDrainMinimumSeconds p ≤ plannedDrainDefaultSeconds p;
  cwf_drain_max : plannedDrainDefaultSeconds p ≤ plannedDrainMaximumSeconds p ≤ 2147483647;
  cwf_promotion : 1 ≤ promotionTargetSeconds p < promotionHardTimeoutSeconds p;
  cwf_reserve : 100 ≤ reserveLargestNodeMultiplierPercent p;
  cwf_independent : reserveRequiresIndependentFailureDomain p = true;
}.

Lemma field_percent m key v :
  field m key percent = Some v → 0 ≤ v ≤ 100.
Proof. intros (j & _ & Hj)%bind_Some. by eapply zod_int_range_spec. Qed.

Lemma field_int_min lo m key v : field m key (zod_int_min lo) = Some v → lo ≤ v.
Proof. intros (j & _ & Hj)%bind_Some. by apply zod_int_min_spec in Hj as [? _]. Qed.

Lemma field_literal_true m key v : field m key zod_literal_true = Some v → v = true.
Proof. intros (j & _ & Hj)%bind_Some. by destruct j as [|[]| | | |]; simplify_eq/=. Qed.

Lemma capacityPolicyConfigSchema_wf j p :
  capacityPolicyConfigSchema j = Some p → capacity_policy_wf p.
Proof.
  unfold capacityPolicyConfigSchema. intros H. option_invert H. simplify_eq.
  repeat match goal with
  | E : field _ _ positiveDatabaseInteger = Some _ |- _ => apply field_positive in E
  | E : field _ _ percent = Some _ |- _ => apply field_percent in E
  | E : field _ _ (zod_int_min _) = Some _ |- _ => apply field_int_min in E
  | E : field _ _ zod_literal_true = Some _ |- _ => apply field_literal_true in E
  end.
  match goal with Hr : Is_true (capacity_policy_refinement _) |- _ =>
    unfold capacity_policy_refinement in Hr; simpl in Hr;
    rewrite Is_true_true, !andb_true_iff, !Z.ltb_lt, !Z.leb_le in Hr end.
  split; simpl; (done || lia).
Qed.

Lemma latest_policy_newest activations versions v :
  latest_policy activations versions = Some v →
  ∃ a, a ∈ activations ∧ v ∈ versions ∧ pa_policyVersionId a = pv_id v ∧
    ∀ a' v', a' ∈ activations → v' ∈ versions → pa_policyVersionId a' = pv_id v' →
      pa_sequence a' ≤ pa_sequence a.
Proof.
  unfold latest_policy. intros ([a w] & Hh & Hw)%fmap_Some. simpl in Hw. subst w.
  set (l := mbind _ activations) in Hh.
  assert (Hl : ∀ x, x ∈ l ↔ x.1 ∈ activations ∧ x.2 ∈ versions ∧
    pa_policyVersionId x.1 = pv_id x.2).
  { intros [a' w]. unfold l. rewrite list_elem_of_bind.
    setoid_rewrite list_elem_of_bind. setoid_rewrite list_elem_of_filter.
    setoid_rewrite list_elem_of_singleton. naive_solver. }
  assert (Hs : merge_sort activation_newest_first l ≡ₚ l) by apply merge_sort_Permutation.
  pose proof (StronglySorted_merge_sort activation_newest_first l) as Hsorted.
  destruct (merge_sort _ l) as [|y rest]; simplify_eq/=.
  destruct (proj1 (Hl (a, v))) as (Ha & Hv & Hav); [rewrite <- Hs; left|].
  exists a. split_and!; [done..|]. intros a' v' Ha' Hv' Heq.
  assert (Hin : (a', v') ∈ (a, v) :: rest) by (rewrite Hs; by apply Hl).
  apply elem_of_cons in Hin as [|Hin]; [by simplify_eq|].
  apply StronglySorted_inv in Hsorted as [_ Hall].
  rewrite Forall_forall in Hall. exact (Hall _ Hin).
Qed.

(** The active policies, when there are any, are the valid configurations
    of the newest activations; a missing activation and a stored document the
    schema rejects are reported as errors, never replaced by a default. *)
Theorem loadActive_newest_valid hact hver cact cver :
  match loadActive hact hver cact cver with
  | Ok (h, c) =>
      health_policy_wf (ap_config h) ∧ capacity_policy_wf (ap_config c) ∧
      (∃ a v, a ∈ hact ∧ v ∈ hver ∧ pa_policyVersionId a = ap_id h ∧ pv_id v = ap_id h ∧
         healthPolicyConfigSchema (pv_config v) = Some (ap_config h) ∧
         ∀ a' v', a' ∈ hact → v' ∈ hver → pa_policyVersionId a' = pv_id v' →
           pa_sequence a' ≤ pa_sequence a) ∧
      (∃ a v, a ∈ cact ∧ v ∈ cver ∧ pa_policyVersionId a = ap_id c ∧ pv_id v = ap_id c ∧
         capacityPolicyConfigSchema (pv_config v) = Some (ap_config c) ∧
         ∀ a' v', a' ∈ cact → v' ∈ cver → pa_policyVersionId a' = pv_id v' →
           pa_sequence a' ≤ pa_sequence a)
  | Throw ActivePoliciesUnavailable =>
      latest_policy hact hver = None ∨ latest_policy cact cver = None
  | Throw PolicyZodError =>
      ∃ v, (latest_policy hact hver = Some v ∧ healthPolicyConfigSchema (pv_config v) = None) ∨
           (latest_policy cact cver = Some v ∧ capacityPolicyConfigSchema (pv_config v) = None)
  end.
Proof.
  unfold loadActive.
  destruct (latest_policy hact hver) as [h|] eqn:Hh; [|by left].
  destruct (latest_policy cact cver) as [c|] eqn:Hc; [|by right].
  unfold parse_policy.
  destruct (healthPolicyConfigSchema (pv_config h)) as [hc|] eqn:Eh; [|eauto].
  destruct (capacityPolicyConfigSchema (pv_config c)) as [cc|] eqn:Ec; [|eauto].
  simpl. split_and!.
  - by eapply healthPolicyConfigSchema_wf.
  - by eapply capacityPolicyConfigSchema_wf.
  - apply latest_policy_newest in Hh as (a & ?&?&?&?). exists a, h. by split_and!.
  - apply latest_policy_newest in Hc as (a & ?&?&?&?). exists a, c. by split_and!.
Qed.

(** A sample policy, for the examples. *)
Definition example_health_policy : HealthPolicyConfig :=
  {| heartbeatIntervalSeconds := 30; probeIntervalSeconds := 60; probeTimeoutSeconds := 10;
     probeSourceQuorum := 2; degradedFailureCycles := 2; excludeFailureCycles := 3;
     recoverySuccessCycles := 2; recoveryMinimumSeconds := 60; cooldownSeconds := 300;
     staleHeartbeatSeconds := 90; resultFreshnessSeconds := 60;
     mixedUnknownDegradedCycles := 2; additionalProbeDelaySeconds := 15;
     partialBlockedFailureCycles := 2; blockedTargetNetworkQuorum := 2;
     routeFailureClasses := ROUTE_FAILURE_CLASSES |}.

Lemma example_health_policy_wf : health_policy_wf example_health_policy.
Proof.
  eapply (healthPolicyConfigSchema_wf (encode_health_policy example_health_policy)).
  by vm_compute.
Qed.
