(* ===== verification/HealthDecision.v ===== *)
(** * The health decision function: [packages/orchestration-store/src/health-decision.ts]

    [aggregateHealthProbeCycle] turns the probe signals of one cycle into a
    cycle decision and [evaluateHealthCycle] folds it into the availability
    state of a scope.  Instants are milliseconds since the epoch. *)

From S2P Require Import Prelude.
From S2P Require Import Json.
From S2P Require Import OperationalPolicy.
Open Scope Z_scope.

(** ** Data *)

Inductive HealthScopeKind := PROFILE | ENDPOINT | NODE | PROVIDER_ASN.
Inductive ProbeOutcome := PO_SUCCESS | PO_FAILURE | PO_PROBE_SOURCE_FAILURE.
Inductive ProbeCycleDecision := CD_SUCCESS | CD_FAILED | CD_MIXED | CD_UNKNOWN.

Inductive ProbeSignalRejectionReason :=
| POLICY_UNAVAILABLE | ALREADY_CONSUMED | UNAUTHENTICATED | CONTROL_UNHEALTHY
| ROUTE_VERSION_MISMATCH | CYCLE_MISMATCH | OUTSIDE_FRESHNESS_WINDOW
| DUPLICATE_SOURCE | DUPLICATE_INDEPENDENCE_KEY.

Inductive HealthStatus :=
| UNKNOWN | HEALTHY | DEGRADED | PARTIALLY_BLOCKED | QUARANTINED | BLOCKED
| OFFLINE | DISABLED.

Inductive HealthDecisionReason :=
| HR_POLICY_UNAVAILABLE | CRITICAL_TRUST_FAILURE | STALE_HEARTBEAT
| FAILED_CYCLE_OBSERVED | FAILURE_THRESHOLD_REACHED
| EXCLUSION_THRESHOLD_REACHED | SUCCESS_CONFIRMED | RECOVERY_PENDING
| RECOVERY_CONFIRMED | MIXED_CYCLE | UNKNOWN_CYCLE
| UNCERTAINTY_THRESHOLD_REACHED.

#[export] Instance HealthScopeKind_eq_dec : EqDecision HealthScopeKind.
Proof. solve_decision. Defined.
#[export] Instance ProbeOutcome_eq_dec : EqDecision ProbeOutcome.
Proof. solve_decision. Defined.
#[export] Instance ProbeCycleDecision_eq_dec : EqDecision ProbeCycleDecision.
Proof. solve_decision. Defined.
#[export] Instance ProbeSignalRejectionReason_eq_dec : EqDecision ProbeSignalRejectionReason.
Proof. solve_decision. Defined.
#[export] Instance HealthStatus_eq_dec : EqDecision HealthStatus.
Proof. solve_decision. Defined.
#[export] Instance HealthDecisionReason_eq_dec : EqDecision HealthDecisionReason.
Proof. solve_decision. Defined.

Record Scope := { scope_kind : HealthScopeKind; scope_id : string }.
#[export] Instance Scope_eq_dec : EqDecision Scope.
Proof. solve_decision. Defined.

Record ProbeSignal := {
  ps_id : string;
  ps_sourceId : string;
  ps_independenceKey : string;
  ps_cycleStartedAt : Z;
  ps_receivedAt : Z;
  ps_authenticated : bool;
  ps_controlHealthy : bool;
  ps_routeVersion : Z;
  ps_outcome : ProbeOutcome;
  ps_failureClass : option RouteFailureClass;
}.

(** [disposition] is 'REJECTED' exactly when a rejection reason is given. *)
Inductive Disposition := ACCEPTED | REJECTED.
#[export] Instance Disposition_eq_dec : EqDecision Disposition.
Proof. solve_decision. Defined.
Record ProbeSignalEvaluation := {
  ev_signalId : string;
  ev_disposition : Disposition;
  ev_rejectionReason : option ProbeSignalRejectionReason;
}.

Record ProbeCycleResult := {
  cycle_startedAt : Z;
  cycle_decision : ProbeCycleDecision;
  cycle_failureClass : option RouteFailureClass;
  cycle_signalIds : list string;
  cycle_rejectedSignalIds : list string;
  cycle_signalEvaluations : list ProbeSignalEvaluation;
  cycle_additionalProbeDueAt : option Z;
}.

Record HealthDecisionState := {
  hs_status : HealthStatus;
  hs_excludedFromCandidates : bool;
  hs_consecutiveFailureCycles : Z;
  hs_consecutiveRecoverySuccesses : Z;
  hs_recoveryWindowStartedAt : option Z;
  hs_consecutiveUncertainCycles : Z;
  hs_cooldownUntil : option Z;
}.

Record PolicyInput := { pi_id : string; pi_code : string; pi_config : json }.
Record PolicyVersionRef := { pvr_id : string; pvr_code : string }.

Inductive CriticalKind := UNTRUSTED_CLOCK | CREDENTIAL_COMPROMISE | UNSAFE_RUNTIME.
Record CriticalTrustFailure := { ctf_signalId : string; ctf_kind : CriticalKind }.

Record RecoveryGates := {
  rg_clockTrusted : bool;
  rg_servingCheckPassed : bool;
  rg_desiredVersion : Z;
  rg_appliedVersion : Z;
}.

Record HealthDecision := {
  hd_decision : HealthStatus;
  hd_reason : HealthDecisionReason;
  hd_affectedScope : Scope;
  hd_policyVersion : option PolicyVersionRef;
  hd_signalIds : list string;
  hd_cycle : option ProbeCycleResult;
  hd_state : HealthDecisionState;
  hd_allowNewAssignments : bool;
  hd_triggerReplacement : bool;
  hd_triggerIncident : bool;
}.

Record EvaluateHealthCycleInput := {
  in_policy : option PolicyInput;
  in_affectedScope : Scope;
  in_routeVersion : Z;
  in_cycleStartedAt : Z;
  in_evaluatedAt : Z;
  in_signals : list ProbeSignal;
  in_consumedSignalIds : list string;
  in_previousState : HealthDecisionState;
  in_lastHeartbeatAt : option Z;
  in_recoveryGates : RecoveryGates;
  in_criticalTrustFailure : option CriticalTrustFailure;
}.

(** ** Aggregation of one probe cycle *)

Definition milliseconds (seconds : Z) : Z := seconds * 1000.

Definition signalRejectionReason (policy : HealthPolicyConfig) (signal : ProbeSignal)
    (cycleStartedAt routeVersion : Z) (consumedSignalIds : list string)
    : option ProbeSignalRejectionReason :=
  let receivedAt := ps_receivedAt signal in
  if bool_decide (ps_id signal ∈ consumedSignalIds) then Some ALREADY_CONSUMED
  else if negb (ps_authenticated signal) then Some UNAUTHENTICATED
  else if negb (ps_controlHealthy signal) then Some CONTROL_UNHEALTHY
  else if negb (ps_routeVersion signal =? routeVersion) then Some ROUTE_VERSION_MISMATCH
  else if negb (ps_cycleStartedAt signal =? cycleStartedAt) then Some CYCLE_MISMATCH
  else if (receivedAt <? cycleStartedAt) ||
          (cycleStartedAt + milliseconds (resultFreshnessSeconds policy) <? receivedAt)
  then Some OUTSIDE_FRESHNESS_WINDOW
  else None.

(** The mutable collections of the loop. *)
Record AggregateState := {
  ag_rejectedSignalIds : list string;
  ag_seenSignalIds : list string;
  ag_seenSourceIds : list string;
  ag_votes : list (string * ProbeSignal);
  ag_signalEvaluations : list (string * ProbeSignalEvaluation);
}.

Definition aggregate_init : AggregateState :=
  {| ag_rejectedSignalIds := []; ag_seenSignalIds := []; ag_seenSourceIds := [];
     ag_votes := []; ag_signalEvaluations := [] |}.

(** [rejectedSignalIds.add(id); signalEvaluations.set(id, REJECTED)] *)
Definition reject (st : AggregateState) (id : string)
    (reason : ProbeSignalRejectionReason) : AggregateState :=
  {| ag_rejectedSignalIds := set_add id (ag_rejectedSignalIds st);
     ag_seenSignalIds := ag_seenSignalIds st;
     ag_seenSourceIds := ag_seenSourceIds st;
     ag_votes := ag_votes st;
     ag_signalEvaluations :=
       map_set id {| ev_signalId := id; ev_disposition := REJECTED;
                     ev_rejectionReason := Some reason |} (ag_signalEvaluations st) |}.

(** One iteration of [for (const signal of orderedSignals)]. *)
Definition aggregate_step (policy : HealthPolicyConfig) (cycleStartedAt routeVersion : Z)
    (consumedSignalIds : list string) (st : AggregateState) (signal : ProbeSignal)
    : AggregateState :=
  let id := ps_id signal in
  if bool_decide (id ∈ ag_seenSignalIds st) then
    {| ag_rejectedSignalIds := set_add id (ag_rejectedSignalIds st);
       ag_seenSignalIds := ag_seenSignalIds st;
       ag_seenSourceIds := ag_seenSourceIds st;
       ag_votes := ag_votes st;
       ag_signalEvaluations := ag_signalEvaluations st |}
  else
    let st := {| ag_rejectedSignalIds := ag_rejectedSignalIds st;
                 ag_seenSignalIds := set_add id (ag_seenSignalIds st);
                 ag_seenSourceIds := ag_seenSourceIds st;
                 ag_votes := ag_votes st;
                 ag_signalEvaluations := ag_signalEvaluations st |} in
    match signalRejectionReason policy signal cycleStartedAt routeVersion consumedSignalIds with
    | Some reason => reject st id reason
    | None =>
        if bool_decide (ps_sourceId signal ∈ ag_seenSourceIds st) then
          reject st id DUPLICATE_SOURCE
        else if map_has (ps_independenceKey signal) (ag_votes st) then
          reject st id DUPLICATE_INDEPENDENCE_KEY
        else
          {| ag_rejectedSignalIds := ag_rejectedSignalIds st;
             ag_seenSignalIds := ag_seenSignalIds st;
             ag_seenSourceIds := set_add (ps_sourceId signal) (ag_seenSourceIds st);
             ag_votes := map_set (ps_independenceKey signal) signal (ag_votes st);
             ag_signalEvaluations :=
               map_set id {| ev_signalId := id; ev_disposition := ACCEPTED;
                             ev_rejectionReason := None |} (ag_signalEvaluations st) |}
    end.

Definition is_success (s : ProbeSignal) : bool := bool_decide (ps_outcome s = PO_SUCCESS).

(** [outcome === 'FAILURE' && failureClass !== undefined && classes.includes(..)] *)
Definition classified_failure (policy : HealthPolicyConfig) (s : ProbeSignal)
    : option RouteFailureClass :=
  match ps_outcome s, ps_failureClass s with
  | PO_FAILURE, Some c => if bool_decide (c ∈ routeFailureClasses policy) then Some c else None
  | _, _ => None
  end.

Definition is_route_vote (s : ProbeSignal) : bool :=
  negb (bool_decide (ps_outcome s = PO_PROBE_SOURCE_FAILURE)).

(** [failuresByClass]: the failing signals grouped by their class. *)
Definition failures_by_class (failures : list (RouteFailureClass * ProbeSignal))
    : list (RouteFailureClass * list ProbeSignal) :=
  foldl (λ m cs, map_set cs.1 (default [] (map_get cs.1 m) ++ [cs.2]) m) [] failures.

Section aggregate.
Context `{LocaleCompare}.

(** [left.receivedAt - right.receivedAt || left.id.localeCompare(right.id)] *)
Definition signal_order (l r : ProbeSignal) : Prop :=
  ps_receivedAt l < ps_receivedAt r ∨
  (ps_receivedAt l = ps_receivedAt r ∧ locale_le (ps_id l) (ps_id r)).

#[export] Instance signal_order_dec l r : Decision (signal_order l r).
Proof. unfold signal_order. apply _. Defined.
#[export] Instance signal_order_total : Total signal_order.
Proof.
  intros l r. unfold signal_order.
  destruct (total locale_le (ps_id l) (ps_id r)); destruct (Z.lt_trichotomy
    (ps_receivedAt l) (ps_receivedAt r)) as [?|[?|?]]; auto with lia.
Qed.
#[export] Instance signal_order_trans : Transitive signal_order.
Proof.
  intros a b c. unfold signal_order. intros [?|[? ?]] [?|[? ?]]; try lia.
  right. split; [lia|]. by transitivity (ps_id b).
Qed.

Definition evaluation_order (l r : ProbeSignalEvaluation) : Prop :=
  locale_le (ev_signalId l) (ev_signalId r).
#[export] Instance evaluation_order_dec l r : Decision (evaluation_order l r).
Proof. unfold evaluation_order. apply _. Defined.
#[export] Instance evaluation_order_total : Total evaluation_order.
Proof. intros l r. apply (total locale_le). Qed.
#[export] Instance evaluation_order_trans : Transitive evaluation_order.
Proof. intros a b c. unfold evaluation_order. apply transitivity. Qed.

Definition aggregate_loop (policy : HealthPolicyConfig) (cycleStartedAt routeVersion : Z)
    (consumedSignalIds : list string) (signals : list ProbeSignal) : AggregateState :=
  foldl (aggregate_step policy cycleStartedAt routeVersion consumedSignalIds)
    aggregate_init (merge_sort signal_order signals).

Definition aggregateHealthProbeCycle (policy : HealthPolicyConfig)
    (cycleStartedAt routeVersion : Z) (signals : list ProbeSignal)
    (consumedSignalIds : list string) : ProbeCycleResult :=
  let st := aggregate_loop policy cycleStartedAt routeVersion consumedSignalIds signals in
  let routeVotes := filter is_route_vote (ag_votes st).*2 in
  let successes := filter is_success routeVotes in
  let failures := omap (λ s, (λ c, (c, s)) <$> classified_failure policy s) routeVotes in
  let signalIds := sort_strings (ps_id <$> routeVotes) in
  let evaluations := merge_sort evaluation_order (ag_signalEvaluations st).*2 in
  let result decision failureClass dueAt :=
    {| cycle_startedAt := cycleStartedAt; cycle_decision := decision;
       cycle_failureClass := failureClass; cycle_signalIds := signalIds;
       cycle_rejectedSignalIds := sort_strings (ag_rejectedSignalIds st);
       cycle_signalEvaluations := evaluations;
       cycle_additionalProbeDueAt := dueAt |} in
  if (0 <? Z.of_nat (length successes)) && (0 <? Z.of_nat (length failures)) then
    result CD_MIXED None
      (Some (cycleStartedAt + milliseconds (additionalProbeDelaySeconds policy)))
  else
    let byClass := failures_by_class failures in
    match find (λ c, probeSourceQuorum policy <=?
                     Z.of_nat (length (default [] (map_get c byClass))))
               (routeFailureClasses policy) with
    | Some c => result CD_FAILED (Some c) None
    | None =>
        if probeSourceQuorum policy <=? Z.of_nat (length successes) then
          result CD_SUCCESS None None
        else result CD_UNKNOWN None None
    end.
End aggregate.

(** ** The decision *)

Definition atLeastDegraded (current : HealthStatus) : HealthStatus :=
  match current with
  | HEALTHY | UNKNOWN => DEGRADED
  | _ => current
  end.

Definition finishDecision (input : EvaluateHealthCycleInput) (state : HealthDecisionState)
    (reason : HealthDecisionReason) (cycle : option ProbeCycleResult)
    (policyVersion : option PolicyVersionRef) : HealthDecision :=
  let cooldownActive := sql_gt (hs_cooldownUntil state) (in_evaluatedAt input) in
  {| hd_decision := hs_status state;
     hd_reason := reason;
     hd_affectedScope := in_affectedScope input;
     hd_policyVersion := policyVersion;
     hd_signalIds :=
       match cycle with
       | Some c => cycle_signalIds c
       | None => match in_criticalTrustFailure input with
                 | Some f => [ctf_signalId f]
                 | None => []
                 end
       end;
     hd_cycle := cycle;
     hd_state := state;
     hd_allowNewAssignments :=
       bool_decide (hs_status state = HEALTHY) && negb (hs_excludedFromCandidates state);
     hd_triggerReplacement :=
       bool_decide (reason = CRITICAL_TRUST_FAILURE) ||
       (bool_decide (reason = EXCLUSION_THRESHOLD_REACHED) && negb cooldownActive);
     hd_triggerIncident :=
       bool_decide (reason = EXCLUSION_THRESHOLD_REACHED) ||
       bool_decide (reason = CRITICAL_TRUST_FAILURE) |}.

Definition set_status (status : HealthStatus) (s : HealthDecisionState) : HealthDecisionState :=
  {| hs_status := status; hs_excludedFromCandidates := hs_excludedFromCandidates s;
     hs_consecutiveFailureCycles := hs_consecutiveFailureCycles s;
     hs_consecutiveRecoverySuccesses := hs_consecutiveRecoverySuccesses s;
     hs_recoveryWindowStartedAt := hs_recoveryWindowStartedAt s;
     hs_consecutiveUncertainCycles := hs_consecutiveUncertainCycles s;
     hs_cooldownUntil := hs_cooldownUntil s |}.

(** The branch [cycle.decision === 'FAILED']. *)
Definition failed_cycle (policy : HealthPolicyConfig) (s : HealthDecisionState)
    : HealthDecisionState * HealthDecisionReason :=
  let failures := hs_consecutiveFailureCycles s + 1 in
  let s1 status excluded :=
    {| hs_status := status; hs_excludedFromCandidates := excluded;
       hs_consecutiveFailureCycles := failures;
       hs_consecutiveRecoverySuccesses := 0; hs_recoveryWindowStartedAt := None;
       hs_consecutiveUncertainCycles := 0; hs_cooldownUntil := hs_cooldownUntil s |} in
  if excludeFailureCycles policy <=? failures then
    (s1 (atLeastDegraded (hs_status s)) true, EXCLUSION_THRESHOLD_REACHED)
  else if degradedFailureCycles policy <=? failures then
    (s1 (atLeastDegraded (hs_status s)) (hs_excludedFromCandidates s), FAILURE_THRESHOLD_REACHED)
  else (s1 (hs_status s) (hs_excludedFromCandidates s), FAILED_CYCLE_OBSERVED).

Definition heartbeat_fresh (policy : HealthPolicyConfig) (input : EvaluateHealthCycleInput) : bool :=
  match in_lastHeartbeatAt input with
  | Some t => in_evaluatedAt input - t <=? milliseconds (staleHeartbeatSeconds policy)
  | None => false
  end.

Definition gates_pass (policy : HealthPolicyConfig) (input : EvaluateHealthCycleInput) : bool :=
  heartbeat_fresh policy input &&
  rg_clockTrusted (in_recoveryGates input) &&
  rg_servingCheckPassed (in_recoveryGates input) &&
  (rg_desiredVersion (in_recoveryGates input) =? rg_appliedVersion (in_recoveryGates input)).

(** The branch [cycle.decision === 'SUCCESS']. *)
Definition success_cycle (policy : HealthPolicyConfig) (input : EvaluateHealthCycleInput)
    (s : HealthDecisionState) : HealthDecisionState * HealthDecisionReason :=
  if bool_decide (hs_status s = HEALTHY) then
    ({| hs_status := hs_status s; hs_excludedFromCandidates := hs_excludedFromCandidates s;
        hs_consecutiveFailureCycles := 0; hs_consecutiveRecoverySuccesses := 0;
        hs_recoveryWindowStartedAt := None; hs_consecutiveUncertainCycles := 0;
        hs_cooldownUntil := hs_cooldownUntil s |}, SUCCESS_CONFIRMED)
  else
    let successes := hs_consecutiveRecoverySuccesses s + 1 in
    let windowStart := default (in_cycleStartedAt input) (hs_recoveryWindowStartedAt s) in
    let recoveryWindowComplete :=
      milliseconds (recoveryMinimumSeconds policy) <=? in_evaluatedAt input - windowStart in
    if negb (bool_decide (hs_status s = QUARANTINED)) &&
       negb (bool_decide (hs_status s = DISABLED)) &&
       (recoverySuccessCycles policy <=? successes) &&
       recoveryWindowComplete && gates_pass policy input then
      ({| hs_status := HEALTHY; hs_excludedFromCandidates := false;
          hs_consecutiveFailureCycles := 0; hs_consecutiveRecoverySuccesses := 0;
          hs_recoveryWindowStartedAt := None; hs_consecutiveUncertainCycles := 0;
          hs_cooldownUntil :=
            Some (in_evaluatedAt input + milliseconds (cooldownSeconds policy)) |},
       RECOVERY_CONFIRMED)
    else
      ({| hs_status := hs_status s; hs_excludedFromCandidates := hs_excludedFromCandidates s;
          hs_consecutiveFailureCycles := 0; hs_consecutiveRecoverySuccesses := successes;
          hs_recoveryWindowStartedAt := Some windowStart;
          hs_consecutiveUncertainCycles := 0; hs_cooldownUntil := hs_cooldownUntil s |},
       RECOVERY_PENDING).

(** The branch for a mixed or unknown cycle. *)
Definition uncertain_cycle (policy : HealthPolicyConfig) (decision : ProbeCycleDecision)
    (s : HealthDecisionState) : HealthDecisionState * HealthDecisionReason :=
  let uncertain := hs_consecutiveUncertainCycles s + 1 in
  let s1 status :=
    {| hs_status := status; hs_excludedFromCandidates := hs_excludedFromCandidates s;
       hs_consecutiveFailureCycles := hs_consecutiveFailureCycles s;
       hs_consecutiveRecoverySuccesses := 0; hs_recoveryWindowStartedAt := None;
       hs_consecutiveUncertainCycles := uncertain;
       hs_cooldownUntil := hs_cooldownUntil s |} in
  if mixedUnknownDegradedCycles policy <=? uncertain then
    (s1 (atLeastDegraded (hs_status s)), UNCERTAINTY_THRESHOLD_REACHED)
  else (s1 (hs_status s),
        if bool_decide (decision = CD_MIXED) then MIXED_CYCLE else UNKNOWN_CYCLE).

Definition apply_cycle (policy : HealthPolicyConfig) (input : EvaluateHealthCycleInput)
    (decision : ProbeCycleDecision) (s : HealthDecisionState)
    : HealthDecisionState * HealthDecisionReason :=
  match decision with
  | CD_FAILED => failed_cycle policy s
  | CD_SUCCESS => success_cycle policy input s
  | CD_MIXED | CD_UNKNOWN => uncertain_cycle policy decision s
  end.

(** [heartbeatStale && state.status === 'HEALTHY'] *)
Definition stale_heartbeat_override (policy : HealthPolicyConfig)
    (input : EvaluateHealthCycleInput)
    (sr : HealthDecisionState * HealthDecisionReason)
    : HealthDecisionState * HealthDecisionReason :=
  if negb (heartbeat_fresh policy input) && bool_decide (hs_status sr.1 = HEALTHY)
  then (set_status DEGRADED sr.1, STALE_HEARTBEAT)
  else sr.

Definition parsed_policy (input : EvaluateHealthCycleInput)
    : option (PolicyVersionRef * HealthPolicyConfig) :=
  p ← in_policy input;
  config ← healthPolicyConfigSchema (pi_config p);
  Some ({| pvr_id := pi_id p; pvr_code := pi_code p |}, config).

Definition critical_state (s : HealthDecisionState) : HealthDecisionState :=
  {| hs_status := QUARANTINED; hs_excludedFromCandidates := true;
     hs_consecutiveFailureCycles := hs_consecutiveFailureCycles s;
     hs_consecutiveRecoverySuccesses := 0; hs_recoveryWindowStartedAt := None;
     hs_consecutiveUncertainCycles := hs_consecutiveUncertainCycles s;
     hs_cooldownUntil := hs_cooldownUntil s |}.

Definition evaluateHealthCycle `{LocaleCompare} (input : EvaluateHealthCycleInput)
    : HealthDecision :=
  let previous := in_previousState input in
  match in_criticalTrustFailure input with
  | Some _ =>
      finishDecision input (critical_state previous) CRITICAL_TRUST_FAILURE None
        (fst <$> parsed_policy input)
  | None =>
      match parsed_policy input with
      | None =>
          finishDecision input (set_status (atLeastDegraded (hs_status previous)) previous)
            HR_POLICY_UNAVAILABLE None None
      | Some (policyVersion, policy) =>
          let cycle := aggregateHealthProbeCycle policy (in_cycleStartedAt input)
            (in_routeVersion input) (in_signals input) (in_consumedSignalIds input) in
          let sr := stale_heartbeat_override policy input
            (apply_cycle policy input (cycle_decision cycle) previous) in
          finishDecision input sr.1 sr.2 (Some cycle) (Some policyVersion)
      end
  end.

(** The state a scope starts from ([loadState] without a row). *)
Definition initial_health_state : HealthDecisionState :=
  {| hs_status := UNKNOWN; hs_excludedFromCandidates := true;
     hs_consecutiveFailureCycles := 0; hs_consecutiveRecoverySuccesses := 0;
     hs_recoveryWindowStartedAt := None; hs_consecutiveUncertainCycles := 0;
     hs_cooldownUntil := None |}.

(** ** What the aggregation loop maintains *)

Section loop_invariant.
Context (policy : HealthPolicyConfig) (start version : Z) (consumed : list string).

Definition eligible (s : ProbeSignal) : Prop :=
  signalRejectionReason policy s start version consumed = None.

Record loop_inv (seen : list ProbeSignal) (st : AggregateState) : Prop := {
  li_from : ∀ k s, (k, s) ∈ ag_votes st → k = ps_independenceKey s ∧ s ∈ seen ∧ eligible s;
  li_keys : NoDup (ag_votes st).*1;
  li_sources : NoDup (ps_sourceId <$> (ag_votes st).*2);
  li_sources_seen : ∀ s, s ∈ (ag_votes st).*2 → ps_sourceId s ∈ ag_seenSourceIds st;
  li_ids : NoDup (ps_id <$> (ag_votes st).*2);
  li_ids_seen : ∀ s, s ∈ (ag_votes st).*2 → ps_id s ∈ ag_seenSignalIds st;
  li_seen : ∀ id, id ∈ ag_seenSignalIds st ↔ id ∈ ps_id <$> seen;
  li_evals_nodup : NoDup (ag_signalEvaluations st).*1;
  li_evals_seen : ∀ id, id ∈ (ag_signalEvaluations st).*1 ↔ id ∈ ag_seenSignalIds st;
  li_evals_key : ∀ id e, (id, e) ∈ ag_signalEvaluations st → ev_signalId e = id;
  li_evals_accepted : ∀ id, (∃ e, (id, e) ∈ ag_signalEvaluations st ∧ ev_disposition e = ACCEPTED)
                            ↔ id ∈ ps_id <$> (ag_votes st).*2;
}.

Lemma set_add_elem {A} `{EqDecision A} (x y : A) s : y ∈ set_add x s ↔ y = x ∨ y ∈ s.
Proof. unfold set_add. case_decide; set_solver. Qed.

Lemma loop_inv_init : loop_inv [] aggregate_init.
Proof. split; simpl; try apply NoDup_nil_2; set_solver. Qed.

(** A new identifier that is evaluated and rejected. *)
Lemma loop_inv_reject seen st s reason :
  loop_inv seen st → ps_id s ∉ ag_seenSignalIds st →
  loop_inv (seen ++ [s])
    (reject {| ag_rejectedSignalIds := ag_rejectedSignalIds st;
               ag_seenSignalIds := set_add (ps_id s) (ag_seenSignalIds st);
               ag_seenSourceIds := ag_seenSourceIds st; ag_votes := ag_votes st;
               ag_signalEvaluations := ag_signalEvaluations st |} (ps_id s) reason).
Proof.
  intros [] Hnew.
  assert (Hev : ps_id s ∉ (ag_signalEvaluations st).*1) by naive_solver.
  split; simpl; try done.
  - intros k v Hkv. destruct (li_from0 _ _ Hkv) as (?&?&?). set_solver.
  - intros v Hv. rewrite set_add_elem. right. by apply li_ids_seen0.
  - intros id. rewrite set_add_elem, li_seen0, fmap_app. set_solver.
  - by apply map_set_NoDup.
  - intros id. rewrite map_set_absent, fmap_app, set_add_elem by done. set_solver.
  - intros id e [?|He]%map_set_elem; [by simplify_eq/=|by apply li_evals_key0].
  - intros id. rewrite <- li_evals_accepted0, map_set_absent by done.
    setoid_rewrite elem_of_app. setoid_rewrite list_elem_of_singleton.
    split; [|naive_solver]. intros (e & [He|He] & Ha); [eauto|]. by simplify_eq/=.
Qed.

Lemma loop_inv_step seen st s :
  loop_inv seen st → loop_inv (seen ++ [s]) (aggregate_step policy start version consumed st s).
Proof.
  intros Hinv. unfold aggregate_step.
  destruct (bool_decide (ps_id s ∈ ag_seenSignalIds st)) eqn:Hseen.
  { apply bool_decide_eq_true in Hseen. destruct Hinv. split; simpl; try done.
    - intros k v Hkv. destruct (li_from0 _ _ Hkv) as (?&?&?). set_solver.
    - intros id. rewrite li_seen0, fmap_app, elem_of_app. set_solver. }
  apply bool_decide_eq_false in Hseen.
  destruct (signalRejectionReason _ _ _ _ _) as [reason|] eqn:Hr; [by apply loop_inv_reject|].
  simpl. destruct (bool_decide (ps_sourceId s ∈ _)) eqn:Hsrc; [by apply loop_inv_reject|].
  apply bool_decide_eq_false in Hsrc.
  destruct (map_has _ _) eqn:Hkey; [by apply loop_inv_reject|].
  apply bool_decide_eq_false in Hkey. destruct Hinv.
  assert (Hev : ps_id s ∉ (ag_signalEvaluations st).*1) by naive_solver.
  split; simpl; rewrite ?(map_set_absent (ps_independenceKey s)), ?fmap_app by done; simpl.
  - intros k v [Hkv|Hkv]%elem_of_app.
    + destruct (li_from0 _ _ Hkv) as (?&?&?). set_solver.
    + apply list_elem_of_singleton in Hkv. simplify_eq. set_solver.
  - apply NoDup_app. split_and!; [done|set_solver|apply NoDup_singleton].
  - apply NoDup_app. split_and!; [done| |apply NoDup_singleton].
    intros x Hx. apply list_elem_of_fmap in Hx as (v & -> & Hv).
    rewrite list_elem_of_singleton. intros Heq. apply Hsrc. rewrite <- Heq. by apply li_sources_seen0.
  - intros v [Hv|Hv]%elem_of_app; rewrite set_add_elem; [by right; apply li_sources_seen0|].
    apply list_elem_of_singleton in Hv. by subst; left.
  - apply NoDup_app. split_and!; [done| |apply NoDup_singleton].
    intros x Hx. apply list_elem_of_fmap in Hx as (v & -> & Hv).
    rewrite list_elem_of_singleton. intros Heq. apply Hseen. rewrite <- Heq. by apply li_ids_seen0.
  - intros v [Hv|Hv]%elem_of_app; rewrite set_add_elem; [by right; apply li_ids_seen0|].
    apply list_elem_of_singleton in Hv. by subst; left.
  - intros id. rewrite set_add_elem, li_seen0. set_solver.
  - by apply map_set_NoDup.
  - intros id. rewrite map_set_absent, fmap_app, set_add_elem by done. set_solver.
  - intros id e [?|He]%map_set_elem; [by simplify_eq/=|by apply li_evals_key0].
  - intros id. rewrite elem_of_app, <- li_evals_accepted0, map_set_absent by done.
    setoid_rewrite elem_of_app. setoid_rewrite list_elem_of_singleton. naive_solver.
Qed.

Lemma loop_inv_foldl signals st seen :
  loop_inv seen st →
  loop_inv (seen ++ signals) (foldl (aggregate_step policy start version consumed) st signals).
Proof.
  revert st seen. induction signals as [|s l IH]; intros st seen Hinv; simpl.
  - by rewrite app_nil_r.
  - replace (seen ++ s :: l) with ((seen ++ [s]) ++ l) by (by rewrite <- app_assoc).
    by apply IH, loop_inv_step.
Qed.
End loop_invariant.

(** ** Votes and quorums *)

(** The signals of a cycle that vote, by class of failure. *)
Definition failing_with (policy : HealthPolicyConfig) (c : RouteFailureClass)
    (s : ProbeSignal) : bool :=
  bool_decide (classified_failure policy s = Some c).

Definition count {A} (p : A → bool) (l : list A) : Z := Z.of_nat (length (filter p l)).

Lemma failures_by_class_get (c : RouteFailureClass)
    (failures : list (RouteFailureClass * ProbeSignal)) m :
  default [] (map_get c (foldl (λ m cs, map_set cs.1 (default [] (map_get cs.1 m) ++ [cs.2]) m)
                           m failures))
  = default [] (map_get c m) ++ (filter (λ cs, cs.1 = c) failures).*2.
Proof.
  revert m. induction failures as [|[c' s] l IH]; intros m; simpl; [by rewrite app_nil_r|].
  rewrite IH. destruct (decide (c' = c)) as [->|Hne].
  - rewrite map_get_set_eq, filter_cons_True by done. simpl. by rewrite <- app_assoc.
  - rewrite map_get_set_ne, filter_cons_False by done. done.
Qed.

Lemma failures_by_class_count policy c votes :
  Z.of_nat (length (default [] (map_get c (failures_by_class
    (omap (λ s, (λ c, (c, s)) <$> classified_failure policy s) votes)))))
  = count (failing_with policy c) votes.
Proof.
  unfold failures_by_class, count. rewrite failures_by_class_get. simpl.
  rewrite length_fmap. f_equal.
  induction votes as [|s l IH]; simpl; [done|].
  assert (Hs : failing_with policy c s = bool_decide (classified_failure policy s = Some c)) by done.
  destruct (classified_failure policy s) as [c'|] eqn:Hc; simpl.
  - destruct (decide (c' = c)) as [->|Hne].
    + rewrite bool_decide_eq_true_2 in Hs by done.
      rewrite filter_cons_True, (filter_cons_True _ s) by (done || by rewrite Hs).
      simpl. f_equal. exact IH.
    + rewrite bool_decide_eq_false_2 in Hs by congruence.
      rewrite filter_cons_False, (filter_cons_False _ s) by first [exact Hne | rewrite Hs; tauto]. exact IH.
  - rewrite bool_decide_eq_false_2 in Hs by congruence.
    rewrite (filter_cons_False _ s) by (rewrite Hs; tauto). exact IH.
Qed.

Lemma count_pos {A} (p : A → bool) l : 0 < count p l ↔ ∃ x, x ∈ l ∧ p x = true.
Proof.
  unfold count. split.
  - intros Hlt. destruct (filter p l) as [|x l'] eqn:Hf; simpl in Hlt; [lia|].
    assert (x ∈ filter p l) as [?%Is_true_true ?]%list_elem_of_filter
      by (rewrite Hf; left). eauto.
  - intros (x & Hx & Hp). destruct (filter p l) as [|y l'] eqn:Hf; simpl; [|lia].
    assert (x ∈ filter p l) by (apply list_elem_of_filter; by rewrite Hp).
    rewrite Hf in *. set_solver.
Qed.

Lemma count_filter_subset {A} (p q : A → bool) l :
  (∀ x, p x = true → q x = true) → count p (filter q l) = count p l.
Proof.
  intros Hpq. unfold count. rewrite list_filter_filter_l; [done|].
  intros x Hx. apply Is_true_true in Hx. rewrite Hpq; done.
Qed.

Lemma omap_length_pos {A B} (f : A → option B) l :
  0 < Z.of_nat (length (omap f l)) ↔ ∃ x, x ∈ l ∧ is_Some (f x).
Proof.
  split.
  - destruct (omap f l) as [|y l'] eqn:Ho; simpl; [lia|]. intros _.
    assert (y ∈ omap f l) as (x & Hx & Hf)%list_elem_of_omap by (rewrite Ho; left). eauto.
  - intros (x & Hx & y & Hf).
    assert (y ∈ omap f l) as Hy by (apply list_elem_of_omap; eauto).
    destruct (omap f l); [set_solver|simpl; lia].
Qed.

(** What a cycle decision means in terms of the votes behind it. *)
Definition decision_meaning (policy : HealthPolicyConfig) (votes : list ProbeSignal)
    (r : ProbeCycleResult) : Prop :=
  let successes := count is_success votes in
  match cycle_decision r with
  | CD_MIXED =>
      0 < successes ∧ ∃ c, 0 < count (failing_with policy c) votes
  | CD_FAILED =>
      successes = 0 ∧ ∃ c, cycle_failureClass r = Some c ∧
        probeSourceQuorum policy ≤ count (failing_with policy c) votes
  | CD_SUCCESS =>
      probeSourceQuorum policy ≤ successes ∧
      ∀ c, count (failing_with policy c) votes = 0
  | CD_UNKNOWN =>
      successes < probeSourceQuorum policy ∧
      (∀ c, count (failing_with policy c) votes < probeSourceQuorum policy) ∧
      (successes = 0 ∨ ∀ c, count (failing_with policy c) votes = 0)
  end.

Section aggregate_spec.
Context `{LocaleCompare}.
Variables (policy : HealthPolicyConfig) (start version : Z).
Variables (signals : list ProbeSignal) (consumed : list string).
Hypothesis policy_wf : health_policy_wf policy.

Let votes := (ag_votes (aggregate_loop policy start version consumed signals)).*2.

Lemma aggregate_loop_inv :
  loop_inv policy start version consumed (merge_sort signal_order signals)
    (aggregate_loop policy start version consumed signals).
Proof. exact (loop_inv_foldl _ _ _ _ _ _ [] (loop_inv_init _ _ _ _)). Qed.

Lemma is_success_route_vote s : is_success s = true → is_route_vote s = true.
Proof. unfold is_success, is_route_vote. by destruct (ps_outcome s). Qed.

Lemma failing_route_vote c s : failing_with policy c s = true → is_route_vote s = true.
Proof.
  unfold failing_with, classified_failure, is_route_vote.
  intros ?%bool_decide_eq_true. by destruct (ps_outcome s).
Qed.

Lemma no_classified_failures :
  ¬ (0 < Z.of_nat (length (omap (λ s, (λ c, (c, s)) <$> classified_failure policy s)
       (filter is_route_vote votes)))) →
  ∀ c, count (failing_with policy c) votes = 0.
Proof.
  intros Hn c. assert (0 ≤ count (failing_with policy c) votes) by (unfold count; lia).
  destruct (decide (0 < count (failing_with policy c) votes)) as [Hp|]; [|lia].
  exfalso. apply Hn. apply count_pos in Hp as (s & Hs & Hf).
  apply omap_length_pos. exists s. split.
  - apply list_elem_of_filter. split; [|done].
    by rewrite (failing_route_vote _ _ Hf).
  - unfold failing_with in Hf. apply bool_decide_eq_true in Hf. rewrite Hf. eauto.
Qed.

Lemma aggregate_decision_meaning :
  decision_meaning policy votes (aggregateHealthProbeCycle policy start version signals consumed).
Proof.
  unfold aggregateHealthProbeCycle. fold votes.
  change (Z.of_nat (length (filter is_success (filter is_route_vote votes))))
    with (count is_success (filter is_route_vote votes)).
  rewrite count_filter_subset by (intros ?; apply is_success_route_vote).
  assert (Hs0 : 0 ≤ count is_success votes) by (unfold count; lia).
  assert (Hq : 1 ≤ probeSourceQuorum policy) by apply policy_wf.
  destruct ((0 <? count is_success votes) && _) eqn:Hmix.
  { apply andb_prop in Hmix as [Hs%Z.ltb_lt Hf%Z.ltb_lt]. split; [done|].
    apply omap_length_pos in Hf as (s & Hin & ? & Hc).
    apply fmap_Some in Hc as (c & Hc & _). exists c. apply count_pos. exists s.
    apply list_elem_of_filter in Hin as [_ Hin]. split; [done|].
    unfold failing_with. by apply bool_decide_eq_true. }
  assert (Hcount : ∀ c, Z.of_nat (length (default [] (map_get c (failures_by_class
    (omap (λ s, (λ c, (c, s)) <$> classified_failure policy s)
      (filter is_route_vote votes)))))) = count (failing_with policy c) votes).
  { intros c. rewrite failures_by_class_count. apply count_filter_subset.
    intros ?; apply failing_route_vote. }
  destruct (find _ (routeFailureClasses policy)) as [c|] eqn:Hfind.
  { apply find_some in Hfind as [_ Hc]. rewrite Hcount in Hc. apply Z.leb_le in Hc.
    split; [|by exists c]. apply andb_false_iff in Hmix as [Hs%Z.ltb_ge|Hf%Z.ltb_ge]; [lia|].
    rewrite no_classified_failures in Hc; lia. }
  assert (Hno : ∀ c, count (failing_with policy c) votes < probeSourceQuorum policy).
  { intros c. apply Z.leb_gt. rewrite <- Hcount.
    apply (find_none _ _ Hfind). apply list_elem_of_In, policy_wf. }
  apply andb_false_iff in Hmix.
  destruct (probeSourceQuorum policy <=? count is_success votes) eqn:Hok.
  - apply Z.leb_le in Hok. split; [done|]. destruct Hmix as [Hs%Z.ltb_ge|Hf%Z.ltb_ge]; [lia|].
    apply no_classified_failures. lia.
  - apply Z.leb_gt in Hok. split_and!; [done..|].
    destruct Hmix as [Hs%Z.ltb_ge|Hf%Z.ltb_ge]; [left; lia|right].
    apply no_classified_failures. lia.
Qed.
End aggregate_spec.

(** ** Properties of a cycle *)

(** The signals that vote in a cycle. *)
Definition accepted_votes `{LocaleCompare} (policy : HealthPolicyConfig) (start version : Z)
    (signals : list ProbeSignal) (consumed : list string) : list ProbeSignal :=
  (ag_votes (aggregate_loop policy start version consumed signals)).*2.

Lemma cycle_quorum `{LocaleCompare} policy start version signals consumed :
  health_policy_wf policy →
  let votes := accepted_votes policy start version signals consumed in
  (∀ s, s ∈ votes → s ∈ signals ∧
     signalRejectionReason policy s start version consumed = None) ∧
  NoDup (ps_sourceId <$> votes) ∧
  NoDup (ps_independenceKey <$> votes) ∧
  decision_meaning policy votes
    (aggregateHealthProbeCycle policy start version signals consumed).
Proof.
  intros Hwf votes.
  destruct (aggregate_loop_inv policy start version signals consumed).
  split_and!; [| assumption | | by apply aggregate_decision_meaning].
  - intros s (x & -> & Hin)%list_elem_of_fmap. destruct x as [k s].
    destruct (li_from0 _ _ Hin) as (_ & Hs & He). by rewrite elem_of_merge_sort in Hs.
  - replace (ps_independenceKey <$> votes)
      with (ag_votes (aggregate_loop policy start version consumed signals)).*1;
      [assumption|].
    unfold votes, accepted_votes. rewrite <- list_fmap_compose.
    apply list_fmap_ext. intros i [k s] Hi. apply list_elem_of_lookup_2 in Hi.
    by destruct (li_from0 _ _ Hi).
Qed.

(** The decision of a probe cycle is a quorum decision over independent
    evidence.  Every vote is an eligible signal of the input, no two votes
    share a probe source or an independence key, and MIXED, FAILED, SUCCESS
    and UNKNOWN are exactly: a success and a classified failure; no success
    and a quorum of failures of the reported class; a quorum of successes and
    no failure; no quorum of either. *)
Theorem probe_cycle_quorum `{LocaleCompare} policy start version signals consumed :
  health_policy_wf policy →
  let votes := accepted_votes policy start version signals consumed in
  (∀ s, s ∈ votes → s ∈ signals ∧
     signalRejectionReason policy s start version consumed = None) ∧
  NoDup (ps_sourceId <$> votes) ∧
  NoDup (ps_independenceKey <$> votes) ∧
  decision_meaning policy votes
    (aggregateHealthProbeCycle policy start version signals consumed).
Proof. apply cycle_quorum. Qed.

(** A cycle's result does not depend on the order in which the signals
    were read, as long as their identifiers are distinct. *)
Theorem aggregate_order_independent `{LocaleCompare} policy start version signals signals' consumed :
  signals ≡ₚ signals' → NoDup (ps_id <$> signals) →
  (∀ s, s ∈ signals → identifier (ps_id s)) →
  aggregateHealthProbeCycle policy start version signals consumed =
  aggregateHealthProbeCycle policy start version signals' consumed.
Proof.
  intros Hp Hnd Hid. unfold aggregateHealthProbeCycle, aggregate_loop.
  replace (merge_sort signal_order signals') with (merge_sort signal_order signals); [done|].
  apply (merge_sort_Permutation_eq signal_order); [|exact Hp].
  intros x y Hx Hy Hxy Hyx.
  assert (ps_id x = ps_id y) as Heq.
  { destruct Hxy as [?|[? ?]], Hyx as [?|[? ?]]; try lia.
    apply locale_le_antisymm; auto. }
  apply list_elem_of_lookup in Hx as [i Hi], Hy as [j Hj].
  assert (i = j) as ->; [|congruence].
  eapply (NoDup_lookup (ps_id <$> signals)); [done|..]; rewrite list_lookup_fmap.
  - by rewrite Hi.
  - rewrite Hj. simpl. by f_equal.
Qed.

(** The fields of a cycle's result. *)
Lemma aggregate_shape `{LocaleCompare} policy start version signals consumed :
  let r := aggregateHealthProbeCycle policy start version signals consumed in
  cycle_startedAt r = start ∧
  (is_Some (cycle_failureClass r) ↔ cycle_decision r = CD_FAILED) ∧
  (is_Some (cycle_additionalProbeDueAt r) ↔ cycle_decision r = CD_MIXED) ∧
  ∀ id, id ∈ cycle_signalIds r → id ∈ ps_id <$> signals.
Proof.
  intros r. set (st := aggregate_loop policy start version consumed signals).
  assert (Hids : ∀ id, id ∈ sort_strings (ps_id <$> filter is_route_vote (ag_votes st).*2) →
    id ∈ ps_id <$> signals).
  { intros id. unfold sort_strings. rewrite elem_of_merge_sort, !list_elem_of_fmap.
    intros (s & -> & [_ Hs]%list_elem_of_filter). exists s. split; [done|].
    apply list_elem_of_fmap in Hs as ([k s'] & -> & Hs).
    destruct (aggregate_loop_inv policy start version signals consumed).
    destruct (li_from0 _ _ Hs) as (_ & Hin & _). by rewrite elem_of_merge_sort in Hin. }
  unfold r, aggregateHealthProbeCycle. fold st.
  destruct (_ && _); [|destruct (find _ _); [|destruct (_ <=? _)]]; simpl; split_and!; try done;
    rewrite <- ?not_eq_None_Some; naive_solver.
Qed.

Lemma cycle_evaluations `{LocaleCompare} policy start version signals consumed :
  cycle_signalEvaluations (aggregateHealthProbeCycle policy start version signals consumed) ≡ₚ
  (ag_signalEvaluations (aggregate_loop policy start version consumed signals)).*2.
Proof.
  unfold aggregateHealthProbeCycle. destruct (_ && _); [apply merge_sort_Permutation|].
  destruct (find _ _); [apply merge_sort_Permutation|].
  destruct (_ <=? _); apply merge_sort_Permutation.
Qed.

(** An evaluation names a reason exactly when it rejects. *)
Definition reasoned (e : ProbeSignalEvaluation) : Prop :=
  ev_disposition e = REJECTED ↔ is_Some (ev_rejectionReason e).

Lemma evaluations_reasoned `{LocaleCompare} policy start version signals consumed e :
  e ∈ cycle_signalEvaluations (aggregateHealthProbeCycle policy start version signals consumed) →
  reasoned e.
Proof.
  rewrite cycle_evaluations. unfold aggregate_loop.
  assert (Hgo : ∀ l st, (∀ x, x ∈ ag_signalEvaluations st → reasoned x.2) →
    ∀ x, x ∈ ag_signalEvaluations (foldl (aggregate_step policy start version consumed) st l) → reasoned x.2).
  { induction l as [|s l IH]; intros st Hst; simpl; [done|]. apply IH. unfold aggregate_step.
    repeat case_match; simpl; try done; intros x [->|?]%map_set_elem; try (by apply Hst);
      unfold reasoned; simpl; (split; [by eauto|by intros [? ?]]). }
  intros (x & -> & Hx)%list_elem_of_fmap. eapply Hgo; [|done]. set_solver.
Qed.

(** Every signal identifier of the input receives exactly one evaluation,
    and the accepted ones are exactly the votes. *)
Theorem evaluations_cover_signals `{LocaleCompare} policy start version signals consumed :
  let r := aggregateHealthProbeCycle policy start version signals consumed in
  NoDup (ev_signalId <$> cycle_signalEvaluations r) ∧
  (∀ id, id ∈ ev_signalId <$> cycle_signalEvaluations r ↔ id ∈ ps_id <$> signals) ∧
  (∀ id, (∃ e, e ∈ cycle_signalEvaluations r ∧ ev_signalId e = id ∧ ev_disposition e = ACCEPTED)
     ↔ id ∈ ps_id <$> accepted_votes policy start version signals consumed).
Proof.
  intros r. set (st := aggregate_loop policy start version consumed signals).
  assert (Hr : cycle_signalEvaluations r ≡ₚ (ag_signalEvaluations st).*2) by apply cycle_evaluations.
  pose proof (aggregate_loop_inv policy start version signals consumed) as Hinv.
  fold st in Hinv. destruct Hinv.
  assert (Hk : ev_signalId <$> (ag_signalEvaluations st).*2 = (ag_signalEvaluations st).*1).
  { rewrite <- list_fmap_compose. apply list_fmap_ext. intros i [id e] Hi.
    apply list_elem_of_lookup_2 in Hi. simpl. by apply li_evals_key0. }
  split_and!.
  - by rewrite Hr, Hk.
  - intros id. rewrite Hr, Hk, li_evals_seen0, li_seen0.
    rewrite !list_elem_of_fmap. by setoid_rewrite elem_of_merge_sort.
  - intros id. unfold accepted_votes. fold st. rewrite <- li_evals_accepted0. split.
    + intros (e & He & Hid & Ha). rewrite Hr in He.
      apply list_elem_of_fmap in He as ([id' e'] & -> & He). simpl in *.
      rewrite (li_evals_key0 _ _ He) in Hid. subst. eauto.
    + intros (e & He & Ha). exists e. rewrite Hr. split_and!; [|by eapply li_evals_key0|done].
      apply list_elem_of_fmap. by exists (id, e).
Qed.

(** ** Properties of the decision *)

(** The cycle an evaluation aggregates under its own policy. *)
Definition evaluation_cycle `{LocaleCompare} (input : EvaluateHealthCycleInput)
    : option ProbeCycleDecision :=
  match in_criticalTrustFailure input, parsed_policy input with
  | None, Some (_, policy) =>
      Some (cycle_decision (aggregateHealthProbeCycle policy (in_cycleStartedAt input)
        (in_routeVersion input) (in_signals input) (in_consumedSignalIds input)))
  | _, _ => None
  end.

Lemma parsed_policy_wf input pv policy :
  parsed_policy input = Some (pv, policy) → health_policy_wf policy.
Proof.
  unfold parsed_policy. intros H. option_invert H. simplify_eq.
  by eapply healthPolicyConfigSchema_wf.
Qed.

(** The three shapes an evaluation can take. *)
Lemma evaluateHealthCycle_cases `{LocaleCompare} input :
  (∃ f pv, in_criticalTrustFailure input = Some f ∧
     evaluateHealthCycle input = finishDecision input (critical_state (in_previousState input))
       CRITICAL_TRUST_FAILURE None pv) ∨
  (in_criticalTrustFailure input = None ∧ parsed_policy input = None ∧
     evaluateHealthCycle input = finishDecision input
       (set_status (atLeastDegraded (hs_status (in_previousState input))) (in_previousState input))
       HR_POLICY_UNAVAILABLE None None) ∨
  (∃ pv policy cycle, in_criticalTrustFailure input = None ∧
     parsed_policy input = Some (pv, policy) ∧
     evaluation_cycle input = Some (cycle_decision cycle) ∧
     let sr := stale_heartbeat_override policy input
       (apply_cycle policy input (cycle_decision cycle) (in_previousState input)) in
     evaluateHealthCycle input = finishDecision input sr.1 sr.2 (Some cycle) (Some pv)).
Proof.
  unfold evaluateHealthCycle, evaluation_cycle.
  destruct (in_criticalTrustFailure input) as [f|]; [left; eauto|right].
  destruct (parsed_policy input) as [[pv policy]|]; [right; eauto 10 | left; eauto].
Qed.

Lemma stale_override_healthy policy input sr :
  hs_status (stale_heartbeat_override policy input sr).1 = HEALTHY →
  stale_heartbeat_override policy input sr = sr ∧ heartbeat_fresh policy input = true.
Proof.
  unfold stale_heartbeat_override.
  destruct (heartbeat_fresh policy input); simpl; [done|].
  case_bool_decide; simpl; done.
Qed.

Lemma atLeastDegraded_not_healthy s : atLeastDegraded s ≠ HEALTHY.
Proof. by destruct s. Qed.

(** [HEALTHY] is entered only through the recovery branch. *)
Lemma apply_cycle_healthy policy input d s :
  hs_status (apply_cycle policy input d s).1 = HEALTHY →
  hs_status s = HEALTHY ∨
  d = CD_SUCCESS ∧ hs_status s ≠ QUARANTINED ∧ hs_status s ≠ DISABLED ∧
  recoverySuccessCycles policy ≤ hs_consecutiveRecoverySuccesses s + 1 ∧
  milliseconds (recoveryMinimumSeconds policy) ≤
    in_evaluatedAt input - default (in_cycleStartedAt input) (hs_recoveryWindowStartedAt s) ∧
  gates_pass policy input = true ∧
  (apply_cycle policy input d s).1 =
    {| hs_status := HEALTHY; hs_excludedFromCandidates := false;
       hs_consecutiveFailureCycles := 0; hs_consecutiveRecoverySuccesses := 0;
       hs_recoveryWindowStartedAt := None; hs_consecutiveUncertainCycles := 0;
       hs_cooldownUntil := Some (in_evaluatedAt input + milliseconds (cooldownSeconds policy)) |}.
Proof.
  destruct d; simpl.
  - unfold success_cycle. case_bool_decide as Hh; [by left|].
    destruct (negb _ && negb _ && _ && _ && _) eqn:Hg; simpl; [|by left].
    rewrite !andb_true_iff, !negb_true_iff, !bool_decide_eq_false, !Z.leb_le in Hg.
    right. naive_solver.
  - unfold failed_cycle. case_match; simpl; [by intros ?%atLeastDegraded_not_healthy|].
    case_match; simpl; [by intros ?%atLeastDegraded_not_healthy|by left].
  - unfold uncertain_cycle. case_match; simpl; [by intros ?%atLeastDegraded_not_healthy|by left].
  - unfold uncertain_cycle. case_match; simpl; [by intros ?%atLeastDegraded_not_healthy|by left].
Qed.

(** A scope that was not HEALTHY becomes HEALTHY only by a complete
    recovery: no critical trust failure, a valid policy, a SUCCESS cycle, a
    status that is neither QUARANTINED nor DISABLED, enough consecutive
    successes, an elapsed recovery window, a fresh heartbeat, a trusted clock,
    a passed serving check and equal desired and applied versions.  The scope
    is then no longer excluded and its cooldown starts. *)
Theorem recovery_requires_gates `{LocaleCompare} input :
  hs_status (in_previousState input) ≠ HEALTHY →
  hd_decision (evaluateHealthCycle input) = HEALTHY →
  ∃ pv policy,
    in_criticalTrustFailure input = None ∧ parsed_policy input = Some (pv, policy) ∧
    evaluation_cycle input = Some CD_SUCCESS ∧
    hs_status (in_previousState input) ≠ QUARANTINED ∧
    hs_status (in_previousState input) ≠ DISABLED ∧
    recoverySuccessCycles policy ≤
      hs_consecutiveRecoverySuccesses (in_previousState input) + 1 ∧
    milliseconds (recoveryMinimumSeconds policy) ≤ in_evaluatedAt input -
      default (in_cycleStartedAt input) (hs_recoveryWindowStartedAt (in_previousState input)) ∧
    gates_pass policy input = true ∧
    hs_excludedFromCandidates (hd_state (evaluateHealthCycle input)) = false ∧
    hs_cooldownUntil (hd_state (evaluateHealthCycle input)) =
      Some (in_evaluatedAt input + milliseconds (cooldownSeconds policy)).
Proof.
  intros Hprev.
  destruct (evaluateHealthCycle_cases input)
    as [(f&pv&_&->)|[(_&_&->)|(pv&policy&cycle&Hcrit&Hpol&Hcyc&->)]]; simpl.
  - done.
  - by intros ?%atLeastDegraded_not_healthy.
  - intros Hh. pose proof Hh as Hh'. apply stale_override_healthy in Hh' as [Hs _].
    rewrite Hs in *. destruct (apply_cycle_healthy _ _ _ _ Hh) as [?|(Hd&?&?&?&?&?&He)]; [done|].
    exists pv, policy. rewrite He, Hcyc, Hd. naive_solver.
Qed.

(** The branches that leave a scope HEALTHY keep its counters low. *)
Lemma apply_cycle_counters policy input d s :
  health_policy_wf policy →
  let s' := (apply_cycle policy input d s).1 in
  hs_status s' = HEALTHY →
  match d with
  | CD_SUCCESS => hs_consecutiveFailureCycles s' = 0 ∧ hs_consecutiveUncertainCycles s' = 0
  | CD_FAILED => hs_consecutiveFailureCycles s' < degradedFailureCycles policy ∧
                 hs_consecutiveUncertainCycles s' = 0
  | CD_MIXED | CD_UNKNOWN => hs_consecutiveUncertainCycles s' < mixedUnknownDegradedCycles policy
  end.
Proof.
  intros Hwf. destruct d; simpl.
  - unfold success_cycle. case_bool_decide; [done|]. by case_match.
  - unfold failed_cycle. destruct (_ <=? _); simpl; [by intros ?%atLeastDegraded_not_healthy|].
    destruct (degradedFailureCycles policy <=? _) eqn:Hle; simpl;
      [by intros ?%atLeastDegraded_not_healthy|].
    apply Z.leb_gt in Hle. done.
  - unfold uncertain_cycle. destruct (_ <=? _) eqn:Hle; simpl;
      [by intros ?%atLeastDegraded_not_healthy|]. by apply Z.leb_gt in Hle.
  - unfold uncertain_cycle. destruct (_ <=? _) eqn:Hle; simpl;
      [by intros ?%atLeastDegraded_not_healthy|]. by apply Z.leb_gt in Hle.
Qed.

(** New assignments are allowed only on a HEALTHY, non-excluded scope
    evaluated under a valid policy, without a critical trust failure and with
    a fresh heartbeat; after a failed cycle the failure count is below the
    degradation threshold, after a mixed or unknown cycle the uncertain count
    is below its own, and after a success both are zero. *)
Theorem assignments_only_when_healthy `{LocaleCompare} input :
  hd_allowNewAssignments (evaluateHealthCycle input) = true →
  ∃ pv policy d,
    in_criticalTrustFailure input = None ∧ parsed_policy input = Some (pv, policy) ∧
    evaluation_cycle input = Some d ∧
    heartbeat_fresh policy input = true ∧
    let s := hd_state (evaluateHealthCycle input) in
    hs_status s = HEALTHY ∧ hs_excludedFromCandidates s = false ∧
    match d with
    | CD_SUCCESS => hs_consecutiveFailureCycles s = 0 ∧ hs_consecutiveUncertainCycles s = 0
    | CD_FAILED => hs_consecutiveFailureCycles s < degradedFailureCycles policy ∧
                   hs_consecutiveUncertainCycles s = 0
    | CD_MIXED | CD_UNKNOWN =>
        hs_consecutiveUncertainCycles s < mixedUnknownDegradedCycles policy
    end.
Proof.
  destruct (evaluateHealthCycle_cases input)
    as [(f&pv&_&->)|[(_&_&->)|(pv&policy&cycle&Hcrit&Hpol&Hcyc&->)]]; simpl.
  - done.
  - intros [Hh%bool_decide_eq_true _]%andb_prop. by apply atLeastDegraded_not_healthy in Hh.
  - intros [Hh%bool_decide_eq_true He%negb_true_iff]%andb_prop.
    pose proof Hh as Hh'. apply stale_override_healthy in Hh' as [Hs Hfresh].
    rewrite Hs in *. exists pv, policy, (cycle_decision cycle). split_and!; [done..|].
    by apply apply_cycle_counters; [eapply parsed_policy_wf|].
Qed.

(** ** Sequences of evaluations *)

(** One evaluation from the stored state, and a run of evaluations. *)
Definition with_previous (s : HealthDecisionState) (i : EvaluateHealthCycleInput)
    : EvaluateHealthCycleInput :=
  {| in_policy := in_policy i; in_affectedScope := in_affectedScope i;
     in_routeVersion := in_routeVersion i; in_cycleStartedAt := in_cycleStartedAt i;
     in_evaluatedAt := in_evaluatedAt i; in_signals := in_signals i;
     in_consumedSignalIds := in_consumedSignalIds i; in_previousState := s;
     in_lastHeartbeatAt := in_lastHeartbeatAt i; in_recoveryGates := in_recoveryGates i;
     in_criticalTrustFailure := in_criticalTrustFailure i |}.

Section runs.
Context `{LocaleCompare}.

Definition health_step (s : HealthDecisionState) (i : EvaluateHealthCycleInput)
    : HealthDecisionState := hd_state (evaluateHealthCycle (with_previous s i)).
Definition health_run : HealthDecisionState → list EvaluateHealthCycleInput → HealthDecisionState :=
  foldl health_step.

Lemma health_run_snoc s l i : health_run s (l ++ [i]) = health_step (health_run s l) i.
Proof. unfold health_run. by rewrite foldl_app. Qed.

(** The consecutive SUCCESS cycles at the end of a run (given latest first);
    an evaluation without a valid policy neither counts nor breaks it. *)
Fixpoint success_streak (latest_first : list EvaluateHealthCycleInput) : Z :=
  match latest_first with
  | [] => 0
  | i :: l =>
      match in_criticalTrustFailure i, evaluation_cycle i with
      | Some _, _ => 0
      | None, None => success_streak l
      | None, Some CD_SUCCESS => 1 + success_streak l
      | None, Some _ => 0
      end
  end.

Lemma success_streak_nonneg l : 0 ≤ success_streak l.
Proof. induction l as [|i l IH]; simpl; [done|]. repeat case_match; lia. Qed.

Lemma apply_cycle_recovery_count policy input d s :
  hs_consecutiveRecoverySuccesses (apply_cycle policy input d s).1
  ≤ if decide (d = CD_SUCCESS) then Z.max 0 (hs_consecutiveRecoverySuccesses s + 1) else 0.
Proof.
  destruct d; simpl.
  - unfold success_cycle. repeat case_match; simpl; lia.
  - unfold failed_cycle. repeat case_match; simpl; lia.
  - unfold uncertain_cycle. repeat case_match; simpl; lia.
  - unfold uncertain_cycle. repeat case_match; simpl; lia.
Qed.

Lemma stale_override_counters policy input sr :
  hs_consecutiveRecoverySuccesses (stale_heartbeat_override policy input sr).1 =
  hs_consecutiveRecoverySuccesses sr.1.
Proof. unfold stale_heartbeat_override. by case_match. Qed.

Lemma run_recovery_count s0 l :
  hs_consecutiveRecoverySuccesses s0 ≤ 0 →
  hs_consecutiveRecoverySuccesses (health_run s0 l) ≤ success_streak (rev l).
Proof.
  intros H0. induction l as [|i l IH] using rev_ind; [done|].
  rewrite health_run_snoc, rev_app_distr. simpl.
  set (s := health_run s0 l) in *. unfold health_step.
  pose proof (success_streak_nonneg (rev l)).
  destruct (evaluateHealthCycle_cases (with_previous s i))
    as [(f&pv&Hc&->)|[(Hc&Hp&->)|(pv&policy&cycle&Hc&Hp&Hcyc&->)]]; simpl in *.
  - by rewrite Hc.
  - rewrite Hc. unfold evaluation_cycle. rewrite Hc.
    change (parsed_policy i) with (parsed_policy (with_previous s i)). by rewrite Hp.
  - change (evaluation_cycle (with_previous s i)) with (evaluation_cycle i) in Hcyc.
    rewrite Hc, Hcyc, stale_override_counters.
    etrans; [apply apply_cycle_recovery_count|].
    destruct (cycle_decision cycle); simpl; lia.
Qed.
End runs.

(** A run of evaluations reaches HEALTHY from another status only at the
    end of an uninterrupted streak of SUCCESS cycles at least as long as the
    [recoverySuccessCycles] of the policy in force at that moment. *)
Theorem recovery_needs_success_streak `{LocaleCompare} s0 l i :
  hs_consecutiveRecoverySuccesses s0 = 0 →
  hs_status (health_run s0 l) ≠ HEALTHY →
  hs_status (health_run s0 (l ++ [i])) = HEALTHY →
  ∃ pv policy, parsed_policy i = Some (pv, policy) ∧
    recoverySuccessCycles policy ≤ success_streak (rev (l ++ [i])).
Proof.
  intros H0 Hne. rewrite health_run_snoc. set (s := health_run s0 l) in *. intros Hh.
  assert (hs_consecutiveRecoverySuccesses s ≤ success_streak (rev l)) as Hs
    by (apply run_recovery_count; lia).
  unfold health_step in Hh.
  destruct (evaluateHealthCycle_cases (with_previous s i))
    as [(f&pv&Hc&He)|[(Hc&Hp&He)|(pv&policy&cycle&Hc&Hp&Hcyc&He)]]; rewrite He in Hh; simpl in *.
  - done.
  - by apply atLeastDegraded_not_healthy in Hh.
  - apply stale_override_healthy in Hh as Heq; destruct Heq as [Heq _]; rewrite Heq in Hh.
    apply apply_cycle_healthy in Hh as [?|(Hd&_&_&Hn&_)]; [done|].
    exists pv, policy. split; [done|]. rewrite rev_app_distr. simpl.
    change (evaluation_cycle (with_previous s i)) with (evaluation_cycle i) in Hcyc.
    rewrite Hc, Hcyc, Hd. simpl in Hn. lia.
Qed.

(** An evaluation of a sound recovery under [policy]. *)
Definition recovering `{LocaleCompare} (policy : HealthPolicyConfig)
    (i : EvaluateHealthCycleInput) : Prop :=
  in_criticalTrustFailure i = None ∧ (∃ pv, parsed_policy i = Some (pv, policy)) ∧
  evaluation_cycle i = Some CD_SUCCESS ∧ gates_pass policy i = true.

Lemma recovering_step `{LocaleCompare} policy s i :
  recovering policy i →
  health_step s i = (success_cycle policy i s).1.
Proof.
  intros (Hc & (pv & Hp) & Hcyc & Hg). unfold health_step.
  destruct (evaluateHealthCycle_cases (with_previous s i))
    as [(f&pv'&Hc'&He)|[(Hc'&Hp'&He)|(pv'&policy'&cycle&Hc'&Hp'&Hcyc'&He)]];
    rewrite He; simpl in *.
  - congruence.
  - change (parsed_policy i) with (parsed_policy (with_previous s i)) in Hp. congruence.
  - change (parsed_policy i) with (parsed_policy (with_previous s i)) in Hp.
    change (evaluation_cycle (with_previous s i)) with (evaluation_cycle i) in Hcyc'.
    rewrite Hp in Hp'. simplify_eq. assert (cycle_decision cycle = CD_SUCCESS) as -> by congruence.
    unfold stale_heartbeat_override, gates_pass in *.
    change (heartbeat_fresh policy' (with_previous s i)) with (heartbeat_fresh policy' i).
    destruct (heartbeat_fresh policy' i); [done|discriminate].
Qed.

Lemma success_run `{LocaleCompare} policy l s start :
  hs_status s ≠ QUARANTINED → hs_status s ≠ DISABLED →
  Forall (recovering policy) l →
  (∀ i, head l = Some i →
     default (in_cycleStartedAt i) (hs_recoveryWindowStartedAt s) = start) →
  let s' := health_run s l in
  hs_status s' = HEALTHY ∨
  hs_status s' = hs_status s ∧
  hs_consecutiveRecoverySuccesses s' =
    hs_consecutiveRecoverySuccesses s + Z.of_nat (length l) ∧
  (l ≠ [] → hs_recoveryWindowStartedAt s' = Some start).
Proof.
  intros Hq Hd Hl Hstart. induction l as [|i l IH] using rev_ind; simpl.
  { right. split_and!; [done|lia|done]. }
  apply Forall_app in Hl as [Hl Hi]. rewrite Forall_singleton in Hi.
  rewrite health_run_snoc, (recovering_step policy) by done.
  assert (Hhead : ∀ i', head l = Some i' →
    default (in_cycleStartedAt i') (hs_recoveryWindowStartedAt s) = start).
  { intros i' Hi'. apply Hstart. by destruct l. }
  destruct (IH Hl Hhead) as [Hh|(Hst&Hn&Hw)]; unfold success_cycle.
  { rewrite Hh. simpl. by left. }
  rewrite Hst, Hn. case_bool_decide as Hh; simpl; [by left|].
  destruct (_ && _); simpl; [by left|right].
  split_and!; [done|rewrite length_app; simpl; lia|]. intros _. f_equal.
  destruct l as [|j l']; [by apply Hstart|by rewrite Hw].
Qed.

(** Recovery happens: from any status but QUARANTINED and DISABLED, a run
    of sound SUCCESS evaluations that is long enough, in number and from the
    start of its first cycle to its last evaluation, ends HEALTHY. *)
Theorem sustained_success_recovers `{LocaleCompare} policy s first l last :
  hs_status s ≠ QUARANTINED → hs_status s ≠ DISABLED →
  hs_consecutiveRecoverySuccesses s = 0 → hs_recoveryWindowStartedAt s = None →
  Forall (recovering policy) (first :: l ++ [last]) →
  recoverySuccessCycles policy ≤ 2 + Z.of_nat (length l) →
  milliseconds (recoveryMinimumSeconds policy)
    ≤ in_evaluatedAt last - in_cycleStartedAt first →
  hs_status (health_run s (first :: l ++ [last])) = HEALTHY.
Proof.
  intros Hq Hd Hn Hw Hall Hlen Hwin.
  apply (Forall_app _ (first :: l)) in Hall as [Hall Hlast].
  rewrite Forall_singleton in Hlast.
  change (first :: l ++ [last]) with ((first :: l) ++ [last]).
  rewrite health_run_snoc, (recovering_step policy) by done.
  destruct (success_run policy (first :: l) s (in_cycleStartedAt first))
    as [Hh|(Hst&Hn'&Hw')]; [done..| | |].
  { intros i [= <-]. by rewrite Hw. }
  { unfold success_cycle. by rewrite Hh. }
  unfold success_cycle. destruct (bool_decide (hs_status _ = HEALTHY)) eqn:Hh.
  { by apply bool_decide_eq_true in Hh. }
  rewrite Hst, Hn', Hw' by done. rewrite !bool_decide_eq_false_2 by done. simpl.
  rewrite !(proj2 (Z.leb_le _ _)); [|done|simpl; lia].
  by destruct Hlast as (_&_&_&->).
Qed.

(** What every stored state satisfies. *)
Record health_state_inv (s : HealthDecisionState) : Prop := {
  hi_failures : 0 ≤ hs_consecutiveFailureCycles s;
  hi_successes : 0 ≤ hs_consecutiveRecoverySuccesses s;
  hi_uncertain : 0 ≤ hs_consecutiveUncertainCycles s;
  hi_healthy : hs_status s = HEALTHY →
    hs_excludedFromCandidates s = false ∧ hs_consecutiveRecoverySuccesses s = 0 ∧
    is_Some (hs_cooldownUntil s);
  hi_quarantined : hs_status s = QUARANTINED → hs_excludedFromCandidates s = true;
  hi_window : 0 < hs_consecutiveRecoverySuccesses s ↔ is_Some (hs_recoveryWindowStartedAt s);
  hi_promoted : hs_cooldownUntil s = None → hs_excludedFromCandidates s = true;
}.

Lemma atLeastDegraded_quarantined s : atLeastDegraded s = QUARANTINED → s = QUARANTINED.
Proof. by destruct s. Qed.

Lemma window_None {A} : 0 < 0 ↔ is_Some (@None A).
Proof. split; [lia | by intros [? ?]]. Qed.

Lemma health_inv_degrade status s :
  health_state_inv s → status = hs_status s ∨ status = atLeastDegraded (hs_status s) →
  health_state_inv (set_status status s).
Proof.
  intros [] Hst. split; simpl; try done.
  - intros ->. destruct Hst as [|Hst]; [auto|].
    by apply symmetry, atLeastDegraded_not_healthy in Hst.
  - intros ->. destruct Hst as [|Hst]; [auto|].
    by apply hi_quarantined0, atLeastDegraded_quarantined.
Qed.

Lemma health_inv_failed policy s :
  health_state_inv s → health_state_inv (failed_cycle policy s).1.
Proof.
  intros []. unfold failed_cycle. destruct (_ <=? _); [|destruct (_ <=? _)];
    (split; simpl; [lia|lia|lia| | |apply window_None|]); try done;
    try (by intros ?%atLeastDegraded_not_healthy);
    try (by intros ?%atLeastDegraded_quarantined; auto).
  intros Hh. by destruct (hi_healthy0 Hh) as (?&?&?).
Qed.

Lemma health_inv_uncertain policy d s :
  health_state_inv s → health_state_inv (uncertain_cycle policy d s).1.
Proof.
  intros []. unfold uncertain_cycle. destruct (_ <=? _);
    (split; simpl; [lia|lia|lia| | |apply window_None|]); try done;
    try (by intros ?%atLeastDegraded_not_healthy);
    try (by intros ?%atLeastDegraded_quarantined; auto).
  intros Hh. by destruct (hi_healthy0 Hh) as (?&?&?).
Qed.

Lemma health_inv_success policy input s :
  health_state_inv s → health_state_inv (success_cycle policy input s).1.
Proof.
  intros []. unfold success_cycle.
  case_bool_decide as Hh; [|destruct (_ && _)]; split; simpl;
    try lia; try done; try apply window_None.
  - intros _. by destruct (hi_healthy0 Hh) as (?&?&?).
  - split; [eauto|lia].
Qed.

Lemma health_step_inv `{LocaleCompare} s i :
  health_state_inv s → health_state_inv (health_step s i).
Proof.
  intros Hs. unfold health_step.
  destruct (evaluateHealthCycle_cases (with_previous s i))
    as [(f&pv&Hc&->)|[(Hc&Hp&->)|(pv&policy&cycle&Hc&Hp&Hcyc&->)]]; simpl.
  - destruct Hs. split; simpl; try done; apply window_None.
  - apply health_inv_degrade; auto.
  - assert (health_state_inv (apply_cycle policy (with_previous s i) (cycle_decision cycle) s).1)
      as Ha.
    { destruct (cycle_decision cycle); simpl; auto using health_inv_failed,
        health_inv_uncertain, health_inv_success. }
    unfold stale_heartbeat_override. destruct (_ && _) eqn:Ho; [simpl|done].
    apply andb_prop in Ho as [_ Ho%bool_decide_eq_true].
    apply health_inv_degrade; [done|]. right. by rewrite Ho.
Qed.

(** Every state reachable from the initial one is well formed: counters
    are non-negative, the recovery window is open exactly while recovery
    successes are being counted, a HEALTHY scope is not excluded and has a
    cooldown, a QUARANTINED scope is excluded, and a scope that has never
    recovered stays excluded. *)
Theorem reachable_health_states `{LocaleCompare} inputs :
  health_state_inv (health_run initial_health_state inputs).
Proof.
  induction inputs as [|i l IH] using rev_ind.
  - split; simpl; (done || apply window_None).
  - rewrite health_run_snoc. by apply health_step_inv.
Qed.

Lemma allow_assignments_state `{LocaleCompare} input :
  hd_allowNewAssignments (evaluateHealthCycle input) =
  bool_decide (hs_status (hd_state (evaluateHealthCycle input)) = HEALTHY) &&
  negb (hs_excludedFromCandidates (hd_state (evaluateHealthCycle input))).
Proof.
  by destruct (evaluateHealthCycle_cases input)
    as [(f&pv&_&->)|[(_&_&->)|(pv&policy&cycle&_&_&_&->)]].
Qed.

(** A cycle does not move a scope out of an absorbing status. *)
Lemma absorbing_cycle policy input d s :
  hs_status s = QUARANTINED ∨ hs_status s = DISABLED →
  hs_status (stale_heartbeat_override policy input (apply_cycle policy input d s)).1 = hs_status s.
Proof.
  intros Hs. assert (Ha : hs_status (apply_cycle policy input d s).1 = hs_status s).
  { destruct d; simpl; unfold failed_cycle, success_cycle, uncertain_cycle;
      destruct Hs as [-> | ->]; simpl; by repeat case_match. }
  unfold stale_heartbeat_override. rewrite (bool_decide_eq_false_2 (_ = HEALTHY)).
  - by rewrite andb_false_r.
  - rewrite Ha. by destruct Hs as [-> | ->].
Qed.

(** Quarantine is final for the decision function: no run of evaluations
    leaves QUARANTINED, and DISABLED is left only for QUARANTINED, so neither
    ever allows new assignments. *)
Theorem quarantine_is_absorbing `{LocaleCompare} s inputs :
  (hs_status s = QUARANTINED → hs_status (health_run s inputs) = QUARANTINED) ∧
  (hs_status s = DISABLED → hs_status (health_run s inputs) ∈ [DISABLED; QUARANTINED]) ∧
  (hs_status s ∈ [DISABLED; QUARANTINED] → ∀ i,
     hd_allowNewAssignments (evaluateHealthCycle (with_previous (health_run s inputs) i)) = false).
Proof.
  assert (Hstep : ∀ s i,
    (hs_status s = QUARANTINED → hs_status (health_step s i) = QUARANTINED) ∧
    (hs_status s = DISABLED → hs_status (health_step s i) ∈ [DISABLED; QUARANTINED])).
  { intros s' i. unfold health_step.
    destruct (evaluateHealthCycle_cases (with_previous s' i))
      as [(f&pv&_&->)|[(_&_&->)|(pv&policy&cycle&_&_&_&->)]]; simpl.
    - set_solver.
    - split; intros ->; simpl; set_solver.
    - split; intros Hs; rewrite absorbing_cycle; rewrite Hs; set_solver. }
  assert (Hrun : (hs_status s = QUARANTINED → hs_status (health_run s inputs) = QUARANTINED) ∧
    (hs_status s = DISABLED → hs_status (health_run s inputs) ∈ [DISABLED; QUARANTINED])).
  { induction inputs as [|i l IH] using rev_ind; [simpl; set_solver|].
    rewrite health_run_snoc. destruct (Hstep (health_run s l) i). set_solver. }
  split_and!; [apply Hrun..|].
  intros Hs i. rewrite allow_assignments_state. fold (health_step (health_run s inputs) i).
  destruct Hrun as [Hrq Hrd], (Hstep (health_run s inputs) i) as [Hq Hd].
  apply andb_false_iff. left. apply bool_decide_eq_false. intros Hh. rewrite Hh in Hq, Hd.
  assert (Hnot : HEALTHY ∉ [DISABLED; QUARANTINED]) by set_solver.
  assert (Hr : hs_status (health_run s inputs) ∈ [DISABLED; QUARANTINED]).
  { apply elem_of_cons in Hs as [Hs|Hs%list_elem_of_singleton]; [auto|].
    rewrite (Hrq Hs). set_solver. }
  apply elem_of_cons in Hr as [Hr|Hr%list_elem_of_singleton]; [auto|discriminate (Hq Hr)].
Qed.

(** The reasons a cycle can give: exclusion exactly when a failed cycle
    reaches the threshold, and then the scope is excluded. *)
Lemma cycle_reason policy input d s :
  let sr := stale_heartbeat_override policy input (apply_cycle policy input d s) in
  sr.2 ≠ CRITICAL_TRUST_FAILURE ∧
  (sr.2 = EXCLUSION_THRESHOLD_REACHED ↔
     d = CD_FAILED ∧ excludeFailureCycles policy ≤ hs_consecutiveFailureCycles s + 1) ∧
  (sr.2 = EXCLUSION_THRESHOLD_REACHED →
     hs_excludedFromCandidates sr.1 = true ∧ hs_status sr.1 ≠ HEALTHY ∧
     hs_cooldownUntil sr.1 = hs_cooldownUntil s).
Proof.
  unfold stale_heartbeat_override. destruct d; simpl.
  - unfold success_cycle. repeat (case_match; simpl); naive_solver.
  - unfold failed_cycle. destruct (excludeFailureCycles policy <=? _) eqn:Hle; simpl.
    + apply Z.leb_le in Hle. rewrite (bool_decide_eq_false_2 (atLeastDegraded _ = HEALTHY))
        by apply atLeastDegraded_not_healthy. rewrite andb_false_r. simpl.
      pose proof (atLeastDegraded_not_healthy (hs_status s)). naive_solver.
    + apply Z.leb_gt in Hle. assert (¬ excludeFailureCycles policy ≤ hs_consecutiveFailureCycles s + 1)
        by lia. repeat (case_match; simpl); naive_solver.
  - unfold uncertain_cycle. repeat (case_match; simpl); naive_solver.
  - unfold uncertain_cycle. repeat (case_match; simpl); naive_solver.
Qed.

(** A replacement is triggered exactly on a critical trust failure, or
    when the cycle failed, the exclusion threshold is reached and no cooldown
    is running; whenever it is, an incident is raised too and the scope is
    excluded from the candidates. *)
Theorem replacement_trigger_exact `{LocaleCompare} input :
  let d := evaluateHealthCycle input in
  let s := in_previousState input in
  (hd_triggerReplacement d = true ↔
     is_Some (in_criticalTrustFailure input) ∨
     ∃ pv policy, in_criticalTrustFailure input = None ∧ parsed_policy input = Some (pv, policy) ∧
       evaluation_cycle input = Some CD_FAILED ∧
       excludeFailureCycles policy ≤ hs_consecutiveFailureCycles s + 1 ∧
       sql_gt (hs_cooldownUntil s) (in_evaluatedAt input) = false) ∧
  (hd_triggerReplacement d = true →
     hd_triggerIncident d = true ∧ hs_excludedFromCandidates (hd_state d) = true ∧
     hd_allowNewAssignments d = false).
Proof.
  intros d s. unfold d.
  destruct (evaluateHealthCycle_cases input)
    as [(f&pv&Hc&->)|[(Hc&Hp&->)|(pv&policy&cycle&Hc&Hp&Hcyc&->)]].
  - simpl. split; [|done]. split; [rewrite Hc; eauto|done].
  - simpl. split; [|done]. split; [done|]. rewrite Hc, Hp. intros [[? ?]|(?&?&?&?&_)]; done.
  - destruct (cycle_reason policy input (cycle_decision cycle) s) as (Hcr & Hex & Hst).
    fold s. set (sr := stale_heartbeat_override _ _ _) in *. simpl.
    rewrite (bool_decide_eq_false_2 _ Hcr), orb_false_r. simpl.
    rewrite andb_true_iff, bool_decide_eq_true, negb_true_iff, Hcyc, Hc, Hp. split.
    + rewrite Hex. split.
      * intros [[Hd ?] Hcd]. right. exists pv, policy. rewrite Hd.
        split_and!; [done..|]. destruct Hst as (_&_&Hk); [by apply Hex|]. by rewrite <- Hk.
      * intros [[? ?]|(pv'&policy'&_&?&?&?&Hcd)]; simplify_eq.
        split; [naive_solver|]. destruct Hst as (_&_&Hk); [by apply Hex; naive_solver|].
        by rewrite Hk.
    + intros [Hr _]. destruct (Hst Hr) as (He&Hh&_). split_and!; [done|done|].
      by rewrite He, andb_false_r.
Qed.

(** ** The theorems at work *)
Module Examples.
#[local] Existing Instance codeUnitLocale.

Definition signal (id source key : string) (start : Z) (outcome : ProbeOutcome) : ProbeSignal :=
  {| ps_id := id; ps_sourceId := source; ps_independenceKey := key;
     ps_cycleStartedAt := start; ps_receivedAt := start + 1000; ps_authenticated := true;
     ps_controlHealthy := true; ps_routeVersion := 1; ps_outcome := outcome;
     ps_failureClass := if decide (outcome = PO_FAILURE) then Some DNS else None |}.

Definition signals (start : Z) (outcome : ProbeOutcome) : list ProbeSignal :=
  [signal "s1" "a" "asn-1" start outcome; signal "s2" "b" "asn-2" start outcome].

Definition evaluation (start : Z) (outcome : ProbeOutcome) (s : HealthDecisionState)
    : EvaluateHealthCycleInput :=
  {| in_policy := Some {| pi_id := "p1"; pi_code := "v1";
       pi_config := encode_health_policy example_health_policy |};
     in_affectedScope := {| scope_kind := PROFILE; scope_id := "x" |};
     in_routeVersion := 1; in_cycleStartedAt := start; in_evaluatedAt := start + 60000;
     in_signals := signals start outcome; in_consumedSignalIds := [];
     in_previousState := s; in_lastHeartbeatAt := Some start;
     in_recoveryGates := {| rg_clockTrusted := true; rg_servingCheckPassed := true;
       rg_desiredVersion := 3; rg_appliedVersion := 3 |};
     in_criticalTrustFailure := None |}.

Definition success (start : Z) : EvaluateHealthCycleInput :=
  evaluation start PO_SUCCESS initial_health_state.

Definition quarantined : HealthDecisionState :=
  {| hs_status := QUARANTINED; hs_excludedFromCandidates := true;
     hs_consecutiveFailureCycles := 0; hs_consecutiveRecoverySuccesses := 0;
     hs_recoveryWindowStartedAt := None; hs_consecutiveUncertainCycles := 0;
     hs_cooldownUntil := None |}.

(** Two failures of one class from independent sources fail the cycle. *)
Lemma probe_cycle_quorum_witness :
  cycle_decision (aggregateHealthProbeCycle example_health_policy 0 1
    (signals 0 PO_FAILURE) []) = CD_FAILED ∧
  NoDup (ps_sourceId <$> accepted_votes example_health_policy 0 1 (signals 0 PO_FAILURE) []).
Proof.
  split; [by vm_compute|].
  exact (proj1 (proj2 (probe_cycle_quorum example_health_policy 0 1 (signals 0 PO_FAILURE) []
    example_health_policy_wf))).
Defined.

Lemma aggregate_order_independent_witness :
  aggregateHealthProbeCycle example_health_policy 0 1 (signals 0 PO_FAILURE) [] =
  aggregateHealthProbeCycle example_health_policy 0 1 (reverse (signals 0 PO_FAILURE)) [].
Proof.
  apply aggregate_order_independent.
  - apply Permutation_swap.
  - by apply (bool_decide_eq_true_1 (NoDup (ps_id <$> signals 0 PO_FAILURE))); vm_compute.
  - intros s Hs. unfold signals in Hs. rewrite !elem_of_cons in Hs.
    destruct Hs as [-> | [-> | Hs]]; [done..|]. by apply not_elem_of_nil in Hs.
Defined.

(** The second success from the initial state completes the recovery. *)
Definition second_success : EvaluateHealthCycleInput :=
  with_previous (health_run initial_health_state [success 0]) (success 60000).

Lemma recovery_requires_gates_witness :
  hd_decision (evaluateHealthCycle second_success) = HEALTHY ∧
  hs_excludedFromCandidates (hd_state (evaluateHealthCycle second_success)) = false.
Proof.
  assert (H : hd_decision (evaluateHealthCycle second_success) = HEALTHY) by by vm_compute.
  split; [exact H|].
  destruct (recovery_requires_gates second_success) as (pv&policy&_&_&_&_&_&_&_&_&He&_);
    [by vm_compute|exact H|exact He].
Defined.

Lemma assignments_only_when_healthy_witness :
  hd_allowNewAssignments (evaluateHealthCycle second_success) = true ∧
  ∃ pv policy, parsed_policy second_success = Some (pv, policy).
Proof.
  assert (H : hd_allowNewAssignments (evaluateHealthCycle second_success) = true)
    by by vm_compute.
  split; [exact H|].
  destruct (assignments_only_when_healthy second_success H) as (pv&policy&d&_&Hp&_).
  by exists pv, policy.
Defined.

Lemma recovery_needs_success_streak_witness :
  ∃ pv policy, parsed_policy (success 60000) = Some (pv, policy) ∧
    recoverySuccessCycles policy ≤ success_streak (rev [success 0; success 60000]).
Proof.
  refine (recovery_needs_success_streak initial_health_state [success 0] (success 60000) _ _ _);
    by vm_compute.
Defined.

Lemma success_recovering start :
  evaluation_cycle (success start) = Some CD_SUCCESS →
  gates_pass example_health_policy (success start) = true →
  recovering example_health_policy (success start).
Proof.
  intros Hc Hg. split_and!; [done| |done..].
  by exists {| pvr_id := "p1"; pvr_code := "v1" |}; vm_compute.
Qed.

Lemma sustained_success_recovers_witness :
  hs_status (health_run initial_health_state [success 0; success 60000]) = HEALTHY.
Proof.
  refine (sustained_success_recovers example_health_policy initial_health_state
    (success 0) [] (success 60000) _ _ _ _ _ _ _); [done..| | |].
  - constructor; [|constructor; [|constructor]]; apply success_recovering; by vm_compute.
  - simpl. lia.
  - simpl. unfold milliseconds. lia.
Defined.

(** One failed cycle away from exclusion. *)
Example third_failure_excludes :
  let s := health_run initial_health_state
    [evaluation 0 PO_FAILURE initial_health_state; evaluation 60000 PO_FAILURE initial_health_state] in
  hd_reason (evaluateHealthCycle (evaluation 120000 PO_FAILURE s)) = EXCLUSION_THRESHOLD_REACHED ∧
  hd_triggerReplacement (evaluateHealthCycle (evaluation 120000 PO_FAILURE s)) = true.
Proof. by vm_compute. Qed.
End Examples.
