(* ===== verification/Sql.v ===== *)
(** * SQL tables

    A table is a finite map from primary keys to rows.  [UPDATE ... SET ...
    WHERE ... RETURNING] is one atomic step: it raises, and changes nothing,
    when a trigger protects a selected row or a new row violates a CHECK
    constraint of its table.  A statement reads the clock once.  Column length limits
    ([VARCHAR(n)]) are not part of the model, and [uuid] values are their
    canonical lower-case text. *)

From S2P Require Import Prelude.
Open Scope Z_scope.

Inductive DbError :=
| CheckViolation
| TriggerRaised
| UniqueViolation
| ForeignKeyViolation
| NumericOutOfRange
| RecordNotFound. (** Prisma's P2025: [update] found no row *)

#[export] Instance DbError_eq_dec : EqDecision DbError.
Proof. solve_decision. Defined.

Notation Table := (gmap string).

Section table.
Context {Row : Type}.
(** The conjunction of the table's CHECK constraints, and the rows its BEFORE
    UPDATE trigger refuses to change. *)
Context (checks frozen : Row → bool).

(** The rows selected by a WHERE clause. *)
Definition sql_where (p : Row → bool) (t : Table Row) : Table Row :=
  filter (λ kv, p kv.2 = true) t.

Definition rows (t : Table Row) : list Row := (map_to_list t).*2.

Definition sql_set (p : Row → bool) (f : Row → Row) (t : Table Row) : Table Row :=
  (λ r, if p r then f r else r) <$> t.

(** Returns the updated rows. *)
Definition sql_update (p : Row → bool) (f : Row → Row) : M (Table Row) DbError (list Row) := λ t,
  let selected := rows (sql_where p t) in
  if existsb frozen selected then (Throw TriggerRaised, t)
  else if forallb (λ r, checks (f r)) selected
  then (Ok (f <$> selected), sql_set p f t)
  else (Throw CheckViolation, t).

(** [INSERT]: the key must be new and the row valid. *)
Definition sql_insert (id : string) (r : Row) : M (Table Row) DbError unit := λ t,
  match t !! id with
  | Some _ => (Throw UniqueViolation, t)
  | None => if checks r then (Ok tt, <[id := r]> t) else (Throw CheckViolation, t)
  end.

Definition table_valid (t : Table Row) : Prop := ∀ id r, t !! id = Some r → checks r = true.

Lemma rows_where p t r :
  r ∈ rows (sql_where p t) ↔ ∃ id, t !! id = Some r ∧ p r = true.
Proof.
  unfold rows, sql_where. rewrite list_elem_of_fmap. split.
  - intros ([id r'] & -> & [Hid Hp]%elem_of_map_to_list%map_lookup_filter_Some). eauto.
  - intros (id & Hid & Hp). exists (id, r). split; [done|].
    by apply elem_of_map_to_list, map_lookup_filter_Some.
Qed.

Lemma sql_set_lookup p f t id :
  sql_set p f t !! id = (λ r, if p r then f r else r) <$> t !! id.
Proof. apply lookup_fmap. Qed.

(** An update whose selected rows are neither frozen nor made invalid
    succeeds and keeps the table valid. *)
Lemma sql_update_ok p f t :
  (∀ id r, t !! id = Some r → p r = true → frozen r = false ∧ checks (f r) = true) →
  sql_update p f t = (Ok (f <$> rows (sql_where p t)), sql_set p f t).
Proof.
  intros Hok. unfold sql_update.
  destruct (existsb frozen _) eqn:He.
  { apply existsb_exists in He as (r & Hr%list_elem_of_In & Hf).
    apply rows_where in Hr as (id & Hid & Hp). destruct (Hok _ _ Hid Hp). congruence. }
  destruct (forallb _ _) eqn:Hc; [done|].
  apply not_true_iff_false in Hc. contradict Hc. apply forallb_forall.
  intros r Hr%list_elem_of_In. apply rows_where in Hr as (id & Hid & Hp).
  by destruct (Hok _ _ Hid Hp).
Qed.

Lemma sql_set_valid p f t :
  table_valid t →
  (∀ id r, t !! id = Some r → p r = true → checks (f r) = true) →
  table_valid (sql_set p f t).
Proof.
  intros Hv Hok id r. rewrite sql_set_lookup. intros (r' & Hr' & ->)%fmap_Some.
  destruct (p r') eqn:Hp; eauto.
Qed.

(** A selection of at most one key. *)
Lemma rows_where_unique p t id :
  (∀ id' r, t !! id' = Some r → p r = true → id' = id) →
  rows (sql_where p t) =
    match t !! id with Some r => if p r then [r] else [] | None => [] end.
Proof.
  intros Hu. unfold rows, sql_where.
  destruct (t !! id) as [r|] eqn:Hr; [destruct (p r) eqn:Hp|].
  - assert (filter (λ kv, p kv.2 = true) t = {[id := r]}) as ->.
    { apply map_eq. intros id'. apply option_eq. intros r'.
      rewrite map_lookup_filter_Some, lookup_singleton_Some. simpl.
      split; [intros [H1 H2] | by intros [<- <-]].
      assert (id' = id) as -> by eauto. split; [done|]. congruence. }
    by rewrite map_to_list_singleton.
  - assert (filter (λ kv, p kv.2 = true) t = ∅) as ->; [|by rewrite map_to_list_empty].
    apply map_empty_filter_2. intros id' r' Hr' Hp'.
    assert (id' = id) as -> by eauto. simpl in Hp'. congruence.
  - assert (filter (λ kv, p kv.2 = true) t = ∅) as ->; [|by rewrite map_to_list_empty].
    apply map_empty_filter_2. intros id' r' Hr' Hp'.
    assert (id' = id) as -> by eauto. congruence.
Qed.
End table.


(** ** Tables whose statements fit their constraints *)
Section keyed.
Context {Row : Type} (checks frozen : Row → bool) (row_id : Row → string) (good : Row → Prop).

(** Every row satisfies its constraints, is stored under its key and
    satisfies [good]. *)
Record table_ok (t : Table Row) : Prop := {
  tk_checks : table_valid checks t;
  tk_keys : ∀ id r, t !! id = Some r → row_id r = id;
  tk_good : ∀ id r, t !! id = Some r → good r;
}.

(** A WHERE clause and a SET list that fit the constraints. *)
Definition sound_update (p : Row → bool) (f : Row → Row) (t : Table Row) : Prop :=
  ∀ id r, t !! id = Some r → p r = true →
    frozen r = false ∧ checks (f r) = true ∧ row_id (f r) = row_id r ∧ good (f r).

Lemma table_ok_empty : table_ok ∅.
Proof. split; intros id r; rewrite lookup_empty; done. Qed.

Lemma table_ok_insert t id r :
  table_ok t → checks r = true → row_id r = id → good r → table_ok (<[id := r]> t).
Proof.
  intros [Hc Hk Hg] ???.
  split; intros id' r'; rewrite lookup_insert_Some; intros [[<- <-]|[_ Hr]]; eauto.
Qed.

Lemma update_sound p f t :
  table_ok t → sound_update p f t →
  sql_update checks frozen p f t = (Ok (f <$> rows (sql_where p t)), sql_set p f t) ∧
  table_ok (sql_set p f t).
Proof.
  intros [Hc Hk Ha] Hs. split.
  { apply sql_update_ok. intros id r Hr Hp. by destruct (Hs _ _ Hr Hp) as (?&?&_). }
  split.
  - apply sql_set_valid; [done|]. intros id r Hr Hp. by destruct (Hs _ _ Hr Hp) as (?&?&_).
  - intros id r. rewrite sql_set_lookup. intros (r' & Hr' & ->)%fmap_Some.
    destruct (p r') eqn:Hp; [|by apply Hk]. destruct (Hs _ _ Hr' Hp) as (_&_&->&_). by apply Hk.
  - intros id r. rewrite sql_set_lookup. intros (r' & Hr' & ->)%fmap_Some.
    destruct (p r') eqn:Hp; [|by eapply Ha]. by destruct (Hs _ _ Hr' Hp) as (_&_&_&?).
Qed.

(** Whether the row with this key is selected, and the table with only that
    row changed. *)
Definition selected (p : Row → bool) (id : string) (t : Table Row) : bool :=
  match t !! id with Some r => p r | None => false end.
Definition alter_selected (p : Row → bool) (id : string) (f : Row → Row) (t : Table Row)
    : Table Row := if selected p id t then alter f id t else t.

(** A statement that names its row by its key. *)
Lemma update_one p f id t :
  table_ok t → sound_update p f t →
  (∀ r, p r = true → row_id r = id) →
  sql_update checks frozen p f t =
    (Ok (if selected p id t then from_option (λ r, [f r]) [] (t !! id) else []),
     alter_selected p id f t) ∧
  table_ok (alter_selected p id f t).
Proof.
  intros Hv Hs Hid. destruct (update_sound p f t Hv Hs) as [-> Hv'].
  assert (Hu : ∀ id' r, t !! id' = Some r → p r = true → id' = id).
  { intros id' r Hr Hp. apply Hid in Hp. by rewrite (tk_keys _ Hv _ _ Hr) in Hp. }
  assert (Hset : sql_set p f t = alter_selected p id f t).
  { apply map_eq. intros id'. rewrite sql_set_lookup. unfold alter_selected, selected.
    destruct (decide (id' = id)) as [->|Hne].
    - destruct (t !! id) as [r|] eqn:Hr; simpl; [|by rewrite Hr].
      destruct (p r); [by rewrite lookup_alter_eq, Hr|by rewrite Hr].
    - assert ((if selected p id t then alter f id t else t) !! id' = t !! id') as Hn
        by (destruct (selected _ _ _); [by rewrite lookup_alter_ne|done]).
      unfold selected in Hn. rewrite Hn.
      destruct (t !! id') as [r'|] eqn:Hr'; [simpl|done].
      destruct (p r') eqn:Hp; [|done]. by apply Hu in Hr'. }
  rewrite Hset in *. split; [|done].
  rewrite (rows_where_unique _ _ id Hu). unfold selected.
  destruct (t !! id) as [r|]; [|done]. by destruct (p r).
Qed.

Lemma alter_selected_None p id id' f t :
  t !! id' = None → alter_selected p id f t !! id' = None.
Proof.
  intros Hr. unfold alter_selected. destruct (selected _ _ _); [|done].
  by rewrite lookup_alter_None.
Qed.

Lemma alter_selected_eq p id f t :
  alter_selected p id f t !! id = (λ r, if p r then f r else r) <$> t !! id.
Proof.
  unfold alter_selected, selected. destruct (t !! id) as [r|] eqn:Hr; [|done].
  simpl. destruct (p r); [by rewrite lookup_alter_eq, Hr|done].
Qed.

Lemma alter_selected_ne p id id' f t :
  id' ≠ id → alter_selected p id f t !! id' = t !! id'.
Proof.
  intros Hne. unfold alter_selected. destruct (selected _ _ _); [|done].
  by rewrite lookup_alter_ne.
Qed.

(** What such a statement leaves of any row. *)
Lemma alter_selected_row p id id' f t r (R : Row → Row → Prop) :
  t !! id' = Some r → (∀ x, R x x) → (∀ x, p x = true → R x (f x)) →
  ∃ r', alter_selected p id f t !! id' = Some r' ∧ R r r'.
Proof.
  intros Hr HR Hf. unfold alter_selected, selected.
  destruct (t !! id) as [x|] eqn:Hx; [|eauto].
  destruct (p x) eqn:Hp; [|eauto].
  destruct (decide (id' = id)) as [->|Hne].
  - rewrite lookup_alter_eq, Hr. simpl. assert (x = r) as -> by congruence. eauto.
  - rewrite lookup_alter_ne by done. eauto.
Qed.
End keyed.
