(* ===== verification/HealthStore.v ===== *)
(** * The health tables: [prisma/schema.prisma] and the migrations
    [add_health_evidence_persistence], [harden_health_evidence_decisions] and
    [add_incident_operation_foundation]

    Probe results, availability states, decisions with their signals,
    incidents, operations and the incident timeline: the rows, the unique
    indexes, the foreign keys, the CHECK constraints and the triggers, as the
    statements the two stores make.  The text CHECKs hold of what the stores'
    schemas pass and are left out; identifiers are drawn from a sequence, and
    the keys of the tables are the texts PostgreSQL prints of them. *)

From Stdlib Require Import Ascii.
From S2P Require Import Prelude.
From S2P Require Import Text.
From S2P Require Import Json.
From S2P Require Import OperationalPolicy.
From S2P Require Import HealthDecision.
From S2P Require Import Sql.
Open Scope Z_scope.

(** ** Identifiers

    [CAST(.. AS uuid)] takes the digits of an identifier in either case, and
    what is read back is in lower case: two texts name one row when they have
    the same [uuid_text]. *)

Definition ascii_lower (a : ascii) : ascii :=
  if ((65 <=? byte_of a) && (byte_of a <=? 90))%nat then ascii_of_nat (byte_of a + 32) else a.
Fixpoint uuid_text (s : string) : string :=
  match s with
  | EmptyString => EmptyString
  | String a s' => String (ascii_lower a) (uuid_text s')
  end.

Lemma ascii_lower_idemp a : ascii_lower (ascii_lower a) = ascii_lower a.
Proof. destruct a as [[] [] [] [] [] [] [] []]; reflexivity. Qed.
Lemma uuid_text_idemp s : uuid_text (uuid_text s) = uuid_text s.
Proof. induction s as [|a s IH]; simpl; [done|]. by rewrite ascii_lower_idemp, IH. Qed.

(** Distinct rows named by the texts of [ids], among [ids]. *)
Lemma canonical_ids (ids : list string) :
  NoDup (uuid_text <$> ids) → (∀ id, id ∈ ids → uuid_text id ∈ ids) → uuid_text <$> ids = ids.
Proof.
  intros Hnd Hin. assert (Hp : uuid_text <$> ids ≡ₚ ids).
  { apply submseteq_length_Permutation; [|by rewrite length_fmap]. apply NoDup_submseteq; [done|].
    intros x (id & -> & Hid)%list_elem_of_fmap. by apply Hin. }
  rewrite <- (list_fmap_id ids) at 2. apply list_fmap_ext. intros k id Hk%list_elem_of_lookup_2.
  rewrite <- Hp in Hk. apply list_elem_of_fmap in Hk as (id' & -> & _). apply uuid_text_idemp.
Qed.

(** ** Rows *)

Inductive ProbeSourceStatus := SOURCE_ACTIVE | SOURCE_DISABLED.
#[export] Instance ProbeSourceStatus_eq_dec : EqDecision ProbeSourceStatus.
Proof. solve_decision. Defined.
Record ProbeSource := { so_independenceKey : string; so_status : ProbeSourceStatus }.

Record ProbeResult := {
  rs_probeSourceId : string;
  rs_sourceResultId : string;
  rs_sourceIndependenceKey : string;
  rs_scope : Scope;
  rs_cycleStartedAt : Z;
  rs_routeVersion : Z;
  rs_outcome : ProbeOutcome;
  rs_failureClass : option RouteFailureClass;
  rs_controlHealthy : bool;
  rs_receivedAt : Z;
}.

(** [AvailabilityState] *)
Record StateRow := {
  st_scope : Scope;
  st_state : HealthDecisionState;
  st_version : Z;
}.

(** [AvailabilityDecision]: the columns of the state it leaves are
    [de_state], whose status is the column [decision]. *)
Record DecisionRow := {
  de_idempotencyKey : string;
  de_availabilityStateId : string;
  de_stateVersion : Z;
  de_healthPolicyVersionId : option string;
  de_signalIds : list string;
  de_inputProbeResultIds : list string;
  de_reason : HealthDecisionReason;
  de_state : HealthDecisionState;
  de_allowNewAssignments : bool;
  de_triggerReplacement : bool;
  de_triggerIncident : bool;
  de_cycleStartedAt : option Z;
  de_routeVersion : option Z;
  de_cycleDecision : option ProbeCycleDecision;
  de_failureClass : option RouteFailureClass;
  de_additionalProbeDueAt : option Z;
}.

(** [AvailabilityDecisionSignal], keyed by decision and probe result. *)
Record SignalRow := {
  sg_disposition : Disposition;
  sg_rejectionReason : option ProbeSignalRejectionReason;
}.

Inductive IncidentStatus := INCIDENT_OPEN | INCIDENT_RESOLVED.
#[export] Instance IncidentStatus_eq_dec : EqDecision IncidentStatus.
Proof. solve_decision. Defined.
Record Incident := {
  ic_availabilityDecisionId : string;
  ic_scope : Scope;
  ic_status : IncidentStatus;
  ic_openedAt : Z;
  ic_resolvedAt : option Z;
}.

Inductive NodeOperationType :=
| OT_RECHECK | OT_RETRY_DELIVERY | OT_RECONCILE | OT_APPLY_LAST_KNOWN_GOOD | OT_DRAIN
| OT_PROMOTE_STANDBY | OT_ROTATE_AGENT_CREDENTIAL | OT_RESTORE_AFTER_VERIFY | OT_MIGRATE | OT_RETIRE.
#[export] Instance NodeOperationType_eq_dec : EqDecision NodeOperationType.
Proof. solve_decision. Defined.
Inductive NodeOperationStatus := OP_PENDING | OP_RUNNING | OP_SUCCEEDED | OP_FAILED.
#[export] Instance NodeOperationStatus_eq_dec : EqDecision NodeOperationStatus.
Proof. solve_decision. Defined.
(** The initiator is the service principal.  The columns of a run (attempts,
    times, result) belong to the operator, which is not part of the sources. *)
Record NodeOperation := {
  op_incidentId : string;
  op_availabilityDecisionId : string;
  op_healthPolicyVersionId : string;
  op_idempotencyKey : string;
  op_type : NodeOperationType;
  op_status : NodeOperationStatus;
  op_scope : Scope;
  op_servicePrincipal : string;
  op_reason : string;
  op_maxAttempts : Z;
}.

Inductive TimelineKind := TL_OPENED | TL_OPERATION_CREATED | TL_RESOLVED.
#[export] Instance TimelineKind_eq_dec : EqDecision TimelineKind.
Proof. solve_decision. Defined.
Record IncidentTimelineEvent := {
  tl_incidentId : string;
  tl_kind : TimelineKind;
  tl_nodeOperationId : option string;
  tl_createdAt : Z;
}.

Record HealthDb := MkHealthDb {
  h_sources : Table ProbeSource;
  h_results : Table ProbeResult;
  h_states : Table StateRow;
  h_decisions : Table DecisionRow;
  h_signals : gmap (string * string) SignalRow;
  h_versions : list PolicyVersion;
  h_activations : list PolicyActivation;
  h_incidents : Table Incident;
  h_operations : Table NodeOperation;
  h_timeline : list IncidentTimelineEvent;
  (** [AuditEvent]: the action and the entity. *)
  h_audit : list (string * string);
  h_drawn : nat;
}.

Definition empty_health_db : HealthDb := MkHealthDb ∅ ∅ ∅ ∅ ∅ [] [] ∅ ∅ [] [] 0.

Definition set_sources f '(MkHealthDb a b c d e v w i o t u n) := MkHealthDb (f a) b c d e v w i o t u n.
Definition set_results f '(MkHealthDb a b c d e v w i o t u n) := MkHealthDb a (f b) c d e v w i o t u n.
Definition set_states f '(MkHealthDb a b c d e v w i o t u n) := MkHealthDb a b (f c) d e v w i o t u n.
Definition set_decisions f '(MkHealthDb a b c d e v w i o t u n) := MkHealthDb a b c (f d) e v w i o t u n.
Definition set_signals f '(MkHealthDb a b c d e v w i o t u n) := MkHealthDb a b c d (f e) v w i o t u n.
Definition set_versions f '(MkHealthDb a b c d e v w i o t u n) := MkHealthDb a b c d e (f v) w i o t u n.
Definition set_activations f '(MkHealthDb a b c d e v w i o t u n) := MkHealthDb a b c d e v (f w) i o t u n.
Definition set_incidents f '(MkHealthDb a b c d e v w i o t u n) := MkHealthDb a b c d e v w (f i) o t u n.
Definition set_operations f '(MkHealthDb a b c d e v w i o t u n) := MkHealthDb a b c d e v w i (f o) t u n.
Definition set_timeline f '(MkHealthDb a b c d e v w i o t u n) := MkHealthDb a b c d e v w i o (f t) u n.
Definition set_health_audit f '(MkHealthDb a b c d e v w i o t u n) := MkHealthDb a b c d e v w i o t (f u) n.
Definition set_health_drawn f '(MkHealthDb a b c d e v w i o t u n) := MkHealthDb a b c d e v w i o t u (f n).

Inductive HealthError :=
| HealthDbError (e : DbError)
| HealthZodError
| HealthThrown (message : string).

Notation HealthM := (M HealthDb HealthError).

(** ** CHECK constraints *)

Definition int4_counter (z : Z) : bool := (0 <=? z) && (z <=? 2147483647).

Definition probe_result_checks (r : ProbeResult) : bool :=
  (0 <=? rs_routeVersion r) && (rs_cycleStartedAt r <=? rs_receivedAt r) &&
  Bool.eqb (bool_decide (rs_outcome r = PO_FAILURE)) (negb (is_null (rs_failureClass r))).

(** The counters are INTEGER columns. *)
Definition state_checks (s : HealthDecisionState) : bool :=
  int4_counter (hs_consecutiveFailureCycles s) &&
  int4_counter (hs_consecutiveRecoverySuccesses s) &&
  int4_counter (hs_consecutiveUncertainCycles s) &&
  (negb (bool_decide (hs_status s = HEALTHY)) || negb (hs_excludedFromCandidates s)).

Definition decision_checks (d : DecisionRow) : bool :=
  (0 <? de_stateVersion d) && state_checks (de_state d) &&
  Bool.eqb (de_allowNewAssignments d)
    (bool_decide (hs_status (de_state d) = HEALTHY) && negb (hs_excludedFromCandidates (de_state d))) &&
  (negb (de_triggerReplacement d) || de_triggerIncident d) &&
  Bool.eqb (is_null (de_cycleDecision d)) (is_null (de_cycleStartedAt d)) &&
  Bool.eqb (is_null (de_cycleDecision d)) (is_null (de_routeVersion d)) &&
  match de_routeVersion d with Some v => 0 <=? v | None => true end &&
  Bool.eqb (bool_decide (de_cycleDecision d = Some CD_FAILED)) (negb (is_null (de_failureClass d))) &&
  Bool.eqb (bool_decide (de_cycleDecision d = Some CD_MIXED)) (negb (is_null (de_additionalProbeDueAt d))) &&
  (bool_decide (de_reason d = HR_POLICY_UNAVAILABLE) || bool_decide (de_reason d = CRITICAL_TRUST_FAILURE) ||
   negb (is_null (de_healthPolicyVersionId d))).

Definition signal_checks (s : SignalRow) : bool :=
  Bool.eqb (bool_decide (sg_disposition s = REJECTED)) (negb (is_null (sg_rejectionReason s))).

(** ** Triggers *)

Definition texts_distinct (l : list string) : bool := bool_decide (NoDup l).
Definition includes (l : list string) (x : string) : bool := bool_decide (x ∈ l).

(** [validate_availability_decision_version] *)
Definition decision_refused (db : HealthDb) (d : DecisionRow) : bool :=
  match h_states db !! de_availabilityStateId d with
  | None => true
  | Some s => negb (de_stateVersion d =? st_version s + 1)
  end ||
  negb (texts_distinct (de_inputProbeResultIds d)) ||
  negb (is_null (de_cycleDecision d)) &&
    negb (forallb (includes (de_inputProbeResultIds d)) (de_signalIds d)).

(** [validate_availability_decision_signal_scope] *)
Definition signal_refused (db : HealthDb) (decisionId resultId : string) (row : SignalRow) : bool :=
  let decision := h_decisions db !! decisionId in
  let state := decision ≫= λ d, h_states db !! de_availabilityStateId d in
  let result := h_results db !! resultId in
  negb (bool_decide (st_scope <$> state = rs_scope <$> result)) ||
  match decision with
  | None => false
  | Some d =>
      negb (includes (de_inputProbeResultIds d) resultId) ||
      bool_decide (sg_disposition row = ACCEPTED) &&
        (negb (bool_decide (de_cycleStartedAt d = rs_cycleStartedAt <$> result)) ||
         negb (bool_decide (de_routeVersion d = rs_routeVersion <$> result))) ||
      match state with
      | Some s => negb (st_version s =? de_stateVersion d - 1)
      | None => false
      end
  end.

#[export] Instance HealthDecisionState_eq_dec : EqDecision HealthDecisionState.
Proof. solve_decision. Defined.

(** The links of a decision. *)
Definition decision_links (db : HealthDb) (decisionId : string) : list string :=
  omap (λ kv : (string * string) * SignalRow, if decide (kv.1.1 = decisionId) then Some kv.1.2 else None)
    (map_to_list (h_signals db)).

(** [protect_availability_state_scope] *)
Definition state_update_refused (db : HealthDb) (id : string) (old new : StateRow) : bool :=
  negb (bool_decide (st_scope new = st_scope old)) ||
  negb (st_version new =? st_version old + 1) ||
  negb (existsb (λ kv : string * DecisionRow, let '(decisionId, d) := kv in
    bool_decide (de_availabilityStateId d = id) && (de_stateVersion d =? st_version new) &&
    bool_decide (de_state d = st_state new) &&
    (length (de_inputProbeResultIds d) =? length (decision_links db decisionId))%nat &&
    forallb (includes (decision_links db decisionId)) (de_inputProbeResultIds d))
    (map_to_list (h_decisions db))).

(** The scope of the state a decision belongs to. *)
Definition decision_scope (db : HealthDb) (d : DecisionRow) : option Scope :=
  st_scope <$> h_states db !! de_availabilityStateId d.

(** [validate_incident_decision_binding] *)
Definition incident_refused (db : HealthDb) (i : Incident) : bool :=
  match h_decisions db !! ic_availabilityDecisionId i with
  | None => true
  | Some d => negb (bool_decide (decision_scope db d = Some (ic_scope i))) || negb (de_triggerIncident d)
  end.

(** [validate_node_operation_binding] *)
Definition operation_refused (db : HealthDb) (o : NodeOperation) : bool :=
  match h_incidents db !! op_incidentId o, h_decisions db !! op_availabilityDecisionId o with
  | Some i, Some d =>
      negb (bool_decide (ic_status i = INCIDENT_OPEN)) ||
      negb (bool_decide (ic_availabilityDecisionId i = op_availabilityDecisionId o)) ||
      negb (de_triggerReplacement d) ||
      negb (bool_decide (de_healthPolicyVersionId d = Some (op_healthPolicyVersionId o))) ||
      negb (bool_decide (decision_scope db d = Some (op_scope o)))
  | _, _ => true
  end.

Definition is_terminal (status : NodeOperationStatus) : bool :=
  bool_decide (status = OP_SUCCEEDED) || bool_decide (status = OP_FAILED).

(** [NodeOperation] rows of an incident. *)
Definition operations_of (db : HealthDb) (incidentId : string) : list (string * NodeOperation) :=
  filter (λ kv : string * NodeOperation, op_incidentId kv.2 = incidentId) (map_to_list (h_operations db)).

(** [validate_incident_timeline_event] *)
Definition timeline_refused (db : HealthDb) (e : IncidentTimelineEvent) : bool :=
  match h_incidents db !! tl_incidentId e with
  | None => true
  | Some i =>
      match tl_nodeOperationId e with
      | Some o => negb (bool_decide (op_incidentId <$> h_operations db !! o = Some (tl_incidentId e)))
      | None => false
      end ||
      negb (bool_decide (ic_status i = INCIDENT_OPEN)) ||
      bool_decide (tl_kind e = TL_RESOLVED) &&
        negb (forallb (λ kv : string * NodeOperation, is_terminal (op_status kv.2))
          (operations_of db (tl_incidentId e)))
  end.

(** [protect_node_operation_lifecycle] *)
Definition operation_transition (from to : NodeOperationStatus) : bool :=
  match from with
  | OP_PENDING => negb (bool_decide (to = OP_SUCCEEDED))
  | OP_RUNNING => negb (bool_decide (to = OP_PENDING))
  | OP_SUCCEEDED | OP_FAILED => false
  end.

(** ** Statements *)

Section statements.
(** The identifiers [randomUUID()] draws. *)
Context (uuid : nat → string).

Definition draw : HealthM string := λ db, (Ok (uuid (h_drawn db)), set_health_drawn S db).

Definition hthrow {A} (e : DbError) : HealthM A := throw (HealthDbError e).
Definition hrefuse (b : bool) (e : DbError) : HealthM unit := throw_if b (HealthDbError e).

Definition exists_in {A} (p : string → A → bool) (t : Table A) : bool :=
  existsb (λ kv : string * A, p kv.1 kv.2) (map_to_list t).

Definition probe_result_insert (id : string) (r : ProbeResult) : HealthM unit :=
  db ← get;
  hrefuse (negb (is_null (h_results db !! id))) UniqueViolation;;
  hrefuse (exists_in (λ _ x, bool_decide (rs_probeSourceId x = rs_probeSourceId r) &&
             bool_decide (rs_sourceResultId x = rs_sourceResultId r)) (h_results db)) UniqueViolation;;
  hrefuse (is_null (h_sources db !! rs_probeSourceId r)) ForeignKeyViolation;;
  hrefuse (negb (probe_result_checks r)) CheckViolation;;
  modify (set_results <[id := r]>).

(** [INSERT ... ON CONFLICT ("scopeKind", "scopeKey") DO NOTHING] of a row
    with the column defaults. *)
Definition state_ensure (id : string) (scope : Scope) : HealthM unit :=
  db ← get;
  if exists_in (λ _ s, bool_decide (st_scope s = scope)) (h_states db) then mret tt else
  hrefuse (negb (is_null (h_states db !! id))) UniqueViolation;;
  modify (set_states <[id := {| st_scope := scope; st_state := initial_health_state; st_version := 0 |}]>).

Definition decision_insert (id : string) (d : DecisionRow) : HealthM unit :=
  db ← get;
  hrefuse (decision_refused db d) TriggerRaised;;
  hrefuse (negb (decision_checks d)) CheckViolation;;
  hrefuse (negb (is_null (h_decisions db !! id))) UniqueViolation;;
  hrefuse (exists_in (λ _ x, bool_decide (de_idempotencyKey x = de_idempotencyKey d) ||
             bool_decide (de_availabilityStateId x = de_availabilityStateId d) &&
             (de_stateVersion x =? de_stateVersion d)) (h_decisions db)) UniqueViolation;;
  hrefuse (match de_healthPolicyVersionId d with
           | Some p => negb (existsb (λ v, bool_decide (pv_id v = p)) (h_versions db))
           | None => false
           end) ForeignKeyViolation;;
  modify (set_decisions <[id := d]>).

Definition signal_insert (decisionId resultId : string) (row : SignalRow) : HealthM unit :=
  db ← get;
  hrefuse (signal_refused db decisionId resultId row) TriggerRaised;;
  hrefuse (negb (signal_checks row)) CheckViolation;;
  hrefuse (negb (is_null (h_signals db !! (decisionId, resultId)))) UniqueViolation;;
  hrefuse (is_null (h_decisions db !! decisionId) || is_null (h_results db !! resultId))
    ForeignKeyViolation;;
  modify (set_signals <[(decisionId, resultId) := row]>).

(** [UPDATE "AvailabilityState" ... WHERE id = .. AND version = ..]: the
    number of rows. *)
Definition state_update (id : string) (version : Z) (new : StateRow) : HealthM Z :=
  db ← get;
  match h_states db !! id with
  | Some old =>
      if st_version old =? version then
        hrefuse (state_update_refused db id old new) TriggerRaised;;
        hrefuse (negb (state_checks (st_state new) && (0 <=? st_version new))) CheckViolation;;
        modify (set_states <[id := new]>);; mret 1
      else mret 0
  | None => mret 0
  end.

(** [incident.create] *)
Definition incident_create (id decisionId : string) (scope : Scope) (now : Z) : HealthM unit :=
  let i := {| ic_availabilityDecisionId := decisionId; ic_scope := scope;
              ic_status := INCIDENT_OPEN; ic_openedAt := now; ic_resolvedAt := None |} in
  db ← get;
  hrefuse (incident_refused db i) TriggerRaised;;
  hrefuse (negb (is_null (h_incidents db !! id))) UniqueViolation;;
  hrefuse (exists_in (λ _ x, bool_decide (ic_availabilityDecisionId x = decisionId)) (h_incidents db))
    UniqueViolation;;
  modify (set_incidents <[id := i]>).

Definition operation_checks (o : NodeOperation) : bool :=
  (1 <=? op_maxAttempts o) && (op_maxAttempts o <=? 100).

(** [nodeOperation.create] *)
Definition operation_create (id : string) (o : NodeOperation) : HealthM unit :=
  db ← get;
  hrefuse (operation_refused db o) TriggerRaised;;
  hrefuse (negb (operation_checks o)) CheckViolation;;
  hrefuse (negb (is_null (h_operations db !! id))) UniqueViolation;;
  hrefuse (exists_in (λ _ x, bool_decide (op_idempotencyKey x = op_idempotencyKey o) ||
             bool_decide (op_availabilityDecisionId x = op_availabilityDecisionId o) &&
             bool_decide (op_type x = op_type o)) (h_operations db)) UniqueViolation;;
  modify (set_operations <[id := o]>).

(** [resolve_incident_from_timeline] *)
Definition resolve_incident (now : Z) (i : Incident) : Incident :=
  {| ic_availabilityDecisionId := ic_availabilityDecisionId i; ic_scope := ic_scope i;
     ic_status := INCIDENT_RESOLVED; ic_openedAt := ic_openedAt i; ic_resolvedAt := Some now |}.

(** Two events of one incident the partial unique indexes keep apart. *)
Definition timeline_clash (x e : IncidentTimelineEvent) : bool :=
  bool_decide (tl_kind x = tl_kind e) && bool_decide (tl_incidentId x = tl_incidentId e) &&
    negb (bool_decide (tl_kind e = TL_OPERATION_CREATED)) ||
  negb (is_null (tl_nodeOperationId e)) && bool_decide (tl_nodeOperationId x = tl_nodeOperationId e).

(** [incidentTimelineEvent.create], with its AFTER INSERT trigger. *)
Definition timeline_create (e : IncidentTimelineEvent) : HealthM unit :=
  db ← get;
  hrefuse (timeline_refused db e) TriggerRaised;;
  hrefuse (Bool.eqb (bool_decide (tl_kind e = TL_OPERATION_CREATED)) (is_null (tl_nodeOperationId e)))
    CheckViolation;;
  hrefuse (existsb (λ x, timeline_clash x e) (h_timeline db)) UniqueViolation;;
  modify (set_timeline (λ l, l ++ [e]));;
  when (bool_decide (tl_kind e = TL_RESOLVED)) (
    match h_incidents db !! tl_incidentId e with
    | Some i =>
        hrefuse (tl_createdAt e <? ic_openedAt i) CheckViolation;;
        modify (set_incidents <[tl_incidentId e := resolve_incident (tl_createdAt e) i]>)
    | None => hthrow TriggerRaised
    end).

Definition health_audit (action entityId : string) : HealthM unit :=
  modify (set_health_audit (λ l, l ++ [(action, entityId)])).
End statements.
