(* ===== verification/OutboxStore.v ===== *)
(** * The outbox: [packages/orchestration-store/src/outbox-store.ts]

    The [OutboxEvent] table, its CHECK constraints and immutability trigger
    (prisma/migrations 20260810163500, 165000, 173000, 180000, 190000, 203000),
    the four statements of [PrismaOutboxStore], and runs of them by any number
    of workers in any order. *)

From S2P Require Import Prelude.
From S2P Require Import Json.
From S2P Require Import Sql.
Open Scope Z_scope.

Inductive OutboxEventStatus := PENDING | PROCESSING | PUBLISHED | FAILED.
#[export] Instance OutboxEventStatus_eq_dec : EqDecision OutboxEventStatus.
Proof. solve_decision. Defined.

Record OutboxEvent := {
  oe_id : string;
  oe_topic : string;
  oe_payload : json;
  oe_status : OutboxEventStatus;
  oe_attempts : Z;
  oe_nextAttemptAt : option Z;
  oe_leaseOwner : option string;
  oe_leaseToken : option string;
  oe_leaseExpiresAt : option Z;
  oe_publishedAt : option Z;
  oe_lastErrorCode : option string;
  oe_createdAt : Z;
  oe_updatedAt : Z;
}.

Record ClaimedOutboxEvent := {
  ce_id : string;
  ce_topic : string;
  ce_payload : json;
  ce_leaseToken : string;
}.

(** The lease columns are set exactly while the row is PROCESSING. *)
Definition lease_check (processing : bool) (owner token : option string)
    (expires : option Z) : bool :=
  if processing then negb (is_null owner) && negb (is_null token) && negb (is_null expires)
  else is_null owner && is_null token && is_null expires.

Definition outbox_checks (r : OutboxEvent) : bool :=
  (0 <=? oe_attempts r) &&
  lease_check (bool_decide (oe_status r = PROCESSING))
    (oe_leaseOwner r) (oe_leaseToken r) (oe_leaseExpiresAt r) &&
  (negb (bool_decide (oe_status r = PUBLISHED)) || negb (is_null (oe_publishedAt r))) &&
  (bool_decide (oe_status r = PENDING) || is_null (oe_nextAttemptAt r)).

Definition outbox_terminal (r : OutboxEvent) : bool :=
  bool_decide (oe_status r = PUBLISHED) || bool_decide (oe_status r = FAILED).

Section store.
(** The constructor's arguments. *)
Context (leaseDurationMs retryDelayMs maxAttempts : Z) (eventIds : option (list string)).

Notation OutboxM := (M (Table OutboxEvent) DbError).

Definition outbox_update (p : OutboxEvent → bool) (f : OutboxEvent → OutboxEvent)
    : OutboxM (list OutboxEvent) := sql_update outbox_checks outbox_terminal p f.

Definition eventScope (r : OutboxEvent) : bool :=
  match eventIds with
  | None => true
  | Some ids => bool_decide (oe_id r ∈ ids)
  end.

Definition exhausted (r : OutboxEvent) : bool := maxAttempts <=? oe_attempts r.

(** The SET list of [reclaimExpiredLeases]. *)
Definition reclaim_row (now : Z) (r : OutboxEvent) : OutboxEvent :=
  {| oe_id := oe_id r; oe_topic := oe_topic r; oe_payload := oe_payload r;
     oe_status := if exhausted r then FAILED else PENDING;
     oe_attempts := oe_attempts r;
     oe_nextAttemptAt := if exhausted r then None else Some now;
     oe_leaseOwner := None; oe_leaseToken := None; oe_leaseExpiresAt := None;
     oe_publishedAt := oe_publishedAt r;
     oe_lastErrorCode :=
       if exhausted r then Some (default "OUTBOX_LEASE_EXPIRED"%string (oe_lastErrorCode r))
       else oe_lastErrorCode r;
     oe_createdAt := oe_createdAt r; oe_updatedAt := now |}.

Definition reclaimable (now : Z) (r : OutboxEvent) : bool :=
  ((bool_decide (oe_status r = PROCESSING) && sql_le (oe_leaseExpiresAt r) now) ||
   (bool_decide (oe_status r = PENDING) && exhausted r)) && eventScope r.

Definition reclaimExpiredLeases (now : Z) : OutboxM Z :=
  updated ← outbox_update (reclaimable now) (reclaim_row now);
  mret (Z.of_nat (length updated)).

Definition claimable (now : Z) (r : OutboxEvent) : bool :=
  bool_decide (oe_status r = PENDING) && (oe_attempts r <? maxAttempts) &&
  null_or_le (oe_nextAttemptAt r) now && eventScope r.

(** [ORDER BY "createdAt", id] *)
Definition created_order (a b : OutboxEvent) : Prop :=
  oe_createdAt a < oe_createdAt b ∨
  (oe_createdAt a = oe_createdAt b ∧ String.le (oe_id a) (oe_id b)).
#[export] Instance created_order_dec a b : Decision (created_order a b).
Proof. unfold created_order. apply _. Defined.
#[export] Instance created_order_total : Total created_order.
Proof.
  intros a b. unfold created_order.
  destruct (total String.le (oe_id a) (oe_id b)); destruct (Z.lt_trichotomy
    (oe_createdAt a) (oe_createdAt b)) as [?|[?|?]]; auto with lia.
Qed.
#[export] Instance created_order_trans : Transitive created_order.
Proof.
  intros a b c. unfold created_order. intros [?|[? ?]] [?|[? ?]]; try lia.
  right. split; [lia|]. by transitivity (oe_id b).
Qed.

Definition claim_row (leaseOwner leaseToken : string) (now : Z) (r : OutboxEvent) : OutboxEvent :=
  {| oe_id := oe_id r; oe_topic := oe_topic r; oe_payload := oe_payload r;
     oe_status := PROCESSING;
     oe_attempts := oe_attempts r + 1;
     oe_nextAttemptAt := None;
     oe_leaseOwner := Some leaseOwner; oe_leaseToken := Some leaseToken;
     oe_leaseExpiresAt := Some (now + leaseDurationMs);
     oe_publishedAt := oe_publishedAt r; oe_lastErrorCode := oe_lastErrorCode r;
     oe_createdAt := oe_createdAt r; oe_updatedAt := now |}.

(** [locked]: the rows other transactions hold, which SKIP LOCKED passes over. *)
Definition candidate (now : Z) (locked : string → bool) (t : Table OutboxEvent)
    : option OutboxEvent :=
  head (merge_sort created_order
    (rows (sql_where (λ r, claimable now r && negb (locked (oe_id r))) t))).

(** [claimNext]; [leaseToken] is the [randomUUID()] it draws. *)
Definition claimNext (leaseOwner leaseToken : string) (now : Z) (locked : string → bool)
    : OutboxM (option ClaimedOutboxEvent) :=
  cand ← gets (candidate now locked);
  match cand with
  | None => mret None
  | Some c =>
      updated ← outbox_update (λ r, bool_decide (oe_id r = oe_id c))
        (claim_row leaseOwner leaseToken now);
      mret ((λ r, {| ce_id := oe_id r; ce_topic := oe_topic r; ce_payload := oe_payload r;
                     ce_leaseToken := default ""%string (oe_leaseToken r) |}) <$> head updated)
  end.

(** The row is leased by this owner under this token and the lease runs. *)
Definition holds_lease (id leaseOwner leaseToken : string) (now : Z) (r : OutboxEvent) : bool :=
  bool_decide (oe_id r = id) && bool_decide (oe_status r = PROCESSING) &&
  sql_eq (oe_leaseOwner r) leaseOwner && sql_eq (oe_leaseToken r) leaseToken &&
  sql_gt (oe_leaseExpiresAt r) now.

Definition published_row (now : Z) (r : OutboxEvent) : OutboxEvent :=
  {| oe_id := oe_id r; oe_topic := oe_topic r; oe_payload := oe_payload r;
     oe_status := PUBLISHED; oe_attempts := oe_attempts r;
     oe_nextAttemptAt := oe_nextAttemptAt r;
     oe_leaseOwner := None; oe_leaseToken := None; oe_leaseExpiresAt := None;
     oe_publishedAt := Some now; oe_lastErrorCode := oe_lastErrorCode r;
     oe_createdAt := oe_createdAt r; oe_updatedAt := now |}.

Definition markPublished (id leaseOwner leaseToken : string) (now : Z) : OutboxM bool :=
  updated ← outbox_update (holds_lease id leaseOwner leaseToken now) (published_row now);
  mret (length updated =? 1)%nat.

Definition retry_row (errorCode : string) (now : Z) (r : OutboxEvent) : OutboxEvent :=
  {| oe_id := oe_id r; oe_topic := oe_topic r; oe_payload := oe_payload r;
     oe_status := if exhausted r then FAILED else PENDING;
     oe_attempts := oe_attempts r;
     oe_nextAttemptAt := if exhausted r then None else Some (now + retryDelayMs);
     oe_leaseOwner := None; oe_leaseToken := None; oe_leaseExpiresAt := None;
     oe_publishedAt := oe_publishedAt r; oe_lastErrorCode := Some errorCode;
     oe_createdAt := oe_createdAt r; oe_updatedAt := now |}.

Definition retry (id leaseOwner leaseToken errorCode : string) (now : Z) : OutboxM bool :=
  updated ← outbox_update (holds_lease id leaseOwner leaseToken now) (retry_row errorCode now);
  mret (length updated =? 1)%nat.

(** ** What the statements maintain *)

(** The rows satisfy the constraints, are stored under their ids, and have
    not been claimed more often than allowed. *)
Definition outbox_valid : Table OutboxEvent → Prop :=
  table_ok outbox_checks oe_id (λ r, oe_attempts r ≤ Z.max 0 maxAttempts).

Lemma outbox_checks_spec r :
  outbox_checks r = true ↔
  0 ≤ oe_attempts r ∧
  (if decide (oe_status r = PROCESSING)
   then is_Some (oe_leaseOwner r) ∧ is_Some (oe_leaseToken r) ∧ is_Some (oe_leaseExpiresAt r)
   else oe_leaseOwner r = None ∧ oe_leaseToken r = None ∧ oe_leaseExpiresAt r = None) ∧
  (oe_status r = PUBLISHED → is_Some (oe_publishedAt r)) ∧
  (oe_status r ≠ PENDING → oe_nextAttemptAt r = None).
Proof.
  unfold outbox_checks, lease_check. destruct r as [? ? ? st ? [] [] [] [] [] ? ? ?]; simpl;
    destruct st; simpl; rewrite ?andb_true_iff, ?Z.leb_le;
    intuition (try done; try (by eexists); try (by destruct_and?; destruct H as [? ?])).
Qed.

#[local] Notation outbox_sound p f t :=
  (sound_update outbox_checks outbox_terminal oe_id (λ r, oe_attempts r ≤ Z.max 0 maxAttempts) p f t).

Lemma outbox_update_sound p f t :
  outbox_valid t → outbox_sound p f t →
  outbox_update p f t = (Ok (f <$> rows (sql_where p t)), sql_set p f t) ∧
  outbox_valid (sql_set p f t).
Proof. apply update_sound. Qed.

Lemma outbox_terminal_false r :
  outbox_terminal r = false ↔ oe_status r = PENDING ∨ oe_status r = PROCESSING.
Proof. unfold outbox_terminal. destruct (oe_status r); simpl; naive_solver. Qed.

Lemma released_checks r (st : OutboxEventStatus) next :
  0 ≤ oe_attempts r → oe_status r = st → st ≠ PROCESSING → st ≠ PUBLISHED →
  oe_leaseOwner r = None → oe_leaseToken r = None → oe_leaseExpiresAt r = None →
  oe_nextAttemptAt r = next → (st = PENDING ∨ next = None) → outbox_checks r = true.
Proof.
  intros ? <- ? ? ? ? ? <- Hn. apply outbox_checks_spec. rewrite decide_False by done.
  split_and!; try done. by destruct Hn.
Qed.

Lemma reclaim_sound now t : outbox_valid t → outbox_sound (reclaimable now) (reclaim_row now) t.
Proof.
  intros [Hc Hk Ha] id r Hr [Hp _]%andb_prop.
  pose proof (proj1 (outbox_checks_spec r) (Hc _ _ Hr)) as Hck. destruct Hck as (H0 & _).
  split_and!.
  - apply outbox_terminal_false. apply orb_prop in Hp as [[Hp _]%andb_prop|[Hp _]%andb_prop];
      apply bool_decide_eq_true in Hp; auto.
  - destruct (exhausted r) eqn:Hx; eapply released_checks; simpl; rewrite ?Hx; try done; auto.
  - done.
  - simpl. by eapply Ha.
Qed.

Lemma claim_sound c owner token now t :
  outbox_valid t → c ∈ rows (sql_where (λ r, claimable now r) t) →
  outbox_sound (λ r, bool_decide (oe_id r = oe_id c)) (claim_row owner token now) t.
Proof.
  intros [Hc Hk Ha] (idc & Hrc & Hcl)%rows_where id r Hr Hid%bool_decide_eq_true.
  assert (r = c) as -> by (apply Hk in Hr as Hk1; apply Hk in Hrc as Hk2; congruence).
  unfold claimable in Hcl. rewrite !andb_true_iff, bool_decide_eq_true, Z.ltb_lt in Hcl.
  destruct Hcl as [[[Hst Hlt] _] _].
  apply Hc, outbox_checks_spec in Hr as (H0 & _ & Hp & _).
  split_and!; [apply outbox_terminal_false; auto| |done|simpl; lia].
  apply outbox_checks_spec. simpl. split_and!; try done; try lia; by eexists.
Qed.

Lemma holds_lease_spec id owner token now r :
  holds_lease id owner token now r = true ↔
  oe_id r = id ∧ oe_status r = PROCESSING ∧ oe_leaseOwner r = Some owner ∧
  oe_leaseToken r = Some token ∧ ∃ e, oe_leaseExpiresAt r = Some e ∧ now < e.
Proof.
  unfold holds_lease. rewrite !andb_true_iff, !bool_decide_eq_true.
  unfold sql_eq, sql_gt.
  destruct (oe_leaseOwner r), (oe_leaseToken r), (oe_leaseExpiresAt r);
    rewrite ?bool_decide_eq_true, ?Z.ltb_lt; naive_solver.
Qed.

Lemma published_sound id owner token now t :
  outbox_valid t → outbox_sound (holds_lease id owner token now) (published_row now) t.
Proof.
  intros [Hc Hk Ha] id' r Hr (Hid&Hst&_)%holds_lease_spec.
  pose proof (proj1 (outbox_checks_spec r) (Hc _ _ Hr)) as Hck. destruct Hck as (H0 & _ & _ & Hn).
  split_and!; [apply outbox_terminal_false; auto| |done|simpl; by eapply Ha].
  apply outbox_checks_spec. simpl. split_and!; try done. intros _. apply Hn. by rewrite Hst.
Qed.

Lemma retry_sound id owner token code now t :
  outbox_valid t → outbox_sound (holds_lease id owner token now) (retry_row code now) t.
Proof.
  intros [Hc Hk Ha] id' r Hr (Hid&Hst&_)%holds_lease_spec.
  pose proof (proj1 (outbox_checks_spec r) (Hc _ _ Hr)) as Hck. destruct Hck as (H0 & _).
  split_and!; [apply outbox_terminal_false; auto| |done|simpl; by eapply Ha].
  destruct (exhausted r) eqn:Hx; eapply released_checks; simpl; rewrite ?Hx; try done; auto.
Qed.

(** The four statements, evaluated on a valid table. *)
Lemma reclaim_eval now t :
  outbox_valid t →
  reclaimExpiredLeases now t =
    (Ok (Z.of_nat (length (rows (sql_where (reclaimable now) t)))),
     sql_set (reclaimable now) (reclaim_row now) t) ∧
  outbox_valid (sql_set (reclaimable now) (reclaim_row now) t).
Proof.
  intros Hv. destruct (outbox_update_sound _ _ t Hv (reclaim_sound now t Hv)) as [He Hv'].
  split; [|done]. unfold reclaimExpiredLeases, mbind, M_bind. rewrite He.
  by rewrite length_fmap.
Qed.

Lemma candidate_claimable now locked t c :
  candidate now locked t = Some c →
  c ∈ rows (sql_where (λ r, claimable now r && negb (locked (oe_id r))) t).
Proof.
  unfold candidate. intros Hh. rewrite <- (elem_of_merge_sort created_order).
  destruct (merge_sort _ _); simplify_eq/=. left.
Qed.

Lemma claim_eval owner token now locked t :
  outbox_valid t →
  match candidate now locked t with
  | None => claimNext owner token now locked t = (Ok None, t)
  | Some c =>
      t !! oe_id c = Some c ∧ claimable now c = true ∧
      claimNext owner token now locked t =
        (Ok (Some {| ce_id := oe_id c; ce_topic := oe_topic c; ce_payload := oe_payload c;
                     ce_leaseToken := token |}), <[oe_id c := claim_row owner token now c]> t) ∧
      outbox_valid (<[oe_id c := claim_row owner token now c]> t)
  end.
Proof.
  intros Hv. unfold claimNext, gets, mbind, M_bind.
  destruct (candidate now locked t) as [c|] eqn:Hcand; [|done].
  apply candidate_claimable, rows_where in Hcand as (id & Hid & [Hcl _]%andb_prop).
  assert (oe_id c = id) as Hidc by (by eapply tk_keys). subst id.
  assert (c ∈ rows (sql_where (λ r, claimable now r) t)) as Hin by (apply rows_where; eauto).
  destruct (outbox_update_sound _ _ t Hv (claim_sound c owner token now t Hv Hin)) as [He Hv'].
  assert (Hset : sql_set (λ r, bool_decide (oe_id r = oe_id c)) (claim_row owner token now) t =
                 <[oe_id c := claim_row owner token now c]> t).
  { apply map_eq. intros id. rewrite sql_set_lookup.
    destruct (decide (id = oe_id c)) as [->|Hne].
    - rewrite lookup_insert_eq, Hid. simpl. by rewrite bool_decide_eq_true_2.
    - rewrite lookup_insert_ne by done. destruct (t !! id) as [r|] eqn:Hr; [simpl|done].
      rewrite bool_decide_eq_false_2; [done|]. pose proof (tk_keys _ _ _ _ Hv _ _ Hr); congruence. }
  rewrite He, Hset. rewrite Hset in Hv'. split_and!; [done|done| |done].
  rewrite (rows_where_unique _ _ (oe_id c)), Hid, bool_decide_eq_true_2; [done|done|].
  intros id' r Hr Hb%bool_decide_eq_true. pose proof (tk_keys _ _ _ _ Hv _ _ Hr); congruence.
Qed.

(** The two statements guarded by a lease: whether the lease is held decides
    the result, and only the leased row changes. *)
Definition held (id owner token : string) (now : Z) : Table OutboxEvent → bool :=
  selected (holds_lease id owner token now) id.
Definition if_held (id owner token : string) (now : Z) (f : OutboxEvent → OutboxEvent)
    : Table OutboxEvent → Table OutboxEvent :=
  alter_selected (holds_lease id owner token now) id f.

Lemma fenced_eval id owner token now (f : OutboxEvent → OutboxEvent) t :
  outbox_valid t → outbox_sound (holds_lease id owner token now) f t →
  (updated ← outbox_update (holds_lease id owner token now) f;
   mret (length updated =? 1)%nat) t =
    (Ok (held id owner token now t), if_held id owner token now f t) ∧
  outbox_valid (if_held id owner token now f t).
Proof.
  intros Hv Hs.
  destruct (update_one _ _ _ _ _ f id t Hv Hs) as [He Hv'].
  { by intros r (Hid&_)%holds_lease_spec. }
  split; [|done]. unfold outbox_update. rewrite (bind_ok _ _ _ _ _ He). unfold held, selected.
  destruct (t !! id) as [r|]; [|done]. by destruct (holds_lease _ _ _ _ r).
Qed.

(** ** Runs: any workers, any order, any clock readings *)

(** A new event: the columns' defaults. *)
Definition new_event (id topic : string) (payload : json) (now : Z) : OutboxEvent :=
  {| oe_id := id; oe_topic := topic; oe_payload := payload; oe_status := PENDING;
     oe_attempts := 0; oe_nextAttemptAt := None; oe_leaseOwner := None; oe_leaseToken := None;
     oe_leaseExpiresAt := None; oe_publishedAt := None; oe_lastErrorCode := None;
     oe_createdAt := now; oe_updatedAt := now |}.

Inductive outbox_action :=
| AInsert (id topic : string) (payload : json) (now : Z)
| AReclaim (now : Z)
| AClaim (leaseOwner leaseToken : string) (now : Z) (locked : string → bool)
| APublished (id leaseOwner leaseToken : string) (now : Z)
| ARetry (id leaseOwner leaseToken errorCode : string) (now : Z).

Inductive outbox_result :=
| RInserted
| RReclaimed (count : Z)
| RClaimed (event : option ClaimedOutboxEvent)
| RPublished (ok : bool)
| RRetried (ok : bool).

Definition perform (a : outbox_action) : OutboxM outbox_result :=
  match a with
  | AInsert id topic payload now =>
      sql_insert outbox_checks id (new_event id topic payload now);; mret RInserted
  | AReclaim now => n ← reclaimExpiredLeases now; mret (RReclaimed n)
  | AClaim owner token now locked => e ← claimNext owner token now locked; mret (RClaimed e)
  | APublished id owner token now => b ← markPublished id owner token now; mret (RPublished b)
  | ARetry id owner token code now => b ← retry id owner token code now; mret (RRetried b)
  end.

Fixpoint outbox_run (t : Table OutboxEvent) (l : list outbox_action)
    : Table OutboxEvent :=
  match l with
  | [] => t
  | a :: l' => outbox_run (snd (perform a t)) l'
  end.

Lemma outbox_run_app t l1 l2 : outbox_run t (l1 ++ l2) = outbox_run (outbox_run t l1) l2.
Proof. revert t. induction l1; simpl; auto. Qed.

(** The rows an action can leave in place of a row. *)
Inductive row_step : outbox_action → OutboxEvent → OutboxEvent → Prop :=
| RowSame a r : row_step a r r
| RowReclaimed now r : reclaimable now r = true →
    row_step (AReclaim now) r (reclaim_row now r)
| RowClaimed owner token now locked r : claimable now r = true →
    row_step (AClaim owner token now locked) r (claim_row owner token now r)
| RowPublished id owner token now r : holds_lease id owner token now r = true →
    row_step (APublished id owner token now) r (published_row now r)
| RowRetried id owner token code now r : holds_lease id owner token now r = true →
    row_step (ARetry id owner token code now) r (retry_row code now r).

Definition row_steps : relation OutboxEvent := rtc (λ r r', ∃ a, row_step a r r').

Lemma perform_insert_eval id topic payload now t :
  outbox_valid t →
  match t !! id with
  | Some _ => perform (AInsert id topic payload now) t = (Throw UniqueViolation, t)
  | None =>
      perform (AInsert id topic payload now) t =
        (Ok RInserted, <[id := new_event id topic payload now]> t) ∧
      outbox_valid (<[id := new_event id topic payload now]> t)
  end.
Proof.
  intros Hv. simpl. unfold sql_insert, mbind, M_bind.
  destruct (t !! id) as [r|] eqn:Hid; [done|]. simpl. split; [done|].
  apply table_ok_insert; [done..|simpl; lia].
Qed.

Lemma if_held_cases id owner token now f t :
  if_held id owner token now f t = if held id owner token now t then alter f id t else t.
Proof. done. Qed.

Lemma published_eval id owner token now t :
  outbox_valid t →
  markPublished id owner token now t =
    (Ok (held id owner token now t), if_held id owner token now (published_row now) t) ∧
  outbox_valid (if_held id owner token now (published_row now) t).
Proof. intros Hv. exact (fenced_eval _ _ _ _ _ t Hv (published_sound _ _ _ _ t Hv)). Qed.

Lemma retry_eval id owner token code now t :
  outbox_valid t →
  retry id owner token code now t =
    (Ok (held id owner token now t), if_held id owner token now (retry_row code now) t) ∧
  outbox_valid (if_held id owner token now (retry_row code now) t).
Proof. intros Hv. exact (fenced_eval _ _ _ _ _ t Hv (retry_sound _ _ _ _ _ t Hv)). Qed.

(** One action: it raises only on a duplicate identifier, keeps the table
    valid, and moves every row by a row step. *)
Lemma perform_sound a t :
  outbox_valid t →
  (∀ e, fst (perform a t) = Throw e → e = UniqueViolation ∧ ∃ i tp p n, a = AInsert i tp p n) ∧
  outbox_valid (snd (perform a t)) ∧
  (∀ id r, t !! id = Some r → ∃ r', snd (perform a t) !! id = Some r' ∧ row_step a r r') ∧
  (∀ id r', t !! id = None → snd (perform a t) !! id = Some r' →
     ∃ tp p n, r' = new_event id tp p n).
Proof.
  intros Hv. destruct a as [id topic payload now|now|owner token now locked|id owner token now|
    id owner token code now].
  - pose proof (perform_insert_eval id topic payload now t Hv) as He.
    destruct (t !! id) as [r|] eqn:Hid.
    { rewrite He. simpl. split_and!; eauto using RowSame; [|congruence].
      intros e [= <-]. eauto 10. }
    destruct He as [-> Hv']. simpl. split_and!; [done|done| |].
    + intros id' r Hr. exists r. rewrite lookup_insert_ne by congruence. eauto using RowSame.
    + intros id' r' Hr'. rewrite lookup_insert_Some. intros [[<- <-]|[_ ?]]; [eauto|congruence].
  - destruct (reclaim_eval now t Hv) as [He Hv']. simpl. unfold mbind, M_bind. rewrite He. simpl.
    split_and!; [done|done| |].
    + intros id r Hr. rewrite sql_set_lookup, Hr. simpl.
      destruct (reclaimable now r) eqn:Hp; eauto using RowSame, RowReclaimed.
    + intros id r Hr. by rewrite sql_set_lookup, Hr.
  - pose proof (claim_eval owner token now locked t Hv) as He. simpl. unfold mbind, M_bind.
    destruct (candidate now locked t) as [c|]; [|rewrite He; simpl; split_and!;
      eauto using RowSame; congruence].
    destruct He as (Hc & Hcl & -> & Hv'). simpl. split_and!; [done|done| |].
    + intros id r Hr. destruct (decide (id = oe_id c)) as [->|Hne].
      * assert (r = c) as -> by congruence. rewrite lookup_insert_eq. eauto using RowClaimed.
      * rewrite lookup_insert_ne by done. eauto using RowSame.
    + intros id r' Hr. rewrite lookup_insert_Some. intros [[<- _]|[_ ?]]; congruence.
  - destruct (published_eval id owner token now t Hv) as [He Hv'].
    cbn [perform]. rewrite (bind_ok _ _ _ _ _ He). simpl.
    split_and!; [done|done| |].
    + intros id' r Hr. apply (alter_selected_row _ _ _ _ _ _ (row_step _)); eauto using RowSame, RowPublished.
    + intros id' r Hr Hr'. unfold if_held in Hr'. by rewrite alter_selected_None in Hr'.
  - destruct (retry_eval id owner token code now t Hv) as [He Hv'].
    cbn [perform]. rewrite (bind_ok _ _ _ _ _ He). simpl.
    split_and!; [done|done| |].
    + intros id' r Hr. apply (alter_selected_row _ _ _ _ _ _ (row_step _)); eauto using RowSame, RowRetried.
    + intros id' r Hr Hr'. unfold if_held in Hr'. by rewrite alter_selected_None in Hr'.
Qed.

Lemma outbox_run_valid t l : outbox_valid t → outbox_valid (outbox_run t l).
Proof.
  revert t. induction l as [|a l IH]; intros t Hv; simpl; [done|].
  apply IH. by apply (perform_sound a t Hv).
Qed.

Lemma outbox_valid_empty : outbox_valid ∅.
Proof. apply table_ok_empty. Qed.

(** How often an event was handed out, and how often its publication was
    recorded, in a run. *)
Definition is_claim_of (id : string) (r : outcome DbError outbox_result) : bool :=
  match r with
  | Ok (RClaimed (Some e)) => bool_decide (ce_id e = id)
  | _ => false
  end.
Fixpoint claims_of (id : string) (t : Table OutboxEvent) (l : list outbox_action) : Z :=
  match l with
  | [] => 0
  | a :: l' => (if is_claim_of id (fst (perform a t)) then 1 else 0)
               + claims_of id (snd (perform a t)) l'
  end.

Definition attempts_of (id : string) (t : Table OutboxEvent) : Z :=
  match t !! id with Some r => oe_attempts r | None => 0 end.

(** A step counts in [attempts] exactly the claims it hands out. *)
Lemma perform_attempts id a t :
  outbox_valid t →
  attempts_of id (snd (perform a t)) =
    attempts_of id t + (if is_claim_of id (fst (perform a t)) then 1 else 0).
Proof.
  intros Hv. unfold attempts_of. destruct a as [i topic payload now|now|owner token now locked|
    i owner token now|i owner token code now].
  - pose proof (perform_insert_eval i topic payload now t Hv) as He.
    destruct (t !! i) as [r|] eqn:Hi; [rewrite He; simpl; lia|].
    destruct He as [-> _]. simpl. destruct (decide (id = i)) as [->|Hne].
    + rewrite lookup_insert_eq, Hi. simpl. lia.
    + rewrite lookup_insert_ne by done. lia.
  - cbn [perform]. destruct (reclaim_eval now t Hv) as [He _].
    rewrite (bind_ok _ _ _ _ _ He). simpl. rewrite sql_set_lookup.
    destruct (t !! id) as [r|]; simpl; [|lia]. destruct (reclaimable now r); simpl; lia.
  - cbn [perform]. pose proof (claim_eval owner token now locked t Hv) as He.
    destruct (candidate now locked t) as [c|];
      [|rewrite (bind_ok _ _ _ _ _ He); simpl; lia].
    destruct He as (Hc & _ & He & _). rewrite (bind_ok _ _ _ _ _ He). simpl.
    destruct (decide (oe_id c = id)) as [<-|Hne].
    + rewrite lookup_insert_eq, Hc, bool_decide_eq_true_2 by done. done.
    + rewrite lookup_insert_ne, bool_decide_eq_false_2 by done. lia.
  - cbn [perform]. destruct (published_eval i owner token now t Hv) as [He _].
    rewrite (bind_ok _ _ _ _ _ He). simpl. rewrite Z.add_0_r, if_held_cases.
    destruct (held _ _ _ _ _); [|done]. destruct (decide (id = i)) as [->|Hne].
    + rewrite lookup_alter_eq. by destruct (t !! i).
    + by rewrite lookup_alter_ne.
  - cbn [perform]. destruct (retry_eval i owner token code now t Hv) as [He _].
    rewrite (bind_ok _ _ _ _ _ He). simpl. rewrite Z.add_0_r, if_held_cases.
    destruct (held _ _ _ _ _); [|done]. destruct (decide (id = i)) as [->|Hne].
    + rewrite lookup_alter_eq. by destruct (t !! i).
    + by rewrite lookup_alter_ne.
Qed.

Lemma claims_attempts id t l :
  outbox_valid t → attempts_of id (outbox_run t l) = attempts_of id t + claims_of id t l.
Proof.
  revert t. induction l as [|a l IH]; intros t Hv; simpl; [lia|].
  rewrite IH by (by apply (perform_sound a t Hv)). rewrite perform_attempts by done. lia.
Qed.

(** A row that a run ends with comes from the row it started with by row
    steps. *)
Lemma run_row_steps t l id r :
  outbox_valid t → t !! id = Some r →
  ∃ r', outbox_run t l !! id = Some r' ∧ row_steps r r'.
Proof.
  revert t r. induction l as [|a l IH]; intros t r Hv Hr; simpl; [by exists r|].
  destruct (perform_sound a t Hv) as (_&Hv'&Hstep&_).
  destruct (Hstep _ _ Hr) as (r1 & Hr1 & Hs).
  destruct (IH _ _ Hv' Hr1) as (r' & ? & ?). exists r'. split; [done|]. eapply rtc_l; eauto.
Qed.

Lemma row_step_terminal a r r' : outbox_terminal r = true → row_step a r r' → r' = r.
Proof.
  intros Ht Hs.
  enough (oe_status r = PENDING ∨ oe_status r = PROCESSING ∨ r' = r) as Hn.
  { unfold outbox_terminal in Ht. destruct Hn as [Hn|[Hn|Hn]]; [..|done]; by rewrite Hn in Ht. }
  destruct Hs as [|now r H|owner token now locked r H|id owner token now r H|
    id owner token code now r H]; auto.
  - apply andb_prop in H as [[[H _]%andb_prop|[H _]%andb_prop]%orb_prop _];
      apply bool_decide_eq_true in H; auto.
  - unfold claimable in H. rewrite !andb_true_iff, bool_decide_eq_true in H. naive_solver.
  - apply holds_lease_spec in H. naive_solver.
  - apply holds_lease_spec in H. naive_solver.
Qed.

Lemma row_steps_terminal r r' : outbox_terminal r = true → row_steps r r' → r' = r.
Proof.
  intros Ht Hs. induction Hs as [|x y z [a Hs] _ IH]; [done|].
  apply row_step_terminal in Hs; subst; auto.
Qed.

(** The actions that issue a given lease token. *)
Definition issues (token : string) (a : outbox_action) : bool :=
  match a with AClaim _ token' _ _ => bool_decide (token' = token) | _ => false end.

Lemma row_step_token a r r' token :
  issues token a = false → row_step a r r' → oe_leaseToken r ≠ Some token →
  oe_leaseToken r' ≠ Some token.
Proof.
  intros Ha Hs Hn. destruct Hs as [|now r H|owner token' now locked r H|id owner token' now r H|
    id owner token' code now r H]; simpl; try done.
  intros [= ->]. simpl in Ha. by rewrite bool_decide_eq_true_2 in Ha.
Qed.

Lemma token_not_restored token id t l :
  outbox_valid t → forallb (λ a, negb (issues token a)) l = true →
  (∀ r, t !! id = Some r → oe_leaseToken r ≠ Some token) →
  ∀ r, outbox_run t l !! id = Some r → oe_leaseToken r ≠ Some token.
Proof.
  revert t. induction l as [|a l IH]; intros t Hv Hl Hno; simpl; [done|].
  simpl in Hl. apply andb_prop in Hl as [Ha%negb_true_iff Hl].
  destruct (perform_sound a t Hv) as (_&Hv'&Hold&Hnew).
  apply IH; [done..|]. intros r Hr.
  destruct (t !! id) as [r0|] eqn:Hr0.
  - destruct (Hold _ _ Hr0) as (r1 & Hr1 & Hs). assert (r1 = r) as -> by congruence.
    by eapply row_step_token; [..|apply Hno].
  - by destruct (Hnew _ _ Hr0 Hr) as (?&?&?&->).
Qed.
End store.

(** ** Properties *)

(** On every table reachable by any interleaving of workers, the rows
    satisfy the CHECK constraints, and reclaiming, claiming, publishing and
    retrying never raise: no statement touches a terminal row or writes a row
    the constraints refuse. *)
Theorem outbox_never_raises lease delay max scope l :
  let t := outbox_run lease delay max scope ∅ l in
  table_valid outbox_checks t ∧
  ∀ a, match a with
       | AInsert _ _ _ _ => True
       | _ => ∃ v, fst (perform lease delay max scope a t) = Ok v
       end.
Proof.
  intros t. assert (Hv : outbox_valid max t)
    by apply outbox_run_valid, outbox_valid_empty.
  split; [apply Hv|]. intros a.
  destruct (perform_sound lease delay max scope a t Hv) as (Hne & _).
  destruct a; [done|..]; destruct (fst _) as [v|e]; eauto;
    destruct (Hne e eq_refl) as (_&?&?&?&?&?); discriminate.
Qed.

(** An event is handed out at most [maxAttempts] times, and its
    [attempts] column counts exactly the times it was. *)
Theorem outbox_claims_bounded lease delay max scope id l :
  let claims := claims_of lease delay max scope id ∅ l in
  claims ≤ Z.max 0 max ∧
  ∀ r, outbox_run lease delay max scope ∅ l !! id = Some r → oe_attempts r = claims.
Proof.
  intros claims. pose proof (claims_attempts lease delay max scope id ∅ l
    (outbox_valid_empty max)) as Hc.
  pose proof (outbox_run_valid lease delay max scope ∅ l (outbox_valid_empty max)) as Hv.
  fold claims in Hc. unfold attempts_of in Hc. rewrite lookup_empty in Hc.
  destruct (_ !! id) as [r|] eqn:Hr.
  - pose proof (tk_good _ _ _ _ Hv id r Hr). split; [cbv beta in *; lia|]. intros r' [= <-]. lia.
  - split; [lia|done].
Qed.

(** PUBLISHED and FAILED are final: no run changes a terminal event, and
    neither publishing nor retrying one succeeds. *)
Theorem outbox_terminal_is_final lease delay max scope l l' id r :
  outbox_run lease delay max scope ∅ l !! id = Some r →
  outbox_terminal r = true →
  let t := outbox_run lease delay max scope ∅ (l ++ l') in
  t !! id = Some r ∧
  ∀ owner token code now,
    markPublished id owner token now t = (Ok false, t) ∧
    retry delay max id owner token code now t = (Ok false, t).
Proof.
  intros Hr Ht t.
  pose proof (outbox_run_valid lease delay max scope ∅ (l ++ l') (outbox_valid_empty max)) as Hv.
  assert (Hid : t !! id = Some r).
  { unfold t. rewrite outbox_run_app.
    destruct (run_row_steps lease delay max scope _ l' id r
      (outbox_run_valid _ _ _ _ _ l (outbox_valid_empty _)) Hr) as (r' & Hr' & Hs).
    by apply row_steps_terminal in Hs as ->. }
  split; [done|]. intros owner token code now.
  assert (Hh : held id owner token now t = false).
  { unfold held, selected. rewrite Hid. apply not_true_is_false. intros (_&Hst&_)%holds_lease_spec.
    unfold outbox_terminal in Ht. by rewrite Hst in Ht. }
  destruct (published_eval max id owner token now t Hv) as [-> _].
  destruct (retry_eval delay max id owner token code now t Hv) as [-> _].
  by rewrite !if_held_cases, Hh.
Qed.

(** A stale worker is fenced: once an event is no longer leased under a
    token, then in every continuation that does not draw that token again,
    publishing or retrying it under the token fails and changes nothing. *)
Theorem outbox_stale_token_fenced lease delay max scope l l' id token :
  (∀ r, outbox_run lease delay max scope ∅ l !! id = Some r → oe_leaseToken r ≠ Some token) →
  forallb (λ a, negb (issues token a)) l' = true →
  let t := outbox_run lease delay max scope ∅ (l ++ l') in
  ∀ owner code now,
    markPublished id owner token now t = (Ok false, t) ∧
    retry delay max id owner token code now t = (Ok false, t).
Proof.
  intros Hno Hl t owner code now.
  pose proof (outbox_run_valid lease delay max scope ∅ (l ++ l') (outbox_valid_empty max)) as Hv.
  assert (Hh : held id owner token now t = false).
  { unfold held, selected. destruct (t !! id) as [r|] eqn:Hr; [|done].
    apply not_true_is_false. intros (_&_&_&Htok&_)%holds_lease_spec. revert Htok.
    unfold t in Hr. rewrite outbox_run_app in Hr. eapply token_not_restored; [..|exact Hr]; try done.
    apply outbox_run_valid, outbox_valid_empty. }
  destruct (published_eval max id owner token now t Hv) as [-> _].
  destruct (retry_eval delay max id owner token code now t Hv) as [-> _].
  by rewrite !if_held_cases, Hh.
Qed.

(** [claimNext] leases the oldest claimable event that no other
    transaction has locked, changing only that row, and returns nothing only
    when there is none. *)
Theorem claimNext_takes_oldest lease delay max scope l owner token now locked :
  let t := outbox_run lease delay max scope ∅ l in
  match claimNext lease max scope owner token now locked t with
  | (Ok (Some e), t') =>
      ∃ r, t !! ce_id e = Some r ∧ claimable max scope now r = true ∧
        locked (ce_id e) = false ∧ ce_leaseToken e = token ∧
        t' = <[ce_id e := claim_row lease owner token now r]> t ∧
        (∀ id r', t !! id = Some r' → claimable max scope now r' = true →
           locked id = false → created_order r r')
  | (Ok None, t') =>
      t' = t ∧ ∀ id r, t !! id = Some r → locked id = false → claimable max scope now r = false
  | (Throw _, _) => False
  end.
Proof.
  intros t.
  pose proof (outbox_run_valid lease delay max scope ∅ l (outbox_valid_empty max)) as Hv.
  fold t in Hv. pose proof (claim_eval lease max scope owner token now locked t Hv) as He.
  destruct (candidate max scope now locked t) as [c|] eqn:Hc.
  - destruct He as (Hid & Hcl & -> & _). simpl. exists c.
    pose proof (candidate_claimable _ _ _ _ _ _ Hc) as (id & Hid' & [_ Hl]%andb_prop)%rows_where.
    split_and!; try done; [by apply negb_true_iff|].
    intros i r' Hr' Hcl' Hl'. unfold candidate in Hc.
    pose proof (StronglySorted_merge_sort created_order
      (rows (sql_where (λ r, claimable max scope now r && negb (locked (oe_id r))) t))) as Hs.
    assert (Hin : r' ∈ merge_sort created_order
      (rows (sql_where (λ r, claimable max scope now r && negb (locked (oe_id r))) t))).
    { apply elem_of_merge_sort, rows_where. exists i. split; [done|].
      rewrite Hcl', (tk_keys _ _ _ _ Hv _ _ Hr'), Hl'. done. }
    destruct (merge_sort _ _) as [|c' rest]; simplify_eq/=.
    apply elem_of_cons in Hin as [->|Hin].
    + unfold created_order. auto.
    + apply StronglySorted_inv in Hs as [_ Hall]. rewrite Forall_forall in Hall. auto.
  - rewrite He. split; [done|]. intros id r Hr Hl. apply not_true_is_false. intros Hcl.
    assert (Hin : r ∈ merge_sort created_order
      (rows (sql_where (λ r, claimable max scope now r && negb (locked (oe_id r))) t))).
    { apply elem_of_merge_sort, rows_where. exists id. split; [done|].
      by rewrite Hcl, (tk_keys _ _ _ _ Hv _ _ Hr), Hl. }
    unfold candidate in Hc. destruct (merge_sort _ _); [by apply not_elem_of_nil in Hin|done].
Qed.

(** After [reclaimExpiredLeases] no event in scope is stuck: each is
    terminal, or pending with attempts left, or leased until after the
    reclaiming; and an expired lease with attempts left is claimable at once. *)
Theorem reclaim_leaves_no_stuck_event lease delay max scope l now :
  let t := outbox_run lease delay max scope ∅ l in
  let t' := snd (reclaimExpiredLeases max scope now t) in
  (∀ id r, t' !! id = Some r → eventScope scope r = true →
     outbox_terminal r = true ∨
     (oe_status r = PENDING ∧ oe_attempts r < max) ∨
     (oe_status r = PROCESSING ∧ sql_gt (oe_leaseExpiresAt r) now = true)) ∧
  (∀ id r, t !! id = Some r → eventScope scope r = true →
     oe_status r = PROCESSING → sql_le (oe_leaseExpiresAt r) now = true → oe_attempts r < max →
     ∃ r', t' !! id = Some r' ∧ claimable max scope now r' = true).
Proof.
  intros t t'.
  pose proof (outbox_run_valid lease delay max scope ∅ l (outbox_valid_empty max)) as Hv.
  fold t in Hv. unfold t'. destruct (reclaim_eval max scope now t Hv) as [-> _]. simpl. split.
  - intros id r. rewrite sql_set_lookup. intros (r0 & Hr0 & ->)%fmap_Some Hscope.
    destruct (reclaimable max scope now r0) eqn:Hp.
    + unfold outbox_terminal. simpl. unfold exhausted. destruct (Z.leb_spec max (oe_attempts r0)); auto.
    + unfold reclaimable in Hp. rewrite Hscope, andb_true_r in Hp.
      apply orb_false_elim in Hp as [H1 H2]. pose proof (tk_checks _ _ _ _ Hv _ _ Hr0) as Hck.
      apply outbox_checks_spec in Hck as (_&Hl&_&_).
      destruct (oe_status r0) eqn:Hst; simpl in *.
      * right; left. split; [done|]. unfold exhausted in H2. by apply Z.leb_gt.
      * right; right. split; [done|]. destruct Hl as (_&_&[e He]). rewrite He in *. simpl in *.
        apply Z.ltb_lt. by apply Z.leb_gt.
      * left. unfold outbox_terminal. by rewrite Hst.
      * left. unfold outbox_terminal. by rewrite Hst.
  - intros id r Hr Hscope Hst Hexp Hatt. exists (reclaim_row max now r). rewrite sql_set_lookup, Hr.
    simpl. unfold reclaimable. rewrite Hst, Hexp, Hscope, bool_decide_eq_true_2 by done.
    split; [done|].
    assert (Hx : exhausted max r = false) by by apply Z.leb_gt.
    unfold claimable, eventScope, reclaim_row in *. simpl. rewrite Hx. simpl.
    by rewrite (proj2 (Z.ltb_lt _ _) Hatt), Z.leb_refl.
Qed.

Module OutboxExamples.
(** Leases of 30 s, a retry delay of 5 s and two attempts. *)
Definition free (id : string) : bool := false.
Definition published_run : list outbox_action :=
  [AInsert "e1" "node-sync.requested" JNull 0; AClaim "w1" "t1" 10 free;
   APublished "e1" "w1" "t1" 20].
Definition reclaimed_run : list outbox_action :=
  [AInsert "e1" "node-sync.requested" JNull 0; AClaim "w1" "t1" 10 free; AReclaim 40000].

Definition run : Table OutboxEvent → list outbox_action → Table OutboxEvent :=
  outbox_run 30000 5000 2 None.

Definition published_event : OutboxEvent :=
  published_row 20 (claim_row 30000 "w1" "t1" 10 (new_event "e1" "node-sync.requested" JNull 0)).

Lemma outbox_terminal_is_final_witness :
  run ∅ published_run !! "e1"%string = Some published_event ∧
  run ∅ (published_run ++ [AReclaim 50000]) !! "e1"%string = Some published_event.
Proof.
  assert (H : run ∅ published_run !! "e1"%string = Some published_event) by by vm_compute.
  split; [exact H|].
  exact (proj1 (outbox_terminal_is_final 30000 5000 2 None published_run [AReclaim 50000] "e1"
    published_event H eq_refl)).
Defined.

(** The first worker returns after its lease was reclaimed and handed on. *)
Lemma outbox_stale_token_fenced_witness :
  let t := run ∅ (reclaimed_run ++ [AClaim "w2" "t2" 41000 free]) in
  markPublished "e1" "w1" "t1" 42000 t = (Ok false, t) ∧
  fst (markPublished "e1" "w2" "t2" 42000 t) = Ok true.
Proof.
  split; [|by vm_compute].
  refine (proj1 (outbox_stale_token_fenced 30000 5000 2 None reclaimed_run
    [AClaim "w2" "t2" 41000 free] "e1" "t1" _ _ "w1"%string "x"%string 42000)); [|by vm_compute].
  intros r Hr.
  assert (H : (oe_leaseToken <$> run ∅ reclaimed_run !! "e1"%string) = Some None) by by vm_compute.
  unfold run in H. rewrite Hr in H. by injection H as ->.
Defined.
End OutboxExamples.
