(* ===== verification/NodeSyncStore.v ===== *)
(** * Node synchronisation jobs: [packages/orchestration-store/src/node-sync-store.ts]

    The [NodeSyncJob] table with its CHECK constraints and immutability
    trigger, and the statements of [PrismaNodeSyncStore].  A job synchronises
    either an access grant or an activated connection route; the rows of those
    tables and of [Node] that the statements join with are the [SyncContext]
    of a statement.  [claim] is a sequence of separate statements: other
    workers' statements may run between them, so the runs of this file
    interleave single statements. *)

From S2P Require Import Prelude.
From S2P Require Import Sql.
From S2P Require Import OutboxStore.
Open Scope Z_scope.

Inductive NodeSyncJobStatus := JOB_PENDING | JOB_PROCESSING | JOB_SUCCEEDED | JOB_FAILED.
#[export] Instance NodeSyncJobStatus_eq_dec : EqDecision NodeSyncJobStatus.
Proof. solve_decision. Defined.

Record NodeSyncJob := {
  j_id : string;
  j_nodeId : string;
  j_nodeAccessGrantId : option string;
  j_routeEndpointId : option string;
  j_routeConnectionProfileId : option string;
  j_targetVersion : Z;
  j_status : NodeSyncJobStatus;
  j_attempts : Z;
  j_nextAttemptAt : option Z;
  j_leaseOwner : option string;
  j_leaseToken : option string;
  j_leaseExpiresAt : option Z;
  j_lastErrorCode : option string;
  j_completedAt : option Z;
  j_updatedAt : Z;
}.

(** [NodeSyncRequestedEvent] of packages/contracts: which resource to sync. *)
Inductive SyncResource :=
| GrantResource (nodeAccessGrantId : string)
| RouteResource (routeEndpointId routeConnectionProfileId : string).
Record NodeSyncRequestedEvent := {
  cmd_resource : SyncResource;
  cmd_nodeSyncJobId : string;
  cmd_targetVersion : Z;
}.

(** The joined columns of [NodeAccessGrant] and [EndpointConnectionProfile]
    (keyed by endpoint and profile), and [Node."desiredConfigVersion"]. *)
Record GrantColumns := { gc_nodeId : string; gc_desiredVersion : Z }.
Record RouteColumns := {
  rc_nodeId : string;
  rc_activationVersion : option Z;
  rc_lastActivationVersion : Z;
}.
Record SyncContext := {
  ctx_grants : gmap string GrantColumns;
  ctx_routes : gmap (string * string) RouteColumns;
  ctx_nodes : gmap string Z;
}.

Definition job_checks (r : NodeSyncJob) : bool :=
  (0 <=? j_attempts r) && (0 <=? j_targetVersion r) &&
  lease_check (bool_decide (j_status r = JOB_PROCESSING))
    (j_leaseOwner r) (j_leaseToken r) (j_leaseExpiresAt r) &&
  (negb (bool_decide (j_status r = JOB_SUCCEEDED) || bool_decide (j_status r = JOB_FAILED))
   || negb (is_null (j_completedAt r))) &&
  (bool_decide (j_status r = JOB_PENDING) || is_null (j_nextAttemptAt r)) &&
  ((negb (is_null (j_nodeAccessGrantId r)) && is_null (j_routeEndpointId r) &&
    is_null (j_routeConnectionProfileId r)) ||
   (is_null (j_nodeAccessGrantId r) && negb (is_null (j_routeEndpointId r)) &&
    negb (is_null (j_routeConnectionProfileId r)))).

Definition job_terminal (r : NodeSyncJob) : bool :=
  bool_decide (j_status r = JOB_SUCCEEDED) || bool_decide (j_status r = JOB_FAILED).

(** The lifecycle columns of a row, everything else kept. *)
Definition set_lifecycle (r : NodeSyncJob) (status : NodeSyncJobStatus) (attempts : Z)
    (nextAttemptAt : option Z) (owner token : option string) (expires : option Z)
    (errorCode : option string) (completedAt : option Z) (updatedAt : Z) : NodeSyncJob :=
  {| j_id := j_id r; j_nodeId := j_nodeId r; j_nodeAccessGrantId := j_nodeAccessGrantId r;
     j_routeEndpointId := j_routeEndpointId r;
     j_routeConnectionProfileId := j_routeConnectionProfileId r;
     j_targetVersion := j_targetVersion r; j_status := status; j_attempts := attempts;
     j_nextAttemptAt := nextAttemptAt; j_leaseOwner := owner; j_leaseToken := token;
     j_leaseExpiresAt := expires; j_lastErrorCode := errorCode; j_completedAt := completedAt;
     j_updatedAt := updatedAt |}.

Inductive ClaimOutcome :=
| JobClaimed (id leaseToken : string)
| AlreadyCompleted
| Terminal
| Unavailable. (** [null] *)

Inductive RetryOutcome := Retried | RetryFailed | Fenced.

Section store.
Context (leaseDurationMs retryDelayMs maxAttempts : Z).

Notation JobM := (M (Table NodeSyncJob) DbError).

Definition job_update (p : NodeSyncJob → bool) (f : NodeSyncJob → NodeSyncJob)
    : JobM (list NodeSyncJob) := sql_update job_checks job_terminal p f.

Definition exhausted (r : NodeSyncJob) : bool := maxAttempts <=? j_attempts r.

(** The SET list shared by [reclaimExpiredLeases] and the release in [claim]. *)
Definition reclaim_row (now : Z) (r : NodeSyncJob) : NodeSyncJob :=
  set_lifecycle r (if exhausted r then JOB_FAILED else JOB_PENDING) (j_attempts r)
    (if exhausted r then None else Some now) None None None
    (if exhausted r then Some (default "NODE_SYNC_LEASE_EXPIRED"%string (j_lastErrorCode r))
     else j_lastErrorCode r)
    (if exhausted r then Some now else None) now.

Definition lease_expired (now : Z) (r : NodeSyncJob) : bool :=
  bool_decide (j_status r = JOB_PROCESSING) && sql_le (j_leaseExpiresAt r) now.

Definition reclaimable (now : Z) (r : NodeSyncJob) : bool :=
  lease_expired now r || (bool_decide (j_status r = JOB_PENDING) && exhausted r).

Definition reclaimExpiredLeases (now : Z) : JobM Z :=
  updated ← job_update (reclaimable now) (reclaim_row now);
  mret (Z.of_nat (length updated)).

(** The row the command names: its id, its resource columns, its version. *)
Definition names_resource (resource : SyncResource) (r : NodeSyncJob) : bool :=
  match resource with
  | GrantResource g => sql_eq (j_nodeAccessGrantId r) g
  | RouteResource e p =>
      sql_eq (j_routeEndpointId r) e && sql_eq (j_routeConnectionProfileId r) p
  end.
Definition names_job (command : NodeSyncRequestedEvent) (r : NodeSyncJob) : bool :=
  bool_decide (j_id r = cmd_nodeSyncJobId command) &&
  names_resource (cmd_resource command) r &&
  (j_targetVersion r =? cmd_targetVersion command).

(** The first statement of [claim]: release the job's own expired lease. *)
Definition release_expired (command : NodeSyncRequestedEvent) (now : Z)
    : JobM (list NodeSyncJob) :=
  job_update (λ r, names_job command r && lease_expired now r) (reclaim_row now).

(** The joins of the two claiming statements. *)
Definition joined (ctx : SyncContext) (resource : SyncResource) (r : NodeSyncJob) : bool :=
  match ctx_nodes ctx !! j_nodeId r with
  | None => false
  | Some desired =>
      (j_targetVersion r <=? desired) &&
      match resource with
      | GrantResource g =>
          match ctx_grants ctx !! g with
          | Some grant => bool_decide (gc_nodeId grant = j_nodeId r) &&
                          (gc_desiredVersion grant <=? desired)
          | None => false
          end
      | RouteResource e p =>
          match ctx_routes ctx !! (e, p) with
          | Some route => bool_decide (rc_nodeId route = j_nodeId r) &&
                          sql_eq (rc_activationVersion route) (j_targetVersion r)
          | None => false
          end
      end
  end.

Definition claimable (ctx : SyncContext) (command : NodeSyncRequestedEvent) (now : Z)
    (r : NodeSyncJob) : bool :=
  names_job command r && joined ctx (cmd_resource command) r &&
  bool_decide (j_status r = JOB_PENDING) && (j_attempts r <? maxAttempts) &&
  null_or_le (j_nextAttemptAt r) now.

Definition claim_row (leaseOwner leaseToken : string) (now : Z) (r : NodeSyncJob) : NodeSyncJob :=
  set_lifecycle r JOB_PROCESSING (j_attempts r + 1) None (Some leaseOwner) (Some leaseToken)
    (Some (now + leaseDurationMs)) (j_lastErrorCode r) (j_completedAt r) now.

(** The second statement of [claim]. *)
Definition lease_job (ctx : SyncContext) (command : NodeSyncRequestedEvent)
    (leaseOwner leaseToken : string) (now : Z) : JobM (list NodeSyncJob) :=
  job_update (claimable ctx command now) (claim_row leaseOwner leaseToken now).

(** [activationVersion IS DISTINCT FROM target AND lastActivationVersion >= target] *)
Definition superseded (ctx : SyncContext) (e p : string) (r : NodeSyncJob) : bool :=
  match ctx_routes ctx !! (e, p) with
  | Some route => bool_decide (rc_nodeId route = j_nodeId r) &&
      negb (bool_decide (rc_activationVersion route = Some (j_targetVersion r))) &&
      (j_targetVersion r <=? rc_lastActivationVersion route)
  | None => false
  end.

Definition closable (ctx : SyncContext) (command : NodeSyncRequestedEvent) (now : Z)
    (r : NodeSyncJob) : bool :=
  match cmd_resource command with
  | GrantResource _ => false
  | RouteResource e p =>
      names_job command r && is_null (j_nodeAccessGrantId r) &&
      (bool_decide (j_status r = JOB_PENDING) || lease_expired now r) && superseded ctx e p r
  end.

Definition close_row (now : Z) (r : NodeSyncJob) : NodeSyncJob :=
  set_lifecycle r JOB_FAILED (j_attempts r) None None None None
    (Some "ROUTE_ACTIVATION_CLOSED"%string) (Some now) now.

(** The third statement of [claim], for route commands only. *)
Definition close_superseded (ctx : SyncContext) (command : NodeSyncRequestedEvent) (now : Z)
    : JobM (list NodeSyncJob) :=
  job_update (closable ctx command now) (close_row now).

(** The comparison of the stored row with the command. *)
Definition resourceMismatch (command : NodeSyncRequestedEvent) (r : NodeSyncJob) : bool :=
  match cmd_resource command with
  | GrantResource g =>
      negb (bool_decide (j_nodeAccessGrantId r = Some g)) ||
      negb (bool_decide (j_routeEndpointId r = None))
  | RouteResource e p =>
      negb (bool_decide (j_nodeAccessGrantId r = None)) ||
      negb (bool_decide (j_routeEndpointId r = Some e)) ||
      negb (bool_decide (j_routeConnectionProfileId r = Some p))
  end.

(** The last statement of [claim], [findUnique], and what it returns. *)
Definition existing_outcome (command : NodeSyncRequestedEvent) (t : Table NodeSyncJob)
    : ClaimOutcome :=
  match t !! cmd_nodeSyncJobId command with
  | None => Unavailable
  | Some existing =>
      if resourceMismatch command existing ||
         negb (j_targetVersion existing =? cmd_targetVersion command) then Terminal
      else match j_status existing with
           | JOB_SUCCEEDED => AlreadyCompleted
           | JOB_FAILED => Terminal
           | _ => Unavailable
           end
  end.

(** [claim]; [leaseToken] is the [randomUUID()] it draws, [now1], [now2] and
    [now3] the clock of its statements, [ctx2] and [ctx3] what they join. *)
Definition claim (command : NodeSyncRequestedEvent) (leaseOwner leaseToken : string)
    (now1 : Z) (ctx2 : SyncContext) (now2 : Z) (ctx3 : SyncContext) (now3 : Z)
    : JobM ClaimOutcome :=
  release_expired command now1;;
  leased ← lease_job ctx2 command leaseOwner leaseToken now2;
  match leased with
  | r :: _ => mret (JobClaimed (j_id r) (default ""%string (j_leaseToken r)))
  | [] =>
      closed ← match cmd_resource command with
               | RouteResource _ _ => close_superseded ctx3 command now3
               | GrantResource _ => mret []
               end;
      match closed with
      | _ :: _ => mret Terminal
      | [] => gets (existing_outcome command)
      end
  end.

Definition holds_lease (id leaseOwner leaseToken : string) (now : Z) (r : NodeSyncJob) : bool :=
  bool_decide (j_id r = id) && bool_decide (j_status r = JOB_PROCESSING) &&
  sql_eq (j_leaseOwner r) leaseOwner && sql_eq (j_leaseToken r) leaseToken &&
  sql_gt (j_leaseExpiresAt r) now.

Definition complete_row (now : Z) (r : NodeSyncJob) : NodeSyncJob :=
  set_lifecycle r JOB_SUCCEEDED (j_attempts r) (j_nextAttemptAt r) None None None
    (j_lastErrorCode r) (Some now) now.

Definition complete (id leaseOwner leaseToken : string) (now : Z) : JobM bool :=
  updated ← job_update (holds_lease id leaseOwner leaseToken now) (complete_row now);
  mret (length updated =? 1)%nat.

Definition retry_row (errorCode : string) (now : Z) (r : NodeSyncJob) : NodeSyncJob :=
  set_lifecycle r (if exhausted r then JOB_FAILED else JOB_PENDING) (j_attempts r)
    (if exhausted r then None else Some (now + retryDelayMs)) None None None
    (Some errorCode) (if exhausted r then Some now else None) now.

Definition retry (id leaseOwner leaseToken errorCode : string) (now : Z) : JobM RetryOutcome :=
  updated ← job_update (holds_lease id leaseOwner leaseToken now) (retry_row errorCode now);
  mret match updated with
       | r :: _ => match j_status r with
                   | JOB_PENDING => Retried
                   | JOB_FAILED => RetryFailed
                   | _ => Fenced
                   end
       | [] => Fenced
       end.

(** ** What the statements maintain *)

Definition job_valid : Table NodeSyncJob → Prop :=
  table_ok job_checks j_id (λ r, j_attempts r ≤ Z.max 0 maxAttempts).

#[local] Notation job_sound p f t :=
  (sound_update job_checks job_terminal j_id (λ r, j_attempts r ≤ Z.max 0 maxAttempts) p f t).

Definition lifecycle_checks (st : NodeSyncJobStatus) (attempts : Z) (next : option Z)
    (owner token : option string) (expires completed : option Z) : bool :=
  (0 <=? attempts) && lease_check (bool_decide (st = JOB_PROCESSING)) owner token expires &&
  (negb (bool_decide (st = JOB_SUCCEEDED) || bool_decide (st = JOB_FAILED))
   || negb (is_null completed)) &&
  (bool_decide (st = JOB_PENDING) || is_null next).

Lemma job_checks_lifecycle r :
  job_checks r = true →
  lifecycle_checks (j_status r) (j_attempts r) (j_nextAttemptAt r) (j_leaseOwner r)
    (j_leaseToken r) (j_leaseExpiresAt r) (j_completedAt r) = true.
Proof.
  unfold job_checks, lifecycle_checks. rewrite !andb_true_iff. tauto.
Qed.

(** A row whose lifecycle columns are replaced keeps the other constraints. *)
Lemma set_lifecycle_checks r st attempts next owner token expires code completed now :
  job_checks r = true →
  lifecycle_checks st attempts next owner token expires completed = true →
  job_checks (set_lifecycle r st attempts next owner token expires code completed now) = true.
Proof.
  unfold job_checks, lifecycle_checks, set_lifecycle. simpl. rewrite !andb_true_iff. tauto.
Qed.

Lemma job_checks_attempts r : job_checks r = true → 0 ≤ j_attempts r.
Proof. unfold job_checks. rewrite !andb_true_iff, Z.leb_le. tauto. Qed.

Lemma job_terminal_false r :
  job_terminal r = false ↔ j_status r = JOB_PENDING ∨ j_status r = JOB_PROCESSING.
Proof. unfold job_terminal. destruct (j_status r); simpl; naive_solver. Qed.

(** The lifecycle of a released, closed or retried row. *)
Lemma lifecycle_released (b : bool) attempts next completed :
  0 ≤ attempts →
  lifecycle_checks (if b then JOB_FAILED else JOB_PENDING) attempts
    (if b then None else next) None None None (if b then Some completed else None) = true.
Proof. intros H%Z.leb_le. unfold lifecycle_checks. rewrite H. by destruct b. Qed.

Lemma lifecycle_closed attempts completed :
  0 ≤ attempts → lifecycle_checks JOB_FAILED attempts None None None None (Some completed) = true.
Proof. intros H%Z.leb_le. unfold lifecycle_checks. by rewrite H. Qed.

Lemma reclaim_row_ok now r :
  job_checks r = true → job_checks (reclaim_row now r) = true.
Proof.
  intros H. apply set_lifecycle_checks; [done|]. by apply lifecycle_released, job_checks_attempts.
Qed.

(** Every statement fits the constraints: the conditions of its WHERE clause
    exclude terminal rows, and its SET list writes a valid lifecycle. *)
Lemma open_sound p f t :
  job_valid t →
  (∀ r, p r = true → j_status r = JOB_PENDING ∨ j_status r = JOB_PROCESSING) →
  (∀ r, p r = true → job_checks r = true → job_checks (f r) = true) →
  (∀ r, j_id (f r) = j_id r) →
  (∀ r, p r = true → j_attempts (f r) = j_attempts r ∨
     (j_attempts (f r) = j_attempts r + 1 ∧ j_attempts r < maxAttempts)) →
  job_sound p f t.
Proof.
  intros [Hc Hk Ha] Hp Hf Hid Hatt id r Hr Hpr.
  pose proof (Ha _ _ Hr) as Hb. cbv beta in Hb.
  split_and!; [apply job_terminal_false; auto| |done|].
  - apply Hf; [done|]. by eapply Hc.
  - cbv beta. destruct (Hatt _ Hpr); lia.
Qed.

Lemma lease_expired_spec now r :
  lease_expired now r = true ↔
  j_status r = JOB_PROCESSING ∧ ∃ e, j_leaseExpiresAt r = Some e ∧ e ≤ now.
Proof.
  unfold lease_expired, sql_le. rewrite andb_true_iff, bool_decide_eq_true.
  destruct (j_leaseExpiresAt r); rewrite ?Z.leb_le; naive_solver.
Qed.

Lemma names_job_id command r : names_job command r = true → j_id r = cmd_nodeSyncJobId command.
Proof. unfold names_job. rewrite !andb_true_iff, bool_decide_eq_true. tauto. Qed.

Lemma claimable_spec ctx command now r :
  claimable ctx command now r = true ↔
  names_job command r = true ∧ joined ctx (cmd_resource command) r = true ∧
  j_status r = JOB_PENDING ∧ j_attempts r < maxAttempts ∧
  null_or_le (j_nextAttemptAt r) now = true.
Proof. unfold claimable. rewrite !andb_true_iff, bool_decide_eq_true, Z.ltb_lt. tauto. Qed.

Lemma closable_spec ctx command now r :
  closable ctx command now r = true ↔
  ∃ e p, cmd_resource command = RouteResource e p ∧ names_job command r = true ∧
    j_nodeAccessGrantId r = None ∧
    (j_status r = JOB_PENDING ∨ lease_expired now r = true) ∧ superseded ctx e p r = true.
Proof.
  unfold closable. destruct (cmd_resource command) as [g|e p]; [naive_solver|].
  rewrite !andb_true_iff, orb_true_iff, bool_decide_eq_true.
  destruct (j_nodeAccessGrantId r); naive_solver.
Qed.

Lemma job_holds_lease_spec id owner token now r :
  holds_lease id owner token now r = true ↔
  j_id r = id ∧ j_status r = JOB_PROCESSING ∧ j_leaseOwner r = Some owner ∧
  j_leaseToken r = Some token ∧ ∃ e, j_leaseExpiresAt r = Some e ∧ now < e.
Proof.
  unfold holds_lease, sql_eq, sql_gt. rewrite !andb_true_iff, !bool_decide_eq_true.
  destruct (j_leaseOwner r), (j_leaseToken r), (j_leaseExpiresAt r);
    rewrite ?bool_decide_eq_true, ?Z.ltb_lt; naive_solver.
Qed.

Lemma job_reclaim_sound now t : job_valid t → job_sound (reclaimable now) (reclaim_row now) t.
Proof.
  intros Hv. apply open_sound; auto using reclaim_row_ok.
  intros r [[? _]%lease_expired_spec|[?%bool_decide_eq_true _]%andb_prop]%orb_prop; auto.
Qed.

Lemma release_sound command now t :
  job_valid t → job_sound (λ r, names_job command r && lease_expired now r) (reclaim_row now) t.
Proof.
  intros Hv. apply open_sound; auto using reclaim_row_ok.
  intros r [_ [? _]%lease_expired_spec]%andb_prop; auto.
Qed.

Lemma lease_sound ctx command owner token now t :
  job_valid t → job_sound (claimable ctx command now) (claim_row owner token now) t.
Proof.
  intros Hv. apply open_sound; auto.
  - intros r (_&_&?&_)%claimable_spec. auto.
  - intros r _ H. apply set_lifecycle_checks; [done|].
    pose proof (job_checks_attempts r H). unfold lifecycle_checks. simpl.
    by rewrite (proj2 (Z.leb_le 0 (j_attempts r + 1))) by lia.
  - intros r (_&_&_&?&_)%claimable_spec. by right.
Qed.

Lemma close_sound ctx command now t :
  job_valid t → job_sound (closable ctx command now) (close_row now) t.
Proof.
  intros Hv. apply open_sound; auto.
  - intros r (e&p&_&_&_&[?|[? _]%lease_expired_spec]&_)%closable_spec; auto.
  - intros r _ H. apply set_lifecycle_checks; [done|]. by apply lifecycle_closed, job_checks_attempts.
Qed.

Lemma complete_sound id owner token now t :
  job_valid t → job_sound (holds_lease id owner token now) (complete_row now) t.
Proof.
  intros Hv. apply open_sound; auto.
  - intros r (_&?&_)%job_holds_lease_spec. auto.
  - intros r (_&Hst&_)%job_holds_lease_spec H. apply set_lifecycle_checks; [done|].
    apply job_checks_lifecycle in H. unfold lifecycle_checks in *. rewrite Hst in H. simpl in *.
    rewrite !andb_true_iff in *. tauto.
Qed.

Lemma job_retry_sound id owner token code now t :
  job_valid t → job_sound (holds_lease id owner token now) (retry_row code now) t.
Proof.
  intros Hv. apply open_sound; auto.
  - intros r (_&?&_)%job_holds_lease_spec. auto.
  - intros r _ H. apply set_lifecycle_checks; [done|].
    by apply lifecycle_released, job_checks_attempts.
Qed.

(** ** Runs of statements: any workers, any order, any clock readings *)

Inductive sync_action :=
| SReclaim (now : Z)
| SRelease (command : NodeSyncRequestedEvent) (now : Z)
| SLease (ctx : SyncContext) (command : NodeSyncRequestedEvent)
    (leaseOwner leaseToken : string) (now : Z)
| SClose (ctx : SyncContext) (command : NodeSyncRequestedEvent) (now : Z)
| SComplete (id leaseOwner leaseToken : string) (now : Z)
| SRetry (id leaseOwner leaseToken errorCode : string) (now : Z).

(** The UPDATE statement of an action. *)
Definition action_where (a : sync_action) : NodeSyncJob → bool :=
  match a with
  | SReclaim now => reclaimable now
  | SRelease command now => λ r, names_job command r && lease_expired now r
  | SLease ctx command _ _ now => claimable ctx command now
  | SClose ctx command now => closable ctx command now
  | SComplete id owner token now | SRetry id owner token _ now => holds_lease id owner token now
  end.
Definition action_set (a : sync_action) : NodeSyncJob → NodeSyncJob :=
  match a with
  | SReclaim now | SRelease _ now => reclaim_row now
  | SLease _ _ owner token now => claim_row owner token now
  | SClose _ _ now => close_row now
  | SComplete _ _ _ now => complete_row now
  | SRetry _ _ _ code now => retry_row code now
  end.
Definition statement (a : sync_action) : JobM (list NodeSyncJob) :=
  job_update (action_where a) (action_set a).

(** The statements that issue a given lease token. *)
Definition issues (token : string) (a : sync_action) : bool :=
  match a with SLease _ _ _ token' _ => bool_decide (token' = token) | _ => false end.

(** A step of the table: one of the allowed statements, or the insertion of a new pending job
    by the transaction that asks for the synchronisation. *)
Inductive sync_step (allowed : sync_action → Prop)
    : Table NodeSyncJob → Table NodeSyncJob → Prop :=
| StepStatement a t : allowed a → sync_step allowed t (snd (statement a t))
| StepInsert job t :
    t !! j_id job = None → job_checks job = true →
    j_status job = JOB_PENDING → j_attempts job = 0 →
    sync_step allowed t (<[j_id job := job]> t).

Lemma action_sound a t : job_valid t → job_sound (action_where a) (action_set a) t.
Proof.
  destruct a; simpl.
  - apply job_reclaim_sound.
  - apply release_sound.
  - apply lease_sound.
  - apply close_sound.
  - apply complete_sound.
  - apply job_retry_sound.
Qed.

Lemma statement_eval a t :
  job_valid t →
  statement a t = (Ok (action_set a <$> rows (sql_where (action_where a) t)),
                   sql_set (action_where a) (action_set a) t) ∧
  job_valid (sql_set (action_where a) (action_set a) t).
Proof. intros Hv. apply update_sound; [done|by apply action_sound]. Qed.

Section steps.
Context (allowed : sync_action → Prop).

Lemma sync_step_valid t t' : job_valid t → sync_step allowed t t' → job_valid t'.
Proof.
  intros Hv Hs. revert Hv. destruct Hs as [a t0 _|job t0 Hn Hc _ Ha]; intros Hv.
  - destruct (statement_eval a t0 Hv) as [He Hv']. by rewrite He.
  - apply table_ok_insert; [done..|lia].
Qed.

Lemma sync_steps_valid t t' : job_valid t → rtc (sync_step allowed) t t' → job_valid t'.
Proof. induction 2; eauto using sync_step_valid. Qed.

(** A statement leaves every row or applies its SET list to it. *)
Lemma sync_step_row t t' id r :
  job_valid t → sync_step allowed t t' → t !! id = Some r →
  ∃ r', t' !! id = Some r' ∧
    (r' = r ∨ ∃ a, allowed a ∧ action_where a r = true ∧ r' = action_set a r).
Proof.
  intros Hv Hs. revert Hv. destruct Hs as [a t0 Hal|job t0 Hn _ _ _]; intros Hv Hr.
  - destruct (statement_eval a t0 Hv) as [-> _]. simpl. rewrite sql_set_lookup, Hr. simpl.
    eexists. split; [done|]. destruct (action_where a r) eqn:Hp; [right; eauto|by left].
  - exists r. rewrite lookup_insert_ne by congruence. auto.
Qed.

Lemma sync_step_new t t' id r :
  job_valid t → sync_step allowed t t' → t !! id = None → t' !! id = Some r →
  j_leaseToken r = None.
Proof.
  intros Hv Hs. revert Hv. destruct Hs as [a t0 Hal|job t0 Hn Hc Hst _]; intros Hv Hr.
  - destruct (statement_eval a t0 Hv) as [-> _]. simpl. by rewrite sql_set_lookup, Hr.
  - rewrite lookup_insert_Some. intros [[_ <-]|[_ ?]]; [|congruence].
    apply job_checks_lifecycle in Hc. unfold lifecycle_checks, lease_check in Hc.
    rewrite Hst in Hc. simpl in Hc. destruct (j_leaseToken job); [|done].
    by rewrite !andb_false_r in Hc.
Qed.
End steps.

Lemma action_where_open a r :
  action_where a r = true → job_terminal r = false.
Proof.
  rewrite job_terminal_false. destruct a; simpl.
  - intros [[? _]%lease_expired_spec|[?%bool_decide_eq_true _]%andb_prop]%orb_prop; auto.
  - intros [_ [? _]%lease_expired_spec]%andb_prop; auto.
  - intros (_&_&?&_)%claimable_spec. auto.
  - intros (e&p&_&_&_&[?|[? _]%lease_expired_spec]&_)%closable_spec; auto.
  - intros (_&?&_)%job_holds_lease_spec. auto.
  - intros (_&?&_)%job_holds_lease_spec. auto.
Qed.

Lemma sync_steps_terminal allowed t t' id r :
  job_valid t → rtc (sync_step allowed) t t' → t !! id = Some r → job_terminal r = true →
  t' !! id = Some r.
Proof.
  intros Hv Hs. revert r. induction Hs as [|x y z Hs _ IH]; intros r Hr Ht; [done|].
  apply IH; [by eapply sync_step_valid| |done].
  destruct (sync_step_row _ _ _ _ _ Hv Hs Hr)
    as (r' & Hr' & [->|(a & _ & Hw%action_where_open & _)]); congruence.
Qed.

Lemma sync_steps_token token t t' id :
  job_valid t → rtc (sync_step (λ a, issues token a = false)) t t' →
  (∀ r, t !! id = Some r → j_leaseToken r ≠ Some token) →
  ∀ r, t' !! id = Some r → j_leaseToken r ≠ Some token.
Proof.
  intros Hv Hs. induction Hs as [|x y z Hs _ IH]; intros Hno; [done|].
  apply IH; [by eapply sync_step_valid|]. intros r Hr.
  destruct (x !! id) as [r0|] eqn:Hr0.
  - destruct (sync_step_row _ _ _ _ _ Hv Hs Hr0) as (r' & Hr' & [->|(a & Ha & _ & ->)]);
      assert (Heq : Some r = y !! id) by done; rewrite Hr' in Heq; injection Heq as ->; [auto|].
    destruct a; simpl; try done. intros [= ->]. simpl in Ha. by rewrite bool_decide_eq_true_2 in Ha.
  - by rewrite (sync_step_new _ _ _ _ _ Hv Hs Hr0 Hr).
Qed.

(** Statements that name their job touch at most that row. *)
Lemma lease_eval ctx command owner token now t :
  job_valid t →
  let id := cmd_nodeSyncJobId command in
  let p := claimable ctx command now in
  lease_job ctx command owner token now t =
    (Ok (if selected p id t then from_option (λ r, [claim_row owner token now r]) [] (t !! id)
         else []), alter_selected p id (claim_row owner token now) t) ∧
  job_valid (alter_selected p id (claim_row owner token now) t).
Proof.
  intros Hv id p. eapply update_one; [done|by apply lease_sound|].
  by intros r (?%names_job_id&_)%claimable_spec.
Qed.

Lemma release_eval command now t :
  job_valid t →
  let id := cmd_nodeSyncJobId command in
  let p r := names_job command r && lease_expired now r in
  ∃ l, release_expired command now t = (Ok l, alter_selected p id (reclaim_row now) t) ∧
       job_valid (alter_selected p id (reclaim_row now) t).
Proof.
  intros Hv id p. eexists. eapply update_one; [done|by apply release_sound|].
  by intros r [?%names_job_id _]%andb_prop.
Qed.

Lemma close_eval ctx command now t :
  job_valid t →
  let id := cmd_nodeSyncJobId command in
  let p := closable ctx command now in
  close_superseded ctx command now t =
    (Ok (if selected p id t then from_option (λ r, [close_row now r]) [] (t !! id) else []),
     alter_selected p id (close_row now) t) ∧
  job_valid (alter_selected p id (close_row now) t).
Proof.
  intros Hv id p. eapply update_one; [done|by apply close_sound|].
  by intros r (e&q&_&?%names_job_id&_)%closable_spec.
Qed.
End store.

(** The two statements guarded by a lease. *)
Lemma job_fenced_eval max id owner token now (f : NodeSyncJob → NodeSyncJob) t :
  job_valid max t →
  sound_update job_checks job_terminal j_id (λ r, j_attempts r ≤ Z.max 0 max)
    (holds_lease id owner token now) f t →
  job_update (holds_lease id owner token now) f t =
    (Ok (if selected (holds_lease id owner token now) id t
         then from_option (λ r, [f r]) [] (t !! id) else []),
     alter_selected (holds_lease id owner token now) id f t).
Proof.
  intros Hv Hs. apply (update_one _ _ _ _ _ _ _ t Hv Hs). by intros r (Hid&_)%job_holds_lease_spec.
Qed.

Lemma fenced_valid delay max id owner token code now t :
  job_valid max t →
  job_valid max (alter_selected (holds_lease id owner token now) id (complete_row now) t) ∧
  job_valid max (alter_selected (holds_lease id owner token now) id (retry_row delay max code now) t).
Proof.
  intros Hv. split; (eapply update_one; [done| |by intros r (Hid&_)%job_holds_lease_spec]).
  - by apply complete_sound.
  - by apply job_retry_sound.
Qed.

Lemma complete_eval max id owner token now t :
  job_valid max t →
  complete id owner token now t =
    (Ok (selected (holds_lease id owner token now) id t),
     alter_selected (holds_lease id owner token now) id (complete_row now) t).
Proof.
  intros Hv. pose proof (job_fenced_eval max id owner token now _ t Hv (complete_sound _ _ _ _ _ t Hv)) as He.
  unfold complete. rewrite (bind_ok _ _ _ _ _ He). unfold selected.
  destruct (t !! id) as [r|]; [|done]. by destruct (holds_lease _ _ _ _ r).
Qed.

Lemma job_retry_eval delay max id owner token code now t :
  job_valid max t →
  retry delay max id owner token code now t =
    (Ok (if selected (holds_lease id owner token now) id t
         then from_option (λ r, if exhausted max r then RetryFailed else Retried) Fenced (t !! id)
         else Fenced),
     alter_selected (holds_lease id owner token now) id (retry_row delay max code now) t).
Proof.
  intros Hv.
  pose proof (job_fenced_eval max id owner token now _ t Hv (job_retry_sound delay _ _ _ _ code _ t Hv)) as He.
  unfold retry. rewrite (bind_ok _ _ _ _ _ He). unfold selected.
  destruct (t !! id) as [r|]; [|done]. destruct (holds_lease _ _ _ _ r); [|done]. simpl.
  by destruct (exhausted max r).
Qed.

(** ** Properties *)

Definition any_action (a : sync_action) : Prop := True.

(** The jobs of every table reached by any interleaving of the workers'
    statements satisfy the CHECK constraints and their attempt budget, no
    statement raises, and a SUCCEEDED or FAILED job never changes again. *)
Theorem node_sync_invariant lease delay max t :
  rtc (sync_step lease delay max any_action) ∅ t →
  table_valid job_checks t ∧
  (∀ id r, t !! id = Some r → j_attempts r ≤ Z.max 0 max) ∧
  (∀ a, ∃ l t', statement lease delay max a t = (Ok l, t')) ∧
  (∀ id r t', t !! id = Some r → job_terminal r = true →
     rtc (sync_step lease delay max any_action) t t' → t' !! id = Some r).
Proof.
  intros Hs. pose proof (sync_steps_valid lease delay max _ ∅ t (table_ok_empty _ _ _) Hs) as Hv.
  split_and!.
  - apply Hv.
  - apply Hv.
  - intros a. destruct (statement_eval lease delay max a t Hv) as [-> _]. eauto.
  - intros id r t' Hr Ht Hs'. by eapply sync_steps_terminal.
Qed.

(** The row a command names, when the command's resource is the row's. *)
Definition matches_command (command : NodeSyncRequestedEvent) (r : NodeSyncJob) : Prop :=
  j_id r = cmd_nodeSyncJobId command ∧ j_targetVersion r = cmd_targetVersion command ∧
  resourceMismatch command r = false.

(** What each outcome of [claim] tells the worker about the job, before and
    after. *)
Definition claim_means (lease max : Z) (command : NodeSyncRequestedEvent)
    (owner token : string) (now1 : Z) (ctx2 : SyncContext) (now2 : Z)
    (t t' : Table NodeSyncJob) (out : ClaimOutcome) : Prop :=
  let id := cmd_nodeSyncJobId command in
  match out with
  | JobClaimed id' token' =>
      id' = id ∧ token' = token ∧
      ∃ r r1, t !! id = Some r ∧
        r1 = (if names_job command r && lease_expired now1 r then reclaim_row max now1 r else r) ∧
        names_job command r1 = true ∧ joined ctx2 (cmd_resource command) r1 = true ∧
        j_status r1 = JOB_PENDING ∧ j_attempts r1 < max ∧
        t' !! id = Some (claim_row lease owner token now2 r1)
  | AlreadyCompleted =>
      ∃ r, t !! id = Some r ∧ t' !! id = Some r ∧ matches_command command r ∧
        j_status r = JOB_SUCCEEDED
  | Terminal =>
      ∃ r, t' !! id = Some r ∧ (matches_command command r → j_status r = JOB_FAILED)
  | Unavailable =>
      ∀ r, t' !! id = Some r → matches_command command r ∧ job_terminal r = false
  end.

Lemma existing_outcome_spec command t :
  table_ok job_checks j_id (λ _, True) t →
  let id := cmd_nodeSyncJobId command in
  match existing_outcome command t with
  | JobClaimed _ _ => False
  | AlreadyCompleted =>
      ∃ r, t !! id = Some r ∧ matches_command command r ∧ j_status r = JOB_SUCCEEDED
  | Terminal => ∃ r, t !! id = Some r ∧ (matches_command command r → j_status r = JOB_FAILED)
  | Unavailable => ∀ r, t !! id = Some r → matches_command command r ∧ job_terminal r = false
  end.
Proof.
  intros Hv id. unfold existing_outcome. fold id.
  destruct (t !! id) as [r|] eqn:Hr; [|done].
  pose proof (tk_keys _ _ _ _ Hv _ _ Hr) as Hk.
  destruct (resourceMismatch command r) eqn:Hm; simpl.
  { exists r. split; [done|]. unfold matches_command. intros (_&_&?). congruence. }
  destruct (Z.eqb_spec (j_targetVersion r) (cmd_targetVersion command)) as [Ht|Ht]; simpl.
  - assert (matches_command command r) by done.
    destruct (j_status r) eqn:Hst; try (intros r' [= <-]; split; [done|]; unfold job_terminal;
      by rewrite Hst); eauto.
  - exists r. split; [done|]. by intros (_&?&_).
Qed.

Lemma existing_outcome_means lease max command owner token now1 ctx2 now2 t :
  job_valid max t →
  let id := cmd_nodeSyncJobId command in
  let t1 := alter_selected (λ r, names_job command r && lease_expired now1 r) id
              (reclaim_row max now1) t in
  job_valid max t1 →
  claim_means lease max command owner token now1 ctx2 now2 t t1 (existing_outcome command t1).
Proof.
  intros Hv id t1 Hv1. pose proof (existing_outcome_spec command t1) as Hspec.
  destruct Hv1 as [Hc Hk Hg]. specialize (Hspec ltac:(by split)). cbv zeta in Hspec. fold id in Hspec.
  unfold claim_means. fold id. destruct (existing_outcome command t1) ; [done| |done|done].
  destruct Hspec as (r & Hr & Hm & Hst). exists r. split_and!; try done.
  unfold t1 in Hr. rewrite alter_selected_eq in Hr.
  destruct (t !! id) as [r0|] eqn:Hr0; simpl in Hr; [|done].
  destruct (_ && _); [|done]. injection Hr as <-. simpl in Hst.
  by destruct (exhausted max r0).
Qed.

Lemma claim_spec lease max t command owner token now1 ctx2 now2 ctx3 now3 :
  job_valid max t →
  ∃ out t', claim lease max command owner token now1 ctx2 now2 ctx3 now3 t = (Ok out, t') ∧
    job_valid max t' ∧
    claim_means lease max command owner token now1 ctx2 now2 t t' out ∧
    ∀ id, id ≠ cmd_nodeSyncJobId command → t' !! id = t !! id.
Proof.
  intros Hv.
  set (id := cmd_nodeSyncJobId command).
  destruct (release_eval max command now1 t Hv) as (l & He1 & Hv1). fold id in He1, Hv1.
  set (t1 := alter_selected _ id _ t) in *.
  assert (Hne : ∀ i, i ≠ id → t1 !! i = t !! i) by (intros i Hi; by apply alter_selected_ne).
  destruct (lease_eval lease max ctx2 command owner token now2 t1 Hv1) as [He2 Hv2].
  fold id in He2, Hv2. unfold claim.
  rewrite (bind_ok _ _ _ _ _ He1), (bind_ok _ _ _ _ _ He2).
  pose proof (alter_selected_eq (claimable max ctx2 command now2) id
    (claim_row lease owner token now2) t1) as Hr2.
  destruct (selected (claimable max ctx2 command now2) id t1) eqn:Hsel.
  { unfold selected in Hsel. destruct (t1 !! id) as [r1|] eqn:Hr1; [|done].
    simpl. eexists _, _. split; [done|]. split; [done|]. split.
    - simpl in Hr2. rewrite Hsel in Hr2. apply claimable_spec in Hsel as (Hn&Hj&Hst&Hatt&_).
      split; [by apply names_job_id in Hn|]. split; [done|].
      unfold t1 in Hr1. rewrite alter_selected_eq in Hr1.
      fold id. destruct (t !! id) as [r0|] eqn:Hr0; simpl in Hr1; [|done].
      exists r0, r1. split_and!; try done. congruence.
    - intros i Hi. rewrite alter_selected_ne by done. auto. }
  assert (Ht2 : alter_selected (claimable max ctx2 command now2) id
    (claim_row lease owner token now2) t1 = t1) by (unfold alter_selected; by rewrite Hsel).
  rewrite Ht2 in *. clear Ht2 Hr2 He2.
  assert (Hex : ∃ out t', (gets (existing_outcome command) : M _ DbError _) t1 = (Ok out, t') ∧
    job_valid max t' ∧ claim_means lease max command owner token now1 ctx2 now2 t t' out ∧
    ∀ id', id' ≠ id → t' !! id' = t !! id').
  { eexists _, _. split; [done|]. split; [done|]. split; [by apply existing_outcome_means|done]. }
  destruct (cmd_resource command) as [g|e p]; [done|].
  destruct (close_eval max ctx3 command now3 t1 Hv1) as [He3 Hv3]. fold id in He3, Hv3.
  rewrite (bind_ok _ _ _ _ _ He3).
  destruct (selected (closable ctx3 command now3) id t1) eqn:Hclose.
  - pose proof (alter_selected_eq (closable ctx3 command now3) id (close_row now3) t1) as Hr3.
    unfold selected in Hclose. destruct (t1 !! id) as [r1|] eqn:Hr1; [|done].
    simpl in *. rewrite Hclose in Hr3. eexists _, _. split; [done|]. split; [done|]. split.
    + by exists (close_row now3 r1).
    + intros i Hi. rewrite alter_selected_ne by done. auto.
  - unfold alter_selected. by rewrite Hclose.
Qed.

(** The outcome of [claim] is the truth about the named job and no other
    row changes.  A claimed job was the command's own, pending (or its lease
    had expired), within its attempt budget and not ahead of its node's
    desired version, and is now leased under the fresh token;
    [already-completed] is reported only for the command's own SUCCEEDED job;
    [terminal] only when the stored job is FAILED or names something else; and
    otherwise the job is absent or still open. *)
Theorem claim_outcome_sound lease delay max t command owner token now1 ctx2 now2 ctx3 now3 :
  rtc (sync_step lease delay max any_action) ∅ t →
  ∃ out t', claim lease max command owner token now1 ctx2 now2 ctx3 now3 t = (Ok out, t') ∧
    claim_means lease max command owner token now1 ctx2 now2 t t' out ∧
    ∀ id, id ≠ cmd_nodeSyncJobId command → t' !! id = t !! id.
Proof.
  intros Hs. pose proof (sync_steps_valid lease delay max _ ∅ t (table_ok_empty _ _ _) Hs) as Hv.
  destruct (claim_spec lease max t command owner token now1 ctx2 now2 ctx3 now3 Hv)
    as (out & t' & He & _ & Hm & Hne).
  by exists out, t'.
Qed.

(** The job [id] is leased to [owner] under [token], and the lease runs. *)
Definition lease_held (t : Table NodeSyncJob) (id owner token : string) (now : Z) (r : NodeSyncJob) : Prop :=
  t !! id = Some r ∧ j_status r = JOB_PROCESSING ∧ j_leaseOwner r = Some owner ∧
  j_leaseToken r = Some token ∧ ∃ e, j_leaseExpiresAt r = Some e ∧ now < e.
(** [r'] is [r] without its lease: what it is for and its attempts are the same. *)
Definition released (r r' : NodeSyncJob) : Prop :=
  j_leaseOwner r' = None ∧ j_leaseToken r' = None ∧ j_leaseExpiresAt r' = None ∧
  j_id r' = j_id r ∧ j_nodeId r' = j_nodeId r ∧ j_nodeAccessGrantId r' = j_nodeAccessGrantId r ∧
  j_routeEndpointId r' = j_routeEndpointId r ∧ j_routeConnectionProfileId r' = j_routeConnectionProfileId r ∧
  j_targetVersion r' = j_targetVersion r ∧ j_attempts r' = j_attempts r.

Lemma held_selected max t id owner token now :
  job_valid max t →
  if selected (holds_lease id owner token now) id t
  then ∃ r, lease_held t id owner token now r else ∀ r, ¬ lease_held t id owner token now r.
Proof.
  intros Hv. unfold selected. destruct (t !! id) as [r|] eqn:Hr.
  - destruct (holds_lease id owner token now r) eqn:Hh.
    + apply job_holds_lease_spec in Hh as (_ & Hh). by exists r.
    + intros r' (Hr' & Hh'). assert (r' = r) as -> by congruence.
      apply not_true_iff_false in Hh. apply Hh, job_holds_lease_spec. split; [by eapply tk_keys|done].
  - intros r (Hr' & _). congruence.
Qed.

Lemma alter_row {A} (f : A → A) (t : Table A) id r : t !! id = Some r → alter f id t = <[id := f r]> t.
Proof.
  intros Hr. apply map_eq. intros i. destruct (decide (i = id)) as [->|Hi].
  - by rewrite lookup_alter_eq, lookup_insert_eq, Hr.
  - by rewrite lookup_alter_ne, lookup_insert_ne.
Qed.

(** C36: only the worker whose lease runs completes or retries a job.  Its
    [complete] makes the job SUCCEEDED and its [retry] puts it back with a delay,
    or fails it when the attempts are used up; both give the lease up and change
    no other row.  For any other owner, token or time [complete] answers false,
    [retry] answers fenced, and nothing changes.  Once a job is no longer leased
    under a token, that is so for the token in every continuation in which it
    is not drawn again. *)
Theorem node_sync_fencing lease delay max t id token :
  rtc (sync_step lease delay max any_action) ∅ t →
  (∀ owner code now r, lease_held t id owner token now r →
     (∃ r', complete id owner token now t = (Ok true, <[id := r']> t) ∧ released r r' ∧
        j_status r' = JOB_SUCCEEDED ∧ j_completedAt r' = Some now) ∧
     (∃ r', released r r' ∧ j_lastErrorCode r' = Some code ∧
        if decide (max ≤ j_attempts r)
        then retry delay max id owner token code now t = (Ok RetryFailed, <[id := r']> t) ∧
             j_status r' = JOB_FAILED ∧ j_completedAt r' = Some now ∧ j_nextAttemptAt r' = None
        else retry delay max id owner token code now t = (Ok Retried, <[id := r']> t) ∧
             j_status r' = JOB_PENDING ∧ j_completedAt r' = None ∧ j_nextAttemptAt r' = Some (now + delay))) ∧
  (∀ owner code now, (∀ r, ¬ lease_held t id owner token now r) →
     complete id owner token now t = (Ok false, t) ∧
     retry delay max id owner token code now t = (Ok Fenced, t)) ∧
  ((∀ r, t !! id = Some r → j_leaseToken r ≠ Some token) →
   ∀ t', rtc (sync_step lease delay max (λ a, issues token a = false)) t t' →
   ∀ owner code now,
     complete id owner token now t' = (Ok false, t') ∧
     retry delay max id owner token code now t' = (Ok Fenced, t')).
Proof.
  intros Hs. pose proof (sync_steps_valid lease delay max _ ∅ t (table_ok_empty _ _ _) Hs) as Hv.
  assert (Hfenced : ∀ t', job_valid max t' → ∀ owner code now, (∀ r, ¬ lease_held t' id owner token now r) →
     complete id owner token now t' = (Ok false, t') ∧
     retry delay max id owner token code now t' = (Ok Fenced, t')).
  { intros t' Hv' owner code now Hno. rewrite (complete_eval max) by done. rewrite job_retry_eval by done.
    unfold alter_selected. pose proof (held_selected max t' id owner token now Hv') as Hsel.
    destruct (selected _ _ _); [|done]. destruct Hsel as [r Hr]. by destruct (Hno r). }
  split_and!; [|by apply Hfenced|].
  - intros owner code now r Hh. pose proof (held_selected max t id owner token now Hv) as Hsel.
    rewrite (complete_eval max) by done. rewrite job_retry_eval by done. unfold alter_selected.
    destruct (selected (holds_lease id owner token now) id t); [|by destruct (Hsel r)].
    destruct Hh as (Hr & _). rewrite Hr. split.
    + exists (complete_row now r). split; [by rewrite (alter_row _ _ _ _ Hr)|]. by split_and!.
    + exists (retry_row delay max code now r). split; [by split_and!|]. split; [done|].
      rewrite (alter_row _ _ _ _ Hr). simpl. unfold retry_row, exhausted.
      case_decide as Hm; [rewrite (proj2 (Z.leb_le _ _) Hm)|rewrite (proj2 (Z.leb_gt _ _)) by lia]; done.
  - intros Hno t' Hs' owner code now.
    pose proof (sync_steps_valid lease delay max _ t t' Hv Hs') as Hv'. apply Hfenced; [done|].
    intros r (Hr & _ & _ & Htok & _). revert Htok.
    by eapply (sync_steps_token lease delay max token t t').
Qed.

(** A superseded route activation is closed, never delivered: claiming an
    open, unleased job whose route has moved past its target version fails
    the job for good with [ROUTE_ACTIVATION_CLOSED] and reports [terminal]. *)
Theorem superseded_activation_is_closed lease delay max t command owner token ctx now e p r :
  rtc (sync_step lease delay max any_action) ∅ t →
  cmd_resource command = RouteResource e p →
  t !! cmd_nodeSyncJobId command = Some r → names_job command r = true →
  j_status r = JOB_PENDING → superseded ctx e p r = true →
  claim lease max command owner token now ctx now ctx now t =
    (Ok Terminal, <[cmd_nodeSyncJobId command := close_row now r]> t).
Proof.
  intros Hs Hres Hr Hn Hst Hsup.
  pose proof (sync_steps_valid lease delay max _ ∅ t (table_ok_empty _ _ _) Hs) as Hv.
  set (id := cmd_nodeSyncJobId command) in *.
  destruct (release_eval max command now t Hv) as (l & He1 & _). fold id in He1.
  assert (Hnl : lease_expired now r = false) by (unfold lease_expired; by rewrite Hst).
  unfold alter_selected, selected in He1. rewrite Hr, Hn, Hnl in He1. simpl in He1.
  unfold claim. rewrite (bind_ok _ _ _ _ _ He1).
  destruct (lease_eval lease max ctx command owner token now t Hv) as [He2 _]. fold id in He2.
  assert (Hj : joined ctx (cmd_resource command) r = false).
  { rewrite Hres. unfold superseded, joined in *. destruct (ctx_nodes ctx !! j_nodeId r); [|done].
    destruct (ctx_routes ctx !! (e, p)) as [route|]; [|done].
    rewrite !andb_true_iff, negb_true_iff, bool_decide_eq_false in Hsup.
    destruct Hsup as [[_ Hv'] _]. unfold sql_eq. destruct (rc_activationVersion route) as [v|].
    - rewrite (bool_decide_eq_false_2 (v = _)) by congruence. by rewrite !andb_false_r.
    - by rewrite !andb_false_r. }
  unfold alter_selected, selected in He2.
  rewrite Hr in He2. unfold claimable in He2. rewrite Hj, andb_false_r in He2. simpl in He2.
  rewrite (bind_ok _ _ _ _ _ He2), Hres.
  destruct (close_eval max ctx command now t Hv) as [He3 _]. fold id in He3.
  assert (Hgrant : j_nodeAccessGrantId r = None).
  { pose proof (tk_checks _ _ _ _ Hv _ _ Hr) as Hc. unfold job_checks in Hc.
    unfold names_job in Hn. rewrite Hres in Hn. simpl in Hn.
    destruct (j_nodeAccessGrantId r); [|done]. destruct (j_routeEndpointId r); simpl in *;
      rewrite ?andb_false_r in *; done. }
  assert (Hcl : closable ctx command now r = true).
  { apply closable_spec. exists e, p. by split_and!; auto. }
  unfold alter_selected, selected in He3. rewrite Hr, Hcl in He3. simpl in He3.
  rewrite (bind_ok _ _ _ _ _ He3). simpl. unfold mret, M_ret. f_equal.
  apply map_eq. intros i. destruct (decide (i = id)) as [->|Hi].
  - by rewrite lookup_alter_eq, lookup_insert_eq, Hr.
  - by rewrite lookup_alter_ne, lookup_insert_ne.
Qed.

Module NodeSyncExamples.
Definition new_job (grant endpoint profile : option string) : NodeSyncJob :=
  {| j_id := "j1"; j_nodeId := "n1"; j_nodeAccessGrantId := grant;
     j_routeEndpointId := endpoint; j_routeConnectionProfileId := profile;
     j_targetVersion := 3; j_status := JOB_PENDING; j_attempts := 0; j_nextAttemptAt := None;
     j_leaseOwner := None; j_leaseToken := None; j_leaseExpiresAt := None;
     j_lastErrorCode := None; j_completedAt := None; j_updatedAt := 0 |}.
Definition grant_job : NodeSyncJob := new_job (Some "g1"%string) None None.
Definition route_job : NodeSyncJob := new_job None (Some "e1"%string) (Some "p1"%string).
Definition grant_command : NodeSyncRequestedEvent :=
  {| cmd_resource := GrantResource "g1"; cmd_nodeSyncJobId := "j1"; cmd_targetVersion := 3 |}.
Definition route_command : NodeSyncRequestedEvent :=
  {| cmd_resource := RouteResource "e1" "p1"; cmd_nodeSyncJobId := "j1"; cmd_targetVersion := 3 |}.
(** The route has moved on to activation 4. *)
Definition context : SyncContext :=
  {| ctx_grants := {[ "g1"%string := {| gc_nodeId := "n1"; gc_desiredVersion := 3 |} ]};
     ctx_routes := {[ ("e1"%string, "p1"%string) :=
       {| rc_nodeId := "n1"; rc_activationVersion := Some 4; rc_lastActivationVersion := 4 |} ]};
     ctx_nodes := {[ "n1"%string := 4 ]} |}.

Lemma inserted job :
  j_id job = "j1"%string → job_checks job = true → j_status job = JOB_PENDING → j_attempts job = 0 →
  rtc (sync_step 30000 5000 3 any_action) ∅ (<["j1"%string := job]> ∅).
Proof. intros <- ???. apply rtc_once. by apply StepInsert. Qed.

Lemma node_sync_invariant_witness :
  table_valid job_checks (<["j1"%string := grant_job]> ∅).
Proof.
  exact (proj1 (node_sync_invariant 30000 5000 3 _
    (inserted grant_job eq_refl eq_refl eq_refl eq_refl))).
Defined.

Lemma claim_outcome_sound_witness :
  fst (claim 30000 3 grant_command "w1" "t1" 10 context 10 context 10
    (<["j1"%string := grant_job]> ∅)) = Ok (JobClaimed "j1" "t1") ∧
  ∃ out t', claim 30000 3 grant_command "w1" "t1" 10 context 10 context 10
    (<["j1"%string := grant_job]> ∅) = (Ok out, t').
Proof.
  split; [by vm_compute|].
  destruct (claim_outcome_sound 30000 5000 3 (<["j1"%string := grant_job]> ∅) grant_command
    "w1" "t1" 10 context 10 context 10 (inserted grant_job eq_refl eq_refl eq_refl eq_refl))
    as (out & t' & He & _).
  by exists out, t'.
Defined.

(** The job leased to "w1" under "t1": the lease completes it, another token does not. *)
Definition leased : Table NodeSyncJob :=
  snd (statement 30000 5000 3 (SLease context grant_command "w1" "t1" 10) (<["j1"%string := grant_job]> ∅)).
Lemma leased_reachable : rtc (sync_step 30000 5000 3 any_action) ∅ leased.
Proof.
  eapply rtc_r; [exact (inserted grant_job eq_refl eq_refl eq_refl eq_refl)|]. by apply StepStatement.
Qed.
Lemma leased_held : lease_held leased "j1" "w1" "t1" 20 (claim_row 30000 "w1" "t1" 10 grant_job).
Proof.
  split; [vm_compute; reflexivity|]. split_and!; [reflexivity..|]. exists 30010. by split.
Qed.
Lemma node_sync_fencing_witness :
  (∃ t', complete "j1" "w1" "t1" 20 leased = (Ok true, t')) ∧
  complete "j1" "w1" "t0" 20 leased = (Ok false, leased) ∧
  retry 5000 3 "j1" "w2" "t1" "E" 20 leased = (Ok Fenced, leased).
Proof.
  split_and!.
  - destruct (proj1 (node_sync_fencing 30000 5000 3 leased "j1" "t1" leased_reachable) "w1" "E" 20
      _ leased_held)%string as [(r' & Hc & _) _]. by eexists.
  - refine (proj1 (proj2 (proj2 (node_sync_fencing 30000 5000 3 leased "j1" "t0" leased_reachable))
      _ _ (rtc_refl _ _) "w1" "E" 20))%string.
    intros r Hr Ht. assert (r = claim_row 30000 "w1" "t1" 10 grant_job) as -> by (pose proof leased_held as (H & _); congruence).
    discriminate Ht.
  - refine (proj2 (proj1 (proj2 (node_sync_fencing 30000 5000 3 leased "j1" "t1" leased_reachable))
      "w2" "E" 20 _))%string.
    intros r (Hr & _ & Ho & _).
    assert (r = claim_row 30000 "w1" "t1" 10 grant_job) as -> by (pose proof leased_held as (H & _); congruence).
    discriminate Ho.
Defined.

Lemma superseded_activation_is_closed_witness :
  claim 30000 3 route_command "w1" "t1" 10 context 10 context 10 (<["j1"%string := route_job]> ∅) =
    (Ok Terminal, <["j1"%string := close_row 10 route_job]> (<["j1"%string := route_job]> ∅)).
Proof.
  exact (superseded_activation_is_closed 30000 5000 3 _ route_command "w1" "t1" context 10
    "e1" "p1" route_job (inserted route_job eq_refl eq_refl eq_refl eq_refl)
    eq_refl eq_refl eq_refl eq_refl eq_refl).
Defined.
End NodeSyncExamples.
