(* ===== verification/Worker.v ===== *)
(** * The worker: [apps/worker/src/outbox-publisher.ts] and
    [apps/worker/src/node-sync-processor.ts]

    Both are written against the store interfaces of
    packages/orchestration-store ([OutboxStore], [NodeSyncStore]), here type
    classes of operations with what they promise; their theorems hold for
    every store that keeps the promises, and [PrismaOutbox] shows that
    [PrismaOutboxStore] does.  The queue (BullMQ) and the check of a UUID's
    text (zod) are parameters. *)

From S2P Require Import Prelude.
From S2P Require Import Json.
From S2P Require Import Sql.
From S2P Require Import OutboxStore.
From S2P Require NodeSyncStore.
Open Scope Z_scope.

(** ** The wire format: [nodeSyncRequestedEventSchema] *)
Section wire.
Context (is_uuid : string → bool).

Definition zod_uuid (j : json) : option string :=
  s ← zod_string j; guard (is_uuid s);; Some s.

Definition nodeAccessGrantSyncRequestedEventSchema (j : json)
    : option NodeSyncStore.NodeSyncRequestedEvent :=
  m ← zod_object j;
  guard (strict_keys ["nodeAccessGrantId"; "nodeSyncJobId"; "targetVersion"]%string m);;
  grant ← field m "nodeAccessGrantId"%string zod_uuid;
  job ← field m "nodeSyncJobId"%string zod_uuid;
  version ← field m "targetVersion"%string (zod_int_min 0);
  Some (NodeSyncStore.Build_NodeSyncRequestedEvent (NodeSyncStore.GrantResource grant) job version).

Definition connectionRouteSyncRequestedEventSchema (j : json)
    : option NodeSyncStore.NodeSyncRequestedEvent :=
  m ← zod_object j;
  guard (strict_keys ["routeEndpointId"; "routeConnectionProfileId"; "nodeSyncJobId";
                      "targetVersion"]%string m);;
  endpoint ← field m "routeEndpointId"%string zod_uuid;
  profile ← field m "routeConnectionProfileId"%string zod_uuid;
  job ← field m "nodeSyncJobId"%string zod_uuid;
  version ← field m "targetVersion"%string (zod_int_min 1);
  Some (NodeSyncStore.Build_NodeSyncRequestedEvent
    (NodeSyncStore.RouteResource endpoint profile) job version).

(** [z.union]: the first schema that accepts. *)
Definition nodeSyncRequestedEventSchema (j : json) : option NodeSyncStore.NodeSyncRequestedEvent :=
  match nodeAccessGrantSyncRequestedEventSchema j with
  | Some e => Some e
  | None => connectionRouteSyncRequestedEventSchema j
  end.
End wire.

Definition node_sync_topic : string := "node-sync.requested".

(** ** The outbox store as the publisher sees it *)

(** The operations may also fail with an error [E] of the database client. *)
Class OutboxStoreOps (S E : Type) := {
  os_reclaimExpiredLeases : M S E Z;
  os_claimNext : string → M S E (option ClaimedOutboxEvent);
  os_markPublished : string → string → string → M S E bool;
  os_retry : string → string → string → string → M S E bool;
}.

(** What it promises: only [markPublished] publishes, and only the event it
    was asked for; when it returns false nothing was published. *)
Class OutboxStoreLaws (S E : Type) `{OutboxStoreOps S E} := {
  os_ok : S → Prop;
  os_published : S → string → Prop;
  os_reclaim_keeps P : triple (λ s, os_ok s ∧ ∀ id, os_published s id → P id)
    os_reclaimExpiredLeases (λ _ s, os_ok s ∧ ∀ id, os_published s id → P id)
    (λ _ s, os_ok s ∧ ∀ id, os_published s id → P id);
  os_claim_keeps P owner : triple (λ s, os_ok s ∧ ∀ id, os_published s id → P id)
    (os_claimNext owner) (λ _ s, os_ok s ∧ ∀ id, os_published s id → P id)
    (λ _ s, os_ok s ∧ ∀ id, os_published s id → P id);
  os_retry_keeps P id owner token code : triple (λ s, os_ok s ∧ ∀ id, os_published s id → P id)
    (os_retry id owner token code) (λ _ s, os_ok s ∧ ∀ id, os_published s id → P id)
    (λ _ s, os_ok s ∧ ∀ id, os_published s id → P id);
  os_publish_law (P : string → Prop) id owner token : P id →
    triple (λ s, os_ok s ∧ ∀ i, os_published s i → P i)
    (os_markPublished id owner token)
    (λ b s, os_ok s ∧ (∀ i, os_published s i → P i) ∧ (b = true → os_published s id))
    (λ _ s, os_ok s ∧ ∀ i, os_published s i → P i);
}.

(** ** The publisher *)

Record BullMqJobRetention := {
  removeOnComplete_age : Z; removeOnComplete_count : Z;
  removeOnFail_age : Z; removeOnFail_count : Z;
}.

Record BullMqJobRetentionConfig := {
  completedAgeSeconds : Z; completedCount : Z; failedAgeSeconds : Z; failedCount : Z;
}.
Definition createBullMqJobRetention (config : BullMqJobRetentionConfig) : BullMqJobRetention :=
  {| removeOnComplete_age := completedAgeSeconds config;
     removeOnComplete_count := completedCount config;
     removeOnFail_age := failedAgeSeconds config;
     removeOnFail_count := failedCount config |}.
Definition defaultBullMqJobRetention : BullMqJobRetention := createBullMqJobRetention
  {| completedAgeSeconds := 7 * 24 * 60 * 60; completedCount := 10000;
     failedAgeSeconds := 30 * 24 * 60 * 60; failedCount := 10000 |}.

(** One call of [queue.add]: the job and its options. *)
Record QueueJob := {
  qj_name : string;
  qj_data : NodeSyncStore.NodeSyncRequestedEvent;
  qj_retention : BullMqJobRetention;
  qj_jobId : string;
  qj_attempts : Z;
  qj_backoff_fixed_delay : option Z;
}.

Inductive PublishOutcome := Idle | Published | PublishRetried | PublishFenced.

(** What the body of the [try] can throw. *)
Inductive PublisherError (E : Type) :=
| UnsupportedTopicError
| InvalidPayloadError
| Rejected (e : E).
Arguments UnsupportedTopicError {E}.
Arguments InvalidPayloadError {E}.
Arguments Rejected {E} e.

Definition publisher_error_code {E} (error : PublisherError E) : string :=
  match error with
  | UnsupportedTopicError => "OUTBOX_UNSUPPORTED_TOPIC"
  | InvalidPayloadError => "OUTBOX_INVALID_PAYLOAD"
  | Rejected _ => "OUTBOX_PUBLISH_FAILED"
  end%string.

(** The store and the queue are separate: a call to one leaves the other. *)
Definition on_store {S Q E A} (m : M S E A) : M (S * Q) (PublisherError E) A := λ w,
  match m (fst w) with
  | (Ok a, s') => (Ok a, (s', snd w))
  | (Throw e, s') => (Throw (Rejected e), (s', snd w))
  end.
Definition on_queue {S Q E A} (m : M Q E A) : M (S * Q) (PublisherError E) A := λ w,
  match m (snd w) with
  | (Ok a, q') => (Ok a, (fst w, q'))
  | (Throw e, q') => (Throw (Rejected e), (fst w, q'))
  end.

Lemma triple_on_store {S Q E A} (m : M S E A) (P : S * Q → Prop) R X :
  (∀ q, triple (λ s, P (s, q)) m (λ a s, R a (s, q)) (λ e s, X (Rejected e) (s, q))) →
  triple P (on_store m) R X.
Proof.
  intros H [s q] HP. specialize (H q s HP). unfold on_store. simpl.
  by destruct (m s) as [[a|e] s'].
Qed.

Lemma triple_on_queue {S Q E A} (m : M Q E A) (P : S * Q → Prop) R X :
  (∀ s, triple (λ q, P (s, q)) m (λ a q, R a (s, q)) (λ e q, X (Rejected e) (s, q))) →
  triple P (on_queue m) R X.
Proof.
  intros H [s q] HP. specialize (H s q HP). unfold on_queue. simpl.
  by destruct (m q) as [[a|e] q'].
Qed.

Section publisher.
Context {S Q E : Type} `{OutboxStoreOps S E}.
(** [queue.add] of BullMQ. *)
Context (queue_add : QueueJob → M Q E unit) (is_uuid : string → bool).
(** The constructor's arguments. *)
Context (leaseOwner : string) (deliveryAttempts deliveryRetryDelayMs : Z)
  (jobRetention : BullMqJobRetention).

Notation PubM := (M (S * Q) (PublisherError E)).

Definition queue_job (event : ClaimedOutboxEvent) (payload : NodeSyncStore.NodeSyncRequestedEvent)
    : QueueJob :=
  {| qj_name := ce_topic event; qj_data := payload; qj_retention := jobRetention;
     qj_jobId := ce_id event; qj_attempts := deliveryAttempts;
     qj_backoff_fixed_delay :=
       if 0 <? deliveryRetryDelayMs then Some deliveryRetryDelayMs else None |}.

(** The body of the [try]. *)
Definition publish (event : ClaimedOutboxEvent) : PubM PublishOutcome :=
  throw_if (negb (bool_decide (ce_topic event = node_sync_topic)))
    (UnsupportedTopicError (E:=E));;
  match nodeSyncRequestedEventSchema is_uuid (ce_payload event) with
  | None => throw InvalidPayloadError
  | Some payload =>
      on_queue (queue_add (queue_job event payload));;
      published ← on_store (os_markPublished (ce_id event) leaseOwner (ce_leaseToken event));
      mret (if published : bool then Published else PublishFenced)
  end.

Definition processOne : PubM PublishOutcome :=
  on_store os_reclaimExpiredLeases;;
  event ← on_store (os_claimNext leaseOwner);
  match event : option ClaimedOutboxEvent with
  | None => mret Idle
  | Some event =>
      try_catch (publish event) (λ error,
        retried ← on_store (os_retry (ce_id event) leaseOwner (ce_leaseToken event)
                              (publisher_error_code error));
        mret (if retried : bool then PublishRetried else PublishFenced))
  end.

Section laws.
Context `{!OutboxStoreLaws S E}.
(** Delivery: an accepted job is in the queue under its id, and no call
    forgets a delivered one. *)
Context (delivered : Q → string → Prop).
Hypothesis queue_add_law : ∀ (D : string → Prop) job,
  triple (λ q, ∀ id, D id → delivered q id) (queue_add job)
    (λ _ q, (∀ id, D id → delivered q id) ∧ delivered q (qj_jobId job))
    (λ _ q, ∀ id, D id → delivered q id).

Definition published_delivered (w : S * Q) : Prop :=
  os_ok (fst w) ∧ ∀ id, os_published (fst w) id → delivered (snd w) id.

Lemma publish_spec event :
  triple published_delivered (publish event)
    (λ out w, published_delivered w ∧
       (out = Published → os_published (fst w) (ce_id event))) (λ _, published_delivered).
Proof.
  unfold publish. eapply triple_bind.
  { unfold throw_if. apply triple_if; intros _; [by apply triple_throw|].
    by apply (triple_ret tt _ (λ _, published_delivered)). }
  intros []. destruct (nodeSyncRequestedEventSchema _ _) as [payload|]; [|by apply triple_throw].
  eapply (triple_bind _ _ _ (λ _ w, published_delivered w ∧ delivered (snd w) (ce_id event))).
  { apply triple_on_queue. intros s q [Hok Hd]. simpl in *.
    pose proof (queue_add_law (os_published s) (queue_job event payload) q Hd) as Hq.
    destruct (queue_add _ q) as [[a|e] q']; simpl in *; unfold published_delivered; simpl; naive_solver. }
  intros []. eapply (triple_bind _ _ _ (λ b w, published_delivered w ∧
    (b = true → os_published (fst w) (ce_id event)))).
  { apply triple_on_store. intros q s [[Hok Hd] Hin]. simpl in *.
    pose proof (os_publish_law (delivered q) _ leaseOwner (ce_leaseToken event) Hin s (conj Hok Hd)) as Hp.
    destruct (os_markPublished _ _ _ s) as [[b|e] s']; unfold published_delivered; simpl in *;
      naive_solver. }
  intros b. apply triple_mret. intros w [Hw Hb]. split; [done|]. destruct b; [auto|done].
Qed.

Lemma keeps_published_delivered {A} (m : M S E A) :
  (∀ P : string → Prop, triple (λ s, os_ok s ∧ ∀ id, os_published s id → P id) m
    (λ _ s, os_ok s ∧ ∀ id, os_published s id → P id)
    (λ _ s, os_ok s ∧ ∀ id, os_published s id → P id)) →
  triple published_delivered (on_store m) (λ _, published_delivered) (λ _, published_delivered).
Proof. intros Hm. apply triple_on_store. intros q. exact (Hm (delivered q)). Qed.

Lemma processOne_spec :
  triple published_delivered processOne (λ _, published_delivered) (λ _, published_delivered).
Proof.
  unfold processOne. eapply triple_bind.
  { apply keeps_published_delivered. intros P. apply os_reclaim_keeps. }
  intros n. eapply triple_bind.
  { apply keeps_published_delivered. intros P. apply os_claim_keeps. }
  intros [event|]; [|by apply triple_mret].
  eapply triple_try.
  { eapply triple_weaken; [apply publish_spec|done|by intros ?? []|done]. }
  intros e. eapply triple_bind.
  { apply keeps_published_delivered. intros P. apply os_retry_keeps. }
  intros b. by apply triple_mret.
Qed.

(** Any number of rounds of the publisher, whatever each returns. *)
Fixpoint publisher_rounds (n : nat) (w : S * Q) : S * Q :=
  match n with
  | O => w
  | Datatypes.S n' => publisher_rounds n' (snd (processOne w))
  end.

Lemma processOne_keeps w : published_delivered w → published_delivered (snd (processOne w)).
Proof.
  intros Hw. pose proof (processOne_spec w Hw) as Ho. by destruct (processOne w) as [[]].
Qed.

(** An event is marked PUBLISHED only after the queue has accepted it:
    if every published event was delivered, that stays so through any number
    of rounds of the publisher, whatever fails in them (the store, the queue,
    the topic, the payload, or a lost lease). *)
Theorem publisher_delivers_before_publishing w n :
  published_delivered w → published_delivered (publisher_rounds n w).
Proof. revert w. induction n; intros w Hw; simpl; auto using processOne_keeps. Qed.
End laws.

(** A claimed event with an unknown topic or a payload outside the schema
    never reaches the queue; it is retried with the code of its error, and the
    result tells whether the lease still stood. *)
Theorem publisher_rejects_malformed s q s1 n s2 event :
  os_reclaimExpiredLeases s = (Ok n, s1) →
  os_claimNext leaseOwner s1 = (Ok (Some event), s2) →
  (ce_topic event ≠ node_sync_topic ∨
   nodeSyncRequestedEventSchema is_uuid (ce_payload event) = None) →
  let code := (if bool_decide (ce_topic event = node_sync_topic)
               then "OUTBOX_INVALID_PAYLOAD" else "OUTBOX_UNSUPPORTED_TOPIC")%string in
  processOne (s, q) =
    match os_retry (ce_id event) leaseOwner (ce_leaseToken event) code s2 with
    | (Ok true, s3) => (Ok PublishRetried, (s3, q))
    | (Ok false, s3) => (Ok PublishFenced, (s3, q))
    | (Throw e, s3) => (Throw (Rejected e), (s3, q))
    end.
Proof.
  intros H1 H2 Hbad code. unfold processOne.
  rewrite (bind_ok _ _ (s, q) n (s1, q)) by (unfold on_store; simpl; by rewrite H1).
  rewrite (bind_ok _ _ (s1, q) (Some event) (s2, q)) by (unfold on_store; simpl; by rewrite H2).
  assert (Hp : ∃ e, publish event (s2, q) = (Throw e, (s2, q)) ∧ publisher_error_code e = code).
  { unfold publish, throw_if, code. case_bool_decide as Ht; simpl.
    - destruct Hbad as [?|Hn]; [done|]. rewrite Hn. by exists InvalidPayloadError.
    - by exists UnsupportedTopicError. }
  destruct Hp as (e & Hp & Hcode). unfold try_catch. rewrite Hp, Hcode.
  unfold mbind, M_bind, on_store. simpl. by destruct (os_retry _ _ _ _ s2) as [[[]|] s3].
Qed.
End publisher.

(** ** [PrismaOutboxStore] is such a store *)
Section prisma.
Context (leaseDurationMs retryDelayMs maxAttempts : Z) (eventIds : option (list string)).
(** The clock reading of each statement, the tokens [randomUUID()] draws, and
    the rows other transactions hold. *)
Context (clock : nat → Z) (randomUUID : nat → string) (locked : nat → string → bool).

Record PrismaOutbox := { po_table : Table OutboxEvent; po_tick : nat }.

Definition po_statement {A} (m : nat → M (Table OutboxEvent) DbError A) : M PrismaOutbox DbError A :=
  λ s, let '(r, t') := m (po_tick s) (po_table s) in
       (r, {| po_table := t'; po_tick := Datatypes.S (po_tick s) |}).

#[export] Instance prisma_outbox_ops : OutboxStoreOps PrismaOutbox DbError := {|
  os_reclaimExpiredLeases :=
    po_statement (λ n, reclaimExpiredLeases maxAttempts eventIds (clock n));
  os_claimNext owner := po_statement (λ n,
    claimNext leaseDurationMs maxAttempts eventIds owner (randomUUID n) (clock n) (locked n));
  os_markPublished id owner token := po_statement (λ n, markPublished id owner token (clock n));
  os_retry id owner token code := po_statement (λ n,
    retry retryDelayMs maxAttempts id owner token code (clock n)) |}.

Definition po_ok (s : PrismaOutbox) : Prop := outbox_valid maxAttempts (po_table s).
Definition po_published (s : PrismaOutbox) (id : string) : Prop :=
  ∃ r, po_table s !! id = Some r ∧ oe_status r = PUBLISHED.

Lemma row_step_published a r r' :
  row_step leaseDurationMs retryDelayMs maxAttempts eventIds a r r' → oe_status r' = PUBLISHED →
  oe_status r = PUBLISHED ∨ ∃ owner token now, a = APublished (oe_id r) owner token now.
Proof.
  intros [|now r0 H|owner token now lk r0 H|id owner token now r0 H|id owner token code now r0 H];
    simpl; auto.
  - by destruct (exhausted _ _).
  - done.
  - apply holds_lease_spec in H as (<-&_). eauto.
  - by destruct (exhausted _ _).
Qed.

(** A statement that is an action of the outbox publishes at most what the
    action names. *)
Lemma po_statement_published {A} a (m : nat → M (Table OutboxEvent) DbError A) (f : A → outbox_result)
    (P : string → Prop) s :
  po_ok s → (∀ id, po_published s id → P id) →
  (∀ id owner token now, a = APublished id owner token now → P id) →
  (perform leaseDurationMs retryDelayMs maxAttempts eventIds a =
     (x ← m (po_tick s); mret (f x))) →
  po_ok (snd (po_statement m s)) ∧ ∀ id, po_published (snd (po_statement m s)) id → P id.
Proof.
  intros Hok HP Ha Hm.
  destruct (perform_sound leaseDurationMs retryDelayMs maxAttempts eventIds a _ Hok)
    as (_&Hv&Hold&Hnew). rewrite Hm in *.
  assert (Hs : snd ((x ← m (po_tick s); mret (f x)) (po_table s)) = po_table (snd (po_statement m s))).
  { unfold po_statement, mbind, M_bind. by destruct (m (po_tick s) (po_table s)) as [[]]. }
  rewrite Hs in *. split; [done|]. intros id (r' & Hr' & Hst).
  destruct (po_table s !! id) as [r|] eqn:Hr.
  - destruct (Hold _ _ Hr) as (r1 & Hr1 & Hstep). assert (r1 = r') as -> by congruence.
    destruct (row_step_published _ _ _ Hstep Hst) as [?|(owner&token&now&Ha')].
    + apply HP. by exists r.
    + apply (Ha _ _ _ _) in Ha'. by rewrite (tk_keys _ _ _ _ Hok _ _ Hr) in Ha'.
  - by destruct (Hnew _ _ Hr Hr') as (?&?&?&->).
Qed.

#[export] Program Instance prisma_outbox_laws : OutboxStoreLaws PrismaOutbox DbError := {|
  os_ok := po_ok; os_published := po_published |}.
Next Obligation.
  intros P s [Hok HP].
  pose proof (po_statement_published (AReclaim (clock (po_tick s)))
    (λ n, reclaimExpiredLeases maxAttempts eventIds (clock n)) RReclaimed P s Hok HP
    ltac:(done) eq_refl) as H. simpl. by destruct (po_statement _ s) as [[] s'].
Qed.
Next Obligation.
  intros P owner s [Hok HP].
  pose proof (po_statement_published (AClaim owner (randomUUID (po_tick s)) (clock (po_tick s))
    (locked (po_tick s))) (λ n, claimNext leaseDurationMs maxAttempts eventIds owner
      (randomUUID n) (clock n) (locked n)) RClaimed P s Hok HP ltac:(done) eq_refl) as H.
  simpl. by destruct (po_statement _ s) as [[] s'].
Qed.
Next Obligation.
  intros P id owner token code s [Hok HP].
  pose proof (po_statement_published (ARetry id owner token code (clock (po_tick s)))
    (λ n, retry retryDelayMs maxAttempts id owner token code (clock n)) RRetried P s Hok HP ltac:(done) eq_refl) as H.
  simpl. by destruct (po_statement _ s) as [[] s'].
Qed.
Next Obligation.
  intros P id owner token Hid s [Hok HP].
  pose proof (po_statement_published (APublished id owner token (clock (po_tick s)))
    (λ n, markPublished id owner token (clock n)) RPublished P s Hok HP
    ltac:(intros i o k n' [= <- _ _ _]; exact Hid) eq_refl) as H.
  destruct (published_eval maxAttempts id owner token (clock (po_tick s)) _ Hok) as [He _].
  destruct H as [H1 H2]. simpl. unfold po_statement in *. rewrite He in *.
  split; [exact H1|]. split; [exact H2|]. intros Hh. unfold po_published, if_held, alter_selected. simpl.
  fold (held id owner token (clock (po_tick s)) (po_table s)). rewrite Hh.
  unfold held, selected in Hh. destruct (po_table s !! id) as [r|] eqn:Hr; [|done].
  exists (published_row (clock (po_tick s)) r). by rewrite lookup_alter_eq, Hr.
Qed.
End prisma.

(** ** The node synchronisation processor *)

Import NodeSyncStore.

Class NodeSyncStoreOps (S E : Type) := {
  ns_claim : NodeSyncRequestedEvent → string → M S E ClaimOutcome;
  ns_complete : string → string → string → M S E bool;
  ns_retry : string → string → string → string → M S E RetryOutcome;
}.

(** What it promises: [already-completed] and [terminal] are the truth about
    the command's job, a claim is for the command's job, and a completion
    that returns true leaves the job SUCCEEDED. *)
Class NodeSyncStoreLaws (S E : Type) `{NodeSyncStoreOps S E} := {
  ns_ok : S → Prop;
  ns_succeeded : S → string → Prop;
  ns_closed : S → NodeSyncRequestedEvent → Prop;
  ns_claim_law command owner : triple ns_ok (ns_claim command owner)
    (λ out s, ns_ok s ∧
       match out with
       | AlreadyCompleted => ns_succeeded s (cmd_nodeSyncJobId command)
       | Terminal => ns_closed s command
       | JobClaimed id _ => id = cmd_nodeSyncJobId command
       | Unavailable => True
       end) (λ _, ns_ok);
  ns_complete_law id owner token : triple ns_ok (ns_complete id owner token)
    (λ b s, ns_ok s ∧ (b = true → ns_succeeded s id)) (λ _, ns_ok);
  ns_retry_law id owner token code : triple ns_ok (ns_retry id owner token code)
    (λ _, ns_ok) (λ _, ns_ok);
}.

Inductive ProcessorError (E : Type) :=
| UnsupportedJob | InvalidJobPayload | TemporarilyUnavailable | CompletionFenced
| StoreError (e : E).
Arguments UnsupportedJob {E}.
Arguments InvalidJobPayload {E}.
Arguments TemporarilyUnavailable {E}.
Arguments CompletionFenced {E}.
Arguments StoreError {E} e.

(** [Pick<Job, 'name' | 'data'>] *)
Record Job := { job_name : string; job_data : json }.

Definition store_call {S E A} (m : M S E A) : M S (ProcessorError E) A := λ s,
  match m s with
  | (Ok a, s') => (Ok a, s')
  | (Throw e, s') => (Throw (StoreError e), s')
  end.

Lemma triple_store_call {S E A} (m : M S E A) P R (X : ProcessorError E → S → Prop) :
  triple P m R (λ e, X (StoreError e)) → triple P (store_call m) R X.
Proof. intros H s HP. specialize (H s HP). unfold store_call. by destruct (m s) as [[]]. Qed.

Section processor.
Context {S E : Type} `{NodeSyncStoreOps S E}.
Context (is_uuid : string → bool) (leaseOwner : string).

Definition process (job : Job) : M S (ProcessorError E) unit :=
  throw_if (negb (bool_decide (job_name job = node_sync_topic))) (UnsupportedJob (E:=E));;
  match nodeSyncRequestedEventSchema is_uuid (job_data job) with
  | None => throw InvalidJobPayload
  | Some command =>
      claimed ← store_call (ns_claim command leaseOwner);
      match claimed with
      | AlreadyCompleted | Terminal => mret tt
      | Unavailable => throw TemporarilyUnavailable
      | JobClaimed id token =>
          try_catch
            (completed ← store_call (ns_complete id leaseOwner token);
             if completed : bool then mret tt else throw CompletionFenced)
            (λ error,
               store_call (ns_retry id leaseOwner token "NODE_SYNC_PROCESSING_FAILED");;
               throw error)
      end
  end.

(** A queue job is acknowledged (processed without an error) only when
    its command is settled: its node-sync job is SUCCEEDED, or the store has
    closed it.  Every other outcome is an error, so the queue delivers it
    again. *)
Theorem processor_acknowledges_settled_jobs `{!NodeSyncStoreLaws S E} job :
  triple ns_ok (process job)
    (λ _ s, ns_ok s ∧ ∃ command,
       nodeSyncRequestedEventSchema is_uuid (job_data job) = Some command ∧
       (ns_succeeded s (cmd_nodeSyncJobId command) ∨ ns_closed s command))
    (λ _, ns_ok).
Proof.
  unfold process. eapply triple_bind.
  { unfold throw_if. apply triple_if; intros _; [by apply triple_throw|].
    by apply (triple_ret tt _ (λ _, ns_ok)). }
  intros []. destruct (nodeSyncRequestedEventSchema _ _) as [command|]; [|by apply triple_throw].
  eapply triple_bind; [apply triple_store_call, ns_claim_law|].
  intros [id token| | |].
  - apply triple_pure. intros ->. eapply (triple_try _ _ _ _ (λ _, ns_ok)).
    + eapply triple_bind; [apply triple_store_call, ns_complete_law|].
      intros [|]; [|by apply triple_throw; intros s [??]].
      apply triple_mret. intros s [Hok Hc]. split; [done|]. exists command. auto.
    + intros e. eapply triple_bind; [apply triple_store_call, ns_retry_law|].
      intros o. by apply triple_throw.
  - apply triple_mret. intros s [Hok Hc]. eauto.
  - apply triple_mret. intros s [Hok Hc]. eauto.
  - by apply triple_throw; intros s [??].
Qed.
End processor.

(** ** [PrismaNodeSyncStore] is such a store *)
Section prisma_jobs.
Context (leaseDurationMs retryDelayMs maxAttempts : Z).
(** The clock reading and the joined tables of the n-th call (three readings
    for a claim), and the tokens drawn. *)
Context (clock : nat → Z * Z * Z) (context : nat → SyncContext * SyncContext)
  (randomUUID : nat → string).

Record PrismaJobs := { pj_table : Table NodeSyncJob; pj_tick : nat }.

Definition pj_statement {A} (m : nat → M (Table NodeSyncJob) DbError A) : M PrismaJobs DbError A :=
  λ s, let '(r, t') := m (pj_tick s) (pj_table s) in
       (r, {| pj_table := t'; pj_tick := Datatypes.S (pj_tick s) |}).

#[export] Instance prisma_jobs_ops : NodeSyncStoreOps PrismaJobs DbError := {|
  ns_claim command owner := pj_statement (λ n,
    claim leaseDurationMs maxAttempts command owner (randomUUID n)
      (clock n).1.1 (context n).1 (clock n).1.2 (context n).2 (clock n).2);
  ns_complete id owner token := pj_statement (λ n, complete id owner token (clock n).1.1);
  ns_retry id owner token code := pj_statement (λ n,
    retry retryDelayMs maxAttempts id owner token code (clock n).1.1) |}.

Definition pj_ok (s : PrismaJobs) : Prop := job_valid maxAttempts (pj_table s).
Definition pj_succeeded (s : PrismaJobs) (id : string) : Prop :=
  ∃ r, pj_table s !! id = Some r ∧ j_status r = JOB_SUCCEEDED.
(** The stored job is FAILED, or is not the one the command names. *)
Definition pj_closed (s : PrismaJobs) (command : NodeSyncRequestedEvent) : Prop :=
  ∃ r, pj_table s !! cmd_nodeSyncJobId command = Some r ∧
       (matches_command command r → j_status r = JOB_FAILED).

#[export] Program Instance prisma_jobs_laws : NodeSyncStoreLaws PrismaJobs DbError := {|
  ns_ok := pj_ok; ns_succeeded := pj_succeeded; ns_closed := pj_closed |}.
Next Obligation.
  intros command owner s Hok. simpl. unfold pj_statement.
  destruct (claim_spec leaseDurationMs maxAttempts (pj_table s) command owner
    (randomUUID (pj_tick s)) (clock (pj_tick s)).1.1 (context (pj_tick s)).1
    (clock (pj_tick s)).1.2 (context (pj_tick s)).2 (clock (pj_tick s)).2 Hok)
    as (out & t' & -> & Hv & Hm & _).
  split; [done|]. destruct out; simpl in Hm; [by destruct Hm as [-> _]| |done|done].
  destruct Hm as (r & _ & Hr & _ & Hst). by exists r.
Qed.
Next Obligation.
  intros id owner token s Hok. simpl. unfold pj_statement.
  rewrite (complete_eval maxAttempts) by done.
  destruct (fenced_valid retryDelayMs maxAttempts id owner token ""
    (clock (pj_tick s)).1.1 (pj_table s) Hok) as [Hv _].
  split; [done|]. intros Hsel. unfold pj_succeeded. cbn [pj_table].
  rewrite alter_selected_eq. unfold selected in Hsel.
  destruct (pj_table s !! id) as [r|]; [|done]. simpl. rewrite Hsel. eauto.
Qed.
Next Obligation.
  intros id owner token code s Hok. simpl. unfold pj_statement. rewrite job_retry_eval by done.
  by destruct (fenced_valid retryDelayMs maxAttempts id owner token code
    (clock (pj_tick s)).1.1 (pj_table s) Hok) as [_ Hv].
Qed.
End prisma_jobs.

Module WorkerExamples.
#[local] Existing Instance prisma_outbox_ops.
#[local] Existing Instance prisma_outbox_laws.
#[local] Existing Instance prisma_jobs_ops.
#[local] Existing Instance prisma_jobs_laws.

(** A queue that accepts every job, and remembers the ids. *)
Definition add (job : QueueJob) : M (list string) DbError unit :=
  λ q, (Ok tt, qj_jobId job :: q).
Definition uuid (s : string) : bool := negb (bool_decide (s = ""%string)).
Definition retention : BullMqJobRetention :=
  {| removeOnComplete_age := 604800; removeOnComplete_count := 10000;
     removeOnFail_age := 2592000; removeOnFail_count := 10000 |}.
Definition clock (n : nat) : Z := 10 * Z.of_nat n.
Definition token (n : nat) : string := "t".
Definition unlocked (n : nat) (id : string) : bool := false.

Definition payload : json :=
  JObj [("nodeAccessGrantId", JStr "g1"); ("nodeSyncJobId", JStr "j1");
        ("targetVersion", jint 3)]%string.
Definition world (topic : string) : PrismaOutbox * list string :=
  ({| po_table := <["e1"%string := new_event "e1" topic payload 0]> ∅; po_tick := 1 |}, []).

#[local] Instance ops : OutboxStoreOps PrismaOutbox DbError :=
  prisma_outbox_ops 30000 5000 3 None clock token unlocked.
#[local] Instance laws : OutboxStoreLaws PrismaOutbox DbError :=
  prisma_outbox_laws 30000 5000 3 None clock token unlocked.

Lemma add_law (D : string → Prop) job :
  triple (λ q, ∀ id, D id → id ∈ q) (add job)
    (λ _ q, (∀ id, D id → id ∈ q) ∧ qj_jobId job ∈ q) (λ _ q, ∀ id, D id → id ∈ q).
Proof. intros q Hq. simpl. set_solver. Qed.

Definition final : PrismaOutbox * list string :=
  publisher_rounds add uuid "w1" 5 1000 retention 1 (world node_sync_topic).

Lemma status_published s id :
  oe_status <$> po_table s !! id = Some PUBLISHED → os_published s id.
Proof. intros (r & Hr & Hst)%fmap_Some. by exists r. Qed.

(** One round publishes the event, and the queue has it. *)
Lemma publisher_delivers_before_publishing_witness :
  os_published (fst final) "e1" ∧ "e1"%string ∈ snd final.
Proof.
  assert (H : os_published (fst final) "e1").
  { apply status_published. vm_compute. reflexivity. }
  split; [exact H|].
  refine (proj2 (publisher_delivers_before_publishing add uuid "w1" 5 1000 retention
    (λ q id, id ∈ q) add_law (world node_sync_topic) 1 _) "e1"%string H).
  split.
  - apply table_ok_insert; [apply table_ok_empty|done|done|simpl; lia].
  - intros id (r & Hr & Hst). simpl in Hr. apply lookup_insert_Some in Hr as [[_ <-]|[_ Hr]]; done.
Defined.

Lemma publisher_rejects_malformed_witness :
  fst (processOne add uuid "w1" 5 1000 retention (world "other")) = Ok PublishRetried ∧
  snd (snd (processOne add uuid "w1" 5 1000 retention (world "other"))) = [].
Proof.
  set (s1 := snd (os_reclaimExpiredLeases (fst (world "other")))).
  set (s2 := snd (os_claimNext "w1" s1)).
  assert (H1 : os_reclaimExpiredLeases (fst (world "other")) = (Ok 0, s1)) by (vm_compute; reflexivity).
  assert (H2 : os_claimNext "w1" s1 = (Ok (Some {| ce_id := "e1"; ce_topic := "other"; ce_payload := payload;
    ce_leaseToken := "t" |}), s2)) by (vm_compute; reflexivity).
  assert (Ht : "other"%string ≠ node_sync_topic) by discriminate.
  pose proof (publisher_rejects_malformed add uuid "w1" 5 1000 retention (fst (world "other")) []
    s1 0 s2 _ H1 H2 (or_introl Ht)) as H.
  change (fst (world "other"), []) with (world "other") in H. rewrite H.
  split; vm_compute; reflexivity.
Defined.

(** A job that is already SUCCEEDED is acknowledged. *)
Definition done_job : NodeSyncJob :=
  NodeSyncStore.complete_row 20 (NodeSyncExamples.grant_job).
Definition ctx (n : nat) : SyncContext * SyncContext :=
  (NodeSyncExamples.context, NodeSyncExamples.context).
#[local] Instance jobs : NodeSyncStoreOps PrismaJobs DbError :=
  prisma_jobs_ops 30000 5000 3 (λ n, (clock n, clock n, clock n)) ctx token.
#[local] Instance jobs_laws : NodeSyncStoreLaws PrismaJobs DbError :=
  prisma_jobs_laws 30000 5000 3 (λ n, (clock n, clock n, clock n)) ctx token.

Lemma processor_acknowledges_settled_jobs_witness :
  let s := {| pj_table := <["j1"%string := done_job]> ∅; pj_tick := 0 |} in
  let job := {| job_name := node_sync_topic; job_data := payload |} in
  fst (process uuid "w1" job s) = Ok tt ∧
  match process uuid "w1" job s with
  | (Ok _, s') => ns_ok s'
  | (Throw _, s') => ns_ok s'
  end.
Proof.
  intros s job. split; [vm_compute; reflexivity|].
  assert (Hok : ns_ok s).
  { apply table_ok_insert; [apply table_ok_empty|reflexivity|reflexivity|simpl; lia]. }
  pose proof (processor_acknowledges_settled_jobs uuid "w1" job s Hok) as H.
  destruct (process uuid "w1" job s) as [[a|e] s']; [exact (proj1 H)|exact H].
Defined.
End WorkerExamples.
