(* ===== verification/NodeAgentContract.v ===== *)
(** * The node agent's wire contract: [packages/contracts/src/node-agent.ts]

    The configuration snapshot a node agent receives and stores, its Zod
    schema as a decision procedure on JSON documents, and the document
    [JSON.stringify] makes of it.  What Zod accepts as a UUID or as a date-time
    with an offset is a parameter; texts are measured in UTF-16 units. *)

From S2P Require Import Prelude.
From S2P Require Import Text.
From S2P Require Import Json.
Open Scope Z_scope.

Inductive GrantStatus := GRANT_PENDING | GRANT_ACTIVE | GRANT_REVOKED.
#[export] Instance GrantStatus_eq_dec : EqDecision GrantStatus.
Proof. solve_decision. Defined.

Record NodeAgentGrant := {
  g_id : string;
  g_status : GrantStatus;
  g_expiresAt : string;
  g_desiredVersion : Z;
  g_appliedVersion : Z;
  g_revokedAt : option string;
  g_dataPlaneCredential : option string;
}.

Record NodeAgentAcknowledgement := {
  ack_nodeSyncJobId : string;
  ack_targetVersion : Z;
  ack_snapshotHash : string;
}.

Inductive AddressKind := HOSTNAME | IPV4 | IPV6.
Inductive ProtocolKind := VLESS | WIREGUARD.
Inductive TransportKind := TCP | WEBSOCKET | GRPC.
Inductive SecurityKind := NONE | TLS | REALITY.

Record RouteEndpoint := {
  ep_id : string; ep_host : string; ep_addressKind : AddressKind; ep_port : Z; ep_priority : Z;
}.
(** [clientCompatibility] has the one value HAPP. *)
Record RouteProfile := {
  pr_id : string; pr_profileKey : string; pr_version : Z; pr_protocolKind : ProtocolKind;
  pr_transportKind : TransportKind; pr_securityKind : SecurityKind; pr_priority : Z;
}.
(** [kind] has the one value VLESS_TCP_TLS. *)
Record RoutePublicConfig := { pc_tlsServerName : string; pc_displayName : string }.
Record NodeAgentConnectionRoute := {
  rt_activationVersion : Z;
  rt_endpoint : RouteEndpoint;
  rt_profile : RouteProfile;
  rt_publicConfig : RoutePublicConfig;
}.

Record NodeAgentConfigurationSnapshot := {
  sn_desiredConfigVersion : Z;
  sn_appliedConfigVersion : Z;
  sn_pendingAcknowledgement : option NodeAgentAcknowledgement;
  sn_grants : list NodeAgentGrant;
  sn_routes : list NodeAgentConnectionRoute;
}.

(** ** Documents *)

(** [z.enum] over named values, and their names. *)
Definition zod_enum {A} (names : list (string * A)) (j : json) : option A :=
  s ← zod_string j; map_get s names.

Definition grant_status_name (s : GrantStatus) : string :=
  match s with
  | GRANT_PENDING => "PENDING" | GRANT_ACTIVE => "ACTIVE" | GRANT_REVOKED => "REVOKED"
  end%string.
Definition address_kind_name (k : AddressKind) : string :=
  match k with HOSTNAME => "HOSTNAME" | IPV4 => "IPV4" | IPV6 => "IPV6" end%string.
Definition protocol_kind_name (k : ProtocolKind) : string :=
  match k with VLESS => "VLESS" | WIREGUARD => "WIREGUARD" end%string.
Definition transport_kind_name (k : TransportKind) : string :=
  match k with TCP => "TCP" | WEBSOCKET => "WEBSOCKET" | GRPC => "GRPC" end%string.
Definition security_kind_name (k : SecurityKind) : string :=
  match k with NONE => "NONE" | TLS => "TLS" | REALITY => "REALITY" end%string.

Definition named {A} (name : A → string) (values : list A) : list (string * A) :=
  (λ a, (name a, a)) <$> values.
Definition zod_grant_status : json → option GrantStatus :=
  zod_enum (named grant_status_name [GRANT_PENDING; GRANT_ACTIVE; GRANT_REVOKED]).
Definition zod_address_kind : json → option AddressKind :=
  zod_enum (named address_kind_name [HOSTNAME; IPV4; IPV6]).
Definition zod_protocol_kind : json → option ProtocolKind :=
  zod_enum (named protocol_kind_name [VLESS; WIREGUARD]).
Definition zod_transport_kind : json → option TransportKind :=
  zod_enum (named transport_kind_name [TCP; WEBSOCKET; GRPC]).
Definition zod_security_kind : json → option SecurityKind :=
  zod_enum (named security_kind_name [NONE; TLS; REALITY]).

Definition json_nullable {A} (f : A → json) (o : option A) : json :=
  match o with Some a => f a | None => JNull end.

Definition encode_acknowledgement (a : NodeAgentAcknowledgement) : json :=
  JObj [("nodeSyncJobId", JStr (ack_nodeSyncJobId a));
        ("targetVersion", jint (ack_targetVersion a));
        ("snapshotHash", JStr (ack_snapshotHash a))]%string.

Definition encode_grant (g : NodeAgentGrant) : json :=
  JObj [("id", JStr (g_id g)); ("status", JStr (grant_status_name (g_status g)));
        ("expiresAt", JStr (g_expiresAt g)); ("desiredVersion", jint (g_desiredVersion g));
        ("appliedVersion", jint (g_appliedVersion g));
        ("revokedAt", json_nullable JStr (g_revokedAt g));
        ("dataPlaneCredential", json_nullable JStr (g_dataPlaneCredential g))]%string.

Definition encode_endpoint (e : RouteEndpoint) : json :=
  JObj [("id", JStr (ep_id e)); ("host", JStr (ep_host e));
        ("addressKind", JStr (address_kind_name (ep_addressKind e)));
        ("port", jint (ep_port e)); ("priority", jint (ep_priority e))]%string.
Definition encode_profile (p : RouteProfile) : json :=
  JObj [("id", JStr (pr_id p)); ("profileKey", JStr (pr_profileKey p));
        ("version", jint (pr_version p));
        ("protocolKind", JStr (protocol_kind_name (pr_protocolKind p)));
        ("transportKind", JStr (transport_kind_name (pr_transportKind p)));
        ("securityKind", JStr (security_kind_name (pr_securityKind p)));
        ("clientCompatibility", JStr "HAPP"); ("priority", jint (pr_priority p))]%string.
Definition encode_public_config (c : RoutePublicConfig) : json :=
  JObj [("kind", JStr "VLESS_TCP_TLS"); ("tlsServerName", JStr (pc_tlsServerName c));
        ("displayName", JStr (pc_displayName c))]%string.
Definition encode_route (r : NodeAgentConnectionRoute) : json :=
  JObj [("activationVersion", jint (rt_activationVersion r));
        ("endpoint", encode_endpoint (rt_endpoint r));
        ("profile", encode_profile (rt_profile r));
        ("publicConfig", encode_public_config (rt_publicConfig r))]%string.

Definition encode_snapshot (s : NodeAgentConfigurationSnapshot) : json :=
  JObj [("desiredConfigVersion", jint (sn_desiredConfigVersion s));
        ("appliedConfigVersion", jint (sn_appliedConfigVersion s));
        ("pendingAcknowledgement", json_nullable encode_acknowledgement (sn_pendingAcknowledgement s));
        ("grants", JArr (encode_grant <$> sn_grants s));
        ("routes", JArr (encode_route <$> sn_routes s))]%string.

(** ** The schemas *)

(** [/^[a-f0-9]{64}$/] *)
Definition hex_digit (a : Ascii.ascii) : bool :=
  let n := Ascii.nat_of_ascii a in
  ((48 <=? n) && (n <=? 57) || (97 <=? n) && (n <=? 102))%nat.
Definition is_sha256_hex (s : string) : bool :=
  (String.length s =? 64)%nat && string_forall hex_digit s.

Definition zod_text (p : string → bool) (j : json) : option string :=
  s ← zod_string j; guard (p s);; Some s.
Definition zod_literal (s : string) (j : json) : option unit :=
  s' ← zod_string j; guard (s' = s);; Some tt.

(** The primitive schemas accept what they say and read back what is written. *)
Definition version_ok (lo n : Z) : Prop := lo ≤ n ≤ MAX_SAFE_INTEGER.

Lemma zod_text_sound p j s : zod_text p j = Some s → p s.
Proof. unfold zod_text. intros H. option_invert H. by simplify_eq. Qed.

Lemma zod_text_encode (p : string → bool) s : p s → zod_text p (JStr s) = Some s.
Proof. intros H. unfold zod_text. simpl. by rewrite option_guard_True. Qed.

Lemma zod_int_min_sound lo j n : zod_int_min lo j = Some n → version_ok lo n.
Proof. apply zod_int_min_spec. Qed.

Lemma zod_int_min_encode lo n : 0 ≤ lo → version_ok lo n → zod_int_min lo (jint n) = Some n.
Proof.
  intros Hlo [Hn Hm]. unfold zod_int_min, zod_int, jint. rewrite Q_int_inject. simpl.
  rewrite option_guard_True by lia. simpl. by rewrite option_guard_True.
Qed.

Lemma zod_nullable_sound {A} (schema : json → option A) (P : A → Prop) j o :
  (∀ j a, schema j = Some a → P a) → zod_nullable schema j = Some o →
  ∀ a, o = Some a → P a.
Proof.
  intros Hs H a ->. destruct j; simpl in H; try (by simplify_eq);
    apply fmap_Some in H as (x & Hx & [= ->]); eauto.
Qed.

Lemma zod_nullable_encode {A} (schema : json → option A) (encode : A → json) o :
  (∀ a, o = Some a → schema (encode a) = Some a ∧ encode a ≠ JNull) →
  zod_nullable schema (json_nullable encode o) = Some o.
Proof.
  intros H. destruct o as [a|]; [|done]. destruct (H a eq_refl) as [Ha Hn]. simpl.
  unfold zod_nullable. destruct (encode a); try done; by rewrite Ha.
Qed.

Lemma zod_array_sound {A} (schema : json → option A) (P : A → Prop) j l :
  (∀ j a, schema j = Some a → P a) → zod_array schema j = Some l → Forall P l.
Proof.
  intros Hs. destruct j as [| | | |js|]; simpl; try done. intros H%mapM_Some.
  induction H; constructor; eauto.
Qed.

Lemma mapM_encode {A} (schema : json → option A) (encode : A → json) l :
  Forall (λ a, schema (encode a) = Some a) l → mapM schema (encode <$> l) = Some l.
Proof. intros H. apply mapM_Some, Forall2_fmap_l, Forall_Forall2_diag, H. Qed.

Lemma zod_enum_encode {A} (name : A → string) (values : list A) a :
  a ∈ values → NoDup (name <$> values) → zod_enum (named name values) (JStr (name a)) = Some a.
Proof.
  intros Ha Hn. apply map_get_NoDup.
  - unfold named. by rewrite <- list_fmap_compose.
  - apply list_elem_of_fmap. by exists a.
Qed.

Lemma field_sound {A} (schema : json → option A) (P : A → Prop) m key a :
  (∀ j a, schema j = Some a → P a) → field m key schema = Some a → P a.
Proof. intros Hs (j & _ & Hj)%bind_Some. eauto. Qed.

(** What is read from a written member is what was written. *)
Lemma zod_text_decoded p s s' : zod_text p (JStr s) = Some s' → s' = s.
Proof. unfold zod_text. simpl. intros H. option_invert H. by injection H. Qed.

Lemma zod_int_min_decoded lo n n' : zod_int_min lo (jint n) = Some n' → n' = n.
Proof.
  unfold zod_int_min, zod_int, jint. rewrite Q_int_inject. simpl. intros H. option_invert H.
  option_invert E. by simplify_eq.
Qed.

Lemma zod_int_range_decoded lo hi n n' : zod_int_range lo hi (jint n) = Some n' → n' = n.
Proof. unfold zod_int_range. intros H. option_invert H. apply zod_int_min_decoded in E. congruence. Qed.

Lemma zod_enum_decoded {A} (name : A → string) (values : list A) a a' :
  a ∈ values → NoDup (name <$> values) → zod_enum (named name values) (JStr (name a)) = Some a' → a' = a.
Proof. intros Ha Hn. rewrite zod_enum_encode by done. congruence. Qed.

Lemma zod_nullable_decoded {A} (schema : json → option A) (encode : A → json) o o' :
  (∀ a a', schema (encode a) = Some a' → a' = a) → (∀ a, encode a ≠ JNull) →
  zod_nullable schema (json_nullable encode o) = Some o' → o' = o.
Proof.
  intros Hs Hn. destruct o as [a|]; simpl; [|congruence]. specialize (Hs a). specialize (Hn a).
  unfold zod_nullable. destruct (encode a); try done; intros (x & Ha & ->)%fmap_Some; f_equal; auto.
Qed.

Lemma zod_array_decoded {A} (schema : json → option A) (encode : A → json) l l' :
  (∀ a a', schema (encode a) = Some a' → a' = a) →
  zod_array schema (JArr (encode <$> l)) = Some l' → l' = l.
Proof.
  intros Hs. simpl. intros H%mapM_Some%Forall2_fmap_l. induction H; [done|]. f_equal; eauto.
Qed.

(** Discharges a decoded member by the soundness of its schema. *)
Ltac fields_sound :=
  repeat match goal with
  | E : field _ _ (zod_text _) = Some _ |- _ =>
      apply (field_sound _ _ _ _ _ (zod_text_sound _)) in E
  | E : field _ _ (zod_int_min _) = Some _ |- _ =>
      apply (field_sound _ _ _ _ _ (zod_int_min_sound _)) in E
  | E : field _ _ (zod_nullable (zod_text _)) = Some _ |- _ =>
      apply bind_Some in E as (? & _ & E);
      pose proof (zod_nullable_sound _ _ _ _ (zod_text_sound _) E); clear E
  end.

(** Reads the members of an encoded object back. *)
Ltac read_fields H :=
  unfold field in H; simpl in H; option_invert H; simplify_eq;
  repeat match goal with
  | E : zod_text _ (JStr _) = Some _ |- _ => apply zod_text_decoded in E
  | E : zod_int_min _ (jint _) = Some _ |- _ => apply zod_int_min_decoded in E
  | E : zod_int_range _ _ (jint _) = Some _ |- _ => apply zod_int_range_decoded in E
  | E : zod_nullable (zod_text _) (json_nullable JStr _) = Some _ |- _ =>
      apply zod_nullable_decoded in E; [|by intros ? ? ?%zod_text_decoded|done]
  | E : _ (JStr (?name ?a)) = Some _ |- _ => apply zod_enum_decoded in E; [|by destruct a; set_solver|by compute_done]
  end; simpl in *; subst.

Lemma text_nullable_encode (p : string → bool) o :
  (∀ s, o = Some s → p s) → zod_nullable (zod_text p) (json_nullable JStr o) = Some o.
Proof. intros H. apply zod_nullable_encode. intros a Ha. by rewrite zod_text_encode by auto. Qed.

(** Decodes the members of an encoded object one by one. *)
Ltac decode_fields :=
  unfold field; simpl;
  repeat (first [ rewrite zod_text_encode by done | rewrite zod_int_min_encode by (done || lia)
                | rewrite text_nullable_encode by done ]; simpl).

Section schemas.
Context (is_uuid is_datetime : string → bool).

Definition nodeAgentAcknowledgementSchema (j : json) : option NodeAgentAcknowledgement :=
  m ← zod_object j;
  guard (strict_keys ["nodeSyncJobId"; "targetVersion"; "snapshotHash"]%string m);;
  job ← field m "nodeSyncJobId"%string (zod_text is_uuid);
  version ← field m "targetVersion"%string (zod_int_min 0);
  hash ← field m "snapshotHash"%string (zod_text is_sha256_hex);
  Some {| ack_nodeSyncJobId := job; ack_targetVersion := version; ack_snapshotHash := hash |}.

Definition grant_schema (j : json) : option NodeAgentGrant :=
  m ← zod_object j;
  guard (strict_keys ["id"; "status"; "expiresAt"; "desiredVersion"; "appliedVersion";
                      "revokedAt"; "dataPlaneCredential"]%string m);;
  id ← field m "id"%string (zod_text is_uuid);
  status ← field m "status"%string zod_grant_status;
  expiresAt ← field m "expiresAt"%string (zod_text is_datetime);
  desired ← field m "desiredVersion"%string (zod_int_min 0);
  applied ← field m "appliedVersion"%string (zod_int_min 0);
  revokedAt ← field m "revokedAt"%string (zod_nullable (zod_text is_datetime));
  credential ← field m "dataPlaneCredential"%string (zod_nullable (zod_text is_uuid));
  Some {| g_id := id; g_status := status; g_expiresAt := expiresAt; g_desiredVersion := desired;
          g_appliedVersion := applied; g_revokedAt := revokedAt;
          g_dataPlaneCredential := credential |}.

Definition endpoint_schema (j : json) : option RouteEndpoint :=
  m ← zod_object j;
  guard (strict_keys ["id"; "host"; "addressKind"; "port"; "priority"]%string m);;
  id ← field m "id"%string (zod_text is_uuid);
  host ← field m "host"%string (zod_text (bounded_text 253));
  kind ← field m "addressKind"%string zod_address_kind;
  port ← field m "port"%string (zod_int_range 1 65535);
  priority ← field m "priority"%string (zod_int_min 0);
  Some {| ep_id := id; ep_host := host; ep_addressKind := kind; ep_port := port;
          ep_priority := priority |}.

Definition profile_schema (j : json) : option RouteProfile :=
  m ← zod_object j;
  guard (strict_keys ["id"; "profileKey"; "version"; "protocolKind"; "transportKind";
                      "securityKind"; "clientCompatibility"; "priority"]%string m);;
  id ← field m "id"%string (zod_text is_uuid);
  key ← field m "profileKey"%string (zod_text is_uuid);
  version ← field m "version"%string (zod_int_min 1);
  protocol ← field m "protocolKind"%string zod_protocol_kind;
  transport ← field m "transportKind"%string zod_transport_kind;
  security ← field m "securityKind"%string zod_security_kind;
  field m "clientCompatibility"%string (zod_literal "HAPP");;
  priority ← field m "priority"%string (zod_int_min 0);
  Some {| pr_id := id; pr_profileKey := key; pr_version := version; pr_protocolKind := protocol;
          pr_transportKind := transport; pr_securityKind := security; pr_priority := priority |}.

Definition public_config_schema (j : json) : option RoutePublicConfig :=
  m ← zod_object j;
  guard (strict_keys ["kind"; "tlsServerName"; "displayName"]%string m);;
  field m "kind"%string (zod_literal "VLESS_TCP_TLS");;
  server ← field m "tlsServerName"%string (zod_text (bounded_text 253));
  display ← field m "displayName"%string (zod_text (bounded_text 128));
  Some {| pc_tlsServerName := server; pc_displayName := display |}.

Definition nodeAgentConnectionRouteSchema (j : json) : option NodeAgentConnectionRoute :=
  m ← zod_object j;
  guard (strict_keys ["activationVersion"; "endpoint"; "profile"; "publicConfig"]%string m);;
  activation ← field m "activationVersion"%string (zod_int_min 1);
  endpoint ← field m "endpoint"%string endpoint_schema;
  profile ← field m "profile"%string profile_schema;
  config ← field m "publicConfig"%string public_config_schema;
  Some {| rt_activationVersion := activation; rt_endpoint := endpoint; rt_profile := profile;
          rt_publicConfig := config |}.

(** The three [superRefine] issues. *)
Definition snapshot_refinement (s : NodeAgentConfigurationSnapshot) : bool :=
  (sn_appliedConfigVersion s <=? sn_desiredConfigVersion s) &&
  match sn_pendingAcknowledgement s with
  | None => true
  | Some a => (ack_targetVersion a =? sn_desiredConfigVersion s) &&
              (sn_appliedConfigVersion s <? sn_desiredConfigVersion s)
  end.

Definition nodeAgentConfigurationSnapshotSchema (j : json)
    : option NodeAgentConfigurationSnapshot :=
  m ← zod_object j;
  guard (strict_keys ["desiredConfigVersion"; "appliedConfigVersion"; "pendingAcknowledgement";
                      "grants"; "routes"]%string m);;
  desired ← field m "desiredConfigVersion"%string (zod_int_min 0);
  applied ← field m "appliedConfigVersion"%string (zod_int_min 0);
  pending ← field m "pendingAcknowledgement"%string (zod_nullable nodeAgentAcknowledgementSchema);
  grants ← field m "grants"%string (zod_array grant_schema);
  routes ← field m "routes"%string (zod_array nodeAgentConnectionRouteSchema);
  let s := {| sn_desiredConfigVersion := desired; sn_appliedConfigVersion := applied;
              sn_pendingAcknowledgement := pending; sn_grants := grants;
              sn_routes := routes |} in
  guard (snapshot_refinement s);;
  Some s.

(** ** What an accepted snapshot satisfies *)

(** The hash is 64 of the sixteen digits. *)
Definition hash_wf (h : string) : Prop :=
  String.length h = 64%nat ∧
  Forall (λ c, c ∈ String.list_ascii_of_string "0123456789abcdef") (String.list_ascii_of_string h).
Definition text_wf (n : nat) (s : string) : Prop := (1 ≤ utf16_length s ≤ n)%nat.

Definition acknowledgement_wf (a : NodeAgentAcknowledgement) : Prop :=
  is_uuid (ack_nodeSyncJobId a) ∧ version_ok 0 (ack_targetVersion a) ∧
  hash_wf (ack_snapshotHash a).

Definition grant_wf (g : NodeAgentGrant) : Prop :=
  is_uuid (g_id g) ∧ is_datetime (g_expiresAt g) ∧ version_ok 0 (g_desiredVersion g) ∧
  version_ok 0 (g_appliedVersion g) ∧ (∀ t, g_revokedAt g = Some t → is_datetime t) ∧
  (∀ c, g_dataPlaneCredential g = Some c → is_uuid c).

Definition endpoint_wf (e : RouteEndpoint) : Prop :=
  is_uuid (ep_id e) ∧ text_wf 253 (ep_host e) ∧ 1 ≤ ep_port e ≤ 65535 ∧
  version_ok 0 (ep_priority e).
Definition profile_wf (p : RouteProfile) : Prop :=
  is_uuid (pr_id p) ∧ is_uuid (pr_profileKey p) ∧ version_ok 1 (pr_version p) ∧
  version_ok 0 (pr_priority p).
Definition route_wf (r : NodeAgentConnectionRoute) : Prop :=
  version_ok 1 (rt_activationVersion r) ∧ endpoint_wf (rt_endpoint r) ∧
  profile_wf (rt_profile r) ∧ text_wf 253 (pc_tlsServerName (rt_publicConfig r)) ∧
  text_wf 128 (pc_displayName (rt_publicConfig r)).

Definition snapshot_wf (s : NodeAgentConfigurationSnapshot) : Prop :=
  version_ok 0 (sn_desiredConfigVersion s) ∧ version_ok 0 (sn_appliedConfigVersion s) ∧
  sn_appliedConfigVersion s ≤ sn_desiredConfigVersion s ∧
  (∀ a, sn_pendingAcknowledgement s = Some a → acknowledgement_wf a ∧
    ack_targetVersion a = sn_desiredConfigVersion s ∧
    sn_appliedConfigVersion s < sn_desiredConfigVersion s) ∧
  Forall grant_wf (sn_grants s) ∧ Forall route_wf (sn_routes s).

Lemma hash_spec h : is_sha256_hex h ↔ hash_wf h.
Proof.
  unfold is_sha256_hex, hash_wf. rewrite andb_True. f_equiv; [by rewrite Is_true_true, Nat.eqb_eq|].
  assert (Hd : ∀ a, hex_digit a = true ↔ a ∈ String.list_ascii_of_string "0123456789abcdef").
  { intros a. rewrite <- (bool_decide_eq_true (a ∈ String.list_ascii_of_string "0123456789abcdef")).
    split; revert a; apply for_ascii_impl; vm_compute; reflexivity. }
  induction h as [|a h IH]; simpl; [done|]. rewrite andb_True, IH, Forall_cons, Is_true_true, Hd. done.
Qed.

Lemma text_spec n s : bounded_text n s ↔ text_wf n s.
Proof. unfold bounded_text, text_wf. rewrite andb_True, !Is_true_true, !Nat.leb_le. done. Qed.

Lemma snapshot_refinement_spec s :
  snapshot_refinement s ↔ sn_appliedConfigVersion s ≤ sn_desiredConfigVersion s ∧
    ∀ a, sn_pendingAcknowledgement s = Some a → ack_targetVersion a = sn_desiredConfigVersion s ∧
      sn_appliedConfigVersion s < sn_desiredConfigVersion s.
Proof.
  unfold snapshot_refinement. rewrite andb_True, Is_true_true, Z.leb_le.
  destruct (sn_pendingAcknowledgement s) as [a|]; [|naive_solver].
  rewrite andb_True, !Is_true_true, Z.eqb_eq, Z.ltb_lt. naive_solver.
Qed.

Lemma nodeAgentAcknowledgementSchema_sound j a :
  nodeAgentAcknowledgementSchema j = Some a → acknowledgement_wf a.
Proof.
  unfold nodeAgentAcknowledgementSchema. intros H. option_invert H. simplify_eq.
  fields_sound. split_and!; [done..|by apply hash_spec].
Qed.

Lemma grant_schema_sound j g : grant_schema j = Some g → grant_wf g.
Proof.
  unfold grant_schema. intros H. option_invert H. simplify_eq. fields_sound. by split_and!.
Qed.

Lemma endpoint_schema_sound j e : endpoint_schema j = Some e → endpoint_wf e.
Proof.
  unfold endpoint_schema. intros H. option_invert H. simplify_eq. fields_sound.
  match goal with E : field _ _ (zod_int_range _ _) = Some _ |- _ =>
    apply (field_sound _ _ _ _ _ (zod_int_range_spec _ _)) in E end.
  split_and!; simpl; (done || lia || by apply text_spec).
Qed.

Lemma profile_schema_sound j p : profile_schema j = Some p → profile_wf p.
Proof.
  unfold profile_schema. intros H. option_invert H. simplify_eq. fields_sound. by split_and!.
Qed.

Lemma route_schema_sound j r : nodeAgentConnectionRouteSchema j = Some r → route_wf r.
Proof.
  unfold nodeAgentConnectionRouteSchema. intros H. option_invert H. simplify_eq. fields_sound.
  match goal with E : field _ _ endpoint_schema = Some _ |- _ =>
    apply (field_sound _ _ _ _ _ endpoint_schema_sound) in E end.
  match goal with E : field _ _ profile_schema = Some _ |- _ =>
    apply (field_sound _ _ _ _ _ profile_schema_sound) in E end.
  match goal with E : field _ _ public_config_schema = Some _ |- _ =>
    apply bind_Some in E as (? & _ & E); unfold public_config_schema in E; option_invert E end.
  simplify_eq. fields_sound. split_and!; simpl; (done || by apply text_spec).
Qed.

Lemma snapshot_schema_sound j s :
  nodeAgentConfigurationSnapshotSchema j = Some s → snapshot_wf s.
Proof.
  unfold nodeAgentConfigurationSnapshotSchema. intros H. option_invert H. simplify_eq. fields_sound.
  match goal with E : field _ _ (zod_array grant_schema) = Some _ |- _ =>
    apply (field_sound _ _ _ _ _ (λ j l, zod_array_sound _ _ j l grant_schema_sound)) in E end.
  match goal with E : field _ _ (zod_array nodeAgentConnectionRouteSchema) = Some _ |- _ =>
    apply (field_sound _ _ _ _ _ (λ j l, zod_array_sound _ _ j l route_schema_sound)) in E end.
  match goal with E : field _ _ (zod_nullable nodeAgentAcknowledgementSchema) = Some _ |- _ =>
    apply bind_Some in E as (? & _ & E);
    pose proof (zod_nullable_sound _ _ _ _ nodeAgentAcknowledgementSchema_sound E) end.
  match goal with Hr : Is_true (snapshot_refinement _) |- _ => apply snapshot_refinement_spec in Hr as [? ?] end.
  split_and!; naive_solver.
Qed.

Lemma acknowledgement_encode a :
  acknowledgement_wf a → nodeAgentAcknowledgementSchema (encode_acknowledgement a) = Some a.
Proof.
  intros (?&?&?%hash_spec). unfold nodeAgentAcknowledgementSchema. simpl. decode_fields. by destruct a.
Qed.

Lemma grant_encode g : grant_wf g → grant_schema (encode_grant g) = Some g.
Proof.
  intros (?&?&?&?&?&?). unfold grant_schema. simpl. decode_fields.
  assert (zod_grant_status (JStr (grant_status_name (g_status g))) = Some (g_status g)) as ->
    by by destruct (g_status g).
  simpl. decode_fields. by destruct g.
Qed.

Lemma endpoint_encode e : endpoint_wf e → endpoint_schema (encode_endpoint e) = Some e.
Proof.
  intros (?&?%text_spec&?&?). unfold endpoint_schema. simpl. decode_fields.
  assert (zod_address_kind (JStr (address_kind_name (ep_addressKind e))) = Some (ep_addressKind e))
    as -> by by destruct (ep_addressKind e).
  simpl. rewrite zod_int_range_complete by (unfold MAX_SAFE_INTEGER; lia). simpl.
  decode_fields. by destruct e.
Qed.

Lemma profile_encode p : profile_wf p → profile_schema (encode_profile p) = Some p.
Proof.
  intros (?&?&?&?). unfold profile_schema. simpl. decode_fields.
  assert (zod_protocol_kind (JStr (protocol_kind_name (pr_protocolKind p)))
    = Some (pr_protocolKind p)) as -> by by destruct (pr_protocolKind p).
  simpl.
  assert (zod_transport_kind (JStr (transport_kind_name (pr_transportKind p)))
    = Some (pr_transportKind p)) as -> by by destruct (pr_transportKind p).
  simpl.
  assert (zod_security_kind (JStr (security_kind_name (pr_securityKind p)))
    = Some (pr_securityKind p)) as -> by by destruct (pr_securityKind p).
  simpl. decode_fields. by destruct p.
Qed.

Lemma route_encode r : route_wf r → nodeAgentConnectionRouteSchema (encode_route r) = Some r.
Proof.
  intros (?&He&Hp&?%text_spec&?%text_spec). unfold nodeAgentConnectionRouteSchema. simpl. decode_fields.
  rewrite endpoint_encode by done. simpl. rewrite profile_encode by done. simpl.
  unfold public_config_schema. simpl. decode_fields. by destruct r as [? ? ? []].
Qed.

Lemma snapshot_encode s :
  snapshot_wf s → nodeAgentConfigurationSnapshotSchema (encode_snapshot s) = Some s.
Proof.
  intros (?&?&Hle&Ha&Hg&Hr). unfold nodeAgentConfigurationSnapshotSchema. simpl. decode_fields.
  rewrite zod_nullable_encode by (intros a Hs; split; [by apply acknowledgement_encode, Ha|done]).
  simpl. rewrite (mapM_encode grant_schema) by (eapply Forall_impl; [exact Hg|apply grant_encode]).
  simpl. rewrite mapM_encode by (eapply Forall_impl; [exact Hr|apply route_encode]).
  simpl. replace {| sn_desiredConfigVersion := _ |} with s by by destruct s.
  rewrite option_guard_True; [done|]. apply snapshot_refinement_spec. naive_solver.
Qed.

(** Whatever is read from a written document is what was written. *)
Lemma acknowledgement_decoded a a' :
  nodeAgentAcknowledgementSchema (encode_acknowledgement a) = Some a' → a' = a.
Proof. intros H. unfold nodeAgentAcknowledgementSchema in H. read_fields H. by destruct a. Qed.

Lemma grant_decoded g g' : grant_schema (encode_grant g) = Some g' → g' = g.
Proof. intros H. unfold grant_schema in H. read_fields H. by destruct g. Qed.

Lemma endpoint_decoded e e' : endpoint_schema (encode_endpoint e) = Some e' → e' = e.
Proof. intros H. unfold endpoint_schema in H. read_fields H. by destruct e. Qed.

Lemma profile_decoded p p' : profile_schema (encode_profile p) = Some p' → p' = p.
Proof. intros H. unfold profile_schema in H. read_fields H. by destruct p. Qed.

Lemma public_config_decoded c c' : public_config_schema (encode_public_config c) = Some c' → c' = c.
Proof. intros H. unfold public_config_schema in H. read_fields H. by destruct c. Qed.

Lemma route_decoded r r' : nodeAgentConnectionRouteSchema (encode_route r) = Some r' → r' = r.
Proof.
  intros H. unfold nodeAgentConnectionRouteSchema in H. read_fields H.
  repeat match goal with
  | E : endpoint_schema _ = Some _ |- _ => apply endpoint_decoded in E
  | E : profile_schema _ = Some _ |- _ => apply profile_decoded in E
  | E : public_config_schema _ = Some _ |- _ => apply public_config_decoded in E
  end. subst. by destruct r.
Qed.

Lemma snapshot_decoded s s' : nodeAgentConfigurationSnapshotSchema (encode_snapshot s) = Some s' → s' = s.
Proof.
  intros H. unfold nodeAgentConfigurationSnapshotSchema in H. cbn [encode_snapshot zod_object mbind option_bind] in H.
  read_fields H.
  repeat match goal with
  | E : zod_nullable _ _ = Some _ |- _ =>
      apply zod_nullable_decoded in E; [|exact acknowledgement_decoded|done]
  | E : mapM grant_schema _ = Some _ |- _ => apply (zod_array_decoded _ _ _ _ grant_decoded) in E
  | E : mapM nodeAgentConnectionRouteSchema _ = Some _ |- _ => apply (zod_array_decoded _ _ _ _ route_decoded) in E
  end. subst. by destruct s.
Qed.

(** C40: the snapshot schema accepts only well-formed documents, and of the
    documents written for a snapshot exactly those of a well-formed one, which
    it reads back as it was written.  Well formed is said in full: UUIDs, dates,
    versions between zero and the safe integers, texts by their UTF-16 length, a
    hash of 64 hexadecimal digits, an applied version not above the desired one,
    and an acknowledgement only of the desired version while it is not applied. *)
Theorem snapshot_roundtrip :
  (∀ j s, nodeAgentConfigurationSnapshotSchema j = Some s → snapshot_wf s) ∧
  (∀ s s', nodeAgentConfigurationSnapshotSchema (encode_snapshot s) = Some s' ↔ s' = s ∧ snapshot_wf s).
Proof.
  split; [apply snapshot_schema_sound|]. intros s s'. split.
  - intros H. pose proof (snapshot_decoded _ _ H) as ->. split; [done|by eapply snapshot_schema_sound].
  - intros [-> H]. by apply snapshot_encode.
Qed.
End schemas.
