(* ===== verification/XrayAccess.v ===== *)
(** * Who may be served, and until when: [apps/node-agent/src/xray-access.ts]
    and [apps/node-agent/src/security-timing.ts]

    Instants are milliseconds since the epoch; [None] is JavaScript's NaN.
    [Date.parse] and [Date.prototype.toISOString] are a class, with the one
    law the code relies on: a printed instant parses back. *)

From S2P Require Import Prelude.
From S2P Require Import NodeAgentContract.
Open Scope Z_scope.

(** The range of ECMAScript time values. *)
Definition time_value (t : Z) : bool := (Z.abs t <=? 8640000000000000).

Class DateStrings := {
  Date_parse : string → option Z;
  toISOString : Z → string;
  Date_parse_toISOString t : time_value t → Date_parse (toISOString t) = Some t;
}.

Record XrayServableClient := { cl_grantId : string; cl_credential : string }.
#[export] Instance XrayServableClient_eq_dec : EqDecision XrayServableClient.
Proof. solve_decision. Defined.

(** [deadlineAt] may be NaN. *)
Record XrayClientRevocationEnforcement := { en_grantId : string; en_deadlineAt : option Z }.

(** ** Timing *)

Definition ACCESS_CONTROL_ENFORCEMENT_SLA_MS : Z := 5 * 60000.
Definition LOCAL_SECURITY_RETRY_DELAY_MS : Z := 10000.
Definition LOCAL_STATE_INTEGRITY_CHECK_INTERVAL_MS : Z := 10000.
Definition XRAY_RELOAD_COMMAND_TIMEOUT_MS : Z := 30000.
Definition XRAY_DOCKER_COMMAND_TIMEOUT_MS : Z := 2000.
Definition XRAY_SERVING_VERIFY_ATTEMPTS : Z := 10.
Definition XRAY_SERVING_VERIFY_RETRY_DELAY_MS : Z := 1000.
Definition XRAY_SERVING_VERIFY_MAX_DURATION_MS : Z :=
  XRAY_SERVING_VERIFY_ATTEMPTS * 2 * XRAY_DOCKER_COMMAND_TIMEOUT_MS +
  (XRAY_SERVING_VERIFY_ATTEMPTS - 1) * XRAY_SERVING_VERIFY_RETRY_DELAY_MS.
Definition XRAY_APPLY_MAX_DURATION_MS : Z :=
  XRAY_RELOAD_COMMAND_TIMEOUT_MS + XRAY_SERVING_VERIFY_MAX_DURATION_MS.
Definition XRAY_FAIL_CLOSED_MAX_DURATION_MS : Z := 3 * XRAY_DOCKER_COMMAND_TIMEOUT_MS.
Definition LOCAL_FAIL_CLOSED_RESERVE_MS : Z := 120000.
Definition PRODUCTION_XRAY_MAX_POLL_INTERVAL_MS : Z := 60000.

Inductive AgentMode := MODE_SIMULATION | MODE_LOCAL_XRAY | MODE_XRAY.
Inductive CycleOutcome := Synchronized | WaitingForCommand | Acknowledged.

Definition effectiveControlPlanePollInterval (mode : AgentMode) (configuredIntervalMs : Z) : Z :=
  match mode with
  | MODE_XRAY => Z.min configuredIntervalMs PRODUCTION_XRAY_MAX_POLL_INTERVAL_MS
  | _ => configuredIntervalMs
  end.
Definition effectiveControlPlaneRetryInterval (mode : AgentMode) (pollIntervalMs : Z) : Z :=
  match mode with
  | MODE_XRAY => Z.min pollIntervalMs LOCAL_SECURITY_RETRY_DELAY_MS
  | _ => pollIntervalMs
  end.
Definition successfulControlPlaneCycleDelay (outcome : CycleOutcome)
    (pollIntervalMs retryIntervalMs : Z) : Z :=
  match outcome with WaitingForCommand => retryIntervalMs | _ => pollIntervalMs end.

(** [shouldFailClosed] of local-xray-adapter.ts. *)
Definition shouldFailClosed (enforcementDeadlineAt : option Z) (now : Z) : bool :=
  match enforcementDeadlineAt with
  | Some d => d - LOCAL_FAIL_CLOSED_RESERVE_MS <=? now
  | None => false
  end.

Section access.
Context `{LocaleCompare} `{DateStrings}.

Definition client_order (l r : XrayServableClient) : Prop :=
  locale_le (cl_grantId l) (cl_grantId r).
#[export] Instance client_order_dec l r : Decision (client_order l r).
Proof. unfold client_order. apply _. Defined.
#[export] Instance client_order_total : Total client_order.
Proof. intros l r. apply (total locale_le). Qed.
#[export] Instance client_order_trans : Transitive client_order.
Proof. intros a b c. unfold client_order. apply transitivity. Qed.

Definition enforcement_order (l r : XrayClientRevocationEnforcement) : Prop :=
  locale_le (en_grantId l) (en_grantId r).
#[export] Instance enforcement_order_dec l r : Decision (enforcement_order l r).
Proof. unfold enforcement_order. apply _. Defined.

(** [None] is NaN. *)
Definition getActiveGrantExpiry (grant : NodeAgentGrant) : option Z :=
  if negb (bool_decide (g_status grant = GRANT_ACTIVE)) then None
  else if negb (is_null (g_revokedAt grant)) then None
  else if is_null (g_dataPlaneCredential grant) then None
  else Date_parse (g_expiresAt grant).

Definition servable_client (now : Z) (grant : NodeAgentGrant) : option XrayServableClient :=
  match getActiveGrantExpiry grant with
  | None => None
  | Some expiresAt =>
      if expiresAt <=? now then None
      else match g_dataPlaneCredential grant with
           | None => None
           | Some credential => Some {| cl_grantId := g_id grant; cl_credential := credential |}
           end
  end.

Definition selectServableXrayClients (snapshot : NodeAgentConfigurationSnapshot) (now : Z)
    : list XrayServableClient :=
  merge_sort client_order (omap (servable_client now) (sn_grants snapshot)).

(** The running minimum of a loop over the grants. *)
Definition min_option (acc : option Z) (x : Z) : option Z :=
  match acc with
  | None => Some x
  | Some m => if x <? m then Some x else Some m
  end.

Definition findNextXrayClientExpiry (snapshot : NodeAgentConfigurationSnapshot) (now : Z)
    : option Z :=
  foldl (λ acc grant, match getActiveGrantExpiry grant with
                      | Some expiresAt => if expiresAt <=? now then acc
                                          else min_option acc expiresAt
                      | None => acc
                      end) None (sn_grants snapshot).

Definition findExpiredXrayClientEnforcementDeadline
    (snapshot : NodeAgentConfigurationSnapshot) (now enforcementSlaMs : Z) : option Z :=
  foldl (λ acc grant, match getActiveGrantExpiry grant with
                      | Some expiresAt => if now <? expiresAt then acc
                                          else min_option acc (expiresAt + enforcementSlaMs)
                      | None => acc
                      end) None (sn_grants snapshot).

(** The body of the loop of [findRevokedXrayClientEnforcements]. *)
Definition revocation_enforcement (previousGrants : list (string * NodeAgentGrant))
    (now enforcementSlaMs : Z) (grant : NodeAgentGrant)
    : option XrayClientRevocationEnforcement :=
  match g_status grant, g_revokedAt grant with
  | GRANT_REVOKED, Some revoked =>
      match map_get (g_id grant) previousGrants, Date_parse revoked with
      | Some previousGrant, Some revokedAt =>
          if negb (bool_decide (g_status previousGrant = GRANT_ACTIVE)) ||
             negb (is_null (g_revokedAt previousGrant)) ||
             is_null (g_dataPlaneCredential previousGrant) ||
             sql_le (Date_parse (g_expiresAt previousGrant)) revokedAt ||
             (now <? revokedAt)
          then None
          else Some {| en_grantId := g_id grant; en_deadlineAt := Some (revokedAt + enforcementSlaMs) |}
      | _, _ => None
      end
  | _, _ => None
  end.

Definition findRevokedXrayClientEnforcements
    (previousSnapshot nextSnapshot : NodeAgentConfigurationSnapshot) (now enforcementSlaMs : Z)
    : list XrayClientRevocationEnforcement :=
  let previousGrants := map_of ((λ g, (g_id g, g)) <$> sn_grants previousSnapshot) in
  merge_sort enforcement_order
    (omap (revocation_enforcement previousGrants now enforcementSlaMs) (sn_grants nextSnapshot)).

Definition findRevokedXrayClientEnforcementDeadline
    (previousSnapshot nextSnapshot : NodeAgentConfigurationSnapshot) (now enforcementSlaMs : Z)
    : option Z :=
  foldl (λ acc e, match acc, en_deadlineAt e with
                  | None, d => d
                  | Some m, Some d => Some (Z.min m d)
                  | Some _, None => None
                  end) None
    (findRevokedXrayClientEnforcements previousSnapshot nextSnapshot now enforcementSlaMs).

Definition findSnapshotRevocationEnforcements (snapshot : NodeAgentConfigurationSnapshot)
    (enforcementSlaMs : Z) : list XrayClientRevocationEnforcement :=
  merge_sort enforcement_order
    (omap (λ grant,
       match g_status grant, g_revokedAt grant with
       | GRANT_REVOKED, Some revoked =>
           Some {| en_grantId := g_id grant;
                   en_deadlineAt := (λ t, t + enforcementSlaMs) <$> Date_parse revoked |}
       | _, _ => None
       end) (sn_grants snapshot)).

(** ** Lemmas *)

(** A grant is served at [now] exactly when it is active, not revoked, has a
    credential and has not expired. *)
Definition grants_access (now : Z) (grant : NodeAgentGrant) (client : XrayServableClient) : Prop :=
  g_status grant = GRANT_ACTIVE ∧ g_revokedAt grant = None ∧
  g_dataPlaneCredential grant = Some (cl_credential client) ∧ g_id grant = cl_grantId client ∧
  ∃ expiresAt, Date_parse (g_expiresAt grant) = Some expiresAt ∧ now < expiresAt.

Lemma getActiveGrantExpiry_spec grant e :
  getActiveGrantExpiry grant = Some e ↔
  g_status grant = GRANT_ACTIVE ∧ g_revokedAt grant = None ∧
  is_Some (g_dataPlaneCredential grant) ∧ Date_parse (g_expiresAt grant) = Some e.
Proof.
  unfold getActiveGrantExpiry. case_bool_decide as Hs; simpl; [|naive_solver].
  destruct (g_revokedAt grant); simpl; [naive_solver|].
  destruct (g_dataPlaneCredential grant) eqn:Hc; simpl; split; naive_solver.
Qed.

Lemma servable_client_spec now grant client :
  servable_client now grant = Some client ↔ grants_access now grant client.
Proof.
  unfold servable_client, grants_access.
  destruct (getActiveGrantExpiry grant) as [e|] eqn:He.
  - apply getActiveGrantExpiry_spec in He as (Hs & Hr & [c Hc] & Hd). rewrite Hc.
    destruct (Z.leb_spec e now) as [Hle|Hlt].
    + split; [done|]. intros (_&_&_&_&e'&He'&?). rewrite Hd in He'. simplify_eq. lia.
    + split; [intros [= <-]; naive_solver|]. destruct client as [i k]. simpl.
      intros (_&_&[= ->]&->&_). done.
  - split; [done|]. intros (Hs&Hr&Hc&_&e&He'&_).
    assert (getActiveGrantExpiry grant = Some e) by (apply getActiveGrantExpiry_spec; eauto).
    congruence.
Qed.

Lemma select_servable_elem snapshot now client :
  client ∈ selectServableXrayClients snapshot now ↔
  ∃ grant, grant ∈ sn_grants snapshot ∧ grants_access now grant client.
Proof.
  unfold selectServableXrayClients. rewrite elem_of_merge_sort, list_elem_of_omap.
  by setoid_rewrite servable_client_spec.
Qed.

(** The loops compute minima. *)
Lemma min_option_Some acc x : ∃ m, min_option acc x = Some m.
Proof. destruct acc; simpl; [destruct (_ <? _)|]; eauto. Qed.

Definition is_min (candidates : list Z) (o : option Z) : Prop :=
  match o with
  | None => candidates = []
  | Some m => m ∈ candidates ∧ ∀ x, x ∈ candidates → m ≤ x
  end.

Lemma min_option_is_min l acc x : is_min l acc → is_min (l ++ [x]) (min_option acc x).
Proof.
  destruct acc as [m|]; simpl.
  - intros [Hm Hall]. destruct (Z.ltb_spec x m); simpl; (split; [set_solver|]);
      intros y [Hy|Hy%list_elem_of_singleton]%elem_of_app; subst; try lia;
      apply Hall in Hy; lia.
  - intros ->. simpl. split; [set_solver|]. intros y Hy%list_elem_of_singleton. lia.
Qed.

Lemma foldl_is_min {A} (f : A → option Z) l l0 acc :
  is_min l0 acc →
  is_min (l0 ++ omap f l)
    (foldl (λ acc a, match f a with Some x => min_option acc x | None => acc end) acc l).
Proof.
  revert l0 acc. induction l as [|a l IH]; intros l0 acc Hacc; simpl; [by rewrite app_nil_r|].
  destruct (f a) as [x|]; [|by apply IH].
  rewrite (cons_middle x l0), app_assoc. by apply IH, min_option_is_min.
Qed.

(** The expiries still to come. *)
Definition future_expiry (now : Z) (grant : NodeAgentGrant) : option Z :=
  match getActiveGrantExpiry grant with
  | Some e => if e <=? now then None else Some e
  | None => None
  end.

Lemma findNextXrayClientExpiry_min snapshot now :
  is_min (omap (future_expiry now) (sn_grants snapshot)) (findNextXrayClientExpiry snapshot now).
Proof.
  unfold findNextXrayClientExpiry.
  assert (∀ acc, foldl (λ acc grant, match getActiveGrantExpiry grant with
      | Some expiresAt => if expiresAt <=? now then acc else min_option acc expiresAt
      | None => acc end) acc (sn_grants snapshot) =
    foldl (λ acc a, match future_expiry now a with Some x => min_option acc x | None => acc end)
      acc (sn_grants snapshot)) as ->.
  { induction (sn_grants snapshot) as [|g l IH]; intros acc; simpl; [done|].
    rewrite IH. f_equal. unfold future_expiry. destruct (getActiveGrantExpiry g); [|done].
    by destruct (_ <=? _). }
  by apply (foldl_is_min _ _ [] None).
Qed.
End access.

(** ** Properties *)

(** Exactly the clients with a valid grant are served: a client is
    selected at an instant if and only if some grant of the snapshot is
    ACTIVE, not revoked, carries its credential and expires later.  A grant
    that is pending, revoked, without a credential, expired or with an
    unreadable expiry gives no access. *)
Theorem servable_clients_exact `{LocaleCompare} `{DateStrings} snapshot now client :
  client ∈ selectServableXrayClients snapshot now ↔
  ∃ grant expiresAt, grant ∈ sn_grants snapshot ∧
    g_status grant = GRANT_ACTIVE ∧ g_revokedAt grant = None ∧
    g_dataPlaneCredential grant = Some (cl_credential client) ∧ g_id grant = cl_grantId client ∧
    Date_parse (g_expiresAt grant) = Some expiresAt ∧ now < expiresAt.
Proof. rewrite select_servable_elem. unfold grants_access. naive_solver. Qed.

Lemma servable_before_expiry `{DateStrings} now t grant :
  (∀ e, future_expiry now grant = Some e → t < e) → now ≤ t →
  servable_client t grant = servable_client now grant.
Proof.
  unfold servable_client, future_expiry. intros Hf Hle.
  destruct (getActiveGrantExpiry grant) as [e|]; [|done].
  destruct (Z.leb_spec e now).
  - by rewrite (proj2 (Z.leb_le e t)) by lia.
  - specialize (Hf e eq_refl). by rewrite (proj2 (Z.leb_gt e t)) by lia.
Qed.

(** [findNextXrayClientExpiry] is when the access list next changes: until
    that instant the selected clients stay the same, at that instant a client
    selected before is dropped, and without one the list never changes.  So a
    reconcile at the returned instant misses no expiry. *)
Theorem access_changes_at_next_expiry `{LocaleCompare} `{DateStrings} snapshot now :
  match findNextXrayClientExpiry snapshot now with
  | None => ∀ t, now ≤ t →
      selectServableXrayClients snapshot t = selectServableXrayClients snapshot now
  | Some next =>
      now < next ∧
      (∀ t, now ≤ t < next →
        selectServableXrayClients snapshot t = selectServableXrayClients snapshot now) ∧
      ∃ grant client, grant ∈ sn_grants snapshot ∧
        servable_client now grant = Some client ∧ servable_client next grant = None
  end.
Proof.
  pose proof (findNextXrayClientExpiry_min snapshot now) as Hmin.
  assert (Hsame : ∀ t, now ≤ t →
    (∀ grant e, grant ∈ sn_grants snapshot → future_expiry now grant = Some e → t < e) →
    selectServableXrayClients snapshot t = selectServableXrayClients snapshot now).
  { intros t Ht Hf. unfold selectServableXrayClients. f_equal.
    apply omap_ext_in. intros g Hg. apply servable_before_expiry; [|done].
    intros e. by apply Hf. }
  destruct (findNextXrayClientExpiry snapshot now) as [next|]; simpl in Hmin.
  - destruct Hmin as [(grant & Hg & He)%list_elem_of_omap Hall].
    assert (Hfut : ∃ c, g_dataPlaneCredential grant = Some c ∧
      getActiveGrantExpiry grant = Some next ∧ now < next).
    { unfold future_expiry in He. destruct (getActiveGrantExpiry grant) as [e|] eqn:Hx; [|done].
      destruct (Z.leb_spec e now); [done|]. injection He as ->.
      apply getActiveGrantExpiry_spec in Hx as (_&_&[c Hc]&_). eauto. }
    destruct Hfut as (c & Hc & Hx & Hlt). split; [done|]. split.
    + intros t [Ht Hn]. apply Hsame; [done|]. intros g' e Hg' He'.
      assert (next ≤ e); [|lia]. apply Hall, list_elem_of_omap. eauto.
    + exists grant, {| cl_grantId := g_id grant; cl_credential := c |}. split; [done|].
      unfold servable_client. rewrite Hx, Hc, Z.leb_refl.
      by rewrite (proj2 (Z.leb_gt next now)).
  - intros t Ht. apply Hsame; [done|]. intros g e Hg He.
    assert (e ∈ omap (future_expiry now) (sn_grants snapshot)) as Hin
      by (apply list_elem_of_omap; eauto).
    rewrite Hmin in Hin. by apply not_elem_of_nil in Hin.
Qed.

(** A revocation is enforced in time exactly for the access it ends: the
    enforcements of a new snapshot name the grants that are revoked in it, at
    an instant already past, and that the previous snapshot still served at
    that instant; each has the enforcement SLA from its revocation. *)
Theorem revocation_enforcements_exact `{LocaleCompare} `{DateStrings} previous next now sla e :
  NoDup (g_id <$> sn_grants previous) →
  e ∈ findRevokedXrayClientEnforcements previous next now sla ↔
  ∃ grant revoked revokedAt before,
    grant ∈ sn_grants next ∧ g_status grant = GRANT_REVOKED ∧
    g_revokedAt grant = Some revoked ∧ Date_parse revoked = Some revokedAt ∧ revokedAt ≤ now ∧
    before ∈ sn_grants previous ∧ g_id before = g_id grant ∧
    g_status before = GRANT_ACTIVE ∧ g_revokedAt before = None ∧
    is_Some (g_dataPlaneCredential before) ∧
    (∀ expiresAt, Date_parse (g_expiresAt before) = Some expiresAt → revokedAt < expiresAt) ∧
    e = {| en_grantId := g_id grant; en_deadlineAt := Some (revokedAt + sla) |}.
Proof.
  intros Hnd. unfold findRevokedXrayClientEnforcements.
  rewrite elem_of_merge_sort, list_elem_of_omap.
  set (m := map_of _).
  assert (Hm : ∀ k g, map_get k m = Some g ↔ g ∈ sn_grants previous ∧ g_id g = k).
  { intros k g. unfold m. apply map_of_get_by; done. }
  unfold revocation_enforcement. split.
  - intros (grant & Hg & He).
    destruct (g_status grant) eqn:Hs, (g_revokedAt grant) as [revoked|] eqn:Hr; try done.
    destruct (map_get (g_id grant) m) as [before|] eqn:Hb; [|done].
    destruct (Date_parse revoked) as [revokedAt|] eqn:Hd; [|done].
    apply Hm in Hb as [Hb Hid].
    destruct (_ || _) eqn:Hc in He; [done|]. injection He as <-.
    rewrite !orb_false_iff, !negb_false_iff, bool_decide_eq_true, Z.ltb_ge in Hc.
    destruct Hc as [[[[Hst Hrev] Hcr] Hexp] Hnow].
    exists grant, revoked, revokedAt, before. split_and!; try done.
    + by destruct (g_revokedAt before).
    + by destruct (g_dataPlaneCredential before).
    + intros x Hx. rewrite Hx in Hexp. simpl in Hexp. by apply Z.leb_gt.
  - intros (grant&revoked&revokedAt&before&Hg&Hs&Hr&Hd&Hnow&Hb&Hid&Hst&Hrev&[c Hc]&Hexp&->).
    exists grant. split; [done|]. rewrite Hs, Hr, Hd.
    assert (map_get (g_id grant) m = Some before) as -> by (by apply Hm).
    rewrite bool_decide_eq_true_2, Hrev, Hc by done. simpl.
    rewrite (proj2 (Z.ltb_ge now revokedAt)) by done. rewrite orb_false_r.
    destruct (Date_parse (g_expiresAt before)) as [x|] eqn:Hx; [|done]. simpl.
    by rewrite (proj2 (Z.leb_gt x revokedAt)) by auto.
Qed.

(** An apply that is allowed to start always ends before the deadline:
    when [shouldFailClosed] does not yet force the stop, a whole apply (reload
    and serving verification) and a failing stop after it fit before the
    enforcement deadline; and a production agent that polls, applies and falls
    back stays within the five-minute SLA. *)
Theorem apply_fits_before_deadline mode configured deadline now :
  (shouldFailClosed (Some deadline) now = false →
   now + XRAY_APPLY_MAX_DURATION_MS + XRAY_FAIL_CLOSED_MAX_DURATION_MS < deadline) ∧
  effectiveControlPlaneRetryInterval mode (effectiveControlPlanePollInterval mode configured) ≤
    effectiveControlPlanePollInterval mode configured ∧
  (mode = MODE_XRAY →
   effectiveControlPlanePollInterval mode configured + XRAY_APPLY_MAX_DURATION_MS +
   effectiveControlPlaneRetryInterval mode (effectiveControlPlanePollInterval mode configured) +
   LOCAL_FAIL_CLOSED_RESERVE_MS ≤ ACCESS_CONTROL_ENFORCEMENT_SLA_MS).
Proof.
  unfold shouldFailClosed, effectiveControlPlaneRetryInterval, effectiveControlPlanePollInterval,
    XRAY_APPLY_MAX_DURATION_MS, XRAY_FAIL_CLOSED_MAX_DURATION_MS,
    XRAY_SERVING_VERIFY_MAX_DURATION_MS, XRAY_RELOAD_COMMAND_TIMEOUT_MS,
    XRAY_SERVING_VERIFY_ATTEMPTS, XRAY_DOCKER_COMMAND_TIMEOUT_MS,
    XRAY_SERVING_VERIFY_RETRY_DELAY_MS, LOCAL_FAIL_CLOSED_RESERVE_MS,
    ACCESS_CONTROL_ENFORCEMENT_SLA_MS, PRODUCTION_XRAY_MAX_POLL_INTERVAL_MS,
    LOCAL_SECURITY_RETRY_DELAY_MS.
  split_and!.
  - intros Hf%Z.leb_gt. lia.
  - destruct mode; lia.
  - intros ->. lia.
Qed.
