(* ===== verification/SafeLogger.v ===== *)
(** * Safe logging: [packages/safe-logger/src/index.ts]

    What the logger lets into a log: the patterns of sensitive strings, the
    secret keys, and [sanitizeValue] on JavaScript values, which are references
    into a heap of objects whose getters may throw.  Then the wrapper of the
    logger.  Strings are their UTF-16 code units; [isIP] of node:net is a
    parameter; pino, which formats the arguments it is handed, is not part of the model.
    Proxies are not modelled. *)

From Stdlib Require Import QArith.
From stdpp Require Import gmap pretty.
From S2P Require Import Prelude.
From S2P Require Import Json.
From S2P Require Import Regex.
From S2P Require Import XrayAccess.
Open Scope Z_scope.

(** ** Patterns *)

Definition chars (ranges : list (Z * Z)) : regex := Chars (one_of ranges).
Definition but (ranges : list (Z * Z)) : regex := Chars (none_of ranges).
Definition char (a : string) : regex := literal a.
Definition point (a : string) : list (Z * Z) := unit_range <$> units a.

(** [0-9a-f] and [a-z], whose case is ignored; [A-Za-z\d_-]. *)
Definition hex : list (Z * Z) := [digits; (97, 102); (65, 70)].
Definition letter : list (Z * Z) := [lower; upper].
Definition opaque : list (Z * Z) := upper :: lower :: digits :: point "_-".
Definition non_space : regex := but white_space.
Definition spaces : regex := star (chars white_space).

Definition SAFE_LOG_CENSOR : jstring := units "[REDACTED]".

Definition UUID_PATTERN : regex :=
  sequence [Alt StartOf (but hex); times 8 (chars hex); char "-"; times 4 (chars hex); char "-";
            chars [(49, 56)]; times 3 (chars hex); char "-";
            chars [(56, 57); (97, 98); (65, 66)]; times 3 (chars hex); char "-"; times 12 (chars hex);
            Alt EndOf (but hex)].
(** [25[0-5]|2[0-4]\d|1?\d?\d] *)
Definition ipv4_part : regex :=
  Alt (sequence [char "25"; chars [(48, 53)]])
    (Alt (sequence [char "2"; chars [(48, 52)]; chars [digits]])
         (sequence [maybe (char "1"); maybe (chars [digits]); chars [digits]])).
Definition IPV4_PATTERN : regex :=
  sequence [Alt StartOf (but [digits]); times 3 (sequence [ipv4_part; char "."]); ipv4_part;
            Alt EndOf (but [digits])].
Definition URL_PATTERN : regex :=
  sequence [WordBoundary; chars letter; Repeat (chars (letter ++ digits :: point "+.-")) 1 (Some 31%nat);
            char "://"; plus non_space].
Definition JWT_PATTERN : regex :=
  sequence [WordBoundary; char "eyJ"; plus (chars opaque); char "."; plus (chars opaque); char ".";
            plus (chars opaque); WordBoundary].
Definition PLATFORM_OPAQUE_SECRET_PATTERN : regex :=
  sequence [Alt StartOf (but opaque); times 43 (chars opaque); Alt EndOf (but opaque)].
Definition words (l : list string) : regex := any_literal (literal_i <$> l).
Definition LABELED_SECRET_PATTERN : regex :=
  sequence [WordBoundary;
            Alt (words ["authorization"; "cookie"; "password"; "passphrase"; "token"; "secret"; "credential"])
                (sequence [literal_i "api"; maybe (chars (point "-_ ")); literal_i "key"]);
            spaces; chars (point ":="); spaces; plus non_space].
Definition SUBSCRIPTION_PATH_PATTERN : regex :=
  sequence [char "/"; words ["sub"; "subscription"]; char "/"; plus (but (white_space ++ point "?"))].
(** [\/(?!\/)\S+] *)
Definition target : regex := sequence [char "/"; NotAhead (char "/"); plus non_space].
Definition HTTP_METHOD_TARGET_PATTERN : regex :=
  sequence [Alt StartOf (chars white_space);
            words ["GET"; "HEAD"; "POST"; "PUT"; "PATCH"; "DELETE"; "OPTIONS"; "CONNECT"; "TRACE"];
            plus (chars white_space); target].
Definition RELATIVE_REQUEST_TARGET_PATTERN : regex :=
  sequence [StartOf; char "/"; NotAhead (char "/"); star (but white_space); EndOf].
Definition EMBEDDED_RELATIVE_TARGET_PATTERNS : list regex :=
  [sequence [WordBoundary; maybe (sequence [literal_i "request"; plus (chars white_space)]);
             words ["route"; "url"; "uri"; "path"; "target"]; spaces;
             Alt (sequence [chars (point ":="); spaces]) (plus (chars white_space)); target];
   sequence [WordBoundary; words ["request"; "fetch"; "call"]; WordBoundary;
             Repeat (but [(13, 13); (10, 10)]) 0 (Some 40%nat); WordBoundary; words ["at"; "to"];
             plus (chars white_space); target]].
(** [(?:%[a-z\d_.-]+)?] *)
Definition zone : regex := maybe (sequence [char "%"; plus (chars (letter ++ digits :: point "_.-"))]).
Definition BRACKETED_IPV6_CANDIDATE_PATTERN : regex :=
  sequence [char "["; plus (chars (hex ++ point ":.")); zone; char "]";
            maybe (sequence [char ":"; Repeat (chars [digits]) 1 (Some 5%nat)])].
Definition BARE_IPV6_CANDIDATE_PATTERN : regex :=
  sequence [star (chars (hex ++ point ":")); char ":"; plus (chars (hex ++ point ":")); zone].

(** [/^[A-Z]{3,12}$/] and [/(?:Id|ID|[_-]id)$/] *)
Definition method_pattern : regex := sequence [StartOf; Repeat (chars [upper]) 3 (Some 12%nat); EndOf].
Definition identifier_pattern : regex :=
  sequence [Alt (char "Id") (Alt (char "ID") (sequence [chars (point "_-"); char "id"])); EndOf].

(** ** Strings *)

Definition is_white (c : Z) : bool := in_class (one_of white_space) c.
Fixpoint drop_white (s : jstring) : jstring :=
  match s with c :: s' => if is_white c then drop_white s' else s | [] => [] end.
(** [value.trim()] *)
Definition js_trim (s : jstring) : jstring := reverse (drop_white (reverse (drop_white s))).

Fixpoint starts_with (prefix s : jstring) : bool :=
  match prefix, s with
  | [], _ => true
  | p :: prefix, c :: s => (p =? c) && starts_with prefix s
  | _ :: _, [] => false
  end.
Fixpoint includes (s part : jstring) : bool :=
  starts_with part s || match s with [] => false | _ :: s' => includes s' part end.
Definition ends_with (suffix s : jstring) : bool := starts_with (reverse suffix) (reverse s).
(** [indexOf(c)] of a code unit. *)
Fixpoint index_of (c : Z) (s : jstring) : option nat :=
  match s with [] => None | d :: s' => if c =? d then Some O else S <$> index_of c s' end.

Definition is_alphanumeric (c : Z) : bool := in_class (one_of (letter ++ [digits])) c.
Definition lower_case (c : Z) : Z := if (65 <=? c) && (c <=? 90) then c + 32 else c.
Definition normalizeKey (key : jstring) : jstring := lower_case <$> filter (λ c, is_alphanumeric c = true) key.

Definition isIdentifierKey (key : jstring) : bool :=
  bool_decide (key = units "id") || test key identifier_pattern.

Definition SECRET_KEY_PARTS : list jstring :=
  units <$> ["authorization"; "cookie"; "password"; "passphrase"; "passwd"; "token"; "secret"; "credential";
             "apikey"; "privatekey"; "accesskey"; "signingkey"; "signature"; "ciphertext"; "nonce"; "kek";
             "vpnkey"; "vpncredential"; "initdata"; "subscriptionurl"; "redisurl"; "databaseurl";
             "connectionstring"; "remoteaddress"; "remoteport"; "clientip"; "ipaddress"; "forwardedfor"]%string.
Definition SENSITIVE_KEY_FAMILIES : list jstring :=
  units <$> ["authentication"; "challenge"; "prelaunch"; "session"; "bearer"; "auth"]%string.
Definition SENSITIVE_FAMILY_SUFFIXES : list jstring :=
  units <$> ["id"; "key"; "token"; "secret"; "credential"; "cookie"; "code"; "verifier"; "nonce"; "proof";
             "fingerprint"; "hash"; "value"; "material"]%string.

Definition isSensitiveKeyFamily (normalized : jstring) : bool :=
  existsb (λ family,
    bool_decide (normalized = family) ||
    starts_with family normalized &&
      existsb (λ candidate, starts_with candidate (drop (length family) normalized)) SENSITIVE_FAMILY_SUFFIXES)
  SENSITIVE_KEY_FAMILIES.

(** ** Values *)

(** A number: a rational, or NaN and the infinities. *)
Inductive number := Finite (q : Q) | NotFinite (name : string).
Notation loc := positive.
Inductive value :=
| VUndefined
| VNull
| VBool (b : bool)
| VNumber (n : number)
| VString (s : jstring)
| VBigInt (z : Z)
| VSymbol
| VFunction
| VObject (l : loc).

(** A property: what it holds, or a getter that throws. *)
Inductive slot := Holds (v : value) | Raises.
Inductive objectkind :=
| PlainObject
| ArrayObject (elements : list (option slot))  (** holes are [None] *)
| ErrorObject (constructorName : option jstring)  (** [None] when reading it throws *)
| DateObject (time : option Z)
| BinaryObject.
(** The own enumerable properties in order, and the other properties that can
    be read: inherited or not enumerable. *)
Record object := {
  ob_kind : objectkind;
  ob_own : list (jstring * slot);
  ob_other : list (jstring * slot);
}.
Notation heap := (gmap loc object).

(** What is handed to the log: a tree. *)
Inductive out :=
| ONull
| OBool (b : bool)
| ONumber (n : number)
| OString (s : jstring)
| OArray (elements : list (option out))
| OObject (members : list (jstring * out)).

(** ** The checks *)

Definition isSafeAggregate (normalized : jstring) (v : value) : bool :=
  match v with
  | VBool _ => true
  | VNumber (Finite _) => ends_with (units "count") normalized
  | VString _ => ends_with (units "outcome") normalized
  | _ => false
  end.
(** The last part of [isSecretKey]. *)
Definition secret_name (key : jstring) : bool :=
  let normalized := normalizeKey key in
  existsb (includes normalized) SECRET_KEY_PARTS ||
  isSensitiveKeyFamily normalized ||
  ends_with (units "url") normalized ||
  ends_with (units "uri") normalized ||
  bool_decide (normalized = units "ip") ||
  bool_decide (normalized = units "headers") ||
  bool_decide (normalized = units "header") ||
  isIdentifierKey key.
Definition isSecretKey (key : jstring) (v : value) : bool :=
  if isSafeAggregate (normalizeKey key) v then false else secret_name key.

Section strings.
Context (isIP : jstring → Z).

Definition normalizeIpv6Candidate (candidate : jstring) : jstring :=
  let inside := match candidate with
                | 91 :: rest => match index_of 93 rest with Some n => Some (take n rest) | None => None end
                | _ => Some candidate
                end in
  match inside with
  | None => []
  | Some normalized => match index_of 37 normalized with Some n => take n normalized | None => normalized end
  end.
Definition containsIpv6 (s : jstring) : bool :=
  existsb (λ pattern, existsb (λ candidate, isIP (normalizeIpv6Candidate candidate) =? 6) (match_all s pattern))
    [BRACKETED_IPV6_CANDIDATE_PATTERN; BARE_IPV6_CANDIDATE_PATTERN].

Definition containsSensitiveString (s : jstring) : bool :=
  let trimmed := js_trim s in
  negb (isIP trimmed =? 0) ||
  test s UUID_PATTERN ||
  test s IPV4_PATTERN ||
  containsIpv6 s ||
  test s URL_PATTERN ||
  test s JWT_PATTERN ||
  test s PLATFORM_OPAQUE_SECRET_PATTERN ||
  test s LABELED_SECRET_PATTERN ||
  test s SUBSCRIPTION_PATH_PATTERN ||
  test s HTTP_METHOD_TARGET_PATTERN ||
  existsb (test s) EMBEDDED_RELATIVE_TARGET_PATTERNS ||
  test trimmed RELATIVE_REQUEST_TARGET_PATTERN.

Definition sanitizeString (s : jstring) : jstring :=
  if containsSensitiveString s then SAFE_LOG_CENSOR else s.
End strings.

(** ** Sanitizing *)

(** A throw, and the objects already expanded. *)
Notation LogM := (M (gset loc) unit).

Definition empty_object : object := {| ob_kind := PlainObject; ob_own := []; ob_other := [] |}.
Definition censored : out := OString SAFE_LOG_CENSOR.
Definition key_is (key : option jstring) (names : list string) : bool :=
  match key with Some k => existsb (λ n, bool_decide (k = units n)) names | None => false end.

Definition HTTP_REQUEST_MARKER_KEYS : list jstring :=
  units <$> ["url"; "originalUrl"; "headers"; "query"; "params"; "body"; "socket"; "raw"]%string.
Definition HTTP_RESPONSE_MARKER_KEYS : list jstring :=
  units <$> ["body"; "headers"; "raw"; "socket"; "statusMessage"]%string.

Section sanitize.
Context (isIP : jstring → Z) `{DateStrings} (h : heap).
Notation sanitizeString := (sanitizeString isIP).

Definition object_of (l : loc) : object := default empty_object (h !! l).
Definition from_slot (x : slot) : LogM value := match x with Holds v => mret v | Raises => throw tt end.
Fixpoint slot_of (key : jstring) (l : list (jstring * slot)) : option slot :=
  match l with [] => None | (k, x) :: l' => if bool_decide (k = key) then Some x else slot_of key l' end.
Definition properties (l : loc) : list (jstring * slot) := ob_own (object_of l) ++ ob_other (object_of l).

Definition getRecord (v : value) : option loc := match v with VObject l => Some l | _ => None end.
(** [record?.key] *)
Definition read (record : option loc) (key : string) : LogM value :=
  match record with
  | None => mret VUndefined
  | Some l => match slot_of (units key) (properties l) with Some x => from_slot x | None => mret VUndefined end
  end.
Definition has_key (l : loc) (key : jstring) : bool := negb (is_null (slot_of key (properties l))).
Definition nullish (v : value) : bool := match v with VUndefined | VNull => true | _ => false end.

(** [record?.key ?? raw?.key], with the record [raw]. *)
Definition read_or_raw (record : option loc) (key : string) : LogM (value * option loc) :=
  rawValue ← read record "raw";
  let raw := getRecord rawValue in
  v ← read record key;
  if nullish v then w ← read raw key; mret (w, raw) else mret (v, raw).

Definition http_method (v : value) : option jstring :=
  match v with VString s => if test s method_pattern then Some s else None | _ => None end.
Definition http_status (v : value) : option Q :=
  match v with VNumber (Finite q) => if is_null (Q_int q) then None else Some q | _ => None end.

Definition projectRequest (v : value) : LogM out :=
  r ← read_or_raw (getRecord v) "method";
  mret match http_method r.1 with
       | Some m => OObject [(units "method", OString m)]
       | None => OObject []
       end.
Definition projectResponse (v : value) : LogM out :=
  r ← read_or_raw (getRecord v) "statusCode";
  mret match http_status r.1 with
       | Some q => OObject [(units "statusCode", ONumber (Finite q))]
       | None => OObject []
       end.

Definition type_record (s : jstring) : out := OObject [(units "type", OString s)].
Definition projectError (v : value) : LogM out :=
  let other :=
    t ← read (getRecord v) "type";
    type ← (if nullish t then read (getRecord v) "name" else mret t);
    mret match type with
         | VString s => type_record (sanitizeString s)
         | _ => type_record (units "Error")
         end in
  match v with
  | VObject l =>
      match ob_kind (object_of l) with
      | ErrorObject None => throw tt
      | ErrorObject (Some name) =>
          mret (type_record (sanitizeString (if bool_decide (name = []) then units "Error" else name)))
      | _ => other
      end
  | _ => other
  end.

Definition isHttpRequestLike (v : value) : LogM bool :=
  match getRecord v with
  | None => mret false
  | Some l =>
      r ← read_or_raw (Some l) "method";
      mret match http_method r.1 with
           | Some _ => existsb (has_key l) HTTP_REQUEST_MARKER_KEYS
           | None => false
           end
  end.
Definition isHttpResponseLike (v : value) : LogM bool :=
  match getRecord v with
  | None => mret false
  | Some l =>
      r ← read_or_raw (Some l) "statusCode";
      mret match http_status r.1 with
           | Some _ => negb (is_null r.2) || existsb (has_key l) HTTP_RESPONSE_MARKER_KEYS
           | None => false
           end
  end.

(** [if (seen.has(value)) return SAFE_LOG_CENSOR; seen.add(value); ...] *)
Definition expand (l : loc) (m : LogM out) : LogM out :=
  seen ← get;
  if bool_decide (l ∈ seen) then mret censored else modify (union {[l]});; m.

Definition if_then (condition : LogM bool) (m otherwise : LogM out) : LogM out :=
  condition ≫= λ b : bool, if b then m else otherwise.

(** [budget]: 12 - depth. *)
Fixpoint sanitizeValue (budget : nat) (v : value) (key : option jstring) : LogM out :=
  if key_is key ["req"; "request"] then projectRequest v
  else if key_is key ["res"; "response"] then projectResponse v
  else if key_is key ["err"; "error"] then projectError v
  else if from_option (λ k, isSecretKey k v) false key then mret censored
  else
    match v with
    | VString s => mret (OString (sanitizeString s))
    | VNull => mret ONull
    | VNumber n => mret (ONumber n)
    | VBool b => mret (OBool b)
    | VBigInt z => mret (OString (units (pretty z)))
    | VUndefined | VSymbol | VFunction => mret censored
    | VObject l =>
        match budget with
        | O => mret censored
        | S budget =>
            if_then (isHttpRequestLike v) (projectRequest v) (
            if_then (isHttpResponseLike v) (projectResponse v) (
            match ob_kind (object_of l) with
            | ErrorObject _ => projectError v
            | DateObject None => throw tt
            | DateObject (Some t) => mret (OString (units (toISOString t)))
            | BinaryObject => mret censored
            | ArrayObject elements => expand l (
                es ← mapM (λ element : option slot,
                       match element with
                       | None => mret None
                       | Some x => entry ← from_slot x; o ← sanitizeValue budget entry None; mret (Some o)
                       end) elements;
                mret (OArray es))
            | PlainObject => expand l (
                entries ← mapM (λ kx : jstring * slot, entry ← from_slot kx.2; mret (kx.1, entry))
                            (ob_own (object_of l));
                members ← mapM (λ kv : jstring * value,
                            o ← sanitizeValue budget kv.2 (Some kv.1); mret (kv.1, o)) entries;
                mret (OObject members))
            end))
        end
    end.
End sanitize.

(** ** The logger *)

Section logger.
Context (isIP : jstring → Z) `{DateStrings}.

Definition is_error (h : heap) (v : value) : bool :=
  match v with
  | VObject l => match ob_kind (object_of h l) with ErrorObject _ => true | _ => false end
  | _ => false
  end.

Definition sanitize_argument (h : heap) (iv : nat * value) : LogM out :=
  if (iv.1 =? 0)%nat && is_error h iv.2
  then e ← projectError isIP h iv.2; mret (OObject [(units "err", e)])
  else sanitizeValue isIP h 12 iv.2 None.
Definition sanitizeLogArguments (h : heap) (args : list value) : outcome unit (list out) :=
  (mapM (sanitize_argument h) (imap pair args) (∅ : gset loc)).1.

Definition minimalSafeLogArguments : list out :=
  [OObject [(units "sanitizationFailure", OBool true)]; censored].

(** The hook [logMethod]: what pino is called with. *)
Definition logMethod (h : heap) (args : list value) : list out :=
  match sanitizeLogArguments h args with
  | Ok sanitized => sanitized
  | Throw _ => minimalSafeLogArguments
  end.

(** [safeRequest], [safeResponse] and [safeError] *)
Definition or_else (fallback : out) (m : LogM out) : out :=
  match (m (∅ : gset loc)).1 with Ok o => o | Throw _ => fallback end.
Definition safeRequest (h : heap) (v : value) : out := or_else (OObject []) (projectRequest h v).
Definition safeResponse (h : heap) (v : value) : out := or_else (OObject []) (projectResponse h v).
Definition safeError (h : heap) (v : value) : out :=
  or_else (type_record (units "Error")) (projectError isIP h v).

Definition UNSAFE_BINDING_KEYS : list jstring :=
  units <$> ["__proto__"; "prototype"; "constructor"; "hasOwnProperty"]%string.
(** [Object.entries] of what [sanitizeValue] returns, when it is an object. *)
Definition members_of (o : out) : option (list (jstring * out)) :=
  match o with
  | OObject members => Some members
  | OArray elements =>
      Some (omap (λ ie : nat * option out, (λ e, (units (pretty ie.1), e)) <$> ie.2) (imap pair elements))
  | _ => None
  end.
Definition toPinoBindings (members : list (jstring * out)) : list (jstring * out) :=
  filter (λ m : jstring * out, m.1 ∉ UNSAFE_BINDING_KEYS) members.
Definition trySanitizeBindings (h : heap) (bindings : value) : bool * list (jstring * out) :=
  match (sanitizeValue isIP h 12 bindings None (∅ : gset loc)).1 with
  | Ok o => match members_of o with
            | Some members => (true, toPinoBindings members)
            | None => (false, [])
            end
  | Throw _ => (false, [])
  end.
Definition sanitizeBindings (h : heap) (bindings : value) : list (jstring * out) :=
  (trySanitizeBindings h bindings).2.

Definition SAFE_LOG_METHODS : list string := ["trace"; "debug"; "info"; "warn"; "error"; "fatal"].

(** A wrapped logger: the bindings pino has been given, and whether its records
    are forced to be minimal. *)
Record Logger := { lg_bindings : list (list (jstring * out)); lg_forceMinimalRecord : bool }.
Definition createSafeLogger : Logger := {| lg_bindings := []; lg_forceMinimalRecord := false |}.
Definition child (h : heap) (logger : Logger) (bindings : value) : Logger :=
  let '(ok, sanitized) := trySanitizeBindings h bindings in
  {| lg_bindings := lg_bindings logger ++ [sanitized];
     lg_forceMinimalRecord := lg_forceMinimalRecord logger || negb ok |}.

(** The minimal arguments as values: the hook sees them too. *)
Definition minimal_object : object :=
  {| ob_kind := PlainObject; ob_own := [(units "sanitizationFailure", Holds (VBool true))]; ob_other := [] |}.
(** The argument list the hook passes on to pino's method for a call: what pino
    then makes of it (printf interpolation of a message, the merging of objects
    and bindings into a line) is pino's. *)
Definition log (h : heap) (logger : Logger) (method : string) (args : list value) : list out :=
  if lg_forceMinimalRecord logger && bool_decide (method ∈ SAFE_LOG_METHODS)
  then let l := fresh (dom h) in
       logMethod (<[l := minimal_object]> h) [VObject l; VString SAFE_LOG_CENSOR]
  else logMethod h args.
End logger.
