(* ===== verification/HealthEvidence.v ===== *)
(** * Health evidence: [packages/orchestration-store/src/health-evidence-store.ts]

    [PrismaHealthEvidenceStore]: probe results are recorded once, and a health
    cycle is evaluated against the stored state and applied as one decision.
    A transaction is one atomic step (the advisory locks and the row locks
    serialise them; a serialization failure is the argument [aborted]), and
    reads the clock once.  An id that is cast to uuid is its lower-case text
    from then on ([uuid_text]).  SHA-256 of a document's JSON text is a
    parameter. *)

From stdpp Require Import pretty.
From S2P Require Import Prelude.
From S2P Require Import Text.
From S2P Require Import Json.
From S2P Require Import OperationalPolicy.
From S2P Require Import HealthDecision.
From S2P Require Import Sql.
From S2P Require Import XrayAccess.
From S2P Require Import HealthStore.
Open Scope Z_scope.

(** ** Input schemas *)

Definition databaseInteger (z : Z) : bool := (0 <=? z) && (z <=? 2147483647).

Record RecordProbeResultInput := {
  rp_probeSourceId : string;
  rp_sourceResultId : string;
  rp_affectedScope : Scope;
  rp_cycleStartedAt : Z;
  rp_routeVersion : Z;
  rp_outcome : ProbeOutcome;
  rp_failureClass : option RouteFailureClass;
  rp_controlHealthy : bool;
}.

Record ApplyHealthCycleInput := {
  ah_affectedScope : Scope;
  ah_routeVersion : Z;
  ah_cycleStartedAt : Z;
  ah_probeResultIds : list string;
  ah_lastHeartbeatAt : option Z;
  ah_recoveryGates : RecoveryGates;
  ah_criticalTrustFailure : option CriticalTrustFailure;
}.

(** [z.string().trim().min(1).max(128)] *)
Definition trimmed_text (s : string) : option string :=
  guard (bounded_text 128 (trim s) = true);; Some (trim s).
Definition scopeSchema (s : Scope) : option Scope :=
  id ← trimmed_text (scope_id s); Some {| scope_kind := scope_kind s; scope_id := id |}.

Record PersistedHealthState := { ph_state : HealthDecisionState; ph_version : Z }.
Record RecordedProbeResult := { rec_signal : ProbeSignal; rec_replayed : bool }.
Record AppliedHealthDecision := {
  ad_decisionId : string;
  ad_idempotencyKey : string;
  ad_stateVersion : Z;
  ad_replayed : bool;
}.

Definition probeRowToSignal (id : string) (r : ProbeResult) : ProbeSignal :=
  {| ps_id := id; ps_sourceId := rs_probeSourceId r;
     ps_independenceKey := rs_sourceIndependenceKey r;
     ps_cycleStartedAt := rs_cycleStartedAt r; ps_receivedAt := rs_receivedAt r;
     ps_authenticated := true; ps_controlHealthy := rs_controlHealthy r;
     ps_routeVersion := rs_routeVersion r; ps_outcome := rs_outcome r;
     ps_failureClass := rs_failureClass r |}.

Definition scope_kind_name (k : HealthScopeKind) : string :=
  match k with PROFILE => "PROFILE" | ENDPOINT => "ENDPOINT" | NODE => "NODE"
  | PROVIDER_ASN => "PROVIDER_ASN" end.
Definition critical_kind_name (k : CriticalKind) : string :=
  match k with UNTRUSTED_CLOCK => "UNTRUSTED_CLOCK" | CREDENTIAL_COMPROMISE => "CREDENTIAL_COMPROMISE"
  | UNSAFE_RUNTIME => "UNSAFE_RUNTIME" end.

Section evidence.
Context (uuid : nat → string) (is_uuid : string → bool) (sha256 : json → string).
Context `{LocaleCompare} `{DateStrings}.

Definition recordProbeResultSchema (input : RecordProbeResultInput)
    : option RecordProbeResultInput :=
  resultId ← trimmed_text (rp_sourceResultId input);
  scope ← scopeSchema (rp_affectedScope input);
  guard (is_uuid (rp_probeSourceId input) = true);;
  guard (time_value (rp_cycleStartedAt input));;
  guard (databaseInteger (rp_routeVersion input) = true);;
  guard (Bool.eqb (bool_decide (rp_outcome input = PO_FAILURE))
           (negb (is_null (rp_failureClass input))) = true);;
  Some {| rp_probeSourceId := rp_probeSourceId input; rp_sourceResultId := resultId;
          rp_affectedScope := scope; rp_cycleStartedAt := rp_cycleStartedAt input;
          rp_routeVersion := rp_routeVersion input; rp_outcome := rp_outcome input;
          rp_failureClass := rp_failureClass input;
          rp_controlHealthy := rp_controlHealthy input |}.

Definition applyHealthCycleSchema (input : ApplyHealthCycleInput) : option ApplyHealthCycleInput :=
  scope ← scopeSchema (ah_affectedScope input);
  critical ← match ah_criticalTrustFailure input with
             | None => Some None
             | Some f => id ← trimmed_text (ctf_signalId f);
                         Some (Some {| ctf_signalId := id; ctf_kind := ctf_kind f |})
             end;
  guard (databaseInteger (ah_routeVersion input) = true);;
  guard (time_value (ah_cycleStartedAt input));;
  guard (forallb is_uuid (ah_probeResultIds input) = true);;
  guard (length (ah_probeResultIds input) ≤ 32)%nat;;
  guard (from_option time_value true (ah_lastHeartbeatAt input) = true);;
  guard (databaseInteger (rg_desiredVersion (ah_recoveryGates input)) = true);;
  guard (databaseInteger (rg_appliedVersion (ah_recoveryGates input)) = true);;
  guard (NoDup (ah_probeResultIds input));;
  guard (critical = None ∨ ah_probeResultIds input = []);;
  Some {| ah_affectedScope := scope; ah_routeVersion := ah_routeVersion input;
          ah_cycleStartedAt := ah_cycleStartedAt input;
          ah_probeResultIds := ah_probeResultIds input;
          ah_lastHeartbeatAt := ah_lastHeartbeatAt input;
          ah_recoveryGates := ah_recoveryGates input;
          ah_criticalTrustFailure := critical |}.

Definition nullable_time (o : option Z) : json :=
  match o with Some t => JStr (toISOString t) | None => JNull end.

(** The document [cycleIdempotencyKey] hashes. *)
Definition cycle_document (expectedVersion : Z) (input : ApplyHealthCycleInput) : json :=
  let gates := ah_recoveryGates input in
  JObj [("expectedVersion", JStr (pretty expectedVersion));
        ("affectedScope", JObj [("kind", JStr (scope_kind_name (scope_kind (ah_affectedScope input))));
                                ("id", JStr (scope_id (ah_affectedScope input)))]);
        ("routeVersion", jint (ah_routeVersion input));
        ("cycleStartedAt", JStr (toISOString (ah_cycleStartedAt input)));
        ("probeResultIds", JArr (JStr <$> sort_strings (ah_probeResultIds input)));
        ("lastHeartbeatAt", nullable_time (ah_lastHeartbeatAt input));
        ("recoveryGates", JObj [("clockTrusted", JBool (rg_clockTrusted gates));
                                ("servingCheckPassed", JBool (rg_servingCheckPassed gates));
                                ("desiredVersion", jint (rg_desiredVersion gates));
                                ("appliedVersion", jint (rg_appliedVersion gates))]);
        ("criticalTrustFailure",
         match ah_criticalTrustFailure input with
         | Some f => JObj [("signalId", JStr (ctf_signalId f));
                           ("kind", JStr (critical_kind_name (ctf_kind f)))]
         | None => JNull
         end)]%string.
Definition cycleIdempotencyKey (expectedVersion : Z) (input : ApplyHealthCycleInput) : string :=
  sha256 (cycle_document expectedVersion input).

(** ** [recordProbeResult] *)

Definition same_source_result (input : RecordProbeResultInput) (r : ProbeResult) : bool :=
  bool_decide (rs_probeSourceId r = uuid_text (rp_probeSourceId input)) &&
  bool_decide (rs_sourceResultId r = rp_sourceResultId input).

Definition exactRetry (input : RecordProbeResultInput) (r : ProbeResult) : bool :=
  bool_decide (rs_scope r = rp_affectedScope input) &&
  (rs_cycleStartedAt r =? rp_cycleStartedAt input) &&
  (rs_routeVersion r =? rp_routeVersion input) &&
  bool_decide (rs_outcome r = rp_outcome input) &&
  bool_decide (rs_failureClass r = rp_failureClass input) &&
  Bool.eqb (rs_controlHealthy r) (rp_controlHealthy input).

Definition new_result (input : RecordProbeResultInput) (independenceKey : string) (now : Z)
    : ProbeResult :=
  {| rs_probeSourceId := uuid_text (rp_probeSourceId input); rs_sourceResultId := rp_sourceResultId input;
     rs_sourceIndependenceKey := independenceKey; rs_scope := rp_affectedScope input;
     rs_cycleStartedAt := rp_cycleStartedAt input; rs_routeVersion := rp_routeVersion input;
     rs_outcome := rp_outcome input; rs_failureClass := rp_failureClass input;
     rs_controlHealthy := rp_controlHealthy input; rs_receivedAt := now |}.

Definition recordProbeResultInTransaction (untrustedInput : RecordProbeResultInput) (now : Z)
    : HealthM RecordedProbeResult :=
  match recordProbeResultSchema untrustedInput with
  | None => throw HealthZodError
  | Some input =>
      db ← get;
      match map_to_list (sql_where (same_source_result input) (h_results db)) with
      | (id, r) :: _ =>
          if exactRetry input r
          then mret {| rec_signal := probeRowToSignal id r; rec_replayed := true |}
          else throw (HealthThrown "Probe result replay key conflicts with stored data")
      | [] =>
          id ← draw uuid;
          match h_sources db !! uuid_text (rp_probeSourceId input) with
          | Some source =>
              if bool_decide (so_status source = SOURCE_ACTIVE) then
                let r := new_result input (so_independenceKey source) now in
                probe_result_insert id r;;
                mret {| rec_signal := probeRowToSignal id r; rec_replayed := false |}
              else throw (HealthThrown "Active probe source is unavailable")
          | None => throw (HealthThrown "Active probe source is unavailable")
          end
      end
  end.

Definition recordProbeResult (untrustedInput : RecordProbeResultInput) (now : Z)
    : HealthM RecordedProbeResult :=
  atomically (recordProbeResultInTransaction untrustedInput now).

(** ** [loadState] *)

Definition state_of_scope (scope : Scope) (db : HealthDb) : option (string * StateRow) :=
  head (filter (λ kv : string * StateRow, st_scope kv.2 = scope) (map_to_list (h_states db))).

Definition loadState (affectedScope : Scope) (db : HealthDb) : outcome HealthError PersistedHealthState :=
  match scopeSchema affectedScope with
  | None => Throw HealthZodError
  | Some scope =>
      Ok (match state_of_scope scope db with
          | Some (_, s) => {| ph_state := st_state s; ph_version := st_version s |}
          | None => {| ph_state := initial_health_state; ph_version := 0 |}
          end)
  end.

(** ** [evaluateAndApplyDecision] *)

(** The cycle of the newest decision of the state that has one. *)
Definition version_newest_first : relation (Z * Z) := by_key fst (flip Z.le).
#[export] Instance version_newest_first_dec x y : Decision (version_newest_first x y).
Proof. unfold version_newest_first, by_key, flip. apply _. Defined.
#[export] Instance version_newest_first_total : Total version_newest_first.
Proof. intros x y. unfold version_newest_first, by_key, flip. lia. Qed.
#[export] Instance version_newest_first_trans : Transitive version_newest_first.
Proof. intros x y z. unfold version_newest_first, by_key, flip. lia. Qed.
Definition previous_cycle (db : HealthDb) (stateId : string) : option Z :=
  snd <$> head (merge_sort version_newest_first
    (omap (λ kv : string * DecisionRow,
       guard (de_availabilityStateId kv.2 = stateId);;
       startedAt ← de_cycleStartedAt kv.2; Some (de_stateVersion kv.2, startedAt))
     (map_to_list (h_decisions db)))).

(** [WHERE result.id IN (...) ORDER BY result."receivedAt", result.id] *)
Definition received_order : relation (string * ProbeResult) :=
  lex (λ kv : string * ProbeResult, rs_receivedAt kv.2) Z.lt (by_key fst String.le).
#[export] Instance received_order_dec x y : Decision (received_order x y).
Proof. unfold received_order. apply _. Defined.
Definition probe_rows (db : HealthDb) (ids : list string) : list (string * ProbeResult) :=
  merge_sort received_order (filter (λ kv : string * ProbeResult, kv.1 ∈ ids) (map_to_list (h_results db))).

(** The results already counted by a decision. *)
Definition consumed_ids (db : HealthDb) (ids : list string) : list string :=
  remove_dups (omap (λ kv : (string * string) * SignalRow,
    guard (kv.1.2 ∈ ids);; guard (sg_disposition kv.2 = ACCEPTED);; Some kv.1.2)
    (map_to_list (h_signals db))).

Definition evaluation_input (db : HealthDb) (input : ApplyHealthCycleInput) (current : StateRow)
    (now : Z) : EvaluateHealthCycleInput :=
  {| in_policy := (λ v, {| pi_id := pv_id v; pi_code := pv_code v; pi_config := pv_config v |}) <$>
                  latest_policy (h_activations db) (h_versions db);
     in_affectedScope := ah_affectedScope input;
     in_routeVersion := ah_routeVersion input;
     in_cycleStartedAt := ah_cycleStartedAt input;
     in_evaluatedAt := now;
     in_signals := (λ kv : string * ProbeResult, probeRowToSignal kv.1 kv.2) <$>
                   probe_rows db (uuid_text <$> ah_probeResultIds input);
     in_consumedSignalIds := consumed_ids db (uuid_text <$> ah_probeResultIds input);
     in_previousState := st_state current;
     in_lastHeartbeatAt := ah_lastHeartbeatAt input;
     in_recoveryGates := ah_recoveryGates input;
     in_criticalTrustFailure := ah_criticalTrustFailure input |}.

(** [decision.cycle?.signalEvaluations ?? ...] *)
Definition signal_evaluations (decision : HealthDecision) (ids : list string)
    : list ProbeSignalEvaluation :=
  match hd_cycle decision with
  | Some cycle => cycle_signalEvaluations cycle
  | None => (λ id, {| ev_signalId := id; ev_disposition := REJECTED;
                      ev_rejectionReason := Some POLICY_UNAVAILABLE |}) <$> sort_strings ids
  end.

Definition decision_row (key stateId : string) (stateVersion : Z) (input : ApplyHealthCycleInput)
    (d : HealthDecision) : DecisionRow :=
  {| de_idempotencyKey := key; de_availabilityStateId := stateId; de_stateVersion := stateVersion;
     de_healthPolicyVersionId := pvr_id <$> hd_policyVersion d;
     de_signalIds := hd_signalIds d;
     de_inputProbeResultIds := sort_strings (ah_probeResultIds input);
     de_reason := hd_reason d; de_state := set_status (hd_decision d) (hd_state d);
     de_allowNewAssignments := hd_allowNewAssignments d;
     de_triggerReplacement := hd_triggerReplacement d; de_triggerIncident := hd_triggerIncident d;
     de_cycleStartedAt := cycle_startedAt <$> hd_cycle d;
     de_routeVersion := (λ _, ah_routeVersion input) <$> hd_cycle d;
     de_cycleDecision := cycle_decision <$> hd_cycle d;
     de_failureClass := hd_cycle d ≫= cycle_failureClass;
     de_additionalProbeDueAt := hd_cycle d ≫= cycle_additionalProbeDueAt |}.

Definition refuse (b : bool) (message : string) : HealthM unit := throw_if b (HealthThrown message).

(** The decision, its signals and the state it leaves. *)
Definition persist_decision (input : ApplyHealthCycleInput) (expectedVersion : Z) (key stateId : string)
    (current : StateRow) (decision : HealthDecision) : HealthM AppliedHealthDecision :=
  let stateVersion := expectedVersion + 1 in
  decisionId ← draw uuid;
  decision_insert decisionId (decision_row key stateId stateVersion input decision);;
  for_each (signal_evaluations decision (ah_probeResultIds input)) (λ e,
    signal_insert decisionId (uuid_text (ev_signalId e))
      {| sg_disposition := ev_disposition e; sg_rejectionReason := ev_rejectionReason e |});;
  updated ← state_update stateId expectedVersion
    {| st_scope := st_scope current; st_state := hd_state decision; st_version := stateVersion |};
  refuse (negb (updated =? 1)) "Availability state version conflict";;
  mret {| ad_decisionId := decisionId; ad_idempotencyKey := key;
          ad_stateVersion := stateVersion; ad_replayed := false |}.

(** Everything after the idempotency check. *)
Definition apply_decision (input : ApplyHealthCycleInput) (expectedVersion : Z) (key : string)
    (now : Z) : HealthM AppliedHealthDecision :=
  let scope := ah_affectedScope input in
  newStateId ← draw uuid;
  state_ensure newStateId scope;;
  db ← get;
  match state_of_scope scope db with
  | None => throw (HealthThrown "Availability state version conflict")
  | Some (stateId, current) =>
      refuse (negb (st_version current =? expectedVersion)) "Availability state version conflict";;
      refuse (now <? ah_cycleStartedAt input) "Health cycle cannot start in the future";;
      refuse (sql_gt (ah_lastHeartbeatAt input) now) "Heartbeat cannot be in the future";;
      refuse (is_null (ah_criticalTrustFailure input) &&
              match previous_cycle db stateId with
              | Some t => ah_cycleStartedAt input <=? t
              | None => false
              end) "Health cycle is not newer than current state";;
      let rows := probe_rows db (uuid_text <$> ah_probeResultIds input) in
      refuse (negb (length rows =? length (ah_probeResultIds input))%nat)
        "One or more probe results are unavailable";;
      refuse (existsb (λ kv : string * ProbeResult, negb (bool_decide (rs_scope kv.2 = scope))) rows)
        "Probe result scope does not match health cycle";;
      persist_decision input expectedVersion key stateId current
        (evaluateHealthCycle (evaluation_input db input current now))
  end.

Definition decision_by_key (key : string) (db : HealthDb) : option (string * DecisionRow) :=
  head (filter (λ kv : string * DecisionRow, de_idempotencyKey kv.2 = key)
    (map_to_list (h_decisions db))).

Definition evaluateAndApplyDecision (untrustedInput : ApplyHealthCycleInput) (expectedVersion : Z)
    (aborted : bool) (now : Z) : HealthM AppliedHealthDecision :=
  match applyHealthCycleSchema untrustedInput with
  | None => throw HealthZodError
  | Some input =>
      refuse (expectedVersion <? 0) "Expected state version is invalid";;
      let key := cycleIdempotencyKey expectedVersion input in
      refuse aborted "Availability state version conflict";;
      atomically (
        db ← get;
        match decision_by_key key db with
        | Some (id, d) =>
            mret {| ad_decisionId := id; ad_idempotencyKey := key;
                    ad_stateVersion := de_stateVersion d; ad_replayed := true |}
        | None => apply_decision input expectedVersion key now
        end)
  end.
End evidence.
