(* ===== verification/HealthAction.v ===== *)
(** * Health actions: [packages/orchestration-store/src/health-action-store.ts]

    [PrismaHealthActionStore]: a decision that triggers an incident gets one
    incident and, when it also triggers a replacement, one operation; an
    incident is resolved when its operations have ended.  [now] is the start of
    the transaction, the default of the time columns; SHA-256 of a text is a
    parameter. *)

From Stdlib Require Import Ascii.
From S2P Require Import Prelude.
From S2P Require Import Text.
From S2P Require Import Json.
From S2P Require Import HealthDecision.
From S2P Require Import Sql.
From S2P Require Import HealthStore.
From S2P Require Import HealthEvidence.
Open Scope Z_scope.

(** ** Input schemas *)

Record MaterializeInput := { mi_availabilityDecisionId : string; mi_servicePrincipal : string }.
Record ResolveInput := { ri_incidentId : string; ri_servicePrincipal : string; ri_reason : string }.

Record MaterializedHealthActions := {
  mh_incidentId : option string;
  mh_operationId : option string;
  mh_replayed : bool;
}.
Record ResolvedHealthIncident := {
  rh_incidentId : string;
  rh_resolvedAt : Z;
  rh_replayed : bool;
}.

Definition lower_letter (a : ascii) : bool := ((97 <=? byte_of a) && (byte_of a <=? 122))%nat.
Definition principal_char (a : ascii) : bool :=
  lower_letter a || ((48 <=? byte_of a) && (byte_of a <=? 57))%nat ||
  Ascii.eqb a "." || Ascii.eqb a "_" || Ascii.eqb a "-".
(** [/^[a-z][a-z0-9._-]*$/] *)
Definition principal_pattern (s : string) : bool :=
  match s with String a s' => lower_letter a && string_forall principal_char s' | EmptyString => false end.
Definition text_between (lo hi : nat) (s : string) : bool :=
  ((lo <=? utf16_length s) && (utf16_length s <=? hi))%nat.
Definition servicePrincipalSchema (s : string) : option string :=
  guard (text_between 3 128 (trim s) = true);; guard (principal_pattern (trim s) = true);; Some (trim s).

Definition reason_name (r : HealthDecisionReason) : string :=
  match r with
  | HR_POLICY_UNAVAILABLE => "POLICY_UNAVAILABLE" | CRITICAL_TRUST_FAILURE => "CRITICAL_TRUST_FAILURE"
  | STALE_HEARTBEAT => "STALE_HEARTBEAT" | FAILED_CYCLE_OBSERVED => "FAILED_CYCLE_OBSERVED"
  | FAILURE_THRESHOLD_REACHED => "FAILURE_THRESHOLD_REACHED"
  | EXCLUSION_THRESHOLD_REACHED => "EXCLUSION_THRESHOLD_REACHED"
  | SUCCESS_CONFIRMED => "SUCCESS_CONFIRMED" | RECOVERY_PENDING => "RECOVERY_PENDING"
  | RECOVERY_CONFIRMED => "RECOVERY_CONFIRMED" | MIXED_CYCLE => "MIXED_CYCLE"
  | UNKNOWN_CYCLE => "UNKNOWN_CYCLE" | UNCERTAINTY_THRESHOLD_REACHED => "UNCERTAINTY_THRESHOLD_REACHED"
  end.

Section actions.
Context (uuid : nat → string) (is_uuid : string → bool) (sha256_text : string → string).
Context (ORCHESTRATION_MAX_ATTEMPTS : Z).

Definition materializeSchema (input : MaterializeInput) : option MaterializeInput :=
  guard (is_uuid (mi_availabilityDecisionId input) = true);;
  principal ← servicePrincipalSchema (mi_servicePrincipal input);
  Some {| mi_availabilityDecisionId := mi_availabilityDecisionId input; mi_servicePrincipal := principal |}.

Definition resolveSchema (input : ResolveInput) : option ResolveInput :=
  guard (is_uuid (ri_incidentId input) = true);;
  principal ← servicePrincipalSchema (ri_servicePrincipal input);
  guard (text_between 10 500 (trim (ri_reason input)) = true);;
  Some {| ri_incidentId := ri_incidentId input; ri_servicePrincipal := principal;
          ri_reason := trim (ri_reason input) |}.

Definition NUL : string := String zero EmptyString.
Definition operationIdempotencyKey (decisionId : string) : string :=
  sha256_text ("health-action:promote-standby:v1" +:+ NUL +:+ decisionId).

(** The operation the decision calls for. *)
Definition replacement_policy (d : DecisionRow) : option string :=
  if de_triggerReplacement d then de_healthPolicyVersionId d else None.

Definition nothing_materialized : MaterializedHealthActions :=
  {| mh_incidentId := None; mh_operationId := None; mh_replayed := false |}.

Definition incident_of (decisionId : string) (db : HealthDb) : option (string * Incident) :=
  head (filter (λ kv : string * Incident, ic_availabilityDecisionId kv.2 = decisionId)
    (map_to_list (h_incidents db))).
Definition promotion_of (incidentId : string) (db : HealthDb) : option (string * NodeOperation) :=
  head (filter (λ kv : string * NodeOperation, op_type kv.2 = OT_PROMOTE_STANDBY)
    (operations_of db incidentId)).

(** [if (existing)] *)
Definition materialize_existing (input : MaterializeInput) (d : DecisionRow) (incidentId : string)
    (db : HealthDb) : HealthM MaterializedHealthActions :=
  let operation := promotion_of incidentId db in
  throw_if (negb (Bool.eqb (is_null (replacement_policy d)) (is_null operation)) ||
            match operation with
            | Some (_, o) => negb (bool_decide (op_servicePrincipal o = mi_servicePrincipal input)) ||
                             negb (op_maxAttempts o =? ORCHESTRATION_MAX_ATTEMPTS)
            | None => false
            end) (HealthThrown "Health action materialization conflict");;
  mret {| mh_incidentId := Some incidentId; mh_operationId := fst <$> operation; mh_replayed := true |}.

Definition new_operation (input : MaterializeInput) (incidentId decisionId policy : string)
    (scope : Scope) (d : DecisionRow) : NodeOperation :=
  {| op_incidentId := incidentId; op_availabilityDecisionId := decisionId;
     op_healthPolicyVersionId := policy; op_idempotencyKey := operationIdempotencyKey decisionId;
     op_type := OT_PROMOTE_STANDBY; op_status := OP_PENDING; op_scope := scope;
     op_servicePrincipal := mi_servicePrincipal input;
     op_reason := "Automatic health decision: " +:+ reason_name (de_reason d);
     op_maxAttempts := ORCHESTRATION_MAX_ATTEMPTS |}.

Definition materialize_new (input : MaterializeInput) (decisionId : string) (d : DecisionRow)
    (scope : Scope) (now : Z) : HealthM MaterializedHealthActions :=
  incidentId ← draw uuid;
  incident_create incidentId decisionId scope now;;
  timeline_create {| tl_incidentId := incidentId; tl_kind := TL_OPENED;
                     tl_nodeOperationId := None; tl_createdAt := now |};;
  health_audit "health-incident.opened" incidentId;;
  match replacement_policy d with
  | None => mret {| mh_incidentId := Some incidentId; mh_operationId := None; mh_replayed := false |}
  | Some policy =>
      operationId ← draw uuid;
      operation_create operationId (new_operation input incidentId decisionId policy scope d);;
      timeline_create {| tl_incidentId := incidentId; tl_kind := TL_OPERATION_CREATED;
                         tl_nodeOperationId := Some operationId; tl_createdAt := now |};;
      health_audit "node-operation.created" operationId;;
      mret {| mh_incidentId := Some incidentId; mh_operationId := Some operationId; mh_replayed := false |}
  end.

Definition materializeDecisionActions (untrustedInput : MaterializeInput) (now : Z)
    : HealthM MaterializedHealthActions :=
  match materializeSchema untrustedInput with
  | None => throw HealthZodError
  | Some input =>
      let decisionId := uuid_text (mi_availabilityDecisionId input) in
      atomically (
        db ← get;
        match d ← h_decisions db !! decisionId; scope ← decision_scope db d; Some (d, scope) with
        | None => throw (HealthThrown "Availability decision was not found")
        | Some (d, scope) =>
            if negb (de_triggerIncident d) then mret nothing_materialized else
            match incident_of decisionId db with
            | Some (incidentId, _) => materialize_existing input d incidentId db
            | None => materialize_new input decisionId d scope now
            end
        end)
  end.

Definition resolveIncident (untrustedInput : ResolveInput) (now : Z) : HealthM ResolvedHealthIncident :=
  match resolveSchema untrustedInput with
  | None => throw HealthZodError
  | Some input =>
      let incidentId := uuid_text (ri_incidentId input) in
      atomically (
        db ← get;
        match h_incidents db !! incidentId with
        | None => throw (HealthThrown "Health incident was not found")
        | Some incident =>
            if bool_decide (ic_status incident = INCIDENT_RESOLVED) then
              match ic_resolvedAt incident with
              | None => throw (HealthThrown "Resolved health incident is inconsistent")
              | Some t => mret {| rh_incidentId := incidentId; rh_resolvedAt := t; rh_replayed := true |}
              end
            else
              throw_if (existsb (λ kv : string * NodeOperation, negb (is_terminal (op_status kv.2)))
                          (operations_of db incidentId))
                (HealthThrown "Health incident has non-terminal operations");;
              timeline_create {| tl_incidentId := incidentId; tl_kind := TL_RESOLVED;
                                 tl_nodeOperationId := None; tl_createdAt := now |};;
              health_audit "health-incident.resolved" incidentId;;
              mret {| rh_incidentId := incidentId; rh_resolvedAt := now; rh_replayed := false |}
        end)
  end.
End actions.
