(* ===== verification/HealthInvariant.v ===== *)
(** * The invariant of the health tables

    The transactions of the two stores, as the steps of one system together
    with the administration of sources and policies and the progress of
    operations; what every reachable state satisfies: each decision is an
    evaluation of recorded evidence from the state the decision before it left,
    and the availability state is what the newest decision left. *)

From S2P Require Import Prelude.
From S2P Require Import Json.
From S2P Require Import OperationalPolicy.
From S2P Require Import HealthDecision.
From S2P Require Import Sql.
From S2P Require Import XrayAccess.
From S2P Require Import HealthStore.
From S2P Require Import HealthEvidence.
From S2P Require Import HealthAction.
Open Scope Z_scope.

Ltac hcolumn := intros; repeat match goal with db : HealthDb |- _ => destruct db end; reflexivity.

Section invariant.
Context (uuid : nat → string) {Locale : LocaleCompare}.

(** ** The evidence behind a decision *)

(** The state of a scope after [v] decisions. *)
Definition state_at (db : HealthDb) (stateId : string) (v : Z) (s : HealthDecisionState) : Prop :=
  (v = 0 ∧ s = initial_health_state) ∨
  ∃ id d, h_decisions db !! id = Some d ∧ de_availabilityStateId d = stateId ∧
    de_stateVersion d = v ∧ de_state d = s.

Definition link_row (e : ProbeSignalEvaluation) : SignalRow :=
  {| sg_disposition := ev_disposition e; sg_rejectionReason := ev_rejectionReason e |}.

(** The decision is the evaluation of [i], made of recorded evidence. *)
Record evaluated_from (db : HealthDb) (decisionId : string) (d : DecisionRow) (scope : Scope)
    (input : ApplyHealthCycleInput) (i : EvaluateHealthCycleInput) : Prop := {
  ef_row : d = decision_row (de_idempotencyKey d) (de_availabilityStateId d) (de_stateVersion d)
                 input (evaluateHealthCycle i);
  ef_previous : state_at db (de_availabilityStateId d) (de_stateVersion d - 1) (in_previousState i);
  ef_route : in_routeVersion i = ah_routeVersion input;
  ef_time : in_cycleStartedAt i ≤ in_evaluatedAt i;
  ef_ids : NoDup (ah_probeResultIds input);
  ef_policy : ∀ p, in_policy i = Some p → ∃ v, v ∈ h_versions db ∧
    p = {| pi_id := pv_id v; pi_code := pv_code v; pi_config := pv_config v |};
  ef_signals : ∀ s, s ∈ in_signals i ↔ ∃ id r, id ∈ ah_probeResultIds input ∧
    h_results db !! id = Some r ∧ s = probeRowToSignal id r;
  ef_scope : ∀ id, id ∈ ah_probeResultIds input →
    ∃ r, h_results db !! id = Some r ∧ rs_scope r = scope;
  ef_links : ∀ resultId row, h_signals db !! (decisionId, resultId) = Some row ↔
    ∃ e, e ∈ signal_evaluations (evaluateHealthCycle i) (ah_probeResultIds input) ∧
         ev_signalId e = resultId ∧ row = link_row e;
}.

Record EvidenceInv (db : HealthDb) : Prop := {
  hv_scopes : ∀ id1 id2 s1 s2, h_states db !! id1 = Some s1 → h_states db !! id2 = Some s2 →
    st_scope s1 = st_scope s2 → id1 = id2;
  hv_states : ∀ id s, h_states db !! id = Some s → 0 ≤ st_version s ∧
    state_at db id (st_version s) (st_state s) ∧
    ∀ k, 1 ≤ k ≤ st_version s → ∃ did d, h_decisions db !! did = Some d ∧
      de_availabilityStateId d = id ∧ de_stateVersion d = k;
  hv_decisions : ∀ did d, h_decisions db !! did = Some d → ∃ s input i,
    h_states db !! de_availabilityStateId d = Some s ∧ 1 ≤ de_stateVersion d ≤ st_version s ∧
    evaluated_from db did d (st_scope s) input i;
  hv_versions : ∀ did1 did2 d1 d2, h_decisions db !! did1 = Some d1 → h_decisions db !! did2 = Some d2 →
    de_availabilityStateId d1 = de_availabilityStateId d2 →
    de_stateVersion d1 = de_stateVersion d2 → did1 = did2;
  hv_keys : ∀ did1 did2 d1 d2, h_decisions db !! did1 = Some d1 → h_decisions db !! did2 = Some d2 →
    de_idempotencyKey d1 = de_idempotencyKey d2 → did1 = did2;
  hv_links : ∀ did rid row, h_signals db !! (did, rid) = Some row → is_Some (h_decisions db !! did);
  hv_cycles : ∀ did1 did2 d1 d2 t1 t2, h_decisions db !! did1 = Some d1 → h_decisions db !! did2 = Some d2 →
    de_availabilityStateId d1 = de_availabilityStateId d2 →
    de_stateVersion d1 < de_stateVersion d2 →
    de_cycleStartedAt d1 = Some t1 → de_cycleStartedAt d2 = Some t2 → t1 < t2;
  hv_sources : ∀ id1 id2 r1 r2, h_results db !! id1 = Some r1 → h_results db !! id2 = Some r2 →
    rs_probeSourceId r1 = rs_probeSourceId r2 → rs_sourceResultId r1 = rs_sourceResultId r2 → id1 = id2;
}.

Lemma EvidenceInv_empty : EvidenceInv empty_health_db.
Proof. split; simpl; intros; by rewrite lookup_empty in *. Qed.

(** ** How the tables grow *)

(** Evidence is append-only; a scope's state moves by decisions. *)
Record health_le (db db' : HealthDb) : Prop := {
  hl_results : h_results db ⊆ h_results db';
  hl_decisions : h_decisions db ⊆ h_decisions db';
  hl_versions : ∀ v, v ∈ h_versions db → v ∈ h_versions db';
  hl_states : ∀ id s, h_states db !! id = Some s → ∃ s', h_states db' !! id = Some s' ∧
    st_scope s' = st_scope s ∧ st_version s ≤ st_version s';
  hl_signals : ∀ did rid, is_Some (h_decisions db !! did) →
    h_signals db' !! (did, rid) = h_signals db !! (did, rid);
}.

#[export] Instance health_le_preorder : PreOrder health_le.
Proof.
  split.
  - intros db. split; try done. intros id s Hs. exists s. split_and!; [done..|lia].
  - intros db1 db2 db3 [R1 D1 V1 S1 L1] [R2 D2 V2 S2 L2]. split; try (by etrans); eauto.
    + intros id s Hs. destruct (S1 _ _ Hs) as (s2 & Hs2 & E2 & ?).
      destruct (S2 _ _ Hs2) as (s3 & Hs3 & E3 & ?). exists s3. split_and!; [done|congruence|lia].
    + intros did rid Hd. rewrite L2, L1; [done..|].
      destruct Hd as [d Hd]. exists d. by eapply lookup_weaken.
Qed.

Lemma state_at_le db db' id v s : health_le db db' → state_at db id v s → state_at db' id v s.
Proof.
  intros Hle [?|(did & d & Hd & Hrest)]; [by left|]. right. exists did, d.
  split; [|done]. eapply lookup_weaken; [done|apply Hle].
Qed.

Lemma evaluated_from_le db db' did d scope input i :
  health_le db db' → h_decisions db !! did = Some d →
  evaluated_from db did d scope input i → evaluated_from db' did d scope input i.
Proof.
  intros Hle Hd []. split; try done.
  - by eapply state_at_le.
  - intros p Hp. destruct (ef_policy0 p Hp) as (v & Hv & ->). exists v. split; [by apply Hle|done].
  - intros s. rewrite ef_signals0. split; intros (id & r & Hid & Hr & ->); exists id, r;
      (split_and!; [done| |done]).
    + eapply lookup_weaken; [done|apply Hle].
    + destruct (ef_scope0 id Hid) as (r' & Hr' & _).
      assert (h_results db' !! id = Some r') by (eapply lookup_weaken; [done|apply Hle]). congruence.
  - intros id Hid. destruct (ef_scope0 id Hid) as (r & Hr & Hs). exists r. split; [|done].
    eapply lookup_weaken; [done|apply Hle].
  - intros rid row. rewrite (hl_signals _ _ Hle) by eauto. apply ef_links0.
Qed.

Lemma decision_kept db db' did d :
  EvidenceInv db → health_le db db' → h_decisions db !! did = Some d → ∃ s input i,
    h_states db' !! de_availabilityStateId d = Some s ∧ 1 ≤ de_stateVersion d ≤ st_version s ∧
    evaluated_from db' did d (st_scope s) input i.
Proof.
  intros Hinv Hle Hd. destruct (hv_decisions _ Hinv _ _ Hd) as (s & input & i & Hs & Hv & Hev).
  destruct (hl_states _ _ Hle _ _ Hs) as (s' & Hs' & Hsc & Hle'). exists s', input, i.
  split_and!; [done|lia|lia|]. rewrite Hsc. by eapply evaluated_from_le.
Qed.

(** States whose evidence tables are those of [db]. *)
Definition same_evidence (db db' : HealthDb) : Prop :=
  h_results db' = h_results db ∧ h_states db' = h_states db ∧ h_decisions db' = h_decisions db ∧
  h_signals db' = h_signals db ∧ ∀ v, v ∈ h_versions db → v ∈ h_versions db'.

Lemma same_evidence_le db db' : same_evidence db db' → health_le db db'.
Proof.
  intros (R & S & D & L & V). split; try done; rewrite ?R, ?S, ?D, ?L; try done.
  intros id s Hs. exists s. split_and!; [done..|lia].
Qed.

Lemma same_evidence_inv db db' : same_evidence db db' → EvidenceInv db → EvidenceInv db'.
Proof.
  intros Hsame Hinv. pose proof (same_evidence_le _ _ Hsame) as Hle.
  pose proof Hsame as (R & S & D & L & V). pose proof Hinv as [].
  split; rewrite ?R, ?S, ?D, ?L; try done.
  - intros id s Hs. destruct (hv_states0 _ _ Hs) as (? & ? & ?).
    split_and!; [done|by eapply state_at_le|]. by rewrite ?D.
  - intros did d Hd. destruct (decision_kept _ _ _ _ Hinv Hle Hd) as (s & input & i & Hs & Hrest).
    rewrite S in Hs. eauto.
Qed.

(** Incidents, operations and the timeline stay. *)
Definition same_actions (db db' : HealthDb) : Prop :=
  h_incidents db' = h_incidents db ∧ h_operations db' = h_operations db ∧
  h_timeline db' = h_timeline db.

(** ** Recording a probe result *)

Lemma hrefuse_ok b e db u db' : hrefuse b e db = (Ok u, db') → b = false ∧ db' = db.
Proof. apply throw_if_ok_inv. Qed.

Lemma exists_in_none {A} (p : string → A → bool) (t : Table A) :
  exists_in p t = false → ∀ id x, t !! id = Some x → p id x = false.
Proof.
  intros He id x Hx. exact (existsb_none _ _ He (id, x) (proj2 (elem_of_map_to_list _ _ _) Hx)).
Qed.

Lemma probe_result_insert_ok id r db u db' :
  probe_result_insert id r db = (Ok u, db') →
  h_results db !! id = None ∧ probe_result_checks r = true ∧
  (∀ id' x, h_results db !! id' = Some x → rs_probeSourceId x = rs_probeSourceId r →
     rs_sourceResultId x ≠ rs_sourceResultId r) ∧
  db' = set_results <[id := r]> db.
Proof.
  unfold probe_result_insert. intros Hrun. ok_inv Hrun.
  repeat match goal with H : hrefuse _ _ _ = (Ok _, _) |- _ => apply hrefuse_ok in H as [? ->] end.
  split_and!; [by destruct (h_results _ !! id)|by apply negb_false_iff| |done].
  intros id' x Hx Hs Hr.
  match goal with H : exists_in _ _ = false |- _ => pose proof (exists_in_none _ _ H id' x Hx) as Hn end.
  simpl in Hn. rewrite !bool_decide_eq_true_2 in Hn by done. done.
Qed.

Lemma results_insert_inv id r db :
  EvidenceInv db → h_results db !! id = None →
  (∀ id' x, h_results db !! id' = Some x → rs_probeSourceId x = rs_probeSourceId r →
     rs_sourceResultId x ≠ rs_sourceResultId r) →
  EvidenceInv (set_results <[id := r]> db) ∧ health_le db (set_results <[id := r]> db).
Proof.
  intros Hinv Hnew Huniq. set (db' := set_results _ db).
  assert (R : h_results db' = <[id := r]> (h_results db)) by (unfold db'; hcolumn).
  assert (S : h_states db' = h_states db) by (unfold db'; hcolumn).
  assert (D : h_decisions db' = h_decisions db) by (unfold db'; hcolumn).
  assert (L : h_signals db' = h_signals db) by (unfold db'; hcolumn).
  assert (V : h_versions db' = h_versions db) by (unfold db'; hcolumn).
  assert (Hle : health_le db db').
  { split; rewrite ?R, ?D, ?L, ?V, ?S; try done; [by apply insert_subseteq|].
    intros sid s Hs. exists s. split_and!; [done..|lia]. }
  split; [|done]. pose proof Hinv as []. split; rewrite ?S, ?D, ?L; try done.
  - intros sid s Hs. destruct (hv_states0 _ _ Hs) as (? & ? & ?).
    split_and!; [done|by eapply state_at_le|done].
  - intros did d Hd. destruct (decision_kept _ _ _ _ Hinv Hle Hd) as (s & input & i & Hs & Hrest).
    rewrite S in Hs. eauto.
  - intros id1 id2 r1 r2. rewrite R, !lookup_insert_Some.
    intros [[<- <-]|[_ H1]] [[<- <-]|[_ H2]]; try done; intros Hs Hr.
    + by destruct (Huniq _ _ H2 (eq_sym Hs)).
    + by destruct (Huniq _ _ H1 Hs).
    + by eapply hv_sources0.
Qed.

Lemma draw_run db : draw uuid db = (Ok (uuid (h_drawn db)), set_health_drawn S db).
Proof. done. Qed.

Lemma drawn_same_evidence db : same_evidence db (set_health_drawn S db).
Proof. by destruct db. Qed.

(** What recording a result does. *)
Definition recorded (clean : RecordProbeResultInput) (now : Z) (db : HealthDb)
    (r : RecordedProbeResult) (db' : HealthDb) : Prop :=
  (∃ id row, h_results db !! id = Some row ∧ same_source_result clean row = true ∧
     exactRetry clean row = true ∧ db' = db ∧
     r = {| rec_signal := probeRowToSignal id row; rec_replayed := true |}) ∨
  (∃ source, h_sources db !! uuid_text (rp_probeSourceId clean) = Some source ∧ so_status source = SOURCE_ACTIVE ∧
     let id := uuid (h_drawn db) in
     let row := new_result clean (so_independenceKey source) now in
     h_results db !! id = None ∧
     (∀ id' x, h_results db !! id' = Some x → same_source_result clean x = false) ∧
     db' = set_results <[id := row]> (set_health_drawn S db) ∧
     r = {| rec_signal := probeRowToSignal id row; rec_replayed := false |}).

(** The stored result of the same source and identifier, which is looked up. *)
Lemma same_result_spec clean db :
  match map_to_list (sql_where (same_source_result clean) (h_results db)) with
  | (id, row) :: _ => h_results db !! id = Some row ∧ same_source_result clean row = true
  | [] => ∀ id row, h_results db !! id = Some row → same_source_result clean row = false
  end.
Proof.
  assert (Hl : ∀ id row, (id, row) ∈ map_to_list (sql_where (same_source_result clean) (h_results db)) ↔
    h_results db !! id = Some row ∧ same_source_result clean row = true).
  { intros id row. rewrite elem_of_map_to_list. unfold sql_where. by rewrite map_lookup_filter_Some. }
  destruct (map_to_list _) as [|[id row] rest].
  - intros id row Hr. destruct (same_source_result clean row) eqn:Hs; [|done].
    by pose proof (proj2 (Hl id row) (conj Hr Hs)) as ?%elem_of_nil.
  - apply Hl. left.
Qed.

Lemma same_source_result_spec clean x : same_source_result clean x = true ↔
  rs_probeSourceId x = uuid_text (rp_probeSourceId clean) ∧ rs_sourceResultId x = rp_sourceResultId clean.
Proof. unfold same_source_result. by rewrite andb_true_iff, !bool_decide_eq_true. Qed.

Lemma record_ok is_uuid input now db r db' :
  recordProbeResult uuid is_uuid input now db = (Ok r, db') →
  ∃ clean, recordProbeResultSchema is_uuid input = Some clean ∧ recorded clean now db r db'.
Proof.
  unfold recordProbeResult, recordProbeResultInTransaction. intros Hrun. ok_inv Hrun.
  destruct (recordProbeResultSchema _ _) as [clean|]; [|done]. exists clean. split; [done|]. ok_inv Hrun.
  pose proof (same_result_spec clean db) as Hsame.
  destruct (map_to_list _) as [|[id row] rest].
  - right. ok_inv Hrun. rewrite draw_run in Hrun0. injection Hrun0 as <- <-.
    destruct (h_sources db !! _) as [source|]; [|done]. exists source.
    case_bool_decide as Hact; [|done]. ok_inv Hrun.
    apply probe_result_insert_ok in Hrun0 as (Hnew & _ & _ & ->).
    split_and!; try done. by destruct db.
  - left. destruct (exactRetry _ _) eqn:He; [|done]. ok_inv Hrun. destruct Hsame. by exists id, row.
Qed.

Lemma record_inv is_uuid input now db r db' :
  recordProbeResult uuid is_uuid input now db = (Ok r, db') →
  EvidenceInv db → (EvidenceInv db' ∧ health_le db db') ∧ same_actions db db'.
Proof.
  intros (clean & _ & [(id & row & _ & _ & _ & -> & _)|(source & _ & _ & Hnew & Huniq & -> & _)])%record_ok Hinv;
    [split; [by split|by split_and!]|].
  pose proof (drawn_same_evidence db) as Hsame.
  destruct (results_insert_inv (uuid (h_drawn db)) (new_result clean (so_independenceKey source) now)
    (set_health_drawn S db)) as [HI Hle].
  - by eapply same_evidence_inv.
  - by destruct db.
  - intros id x Hx E1 E2. assert (Hx' : h_results db !! id = Some x) by (by destruct db).
    apply Huniq in Hx'. apply not_true_iff_false in Hx' as []. by apply same_source_result_spec.
  - split; [split; [done|]; etrans; [by apply same_evidence_le|done]|by destruct db].
Qed.

(** ** Applying a decision *)

(** The state rows after [state_ensure]. *)
Definition ensured (id : string) (scope : Scope) (states states' : Table StateRow) : Prop :=
  states' = states ∨
  states !! id = None ∧ (∀ id' s, states !! id' = Some s → st_scope s ≠ scope) ∧
    states' = <[id := {| st_scope := scope; st_state := initial_health_state; st_version := 0 |}]> states.

Lemma state_ensure_ok id scope db u db' :
  state_ensure id scope db = (Ok u, db') →
  ∃ states, ensured id scope (h_states db) states ∧ db' = set_states (λ _, states) db.
Proof.
  unfold state_ensure. intros Hrun. ok_inv Hrun. destruct (exists_in _ _) eqn:He.
  - ok_inv Hrun. exists (h_states db). split; [by left|by destruct db].
  - ok_inv Hrun. match goal with H : hrefuse _ _ _ = _ |- _ => apply hrefuse_ok in H as [Hnew ->] end.
    eexists. split; [right; split_and!; [by destruct (h_states db !! id)| |reflexivity]|by destruct db].
    intros id' s Hs. pose proof (exists_in_none _ _ He id' s Hs) as Hb. simpl in Hb.
    by apply bool_decide_eq_false in Hb.
Qed.

Lemma signal_insert_ok did d rid row db u db' :
  h_decisions db !! did = Some d → signal_insert did rid row db = (Ok u, db') →
  rid ∈ de_inputProbeResultIds d ∧ h_signals db !! (did, rid) = None ∧
  db' = set_signals <[(did, rid) := row]> db.
Proof.
  unfold signal_insert. intros Hd Hrun. ok_inv Hrun.
  repeat match goal with H : hrefuse _ _ _ = (Ok _, _) |- _ => apply hrefuse_ok in H as [? ->] end.
  split_and!; [|by destruct (h_signals db !! _)|done].
  match goal with H : signal_refused _ _ _ _ = false |- _ =>
    unfold signal_refused in H; rewrite Hd in H; apply orb_false_iff in H as [_ H];
    apply orb_false_iff in H as [H _]; apply orb_false_iff in H as [H%negb_false_iff _] end.
  by eapply bool_decide_eq_true.
Qed.

Lemma signals_insert_ok did d l db u db' :
  h_decisions db !! did = Some d →
  for_each l (λ e, signal_insert did (uuid_text (ev_signalId e)) (link_row e)) db = (Ok u, db') →
  (∀ e, e ∈ l → uuid_text (ev_signalId e) ∈ de_inputProbeResultIds d) ∧
  ∃ signals, db' = set_signals (λ _, signals) db ∧
    ∀ k row, signals !! k = Some row ↔ h_signals db !! k = Some row ∨
      ∃ e, e ∈ l ∧ k = (did, uuid_text (ev_signalId e)) ∧ row = link_row e.
Proof.
  revert db. induction l as [|e l IH]; intros db Hd Hrun; simpl in Hrun.
  - ok_inv Hrun. split; [set_solver|]. exists (h_signals db). split; [by destruct db|]. set_solver.
  - ok_inv Hrun. apply (signal_insert_ok _ d) in Hrun0 as (Hin & Hnew & ->); [|done].
    apply IH in Hrun as (Hall & signals & -> & Hs); [|by destruct db]. split.
    { intros x [->|Hx]%elem_of_cons; [done|by apply Hall]. }
    exists signals. split; [by destruct db|].
    intros k row. rewrite Hs. destruct db. simpl in *. rewrite lookup_insert_Some. split.
    + intros [[[<- <-]|[_ ?]]|(e' & He' & ?)]; [right; exists e; set_solver|by left|].
      right. exists e'. set_solver.
    + intros [Hk|(e' & He' & -> & ->)].
      * destruct (decide (k = (did, uuid_text (ev_signalId e)))) as [->|Hne]; [congruence|]. left. by right.
      * apply elem_of_cons in He' as [->|He']; [by left; left|]. right. eauto.
Qed.

Lemma decision_insert_ok id d db u db' :
  decision_insert id d db = (Ok u, db') →
  decision_refused db d = false ∧ decision_checks d = true ∧ h_decisions db !! id = None ∧
  (∀ id' x, h_decisions db !! id' = Some x → de_idempotencyKey x ≠ de_idempotencyKey d ∧
     ¬ (de_availabilityStateId x = de_availabilityStateId d ∧ de_stateVersion x = de_stateVersion d)) ∧
  db' = set_decisions <[id := d]> db.
Proof.
  unfold decision_insert. intros Hrun. ok_inv Hrun.
  repeat match goal with H : hrefuse _ _ _ = (Ok _, _) |- _ => apply hrefuse_ok in H as [? ->] end.
  split_and!; try done; [by apply negb_false_iff|by destruct (h_decisions _ !! id)|].
  intros id' x Hx.
  match goal with H : exists_in _ _ = false |- _ => pose proof (exists_in_none _ _ H id' x Hx) as Hn end.
  simpl in Hn. apply orb_false_iff in Hn as [Hk%bool_decide_eq_false Hv]. split; [done|].
  intros [E1 E2]. rewrite bool_decide_eq_true_2, E2, Z.eqb_refl in Hv; done.
Qed.

Lemma state_update_ok id version new db n db' :
  state_update id version new db = (Ok n, db') → n = 1 →
  ∃ old, h_states db !! id = Some old ∧ db' = set_states <[id := new]> db.
Proof.
  unfold state_update. intros Hrun Hn. ok_inv Hrun.
  destruct (h_states db !! id) as [old|]; [destruct (_ =? _)|]; ok_inv Hrun; [|discriminate..].
  repeat match goal with H : hrefuse _ _ _ = (Ok _, _) |- _ => apply hrefuse_ok in H as [? ->] end.
  by exists old.
Qed.

Lemma state_of_scope_Some scope db id s :
  state_of_scope scope db = Some (id, s) → h_states db !! id = Some s ∧ st_scope s = scope.
Proof.
  unfold state_of_scope. intros Hh%head_Some_elem_of.
  by apply list_elem_of_filter in Hh as [? ?%elem_of_map_to_list].
Qed.

(** The rows an evaluation reads. *)
Lemma probe_rows_elem db ids id r :
  (id, r) ∈ probe_rows db ids ↔ id ∈ ids ∧ h_results db !! id = Some r.
Proof.
  unfold probe_rows. rewrite elem_of_merge_sort, list_elem_of_filter. simpl.
  by rewrite elem_of_map_to_list.
Qed.

Lemma probe_rows_NoDup db ids : NoDup (probe_rows db ids).*1.
Proof.
  unfold probe_rows. rewrite merge_sort_Permutation.
  apply NoDup_fmap_fst; [|apply NoDup_filter, NoDup_map_to_list].
  intros x y1 y2 [_ H1]%list_elem_of_filter [_ H2]%list_elem_of_filter.
  apply elem_of_map_to_list in H1, H2. congruence.
Qed.

(** As many rows as identifiers: they are the rows they name. *)
Lemma probe_rows_keys db ids : length (probe_rows db ids) = length ids → (probe_rows db ids).*1 ≡ₚ ids.
Proof.
  intros Hlen. apply submseteq_length_Permutation; [|by rewrite length_fmap, Hlen].
  apply NoDup_submseteq; [apply probe_rows_NoDup|]. intros x Hx.
  apply list_elem_of_fmap in Hx as ([x' r] & -> & Hx). by apply probe_rows_elem in Hx as [? _].
Qed.

Lemma probe_rows_complete db ids :
  length (probe_rows db ids) = length ids → ∀ id, id ∈ ids → ∃ r, (id, r) ∈ probe_rows db ids.
Proof.
  intros Hlen id. rewrite <- (probe_rows_keys db ids Hlen) at 1.
  intros ([x r] & -> & Hx)%list_elem_of_fmap. by exists r.
Qed.

(** What is evaluated: the rows read, or, without a policy, what was asked. *)
Lemma evaluation_covers i ids :
  let evaluated := ev_signalId <$> signal_evaluations (evaluateHealthCycle i) ids in
  (∀ id, id ∈ evaluated ↔ id ∈ ps_id <$> in_signals i) ∨ (∀ id, id ∈ evaluated ↔ id ∈ ids).
Proof.
  simpl. unfold signal_evaluations. destruct (hd_cycle (evaluateHealthCycle i)) as [c|] eqn:Hc; [left|right].
  - unfold evaluateHealthCycle in Hc. destruct (in_criticalTrustFailure i); [done|].
    destruct (parsed_policy i) as [[pv policy]|]; [|done]. injection Hc as <-. intros id.
    by destruct (evaluations_cover_signals policy (in_cycleStartedAt i) (in_routeVersion i) (in_signals i)
      (in_consumedSignalIds i)) as (_ & -> & _).
  - intros id. rewrite <- list_fmap_compose, (list_fmap_ext _ (λ x, x)), list_fmap_id by done.
    unfold sort_strings. by rewrite elem_of_merge_sort.
Qed.

(** A decision the triggers let pass was asked for in canonical texts. *)
Lemma evaluated_canonical db i ids :
  ps_id <$> in_signals i = (probe_rows db (uuid_text <$> ids)).*1 →
  length (probe_rows db (uuid_text <$> ids)) = length ids →
  (∀ e, e ∈ signal_evaluations (evaluateHealthCycle i) ids → uuid_text (ev_signalId e) ∈ ids) →
  uuid_text <$> ids = ids.
Proof.
  intros Hsig Hlen Hev. pose proof (probe_rows_keys db (uuid_text <$> ids) ltac:(by rewrite length_fmap)) as Hkeys.
  apply canonical_ids; [rewrite <- Hkeys; apply probe_rows_NoDup|]. intros id Hid.
  destruct (evaluation_covers i ids) as [Hc|Hc].
  - assert (Hin : uuid_text id ∈ ev_signalId <$> signal_evaluations (evaluateHealthCycle i) ids).
    { rewrite Hc, Hsig, Hkeys. by apply list_elem_of_fmap_2. }
    apply list_elem_of_fmap in Hin as (e & He & Hin). rewrite <- uuid_text_idemp, He. by apply Hev.
  - assert (Hin : id ∈ ev_signalId <$> signal_evaluations (evaluateHealthCycle i) ids) by (by rewrite Hc).
    apply list_elem_of_fmap in Hin as (e & -> & Hin). by apply Hev.
Qed.

Lemma canonical_id (ids : list string) id : uuid_text <$> ids = ids → id ∈ ids → uuid_text id = id.
Proof. intros <- (id' & -> & _)%list_elem_of_fmap. apply uuid_text_idemp. Qed.

Lemma evaluations_canonical db i ids e :
  ps_id <$> in_signals i = (probe_rows db ids).*1 → uuid_text <$> ids = ids →
  e ∈ signal_evaluations (evaluateHealthCycle i) ids → uuid_text (ev_signalId e) = ev_signalId e.
Proof.
  intros Hsig Hcan He. apply (list_elem_of_fmap_2 ev_signalId) in He.
  eapply canonical_id; [exact Hcan|]. destruct (evaluation_covers i ids) as [Hc|Hc]; rewrite Hc in He; [|done].
  rewrite Hsig in He. apply list_elem_of_fmap in He as ([x r] & -> & Hx). by apply probe_rows_elem in Hx as [? _].
Qed.

(** What an applied decision was made of. *)
Record applied (db : HealthDb) (input : ApplyHealthCycleInput) (version : Z) (key : string) (now : Z)
    (r : AppliedHealthDecision) (db' : HealthDb) (stateId : string) (current : StateRow)
    (states : Table StateRow) (i : EvaluateHealthCycleInput) : Prop := {
  ap_drawn : h_drawn db' = S (S (h_drawn db)) ∧ ad_decisionId r = uuid (S (h_drawn db));
  ap_states : ensured (uuid (h_drawn db)) (ah_affectedScope input) (h_states db) states;
  ap_current : states !! stateId = Some current;
  ap_scope : st_scope current = ah_affectedScope input;
  ap_version : st_version current = version;
  ap_input : i = evaluation_input db input current now;
  ap_time : ah_cycleStartedAt input ≤ now;
  ap_newer : ah_criticalTrustFailure input = None → ∀ t, previous_cycle db stateId = Some t →
    t < ah_cycleStartedAt input;
  ap_canonical : uuid_text <$> ah_probeResultIds input = ah_probeResultIds input;
  ap_rows : length (probe_rows db (ah_probeResultIds input)) = length (ah_probeResultIds input);
  ap_rows_scope : ∀ id row, (id, row) ∈ probe_rows db (ah_probeResultIds input) →
    rs_scope row = ah_affectedScope input;
  ap_result : r = {| ad_decisionId := ad_decisionId r; ad_idempotencyKey := key;
                     ad_stateVersion := version + 1; ad_replayed := false |};
  ap_new : h_decisions db !! ad_decisionId r = None;
  ap_unique : ∀ id x, h_decisions db !! id = Some x → de_idempotencyKey x ≠ key ∧
    ¬ (de_availabilityStateId x = stateId ∧ de_stateVersion x = version + 1);
  ap_decisions : h_decisions db' = <[ad_decisionId r := decision_row key stateId (version + 1) input
                   (evaluateHealthCycle i)]> (h_decisions db);
  ap_signals : ∀ k row, h_signals db' !! k = Some row ↔ h_signals db !! k = Some row ∨
    ∃ e, e ∈ signal_evaluations (evaluateHealthCycle i) (ah_probeResultIds input) ∧
      k = (ad_decisionId r, ev_signalId e) ∧ row = link_row e;
  ap_state : h_states db' = <[stateId := {| st_scope := st_scope current;
    st_state := hd_state (evaluateHealthCycle i); st_version := version + 1 |}]> states;
  ap_results : h_results db' = h_results db;
  ap_versions : h_versions db' = h_versions db;
  ap_actions : same_actions db db';
}.

Lemma apply_decision_ok input version key now db r db' :
  apply_decision uuid input version key now db = (Ok r, db') →
  ∃ stateId current states i, applied db input version key now r db' stateId current states i.
Proof.
  unfold apply_decision. intros Hrun. ok_inv Hrun. rewrite draw_run in Hrun0. injection Hrun0 as <- <-.
  apply state_ensure_ok in Hrun1 as (states & Hens & ->).
  set (db1 := set_states _ _) in *.
  destruct (state_of_scope _ db1) as [[stateId current]|] eqn:Hof; [|done].
  apply state_of_scope_Some in Hof as [Hcur Hscope].
  ok_inv Hrun. unfold persist_decision in Hrun. ok_inv Hrun. unfold refuse in *.
  repeat match goal with H : throw_if _ _ _ = (Ok _, _) |- _ => apply throw_if_ok_inv in H as [? ->] end.
  match goal with H : draw _ _ = _ |- _ => rewrite draw_run in H; injection H as <- <- end.
  match goal with H : decision_insert _ _ _ = _ |- _ =>
    apply decision_insert_ok in H as (_ & _ & Hnew & Huniq & ->) end.
  match goal with H : for_each _ _ _ = _ |- _ => apply (signals_insert_ok _ (decision_row key stateId (version + 1)
    input (evaluateHealthCycle (evaluation_input db1 input current now)))) in H as (Hasked & signals & -> & Hsig);
    [|by unfold db1; destruct db; simpl; rewrite lookup_insert_eq] end.
  match goal with H : state_update _ _ _ _ = (Ok ?n, _) |- _ =>
    apply state_update_ok in H as (old & Hold & ->); [|by apply Z.eqb_eq, negb_false_iff] end.
  set (i := evaluation_input db1 input current now) in *. set (ids := ah_probeResultIds input) in *.
  assert (Hread : ps_id <$> in_signals i = (probe_rows db1 (uuid_text <$> ids)).*1).
  { unfold i. simpl. by rewrite <- list_fmap_compose. }
  assert (Hcan : uuid_text <$> ids = ids).
  { eapply evaluated_canonical; [exact Hread| |].
    - match goal with H : negb (_ =? _)%nat = false |- _ => by apply Nat.eqb_eq, negb_false_iff, H end.
    - intros e He%Hasked. simpl in He. unfold sort_strings in He. by rewrite elem_of_merge_sort in He. }
  assert (Hev : ∀ e, e ∈ signal_evaluations (evaluateHealthCycle i) ids → uuid_text (ev_signalId e) = ev_signalId e).
  { intros e. rewrite Hcan in Hread. by eapply evaluations_canonical. }
  rewrite Hcan in *.
  exists stateId, current, states, i.
  unfold i, ids, db1 in *. clear i ids db1. destruct db. simpl in *. split; simpl; try done.
  - match goal with H : negb (_ =? version) = false |- _ => by apply Z.eqb_eq, negb_false_iff, H end.
  - match goal with H : (now <? _) = false |- _ => by apply Z.ltb_ge in H end.
  - intros Hcrit t Ht. match goal with H : is_null _ && _ = false |- _ => rewrite Hcrit in H; simpl in H;
      unfold previous_cycle in *; simpl in *; rewrite Ht in H; by apply Z.leb_gt in H end.
  - match goal with H : negb (_ =? _)%nat = false |- _ => by apply Nat.eqb_eq, negb_false_iff, H end.
  - intros id row Hrow. match goal with H : existsb _ _ = false |- _ =>
      pose proof (existsb_none _ _ H _ Hrow) as Hb end.
    by apply negb_false_iff, bool_decide_eq_true in Hb.
  - intros k row. rewrite Hsig. split; (intros [Hrow|(e & He & -> & ->)]; [by left|right; exists e]).
    + by rewrite (Hev e He).
    + by rewrite <- (Hev e He) at 1.
Qed.

(** The cycle an evaluation starts is after every earlier one. *)
Lemma previous_cycle_newest db stateId did d t :
  EvidenceInv db → h_decisions db !! did = Some d → de_availabilityStateId d = stateId →
  de_cycleStartedAt d = Some t → ∃ t', previous_cycle db stateId = Some t' ∧ t ≤ t'.
Proof.
  intros Hinv Hd Hs Ht. unfold previous_cycle. set (l := omap _ _).
  assert (Hl : ∀ x, x ∈ l ↔ ∃ did d, h_decisions db !! did = Some d ∧
    de_availabilityStateId d = stateId ∧ de_cycleStartedAt d = Some x.2 ∧ x.1 = de_stateVersion d).
  { intros [v x]. unfold l. rewrite list_elem_of_omap. split.
    - intros ([did' d'] & Hd'%elem_of_map_to_list & Hx). option_invert Hx. injection Hx as <- <-.
      by exists did', d'.
    - intros (did' & d' & Hd' & Hs' & Hx & Hv). simpl in *. subst v. exists (did', d').
      split; [by apply elem_of_map_to_list|]. simpl. rewrite option_guard_True by done. simpl. by rewrite Hx. }
  assert (Hin : (de_stateVersion d, t) ∈ merge_sort version_newest_first l).
  { rewrite elem_of_merge_sort, Hl. eauto 10. }
  assert (Hsort : StronglySorted version_newest_first (merge_sort version_newest_first l)).
  { apply (StronglySorted_merge_sort version_newest_first). }
  assert (Hmem : ∀ x, x ∈ merge_sort version_newest_first l → x ∈ l) by (intros x; by rewrite elem_of_merge_sort).
  destruct (merge_sort _ l) as [|[v' t'] rest]; [set_solver|]. exists t'. split; [done|].
  destruct (proj1 (Hl _) (Hmem (v', t') ltac:(left))) as (did' & d' & Hd' & Hs' & Ht' & Hv'). simpl in *.
  apply elem_of_cons in Hin as [[= Hv ->]|Hin]; [done|].
  apply StronglySorted_inv in Hsort as [_ Hall]. rewrite Forall_forall in Hall.
  specialize (Hall _ Hin). unfold version_newest_first, by_key, flip in Hall. simpl in Hall.
  destruct (decide (de_stateVersion d = v')) as [Heq|Hne].
  - assert (did' = did) as -> by (eapply hv_versions; [done..|congruence|congruence]).
    assert (t' = t) by congruence. lia.
  - apply Z.lt_le_incl. eapply (hv_cycles _ Hinv did did'); [done..|congruence|lia|done|done].
Qed.

Lemma ensured_kept fresh scope states states' id s :
  ensured fresh scope states states' → states !! id = Some s → states' !! id = Some s.
Proof. intros [->|(Hn & _ & ->)] Hs; [done|]. rewrite lookup_insert_ne; congruence. Qed.

Lemma evaluation_signals db input current now s :
  uuid_text <$> ah_probeResultIds input = ah_probeResultIds input →
  s ∈ in_signals (evaluation_input db input current now) ↔ ∃ id r,
    id ∈ ah_probeResultIds input ∧ h_results db !! id = Some r ∧ s = probeRowToSignal id r.
Proof.
  intros Hcan. simpl. rewrite Hcan, list_elem_of_fmap. split.
  - intros ([id r] & -> & [Hid Hr]%probe_rows_elem). eauto.
  - intros (id & r & Hid & Hr & ->). exists (id, r). by rewrite probe_rows_elem.
Qed.

Lemma latest_policy_version db v :
  latest_policy (h_activations db) (h_versions db) = Some v → v ∈ h_versions db.
Proof. intros Hl. by destruct (latest_policy_newest _ _ _ Hl) as (a & _ & Hv & _). Qed.

Lemma decision_is_status i : hd_decision (evaluateHealthCycle i) = hs_status (hd_state (evaluateHealthCycle i)).
Proof.
  by destruct (evaluateHealthCycle_cases i) as [(f&pv&_&->)|[(_&_&->)|(pv&policy&c&_&_&_&->)]].
Qed.

(** The columns of a decision are the state it leaves. *)
Lemma decision_row_state key sid v input i :
  de_state (decision_row key sid v input (evaluateHealthCycle i)) = hd_state (evaluateHealthCycle i).
Proof. simpl. rewrite decision_is_status. by destruct (hd_state _). Qed.

Section applied.
Context (db : HealthDb) (input : ApplyHealthCycleInput) (version : Z) (key : string) (now : Z).
Context (r : AppliedHealthDecision) (db' : HealthDb) (stateId : string) (current : StateRow).
Context (states : Table StateRow) (i : EvaluateHealthCycleInput).
Context (Hap : applied db input version key now r db' stateId current states i).
Context (Hinv : EvidenceInv db) (Hids : NoDup (ah_probeResultIds input)).

Notation did := (ad_decisionId r).
Notation row := (decision_row key stateId (version + 1) input (evaluateHealthCycle i)).

Lemma applied_current : state_at db stateId version (st_state current) ∧ 0 ≤ version.
Proof using Hap Hinv.
  destruct Hap. destruct ap_states0 as [->|(Hn & _ & ->)].
  - destruct (hv_states _ Hinv _ _ ap_current0) as (? & ? & _). by rewrite <- ap_version0.
  - apply lookup_insert_Some in ap_current0 as [[_ <-]|[_ Hs]].
    + simpl in *. subst version. split; [by left|done].
    + destruct (hv_states _ Hinv _ _ Hs) as (? & ? & _). by rewrite <- ap_version0.
Qed.

Lemma applied_lookup id d :
  h_decisions db' !! id = Some d ↔ (id = did ∧ d = row) ∨ h_decisions db !! id = Some d.
Proof using Hap.
  rewrite (ap_decisions _ _ _ _ _ _ _ _ _ _ _ Hap), lookup_insert_Some.
  pose proof (ap_new _ _ _ _ _ _ _ _ _ _ _ Hap). split; [naive_solver|].
  intros [[-> ->]|Hd]; [by left|right]. split; [congruence|done].
Qed.

Lemma applied_le : health_le db db'.
Proof using Hap Hinv.
  pose proof Hap as []. split.
  - by rewrite ap_results0.
  - rewrite ap_decisions0. by apply insert_subseteq.
  - by rewrite ap_versions0.
  - intros id s Hs. pose proof (ensured_kept _ _ _ _ _ _ ap_states0 Hs) as Hs'.
    rewrite ap_state0. destruct (decide (id = stateId)) as [->|Hne].
    + rewrite lookup_insert_eq. eexists. split; [done|]. simpl.
      assert (current = s) as -> by congruence. split; [done|lia].
    + rewrite lookup_insert_ne by done. exists s. split_and!; [done..|lia].
  - intros id rid [d Hd]. apply option_eq. intros x. rewrite ap_signals0. split; [|by left].
    intros [?|(e & _ & [= -> _] & _)]; [done|congruence].
Qed.

Lemma applied_evaluated : evaluated_from db' did row (ah_affectedScope input) input i.
Proof using Hap Hinv Hids.
  pose proof Hap as []. pose proof applied_le as Hle. destruct applied_current as [Hcur _].
  assert (Hrows : ∀ id, id ∈ ah_probeResultIds input → ∃ x, h_results db !! id = Some x ∧
    rs_scope x = ah_affectedScope input).
  { intros id Hid. destruct (probe_rows_complete _ _ ap_rows0 id Hid) as [x Hx].
    exists x. split; [by apply probe_rows_elem in Hx as [_ ?]|by eapply ap_rows_scope0]. }
  split; simpl.
  - done.
  - rewrite Z.add_simpl_r. subst i. by eapply state_at_le.
  - by subst i.
  - by subst i.
  - done.
  - subst i. simpl. intros p (v & Hv & ->)%fmap_Some. exists v. rewrite ap_versions0.
    split; [by apply latest_policy_version|done].
  - intros x. rewrite ap_results0. subst i. by apply evaluation_signals.
  - by rewrite ap_results0.
  - intros rid x. rewrite ap_signals0. split.
    + intros [Hold|(e & He & [= ->] & ->)]; [|eauto].
      destruct (hv_links _ Hinv _ _ _ Hold). congruence.
    + intros (e & He & <- & ->). right. eauto.
Qed.

(** A decision that has a cycle has the cycle of its input. *)
Lemma row_cycle t : de_cycleStartedAt row = Some t →
  t = ah_cycleStartedAt input ∧ ah_criticalTrustFailure input = None.
Proof using Hap.
  simpl. pose proof (ap_input _ _ _ _ _ _ _ _ _ _ _ Hap) as Hi.
  unfold evaluateHealthCycle. destruct (in_criticalTrustFailure i) eqn:Hc; [done|].
  destruct (parsed_policy i) as [[pv policy]|]; [|done]. simpl.
  destruct (aggregate_shape policy (in_cycleStartedAt i) (in_routeVersion i) (in_signals i)
    (in_consumedSignalIds i)) as [Hs _]. simpl in Hs. rewrite Hs. intros [= <-]. by subst i.
Qed.

Lemma applied_newer id d t : h_decisions db !! id = Some d → de_availabilityStateId d = stateId →
  de_cycleStartedAt d = Some t → ∀ t', de_cycleStartedAt row = Some t' → t < t'.
Proof using Hap Hinv.
  intros Hd Hs Ht t' [-> Hc]%row_cycle.
  destruct (previous_cycle_newest _ _ _ _ _ Hinv Hd Hs Ht) as (t0 & Hp & Hle).
  pose proof (ap_newer _ _ _ _ _ _ _ _ _ _ _ Hap Hc _ Hp). lia.
Qed.

(** The decisions of the state are numbered up to its version. *)
Lemma applied_older id d : h_decisions db !! id = Some d → de_availabilityStateId d = stateId →
  de_stateVersion d ≤ version.
Proof using Hap Hinv.
  intros Hd Hs. pose proof Hap as [].
  destruct (hv_decisions _ Hinv _ _ Hd) as (s & _ & _ & Hst & Hv & _). rewrite Hs in Hst.
  pose proof (ensured_kept _ _ _ _ _ _ ap_states0 Hst) as Hst'. assert (current = s) by congruence.
  subst. lia.
Qed.

Lemma applied_scopes id1 id2 s1 s2 : h_states db' !! id1 = Some s1 → h_states db' !! id2 = Some s2 →
  st_scope s1 = st_scope s2 → id1 = id2.
Proof using Hap Hinv.
  pose proof Hap as [].
  assert (Hst : ∀ id s, h_states db' !! id = Some s → ∃ s', states !! id = Some s' ∧ st_scope s' = st_scope s).
  { intros id s. rewrite ap_state0, lookup_insert_Some. intros [[<- <-]|[_ Hs]]; eauto. }
  intros (s1' & Hs1 & E1)%Hst (s2' & Hs2 & E2)%Hst Heq. rewrite <- E1, <- E2 in Heq. clear Hst.
  destruct ap_states0 as [->|(Hn & Hfree & ->)]; [by eapply hv_scopes|].
  apply lookup_insert_Some in Hs1 as [[<- <-]|[? Hs1]], Hs2 as [[<- <-]|[? Hs2]]; simpl in *; try done.
  - by destruct (Hfree _ _ Hs2).
  - by destruct (Hfree _ _ Hs1).
  - by eapply hv_scopes.
Qed.

Lemma applied_states id s : h_states db' !! id = Some s → 0 ≤ st_version s ∧
  state_at db' id (st_version s) (st_state s) ∧
  ∀ k, 1 ≤ k ≤ st_version s → ∃ did d, h_decisions db' !! did = Some d ∧
    de_availabilityStateId d = id ∧ de_stateVersion d = k.
Proof using Hap Hinv.
  pose proof Hap as []. destruct applied_current as [_ Hv0]. pose proof applied_le as Hle.
  assert (Hold : ∀ id s, states !! id = Some s → 0 ≤ st_version s ∧
    state_at db' id (st_version s) (st_state s) ∧
    ∀ k, 1 ≤ k ≤ st_version s → ∃ did d, h_decisions db' !! did = Some d ∧
      de_availabilityStateId d = id ∧ de_stateVersion d = k).
  { intros id' s' Hs'. assert (h_states db !! id' = Some s' ∨ s' =
      {| st_scope := ah_affectedScope input; st_state := initial_health_state; st_version := 0 |}) as [Hs|Hs].
    { destruct ap_states0 as [->|(_ & _ & ->)]; [by left|].
      apply lookup_insert_Some in Hs' as [[_ <-]|[_ ?]]; [by right|by left]. }
    - destruct (hv_states _ Hinv _ _ Hs) as (? & ? & Hk). split_and!; [done|by eapply state_at_le|].
      intros k Hkv. destruct (Hk k Hkv) as (id1 & d & Hd & ? & ?). exists id1, d.
      split_and!; [|done..]. apply applied_lookup. by right.
    - subst s'. simpl. split_and!; [done|by left|intros k ?; lia]. }
  rewrite ap_state0, lookup_insert_Some. intros [[<- <-]|[_ Hs]]; [simpl|by apply Hold].
  assert (Hnew : h_decisions db' !! did = Some row) by (apply applied_lookup; by left).
  split_and!; [lia| |].
  - right. exists did, row. split_and!; try done.
    apply decision_row_state.
  - intros k Hk. destruct (decide (k = version + 1)) as [->|Hne]; [by exists did, row|].
    destruct (Hold _ _ ap_current0) as (_ & _ & Hks). apply Hks. lia.
Qed.

Lemma applied_inv : EvidenceInv db' ∧ health_le db db'.
Proof using Hap Hinv Hids.
  pose proof applied_le as Hle. split; [|done]. pose proof Hap as [].
  destruct applied_current as [_ Hv0]. split.
  - apply applied_scopes.
  - apply applied_states.
  - intros id d [[-> ->]|Hd]%applied_lookup.
    + exists {| st_scope := st_scope current; st_state := hd_state (evaluateHealthCycle i);
                st_version := version + 1 |}, input, i. simpl. rewrite ap_state0, lookup_insert_eq.
      split_and!; [done|lia|lia|]. rewrite ap_scope0. exact applied_evaluated.
    + by eapply decision_kept.
  - intros id1 id2 d1 d2 [[-> ->]|H1]%applied_lookup [[-> ->]|H2]%applied_lookup; try done.
    + simpl. intros Hs Hv. destruct (ap_unique0 _ _ H2) as [_ []]. done.
    + simpl. intros Hs Hv. destruct (ap_unique0 _ _ H1) as [_ []]. done.
    + by eapply hv_versions.
  - intros id1 id2 d1 d2 [[-> ->]|H1]%applied_lookup [[-> ->]|H2]%applied_lookup; try done.
    + simpl. intros Hk. by destruct (ap_unique0 _ _ H2) as [[] _].
    + simpl. intros Hk. by destruct (ap_unique0 _ _ H1) as [[] _].
    + by eapply hv_keys.
  - intros id rid x [Hx|(e & _ & [= -> _] & _)]%ap_signals0.
    + destruct (hv_links _ Hinv _ _ _ Hx) as [d Hd]. exists d. apply applied_lookup. by right.
    + exists row. apply applied_lookup. by left.
  - intros id1 id2 d1 d2 t1 t2 [[-> ->]|H1]%applied_lookup [[-> ->]|H2]%applied_lookup; simpl; try lia.
    + intros Hs Hv. pose proof (applied_older _ _ H2 (eq_sym Hs)). lia.
    + intros Hs _ Ht1 Ht2. by eapply applied_newer.
    + intros. by eapply (hv_cycles _ Hinv id1 id2).
  - rewrite ap_results0. apply Hinv.
Qed.
End applied.

Lemma apply_schema_ids is_uuid input clean :
  applyHealthCycleSchema is_uuid input = Some clean → NoDup (ah_probeResultIds clean).
Proof. unfold applyHealthCycleSchema. intros Hs. option_invert Hs. by injection Hs as <-. Qed.

(** The decision already on record under a key. *)
Lemma decision_by_key_spec key db :
  match decision_by_key key db with
  | Some (id, d) => h_decisions db !! id = Some d ∧ de_idempotencyKey d = key
  | None => ∀ id d, h_decisions db !! id = Some d → de_idempotencyKey d ≠ key
  end.
Proof.
  unfold decision_by_key. set (l := filter _ _).
  assert (Hl : ∀ x, x ∈ l ↔ de_idempotencyKey x.2 = key ∧ h_decisions db !! x.1 = Some x.2).
  { intros [id d]. unfold l. by rewrite list_elem_of_filter, elem_of_map_to_list. }
  destruct l as [|[id d] l]; simpl.
  - intros id d Hd Hk. by pose proof (proj2 (Hl (id, d)) (conj Hk Hd)) as ?%elem_of_nil.
  - destruct (proj1 (Hl (id, d))) as [? ?]; [left|done].
Qed.

Lemma decide_ok is_uuid sha256 `{DateStrings} input version aborted now db r db' :
  evaluateAndApplyDecision uuid is_uuid sha256 input version aborted now db = (Ok r, db') →
  ∃ clean, applyHealthCycleSchema is_uuid input = Some clean ∧
    let key := cycleIdempotencyKey sha256 version clean in
    ((∃ d, h_decisions db !! ad_decisionId r = Some d ∧ de_idempotencyKey d = key ∧
        r = {| ad_decisionId := ad_decisionId r; ad_idempotencyKey := key;
               ad_stateVersion := de_stateVersion d; ad_replayed := true |}) ∧ db' = db ∨
     ∃ stateId current states i, applied db clean version key now r db' stateId current states i).
Proof.
  unfold evaluateAndApplyDecision. intros Hrun.
  destruct (applyHealthCycleSchema _ _) as [clean|] eqn:Hs; [|done]. exists clean. split; [done|].
  ok_inv Hrun. unfold refuse in *.
  repeat match goal with H : throw_if _ _ _ = (Ok _, _) |- _ => apply throw_if_ok_inv in H as [? ->] end.
  pose proof (decision_by_key_spec (cycleIdempotencyKey sha256 version clean) db) as Hkey.
  destruct (decision_by_key _ _) as [[id d]|].
  - left. ok_inv Hrun. destruct Hkey. split; [by exists d|done].
  - right. by apply apply_decision_ok in Hrun.
Qed.

Lemma decide_inv is_uuid sha256 `{DateStrings} input version aborted now db r db' :
  evaluateAndApplyDecision uuid is_uuid sha256 input version aborted now db = (Ok r, db') →
  EvidenceInv db → (EvidenceInv db' ∧ health_le db db') ∧ same_actions db db'.
Proof.
  intros (clean & Hs & [[_ ->]|(stateId & current & states & i & Hap)])%decide_ok Hinv.
  - split; [by split|by split_and!].
  - split; [eapply applied_inv; [done..|by eapply apply_schema_ids]|by destruct Hap].
Qed.

(** ** Incidents and operations leave the evidence alone *)

Lemma incident_create_ok id decisionId scope now db u db' :
  incident_create id decisionId scope now db = (Ok u, db') →
  let i := {| ic_availabilityDecisionId := decisionId; ic_scope := scope;
              ic_status := INCIDENT_OPEN; ic_openedAt := now; ic_resolvedAt := None |} in
  incident_refused db i = false ∧ h_incidents db !! id = None ∧
  (∀ id' x, h_incidents db !! id' = Some x → ic_availabilityDecisionId x ≠ decisionId) ∧
  db' = set_incidents <[id := i]> db.
Proof.
  unfold incident_create. intros Hrun. ok_inv Hrun.
  repeat match goal with H : hrefuse _ _ _ = (Ok _, _) |- _ => apply hrefuse_ok in H as [? ->] end.
  split_and!; try done; [by destruct (h_incidents _ !! id)|]. intros id' x Hx.
  match goal with H : exists_in _ _ = false |- _ => pose proof (exists_in_none _ _ H id' x Hx) as Hn end.
  by apply bool_decide_eq_false in Hn.
Qed.

Lemma operation_create_ok id o db u db' :
  operation_create id o db = (Ok u, db') →
  operation_refused db o = false ∧ h_operations db !! id = None ∧
  (∀ id' x, h_operations db !! id' = Some x →
     ¬ (op_availabilityDecisionId x = op_availabilityDecisionId o ∧ op_type x = op_type o)) ∧
  db' = set_operations <[id := o]> db.
Proof.
  unfold operation_create. intros Hrun. ok_inv Hrun.
  repeat match goal with H : hrefuse _ _ _ = (Ok _, _) |- _ => apply hrefuse_ok in H as [? ->] end.
  split_and!; try done; [by destruct (h_operations _ !! id)|]. intros id' x Hx [E1 E2].
  match goal with H : exists_in _ _ = false |- _ => pose proof (exists_in_none _ _ H id' x Hx) as Hn end.
  simpl in Hn. apply orb_false_iff in Hn as [_ Hn]. by rewrite !bool_decide_eq_true_2 in Hn.
Qed.

(** An event other than a resolution. *)
Lemma timeline_create_ok e db u db' :
  timeline_create e db = (Ok u, db') →
  timeline_refused db e = false ∧
  existsb (λ x, timeline_clash x e) (h_timeline db) = false ∧
  (tl_kind e ≠ TL_RESOLVED ∧ db' = set_timeline (λ l, l ++ [e]) db ∨
   tl_kind e = TL_RESOLVED ∧ ∃ i, h_incidents db !! tl_incidentId e = Some i ∧
     db' = set_incidents <[tl_incidentId e := resolve_incident (tl_createdAt e) i]>
             (set_timeline (λ l, l ++ [e]) db)).
Proof.
  unfold timeline_create. intros Hrun. ok_inv Hrun.
  repeat match goal with H : hrefuse _ _ _ = (Ok _, _) |- _ => apply hrefuse_ok in H as [? ->] end.
  split_and!; [done..|]. unfold when in Hrun. case_bool_decide as Hk; [right|left; by ok_inv Hrun].
  split; [done|]. destruct (h_incidents _ !! _) as [i|] eqn:Hi; [|done]. ok_inv Hrun.
  repeat match goal with H : hrefuse _ _ _ = (Ok _, _) |- _ => apply hrefuse_ok in H as [? ->] end.
  exists i. split; [|done]. rewrite <- Hi. by destruct db.
Qed.

(** ** The invariant of incidents *)

Definition has_event (db : HealthDb) (incidentId : string) (kind : TimelineKind) : Prop :=
  ∃ e, e ∈ h_timeline db ∧ tl_incidentId e = incidentId ∧ tl_kind e = kind.

(** An incident answers one triggering decision, and its operation is the one
    the decision calls for. *)
Record incident_ok (db : HealthDb) (id : string) (i : Incident) : Prop := {
  io_decision : ∃ d, h_decisions db !! ic_availabilityDecisionId i = Some d ∧
    de_triggerIncident d = true ∧ decision_scope db d = Some (ic_scope i) ∧
    (is_Some (replacement_policy d) ↔
     ∃ oid o, h_operations db !! oid = Some o ∧ op_incidentId o = id);
  io_opened : has_event db id TL_OPENED;
  io_resolved : (ic_status i = INCIDENT_RESOLVED ↔ has_event db id TL_RESOLVED) ∧
    (ic_status i = INCIDENT_RESOLVED ↔ is_Some (ic_resolvedAt i));
  io_terminal : ic_status i = INCIDENT_RESOLVED → ∀ oid o, h_operations db !! oid = Some o →
    op_incidentId o = id → is_terminal (op_status o) = true;
}.

Definition operation_ok (db : HealthDb) (o : NodeOperation) : Prop :=
  op_type o = OT_PROMOTE_STANDBY ∧
  ∃ i d, h_incidents db !! op_incidentId o = Some i ∧
    ic_availabilityDecisionId i = op_availabilityDecisionId o ∧
    h_decisions db !! op_availabilityDecisionId o = Some d ∧
    replacement_policy d = Some (op_healthPolicyVersionId o) ∧ op_scope o = ic_scope i.

Record ActionInv (db : HealthDb) : Prop := {
  av_incidents : ∀ id i, h_incidents db !! id = Some i → incident_ok db id i;
  av_unique : ∀ id1 id2 i1 i2, h_incidents db !! id1 = Some i1 → h_incidents db !! id2 = Some i2 →
    ic_availabilityDecisionId i1 = ic_availabilityDecisionId i2 → id1 = id2;
  av_operations : ∀ id o, h_operations db !! id = Some o → operation_ok db o;
  av_one : ∀ id1 id2 o1 o2, h_operations db !! id1 = Some o1 → h_operations db !! id2 = Some o2 →
    op_incidentId o1 = op_incidentId o2 → id1 = id2;
  av_events : ∀ e, e ∈ h_timeline db → is_Some (h_incidents db !! tl_incidentId e) ∧
    ∀ oid, tl_nodeOperationId e = Some oid → is_Some (h_operations db !! oid);
}.

Lemma ActionInv_empty : ActionInv empty_health_db.
Proof. split; simpl; try (intros; by rewrite lookup_empty in * ); set_solver. Qed.

Lemma decision_scope_le db db' did d scope :
  EvidenceInv db → health_le db db' → h_decisions db !! did = Some d →
  decision_scope db d = Some scope → decision_scope db' d = Some scope.
Proof.
  unfold decision_scope. intros Hinv Hle Hd (s & Hs & ->)%fmap_Some.
  destruct (hl_states _ _ Hle _ _ Hs) as (s' & -> & Hsc & _). simpl. congruence.
Qed.

(** Growing evidence under fixed incidents. *)
Lemma action_inv_evidence db db' :
  EvidenceInv db → health_le db db' → h_incidents db' = h_incidents db →
  h_operations db' = h_operations db → h_timeline db' = h_timeline db →
  ActionInv db → ActionInv db'.
Proof.
  intros Hinv Hle I O T []. split; unfold operation_ok; rewrite ?I, ?O, ?T; try done.
  - intros id i Hi. destruct (av_incidents0 _ _ Hi) as [(d & Hd & Ht & Hs & Hop) He Hr Hterm].
    split; unfold has_event; rewrite ?O, ?T; try done. exists d. split_and!; try done.
    + eapply lookup_weaken; [done|apply Hle].
    + by eapply decision_scope_le.
  - intros id o Ho. destruct (av_operations0 _ _ Ho) as (Hty & i & d & Hi & Hid & Hd & Hrest).
    split; [done|]. exists i, d. split_and!; try done; try apply Hrest.
    eapply lookup_weaken; [done|apply Hle].
Qed.

(** The progress of an operation. *)
Definition set_op_status (status : NodeOperationStatus) (o : NodeOperation) : NodeOperation :=
  {| op_incidentId := op_incidentId o; op_availabilityDecisionId := op_availabilityDecisionId o;
     op_healthPolicyVersionId := op_healthPolicyVersionId o; op_idempotencyKey := op_idempotencyKey o;
     op_type := op_type o; op_status := status; op_scope := op_scope o;
     op_servicePrincipal := op_servicePrincipal o; op_reason := op_reason o;
     op_maxAttempts := op_maxAttempts o |}.

Lemma operation_progress_inv db oid o status :
  ActionInv db → h_operations db !! oid = Some o → operation_transition (op_status o) status = true →
  ActionInv (set_operations <[oid := set_op_status status o]> db).
Proof.
  intros [] Ho Htr. set (db' := set_operations _ db).
  assert (O : h_operations db' = <[oid := set_op_status status o]> (h_operations db)) by (unfold db'; hcolumn).
  assert (I : h_incidents db' = h_incidents db) by (unfold db'; hcolumn).
  assert (T : h_timeline db' = h_timeline db) by (unfold db'; hcolumn).
  assert (D : h_decisions db' = h_decisions db) by (unfold db'; hcolumn).
  assert (St : h_states db' = h_states db) by (unfold db'; hcolumn).
  assert (Hback : ∀ id x, h_operations db' !! id = Some x → ∃ y, h_operations db !! id = Some y ∧
    (x = y ∨ id = oid ∧ y = o ∧ x = set_op_status status o)).
  { intros id x. rewrite O, lookup_insert_Some. naive_solver. }
  assert (Hforth : ∀ id y, h_operations db !! id = Some y → ∃ x, h_operations db' !! id = Some x ∧
    op_incidentId x = op_incidentId y).
  { intros id y Hy. rewrite O. destruct (decide (id = oid)) as [->|Hne].
    - rewrite lookup_insert_eq. eexists. split; [done|]. simpl. congruence.
    - rewrite lookup_insert_ne by done. eauto. }
  split; unfold operation_ok; rewrite ?I, ?D, ?T; try done.
  - intros id i Hi. destruct (av_incidents0 _ _ Hi) as [(d & Hd & Ht & Hs & Hop) He Hr Hterm].
    split; unfold has_event; rewrite ?T; try done.
    + exists d. rewrite D. unfold decision_scope in *. rewrite St. split_and!; try done. rewrite Hop. split.
      * intros (oid' & o' & Ho' & Heq). destruct (Hforth _ _ Ho') as (x & Hx & E). exists oid', x. split; [done|congruence].
      * intros (oid' & x & (y & Hy & Hxy)%Hback & Heq). exists oid', y. split; [done|].
        destruct Hxy as [->|(_ & -> & ->)]; done.
    + intros Hres oid' x (y & Hy & Hxy)%Hback Heq.
      destruct Hxy as [->|(-> & -> & ->)]; [by eapply Hterm|]. simpl in *.
      assert (Hterm' : is_terminal (op_status o) = true) by (by eapply Hterm).
      by destruct (op_status o).
  - intros id x (y & Hy & Hxy)%Hback. destruct (av_operations0 _ _ Hy) as (Hty & Hrest).
    destruct Hxy as [->|(_ & -> & ->)]; by split.
  - intros id1 id2 x1 x2 (y1 & H1 & E1)%Hback (y2 & H2 & E2)%Hback Heq.
    eapply av_one0; [done..|]. destruct E1 as [->|(_ & -> & ->)], E2 as [->|(_ & -> & ->)]; done.
  - intros e He. destruct (av_events0 e He) as [Hi Hop]. split; [done|].
    intros oid' Hoid'. destruct (Hop _ Hoid') as [y Hy]. destruct (Hforth _ _ Hy) as (x & Hx & _). eauto.
Qed.

(** ** Opening an incident *)

(** The rows a materialization adds: the incident, its event and, when the
    decision calls for one, the operation with its event. *)
Record opened (db db' : HealthDb) (iid did : string) (d : DecisionRow) (scope : Scope) (now : Z)
    (operation : option (string * NodeOperation)) : Prop := {
  on_decision : h_decisions db !! did = Some d;
  on_scope : decision_scope db d = Some scope;
  on_trigger : de_triggerIncident d = true;
  on_new : h_incidents db !! iid = None;
  on_only : ∀ id' x, h_incidents db !! id' = Some x → ic_availabilityDecisionId x ≠ did;
  on_incidents : h_incidents db' = <[iid := {| ic_availabilityDecisionId := did; ic_scope := scope;
    ic_status := INCIDENT_OPEN; ic_openedAt := now; ic_resolvedAt := None |}]> (h_incidents db);
  on_operation : match operation with
    | None => replacement_policy d = None ∧ h_operations db' = h_operations db
    | Some (oid, o) => replacement_policy d = Some (op_healthPolicyVersionId o) ∧
        h_operations db !! oid = None ∧ h_operations db' = <[oid := o]> (h_operations db) ∧
        op_type o = OT_PROMOTE_STANDBY ∧ op_incidentId o = iid ∧ op_availabilityDecisionId o = did ∧
        op_scope o = scope ∧ op_status o = OP_PENDING
    end;
  on_timeline : h_timeline db' = h_timeline db ++
    {| tl_incidentId := iid; tl_kind := TL_OPENED; tl_nodeOperationId := None; tl_createdAt := now |} ::
    match operation with
    | None => []
    | Some (oid, _) => [{| tl_incidentId := iid; tl_kind := TL_OPERATION_CREATED;
                           tl_nodeOperationId := Some oid; tl_createdAt := now |}]
    end;
  on_drawn : iid = uuid (h_drawn db) ∧ match operation with
    | None => h_drawn db' = S (h_drawn db)
    | Some (oid, _) => oid = uuid (S (h_drawn db)) ∧ h_drawn db' = S (S (h_drawn db))
    end;
  on_same : h_decisions db' = h_decisions db ∧ h_states db' = h_states db ∧
    h_results db' = h_results db ∧ h_signals db' = h_signals db ∧ h_versions db' = h_versions db;
}.

Section opened.
Context (db db' : HealthDb) (iid did : string) (d : DecisionRow) (scope : Scope) (now : Z).
Context (operation : option (string * NodeOperation)).
Context (Hon : opened db db' iid did d scope now operation) (Hinv : ActionInv db).

Lemma opened_operations oid o : h_operations db' !! oid = Some o ↔
  h_operations db !! oid = Some o ∨ operation = Some (oid, o).
Proof using Hon Hinv.
  pose proof (on_operation _ _ _ _ _ _ _ _ Hon) as Hop. destruct operation as [[oid' o']|].
  - destruct Hop as (_ & Hn & -> & _). rewrite lookup_insert_Some. split; [naive_solver|].
    intros [Ho|[= -> ->]]; [right; split; congruence|by left].
  - destruct Hop as [_ ->]. naive_solver.
Qed.

Lemma opened_no_old oid o : h_operations db !! oid = Some o → op_incidentId o ≠ iid.
Proof using Hon Hinv.
  intros Ho Heq. destruct (av_operations _ Hinv _ _ Ho) as (_ & i & _ & Hi & _).
  pose proof (on_new _ _ _ _ _ _ _ _ Hon). congruence.
Qed.

Lemma opened_timeline e : e ∈ h_timeline db' →
  e ∈ h_timeline db ∨ tl_incidentId e = iid ∧ tl_kind e ≠ TL_RESOLVED.
Proof using Hon.
  rewrite (on_timeline _ _ _ _ _ _ _ _ Hon), elem_of_app, elem_of_cons.
  intros [He|[->|He]]; [by left|by right|right].
  destruct operation as [[oid o]|]; [|by apply elem_of_nil in He].
  by apply list_elem_of_singleton in He as ->.
Qed.

Lemma opened_event id kind : id ≠ iid → has_event db' id kind ↔ has_event db id kind.
Proof using Hon Hinv.
  intros Hne. unfold has_event.
  split; intros (e & He & E1 & E2); exists e; (split; [|done]).
  - apply opened_timeline in He as [?|[? _]]; [done|congruence].
  - rewrite (on_timeline _ _ _ _ _ _ _ _ Hon). apply elem_of_app. by left.
Qed.

Lemma opened_incident_ok id i : h_incidents db' !! id = Some i → incident_ok db' id i.
Proof using Hon Hinv.
  pose proof opened_no_old as Hno. pose proof opened_operations as Hops.
  pose proof opened_timeline as Htl.
  pose proof Hon as []. rewrite on_incidents0, lookup_insert_Some.
  destruct on_same0 as (D & St & _). intros [[<- <-]|[Hne Hi]].
  - assert (Hfresh : ¬ has_event db iid TL_RESOLVED).
    { intros (e & He & Heq & _). destruct (av_events _ Hinv e He) as [[i Hi] _]. congruence. }
    split; simpl.
    + exists d. unfold decision_scope in *. rewrite D, St. split_and!; try done.
      setoid_rewrite Hops. destruct operation as [[oid o]|].
      * destruct on_operation0 as (-> & _ & _ & _ & Hio & _). split; [|eauto]. intros _. exists oid, o. auto.
      * destruct on_operation0 as [-> _]. split; [by intros [? ?]|]. intros (oid & o & [Ho|?] & Heq); [|done].
        by destruct (Hno _ _ Ho).
    + unfold has_event. rewrite on_timeline0. eexists. split; [apply elem_of_app; right; left|done].
    + split; (split; [done|]); [|by intros [? ?]]. intros (e & He & E1 & E2). exfalso.
      apply Htl in He as [He|[_ He]]; [apply Hfresh; by exists e|done].
    + done.
  - destruct (av_incidents _ Hinv _ _ Hi) as [(d' & Hd & Ht & Hs & Hop) He Hr Hterm].
    split; rewrite ?opened_event by done; try done.
    + exists d'. unfold decision_scope in *. rewrite D, St. split_and!; try done. rewrite Hop.
      setoid_rewrite Hops. split; [naive_solver|].
      intros (oid & o & [Ho|Ho] & Heq); [eauto|]. subst operation. naive_solver.
    + intros Hres oid o [Ho|Ho]%Hops Heq; [by eapply Hterm|]. subst operation. naive_solver.
Qed.

Lemma opened_inv : ActionInv db'.
Proof using Hon Hinv.
  pose proof opened_no_old as Hno. pose proof opened_operations as Hops.
  pose proof opened_timeline as Htl.
  pose proof Hon as []. clear on_drawn0. destruct on_same0 as (D & _). split.
  - apply opened_incident_ok.
  - intros id1 id2 i1 i2. rewrite on_incidents0, !lookup_insert_Some.
    intros [[<- <-]|[_ H1]] [[<- <-]|[_ H2]]; simpl; try done; intros Heq.
    + by destruct (on_only0 _ _ H2).
    + by destruct (on_only0 _ _ H1).
    + by eapply av_unique.
  - intros oid o [Ho|Ho]%Hops.
    + destruct (av_operations _ Hinv _ _ Ho) as (Hty & i & d' & Hi & Hrest). split; [done|].
      exists i, d'. rewrite on_incidents0, D. split; [|done]. rewrite lookup_insert_ne; [done|congruence].
    + subst operation. destruct on_operation0 as (Hp & _ & _ & Hty & <- & Hd & Hsc & _). split; [done|].
      eexists _, d. rewrite on_incidents0, lookup_insert_eq, D, Hd. split_and!; try done.
  - intros id1 id2 o1 o2 [H1|H1]%Hops [H2|H2]%Hops Heq.
    + by eapply av_one.
    + subst operation. destruct (Hno _ _ H1). naive_solver.
    + subst operation. destruct (Hno _ _ H2). naive_solver.
    + congruence.
  - intros e. rewrite on_timeline0, elem_of_app, elem_of_cons. intros He.
    assert (Hold : e ∈ h_timeline db → is_Some (h_incidents db' !! tl_incidentId e) ∧
      ∀ oid, tl_nodeOperationId e = Some oid → is_Some (h_operations db' !! oid)).
    { intros Hin. destruct (av_events _ Hinv e Hin) as [[i Hi] Hop]. split.
      - rewrite on_incidents0, lookup_insert_ne; [eauto|congruence].
      - intros oid Hoid. destruct (Hop _ Hoid) as [o Ho]. exists o. apply Hops. by left. }
    destruct He as [He|[->|He]]; [by apply Hold| |].
    + simpl. rewrite on_incidents0, lookup_insert_eq. by split; [eauto|].
    + destruct operation as [[oid o]|]; [|set_solver]. apply list_elem_of_singleton in He as ->. simpl.
      rewrite on_incidents0, lookup_insert_eq. split; [eauto|]. intros oid' [= <-]. exists o.
      apply Hops. by right.
Qed.
End opened.

Section actions.
Context (is_uuid : string → bool) (sha256_text : string → string) (maxAttempts : Z).
Notation materialize := (materializeDecisionActions uuid is_uuid sha256_text maxAttempts).
Notation resolve := (resolveIncident is_uuid).

Lemma incident_of_spec did db :
  match incident_of did db with
  | Some (id, i) => h_incidents db !! id = Some i ∧ ic_availabilityDecisionId i = did
  | None => ∀ id i, h_incidents db !! id = Some i → ic_availabilityDecisionId i ≠ did
  end.
Proof.
  unfold incident_of. set (l := filter _ _).
  assert (Hl : ∀ x, x ∈ l ↔ ic_availabilityDecisionId x.2 = did ∧ h_incidents db !! x.1 = Some x.2).
  { intros [id i]. unfold l. rewrite list_elem_of_filter, elem_of_map_to_list. done. }
  destruct l as [|[id i] l]; simpl.
  - intros id i Hi Hd. assert ((id, i) ∈ @nil (string * Incident)) by (by apply Hl). set_solver.
  - destruct (proj1 (Hl (id, i))) as [? ?]; [left|done].
Qed.

(** What a materialization does. *)
Definition materialized (did : string) (now : Z) (db : HealthDb) (r : MaterializedHealthActions)
    (db' : HealthDb) : Prop :=
  ∃ d scope, h_decisions db !! did = Some d ∧ decision_scope db d = Some scope ∧
    ((de_triggerIncident d = false ∧ r = nothing_materialized ∧ db' = db) ∨
     (∃ iid i, de_triggerIncident d = true ∧ h_incidents db !! iid = Some i ∧
        ic_availabilityDecisionId i = did ∧ db' = db ∧
        is_null (replacement_policy d) = is_null (promotion_of iid db) ∧
        r = {| mh_incidentId := Some iid; mh_operationId := fst <$> promotion_of iid db;
               mh_replayed := true |}) ∨
     (∃ iid operation, opened db db' iid did d scope now operation ∧
        (∀ oid o, operation = Some (oid, o) → op_idempotencyKey o = operationIdempotencyKey sha256_text did) ∧
        r = {| mh_incidentId := Some iid; mh_operationId := fst <$> operation; mh_replayed := false |})).

Lemma materialize_new_ok input did d scope now db r db' :
  h_decisions db !! did = Some d → decision_scope db d = Some scope → de_triggerIncident d = true →
  materialize_new uuid sha256_text maxAttempts input did d scope now db = (Ok r, db') →
  ∃ iid operation, opened db db' iid did d scope now operation ∧
    (∀ oid o, operation = Some (oid, o) → op_idempotencyKey o = operationIdempotencyKey sha256_text did) ∧
    r = {| mh_incidentId := Some iid; mh_operationId := fst <$> operation; mh_replayed := false |}.
Proof.
  intros Hd Hs Ht Hrun. unfold materialize_new, health_audit in Hrun. ok_inv Hrun.
  rewrite draw_run in Hrun0. injection Hrun0 as <- <-.
  apply incident_create_ok in Hrun1 as (_ & Hnew & Honly & ->).
  apply timeline_create_ok in Hrun2 as (_ & _ & [(_ & ->)|[? _]]); [|done].
  destruct (replacement_policy d) as [policy|] eqn:Hp.
  - ok_inv Hrun. rewrite draw_run in Hrun0. injection Hrun0 as <- <-.
    apply operation_create_ok in Hrun1 as (_ & Hnewop & _ & ->).
    apply timeline_create_ok in Hrun2 as (_ & _ & [(_ & ->)|[? _]]); [|done].
    exists (uuid (h_drawn db)), (Some (uuid (S (h_drawn db)),
      new_operation sha256_text maxAttempts input (uuid (h_drawn db)) did policy scope d)).
    destruct db. simpl in *. split; [|split; [by intros oid o [= <- <-]|done]].
    split; simpl; try done. by rewrite <- app_assoc.
  - ok_inv Hrun. exists (uuid (h_drawn db)), None. split; [|by split].
    destruct db. simpl in *. by split.
Qed.

Lemma materialize_ok input now db r db' :
  materialize input now db = (Ok r, db') →
  ∃ clean, materializeSchema is_uuid input = Some clean ∧
    materialized (uuid_text (mi_availabilityDecisionId clean)) now db r db'.
Proof.
  unfold materializeDecisionActions. intros Hrun.
  destruct (materializeSchema _ _) as [clean|] eqn:Hs; [|done]. exists clean. split; [done|].
  ok_inv Hrun. destruct (h_decisions db !! _) as [d|] eqn:Hd; [|done]. simpl in Hrun.
  destruct (decision_scope db d) as [scope|] eqn:Hsc; [|done]. simpl in Hrun.
  exists d, scope. split_and!; [done..|].
  destruct (de_triggerIncident d) eqn:Ht; [|left; simpl in Hrun; by ok_inv Hrun]. right. simpl in Hrun.
  pose proof (incident_of_spec (uuid_text (mi_availabilityDecisionId clean)) db) as Hof.
  destruct (incident_of _ db) as [[iid i]|]; [left|right].
  - unfold materialize_existing in Hrun. ok_inv Hrun. apply orb_false_iff in Hguard as [Hnull%negb_false_iff _].
    exists iid, i. destruct Hof. split_and!; try done. by apply Bool.eqb_prop.
  - by eapply materialize_new_ok.
Qed.

(** What resolving an incident does. *)
Definition resolved (iid : string) (now : Z) (db : HealthDb) (r : ResolvedHealthIncident)
    (db' : HealthDb) : Prop :=
  ∃ i, h_incidents db !! iid = Some i ∧ rh_incidentId r = iid ∧
    ((ic_status i = INCIDENT_RESOLVED ∧ ic_resolvedAt i = Some (rh_resolvedAt r) ∧
      rh_replayed r = true ∧ db' = db) ∨
     (ic_status i = INCIDENT_OPEN ∧ rh_resolvedAt r = now ∧ rh_replayed r = false ∧
      (∀ oid o, h_operations db !! oid = Some o → op_incidentId o = iid → is_terminal (op_status o) = true) ∧
      h_incidents db' = <[iid := resolve_incident now i]> (h_incidents db) ∧
      h_timeline db' = h_timeline db ++ [{| tl_incidentId := iid; tl_kind := TL_RESOLVED;
        tl_nodeOperationId := None; tl_createdAt := now |}] ∧
      h_operations db' = h_operations db ∧ h_drawn db' = h_drawn db ∧ same_evidence db db')).

Lemma operations_of_elem db iid oid o :
  (oid, o) ∈ operations_of db iid ↔ op_incidentId o = iid ∧ h_operations db !! oid = Some o.
Proof. unfold operations_of. by rewrite list_elem_of_filter, elem_of_map_to_list. Qed.

Lemma resolve_ok input now db r db' :
  resolve input now db = (Ok r, db') →
  ∃ clean, resolveSchema is_uuid input = Some clean ∧ resolved (uuid_text (ri_incidentId clean)) now db r db'.
Proof.
  unfold resolveIncident, health_audit. intros Hrun.
  destruct (resolveSchema _ _) as [clean|] eqn:Hs; [|done]. exists clean. split; [done|].
  ok_inv Hrun. destruct (h_incidents db !! _) as [i|] eqn:Hi; [|done]. exists i. split; [done|].
  case_bool_decide as Hst.
  - destruct (ic_resolvedAt i) as [t|] eqn:Ht; ok_inv Hrun. split; [done|]. by left.
  - ok_inv Hrun. match goal with H : timeline_create _ _ = _ |- _ =>
      apply timeline_create_ok in H as (_ & _ & [(? & _)|(_ & i' & Hi' & ->)]); [done|] end.
    simpl in *. assert (i' = i) as -> by congruence.
    split; [done|]. right. destruct (ic_status i) eqn:Hs'; [|done]. split_and!; try done;
      try (by destruct db). intros oid o Ho Hid.
    pose proof (existsb_none _ _ Hguard (oid, o)) as Hn. simpl in Hn.
    apply negb_false_iff, Hn, operations_of_elem. done.
Qed.
End actions.

Lemma opened_same db db' iid did d scope now operation :
  opened db db' iid did d scope now operation → same_evidence db db'.
Proof. intros []. destruct on_same0 as (D & St & R & L & V). split_and!; try done. by rewrite V. Qed.

Lemma materialized_inv sha256_text did now db r db' :
  materialized sha256_text did now db r db' → EvidenceInv db → ActionInv db →
  same_evidence db db' ∧ ActionInv db'.
Proof.
  intros (d & scope & _ & _ & [(_ & _ & ->)|[(iid & i & _ & _ & _ & -> & _)|(iid & op & Hon & _ & _)]]) Hev Hinv;
    [by split..|]. split; [by eapply opened_same|by eapply opened_inv].
Qed.

Lemma resolved_inv iid now db r db' :
  resolved iid now db r db' → ActionInv db → same_evidence db db' ∧ ActionInv db'.
Proof.
  intros (i & Hi & _ & [(_ & _ & _ & ->)|(Hst & _ & _ & Hterm & I & T & O & _ & Hsame)]) Hinv; [by split|].
  split; [done|]. destruct Hsame as (_ & S & D & _). pose proof Hinv as [].
  set (resolution := {| tl_incidentId := iid |}) in T.
  assert (Hevent : ∀ id kind, has_event db' id kind ↔ has_event db id kind ∨ id = iid ∧ kind = TL_RESOLVED).
  { intros id kind. unfold has_event. rewrite T. setoid_rewrite elem_of_app.
    setoid_rewrite list_elem_of_singleton. split; [|naive_solver].
    intros (e & [He| ->] & E1 & E2); [left; eauto|right; by rewrite <- E1, <- E2]. }
  split; unfold operation_ok; rewrite ?O; try done.
  - intros id x. rewrite I, lookup_insert_Some. intros [[<- <-]|[Hne Hx]].
    + destruct (av_incidents0 _ _ Hi) as [(d & Hd & Ht & Hs & Hop) He Hr Hterm'].
      split; simpl; rewrite ?Hevent, ?O; [|by left| |done].
      * exists d. unfold decision_scope in *. by rewrite D, S.
      * split; split; try done; by right.
    + destruct (av_incidents0 _ _ Hx) as [(d & Hd & Ht & Hs & Hop) He Hr Hterm'].
      split; rewrite ?Hevent, ?O; [|by left| |done].
      * exists d. unfold decision_scope in *. by rewrite D, S.
      * destruct Hr as [Hr1 Hr2]. split; [|done]. rewrite Hr1. naive_solver.
  - intros id1 id2 i1 i2. rewrite I, !lookup_insert_Some.
    intros [[<- <-]|[_ H1]] [[<- <-]|[_ H2]]; simpl; try done; intros Heq.
    + by eapply (av_unique0 iid id2 i).
    + by eapply (av_unique0 id1 iid i1 i).
    + by eapply av_unique0.
  - intros id o Ho. destruct (av_operations0 _ _ Ho) as (Hty & x & d & Hx & Hid & Hd & Hp & Hsc).
    split; [done|]. rewrite I, D. destruct (decide (op_incidentId o = iid)) as [Heq|Hne].
    + rewrite Heq in *. exists (resolve_incident now i), d. rewrite lookup_insert_eq.
      assert (x = i) as -> by congruence. done.
    + exists x, d. by rewrite lookup_insert_ne.
  - intros e. rewrite T, elem_of_app, list_elem_of_singleton. intros [He| ->].
    + destruct (av_events0 e He) as [[x Hx] Hop]. split; [|done]. rewrite I.
      destruct (decide (tl_incidentId e = iid)) as [->|Hne]; [rewrite lookup_insert_eq; eauto|].
      rewrite lookup_insert_ne by done. eauto.
    + simpl. rewrite I, lookup_insert_eq. by split; [eauto|].
Qed.
End invariant.
