(* ===== verification/HealthSystem.v ===== *)
(** * The health system

    The steps of the health tables and what every reachable state guarantees:
    availability is the run of the decision function over recorded evidence,
    every decision of a cycle is backed by an independent quorum, a probe
    result is counted once, and incidents and replacements follow decisions. *)

From S2P Require Import Prelude.
From S2P Require Import Json.
From S2P Require Import OperationalPolicy.
From S2P Require Import HealthDecision.
From S2P Require Import Keeps.
From S2P Require Import Sql.
From S2P Require Import XrayAccess.
From S2P Require Import HealthStore.
From S2P Require Import HealthEvidence.
From S2P Require Import HealthAction.
From S2P Require Import HealthInvariant.
Open Scope Z_scope.

Section system.
Context (uuid : nat → string) (is_uuid : string → bool).
Context (sha256 : json → string) (sha256_text : string → string) (maxAttempts : Z).
Context {Locale : LocaleCompare} {Dates : DateStrings}.

(** One committed transaction, or a change made outside the sources: sources
    and policy versions are administered, operations are carried out; other
    transactions write to the audit log and draw identifiers. *)
Inductive health_step (db : HealthDb) : HealthDb → Prop :=
| HStepSource id source : health_step db (set_sources <[uuid_text id := source]> db)
| HStepVersion v : health_step db (set_versions (λ l, l ++ [v]) db)
| HStepActivation a : health_step db (set_activations (λ l, l ++ [a]) db)
| HStepOperation id o status : h_operations db !! id = Some o →
    operation_transition (op_status o) status = true →
    health_step db (set_operations <[id := set_op_status status o]> db)
| HStepRecord input now r db' : recordProbeResult uuid is_uuid input now db = (Ok r, db') →
    health_step db db'
| HStepDecide input version aborted now r db' :
    evaluateAndApplyDecision uuid is_uuid sha256 input version aborted now db = (Ok r, db') →
    health_step db db'
| HStepMaterialize input now r db' :
    materializeDecisionActions uuid is_uuid sha256_text maxAttempts input now db = (Ok r, db') →
    health_step db db'
| HStepResolve input now r db' : resolveIncident is_uuid input now db = (Ok r, db') →
    health_step db db'
| HStepElsewhere entries n :
    health_step db (set_health_audit (λ l, l ++ entries) (set_health_drawn (Nat.add n) db)).

Definition health_reachable (db : HealthDb) : Prop := rtc health_step empty_health_db db.

Definition HealthInv (db : HealthDb) : Prop := EvidenceInv db ∧ ActionInv db.

(** The steps that leave incidents alone, and those that leave evidence. *)
Lemma evidence_step_inv db db' :
  (EvidenceInv db' ∧ health_le db db') ∧ same_actions db db' →
  HealthInv db → HealthInv db' ∧ health_le db db'.
Proof.
  intros ((HE & Hle) & I & O & T) [Hev Hac]. split; [split; [done|]|done]. by eapply action_inv_evidence.
Qed.
Lemma action_step_inv db db' : same_evidence db db' ∧ ActionInv db' →
  HealthInv db → HealthInv db' ∧ health_le db db'.
Proof.
  intros [Hs HA] [HE _]. split; [split; [by eapply same_evidence_inv|done]|by apply same_evidence_le].
Qed.

Lemma health_step_inv' db db' : health_step db db' → HealthInv db → HealthInv db' ∧ health_le db db'.
Proof.
  intros Hstep Hinv. destruct Hstep as [id source|v|a|id o status Ho Htr|input now r db' Hrun|
    input version aborted now r db' Hrun|input now r db' Hrun|input now r db' Hrun|entries n].
  - apply action_step_inv; [|done]. split; [by destruct db|].
    eapply action_inv_evidence; [apply Hinv|apply (same_evidence_le db)|..|apply Hinv]; by destruct db.
  - assert (Hs : same_evidence db (set_versions (λ l, l ++ [v]) db)).
    { destruct db. split_and!; try done. simpl. set_solver. }
    apply action_step_inv; [|done]. split; [done|].
    eapply action_inv_evidence; [apply Hinv|by apply same_evidence_le|..|apply Hinv]; by destruct db.
  - apply action_step_inv; [|done]. split; [by destruct db|].
    eapply action_inv_evidence; [apply Hinv|apply (same_evidence_le db)|..|apply Hinv]; by destruct db.
  - apply action_step_inv; [|done]. split; [by destruct db|]. by apply operation_progress_inv; [apply Hinv|..].
  - apply evidence_step_inv; [|done]. eapply record_inv; [done|apply Hinv].
  - apply evidence_step_inv; [|done]. eapply decide_inv; [done|apply Hinv].
  - apply materialize_ok in Hrun as (clean & _ & Hm). apply action_step_inv; [|done].
    eapply materialized_inv; [exact Hm|apply Hinv..].
  - apply resolve_ok in Hrun as (clean & _ & Hr). apply action_step_inv; [|done].
    eapply resolved_inv; [exact Hr|apply Hinv].
  - apply action_step_inv; [|done]. split; [by destruct db|].
    eapply action_inv_evidence; [apply Hinv|apply (same_evidence_le db)|..|apply Hinv]; by destruct db.
Qed.

Lemma health_steps_inv db db' : rtc health_step db db' → HealthInv db → HealthInv db' ∧ health_le db db'.
Proof.
  induction 1 as [|db1 db2 db3 Hs _ IH]; intros Hinv; [by split|].
  destruct (health_step_inv' _ _ Hs Hinv) as [I E]. destruct (IH I) as [I' E']. split; [done|by etrans].
Qed.

Lemma health_reachable_inv db : health_reachable db → HealthInv db.
Proof.
  intros Hr. apply (health_steps_inv _ _ Hr). split; [apply EvidenceInv_empty|apply ActionInv_empty].
Qed.

(** ** Sources are named in canonical texts *)

Definition same_sources (db db' : HealthDb) : Prop := h_sources db' = h_sources db.
#[local] Instance same_sources_preorder : PreOrder same_sources.
Proof. split; [done|]. unfold same_sources. intros ??? H1 H2. by rewrite H2. Qed.

#[local] Ltac sources :=
  unfold refuse, hrefuse, hthrow, draw, health_audit;
  repeat first [keeps_step|apply keeps_modify; by intros []|by intros []].

Lemma health_step_sources db db' : health_step db db' →
  same_sources db db' ∨ ∃ id source, h_sources db' = <[uuid_text id := source]> (h_sources db).
Proof.
  intros [id source|v|a|id o status _ _|input now r db1 Hrun|
    input version aborted now r db1 Hrun|input now r db1 Hrun|input now r db1 Hrun|entries n];
    [right; exists id, source; by destruct db|left; by destruct db..| | | | |left; by destruct db];
    left; revert Hrun; apply keeps_run.
  - unfold recordProbeResult, recordProbeResultInTransaction, probe_result_insert. sources.
  - unfold evaluateAndApplyDecision, apply_decision, persist_decision, state_ensure, decision_insert,
      signal_insert, state_update. sources.
  - unfold materializeDecisionActions, materialize_existing, materialize_new, incident_create, timeline_create,
      operation_create. sources.
  - unfold resolveIncident, timeline_create. sources.
Qed.

Lemma reachable_sources db id source :
  health_reachable db → h_sources db !! id = Some source → uuid_text id = id.
Proof.
  intros Hr. revert id source. refine (rtc_ind_r (λ db, ∀ id source, h_sources db !! id = Some source →
    uuid_text id = id) _ _ _ _ Hr); [by intros id source; simpl; rewrite lookup_empty|].
  intros db1 db2 _ Hs IH id source.
  destruct (health_step_sources _ _ Hs) as [Hsame|(id' & source' & ->)]; [by rewrite Hsame; apply IH|].
  rewrite lookup_insert_Some. intros [[<- _]|[_ Hid]]; [apply uuid_text_idemp|by eapply IH].
Qed.

(** ** Availability is a run of the decision function *)

Lemma state_at_unique db sid v s1 s2 :
  EvidenceInv db → state_at db sid v s1 → state_at db sid v s2 → s1 = s2.
Proof.
  intros Hinv [[-> ->]|(id1 & d1 & H1 & E1 & V1 & <-)] [[? ->]|(id2 & d2 & H2 & E2 & V2 & <-)]; try done.
  - destruct (hv_decisions _ Hinv _ _ H2) as (? & _ & _ & _ & ? & _). lia.
  - destruct (hv_decisions _ Hinv _ _ H1) as (? & _ & _ & _ & ? & _). lia.
  - assert (id1 = id2) as -> by (eapply hv_versions; [done..|congruence|congruence]). congruence.
Qed.

Lemma with_previous_id i : with_previous (in_previousState i) i = i.
Proof. by destruct i. Qed.

(** The decision that a run's step is. *)
Definition step_of_run (db : HealthDb) (sid : string) (scope : Scope)
    (inputs : list EvaluateHealthCycleInput) (k : nat) (i : EvaluateHealthCycleInput) : Prop :=
  ∃ did d input, h_decisions db !! did = Some d ∧ de_availabilityStateId d = sid ∧
    de_stateVersion d = Z.of_nat (S k) ∧
    de_state d = health_run initial_health_state (take (S k) inputs) ∧
    evaluated_from db did d scope input i.

Lemma availability_prefix db sid s n :
  EvidenceInv db → h_states db !! sid = Some s → Z.of_nat n ≤ st_version s →
  ∃ inputs, length inputs = n ∧
    state_at db sid (Z.of_nat n) (health_run initial_health_state inputs) ∧
    ∀ k i, inputs !! k = Some i → step_of_run db sid (st_scope s) inputs k i.
Proof.
  intros Hinv Hs. induction n as [|n IH]; intros Hn.
  { exists []. split_and!; [done|by left|by intros k i ?]. }
  destruct IH as (inputs & Hlen & Hat & Hsteps); [lia|].
  destruct (hv_states _ Hinv _ _ Hs) as (_ & _ & Hk).
  destruct (Hk (Z.of_nat (S n)) ltac:(lia)) as (did & d & Hd & Hsid & Hv).
  destruct (hv_decisions _ Hinv _ _ Hd) as (s' & input & i & Hs' & _ & Hev).
  assert (s' = s) as -> by congruence. pose proof (ef_previous _ _ _ _ _ _ Hev) as Hprev.
  rewrite Hsid, Hv in Hprev. replace (Z.of_nat (S n) - 1) with (Z.of_nat n) in Hprev by lia.
  pose proof (state_at_unique _ _ _ _ _ Hinv Hprev Hat) as Heq.
  assert (Hrun : de_state d = health_run initial_health_state (inputs ++ [i])).
  { rewrite health_run_snoc. unfold HealthDecision.health_step. rewrite <- Heq, with_previous_id.
    rewrite (ef_row _ _ _ _ _ _ Hev). apply decision_row_state. }
  exists (inputs ++ [i]). rewrite length_app, Hlen. simpl. split_and!; [lia| |].
  - right. exists did, d. by rewrite <- Hrun.
  - intros k i' [Hk'|[-> ->]]%lookup_snoc_Some.
    + destruct Hk' as [Hlt Hk']. destruct (Hsteps _ _ Hk') as (did' & d' & input' & ? & ? & ? & Hst & ?).
      exists did', d', input'. rewrite take_app_le by lia. done.
    + exists did, d, input. rewrite take_ge by (rewrite length_app; simpl; lia).
      rewrite Hlen. by split_and!.
Qed.

Lemma availability_run db sid s :
  EvidenceInv db → h_states db !! sid = Some s →
  ∃ inputs, Z.of_nat (length inputs) = st_version s ∧
    st_state s = health_run initial_health_state inputs ∧
    ∀ k i, inputs !! k = Some i → step_of_run db sid (st_scope s) inputs k i.
Proof.
  intros Hinv Hs. destruct (hv_states _ Hinv _ _ Hs) as (Hv & Hat & _).
  destruct (availability_prefix _ _ _ (Z.to_nat (st_version s)) Hinv Hs) as (inputs & Hlen & Hat' & Hsteps); [lia|].
  exists inputs. rewrite Z2Nat.id in Hat' by done. split_and!; [lia| |done]. by eapply state_at_unique.
Qed.

(** C10: the persisted availability of a scope is the run of the decision
    function from its fail-closed start over the decisions on record, one per
    version: each records the state the run has reached, and evaluated results
    that are on record for the scope under a published policy. *)
Theorem availability_is_a_run db sid s :
  health_reachable db → h_states db !! sid = Some s →
  ∃ inputs, Z.of_nat (length inputs) = st_version s ∧
    st_state s = health_run initial_health_state inputs ∧
    ∀ k i, inputs !! k = Some i → step_of_run db sid (st_scope s) inputs k i.
Proof. intros [Hinv _]%health_reachable_inv. by apply availability_run. Qed.

(** ** Decisions are backed by evidence *)

(** The evaluation behind a decision with a cycle. *)
Lemma decision_cycle did d scope input i verdict db :
  evaluated_from db did d scope input i → de_cycleDecision d = Some verdict →
  ∃ v policy, v ∈ h_versions db ∧ healthPolicyConfigSchema (pv_config v) = Some policy ∧
    de_healthPolicyVersionId d = Some (pv_id v) ∧
    hd_cycle (evaluateHealthCycle i) = Some (aggregateHealthProbeCycle policy (in_cycleStartedAt i)
      (in_routeVersion i) (in_signals i) (in_consumedSignalIds i)).
Proof.
  intros Hev Hv. rewrite (ef_row _ _ _ _ _ _ Hev) in Hv |- *. simpl in *.
  unfold evaluateHealthCycle in *. destruct (in_criticalTrustFailure i); [done|].
  destruct (parsed_policy i) as [[pv policy]|] eqn:Hp; [|done]. simpl in *.
  unfold parsed_policy in Hp. option_invert Hp. simplify_eq.
  match goal with Hin : in_policy i = Some _ |- _ =>
    destruct (ef_policy _ _ _ _ _ _ Hev _ Hin) as (v & Hin' & ->) end.
  exists v, policy. by split_and!.
Qed.

(** A recorded result that a decision counted. *)
Definition counted (db : HealthDb) (did rid : string) : Prop :=
  ∃ row, h_signals db !! (did, rid) = Some row ∧ sg_disposition row = ACCEPTED.

Lemma counted_votes db did d scope input i policy :
  evaluated_from db did d scope input i →
  hd_cycle (evaluateHealthCycle i) = Some (aggregateHealthProbeCycle policy (in_cycleStartedAt i)
    (in_routeVersion i) (in_signals i) (in_consumedSignalIds i)) →
  ∀ rid, counted db did rid ↔ rid ∈ ps_id <$> accepted_votes policy (in_cycleStartedAt i)
    (in_routeVersion i) (in_signals i) (in_consumedSignalIds i).
Proof.
  intros Hev Hc rid. destruct (evaluations_cover_signals policy (in_cycleStartedAt i) (in_routeVersion i)
    (in_signals i) (in_consumedSignalIds i)) as (_ & _ & <-).
  unfold counted. setoid_rewrite (ef_links _ _ _ _ _ _ Hev). unfold signal_evaluations. rewrite Hc. split.
  - intros (row & (e & He & Hid & ->) & Ha). eauto.
  - intros (e & He & Hid & Ha). exists (link_row e). eauto.
Qed.

(** What backs a decision about [scope]: the results it counted are on record
    for its scope, its cycle and its route version, came over healthy
    control paths from sources that are pairwise independent, and are the
    quorum the policy asks of its verdict. *)
Record backed (db : HealthDb) (did : string) (d : DecisionRow) (scope : Scope)
    (policy : HealthPolicyConfig) (votes : list ProbeSignal) (verdict : ProbeCycleResult) : Prop := {
  bk_votes : ∀ rid, counted db did rid ↔ rid ∈ ps_id <$> votes;
  bk_recorded : ∀ x, x ∈ votes → ∃ r, h_results db !! ps_id x = Some r ∧
    x = probeRowToSignal (ps_id x) r ∧ rs_scope r = scope ∧ rs_controlHealthy r = true ∧
    de_cycleStartedAt d = Some (rs_cycleStartedAt r) ∧ de_routeVersion d = Some (rs_routeVersion r) ∧
    rs_cycleStartedAt r ≤ rs_receivedAt r ≤
      rs_cycleStartedAt r + milliseconds (resultFreshnessSeconds policy);
  bk_sources : NoDup (ps_sourceId <$> votes);
  bk_independent : NoDup (ps_independenceKey <$> votes);
  bk_verdict : de_cycleDecision d = Some (cycle_decision verdict) ∧
    de_failureClass d = cycle_failureClass verdict;
  bk_quorum : decision_meaning policy votes verdict;
}.

Lemma eligible_signal policy s start version consumed :
  signalRejectionReason policy s start version consumed = None →
  ps_id s ∉ consumed ∧ ps_controlHealthy s = true ∧ ps_routeVersion s = version ∧
  ps_cycleStartedAt s = start ∧
  start ≤ ps_receivedAt s ≤ start + milliseconds (resultFreshnessSeconds policy).
Proof.
  unfold signalRejectionReason. intros Hn. repeat case_match; try done.
  repeat match goal with
  | H : bool_decide _ = false |- _ => apply bool_decide_eq_false in H
  | H : negb _ = false |- _ => apply negb_false_iff in H
  | H : _ || _ = false |- _ => apply orb_false_iff in H as [? ?]
  end. split_and!; try done; lia.
Qed.

Lemma evaluated_backed db did d s input i policy :
  evaluated_from db did d (st_scope s) input i → health_policy_wf policy →
  let cycle := aggregateHealthProbeCycle policy (in_cycleStartedAt i) (in_routeVersion i)
    (in_signals i) (in_consumedSignalIds i) in
  hd_cycle (evaluateHealthCycle i) = Some cycle →
  backed db did d (st_scope s) policy (accepted_votes policy (in_cycleStartedAt i) (in_routeVersion i)
    (in_signals i) (in_consumedSignalIds i)) cycle.
Proof.
  intros Hev Hwf cycle Hc. unfold cycle in *. clear cycle.
  destruct (cycle_quorum policy (in_cycleStartedAt i) (in_routeVersion i) (in_signals i)
    (in_consumedSignalIds i) Hwf) as (Helig & Hsrc & Hind & Hmean).
  destruct (aggregate_shape policy (in_cycleStartedAt i) (in_routeVersion i) (in_signals i)
    (in_consumedSignalIds i)) as [Hstart _].
  split; [by eapply counted_votes| |exact Hsrc|exact Hind| |exact Hmean].
  - intros x Hx. destruct (Helig x Hx) as [Hx' (_ & Hch & Hrv & Hcs & Hfresh)%eligible_signal].
    apply (ef_signals _ _ _ _ _ _ Hev) in Hx' as (id & r & Hid & Hr & ->).
    destruct (ef_scope _ _ _ _ _ _ Hev _ Hid) as (r' & Hr' & Hsc). simpl in *.
    assert (r' = r) as -> by congruence. exists r. split_and!; try done; try lia;
      rewrite (ef_row _ _ _ _ _ _ Hev); simpl; rewrite Hc; simpl.
    + congruence.
    + rewrite Hrv. by rewrite (ef_route _ _ _ _ _ _ Hev).
  - rewrite (ef_row _ _ _ _ _ _ Hev). simpl. rewrite Hc. by split.
Qed.

Lemma decision_backed db did d verdict :
  EvidenceInv db → h_decisions db !! did = Some d → de_cycleDecision d = Some verdict →
  ∃ v policy scope votes cycle, v ∈ h_versions db ∧ de_healthPolicyVersionId d = Some (pv_id v) ∧
    healthPolicyConfigSchema (pv_config v) = Some policy ∧ decision_scope db d = Some scope ∧
    backed db did d scope policy votes cycle.
Proof.
  intros Hinv Hd Hv. destruct (hv_decisions _ Hinv _ _ Hd) as (s & input & i & Hs & _ & Hev).
  destruct (decision_cycle _ _ _ _ _ _ _ Hev Hv) as (v & policy & Hin & Hpol & Hpid & Hc).
  eexists v, policy, (st_scope s), _, _. split_and!; [done..|by unfold decision_scope; rewrite Hs|].
  eapply evaluated_backed; [done|by eapply healthPolicyConfigSchema_wf|done].
Qed.

(** Only a decision with a verdict counts results. *)
Lemma counted_verdict db did rid :
  EvidenceInv db → counted db did rid →
  ∃ d verdict, h_decisions db !! did = Some d ∧ de_cycleDecision d = Some verdict.
Proof.
  intros Hinv (row & Hrow & Ha). destruct (hv_links _ Hinv _ _ _ Hrow) as [d Hd]. exists d.
  destruct (hv_decisions _ Hinv _ _ Hd) as (s & input & i & _ & _ & Hev).
  apply (ef_links _ _ _ _ _ _ Hev) in Hrow as (e & He & _ & ->). unfold signal_evaluations in He.
  destruct (hd_cycle (evaluateHealthCycle i)) as [cycle|] eqn:Hc;
    [|by apply list_elem_of_fmap in He as (x & -> & _)].
  exists (cycle_decision cycle). split; [done|].
  rewrite (ef_row _ _ _ _ _ _ Hev). simpl. by rewrite Hc.
Qed.

(** C23: a decision that gives a verdict on a cycle was reached under a
    published version of a valid policy, and is backed by the results it is
    linked to: recorded for that scope, cycle and route version, from
    independent sources, and a quorum for the verdict. *)
Theorem decisions_are_backed db did d verdict :
  health_reachable db → h_decisions db !! did = Some d → de_cycleDecision d = Some verdict →
  ∃ v policy scope votes cycle, v ∈ h_versions db ∧ de_healthPolicyVersionId d = Some (pv_id v) ∧
    healthPolicyConfigSchema (pv_config v) = Some policy ∧ decision_scope db d = Some scope ∧
    backed db did d scope policy votes cycle.
Proof. intros [Hinv _]%health_reachable_inv. by apply decision_backed. Qed.

(** What a counted result fixes of its decision. *)
Lemma counted_result db did rid :
  EvidenceInv db → counted db did rid →
  ∃ d r, h_decisions db !! did = Some d ∧ h_results db !! rid = Some r ∧
    decision_scope db d = Some (rs_scope r) ∧ de_cycleStartedAt d = Some (rs_cycleStartedAt r).
Proof.
  intros Hinv Hc. destruct (counted_verdict _ _ _ Hinv Hc) as (d & verdict & Hd & Hv). exists d.
  destruct (decision_backed _ _ _ _ Hinv Hd Hv) as (v & policy & scope & votes & cycle & _ & _ & _ & Hs & Hb).
  apply (bk_votes _ _ _ _ _ _ _ Hb), list_elem_of_fmap in Hc as (x & -> & Hx).
  destruct (bk_recorded _ _ _ _ _ _ _ Hb x Hx) as (r & Hr & _ & Hsc & _ & Ht & _).
  exists r. by rewrite Hs, Hsc.
Qed.

(** C24: a probe result is evidence once: the decisions that counted it are one
    decision. *)
Theorem evidence_counts_once db did1 did2 rid :
  health_reachable db → counted db did1 rid → counted db did2 rid → did1 = did2.
Proof.
  intros [Hinv _]%health_reachable_inv H1 H2.
  destruct (counted_result _ _ _ Hinv H1) as (d1 & r & Hd1 & Hr & Hs1 & Ht1).
  destruct (counted_result _ _ _ Hinv H2) as (d2 & r' & Hd2 & Hr' & Hs2 & Ht2).
  assert (r' = r) as -> by congruence. unfold decision_scope in *.
  apply fmap_Some in Hs1 as (s1 & Hs1 & E1), Hs2 as (s2 & Hs2 & E2).
  assert (Heq : de_availabilityStateId d1 = de_availabilityStateId d2).
  { eapply hv_scopes; [done..|congruence]. }
  destruct (Z.lt_total (de_stateVersion d1) (de_stateVersion d2)) as [Hlt|[Hv|Hlt]].
  - pose proof (hv_cycles _ Hinv _ _ _ _ _ _ Hd1 Hd2 Heq Hlt Ht1 Ht2). lia.
  - by eapply hv_versions.
  - pose proof (hv_cycles _ Hinv _ _ _ _ _ _ Hd2 Hd1 (eq_sym Heq) Hlt Ht2 Ht1). lia.
Qed.

(** ** Incidents follow decisions *)

(** The decisions that trigger a replacement. *)
Lemma replacing_decision did d scope input i p db :
  evaluated_from db did d scope input i → replacement_policy d = Some p →
  ∃ v policy, v ∈ h_versions db ∧ pv_id v = p ∧ healthPolicyConfigSchema (pv_config v) = Some policy ∧
    de_triggerIncident d = true ∧ de_allowNewAssignments d = false ∧
    hs_excludedFromCandidates (de_state d) = true ∧
    ((de_reason d = CRITICAL_TRUST_FAILURE ∧ is_Some (in_criticalTrustFailure i)) ∨
     (let cycle := aggregateHealthProbeCycle policy (in_cycleStartedAt i) (in_routeVersion i)
        (in_signals i) (in_consumedSignalIds i) in
      hd_cycle (evaluateHealthCycle i) = Some cycle ∧ cycle_decision cycle = CD_FAILED ∧
      excludeFailureCycles policy ≤ hs_consecutiveFailureCycles (in_previousState i) + 1 ∧
      sql_gt (hs_cooldownUntil (in_previousState i)) (in_evaluatedAt i) = false)).
Proof.
  intros Hev Hp. rewrite (ef_row _ _ _ _ _ _ Hev) in Hp |- *. unfold replacement_policy in Hp. simpl in *.
  destruct (hd_triggerReplacement (evaluateHealthCycle i)) eqn:Htr; [|done].
  destruct (replacement_trigger_exact i) as [Hex Hthen]. destruct (Hthen Htr) as (Hinc & Hexc & Hno).
  assert (Hpol : ∃ pv policy, parsed_policy i = Some (pv, policy) ∧ pvr_id pv = p).
  { unfold evaluateHealthCycle in Hp. destruct (in_criticalTrustFailure i).
    - simpl in Hp. destruct (parsed_policy i) as [[pv policy]|]; [|done]. injection Hp as Hp. eauto.
    - destruct (parsed_policy i) as [[pv policy]|]; [|done]. injection Hp as Hp. eauto. }
  destruct Hpol as (pv & policy & Hpp & Hpid). pose proof Hpp as Hpp'.
  unfold parsed_policy in Hpp'. option_invert Hpp'. simplify_eq/=.
  match goal with Hin : in_policy i = Some _ |- _ =>
    destruct (ef_policy _ _ _ _ _ _ Hev _ Hin) as (v & Hin' & ->) end.
  exists v, policy. simpl in *. split_and!; try done.
  apply Hex in Htr as [Hcrit|(pv' & policy' & Hc & Hpp2 & Hcyc & Hle & Hcd)].
  - left. split; [|done]. destruct Hcrit as [f Hf]. unfold evaluateHealthCycle. by rewrite Hf.
  - right. rewrite Hpp in Hpp2. injection Hpp2 as <- <-. split_and!; try done.
    + unfold evaluateHealthCycle. by rewrite Hc, Hpp.
    + unfold evaluation_cycle in Hcyc. rewrite Hc, Hpp in Hcyc. by injection Hcyc.
Qed.

(** The version of the state a decision was made in. *)
Definition state_before (db : HealthDb) (d : DecisionRow) (s : HealthDecisionState) : Prop :=
  state_at db (de_availabilityStateId d) (de_stateVersion d - 1) s.

(** C25: a standby is promoted only for a decision that excludes its scope: one
    promotion for one incident for one decision, under the published policy
    the operation names, and either trust was lost or a cycle failed by a
    quorum of recorded results after as many failed cycles as the policy
    tolerates, out of cooldown. *)
Theorem promotions_are_justified db oid o :
  health_reachable db → h_operations db !! oid = Some o →
  op_type o = OT_PROMOTE_STANDBY ∧
  (∀ oid' o', h_operations db !! oid' = Some o' →
     op_availabilityDecisionId o' = op_availabilityDecisionId o → oid' = oid) ∧
  ∃ i d v policy, h_incidents db !! op_incidentId o = Some i ∧
    h_decisions db !! op_availabilityDecisionId o = Some d ∧
    ic_availabilityDecisionId i = op_availabilityDecisionId o ∧
    decision_scope db d = Some (op_scope o) ∧
    v ∈ h_versions db ∧ pv_id v = op_healthPolicyVersionId o ∧
    healthPolicyConfigSchema (pv_config v) = Some policy ∧
    de_allowNewAssignments d = false ∧ hs_excludedFromCandidates (de_state d) = true ∧
    (de_reason d = CRITICAL_TRUST_FAILURE ∨
     ∃ s votes cycle t, state_before db d s ∧ excludeFailureCycles policy ≤ hs_consecutiveFailureCycles s + 1 ∧
       sql_gt (hs_cooldownUntil s) t = false ∧ (∀ t0, de_cycleStartedAt d = Some t0 → t0 ≤ t) ∧
       cycle_decision cycle = CD_FAILED ∧ backed db (op_availabilityDecisionId o) d (op_scope o) policy votes cycle).
Proof.
  intros [Hinv HA]%health_reachable_inv Ho.
  destruct (av_operations _ HA _ _ Ho) as (Hty & i & d & Hi & Hid & Hd & Hp & Hsc).
  destruct (av_incidents _ HA _ _ Hi) as [(d' & Hd' & _ & Hscope & _) _ _ _].
  assert (d' = d) as -> by congruence.
  destruct (hv_decisions _ Hinv _ _ Hd) as (s & input & ev & Hs & _ & Hev).
  destruct (replacing_decision _ _ _ _ _ _ _ Hev Hp) as (v & policy & Hv & Hvid & Hpol & _ & Hno & Hex & Hwhy).
  split; [done|]. split.
  { intros oid' o' Ho' Heq. destruct (av_operations _ HA _ _ Ho') as (_ & i' & d2 & Hi' & Hid' & _).
    eapply (av_one _ HA); [done..|]. eapply (av_unique _ HA); [done..|congruence]. }
  exists i, d, v, policy. split_and!; try done; [congruence|].
  destruct Hwhy as [[? _]|(Hc & Hf & Hle & Hcd)]; [by left|right].
  assert (Hscs : op_scope o = st_scope s).
  { unfold decision_scope in Hscope. rewrite Hs in Hscope. simpl in Hscope. congruence. }
  rewrite Hscs. eexists _, _, _, _. split_and!; [apply Hev|done|done| |done|].
  - intros t0. rewrite (ef_row _ _ _ _ _ _ Hev). simpl. rewrite Hc. simpl. intros [= <-].
    destruct (aggregate_shape policy (in_cycleStartedAt ev) (in_routeVersion ev) (in_signals ev)
      (in_consumedSignalIds ev)) as [-> _]. apply Hev.
  - eapply evaluated_backed; [done|by eapply healthPolicyConfigSchema_wf|done].
Qed.

End system.
