(* ===== verification/HealthExact.v ===== *)
(** * The health stores, exactly

    When the transactions of the health stores commit, and what they then do:
    identifiers are fresh, the triggers and constraints accept what the code
    writes, and the remaining refusals are the guards of the code. *)

From S2P Require Import Prelude.
From S2P Require Import Json.
From S2P Require Import OperationalPolicy.
From S2P Require Import HealthDecision.
From S2P Require Import Sql.
From S2P Require Import XrayAccess.
From S2P Require Import HealthStore.
From S2P Require Import HealthEvidence.
From S2P Require Import HealthAction.
From S2P Require Import HealthInvariant.
From S2P Require Import HealthSystem.
Open Scope Z_scope.

Section exact.
Context (uuid : nat → string) `{Huuid : !Inj (=) (=) uuid} (is_uuid : string → bool).
Context (sha256 : json → string) (sha256_text : string → string) (maxAttempts : Z).
Context {Locale : LocaleCompare} {Dates : DateStrings}.
Notation step := (health_step uuid is_uuid sha256 sha256_text maxAttempts).
Notation reachable := (health_reachable uuid is_uuid sha256 sha256_text maxAttempts).
Notation decide_cycle := (evaluateAndApplyDecision uuid is_uuid sha256).

(** ** Identifiers are fresh *)

(** The identifiers the tables use. *)
Definition used_ids (db : HealthDb) : gset string :=
  dom (h_results db) ∪ dom (h_states db) ∪ dom (h_decisions db) ∪
  dom (h_incidents db) ∪ dom (h_operations db).
Definition KeysInv (db : HealthDb) : Prop :=
  ∀ id, id ∈ used_ids db → ∃ k, (k < h_drawn db)%nat ∧ id = uuid k.

Lemma fresh_id db k : KeysInv db → (h_drawn db ≤ k)%nat → uuid k ∉ used_ids db.
Proof using Huuid. intros Hk Hle Hin. destruct (Hk _ Hin) as (j & Hj & ->%Huuid). lia. Qed.

(** What a transaction adds. *)
Definition adds (db db' : HealthDb) : Prop :=
  (h_drawn db ≤ h_drawn db')%nat ∧
  ∀ id, id ∈ used_ids db' → id ∈ used_ids db ∨ ∃ k, (h_drawn db ≤ k < h_drawn db')%nat ∧ id = uuid k.

Lemma adds_keys db db' : adds db db' → KeysInv db → KeysInv db'.
Proof.
  intros [Hle Hsub] Hk id [Hin|(k & ? & ->)]%Hsub; [|exists k; split; [lia|done]].
  destruct (Hk id Hin) as (k & ? & ->). exists k. split; [lia|done].
Qed.

Lemma recorded_adds clean now db r db' : recorded uuid clean now db r db' → adds db db'.
Proof.
  intros [(_ & _ & _ & _ & _ & -> & _)|(source & _ & _ & _ & _ & -> & _)].
  - split; [done|]. by left.
  - set (row := new_result _ _ _). destruct db as [so rs st de sg ve ac ic op tl au n].
    unfold adds, used_ids. simpl. split; [lia|]. intros id. rewrite dom_insert_L.
    destruct (decide (id = uuid n)) as [->|Hne]; [|set_solver]. right. exists n. split; [lia|done].
Qed.

Lemma applied_adds db input version key now r db' sid current states i :
  applied uuid db input version key now r db' sid current states i → adds db db'.
Proof.
  intros []. destruct ap_drawn as [Hn Hid]. destruct ap_actions as (I & O & _).
  split; [lia|]. unfold used_ids. rewrite I, O, ap_results, ap_decisions, ap_state, !dom_insert_L, Hid, Hn.
  apply elem_of_dom_2 in ap_current. intros id Hin.
  assert (Hst : id ∈ dom states → id ∈ dom (h_states db) ∨ id = uuid (h_drawn db)).
  { destruct ap_states as [->|(_ & _ & ->)]; [by left|rewrite dom_insert_L; set_solver]. }
  assert (id = uuid (S (h_drawn db)) ∨ id = uuid (h_drawn db) ∨ id ∈ dom (h_results db) ∪ dom (h_states db) ∪
    dom (h_decisions db) ∪ dom (h_incidents db) ∪ dom (h_operations db)) as [->|[->|Hold]] by set_solver.
  - right. eexists. split; [|done]. lia.
  - right. eexists. split; [|done]. lia.
  - by left.
Qed.

Lemma opened_adds db db' iid did d scope now operation :
  opened uuid db db' iid did d scope now operation → adds db db'.
Proof.
  intros []. destruct on_same as (D & St & R & _), on_drawn as [Hid Hn].
  split; [destruct operation as [[oid o]|]; [destruct Hn as [_ Hn]|]; lia|].
  unfold used_ids. rewrite D, St, R, on_incidents, !dom_insert_L. intros id Hin.
  destruct operation as [[oid o]|].
  - destruct on_operation as (_ & _ & O & _), Hn as [Hoid Hn]. rewrite O, dom_insert_L in Hin. rewrite Hn.
    assert (id = oid ∨ id = iid ∨ id ∈ dom (h_results db) ∪ dom (h_states db) ∪
      dom (h_decisions db) ∪ dom (h_incidents db) ∪ dom (h_operations db)) as [->|[->|Hold]] by set_solver.
    + right. eexists. split; [|exact Hoid]. lia.
    + right. eexists. split; [|exact Hid]. lia.
    + by left.
  - destruct on_operation as (_ & O). rewrite O in Hin. rewrite Hn.
    destruct (decide (id = iid)) as [->|Hne]; [right|left; set_solver]. eexists. split; [|exact Hid]. lia.
Qed.

Lemma step_adds db db' : step db db' → adds db db'.
Proof.
  assert (Hsame : ∀ f : HealthDb → HealthDb, ∀ db0, h_drawn (f db0) = h_drawn db0 →
    used_ids (f db0) ⊆ used_ids db0 → adds db0 (f db0)).
  { intros f db0 Hn Hsub. split; [by rewrite Hn|]. intros id Hid. left. by apply Hsub. }
  intros [id source|v|a|id o status Ho _|input now r db1 Hrun|
    input version aborted now r db1 Hrun|input now r db1 Hrun|input now r db1 Hrun|entries n].
  - apply Hsame; by destruct db.
  - apply Hsame; by destruct db.
  - apply Hsame; by destruct db.
  - apply (Hsame (set_operations <[id := set_op_status status o]>)); [by destruct db|].
    apply elem_of_dom_2 in Ho. destruct db. unfold used_ids in *. simpl in *. rewrite dom_insert_L. set_solver.
  - apply record_ok in Hrun as (clean & _ & Hr). by eapply recorded_adds.
  - apply decide_ok in Hrun as (clean & _ & [[_ ->]|(sid & current & states & i & Hap)]).
    + by apply (Hsame id).
    + by eapply applied_adds.
  - apply materialize_ok in Hrun as (clean & _ & d & scope & _ & _ &
      [(_ & _ & ->)|[(iid & i & _ & _ & _ & -> & _)|(iid & op & Hon & _ & _)]]);
      [by apply (Hsame id)..|by eapply opened_adds].
  - apply resolve_ok in Hrun as (clean & _ & i & Hi & _ & [(_ & _ & _ & ->)|(_ & _ & _ & _ & I & _ & O & Hn & R & St & D & _)]);
      [by apply (Hsame id)|].
    apply elem_of_dom_2 in Hi. split; [by rewrite Hn|]. unfold used_ids in *.
    rewrite I, O, R, St, D, dom_insert_L. intros x Hx. left. set_solver.
  - destruct db. unfold adds, used_ids. simpl. split; [lia|]. by left.
Qed.

Lemma reachable_keys db : reachable db → KeysInv db.
Proof.
  unfold health_reachable. intros Hr.
  assert (Hgo : ∀ db1, rtc step db1 db → KeysInv db1 → KeysInv db).
  { induction 1 as [|db1 db2 db3 Hs%step_adds _ IH]; [done|]. intros Hk. by apply IH, (adds_keys db1). }
  apply (Hgo _ Hr). intros id. unfold used_ids. simpl. set_solver.
Qed.

(** ** Counters *)






(** ** The constraints accept a decision *)

Lemma hrefuse_pass {A} b e (f : unit → HealthM A) db : b = false → (hrefuse b e ≫= f) db = f tt db.
Proof. by intros ->. Qed.

Lemma exists_in_false {A} (p : string → A → bool) (t : Table A) :
  (∀ id x, t !! id = Some x → p id x = false) → exists_in p t = false.
Proof.
  intros Hn. apply not_true_iff_false. intros ([id x] & Hx & Hp)%existsb_exists.
  apply list_elem_of_In, elem_of_map_to_list in Hx. simpl in Hp. by rewrite (Hn id x Hx) in Hp.
Qed.









Section persist.
Context (db : HealthDb) (input : ApplyHealthCycleInput) (version : Z) (key sid : string).
Context (current : StateRow) (i : EvaluateHealthCycleInput).
Notation ids := (ah_probeResultIds input).
Notation d := (evaluateHealthCycle i).
Notation row := (decision_row key sid (version + 1) input d).
Notation did := (uuid (h_drawn db)).
Context (Hcan : uuid_text <$> ids = ids).
Context (Hcurrent : h_states db !! sid = Some current) (Hversion : st_version current = version).
Context (Hids : NoDup ids) (Hpositive : 0 ≤ version) (Hroutepos : 0 ≤ ah_routeVersion input).
Context (Hrows : ∀ id, id ∈ ids → ∃ r, h_results db !! id = Some r ∧ rs_scope r = st_scope current).
Context (Hsignals : ∀ s, s ∈ in_signals i ↔
  ∃ id r, id ∈ ids ∧ h_results db !! id = Some r ∧ s = probeRowToSignal id r).
Context (Hroute : in_routeVersion i = ah_routeVersion input).
Context (Hpolicy : ∀ p, in_policy i = Some p → ∃ v, v ∈ h_versions db ∧ pi_id p = pv_id v).
Context (Hchecks : state_checks (hd_state d) = true).
Context (Hfresh : h_decisions db !! did = None) (Hnolinks : ∀ rid, h_signals db !! (did, rid) = None).
Context (Hunique : ∀ id x, h_decisions db !! id = Some x → de_idempotencyKey x ≠ key ∧
  ¬ (de_availabilityStateId x = sid ∧ de_stateVersion x = version + 1)).







Notation db1 := (set_health_drawn S db).
Notation db2 := (set_decisions <[did := row]> db1).



Notation next := {| st_scope := st_scope current; st_state := hd_state d; st_version := version + 1 |}.


End persist.

(** ** When a cycle is applied *)











Lemma refuse_pass {A} b m (f : unit → HealthM A) db : b = false → (refuse b m ≫= f) db = f tt db.
Proof. by intros ->. Qed.

Section apply.
Context (input : ApplyHealthCycleInput) (version : Z) (key : string) (now : Z) (db : HealthDb).
Context (Hinv : EvidenceInv db) (Hkeys : KeysInv db) (Hids : NoDup (ah_probeResultIds input)).
Context (Hcan : uuid_text <$> ah_probeResultIds input = ah_probeResultIds input).
Context (Hpositive : 0 ≤ version) (Hroutepos : 0 ≤ ah_routeVersion input).
Notation run := (apply_decision uuid input version key now db).


End apply.

(** ** The transaction of a cycle *)



(** Retrying a cycle is safe.  However the tables moved on since, the same
    request answers with the decision it made, says it is a replay, and
    changes nothing. *)
Theorem cycle_retry_is_idempotent db input version now r db' db2 now2 :
  reachable db → decide_cycle input version false now db = (Ok r, db') → rtc step db' db2 →
  decide_cycle input version false now2 db2 =
    (Ok {| ad_decisionId := ad_decisionId r; ad_idempotencyKey := ad_idempotencyKey r;
           ad_stateVersion := ad_stateVersion r; ad_replayed := true |}, db2).
Proof using Huuid.
  intros Hr Hrun Hsteps. apply health_reachable_inv in Hr as Hhi.
  assert (Hhi' : HealthInv db').
  { eapply (health_step_inv' uuid is_uuid sha256 sha256_text maxAttempts); [by eapply HStepDecide|done]. }
  destruct (health_steps_inv _ _ _ _ _ _ _ Hsteps Hhi') as [[Hinv2 _] Hle].
  assert (Hneg : (version <? 0) = false).
  { revert Hrun. unfold evaluateAndApplyDecision. destruct (applyHealthCycleSchema _ _); [|done].
    destruct (version <? 0); done. }
  apply decide_ok in Hrun as (clean & Hs & Hok). set (key := cycleIdempotencyKey sha256 version clean) in *.
  assert (Hd : ∃ d, h_decisions db' !! ad_decisionId r = Some d ∧ de_idempotencyKey d = key ∧
    de_stateVersion d = ad_stateVersion r ∧ ad_idempotencyKey r = key).
  { destruct Hok as [[(d & Hd & Hk & ->) ->]|(sid & current & states & i & Hap)]; [by exists d|].
    eexists. split; [apply (applied_lookup _ _ _ _ _ _ _ _ _ _ _ _ Hap); by left|].
    by rewrite (ap_result _ _ _ _ _ _ _ _ _ _ _ _ Hap). }
  destruct Hd as (d & Hd & Hk & Hv & Hrk). pose proof (lookup_weaken _ _ _ _ Hd (hl_decisions _ _ Hle)) as Hd2.
  unfold evaluateAndApplyDecision. rewrite Hs, refuse_pass by done. fold key. rewrite refuse_pass by done.
  unfold atomically. rewrite bind_get. pose proof (decision_by_key_spec key db2) as Hkey.
  destruct (decision_by_key key db2) as [[did d']|]; [|by destruct (Hkey _ _ Hd2)].
  destruct Hkey as [Hd' Hk']. assert (did = ad_decisionId r) as -> by (eapply (hv_keys _ Hinv2); [done..|congruence]).
  assert (d' = d) as -> by congruence. unfold mret, M_ret. by rewrite Hv, Hrk.
Qed.

(** ** The transaction of a probe result *)

Lemma new_result_checks input clean key now :
  recordProbeResultSchema is_uuid input = Some clean →
  probe_result_checks (new_result clean key now) = (rp_cycleStartedAt clean <=? now).
Proof.
  unfold recordProbeResultSchema. intros Hs. option_invert Hs. injection Hs as <-.
  unfold probe_result_checks, new_result. simpl.
  match goal with H : databaseInteger (rp_routeVersion input) = true |- _ =>
    unfold databaseInteger in H; apply andb_true_iff in H as [-> _] end.
  match goal with H : Bool.eqb _ _ = true |- _ => rewrite H end. simpl. by rewrite andb_true_r.
Qed.

Lemma same_result_unique db clean id1 id2 r1 r2 :
  EvidenceInv db → h_results db !! id1 = Some r1 → h_results db !! id2 = Some r2 →
  same_source_result clean r1 = true → same_source_result clean r2 = true → id1 = id2.
Proof.
  intros Hinv H1 H2 [E1 F1]%same_source_result_spec [E2 F2]%same_source_result_spec.
  eapply (hv_sources _ Hinv); [done..|congruence|congruence].
Qed.

(** What recording a probe result comes to.  The first report of a
    source's result is stored, under the independence key the source has and
    the database's clock, exactly when the source is active and the cycle did
    not start in the future; the same report again is a replay, a different
    one under the same identifier a conflict. *)
Theorem record_is_exact db input clean now :
  reachable db → recordProbeResultSchema is_uuid input = Some clean →
  let run := recordProbeResult uuid is_uuid input now db in
  (∀ id row, h_results db !! id = Some row → same_source_result clean row = true →
     run = if exactRetry clean row
           then (Ok {| rec_signal := probeRowToSignal id row; rec_replayed := true |}, db)
           else (Throw (HealthThrown "Probe result replay key conflicts with stored data"), db)) ∧
  ((∀ id row, h_results db !! id = Some row → same_source_result clean row = false) →
     match h_sources db !! uuid_text (rp_probeSourceId clean) with
     | Some source =>
         let id := uuid (h_drawn db) in
         let row := new_result clean (so_independenceKey source) now in
         if bool_decide (so_status source = SOURCE_ACTIVE)
         then if rp_cycleStartedAt clean <=? now
              then run = (Ok {| rec_signal := probeRowToSignal id row; rec_replayed := false |},
                          set_results <[id := row]> (set_health_drawn S db)) ∧ h_results db !! id = None
              else run = (Throw (HealthDbError CheckViolation), db)
         else run = (Throw (HealthThrown "Active probe source is unavailable"), db)
     | None => run = (Throw (HealthThrown "Active probe source is unavailable"), db)
     end).
Proof using Huuid.
  intros Hr Hs run. pose proof (reachable_keys _ Hr) as Hkeys. apply health_reachable_inv in Hr as [Hinv _].
  pose proof (same_result_spec clean db) as Hsame.
  unfold run, recordProbeResult, recordProbeResultInTransaction. rewrite Hs. unfold atomically. rewrite bind_get. split.
  - intros id row Hrow Hsr. destruct (map_to_list _) as [|[id' row'] rest].
    { pose proof (Hsame _ _ Hrow). congruence. }
    destruct Hsame as [Hrow' Hsr']. assert (id' = id) as -> by (by eapply same_result_unique).
    assert (row' = row) as -> by congruence. by destruct (exactRetry clean row).
  - intros Hnone. destruct (map_to_list _) as [|[id' row'] rest].
    2:{ destruct Hsame as [Hrow' Hsr']. by rewrite (Hnone _ _ Hrow') in Hsr'. }
    rewrite (bind_ok _ _ _ _ _ (draw_run uuid db)). destruct (h_sources db !! _) as [source|] eqn:Hso; [|done].
    pose proof (fresh_id db (h_drawn db) Hkeys ltac:(lia)) as Hfresh. unfold used_ids in Hfresh.
    assert (Hnew : h_results db !! uuid (h_drawn db) = None) by (apply not_elem_of_dom; set_solver).
    destruct (bool_decide _); [|done]. cbv zeta. set (row := new_result _ _ now).
    assert (Hins : probe_result_insert (uuid (h_drawn db)) row (set_health_drawn S db) =
      if rp_cycleStartedAt clean <=? now
      then (Ok tt, set_results <[uuid (h_drawn db) := row]> (set_health_drawn S db))
      else (Throw (HealthDbError CheckViolation), set_health_drawn S db)).
    { unfold probe_result_insert. rewrite bind_get.
      replace (h_results (set_health_drawn S db)) with (h_results db) by (by destruct db).
      replace (h_sources (set_health_drawn S db)) with (h_sources db) by (by destruct db).
      rewrite hrefuse_pass by (by rewrite Hnew). rewrite hrefuse_pass.
      2:{ apply exists_in_false. intros id x Hx. pose proof (Hnone _ _ Hx) as Hn.
          unfold same_source_result in Hn. done. }
      rewrite hrefuse_pass by (simpl; by rewrite Hso). unfold row. rewrite (new_result_checks _ _ _ _ Hs).
      by destruct (_ <=? _). }
    destruct (rp_cycleStartedAt clean <=? now).
    + split; [|done]. by rewrite (bind_ok _ _ _ _ _ Hins).
    + by rewrite (bind_throw _ _ _ _ _ Hins).
Qed.
End exact.
