(* ===== verification/ControlPlane.v ===== *)
(** * The control-plane database: [prisma/schema.prisma] and its migrations

    The tables the API's orchestration services share with the worker's
    stores, with the CHECK, UNIQUE and FOREIGN KEY constraints and the triggers
    the migrations put on them, and one operation per Prisma call or raw
    statement the services make.  A statement that violates a constraint or
    whose trigger raises throws; the transaction around it rolls back.

    The columns [createdAt] and [updatedAt] (where no query reads them), the
    descriptive columns of [Node], and the ids of acknowledgement, delivery
    and audit rows are not part of the model.  The [idempotencyKey] column of a
    table is kept as that column's unique index.  Transactions are atomic: the
    services serialise themselves by locking the device, node and grant rows
    they read ([FOR UPDATE]) and by advisory locks on the idempotency keys. *)

From S2P Require Import Prelude.
From S2P Require Import Json.
From S2P Require Import Sql.
From S2P Require Import OutboxStore.
From S2P Require Import NodeSyncStore.
From S2P Require Import NodeAgentContract.
Open Scope Z_scope.

(** ** Rows *)

Inductive NodeStatus :=
| NODE_PROVISIONING | NODE_HEALTHY | NODE_DRAINING | NODE_DISABLED | NODE_QUARANTINED | NODE_DELETED.
#[export] Instance NodeStatus_eq_dec : EqDecision NodeStatus.
Proof. solve_decision. Defined.

Record Node := {
  n_status : NodeStatus;
  n_desiredConfigVersion : Z;
  n_appliedConfigVersion : Z;
  n_lastHeartbeatAt : option Z;
}.

Inductive DeviceStatus := DEVICE_ACTIVE | DEVICE_REVOKED.
#[export] Instance DeviceStatus_eq_dec : EqDecision DeviceStatus.
Proof. solve_decision. Defined.

Record Device := {
  dv_userId : string;
  dv_displayName : option string;
  dv_platform : option string;
  dv_status : DeviceStatus;
  dv_subscriptionTokenHash : string;
  dv_issuanceIdempotencyKeyHash : option string;
  dv_revokedAt : option Z;
  dv_createdAt : Z;
}.

Inductive SubscriptionStatus := SUB_PENDING | SUB_ACTIVE | SUB_EXPIRED | SUB_CANCELLED.
#[export] Instance SubscriptionStatus_eq_dec : EqDecision SubscriptionStatus.
Proof. solve_decision. Defined.

Record Subscription := {
  sb_userId : string;
  sb_status : SubscriptionStatus;
  sb_startsAt : option Z;
  sb_expiresAt : option Z;
  sb_cancelledAt : option Z;
}.

Record NodeAccessGrant := {
  gr_nodeId : string;
  gr_deviceId : string;
  gr_status : GrantStatus;
  gr_dataPlaneCredentialHash : string;
  gr_dataPlaneCredentialDerivationVersion : option Z;
  gr_expiresAt : Z;
  gr_desiredVersion : Z;
  gr_appliedVersion : Z;
  gr_revokedAt : option Z;
}.

Inductive MaterialStatus := MATERIAL_DRAFT | MATERIAL_ACTIVE | MATERIAL_DISABLED.
#[export] Instance MaterialStatus_eq_dec : EqDecision MaterialStatus.
Proof. solve_decision. Defined.

(** [Endpoint] has the statuses ACTIVE and DISABLED, [ConnectionProfile] also
    DRAFT. *)
Record Endpoint := {
  en_nodeId : string;
  en_status : MaterialStatus;
  en_host : string;
  en_addressKind : AddressKind;
  en_port : Z;
  en_priority : Z;
}.

Record ConnectionProfile := {
  cp_nodeId : string;
  cp_status : MaterialStatus;
  cp_profileKey : string;
  cp_version : Z;
  cp_protocolKind : ProtocolKind;
  cp_transportKind : TransportKind;
  cp_securityKind : SecurityKind;
  cp_priority : Z;
}.

Record NodeConfigDelivery := { nd_nodeId : string; nd_targetVersion : Z }.

Record NodeConfigAcknowledgement := {
  na_nodeId : string;
  na_targetVersion : Z;
  na_snapshotHash : string;
  na_acknowledgedAt : Z;
}.

Record NodeAgentCredential := {
  nc_nodeId : string;
  nc_secretHash : string;
  nc_revokedAt : option Z;
}.

(** The columns of [OutboxEvent] that only the producers of events use. *)
Record EventKey := {
  ek_id : string;
  ek_aggregateType : string;
  ek_aggregateId : string;
}.

Record AuditEvent := {
  ae_actorUserId : option string;
  ae_action : string;
  ae_entityType : string;
  ae_entityId : string;
  ae_metadata : json;
}.

(** Deliveries are keyed by job and hash, acknowledgements by job, public
    configurations by profile, routes by endpoint and profile. *)
Record Db := MkDb {
  db_nodes : Table Node;
  db_devices : Table Device;
  db_subscriptions : Table Subscription;
  db_grants : Table NodeAccessGrant;
  db_endpoints : Table Endpoint;
  db_profiles : Table ConnectionProfile;
  db_publicConfigs : Table RoutePublicConfig;
  db_routes : gmap (string * string) RouteColumns;
  db_jobs : Table NodeSyncJob;
  db_jobKeys : Table string;
  db_events : Table OutboxEvent;
  db_eventKeys : Table EventKey;
  db_deliveries : gmap (string * string) NodeConfigDelivery;
  db_acks : Table NodeConfigAcknowledgement;
  db_agentCredentials : Table NodeAgentCredential;
  db_audit : list AuditEvent;
  db_drawn : nat;
}.

Definition empty_db : Db := MkDb ∅ ∅ ∅ ∅ ∅ ∅ ∅ ∅ ∅ ∅ ∅ ∅ ∅ ∅ ∅ [] 0.

Definition set_nodes f '(MkDb a b c d e g h i j k l m n o p q r) := MkDb (f a) b c d e g h i j k l m n o p q r.
Definition set_devices f '(MkDb a b c d e g h i j k l m n o p q r) := MkDb a (f b) c d e g h i j k l m n o p q r.
Definition set_subscriptions f '(MkDb a b c d e g h i j k l m n o p q r) := MkDb a b (f c) d e g h i j k l m n o p q r.
Definition set_grants f '(MkDb a b c d e g h i j k l m n o p q r) := MkDb a b c (f d) e g h i j k l m n o p q r.
Definition set_endpoints f '(MkDb a b c d e g h i j k l m n o p q r) := MkDb a b c d (f e) g h i j k l m n o p q r.
Definition set_profiles f '(MkDb a b c d e g h i j k l m n o p q r) := MkDb a b c d e (f g) h i j k l m n o p q r.
Definition set_publicConfigs f '(MkDb a b c d e g h i j k l m n o p q r) := MkDb a b c d e g (f h) i j k l m n o p q r.
Definition set_routes f '(MkDb a b c d e g h i j k l m n o p q r) := MkDb a b c d e g h (f i) j k l m n o p q r.
Definition set_jobs f '(MkDb a b c d e g h i j k l m n o p q r) := MkDb a b c d e g h i (f j) k l m n o p q r.
Definition set_jobKeys f '(MkDb a b c d e g h i j k l m n o p q r) := MkDb a b c d e g h i j (f k) l m n o p q r.
Definition set_events f '(MkDb a b c d e g h i j k l m n o p q r) := MkDb a b c d e g h i j k (f l) m n o p q r.
Definition set_eventKeys f '(MkDb a b c d e g h i j k l m n o p q r) := MkDb a b c d e g h i j k l (f m) n o p q r.
Definition set_deliveries f '(MkDb a b c d e g h i j k l m n o p q r) := MkDb a b c d e g h i j k l m (f n) o p q r.
Definition set_acks f '(MkDb a b c d e g h i j k l m n o p q r) := MkDb a b c d e g h i j k l m n (f o) p q r.
Definition set_agentCredentials f '(MkDb a b c d e g h i j k l m n o p q r) := MkDb a b c d e g h i j k l m n o (f p) q r.
Definition set_audit f '(MkDb a b c d e g h i j k l m n o p q r) := MkDb a b c d e g h i j k l m n o p (f q) r.
Definition set_drawn f '(MkDb a b c d e g h i j k l m n o p q r) := MkDb a b c d e g h i j k l m n o p q (f r).

(** [throw new Error(message)], or an error of the database client. *)
Inductive ApiError :=
| Thrown (message : string)
| Database (e : DbError).

Notation DbM := (M Db ApiError).

(** ** Constraints *)

(** An INTEGER column. *)
Definition int4 (z : Z) : bool := (-2147483648 <=? z) && (z <=? 2147483647).

(** [Node_config_versions_ordered] *)
Definition node_checks (n : Node) : bool :=
  (0 <=? n_desiredConfigVersion n) && (0 <=? n_appliedConfigVersion n) &&
  (n_appliedConfigVersion n <=? n_desiredConfigVersion n).

Definition implies (a b : bool) : bool := negb a || b.

(** [Device_revoked_has_timestamp], [Device_active_has_no_revocation_timestamp] *)
Definition device_checks (d : Device) : bool :=
  implies (bool_decide (dv_status d = DEVICE_REVOKED)) (negb (is_null (dv_revokedAt d))) &&
  implies (bool_decide (dv_status d = DEVICE_ACTIVE)) (is_null (dv_revokedAt d)).

(** [Subscription_dates_complete_and_ordered], [..._active_has_access_period],
    [..._cancelledAt_matches_status] *)
Definition subscription_checks (s : Subscription) : bool :=
  match sb_startsAt s, sb_expiresAt s with
  | None, None => negb (bool_decide (sb_status s = SUB_ACTIVE))
  | Some starts, Some expires => starts <? expires
  | _, _ => false
  end &&
  Bool.eqb (bool_decide (sb_status s = SUB_CANCELLED)) (negb (is_null (sb_cancelledAt s))).

(** [NodeAccessGrant_versions_ordered], [..._revoked_has_timestamp],
    [..._active_has_no_revocation_timestamp],
    [..._data_plane_credential_derivation_version_positive] *)
Definition grant_checks (g : NodeAccessGrant) : bool :=
  (0 <=? gr_desiredVersion g) && (0 <=? gr_appliedVersion g) &&
  (gr_appliedVersion g <=? gr_desiredVersion g) &&
  implies (bool_decide (gr_status g = GRANT_REVOKED)) (negb (is_null (gr_revokedAt g))) &&
  implies (bool_decide (gr_status g = GRANT_ACTIVE)) (is_null (gr_revokedAt g)) &&
  match gr_dataPlaneCredentialDerivationVersion g with Some v => 0 <? v | None => true end.

(** ** Triggers *)

Definition exists_row {K} `{Countable K} {A} (p : A → bool) (t : gmap K A) : bool :=
  existsb p (map_to_list t).*2.

Definition live (g : NodeAccessGrant) : bool := negb (bool_decide (gr_status g = GRANT_REVOKED)).

(** [enforce_node_applied_config_confirmation],
    [prevent_unreconciled_return_to_healthy],
    [prevent_quarantine_with_live_grants] *)
Definition node_update_refused (db : Db) (id : string) (old new : Node) : bool :=
  (n_appliedConfigVersion new <? n_appliedConfigVersion old) ||
  ((n_appliedConfigVersion old <? n_appliedConfigVersion new) &&
   negb (exists_row (λ a, bool_decide (na_nodeId a = id) &&
                          (n_appliedConfigVersion new <=? na_targetVersion a)) (db_acks db))) ||
  (bool_decide (n_status new = NODE_HEALTHY) && negb (bool_decide (n_status old = NODE_HEALTHY)) &&
   (n_appliedConfigVersion new <? n_desiredConfigVersion new)) ||
  (bool_decide (n_status new = NODE_QUARANTINED) &&
   negb (bool_decide (n_status old = NODE_QUARANTINED)) &&
   exists_row (λ g, bool_decide (gr_nodeId g = id) && live g) (db_grants db)).

(** [SET "activationVersion" = NULL] on the selected routes; the trigger
    [validate_connection_route_activation] keeps [lastActivationVersion]. *)
Definition close_route (r : RouteColumns) : RouteColumns :=
  {| rc_nodeId := rc_nodeId r; rc_activationVersion := None;
     rc_lastActivationVersion := rc_lastActivationVersion r |}.
Definition close_routes (p : string * string → RouteColumns → bool) : Db → Db :=
  set_routes (map_imap (λ k r, Some (if p k r then close_route r else r))).

(** [prevent_live_grants_on_quarantined_node] *)
Definition live_on_quarantined (db : Db) (g : NodeAccessGrant) : bool :=
  live g && match db_nodes db !! gr_nodeId g with
            | Some n => bool_decide (n_status n = NODE_QUARANTINED)
            | None => false
            end.

(** [validate_node_config_acknowledgement] *)
Definition acknowledgement_valid (db : Db) (job : string) (a : NodeConfigAcknowledgement) : bool :=
  match db_jobs db !! job, db_deliveries db !! (job, na_snapshotHash a) with
  | Some j, Some d =>
      bool_decide (nd_nodeId d = j_nodeId j) && (nd_targetVersion d =? j_targetVersion j) &&
      bool_decide (j_nodeId j = na_nodeId a) && (j_targetVersion j =? na_targetVersion a) &&
      bool_decide (j_status j = JOB_SUCCEEDED)
  | _, _ => false
  end.

(** The payload of a [node-sync.requested] event. *)
Definition encode_command (c : NodeSyncRequestedEvent) : json :=
  let rest := [("nodeSyncJobId", JStr (cmd_nodeSyncJobId c));
               ("targetVersion", jint (cmd_targetVersion c))]%string in
  match cmd_resource c with
  | GrantResource g => JObj (("nodeAccessGrantId"%string, JStr g) :: rest)
  | RouteResource e p =>
      JObj (("routeEndpointId"%string, JStr e) :: ("routeConnectionProfileId"%string, JStr p) :: rest)
  end.

Definition job_resource_is (r : SyncResource) (j : NodeSyncJob) : bool :=
  match r with
  | GrantResource g => bool_decide (j_nodeAccessGrantId j = Some g)
  | RouteResource e p => bool_decide (j_routeEndpointId j = Some e) &&
      bool_decide (j_routeConnectionProfileId j = Some p) && is_null (j_nodeAccessGrantId j)
  end.

(** [validate_connection_route_activation], [..._outbox], [..._is_unapplied]
    and [..._precedes_delivery], for an activation at a new version. *)
Definition activation_valid (db : Db) (e p : string) (old : RouteColumns) (v : Z) : bool :=
  let nodeId := rc_nodeId old in
  let backing j := bool_decide (j_nodeId j = nodeId) && job_resource_is (RouteResource e p) j &&
                   (j_targetVersion j =? v) in
  (rc_lastActivationVersion old <? v) &&
  match db_nodes db !! nodeId, db_endpoints db !! e, db_profiles db !! p with
  | Some n, Some en, Some pr =>
      bool_decide (n_status n = NODE_HEALTHY) &&
      bool_decide (en_nodeId en = nodeId) && bool_decide (en_status en = MATERIAL_ACTIVE) &&
      bool_decide (cp_nodeId pr = nodeId) && bool_decide (cp_status pr = MATERIAL_ACTIVE) &&
      negb (is_null (db_publicConfigs db !! p)) &&
      (n_appliedConfigVersion n <? v)
  | _, _, _ => false
  end &&
  exists_row (λ j, backing j &&
    exists_row (λ k, match db_events db !! ek_id k with
                     | Some ev => bool_decide (oe_topic ev = "node-sync.requested"%string) &&
                         bool_decide (ek_aggregateType k = "ConnectionRoute"%string) &&
                         bool_decide (ek_aggregateId k = e) &&
                         bool_decide (oe_payload ev = encode_command
                           {| cmd_resource := RouteResource e p; cmd_nodeSyncJobId := j_id j;
                              cmd_targetVersion := v |})
                     | None => false
                     end) (db_eventKeys db)) (db_jobs db) &&
  negb (exists_row (λ d, bool_decide (nd_nodeId d = nodeId) && (nd_targetVersion d =? v))
          (db_deliveries db)).

(** [ORDER BY key, "id"] *)
Definition pair_order {A} (key : A → string) (x y : string * A) : Prop :=
  if decide (key x.2 = key y.2) then String.le x.1 y.1 else String.le (key x.2) (key y.2).
#[export] Instance pair_order_dec {A} (key : A → string) x y : Decision (pair_order key x y).
Proof. unfold pair_order. destruct (decide _); apply _. Defined.

#[export] Instance pair_order_total {A} (key : A → string) : Total (pair_order key).
Proof.
  intros x y. unfold pair_order.
  destruct (decide (key x.2 = key y.2)) as [He|Hne].
  - rewrite (decide_True (P:=key y.2 = key x.2)) by done. apply (total String.le).
  - rewrite (decide_False (P:=key y.2 = key x.2)) by congruence. apply (total String.le).
Qed.
#[export] Instance pair_order_trans {A} (key : A → string) : Transitive (pair_order key).
Proof.
  intros x y z. unfold pair_order. intros H1 H2.
  destruct (decide (key x.2 = key y.2)) as [Hxy|Hxy], (decide (key y.2 = key z.2)) as [Hyz|Hyz].
  - rewrite decide_True by congruence. by transitivity y.1.
  - rewrite decide_False by congruence. rewrite Hxy. done.
  - rewrite decide_False by congruence. rewrite <- Hyz. done.
  - assert (String.le (key x.2) (key z.2)) as Hxz by (by transitivity (key y.2)).
    destruct (decide (key x.2 = key z.2)) as [Hz|]; [|done]. exfalso. apply Hxy.
    apply (anti_symm String.le); [done|by rewrite Hz].
Qed.

(** ** Statements *)

Section statements.
(** The UUIDs [randomUUID()] and [@default(uuid())] draw. *)
Context (uuid : nat → string).

Definition randomUUID : DbM string := λ db,
  (Ok (uuid (db_drawn db)), set_drawn S db).

Definition find {A} (column : Db → Table A) (id : string) : DbM (option A) :=
  gets (λ db, column db !! id).

(** [node.update({ where: { id }, data })] *)
Definition node_update (id : string) (data : Node → Node) : DbM Node :=
  db ← get;
  match db_nodes db !! id with
  | None => throw (Database RecordNotFound)
  | Some old =>
      let new := data old in
      throw_if (negb (int4 (n_desiredConfigVersion new) && int4 (n_appliedConfigVersion new)))
        (Database NumericOutOfRange);;
      throw_if (node_update_refused db id old new) (Database TriggerRaised);;
      throw_if (negb (node_checks new)) (Database CheckViolation);;
      modify (set_nodes <[id := new]>);;
      (* Node_close_route_activations *)
      when (negb (bool_decide (n_status new = n_status old)))
        (modify (close_routes (λ _ r, bool_decide (rc_nodeId r = id))));;
      mret new
  end.

Definition set_status (st : NodeStatus) (n : Node) : Node :=
  {| n_status := st; n_desiredConfigVersion := n_desiredConfigVersion n;
     n_appliedConfigVersion := n_appliedConfigVersion n;
     n_lastHeartbeatAt := n_lastHeartbeatAt n |}.
Definition set_desired (v : Z) (n : Node) : Node :=
  {| n_status := n_status n; n_desiredConfigVersion := v;
     n_appliedConfigVersion := n_appliedConfigVersion n;
     n_lastHeartbeatAt := n_lastHeartbeatAt n |}.
Definition set_applied (v : Z) (n : Node) : Node :=
  {| n_status := n_status n; n_desiredConfigVersion := n_desiredConfigVersion n;
     n_appliedConfigVersion := v; n_lastHeartbeatAt := n_lastHeartbeatAt n |}.
Definition set_heartbeat (now : Z) (n : Node) : Node :=
  {| n_status := n_status n; n_desiredConfigVersion := n_desiredConfigVersion n;
     n_appliedConfigVersion := n_appliedConfigVersion n; n_lastHeartbeatAt := Some now |}.
(** [{ desiredConfigVersion: { increment: 1 } }] *)
Definition increment_desired (n : Node) : Node := set_desired (n_desiredConfigVersion n + 1) n.

(** [device.update({ where: { id }, data })] *)
Definition device_update (id : string) (data : Device → Device) : DbM unit :=
  db ← get;
  match db_devices db !! id with
  | None => throw (Database RecordNotFound)
  | Some old =>
      throw_if (negb (device_checks (data old))) (Database CheckViolation);;
      modify (set_devices <[id := data old]>)
  end.

(** [nodeAccessGrant.create] *)
Definition grant_create (id : string) (g : NodeAccessGrant) : DbM unit :=
  db ← get;
  throw_if (live_on_quarantined db g) (Database TriggerRaised);;
  throw_if (negb (grant_checks g)) (Database CheckViolation);;
  throw_if (negb (is_null (db_grants db !! id)) ||
            exists_row (λ g', (bool_decide (gr_nodeId g' = gr_nodeId g) &&
                               bool_decide (gr_deviceId g' = gr_deviceId g)) ||
                              bool_decide (gr_dataPlaneCredentialHash g' =
                                           gr_dataPlaneCredentialHash g)) (db_grants db))
    (Database UniqueViolation);;
  throw_if (is_null (db_nodes db !! gr_nodeId g) || is_null (db_devices db !! gr_deviceId g))
    (Database ForeignKeyViolation);;
  modify (set_grants <[id := g]>).

(** [UPDATE "NodeAccessGrant" SET ... WHERE ...]; [sets_status]: the SET list
    names the status, which fires the trigger of that column. *)
Definition grants_update (sets_status : bool) (p : string → NodeAccessGrant → bool)
    (data : NodeAccessGrant → NodeAccessGrant) : DbM unit :=
  db ← get;
  let selected := filter (λ kv, p kv.1 kv.2 = true) (db_grants db) in
  throw_if (sets_status && exists_row (λ g, live_on_quarantined db (data g)) selected)
    (Database TriggerRaised);;
  throw_if (exists_row (λ g, negb (grant_checks (data g))) selected) (Database CheckViolation);;
  modify (set_grants (map_imap (λ id g, Some (if p id g then data g else g)))).

(** [nodeAccessGrant.update({ where: { id }, data })] *)
Definition grant_update (sets_status : bool) (id : string)
    (data : NodeAccessGrant → NodeAccessGrant) : DbM unit :=
  db ← get;
  throw_if (is_null (db_grants db !! id)) (Database RecordNotFound);;
  grants_update sets_status (λ id' _, bool_decide (id' = id)) data.

(** [nodeAccessGrant.updateMany({ where: { id: { in: ids } }, data })] *)
Definition grant_updateMany (sets_status : bool) (ids : list string)
    (data : NodeAccessGrant → NodeAccessGrant) : DbM unit :=
  grants_update sets_status (λ id' _, bool_decide (id' ∈ ids)) data.

(** [nodeAccessGrant.findMany({ where, orderBy: [{ nodeId }, { id }] })] *)
Definition grants_where (p : NodeAccessGrant → bool) (db : Db)
    : list (string * NodeAccessGrant) :=
  merge_sort (pair_order gr_nodeId) (map_to_list (filter (λ kv, p kv.2 = true) (db_grants db))).

(** [nodeSyncJob.create] *)
Definition new_job (id nodeId : string) (r : SyncResource) (target now : Z) : NodeSyncJob :=
  {| j_id := id; j_nodeId := nodeId;
     j_nodeAccessGrantId := match r with GrantResource g => Some g | _ => None end;
     j_routeEndpointId := match r with RouteResource e _ => Some e | _ => None end;
     j_routeConnectionProfileId := match r with RouteResource _ p => Some p | _ => None end;
     j_targetVersion := target; j_status := JOB_PENDING; j_attempts := 0;
     j_nextAttemptAt := None; j_leaseOwner := None; j_leaseToken := None;
     j_leaseExpiresAt := None; j_lastErrorCode := None; j_completedAt := None;
     j_updatedAt := now |}.

(** [NodeSyncJob_nodeAccessGrantId_nodeId_fkey] and the key of the route. *)
Definition resource_on_node (db : Db) (nodeId : string) (r : SyncResource) : bool :=
  match r with
  | GrantResource g => match db_grants db !! g with
                       | Some row => bool_decide (gr_nodeId row = nodeId)
                       | None => false
                       end
  | RouteResource e p => match db_routes db !! (e, p) with
                         | Some row => bool_decide (rc_nodeId row = nodeId)
                         | None => false
                         end
  end.

Definition job_create (nodeId : string) (r : SyncResource) (target : Z) (key : string) (now : Z)
    : DbM string :=
  id ← randomUUID;
  db ← get;
  let job := new_job id nodeId r target now in
  throw_if (negb (job_checks job)) (Database CheckViolation);;
  throw_if (negb (is_null (db_jobs db !! id)) || negb (is_null (db_jobKeys db !! key)) ||
            (* NodeSyncJob_route_activation_key *)
            match r with
            | RouteResource _ _ => exists_row (λ j, job_resource_is r j &&
                                     (j_targetVersion j =? target)) (db_jobs db)
            | GrantResource _ => false
            end) (Database UniqueViolation);;
  throw_if (is_null (db_nodes db !! nodeId) || negb (resource_on_node db nodeId r))
    (Database ForeignKeyViolation);;
  modify (set_jobs <[id := job]>);;
  modify (set_jobKeys <[key := id]>);;
  mret id.

(** [nodeSyncJob.findUnique({ where: { idempotencyKey } })], and of events. *)
Definition job_by_key (key : string) : DbM (option NodeSyncJob) :=
  gets (λ db, db_jobKeys db !! key ≫= λ id, db_jobs db !! id).
Definition event_by_key (key : string) : DbM (option (EventKey * OutboxEvent)) :=
  gets (λ db, k ← db_eventKeys db !! key; e ← db_events db !! ek_id k; Some (k, e)).

(** [outboxEvent.create] *)
Definition event_create (topic aggregateType aggregateId : string) (payload : json)
    (key : string) (now : Z) : DbM string :=
  id ← randomUUID;
  db ← get;
  throw_if (negb (is_null (db_events db !! id)) || negb (is_null (db_eventKeys db !! key)))
    (Database UniqueViolation);;
  modify (set_events <[id := new_event id topic payload now]>);;
  modify (set_eventKeys <[key := {| ek_id := id; ek_aggregateType := aggregateType;
                                    ek_aggregateId := aggregateId |}]>);;
  mret id.

(** [auditEvent.create]: the table is append-only. *)
Definition audit (actor : option string) (action entityType entityId : string)
    (metadata : json) : DbM unit :=
  modify (set_audit (λ l, l ++ [{| ae_actorUserId := actor; ae_action := action;
    ae_entityType := entityType; ae_entityId := entityId; ae_metadata := metadata |}])).

Definition with_endpoint_status (st : MaterialStatus) (e : Endpoint) : Endpoint :=
  {| en_nodeId := en_nodeId e; en_status := st; en_host := en_host e;
     en_addressKind := en_addressKind e; en_port := en_port e; en_priority := en_priority e |}.
Definition with_profile_status (st : MaterialStatus) (p : ConnectionProfile) : ConnectionProfile :=
  {| cp_nodeId := cp_nodeId p; cp_status := st; cp_profileKey := cp_profileKey p;
     cp_version := cp_version p; cp_protocolKind := cp_protocolKind p;
     cp_transportKind := cp_transportKind p; cp_securityKind := cp_securityKind p;
     cp_priority := cp_priority p |}.

(** [endpoint.update] and [connectionProfile.update] of the status, with the
    triggers that close their routes when they leave ACTIVE. *)
Definition endpoint_set_status (id : string) (st : MaterialStatus) : DbM unit :=
  db ← get;
  match db_endpoints db !! id with
  | None => throw (Database RecordNotFound)
  | Some old =>
      modify (set_endpoints <[id := with_endpoint_status st old]>);;
      when (bool_decide (en_status old = MATERIAL_ACTIVE) && negb (bool_decide (st = MATERIAL_ACTIVE)))
        (modify (close_routes (λ k _, bool_decide (k.1 = id))))
  end.

Definition profile_set_status (id : string) (st : MaterialStatus) : DbM unit :=
  db ← get;
  match db_profiles db !! id with
  | None => throw (Database RecordNotFound)
  | Some old =>
      modify (set_profiles <[id := with_profile_status st old]>);;
      when (bool_decide (cp_status old = MATERIAL_ACTIVE) && negb (bool_decide (st = MATERIAL_ACTIVE)))
        (modify (close_routes (λ k _, bool_decide (k.2 = id))))
  end.

(** [endpointConnectionProfile.create]: closed, never activated. *)
Definition route_create (e p nodeId : string) : DbM unit :=
  db ← get;
  throw_if (negb (is_null (db_routes db !! (e, p)))) (Database UniqueViolation);;
  throw_if (negb (match db_endpoints db !! e, db_profiles db !! p with
                  | Some en, Some pr => bool_decide (en_nodeId en = nodeId) &&
                                        bool_decide (cp_nodeId pr = nodeId)
                  | _, _ => false
                  end)) (Database ForeignKeyViolation);;
  modify (set_routes <[(e, p) := {| rc_nodeId := nodeId; rc_activationVersion := None;
                                    rc_lastActivationVersion := 0 |}]>).

(** [endpointConnectionProfile.update({ data: { activationVersion } })] *)
Definition route_activate (e p : string) (v : Z) : DbM unit :=
  db ← get;
  match db_routes db !! (e, p) with
  | None => throw (Database RecordNotFound)
  | Some old =>
      if bool_decide (rc_activationVersion old = Some v) then mret tt else
      throw_if (negb (activation_valid db e p old v)) (Database TriggerRaised);;
      modify (set_routes <[(e, p) := {| rc_nodeId := rc_nodeId old; rc_activationVersion := Some v;
                                        rc_lastActivationVersion := v |}]>)
  end.

(** [nodeConfigDelivery.createMany({ data: [row], skipDuplicates: true })] *)
Definition delivery_create (job hash : string) (d : NodeConfigDelivery) : DbM unit :=
  db ← get;
  throw_if (negb (is_sha256_hex hash) || (nd_targetVersion d <? 0)) (Database CheckViolation);;
  match db_deliveries db !! (job, hash) with
  | Some _ => mret tt
  | None =>
      throw_if (match db_jobs db !! job with
                | Some j => negb (bool_decide (j_nodeId j = nd_nodeId d) &&
                                  (j_targetVersion j =? nd_targetVersion d))
                | None => true
                end) (Database ForeignKeyViolation);;
      modify (set_deliveries <[(job, hash) := d]>)
  end.

(** [nodeConfigAcknowledgement.create] *)
Definition ack_create (job : string) (a : NodeConfigAcknowledgement) : DbM unit :=
  db ← get;
  throw_if (negb (acknowledgement_valid db job a)) (Database TriggerRaised);;
  throw_if (na_targetVersion a <? 0) (Database CheckViolation);;
  throw_if (negb (is_null (db_acks db !! job)) ||
            exists_row (λ a', bool_decide (na_nodeId a' = na_nodeId a) &&
                              (na_targetVersion a' =? na_targetVersion a)) (db_acks db))
    (Database UniqueViolation);;
  modify (set_acks <[job := a]>).
End statements.
