(* ===== verification/DataPlaneCredential.v ===== *)
(** * Data-plane credentials: [packages/orchestration-store/src/data-plane-credential.ts]
    and [apps/api/src/orchestration/data-plane-credential.service.ts]

    The credential of a grant is derived from a secret pepper and the grant's
    binding, formatted as a version 4 UUID; only an HMAC of it is stored.
    HMAC-SHA-256 is a parameter that yields 32 bytes; strings are their bytes. *)

From Stdlib Require Import Ascii.
From S2P Require Import Prelude.
From S2P Require Import NodeAgentContract.
Open Scope Z_scope.

Definition DATA_PLANE_CREDENTIAL_DERIVATION_VERSION : Z := 1.

Record DataPlaneCredentialBinding := { b_grantId : string; b_deviceId : string; b_nodeId : string }.

(** ** [Buffer.toString('hex')] and [Buffer.from(text, 'hex')] *)

Definition nibble (n : Z) : Ascii.ascii :=
  Ascii.ascii_of_nat (Z.to_nat (if n <? 10 then 48 + n else 87 + n)).
Definition nibble_value (a : Ascii.ascii) : option Z :=
  let n := Z.of_nat (Ascii.nat_of_ascii a) in
  if (48 <=? n) && (n <=? 57) then Some (n - 48)
  else if (97 <=? n) && (n <=? 102) then Some (n - 87)
  else if (65 <=? n) && (n <=? 70) then Some (n - 55)
  else None.

Fixpoint to_hex (bytes : list Z) : string :=
  match bytes with
  | [] => EmptyString
  | b :: rest => String (nibble (Z.shiftr b 4)) (String (nibble (Z.land b 15)) (to_hex rest))
  end.

(** Decoding stops at the first pair that is not hexadecimal. *)
Fixpoint from_hex (s : string) : list Z :=
  match s with
  | String a (String b rest) =>
      match nibble_value a, nibble_value b with
      | Some x, Some y => Z.lor (Z.shiftl x 4) y :: from_hex rest
      | _, _ => []
      end
  | _ => []
  end.

Definition is_byte (b : Z) : Prop := 0 ≤ b < 256.

(** Facts about bytes, decided by enumeration. *)
Definition bytes : list Z := Z.of_nat <$> seq 0 256.

Lemma bytes_complete b : is_byte b → b ∈ bytes.
Proof.
  unfold is_byte. intros Hb. apply list_elem_of_fmap. exists (Z.to_nat b). split; [lia|].
  apply elem_of_seq. lia.
Qed.

Lemma for_bytes (P : Z → bool) : forallb P bytes = true → ∀ b, is_byte b → P b = true.
Proof.
  intros Hall b Hb. rewrite forallb_forall in Hall.
  by apply Hall, list_elem_of_In, bytes_complete.
Qed.

Lemma byte_hex b : is_byte b →
  hex_digit (nibble (Z.shiftr b 4)) = true ∧ hex_digit (nibble (Z.land b 15)) = true ∧
  nibble_value (nibble (Z.shiftr b 4)) = Some (Z.shiftr b 4) ∧
  nibble_value (nibble (Z.land b 15)) = Some (Z.land b 15) ∧
  Z.lor (Z.shiftl (Z.shiftr b 4) 4) (Z.land b 15) = b.
Proof.
  intros Hb.
  pose proof (for_bytes (λ b, hex_digit (nibble (Z.shiftr b 4)) && hex_digit (nibble (Z.land b 15)) &&
    from_option (Z.eqb (Z.shiftr b 4)) false (nibble_value (nibble (Z.shiftr b 4))) &&
    from_option (Z.eqb (Z.land b 15)) false (nibble_value (nibble (Z.land b 15))) &&
    (Z.lor (Z.shiftl (Z.shiftr b 4) 4) (Z.land b 15) =? b)) ltac:(vm_compute; reflexivity) b Hb) as H.
  rewrite !andb_true_iff in H. destruct H as [[[[H1 H2] H3] H4] H5%Z.eqb_eq].
  destruct (nibble_value (nibble (Z.shiftr b 4))) as [x|]; [|done].
  destruct (nibble_value (nibble (Z.land b 15))) as [y|]; [|done].
  apply Z.eqb_eq in H3, H4. split_and!; congruence.
Qed.

Lemma from_to_hex l : Forall is_byte l → from_hex (to_hex l) = l.
Proof.
  induction 1 as [|b l Hb _ IH]; [done|].
  destruct (byte_hex b Hb) as (_ & _ & Hh & Hl & Hv). cbn [to_hex from_hex].
  by rewrite Hh, Hl, Hv, IH.
Qed.

Lemma to_hex_digits l : Forall is_byte l → string_forall hex_digit (to_hex l) = true.
Proof.
  induction 1 as [|b l Hb _ IH]; [done|]. destruct (byte_hex b Hb) as (H1 & H2 & _).
  cbn [to_hex string_forall]. by rewrite H1, H2, IH.
Qed.

Lemma to_hex_length l : String.length (to_hex l) = (2 * length l)%nat.
Proof. induction l as [|b l IH]; simpl; [done|]. rewrite IH. lia. Qed.

(** Lower-case hexadecimal text of even length is the text of its bytes. *)
Lemma hex_digit_value a : hex_digit a = true →
  ∃ x, nibble_value a = Some x ∧ 0 ≤ x < 16 ∧ nibble x = a.
Proof.
  assert (Hall : forallb (λ n, let a := Ascii.ascii_of_nat n in
      negb (hex_digit a) || match nibble_value a with
                            | Some x => (0 <=? x) && (x <? 16) && Ascii.eqb (nibble x) a
                            | None => false
                            end) (seq 0 256) = true) by (vm_compute; reflexivity).
  intros Ha. rewrite forallb_forall in Hall.
  assert (Hin : List.In (Ascii.nat_of_ascii a) (seq 0 256)).
  { apply in_seq. pose proof (Ascii.nat_ascii_bounded a). lia. }
  specialize (Hall _ Hin). cbv zeta in Hall.
  rewrite Ascii.ascii_nat_embedding, Ha in Hall. cbn [negb orb] in Hall.
  destruct (nibble_value a) as [x|]; [|done].
  rewrite !andb_true_iff in Hall. destruct Hall as [[? ?] ?%Ascii.eqb_eq].
  exists x. split_and!; [done|lia|lia|done].
Qed.

Lemma nibbles_split x y : 0 ≤ x < 16 → 0 ≤ y < 16 →
  is_byte (Z.lor (Z.shiftl x 4) y) ∧ Z.shiftr (Z.lor (Z.shiftl x 4) y) 4 = x ∧
  Z.land (Z.lor (Z.shiftl x 4) y) 15 = y.
Proof.
  intros Hx Hy.
  assert (Hall : forallb (λ x, forallb (λ y, let b := Z.lor (Z.shiftl x 4) y in
      (0 <=? b) && (b <? 256) && (Z.shiftr b 4 =? x) && (Z.land b 15 =? y))
      (Z.of_nat <$> seq 0 16)) (Z.of_nat <$> seq 0 16) = true) by (vm_compute; reflexivity).
  assert (Hin : ∀ z, 0 ≤ z < 16 → List.In z (Z.of_nat <$> seq 0 16)).
  { intros z Hz. apply list_elem_of_In, list_elem_of_fmap. exists (Z.to_nat z).
    split; [lia|]. apply elem_of_seq. lia. }
  rewrite forallb_forall in Hall. specialize (Hall x (Hin x Hx)).
  rewrite forallb_forall in Hall. specialize (Hall y (Hin y Hy)). cbv zeta in Hall.
  rewrite !andb_true_iff in Hall. unfold is_byte. lia.
Qed.

Lemma to_from_hex n s :
  String.length s = (2 * n)%nat → string_forall hex_digit s = true → to_hex (from_hex s) = s.
Proof.
  revert s. induction n as [|n IH]; intros s Hlen Hhex.
  - by destruct s.
  - destruct s as [|a [|b s]]; simpl in Hlen; [lia|lia|].
    cbn [string_forall] in Hhex. rewrite !andb_true_iff in Hhex. destruct Hhex as (Ha & Hb & Hs).
    destruct (hex_digit_value a Ha) as (x & Hx & Hxr & Hxa).
    destruct (hex_digit_value b Hb) as (y & Hy & Hyr & Hyb).
    cbn [from_hex]. rewrite Hx, Hy. cbn [to_hex].
    destruct (nibbles_split x y Hxr Hyr) as (_ & -> & ->).
    rewrite Hxa, Hyb, IH; [done|lia|done].
Qed.

(** ** The credential *)

Section hmac.
(** [createHmac('sha256', key).update(message).digest()] *)
Context (hmac_sha256 : string → string → list Z).

Definition NUL : string := String Ascii.zero EmptyString.

Definition hmac_message (domain material : string) : string :=
  "vpn-platform:data-plane:" +:+ domain +:+ NUL +:+ material.
Definition binding_material (b : DataPlaneCredentialBinding) : string :=
  b_grantId b +:+ NUL +:+ b_deviceId b +:+ NUL +:+ b_nodeId b.

(** [None]: the missing pepper throws. *)
Definition hmac (pepper domain material : string) : option (list Z) :=
  if bool_decide (pepper = EmptyString) then None
  else Some (hmac_sha256 pepper (hmac_message domain material)).

(** The version and variant bits of a version 4 UUID. *)
Definition stamp_uuid (digest : list Z) : list Z :=
  let digest := <[6%nat := Z.lor (Z.land (default 0 (digest !! 6%nat)) 15) 64]> digest in
  <[8%nat := Z.lor (Z.land (default 0 (digest !! 8%nat)) 63) 128]> digest.

Definition format_uuid (hex : string) : string :=
  String.substring 0 8 hex +:+ "-" +:+ String.substring 8 4 hex +:+ "-" +:+
  String.substring 12 4 hex +:+ "-" +:+ String.substring 16 4 hex +:+ "-" +:+
  String.substring 20 (String.length hex - 20) hex.

Definition deriveDataPlaneCredential (pepper : string) (binding : DataPlaneCredentialBinding)
    : option string :=
  digest ← hmac pepper "credential:v1" (binding_material binding);
  Some (format_uuid (to_hex (stamp_uuid (take 16 digest)))).

Definition hashDataPlaneCredential (pepper credential : string) : option string :=
  to_hex <$> hmac pepper "verifier:v1" credential.

(** [timingSafeEqual] compares the contents of two buffers of one length. *)
Definition verifyDataPlaneCredentialHash (pepper credential storedHash : string) : option bool :=
  hash ← hashDataPlaneCredential pepper credential;
  let expected := from_hex hash in
  let validStoredHash := is_sha256_hex storedHash in
  let actual := if validStoredHash then from_hex storedHash else replicate (length expected) 0 in
  Some (bool_decide (expected = actual) && validStoredHash).

(** ** What they guarantee *)

Class HmacSha256 : Prop := {
  hmac_length key message : length (hmac_sha256 key message) = 32%nat;
  hmac_bytes key message : Forall is_byte (hmac_sha256 key message);
}.

(** The shape of a version 4 UUID: [x] stands for a hexadecimal digit, [y]
    for one of 8, 9, a and b. *)
Definition uuid_v4_pattern : string := "xxxxxxxx-xxxx-4xxx-yxxx-xxxxxxxxxxxx".
Definition pattern_char (p a : Ascii.ascii) : bool :=
  if Ascii.eqb p "x"%char then hex_digit a
  else if Ascii.eqb p "y"%char then
    Ascii.eqb a "8"%char || Ascii.eqb a "9"%char || Ascii.eqb a "a"%char || Ascii.eqb a "b"%char
  else Ascii.eqb a p.
Fixpoint matches (pattern s : string) : bool :=
  match pattern, s with
  | EmptyString, EmptyString => true
  | String p pattern', String a s' => pattern_char p a && matches pattern' s'
  | _, _ => false
  end.
Definition is_uuid_v4 : string → bool := matches uuid_v4_pattern.

Lemma hi_digit b : is_byte b → pattern_char "x"%char (nibble (Z.shiftr b 4)) = true.
Proof. intros Hb. by destruct (byte_hex b Hb). Qed.
Lemma lo_digit b : is_byte b → pattern_char "x"%char (nibble (Z.land b 15)) = true.
Proof. intros Hb. by destruct (byte_hex b Hb) as (_ & ? & _). Qed.

Lemma version_byte b : is_byte b →
  nibble (Z.shiftr (Z.lor (Z.land b 15) 64) 4) = "4"%char ∧ is_byte (Z.lor (Z.land b 15) 64).
Proof.
  intros Hb. pose proof (for_bytes (λ b, Ascii.eqb (nibble (Z.shiftr (Z.lor (Z.land b 15) 64) 4)) "4"%char &&
    (0 <=? Z.lor (Z.land b 15) 64) && (Z.lor (Z.land b 15) 64 <? 256))
    ltac:(vm_compute; reflexivity) b Hb) as H.
  rewrite !andb_true_iff, Ascii.eqb_eq in H. unfold is_byte. lia || (split; [tauto|lia]).
Qed.

Lemma variant_byte b : is_byte b →
  pattern_char "y"%char (nibble (Z.shiftr (Z.lor (Z.land b 63) 128) 4)) = true ∧
  is_byte (Z.lor (Z.land b 63) 128).
Proof.
  intros Hb. pose proof (for_bytes (λ b, pattern_char "y"%char (nibble (Z.shiftr (Z.lor (Z.land b 63) 128) 4)) &&
    (0 <=? Z.lor (Z.land b 63) 128) && (Z.lor (Z.land b 63) 128 <? 256))
    ltac:(vm_compute; reflexivity) b Hb) as H.
  rewrite !andb_true_iff in H. unfold is_byte. split; [tauto|lia].
Qed.

Lemma format_uuid_v4 digest :
  length digest = 16%nat → Forall is_byte digest →
  is_uuid_v4 (format_uuid (to_hex (stamp_uuid digest))) = true.
Proof.
  intros Hlen Hb.
  do 16 (destruct digest as [|? digest]; [discriminate Hlen|]).
  destruct digest; [|discriminate Hlen].
  repeat match goal with H : Forall _ (_ :: _) |- _ => apply Forall_cons_1 in H as [? H] end.
  (* the names of the stamped bytes *)
  match goal with |- context [stamp_uuid [_; _; _; _; _; _; ?v; _; ?w; _; _; _; _; _; _; _]] =>
    destruct (version_byte v) as [Hv1 Hv2]; [done|];
    destruct (variant_byte w) as [Hw1 Hw2]; [done|]
  end.
  unfold is_uuid_v4, uuid_v4_pattern, format_uuid, stamp_uuid.
  cbv -[Z.lor Z.land Z.shiftr nibble pattern_char andb].
  rewrite ?hi_digit, ?lo_digit, Hw1 by assumption.
  repeat match goal with
  | |- context [pattern_char ?p (nibble (Z.shiftr _ 4))] =>
      rewrite (hi_digit _ ltac:(eassumption))
  | |- context [pattern_char ?p (nibble (Z.land _ 15))] =>
      rewrite (lo_digit _ ltac:(eassumption))
  end.
  rewrite Hv1. reflexivity.
Qed.

Lemma hmac_present pepper domain material :
  pepper ≠ EmptyString →
  hmac pepper domain material = Some (hmac_sha256 pepper (hmac_message domain material)).
Proof. intros H. unfold hmac. by rewrite bool_decide_eq_false_2. Qed.

(** Text up to the first NUL. *)
Definition nul_free (s : string) : bool := string_forall (λ a, negb (Ascii.eqb a Ascii.zero)) s.

Lemma nul_split s1 s2 r1 r2 :
  nul_free s1 = true → nul_free s2 = true →
  s1 +:+ NUL +:+ r1 = s2 +:+ NUL +:+ r2 → s1 = s2 ∧ r1 = r2.
Proof.
  unfold NUL. revert s2. induction s1 as [|a s1 IH]; intros [|b s2] H1 H2 He; simpl in *.
  - by simplify_eq.
  - apply andb_prop in H2 as [H2 _]. injection He as <- _. done.
  - apply andb_prop in H1 as [H1 _]. injection He as -> _. done.
  - apply andb_prop in H1 as [_ H1]. apply andb_prop in H2 as [_ H2].
    injection He as -> He. by destruct (IH s2 H1 H2 He) as [-> ->].
Qed.

Definition binding_nul_free (b : DataPlaneCredentialBinding) : Prop :=
  nul_free (b_grantId b) = true ∧ nul_free (b_deviceId b) = true.

Lemma binding_material_inj b b' :
  binding_nul_free b → binding_nul_free b' →
  binding_material b = binding_material b' → b = b'.
Proof.
  intros [Hg Hd] [Hg' Hd'] He.
  destruct (nul_split _ _ _ _ Hg Hg' He) as [H1 He'].
  destruct (nul_split _ _ _ _ Hd Hd' He') as [H2 H3].
  destruct b, b'. simpl in *. congruence.
Qed.

Lemma hmac_message_domain material material' :
  hmac_message "credential:v1" material ≠ hmac_message "verifier:v1" material'.
Proof. done. Qed.

Lemma hmac_message_inj domain m m' :
  hmac_message domain m = hmac_message domain m' → m = m'.
Proof.
  unfold hmac_message. intros He.
  assert (∀ s r r', s +:+ r = s +:+ r' → r = r') as Happ.
  { induction s as [|a s IH]; simpl; [done|]. intros r r' [= ?]. auto. }
  do 3 apply Happ in He. done.
Qed.

Lemma hash_hex `{HmacSha256} pepper domain material :
  is_sha256_hex (to_hex (hmac_sha256 pepper (hmac_message domain material))) = true.
Proof.
  unfold is_sha256_hex. rewrite to_hex_length, hmac_length, to_hex_digits; [done|].
  apply hmac_bytes.
Qed.

(** A configured pepper gives every grant a credential in the shape of a
    version 4 UUID and a stored hash of 64 hexadecimal digits; the verifier
    accepts, of all texts, exactly that hash.  The HMAC inputs of two distinct
    bindings differ, and no input of a credential is an input of a verifier. *)
Theorem data_plane_credential_exact `{HmacSha256} pepper binding :
  pepper ≠ EmptyString →
  ∃ credential hash,
    deriveDataPlaneCredential pepper binding = Some credential ∧
    is_uuid_v4 credential = true ∧
    hashDataPlaneCredential pepper credential = Some hash ∧ is_sha256_hex hash = true ∧
    (∀ storedHash, verifyDataPlaneCredentialHash pepper credential storedHash =
                   Some (bool_decide (storedHash = hash))) ∧
    (∀ binding', binding_nul_free binding → binding_nul_free binding' →
       hmac_message "credential:v1" (binding_material binding) =
       hmac_message "credential:v1" (binding_material binding') → binding = binding') ∧
    (∀ text, hmac_message "credential:v1" (binding_material binding) ≠
             hmac_message "verifier:v1" text).
Proof.
  intros Hp. unfold deriveDataPlaneCredential, hashDataPlaneCredential,
    verifyDataPlaneCredentialHash, hashDataPlaneCredential.
  setoid_rewrite hmac_present; [|done..]. simpl. do 2 eexists. split_and!; [done| |done| | | |].
  - apply format_uuid_v4.
    + rewrite length_take, hmac_length. done.
    + apply Forall_take, hmac_bytes.
  - apply hash_hex.
  - intros stored. rewrite from_to_hex by apply hmac_bytes. f_equal.
    destruct (is_sha256_hex stored) eqn:Hs.
    + rewrite andb_true_r. unfold is_sha256_hex in Hs.
      apply andb_prop in Hs as [Hlen%Nat.eqb_eq Hhex].
      apply bool_decide_ext. split; [intros Heq|intros ->].
      * rewrite Heq. symmetry. by apply (to_from_hex 32).
      * symmetry. apply from_to_hex, hmac_bytes.
    + rewrite andb_false_r. symmetry. apply bool_decide_eq_false. intros ->.
      by rewrite hash_hex in Hs.
  - intros b' Hb Hb' He%hmac_message_inj. by apply binding_material_inj.
  - intros text. apply hmac_message_domain.
Qed.
End hmac.

(** A stand-in for HMAC-SHA-256. *)
Definition toy_hmac (key message : string) : list Z :=
  replicate 32 (Z.of_nat (String.length key + 7 * String.length message) mod 256).

#[export] Instance toy_hmac_sha256 : HmacSha256 toy_hmac.
Proof.
  split; [done|]. intros key message. apply Forall_replicate. apply Z.mod_pos_bound. lia.
Qed.

Lemma data_plane_credential_exact_witness :
  let pepper := "pepper"%string in
  let binding := {| b_grantId := "g1"; b_deviceId := "d1"; b_nodeId := "n1" |}%string in
  deriveDataPlaneCredential toy_hmac pepper binding =
    Some "48484848-4848-4848-8848-484848484848"%string ∧
  ∃ credential hash,
    deriveDataPlaneCredential toy_hmac pepper binding = Some credential ∧
    is_uuid_v4 credential = true ∧
    hashDataPlaneCredential toy_hmac pepper credential = Some hash ∧ is_sha256_hex hash = true ∧
    (∀ storedHash, verifyDataPlaneCredentialHash toy_hmac pepper credential storedHash =
                   Some (bool_decide (storedHash = hash))) ∧
    (∀ binding', binding_nul_free binding → binding_nul_free binding' →
       hmac_message "credential:v1" (binding_material binding) =
       hmac_message "credential:v1" (binding_material binding') → binding = binding') ∧
    (∀ text, hmac_message "credential:v1" (binding_material binding) ≠
             hmac_message "verifier:v1" text).
Proof.
  intros pepper binding. split; [vm_compute; reflexivity|].
  apply (data_plane_credential_exact toy_hmac). done.
Defined.
