(* ===== verification/AccessPolicy.v ===== *)
(** * Who may connect: [packages/orchestration-store/src/access-policy.ts]
    and [apps/api/src/orchestration/node-access-control.ts]

    The predicates the subscription feed and the orchestration services decide
    by, on the rows of the control-plane database. *)

From S2P Require Import Prelude.
From S2P Require Import NodeSyncStore.
From S2P Require Import NodeAgentContract.
From S2P Require Import ControlPlane.
Open Scope Z_scope.

(** ** Access policy *)

Definition effectiveSubscriptionStatus (status : SubscriptionStatus) (expiresAt : option Z)
    (databaseTime : Z) : SubscriptionStatus :=
  if bool_decide (status = SUB_ACTIVE) &&
     match expiresAt with None => true | Some e => e <=? databaseTime end
  then SUB_EXPIRED else status.

Definition hasEntitlement (deviceStatus : DeviceStatus) (status : SubscriptionStatus)
    (expiresAt : option Z) (databaseTime : Z) : bool :=
  bool_decide (deviceStatus = DEVICE_ACTIVE) &&
  bool_decide (effectiveSubscriptionStatus status expiresAt databaseTime = SUB_ACTIVE).

Definition isGrantConverged (status : GrantStatus)
    (expiresAt desiredVersion appliedVersion databaseTime : Z) : bool :=
  bool_decide (status = GRANT_ACTIVE) && (databaseTime <? expiresAt) &&
  (appliedVersion =? desiredVersion).

Definition isRouteReady (hasEntitlement grantConverged : bool) (nodeStatus : NodeStatus)
    (routeActive : bool) (routeActivationVersion : option Z) (nodeAppliedVersion : Z) : bool :=
  hasEntitlement && grantConverged && bool_decide (nodeStatus = NODE_HEALTHY) && routeActive &&
  match routeActivationVersion with None => false | Some v => v <=? nodeAppliedVersion end.

(** ** Node access control *)

Definition NODE_ACCESS_CONTROL_STATUSES : list NodeStatus :=
  [NODE_HEALTHY; NODE_DRAINING; NODE_DISABLED].
Definition NODE_AGENT_AUTH_STATUSES : list NodeStatus :=
  NODE_ACCESS_CONTROL_STATUSES ++ [NODE_QUARANTINED].
Definition NODE_EMERGENCY_QUARANTINE_SOURCE_STATUSES : list NodeStatus :=
  [NODE_HEALTHY; NODE_DRAINING; NODE_DISABLED].

Definition isNodeInAccessControlSync (status : NodeStatus) : bool :=
  bool_decide (status ∈ NODE_ACCESS_CONTROL_STATUSES).
Definition isNodeAgentAuthAllowed (status : NodeStatus) : bool :=
  bool_decide (status ∈ NODE_AGENT_AUTH_STATUSES).
Definition isNodeEligibleForNewAssignment (status : NodeStatus) : bool :=
  bool_decide (status = NODE_HEALTHY).
Definition isNodeEligibleForEmergencyQuarantine (status : NodeStatus) : bool :=
  bool_decide (status ∈ NODE_EMERGENCY_QUARANTINE_SOURCE_STATUSES).

(** ** Facts *)

Lemma effective_active status expiresAt t :
  effectiveSubscriptionStatus status expiresAt t = SUB_ACTIVE ↔
  status = SUB_ACTIVE ∧ ∃ e, expiresAt = Some e ∧ t < e.
Proof.
  unfold effectiveSubscriptionStatus.
  destruct (bool_decide_reflect (status = SUB_ACTIVE)) as [->|Hne], expiresAt as [e|]; simpl.
  - destruct (Z.leb_spec e t); naive_solver lia.
  - naive_solver.
  - naive_solver.
  - naive_solver.
Qed.

Lemma isGrantConverged_spec status e d a t :
  isGrantConverged status e d a t = true ↔ status = GRANT_ACTIVE ∧ t < e ∧ a = d.
Proof.
  unfold isGrantConverged. rewrite !andb_true_iff, bool_decide_eq_true, Z.ltb_lt, Z.eqb_eq. tauto.
Qed.

Lemma isRouteReady_spec en gc st act v applied :
  isRouteReady en gc st act v applied = true ↔
  en = true ∧ gc = true ∧ st = NODE_HEALTHY ∧ act = true ∧ ∃ a, v = Some a ∧ a ≤ applied.
Proof.
  unfold isRouteReady. rewrite !andb_true_iff, bool_decide_eq_true.
  destruct v as [a|]; rewrite ?Z.leb_le; naive_solver.
Qed.
