(* ===== verification/ControlPlaneInvariant.v ===== *)
(** * The invariant of the control-plane database

    What every committed state of the database satisfies beyond its CHECK
    constraints, and how states evolve.  Inside a transaction a row may wait
    for the statement that completes it: the invariant is relative to a set of
    exempt rows, empty between transactions.  Each statement of
    ControlPlane.v has one lemma. *)

From S2P Require Import Prelude.
From S2P Require Import Json.
From S2P Require Import Sql.
From S2P Require Import OutboxStore.
From S2P Require Import NodeSyncStore.
From S2P Require Import NodeAgentContract.
From S2P Require Import ControlPlane.
Open Scope Z_scope.

(** Acknowledgements whose version the node row does not show yet, revoked
    devices whose grants are not revoked yet, jobs without their event. *)
Record Exempt := { x_ack : string → Prop; x_device : string → Prop; x_job : string → Prop }.
Definition nothing : Exempt :=
  {| x_ack := λ _, False; x_device := λ _, False; x_job := λ _, False |}.

Definition grant_ok (nodes : Table Node) (g : NodeAccessGrant) : Prop :=
  grant_checks g = true ∧
  ∃ n, nodes !! gr_nodeId g = Some n ∧
    1 ≤ gr_desiredVersion g ≤ n_desiredConfigVersion n ∧
    gr_appliedVersion g ≤ n_appliedConfigVersion n ∧
    (n_status n = NODE_QUARANTINED → gr_status g = GRANT_REVOKED) ∧
    (gr_status g = GRANT_ACTIVE → 1 ≤ gr_appliedVersion g) ∧
    (gr_status g = GRANT_REVOKED ∨ gr_revokedAt g = None).

(** A live grant belongs to an active device. *)
Definition owner_ok (X : Exempt) (devices : Table Device) (g : NodeAccessGrant) : Prop :=
  ∃ d, devices !! gr_deviceId g = Some d ∧
    (dv_status d = DEVICE_REVOKED → gr_status g = GRANT_REVOKED ∨ x_device X (gr_deviceId g)).

Definition job_ok (nodes : Table Node) (id : string) (j : NodeSyncJob) : Prop :=
  job_checks j = true ∧ j_id j = id ∧
  ∃ n, nodes !! j_nodeId j = Some n ∧ 1 ≤ j_targetVersion j ≤ n_desiredConfigVersion n.

(** The transactional outbox: the job's event, with the exact command. *)
Definition announced (eventKeys : Table EventKey) (events : Table OutboxEvent)
    (id : string) (j : NodeSyncJob) : Prop :=
  ∃ r key k e, job_resource_is r j = true ∧ eventKeys !! key = Some k ∧
    events !! ek_id k = Some e ∧ oe_topic e = "node-sync.requested"%string ∧
    oe_payload e = encode_command {| cmd_resource := r; cmd_nodeSyncJobId := id;
                                     cmd_targetVersion := j_targetVersion j |}.

Definition delivery_ok (jobs : Table NodeSyncJob) (k : string * string) (d : NodeConfigDelivery)
    : Prop :=
  is_sha256_hex k.2 = true ∧
  ∃ j, jobs !! k.1 = Some j ∧ j_nodeId j = nd_nodeId d ∧ j_targetVersion j = nd_targetVersion d.

Definition ack_ok (X : Exempt) (db : Db) (job : string) (a : NodeConfigAcknowledgement) : Prop :=
  (∃ j, db_jobs db !! job = Some j ∧ j_status j = JOB_SUCCEEDED ∧
     j_nodeId j = na_nodeId a ∧ j_targetVersion j = na_targetVersion a) ∧
  is_Some (db_deliveries db !! (job, na_snapshotHash a)) ∧
  (x_ack X job ∨ ∃ n, db_nodes db !! na_nodeId a = Some n ∧
                      na_targetVersion a ≤ n_appliedConfigVersion n).

(** The applied version is the version of an acknowledgement. *)
Definition applied_ok (acks : Table NodeConfigAcknowledgement) (id : string) (n : Node) : Prop :=
  n_appliedConfigVersion n = 0 ∨
  ∃ job a, acks !! job = Some a ∧ na_nodeId a = id ∧ na_targetVersion a = n_appliedConfigVersion n.

Definition route_ok (db : Db) (k : string * string) (r : RouteColumns) : Prop :=
  ∃ n en pr, db_nodes db !! rc_nodeId r = Some n ∧
    db_endpoints db !! k.1 = Some en ∧ en_nodeId en = rc_nodeId r ∧
    db_profiles db !! k.2 = Some pr ∧ cp_nodeId pr = rc_nodeId r ∧
    0 ≤ rc_lastActivationVersion r ≤ n_desiredConfigVersion n ∧
    ∀ v, rc_activationVersion r = Some v →
      v = rc_lastActivationVersion r ∧ 1 ≤ v ∧ n_status n = NODE_HEALTHY ∧
      en_status en = MATERIAL_ACTIVE ∧ cp_status pr = MATERIAL_ACTIVE ∧
      is_Some (db_publicConfigs db !! k.2) ∧
      ∃ id j, db_jobs db !! id = Some j ∧ j_nodeId j = rc_nodeId r ∧
        job_resource_is (RouteResource k.1 k.2) j = true ∧ j_targetVersion j = v.

Record Inv (X : Exempt) (db : Db) : Prop := {
  iv_nodes : map_Forall (λ _ n, node_checks n = true) (db_nodes db);
  iv_applied : map_Forall (applied_ok (db_acks db)) (db_nodes db);
  iv_grants : map_Forall (λ _, grant_ok (db_nodes db)) (db_grants db);
  iv_owners : map_Forall (λ _, owner_ok X (db_devices db)) (db_grants db);
  iv_pairs : ∀ id1 id2 g1 g2, db_grants db !! id1 = Some g1 → db_grants db !! id2 = Some g2 →
    gr_nodeId g1 = gr_nodeId g2 → gr_deviceId g1 = gr_deviceId g2 → id1 = id2;
  iv_jobs : map_Forall (job_ok (db_nodes db)) (db_jobs db);
  iv_unique : ∀ id1 id2 j1 j2, db_jobs db !! id1 = Some j1 → db_jobs db !! id2 = Some j2 →
    j_nodeId j1 = j_nodeId j2 → j_targetVersion j1 = j_targetVersion j2 → id1 = id2;
  iv_announced : map_Forall (λ id j, x_job X id ∨ announced (db_eventKeys db) (db_events db) id j)
    (db_jobs db);
  iv_deliveries : map_Forall (delivery_ok (db_jobs db)) (db_deliveries db);
  iv_acks : map_Forall (ack_ok X db) (db_acks db);
  iv_routes : map_Forall (route_ok db) (db_routes db);
}.

Lemma Inv_empty : Inv nothing empty_db.
Proof. split; try (apply map_Forall_empty); by intros id1 id2 r1 r2. Qed.

(** An active grant at its desired version: the node has acknowledged it. *)
Lemma applied_acknowledged db id g n :
  Inv nothing db → db_grants db !! id = Some g → db_nodes db !! gr_nodeId g = Some n →
  gr_status g = GRANT_ACTIVE → gr_appliedVersion g = gr_desiredVersion g →
  ∃ job a j, db_acks db !! job = Some a ∧ na_nodeId a = gr_nodeId g ∧
    db_jobs db !! job = Some j ∧ j_status j = JOB_SUCCEEDED ∧
    n_appliedConfigVersion n = na_targetVersion a ∧ gr_desiredVersion g ≤ na_targetVersion a.
Proof.
  intros Hinv Hg Hn Hst Hv.
  destruct (iv_grants _ _ Hinv _ _ Hg) as (_ & n' & Hn' & Hone & Happ & _ & Hpos & _).
  assert (n' = n) as -> by congruence.
  destruct (iv_applied _ _ Hinv _ _ Hn) as [Hz|(job & a & Hack & Hid & Htv)].
  { specialize (Hpos Hst). lia. }
  destruct (iv_acks _ _ Hinv _ _ Hack) as ((j & Hj & Hjs & _) & _).
  exists job, a, j. split_and!; try done; lia.
Qed.

(** ** How states evolve *)

(** The columns of a job that no statement changes. *)
Definition same_job (j j' : NodeSyncJob) : Prop :=
  j_id j' = j_id j ∧ j_nodeId j' = j_nodeId j ∧ j_nodeAccessGrantId j' = j_nodeAccessGrantId j ∧
  j_routeEndpointId j' = j_routeEndpointId j ∧
  j_routeConnectionProfileId j' = j_routeConnectionProfileId j ∧
  j_targetVersion j' = j_targetVersion j ∧
  (j_status j = JOB_SUCCEEDED → j_status j' = JOB_SUCCEEDED).

Definition node_le (n n' : Node) : Prop :=
  n_desiredConfigVersion n ≤ n_desiredConfigVersion n' ∧
  n_appliedConfigVersion n ≤ n_appliedConfigVersion n' ∧
  (n_status n = NODE_QUARANTINED → n_status n' = NODE_QUARANTINED).

Definition grant_le (g g' : NodeAccessGrant) : Prop :=
  gr_nodeId g' = gr_nodeId g ∧ gr_deviceId g' = gr_deviceId g ∧
  gr_desiredVersion g ≤ gr_desiredVersion g' ∧ gr_appliedVersion g ≤ gr_appliedVersion g' ∧
  (gr_status g = GRANT_REVOKED → gr_status g' = GRANT_REVOKED).

Definition device_le (d d' : Device) : Prop :=
  dv_userId d' = dv_userId d ∧ (dv_status d = DEVICE_REVOKED → dv_status d' = DEVICE_REVOKED) ∧
  dv_subscriptionTokenHash d' = dv_subscriptionTokenHash d ∧
  dv_issuanceIdempotencyKeyHash d' = dv_issuanceIdempotencyKeyHash d.

Definition same_event (e e' : OutboxEvent) : Prop :=
  oe_topic e' = oe_topic e ∧ oe_payload e' = oe_payload e.

(** Rows stay, and change only along [R]. *)
Definition rows_evolve {K A} `{Countable K} (R : A → A → Prop) (t t' : gmap K A) : Prop :=
  ∀ id r, t !! id = Some r → ∃ r', t' !! id = Some r' ∧ R r r'.

Record evolves (db db' : Db) : Prop := {
  ev_nodes : rows_evolve node_le (db_nodes db) (db_nodes db');
  ev_grants : rows_evolve grant_le (db_grants db) (db_grants db');
  ev_devices : rows_evolve device_le (db_devices db) (db_devices db');
  ev_jobs : rows_evolve same_job (db_jobs db) (db_jobs db');
  ev_events : rows_evolve same_event (db_events db) (db_events db');
  ev_jobKeys : db_jobKeys db ⊆ db_jobKeys db';
  ev_eventKeys : db_eventKeys db ⊆ db_eventKeys db';
  ev_deliveries : db_deliveries db ⊆ db_deliveries db';
  ev_acks : db_acks db ⊆ db_acks db';
  ev_audit : db_audit db `prefix_of` db_audit db';
}.

#[export] Instance node_le_preorder : PreOrder node_le.
Proof. split; [intros n|intros n1 n2 n3]; unfold node_le; naive_solver lia. Qed.
#[export] Instance grant_le_preorder : PreOrder grant_le.
Proof. split; [intros n|intros n1 n2 n3]; unfold grant_le; naive_solver (congruence || lia). Qed.
#[export] Instance device_le_preorder : PreOrder device_le.
Proof. split; [intros n|intros n1 n2 n3]; unfold device_le; naive_solver congruence. Qed.
#[export] Instance same_job_preorder : PreOrder same_job.
Proof. split; [intros n|intros n1 n2 n3]; unfold same_job; naive_solver congruence. Qed.
#[export] Instance same_event_preorder : PreOrder same_event.
Proof. split; [intros n|intros n1 n2 n3]; unfold same_event; naive_solver congruence. Qed.
#[export] Instance rows_evolve_preorder {K A} `{Countable K} (R : A → A → Prop) :
  PreOrder R → PreOrder (rows_evolve (K:=K) R).
Proof.
  intros HR. split.
  - intros t id r Hr. exists r. split; [done|reflexivity].
  - intros t1 t2 t3 H12 H23 id r Hr. destruct (H12 _ _ Hr) as (r2 & Hr2 & HR12).
    destruct (H23 _ _ Hr2) as (r3 & Hr3 & HR23). exists r3. split; [done|]. by etrans.
Qed.
#[export] Instance evolves_preorder : PreOrder evolves.
Proof.
  split.
  - intros db. split; reflexivity.
  - intros db1 db2 db3 [] []. split; by etrans.
Qed.

Lemma rows_evolve_insert {K A} `{Countable K} (R : A → A → Prop) `{!PreOrder R}
    (t : gmap K A) id r :
  (∀ old, t !! id = Some old → R old r) → rows_evolve R t (<[id := r]> t).
Proof.
  intros HR id' r' Hr'. destruct (decide (id' = id)) as [->|Hne].
  - exists r. rewrite lookup_insert_eq. eauto.
  - exists r'. rewrite lookup_insert_ne by done. split; [done|reflexivity].
Qed.

Lemma rows_evolve_lookup {K A} `{Countable K} (R : A → A → Prop) (t t' : gmap K A) id r :
  rows_evolve R t t' → t !! id = Some r → ∃ r', t' !! id = Some r' ∧ R r r'.
Proof. intros H1 H2. by apply H1. Qed.

(** ** Lookups through the constraint checks *)

Lemma exists_row_true {K A} `{Countable K} (p : A → bool) (t : gmap K A) :
  exists_row p t = true ↔ ∃ id r, t !! id = Some r ∧ p r = true.
Proof.
  unfold exists_row. rewrite existsb_exists. split.
  - intros (r & Hr%list_elem_of_In & Hp). apply list_elem_of_fmap in Hr as ([id r'] & -> & Hr).
    apply elem_of_map_to_list in Hr. eauto.
  - intros (id & r & Hr & Hp). exists r. split; [|done]. apply list_elem_of_In, list_elem_of_fmap.
    exists (id, r). split; [done|]. by apply elem_of_map_to_list.
Qed.

Lemma exists_row_false {K A} `{Countable K} (p : A → bool) (t : gmap K A) :
  exists_row p t = false ↔ ∀ id r, t !! id = Some r → p r = false.
Proof.
  rewrite <- not_true_iff_false, exists_row_true. split.
  - intros Hn id r Hr. apply not_true_iff_false. intros Hp. apply Hn. eauto.
  - intros Ha (id & r & Hr & Hp). rewrite (Ha id r Hr) in Hp. done.
Qed.

Lemma implies_spec a b : implies a b = true ↔ (a = true → b = true).
Proof. destruct a, b; simpl; naive_solver. Qed.

Lemma is_null_false {A} (o : option A) : is_null o = false ↔ is_Some o.
Proof. destruct o; simpl; split; try done; by intros [? ?]. Qed.

Lemma is_null_true {A} (o : option A) : is_null o = true ↔ o = None.
Proof. by destruct o. Qed.

Lemma node_checks_spec n :
  node_checks n = true ↔ 0 ≤ n_appliedConfigVersion n ≤ n_desiredConfigVersion n.
Proof. unfold node_checks. rewrite !andb_true_iff, !Z.leb_le. lia. Qed.

Lemma grant_checks_spec g :
  grant_checks g = true ↔
  0 ≤ gr_appliedVersion g ≤ gr_desiredVersion g ∧
  (gr_status g = GRANT_REVOKED → is_Some (gr_revokedAt g)) ∧
  (gr_status g = GRANT_ACTIVE → gr_revokedAt g = None) ∧
  (∀ v, gr_dataPlaneCredentialDerivationVersion g = Some v → 0 < v).
Proof.
  unfold grant_checks. rewrite !andb_true_iff, !Z.leb_le, !implies_spec, !bool_decide_eq_true,
    negb_true_iff, is_null_false, is_null_true.
  destruct (gr_dataPlaneCredentialDerivationVersion g); rewrite ?Z.ltb_lt; naive_solver lia.
Qed.

(** ** The statements *)

(** The state is taken apart so that the columns a statement leaves alone
    compute to themselves. *)
Ltac db_cases db := destruct db; simpl in *.

(** The unchanged components of [Inv] and [evolves]. *)
Ltac cols db := db_cases db; split; split; try assumption; try done; try reflexivity.

(** *** [node.update] *)

Definition node_written (id : string) (old new : Node) (db : Db) : Db :=
  let db1 := set_nodes <[id := new]> db in
  if bool_decide (n_status new = n_status old) then db1
  else close_routes (λ _ r, bool_decide (rc_nodeId r = id)) db1.

Lemma node_update_ok id data db n db' :
  node_update id data db = (Ok n, db') →
  ∃ old, db_nodes db !! id = Some old ∧ n = data old ∧
    int4 (n_desiredConfigVersion n) = true ∧ node_update_refused db id old n = false ∧
    node_checks n = true ∧ db' = node_written id old n db.
Proof.
  unfold node_update. intros H. ok_inv H.
  destruct (db_nodes _ !! id) as [old|] eqn:Hold; [|discriminate H].
  ok_inv H. exists old. apply negb_false_iff, andb_prop in Hguard as [? ?].
  apply negb_false_iff in Hguard1.
  apply when_ok_inv in Hrun as [[Hb Hrun]|[Hb ->]]; unfold node_written.
  - ok_inv Hrun. apply negb_true_iff in Hb. rewrite Hb. done.
  - apply negb_false_iff in Hb. rewrite Hb. done.
Qed.

Lemma close_routes_lookup p db k :
  db_routes (close_routes p db) !! k =
    (λ r, if p k r then close_route r else r) <$> db_routes db !! k.
Proof.
  db_cases db. rewrite map_lookup_imap. by destruct (_ !! k).
Qed.

Lemma node_written_nodes id old new db :
  db_nodes (node_written id old new db) = <[id := new]> (db_nodes db).
Proof. unfold node_written. db_cases db. by destruct (bool_decide _). Qed.

(** What a node update may do: its versions grow, a quarantine stays, and the
    applied version is the version of an acknowledgement. *)
Definition sound_node_update (db : Db) (id : string) (old new : Node) : Prop :=
  n_desiredConfigVersion old ≤ n_desiredConfigVersion new ∧
  (n_status old = NODE_QUARANTINED → n_status new = NODE_QUARANTINED) ∧
  (n_appliedConfigVersion new = n_appliedConfigVersion old ∨
   applied_ok (db_acks db) id new).

Lemma node_update_refused_false db id old new :
  node_update_refused db id old new = false →
  n_appliedConfigVersion old ≤ n_appliedConfigVersion new ∧
  (n_status new = NODE_HEALTHY → n_status old ≠ NODE_HEALTHY →
   n_desiredConfigVersion new ≤ n_appliedConfigVersion new) ∧
  (n_status new = NODE_QUARANTINED → n_status old ≠ NODE_QUARANTINED →
   ∀ gid g, db_grants db !! gid = Some g → gr_nodeId g = id → gr_status g = GRANT_REVOKED).
Proof.
  unfold node_update_refused. rewrite !orb_false_iff. intros [[[H1%Z.ltb_ge _] H3] H4].
  split_and!; [done| |].
  - intros Hn Ho. rewrite bool_decide_eq_true_2, bool_decide_eq_false_2 in H3 by done.
    simpl in H3. apply Z.ltb_ge in H3. lia.
  - intros Hn Ho gid g Hg Hid. rewrite bool_decide_eq_true_2, bool_decide_eq_false_2 in H4 by done.
    simpl in H4. rewrite exists_row_false in H4. specialize (H4 gid g Hg).
    rewrite bool_decide_eq_true_2 in H4 by done. unfold live in H4. simpl in H4.
    by apply negb_false_iff, bool_decide_eq_true in H4.
Qed.

(** A row that looks up the updated node finds it, or an untouched one. *)
Lemma updated_node (nodes : Table Node) id new old nid n :
  nodes !! id = Some old → nodes !! nid = Some n →
  ∃ n', <[id := new]> nodes !! nid = Some n' ∧ ((nid = id ∧ n = old ∧ n' = new) ∨ n' = n).
Proof.
  intros Hold Hn. destruct (decide (nid = id)) as [->|Hne].
  - exists new. rewrite lookup_insert_eq. split; [done|]. left. naive_solver.
  - exists n. rewrite lookup_insert_ne by done. auto.
Qed.

Section node_row.
Context (X : Exempt) (db : Db) (id : string) (old new : Node).
Context (Hinv : Inv X db) (Hold : db_nodes db !! id = Some old).
Context (Happ : n_appliedConfigVersion old ≤ n_appliedConfigVersion new).
Context (Hsound : sound_node_update db id old new).
Context (Hquar : n_status new = NODE_QUARANTINED → n_status old ≠ NODE_QUARANTINED →
   ∀ gid g, db_grants db !! gid = Some g → gr_nodeId g = id → gr_status g = GRANT_REVOKED).
Let nodes' := <[id := new]> (db_nodes db).

Lemma node_row_applied : map_Forall (applied_ok (db_acks db)) nodes'.
Proof using All.
  destruct Hsound as (_ & _ & Hack). apply map_Forall_insert_2; [|apply Hinv].
  destruct Hack as [Heq|]; [|done]. unfold applied_ok. rewrite Heq.
  by apply (iv_applied _ _ Hinv).
Qed.

Lemma node_row_grants : map_Forall (λ _, grant_ok nodes') (db_grants db).
Proof using All.
  destruct Hsound as (Hdes & Hq & _).
  intros gid g Hg. pose proof (iv_grants _ _ Hinv gid g Hg) as (Hc & n & Hn & H1 & H2 & H3 & H4 & H5).
  split; [done|]. destruct (updated_node _ id new old _ n Hold Hn) as (n' & Hn' & [(Hid & -> & ->)| ->]).
  - exists new. split_and!; [done|lia|lia|lia| |done|done]. intros Hnew.
    destruct (decide (n_status old = NODE_QUARANTINED)) as [Hst|Hst]; [by apply H3|].
    by eapply Hquar.
  - by exists n.
Qed.

Lemma node_row_jobs : map_Forall (job_ok nodes') (db_jobs db).
Proof using All.
  destruct Hsound as (Hdes & _ & _).
  intros jid j Hj. pose proof (iv_jobs _ _ Hinv jid j Hj) as (Hc & Hid & n & Hn & H1).
  split_and!; [done..|].
  destruct (updated_node _ id new old _ n Hold Hn) as (n' & Hn' & [(_ & -> & ->)| ->]);
    eexists; (split; [done|lia]).
Qed.

Lemma node_row_ack job a :
  db_acks db !! job = Some a →
  x_ack X job ∨ ∃ n, nodes' !! na_nodeId a = Some n ∧ na_targetVersion a ≤ n_appliedConfigVersion n.
Proof using All.
  intros Ha. destruct (iv_acks _ _ Hinv job a Ha) as (_ & _ & [|(n & Hn & Hle)]); [by left|right].
  destruct (updated_node _ id new old _ n Hold Hn) as (n' & Hn' & [(_ & -> & ->)| ->]);
    eexists; (split; [done|lia]).
Qed.

Lemma node_row_evolve : rows_evolve node_le (db_nodes db) nodes'.
Proof using All.
  destruct Hsound as (Hdes & Hq & _). apply rows_evolve_insert; [apply _|].
  intros old' Hold'. assert (old' = old) as -> by congruence. done.
Qed.

(** A route of another node, or of this one under an unchanged status. *)
Lemma node_row_route k r :
  db_routes db !! k = Some r → (rc_nodeId r = id → n_status new = n_status old) →
  route_ok (set_nodes (λ _, nodes') db) k r.
Proof using All.
  destruct Hsound as (Hdes & _ & _).
  intros Hr Hst. destruct (iv_routes _ _ Hinv k r Hr)
    as (n & en & pr & Hn & He & Hen & Hp & Hpn & Hlast & Hact).
  destruct (updated_node _ id new old _ n Hold Hn) as (n' & Hn' & Hcase).
  exists n', en, pr. db_cases db. split_and!; try done; try lia.
  - destruct Hcase as [(_ & -> & ->)| ->]; lia.
  - intros v Hv. destruct (Hact v Hv) as (? & ? & Hh & ?). split_and!; try tauto.
    destruct Hcase as [(Hid & -> & ->)| ->]; [|done]. by rewrite Hst.
Qed.

(** Its closed routes need nothing of the node's status. *)
Lemma node_row_closed k r :
  db_routes db !! k = Some r → route_ok (set_nodes (λ _, nodes') db) k (close_route r).
Proof using All.
  destruct Hsound as (Hdes & _ & _).
  intros Hr. destruct (iv_routes _ _ Hinv k r Hr)
    as (n & en & pr & Hn & He & Hen & Hp & Hpn & Hlast & Hact).
  destruct (updated_node _ id new old _ n Hold Hn) as (n' & Hn' & Hcase).
  exists n', en, pr. db_cases db. split_and!; try done; try lia.
  destruct Hcase as [(_ & -> & ->)| ->]; lia.
Qed.
End node_row.

Lemma node_written_inv X id old new db :
  Inv X db → db_nodes db !! id = Some old → node_checks new = true →
  node_update_refused db id old new = false → sound_node_update db id old new →
  Inv X (node_written id old new db) ∧ evolves db (node_written id old new db).
Proof.
  intros Hinv Hold Hck (Happ & _ & Hquar)%node_update_refused_false Hs.
  pose proof (node_row_applied X db id old new Hinv Hold Happ Hs Hquar) as Happlied.
  pose proof (node_row_grants X db id old new Hinv Hold Happ Hs Hquar) as Hgrants.
  pose proof (node_row_jobs X db id old new Hinv Hold Happ Hs Hquar) as Hjobs.
  pose proof (node_row_ack X db id old new Hinv Hold Happ Hs Hquar) as Hacks.
  pose proof (node_row_evolve X db id old new Hinv Hold Happ Hs Hquar) as Hev.
  pose proof (node_row_route X db id old new Hinv Hold Happ Hs Hquar) as Hroute.
  pose proof (node_row_closed X db id old new Hinv Hold Happ Hs Hquar) as Hclosed.
  destruct Hinv as [Hn _ _ Ho Hpa _ Hu Han Hd Ha _].
  assert (Hnodes : map_Forall (λ _ n, node_checks n = true) (<[id := new]> (db_nodes db)))
    by (by apply map_Forall_insert_2).
  assert (Hacks' : map_Forall (ack_ok X (set_nodes (λ _, <[id := new]> (db_nodes db)) db)) (db_acks db)).
  { intros job a Hja. destruct (Ha job a Hja) as (H1 & H2 & _). specialize (Hacks job a Hja).
    db_cases db. by split_and!. }
  unfold node_written. destruct (bool_decide_reflect (n_status new = n_status old)) as [Hst|Hst].
  - assert (Hr : map_Forall (route_ok (set_nodes (λ _, <[id := new]> (db_nodes db)) db)) (db_routes db))
      by (intros k r Hr; apply Hroute; auto).
    cols db.
  - assert (Hr : map_Forall (route_ok (set_nodes (λ _, <[id := new]> (db_nodes db)) db))
        (db_routes (close_routes (λ _ r, bool_decide (rc_nodeId r = id)) db))).
    { intros k r. rewrite close_routes_lookup. intros (r0 & Hr0 & ->)%fmap_Some.
      case_bool_decide; [by apply Hclosed|]. apply Hroute; [done|]. intros; done. }
    cols db.
Qed.

(** *** Statements that leave these columns alone *)

Lemma drawn_inv X db : Inv X db → Inv X (set_drawn S db) ∧ evolves db (set_drawn S db).
Proof. intros []. cols db. Qed.

Lemma audit_ok actor action entityType entityId metadata db u db' :
  audit actor action entityType entityId metadata db = (Ok u, db') →
  ∃ l, db' = set_audit (λ a, a ++ l) db.
Proof. unfold audit. intros H. ok_inv H. eauto. Qed.

Lemma audit_inv X l db : Inv X db →
  Inv X (set_audit (λ a, a ++ l) db) ∧ evolves db (set_audit (λ a, a ++ l) db).
Proof. intros []. cols db. by apply prefix_app_r. Qed.

(** *** [device.update] *)

Lemma device_update_ok id data db u db' :
  device_update id data db = (Ok u, db') →
  ∃ old, db_devices db !! id = Some old ∧ device_checks (data old) = true ∧
    db' = set_devices <[id := data old]> db.
Proof.
  unfold device_update. intros H. ok_inv H.
  destruct (db_devices _ !! id) as [old|] eqn:Hold; [|discriminate H]. ok_inv H.
  exists old. split_and!; [done| |done]. by apply negb_false_iff.
Qed.

(** The device's grants must now follow a revocation. *)
Definition exempt_device (id : string) (X : Exempt) : Exempt :=
  {| x_ack := x_ack X; x_device := λ d, d = id ∨ x_device X d; x_job := x_job X |}.

Lemma device_written_inv X id old new db :
  Inv X db → db_devices db !! id = Some old → device_le old new →
  Inv (exempt_device id X) (set_devices <[id := new]> db) ∧
  evolves db (set_devices <[id := new]> db).
Proof.
  intros [] Hold Hle.
  assert (Ho : map_Forall (λ _, owner_ok (exempt_device id X) (<[id := new]> (db_devices db)))
            (db_grants db)).
  { intros gid g Hg. destruct (iv_owners0 gid g Hg) as (d & Hd & Hr). unfold owner_ok.
    destruct (decide (gr_deviceId g = id)) as [->|Hne].
    - exists new. rewrite lookup_insert_eq. simpl. auto.
    - exists d. rewrite lookup_insert_ne by done. simpl. split; [done|]. naive_solver. }
  assert (He : rows_evolve device_le (db_devices db) (<[id := new]> (db_devices db))).
  { apply rows_evolve_insert; [apply _|]. intros old' Ho'. by assert (old' = old) as -> by congruence. }
  cols db.
Qed.

(** Once none of them is live, the device is no exception. *)
Lemma device_settled X id db :
  Inv (exempt_device id X) db →
  (∀ gid g, db_grants db !! gid = Some g → gr_deviceId g = id → gr_status g = GRANT_REVOKED) →
  Inv X db.
Proof.
  intros [] Hrev. split; try done.
  intros gid g Hg. destruct (iv_owners0 gid g Hg) as (d & Hd & Hr). exists d. split; [done|].
  intros Hst. destruct (Hr Hst) as [?|[Hid|?]]; [by left| |by right]. left. eauto.
Qed.

(** *** [nodeAccessGrant.create] *)

Lemma grant_create_ok id g db u db' :
  grant_create id g db = (Ok u, db') →
  grant_checks g = true ∧ db_grants db !! id = None ∧ live_on_quarantined db g = false ∧
  (∀ gid g', db_grants db !! gid = Some g' → gr_nodeId g' = gr_nodeId g →
     gr_deviceId g' ≠ gr_deviceId g) ∧
  is_Some (db_devices db !! gr_deviceId g) ∧
  db' = set_grants <[id := g]> db.
Proof.
  unfold grant_create. intros H. ok_inv H.
  apply negb_false_iff in Hguard0. apply orb_false_iff in Hguard1 as [H1%negb_false_iff H2].
  apply orb_false_iff in Hguard2 as [_ H3%is_null_false]. apply is_null_true in H1.
  split_and!; try done. intros gid g' Hg' Hn Hd.
  rewrite exists_row_false in H2. specialize (H2 gid g' Hg').
  rewrite !bool_decide_eq_true_2 in H2 by done. done.
Qed.

Lemma grant_created_inv X id g n d db :
  Inv X db → grant_checks g = true → db_grants db !! id = None →
  live_on_quarantined db g = false →
  db_nodes db !! gr_nodeId g = Some n → 1 ≤ gr_desiredVersion g ≤ n_desiredConfigVersion n →
  gr_appliedVersion g = 0 → gr_status g = GRANT_PENDING →
  (∀ gid g', db_grants db !! gid = Some g' → gr_nodeId g' = gr_nodeId g →
     gr_deviceId g' ≠ gr_deviceId g) →
  gr_revokedAt g = None → db_devices db !! gr_deviceId g = Some d → dv_status d = DEVICE_ACTIVE →
  Inv X (set_grants <[id := g]> db) ∧ evolves db (set_grants <[id := g]> db).
Proof.
  intros [] Hck Hnew Hq Hn Hle Happ Hst Hpair Hrv Hd Hact.
  assert (Hnck : node_checks n = true) by (by apply iv_nodes0 in Hn).
  apply node_checks_spec in Hnck.
  assert (Hg : map_Forall (λ _, grant_ok (db_nodes db)) (<[id := g]> (db_grants db))).
  { apply map_Forall_insert_2; [|done]. split; [done|]. exists n.
    split_and!; [done|lia|lia|lia| |by rewrite Hst|by right].
    intros Hqu. unfold live_on_quarantined, live in Hq. rewrite Hn, Hst, Hqu in Hq. done. }
  assert (Ho : map_Forall (λ _, owner_ok X (db_devices db)) (<[id := g]> (db_grants db))).
  { apply map_Forall_insert_2; [|done]. exists d. split; [done|]. by rewrite Hact. }
  assert (He : rows_evolve grant_le (db_grants db) (<[id := g]> (db_grants db))).
  { apply rows_evolve_insert; [apply _|]. intros old Hold. congruence. }
  assert (Hp : ∀ id1 id2 g1 g2, <[id := g]> (db_grants db) !! id1 = Some g1 →
    <[id := g]> (db_grants db) !! id2 = Some g2 → gr_nodeId g1 = gr_nodeId g2 →
    gr_deviceId g1 = gr_deviceId g2 → id1 = id2).
  { intros id1 id2 g1 g2 [[<- <-]|[_ H1]]%lookup_insert_Some
      [[<- <-]|[_ H2]]%lookup_insert_Some Hno Hde;
      [done|exfalso; by eapply Hpair|exfalso; by eapply Hpair|eauto]. }
  cols db.
Qed.

(** *** [nodeAccessGrant.update] *)

Definition written_grants (p : string → NodeAccessGrant → bool)
    (data : NodeAccessGrant → NodeAccessGrant) (t : Table NodeAccessGrant) : Table NodeAccessGrant :=
  map_imap (λ id g, Some (if p id g then data g else g)) t.

Lemma written_grants_lookup p data t id :
  written_grants p data t !! id = (λ g, if p id g then data g else g) <$> t !! id.
Proof. unfold written_grants. rewrite map_lookup_imap. by destruct (t !! id). Qed.

Lemma grants_update_ok sets p data db u db' :
  grants_update sets p data db = (Ok u, db') →
  (∀ id g, db_grants db !! id = Some g → p id g = true → grant_checks (data g) = true) ∧
  db' = set_grants (written_grants p data) db.
Proof.
  unfold grants_update. intros H. ok_inv H. split; [|done].
  intros id g Hg Hp. rewrite exists_row_false in Hguard0.
  apply negb_false_iff. apply (Hguard0 id). by apply map_lookup_filter_Some.
Qed.

(** What an update may do to a grant of a node. *)
Definition sound_grant_update (n : Node) (g g' : NodeAccessGrant) : Prop :=
  grant_le g g' ∧ gr_desiredVersion g' ≤ n_desiredConfigVersion n ∧
  gr_appliedVersion g' ≤ n_appliedConfigVersion n ∧
  (gr_status g' = GRANT_ACTIVE → 1 ≤ gr_appliedVersion g') ∧
  (gr_status g' = GRANT_REVOKED ∨ gr_revokedAt g' = gr_revokedAt g).

Lemma grants_written_inv X p data db :
  Inv X db →
  (∀ id g n, db_grants db !! id = Some g → p id g = true →
     db_nodes db !! gr_nodeId g = Some n →
     grant_checks (data g) = true ∧ sound_grant_update n g (data g)) →
  Inv X (set_grants (written_grants p data) db) ∧ evolves db (set_grants (written_grants p data) db).
Proof.
  intros [] Hs.
  assert (Hcase : ∀ id g', written_grants p data (db_grants db) !! id = Some g' →
    ∃ g n, db_grants db !! id = Some g ∧ db_nodes db !! gr_nodeId g = Some n ∧
      grant_checks g' = true ∧ sound_grant_update n g g').
  { intros id g'. rewrite written_grants_lookup. intros (g & Hg & ->)%fmap_Some.
    destruct (iv_grants0 id g Hg) as (Hc & n & Hn & H1 & H2 & H3 & H4 & H5).
    exists g, n. destruct (p id g) eqn:Hp.
    - by destruct (Hs id g n Hg Hp Hn).
    - split; [done|]. split; [done|]. split; [done|]. split; [reflexivity|]. split_and!; auto; lia. }
  assert (Hgs : map_Forall (λ _, grant_ok (db_nodes db)) (written_grants p data (db_grants db))).
  { intros id g' (g & n & Hg & Hn & Hc & ((Hni & _ & Hdd & _ & Hrev) & Hd & Ha & Hact & Hat))%Hcase.
    destruct (iv_grants0 id g Hg) as (_ & n' & Hn' & Hone & _ & H3 & _ & H5).
    assert (n' = n) as -> by congruence.
    split; [done|]. exists n. rewrite Hni. split_and!; auto; [lia|].
    destruct Hat as [|Hat]; [by left|]. rewrite Hat. destruct H5; auto. }
  assert (Hos : map_Forall (λ _, owner_ok X (db_devices db)) (written_grants p data (db_grants db))).
  { intros id g' (g & n & Hg & Hn & Hc & ((_ & Hdi & _ & _ & Hrev) & _))%Hcase.
    destruct (iv_owners0 id g Hg) as (d & Hd & Hr). exists d. rewrite Hdi. split; [done|].
    intros Hst. destruct (Hr Hst); auto. }
  assert (He : rows_evolve grant_le (db_grants db) (written_grants p data (db_grants db))).
  { intros id g Hg. exists (if p id g then data g else g).
    rewrite written_grants_lookup, Hg. split; [done|].
    destruct (iv_grants0 id g Hg) as (_ & n & Hn & _).
    destruct (p id g) eqn:Hp; [|reflexivity]. by destruct (Hs id g n Hg Hp Hn) as (_ & ? & _). }
  assert (Hpairs : ∀ id1 id2 g1 g2, written_grants p data (db_grants db) !! id1 = Some g1 →
    written_grants p data (db_grants db) !! id2 = Some g2 → gr_nodeId g1 = gr_nodeId g2 →
    gr_deviceId g1 = gr_deviceId g2 → id1 = id2).
  { intros id1 id2 g1' g2' (g1 & n1 & Hg1 & _ & _ & (Hn1 & Hd1 & _) & _)%Hcase
      (g2 & n2 & Hg2 & _ & _ & (Hn2 & Hd2 & _) & _)%Hcase Hn Hd.
    eapply (iv_pairs0 id1 id2 g1 g2); congruence. }
  cols db.
Qed.

(** *** [nodeSyncJob.create] and [outboxEvent.create] *)

Definition exempt_job (id : string) (X : Exempt) : Exempt :=
  {| x_ack := x_ack X; x_device := x_device X; x_job := λ j, j = id ∨ x_job X j |}.

Lemma job_create_ok uuid nodeId r target key now db id db' :
  job_create uuid nodeId r target key now db = (Ok id, db') →
  let job := new_job id nodeId r target now in
  db_jobs db !! id = None ∧ db_jobKeys db !! key = None ∧ job_checks job = true ∧
  db' = set_jobKeys <[key := id]> (set_jobs <[id := job]> (set_drawn S db)).
Proof.
  unfold job_create, randomUUID. intros H. ok_inv H. injection Hrun as Hid Hs. subst.
  apply negb_false_iff in Hguard. apply orb_false_iff in Hguard0 as [Hguard0 _].
  apply orb_false_iff in Hguard0 as [H1%negb_false_iff H2%negb_false_iff].
  apply is_null_true in H1, H2. by db_cases db.
Qed.

Lemma same_resource r j j' : same_job j j' → job_resource_is r j' = job_resource_is r j.
Proof. intros (_ & _ & H1 & H2 & H3 & _). unfold job_resource_is. by rewrite H1, H2, H3. Qed.

Lemma new_job_resource id nodeId r target now :
  job_resource_is r (new_job id nodeId r target now) = true.
Proof.
  destruct r; simpl; rewrite ?bool_decide_eq_true_2 by done; done.
Qed.

(** The version is the node's, and no job has it yet. *)
Definition fresh_version (db : Db) (nodeId : string) (v : Z) : Prop :=
  ∃ n, db_nodes db !! nodeId = Some n ∧ 1 ≤ v ≤ n_desiredConfigVersion n ∧
    ∀ id j, db_jobs db !! id = Some j → j_nodeId j = nodeId → j_targetVersion j < v.

Lemma job_created_inv X id nodeId r target key now db :
  let job := new_job id nodeId r target now in
  let db' := set_jobKeys <[key := id]> (set_jobs <[id := job]> (set_drawn S db)) in
  Inv X db → db_jobs db !! id = None → db_jobKeys db !! key = None → job_checks job = true →
  fresh_version db nodeId target →
  Inv (exempt_job id X) db' ∧ evolves db db'.
Proof.
  intros job db' [] Hnew Hkey Hck (n & Hn & Hv & Hfresh). subst db'.
  assert (Hjob : ∀ jid j, <[id := job]> (db_jobs db) !! jid = Some j →
    (jid = id ∧ j = job) ∨ (jid ≠ id ∧ db_jobs db !! jid = Some j)).
  { intros jid j. rewrite lookup_insert_Some. naive_solver. }
  assert (Hold : ∀ jid j, db_jobs db !! jid = Some j → <[id := job]> (db_jobs db) !! jid = Some j).
  { intros jid j Hj. rewrite lookup_insert_ne; [done|]. congruence. }
  assert (H1 : map_Forall (job_ok (db_nodes db)) (<[id := job]> (db_jobs db))).
  { apply map_Forall_insert_2; [|done]. split_and!; [done..|]. exists n. by split. }
  assert (H2 : ∀ id1 id2 j1 j2, <[id := job]> (db_jobs db) !! id1 = Some j1 →
    <[id := job]> (db_jobs db) !! id2 = Some j2 → j_nodeId j1 = j_nodeId j2 →
    j_targetVersion j1 = j_targetVersion j2 → id1 = id2).
  { intros id1 id2 j1 j2 [[-> ->]|[_ Ha]]%Hjob [[-> ->]|[_ Hb]]%Hjob Hnode Htarget; [done|..].
    - pose proof (Hfresh _ _ Hb (eq_sym Hnode)). simpl in Htarget. lia.
    - pose proof (Hfresh _ _ Ha Hnode). simpl in Htarget. lia.
    - by eapply iv_unique0. }
  assert (H3 : map_Forall (λ jid j, x_job (exempt_job id X) jid ∨
      announced (db_eventKeys db) (db_events db) jid j) (<[id := job]> (db_jobs db))).
  { intros jid j [[-> ->]|[_ Ha]]%Hjob; [left; by left|].
    destruct (iv_announced0 jid j Ha); [left; by right|by right]. }
  assert (H4 : map_Forall (delivery_ok (<[id := job]> (db_jobs db))) (db_deliveries db)).
  { intros k d Hd. destruct (iv_deliveries0 k d Hd) as (Hh & j & Hj & ?). split; [done|]. eauto. }
  assert (H5 : map_Forall (ack_ok X (set_jobs <[id := job]> db)) (db_acks db)).
  { intros k a Ha. destruct (iv_acks0 k a Ha) as ((j & Hj & ?) & ?). db_cases db.
    split; [|done]. exists j. split; [by apply Hold|done]. }
  assert (H6 : map_Forall (route_ok (set_jobs <[id := job]> db)) (db_routes db)).
  { intros k a Ha. destruct (iv_routes0 k a Ha)
      as (m & en & pr & Hm & He & Hen & Hp & Hpn & Hlast & Hact).
    exists m, en, pr. db_cases db. split_and!; try done; try lia. intros v Hv'.
    destruct (Hact v Hv') as (?&?&?&?&?&?&jid&j&Hj&?). split_and!; try done.
    exists jid, j. split; [by apply Hold|done]. }
  assert (H7 : rows_evolve same_job (db_jobs db) (<[id := job]> (db_jobs db))).
  { apply rows_evolve_insert; [apply _|]. intros old Ho. congruence. }
  assert (H8 : db_jobKeys db ⊆ <[key := id]> (db_jobKeys db)) by (by apply insert_subseteq).
  cols db.
Qed.

Lemma event_create_ok uuid topic at_ ai payload key now db id db' :
  event_create uuid topic at_ ai payload key now db = (Ok id, db') →
  db_events db !! id = None ∧ db_eventKeys db !! key = None ∧
  db' = set_eventKeys <[key := {| ek_id := id; ek_aggregateType := at_; ek_aggregateId := ai |}]>
          (set_events <[id := new_event id topic payload now]> (set_drawn S db)).
Proof.
  unfold event_create, randomUUID. intros H. ok_inv H. injection Hrun as Hid Hs. subst.
  apply orb_false_iff in Hguard as [H1%negb_false_iff H2%negb_false_iff].
  apply is_null_true in H1, H2. by db_cases db.
Qed.

(** An event announces a job that waits for it. *)
Lemma event_created_inv X jobId j r id at_ ai key now db :
  let payload := encode_command {| cmd_resource := r; cmd_nodeSyncJobId := jobId;
                                   cmd_targetVersion := j_targetVersion j |} in
  let k := {| ek_id := id; ek_aggregateType := at_; ek_aggregateId := ai |} in
  let db' := set_eventKeys <[key := k]>
    (set_events <[id := new_event id "node-sync.requested" payload now]> (set_drawn S db)) in
  Inv (exempt_job jobId X) db → db_jobs db !! jobId = Some j → job_resource_is r j = true →
  db_events db !! id = None → db_eventKeys db !! key = None →
  Inv X db' ∧ evolves db db'.
Proof.
  intros payload k db' [] Hj Hr Hid Hkey. subst db'.
  assert (H1 : map_Forall (λ jid j, x_job X jid ∨
      announced (<[key := k]> (db_eventKeys db))
        (<[id := new_event id "node-sync.requested" payload now]> (db_events db)) jid j) (db_jobs db)).
  { intros jid j' Hj'. destruct (iv_announced0 jid j' Hj') as [[->|?]|Ha]; [|by left|].
    - right. assert (j' = j) as -> by congruence.
      exists r, key, k, (new_event id "node-sync.requested" payload now).
      rewrite !lookup_insert_eq. by split_and!.
    - right. destruct Ha as (r' & key' & k' & e & Hr' & Hk' & He & Htopic & Hpay). exists r', key', k', e.
      split_and!; [done| | |done|done]; (rewrite lookup_insert_ne; [done|congruence]). }
  assert (H2 : rows_evolve same_event (db_events db)
                 (<[id := new_event id "node-sync.requested" payload now]> (db_events db))).
  { apply rows_evolve_insert; [apply _|]. intros old Ho. congruence. }
  assert (H3 : db_eventKeys db ⊆ <[key := k]> (db_eventKeys db)) by (by apply insert_subseteq).
  cols db.
Qed.

(** *** Routes and their material *)

Definition material_written (closes : bool) (p : string * string → RouteColumns → bool)
    (db : Db) : Db := if closes then close_routes p db else db.

Lemma endpoint_set_status_ok id st db u db' :
  endpoint_set_status id st db = (Ok u, db') →
  ∃ old, db_endpoints db !! id = Some old ∧
    db' = material_written (bool_decide (en_status old = MATERIAL_ACTIVE) &&
                            negb (bool_decide (st = MATERIAL_ACTIVE)))
            (λ k _, bool_decide (k.1 = id)) (set_endpoints <[id := with_endpoint_status st old]> db).
Proof.
  unfold endpoint_set_status. intros H. ok_inv H.
  destruct (db_endpoints _ !! id) as [old|] eqn:Hold; [|discriminate H]. ok_inv H.
  exists old. split; [done|]. unfold material_written. apply when_ok_inv in H as [[-> H]|[-> ->]]; [|done]. by ok_inv H.
Qed.

Lemma profile_set_status_ok id st db u db' :
  profile_set_status id st db = (Ok u, db') →
  ∃ old, db_profiles db !! id = Some old ∧
    db' = material_written (bool_decide (cp_status old = MATERIAL_ACTIVE) &&
                            negb (bool_decide (st = MATERIAL_ACTIVE)))
            (λ k _, bool_decide (k.2 = id)) (set_profiles <[id := with_profile_status st old]> db).
Proof.
  unfold profile_set_status. intros H. ok_inv H.
  destruct (db_profiles _ !! id) as [old|] eqn:Hold; [|discriminate H]. ok_inv H.
  exists old. split; [done|]. unfold material_written. apply when_ok_inv in H as [[-> H]|[-> ->]]; [|done]. by ok_inv H.
Qed.

(** Material that becomes ACTIVE closes nothing, and no route minds. *)
Lemma endpoint_activated_inv X id old new db :
  Inv X db → db_endpoints db !! id = Some old → en_nodeId new = en_nodeId old →
  en_status new = MATERIAL_ACTIVE →
  Inv X (set_endpoints <[id := new]> db) ∧ evolves db (set_endpoints <[id := new]> db).
Proof.
  intros [] Hold Hn Hst.
  assert (Hr : map_Forall (route_ok (set_endpoints <[id := new]> db)) (db_routes db)).
  { intros k r Hr. destruct (iv_routes0 k r Hr)
      as (m & en & pr & Hm & He & Hen & Hp & Hpn & Hlast & Hact).
    db_cases db. destruct (decide (k.1 = id)) as [Hk|Hne].
    - assert (en = old) as -> by congruence.
      exists m, new, pr. simpl. rewrite Hk, lookup_insert_eq. split_and!; try done; try lia.
      + congruence.
      + intros v Hv. destruct (Hact v Hv) as (A1&A2&A3&_&A5&A6&A7). rewrite <- Hk. by split_and!.
    - exists m, en, pr. simpl. rewrite lookup_insert_ne by done. split_and!; try done; lia. }
  cols db.
Qed.

Lemma profile_activated_inv X id old new db :
  Inv X db → db_profiles db !! id = Some old → cp_nodeId new = cp_nodeId old →
  cp_status new = MATERIAL_ACTIVE →
  Inv X (set_profiles <[id := new]> db) ∧ evolves db (set_profiles <[id := new]> db).
Proof.
  intros [] Hold Hn Hst.
  assert (Hr : map_Forall (route_ok (set_profiles <[id := new]> db)) (db_routes db)).
  { intros k r Hr. destruct (iv_routes0 k r Hr)
      as (m & en & pr & Hm & He & Hen & Hp & Hpn & Hlast & Hact).
    db_cases db. destruct (decide (k.2 = id)) as [Hk|Hne].
    - assert (pr = old) as -> by congruence.
      exists m, en, new. simpl. rewrite Hk, lookup_insert_eq. split_and!; try done; try lia.
      + congruence.
      + intros v Hv. destruct (Hact v Hv) as (A1&A2&A3&A4&_&A6&A7). rewrite <- Hk. by split_and!.
    - exists m, en, pr. simpl. rewrite lookup_insert_ne by done. split_and!; try done; lia. }
  cols db.
Qed.

Lemma route_create_ok e p nodeId db u db' :
  route_create e p nodeId db = (Ok u, db') →
  db_routes db !! (e, p) = None ∧
  (∃ en pr, db_endpoints db !! e = Some en ∧ en_nodeId en = nodeId ∧
            db_profiles db !! p = Some pr ∧ cp_nodeId pr = nodeId) ∧
  db' = set_routes <[(e, p) := {| rc_nodeId := nodeId; rc_activationVersion := None;
                                  rc_lastActivationVersion := 0 |}]> db.
Proof.
  unfold route_create. intros H. ok_inv H.
  apply negb_false_iff, is_null_true in Hguard. apply negb_false_iff in Hguard0.
  split_and!; [done| |done].
  destruct (db_endpoints _ !! e) as [en|] eqn:He; [|done].
  destruct (db_profiles _ !! p) as [pr|] eqn:Hp; [|done].
  apply andb_prop in Hguard0 as [?%bool_decide_eq_true ?%bool_decide_eq_true]. eauto 10.
Qed.

(** A route row that is written satisfies the invariant when it is [route_ok]. *)
Lemma route_written_inv X k r db :
  Inv X db → route_ok db k r →
  Inv X (set_routes <[k := r]> db) ∧ evolves db (set_routes <[k := r]> db).
Proof.
  intros [] Hr.
  assert (H1 : map_Forall (route_ok db) (<[k := r]> (db_routes db)))
    by (by apply map_Forall_insert_2).
  cols db.
Qed.

Lemma route_activate_ok e p v db u db' :
  route_activate e p v db = (Ok u, db') →
  ∃ old, db_routes db !! (e, p) = Some old ∧
    ((rc_activationVersion old = Some v ∧ db' = db) ∨
     (activation_valid db e p old v = true ∧
      db' = set_routes <[(e, p) := {| rc_nodeId := rc_nodeId old; rc_activationVersion := Some v;
                                      rc_lastActivationVersion := v |}]> db)).
Proof.
  unfold route_activate. intros H. ok_inv H.
  destruct (db_routes _ !! (e, p)) as [old|] eqn:Hold; [|discriminate H].
  exists old. split; [done|]. case_bool_decide.
  - ok_inv H. by left.
  - ok_inv H. right. by apply negb_false_iff in Hguard.
Qed.

Lemma activation_valid_ok X db e p old v :
  Inv X db → activation_valid db e p old v = true →
  rc_lastActivationVersion old < v ∧ 
  route_ok db (e, p) {| rc_nodeId := rc_nodeId old; rc_activationVersion := Some v;
                        rc_lastActivationVersion := v |}.
Proof.
  intros [] H. unfold activation_valid in H.
  apply andb_prop in H as [H _]. apply andb_prop in H as [H Hjob].
  apply andb_prop in H as [Hlast%Z.ltb_lt Hmat].
  apply exists_row_true in Hjob as (jid & j & Hj & Hb).
  apply andb_prop in Hb as [Hb _]. apply andb_prop in Hb as [Hb Hv%Z.eqb_eq].
  apply andb_prop in Hb as [Hnode%bool_decide_eq_true Hres].
  destruct (db_nodes db !! rc_nodeId old) as [n|] eqn:Hn; [|done].
  destruct (db_endpoints db !! e) as [en|] eqn:He; [|done].
  destruct (db_profiles db !! p) as [pr|] eqn:Hp; [|done].
  rewrite !andb_true_iff, !bool_decide_eq_true, negb_true_iff, is_null_false in Hmat.
  destruct Hmat as ((((((Hst & Hen) & Hes) & Hpn) & Hps) & Hpc) & Happ).
  destruct (iv_jobs0 jid j Hj) as (_ & _ & n' & Hn' & Hjv).
  rewrite Hnode, Hn in Hn'. injection Hn' as <-.
  split; [done|]. exists n, en, pr. simpl. split_and!; try done; try lia.
  intros v' [= <-]. split_and!; try done; try lia. eauto 10.
Qed.

(** *** [nodeConfigDelivery.createMany] and [nodeConfigAcknowledgement.create] *)

Lemma delivery_create_ok job hash d db u db' :
  delivery_create job hash d db = (Ok u, db') →
  is_sha256_hex hash = true ∧
  ((is_Some (db_deliveries db !! (job, hash)) ∧ db' = db) ∨
   (db_deliveries db !! (job, hash) = None ∧
    (∃ j, db_jobs db !! job = Some j ∧ j_nodeId j = nd_nodeId d ∧
          j_targetVersion j = nd_targetVersion d) ∧
    db' = set_deliveries <[(job, hash) := d]> db)).
Proof.
  unfold delivery_create. intros H. ok_inv H.
  apply orb_false_iff in Hguard as [Hh%negb_false_iff _]. split; [done|].
  destruct (db_deliveries _ !! (job, hash)) as [old|] eqn:Hold.
  - ok_inv H. left. eauto.
  - ok_inv H. right. split_and!; [done| |done].
    destruct (db_jobs _ !! job) as [j|]; [|done].
    apply negb_false_iff, andb_prop in Hguard as [?%bool_decide_eq_true ?%Z.eqb_eq]. eauto.
Qed.

Lemma delivered_inv X job hash d j db :
  Inv X db → is_sha256_hex hash = true → db_deliveries db !! (job, hash) = None →
  db_jobs db !! job = Some j → j_nodeId j = nd_nodeId d →
  j_targetVersion j = nd_targetVersion d →
  Inv X (set_deliveries <[(job, hash) := d]> db) ∧
  evolves db (set_deliveries <[(job, hash) := d]> db).
Proof.
  intros [] Hh Hnew Hj Hn Hv.
  assert (H1 : map_Forall (delivery_ok (db_jobs db)) (<[(job, hash) := d]> (db_deliveries db))).
  { apply map_Forall_insert_2; [|done]. split; [done|]. eauto. }
  assert (H2 : map_Forall (ack_ok X (set_deliveries <[(job, hash) := d]> db)) (db_acks db)).
  { intros jid a Ha. destruct (iv_acks0 jid a Ha) as (Hja & [d' Hd'] & Hx). db_cases db.
    split_and!; [done| |done]. simpl.
    destruct (decide ((job, hash) = (jid, na_snapshotHash a))) as [Heq|Hne].
    - rewrite Heq, lookup_insert_eq. eauto.
    - rewrite lookup_insert_ne by done. eauto. }
  assert (H3 : db_deliveries db ⊆ <[(job, hash) := d]> (db_deliveries db))
    by (by apply insert_subseteq).
  cols db.
Qed.

Definition exempt_ack (job : string) (X : Exempt) : Exempt :=
  {| x_ack := λ j, j = job ∨ x_ack X j; x_device := x_device X; x_job := x_job X |}.

Lemma ack_create_ok job a db u db' :
  ack_create job a db = (Ok u, db') →
  acknowledgement_valid db job a = true ∧ db_acks db !! job = None ∧
  db' = set_acks <[job := a]> db.
Proof.
  unfold ack_create. intros H. ok_inv H. apply negb_false_iff in Hguard.
  apply orb_false_iff in Hguard1 as [H1%negb_false_iff%is_null_true _]. done.
Qed.

Lemma acknowledgement_valid_ok db job a :
  acknowledgement_valid db job a = true →
  (∃ j, db_jobs db !! job = Some j ∧ j_status j = JOB_SUCCEEDED ∧
     j_nodeId j = na_nodeId a ∧ j_targetVersion j = na_targetVersion a) ∧
  is_Some (db_deliveries db !! (job, na_snapshotHash a)).
Proof.
  unfold acknowledgement_valid.
  destruct (db_jobs db !! job) as [j|]; [|done].
  destruct (db_deliveries db !! _) as [d|] eqn:Hd; [|done].
  rewrite !andb_true_iff, !bool_decide_eq_true, !Z.eqb_eq. intros [[[[_ _] ?] ?] ?].
  split; [|eauto]. by exists j.
Qed.

Lemma acknowledged_inv X job a db :
  Inv X db → acknowledgement_valid db job a = true → db_acks db !! job = None →
  Inv (exempt_ack job X) (set_acks <[job := a]> db) ∧ evolves db (set_acks <[job := a]> db).
Proof.
  intros [] [Hj Hd]%acknowledgement_valid_ok Hnew.
  assert (H1 : map_Forall (ack_ok (exempt_ack job X) (set_acks <[job := a]> db))
                 (<[job := a]> (db_acks db))).
  { apply map_Forall_insert_2.
    - db_cases db. split_and!; [done..|]. left. by left.
    - intros jid b Hb. destruct (iv_acks0 jid b Hb) as (H1 & H2 & H3). db_cases db.
      split_and!; [done..|]. destruct H3; [left; by right|by right]. }
  assert (H2 : map_Forall (applied_ok (<[job := a]> (db_acks db))) (db_nodes db)).
  { intros id n Hn. destruct (iv_applied0 id n Hn) as [?|(jid & b & Hb & ?)]; [by left|right].
    exists jid, b. rewrite lookup_insert_ne by congruence. done. }
  assert (H3 : db_acks db ⊆ <[job := a]> (db_acks db)) by (by apply insert_subseteq).
  cols db.
Qed.

(** Once the node shows its version, the acknowledgement is no exception. *)
Lemma ack_settled X job a n db :
  Inv (exempt_ack job X) db → db_acks db !! job = Some a →
  db_nodes db !! na_nodeId a = Some n → na_targetVersion a ≤ n_appliedConfigVersion n →
  Inv X db.
Proof.
  intros [] Ha Hn Hle. split; try done.
  intros jid b Hb. destruct (iv_acks0 jid b Hb) as (H1 & H2 & H3). split_and!; [done..|].
  destruct H3 as [[->|?]|?]; [|by left|by right].
  right. assert (b = a) as -> by congruence. eauto.
Qed.
