(* ===== verification/Orchestration.v ===== *)
(** * The orchestration services of the API

    [apps/api/src/orchestration/]: [NodeAccessGrantScheduler],
    [DeviceAccessRevoker], [NodeLifecycleManager] and [OrchestrationService],
    with the [DataPlaneCredentialService] they derive credentials by.  Each
    method is one transaction over the control-plane database; [now] is the
    clock it reads. *)

From stdpp Require Import pretty.
From S2P Require Import Prelude.
From S2P Require Import Json.
From S2P Require Import Sql.
From S2P Require Import OutboxStore.
From S2P Require Import NodeSyncStore.
From S2P Require Worker.
From S2P Require Import NodeAgentContract.
From S2P Require Import ControlPlane.
From S2P Require Import DataPlaneCredential.
From S2P Require Import AccessPolicy.
Open Scope Z_scope.

(** [ApiEnvironment], as far as these services read it. *)
Record ApiEnvironment := { DATA_PLANE_CREDENTIAL_PEPPER : option string }.

Record ScheduleNodeAccessGrantInput := {
  si_nodeId : string;
  si_deviceId : string;
  si_expiresAt : Z;
  si_syncJobIdempotencyKey : string;
  si_outboxEventIdempotencyKey : string;
  si_actorUserId : option string;
}.
Record ScheduleNodeAccessGrantResult := {
  sr_nodeAccessGrantId : string;
  sr_nodeSyncJobId : string;
  sr_outboxEventId : string;
  sr_targetVersion : Z;
}.

Inductive RevokeDeviceAccessResult := DeviceRevoked | DeviceAlreadyRevoked | DeviceNotFound.

Record QuarantineNodeInput := {
  qi_nodeId : string;
  qi_syncJobIdempotencyKey : string;
  qi_outboxEventIdempotencyKey : string;
  qi_actorUserId : option string;
}.
Record QuarantineNodeResult := {
  qr_nodeId : string;
  qr_nodeSyncJobId : option string;
  qr_outboxEventId : option string;
  qr_targetVersion : Z;
}.

Record AcknowledgeNodeConfigInput := {
  ai_nodeId : string;
  ai_nodeSyncJobId : string;
  ai_targetVersion : Z;
  ai_snapshotHash : string;
}.
Record AcknowledgeNodeConfigResult := {
  ar_nodeId : string;
  ar_nodeSyncJobId : string;
  ar_appliedConfigVersion : Z;
}.

Record PublishConnectionRouteInput := {
  pi_nodeId : string;
  pi_endpointId : string;
  pi_connectionProfileId : string;
  pi_syncJobIdempotencyKey : string;
  pi_outboxEventIdempotencyKey : string;
  pi_actorUserId : option string;
}.
Record PublishConnectionRouteResult := {
  pr_nodeSyncJobId : string;
  pr_outboxEventId : string;
  pr_activationVersion : Z;
}.

Section services.
Context (uuid : nat → string) (hmac_sha256 : string → string → list Z).
(** What Zod accepts as a UUID. *)
Context (is_uuid : string → bool).
(** The constructor argument of the scheduler, which may be absent. *)
Context (dataPlaneCredentials : option ApiEnvironment).

(** ** [DataPlaneCredentialService] *)

Definition pepper (environment : ApiEnvironment) : option string :=
  p ← DATA_PLANE_CREDENTIAL_PEPPER environment;
  if bool_decide (p = EmptyString) then None else Some p.
Definition derive (environment : ApiEnvironment) (binding : DataPlaneCredentialBinding)
    : option string := p ← pepper environment; deriveDataPlaneCredential hmac_sha256 p binding.
Definition hash (environment : ApiEnvironment) (credential : string) : option string :=
  p ← pepper environment; hashDataPlaneCredential hmac_sha256 p credential.
Definition verifyHash (environment : ApiEnvironment) (credential storedHash : string)
    : option bool :=
  p ← pepper environment; verifyDataPlaneCredentialHash hmac_sha256 p credential storedHash.

(** A call that throws for want of a pepper. *)
Definition with_pepper {A} (result : option A) : DbM A :=
  match result with
  | Some a => mret a
  | None => throw (Thrown "Data-plane credential pepper is not configured")
  end.

(** ** [NodeAccessGrantScheduler.scheduleInTransaction] *)

(** The event announcing a grant's job. *)
Definition grant_command (grantId jobId : string) (target : Z) : NodeSyncRequestedEvent :=
  {| cmd_resource := GrantResource grantId; cmd_nodeSyncJobId := jobId;
     cmd_targetVersion := target |}.
Definition route_command (e p jobId : string) (target : Z) : NodeSyncRequestedEvent :=
  {| cmd_resource := RouteResource e p; cmd_nodeSyncJobId := jobId;
     cmd_targetVersion := target |}.

(** The result of an earlier call with the same keys. *)
Definition schedule_existing (input : ScheduleNodeAccessGrantInput)
    (existingSyncJob : option NodeSyncJob) (existingOutboxEvent : option (EventKey * OutboxEvent))
    : DbM ScheduleNodeAccessGrantResult :=
  db ← get;
  match existingSyncJob, existingOutboxEvent with
  | Some job, Some (key, _) =>
      match j_nodeAccessGrantId job with
      | Some grantId =>
          if bool_decide (j_nodeId job = si_nodeId input) &&
             bool_decide (gr_deviceId <$> db_grants db !! grantId = Some (si_deviceId input)) &&
             bool_decide (ek_aggregateId key = grantId)
          then mret {| sr_nodeAccessGrantId := grantId; sr_nodeSyncJobId := j_id job;
                       sr_outboxEventId := ek_id key; sr_targetVersion := j_targetVersion job |}
          else throw (Thrown "Idempotency key does not match the requested grant")
      | None => throw (Thrown "Idempotency key does not match the requested grant")
      end
  | _, _ => throw (Thrown "Idempotency key does not match the requested grant")
  end.

Definition schedule_new (input : ScheduleNodeAccessGrantInput) (now : Z)
    : DbM ScheduleNodeAccessGrantResult :=
  device ← find db_devices (si_deviceId input);
  throw_if (negb (bool_decide (dv_status <$> device = Some DEVICE_ACTIVE)))
    (Thrown "Node access cannot be scheduled for this device");;
  assignedNode ← find db_nodes (si_nodeId input);
  match assignedNode with
  | None => throw (Thrown "Node access cannot be scheduled for this node")
  | Some assigned =>
      throw_if (negb (isNodeEligibleForNewAssignment (n_status assigned)))
        (Thrown "Node access cannot be scheduled for this node");;
      node ← node_update (si_nodeId input) increment_desired;
      grantId ← randomUUID uuid;
      match dataPlaneCredentials with
      | None => throw (Thrown "Data-plane credential provider is unavailable")
      | Some service =>
          credential ← with_pepper (derive service
            {| b_grantId := grantId; b_deviceId := si_deviceId input; b_nodeId := si_nodeId input |});
          credentialHash ← with_pepper (hash service credential);
          let target := n_desiredConfigVersion node in
          grant_create grantId
            {| gr_nodeId := si_nodeId input; gr_deviceId := si_deviceId input;
               gr_status := GRANT_PENDING; gr_dataPlaneCredentialHash := credentialHash;
               gr_dataPlaneCredentialDerivationVersion :=
                 Some DATA_PLANE_CREDENTIAL_DERIVATION_VERSION;
               gr_expiresAt := si_expiresAt input; gr_desiredVersion := target;
               gr_appliedVersion := 0; gr_revokedAt := None |};;
          jobId ← job_create uuid (si_nodeId input) (GrantResource grantId) target
                    (si_syncJobIdempotencyKey input) now;
          eventId ← event_create uuid "node-sync.requested" "NodeAccessGrant" grantId
                      (encode_command (grant_command grantId jobId target))
                      (si_outboxEventIdempotencyKey input) now;
          audit (si_actorUserId input) "node-access-grant.scheduled" "NodeAccessGrant" grantId
            (JObj [("nodeId"%string, JStr (si_nodeId input)); ("nodeSyncJobId"%string, JStr jobId);
                   ("targetVersion"%string, jint target)]);;
          mret {| sr_nodeAccessGrantId := grantId; sr_nodeSyncJobId := jobId;
                  sr_outboxEventId := eventId; sr_targetVersion := target |}
      end
  end.

Definition scheduleInTransaction (input : ScheduleNodeAccessGrantInput) (now : Z)
    : DbM ScheduleNodeAccessGrantResult :=
  existingSyncJob ← job_by_key (si_syncJobIdempotencyKey input);
  existingOutboxEvent ← event_by_key (si_outboxEventIdempotencyKey input);
  match existingSyncJob, existingOutboxEvent with
  | None, None => schedule_new input now
  | _, _ => schedule_existing input existingSyncJob existingOutboxEvent
  end.

Definition schedule (input : ScheduleNodeAccessGrantInput) (now : Z)
    : DbM ScheduleNodeAccessGrantResult := atomically (scheduleInTransaction input now).

(** ** [DeviceAccessRevoker.revoke] *)

Definition revoke_grant (now : Z) (desired : option Z) (g : NodeAccessGrant) : NodeAccessGrant :=
  {| gr_nodeId := gr_nodeId g; gr_deviceId := gr_deviceId g; gr_status := GRANT_REVOKED;
     gr_dataPlaneCredentialHash := gr_dataPlaneCredentialHash g;
     gr_dataPlaneCredentialDerivationVersion := gr_dataPlaneCredentialDerivationVersion g;
     gr_expiresAt := gr_expiresAt g; gr_desiredVersion := default (gr_desiredVersion g) desired;
     gr_appliedVersion := gr_appliedVersion g; gr_revokedAt := Some now |}.

Definition revoke_device (now : Z) (d : Device) : Device :=
  {| dv_userId := dv_userId d; dv_displayName := dv_displayName d; dv_platform := dv_platform d;
     dv_status := DEVICE_REVOKED; dv_subscriptionTokenHash := dv_subscriptionTokenHash d;
     dv_issuanceIdempotencyKeyHash := dv_issuanceIdempotencyKeyHash d;
     dv_revokedAt := Some now; dv_createdAt := dv_createdAt d |}.

(** The body of the loop over the device's grants. *)
Definition revoke_device_grant (userId deviceId : string) (now : Z)
    (nodeStatusById : string → option NodeStatus) (grant : string * string) : DbM unit :=
  let '(grantId, nodeId) := grant in
  if match nodeStatusById nodeId with
     | None => false
     | Some nodeStatus => isNodeInAccessControlSync nodeStatus
     end
  then
    node ← node_update nodeId increment_desired;
    let target := n_desiredConfigVersion node in
    grant_update true grantId (revoke_grant now (Some target));;
    jobId ← job_create uuid nodeId (GrantResource grantId) target
      ("device-revoke:" +:+ deviceId +:+ ":" +:+ grantId +:+ ":" +:+ pretty target) now;
    event_create uuid "node-sync.requested" "NodeAccessGrant" grantId
      (encode_command (grant_command grantId jobId target))
      ("device-revoke-outbox:" +:+ grantId +:+ ":" +:+ pretty target) now;;
    audit (Some userId) "node-access-grant.revoked" "NodeAccessGrant" grantId
      (JObj [("nodeId"%string, JStr nodeId); ("nodeSyncJobId"%string, JStr jobId);
             ("targetVersion"%string, jint target)])
  else
    grant_update true grantId (revoke_grant now None);;
    audit (Some userId) "node-access-grant.revoked" "NodeAccessGrant" grantId
      (JObj [("nodeId"%string, JStr nodeId)]).

Definition revokeInTransaction (userId deviceId : string) (now : Z)
    : DbM RevokeDeviceAccessResult :=
  db ← get;
  match db_devices db !! deviceId with
  | None => mret DeviceNotFound
  | Some device =>
      if negb (bool_decide (dv_userId device = userId)) then mret DeviceNotFound else
      if bool_decide (dv_status device = DEVICE_REVOKED) then mret DeviceAlreadyRevoked else
      let grants := grants_where (λ g, bool_decide (gr_deviceId g = deviceId) && live g) db in
      (* the nodes joined with those grants *)
      let nodeStatusById id :=
        if bool_decide (id ∈ (gr_nodeId ∘ snd) <$> grants)
        then n_status <$> db_nodes db !! id else None in
      device_update deviceId (revoke_device now);;
      for_each ((λ kv, (kv.1, gr_nodeId kv.2)) <$> grants)
        (revoke_device_grant userId deviceId now nodeStatusById);;
      audit (Some userId) "device.revoked" "Device" deviceId
        (JObj [("revokedGrantCount"%string, jint (Z.of_nat (length grants)))]);;
      mret DeviceRevoked
  end.

Definition revoke (userId deviceId : string) (now : Z) : DbM RevokeDeviceAccessResult :=
  atomically (revokeInTransaction userId deviceId now).

(** ** [NodeLifecycleManager] *)

Definition status_name (s : NodeStatus) : string :=
  match s with
  | NODE_PROVISIONING => "PROVISIONING" | NODE_HEALTHY => "HEALTHY"
  | NODE_DRAINING => "DRAINING" | NODE_DISABLED => "DISABLED"
  | NODE_QUARANTINED => "QUARANTINED" | NODE_DELETED => "DELETED"
  end.

(** [restoreHealthy], [drain] and [disable] differ in the target status, the
    statuses they accept, the audit action and the message. *)
Definition change_status (target : NodeStatus) (accepted : list NodeStatus)
    (action message : string) (nodeId : string) (actorUserId : option string)
    : DbM (string * NodeStatus) :=
  found ← find db_nodes nodeId;
  match found with
  | None => throw (Thrown message)
  | Some node =>
      if bool_decide (n_status node = target) then mret (nodeId, target) else
      throw_if (negb (bool_decide (n_status node ∈ accepted))) (Thrown message);;
      node_update nodeId (set_status target);;
      audit actorUserId action "Node" nodeId
        (JObj [("previousStatus"%string, JStr (status_name (n_status node)))]);;
      mret (nodeId, target)
  end.

Definition restoreHealthy (nodeId : string) (actorUserId : option string)
    : DbM (string * NodeStatus) :=
  atomically (change_status NODE_HEALTHY [NODE_DRAINING; NODE_DISABLED] "node.healthy"
    "Node cannot be restored to HEALTHY" nodeId actorUserId).
Definition drain (nodeId : string) (actorUserId : option string) : DbM (string * NodeStatus) :=
  atomically (change_status NODE_DRAINING [NODE_HEALTHY] "node.draining"
    "Node cannot be drained" nodeId actorUserId).
Definition disable (nodeId : string) (actorUserId : option string) : DbM (string * NodeStatus) :=
  atomically (change_status NODE_DISABLED [NODE_HEALTHY; NODE_DRAINING] "node.disabled"
    "Node cannot be disabled" nodeId actorUserId).

Definition quarantine_existing (input : QuarantineNodeInput)
    (existingSyncJob : option NodeSyncJob) (existingOutboxEvent : option (EventKey * OutboxEvent))
    : DbM QuarantineNodeResult :=
  db ← get;
  match existingSyncJob, existingOutboxEvent with
  | Some job, Some (key, event) =>
      if bool_decide (j_nodeId job = qi_nodeId input) &&
         negb (is_null (j_nodeAccessGrantId job)) &&
         bool_decide (n_status <$> db_nodes db !! j_nodeId job = Some NODE_QUARANTINED) &&
         bool_decide (oe_topic event = "node-sync.requested"%string) &&
         bool_decide (ek_aggregateType key = "NodeAccessGrant"%string) &&
         sql_eq (j_nodeAccessGrantId job) (ek_aggregateId key)
      then mret {| qr_nodeId := j_nodeId job; qr_nodeSyncJobId := Some (j_id job);
                   qr_outboxEventId := Some (ek_id key); qr_targetVersion := j_targetVersion job |}
      else throw (Thrown "Idempotency key does not match the requested quarantine")
  | _, _ => throw (Thrown "Idempotency key does not match the requested quarantine")
  end.

(** The revocation of the node's grants: what it delivers, and under which
    version. *)
Definition quarantine_grants (input : QuarantineNodeInput) (node : Node)
    (grants : list (string * NodeAccessGrant)) (now : Z)
    : DbM (option string * option string * Z) :=
  match grants with
  | [] => mret (None, None, n_desiredConfigVersion node)
  | (leadGrant, _) :: _ =>
      updatedNode ← node_update (qi_nodeId input) increment_desired;
      let targetVersion := n_desiredConfigVersion updatedNode in
      for_each grants.*1 (λ id, grant_update true id (revoke_grant now (Some targetVersion)));;
      jobId ← job_create uuid (qi_nodeId input) (GrantResource leadGrant) targetVersion
                (qi_syncJobIdempotencyKey input) now;
      eventId ← event_create uuid "node-sync.requested" "NodeAccessGrant" leadGrant
                  (encode_command (grant_command leadGrant jobId targetVersion))
                  (qi_outboxEventIdempotencyKey input) now;
      mret (Some jobId, Some eventId, targetVersion)
  end.

Definition quarantine_new (input : QuarantineNodeInput) (now : Z) : DbM QuarantineNodeResult :=
  db ← get;
  match db_nodes db !! qi_nodeId input with
  | None => throw (Thrown "Node cannot be quarantined")
  | Some node =>
      if bool_decide (n_status node = NODE_QUARANTINED) then
        mret {| qr_nodeId := qi_nodeId input; qr_nodeSyncJobId := None; qr_outboxEventId := None;
                qr_targetVersion := n_desiredConfigVersion node |}
      else
      throw_if (negb (isNodeEligibleForEmergencyQuarantine (n_status node)))
        (Thrown "Node cannot be quarantined");;
      let grants := grants_where (λ g, bool_decide (gr_nodeId g = qi_nodeId input) && live g) db in
      delivered ← quarantine_grants input node grants now;
      let '(nodeSyncJobId, outboxEventId, targetVersion) := delivered in
      node_update (qi_nodeId input) (set_status NODE_QUARANTINED);;
      audit (qi_actorUserId input) "node.quarantined" "Node" (qi_nodeId input)
        (JObj [("nodeSyncJobId"%string, json_nullable JStr nodeSyncJobId);
               ("targetVersion"%string, jint targetVersion);
               ("revokedGrantCount"%string, jint (Z.of_nat (length grants)))]);;
      mret {| qr_nodeId := qi_nodeId input; qr_nodeSyncJobId := nodeSyncJobId;
              qr_outboxEventId := outboxEventId; qr_targetVersion := targetVersion |}
  end.

Definition quarantine (input : QuarantineNodeInput) (now : Z) : DbM QuarantineNodeResult :=
  atomically (
    existingSyncJob ← job_by_key (qi_syncJobIdempotencyKey input);
    existingOutboxEvent ← event_by_key (qi_outboxEventIdempotencyKey input);
    match existingSyncJob, existingOutboxEvent with
    | None, None => quarantine_new input now
    | _, _ => quarantine_existing input existingSyncJob existingOutboxEvent
    end).

(** ** [OrchestrationService.publishConnectionRoute] *)

Definition publish_existing (input : PublishConnectionRouteInput)
    (existingSyncJob : option NodeSyncJob) (existingOutboxEvent : option (EventKey * OutboxEvent))
    : DbM PublishConnectionRouteResult :=
  match existingSyncJob, existingOutboxEvent with
  | Some job, Some (key, event) =>
      if bool_decide (j_nodeId job = pi_nodeId input) &&
         bool_decide (j_routeEndpointId job = Some (pi_endpointId input)) &&
         bool_decide (j_routeConnectionProfileId job = Some (pi_connectionProfileId input)) &&
         bool_decide (oe_topic event = "node-sync.requested"%string) &&
         bool_decide (ek_aggregateType key = "ConnectionRoute"%string) &&
         bool_decide (ek_aggregateId key = pi_endpointId input) &&
         match Worker.nodeSyncRequestedEventSchema is_uuid (oe_payload event) with
         | Some payload =>
             match cmd_resource payload with
             | RouteResource e p =>
                 bool_decide (e = pi_endpointId input) && bool_decide (p = pi_connectionProfileId input)
             | GrantResource _ => false
             end &&
             bool_decide (cmd_nodeSyncJobId payload = j_id job) &&
             (cmd_targetVersion payload =? j_targetVersion job)
         | None => false
         end
      then mret {| pr_nodeSyncJobId := j_id job; pr_outboxEventId := ek_id key;
                   pr_activationVersion := j_targetVersion job |}
      else throw (Thrown "Idempotency key does not match the requested route")
  | _, _ => throw (Thrown "Idempotency key does not match the requested route")
  end.

(** The rows the publication locks, in its order; the first that is missing
    names the error. *)
Definition publish_guard (input : PublishConnectionRouteInput) (db : Db) : option string :=
  match db_nodes db !! pi_nodeId input with
  | None => Some "Connection route requires an existing node"
  | Some node =>
      if negb (bool_decide (n_status node = NODE_HEALTHY))
      then Some "Connection route requires a healthy node"
      else if negb (bool_decide (en_nodeId <$> db_endpoints db !! pi_endpointId input =
                                 Some (pi_nodeId input)))
      then Some "Connection route endpoint does not belong to node"
      else if negb (bool_decide (cp_nodeId <$> db_profiles db !! pi_connectionProfileId input =
                                 Some (pi_nodeId input)))
      then Some "Connection route profile does not belong to node"
      else if is_null (db_publicConfigs db !! pi_connectionProfileId input)
      then Some "Connection route public config is unavailable"
      else None
  end%string.

Definition publish_new (input : PublishConnectionRouteInput) (now : Z)
    : DbM PublishConnectionRouteResult :=
  let nodeId := pi_nodeId input in
  let e := pi_endpointId input in
  let p := pi_connectionProfileId input in
  db ← get;
  match publish_guard input db, db_nodes db !! nodeId with
  | None, Some node =>
      let lockedRoute := match db_routes db !! (e, p) with
                         | Some r => bool_decide (rc_nodeId r = nodeId)
                         | None => false
                         end in
      when (negb lockedRoute) (route_create e p nodeId);;
      let activationVersion := n_desiredConfigVersion node + 1 in
      endpoint_set_status e MATERIAL_ACTIVE;;
      profile_set_status p MATERIAL_ACTIVE;;
      node_update nodeId (set_desired activationVersion);;
      jobId ← job_create uuid nodeId (RouteResource e p) activationVersion
                (pi_syncJobIdempotencyKey input) now;
      eventId ← event_create uuid "node-sync.requested" "ConnectionRoute" e
                  (encode_command (route_command e p jobId activationVersion))
                  (pi_outboxEventIdempotencyKey input) now;
      route_activate e p activationVersion;;
      audit (pi_actorUserId input) "connection-route.published" "ConnectionRoute" e
        (JObj [("nodeId"%string, JStr nodeId); ("connectionProfileId"%string, JStr p);
               ("nodeSyncJobId"%string, JStr jobId);
               ("activationVersion"%string, jint activationVersion)]);;
      mret {| pr_nodeSyncJobId := jobId; pr_outboxEventId := eventId;
              pr_activationVersion := activationVersion |}
  | Some message, _ => throw (Thrown message)
  | None, None => throw (Thrown "Connection route requires an existing node")
  end.

Definition publishConnectionRoute (input : PublishConnectionRouteInput) (now : Z)
    : DbM PublishConnectionRouteResult :=
  atomically (
    existingSyncJob ← job_by_key (pi_syncJobIdempotencyKey input);
    existingOutboxEvent ← event_by_key (pi_outboxEventIdempotencyKey input);
    match existingSyncJob, existingOutboxEvent with
    | None, None => publish_new input now
    | _, _ => publish_existing input existingSyncJob existingOutboxEvent
    end).

(** ** [OrchestrationService.acknowledgeNodeConfigInTransaction] *)

(** [UPDATE "NodeAccessGrant" SET "appliedVersion" = "desiredVersion", ...] *)
Definition apply_grant (g : NodeAccessGrant) : NodeAccessGrant :=
  {| gr_nodeId := gr_nodeId g; gr_deviceId := gr_deviceId g;
     gr_status := match gr_status g with GRANT_PENDING => GRANT_ACTIVE | s => s end;
     gr_dataPlaneCredentialHash := gr_dataPlaneCredentialHash g;
     gr_dataPlaneCredentialDerivationVersion := gr_dataPlaneCredentialDerivationVersion g;
     gr_expiresAt := gr_expiresAt g; gr_desiredVersion := gr_desiredVersion g;
     gr_appliedVersion := gr_desiredVersion g; gr_revokedAt := gr_revokedAt g |}.
Definition unapplied (nodeId : string) (target : Z) (g : NodeAccessGrant) : bool :=
  bool_decide (gr_nodeId g = nodeId) && (gr_desiredVersion g <=? target) &&
  (gr_appliedVersion g <? gr_desiredVersion g).
Definition apply_grants (nodeId : string) (target : Z) : DbM unit :=
  grants_update true (λ _, unapplied nodeId target) apply_grant.

(** [nodeSyncJob.findFirst]: a succeeded job of this version with a delivery
    of this hash. *)
Definition acknowledgeable (input : AcknowledgeNodeConfigInput) (db : Db) : bool :=
  match db_jobs db !! ai_nodeSyncJobId input with
  | Some job =>
      bool_decide (j_nodeId job = ai_nodeId input) &&
      (j_targetVersion job =? ai_targetVersion input) &&
      bool_decide (j_status job = JOB_SUCCEEDED) &&
      match db_deliveries db !! (ai_nodeSyncJobId input, ai_snapshotHash input) with
      | Some d => bool_decide (nd_nodeId d = ai_nodeId input) &&
                  (nd_targetVersion d =? ai_targetVersion input)
      | None => false
      end
  | None => false
  end.

(** [node.findUniqueOrThrow({ select: { appliedConfigVersion } })] *)
Definition applied_version (nodeId : string) : DbM Z :=
  node ← find db_nodes nodeId;
  match node with
  | Some n => mret (n_appliedConfigVersion n)
  | None => throw (Database RecordNotFound)
  end.

Definition acknowledgeNodeConfigInTransaction (input : AcknowledgeNodeConfigInput) (now : Z)
    : DbM AcknowledgeNodeConfigResult :=
  let nodeId := ai_nodeId input in
  let result applied := {| ar_nodeId := nodeId; ar_nodeSyncJobId := ai_nodeSyncJobId input;
                           ar_appliedConfigVersion := applied |} in
  existingAcknowledgement ← find db_acks (ai_nodeSyncJobId input);
  match existingAcknowledgement with
  | Some a =>
      throw_if (negb (bool_decide (na_nodeId a = nodeId)) ||
                negb (na_targetVersion a =? ai_targetVersion input) ||
                negb (bool_decide (na_snapshotHash a = ai_snapshotHash input)))
        (Thrown "Node sync job does not match the requested acknowledgement");;
      applied ← applied_version nodeId;
      apply_grants nodeId (ai_targetVersion input);;
      mret (result applied)
  | None =>
      eligible ← gets (acknowledgeable input);
      throw_if (negb eligible) (Thrown "Node sync job is not eligible for acknowledgement");;
      current ← applied_version nodeId;
      ack_create (ai_nodeSyncJobId input)
        {| na_nodeId := nodeId; na_targetVersion := ai_targetVersion input;
           na_snapshotHash := ai_snapshotHash input; na_acknowledgedAt := now |};;
      applied ← (if current <? ai_targetVersion input
                 then node ← node_update nodeId (set_applied (ai_targetVersion input));
                      mret (n_appliedConfigVersion node)
                 else mret current);
      apply_grants nodeId (ai_targetVersion input);;
      audit None "node-config.acknowledged" "Node" nodeId
        (JObj [("nodeSyncJobId"%string, JStr (ai_nodeSyncJobId input));
               ("targetVersion"%string, jint (ai_targetVersion input));
               ("snapshotHash"%string, JStr (ai_snapshotHash input))]);;
      mret (result applied)
  end.

Definition acknowledgeNodeConfig (input : AcknowledgeNodeConfigInput) (now : Z)
    : DbM AcknowledgeNodeConfigResult := atomically (acknowledgeNodeConfigInTransaction input now).
End services.
