(* ===== verification/OrchestrationSafety.v ===== *)
(** * The orchestration transactions keep the invariant

    For every transaction of Orchestration.v that commits: the invariant of
    ControlPlaneInvariant.v holds again, the state evolved, and the facts the
    theorems on the services need. *)

From stdpp Require Import pretty.
From S2P Require Import Prelude.
From S2P Require Import Json.
From S2P Require Import Sql.
From S2P Require Import OutboxStore.
From S2P Require Import NodeSyncStore.
From S2P Require Worker.
From S2P Require Import NodeAgentContract.
From S2P Require Import ControlPlane.
From S2P Require Import DataPlaneCredential.
From S2P Require Import AccessPolicy.
From S2P Require Import ControlPlaneInvariant.
From S2P Require Import Orchestration.
Open Scope Z_scope.

(** A column of an updated state: the state is taken apart. *)
Ltac column := intros; repeat match goal with db : Db |- _ => destruct db end; reflexivity.

(** The tables the transactions read back are those of another state. *)
Definition same_tables (db db' : Db) : Prop :=
  db_nodes db' = db_nodes db ∧ db_jobs db' = db_jobs db ∧ db_devices db' = db_devices db ∧
  db_grants db' = db_grants db ∧ db_acks db' = db_acks db ∧ db_routes db' = db_routes db ∧
  db_deliveries db' = db_deliveries db ∧ db_subscriptions db' = db_subscriptions db.

Lemma fresh_version_frame db db' nodeId v :
  db_nodes db' = db_nodes db → db_jobs db' = db_jobs db →
  fresh_version db nodeId v → fresh_version db' nodeId v.
Proof. unfold fresh_version. by intros -> ->. Qed.

(** ** Single statements, as the transactions use them *)
Section runs.
Context (X : Exempt).

Lemma run_node_update id data db n db' :
  node_update id data db = (Ok n, db') → Inv X db →
  (∀ old, db_nodes db !! id = Some old → sound_node_update db id old (data old)) →
  Inv X db' ∧ evolves db db' ∧
  ∃ old, db_nodes db !! id = Some old ∧ n = data old ∧
    int4 (n_desiredConfigVersion n) = true ∧ node_update_refused db id old n = false ∧
    db' = node_written id old n db ∧ db_nodes db' = <[id := n]> (db_nodes db).
Proof.
  intros (old & Hold & -> & Hint & Href & Hck & ->)%node_update_ok Hinv Hs.
  destruct (node_written_inv X id old (data old) db Hinv Hold Hck Href (Hs old Hold)) as [H1 H2].
  split_and!; [done|done|]. exists old. split_and!; try done. apply node_written_nodes.
Qed.

(** [desiredConfigVersion: { increment: 1 }] opens a version nothing uses. *)
Lemma run_increment id db n db' :
  node_update id increment_desired db = (Ok n, db') → Inv X db →
  Inv X db' ∧ evolves db db' ∧ fresh_version db' id (n_desiredConfigVersion n) ∧
  db' = set_nodes <[id := n]> db ∧
  ∃ old, db_nodes db !! id = Some old ∧ n = increment_desired old.
Proof.
  intros Hrun Hinv. destruct (run_node_update _ _ _ _ _ Hrun Hinv)
    as (H1 & H2 & old & Hold & -> & _ & _ & Hdb & Hnodes).
  { intros old Hold. unfold sound_node_update, increment_desired, set_desired. simpl.
    split_and!; [lia|done|by left]. }
  assert (Heq : db' = set_nodes <[id := increment_desired old]> db).
  { rewrite Hdb. unfold node_written. by rewrite bool_decide_eq_true_2. }
  split_and!; [done|done| |done|eauto].
  pose proof (proj1 (node_checks_spec old) (iv_nodes _ _ Hinv _ _ Hold)) as Hck.
  exists (increment_desired old). rewrite Hnodes, lookup_insert_eq. simpl.
  split_and!; [done|lia|lia|]. intros jid j Hj Hn.
  assert (Hj' : db_jobs db !! jid = Some j) by (rewrite Heq in Hj; by destruct db).
  destruct (iv_jobs _ _ Hinv _ _ Hj') as (_ & _ & n & Hn' & Hle).
  rewrite Hn, Hold in Hn'. injection Hn' as <-. lia.
Qed.

Lemma run_audit actor action entityType entityId metadata db u db' :
  audit actor action entityType entityId metadata db = (Ok u, db') → Inv X db →
  Inv X db' ∧ evolves db db' ∧ same_tables db db'.
Proof.
  intros [l ->]%audit_ok Hinv. destruct (audit_inv X l db Hinv). split_and!; [done..|].
  by destruct db.
Qed.

(** A job together with the event that announces it. *)
Lemma run_sync_operation uuid nodeId r target key1 key2 at_ ai now db jobId db1 eventId db2 :
  job_create uuid nodeId r target key1 now db = (Ok jobId, db1) →
  event_create uuid "node-sync.requested" at_ ai
    (encode_command {| cmd_resource := r; cmd_nodeSyncJobId := jobId; cmd_targetVersion := target |})
    key2 now db1 = (Ok eventId, db2) →
  Inv X db → fresh_version db nodeId target →
  Inv X db2 ∧ evolves db db2 ∧
  db_jobs db2 = <[jobId := new_job jobId nodeId r target now]> (db_jobs db) ∧
  db_jobs db !! jobId = None ∧
  db_jobKeys db2 = <[key1 := jobId]> (db_jobKeys db) ∧
  db_eventKeys db2 = <[key2 := {| ek_id := eventId; ek_aggregateType := at_;
                                  ek_aggregateId := ai |}]> (db_eventKeys db) ∧
  db_events db2 = <[eventId := new_event eventId "node-sync.requested"
    (encode_command {| cmd_resource := r; cmd_nodeSyncJobId := jobId;
                       cmd_targetVersion := target |}) now]> (db_events db) ∧
  db_nodes db2 = db_nodes db ∧ db_devices db2 = db_devices db ∧ db_grants db2 = db_grants db ∧
  db_routes db2 = db_routes db ∧ db_endpoints db2 = db_endpoints db ∧
  db_profiles db2 = db_profiles db ∧ db_publicConfigs db2 = db_publicConfigs db ∧
  db_deliveries db2 = db_deliveries db ∧ db_acks db2 = db_acks db ∧
  db_subscriptions db2 = db_subscriptions db.
Proof.
  intros (Hnew & Hkey1 & Hck & Hdb1)%job_create_ok (Hev & Hkey2 & Hdb2)%event_create_ok Hinv Hfresh.
  destruct (job_created_inv X jobId nodeId r target key1 now db Hinv Hnew Hkey1 Hck Hfresh)
    as [Hinv1 Hev1].
  rewrite <- Hdb1 in Hinv1, Hev1.
  assert (Hj : db_jobs db1 !! jobId = Some (new_job jobId nodeId r target now)).
  { subst db1. destruct db. simpl. by rewrite lookup_insert_eq. }
  destruct (event_created_inv X jobId _ r eventId at_ ai key2 now db1 Hinv1 Hj) as [Hinv2 Hev2];
    [apply new_job_resource|done|done|].
  simpl in Hinv2, Hev2. rewrite <- Hdb2 in Hinv2, Hev2.
  split; [done|]. split; [by etrans|]. subst db2 db1. destruct db. simpl. split_and!; done.
Qed.

Lemma run_grants_update sets p data db u db' :
  grants_update sets p data db = (Ok u, db') → Inv X db →
  (∀ id g n, db_grants db !! id = Some g → p id g = true →
     db_nodes db !! gr_nodeId g = Some n → grant_checks (data g) = true → sound_grant_update n g (data g)) →
  Inv X db' ∧ evolves db db' ∧ db' = set_grants (written_grants p data) db.
Proof.
  intros [Hck ->]%grants_update_ok Hinv Hs.
  destruct (grants_written_inv X p data db Hinv) as [H1 H2]; [|done].
  intros id g n Hg Hp Hn. split; [by eapply Hck|]. eapply Hs; eauto.
Qed.

Lemma run_grant_update sets id data db u db' :
  grant_update sets id data db = (Ok u, db') → Inv X db →
  (∀ g n, db_grants db !! id = Some g → db_nodes db !! gr_nodeId g = Some n →
     grant_checks (data g) = true → sound_grant_update n g (data g)) →
  Inv X db' ∧ evolves db db' ∧ is_Some (db_grants db !! id) ∧
  db' = set_grants (alter data id) db.
Proof.
  unfold grant_update. intros H Hinv Hs. ok_inv H.
  apply is_null_false in Hguard as [g Hg].
  destruct (run_grants_update _ _ _ _ _ _ H Hinv) as (H1 & H2 & ->).
  { intros id' g' n Hg' ->%bool_decide_eq_true. eauto. }
  split_and!; [done|done|eauto|]. destruct db. simpl. f_equal.
  apply map_eq. intros id'. rewrite written_grants_lookup.
  destruct (decide (id' = id)) as [->|Hne].
  - rewrite lookup_alter_eq. simpl in *. rewrite Hg. simpl. by rewrite bool_decide_eq_true_2.
  - rewrite lookup_alter_ne by done. destruct (_ !! id'); simpl; [|done].
    by rewrite bool_decide_eq_false_2.
Qed.
End runs.

(** ** Scheduling a grant *)

(** What the idempotency keys of a scheduled grant lead to. *)
Definition grant_scheduled (db : Db) (input : ScheduleNodeAccessGrantInput)
    (r : ScheduleNodeAccessGrantResult) : Prop :=
  (∃ g, db_grants db !! sr_nodeAccessGrantId r = Some g ∧ gr_deviceId g = si_deviceId input) ∧
  db_jobKeys db !! si_syncJobIdempotencyKey input = Some (sr_nodeSyncJobId r) ∧
  (∃ j, db_jobs db !! sr_nodeSyncJobId r = Some j ∧ j_id j = sr_nodeSyncJobId r ∧
        j_nodeId j = si_nodeId input ∧ j_nodeAccessGrantId j = Some (sr_nodeAccessGrantId r) ∧
        j_targetVersion j = sr_targetVersion r) ∧
  (∃ k, db_eventKeys db !! si_outboxEventIdempotencyKey input = Some k ∧
        ek_id k = sr_outboxEventId r ∧ ek_aggregateId k = sr_nodeAccessGrantId r) ∧
  is_Some (db_events db !! sr_outboxEventId r).

Lemma grant_scheduled_evolves db db' input r :
  evolves db db' → grant_scheduled db input r → grant_scheduled db' input r.
Proof.
  intros Hev ((g & Hg & Hd) & Hk & (j & Hj & H1 & H2 & H3 & H4) & (k & Hek & H5) & [e He]).
  destruct (ev_grants _ _ Hev _ _ Hg) as (g' & Hg' & Hgn & Hgd & _).
  destruct (ev_jobs _ _ Hev _ _ Hj) as (j' & Hj' & E1 & E2 & E3 & _ & _ & E6 & _).
  destruct (ev_events _ _ Hev _ _ He) as (e' & He' & _).
  split_and!.
  - exists g'. split; congruence.
  - eapply lookup_weaken; [done|apply Hev].
  - exists j'. split_and!; congruence.
  - exists k. split; [eapply lookup_weaken; [done|apply Hev]|done].
  - eauto.
Qed.

Section schedule.
Context (uuid : nat → string) (hmac_sha256 : string → string → list Z).
Context (provider : option ApiEnvironment).

Lemma with_pepper_ok {A} (o : option A) db a db' :
  with_pepper o db = (Ok a, db') → o = Some a ∧ db' = db.
Proof. destruct o; simpl; intros H; [ok_inv H; done|discriminate H]. Qed.

Ltac pepper_inv := repeat match goal with
  | H : with_pepper _ _ = (Ok _, _) |- _ => apply with_pepper_ok in H as [_ ->]
  end.

Lemma randomUUID_ok db id db' :
  randomUUID uuid db = (Ok id, db') → id = uuid (db_drawn db) ∧ db' = set_drawn S db.
Proof. unfold randomUUID. by intros [= <- <-]. Qed.

(** A pending grant at a fresh version, with what the transaction goes on to
    read. *)
Lemma run_grant_create X id g n db u db' :
  grant_create id g db = (Ok u, db') → Inv X db →
  db_nodes db !! gr_nodeId g = Some n → 1 ≤ gr_desiredVersion g ≤ n_desiredConfigVersion n →
  gr_appliedVersion g = 0 → gr_status g = GRANT_PENDING →
  gr_revokedAt g = None →
  (∃ d, db_devices db !! gr_deviceId g = Some d ∧ dv_status d = DEVICE_ACTIVE) →
  Inv X db' ∧ evolves db db' ∧ db_grants db !! id = None ∧ db' = set_grants <[id := g]> db.
Proof.
  intros (Hck & Hnew & Hq & Hp & _ & ->)%grant_create_ok Hinv Hn Hle Ha Hst Hrv (d & Hd & Hact).
  destruct (grant_created_inv X id g n d db Hinv Hck Hnew Hq Hn Hle Ha Hst Hp Hrv Hd Hact). done.
Qed.

Lemma schedule_new_safe input now db r db' :
  schedule_new uuid hmac_sha256 provider input now db = (Ok r, db') → Inv nothing db →
  Inv nothing db' ∧ evolves db db' ∧ grant_scheduled db' input r ∧
  db_grants db !! sr_nodeAccessGrantId r = None ∧
  (∃ node, db_nodes db !! si_nodeId input = Some node ∧ n_status node = NODE_HEALTHY ∧
     sr_targetVersion r = n_desiredConfigVersion node + 1).
Proof.
  unfold schedule_new, find. intros H Hinv. ok_inv H.
  destruct (db_nodes _ !! si_nodeId input) as [assigned|] eqn:Hassigned; [|discriminate H].
  ok_inv H.
  apply negb_false_iff, bool_decide_eq_true in Hguard0.
  apply negb_false_iff, bool_decide_eq_true in Hguard.
  apply fmap_Some in Hguard as (d & Hd & Hact).
  destruct (run_increment _ _ _ _ _ Hrun Hinv) as (Hinv1 & Hev1 & Hfresh & Hdb1 & old & Hold & Hn).
  apply randomUUID_ok in Hrun0 as [Hgid Hdb2].
  destruct provider as [service|]; [|discriminate H]. ok_inv H.
  pepper_inv.
  destruct (drawn_inv nothing _ Hinv1) as [Hinv2 Hev2]. rewrite <- Hdb2 in Hinv2, Hev2.
  assert (Hnodes : db_nodes s0 = <[si_nodeId input := a1]> (db_nodes db))
    by (rewrite Hdb2, Hdb1; column).
  destruct (run_grant_create nothing _ _ a1 _ _ _ Hrun2 Hinv2) as (Hinv3 & Hev3 & Hnew & Hdb3);
    [simpl; rewrite Hnodes; apply lookup_insert_eq| |done|done|done| |].
  { destruct Hfresh as (n' & Hn' & Hv & _). simpl. lia. }
  { exists d. simpl. split; [|done]. rewrite <- Hd, Hdb2, Hdb1. column. }
  destruct (run_sync_operation nothing _ _ _ _ _ _ _ _ _ _ _ _ _ _ Hrun3 Hrun4 Hinv3)
    as (Hinv4 & Hev4 & Hjobs & _ & Hjk & Hek & Hevs & _ & _ & Hgr & _).
  { eapply fresh_version_frame; [| |exact Hfresh]; rewrite Hdb3, Hdb2, Hdb1; column. }
  destruct (run_audit nothing _ _ _ _ _ _ _ _ Hrun5 Hinv4) as (Hinv5 & Hev5 & _).
  split; [done|]. split; [by do 4 (etrans; [eassumption|])|]. split_and!.
  - apply (grant_scheduled_evolves _ _ _ _ Hev5). unfold grant_scheduled. simpl.
    rewrite Hjobs, Hjk, Hek, Hevs, !lookup_insert_eq. split_and!; eauto.
    + eexists. rewrite Hgr, Hdb3. destruct s0. simpl. rewrite lookup_insert_eq. done.
    + eexists. split; [done|]. by split_and!.
  - simpl. rewrite <- Hnew, Hdb2, Hdb1. column.
  - exists old. split; [congruence|]. split; [|subst a1; simpl; lia]. congruence.
Qed.


Lemma job_by_key_ok X key db :
  Inv X db →
  ∀ j, (db_jobKeys db !! key ≫= λ id, db_jobs db !! id) = Some j →
  db_jobKeys db !! key = Some (j_id j) ∧ db_jobs db !! j_id j = Some j.
Proof.
  intros Hinv j (id & Hk & Hj)%bind_Some.
  destruct (iv_jobs _ _ Hinv _ _ Hj) as (_ & <- & _). done.
Qed.

Lemma event_by_key_ok key db k e :
  (k ← db_eventKeys db !! key; e ← db_events db !! ek_id k; Some (k, e)) = Some (k, e) →
  db_eventKeys db !! key = Some k ∧ db_events db !! ek_id k = Some e.
Proof. intros (k' & Hk & (e' & He & [= -> ->])%bind_Some)%bind_Some. done. Qed.

Lemma schedule_existing_ok X input key1 key2 db r db' :
  Inv X db → key1 = si_syncJobIdempotencyKey input → key2 = si_outboxEventIdempotencyKey input →
  schedule_existing input (db_jobKeys db !! key1 ≫= λ id, db_jobs db !! id)
    (k ← db_eventKeys db !! key2; e ← db_events db !! ek_id k; Some (k, e)) db = (Ok r, db') →
  db' = db ∧ grant_scheduled db input r.
Proof.
  intros Hinv Hk1 Hk2 H. unfold schedule_existing in H. ok_inv H.
  destruct (db_jobKeys db !! key1 ≫= _) as [j|] eqn:Hj; [|discriminate H].
  destruct (db_eventKeys db !! key2 ≫= _) as [[k e]|] eqn:He; [|discriminate H].
  apply (job_by_key_ok _ _ _ Hinv) in Hj as [Hjk Hj].
  apply event_by_key_ok in He as [Hek He].
  destruct (j_nodeAccessGrantId j) as [gid|] eqn:Hgid; [|discriminate H].
  destruct (_ && _) eqn:Hc; [|discriminate H]. ok_inv H.
  apply andb_prop in Hc as [[H1%bool_decide_eq_true H2%bool_decide_eq_true]%andb_prop
    H3%bool_decide_eq_true].
  apply fmap_Some in H2 as (g & Hg & Hd).
  destruct (iv_jobs _ _ Hinv _ _ Hj) as (Hck & _ & _).
  split; [done|]. unfold grant_scheduled. simpl. subst key1 key2. split_and!; [by exists g|done| | |by eexists].
  - exists j. by split_and!.
  - exists k. by split_and!.
Qed.

Lemma scheduleInTransaction_safe input now db r db' :
  scheduleInTransaction uuid hmac_sha256 provider input now db = (Ok r, db') → Inv nothing db →
  Inv nothing db' ∧ evolves db db' ∧ grant_scheduled db' input r.
Proof.
  unfold scheduleInTransaction, job_by_key, event_by_key. intros H Hinv. ok_inv H.
  assert (Hex : (schedule_existing input
      (db_jobKeys db !! si_syncJobIdempotencyKey input ≫= λ id, db_jobs db !! id)
      (k ← db_eventKeys db !! si_outboxEventIdempotencyKey input;
       e ← db_events db !! ek_id k; Some (k, e)) db = (Ok r, db')) →
    Inv nothing db' ∧ evolves db db' ∧ grant_scheduled db' input r).
  { intros [-> Hr]%(schedule_existing_ok _ _ _ _ _ _ _ Hinv eq_refl eq_refl). by split_and!. }
  destruct (db_jobKeys db !! _ ≫= _) as [j|]; [by apply Hex|].
  destruct (db_eventKeys db !! _ ≫= _) as [[k e]|]; [by apply Hex|].
  destruct (schedule_new_safe _ _ _ _ _ H Hinv) as (H1 & H2 & H3 & _). done.
Qed.

(** The same call again finds what it made. *)
Lemma schedule_replay input now db r :
  grant_scheduled db input r →
  scheduleInTransaction uuid hmac_sha256 provider input now db = (Ok r, db).
Proof.
  intros ((g & Hg & Hd) & Hk & (j & Hj & H1 & H2 & H3 & H4) & (k & Hek & H5 & H6) & [e He]).
  unfold scheduleInTransaction, job_by_key, event_by_key, gets, mbind at 1 2, M_bind.
  rewrite Hk. simpl. rewrite Hj, Hek. simpl. rewrite H5, He. simpl.
  unfold schedule_existing, get, mbind, M_bind. rewrite H3, Hg. simpl.
  rewrite !bool_decide_eq_true_2 by congruence. simpl.
  unfold mret, M_ret. rewrite H1, H4, H5. by destruct r.
Qed.
End schedule.

(** ** Revocation *)

Lemma sound_revoke X db id g n now desired :
  Inv X db → db_grants db !! id = Some g → db_nodes db !! gr_nodeId g = Some n →
  gr_desiredVersion g ≤ default (gr_desiredVersion g) desired ≤ n_desiredConfigVersion n →
  sound_grant_update n g (revoke_grant now desired g).
Proof.
  intros Hinv Hg Hn Hle. destruct (iv_grants _ _ Hinv _ _ Hg) as (_ & n' & Hn' & H1 & H2 & _).
  assert (n' = n) as -> by congruence. unfold sound_grant_update, grant_le. simpl.
  split_and!; try done; by left || lia.
Qed.

(** The grant is revoked. *)
Definition revoked (db : Db) (gid : string) : Prop :=
  ∃ g, db_grants db !! gid = Some g ∧ gr_status g = GRANT_REVOKED.

(** A job tells the node about it, at a version above [v]. *)
Definition told (db : Db) (nodeId : string) (v : Z) : Prop :=
  ∃ id j, db_jobs db !! id = Some j ∧ j_nodeId j = nodeId ∧ v < j_targetVersion j.

Lemma revoked_evolves db db' gid : revoked db gid → evolves db db' → revoked db' gid.
Proof.
  intros (g & Hg & Hst) Hev. destruct (ev_grants _ _ Hev _ _ Hg) as (g' & Hg' & _ & _ & _ & _ & Hr).
  exists g'. auto.
Qed.

Lemma told_evolves db db' nodeId v : told db nodeId v → evolves db db' → told db' nodeId v.
Proof.
  intros (id & j & Hj & Hn & Hv) Hev.
  destruct (ev_jobs _ _ Hev _ _ Hj) as (j' & Hj' & _ & Hn' & _ & _ & _ & Ht & _).
  exists id, j'. split_and!; [done|congruence|congruence].
Qed.

(** The grants a transaction selects. *)
Lemma grants_where_elem p db id g :
  (id, g) ∈ grants_where p db ↔ db_grants db !! id = Some g ∧ p g = true.
Proof.
  unfold grants_where. rewrite elem_of_merge_sort, elem_of_map_to_list, map_lookup_filter_Some.
  done.
Qed.

(** No grant is created. *)
Definition no_new_grants (db db' : Db) : Prop :=
  ∀ id, db_grants db !! id = None → db_grants db' !! id = None.

#[export] Instance no_new_grants_preorder : PreOrder no_new_grants.
Proof. split; [intros ??; done|]. intros ??? H1 H2 id H. auto. Qed.

Lemma altered_no_new f gid db db' :
  db_grants db' = alter f gid (db_grants db) → no_new_grants db db'.
Proof. intros Heq id Hid. by rewrite Heq, lookup_alter_None. Qed.

Section revoke.
Context (uuid : nat → string).

(** The row of the grant at the start of the transaction, and its node. *)
Lemma grant_still X db0 db gid g0 :
  evolves db0 db → Inv X db → db_grants db0 !! gid = Some g0 →
  ∃ g n, db_grants db !! gid = Some g ∧ gr_nodeId g = gr_nodeId g0 ∧
    gr_deviceId g = gr_deviceId g0 ∧
    db_nodes db !! gr_nodeId g0 = Some n ∧ gr_desiredVersion g ≤ n_desiredConfigVersion n.
Proof.
  intros Hev Hinv Hg0. destruct (ev_grants _ _ Hev _ _ Hg0) as (g & Hg & Hn & Hd & _).
  destruct (iv_grants _ _ Hinv _ _ Hg) as (_ & n & Hnode & Hle & _).
  exists g, n. rewrite Hn in Hnode. split_and!; try done; lia.
Qed.

Lemma revoke_device_grant_safe X db0 userId deviceId now status gid g0 db u db' :
  revoke_device_grant uuid userId deviceId now status (gid, gr_nodeId g0) db = (Ok u, db') →
  db_grants db0 !! gid = Some g0 → Inv X db → evolves db0 db →
  Inv X db' ∧ evolves db db' ∧ no_new_grants db db' ∧ revoked db' gid ∧
  (∀ st n0, status (gr_nodeId g0) = Some st → isNodeInAccessControlSync st = true →
     db_nodes db0 !! gr_nodeId g0 = Some n0 →
     told db' (gr_nodeId g0) (n_desiredConfigVersion n0)).
Proof.
  intros H Hg0 Hinv Hev0. unfold revoke_device_grant in H.
  destruct (grant_still X db0 db gid g0 Hev0 Hinv Hg0) as (g & n & Hg & Hgn & _ & Hn & Hle).
  destruct (match status (gr_nodeId g0) with None => false | Some _ => _ end) eqn:Hsync.
  - ok_inv H.
    destruct (run_increment X _ _ _ _ Hrun Hinv) as (Hinv1 & Hev1 & Hfresh & Hdb1 & old & Hold & Ha).
    assert (old = n) as -> by congruence.
    assert (Hg1 : db_grants s !! gid = Some g) by (rewrite <- Hg, Hdb1; column).
    destruct (run_grant_update X _ _ _ _ _ _ Hrun0 Hinv1) as (Hinv2 & Hev2 & _ & Hdb2).
    { intros g' n' Hg' Hn' _. assert (g' = g) as -> by congruence.
      apply (sound_revoke X s gid); try done. simpl.
      assert (n' = a) as ->; [|subst a; simpl; lia].
      rewrite Hgn, Hdb1 in Hn'. destruct db. simpl in *. rewrite lookup_insert_eq in Hn'. congruence. }
    destruct (run_sync_operation X _ _ _ _ _ _ _ _ _ _ _ _ _ _ Hrun1 Hrun2 Hinv2)
      as (Hinv3 & Hev3 & Hjobs & _ & _ & _ & _ & _ & _ & Hgr & _).
    { eapply fresh_version_frame; [| |exact Hfresh]; rewrite Hdb2; column. }
    destruct (run_audit X _ _ _ _ _ _ _ _ H Hinv3) as (Hinv4 & Hev4 & _ & Hj4 & _ & Hg4 & _).
    split_and!; [done|by do 3 (etrans; [eassumption|])| | |].
    + eapply (altered_no_new _ gid). rewrite Hg4, Hgr, Hdb2, Hdb1. column.
    + eexists. rewrite Hg4, Hgr, Hdb2. destruct s. simpl in *. rewrite lookup_alter_eq, Hg1. done.
    + intros st n0 _ _ Hn0. do 2 eexists. rewrite Hj4, Hjobs, lookup_insert_eq.
      split_and!; [done|done|]. simpl. subst a. simpl.
      destruct (ev_nodes _ _ Hev0 _ _ Hn0) as (n1 & Hn1 & Hd1 & _).
      assert (n1 = n) as -> by congruence. lia.
  - ok_inv H. destruct (run_grant_update X _ _ _ _ _ _ Hrun Hinv) as (Hinv1 & Hev1 & _ & Hdb1).
    { intros g' n' Hg' Hn' _. assert (g' = g) as -> by congruence.
      apply (sound_revoke X db gid); try done. simpl. rewrite Hgn in Hn'.
      assert (n' = n) as -> by congruence. lia. }
    destruct (run_audit X _ _ _ _ _ _ _ _ H Hinv1) as (Hinv2 & Hev2 & _ & _ & _ & Hg2 & _).
    split_and!; [done|by etrans| | |].
    + eapply (altered_no_new _ gid). rewrite Hg2, Hdb1. column.
    + eexists. rewrite Hg2, Hdb1. destruct db. simpl in *. rewrite lookup_alter_eq, Hg. done.
    + intros st n0 Hst Hsync'. rewrite Hst, Hsync' in Hsync. done.
Qed.

(** A commited revocation: the device has no live grant left, and every node
    in access-control synchronisation that had one is told. *)
Definition device_cut_off (db db' : Db) (deviceId : string) : Prop :=
  (∃ d, db_devices db' !! deviceId = Some d ∧ dv_status d = DEVICE_REVOKED) ∧
  (∀ gid g, db_grants db' !! gid = Some g → gr_deviceId g = deviceId → gr_status g = GRANT_REVOKED) ∧
  (∀ gid g n, db_grants db !! gid = Some g → gr_deviceId g = deviceId → live g = true →
     db_nodes db !! gr_nodeId g = Some n → isNodeInAccessControlSync (n_status n) = true →
     told db' (gr_nodeId g) (n_desiredConfigVersion n)).

Lemma live_false g : live g = false ↔ gr_status g = GRANT_REVOKED.
Proof. unfold live. by rewrite negb_false_iff, bool_decide_eq_true. Qed.

Lemma revokeInTransaction_safe userId deviceId now db r db' :
  revokeInTransaction uuid userId deviceId now db = (Ok r, db') → Inv nothing db →
  Inv nothing db' ∧ evolves db db' ∧
  match r with
  | DeviceRevoked => device_cut_off db db' deviceId
  | _ => db' = db
  end.
Proof.
  unfold revokeInTransaction. intros H Hinv. ok_inv H.
  destruct (db_devices db !! deviceId) as [device|] eqn:Hdev; [|by ok_inv H].
  destruct (negb _); [by ok_inv H|]. case_bool_decide as Hst; [by ok_inv H|].
  ok_inv H.
  apply device_update_ok in Hrun as (old & Hold & _ & Hdb1).
  assert (old = device) as -> by congruence.
  set (new := revoke_device now device) in *.
  destruct (device_written_inv nothing deviceId device new db Hinv Hdev) as [Hinv1 Hev1]; [done|].
  rewrite <- Hdb1 in Hinv1, Hev1.
  set (X := exempt_device deviceId nothing) in *.
  eapply (for_each_ok_all (λ s, Inv X s ∧ evolves db s ∧ no_new_grants db s) evolves
    (λ gn s, revoked s gn.1 ∧ (∀ n, db_nodes db !! gn.2 = Some n →
       isNodeInAccessControlSync (n_status n) = true → told s gn.2 (n_desiredConfigVersion n))))
    in Hrun0 as ((Hinv2 & Hev2 & Hnew2) & Hev12 & Hall).
  - destruct (run_audit X _ _ _ _ _ _ _ _ Hrun1 Hinv2)
      as (Hinv3 & Hev3 & _ & Hj3 & _ & Hg3 & _).
    assert (Hcut : device_cut_off db s1 deviceId).
    { split_and!.
      - assert (Hd1 : db_devices s !! deviceId = Some new).
        { rewrite Hdb1. destruct db. simpl. apply lookup_insert_eq. }
        destruct (ev_devices _ _ (transitivity Hev12 Hev3) _ _ Hd1) as (d' & Hd' & _ & Hr & _).
        exists d'. auto.
      - intros gid g Hg Hd. rewrite Hg3 in Hg.
        destruct (db_grants db !! gid) as [g0|] eqn:Hg0; [|by rewrite (Hnew2 _ Hg0) in Hg].
        destruct (ev_grants _ _ Hev2 _ _ Hg0) as (g' & Hg' & _ & Hd' & _ & _ & Hr).
        assert (g' = g) as -> by congruence.
        destruct (live g0) eqn:Hlive; [|by apply Hr, live_false].
        destruct (Hall (gid, gr_nodeId g0)) as [(g' & Hg'' & ?) _]; [|simpl in *; congruence].
        apply list_elem_of_fmap. exists (gid, g0). split; [done|]. apply grants_where_elem.
        rewrite Hlive, bool_decide_eq_true_2 by congruence. done.
      - intros gid g n Hg Hd Hlive Hn Hsync.
        destruct (Hall (gid, gr_nodeId g)) as [_ Htold].
        { apply list_elem_of_fmap. exists (gid, g). split; [done|]. apply grants_where_elem.
          rewrite Hlive, bool_decide_eq_true_2 by congruence. done. }
        eapply told_evolves; [by apply Htold|done]. }
    split; [|split; [by etrans|done]]. eapply device_settled; [exact Hinv3|apply Hcut].
  - intros [gid nid] s2 v s3 Hin Hrun (Hinv2 & Hev2 & Hnew2).
    apply list_elem_of_fmap in Hin as ([gid' g0] & [= -> ->] & Hg0).
    pose proof Hg0 as Hin. apply grants_where_elem in Hg0 as [Hg0 _].
    destruct (revoke_device_grant_safe X db _ _ _ _ _ _ _ _ _ Hrun Hg0 Hinv2 Hev2)
      as (H1 & H2 & H3 & H4 & H5).
    split_and!; [done|by etrans|by etrans|done|done|].
    intros n Hn Hsync. eapply H5; [|done|done].
    rewrite bool_decide_eq_true_2; [simpl in *; by rewrite Hn|].
    apply list_elem_of_fmap. by exists (gid', g0).
  - intros [gid nid] s2 s3 [Hr Ht] Hev. split; [by eapply revoked_evolves|].
    intros n Hn Hsync. eapply told_evolves; eauto.
  - split_and!; [done|done|]. apply (altered_no_new id deviceId). rewrite alter_id by done.
    rewrite Hdb1. column.
Qed.

(** The answers of a revocation. *)
Lemma revokeInTransaction_cases userId deviceId now db r db' :
  revokeInTransaction uuid userId deviceId now db = (Ok r, db') →
  (r = DeviceNotFound ∧ dv_userId <$> db_devices db !! deviceId ≠ Some userId) ∨
  ∃ d, db_devices db !! deviceId = Some d ∧ dv_userId d = userId ∧
    (r = DeviceRevoked ∨ (r = DeviceAlreadyRevoked ∧ dv_status d = DEVICE_REVOKED)).
Proof.
  unfold revokeInTransaction. intros H. ok_inv H.
  destruct (db_devices db !! deviceId) as [device|]; [|ok_inv H; by left].
  case_bool_decide as Hu; simpl in H; [|ok_inv H; left; split; [done|simpl; congruence]].
  right. exists device. case_bool_decide as Hst; ok_inv H; auto.
Qed.
End revoke.

(** ** The node's lifecycle *)

(** A node that changes its status closes its routes. *)
Definition routes_closed (db : Db) (nodeId : string) : Prop :=
  ∀ k r, db_routes db !! k = Some r → rc_nodeId r = nodeId → rc_activationVersion r = None.

Lemma run_set_status X id target db n db' :
  node_update id (set_status target) db = (Ok n, db') → Inv X db →
  (∀ old, db_nodes db !! id = Some old → n_status old = NODE_QUARANTINED →
     target = NODE_QUARANTINED) →
  Inv X db' ∧ evolves db db' ∧
  ∃ old, db_nodes db !! id = Some old ∧ n = set_status target old ∧
    db_nodes db' = <[id := n]> (db_nodes db) ∧
    node_update_refused db id old n = false ∧
    (n_status old ≠ target → routes_closed db' id) ∧
    db_jobs db' = db_jobs db ∧ db_grants db' = db_grants db ∧ db_jobKeys db' = db_jobKeys db.
Proof.
  intros Hrun Hinv Hq. destruct (run_node_update X _ _ _ _ _ Hrun Hinv)
    as (H1 & H2 & old & Hold & -> & _ & Href & Hdb & Hnodes).
  { intros old Hold. unfold sound_node_update. simpl. split_and!; [lia|by apply Hq|by left]. }
  split_and!; [done|done|]. exists old. split_and!; try done.
  - intros Hne k r. rewrite Hdb. unfold node_written. simpl. rewrite bool_decide_eq_false_2 by done.
    rewrite close_routes_lookup. intros (r0 & Hr0 & ->)%fmap_Some. case_bool_decide; [done|].
    intros Hr. by destruct (decide (rc_nodeId r0 = id)).
  - rewrite Hdb. unfold node_written. destruct (bool_decide _); column.
  - rewrite Hdb. unfold node_written. destruct (bool_decide _); column.
  - rewrite Hdb. unfold node_written. destruct (bool_decide _); column.
Qed.

(** What a committed change of status means. *)
Definition status_changed (db db' : Db) (nodeId : string) (target : NodeStatus) : Prop :=
  ∃ old, db_nodes db !! nodeId = Some old ∧
    db_nodes db' = <[nodeId := set_status target old]> (db_nodes db) ∧
    (n_status old = target → db' = db) ∧
    (n_status old ≠ target → routes_closed db' nodeId ∧
       (target = NODE_HEALTHY → n_appliedConfigVersion old = n_desiredConfigVersion old)).

Lemma set_status_same n : set_status (n_status n) n = n.
Proof. by destruct n. Qed.

Lemma change_status_safe target accepted action message nodeId actor db r db' :
  change_status target accepted action message nodeId actor db = (Ok r, db') →
  Inv nothing db → NODE_QUARANTINED ∉ accepted →
  Inv nothing db' ∧ evolves db db' ∧ r = (nodeId, target) ∧ status_changed db db' nodeId target.
Proof.
  unfold change_status, find. intros H Hinv Hacc. ok_inv H.
  destruct (db_nodes db !! nodeId) as [node|] eqn:Hnode; [|discriminate H].
  case_bool_decide as Hst.
  - ok_inv H. split_and!; [done|done|done|]. exists node. split_and!; [done| |done|done].
    rewrite <- Hst, set_status_same, insert_id; done.
  - ok_inv H. apply negb_false_iff, bool_decide_eq_true in Hguard.
    destruct (run_set_status nothing _ _ _ _ _ Hrun Hinv)
      as (H1 & H2 & old & Hold & -> & Hnodes & Href & Hclosed & _).
    { intros old Hold Hq. assert (old = node) as -> by congruence. by rewrite Hq in Hguard. }
    assert (old = node) as -> by congruence.
    destruct (run_audit nothing _ _ _ _ _ _ _ _ Hrun0 H1) as (H3 & H4 & Hn & _ & _ & _ & _ & Hro & _).
    split_and!; [done|by etrans|done|]. exists node. split_and!; [done|by rewrite Hn|done|].
    intros _. split; [intros k rt; rewrite Hro; by apply Hclosed|].
    intros ->. destruct (node_update_refused_false _ _ _ _ Href) as (_ & Hh & _).
    specialize (Hh eq_refl Hst). simpl in Hh.
    pose proof (proj1 (node_checks_spec _) (iv_nodes _ _ Hinv _ _ Hnode)). lia.
Qed.

(** ** Quarantine *)
Section quarantine.
Context (uuid : nat → string).

Lemma quarantine_grants_safe input node grants now db r db' :
  quarantine_grants uuid input node grants now db = (Ok r, db') → Inv nothing db →
  db_nodes db !! qi_nodeId input = Some node →
  (∀ gid g, (gid, g) ∈ grants → db_grants db !! gid = Some g ∧ gr_nodeId g = qi_nodeId input) →
  Inv nothing db' ∧ evolves db db' ∧
  (∃ n, db_nodes db' !! qi_nodeId input = Some n ∧ n_status n = n_status node) ∧
  (grants ≠ [] → told db' (qi_nodeId input) (n_desiredConfigVersion node) ∧
     r.2 = n_desiredConfigVersion node + 1).
Proof.
  unfold quarantine_grants. intros H Hinv Hnode Hgrants.
  destruct grants as [|[lead g0] rest]; [ok_inv H; split_and!; eauto; done|].
  ok_inv H.
  destruct (run_increment nothing _ _ _ _ Hrun Hinv) as (Hinv1 & Hev1 & Hfresh & Hdb1 & old & Hold & Ha).
  assert (old = node) as -> by congruence.
  eapply (for_each_ok_inv (λ s', Inv nothing s' ∧ evolves s s' ∧ db_nodes s' = db_nodes s ∧
      db_jobs s' = db_jobs s)) in Hrun0 as (Hinv2 & Hev2 & Hn2 & Hj2).
  - destruct (run_sync_operation nothing _ _ _ _ _ _ _ _ _ _ _ _ _ _ Hrun1 Hrun2 Hinv2)
      as (Hinv3 & Hev3 & Hjobs & _ & _ & _ & _ & Hn3 & _).
    { by eapply fresh_version_frame. }
    split_and!; [done|by do 2 (etrans; [eassumption|])| |].
    + exists a. rewrite Hn3, Hn2, Hdb1, Ha. destruct db. simpl. by rewrite lookup_insert_eq.
    + intros _. split; [|simpl; by rewrite Ha]. do 2 eexists. rewrite Hjobs, lookup_insert_eq.
      split_and!; [done|done|]. simpl. rewrite Ha. simpl. lia.
  - intros gid s' v s'' Hin Hr (Hi & He & Hn & Hj).
    apply list_elem_of_fmap in Hin as ([gid' g] & -> & Hin). destruct (Hgrants _ _ Hin) as [Hg Hgn].
    assert (Hev' : evolves db s') by (by etrans).
    destruct (grant_still nothing db s' gid' g Hev' Hi Hg) as (g' & n & Hg' & Hgn' & _ & Hnode' & Hle).
    destruct (run_grant_update nothing _ _ _ _ _ _ Hr Hi) as (H1 & H2 & _ & Hdb2).
    { intros g1 n1 Hg1 Hn1 _. simpl in Hg1. assert (g1 = g') as -> by congruence.
      apply (sound_revoke nothing s' gid'); try done. simpl.
      rewrite Hgn', Hgn in Hn1. rewrite Hgn in Hnode'. assert (n1 = n) as -> by congruence.
      rewrite Hn, Hdb1 in Hnode'. destruct db. simpl in Hnode'.
      rewrite lookup_insert_eq in Hnode'. injection Hnode' as <-. lia. }
    split_and!; [done|by etrans| |].
    + rewrite <- Hn, Hdb2. column.
    + rewrite <- Hj, Hdb2. column.
  - split_and!; [done|done|done|done].
Qed.

(** A committed quarantine. *)
Definition node_cut_off (db db' : Db) (input : QuarantineNodeInput) : Prop :=
  (∃ n, db_nodes db' !! qi_nodeId input = Some n ∧ n_status n = NODE_QUARANTINED) ∧
  (∀ gid g, db_grants db' !! gid = Some g → gr_nodeId g = qi_nodeId input →
     gr_status g = GRANT_REVOKED) ∧
  routes_closed db' (qi_nodeId input) ∧
  (∀ gid g n, db_grants db !! gid = Some g → gr_nodeId g = qi_nodeId input → live g = true →
     db_nodes db !! qi_nodeId input = Some n →
     told db' (qi_nodeId input) (n_desiredConfigVersion n)).

(** What the invariant says of a quarantined node. *)
Lemma quarantined_cut_off X db nodeId n :
  Inv X db → db_nodes db !! nodeId = Some n → n_status n = NODE_QUARANTINED →
  (∀ gid g, db_grants db !! gid = Some g → gr_nodeId g = nodeId → gr_status g = GRANT_REVOKED) ∧
  routes_closed db nodeId.
Proof.
  intros Hinv Hn Hst. split.
  - intros gid g Hg <-. destruct (iv_grants _ _ Hinv _ _ Hg) as (_ & n' & Hn' & _ & _ & Hq & _).
    assert (n' = n) as -> by congruence. auto.
  - intros k r Hr <-. destruct (iv_routes _ _ Hinv _ _ Hr) as (n' & en & pr & Hn' & _ & _ & _ & _ & _ & Hact).
    destruct (rc_activationVersion r) as [v|]; [|done].
    destruct (Hact v eq_refl) as (_ & _ & Hh & _). congruence.
Qed.

Lemma node_cut_off_intro db db' input n :
  Inv nothing db' → Inv nothing db → db_nodes db' !! qi_nodeId input = Some n →
  n_status n = NODE_QUARANTINED →
  (∀ gid g n, db_grants db !! gid = Some g → gr_nodeId g = qi_nodeId input → live g = true →
     db_nodes db !! qi_nodeId input = Some n →
     told db' (qi_nodeId input) (n_desiredConfigVersion n)) →
  node_cut_off db db' input.
Proof.
  intros Hinv' Hinv Hn Hst Htold.
  destruct (quarantined_cut_off _ _ _ _ Hinv' Hn Hst). split_and!; eauto.
Qed.

Lemma quarantine_new_safe input now db r db' :
  quarantine_new uuid input now db = (Ok r, db') → Inv nothing db →
  Inv nothing db' ∧ evolves db db' ∧ node_cut_off db db' input ∧ qr_nodeId r = qi_nodeId input.
Proof.
  unfold quarantine_new. intros H Hinv. ok_inv H.
  destruct (db_nodes db !! qi_nodeId input) as [node|] eqn:Hnode; [|discriminate H].
  case_bool_decide as Hst.
  { ok_inv H. split_and!; [done|done| |done]. eapply node_cut_off_intro; [done|done|exact Hnode|done|].
    intros gid g n Hg Hgn Hlive _.
    destruct (quarantined_cut_off _ _ _ _ Hinv Hnode Hst) as [Hrev _].
    rewrite <- not_false_iff_true, live_false in Hlive. by rewrite (Hrev gid g Hg Hgn) in Hlive. }
  ok_inv H. apply negb_false_iff in Hguard.
  set (p := λ g, bool_decide (gr_nodeId g = qi_nodeId input) && live g) in *.
  destruct (quarantine_grants_safe _ _ _ _ _ _ _ Hrun Hinv Hnode)
    as (Hinv1 & Hev1 & (n1 & Hn1 & Hst1) & Htold).
  { intros gid g [Hg Hp]%grants_where_elem. apply andb_prop in Hp as [?%bool_decide_eq_true _]. done. }
  destruct a0 as [[jobId eventId] target]. simpl in H. ok_inv H.
  destruct (run_set_status nothing _ _ _ _ _ Hrun0 Hinv1)
    as (Hinv2 & Hev2 & old & Hold & -> & Hnodes & _ & _ & Hjobs & _); [done|].
  destruct (run_audit nothing _ _ _ _ _ _ _ _ Hrun1 Hinv2) as (Hinv3 & Hev3 & Hn3 & Hj3 & _).
  split_and!; [done|by do 2 (etrans; [eassumption|])| |done].
  eapply (node_cut_off_intro _ _ _ (set_status NODE_QUARANTINED old)); [done|done| |done|].
  - by rewrite Hn3, Hnodes, lookup_insert_eq.
  - intros gid g n Hg Hgn Hlive Hn. assert (n = node) as -> by congruence.
    destruct Htold as [Ht _].
    + intros Hnil. assert (Hin : (gid, g) ∈ grants_where p db).
      { apply grants_where_elem. unfold p. rewrite Hlive, bool_decide_eq_true_2; done. }
      rewrite Hnil in Hin. by apply elem_of_nil in Hin.
    + eapply told_evolves; [done|]. by etrans.
Qed.

Lemma quarantine_existing_ok input j e db r db' :
  quarantine_existing input j e db = (Ok r, db') →
  db' = db ∧ qr_nodeId r = qi_nodeId input ∧
  ∃ n, db_nodes db !! qi_nodeId input = Some n ∧ n_status n = NODE_QUARANTINED.
Proof.
  unfold quarantine_existing. intros H. ok_inv H.
  destruct j as [job|]; [|discriminate H]. destruct e as [[key event]|]; [|discriminate H].
  destruct (_ && _) eqn:Hc; [|discriminate H]. ok_inv H.
  rewrite !andb_true_iff, !bool_decide_eq_true in Hc.
  destruct Hc as (((((Hn & _) & Hst) & _) & _) & _).
  apply fmap_Some in Hst as (n & Hnode & Hst). simpl. rewrite Hn in *.
  split_and!; [done|done|]. by exists n.
Qed.

Lemma quarantine_safe input now db r db' :
  quarantine uuid input now db = (Ok r, db') → Inv nothing db →
  Inv nothing db' ∧ evolves db db' ∧ node_cut_off db db' input ∧ qr_nodeId r = qi_nodeId input.
Proof.
  unfold quarantine, job_by_key, event_by_key. intros H Hinv. ok_inv H.
  assert (Hex : ∀ j e, quarantine_existing input j e db = (Ok r, db') →
    Inv nothing db' ∧ evolves db db' ∧ node_cut_off db db' input ∧ qr_nodeId r = qi_nodeId input).
  { intros j e (-> & Hr & n & Hn & Hst)%quarantine_existing_ok. split_and!; [done|done| |done].
    eapply node_cut_off_intro; [done|done|exact Hn|done|]. intros gid g n' Hg Hgn Hlive _.
    destruct (quarantined_cut_off _ _ _ _ Hinv Hn Hst) as [Hrev _].
    rewrite <- not_false_iff_true, live_false in Hlive. by rewrite (Hrev gid g Hg Hgn) in Hlive. }
  destruct (db_jobKeys db !! _ ≫= _) as [j|]; [by eapply Hex|].
  destruct (db_eventKeys db !! _ ≫= _) as [[k e]|]; [by eapply Hex|].
  by apply quarantine_new_safe in H.
Qed.
End quarantine.

(** ** The command of an event *)

(** The identifiers of a resource are UUIDs. *)
Definition resource_uuids (is_uuid : string → bool) (r : SyncResource) : Prop :=
  match r with
  | GrantResource g => is_uuid g = true
  | RouteResource e p => is_uuid e = true ∧ is_uuid p = true
  end.

(** The worker's schema reads back every command the API writes. *)
Lemma command_decodes is_uuid c :
  resource_uuids is_uuid (cmd_resource c) → is_uuid (cmd_nodeSyncJobId c) = true →
  1 ≤ cmd_targetVersion c ≤ MAX_SAFE_INTEGER →
  Worker.nodeSyncRequestedEventSchema is_uuid (encode_command c) = Some c.
Proof.
  destruct c as [[g|e p] job v]; simpl; intros Hr Hj Hv;
    unfold Worker.nodeSyncRequestedEventSchema, encode_command,
      Worker.nodeAccessGrantSyncRequestedEventSchema,
      Worker.connectionRouteSyncRequestedEventSchema, field, Worker.zod_uuid; simpl.
  - rewrite Hr, Hj. simpl. by rewrite zod_int_min_encode by (done || (unfold version_ok; lia)).
  - destruct Hr as [-> ->]. rewrite Hj. simpl. by rewrite zod_int_min_encode by (done || (unfold version_ok; lia)).
Qed.

(** ** Publishing a route *)

(** What the idempotency keys of a published route lead to. *)
Definition route_announced (db : Db) (input : PublishConnectionRouteInput)
    (r : PublishConnectionRouteResult) : Prop :=
  let e := pi_endpointId input in
  let p := pi_connectionProfileId input in
  db_jobKeys db !! pi_syncJobIdempotencyKey input = Some (pr_nodeSyncJobId r) ∧
  (∃ j, db_jobs db !! pr_nodeSyncJobId r = Some j ∧ j_id j = pr_nodeSyncJobId r ∧
        j_nodeId j = pi_nodeId input ∧ j_routeEndpointId j = Some e ∧
        j_routeConnectionProfileId j = Some p ∧ j_targetVersion j = pr_activationVersion r) ∧
  ∃ k ev, db_eventKeys db !! pi_outboxEventIdempotencyKey input = Some k ∧
        ek_id k = pr_outboxEventId r ∧ ek_aggregateType k = "ConnectionRoute"%string ∧
        ek_aggregateId k = e ∧ db_events db !! pr_outboxEventId r = Some ev ∧
        oe_topic ev = "node-sync.requested"%string ∧
        oe_payload ev = encode_command
          (route_command e p (pr_nodeSyncJobId r) (pr_activationVersion r)).

Lemma route_announced_evolves db db' input r :
  evolves db db' → route_announced db input r → route_announced db' input r.
Proof.
  intros Hev (Hk & (j & Hj & H1 & H2 & H3 & H4 & H5) & (k & ev & Hek & H6 & H7 & H8 & He & H9 & H10)).
  destruct (ev_jobs _ _ Hev _ _ Hj) as (j' & Hj' & E1 & E2 & E3 & E4 & E5 & E6 & _).
  destruct (ev_events _ _ Hev _ _ He) as (e' & He' & E7 & E8).
  split_and!.
  - eapply lookup_weaken; [done|apply Hev].
  - exists j'. split_and!; congruence.
  - exists k, e'. split_and!; try congruence. eapply lookup_weaken; [done|apply Hev].
Qed.

(** The route is open at the version its job applies, on a healthy node, with
    its material active. *)
Definition route_published (db : Db) (input : PublishConnectionRouteInput)
    (r : PublishConnectionRouteResult) : Prop :=
  let e := pi_endpointId input in
  let p := pi_connectionProfileId input in
  db_routes db !! (e, p) = Some {| rc_nodeId := pi_nodeId input;
    rc_activationVersion := Some (pr_activationVersion r);
    rc_lastActivationVersion := pr_activationVersion r |} ∧
  (∃ n, db_nodes db !! pi_nodeId input = Some n ∧ n_status n = NODE_HEALTHY ∧
        n_desiredConfigVersion n = pr_activationVersion r ∧
        n_appliedConfigVersion n < pr_activationVersion r).

Section publish.
Context (uuid : nat → string) (is_uuid : string → bool).

Lemma node_update_ext id data1 data2 db n :
  db_nodes db !! id = Some n → data1 n = data2 n →
  node_update id data1 db = node_update id data2 db.
Proof. intros Hn Hd. unfold node_update, get, mbind, M_bind. by rewrite Hn, Hd. Qed.

Lemma publish_guard_none input db :
  publish_guard input db = None →
  ∃ node en pr, db_nodes db !! pi_nodeId input = Some node ∧ n_status node = NODE_HEALTHY ∧
    db_endpoints db !! pi_endpointId input = Some en ∧ en_nodeId en = pi_nodeId input ∧
    db_profiles db !! pi_connectionProfileId input = Some pr ∧ cp_nodeId pr = pi_nodeId input ∧
    is_Some (db_publicConfigs db !! pi_connectionProfileId input).
Proof.
  unfold publish_guard. destruct (db_nodes db !! _) as [node|]; [|done].
  case_bool_decide as H1; [|done]. simpl. case_bool_decide as H2; [|done]. simpl.
  case_bool_decide as H3; [|done]. simpl. destruct (is_null _) eqn:H4; [done|]. intros _.
  apply fmap_Some in H2 as (en & ? & ?), H3 as (pr & ? & ?). apply is_null_false in H4.
  by exists node, en, pr.
Qed.

(** The route row exists after the optional [create]. *)
Definition route_of (db : Db) (e p nodeId : string) : Prop :=
  rc_nodeId <$> db_routes db !! (e, p) = Some nodeId.

Lemma run_route_create X e p nodeId n db u db' :
  when (negb match db_routes db !! (e, p) with
             | Some r => bool_decide (rc_nodeId r = nodeId)
             | None => false
             end) (route_create e p nodeId) db = (Ok u, db') → Inv X db →
  db_nodes db !! nodeId = Some n →
  Inv X db' ∧ evolves db db' ∧ db_nodes db' = db_nodes db ∧ db_jobs db' = db_jobs db ∧
  route_of db' e p nodeId.
Proof.
  unfold route_of.
  intros [[_ (Hnone & (en & pr & Hen & Hn1 & Hpr & Hn2) & ->)%route_create_ok]|[Hr ->]]%when_ok_inv
    Hinv Hn.
  2:{ split_and!; try done. apply negb_false_iff in Hr.
      destruct (_ !! _); [apply bool_decide_eq_true in Hr; by subst|done]. }
  set (r := {| rc_nodeId := nodeId; rc_activationVersion := None; rc_lastActivationVersion := 0 |}).
  destruct (route_written_inv X (e, p) r db Hinv) as [H1 H2].
  { exists n, en, pr. pose proof (proj1 (node_checks_spec n) (iv_nodes _ _ Hinv _ _ Hn)).
    simpl. split_and!; try done; lia. }
  split_and!; [done|done|column|column|]. destruct db. simpl. by rewrite lookup_insert_eq.
Qed.

Lemma run_endpoint_activate X id db u db' :
  endpoint_set_status id MATERIAL_ACTIVE db = (Ok u, db') → Inv X db →
  Inv X db' ∧ evolves db db' ∧ db_nodes db' = db_nodes db ∧ db_jobs db' = db_jobs db ∧
  db_routes db' = db_routes db.
Proof.
  intros (old & Hold & ->)%endpoint_set_status_ok Hinv.
  rewrite (bool_decide_eq_true_2 (MATERIAL_ACTIVE = _)), andb_false_r by done. simpl.
  destruct (endpoint_activated_inv X id old (with_endpoint_status MATERIAL_ACTIVE old) db Hinv Hold)
    as [H1 H2]; [done|done|]. split_and!; [done|done|column..].
Qed.

Lemma run_profile_activate X id db u db' :
  profile_set_status id MATERIAL_ACTIVE db = (Ok u, db') → Inv X db →
  Inv X db' ∧ evolves db db' ∧ db_nodes db' = db_nodes db ∧ db_jobs db' = db_jobs db ∧
  db_routes db' = db_routes db.
Proof.
  intros (old & Hold & ->)%profile_set_status_ok Hinv.
  rewrite (bool_decide_eq_true_2 (MATERIAL_ACTIVE = _)), andb_false_r by done. simpl.
  destruct (profile_activated_inv X id old (with_profile_status MATERIAL_ACTIVE old) db Hinv Hold)
    as [H1 H2]; [done|done|]. split_and!; [done|done|column..].
Qed.

Lemma run_route_activate X e p v db u db' :
  route_activate e p v db = (Ok u, db') → Inv X db →
  Inv X db' ∧ evolves db db' ∧ same_tables db (set_routes (λ _, db_routes db) db') ∧
  db_jobKeys db' = db_jobKeys db ∧ db_eventKeys db' = db_eventKeys db ∧
  db_events db' = db_events db ∧
  ∀ nodeId, route_of db e p nodeId → db_routes db' !! (e, p) = Some {| rc_nodeId := nodeId;
    rc_activationVersion := Some v; rc_lastActivationVersion := v |}.
Proof.
  unfold route_of. intros (old & Hold & H)%route_activate_ok Hinv. rewrite Hold. simpl.
  destruct H as [[Hv ->]|[Hval ->]].
  - split_and!; try done; [by destruct db|]. intros nodeId [= <-].
    destruct (iv_routes _ _ Hinv _ _ Hold) as (n & en & pr & _ & _ & _ & _ & _ & _ & Hact).
    destruct (Hact v Hv) as (Hlast & _). rewrite Hold. destruct old. simpl in *. by subst.
  - destruct (activation_valid_ok _ _ _ _ _ _ Hinv Hval) as [_ Hok].
    destruct (route_written_inv X _ _ db Hinv Hok) as [H1 H2]. split_and!; try done.
    + by destruct db.
    + column.
    + column.
    + column.
    + intros nodeId [= <-]. destruct db. simpl. by rewrite lookup_insert_eq.
Qed.

(** [activationVersion] is the next version of the node. *)
Lemma run_set_next X id n db a db' :
  node_update id (set_desired (n_desiredConfigVersion n + 1)) db = (Ok a, db') → Inv X db →
  db_nodes db !! id = Some n →
  Inv X db' ∧ evolves db db' ∧ fresh_version db' id (n_desiredConfigVersion n + 1) ∧
  db_nodes db' = <[id := increment_desired n]> (db_nodes db) ∧ db_routes db' = db_routes db.
Proof.
  intros Hrun Hinv Hn.
  erewrite (node_update_ext id _ increment_desired) in Hrun; [|exact Hn|done].
  destruct (run_increment X _ _ _ _ Hrun Hinv) as (H1 & H2 & H3 & H4 & old & Hold & ->).
  assert (old = n) as -> by congruence. split_and!; [done|done|exact H3|..]; rewrite H4; column.
Qed.

Lemma publish_new_safe input now db r db' :
  publish_new uuid input now db = (Ok r, db') → Inv nothing db →
  Inv nothing db' ∧ evolves db db' ∧ route_announced db' input r ∧ route_published db' input r.
Proof.
  unfold publish_new. intros H Hinv. ok_inv H.
  destruct (publish_guard input db) eqn:Hg; [discriminate H|].
  apply publish_guard_none in Hg as (node & en & pr & Hnode & Hhealthy & _).
  rewrite Hnode in H. ok_inv H.
  destruct (run_route_create nothing _ _ _ _ _ _ _ Hrun Hinv Hnode) as (I1 & E1 & N1 & J1 & R1).
  destruct (run_endpoint_activate nothing _ _ _ _ Hrun0 I1) as (I2 & E2 & N2 & J2 & R2).
  destruct (run_profile_activate nothing _ _ _ _ Hrun1 I2) as (I3 & E3 & N3 & J3 & R3).
  destruct (run_set_next nothing _ node _ _ _ Hrun2 I3) as (I4 & E4 & F4 & N4 & R4);
    [by rewrite N3, N2, N1|].
  destruct (run_sync_operation nothing _ _ _ _ _ _ _ _ _ _ _ _ _ _ Hrun3 Hrun4 I4 F4)
    as (I5 & E5 & J5 & _ & K5 & K5' & V5 & N5 & _ & _ & R5 & _).
  destruct (run_route_activate nothing _ _ _ _ _ _ Hrun5 I5)
    as (I6 & E6 & T6 & K6 & K6' & V6 & R6).
  destruct (run_audit nothing _ _ _ _ _ _ _ _ Hrun6 I6) as (I7 & E7 & T7).
  split; [done|]. split; [by do 6 (etrans; [eassumption|])|].
  assert (Ann : route_announced s4 input
    {| pr_nodeSyncJobId := a3; pr_outboxEventId := a4;
       pr_activationVersion := n_desiredConfigVersion node + 1 |}).
  { unfold route_announced. simpl. rewrite J5, K5, K5', V5, !lookup_insert_eq.
    split_and!; [done| |].
    - eexists. split; [done|]. by split_and!.
    - do 2 eexists. split; [done|]. by split_and!. }
  pose proof (route_announced_evolves _ _ _ _ (transitivity E6 E7) Ann) as Ann'.
  split; [exact Ann'|].
  destruct T6 as (TN6 & _), T7 as (TN7 & _ & _ & _ & _ & TR7 & _).
  split; unfold route_of in *; simpl in *.
  - rewrite TR7. apply R6. by rewrite R5, R4, R3, R2.
  - exists (increment_desired node).
    assert (Heq : db_nodes s6 = db_nodes s4) by (rewrite TN7; by destruct s5).
    rewrite Heq, N5, N4, lookup_insert_eq.
    pose proof (proj1 (node_checks_spec node) (iv_nodes _ _ Hinv _ _ Hnode)).
    simpl. split_and!; [done|done|done|lia].
Qed.

Lemma publish_existing_ok X input key1 key2 db r db' :
  Inv X db → key1 = pi_syncJobIdempotencyKey input → key2 = pi_outboxEventIdempotencyKey input →
  publish_existing is_uuid input (db_jobKeys db !! key1 ≫= λ id, db_jobs db !! id)
    (k ← db_eventKeys db !! key2; e ← db_events db !! ek_id k; Some (k, e)) db = (Ok r, db') →
  db' = db.
Proof.
  intros Hinv Hk1 Hk2 H. unfold publish_existing in H.
  destruct (db_jobKeys db !! key1 ≫= _) as [j|] eqn:Hj; [|discriminate H].
  destruct (db_eventKeys db !! key2 ≫= _) as [[k e]|] eqn:He; [|discriminate H].
  destruct (_ && _) eqn:Hc; [|discriminate H]. by ok_inv H.
Qed.

Lemma publish_safe input now db r db' :
  publishConnectionRoute uuid is_uuid input now db = (Ok r, db') → Inv nothing db →
  Inv nothing db' ∧ evolves db db' ∧
  (db' ≠ db → route_announced db' input r ∧ route_published db' input r).
Proof.
  unfold publishConnectionRoute, job_by_key, event_by_key. intros H Hinv. ok_inv H.
  assert (Hex : publish_existing is_uuid input
      (db_jobKeys db !! pi_syncJobIdempotencyKey input ≫= λ id, db_jobs db !! id)
      (k ← db_eventKeys db !! pi_outboxEventIdempotencyKey input;
       e ← db_events db !! ek_id k; Some (k, e)) db = (Ok r, db') →
    Inv nothing db' ∧ evolves db db' ∧
    (db' ≠ db → route_announced db' input r ∧ route_published db' input r)).
  { intros ->%(publish_existing_ok _ _ _ _ _ _ _ Hinv eq_refl eq_refl). by split_and!. }
  destruct (db_jobKeys db !! _ ≫= _) as [j|]; [by apply Hex|].
  destruct (db_eventKeys db !! _ ≫= _) as [[k e]|]; [by apply Hex|].
  destruct (publish_new_safe _ _ _ _ _ H Hinv) as (H1 & H2 & H3 & H4). by split_and!.
Qed.

(** The same call again finds what it made. *)
Lemma publish_replay input now db r :
  is_uuid (pi_endpointId input) = true → is_uuid (pi_connectionProfileId input) = true →
  is_uuid (pr_nodeSyncJobId r) = true → 1 ≤ pr_activationVersion r ≤ MAX_SAFE_INTEGER →
  route_announced db input r →
  publishConnectionRoute uuid is_uuid input now db = (Ok r, db).
Proof.
  intros U1 U2 U3 Hv (Hk & (j & Hj & H1 & H2 & H3 & H4 & H5) &
    (k & ev & Hek & H6 & H7 & H8 & He & H9 & H10)).
  unfold publishConnectionRoute, atomically, job_by_key, event_by_key, gets, mbind at 1 2, M_bind.
  rewrite Hk. simpl. rewrite Hj, Hek. simpl. rewrite H6, He. simpl.
  unfold publish_existing. rewrite H10, (command_decodes is_uuid) by done. simpl.
  rewrite H3, H4, H7, H8, H9, H1, H2, H5, Z.eqb_refl, !bool_decide_eq_true_2 by done. simpl.
  unfold mret, M_ret. rewrite H6. by destruct r.
Qed.
End publish.
