(* ===== verification/NodeAgentApi.v ===== *)
(** * The node agent's side of the API

    [apps/api/src/node-agent/]: the configuration snapshot, heartbeats and the
    three endpoints of the controller; and [NodeAgentCredentialService] of
    [apps/api/src/orchestration/], which authenticates them.  SHA-256 of a
    JSON text, HMAC-SHA-256 and the ISO text of an instant are parameters. *)

From Stdlib Require Import Ascii.
From S2P Require Import Prelude.
From S2P Require Import Json.
From S2P Require Import Sql.
From S2P Require Import OutboxStore.
From S2P Require Import NodeSyncStore.
From S2P Require Import NodeAgentContract.
From S2P Require Import XrayAccess.
From S2P Require Import ControlPlane.
From S2P Require Import DataPlaneCredential.
From S2P Require Import AccessPolicy.
From S2P Require Import Orchestration.
Open Scope Z_scope.

(** [ORDER BY "desiredVersion", "id"] *)
Definition version_order (x y : string * NodeAccessGrant) : Prop :=
  gr_desiredVersion x.2 < gr_desiredVersion y.2 ∨
  (gr_desiredVersion x.2 = gr_desiredVersion y.2 ∧ String.le x.1 y.1).
#[export] Instance version_order_dec x y : Decision (version_order x y).
Proof. unfold version_order. apply _. Defined.

(** [ORDER BY "completedAt" DESC, "id"], where [completedAt] is set. *)
Definition completion_order (x y : NodeSyncJob) : Prop :=
  let at_ j := default 0 (j_completedAt j) in
  at_ y < at_ x ∨ (at_ x = at_ y ∧ String.le (j_id x) (j_id y)).
#[export] Instance completion_order_dec x y : Decision (completion_order x y).
Proof. unfold completion_order. apply _. Defined.

(** [ORDER BY route."activationVersion", endpoint."id", profile."id"] *)
Definition route_order (x y : NodeAgentConnectionRoute) : Prop :=
  rt_activationVersion x < rt_activationVersion y ∨
  (rt_activationVersion x = rt_activationVersion y ∧
   if decide (ep_id (rt_endpoint x) = ep_id (rt_endpoint y))
   then String.le (pr_id (rt_profile x)) (pr_id (rt_profile y))
   else String.le (ep_id (rt_endpoint x)) (ep_id (rt_endpoint y))).
#[export] Instance route_order_dec x y : Decision (route_order x y).
Proof. unfold route_order. destruct (decide (ep_id _ = _)); apply _. Defined.

Section api.
Context (uuid : nat → string) (hmac_sha256 : string → string → list Z).
Context (is_uuid : string → bool) (sha256 : json → string).
Context `{DateStrings}.
(** [DATA_PLANE_CREDENTIAL_PEPPER] and [NODE_AGENT_CREDENTIAL_PEPPER] *)
Context (environment : ApiEnvironment) (agentPepper : option string).

(** ** [NodeAgentConfigurationService.snapshotInTransaction] *)

Definition snapshot_grant (nodeId : string) (now : Z) (row : string * NodeAccessGrant)
    : DbM NodeAgentGrant :=
  let '(id, g) := row in
  let eligible := live g && (now <? gr_expiresAt g) &&
    bool_decide (gr_dataPlaneCredentialDerivationVersion g =
                 Some DATA_PLANE_CREDENTIAL_DERIVATION_VERSION) in
  credential ← (if (eligible : bool) then
      c ← with_pepper (derive hmac_sha256 environment
            {| b_grantId := id; b_deviceId := gr_deviceId g; b_nodeId := nodeId |});
      valid ← with_pepper (verifyHash hmac_sha256 environment c (gr_dataPlaneCredentialHash g));
      mret (if (valid : bool) then Some c else None)
    else mret None);
  mret {| g_id := id; g_status := gr_status g; g_expiresAt := toISOString (gr_expiresAt g);
          g_desiredVersion := gr_desiredVersion g; g_appliedVersion := gr_appliedVersion g;
          g_revokedAt := toISOString <$> gr_revokedAt g;
          g_dataPlaneCredential := credential |}.

(** The joined rows of an activated route of the node, up to its desired version. *)
Definition snapshot_route (db : Db) (nodeId : string) (desired : Z)
    (row : (string * string) * RouteColumns) : option NodeAgentConnectionRoute :=
  let '((e, p), r) := row in
  v ← rc_activationVersion r;
  en ← db_endpoints db !! e;
  pr ← db_profiles db !! p;
  config ← db_publicConfigs db !! p;
  guard (rc_nodeId r = nodeId);; guard (v ≤ desired);;
  guard (en_nodeId en = nodeId);; guard (en_status en = MATERIAL_ACTIVE);;
  guard (cp_nodeId pr = nodeId);; guard (cp_status pr = MATERIAL_ACTIVE);;
  Some {| rt_activationVersion := v;
          rt_endpoint := {| ep_id := e; ep_host := en_host en; ep_addressKind := en_addressKind en;
                            ep_port := en_port en; ep_priority := en_priority en |};
          rt_profile := {| pr_id := p; pr_profileKey := cp_profileKey pr; pr_version := cp_version pr;
                           pr_protocolKind := cp_protocolKind pr;
                           pr_transportKind := cp_transportKind pr;
                           pr_securityKind := cp_securityKind pr; pr_priority := cp_priority pr |};
          rt_publicConfig := config |}.

Definition snapshot_routes (db : Db) (nodeId : string) (desired : Z)
    : list NodeAgentConnectionRoute :=
  merge_sort route_order (omap (snapshot_route db nodeId desired) (map_to_list (db_routes db))).

Definition awaiting_acknowledgement (db : Db) (nodeId : string) (desired : Z) (j : NodeSyncJob)
    : bool :=
  bool_decide (j_nodeId j = nodeId) && (j_targetVersion j =? desired) &&
  bool_decide (j_status j = JOB_SUCCEEDED) && is_null (db_acks db !! j_id j).

Definition pending_job (db : Db) (nodeId : string) (node : Node) : option NodeSyncJob :=
  if n_appliedConfigVersion node <? n_desiredConfigVersion node then
    head (merge_sort completion_order
      (rows (sql_where (awaiting_acknowledgement db nodeId (n_desiredConfigVersion node))
               (db_jobs db))))
  else None.

(** The document the hash covers. *)
Definition snapshot_document (targetVersion : Z) (grants : list NodeAgentGrant)
    (routes : list NodeAgentConnectionRoute) : json :=
  JObj [("targetVersion", jint targetVersion); ("grants", JArr (encode_grant <$> grants));
        ("routes", JArr (encode_route <$> routes))]%string.

Definition snapshotInTransaction (nodeId : string) (now : Z)
    : DbM NodeAgentConfigurationSnapshot :=
  db ← get;
  match db_nodes db !! nodeId with
  | None => throw (Database RecordNotFound)
  | Some node =>
      let desired := n_desiredConfigVersion node in
      let pendingAcknowledgement := pending_job db nodeId node in
      grants ← mapM (snapshot_grant nodeId now)
        (merge_sort version_order
          (map_to_list (filter (λ kv, gr_nodeId kv.2 = nodeId) (db_grants db))));
      let routes := snapshot_routes db nodeId desired in
      let snapshotHash := sha256 (snapshot_document desired grants routes) in
      match pendingAcknowledgement with
      | Some job => delivery_create (j_id job) snapshotHash
          {| nd_nodeId := nodeId; nd_targetVersion := j_targetVersion job |}
      | None => mret tt
      end;;
      mret {| sn_desiredConfigVersion := desired;
              sn_appliedConfigVersion := n_appliedConfigVersion node;
              sn_pendingAcknowledgement :=
                (λ job, {| ack_nodeSyncJobId := j_id job; ack_targetVersion := j_targetVersion job;
                           ack_snapshotHash := snapshotHash |}) <$> pendingAcknowledgement;
              sn_grants := grants; sn_routes := routes |}
  end.

(** ** [NodeAgentHeartbeatService.recordInTransaction] *)

Definition recordInTransaction (nodeId : string) (now : Z) : DbM unit :=
  node_update nodeId (set_heartbeat now);; mret tt.

(** ** [NodeAgentCredentialService] *)

(** [/^[A-Za-z0-9_-]{43}$/] *)
Definition secret_char (a : ascii) : bool :=
  id_char a || Ascii.eqb a "_".
Definition nodeAgentCredentialPattern (s : string) : bool :=
  (String.length s =? 43)%nat && string_forall secret_char s.

Definition hashSecret (secret : string) : DbM string :=
  match agentPepper with
  | Some p => if bool_decide (p = EmptyString)
              then throw (Thrown "Node agent credential pepper is not configured")
              else mret (to_hex (hmac_sha256 p secret))
  | None => throw (Thrown "Node agent credential pepper is not configured")
  end.

(** [updateMany({ where: { nodeId, revokedAt: null }, data: { revokedAt } })] *)
Definition unrevoked (nodeId : string) (c : NodeAgentCredential) : bool :=
  bool_decide (nc_nodeId c = nodeId) && is_null (nc_revokedAt c).
Definition revoke_credentials (nodeId : string) (now : Z) : DbM nat :=
  db ← get;
  modify (set_agentCredentials (sql_set (unrevoked nodeId)
    (λ c, {| nc_nodeId := nc_nodeId c; nc_secretHash := nc_secretHash c;
             nc_revokedAt := Some now |})));;
  mret (length (rows (sql_where (unrevoked nodeId) (db_agentCredentials db)))).

(** [secret]: what [randomBytes(32).toString('base64url')] yields. *)
Definition rotate (nodeId secret : string) (now : Z) : DbM (string * string) :=
  secretHash ← hashSecret secret;
  atomically (
    applied_version nodeId;;
    revoke_credentials nodeId now;;
    id ← randomUUID uuid;
    db ← get;
    throw_if (negb (is_null (db_agentCredentials db !! id)) ||
              exists_row (λ c, bool_decide (nc_secretHash c = secretHash)) (db_agentCredentials db))
      (Database UniqueViolation);;
    modify (set_agentCredentials <[id := {| nc_nodeId := nodeId; nc_secretHash := secretHash;
                                            nc_revokedAt := None |}]>);;
    audit None "node-agent-credential.rotated" "Node" nodeId
      (JObj [("credentialId"%string, JStr id)]);;
    mret (id, secret)).

Definition revokeCredential (nodeId : string) (now : Z) : DbM bool :=
  atomically (
    count ← revoke_credentials nodeId now;
    if (count =? 0)%nat then mret false else
    audit None "node-agent-credential.revoked" "Node" nodeId JNull;;
    mret true).

(** The credential a secret authenticates. *)
Definition authenticates (db : Db) (secretHash : string) (c : NodeAgentCredential) : bool :=
  bool_decide (nc_secretHash c = secretHash) && is_null (nc_revokedAt c) &&
  match db_nodes db !! nc_nodeId c with
  | Some node => isNodeAgentAuthAllowed (n_status node)
  | None => false
  end.

Definition withAuthenticatedNodeTransaction {T} (secret : string)
    (operation : string → DbM T) : DbM (option T) :=
  if negb (nodeAgentCredentialPattern secret) then mret None else
  atomically (
    secretHash ← hashSecret secret;
    db ← get;
    match rows (sql_where (authenticates db secretHash) (db_agentCredentials db)) with
    | [] => mret None
    | credential :: _ => t ← operation (nc_nodeId credential); mret (Some t)
    end).

(** ** [NodeAgentController] *)

Inductive HttpError :=
| Unauthorized
| BadRequest
| Conflict
| Internal (e : ApiError).

Notation HttpM := (M Db HttpError).

(** [/^Bearer ([A-Za-z0-9_-]{43})$/] *)
Definition extractBearerToken (authorization : option string) : string :=
  let text := default EmptyString authorization in
  let token := String.substring 7 (String.length text - 7) text in
  if bool_decide (String.substring 0 7 text = "Bearer "%string) && nodeAgentCredentialPattern token
  then token else EmptyString.

(** Runs a transaction; an error it throws becomes a response. *)
Definition respond {T} (on_error : ApiError → HttpError) (m : DbM (option T)) : HttpM T := λ db,
  match m db with
  | (Ok (Some t), db') => (Ok t, db')
  | (Ok None, db') => (Throw Unauthorized, db')
  | (Throw e, db') => (Throw (on_error e), db')
  end.

Definition configurationSnapshot (authorization : option string) (now : Z)
    : HttpM NodeAgentConfigurationSnapshot :=
  respond Internal (withAuthenticatedNodeTransaction (extractBearerToken authorization)
    (λ nodeId, snapshotInTransaction nodeId now)).

Definition heartbeat (authorization : option string) (now : Z) : HttpM unit :=
  respond Internal (withAuthenticatedNodeTransaction (extractBearerToken authorization)
    (λ nodeId, recordInTransaction nodeId now)).

(** [error.message.startsWith('Node sync job')] *)
Definition acknowledgement_error (e : ApiError) : HttpError :=
  match e with
  | Thrown message =>
      if bool_decide (String.substring 0 13 message = "Node sync job"%string)
      then Conflict else Internal e
  | Database _ => Internal e
  end.

Definition acknowledge (body : json) (authorization : option string) (now : Z) : HttpM unit :=
  match nodeAgentAcknowledgementSchema is_uuid body with
  | None => throw BadRequest
  | Some a =>
      respond acknowledgement_error (
        withAuthenticatedNodeTransaction (extractBearerToken authorization) (λ nodeId,
          acknowledgeNodeConfigInTransaction
            {| ai_nodeId := nodeId; ai_nodeSyncJobId := ack_nodeSyncJobId a;
               ai_targetVersion := ack_targetVersion a;
               ai_snapshotHash := ack_snapshotHash a |} now;; mret tt))
  end.
End api.
