(* ===== verification/NodeAgentApiSafety.v ===== *)
(** * The node agent's side keeps the invariant

    The acknowledgement of a configuration, the snapshot that delivers it, the
    heartbeat and the agents' credentials: what a committed transaction leaves,
    and that an acknowledgement that may be made is made. *)

From S2P Require Import Prelude.
From S2P Require Import Json.
From S2P Require Import Sql.
From S2P Require Import OutboxStore.
From S2P Require Import NodeSyncStore.
From S2P Require Import NodeAgentContract.
From S2P Require Import XrayAccess.
From S2P Require Import ControlPlane.
From S2P Require Import DataPlaneCredential.
From S2P Require Import AccessPolicy.
From S2P Require Import ControlPlaneInvariant.
From S2P Require Import Orchestration.
From S2P Require Import OrchestrationSafety.
From S2P Require Import NodeAgentApi.
Open Scope Z_scope.

(** ** Acknowledging a configuration *)

(** What a committed acknowledgement leaves: its row, an applied version that
    is the greatest of the old one and the acknowledged one, and exactly the
    node's grants up to that version applied. *)
Definition acknowledged (db db' : Db) (input : AcknowledgeNodeConfigInput)
    (r : AcknowledgeNodeConfigResult) : Prop :=
  (∃ a, db_acks db' !! ai_nodeSyncJobId input = Some a ∧ na_nodeId a = ai_nodeId input ∧
     na_targetVersion a = ai_targetVersion input ∧ na_snapshotHash a = ai_snapshotHash input) ∧
  (∃ n n', db_nodes db !! ai_nodeId input = Some n ∧ db_nodes db' !! ai_nodeId input = Some n' ∧
     n_status n' = n_status n ∧
     n_appliedConfigVersion n' = Z.max (n_appliedConfigVersion n) (ai_targetVersion input) ∧
     ar_appliedConfigVersion r = n_appliedConfigVersion n') ∧
  db_grants db' = written_grants (λ _, unapplied (ai_nodeId input) (ai_targetVersion input))
                    apply_grant (db_grants db).

Lemma run_apply_grants X nodeId target n db u db' :
  apply_grants nodeId target db = (Ok u, db') → Inv X db →
  db_nodes db !! nodeId = Some n → target ≤ n_appliedConfigVersion n →
  Inv X db' ∧ evolves db db' ∧
  db' = set_grants (written_grants (λ _, unapplied nodeId target) apply_grant) db.
Proof.
  intros Hrun Hinv Hn Hle. eapply run_grants_update; [exact Hrun|done|].
  intros id g n' Hg Hp Hn' _. unfold unapplied in Hp.
  apply andb_prop in Hp as [[Hnode%bool_decide_eq_true Hd%Z.leb_le]%andb_prop Ha%Z.ltb_lt].
  assert (n' = n) as -> by congruence.
  destruct (iv_grants _ _ Hinv _ _ Hg) as (Hck & n' & Hn'' & Hdes & _ & Hq & _).
  assert (n' = n) as -> by congruence. apply grant_checks_spec in Hck as (Hv & _).
  unfold sound_grant_update, grant_le. simpl. split_and!; try done; try lia.
  - intros Hr. by rewrite Hr.
  - by right.
Qed.

Lemma acknowledgeable_ok input db :
  acknowledgeable input db = true →
  ∃ j, db_jobs db !! ai_nodeSyncJobId input = Some j ∧ j_nodeId j = ai_nodeId input ∧
    j_targetVersion j = ai_targetVersion input ∧ j_status j = JOB_SUCCEEDED ∧
    ∃ d, db_deliveries db !! (ai_nodeSyncJobId input, ai_snapshotHash input) = Some d ∧
      nd_nodeId d = ai_nodeId input ∧ nd_targetVersion d = ai_targetVersion input.
Proof.
  unfold acknowledgeable. destruct (db_jobs db !! _) as [j|]; [|done].
  destruct (db_deliveries db !! _) as [d|]; [|by rewrite andb_false_r].
  rewrite !andb_true_iff, !bool_decide_eq_true, !Z.eqb_eq. intros (((H1 & H2) & H3) & H4 & H5).
  exists j. split_and!; try done. by exists d.
Qed.

Lemma applied_version_ok nodeId db v db' :
  applied_version nodeId db = (Ok v, db') →
  db' = db ∧ ∃ n, db_nodes db !! nodeId = Some n ∧ n_appliedConfigVersion n = v.
Proof.
  unfold applied_version, find. intros H. ok_inv H.
  destruct (db_nodes db !! nodeId) as [n|] eqn:Hn; [|discriminate H]. ok_inv H. eauto.
Qed.

(** The node row after the acknowledgement of [target]. *)
Lemma run_apply_version X nodeId job target current n a db v db' :
  (if current <? target
   then node ← node_update nodeId (set_applied target); mret (n_appliedConfigVersion node)
   else mret current) db = (Ok v, db') →
  Inv X db → db_nodes db !! nodeId = Some n → n_appliedConfigVersion n = current →
  db_acks db !! job = Some a → na_nodeId a = nodeId → na_targetVersion a = target →
  Inv X db' ∧ evolves db db' ∧ v = Z.max current target ∧
  db_nodes db' !! nodeId = Some (set_applied v n) ∧ db_grants db' = db_grants db ∧
  db_acks db' = db_acks db.
Proof.
  intros H Hinv Hn Hc Ha Hid Ht. destruct (current <? target) eqn:Hlt.
  - apply Z.ltb_lt in Hlt. ok_inv H.
    destruct (run_node_update X _ _ _ _ _ Hrun Hinv)
      as (H1 & H2 & old & Hold & -> & _ & _ & Hdb & Hnodes).
    { intros old Hold. unfold sound_node_update. simpl. split_and!; [lia|done|].
      right. right. by exists job, a. }
    assert (old = n) as -> by congruence. simpl.
    rewrite (Z.max_r _ _) by lia. split_and!; try done.
    + by rewrite Hnodes, lookup_insert_eq.
    + rewrite Hdb. unfold node_written. rewrite bool_decide_eq_true_2 by done. column.
    + rewrite Hdb. unfold node_written. rewrite bool_decide_eq_true_2 by done. column.
  - apply Z.ltb_ge in Hlt. ok_inv H. rewrite (Z.max_l _ _) by lia.
    split_and!; try done. rewrite Hn, <- Hc. by destruct n.
Qed.

Lemma acknowledge_safe input now db r db' :
  acknowledgeNodeConfigInTransaction input now db = (Ok r, db') → Inv nothing db →
  Inv nothing db' ∧ evolves db db' ∧ acknowledged db db' input r.
Proof.
  unfold acknowledgeNodeConfigInTransaction, find. intros H Hinv. ok_inv H.
  destruct (db_acks db !! ai_nodeSyncJobId input) as [a|] eqn:Hack.
  - ok_inv H. apply applied_version_ok in Hrun as (-> & n & Hn & Ha).
    rewrite !orb_false_iff, !negb_false_iff, !bool_decide_eq_true, Z.eqb_eq in Hguard.
    destruct Hguard as [[H1 H2] H3].
    destruct (iv_acks _ _ Hinv _ _ Hack) as (_ & _ & [[]|(n' & Hn' & Hle)]).
    assert (n' = n) as -> by congruence.
    destruct (run_apply_grants nothing _ _ n _ _ _ Hrun0 Hinv Hn) as (I1 & E1 & Hdb); [lia|].
    split; [done|]. split; [done|]. unfold acknowledged. simpl. rewrite Hdb. split_and!.
    + exists a. split_and!; try done. rewrite <- Hack. column.
    + exists n, n. split_and!; [done| |done|lia|done]. rewrite <- Hn. column.
    + column.
  - ok_inv H. apply negb_false_iff in Hguard.
    apply applied_version_ok in Hrun as (-> & n & Hn & Ha).
    apply ack_create_ok in Hrun0 as (Hval & Hnone & Hs0).
    destruct (acknowledged_inv nothing _ _ db Hinv Hval Hnone) as [I1 E1].
    rewrite <- Hs0 in I1, E1. set (X := exempt_ack (ai_nodeSyncJobId input) nothing) in *.
    set (row := {| na_nodeId := ai_nodeId input; na_targetVersion := ai_targetVersion input;
                   na_snapshotHash := ai_snapshotHash input; na_acknowledgedAt := now |}) in *.
    assert (Hrow : db_acks s0 !! ai_nodeSyncJobId input = Some row).
    { rewrite Hs0. destruct db. simpl. apply lookup_insert_eq. }
    assert (Hn0 : db_nodes s0 !! ai_nodeId input = Some n) by (rewrite <- Hn, Hs0; column).
    destruct (run_apply_version X _ _ _ _ n row _ _ _ Hrun1 I1 Hn0 Ha Hrow eq_refl eq_refl)
      as (I2 & E2 & Hv & Hn1 & Hg1 & Ha1).
    assert (I2' : Inv nothing s1).
    { eapply (ack_settled nothing _ row); [exact I2|by rewrite Ha1|exact Hn1|]. simpl. lia. }
    destruct (run_apply_grants nothing _ _ _ _ _ _ Hrun2 I2' Hn1) as (I3 & E3 & Hdb); [simpl; lia|].
    destruct (run_audit nothing _ _ _ _ _ _ _ _ Hrun3 I3)
      as (I4 & E4 & Hn4 & _ & _ & Hg4 & Ha4 & _).
    split; [done|]. split; [by do 3 (etrans; [eassumption|])|]. unfold acknowledged. simpl.
    rewrite Hn4, Hg4, Ha4, Hdb. split_and!.
    + exists row. split_and!; try done. rewrite <- Hrow, <- Ha1. column.
    + exists n, (set_applied (Z.max (n_appliedConfigVersion n) (ai_targetVersion input)) n).
      split_and!; try done; [|by rewrite Hv, Ha]. rewrite Ha, <- Hv, <- Hn1. column.
    + trans (written_grants (λ _, unapplied (ai_nodeId input) (ai_targetVersion input)) apply_grant
               (db_grants s1)); [column|]. rewrite Hg1, Hs0. column.
Qed.

(** ** An acknowledgement completes *)

(** What an acknowledgement repeats or may claim. *)
Definition acknowledgement_accepted (input : AcknowledgeNodeConfigInput) (db : Db) : bool :=
  match db_acks db !! ai_nodeSyncJobId input with
  | Some a => bool_decide (na_nodeId a = ai_nodeId input) &&
              (na_targetVersion a =? ai_targetVersion input) &&
              bool_decide (na_snapshotHash a = ai_snapshotHash input)
  | None => acknowledgeable input db
  end.

Lemma grants_update_runs sets p data db :
  (∀ id g, db_grants db !! id = Some g → p id g = true →
     live_on_quarantined db (data g) = false ∧ grant_checks (data g) = true) →
  grants_update sets p data db = (Ok tt, set_grants (written_grants p data) db).
Proof.
  intros Hok. unfold grants_update. autorewrite with run.
  assert (Hsel : ∀ f : NodeAccessGrant → bool,
    (∀ id g, db_grants db !! id = Some g → p id g = true → f g = false) →
    exists_row f (filter (λ kv, p kv.1 kv.2 = true) (db_grants db)) = false).
  { intros f Hf. apply exists_row_false. intros id g [Hg Hp]%map_lookup_filter_Some. by eapply Hf. }
  rewrite throw_if_pass, throw_if_pass; [done|..].
  - apply Hsel. intros id g Hg Hp. apply negb_false_iff. by eapply Hok.
  - rewrite Hsel, andb_false_r; [done|]. intros id g Hg Hp. by eapply Hok.
Qed.

Lemma apply_grants_runs X nodeId target db n :
  Inv X db → db_nodes db !! nodeId = Some n → 
  apply_grants nodeId target db =
    (Ok tt, set_grants (written_grants (λ _, unapplied nodeId target) apply_grant) db).
Proof.
  intros Hinv Hn. apply grants_update_runs. intros id g Hg Hp.
  apply andb_prop in Hp as [[Hnode%bool_decide_eq_true _]%andb_prop _].
  destruct (iv_grants _ _ Hinv _ _ Hg) as (Hck & n' & Hn' & Hdes & _ & Hq & _ & Hat).
  apply grant_checks_spec in Hck as (Hv & Hr & Ha & Hd). split.
  - unfold live_on_quarantined, live, apply_grant. simpl. rewrite Hn'.
    destruct (bool_decide_reflect (n_status n' = NODE_QUARANTINED)) as [Hst|]; [|by rewrite andb_false_r].
    by rewrite (Hq Hst).
  - apply grant_checks_spec. unfold apply_grant. simpl. split_and!; try done; try lia.
    + by destruct (gr_status g).
    + intros Hact. destruct Hat as [Hre|]; [by rewrite Hre in Hact|done].
Qed.

Lemma ack_create_runs job a db :
  acknowledgement_valid db job a = true → 0 ≤ na_targetVersion a → db_acks db !! job = None →
  (∀ job' a', db_acks db !! job' = Some a' → na_nodeId a' = na_nodeId a →
     na_targetVersion a' ≠ na_targetVersion a) →
  ack_create job a db = (Ok tt, set_acks <[job := a]> db).
Proof.
  intros Hv Ht Hn Hu. unfold ack_create. autorewrite with run.
  rewrite !throw_if_pass; [done|..].
  - rewrite Hn. simpl. apply exists_row_false. intros job' a' Ha.
    case_bool_decide as Hnode; [|done]. simpl. apply Z.eqb_neq. eauto.
  - apply Z.ltb_ge. lia.
  - by rewrite Hv.
Qed.

Lemma node_update_runs id data db old :
  db_nodes db !! id = Some old →
  int4 (n_desiredConfigVersion (data old)) = true →
  int4 (n_appliedConfigVersion (data old)) = true →
  node_update_refused db id old (data old) = false → node_checks (data old) = true →
  node_update id data db = (Ok (data old), node_written id old (data old) db).
Proof.
  intros Hold Hd Ha Hr Hc. unfold node_update. autorewrite with run. rewrite Hold. cbv zeta.
  rewrite !throw_if_pass by (rewrite ?Hd, ?Ha, ?Hc; done). autorewrite with run.
  unfold node_written, when. by destruct (bool_decide _).
Qed.

Lemma apply_version_runs nodeId job target n a db :
  db_nodes db !! nodeId = Some n → node_checks n = true →
  int4 (n_desiredConfigVersion n) = true → target ≤ n_desiredConfigVersion n →
  db_acks db !! job = Some a → na_nodeId a = nodeId → na_targetVersion a = target →
  ∃ v db', (if n_appliedConfigVersion n <? target
   then node ← node_update nodeId (set_applied target); mret (n_appliedConfigVersion node)
   else mret (n_appliedConfigVersion n)) db = (Ok v, db').
Proof.
  intros Hn Hck Hint Hle Ha Hna Hta. destruct (Z.ltb_spec (n_appliedConfigVersion n) target);
    [|by do 2 eexists].
  apply node_checks_spec in Hck. unfold int4 in Hint.
  apply andb_prop in Hint as [H1%Z.leb_le H2%Z.leb_le].
  erewrite bind_ok; [by do 2 eexists|]. apply node_update_runs; simpl; try done.
  - unfold int4. apply andb_true_intro. rewrite !Z.leb_le. lia.
  - unfold int4. apply andb_true_intro. rewrite !Z.leb_le. lia.
  - unfold node_update_refused. simpl. rewrite !orb_false_iff. split_and!.
    + apply Z.ltb_ge. lia.
    + apply andb_false_intro2, negb_false_iff, exists_row_true. exists job, a.
      rewrite bool_decide_eq_true_2, Hta by done. split; [done|]. apply Z.leb_refl.
    + by case_bool_decide.
    + by case_bool_decide.
  - apply node_checks_spec. simpl. lia.
Qed.

(** An acknowledgement that may be made is made. *)
Lemma acknowledge_completes input now db n :
  Inv nothing db → db_nodes db !! ai_nodeId input = Some n →
  int4 (n_desiredConfigVersion n) = true → acknowledgement_accepted input db = true →
  ∃ r db', acknowledgeNodeConfigInTransaction input now db = (Ok r, db').
Proof.
  intros Hinv Hn Hint Hacc. unfold acknowledgement_accepted in Hacc.
  unfold acknowledgeNodeConfigInTransaction, find. autorewrite with run.
  assert (Hver : ∀ db, db_nodes db !! ai_nodeId input = Some n →
    applied_version (ai_nodeId input) db = (Ok (n_appliedConfigVersion n), db)).
  { intros db' Hn'. unfold applied_version, find. autorewrite with run. by rewrite Hn'. }
  destruct (db_acks db !! ai_nodeSyncJobId input) as [a|] eqn:Hack.
  - rewrite !andb_true_iff in Hacc. destruct Hacc as [[H1 H2] H3].
    rewrite throw_if_pass by (by rewrite H1, H2, H3).
    erewrite bind_ok by (by apply Hver). erewrite bind_ok by (by eapply apply_grants_runs).
    by do 2 eexists.
  - autorewrite with run. rewrite throw_if_pass by (by rewrite Hacc).
    erewrite bind_ok by (by apply Hver).
    destruct (acknowledgeable_ok _ _ Hacc) as (j & Hj & Hjn & Hjt & Hjs & d & Hd & Hdn & Hdt).
    destruct (iv_jobs _ _ Hinv _ _ Hj) as (_ & _ & n' & Hn' & Hle).
    assert (n' = n) as -> by congruence.
    set (row := {| na_nodeId := ai_nodeId input; na_targetVersion := ai_targetVersion input;
                   na_snapshotHash := ai_snapshotHash input; na_acknowledgedAt := now |}).
    assert (Hval : acknowledgement_valid db (ai_nodeSyncJobId input) row = true).
    { unfold acknowledgement_valid. simpl. rewrite Hj, Hd, Hdn, Hdt, Hjn, Hjt, Hjs, !Z.eqb_refl.
      by rewrite !bool_decide_eq_true_2. }
    erewrite bind_ok.
    2:{ apply ack_create_runs; [done|simpl; lia|done|]. intros job' a' Ha' Hna Hta. simpl in Hna, Hta.
        destruct (iv_acks _ _ Hinv _ _ Ha') as ((j' & Hj' & _ & Hjn' & Hjt') & _).
        assert (job' = ai_nodeSyncJobId input) as ->
          by (eapply (iv_unique _ _ Hinv); [exact Hj'|exact Hj|congruence..]).
        congruence. }
    destruct (acknowledged_inv nothing _ row db Hinv Hval Hack) as [I1 _].
    set (db1 := set_acks <[ai_nodeSyncJobId input := row]> db) in *.
    assert (Hn1 : db_nodes db1 !! ai_nodeId input = Some n) by (rewrite <- Hn; unfold db1; column).
    assert (Hrow : db_acks db1 !! ai_nodeSyncJobId input = Some row).
    { unfold db1. destruct db. simpl. apply lookup_insert_eq. }
    destruct (apply_version_runs _ (ai_nodeSyncJobId input) (ai_targetVersion input) n row db1 Hn1)
      as (v & db2 & Hrun); [by apply (iv_nodes _ _ Hinv _ _ Hn)|done|lia|exact Hrow|done|done|].
    destruct (run_apply_version _ _ _ _ _ n row _ _ _ Hrun I1 Hn1 eq_refl Hrow eq_refl eq_refl)
      as (I2 & _ & _ & Hn2 & _).
    erewrite bind_ok by exact Hrun. erewrite bind_ok by (by eapply apply_grants_runs).
    by do 2 eexists.
Qed.

(** What is not acceptable is refused. *)
Lemma acknowledge_accepted input now db r db' :
  acknowledgeNodeConfigInTransaction input now db = (Ok r, db') →
  acknowledgement_accepted input db = true.
Proof.
  unfold acknowledgeNodeConfigInTransaction, acknowledgement_accepted, find. intros H. ok_inv H.
  destruct (db_acks db !! _) as [a|]; ok_inv H.
  - rewrite !orb_false_iff, !negb_false_iff in Hguard. destruct Hguard as [[-> ->] ->]. done.
  - by apply negb_false_iff.
Qed.


(** ** The configuration snapshot *)

Section snapshot.
Context (hmac_sha256 : string → string → list Z) (sha256 : json → string).
Context `{DateStrings}.
Context (environment : ApiEnvironment).

(** What the agent is given for a grant: its columns, and a credential only
    for a live, unexpired grant whose stored hash it matches. *)
Definition snapshot_grant_exact (nodeId : string) (now : Z) (row : string * NodeAccessGrant)
    (out : NodeAgentGrant) : Prop :=
  g_id out = row.1 ∧ g_status out = gr_status row.2 ∧
  g_expiresAt out = toISOString (gr_expiresAt row.2) ∧
  g_revokedAt out = toISOString <$> gr_revokedAt row.2 ∧
  g_desiredVersion out = gr_desiredVersion row.2 ∧
  g_appliedVersion out = gr_appliedVersion row.2 ∧
  ∀ c, g_dataPlaneCredential out = Some c ↔
    live row.2 = true ∧ now < gr_expiresAt row.2 ∧
    gr_dataPlaneCredentialDerivationVersion row.2 = Some DATA_PLANE_CREDENTIAL_DERIVATION_VERSION ∧
    derive hmac_sha256 environment
      {| b_grantId := row.1; b_deviceId := gr_deviceId row.2; b_nodeId := nodeId |} = Some c ∧
    verifyHash hmac_sha256 environment c (gr_dataPlaneCredentialHash row.2) = Some true.

Lemma snapshot_grant_ok nodeId now row db out db' :
  snapshot_grant hmac_sha256 environment nodeId now row db = (Ok out, db') →
  db' = db ∧ snapshot_grant_exact nodeId now row out.
Proof.
  destruct row as [id g]. unfold snapshot_grant, snapshot_grant_exact. simpl. intros H0.
  destruct (live g && (now <? gr_expiresAt g) && _) eqn:He; ok_inv H0.
  - apply with_pepper_ok in Hrun0 as [Hc ->]. apply with_pepper_ok in Hrun1 as [Hv ->].
    split; [done|]. split_and!; try done.
    apply andb_prop in He as [[Hl Hx%Z.ltb_lt]%andb_prop Hd%bool_decide_eq_true].
    intros c. simpl. split; [destruct a1; [|done]; intros [= <-]; by split_and!|].
    intros (_ & _ & _ & Hc' & Hv'). assert (c = a0) as -> by congruence.
    assert (a1 = true) as -> by congruence. done.
  - split; [done|]. split_and!; try done. intros c. split; [done|].
    intros (Hl & Hx%Z.ltb_lt & Hd & _). simpl in *.
    by rewrite Hl, Hx, bool_decide_eq_true_2 in He.
Qed.

(** A route the agent is given is open, at a version it is to reach. *)
Definition snapshot_route_exact (db : Db) (nodeId : string) (desired : Z)
    (out : NodeAgentConnectionRoute) : Prop :=
  ∃ r, db_routes db !! (ep_id (rt_endpoint out), pr_id (rt_profile out)) = Some r ∧
    rc_nodeId r = nodeId ∧ rc_activationVersion r = Some (rt_activationVersion out) ∧
    rt_activationVersion out ≤ desired.

Lemma snapshot_route_ok db nodeId desired out :
  out ∈ snapshot_routes db nodeId desired → snapshot_route_exact db nodeId desired out.
Proof.
  unfold snapshot_routes. rewrite elem_of_merge_sort, list_elem_of_omap.
  intros ([[e p] r] & Hin%elem_of_map_to_list & Hout). unfold snapshot_route in Hout.
  option_invert Hout. injection Hout as <-. exists r. by split_and!.
Qed.

Definition ack_input (nodeId : string) (a : NodeAgentAcknowledgement)
    : AcknowledgeNodeConfigInput :=
  {| ai_nodeId := nodeId; ai_nodeSyncJobId := ack_nodeSyncJobId a;
     ai_targetVersion := ack_targetVersion a; ai_snapshotHash := ack_snapshotHash a |}.

(** The job a snapshot asks to acknowledge. *)
Lemma pending_job_ok X db nodeId node job :
  Inv X db → pending_job db nodeId node = Some job →
  db_jobs db !! j_id job = Some job ∧ j_nodeId job = nodeId ∧
  j_targetVersion job = n_desiredConfigVersion node ∧ j_status job = JOB_SUCCEEDED ∧
  db_acks db !! j_id job = None ∧ n_appliedConfigVersion node < n_desiredConfigVersion node.
Proof.
  unfold pending_job. intros Hinv. destruct (Z.ltb_spec (n_appliedConfigVersion node)
    (n_desiredConfigVersion node)) as [Hlt|]; [|done].
  intros Hh%head_Some_elem_of. apply elem_of_merge_sort, rows_where in Hh as (id & Hj & Hp).
  unfold awaiting_acknowledgement in Hp.
  rewrite !andb_true_iff, !bool_decide_eq_true, Z.eqb_eq, is_null_true in Hp.
  destruct (iv_jobs _ _ Hinv _ _ Hj) as (_ & <- & _). by destruct Hp as (((? & ?) & ?) & ?).
Qed.

(** A committed snapshot. *)
Definition snapshot_delivered (db db' : Db) (nodeId : string) (now : Z)
    (sn : NodeAgentConfigurationSnapshot) : Prop :=
  ∃ node, db_nodes db !! nodeId = Some node ∧
    sn_desiredConfigVersion sn = n_desiredConfigVersion node ∧
    sn_appliedConfigVersion sn = n_appliedConfigVersion node ∧
    (∀ out, out ∈ sn_grants sn → ∃ id g, db_grants db !! id = Some g ∧ gr_nodeId g = nodeId ∧
       snapshot_grant_exact nodeId now (id, g) out) ∧
    (∀ id g, db_grants db !! id = Some g → gr_nodeId g = nodeId →
       ∃ out, out ∈ sn_grants sn ∧ snapshot_grant_exact nodeId now (id, g) out) ∧
    sn_routes sn = snapshot_routes db nodeId (n_desiredConfigVersion node) ∧
    ∀ a, sn_pendingAcknowledgement sn = Some a →
      ack_targetVersion a = n_desiredConfigVersion node ∧
      n_appliedConfigVersion node < n_desiredConfigVersion node ∧
      ack_snapshotHash a =
        sha256 (snapshot_document (n_desiredConfigVersion node) (sn_grants sn) (sn_routes sn)) ∧
      acknowledgement_accepted (ack_input nodeId a) db' = true.

Lemma run_delivery X job hash d j db u db' :
  delivery_create job hash d db = (Ok u, db') → Inv X db → db_jobs db !! job = Some j →
  j_nodeId j = nd_nodeId d → j_targetVersion j = nd_targetVersion d →
  Inv X db' ∧ evolves db db' ∧ same_tables db (set_deliveries (λ _, db_deliveries db) db') ∧
  ∃ d', db_deliveries db' !! (job, hash) = Some d' ∧ nd_nodeId d' = nd_nodeId d ∧
        nd_targetVersion d' = nd_targetVersion d.
Proof.
  intros [Hh [[[d' Hd'] ->]|(Hnone & _ & ->)]]%delivery_create_ok Hinv Hj Hn Ht.
  - split_and!; [done|done|by destruct db|]. exists d'.
    destruct (iv_deliveries _ _ Hinv _ _ Hd') as (_ & j' & Hj' & Hjn & Hjt).
    simpl in Hj'. split_and!; congruence.
  - destruct (delivered_inv X job hash d j db Hinv Hh Hnone Hj Hn Ht) as [H1 H2].
    split_and!; [done|done|by destruct db|]. exists d. split_and!; try done.
    destruct db. simpl. apply lookup_insert_eq.
Qed.

Lemma Forall2_elem_l {A B} (P : A → B → Prop) l k x :
  Forall2 P l k → x ∈ l → ∃ y, y ∈ k ∧ P x y.
Proof.
  intros HF (i & Hi)%list_elem_of_lookup. destruct (Forall2_lookup_l _ _ _ _ _ HF Hi) as (y & Hy & HP).
  exists y. split; [by eapply list_elem_of_lookup_2|done].
Qed.
Lemma Forall2_elem_r {A B} (P : A → B → Prop) l k y :
  Forall2 P l k → y ∈ k → ∃ x, x ∈ l ∧ P x y.
Proof.
  intros HF (i & Hi)%list_elem_of_lookup. destruct (Forall2_lookup_r _ _ _ _ _ HF Hi) as (x & Hx & HP).
  exists x. split; [by eapply list_elem_of_lookup_2|done].
Qed.

Lemma snapshot_safe nodeId now db sn db' :
  snapshotInTransaction hmac_sha256 sha256 environment nodeId now db = (Ok sn, db') →
  Inv nothing db → Inv nothing db' ∧ evolves db db' ∧ snapshot_delivered db db' nodeId now sn.
Proof.
  unfold snapshotInTransaction. intros Hsn Hinv. ok_inv Hsn.
  destruct (db_nodes db !! nodeId) as [node|] eqn:Hnode; [|discriminate Hsn].
  cbv zeta in Hsn. ok_inv Hsn.
  apply (mapM_ok_all (λ s, s = db) eq (λ row out _, snapshot_grant_exact nodeId now row out))
    in Hrun as (-> & _ & HF); [|by intros ???? _ [-> ?]%snapshot_grant_ok ->|done|done].
  assert (Hrows : ∀ row, row ∈ merge_sort version_order
      (map_to_list (filter (λ kv, gr_nodeId kv.2 = nodeId) (db_grants db))) ↔
    db_grants db !! row.1 = Some row.2 ∧ gr_nodeId row.2 = nodeId).
  { intros [id g]. by rewrite elem_of_merge_sort, elem_of_map_to_list, map_lookup_filter_Some. }
  assert (Hbody : ∀ db', (∀ job, pending_job db nodeId node = Some job →
      acknowledgement_accepted (ack_input nodeId
        {| ack_nodeSyncJobId := j_id job; ack_targetVersion := j_targetVersion job;
           ack_snapshotHash := sha256 (snapshot_document (n_desiredConfigVersion node) a
             (snapshot_routes db nodeId (n_desiredConfigVersion node))) |}) db' = true) →
    snapshot_delivered db db' nodeId now
      {| sn_desiredConfigVersion := n_desiredConfigVersion node;
         sn_appliedConfigVersion := n_appliedConfigVersion node;
         sn_pendingAcknowledgement := (λ job, {| ack_nodeSyncJobId := j_id job;
           ack_targetVersion := j_targetVersion job;
           ack_snapshotHash := sha256 (snapshot_document (n_desiredConfigVersion node) a
             (snapshot_routes db nodeId (n_desiredConfigVersion node))) |})
           <$> pending_job db nodeId node;
         sn_grants := a; sn_routes := snapshot_routes db nodeId (n_desiredConfigVersion node) |}).
  { intros db1 Hacc. exists node. simpl. split_and!; try done.
    - intros out Hout. destruct (Forall2_elem_r _ _ _ _ HF Hout) as ([id g] & [Hg Hn]%Hrows & HP).
      by exists id, g.
    - intros id g Hg Hn. by eapply (Forall2_elem_l _ _ _ (id, g) HF), Hrows.
    - intros x (job & Hjob & ->)%fmap_Some_1.
      destruct (pending_job_ok _ _ _ _ _ Hinv Hjob) as (_ & _ & Ht & _ & _ & Hlt).
      split_and!; try done. by apply Hacc. }
  destruct (pending_job db nodeId node) as [job|] eqn:Hjob.
  - destruct (pending_job_ok _ _ _ _ _ Hinv Hjob) as (Hj & Hjn & Ht & Hs & Hnone & _).
    destruct (run_delivery nothing _ _ _ job _ _ _ Hrun0 Hinv Hj)
      as (I1 & E1 & T1 & d & Hd & Hdn & Hdt); [done|done|].
    split; [done|]. split; [done|]. apply Hbody. intros job' [= <-].
    unfold acknowledgement_accepted, ack_input, acknowledgeable. simpl.
    assert (Hacks : db_acks s0 = db_acks db) by (destruct T1 as (_ & _ & _ & _ & T & _); rewrite <- T; column).
    assert (Hjobs : db_jobs s0 = db_jobs db) by (destruct T1 as (_ & T & _); rewrite <- T; column).
    rewrite Hacks, Hnone, Hjobs, Hj, Hs, Hd, Hdn, Hdt. simpl.
    by rewrite Hjn, !bool_decide_eq_true_2, Z.eqb_refl.
  - ok_inv Hrun0. split; [done|]. split; [done|]. by apply Hbody.
Qed.

(** A snapshot writes deliveries only. *)
Lemma snapshot_changes nodeId now db sn db' :
  snapshotInTransaction hmac_sha256 sha256 environment nodeId now db = (Ok sn, db') →
  ∃ f, db' = set_deliveries f db.
Proof.
  unfold snapshotInTransaction. intros Hsn. ok_inv Hsn.
  destruct (db_nodes db !! nodeId) as [node|] eqn:Hnode; [|discriminate Hsn].
  cbv zeta in Hsn. ok_inv Hsn.
  apply (mapM_ok_all (λ s, s = db) eq (λ row out _, snapshot_grant_exact nodeId now row out))
    in Hrun as (-> & _ & _); [|by intros ???? _ [-> ?]%snapshot_grant_ok ->|done|done].
  assert (Hid : db = set_deliveries (λ t, t) db) by (by destruct db).
  destruct (pending_job db nodeId node) as [job|]; [|ok_inv Hrun0; eauto].
  apply delivery_create_ok in Hrun0 as [_ [[_ ->]|(_ & _ & ->)]]; eauto.
Qed.
End snapshot.

(** ** Heartbeats *)

Lemma heartbeat_safe nodeId now db u db' :
  recordInTransaction nodeId now db = (Ok u, db') → Inv nothing db →
  Inv nothing db' ∧ evolves db db' ∧
  ∃ n, db_nodes db !! nodeId = Some n ∧
       db_nodes db' = <[nodeId := set_heartbeat now n]> (db_nodes db).
Proof.
  unfold recordInTransaction. intros H Hinv. ok_inv H.
  destruct (run_node_update nothing _ _ _ _ _ Hrun Hinv)
    as (H1 & H2 & old & Hold & -> & _ & _ & _ & Hnodes).
  { intros old Hold. unfold sound_node_update. simpl. split_and!; [lia|done|by left]. }
  split_and!; [done|done|]. by exists old.
Qed.

(** ** Credentials of the agents *)

Lemma credentials_inv X f db : Inv X db →
  Inv X (set_agentCredentials f db) ∧ evolves db (set_agentCredentials f db).
Proof. intros []. cols db. Qed.

Section credentials.
Context (uuid : nat → string) (hmac_sha256 : string → string → list Z).
Context (agentPepper : option string).

(** The hash of a secret under the configured pepper. *)
Definition secret_hash (secret : string) : option string :=
  p ← agentPepper; guard (p ≠ EmptyString);; Some (to_hex (hmac_sha256 p secret)).

Lemma hashSecret_ok secret db h db' :
  hashSecret hmac_sha256 agentPepper secret db = (Ok h, db') →
  db' = db ∧ secret_hash secret = Some h.
Proof.
  unfold hashSecret, secret_hash. destruct agentPepper as [p|]; [|discriminate 1].
  case_bool_decide as Hp; [discriminate 1|]. intros H. ok_inv H. simpl.
  by rewrite option_guard_True.
Qed.

(** The credentials that speak for a node. *)
Definition speaks_for (db : Db) (nodeId : string) (c : NodeAgentCredential) : Prop :=
  (∃ id, db_agentCredentials db !! id = Some c) ∧ unrevoked nodeId c = true.

Lemma revoke_credentials_ok nodeId now db k db' :
  revoke_credentials nodeId now db = (Ok k, db') →
  db' = set_agentCredentials (sql_set (unrevoked nodeId)
    (λ c, {| nc_nodeId := nc_nodeId c; nc_secretHash := nc_secretHash c;
             nc_revokedAt := Some now |})) db ∧
  k = length (rows (sql_where (unrevoked nodeId) (db_agentCredentials db))).
Proof. unfold revoke_credentials. intros H. by ok_inv H. Qed.

Lemma none_speaks nodeId now db c :
  ¬ speaks_for (set_agentCredentials (sql_set (unrevoked nodeId)
    (λ c, {| nc_nodeId := nc_nodeId c; nc_secretHash := nc_secretHash c;
             nc_revokedAt := Some now |})) db) nodeId c.
Proof.
  intros [[id Hc] Hu]. destruct db. simpl in Hc. unfold sql_set in Hc.
  rewrite lookup_fmap in Hc. apply fmap_Some in Hc as (c0 & Hc0 & ->).
  destruct (unrevoked nodeId c0) eqn:Hu0; [|congruence]. unfold unrevoked in Hu. simpl in Hu.
  by rewrite andb_false_r in Hu.
Qed.

(** After a rotation only the new secret speaks for the node. *)
Lemma rotate_ok nodeId secret now db id s db' :
  rotate uuid hmac_sha256 agentPepper nodeId secret now db = (Ok (id, s), db') → Inv nothing db →
  Inv nothing db' ∧ evolves db db' ∧ s = secret ∧
  is_Some (db_nodes db !! nodeId) ∧ ∃ h, secret_hash secret = Some h ∧
  ∀ c, speaks_for db' nodeId c ↔
       c = {| nc_nodeId := nodeId; nc_secretHash := h; nc_revokedAt := None |}.
Proof.
  unfold rotate. intros H Hinv. ok_inv H. apply hashSecret_ok in Hrun as [-> Hh].
  apply applied_version_ok in Hrun0 as (-> & n & Hn & _).
  apply revoke_credentials_ok in Hrun1 as [Hs1 _]. apply randomUUID_ok in Hrun2 as [Hid Hs2].
  destruct (credentials_inv nothing (sql_set (unrevoked nodeId)
    (λ c, {| nc_nodeId := nc_nodeId c; nc_secretHash := nc_secretHash c;
             nc_revokedAt := Some now |})) _ Hinv) as [I1 E1]. rewrite <- Hs1 in I1, E1.
  destruct (drawn_inv nothing _ I1) as [I2 E2]. rewrite <- Hs2 in I2, E2.
  set (row := {| nc_nodeId := nodeId; nc_secretHash := a; nc_revokedAt := None |}) in *.
  subst s4. destruct (credentials_inv nothing <[a2 := row]> _ I2) as [I3 E3].
  destruct (audit_ok _ _ _ _ _ _ _ _ Hrun3) as [l Hdb'].
  destruct (audit_inv nothing l _ I3) as [I4 E4]. rewrite <- Hdb' in I4, E4.
  assert (Hcreds : db_agentCredentials db' = <[a2 := row]> (db_agentCredentials s2))
    by (rewrite Hdb', Hs2; column).
  apply orb_false_iff in Hguard as [Hnew%negb_false_iff%is_null_true _].
  split; [done|]. split; [by do 3 (etrans; [eassumption|])|].
  split; [done|]. split; [by eexists|]. exists a. split; [done|]. intros c. split.
  - intros [[cid Hc] Hu]. rewrite Hcreds in Hc.
    apply lookup_insert_Some in Hc as [[_ <-]|[_ Hc]]; [done|].
    exfalso. eapply (none_speaks nodeId now db c). rewrite <- Hs1. split; [by exists cid|done].
  - intros ->. split; [exists a2; by rewrite Hcreds, lookup_insert_eq|].
    unfold unrevoked. simpl. by rewrite bool_decide_eq_true_2.
Qed.

Lemma rotate_throw nodeId secret now db e db' :
  rotate uuid hmac_sha256 agentPepper nodeId secret now db = (Throw e, db') → db' = db.
Proof.
  unfold rotate, mbind at 1, M_bind.
  destruct (hashSecret hmac_sha256 agentPepper secret db) as [[h|e'] s] eqn:Hh.
  - apply hashSecret_ok in Hh as [-> _]. apply atomically_throw_inv.
  - intros [= <- <-]. revert Hh. unfold hashSecret. destruct agentPepper; [case_bool_decide|];
      unfold throw, mret, M_ret; congruence.
Qed.

(** After a revocation nothing speaks for the node. *)
Lemma revokeCredential_ok nodeId now db b db' :
  revokeCredential nodeId now db = (Ok b, db') → Inv nothing db →
  Inv nothing db' ∧ evolves db db' ∧ (∀ c, ¬ speaks_for db' nodeId c) ∧
  (b = true ↔ ∃ c, speaks_for db nodeId c).
Proof.
  unfold revokeCredential. intros H Hinv. ok_inv H.
  apply revoke_credentials_ok in Hrun as [Hs Hk].
  destruct (credentials_inv nothing (sql_set (unrevoked nodeId)
    (λ c, {| nc_nodeId := nc_nodeId c; nc_secretHash := nc_secretHash c;
             nc_revokedAt := Some now |})) _ Hinv) as [I1 E1]. rewrite <- Hs in I1, E1.
  assert (Hsome : a ≠ 0%nat ↔ ∃ c, speaks_for db nodeId c).
  { rewrite Hk. split.
    - destruct (rows _) as [|c l] eqn:Hr; [done|]. intros _. exists c.
      assert (Hin : c ∈ rows (sql_where (unrevoked nodeId) (db_agentCredentials db)))
        by (rewrite Hr; left).
      apply rows_where in Hin as (id & Hc & Hu). split; [by exists id|done].
    - intros (c & [id Hc] & Hu) H0. apply nil_length_inv in H0.
      assert (Hin : c ∈ rows (sql_where (unrevoked nodeId) (db_agentCredentials db)))
        by (apply rows_where; eauto). rewrite H0 in Hin. by apply elem_of_nil in Hin. }
  destruct (Nat.eqb_spec a 0) as [H0|H0]; ok_inv H.
  - split_and!; try done.
    + intros c. rewrite Hs. apply none_speaks.
    + split; [done|]. intros Hx. by apply Hsome in Hx.
  - destruct (audit_ok _ _ _ _ _ _ _ _ Hrun) as [l ->].
    destruct (audit_inv nothing l _ I1) as [I2 E2].
    split_and!; [done|by etrans| |by rewrite <- Hsome].
    intros c [[id Hc] Hu]. eapply (none_speaks nodeId now db c). rewrite <- Hs. split; [|done].
    exists id. rewrite <- Hc. column.
Qed.

(** An operation runs only for the node its caller's secret speaks for, and an
    error leaves nothing behind. *)
Definition authenticated (db : Db) (secret nodeId : string) : Prop :=
  nodeAgentCredentialPattern secret = true ∧
  ∃ h c node, secret_hash secret = Some h ∧ nc_secretHash c = h ∧ speaks_for db nodeId c ∧
    db_nodes db !! nodeId = Some node ∧ isNodeAgentAuthAllowed (n_status node) = true.

Lemma with_auth_ok {T} secret (op : string → DbM T) db r db' :
  withAuthenticatedNodeTransaction hmac_sha256 agentPepper secret op db = (Ok r, db') →
  match r with
  | None => db' = db
  | Some t => ∃ nodeId, authenticated db secret nodeId ∧ op nodeId db = (Ok t, db')
  end.
Proof.
  unfold withAuthenticatedNodeTransaction. destruct (nodeAgentCredentialPattern secret) eqn:Hp; simpl;
    intros H; [|by ok_inv H].
  ok_inv H. apply hashSecret_ok in Hrun as [-> Hh].
  destruct (rows (sql_where _ _)) as [|c l] eqn:Hr; ok_inv H; [done|].
  exists (nc_nodeId c). split; [|done]. split; [done|].
  assert (Hin : c ∈ rows (sql_where (authenticates db a) (db_agentCredentials db)))
    by (rewrite Hr; left).
  apply rows_where in Hin as (id & Hc & Ha). unfold authenticates in Ha.
  apply andb_prop in Ha as [[Hc1%bool_decide_eq_true Hc2]%andb_prop Hnode].
  destruct (db_nodes db !! nc_nodeId c) as [node|] eqn:Hn; [|done].
  exists a, c, node. split_and!; try done. split; [by exists id|].
  unfold unrevoked. by rewrite bool_decide_eq_true_2, Hc2.
Qed.

Lemma with_auth_throw {T} secret (op : string → DbM T) db e db' :
  withAuthenticatedNodeTransaction hmac_sha256 agentPepper secret op db = (Throw e, db') → db' = db.
Proof.
  unfold withAuthenticatedNodeTransaction. destruct (negb _); [discriminate 1|].
  apply atomically_throw_inv.
Qed.

(** A request either fails and changes nothing, or ran its operation for the
    authenticated node. *)
Lemma respond_cases {T} on_error authorization (op : string → DbM T) db r db' :
  respond on_error (withAuthenticatedNodeTransaction hmac_sha256 agentPepper
    (extractBearerToken authorization) op) db = (r, db') →
  match r with
  | Throw _ => db' = db
  | Ok t => ∃ nodeId, authenticated db (extractBearerToken authorization) nodeId ∧
                      op nodeId db = (Ok t, db')
  end.
Proof.
  unfold respond. destruct (withAuthenticatedNodeTransaction _ _ _ _ db) as [[[t|]|e] db1] eqn:Hrun;
    intros [= <- <-].
  - by apply (with_auth_ok _ _ _ (Some t)) in Hrun.
  - by apply (with_auth_ok _ _ _ None) in Hrun.
  - by apply with_auth_throw in Hrun.
Qed.
End credentials.
