(* ===== verification/SubscriptionAccess.v ===== *)
(** * Subscription access: [packages/orchestration-store/src/subscription-access-store.ts]

    [PrismaSubscriptionAccessStore] of the worker (and of [NodeAccessReconciler]
    in the API): the expiry and the cancellation of subscriptions, and the
    reconciliation of a node's grants with the entitlements.  Each transaction
    is one operation over the control-plane database, [now] the clock it reads;
    a batch runs its transactions one after the other. *)

From stdpp Require Import pretty.
From S2P Require Import Prelude.
From S2P Require Import Json.
From S2P Require Import Sql.
From S2P Require Import OutboxStore.
From S2P Require Import NodeSyncStore.
From S2P Require Import NodeAgentContract.
From S2P Require Import XrayAccess.
From S2P Require Import ControlPlane.
From S2P Require Import DataPlaneCredential.
From S2P Require Import AccessPolicy.
From S2P Require Import Orchestration.
Open Scope Z_scope.

Record AccessMaintenanceBatchResult := { br_processed : Z; br_failed : Z }.

Inductive CancelSubscriptionAccessResult := Cancelled | AlreadyCancelled | SubscriptionNotFound.

Record ExpectedDevice := { ed_deviceId : string; ed_expiresAt : Z }.

(** A change of a grant that the node must be told about. *)
Inductive NetworkChange :=
| ChangeCreate (expected : ExpectedDevice)
| ChangeUpdate (grantId : string) (grant : NodeAccessGrant) (expiresAt : Z)
| ChangeRepairRevoke (grantId : string) (grant : NodeAccessGrant).

Section store.
Context (uuid : nat → string) (hmac_sha256 : string → string → list Z).
Context `{DateStrings}.
(** The constructor's argument; the constructor refuses an empty one. *)
Context (credentialPepper : string).

(** ** Shared statements *)

(** [subscription.update({ where: { id }, data })], with the partial unique
    index [Subscription_one_active_per_user]. *)
Definition subscription_update (id : string) (data : Subscription → Subscription) : DbM unit :=
  db ← get;
  match db_subscriptions db !! id with
  | None => throw (Database RecordNotFound)
  | Some old =>
      let new := data old in
      throw_if (negb (subscription_checks new)) (Database CheckViolation);;
      throw_if (bool_decide (sb_status new = SUB_ACTIVE) &&
                exists_row (λ s, bool_decide (sb_userId s = sb_userId new) &&
                                 bool_decide (sb_status s = SUB_ACTIVE))
                  (delete id (db_subscriptions db))) (Database UniqueViolation);;
      modify (set_subscriptions <[id := new]>)
  end.

(** The latest running ACTIVE subscription of a user: its expiry. *)
Definition expiry_order (x y : string * Z) : Prop :=
  y.2 < x.2 ∨ (x.2 = y.2 ∧ String.le x.1 y.1).
#[export] Instance expiry_order_dec x y : Decision (expiry_order x y).
Proof. unfold expiry_order. apply _. Defined.

Definition findEffectiveExpiry (db : Db) (userId : string) (now : Z) : option Z :=
  snd <$> head (merge_sort expiry_order (omap (λ row : string * Subscription,
    let '(id, s) := row in
    e ← sb_expiresAt s;
    guard (sb_userId s = userId);; guard (sb_status s = SUB_ACTIVE);; guard (now < e);;
    Some (id, e)) (map_to_list (db_subscriptions db)))).

Definition incrementNodeVersion (nodeId : string) : DbM Z :=
  node ← node_update nodeId increment_desired; mret (n_desiredConfigVersion node).

Definition createNodeSyncOperation (nodeId leadGrantId : string) (targetVersion : Z)
    (syncJobIdempotencyKey outboxEventIdempotencyKey : string) (now : Z) : DbM unit :=
  jobId ← job_create uuid nodeId (GrantResource leadGrantId) targetVersion syncJobIdempotencyKey now;
  event_create uuid "node-sync.requested" "NodeAccessGrant" leadGrantId
    (encode_command (grant_command leadGrantId jobId targetVersion)) outboxEventIdempotencyKey now;;
  mret tt.

Definition hasMatchingNodeSyncOperation (nodeId leadGrantId : string)
    (syncJobIdempotencyKey outboxEventIdempotencyKey : string) : DbM bool :=
  syncJob ← job_by_key syncJobIdempotencyKey;
  outboxEvent ← event_by_key outboxEventIdempotencyKey;
  match syncJob, outboxEvent with
  | None, None => mret false
  | Some job, Some (key, _) =>
      if bool_decide (j_nodeId job = nodeId) &&
         bool_decide (j_nodeAccessGrantId job = Some leadGrantId) &&
         bool_decide (ek_aggregateId key = leadGrantId)
      then mret true else throw (Thrown "Expiry delivery operation is inconsistent")
  | _, _ => throw (Thrown "Expiry delivery operation is inconsistent")
  end.

(** The grant belongs to a device of the user. *)
Definition of_user (db : Db) (userId : string) (g : NodeAccessGrant) : bool :=
  bool_decide (dv_userId <$> db_devices db !! gr_deviceId g = Some userId).

(** ** Expiry *)

Definition expiry_key (subscriptionId nodeId : string) : string :=
  "subscription-expiry:" +:+ subscriptionId +:+ ":" +:+ nodeId.
Definition expiry_outbox_key (subscriptionId nodeId : string) : string :=
  "subscription-expiry-outbox:" +:+ subscriptionId +:+ ":" +:+ nodeId.

Definition reschedule_grant (expiresAt : option Z) (desired : Z) (g : NodeAccessGrant)
    : NodeAccessGrant :=
  {| gr_nodeId := gr_nodeId g; gr_deviceId := gr_deviceId g; gr_status := gr_status g;
     gr_dataPlaneCredentialHash := gr_dataPlaneCredentialHash g;
     gr_dataPlaneCredentialDerivationVersion := gr_dataPlaneCredentialDerivationVersion g;
     gr_expiresAt := default (gr_expiresAt g) expiresAt; gr_desiredVersion := desired;
     gr_appliedVersion := gr_appliedVersion g; gr_revokedAt := gr_revokedAt g |}.

Definition scheduleExpiredSubscriptionOnNode (subscriptionId nodeId : string) (now : Z)
    : DbM bool :=
  db ← get;
  match db_subscriptions db !! subscriptionId with
  | None => mret false
  | Some subscription =>
      match sb_expiresAt subscription with
      | None => mret false
      | Some expiresAt =>
          if negb (bool_decide (sb_status subscription ∈ [SUB_ACTIVE; SUB_EXPIRED])) then mret false
          else if negb (match db_nodes db !! nodeId with
                        | Some node => isNodeInAccessControlSync (n_status node)
                        | None => false
                        end) then mret false
          else if now <? expiresAt then mret false
          else
          let userId := sb_userId subscription in
          let desiredExpiry := default expiresAt (findEffectiveExpiry db userId now) in
          let grants := grants_where (λ g, bool_decide (gr_nodeId g = nodeId) &&
                                           of_user db userId g && live g) db in
          match grants with
          | [] => mret false
          | (leadGrant, _) :: _ =>
              scheduled ← hasMatchingNodeSyncOperation nodeId leadGrant
                (expiry_key subscriptionId nodeId) (expiry_outbox_key subscriptionId nodeId);
              if (scheduled : bool) then mret false else
              targetVersion ← incrementNodeVersion nodeId;
              grant_updateMany false grants.*1 (reschedule_grant (Some desiredExpiry) targetVersion);;
              createNodeSyncOperation nodeId leadGrant targetVersion
                (expiry_key subscriptionId nodeId) (expiry_outbox_key subscriptionId nodeId) now;;
              audit None "subscription-expiry.access-scheduled" "Subscription" subscriptionId
                (JObj [("nodeId"%string, JStr nodeId); ("targetVersion"%string, jint targetVersion);
                       ("grantCount"%string, jint (Z.of_nat (length grants)))]);;
              mret true
          end
      end
  end.

Definition materializeExpiredSubscriptionStatus (subscriptionId : string) (now : Z) : DbM bool :=
  db ← get;
  match db_subscriptions db !! subscriptionId with
  | None => mret false
  | Some subscription =>
      match sb_expiresAt subscription with
      | None => mret false
      | Some expiresAt =>
          if negb (bool_decide (sb_status subscription = SUB_ACTIVE)) then mret false
          else if now <? expiresAt then mret false
          else
          subscription_update subscriptionId (λ s,
            {| sb_userId := sb_userId s; sb_status := SUB_EXPIRED; sb_startsAt := sb_startsAt s;
               sb_expiresAt := sb_expiresAt s; sb_cancelledAt := sb_cancelledAt s |});;
          audit None "subscription.expired" "Subscription" subscriptionId
            (JObj [("expiredAt"%string, JStr (toISOString now))]);;
          mret true
      end
  end.

(** The nodes the user's live grants are on that were not yet told. *)
Definition findPendingExpiryNodes (db : Db) (subscriptionId : string) (now : Z) : list string :=
  match db_subscriptions db !! subscriptionId with
  | None => []
  | Some s =>
      if sql_le (sb_expiresAt s) now then
        merge_sort String.le (filter (λ nodeId,
            is_null (db_jobKeys db !! expiry_key subscriptionId nodeId) = true ∧
            (match db_nodes db !! nodeId with
             | Some node => isNodeInAccessControlSync (n_status node)
             | None => false
             end) = true)
          (remove_dups (gr_nodeId <$> (map_to_list (filter (λ kv, of_user db (sb_userId s) kv.2 && live kv.2 = true)
                                         (db_grants db))).*2)))
      else []
  end.

(** ** Cancellation *)

Definition cancel_key (subscriptionId nodeId : string) (target : Z) : string :=
  "subscription-cancel:" +:+ subscriptionId +:+ ":" +:+ nodeId +:+ ":" +:+ pretty target.
Definition cancel_outbox_key (subscriptionId nodeId : string) (target : Z) : string :=
  "subscription-cancel-outbox:" +:+ subscriptionId +:+ ":" +:+ nodeId +:+ ":" +:+ pretty target.

(** The body of the loop over the locked nodes. *)
Definition cancel_on_node (subscriptionId : string) (now : Z)
    (grantsByNode : list (string * list string)) (node : string * NodeStatus) : DbM unit :=
  let '(nodeId, nodeStatus) := node in
  match default [] (map_get nodeId grantsByNode) with
  | [] => mret tt
  | (leadGrant :: _) as nodeGrants =>
      let requiresDelivery := bool_decide (nodeStatus = NODE_HEALTHY) ||
        bool_decide (nodeStatus = NODE_DRAINING) || bool_decide (nodeStatus = NODE_DISABLED) in
      targetVersion ← (if requiresDelivery then v ← incrementNodeVersion nodeId; mret (Some v)
                       else mret None);
      grant_updateMany true nodeGrants (revoke_grant now targetVersion);;
      match targetVersion : option Z with
      | Some v => createNodeSyncOperation nodeId leadGrant v
                    (cancel_key subscriptionId nodeId v) (cancel_outbox_key subscriptionId nodeId v) now
      | None => mret tt
      end;;
      audit None "subscription-cancellation.access-revoked" "Subscription" subscriptionId
        (JObj [("nodeId"%string, JStr nodeId);
               ("targetVersion"%string, json_nullable jint targetVersion);
               ("grantCount"%string, jint (Z.of_nat (length nodeGrants)))])
  end.

(** [nodeGrants.push(grant)] in the map of the grant's node. *)
Definition group_by_node (grants : list (string * NodeAccessGrant)) : list (string * list string) :=
  foldl (λ m kv, let nodeId := gr_nodeId kv.2 in
                 map_set nodeId (default [] (map_get nodeId m) ++ [kv.1]) m) [] grants.

Definition cancelSubscriptionAccess (subscriptionId : string) (now : Z)
    : DbM CancelSubscriptionAccessResult :=
  atomically (
    db ← get;
    match db_subscriptions db !! subscriptionId with
    | None => mret SubscriptionNotFound
    | Some subscription =>
        if bool_decide (sb_status subscription = SUB_CANCELLED) then mret AlreadyCancelled else
        let hadEntitlement := bool_decide (sb_status subscription = SUB_ACTIVE) &&
                              sql_gt (sb_expiresAt subscription) now in
        let grants := if hadEntitlement
          then grants_where (λ g, of_user db (sb_userId subscription) g && live g) db else [] in
        let nodes := merge_sort (pair_order (λ _ : NodeStatus, EmptyString))
          (omap (λ nodeId, (λ n, (nodeId, n_status n)) <$> db_nodes db !! nodeId)
             (remove_dups ((gr_nodeId ∘ snd) <$> grants))) in
        subscription_update subscriptionId (λ s,
          {| sb_userId := sb_userId s; sb_status := SUB_CANCELLED; sb_startsAt := sb_startsAt s;
             sb_expiresAt := sb_expiresAt s; sb_cancelledAt := Some now |});;
        for_each nodes (cancel_on_node subscriptionId now (group_by_node grants));;
        audit None "subscription.cancelled" "Subscription" subscriptionId
          (JObj [("cancelledAt"%string, JStr (toISOString now));
                 ("revokedGrantCount"%string, jint (Z.of_nat (length grants)))]);;
        mret Cancelled
    end).

(** ** Reconciliation *)

(** Active devices with a running subscription, [ORDER BY device."id"]. *)
Definition expected_devices (db : Db) (now : Z) : list ExpectedDevice :=
  omap (λ kv : string * Device, let '(id, d) := kv in
    guard (dv_status d = DEVICE_ACTIVE);;
    e ← findEffectiveExpiry db (dv_userId d) now;
    Some {| ed_deviceId := id; ed_expiresAt := e |})
  (merge_sort (pair_order (λ _ : Device, EmptyString)) (map_to_list (db_devices db))).

(** The grants of the node, [ORDER BY "deviceId", "id"]. *)
Definition existing_grants (db : Db) (nodeId : string) : list (string * NodeAccessGrant) :=
  merge_sort (pair_order gr_deviceId)
    (map_to_list (filter (λ kv, gr_nodeId kv.2 = nodeId) (db_grants db))).

(** The event announces this job: [payload ->> 'nodeSyncJobId']. *)
Definition announces (jobId : string) (e : OutboxEvent) : bool :=
  bool_decide (oe_topic e = "node-sync.requested"%string) &&
  match oe_payload e with
  | JObj members => bool_decide (map_get "nodeSyncJobId"%string members = Some (JStr jobId))
  | _ => false
  end.

(** The job can still reach the node, or waits for its acknowledgement. *)
Definition live_delivery (db : Db) (j : NodeSyncJob) : bool :=
  match j_status j with
  | JOB_SUCCEEDED => is_null (db_acks db !! j_id j)
  | JOB_PENDING | JOB_PROCESSING =>
      exists_row (λ e, announces (j_id j) e && negb (bool_decide (oe_status e = FAILED)))
        (db_events db)
  | JOB_FAILED => false
  end.
Definition liveDeliveryVersions (db : Db) (nodeId : string) : list Z :=
  j_targetVersion <$> rows (sql_where (λ j, bool_decide (j_nodeId j = nodeId) && live_delivery db j)
                              (db_jobs db)).

Definition deliveryLost (versions : list Z) (g : NodeAccessGrant) : bool :=
  (gr_appliedVersion g <? gr_desiredVersion g) &&
  negb (bool_decide (gr_desiredVersion g ∈ versions)).

(** The first loop: what an expected device needs. *)
Definition expected_change (existingByDevice : list (string * (string * NodeAccessGrant)))
    (mayCreateMissing : bool) (versions : list Z) (expected : ExpectedDevice)
    : option NetworkChange * option string :=
  match map_get (ed_deviceId expected) existingByDevice with
  | None => (if mayCreateMissing then Some (ChangeCreate expected) else None, None)
  | Some (id, g) =>
      if negb (live g) then (None, None) else
      (if negb (gr_expiresAt g =? ed_expiresAt expected) || deliveryLost versions g
       then Some (ChangeUpdate id g (ed_expiresAt expected)) else None,
       if bool_decide (gr_status g = GRANT_PENDING) && (gr_desiredVersion g <=? gr_appliedVersion g)
       then Some id else None)
  end.

Definition set_change (m : list (string * NetworkChange)) (deviceId : string)
    (c : option NetworkChange) : list (string * NetworkChange) :=
  match c with Some c => map_set deviceId c m | None => m end.

(** The map [networkChanges] after both loops, in insertion order. *)
Definition network_changes (existing : list (string * NodeAccessGrant))
    (existingByDevice : list (string * (string * NodeAccessGrant))) (mayCreateMissing : bool)
    (versions : list Z) (expected : list ExpectedDevice) : list (string * NetworkChange) :=
  let first := foldl (λ m x, set_change m (ed_deviceId x)
    (expected_change existingByDevice mayCreateMissing versions x).1) [] expected in
  foldl (λ m kv, if negb (live kv.2) && deliveryLost versions kv.2
                 then map_set (gr_deviceId kv.2) (ChangeRepairRevoke kv.1 kv.2) m else m)
    first existing.

Definition local_activations (existingByDevice : list (string * (string * NodeAccessGrant)))
    (expected : list ExpectedDevice) : list string :=
  omap (λ x, (expected_change existingByDevice false [] x).2) expected.

Definition activate_grant (g : NodeAccessGrant) : NodeAccessGrant :=
  {| gr_nodeId := gr_nodeId g; gr_deviceId := gr_deviceId g; gr_status := GRANT_ACTIVE;
     gr_dataPlaneCredentialHash := gr_dataPlaneCredentialHash g;
     gr_dataPlaneCredentialDerivationVersion := gr_dataPlaneCredentialDerivationVersion g;
     gr_expiresAt := gr_expiresAt g; gr_desiredVersion := gr_desiredVersion g;
     gr_appliedVersion := gr_appliedVersion g; gr_revokedAt := gr_revokedAt g |}.

(** The body of the loop over [networkChanges.values()]; returns the changed
    grant. *)
Definition apply_change (nodeId : string) (targetVersion : Z) (c : NetworkChange) : DbM string :=
  match c with
  | ChangeRepairRevoke id _ =>
      grant_update false id (reschedule_grant None targetVersion);; mret id
  | ChangeUpdate id g expiresAt =>
      let activates := bool_decide (gr_status g = GRANT_PENDING) &&
                       (gr_desiredVersion g <=? gr_appliedVersion g) in
      grant_update activates id (λ row,
        let row := reschedule_grant (Some expiresAt) targetVersion row in
        if activates then activate_grant row else row);;
      mret id
  | ChangeCreate expected =>
      grantId ← randomUUID uuid;
      credential ← with_pepper (deriveDataPlaneCredential hmac_sha256 credentialPepper
        {| b_grantId := grantId; b_deviceId := ed_deviceId expected; b_nodeId := nodeId |});
      credentialHash ← with_pepper (hashDataPlaneCredential hmac_sha256 credentialPepper credential);
      grant_create grantId
        {| gr_nodeId := nodeId; gr_deviceId := ed_deviceId expected; gr_status := GRANT_PENDING;
           gr_dataPlaneCredentialHash := credentialHash;
           gr_dataPlaneCredentialDerivationVersion := Some DATA_PLANE_CREDENTIAL_DERIVATION_VERSION;
           gr_expiresAt := ed_expiresAt expected; gr_desiredVersion := targetVersion;
           gr_appliedVersion := 0; gr_revokedAt := None |};;
      mret grantId
  end.

Definition repair_revoke (c : NetworkChange) : bool :=
  match c with ChangeRepairRevoke _ _ => true | _ => false end.

Definition reconcile_key (nodeId : string) (target : Z) : string :=
  "reconcile:" +:+ nodeId +:+ ":" +:+ pretty target.
Definition reconcile_outbox_key (nodeId : string) (target : Z) : string :=
  "reconcile-outbox:" +:+ nodeId +:+ ":" +:+ pretty target.

Definition reconcileOneNode (nodeId : string) (includeMissingGrants : bool) (now : Z) : DbM bool :=
  db ← get;
  match db_nodes db !! nodeId with
  | None => mret false
  | Some node =>
      if negb (isNodeInAccessControlSync (n_status node)) then mret false else
      let existing := existing_grants db nodeId in
      let existingByDevice := map_of ((λ kv, (gr_deviceId kv.2, kv)) <$> existing) in
      let expected := expected_devices db now in
      let networkChanges := network_changes existing existingByDevice
        (bool_decide (n_status node = NODE_HEALTHY) || includeMissingGrants)
        (liveDeliveryVersions db nodeId) expected in
      let localActivations := local_activations existingByDevice expected in
      if bool_decide (networkChanges = []) && bool_decide (localActivations = [])
      then mret false else
      for_each localActivations (λ id, grant_update true id activate_grant);;
      match networkChanges with
      | [] =>
          audit None "node-access.reconciled" "Node" nodeId
            (JObj [("targetVersion"%string, JNull);
                   ("repairedGrantCount"%string, jint (Z.of_nat (length localActivations)));
                   ("localActivationCount"%string, jint (Z.of_nat (length localActivations)))]);;
          mret true
      | _ :: _ =>
          targetVersion ← incrementNodeVersion nodeId;
          changedGrantIds ← mapM (apply_change nodeId targetVersion) networkChanges.*2;
          createNodeSyncOperation nodeId (default EmptyString (head changedGrantIds)) targetVersion
            (reconcile_key nodeId targetVersion) (reconcile_outbox_key nodeId targetVersion) now;;
          audit None "node-access.reconciled" "Node" nodeId
            (JObj [("targetVersion"%string, jint targetVersion);
                   ("repairedGrantCount"%string,
                    jint (Z.of_nat (length networkChanges + length localActivations)));
                   ("revokedGrantCount"%string,
                    jint (Z.of_nat (length (filter (λ c, repair_revoke c = true) networkChanges.*2))));
                   ("localActivationCount"%string, jint (Z.of_nat (length localActivations)))]);;
          mret true
      end
  end.

Definition reconcileNodeBeforeHealthy (nodeId : string) (now : Z) : DbM bool :=
  atomically (reconcileOneNode nodeId true now).

(** ** Candidates and batches *)

(** [LEFT JOIN "NodeAccessGrant"]: the grants of a device on a node. *)
Definition grants_on (db : Db) (nodeId deviceId : string) : list NodeAccessGrant :=
  (map_to_list (filter (λ kv, gr_nodeId kv.2 = nodeId ∧ gr_deviceId kv.2 = deviceId)
                  (db_grants db))).*2.

Definition delivery_lost (db : Db) (nodeId : string) (g : NodeAccessGrant) : bool :=
  (gr_appliedVersion g <? gr_desiredVersion g) &&
  negb (exists_row (λ j, bool_decide (j_nodeId j = nodeId) &&
                         (j_targetVersion j =? gr_desiredVersion g) && live_delivery db j)
          (db_jobs db)).

(** The WHERE clause of [queryReconciliationCandidates]. *)
Definition reconciliation_candidate (db : Db) (now : Z) (nodeId : string) (node : Node) : bool :=
  isNodeInAccessControlSync (n_status node) &&
  (existsb (λ expected,
      match grants_on db nodeId (ed_deviceId expected) with
      | [] => bool_decide (n_status node = NODE_HEALTHY)
      | grants => existsb (λ g, live g &&
          (negb (gr_expiresAt g =? ed_expiresAt expected) ||
           (bool_decide (gr_status g = GRANT_PENDING) && (gr_desiredVersion g <=? gr_appliedVersion g)) ||
           delivery_lost db nodeId g)) grants
      end) (expected_devices db now) ||
   exists_row (λ g, bool_decide (gr_nodeId g = nodeId) && negb (live g) && delivery_lost db nodeId g)
     (db_grants db)).

(** The WHERE clause of [queryExpiredSubscriptionCandidates]. *)
Definition expiry_candidate (db : Db) (now : Z) (id : string) (s : Subscription) : bool :=
  sql_le (sb_expiresAt s) now &&
  (bool_decide (sb_status s = SUB_ACTIVE) ||
   (bool_decide (sb_status s = SUB_EXPIRED) &&
    exists_row (λ g, of_user db (sb_userId s) g && live g &&
        match db_nodes db !! gr_nodeId g with
        | Some node => isNodeInAccessControlSync (n_status node)
        | None => false
        end && is_null (db_jobKeys db !! expiry_key id (gr_nodeId g))) (db_grants db))).

(** [id > after AND id <= through] *)
Definition within (after through : option string) (id : string) : bool :=
  match after with Some a => negb (bool_decide (String.le id a)) | None => true end &&
  match through with Some b => bool_decide (String.le id b) | None => true end.

(** [WHERE p AND id > after AND id <= through ORDER BY id LIMIT limit] *)
Definition query_page {A} (p : string → A → bool) (t : Table A) (limit : nat)
    (after through : option string) : list string :=
  take limit (filter (λ id, within after through id = true)
    (merge_sort String.le (map_to_list (filter (λ kv, p kv.1 kv.2 = true) t)).*1)).

(** One page after the cursor; a short page wraps around, up to the cursor.
    The cursor moves to the last candidate. *)
Definition next_page (query : nat → option string → option string → list string)
    (limit : nat) (cursor : option string) : list string * option string :=
  let first := query limit cursor None in
  let candidates :=
    if (length first <? limit)%nat && negb (is_null cursor)
    then first ++ query (limit - length first)%nat None cursor else first in
  (candidates, match last candidates with Some id => Some id | None => cursor end).

Definition findReconciliationCandidates (db : Db) (now : Z) :=
  next_page (query_page (reconciliation_candidate db now) (db_nodes db)).
Definition findExpiredSubscriptionCandidates (db : Db) (now : Z) :=
  next_page (query_page (expiry_candidate db now) (db_subscriptions db)).

(** [try { await m } catch { ... }] *)
Definition attempt {A} (m : DbM A) : DbM (option A) := λ db,
  match m db with
  | (Ok a, db') => (Ok (Some a), db')
  | (Throw _, db') => (Ok None, db')
  end.

(** The loops: what they return and count. *)
Fixpoint tally {A} (l : list A) (f : A → DbM (bool * Z)) : DbM (Z * Z) :=
  match l with
  | [] => mret (0, 0)
  | x :: l' => r ← f x; rest ← tally l' f;
               mret ((if (r.1 : bool) then 1 else 0) + rest.1, r.2 + rest.2)
  end.

Definition tried (m : DbM bool) : DbM (bool * Z) :=
  r ← attempt (atomically m);
  mret match r : option bool with Some changed => (changed, 0) | None => (false, 1) end.

Definition expire_candidate (now : Z) (subscriptionId : string) : DbM (bool * Z) :=
  db ← get;
  scheduled ← tally (findPendingExpiryNodes db subscriptionId now)
    (λ nodeId, tried (scheduleExpiredSubscriptionOnNode subscriptionId nodeId now));
  materialized ← tried (materializeExpiredSubscriptionStatus subscriptionId now);
  mret ((0 <? scheduled.1) || materialized.1, scheduled.2 + materialized.2).

(** A batch takes the store's cursor and leaves it moved. *)
Definition materializeExpiredSubscriptions (limit : nat) (expiryCursor : option string) (now : Z)
    : DbM (AccessMaintenanceBatchResult * option string) :=
  db ← get;
  let '(candidates, cursor) := findExpiredSubscriptionCandidates db now limit expiryCursor in
  counts ← tally candidates (expire_candidate now);
  mret ({| br_processed := counts.1; br_failed := counts.2 |}, cursor).

Definition reconcileAccess (limit : nat) (reconciliationCursor : option string) (now : Z)
    : DbM (AccessMaintenanceBatchResult * option string) :=
  db ← get;
  let '(candidates, cursor) := findReconciliationCandidates db now limit reconciliationCursor in
  counts ← tally candidates (λ nodeId, tried (reconcileOneNode nodeId false now));
  mret ({| br_processed := counts.1; br_failed := counts.2 |}, cursor).

(** ** [OrchestrationService.restoreNodeToHealthy] *)

Inductive RestoreNodeToHealthyResult :=
| Restored (nodeId : string)
| ReconciliationRequired (nodeId : string).

Definition restoreNodeToHealthy (nodeId : string) (actorUserId : option string) (now : Z)
    : DbM RestoreNodeToHealthyResult :=
  reconciled ← reconcileNodeBeforeHealthy nodeId now;
  if (reconciled : bool) then mret (ReconciliationRequired nodeId) else
  restoreHealthy nodeId actorUserId;; mret (Restored nodeId).
End store.
