(* ===== verification/SubscriptionAccessSafety.v ===== *)
(** * Subscription maintenance keeps the invariant

    For every transaction of SubscriptionAccess.v that commits: the invariant
    of ControlPlaneInvariant.v holds again, the state evolved, and what the
    theorems on expiry, cancellation and reconciliation need. *)

From S2P Require Import Prelude.
From S2P Require Import Json.
From S2P Require Import Sql.
From S2P Require Import OutboxStore.
From S2P Require Import NodeSyncStore.
From S2P Require Import NodeAgentContract.
From S2P Require Import XrayAccess.
From S2P Require Import ControlPlane.
From S2P Require Import DataPlaneCredential.
From S2P Require Import AccessPolicy.
From S2P Require Import ControlPlaneInvariant.
From S2P Require Import Orchestration.
From S2P Require Import OrchestrationSafety.
From S2P Require Import SubscriptionAccess.
Open Scope Z_scope.

(** ** Shared statements *)

Lemma subscriptions_inv X f db : Inv X db →
  Inv X (set_subscriptions f db) ∧ evolves db (set_subscriptions f db).
Proof. intros []. cols db. Qed.

Lemma subscription_update_ok id data db u db' :
  subscription_update id data db = (Ok u, db') →
  ∃ old, db_subscriptions db !! id = Some old ∧ subscription_checks (data old) = true ∧
    db' = set_subscriptions <[id := data old]> db.
Proof.
  unfold subscription_update. intros H. ok_inv H.
  destruct (db_subscriptions db !! id) as [old|] eqn:Hold; [|discriminate H]. ok_inv H.
  exists old. split_and!; [done| |done]. by apply negb_false_iff.
Qed.

Lemma sound_reschedule X db id g n expiresAt target :
  Inv X db → db_grants db !! id = Some g → db_nodes db !! gr_nodeId g = Some n →
  gr_desiredVersion g ≤ target ≤ n_desiredConfigVersion n →
  sound_grant_update n g (reschedule_grant expiresAt target g).
Proof.
  intros Hinv Hg Hn Hle. destruct (iv_grants _ _ Hinv _ _ Hg) as (_ & n' & Hn' & H1 & H2 & _ & H3 & _).
  assert (n' = n) as -> by congruence. unfold sound_grant_update, grant_le. simpl.
  split_and!; try done; try lia; by right.
Qed.

(** A grant that was there at an earlier state is not ahead of its node. *)
Lemma grant_below X db id g n :
  Inv X db → db_grants db !! id = Some g → db_nodes db !! gr_nodeId g = Some n →
  1 ≤ gr_desiredVersion g ≤ n_desiredConfigVersion n.
Proof.
  intros Hinv Hg Hn. destruct (iv_grants _ _ Hinv _ _ Hg) as (_ & n' & Hn' & Hle & _).
  by assert (n' = n) as -> by congruence.
Qed.

Section safety.
Context (uuid : nat → string) (hmac_sha256 : string → string → list Z).
Context `{DateStrings}.
Context (credentialPepper : string).

Lemma run_incrementNodeVersion X nodeId db v db' :
  incrementNodeVersion nodeId db = (Ok v, db') → Inv X db →
  Inv X db' ∧ evolves db db' ∧ fresh_version db' nodeId v ∧
  ∃ n, db_nodes db !! nodeId = Some n ∧ v = n_desiredConfigVersion n + 1 ∧
    db' = set_nodes <[nodeId := increment_desired n]> db.
Proof.
  unfold incrementNodeVersion. intros Hr Hinv. ok_inv Hr.
  destruct (run_increment X _ _ _ _ Hrun Hinv) as (H1 & H2 & H3 & -> & old & Hold & ->).
  split_and!; [done..|]. by exists old.
Qed.

Lemma run_createNodeSyncOperation X nodeId lead target key1 key2 now db u db' :
  createNodeSyncOperation uuid nodeId lead target key1 key2 now db = (Ok u, db') →
  Inv X db → fresh_version db nodeId target →
  Inv X db' ∧ evolves db db' ∧ db_nodes db' = db_nodes db ∧ db_devices db' = db_devices db ∧
  db_grants db' = db_grants db ∧ db_acks db' = db_acks db ∧
  db_subscriptions db' = db_subscriptions db ∧
  ∃ jobId eventId, db_jobs db !! jobId = None ∧
    db_jobs db' = <[jobId := new_job jobId nodeId (GrantResource lead) target now]> (db_jobs db) ∧
    db_events db !! eventId = None ∧
    db_events db' = <[eventId := new_event eventId "node-sync.requested"
      (encode_command (grant_command lead jobId target)) now]> (db_events db).
Proof.
  unfold createNodeSyncOperation. intros Hr Hinv Hf. ok_inv Hr.
  destruct (run_sync_operation X _ _ _ _ _ _ _ _ _ _ _ _ _ _ Hrun Hrun0 Hinv Hf)
    as (H1 & H2 & H3 & H4 & _ & _ & H5 & H6 & H7 & H8 & _ & _ & _ & _ & _ & H9 & H10).
  split_and!; try done. exists a, a0. split_and!; try done.
  apply job_create_ok in Hrun as (_ & _ & _ & ->).
  apply event_create_ok in Hrun0 as (Hn & _). rewrite <- Hn. column.
Qed.

Lemma run_grant_updateMany X sets ids data db u db' :
  grant_updateMany sets ids data db = (Ok u, db') → Inv X db →
  (∀ id g n, id ∈ ids → db_grants db !! id = Some g → db_nodes db !! gr_nodeId g = Some n →
     sound_grant_update n g (data g)) →
  Inv X db' ∧ evolves db db' ∧
  db' = set_grants (written_grants (λ id _, bool_decide (id ∈ ids)) data) db.
Proof.
  unfold grant_updateMany. intros Hr Hinv Hs. eapply run_grants_update; [exact Hr|done|].
  intros id g n Hg Hp%bool_decide_eq_true Hn _. by eapply Hs.
Qed.

Lemma hasMatching_ok nodeId lead key1 key2 db b db' :
  hasMatchingNodeSyncOperation nodeId lead key1 key2 db = (Ok b, db') → db' = db.
Proof.
  unfold hasMatchingNodeSyncOperation, job_by_key, event_by_key. intros Hr. ok_inv Hr.
  destruct (db_jobKeys db !! _ ≫= _) as [j|], (db_eventKeys db !! _ ≫= _) as [[k e]|];
    try discriminate Hr; [|by ok_inv Hr].
  destruct (_ && _); [by ok_inv Hr|discriminate Hr].
Qed.

(** A new version of the node, the changed grants under it, and the job that
    delivers them. *)
Lemma run_versioned_update X nodeId n v sets ids data lead key1 key2 now db s1 u s2 u' db' :
  incrementNodeVersion nodeId db = (Ok v, s1) →
  grant_updateMany sets ids data s1 = (Ok u, s2) →
  createNodeSyncOperation uuid nodeId lead v key1 key2 now s2 = (Ok u', db') →
  Inv X db → db_nodes db !! nodeId = Some n →
  (∀ id, id ∈ ids → ∃ g, db_grants db !! id = Some g ∧ gr_nodeId g = nodeId) →
  (∀ db1 id g n', Inv X db1 → db_grants db1 !! id = Some g →
     db_nodes db1 !! gr_nodeId g = Some n' → gr_desiredVersion g ≤ v ≤ n_desiredConfigVersion n' →
     sound_grant_update n' g (data g)) →
  Inv X db' ∧ evolves db db' ∧ v = n_desiredConfigVersion n + 1 ∧
  db_grants db' = written_grants (λ id _, bool_decide (id ∈ ids)) data (db_grants db) ∧
  db_nodes db' = <[nodeId := increment_desired n]> (db_nodes db) ∧
  db_devices db' = db_devices db ∧ db_subscriptions db' = db_subscriptions db ∧
  told db' nodeId (n_desiredConfigVersion n).
Proof.
  intros Hr1 Hr2 Hr3 Hinv Hn Hids Hs.
  destruct (run_incrementNodeVersion X _ _ _ _ Hr1 Hinv)
    as (I1 & E1 & F1 & n' & Hn' & Hv & Hdb1). assert (n' = n) as -> by congruence.
  destruct (run_grant_updateMany X _ _ _ _ _ _ Hr2 I1) as (I2 & E2 & Hdb2).
  { intros id g n' (g' & Hg' & Hgn)%Hids Hg Hn1.
    assert (g' = g) as -> by (rewrite Hdb1 in Hg; destruct db; simpl in *; congruence).
    eapply Hs; [exact I1|exact Hg|done|].
    assert (Hb : 1 ≤ gr_desiredVersion g ≤ n_desiredConfigVersion n)
      by (eapply (grant_below _ _ _ _ _ Hinv); [exact Hg'|congruence]).
    rewrite Hgn, Hdb1 in Hn1. destruct db. simpl in *. rewrite lookup_insert_eq in Hn1.
    injection Hn1 as <-. simpl. lia. }
  destruct (run_createNodeSyncOperation X _ _ _ _ _ _ _ _ _ Hr3 I2)
    as (I3 & E3 & N3 & D3 & G3 & A3 & S3 & jobId & eventId & Hnew & J3 & _).
  { eapply fresh_version_frame; [| |exact F1]; rewrite Hdb2; column. }
  split; [done|]. split; [by do 2 (etrans; [eassumption|])|]. rewrite N3, G3, D3, S3, Hdb2, Hdb1.
  split; [done|]. do 4 (split; [column|]).
  do 2 eexists. rewrite J3, lookup_insert_eq. split_and!; [done|done|]. simpl. lia.
Qed.

(** ** Expiry *)

(** A committed expiry: every live grant of the user on the node ends with the
    user's effective entitlement, and the node is told. *)
Definition expiry_scheduled (db db' : Db) (subscriptionId nodeId : string) (now : Z) : Prop :=
  ∃ s e n, db_subscriptions db !! subscriptionId = Some s ∧ sb_expiresAt s = Some e ∧ e ≤ now ∧
    db_nodes db !! nodeId = Some n ∧ isNodeInAccessControlSync (n_status n) = true ∧
    (∀ id g, db_grants db !! id = Some g → gr_nodeId g = nodeId → of_user db (sb_userId s) g = true →
       live g = true →
       db_grants db' !! id = Some (reschedule_grant
         (Some (default e (findEffectiveExpiry db (sb_userId s) now)))
         (n_desiredConfigVersion n + 1) g)) ∧
    told db' nodeId (n_desiredConfigVersion n).

Lemma scheduleExpired_safe subscriptionId nodeId now db b db' :
  scheduleExpiredSubscriptionOnNode uuid subscriptionId nodeId now db = (Ok b, db') →
  Inv nothing db →
  Inv nothing db' ∧ evolves db db' ∧
  if b : bool then expiry_scheduled db db' subscriptionId nodeId now else db' = db.
Proof.
  unfold scheduleExpiredSubscriptionOnNode. intros Hr Hinv. ok_inv Hr.
  destruct (db_subscriptions db !! subscriptionId) as [s|] eqn:Hs; [|by ok_inv Hr].
  destruct (sb_expiresAt s) as [e|] eqn:He; [|by ok_inv Hr].
  case_bool_decide as Hst; simpl in Hr; [|by ok_inv Hr].
  destruct (db_nodes db !! nodeId) as [n|] eqn:Hn; simpl in Hr; [|by ok_inv Hr].
  destruct (isNodeInAccessControlSync (n_status n)) eqn:Hsync; simpl in Hr; [|by ok_inv Hr].
  destruct (Z.ltb_spec now e) as [|Hle]; [by ok_inv Hr|].
  set (p := λ g, bool_decide (gr_nodeId g = nodeId) && of_user db (sb_userId s) g && live g) in *.
  set (expiry := default e (findEffectiveExpiry db (sb_userId s) now)) in *.
  assert (Hall : ∀ id g, (id, g) ∈ grants_where p db ↔ db_grants db !! id = Some g ∧ p g = true)
    by (intros; apply grants_where_elem).
  destruct (grants_where p db) as [|[lead g0] rest] eqn:Hgrants; [by ok_inv Hr|].
  rewrite <- Hgrants in *. ok_inv Hr. apply hasMatching_ok in Hrun as ->.
  destruct a; [by ok_inv Hr|]. ok_inv Hr.
  destruct (run_versioned_update nothing nodeId n _ _ _ _ _ _ _ _ _ _ _ _ _ _ Hrun Hrun0 Hrun1 Hinv Hn)
    as (I1 & E1 & -> & G1 & N1 & _ & _ & Htold).
  { intros id ([id' g] & -> & Hin)%list_elem_of_fmap. apply Hall in Hin as [Hg Hp]. exists g.
    apply andb_prop in Hp as [[Hp%bool_decide_eq_true _]%andb_prop _]. done. }
  { intros. by eapply sound_reschedule. }
  destruct (run_audit nothing _ _ _ _ _ _ _ _ Hrun2 I1) as (I2 & E2 & _ & J2 & _ & G2 & _).
  split; [done|]. split; [by etrans|]. exists s, e, n. split_and!; try done.
  - intros id g Hg Hgn Hu Hl. rewrite G2, G1, written_grants_lookup, Hg. simpl.
    rewrite bool_decide_eq_true_2; [done|]. apply list_elem_of_fmap. exists (id, g). split; [done|].
    apply Hall. split; [done|]. unfold p. by rewrite Hu, Hl, bool_decide_eq_true_2.
  - by eapply told_evolves.
Qed.

(** The status of an expired subscription. *)
Lemma materialize_safe subscriptionId now db b db' :
  materializeExpiredSubscriptionStatus subscriptionId now db = (Ok b, db') → Inv nothing db →
  Inv nothing db' ∧ evolves db db' ∧ db_grants db' = db_grants db ∧
  (b = true ↔ ∃ s e, db_subscriptions db !! subscriptionId = Some s ∧ sb_status s = SUB_ACTIVE ∧
                     sb_expiresAt s = Some e ∧ e ≤ now) ∧
  (b = true → sb_status <$> db_subscriptions db' !! subscriptionId = Some SUB_EXPIRED).
Proof.
  unfold materializeExpiredSubscriptionStatus. intros Hr Hinv. ok_inv Hr.
  destruct (db_subscriptions db !! subscriptionId) as [s|] eqn:Hs.
  2:{ ok_inv Hr. split_and!; try done. split; [done|]. by intros (? & ? & ? & _). }
  destruct (sb_expiresAt s) as [e|] eqn:He.
  2:{ ok_inv Hr. split_and!; try done. split; [done|]. intros (s' & ? & ? & _ & ? & _). congruence. }
  case_bool_decide as Hst; simpl in Hr.
  2:{ ok_inv Hr. split_and!; try done. split; [done|]. intros (s' & ? & ? & ? & _). congruence. }
  destruct (Z.ltb_spec now e) as [|Hle].
  { ok_inv Hr. split_and!; try done. split; [done|]. intros (s' & e' & ? & _ & ? & ?).
    assert (e' = e) as -> by congruence. lia. }
  ok_inv Hr. apply subscription_update_ok in Hrun as (old & Hold & _ & Hdb).
  destruct (subscriptions_inv nothing <[subscriptionId := {|
    sb_userId := sb_userId old; sb_status := SUB_EXPIRED; sb_startsAt := sb_startsAt old;
    sb_expiresAt := sb_expiresAt old; sb_cancelledAt := sb_cancelledAt old |}]> _ Hinv) as [I1 E1].
  rewrite <- Hdb in I1, E1.
  destruct (run_audit nothing _ _ _ _ _ _ _ _ Hrun0 I1)
    as (I2 & E2 & _ & _ & _ & G2 & _ & _ & _ & S2).
  split; [done|]. split; [by etrans|]. split; [rewrite G2, Hdb; column|].
  split; [split; [eauto 6|done]|]. intros _. rewrite S2, Hdb. destruct db. simpl.
  by rewrite lookup_insert_eq.
Qed.

(** ** Cancellation *)

Lemma group_by_node_elem grants nodeId id :
  id ∈ default [] (map_get nodeId (group_by_node grants)) ↔
  ∃ g, (id, g) ∈ grants ∧ gr_nodeId g = nodeId.
Proof.
  induction grants as [|[id' g'] grants IH] using rev_ind.
  { simpl. split; [by intros ?%elem_of_nil|]. by intros (? & ?%elem_of_nil & _). }
  unfold group_by_node. rewrite foldl_app. simpl. fold (group_by_node grants).
  setoid_rewrite elem_of_app. setoid_rewrite list_elem_of_singleton.
  destruct (decide (nodeId = gr_nodeId g')) as [->|Hne].
  - rewrite map_get_set_eq. simpl. rewrite elem_of_app, list_elem_of_singleton, IH. naive_solver.
  - rewrite map_get_set_ne by done. rewrite IH. naive_solver.
Qed.

(** The statuses the cancellation delivers to. *)
Lemma sync_status n :
  bool_decide (n_status n = NODE_HEALTHY) || bool_decide (n_status n = NODE_DRAINING) ||
  bool_decide (n_status n = NODE_DISABLED) = isNodeInAccessControlSync (n_status n).
Proof. by destruct (n_status n). Qed.

Lemma revoked_written (ids : list string) now d db db' :
  db_grants db' = written_grants (λ id _, bool_decide (id ∈ ids)) (revoke_grant now d) (db_grants db) →
  (∀ id, id ∈ ids → is_Some (db_grants db !! id)) →
  no_new_grants db db' ∧ ∀ id, id ∈ ids → revoked db' id.
Proof.
  intros Heq Hids. split.
  - intros id Hid. by rewrite Heq, written_grants_lookup, Hid.
  - intros id Hin. destruct (Hids id Hin) as [g Hg]. eexists.
    rewrite Heq, written_grants_lookup, Hg. simpl. by rewrite bool_decide_eq_true_2.
Qed.

(** The loop's body up to its audit row. *)
Lemma cancel_delivery_safe X subscriptionId nodeId n (delivers : bool) ids lead now db a s u s1 u1 db' :
  (if delivers
   then v ← incrementNodeVersion nodeId; mret (Some v) else mret None) db = (Ok a, s) →
  grant_updateMany true ids (revoke_grant now a) s = (Ok u, s1) →
  match a with
  | Some v => createNodeSyncOperation uuid nodeId lead v (cancel_key subscriptionId nodeId v)
                (cancel_outbox_key subscriptionId nodeId v) now
  | None => mret tt
  end s1 = (Ok u1, db') →
  Inv X db → db_nodes db !! nodeId = Some n →
  (∀ id, id ∈ ids → ∃ g, db_grants db !! id = Some g ∧ gr_nodeId g = nodeId) →
  Inv X db' ∧ evolves db db' ∧ db_devices db' = db_devices db ∧
  db_subscriptions db' = db_subscriptions db ∧
  db_grants db' = written_grants (λ id _, bool_decide (id ∈ ids)) (revoke_grant now a) (db_grants db) ∧
  (delivers = true → told db' nodeId (n_desiredConfigVersion n)).
Proof.
  intros Hr1 Hr2 Hr3 Hinv Hn Hids.
  destruct delivers; ok_inv Hr1.
  - destruct (run_versioned_update X nodeId n _ _ _ _ _ _ _ _ _ _ _ _ _ _ Hrun Hr2 Hr3 Hinv Hn)
      as (I & E & _ & G & _ & D & S & T); [done|intros; by eapply sound_revoke|]. by split_and!.
  - ok_inv Hr3. destruct (run_grant_updateMany X _ _ _ _ _ _ Hr2 Hinv) as (I & E & Hdb).
    { intros id g n' _ Hg Hn'. eapply sound_revoke; [done|done|done|]. simpl.
      pose proof (grant_below _ _ _ _ _ Hinv Hg Hn'). lia. }
    split_and!; [done|done|rewrite Hdb; column..|done].
Qed.

Lemma cancel_on_node_safe X db0 subscriptionId now byNode nodeId n0 db u db' :
  cancel_on_node uuid subscriptionId now byNode (nodeId, n_status n0) db = (Ok u, db') →
  Inv X db → evolves db0 db → db_nodes db0 !! nodeId = Some n0 →
  (∀ id, id ∈ default [] (map_get nodeId byNode) →
     ∃ g, db_grants db0 !! id = Some g ∧ gr_nodeId g = nodeId) →
  Inv X db' ∧ evolves db db' ∧ no_new_grants db db' ∧ db_devices db' = db_devices db ∧
  db_subscriptions db' = db_subscriptions db ∧
  ∀ id, id ∈ default [] (map_get nodeId byNode) →
    revoked db' id ∧
    (isNodeInAccessControlSync (n_status n0) = true → told db' nodeId (n_desiredConfigVersion n0)).
Proof.
  intros Hr Hinv Hev Hn0 Hids. unfold cancel_on_node in Hr.
  set (ids := default [] (map_get nodeId byNode)) in *. clearbody ids.
  destruct ids as [|lead rest].
  { ok_inv Hr. split_and!; try done. intros id Hin. by apply elem_of_nil in Hin. }
  set (ids := lead :: rest) in *. cbv zeta in Hr. ok_inv Hr.
  destruct (ev_nodes _ _ Hev _ _ Hn0) as (n & Hn & Hle & _).
  assert (Hids' : ∀ id, id ∈ ids → ∃ g, db_grants db !! id = Some g ∧ gr_nodeId g = nodeId).
  { intros id (g & Hg & <-)%Hids. destruct (ev_grants _ _ Hev _ _ Hg) as (g' & Hg' & Hgn & _).
    by exists g'. }
  destruct (cancel_delivery_safe X subscriptionId nodeId n _ _ _ _ _ _ _ _ _ _ _ Hrun Hrun0 Hrun1 Hinv Hn Hids')
    as (I3 & E3 & D3 & S3 & G3 & T3).
  destruct (revoked_written _ _ _ _ _ G3) as [Hnew Hrev].
  { intros id (g & Hg & _)%Hids'. by exists g. }
  destruct (run_audit X _ _ _ _ _ _ _ _ Hr I3) as (I4 & E4 & _ & J4 & D4 & G4 & _ & _ & _ & S4).
  split_and!; [done|by etrans| |congruence|congruence|].
  - intros id Hid. rewrite G4. by apply Hnew.
  - intros id Hin. split; [by eapply revoked_evolves; [apply Hrev|]|]. intros Hsync.
    rewrite sync_status in T3. eapply told_evolves; [|exact E4].
    destruct (T3 Hsync) as (jid & j & Hj & Hjn & Hlt). exists jid, j. split_and!; [done|done|].
    lia.
Qed.

(** A committed cancellation of a subscription that gave access: none of the
    user's grants is live any more, and the nodes that synchronise are told. *)
Definition access_cancelled (db db' : Db) (subscriptionId : string) (now : Z) : Prop :=
  ∃ s, db_subscriptions db !! subscriptionId = Some s ∧
    sb_status <$> db_subscriptions db' !! subscriptionId = Some SUB_CANCELLED ∧
    (sb_status s = SUB_ACTIVE → sql_gt (sb_expiresAt s) now = true →
     (∀ id g, db_grants db' !! id = Some g → of_user db' (sb_userId s) g = true →
        gr_status g = GRANT_REVOKED) ∧
     (∀ id g n, db_grants db !! id = Some g → of_user db (sb_userId s) g = true → live g = true →
        db_nodes db !! gr_nodeId g = Some n → isNodeInAccessControlSync (n_status n) = true →
        told db' (gr_nodeId g) (n_desiredConfigVersion n))).

Lemma cancel_safe subscriptionId now db r db' :
  cancelSubscriptionAccess uuid subscriptionId now db = (Ok r, db') → Inv nothing db →
  Inv nothing db' ∧ evolves db db' ∧
  match r with
  | Cancelled => access_cancelled db db' subscriptionId now
  | _ => db' = db
  end.
Proof.
  unfold cancelSubscriptionAccess. intros Hr Hinv. ok_inv Hr.
  destruct (db_subscriptions db !! subscriptionId) as [s|] eqn:Hs; [|by ok_inv Hr].
  case_bool_decide as Hst; [by ok_inv Hr|]. cbv zeta in Hr.
  set (entitled := bool_decide (sb_status s = SUB_ACTIVE) && sql_gt (sb_expiresAt s) now) in *.
  set (p := λ g, of_user db (sb_userId s) g && live g) in *.
  set (grants := if entitled then grants_where p db else []) in *.
  set (nodes := merge_sort _ _) in *.
  assert (Hnodes : ∀ nodeId st, (nodeId, st) ∈ nodes ↔
    (∃ g id, (id, g) ∈ grants ∧ gr_nodeId g = nodeId) ∧ n_status <$> db_nodes db !! nodeId = Some st).
  { intros nodeId st. unfold nodes. rewrite elem_of_merge_sort, list_elem_of_omap.
    setoid_rewrite elem_of_remove_dups. setoid_rewrite list_elem_of_fmap. split.
    - intros (nid & ([id g] & -> & Hin) & (n & Hn & [= -> ->])%fmap_Some). simpl in *.
      split; [by exists g, id|]. by rewrite Hn.
    - intros [(g & id & Hin & <-) (n & Hn & ->)%fmap_Some]. exists (gr_nodeId g).
      split; [by exists (id, g)|]. by rewrite Hn. }
  assert (Hgr : ∀ id g, (id, g) ∈ grants ↔
    entitled = true ∧ db_grants db !! id = Some g ∧ p g = true).
  { intros id g. unfold grants. destruct entitled.
    - rewrite grants_where_elem. tauto.
    - split; [by intros ?%elem_of_nil|by intros [? _]]. }
  clearbody nodes grants. ok_inv Hr.
  apply subscription_update_ok in Hrun as (old & Hold & _ & Hdb).
  assert (old = s) as -> by congruence.
  set (new := {| sb_userId := sb_userId s; sb_status := SUB_CANCELLED; sb_startsAt := sb_startsAt s;
    sb_expiresAt := sb_expiresAt s; sb_cancelledAt := Some now |}) in *.
  destruct (subscriptions_inv nothing <[subscriptionId := new]> _ Hinv) as [I1 E1].
  rewrite <- Hdb in I1, E1.
  eapply (for_each_ok_all (λ s', Inv nothing s' ∧ evolves db s' ∧ no_new_grants db s' ∧
      db_devices s' = db_devices db ∧ db_subscriptions s' = db_subscriptions s0) evolves
    (λ node s', ∀ id g, (id, g) ∈ grants → gr_nodeId g = node.1 →
       revoked s' id ∧ ∀ n, db_nodes db !! node.1 = Some n →
         isNodeInAccessControlSync (n_status n) = true → told s' node.1 (n_desiredConfigVersion n)))
    in Hrun0 as ((I2 & E2 & N2 & D2 & S2) & _ & Hall).
  - destruct (run_audit nothing _ _ _ _ _ _ _ _ Hrun1 I2)
      as (I3 & E3 & _ & J3 & D3 & G3 & _ & _ & _ & S3).
    split; [done|]. split; [by etrans|]. exists s. split; [done|].
    split; [rewrite S3, S2, Hdb; destruct db; simpl; by rewrite lookup_insert_eq|].
    intros Hact Hgt. assert (Hent : entitled = true)
      by (unfold entitled; by rewrite Hgt, bool_decide_eq_true_2).
    assert (Hdone : ∀ id g, db_grants db !! id = Some g → p g = true → 
      revoked s1 id ∧ ∀ n, db_nodes db !! gr_nodeId g = Some n →
         isNodeInAccessControlSync (n_status n) = true →
         told s1 (gr_nodeId g) (n_desiredConfigVersion n)).
    { intros id g Hg Hp. assert (Hin : (id, g) ∈ grants) by (by apply Hgr).
      destruct (iv_grants _ _ Hinv _ _ Hg) as (_ & n & Hn & _).
      assert (Hnode : (gr_nodeId g, n_status n) ∈ nodes)
        by (apply Hnodes; split; [by exists g, id|by rewrite Hn]).
      exact (Hall _ Hnode id g Hin eq_refl). }
    split.
    + intros id g Hg Hu. rewrite G3 in Hg.
      destruct (db_grants db !! id) as [g0|] eqn:Hg0; [|by rewrite (N2 _ Hg0) in Hg].
      destruct (ev_grants _ _ E2 _ _ Hg0) as (g' & Hg' & _ & Hd & _ & _ & Hrev).
      assert (g' = g) as -> by congruence.
      destruct (live g0) eqn:Hl; [|by apply Hrev, live_false].
      destruct (Hdone id g0 Hg0) as [(g' & Hg'' & Hst') _]; [|congruence].
      unfold p, of_user in *. rewrite Hl, <- Hd, <- D2, <- D3. by rewrite Hu.
    + intros id g n Hg Hu Hl Hn Hsync. eapply told_evolves; [|exact E3].
      eapply Hdone; [exact Hg| |done|done]. unfold p. by rewrite Hu, Hl.
  - intros [nodeId st] s3 v s4 Hin Hrun (I2 & E2 & N2 & D2 & S2).
    apply Hnodes in Hin as [_ (n & Hn & ->)%fmap_Some].
    destruct (cancel_on_node_safe nothing db _ _ _ _ n _ _ _ Hrun I2 E2 Hn)
      as (I3 & E3 & N3 & D3 & S3 & Hrev).
    { intros id (g & Hg & <-)%group_by_node_elem. apply Hgr in Hg as (_ & Hg & _). by exists g. }
    split_and!; [done|by etrans|by etrans|congruence|congruence|done|].
    intros id g Hin Hgn. simpl in *. destruct (Hrev id) as [Hr Ht].
    { apply group_by_node_elem. by exists g. }
    split; [done|]. intros n' Hn'. assert (n' = n) as -> by congruence. done.
  - intros [nodeId st] s3 s4 HQ Hev id g Hin Hgn. destruct (HQ id g Hin Hgn) as [Hr Ht].
    split; [by eapply revoked_evolves|]. intros n Hn Hsync. eapply told_evolves; eauto.
  - split_and!; [done|done| | |done]; rewrite Hdb.
    + intros id Hid. rewrite <- Hid. column.
    + column.
Qed.
End safety.
