(* ===== verification/SubscriptionFeed.v ===== *)
(** * The subscription feed: [apps/api/src/subscription-access/]

    [SubscriptionAccessService] (whose device a token names),
    [ConnectionRouteSelectionService] (the routes that are ready for it), the
    renderer of VLESS URIs and [SubscriptionFeedService], which lists them.
    The feed only reads: the two queries it makes are functions of the
    database each of them sees.  Texts are UTF-8 (Text.v); [isIP] of Node's [net] and
    HMAC-SHA-256 are parameters. *)

From Stdlib Require Import Ascii.
From stdpp Require Import pretty.
From S2P Require Import Prelude.
From S2P Require Import Text.
From S2P Require Import Json.
From S2P Require Import Sql.
From S2P Require Import NodeSyncStore.
From S2P Require Import NodeAgentContract.
From S2P Require Import ControlPlane.
From S2P Require Import DataPlaneCredential.
From S2P Require Import AccessPolicy.
From S2P Require Import Orchestration.
From S2P Require Import NodeAgentApi.
Open Scope Z_scope.

(** ** Texts *)

Definition alphanumeric (a : ascii) : bool :=
  let n := byte_of a in
  ((48 <=? n) && (n <=? 57) || (65 <=? n) && (n <=? 90) || (97 <=? n) && (n <=? 122))%nat.

(** [s.split(c)] *)
Fixpoint split_on (c : ascii) (s : string) : list string :=
  match s with
  | EmptyString => [EmptyString]
  | String a s' =>
      if Ascii.eqb a c then EmptyString :: split_on c s'
      else match split_on c s' with
           | [] => [String a EmptyString]
           | t :: rest => String a t :: rest
           end
  end.

Fixpoint last_char (s : string) : option ascii :=
  match s with
  | EmptyString => None
  | String a EmptyString => Some a
  | String _ s' => last_char s'
  end.

(** [[A-Za-z0-9](?:[A-Za-z0-9-]{0,61}[A-Za-z0-9])?] *)
Definition hostname_label (s : string) : bool :=
  match s, last_char s with
  | String a _, Some z => alphanumeric a && alphanumeric z && string_forall id_char s &&
                          (String.length s <=? 63)%nat
  | _, _ => false
  end.
(** [asciiHostnamePattern] *)
Definition asciiHostnamePattern (s : string) : bool := forallb hostname_label (split_on "."%char s).

Definition isValidTlsServerName (value : string) : bool :=
  bounded_text 253 value && asciiHostnamePattern value.

(** [/\p{Cc}/u]: U+0000-001F, U+007F and U+0080-009F. *)
Fixpoint has_control (s : string) : bool :=
  match s with
  | EmptyString => false
  | String a s' =>
      (byte_of a <? 32)%nat || (byte_of a =? 127)%nat ||
      match s' with
      | String b _ => (byte_of a =? 194)%nat && ((128 <=? byte_of b) && (byte_of b <=? 159))%nat
      | EmptyString => false
      end || has_control s'
  end.

Definition isValidVlessDisplayName (value : string) : bool :=
  ((1 <=? codePointLength value) && (codePointLength value <=? 128))%nat && negb (has_control value).

(** Percent-encoding of the bytes [keep] does not pass. *)
Definition upper_nibble (n : nat) : ascii :=
  ascii_of_nat (if (n <? 10)%nat then 48 + n else 55 + n).
Fixpoint percent_encode (keep : ascii → bool) (s : string) : string :=
  match s with
  | EmptyString => EmptyString
  | String a s' =>
      if keep a then String a (percent_encode keep s')
      else String "%" (String (upper_nibble (byte_of a / 16)) (String (upper_nibble (byte_of a mod 16))
             (percent_encode keep s')))
  end.

Definition char_in (set : string) (a : ascii) : bool := bool_decide (a ∈ String.list_ascii_of_string set).
Definition encodeURIComponent : string → string :=
  percent_encode (λ a, alphanumeric a || char_in "-_.!~*'()" a).
(** The serializer of [URLSearchParams]; a space would become a plus. *)
Definition form_encode (s : string) : string :=
  String.string_of_list_ascii ((λ a, if Ascii.eqb a " " then "+"%char else a) <$>
    String.list_ascii_of_string (percent_encode (λ a, alphanumeric a || char_in "*-._ " a) s)).

(** ** Rows *)

Record LocationPool := { lp_enabled : bool; lp_candidateLimit : Z }.
Inductive LocationPoolRole := SERVING | STANDBY.
#[export] Instance LocationPoolRole_eq_dec : EqDecision LocationPoolRole.
Proof. solve_decision. Defined.
Record LocationPoolMembership := { lm_locationPoolId : string; lm_role : LocationPoolRole }.

(** The tables only the feed reads: pools, and memberships keyed by node. *)
Record PoolTables := {
  pt_pools : Table LocationPool;
  pt_memberships : Table LocationPoolMembership;
}.

Record ConnectionRouteProjection := {
  cr_endpointId : string;
  cr_grantId : string;
  cr_dataPlaneCredentialHash : string;
  cr_dataPlaneCredentialDerivationVersion : option Z;
  cr_endpointHost : string;
  cr_endpointAddressKind : AddressKind;
  cr_endpointPort : Z;
  cr_endpointPriority : Z;
  cr_nodeId : string;
  cr_profileId : string;
  cr_profileKey : string;
  cr_profileVersion : Z;
  cr_profilePriority : Z;
  cr_protocolKind : ProtocolKind;
  cr_transportKind : TransportKind;
  cr_securityKind : SecurityKind;
  cr_tlsServerName : option string;
  cr_displayName : option string;
  cr_poolId : string;
  cr_poolCandidateLimit : Z;
}.

(** [ORDER BY profile."priority", endpoint."priority", node."id",
    profile."profileKey", profile."version" DESC, endpoint."id"] *)
Definition projection_order : relation ConnectionRouteProjection :=
  lex cr_profilePriority Z.lt (
  lex cr_endpointPriority Z.lt (
  lex cr_nodeId String.le (
  lex cr_profileKey String.le (
  lex cr_profileVersion (flip Z.lt) (
  by_key cr_endpointId String.le))))).
#[export] Instance projection_order_dec x y : Decision (projection_order x y).
Proof. unfold projection_order. apply _. Defined.
#[export] Instance projection_order_total : Total projection_order.
Proof. unfold projection_order. apply _. Qed.
#[export] Instance projection_order_trans : Transitive projection_order.
Proof. unfold projection_order. apply _. Qed.

Record FeedEnvironment := {
  SUBSCRIPTION_TOKEN_PEPPER : option string;
  SUBSCRIPTION_FEED_RENDERING_ENABLED : bool;
  SUBSCRIPTION_FEED_MAX_ROUTES : Z;
}.

Record RenderableVlessTcpTlsRoute := {
  vr_host : string;
  vr_addressKind : AddressKind;
  vr_port : Z;
  vr_credential : string;
  vr_tlsServerName : string;
  vr_displayName : string;
}.

Inductive FeedError :=
| FeedUnauthorized
| FeedUnavailable
(** A row the projection schema rejects. *)
| FeedMalformed
(** A credential service without its pepper. *)
| FeedFailed.

Definition MAX_FEED_BYTES : Z := 16384.
Definition LF : string := String "010" EmptyString.

Section feed.
Context (hmac_sha256 : string → string → list Z) (is_uuid : string → bool) (isIP : string → Z).
Context (environment : ApiEnvironment) (feedEnvironment : FeedEnvironment).

(** ** [renderVlessTcpTls] *)

Definition host_matches (kind : AddressKind) (host : string) : bool :=
  match kind with
  | IPV6 => isIP host =? 6
  | IPV4 => isIP host =? 4
  | HOSTNAME => isValidTlsServerName host
  end.

Definition renderVlessTcpTls (route : RenderableVlessTcpTlsRoute) : option string :=
  if negb (is_uuid_v4 (vr_credential route)) then None else
  if (vr_port route <? 1) || (65535 <? vr_port route) then None else
  if negb (isValidVlessDisplayName (vr_displayName route)) then None else
  if negb (isValidTlsServerName (vr_tlsServerName route)) then None else
  if negb (host_matches (vr_addressKind route) (vr_host route)) then None else
  let host := match vr_addressKind route with
              | IPV6 => "[" +:+ vr_host route +:+ "]" | _ => vr_host route
              end in
  Some ("vless://" +:+ vr_credential route +:+ "@" +:+ host +:+ ":" +:+ pretty (vr_port route) +:+
        "?encryption=none&security=tls&type=tcp&sni=" +:+ form_encode (vr_tlsServerName route) +:+
        "#" +:+ encodeURIComponent (vr_displayName route)).

(** ** [SubscriptionAccessService.resolveAuthorizedDevice] *)

Definition hashToken (token pepper : string) : string := to_hex (hmac_sha256 pepper token).

(** [status = ACTIVE AND "expiresAt" > clock_timestamp()] *)
Definition running (userId : string) (now : Z) (s : Subscription) : bool :=
  bool_decide (sb_userId s = userId) && bool_decide (sb_status s = SUB_ACTIVE) &&
  sql_gt (sb_expiresAt s) now.

Definition resolveAuthorizedDevice (token : string) (now : Z) (db : Db)
    : option (string * string) :=
  pepper ← SUBSCRIPTION_TOKEN_PEPPER feedEnvironment;
  guard (pepper ≠ EmptyString);; guard (nodeAgentCredentialPattern token = true);;
  head (omap (λ row : string * Device, let '(id, d) := row in
    guard (dv_subscriptionTokenHash d = hashToken token pepper);;
    guard (dv_status d = DEVICE_ACTIVE);;
    guard (exists_row (running (dv_userId d) now) (db_subscriptions db) = true);;
    Some (id, dv_userId d)) (map_to_list (db_devices db))).

(** ** [ConnectionRouteSelectionService.selectForAuthorizedDevice] *)

(** The conditions on an access grant of the device. *)
Definition grant_ready (deviceId : string) (now : Z) (g : NodeAccessGrant) : bool :=
  bool_decide (gr_deviceId g = deviceId) &&
  isGrantConverged (gr_status g) (gr_expiresAt g) (gr_desiredVersion g) (gr_appliedVersion g) now.

(** The joined row of a grant and a route on its node. *)
Definition project_route (pools : PoolTables) (db : Db) (grant : string * NodeAccessGrant)
    (route : (string * string) * RouteColumns) : option ConnectionRouteProjection :=
  let '(grantId, g) := grant in
  let '((e, p), r) := route in
  let nodeId := gr_nodeId g in
  node ← db_nodes db !! nodeId;
  guard (n_status node = NODE_HEALTHY);;
  membership ← pt_memberships pools !! nodeId;
  guard (lm_role membership = SERVING);;
  pool ← pt_pools pools !! lm_locationPoolId membership;
  guard (lp_enabled pool = true);;
  guard (rc_nodeId r = nodeId);;
  activationVersion ← rc_activationVersion r;
  guard (activationVersion ≤ n_appliedConfigVersion node);;
  endpoint ← db_endpoints db !! e;
  guard (en_nodeId endpoint = nodeId);; guard (en_status endpoint = MATERIAL_ACTIVE);;
  profile ← db_profiles db !! p;
  guard (cp_nodeId profile = nodeId);; guard (cp_status profile = MATERIAL_ACTIVE);;
  let public_config := db_publicConfigs db !! p in
  Some {| cr_endpointId := e; cr_grantId := grantId;
          cr_dataPlaneCredentialHash := gr_dataPlaneCredentialHash g;
          cr_dataPlaneCredentialDerivationVersion := gr_dataPlaneCredentialDerivationVersion g;
          cr_endpointHost := en_host endpoint; cr_endpointAddressKind := en_addressKind endpoint;
          cr_endpointPort := en_port endpoint; cr_endpointPriority := en_priority endpoint;
          cr_nodeId := nodeId; cr_profileId := p; cr_profileKey := cp_profileKey profile;
          cr_profileVersion := cp_version profile; cr_profilePriority := cp_priority profile;
          cr_protocolKind := cp_protocolKind profile; cr_transportKind := cp_transportKind profile;
          cr_securityKind := cp_securityKind profile;
          cr_tlsServerName := pc_tlsServerName <$> public_config;
          cr_displayName := pc_displayName <$> public_config;
          cr_poolId := lm_locationPoolId membership;
          cr_poolCandidateLimit := lp_candidateLimit pool |}.

(** One row for each running subscription of the user, grant and route. *)
Definition selected_routes (pools : PoolTables) (deviceId userId : string) (now : Z) (db : Db)
    : list ConnectionRouteProjection :=
  device ← option_list (d ← db_devices db !! deviceId;
                        guard (dv_userId d = userId);; guard (dv_status d = DEVICE_ACTIVE);; Some d);
  _ ← rows (sql_where (running userId now) (db_subscriptions db));
  grant ← map_to_list (filter (λ kv, grant_ready deviceId now kv.2 = true) (db_grants db));
  omap (project_route pools db grant) (map_to_list (db_routes db)).

(** [connectionRouteProjectionSchema] *)
Definition z_range (lo hi n : Z) : bool := (lo <=? n) && (n <=? hi).
Definition connectionRouteProjectionSchema (r : ConnectionRouteProjection) : bool :=
  is_uuid (cr_endpointId r) && is_uuid (cr_grantId r) &&
  bounded_text 128 (cr_dataPlaneCredentialHash r) &&
  match cr_dataPlaneCredentialDerivationVersion r with Some v => 0 <? v | None => true end &&
  bounded_text 253 (cr_endpointHost r) && z_range 1 65535 (cr_endpointPort r) &&
  (0 <=? cr_endpointPriority r) && is_uuid (cr_nodeId r) && is_uuid (cr_profileId r) &&
  is_uuid (cr_profileKey r) && (1 <=? cr_profileVersion r) && (0 <=? cr_profilePriority r) &&
  match cr_tlsServerName r with Some s => bounded_text 253 s | None => true end &&
  match cr_displayName r with Some s => bounded_text 128 s | None => true end &&
  is_uuid (cr_poolId r) && z_range 1 100 (cr_poolCandidateLimit r).

Definition selectForAuthorizedDevice (pools : PoolTables) (deviceId userId : string) (now : Z)
    (db : Db) : outcome FeedError (list ConnectionRouteProjection) :=
  if negb (is_uuid userId && is_uuid deviceId) then Throw FeedMalformed else
  let routes := merge_sort projection_order (selected_routes pools deviceId userId now db) in
  if forallb connectionRouteProjectionSchema routes then Ok routes else Throw FeedMalformed.

(** ** [SubscriptionFeedService.feed] *)

Record FeedState := {
  fd_rendered : list string;
  fd_renderedNodeIds : list string;
  fd_renderedByPool : list (string * Z);
  fd_feedBytes : Z;
}.

(** What a row renders to: [None] skips it. *)
Definition render_route (deviceId : string) (route : ConnectionRouteProjection)
    : outcome FeedError (option string) :=
  match cr_protocolKind route, cr_transportKind route, cr_securityKind route,
        cr_tlsServerName route, cr_displayName route with
  | VLESS, TCP, TLS, Some tlsServerName, Some displayName =>
      if bool_decide (tlsServerName = EmptyString) || bool_decide (displayName = EmptyString) ||
         negb (bool_decide (cr_dataPlaneCredentialDerivationVersion route =
                            Some DATA_PLANE_CREDENTIAL_DERIVATION_VERSION))
      then Ok None else
      match derive hmac_sha256 environment
              {| b_grantId := cr_grantId route; b_deviceId := deviceId; b_nodeId := cr_nodeId route |} with
      | None => Throw FeedFailed
      | Some credential =>
          match verifyHash hmac_sha256 environment credential (cr_dataPlaneCredentialHash route) with
          | None => Throw FeedFailed
          | Some false => Ok None
          | Some true =>
              Ok (renderVlessTcpTls
                {| vr_host := cr_endpointHost route; vr_addressKind := cr_endpointAddressKind route;
                   vr_port := cr_endpointPort route; vr_credential := credential;
                   vr_tlsServerName := tlsServerName; vr_displayName := displayName |})
          end
      end
  | _, _, _, _, _ => Ok None
  end.

(** The body of the loop over the routes. *)
Definition feed_route (deviceId : string) (st : FeedState) (route : ConnectionRouteProjection)
    : outcome FeedError FeedState :=
  if bool_decide (cr_nodeId route ∈ fd_renderedNodeIds st) then Ok st else
  match render_route deviceId route with
  | Throw e => Throw e
  | Ok None => Ok st
  | Ok (Some uri) =>
      let poolRouteCount := default 0 (map_get (cr_poolId route) (fd_renderedByPool st)) in
      if bool_decide (uri ∈ fd_rendered st) || (cr_poolCandidateLimit route <=? poolRouteCount)
      then Ok st else
      let size := Z.of_nat (length (fd_rendered st)) in
      if SUBSCRIPTION_FEED_MAX_ROUTES feedEnvironment <=? size then Throw FeedUnavailable else
      let nextFeedBytes := fd_feedBytes st + (if size =? 0 then 0 else 1) +
                           Z.of_nat (String.length uri) in
      if MAX_FEED_BYTES <? nextFeedBytes then Throw FeedUnavailable else
      Ok {| fd_rendered := fd_rendered st ++ [uri];
            fd_renderedNodeIds := fd_renderedNodeIds st ++ [cr_nodeId route];
            fd_renderedByPool := map_set (cr_poolId route) (poolRouteCount + 1) (fd_renderedByPool st);
            fd_feedBytes := nextFeedBytes |}
  end.

Fixpoint feed_routes (deviceId : string) (st : FeedState) (routes : list ConnectionRouteProjection)
    : outcome FeedError FeedState :=
  match routes with
  | [] => Ok st
  | route :: rest =>
      match feed_route deviceId st route with
      | Ok st' => feed_routes deviceId st' rest
      | Throw e => Throw e
      end
  end.

Definition empty_feed : FeedState :=
  {| fd_rendered := []; fd_renderedNodeIds := []; fd_renderedByPool := []; fd_feedBytes := 0 |}.

(** [subscriptionFeedSchema]: [z.string().max(16_384)] *)
Definition subscriptionFeedSchema (feed : string) : bool := Z.of_nat (utf16_length feed) <=? 16384.

(** The token's device is resolved on [db0] at [t0], its routes are selected
    on [db] at [now]. *)
Definition feed (pools : PoolTables) (token : string) (t0 : Z) (db0 : Db) (now : Z) (db : Db)
    : outcome FeedError string :=
  match resolveAuthorizedDevice token t0 db0 with
  | None => Throw FeedUnauthorized
  | Some (deviceId, userId) =>
      if negb (SUBSCRIPTION_FEED_RENDERING_ENABLED feedEnvironment) then Throw FeedUnavailable else
      match selectForAuthorizedDevice pools deviceId userId now db with
      | Throw e => Throw e
      | Ok routes =>
          match feed_routes deviceId empty_feed routes with
          | Throw e => Throw e
          | Ok st =>
              if bool_decide (fd_rendered st = []) then Throw FeedUnavailable else
              let text := String.concat LF (fd_rendered st) in
              if subscriptionFeedSchema text then Ok text else Throw FeedMalformed
          end
      end
  end.
End feed.
