(* ===== verification/Reconciliation.v ===== *)
(** * Reconciliation of a node's grants

    [reconcileOneNode] compared with what it is for: a node is settled when
    its grants agree with the entitlements and every version they wait for is
    being delivered.  The reconciler leaves a settled node alone, makes any
    other one settled, and the candidate query finds exactly the unsettled. *)

From S2P Require Import Prelude.
From S2P Require Import Json.
From S2P Require Import Sql.
From S2P Require Import OutboxStore.
From S2P Require Import NodeSyncStore.
From S2P Require Import NodeAgentContract.
From S2P Require Import XrayAccess.
From S2P Require Import ControlPlane.
From S2P Require Import DataPlaneCredential.
From S2P Require Import AccessPolicy.
From S2P Require Import ControlPlaneInvariant.
From S2P Require Import Orchestration.
From S2P Require Import OrchestrationSafety.
From S2P Require Import SubscriptionAccess.
From S2P Require Import SubscriptionAccessSafety.
Open Scope Z_scope.

(** ** The reference *)

(** The grant of a device on a node: there is at most one. *)
Definition grant_on (db : Db) (nodeId deviceId id : string) (g : NodeAccessGrant) : Prop :=
  db_grants db !! id = Some g ∧ gr_nodeId g = nodeId ∧ gr_deviceId g = deviceId.

Lemma grant_on_unique X db nodeId deviceId id id' g g' :
  Inv X db → grant_on db nodeId deviceId id g → grant_on db nodeId deviceId id' g' →
  id' = id ∧ g' = g.
Proof.
  intros Hinv (Hg & Hn & Hd) (Hg' & Hn' & Hd').
  assert (id' = id) as -> by (eapply (iv_pairs _ _ Hinv); eauto; congruence).
  split; congruence.
Qed.

(** Waiting for a version that nothing delivers any more. *)
Definition lost (db : Db) (nodeId : string) (g : NodeAccessGrant) : Prop :=
  deliveryLost (liveDeliveryVersions db nodeId) g = true.

(** A pending grant whose version is applied already. *)
Definition awaits_activation (g : NodeAccessGrant) : Prop :=
  gr_status g = GRANT_PENDING ∧ gr_desiredVersion g ≤ gr_appliedVersion g.

(** A live grant agrees with the entitlement. *)
Definition grant_settled (db : Db) (nodeId : string) (expiresAt : Z) (g : NodeAccessGrant) : Prop :=
  gr_expiresAt g = expiresAt ∧ ¬ lost db nodeId g ∧ ¬ awaits_activation g.

Definition node_settled (db : Db) (nodeId : string) (now : Z) (mayCreateMissing : bool) : Prop :=
  (∀ x, x ∈ expected_devices db now →
     (∀ id g, grant_on db nodeId (ed_deviceId x) id g → live g = true →
        grant_settled db nodeId (ed_expiresAt x) g) ∧
     (mayCreateMissing = true → ∃ id g, grant_on db nodeId (ed_deviceId x) id g)) ∧
  (∀ id g, db_grants db !! id = Some g → gr_nodeId g = nodeId → live g = false →
     ¬ lost db nodeId g).

(** ** The maps of the reconciler *)

Lemma existing_grants_elem db nodeId id g :
  (id, g) ∈ existing_grants db nodeId ↔ db_grants db !! id = Some g ∧ gr_nodeId g = nodeId.
Proof.
  unfold existing_grants. by rewrite elem_of_merge_sort, elem_of_map_to_list, map_lookup_filter_Some.
Qed.

Definition by_device (db : Db) (nodeId : string) : list (string * (string * NodeAccessGrant)) :=
  map_of ((λ kv : string * NodeAccessGrant, (gr_deviceId kv.2, kv)) <$> existing_grants db nodeId).

Lemma existing_grants_NoDup X db nodeId :
  Inv X db → NoDup ((λ kv : string * NodeAccessGrant, gr_deviceId kv.2) <$> existing_grants db nodeId).
Proof.
  intros Hinv. apply NoDup_fmap_2_strong.
  - intros [id g] [id' g'] [Hg Hn]%existing_grants_elem [Hg' Hn']%existing_grants_elem Hd.
    destruct (grant_on_unique X db nodeId (gr_deviceId g) id id' g g'); [done| | |by subst];
      split_and!; simpl in *; congruence.
  - unfold existing_grants. rewrite merge_sort_Permutation. apply NoDup_map_to_list.
Qed.

Lemma by_device_get X db nodeId deviceId id g :
  Inv X db → map_get deviceId (by_device db nodeId) = Some (id, g) ↔
  grant_on db nodeId deviceId id g.
Proof.
  intros Hinv. unfold by_device.
  rewrite (map_of_get_by (λ kv : string * NodeAccessGrant, gr_deviceId kv.2))
    by (by eapply existing_grants_NoDup).
  rewrite existing_grants_elem. unfold grant_on. simpl. tauto.
Qed.

Lemma by_device_None X db nodeId deviceId :
  Inv X db → map_get deviceId (by_device db nodeId) = None ↔
  ¬ ∃ id g, grant_on db nodeId deviceId id g.
Proof.
  intros Hinv. split.
  - intros Hn (id & g & Hg). apply (by_device_get X) in Hg; [|done]. congruence.
  - intros Hno. destruct (map_get _ _) as [[id g]|] eqn:Hm; [|done].
    exfalso. apply Hno. exists id, g. by apply (by_device_get X).
Qed.

Lemma foldl_pointwise {A B} (f g : A → B → A) (l : list B) a :
  (∀ a b, f a b = g a b) → foldl f a l = foldl g a l.
Proof. intros Hf. revert a. induction l as [|b l IH]; intros a; simpl; [done|]. by rewrite Hf. Qed.

(** A JS map filled by a loop under keys it does not have yet. *)
Section filled.
Context {A V : Type} (key : A → string) (value : A → option V).

Definition fill (m : list (string * V)) (l : list A) : list (string * V) :=
  foldl (λ m x, match value x with Some v => map_set (key x) v m | None => m end) m l.
Definition entries (l : list A) : list (string * V) :=
  omap (λ x, (λ v, (key x, v)) <$> value x) l.

Lemma entries_elem l k v : (k, v) ∈ entries l ↔ ∃ x, x ∈ l ∧ key x = k ∧ value x = Some v.
Proof.
  unfold entries. rewrite list_elem_of_omap. split.
  - intros (x & Hx & (v' & Hv & [= -> ->])%fmap_Some). by exists x.
  - intros (x & Hx & <- & Hv). exists x. by rewrite Hv.
Qed.

Lemma fill_entries l m :
  NoDup (key <$> l) → (∀ x v, x ∈ l → value x = Some v → key x ∉ m.*1) →
  fill m l = m ++ entries l.
Proof.
  revert m. induction l as [|x l IH]; intros m; csimpl; [by rewrite app_nil_r|].
  intros [Hx Hl]%NoDup_cons Hm. change (fill m (x :: l))
    with (fill match value x with Some v => map_set (key x) v m | None => m end l).
  destruct (value x) as [v|] eqn:Hv.
  - rewrite (map_set_absent (key x)) by (eapply Hm; [left|done]). rewrite IH; [|done|].
    + rewrite <- app_assoc. done.
    + intros y w Hy Hw. rewrite fmap_app, not_elem_of_app. split; [eapply Hm; [by right|done]|].
      simpl. rewrite list_elem_of_singleton. intros Heq. apply Hx. rewrite <- Heq.
      by apply list_elem_of_fmap_2.
  - rewrite IH; [|done|].
    + done.
    + intros y w Hy. apply Hm. by right.
Qed.
End filled.

Lemma expected_NoDup db now : NoDup (ed_deviceId <$> expected_devices db now).
Proof.
  unfold expected_devices.
  assert (Hd : NoDup (merge_sort (pair_order (λ _ : Device, EmptyString)) (map_to_list (db_devices db))).*1)
    by (rewrite merge_sort_Permutation; apply NoDup_fst_map_to_list).
  induction (merge_sort _ _) as [|[id d] l IH]; [constructor|]. csimpl in *.
  apply NoDup_cons in Hd as [Hid Hd]. specialize (IH Hd).
  destruct (guard _ ≫= _) as [x|] eqn:Hx; [|done]. csimpl. option_invert Hx. injection Hx as <-. simpl.
  apply NoDup_cons. split; [|done]. intros (y & Heq & Hy)%list_elem_of_fmap.
  apply list_elem_of_omap in Hy as ([id' d'] & Hin & Hy). option_invert Hy. injection Hy as <-.
  simpl in Heq. subst id'. apply Hid, list_elem_of_fmap. by exists (id, d').
Qed.

(** ** What the reconciler finds *)

Section changes.
Context (X : Exempt) (db : Db) (Hinv : Inv X db).
Context (nodeId : string) (now : Z) (mayCreate : bool).
Let versions := liveDeliveryVersions db nodeId.
Let expected := expected_devices db now.

Definition changes : list (string * NetworkChange) :=
  network_changes (existing_grants db nodeId) (by_device db nodeId) mayCreate versions expected.
Definition activations : list string := local_activations (by_device db nodeId) expected.

(** The changes, by their cause: an expected device, or a revoked grant. *)
Definition caused_expected (x : ExpectedDevice) (c : NetworkChange) : Prop :=
  (c = ChangeCreate x ∧ mayCreate = true ∧ ¬ ∃ id g, grant_on db nodeId (ed_deviceId x) id g) ∨
  ∃ id g, c = ChangeUpdate id g (ed_expiresAt x) ∧ grant_on db nodeId (ed_deviceId x) id g ∧
    live g = true ∧ (gr_expiresAt g ≠ ed_expiresAt x ∨ lost db nodeId g).
Definition caused_revoked (id : string) (g : NodeAccessGrant) : Prop :=
  db_grants db !! id = Some g ∧ gr_nodeId g = nodeId ∧ live g = false ∧ lost db nodeId g.

Lemma expected_change_spec x c :
  (expected_change (by_device db nodeId) mayCreate versions x).1 = Some c ↔ caused_expected x c.
Proof using Hinv.
  unfold expected_change, caused_expected, lost. fold versions.
  destruct (map_get (ed_deviceId x) (by_device db nodeId)) as [[id g]|] eqn:Hm.
  - apply (by_device_get X) in Hm; [|done].
    trans (c = ChangeUpdate id g (ed_expiresAt x) ∧ live g = true ∧
           (gr_expiresAt g ≠ ed_expiresAt x ∨ deliveryLost versions g = true)).
    + destruct (live g) eqn:Hl; simpl; [|naive_solver].
      destruct (Z.eqb_spec (gr_expiresAt g) (ed_expiresAt x)) as [He|He]; simpl;
        [|split; [intros [= <-]; auto|by intros (-> & _)]].
      destruct (deliveryLost versions g); [split; [intros [= <-]; auto|by intros (-> & _)]|].
      split; [done|]. by intros (_ & _ & [?|?]).
    + split; [intros (-> & H1 & H2); right; by exists id, g|].
      intros [(_ & _ & Hno)|(id' & g' & -> & Hg & H1)]; [exfalso; eauto|].
      destruct (grant_on_unique X db _ _ _ _ _ _ Hinv Hm Hg) as [-> ->]. done.
  - apply (by_device_None X) in Hm; [|done]. destruct mayCreate; simpl; naive_solver.
Qed.

Lemma local_activation_spec x id :
  (expected_change (by_device db nodeId) false [] x).2 = Some id ↔
  ∃ g, grant_on db nodeId (ed_deviceId x) id g ∧ awaits_activation g.
Proof using Hinv.
  unfold expected_change, awaits_activation.
  destruct (map_get (ed_deviceId x) (by_device db nodeId)) as [[id' g]|] eqn:Hm; simpl.
  - apply (by_device_get X) in Hm; [|done].
    trans (id' = id ∧ gr_status g = GRANT_PENDING ∧ gr_desiredVersion g ≤ gr_appliedVersion g).
    + unfold live. destruct (gr_status g); simpl; try (split; [done|by intros (_ & ? & _)]).
      destruct (Z.leb_spec (gr_desiredVersion g) (gr_appliedVersion g)); simpl;
        (split; [by intros [= ->]|intros (-> & _ & ?)]); [done|lia].
    + split; [intros (-> & Haw); by exists g|]. intros (g' & Hg & Haw).
      by destruct (grant_on_unique X db _ _ _ _ _ _ Hinv Hm Hg) as [-> ->].
  - apply (by_device_None X) in Hm; [|done]. naive_solver.
Qed.

Lemma network_changes_fill :
  changes = fill (λ kv : string * NodeAccessGrant, gr_deviceId kv.2)
    (λ kv, if negb (live kv.2) && deliveryLost versions kv.2
           then Some (ChangeRepairRevoke kv.1 kv.2) else None)
    (fill ed_deviceId (λ x, (expected_change (by_device db nodeId) mayCreate versions x).1)
       [] expected) (existing_grants db nodeId).
Proof.
  unfold changes, network_changes, fill. apply foldl_pointwise.
  intros m kv. by destruct (_ && _).
Qed.

Lemma changes_entries :
  changes = entries ed_deviceId
      (λ x, (expected_change (by_device db nodeId) mayCreate versions x).1) expected ++
    entries (λ kv : string * NodeAccessGrant, gr_deviceId kv.2)
      (λ kv, if negb (live kv.2) && deliveryLost versions kv.2
             then Some (ChangeRepairRevoke kv.1 kv.2) else None) (existing_grants db nodeId).
Proof using Hinv.
  rewrite network_changes_fill, (fill_entries ed_deviceId) by
    (apply expected_NoDup || (intros; apply not_elem_of_nil)).
  simpl. apply fill_entries; [by eapply existing_grants_NoDup|].
  intros [id g] c [Hg Hn]%existing_grants_elem Hc ([k c'] & Hk & Hin)%list_elem_of_fmap.
  simpl in *. subst k. apply entries_elem in Hin as (x & _ & Hx & [(_ & _ & Hno)|
    (id' & g' & -> & Hgo & Hl & _)]%expected_change_spec).
  - apply Hno. exists id, g. by split_and!.
  - destruct (grant_on_unique X db nodeId (ed_deviceId x) id' id g' g) as [_ ->];
      [done|done|by split_and!|]. by rewrite Hl in Hc.
Qed.

Lemma changes_elem k c :
  (k, c) ∈ changes ↔
  (∃ x, x ∈ expected ∧ ed_deviceId x = k ∧ caused_expected x c) ∨
  (∃ id g, gr_deviceId g = k ∧ c = ChangeRepairRevoke id g ∧ caused_revoked id g).
Proof using Hinv.
  rewrite changes_entries, elem_of_app, !entries_elem. setoid_rewrite expected_change_spec.
  unfold caused_revoked, lost. fold versions. split; (intros [Hl|Hr]; [by left|right]).
  - destruct Hr as ([id g] & [Hg Hn]%existing_grants_elem & <- & Hc). simpl in Hc.
    destruct (live g) eqn:Hl, (deliveryLost versions g) eqn:Hlost; simpl in Hc; try discriminate Hc.
    injection Hc as <-. by exists id, g.
  - destruct Hr as (id & g & <- & -> & Hg & Hn & Hl & Hlost). exists (id, g).
    rewrite existing_grants_elem. simpl. by rewrite Hl, Hlost.
Qed.

Lemma activations_elem id :
  id ∈ activations ↔
  ∃ x g, x ∈ expected ∧ grant_on db nodeId (ed_deviceId x) id g ∧ awaits_activation g.
Proof using Hinv.
  unfold activations, local_activations. rewrite list_elem_of_omap.
  setoid_rewrite local_activation_spec. naive_solver.
Qed.

(** Nothing to do exactly when the node is settled. *)
Lemma settled_iff : changes = [] ∧ activations = [] ↔ node_settled db nodeId now mayCreate.
Proof using Hinv.
  split.
  - intros [Hc Ha]. assert (Hno : ∀ k c, (k, c) ∉ changes)
      by (intros k c; rewrite Hc; apply not_elem_of_nil).
    assert (Hna : ∀ id, id ∉ activations) by (intros id; rewrite Ha; apply not_elem_of_nil).
    split.
    + intros x Hx. split.
      * intros id g Hg Hl. split_and!.
        -- destruct (decide (gr_expiresAt g = ed_expiresAt x)) as [|Hne]; [done|].
           exfalso. eapply Hno, changes_elem. left. exists x. split_and!; [done|done|].
           right. exists id, g. eauto.
        -- intros Hlost. eapply Hno, changes_elem. left. exists x. split_and!; [done|done|].
           right. exists id, g. eauto.
        -- intros Haw. eapply Hna, activations_elem. eauto.
      * intros Hmay. destruct (map_get (ed_deviceId x) (by_device db nodeId)) as [[id g]|] eqn:Hm.
        -- apply (by_device_get X) in Hm; [|done]. eauto.
        -- apply (by_device_None X) in Hm; [|done]. exfalso. eapply Hno, changes_elem. left.
           exists x. split_and!; [done|done|]. by left.
    + intros id g Hg Hn Hl Hlost. eapply Hno, changes_elem. right. by exists id, g.
  - intros [Hexp Hrev]. split.
    + apply elem_of_nil_inv. intros [k c] [(x & Hx & _ & [(_ & Hmay & Hno)|
        (id & g & _ & Hg & Hl & Hbad)])|(id & g & _ & _ & Hg & Hn & Hl & Hlost)]%changes_elem.
      * apply Hno. by eapply Hexp.
      * destruct (proj1 (Hexp x Hx) id g Hg Hl) as (? & ? & _). by destruct Hbad.
      * by eapply Hrev.
    + apply elem_of_nil_inv. intros id (x & g & Hx & Hg & Haw)%activations_elem.
      assert (Hl : live g = true) by (unfold live; by rewrite (proj1 Haw)).
      by destruct (proj1 (Hexp x Hx) id g Hg Hl) as (_ & _ & ?).
Qed.
End changes.

(** ** The candidate query *)

Lemma bool_iff (a b : bool) : (a = true ↔ b = true) → a = b.
Proof. destruct a, b; naive_solver. Qed.

Lemma live_versions_elem db nodeId v :
  v ∈ liveDeliveryVersions db nodeId ↔
  ∃ id j, db_jobs db !! id = Some j ∧ j_nodeId j = nodeId ∧ j_targetVersion j = v ∧
          live_delivery db j = true.
Proof.
  unfold liveDeliveryVersions. rewrite list_elem_of_fmap. setoid_rewrite rows_where. split.
  - intros (j & -> & id & Hj & [Hn%bool_decide_eq_true Hl]%andb_prop). by exists id, j.
  - intros (id & j & Hj & Hn & <- & Hl). exists j. split; [done|]. exists id.
    by rewrite bool_decide_eq_true_2, Hl.
Qed.

Lemma delivery_lost_spec db nodeId g :
  delivery_lost db nodeId g = deliveryLost (liveDeliveryVersions db nodeId) g.
Proof.
  unfold delivery_lost, deliveryLost. f_equal. f_equal. apply bool_iff.
  rewrite exists_row_true, bool_decide_eq_true, live_versions_elem.
  setoid_rewrite andb_true_iff. setoid_rewrite andb_true_iff.
  setoid_rewrite bool_decide_eq_true. setoid_rewrite Z.eqb_eq. naive_solver.
Qed.

Lemma grants_on_elem db nodeId deviceId g :
  g ∈ grants_on db nodeId deviceId ↔ ∃ id, grant_on db nodeId deviceId id g.
Proof.
  unfold grants_on, grant_on. rewrite list_elem_of_fmap. split.
  - intros ([id g'] & -> & Hin). apply elem_of_map_to_list, map_lookup_filter_Some in Hin as (? & ? & ?).
    by exists id.
  - intros (id & Hg & Hn & Hd). exists (id, g). split; [done|].
    by apply elem_of_map_to_list, map_lookup_filter_Some.
Qed.

Lemma existsb_elem {A} (f : A → bool) l : existsb f l = true ↔ ∃ x, x ∈ l ∧ f x = true.
Proof. rewrite existsb_exists. by setoid_rewrite list_elem_of_In. Qed.

Section candidate.
Context (X : Exempt) (db : Db) (Hinv : Inv X db) (nodeId : string) (now : Z) (healthy : bool).

(** The query's condition on one expected device. *)
Lemma device_candidate_spec x :
  (match grants_on db nodeId (ed_deviceId x) with
   | [] => healthy
   | grants => existsb (λ g, live g &&
       (negb (gr_expiresAt g =? ed_expiresAt x) ||
        (bool_decide (gr_status g = GRANT_PENDING) && (gr_desiredVersion g <=? gr_appliedVersion g)) ||
        delivery_lost db nodeId g)) grants
   end) = true ↔
  (∃ c, caused_expected db nodeId healthy x c) ∨
  ∃ id g, grant_on db nodeId (ed_deviceId x) id g ∧ awaits_activation g.
Proof using Hinv.
  destruct (grants_on db nodeId (ed_deviceId x)) as [|g0 l] eqn:Hgs.
  - assert (Hno : ¬ ∃ id g, grant_on db nodeId (ed_deviceId x) id g).
    { intros (id & g & Hg). assert (Hin : g ∈ grants_on db nodeId (ed_deviceId x))
        by (apply grants_on_elem; eauto). rewrite Hgs in Hin. by apply elem_of_nil in Hin. }
    split.
    + intros Hh. left. exists (ChangeCreate x). by left.
    + intros [(c & [(_ & Hh & _)|(id & g & _ & Hg & _)])|(id & g & Hg & _)]; [done|exfalso; eauto..].
  - rewrite <- Hgs. rewrite existsb_elem. split.
    + intros (g & [id Hg]%grants_on_elem & [Hl Hbad]%andb_prop).
      rewrite !orb_true_iff, negb_true_iff, Z.eqb_neq, andb_true_iff, bool_decide_eq_true, Z.leb_le,
        delivery_lost_spec in Hbad.
      destruct Hbad as [[Hne|Haw]|Hlost].
      * left. exists (ChangeUpdate id g (ed_expiresAt x)). right. exists id, g. auto.
      * right. by exists id, g.
      * left. exists (ChangeUpdate id g (ed_expiresAt x)). right. exists id, g. auto.
    + intros [(c & [(_ & _ & Hno)|(id & g & _ & Hg & Hl & Hbad)])|(id & g & Hg & Haw)].
      * exfalso. apply Hno. assert (Hin : g0 ∈ grants_on db nodeId (ed_deviceId x))
          by (rewrite Hgs; left). apply grants_on_elem in Hin as [id Hg]. eauto.
      * exists g. split; [apply grants_on_elem; eauto|]. rewrite Hl. simpl.
        rewrite !orb_true_iff, negb_true_iff, Z.eqb_neq, delivery_lost_spec.
        destruct Hbad; [by left; left|by right].
      * exists g. split; [apply grants_on_elem; eauto|]. unfold live. rewrite (proj1 Haw). simpl.
        rewrite !orb_true_iff, Z.leb_le. left. right. apply Haw.
Qed.

Lemma candidate_iff node :
  db_nodes db !! nodeId = Some node → healthy = bool_decide (n_status node = NODE_HEALTHY) →
  reconciliation_candidate db now nodeId node = true ↔
  isNodeInAccessControlSync (n_status node) = true ∧ ¬ node_settled db nodeId now healthy.
Proof using Hinv.
  intros Hn Hh. unfold reconciliation_candidate. rewrite <- Hh, andb_true_iff, orb_true_iff,
    existsb_elem, exists_row_true. setoid_rewrite device_candidate_spec.
  rewrite <- (settled_iff X) by done.
  assert (Hnil : ∀ A (l : list A), l ≠ [] ↔ ∃ x, x ∈ l).
  { intros A [|a l]; split; try done; [by intros [x ?%elem_of_nil]|].
    intros _. exists a. left. }
  apply and_iff_compat_l. trans (changes db nodeId now healthy ≠ [] ∨ activations db nodeId now ≠ []).
  - rewrite !Hnil. setoid_rewrite (activations_elem X); [|done]. split.
    + intros [(x & Hx & [[c Hc]|(id & g & Hg & Haw)])|(id & g & Hg & Hbad)].
      * left. exists (ed_deviceId x, c). apply (changes_elem X); [done|]. left. by exists x.
      * right. by exists id, x, g.
      * left. rewrite !andb_true_iff, bool_decide_eq_true, negb_true_iff, delivery_lost_spec in Hbad.
        destruct Hbad as [[Hgn Hl] Hlost]. exists (gr_deviceId g, ChangeRepairRevoke id g).
        apply (changes_elem X); [done|]. right. by exists id, g.
    + intros [([k c] & Hc)|(id & x & g & Hx & Hg & Haw)].
      * apply (changes_elem X) in Hc; [|done].
        destruct Hc as [(x & Hx & _ & Hc)|(id & g & _ & _ & Hg & Hgn & Hl & Hlost)].
        -- left. exists x. split; [done|]. left. by exists c.
        -- right. exists id, g. split; [done|].
           by rewrite bool_decide_eq_true_2, Hl, delivery_lost_spec.
      * left. exists x. split; [done|]. right. by exists id, g.
  - destruct (changes db nodeId now healthy), (activations db nodeId now); naive_solver.
Qed.
End candidate.

(** ** What the reconciler does *)

(** The tables the reconciler only reads, or only adds to at its end. *)
Definition same_others (db db' : Db) : Prop :=
  db_nodes db' = db_nodes db ∧ db_jobs db' = db_jobs db ∧ db_devices db' = db_devices db ∧
  db_acks db' = db_acks db ∧ db_events db' = db_events db ∧
  db_subscriptions db' = db_subscriptions db.

#[export] Instance same_others_preorder : PreOrder same_others.
Proof.
  split; [intros db; by split_and!|]. unfold same_others.
  intros db1 db2 db3 (?&?&?&?&?&?) (?&?&?&?&?&?). split_and!; congruence.
Qed.

Lemma same_others_grants f db : same_others db (set_grants f db).
Proof. by destruct db. Qed.

Lemma same_others_drawn f db : same_others db (set_drawn f db).
Proof. by destruct db. Qed.
Lemma drawn_grants f db : db_grants (set_drawn f db) = db_grants db.
Proof. by destruct db. Qed.
Lemma set_grants_grants f db : db_grants (set_grants f db) = f (db_grants db).
Proof. by destruct db. Qed.

(** *** Local activations *)

Definition may_activate (db : Db) (id : string) : Prop :=
  ∃ g, db_grants db !! id = Some g ∧ live g = true ∧ gr_desiredVersion g ≤ gr_appliedVersion g.

Lemma sound_activate X db id g n :
  Inv X db → db_grants db !! id = Some g → db_nodes db !! gr_nodeId g = Some n → live g = true →
  gr_desiredVersion g ≤ gr_appliedVersion g → sound_grant_update n g (activate_grant g).
Proof.
  intros Hinv Hg Hn Hl Hle. destruct (iv_grants _ _ Hinv _ _ Hg) as (_ & n' & Hn' & H1 & H2 & _).
  assert (n' = n) as -> by congruence. unfold sound_grant_update, grant_le, live in *. simpl.
  split_and!; try done; try lia; [|by right]. intros Hr. by rewrite Hr in Hl.
Qed.

Lemma activations_run X l db u db' :
  for_each l (λ id, grant_update true id activate_grant) db = (Ok u, db') → Inv X db →
  (∀ id, id ∈ l → may_activate db id) →
  Inv X db' ∧ evolves db db' ∧
  db' = set_grants (written_grants (λ id _, bool_decide (id ∈ l)) activate_grant) db.
Proof.
  revert db. induction l as [|id l IH]; intros db; simpl.
  - unfold ret. intros [= <- <-] Hinv _. split_and!; [done|done|]. destruct db. simpl. f_equal.
    apply map_eq. intros i. rewrite written_grants_lookup. by destruct (_ !! i).
  - intros (v & s & Hr & Hr')%bind_ok_inv Hinv Hl.
    destruct (Hl id) as (g & Hg & Hlive & Hle); [left|].
    destruct (run_grant_update X _ _ _ _ _ _ Hr Hinv) as (I1 & E1 & _ & Hs).
    { intros g' n Hg' Hn _. assert (g' = g) as -> by congruence. by eapply sound_activate. }
    destruct (IH s Hr' I1) as (I2 & E2 & Hdb').
    { intros i Hi. destruct (Hl i) as (gi & Hgi & Hli & Hlei); [by right|].
      destruct (decide (i = id)) as [->|Hne].
      - exists (activate_grant gi). rewrite Hs. split; [|done].
        destruct db. simpl in *. by rewrite lookup_alter_eq, Hgi.
      - exists gi. rewrite Hs. split; [|done]. destruct db. simpl in *. by rewrite lookup_alter_ne. }
    split_and!; [done|by etrans|]. rewrite Hdb', Hs. destruct db. simpl. f_equal.
    apply map_eq. intros i. rewrite !written_grants_lookup.
    destruct (decide (i = id)) as [->|Hne].
    + rewrite lookup_alter_eq. simpl in Hg. rewrite Hg. simpl.
      rewrite (bool_decide_eq_true_2 (id ∈ id :: l)) by left. by destruct (bool_decide _).
    + rewrite lookup_alter_ne by done.
      rewrite (bool_decide_ext (i ∈ id :: l) (i ∈ l)); [done|]. set_solver.
Qed.

(** *** Changes *)

Section apply.
Context (uuid : nat → string) (hmac_sha256 : string → string → list Z) (credentialPepper : string).
Context (X : Exempt) (nodeId : string) (target : Z) (expected : list ExpectedDevice).
Context (Hdistinct : NoDup (ed_deviceId <$> expected)).

(** A row written under the new version, with the device's entitlement. *)
Definition updated (g : NodeAccessGrant) : Prop :=
  gr_desiredVersion g = target ∧
  (live g = true → ∀ x, x ∈ expected → ed_deviceId x = gr_deviceId g →
     gr_expiresAt g = ed_expiresAt x).

(** What a change was found from, as the grants stand now. *)
Definition applicable (db : Db) (c : NetworkChange) : Prop :=
  match c with
  | ChangeCreate x => x ∈ expected ∧
      ∃ d, db_devices db !! ed_deviceId x = Some d ∧ dv_status d = DEVICE_ACTIVE
  | ChangeUpdate id g e => ∃ x g', x ∈ expected ∧ e = ed_expiresAt x ∧
      db_grants db !! id = Some g' ∧ gr_nodeId g' = nodeId ∧ gr_deviceId g' = ed_deviceId x ∧
      live g' = true ∧ gr_appliedVersion g' = gr_appliedVersion g ∧ 1 ≤ gr_desiredVersion g
  | ChangeRepairRevoke id _ => ∃ g', db_grants db !! id = Some g' ∧ gr_nodeId g' = nodeId ∧
      live g' = false
  end.

Definition applied_change (c : NetworkChange) (db : Db) : Prop :=
  match c with
  | ChangeCreate x => ∃ id g, grant_on db nodeId (ed_deviceId x) id g
  | ChangeUpdate id _ _ | ChangeRepairRevoke id _ =>
      ∃ g, db_grants db !! id = Some g ∧ gr_desiredVersion g = target
  end.

(** How rows change from one step to the next. *)
Definition row_step (db db' : Db) : Prop :=
  ∀ id g, db_grants db !! id = Some g → ∃ g', db_grants db' !! id = Some g' ∧
    gr_nodeId g' = gr_nodeId g ∧ gr_deviceId g' = gr_deviceId g ∧ live g' = live g ∧
    gr_appliedVersion g' = gr_appliedVersion g ∧
    (gr_desiredVersion g = target → gr_desiredVersion g' = target).

#[local] Instance row_step_preorder : PreOrder row_step.
Proof using Type.
  split; [intros db id g Hg; by exists g; split_and!|].
  intros db1 db2 db3 H12 H23 id g Hg. destruct (H12 id g Hg) as (g2 & Hg2 & ?&?&?&?&?).
  destruct (H23 id g2 Hg2) as (g3 & Hg3 & ?&?&?&?&?). exists g3. split_and!; try congruence; auto.
Qed.

(** Every row is written anew or as it was. *)
Definition rows_from (db0 db : Db) : Prop :=
  ∀ id g, db_grants db !! id = Some g → updated g ∨ db_grants db0 !! id = Some g.

Lemma altered_rows id data db g :
  db_grants db !! id = Some g → updated (data g) → gr_nodeId (data g) = gr_nodeId g →
  gr_deviceId (data g) = gr_deviceId g → live (data g) = live g →
  gr_appliedVersion (data g) = gr_appliedVersion g →
  let db' := set_grants (alter data id) db in
  row_step db db' ∧ (∀ db0, rows_from db0 db → rows_from db0 db') ∧
  db_grants db' !! id = Some (data g).
Proof using Type.
  intros Hg Hu H1 H2 H3 H4. destruct db. simpl in *. split_and!.
  - intros i gi Hgi. simpl in *. destruct (decide (i = id)) as [->|Hne].
    + assert (gi = g) as -> by congruence. exists (data g). rewrite lookup_alter_eq, Hg.
      split_and!; try done. intros _. apply Hu.
    + exists gi. by rewrite lookup_alter_ne.
  - intros db0 Hf i gi. simpl. destruct (decide (i = id)) as [->|Hne].
    + rewrite lookup_alter_eq, Hg. intros [= <-]. by left.
    + rewrite lookup_alter_ne by done. apply Hf.
  - by rewrite lookup_alter_eq, Hg.
Qed.

Lemma expected_unique x y : x ∈ expected → y ∈ expected → ed_deviceId x = ed_deviceId y → x = y.
Proof using Hdistinct.
  intros (i & Hi)%list_elem_of_lookup (j & Hj)%list_elem_of_lookup Heq.
  assert (i = j) as ->; [|congruence].
  eapply (NoDup_lookup _ _ _ (ed_deviceId x) Hdistinct); rewrite list_lookup_fmap.
  - by rewrite Hi.
  - by rewrite Hj, Heq.
Qed.

(** What a step leaves. *)
Definition step_done (c : NetworkChange) (db db' : Db) : Prop :=
  Inv X db' ∧ evolves db db' ∧ same_others db db' ∧ row_step db db' ∧
  (∀ db0, rows_from db0 db → rows_from db0 db') ∧ applied_change c db'.

Section step.
Context (db : Db) (n : Node) (Hinv : Inv X db).
Context (Hn : db_nodes db !! nodeId = Some n) (Htarget : n_desiredConfigVersion n = target).
Context (Hone : 1 ≤ target).

Lemma repair_safe gid g id db' :
  apply_change uuid hmac_sha256 credentialPepper nodeId target (ChangeRepairRevoke gid g) db = (Ok id, db') →
  applicable db (ChangeRepairRevoke gid g) → step_done (ChangeRepairRevoke gid g) db db'.
Proof using All.
  simpl. intros Hr (g' & Hg' & Hgn & Hl). ok_inv Hr.
  destruct (run_grant_update X _ _ _ _ _ _ Hrun Hinv) as (I1 & E1 & _ & Hdb').
  { intros g1 n1 Hg1 Hn1 _. assert (g1 = g') as -> by congruence. assert (n1 = n) as -> by congruence.
    eapply sound_reschedule; [done|done|done|].
    pose proof (grant_below _ _ _ _ _ Hinv Hg' Hn1). lia. }
  destruct (altered_rows gid (reschedule_grant None target) db g' Hg') as (R1 & R2 & R3); [|done..|].
  { split; [done|]. intros Hl'. unfold live in *. simpl in Hl'. congruence. }
  rewrite <- Hdb' in R1, R2, R3. split_and!; [done|done| |done|done|].
  - rewrite Hdb'. apply same_others_grants.
  - by eexists.
Qed.

Lemma update_safe gid g e id db' :
  apply_change uuid hmac_sha256 credentialPepper nodeId target (ChangeUpdate gid g e) db = (Ok id, db') →
  applicable db (ChangeUpdate gid g e) → step_done (ChangeUpdate gid g e) db db'.
Proof using All.
  simpl. intros Hr (x & g' & Hx & -> & Hg' & Hgn & Hgd & Hl & Ha & Hg1). ok_inv Hr.
  set (activates := bool_decide (gr_status g = GRANT_PENDING) &&
                    (gr_desiredVersion g <=? gr_appliedVersion g)) in *.
  set (data := λ row, let row := reschedule_grant (Some (ed_expiresAt x)) target row in
                      if activates then activate_grant row else row) in *.
  assert (Hact : activates = true → 1 ≤ gr_appliedVersion g').
  { intros [_ Hle%Z.leb_le]%andb_prop. lia. }
  assert (Hcases : data g' = reschedule_grant (Some (ed_expiresAt x)) target g' ∨
    (1 ≤ gr_appliedVersion g' ∧
     data g' = activate_grant (reschedule_grant (Some (ed_expiresAt x)) target g'))).
  { unfold data. destruct activates; [right|left]; auto. }
  clearbody data.
  destruct (run_grant_update X _ _ _ _ _ _ Hrun Hinv) as (I1 & E1 & _ & Hdb').
  { intros g1 n1 Hg1' Hn1 _. assert (g1 = g') as -> by congruence. assert (n1 = n) as -> by congruence.
    destruct (sound_reschedule X db gid g' n (Some (ed_expiresAt x)) target) as (S1 & S2 & S3 & S4 & S5);
      [done|done|done|pose proof (grant_below _ _ _ _ _ Hinv Hg' Hn1); lia|].
    destruct Hcases as [->|[Hpos ->]]; [by split_and!|].
    unfold sound_grant_update, grant_le, live in *. simpl in *. split_and!; try done; try lia; try by right.
    all: try apply S1. intros Hre. by rewrite Hre in Hl. }
  destruct (altered_rows gid data db g' Hg') as (R1 & R2 & R3).
  { split; [by destruct Hcases as [->|[_ ->]]|]. intros _ y Hy Hd.
    assert (y = x) as -> by (apply expected_unique; [done|done|];
      destruct Hcases as [Heq|[_ Heq]]; rewrite Heq in Hd; simpl in Hd; congruence).
    by destruct Hcases as [->|[_ ->]]. }
  1-4: destruct Hcases as [->|[_ ->]]; try done. 
  rewrite <- Hdb' in R1, R2, R3. split_and!; [done|done| |done|done|].
  - rewrite Hdb'. apply same_others_grants.
  - eexists. split; [exact R3|]. by destruct Hcases as [->|[_ ->]].
Qed.

Lemma create_safe x id db' :
  apply_change uuid hmac_sha256 credentialPepper nodeId target (ChangeCreate x) db = (Ok id, db') →
  applicable db (ChangeCreate x) → step_done (ChangeCreate x) db db'.
Proof using All.
  simpl. intros Hr (Hx & d & Hd & Hdst). ok_inv Hr.
  apply with_pepper_ok in Hrun0 as [_ ->], Hrun1 as [_ ->].
  apply randomUUID_ok in Hrun as [_ Hs]. destruct (drawn_inv X _ Hinv) as [I1 E1].
  rewrite <- Hs in I1, E1.
  pose proof (same_others_drawn S db) as Hsame. rewrite <- Hs in Hsame.
  assert (Hnodes : db_nodes s !! nodeId = Some n) by (by rewrite (proj1 Hsame)).
  destruct (run_grant_create X _ _ n _ _ _ Hrun2 I1) as (I2 & E2 & Hnew & Hdb');
    [done|simpl; lia|done|done|done| |].
  { exists d. split; [|done]. simpl. destruct Hsame as (_ & _ & -> & _). done. }
  match type of Hdb' with _ = set_grants <[_ := ?r]> _ => set (row := r) in * end.
  assert (Hgrants : db_grants s2 = <[a := row]> (db_grants db)) by (by rewrite Hdb', set_grants_grants, Hs, drawn_grants).
  assert (Hnone : db_grants db !! a = None) by (by rewrite <- Hnew, Hs, drawn_grants).
  split_and!; [done|by etrans| | | |].
  - rewrite Hdb'. etrans; [exact Hsame|apply same_others_grants].
  - intros i g Hg. exists g. rewrite Hgrants, lookup_insert_ne by congruence. by split_and!.
  - intros db0 Hf i g. rewrite Hgrants. intros [[<- <-]|[_ Hg]]%lookup_insert_Some; [|by apply Hf].
    left. split; [done|]. intros _ y Hy Hd'. simpl in *.
    by rewrite (expected_unique y x).
  - exists a, row. split_and!; [by rewrite Hgrants, lookup_insert_eq|done|done].
Qed.

Lemma apply_change_safe c id db' :
  apply_change uuid hmac_sha256 credentialPepper nodeId target c db = (Ok id, db') →
  applicable db c → step_done c db db'.
Proof using All. destruct c; [apply create_safe|apply update_safe|apply repair_safe]. Qed.
End step.

Lemma applicable_step db db' c :
  row_step db db' → same_others db db' → applicable db c → applicable db' c.
Proof using Type.
  intros Hrow (_ & _ & Hdev & _). destruct c as [x|gid g e|gid g]; simpl.
  - intros (Hx & d & Hd & Ha). split; [done|]. exists d. by rewrite Hdev.
  - intros (x & g' & Hx & He & Hg' & H1 & H2 & H3 & H4 & H5).
    destruct (Hrow _ _ Hg') as (g2 & Hg2 & ?&?&?&?&?). exists x, g2. split_and!; try done; congruence.
  - intros (g' & Hg' & H1 & H2). destruct (Hrow _ _ Hg') as (g2 & Hg2 & ?&?&?&?&?).
    exists g2. split_and!; congruence.
Qed.

Lemma applied_change_step db db' c : row_step db db' → applied_change c db → applied_change c db'.
Proof using Type.
  intros Hrow. destruct c as [x|gid g e|gid g]; simpl.
  - intros (id & g & Hg & H1 & H2). destruct (Hrow _ _ Hg) as (g2 & Hg2 & ?&?&?&?&?).
    exists id, g2. split_and!; congruence.
  - intros (g' & Hg' & H1). destruct (Hrow _ _ Hg') as (g2 & Hg2 & ?&?&?&?&?). exists g2. auto.
  - intros (g' & Hg' & H1). destruct (Hrow _ _ Hg') as (g2 & Hg2 & ?&?&?&?&?). exists g2. auto.
Qed.

(** The loop over the changes. *)
Lemma apply_changes_safe cs db0 n ids db' :
  mapM (apply_change uuid hmac_sha256 credentialPepper nodeId target) cs db0 = (Ok ids, db') →
  Inv X db0 → db_nodes db0 !! nodeId = Some n → n_desiredConfigVersion n = target → 1 ≤ target →
  (∀ c, c ∈ cs → applicable db0 c) →
  Inv X db' ∧ evolves db0 db' ∧ same_others db0 db' ∧ row_step db0 db' ∧ rows_from db0 db' ∧
  ∀ c, c ∈ cs → applied_change c db'.
Proof using Hdistinct.
  intros Hr Hinv Hn Ht Hone Happ.
  apply (mapM_ok_all (λ s, Inv X s ∧ evolves db0 s ∧ same_others db0 s ∧ row_step db0 s ∧
    rows_from db0 s) row_step (λ c _ s, applied_change c s)) in Hr
    as ((I & E & O & R & F) & _ & Hall).
  - split_and!; try done; try apply O. intros c Hc.
    destruct (list_elem_of_lookup_1 _ _ Hc) as [i Hi].
    by destruct (Forall2_lookup_l _ _ _ _ _ Hall Hi) as (y & _ & Hy).
  - intros c s id s' Hc Hrun (I & E & O & R & F).
    assert (Hns : db_nodes s !! nodeId = Some n) by (by rewrite (proj1 O)).
    destruct (apply_change_safe s n I Hns Ht Hone c id s' Hrun) as (I' & E' & O' & R' & F' & Hd).
    { eapply applicable_step; [exact R|exact O|]. by apply Happ. }
    split_and!; [done|by etrans| |by etrans|by apply F'|done|done]. by etrans.
  - intros c _ s s' Hd Hrow. by eapply applied_change_step.
  - split_and!; try done. intros id g Hg. by right.
Qed.
End apply.

(** ** A reconciled node is settled *)

Lemma expected_devices_same db db' now :
  db_devices db' = db_devices db → db_subscriptions db' = db_subscriptions db →
  expected_devices db' now = expected_devices db now.
Proof. intros Hd Hs. unfold expected_devices, findEffectiveExpiry. by rewrite Hd, Hs. Qed.

Section settles.
Context (X : Exempt) (nodeId : string) (now : Z) (mayCreate : bool).
Context (db db1 db' : Db) (node node' : Node).
Let target := n_desiredConfigVersion node + 1.
Let expected := expected_devices db now.
Context (Hinv : Inv X db) (Hinv' : Inv X db') (Hev : evolves db db').
Context (Hnode : db_nodes db !! nodeId = Some node) (Hnode' : db_nodes db' !! nodeId = Some node').
Context (Happlied : n_appliedConfigVersion node' ≤ n_desiredConfigVersion node).
(** After the local activations. *)
Context (Hacts : db_grants db1 =
  written_grants (λ id _, bool_decide (id ∈ activations db nodeId now)) activate_grant (db_grants db)).
Context (Hrows : ∀ id g, db_grants db' !! id = Some g → gr_nodeId g = nodeId →
  (updated target expected g ∧ target ∈ liveDeliveryVersions db' nodeId) ∨
  db_grants db1 !! id = Some g).
Context (Hdone : ∀ k c, (k, c) ∈ changes db nodeId now mayCreate → applied_change nodeId target c db').
Context (Hexpected : expected_devices db' now = expected).
Context (Hversions : ∀ v, v ∈ liveDeliveryVersions db nodeId → v ∈ liveDeliveryVersions db' nodeId).

(** An untouched row was not found by any change. *)
Lemma untouched id g g' :
  db_grants db' !! id = Some g' → db_grants db !! id = Some g → gr_nodeId g = nodeId →
  gr_desiredVersion g' = gr_desiredVersion g →
  ∀ k c, (k, c) ∈ changes db nodeId now mayCreate →
    match c with ChangeUpdate i _ _ | ChangeRepairRevoke i _ => i ≠ id | ChangeCreate _ => True end.
Proof using Hinv Hnode Hdone.
  intros Hg' Hg Hgn Hdes k c Hc%Hdone. rewrite <- Hgn in Hnode.
  pose proof (grant_below _ _ _ _ _ Hinv Hg Hnode) as Hle.
  destruct c as [|i ? ?|i ?]; [done|..]; intros ->; destruct Hc as (g2 & Hg2 & Ht);
    assert (g2 = g') as -> by congruence; unfold target in Ht; lia.
Qed.

Lemma lost_before g g' :
  gr_desiredVersion g' = gr_desiredVersion g → gr_appliedVersion g' = gr_appliedVersion g →
  lost db' nodeId g' → lost db nodeId g.
Proof using Hversions.
  unfold lost, deliveryLost. intros -> ->.
  rewrite !andb_true_iff, !negb_true_iff, !bool_decide_eq_false. intros [Hlt Hv]. auto.
Qed.

Lemma updated_settled id g :
  db_grants db' !! id = Some g → gr_nodeId g = nodeId → updated target expected g →
  target ∈ liveDeliveryVersions db' nodeId → ¬ lost db' nodeId g ∧ ¬ awaits_activation g.
Proof using Hinv' Hnode' Happlied.
  intros Hg Hgn [Hdes _] Hlive. split.
  - unfold lost, deliveryLost. rewrite Hdes, (bool_decide_eq_true_2 (target ∈ _)) by done.
    by rewrite andb_false_r.
  - intros [_ Hle]. destruct (iv_grants _ _ Hinv' _ _ Hg) as (_ & n & Hn & _ & Ha & _).
    rewrite Hgn in Hn. assert (n = node') as -> by congruence. unfold target in Hdes. lia.
Qed.

(** The row after the activations, and what it was. *)
Lemma activated_row id g' :
  db_grants db1 !! id = Some g' → ∃ g, db_grants db !! id = Some g ∧
    (g' = g ∧ id ∉ activations db nodeId now ∨
     g' = activate_grant g ∧ ∃ x, x ∈ expected ∧ grant_on db nodeId (ed_deviceId x) id g ∧
                                  awaits_activation g).
Proof using Hinv Hacts.
  rewrite Hacts, written_grants_lookup. intros (g & Hg & ->)%fmap_Some. exists g. split; [done|].
  case_bool_decide as Hin; [right|by left]. split; [done|].
  apply (activations_elem X) in Hin as (x & g0 & Hx & Hgo & Haw); [|done].
  assert (g0 = g) as -> by (destruct Hgo; congruence). by exists x.
Qed.

Lemma settled_after : node_settled db' nodeId now mayCreate.
Proof using All.
  split; rewrite ?Hexpected.
  - intros x Hx. split.
    + intros id g' (Hg' & Hgn & Hgd) Hl. destruct (Hrows id g' Hg' Hgn) as [[Hup Hlive]|Hold].
      * destruct (updated_settled id g' Hg' Hgn Hup Hlive). split_and!; [|done|done].
        by apply Hup.
      * destruct (activated_row id g' Hold) as (g & Hg & Hcase).
        assert (Hsame : gr_nodeId g' = gr_nodeId g ∧ gr_deviceId g' = gr_deviceId g ∧
          gr_desiredVersion g' = gr_desiredVersion g ∧ gr_appliedVersion g' = gr_appliedVersion g ∧
          gr_expiresAt g' = gr_expiresAt g) by (by destruct Hcase as [[-> _]|[-> _]]).
        destruct Hsame as (S1 & S2 & S3 & S4 & S5).
        assert (Hgo : grant_on db nodeId (ed_deviceId x) id g) by (split_and!; congruence).
        assert (Hlg : live g = true).
        { destruct Hcase as [[<- _]|(_ & _ & _ & _ & Haw)]; [done|]. unfold live. by rewrite (proj1 Haw). }
        assert (Hno : ¬ (gr_expiresAt g ≠ ed_expiresAt x ∨ lost db nodeId g)).
        { intros Hbad. apply (untouched id g g' Hg' Hg (eq_trans (eq_sym S1) Hgn) S3 (ed_deviceId x)
            (ChangeUpdate id g (ed_expiresAt x))); [|done].
          apply (changes_elem X); [done|]. left. exists x. split_and!; [done|done|]. right.
          by exists id, g. }
        split_and!.
        -- rewrite S5. destruct (decide (gr_expiresAt g = ed_expiresAt x)); [done|].
           exfalso. apply Hno. by left.
        -- intros Hlost. apply Hno. right. by eapply lost_before.
        -- intros Haw. destruct Hcase as [[-> Hnot]|(-> & _)].
           ++ apply Hnot, (activations_elem X); [done|]. by exists x, g.
           ++ by destruct Haw.
    + intros Hmay. destruct (map_get (ed_deviceId x) (by_device db nodeId)) as [[id g]|] eqn:Hm.
      * apply (by_device_get X) in Hm as (Hg & Hgn & Hgd); [|done].
        destruct (ev_grants _ _ Hev _ _ Hg) as (g' & Hg' & Hgn' & Hgd' & _).
        exists id, g'. split_and!; congruence.
      * apply (by_device_None X) in Hm; [|done].
        apply (Hdone (ed_deviceId x) (ChangeCreate x)), (changes_elem X); [done|]. left.
        exists x. split_and!; [done|done|]. by left.
  - intros id g' Hg' Hgn Hl Hlost. destruct (Hrows id g' Hg' Hgn) as [[Hup Hlive]|Hold].
    + by destruct (updated_settled id g' Hg' Hgn Hup Hlive).
    + destruct (activated_row id g' Hold) as (g & Hg & [[-> _]|(-> & _)]); [|done].
      assert (Hbefore : lost db nodeId g) by (by eapply lost_before).
      apply (untouched id g g Hg' Hg Hgn eq_refl (gr_deviceId g) (ChangeRepairRevoke id g)); [|done].
      apply (changes_elem X); [done|]. right. by exists id, g.
Qed.
End settles.

Section reconcile.
Context (uuid : nat → string) (hmac_sha256 : string → string → list Z) (credentialPepper : string).

(** A job with its event on the way counts as delivering its version. *)
Lemma versions_kept db db' nodeId :
  db_acks db' = db_acks db →
  (∀ id j, db_jobs db !! id = Some j → db_jobs db' !! id = Some j) →
  (∀ id e, db_events db !! id = Some e → db_events db' !! id = Some e) →
  ∀ v, v ∈ liveDeliveryVersions db nodeId → v ∈ liveDeliveryVersions db' nodeId.
Proof.
  intros Hacks Hjobs Hevents v (id & j & Hj & Hn & Hv & Hl)%live_versions_elem.
  apply live_versions_elem. exists id, j. split_and!; [by apply Hjobs|done|done|].
  unfold live_delivery in *. rewrite Hacks. destruct (j_status j); try done;
    apply exists_row_true in Hl as (eid & e & He & Hp); apply exists_row_true; eauto.
Qed.

Lemma new_job_live db db' nodeId lead target now jobId eventId :
  db_jobs db' = <[jobId := new_job jobId nodeId (GrantResource lead) target now]> (db_jobs db) →
  db_events db' = <[eventId := new_event eventId "node-sync.requested"
    (encode_command (grant_command lead jobId target)) now]> (db_events db) →
  target ∈ liveDeliveryVersions db' nodeId.
Proof.
  intros Hj He. apply live_versions_elem. eexists jobId, _. rewrite Hj, lookup_insert_eq.
  split_and!; [done|done|done|]. unfold live_delivery. simpl. apply exists_row_true.
  eexists eventId, _. rewrite He, lookup_insert_eq. split; [done|]. simpl.
  unfold announces. simpl. by rewrite !bool_decide_eq_true_2.
Qed.

Lemma change_applicable X db s nodeId now mayCreate k c :
  Inv X db → evolves db s → (∀ id g, db_grants db !! id = Some g → ∃ g', db_grants s !! id = Some g' ∧
    live g' = live g ∧ gr_appliedVersion g' = gr_appliedVersion g) →
  db_devices s = db_devices db →
  (k, c) ∈ changes db nodeId now mayCreate → applicable nodeId (expected_devices db now) s c.
Proof.
  intros Hinv Hev Hrows Hdev Hc. apply (changes_elem X) in Hc; [|done].
  assert (Hrow : ∀ id g, db_grants db !! id = Some g → ∃ g', db_grants s !! id = Some g' ∧
    live g' = live g ∧ gr_appliedVersion g' = gr_appliedVersion g ∧ gr_nodeId g' = gr_nodeId g ∧
    gr_deviceId g' = gr_deviceId g).
  { intros id g Hg. destruct (Hrows id g Hg) as (g' & Hg' & ? & ?).
    destruct (ev_grants _ _ Hev _ _ Hg) as (g2 & Hg2 & ? & ? & _).
    assert (g2 = g') as -> by congruence. by exists g'. }
  destruct Hc as [(x & Hx & _ & [(-> & _)|(id & g & -> & (Hg & Hgn & Hgd) & Hl & _)])|
    (id & g & _ & -> & Hg & Hgn & Hl & _)]; simpl.
  - split; [done|]. unfold expected_devices in Hx.
    apply list_elem_of_omap in Hx as ([id d] & Hin & Hx).
    apply elem_of_merge_sort, elem_of_map_to_list in Hin.
    option_invert Hx. injection Hx as <-. exists d. by rewrite Hdev.
  - destruct (Hrow id g Hg) as (g' & Hg' & Hl' & Ha & Hn' & Hd').
    destruct (iv_grants _ _ Hinv _ _ Hg) as (_ & n & _ & Hone & _).
    exists x, g'. split_and!; try done; try congruence; lia.
  - destruct (Hrow id g Hg) as (g' & Hg' & Hl' & _ & Hn' & _). exists g'. split_and!; congruence.
Qed.

(** What a committed reconciliation leaves. *)
Definition reconciled (db db' : Db) (nodeId : string) (includeMissing : bool) (now : Z) (b : bool)
    : Prop :=
  match db_nodes db !! nodeId with
  | Some node =>
      let mayCreate := bool_decide (n_status node = NODE_HEALTHY) || includeMissing in
      if isNodeInAccessControlSync (n_status node) then
        if b then ¬ node_settled db nodeId now mayCreate ∧
                  node_settled db' nodeId now mayCreate ∧
                  n_status <$> db_nodes db' !! nodeId = Some (n_status node)
        else db' = db ∧ node_settled db nodeId now mayCreate
      else b = false ∧ db' = db
  | None => b = false ∧ db' = db
  end.

Lemma run_audit_others X actor action entityType entityId metadata db u db' :
  audit actor action entityType entityId metadata db = (Ok u, db') → Inv X db →
  Inv X db' ∧ evolves db db' ∧ same_others db db' ∧ db_grants db' = db_grants db.
Proof.
  intros [l ->]%audit_ok Hinv. destruct (audit_inv X l db Hinv). split_and!; [done|done|..]; by destruct db.
Qed.

Lemma same_others_versions db db' nodeId v :
  same_others db db' → v ∈ liveDeliveryVersions db nodeId → v ∈ liveDeliveryVersions db' nodeId.
Proof.
  intros (_ & Hj & _ & Ha & He & _). apply versions_kept; [done|by rewrite Hj|by rewrite He].
Qed.

Section one.
Context (db : Db) (Hinv : Inv nothing db) (nodeId : string) (now : Z) (may : bool) (node : Node).
Context (Hn : db_nodes db !! nodeId = Some node).

Lemma activations_done u s :
  for_each (activations db nodeId now) (λ id, grant_update true id activate_grant) db = (Ok u, s) →
  Inv nothing s ∧ evolves db s ∧ same_others db s ∧
  db_grants s = written_grants (λ id _, bool_decide (id ∈ activations db nodeId now)) activate_grant
                  (db_grants db).
Proof using Hinv.
  intros Hr. destruct (activations_run nothing _ _ _ _ Hr Hinv) as (I1 & E1 & Hs).
  { intros id (x & g & _ & (Hg & _) & Hst & Hle)%(activations_elem nothing); [|done].
    exists g. split_and!; [done| |done]. unfold live. by rewrite Hst. }
  split_and!; [done|done| |]; rewrite Hs; [apply same_others_grants|apply set_grants_grants].
Qed.

(** Only local activations. *)
Lemma reconcile_local actor action entityType entityId metadata u s u' db' :
  changes db nodeId now may = [] →
  for_each (activations db nodeId now) (λ id, grant_update true id activate_grant) db = (Ok u, s) →
  audit actor action entityType entityId metadata s = (Ok u', db') →
  Inv nothing db' ∧ evolves db db' ∧ node_settled db' nodeId now may ∧
  db_nodes db' = db_nodes db.
Proof using All.
  intros Hnone Hr1 Hr2. destruct (activations_done _ _ Hr1) as (I1 & E1 & O1 & G1).
  destruct (run_audit_others nothing _ _ _ _ _ _ _ _ Hr2 I1) as (I2 & E2 & O2 & G2).
  assert (O : same_others db db') by (by etrans).
  pose proof (proj1 (node_checks_spec node) (iv_nodes _ _ Hinv _ _ Hn)) as Hck.
  split; [done|]. split; [by etrans|]. split; [|apply O].
  apply (settled_after nothing nodeId now may db s db' node node Hinv I2 (transitivity E1 E2));
    [done|by rewrite (proj1 O)|lia|done| | | |].
  - intros id g Hg _. right. by rewrite <- G2.
  - intros k c Hc. rewrite Hnone in Hc. by apply elem_of_nil in Hc.
  - apply expected_devices_same; apply O.
  - intros v. by apply same_others_versions.
Qed.

(** A row keeps its life through the activations. *)
Lemma activated_life s id g :
  db_grants s = written_grants (λ id _, bool_decide (id ∈ activations db nodeId now)) activate_grant
                  (db_grants db) →
  db_grants db !! id = Some g →
  ∃ g', db_grants s !! id = Some g' ∧ live g' = live g ∧ gr_appliedVersion g' = gr_appliedVersion g.
Proof using Hinv.
  intros G1 Hg. eexists. rewrite G1, written_grants_lookup, Hg. split; [done|]. simpl.
  case_bool_decide as Hin; [|done]. split; [|done].
  apply (activations_elem nothing) in Hin as (x & g0 & _ & (Hg0 & _) & Hst & _); [|done].
  assert (g0 = g) as -> by congruence. unfold live. by rewrite Hst.
Qed.

(** A new version with the changes under it. *)
Lemma reconcile_network lead key1 key2 actor action entityType entityId metadata u s v s1 ids s2 u2 s3 u3 db' :
  for_each (activations db nodeId now) (λ id, grant_update true id activate_grant) db = (Ok u, s) →
  incrementNodeVersion nodeId s = (Ok v, s1) →
  mapM (apply_change uuid hmac_sha256 credentialPepper nodeId v) (changes db nodeId now may).*2 s1 =
    (Ok ids, s2) →
  createNodeSyncOperation uuid nodeId lead v key1 key2 now s2 = (Ok u2, s3) →
  audit actor action entityType entityId metadata s3 = (Ok u3, db') →
  Inv nothing db' ∧ evolves db db' ∧ node_settled db' nodeId now may ∧
  db_nodes db' !! nodeId = Some (increment_desired node).
Proof using All.
  intros Hr1 Hr2 Hr3 Hr4 Hr5. destruct (activations_done _ _ Hr1) as (I1 & E1 & O1 & G1).
  assert (Hns : db_nodes s !! nodeId = Some node) by (by rewrite (proj1 O1)).
  destruct (run_incrementNodeVersion nothing _ _ _ _ Hr2 I1) as (I2 & E2 & F2 & n & Hn' & Hv & Hs1).
  assert (n = node) as -> by congruence.
  assert (T1 : db_grants s1 = db_grants s ∧ db_devices s1 = db_devices s ∧ db_acks s1 = db_acks s ∧
    db_jobs s1 = db_jobs s ∧ db_events s1 = db_events s ∧ db_subscriptions s1 = db_subscriptions s ∧
    db_nodes s1 !! nodeId = Some (increment_desired node)).
  { clear - Hs1. subst s1. destruct s. simpl. split_and!; try done. apply lookup_insert_eq. }
  destruct T1 as (TG & TD & TA & TJ & TE & TS & TN). destruct O1 as (ON & OJ & OD & OA & OE & OS).
  subst v. set (v := n_desiredConfigVersion node + 1) in *.
  pose proof (proj1 (node_checks_spec node) (iv_nodes _ _ Hinv _ _ Hn)) as Hck.
  assert (E02 : evolves db s1) by (by etrans).
  destruct (apply_changes_safe uuid hmac_sha256 credentialPepper nothing nodeId v (expected_devices db now)
    (expected_NoDup db now) _ _ _ _ _ Hr3 I2 TN eq_refl) as (I3 & E3 & O3 & _ & R3 & D3); [unfold v; lia| |].
  { intros c ([k c'] & -> & Hc)%list_elem_of_fmap.
    eapply (change_applicable nothing db s1); [done|done| |congruence|exact Hc].
    intros id g Hg. rewrite TG. by apply activated_life. }
  destruct O3 as (PN & PJ & PD & PA & PE & PS).
  destruct (run_createNodeSyncOperation uuid nothing _ _ _ _ _ _ _ _ _ Hr4 I3)
    as (I4 & E4 & QN & QD & QG & QA & QS & jobId & eventId & Hnj & QJ & Hne & QE);
    [by eapply fresh_version_frame|].
  destruct (run_audit_others nothing _ _ _ _ _ _ _ _ Hr5 I4) as (I5 & E5 & (RN & RJ & RD & RA & RE & RS) & RG).
  assert (E : evolves db db') by (by do 3 (etrans; [eassumption|])).
  assert (Hnodes : db_nodes db' !! nodeId = Some (increment_desired node)) by congruence.
  split; [done|]. split; [done|]. split; [|done].
  apply (settled_after nothing nodeId now may db s db' node (increment_desired node) Hinv I5 E);
    [done|done|simpl; lia|done|..].
  - intros id g Hg _. rewrite RG, QG in Hg. destruct (R3 id g Hg) as [Hup|Hold]; [left|right; congruence].
    split; [done|]. eapply (new_job_live s2); [by rewrite RJ|by rewrite RE].
  - intros k c Hc. assert (Hc2 : c ∈ (changes db nodeId now may).*2)
      by (apply list_elem_of_fmap; by exists (k, c)).
    specialize (D3 c Hc2). unfold applied_change, grant_on in *. by rewrite RG, QG.
  - apply expected_devices_same; congruence.
  - apply versions_kept; [congruence|intros id j Hj|intros id e He].
    + rewrite RJ, QJ, lookup_insert_ne; congruence.
    + rewrite RE, QE, lookup_insert_ne; congruence.
Qed.
End one.

Lemma reconcile_safe nodeId includeMissing now db b db' :
  reconcileOneNode uuid hmac_sha256 credentialPepper nodeId includeMissing now db = (Ok b, db') →
  Inv nothing db → Inv nothing db' ∧ evolves db db' ∧ reconciled db db' nodeId includeMissing now b.
Proof.
  unfold reconcileOneNode, reconciled. intros Hr Hinv. ok_inv Hr.
  destruct (db_nodes db !! nodeId) as [node|] eqn:Hn; [|by ok_inv Hr].
  destruct (isNodeInAccessControlSync (n_status node)) eqn:Hsync; simpl in Hr; [|by ok_inv Hr].
  set (may := bool_decide (n_status node = NODE_HEALTHY) || includeMissing) in *.
  cbv zeta in Hr. fold (by_device db nodeId) in Hr.
  fold (changes db nodeId now may) in Hr. fold (activations db nodeId now) in Hr.
  pose proof (settled_iff nothing db Hinv nodeId now may) as Hsettled.
  destruct (bool_decide (changes db nodeId now may = []) &&
            bool_decide (activations db nodeId now = [])) eqn:Hidle.
  { ok_inv Hr. apply andb_prop in Hidle as [?%bool_decide_eq_true ?%bool_decide_eq_true].
    split_and!; [done|done|done|]. by apply Hsettled. }
  assert (Hun : ¬ node_settled db nodeId now may).
  { intros [Hc Ha]%Hsettled. by rewrite !bool_decide_eq_true_2 in Hidle. }
  ok_inv Hr. destruct (changes db nodeId now may) as [|c cs] eqn:Hc; ok_inv Hr.
  - destruct (reconcile_local db Hinv nodeId now may node Hn _ _ _ _ _ _ _ _ _ Hc Hrun Hrun0)
      as (I & E & S & N). split_and!; [done|done|done|done|]. by rewrite N, Hn.
  - rewrite <- Hc in Hrun1.
    destruct (reconcile_network db Hinv nodeId now may node Hn _ _ _ _ _ _ _ _ _ _ _ _ _ _ _ _ _ _
      Hrun Hrun0 Hrun1 Hrun2 Hrun3) as (I & E & S & N).
    split_and!; [done|done|done|done|]. by rewrite N.
Qed.

(** A settled node is left alone. *)
Lemma settled_is_idle X nodeId includeMissing now db node :
  Inv X db → n_status <$> db_nodes db !! nodeId = Some (n_status node) →
  isNodeInAccessControlSync (n_status node) = true →
  node_settled db nodeId now (bool_decide (n_status node = NODE_HEALTHY) || includeMissing) →
  reconcileOneNode uuid hmac_sha256 credentialPepper nodeId includeMissing now db = (Ok false, db).
Proof.
  intros Hinv (n & Hn & Hst)%fmap_Some Hsync Hset. rewrite Hst in Hsync, Hset.
  unfold reconcileOneNode. autorewrite with run. rewrite Hn, Hsync. simpl.
  set (may := bool_decide (n_status n = NODE_HEALTHY) || includeMissing) in *.
  fold (by_device db nodeId). fold (changes db nodeId now may). fold (activations db nodeId now).
  by apply (settled_iff X) in Hset as [-> ->].
Qed.
End reconcile.
