(* ===== verification/AccessMaintenance.v ===== *)
(** * The maintenance batches

    [materializeExpiredSubscriptions] and [reconcileAccess]: the transactions
    of a batch one after the other, the cursor that pages through the
    candidates, and [restoreNodeToHealthy], which reconciles before it
    restores. *)

From S2P Require Import Prelude.
From S2P Require Import Json.
From S2P Require Import Sql.
From S2P Require Import OutboxStore.
From S2P Require Import NodeSyncStore.
From S2P Require Import NodeAgentContract.
From S2P Require Import XrayAccess.
From S2P Require Import ControlPlane.
From S2P Require Import DataPlaneCredential.
From S2P Require Import AccessPolicy.
From S2P Require Import ControlPlaneInvariant.
From S2P Require Import Orchestration.
From S2P Require Import OrchestrationSafety.
From S2P Require Import SubscriptionAccess.
From S2P Require Import SubscriptionAccessSafety.
From S2P Require Import Reconciliation.
Open Scope Z_scope.

(** ** Batches *)

(** A statement that keeps the invariant, whether it returns or throws. *)
Definition keeps {A} (m : DbM A) : Prop :=
  ∀ db, Inv nothing db → Inv nothing (m db).2 ∧ evolves db (m db).2.

Lemma inv_keeps_mret {A} (a : A) : keeps (mret a : DbM A).
Proof. intros db Hinv. by split. Qed.

Lemma keeps_get_bind {A} (f : Db → DbM A) : (∀ db, keeps (f db)) → keeps (get ≫= f).
Proof. intros Hf db. apply Hf. Qed.

Lemma inv_keeps_bind {A B} (m : DbM A) (f : A → DbM B) :
  keeps m → (∀ a, keeps (f a)) → keeps (m ≫= f).
Proof.
  intros Hm Hf db Hinv. unfold mbind, M_bind. destruct (Hm db Hinv) as [H1 H2].
  destruct (m db) as [[a|e] s]; simpl in *; [|done].
  destruct (Hf a s H1) as [H3 H4]. split; [done|by etrans].
Qed.

(** A transaction that throws is rolled back. *)
Lemma inv_keeps_atomically {A} (m : DbM A) :
  (∀ db a db', m db = (Ok a, db') → Inv nothing db → Inv nothing db' ∧ evolves db db') →
  keeps (atomically m).
Proof.
  intros Hm db Hinv. unfold atomically. destruct (m db) as [[a|e] s] eqn:Hrun; simpl; [by eapply Hm|done].
Qed.

Lemma keeps_tried (m : DbM bool) :
  (∀ db a db', m db = (Ok a, db') → Inv nothing db → Inv nothing db' ∧ evolves db db') →
  keeps (tried m).
Proof.
  intros Hm. apply inv_keeps_bind; [|intros []; apply inv_keeps_mret].
  intros db Hinv. unfold attempt. pose proof (inv_keeps_atomically m Hm db Hinv).
  by destruct (atomically m db) as [[]].
Qed.

Lemma keeps_tally {A} (l : list A) f : (∀ x, keeps (f x)) → keeps (tally l f).
Proof.
  intros Hf. induction l as [|x l IH]; simpl; [apply inv_keeps_mret|].
  apply inv_keeps_bind; [done|intros r]. apply inv_keeps_bind; [done|intros rest]. apply inv_keeps_mret.
Qed.

(** A tally counts every element once: changed, failed or neither. *)
Lemma tally_bounds {A} (l : list A) f db r db' :
  tally l f db = (Ok r, db') → 0 ≤ r.1 ≤ Z.of_nat (length l).
Proof.
  revert db r. induction l as [|x l IH]; intros db r; simpl.
  - intros H. ok_inv H. simpl. lia.
  - intros H. ok_inv H. apply IH in Hrun0. simpl. destruct a as [[] ?]; simpl; lia.
Qed.

Section batches.
Context (uuid : nat → string) (hmac_sha256 : string → string → list Z) `{DateStrings}.
Context (credentialPepper : string).

Lemma keeps_expired limit cursor now : keeps (materializeExpiredSubscriptions uuid limit cursor now).
Proof.
  unfold materializeExpiredSubscriptions. apply keeps_get_bind. intros db.
  destruct (findExpiredSubscriptionCandidates db now limit cursor) as [candidates cursor'].
  apply inv_keeps_bind; [|intros counts; apply inv_keeps_mret]. apply keeps_tally. intros subscriptionId.
  unfold expire_candidate. apply keeps_get_bind. intros db1. apply inv_keeps_bind.
  - apply keeps_tally. intros nodeId. apply keeps_tried. intros db2 b db3 Hr Hinv.
    by destruct (scheduleExpired_safe uuid _ _ _ _ _ _ Hr Hinv) as (I & E & _).
  - intros scheduled. apply inv_keeps_bind; [|intros ?; apply inv_keeps_mret].
    apply keeps_tried. intros db2 b db3 Hr Hinv.
    by destruct (materialize_safe _ _ _ _ _ Hr Hinv) as (I & E & _).
Qed.

Lemma keeps_reconcileAccess limit cursor now :
  keeps (reconcileAccess uuid hmac_sha256 credentialPepper limit cursor now).
Proof.
  unfold reconcileAccess. apply keeps_get_bind. intros db.
  destruct (findReconciliationCandidates db now limit cursor) as [candidates cursor'].
  apply inv_keeps_bind; [|intros counts; apply inv_keeps_mret]. apply keeps_tally. intros nodeId.
  apply keeps_tried. intros db2 b db3 Hr Hinv.
  by destruct (reconcile_safe uuid hmac_sha256 credentialPepper _ _ _ _ _ _ Hr Hinv) as (I & E & _).
Qed.

(** ** Restoring a node *)

Lemma restore_safe nodeId actor now db r db' :
  restoreNodeToHealthy uuid hmac_sha256 credentialPepper nodeId actor now db = (Ok r, db') →
  Inv nothing db →
  Inv nothing db' ∧ evolves db db' ∧
  match r with
  | Restored id => id = nodeId ∧ node_settled db nodeId now true ∧
      status_changed db db' nodeId NODE_HEALTHY
  | ReconciliationRequired id => id = nodeId ∧ ¬ node_settled db nodeId now true ∧
      node_settled db' nodeId now true ∧ n_status <$> db_nodes db' !! nodeId = n_status <$> db_nodes db !! nodeId
  end.
Proof.
  unfold restoreNodeToHealthy, reconcileNodeBeforeHealthy. intros Hr Hinv. ok_inv Hr.
  destruct (reconcile_safe _ _ _ _ _ _ _ _ _ Hrun Hinv) as (I1 & E1 & Hrec). unfold reconciled in Hrec.
  destruct a; ok_inv Hr.
  - split; [done|]. split; [done|].
    destruct (db_nodes db !! nodeId) as [node|] eqn:Hn; [|by destruct Hrec].
    rewrite orb_true_r in Hrec.
    destruct (isNodeInAccessControlSync (n_status node)); [|by destruct Hrec].
    destruct Hrec as (Hun & Hset & Hst). split_and!; [done|done|done|]. by rewrite Hst.
  - assert (Hsame : s = db).
    { destruct (db_nodes db !! nodeId); [|by destruct Hrec].
      destruct (isNodeInAccessControlSync _); by destruct Hrec. }
    subst s. unfold restoreHealthy in Hrun0. apply atomically_ok_inv in Hrun0.
    destruct (change_status_safe _ _ _ _ _ _ _ _ _ Hrun0 Hinv) as (I2 & E2 & _ & Hch);
      [set_solver|]. split; [done|]. split; [done|]. split; [done|]. split; [|done].
    unfold change_status, find in Hrun0. ok_inv Hrun0.
    destruct (db_nodes db !! nodeId) as [node|] eqn:Hn; [|discriminate Hrun0].
    rewrite orb_true_r in Hrec.
    assert (Hsync : isNodeInAccessControlSync (n_status node) = true).
    { case_bool_decide as Hst; [by rewrite Hst|]. ok_inv Hrun0.
      apply negb_false_iff, bool_decide_eq_true in Hguard.
      apply elem_of_cons in Hguard as [->|[->|Hno%elem_of_nil]%elem_of_cons]; done. }
    rewrite Hsync in Hrec. by destruct Hrec.
Qed.
End batches.

(** ** The pages *)

(** A sorted list split at a bound. *)
Section split.
Context (a : string).

Definition upto (l : list string) : nat := length (filter (λ x, String.le x a) l).

Lemma filter_all_false {A} (P : A → Prop) `{∀ x, Decision (P x)} (l : list A) :
  (∀ x, x ∈ l → ¬ P x) → filter P l = [].
Proof.
  induction l as [|x l IH]; intros Hl; [done|]. rewrite filter_cons_False by (apply Hl; left).
  apply IH. intros y Hy. apply Hl. by right.
Qed.
Lemma filter_all_true {A} (P : A → Prop) `{∀ x, Decision (P x)} (l : list A) :
  (∀ x, x ∈ l → P x) → filter P l = l.
Proof.
  induction l as [|x l IH]; intros Hl; [done|]. rewrite filter_cons_True by (apply Hl; left).
  f_equal. apply IH. intros y Hy. apply Hl. by right.
Qed.

Lemma sorted_split l : StronglySorted String.le l →
  filter (λ x, String.le x a) l = take (upto l) l ∧
  filter (λ x, negb (bool_decide (String.le x a)) = true) l = drop (upto l) l.
Proof.
  unfold upto. induction 1 as [|x l Hl IH Hx]; [done|].
  destruct (decide (String.le x a)) as [Hle|Hgt].
  - rewrite filter_cons_True by done. rewrite filter_cons_False by (by rewrite bool_decide_eq_true_2).
    simpl. destruct IH as [IH1 IH2]. split; [by f_equal|done].
  - assert (Hall : ∀ y, y ∈ x :: l → ¬ String.le y a).
    { intros y [->|Hy]%elem_of_cons Hya; [done|]. apply Hgt. rewrite Forall_forall in Hx.
      by etrans; [apply Hx|]. }
    rewrite !(filter_all_false (λ x, String.le x a)) by done. simpl. split; [done|].
    apply filter_all_true. intros y Hy. rewrite bool_decide_eq_false_2; [done|by apply Hall].
Qed.
End split.

Lemma upto_member l i x :
  StronglySorted String.le l → NoDup l → l !! i = Some x → upto x l = S i.
Proof.
  intros Hs. revert i. unfold upto. induction Hs as [|y l Hl IH Hy]; intros i; [done|].
  intros [Hny Hnd]%NoDup_cons. destruct i as [|i]; simpl.
  - intros [= ->]. rewrite filter_cons_True by reflexivity. simpl. f_equal.
    rewrite (filter_all_false (λ z, String.le z x)); [done|]. intros z Hz Hle.
    rewrite Forall_forall in Hy. apply Hny.
    assert (z = x) as <- by (apply (anti_symm String.le); auto). done.
  - intros Hi. rewrite filter_cons_True.
    + simpl. f_equal. by apply IH.
    + rewrite Forall_forall in Hy. apply Hy. by eapply list_elem_of_lookup_2.
Qed.

Section paging.
Context {A : Type} (p : string → A → bool) (t : Table A) (limit : nat) (Hlimit : (0 < limit)%nat).

(** The candidates in the order of the query. *)
Definition candidates : list string :=
  merge_sort String.le (map_to_list (filter (λ kv, p kv.1 kv.2 = true) t)).*1.

Lemma candidates_elem id : id ∈ candidates ↔ ∃ row, t !! id = Some row ∧ p id row = true.
Proof using Type.
  unfold candidates. rewrite elem_of_merge_sort, list_elem_of_fmap. split.
  - intros ([id' row] & -> & [Hr Hp]%elem_of_map_to_list%map_lookup_filter_Some). by exists row.
  - intros (row & Hr & Hp). exists (id, row). split; [done|].
    by apply elem_of_map_to_list, map_lookup_filter_Some.
Qed.

Lemma candidates_sorted : StronglySorted String.le candidates.
Proof using Type. apply StronglySorted_merge_sort; apply _. Qed.

Lemma candidates_NoDup : NoDup candidates.
Proof using Type. unfold candidates. rewrite merge_sort_Permutation. apply NoDup_fst_map_to_list. Qed.

(** The candidates the cursor has passed. *)
Definition passed (cursor : option string) : nat :=
  match cursor with Some a => upto a candidates | None => 0 end.

Lemma passed_le cursor : (passed cursor ≤ length candidates)%nat.
Proof using Type.
  destruct cursor; simpl; [|apply Nat.le_0_l]. unfold upto. apply length_filter.
Qed.

(** A page is the next [limit] candidates, around the end of the order. *)
Lemma next_page_spec cursor :
  (next_page (query_page p t) limit cursor).1 =
  take limit (drop (passed cursor) candidates ++ take (passed cursor) candidates).
Proof using All.
  unfold next_page, query_page. fold candidates. destruct cursor as [a|]; simpl.
  - destruct (sorted_split a candidates candidates_sorted) as [Hle Hgt].
    assert (Hfirst : filter (λ id, within (Some a) None id = true) candidates =
                     drop (upto a candidates) candidates).
    { rewrite <- Hgt. apply list_filter_iff. intros x. unfold within. by rewrite andb_true_r. }
    assert (Hwrap : filter (λ id, within None (Some a) id = true) candidates =
                    take (upto a candidates) candidates).
    { rewrite <- Hle. apply list_filter_iff. intros x. unfold within. simpl. apply bool_decide_eq_true. }
    rewrite Hfirst, Hwrap, andb_true_r, take_app, length_drop, length_take.
    destruct (Nat.ltb_spec (limit `min` length (drop (upto a candidates) candidates)) limit).
    + rewrite length_drop in *. do 3 f_equal. lia.
    + rewrite length_drop in *.
      replace (limit - (length candidates - upto a candidates))%nat with 0%nat by lia.
      by rewrite take_0, app_nil_r.
  - rewrite andb_false_r, drop_0, take_0, app_nil_r. simpl. f_equal.
    by apply filter_all_true.
Qed.

Lemma next_page_cursor cursor :
  (next_page (query_page p t) limit cursor).2 =
  match last (next_page (query_page p t) limit cursor).1 with
  | Some id => Some id
  | None => cursor
  end.
Proof using All. done. Qed.

(** The page as positions in the order. *)
Lemma page_lookup cursor k :
  (k < limit)%nat → (k < length candidates)%nat →
  (next_page (query_page p t) limit cursor).1 !! k =
  candidates !! (if decide (passed cursor + k < length candidates)
                 then passed cursor + k else passed cursor + k - length candidates)%nat.
Proof using All.
  intros Hk Hkn. rewrite next_page_spec, lookup_take_lt by done.
  pose proof (passed_le cursor) as Hle. case_decide as Hd.
  - rewrite lookup_app_l by (rewrite length_drop; lia). by rewrite lookup_drop.
  - rewrite lookup_app_r by (rewrite length_drop; lia).
    rewrite length_drop, lookup_take_lt by lia. f_equal. lia.
Qed.

Lemma page_length cursor :
  length (next_page (query_page p t) limit cursor).1 = (limit `min` length candidates)%nat.
Proof using All.
  rewrite next_page_spec, length_take, length_app, length_drop, length_take.
  pose proof (passed_le cursor). lia.
Qed.

(** A page moves the cursor past what it returns. *)
Lemma passed_step cursor :
  (0 < length candidates)%nat →
  let m := (limit `min` length candidates)%nat in
  passed (next_page (query_page p t) limit cursor).2 =
    (if decide (passed cursor + m ≤ length candidates) then passed cursor + m
     else passed cursor + m - length candidates)%nat.
Proof using All.
  intros Hn m. rewrite next_page_cursor.
  pose proof (page_length cursor) as Hlen. fold m in Hlen.
  rewrite last_lookup, Hlen, page_lookup by lia.
  pose proof (passed_le cursor) as Hle.
  set (i := (if decide _ then _ else _)) at 1.
  assert (Hi : (i < length candidates)%nat) by (unfold i; case_decide; lia).
  destruct (lookup_lt_is_Some_2 candidates i Hi) as [x Hx]. rewrite Hx. simpl.
  rewrite (upto_member candidates i x candidates_sorted candidates_NoDup Hx).
  unfold i. repeat case_decide; lia.
Qed.

(** The cursor after some pages over the same candidates. *)
Fixpoint after_pages (k : nat) (cursor : option string) : option string :=
  match k with
  | O => cursor
  | S k' => after_pages k' (next_page (query_page p t) limit cursor).2
  end.

(** How many candidates the pages show before position [i]. *)
Definition ahead (cursor : option string) (i : nat) : nat :=
  (if decide (passed cursor ≤ i) then i - passed cursor
   else length candidates + i - passed cursor)%nat.

Lemma visited d cursor i x :
  candidates !! i = Some x → (ahead cursor i ≤ d)%nat →
  ∃ k, (k * limit ≤ d)%nat ∧ x ∈ (next_page (query_page p t) limit (after_pages k cursor)).1.
Proof using All.
  revert cursor. induction (lt_wf d) as [d _ IH]. intros cursor Hx Hd.
  pose proof (lookup_lt_Some _ _ _ Hx) as Hi. pose proof (passed_le cursor) as Hle.
  destruct (decide (ahead cursor i < limit)%nat) as [Hnow|Hlater].
  - exists 0%nat. split; [lia|]. change (after_pages 0 cursor) with cursor.
    apply (list_elem_of_lookup_2 _ (ahead cursor i)).
    rewrite (page_lookup cursor (ahead cursor i)) by (done || (unfold ahead; case_decide; lia)).
    rewrite <- Hx. f_equal. unfold ahead. repeat case_decide; lia.
  - assert (Hstep : (ahead (next_page (query_page p t) limit cursor).2 i = ahead cursor i - limit)%nat).
    { unfold ahead in *. rewrite passed_step by lia. repeat case_decide; lia. }
    destruct (IH (d - limit)%nat) with (cursor := (next_page (query_page p t) limit cursor).2)
      as (k & Hk & Hin); [lia|done|lia|].
    exists (S k). split; [lia|done].
Qed.
End paging.
