(* ===== verification/TrialAccess.v ===== *)
(** * Access of a trial: [apps/api/src/trials/trial-activation.service.ts]

    [scheduleExistingDeviceAccess], the part of an activation that works on the
    control-plane database: every active device of the user gets its access on
    every healthy node, and keeps what it has on draining and disabled ones,
    until the trial ends.  Here are the definition and what one call does to
    every node. *)

From S2P Require Import Prelude.
From S2P Require Import Json.
From S2P Require Import Sql.
From S2P Require Import OutboxStore.
From S2P Require Import NodeSyncStore.
From S2P Require Import NodeAgentContract.
From S2P Require Import XrayAccess.
From S2P Require Import ControlPlane.
From S2P Require Import DataPlaneCredential.
From S2P Require Import AccessPolicy.
From S2P Require Import ControlPlaneInvariant.
From S2P Require Import Orchestration.
From S2P Require Import OrchestrationSafety.
From S2P Require Import SubscriptionAccess.
From S2P Require Import SubscriptionAccessSafety.
Open Scope Z_scope.

Record TrialAccessInput := { ta_activationId : string; ta_userId : string; ta_expiresAt : Z }.

Section access.
Context (uuid : nat → string) (hmac_sha256 : string → string → list Z).
Context (environment : ApiEnvironment).

(** [ORDER BY "id"] *)
Definition by_id {A} (l : list (string * A)) : list (string * A) :=
  merge_sort (pair_order (λ _ : A, EmptyString)) l.

(** The active devices of a user. *)
Definition active_devices (db : Db) (userId : string) : list string :=
  (by_id (map_to_list (filter (λ kv, dv_userId kv.2 = userId ∧ dv_status kv.2 = DEVICE_ACTIVE)
     (db_devices db)))).*1.

(** Healthy nodes, and the draining and disabled ones the user has access on. *)
Definition trial_node (db : Db) (userId nodeId : string) (node : Node) : bool :=
  bool_decide (n_status node = NODE_HEALTHY) ||
  (bool_decide (n_status node = NODE_DRAINING) || bool_decide (n_status node = NODE_DISABLED)) &&
  exists_row (λ g, bool_decide (gr_nodeId g = nodeId) && of_user db userId g && live g)
    (db_grants db).
Definition trial_nodes (db : Db) (userId : string) : list (string * NodeStatus) :=
  (λ kv : string * Node, (kv.1, n_status kv.2)) <$>
  by_id (filter (λ kv : string * Node, trial_node db userId kv.1 kv.2 = true)
    (map_to_list (db_nodes db))).

(** The grants of the user on a node, by device. *)
Definition grantsByDevice (db : Db) (userId nodeId : string)
    : list (string * (string * NodeAccessGrant)) :=
  map_of ((λ kv, (gr_deviceId kv.2, kv)) <$>
    by_id (map_to_list (filter (λ kv, bool_decide (gr_nodeId kv.2 = nodeId) &&
                                      of_user db userId kv.2 = true) (db_grants db)))).

(** A revoked grant stays revoked; a missing one is made on a healthy node. *)
Definition eligible (byDevice : list (string * (string * NodeAccessGrant))) (status : NodeStatus)
    (deviceId : string) : bool :=
  match map_get deviceId byDevice with
  | Some (_, grant) => live grant
  | None => bool_decide (status = NODE_HEALTHY)
  end.

(** The body of the loop over the eligible devices: the changed grant. *)
Definition extend_access (byDevice : list (string * (string * NodeAccessGrant))) (nodeId : string)
    (expiresAt target : Z) (deviceId : string) : DbM string :=
  match map_get deviceId byDevice with
  | Some (id, _) => grant_update false id (reschedule_grant (Some expiresAt) target);; mret id
  | None =>
      grantId ← randomUUID uuid;
      credential ← with_pepper (derive hmac_sha256 environment
        {| b_grantId := grantId; b_deviceId := deviceId; b_nodeId := nodeId |});
      credentialHash ← with_pepper (hash hmac_sha256 environment credential);
      grant_create grantId
        {| gr_nodeId := nodeId; gr_deviceId := deviceId; gr_status := GRANT_PENDING;
           gr_dataPlaneCredentialHash := credentialHash;
           gr_dataPlaneCredentialDerivationVersion := Some DATA_PLANE_CREDENTIAL_DERIVATION_VERSION;
           gr_expiresAt := expiresAt; gr_desiredVersion := target; gr_appliedVersion := 0;
           gr_revokedAt := None |};;
      mret grantId
  end.

Definition trial_key (activationId nodeId : string) : string :=
  "trial:" +:+ activationId +:+ ":" +:+ nodeId.
Definition trial_outbox_key (activationId nodeId : string) : string :=
  "trial-outbox:" +:+ activationId +:+ ":" +:+ nodeId.

(** The body of the loop over the nodes. *)
Definition extend_on_node (input : TrialAccessInput) (devices : list string) (now : Z)
    (node : string * NodeStatus) : DbM unit :=
  let '(nodeId, status) := node in
  db ← get;
  let byDevice := grantsByDevice db (ta_userId input) nodeId in
  match filter (λ d, eligible byDevice status d = true) devices with
  | [] => mret tt
  | eligibleDevices =>
      target ← incrementNodeVersion nodeId;
      changedGrantIds ← mapM (extend_access byDevice nodeId (ta_expiresAt input) target)
                          eligibleDevices;
      createNodeSyncOperation uuid nodeId (default EmptyString (head changedGrantIds)) target
        (trial_key (ta_activationId input) nodeId) (trial_outbox_key (ta_activationId input) nodeId) now;;
      audit (Some (ta_userId input)) "trial.access-scheduled" "TrialActivation" (ta_activationId input)
        (JObj [("nodeId"%string, JStr nodeId); ("targetVersion"%string, jint target);
               ("grantCount"%string, jint (Z.of_nat (length changedGrantIds)))])
  end.

Definition scheduleExistingDeviceAccess (input : TrialAccessInput) (now : Z) : DbM unit :=
  db ← get;
  match active_devices db (ta_userId input) with
  | [] => mret tt
  | devices => for_each (trial_nodes db (ta_userId input)) (extend_on_node input devices now)
  end.
End access.
