(* ===== verification/TrialAccessSafety.v ===== *)
(** * What a trial's access does to the control plane

    A committed call of [scheduleExistingDeviceAccess] keeps the invariant of
    ControlPlaneInvariant.v, and changes every node on its own: the live
    grants of the user's active devices last until the trial ends, healthy
    nodes have one for each of them, and the node is told in one job. *)

From S2P Require Import Prelude.
From S2P Require Import Json.
From S2P Require Import Sql.
From S2P Require Import OutboxStore.
From S2P Require Import NodeSyncStore.
From S2P Require Import NodeAgentContract.
From S2P Require Import XrayAccess.
From S2P Require Import ControlPlane.
From S2P Require Import DataPlaneCredential.
From S2P Require Import AccessPolicy.
From S2P Require Import ControlPlaneInvariant.
From S2P Require Import Orchestration.
From S2P Require Import OrchestrationSafety.
From S2P Require Import SubscriptionAccess.
From S2P Require Import SubscriptionAccessSafety.
From S2P Require Import Reconciliation.
From S2P Require Import TrialAccess.
Open Scope Z_scope.

(** ** What the loops read *)

Lemma by_id_elem {A} (l : list (string * A)) x : x ∈ by_id l ↔ x ∈ l.
Proof. unfold by_id. by rewrite elem_of_merge_sort. Qed.

Lemma by_id_NoDup {A} (l : list (string * A)) : NoDup l.*1 → NoDup (by_id l).*1.
Proof. unfold by_id. by rewrite merge_sort_Permutation. Qed.

Lemma active_devices_elem db userId d :
  d ∈ active_devices db userId ↔
  ∃ row, db_devices db !! d = Some row ∧ dv_userId row = userId ∧ dv_status row = DEVICE_ACTIVE.
Proof.
  unfold active_devices. rewrite list_elem_of_fmap. setoid_rewrite by_id_elem. split.
  - intros ([id row] & -> & Hin). apply elem_of_map_to_list, map_lookup_filter_Some in Hin as [? []].
    by exists row.
  - intros (row & Hd & Hu & Ha). exists (d, row). split; [done|].
    by apply elem_of_map_to_list, map_lookup_filter_Some.
Qed.

Lemma active_devices_NoDup db userId : NoDup (active_devices db userId).
Proof. apply by_id_NoDup, NoDup_fst_map_to_list. Qed.

Lemma trial_nodes_elem db userId nodeId status :
  (nodeId, status) ∈ trial_nodes db userId ↔
  ∃ n, db_nodes db !! nodeId = Some n ∧ n_status n = status ∧ trial_node db userId nodeId n = true.
Proof.
  unfold trial_nodes. rewrite list_elem_of_fmap. setoid_rewrite by_id_elem.
  setoid_rewrite list_elem_of_filter. split.
  - intros ([id n] & [= -> ->] & Ht & Hin%elem_of_map_to_list). by exists n.
  - intros (n & Hn & <- & Ht). exists (nodeId, n). split_and!; [done|done|]. by apply elem_of_map_to_list.
Qed.

Lemma trial_nodes_NoDup db userId : NoDup ((trial_nodes db userId).*1).
Proof.
  unfold trial_nodes. rewrite <- list_fmap_compose. simpl. change (λ x, x.1) with (@fst string Node).
  apply by_id_NoDup. eapply NoDup_fmap_fst.
  - intros id n1 n2 [_ H1%elem_of_map_to_list]%list_elem_of_filter [_ H2%elem_of_map_to_list]%list_elem_of_filter.
    congruence.
  - apply NoDup_filter, NoDup_map_to_list.
Qed.

Lemma grantsByDevice_get X db userId nodeId d id g :
  Inv X db → map_get d (grantsByDevice db userId nodeId) = Some (id, g) ↔
  grant_on db nodeId d id g ∧ of_user db userId g = true.
Proof.
  intros Hinv. unfold grantsByDevice.
  assert (Hin : ∀ id g, (id, g) ∈ by_id (map_to_list (filter (λ kv, bool_decide (gr_nodeId kv.2 = nodeId) &&
      of_user db userId kv.2 = true) (db_grants db))) ↔
    db_grants db !! id = Some g ∧ gr_nodeId g = nodeId ∧ of_user db userId g = true).
  { intros. rewrite by_id_elem, elem_of_map_to_list, map_lookup_filter_Some. simpl.
    by rewrite andb_true_iff, bool_decide_eq_true. }
  rewrite (map_of_get_by (λ kv : string * NodeAccessGrant, gr_deviceId kv.2)).
  - rewrite Hin. unfold grant_on. simpl. tauto.
  - apply NoDup_fmap_2_strong.
    + intros [id1 g1] [id2 g2] (H1 & N1 & _)%Hin (H2 & N2 & _)%Hin Hd. simpl in *.
      assert (id1 = id2) as -> by (eapply (iv_pairs _ _ Hinv); [done..|congruence|done]).
      congruence.
    + unfold by_id. rewrite merge_sort_Permutation. apply NoDup_map_to_list.
Qed.

(** ** One device on one node *)

(** The grants of a device on the node are untouched. *)
Definition same_device (nodeId d : string) (db db' : Db) : Prop :=
  ∀ id g, gr_nodeId g = nodeId → gr_deviceId g = d →
    (db_grants db !! id = Some g ↔ db_grants db' !! id = Some g).
(** So are the grants of other nodes. *)
Definition other_nodes (nodeId : string) (db db' : Db) : Prop :=
  ∀ id g, gr_nodeId g ≠ nodeId → (db_grants db !! id = Some g ↔ db_grants db' !! id = Some g).

#[export] Instance same_device_preorder nodeId d : PreOrder (same_device nodeId d).
Proof.
  split; [by intros db id g|]. intros db1 db2 db3 H1 H2 id g Hn Hd.
  by rewrite (H1 id g Hn Hd), (H2 id g Hn Hd).
Qed.
#[export] Instance other_nodes_preorder nodeId : PreOrder (other_nodes nodeId).
Proof.
  split; [by intros db id g|]. intros db1 db2 db3 H1 H2 id g Hn. by rewrite (H1 id g Hn), (H2 id g Hn).
Qed.

(** Writing one grant of a device on the node. *)
Lemma grant_written_frame nodeId d id g db db' :
  db_grants db' = <[id := g]> (db_grants db) → gr_nodeId g = nodeId → gr_deviceId g = d →
  (∀ g0, db_grants db !! id = Some g0 → gr_nodeId g0 = nodeId ∧ gr_deviceId g0 = d) →
  other_nodes nodeId db db' ∧ ∀ k, k ≠ d → same_device nodeId k db db'.
Proof.
  intros Heq Hn Hd Hold.
  assert (Hiff : ∀ id' g', gr_nodeId g' ≠ nodeId ∨ gr_deviceId g' ≠ d →
    (db_grants db !! id' = Some g' ↔ db_grants db' !! id' = Some g')).
  { intros id' g' Hne. rewrite Heq. destruct (decide (id' = id)) as [->|].
    - rewrite lookup_insert_eq. split; [intros Hg'|intros [= <-]].
      + destruct (Hold _ Hg'). naive_solver.
      + naive_solver.
    - by rewrite lookup_insert_ne. }
  split; [intros id' g' Hne|intros k Hk id' g' _ Hg']; apply Hiff; [by left|right; congruence].
Qed.

(** What became of the device's access: its grant is extended, or a new one
    is made. *)
Definition device_extended (nodeId : string) (expiresAt target : Z) (d id : string) (db db' : Db) : Prop :=
  (∀ id0 g, grant_on db nodeId d id0 g →
     id = id0 ∧ db_grants db' !! id0 = Some (reschedule_grant (Some expiresAt) target g)) ∧
  ((¬ ∃ id0 g, grant_on db nodeId d id0 g) →
     ∃ g, grant_on db' nodeId d id g ∧ gr_status g = GRANT_PENDING ∧ gr_expiresAt g = expiresAt ∧
       gr_desiredVersion g = target).

Lemma device_extended_frame nodeId e v d id db0 db db' db2 :
  same_device nodeId d db0 db → device_extended nodeId e v d id db db' → same_device nodeId d db' db2 →
  device_extended nodeId e v d id db0 db2.
Proof.
  intros Hl [H1 H2] Hr.
  assert (Hon : ∀ id0 g, grant_on db0 nodeId d id0 g ↔ grant_on db nodeId d id0 g).
  { intros id0 g. unfold grant_on. split; intros (Hg & Hn & Hd); (split; [|done]); by apply (Hl id0 g Hn Hd). }
  split.
  - intros id0 g Hg. pose proof Hg as (_ & Hn & Hd). apply Hon, H1 in Hg as [-> Hg].
    split; [done|]. by apply Hr.
  - intros Hno. destruct H2 as (g & (Hg & Hn & Hd) & Hst & He & Hv).
    { intros (id0 & g & Hg). apply Hno. exists id0, g. by apply Hon. }
    exists g. split_and!; [split_and!; [by apply Hr|done|done]|done..].
Qed.

Section device.
Context (uuid : nat → string) (hmac_sha256 : string → string → list Z).
Context (environment : ApiEnvironment) (X : Exempt).
(** The node after its version was incremented, and the grants read before. *)
Context (db1 : Db) (userId nodeId : string) (n : Node) (expiresAt target : Z).
Context (Hinv1 : Inv X db1) (Hn : db_nodes db1 !! nodeId = Some n).
Context (Htarget : n_desiredConfigVersion n = target) (Hone : 1 ≤ target).
Context (byDevice : list (string * (string * NodeAccessGrant))).
Context (Hby : ∀ d id g, map_get d byDevice = Some (id, g) ↔
  grant_on db1 nodeId d id g ∧ of_user db1 userId g = true).

Definition within_node (s : Db) : Prop :=
  Inv X s ∧ evolves db1 s ∧ same_others db1 s ∧ other_nodes nodeId db1 s.

Lemma within_node_start : within_node db1.
Proof using Hinv1. by split_and!. Qed.

Lemma extend_access_safe d s id s' :
  extend_access uuid hmac_sha256 environment byDevice nodeId expiresAt target d s = (Ok id, s') →
  within_node s → same_device nodeId d db1 s → d ∈ active_devices db1 userId →
  within_node s' ∧ (∀ k, k ≠ d → same_device nodeId k s s') ∧
  device_extended nodeId expiresAt target d id s s'.
Proof using All.
  intros Hr (I & E & O & N) Hsame (row & Hd & Hu & Hact)%active_devices_elem.
  unfold extend_access in Hr.
  assert (Hns : db_nodes s !! nodeId = Some n) by (by rewrite (proj1 O)).
  assert (Hds : db_devices s !! d = Some row) by (destruct O as (_ & _ & -> & _); done).
  destruct (map_get d byDevice) as [[gid g]|] eqn:Hm.
  - apply Hby in Hm as [(Hg & Hgn & Hgd) _]. apply (Hsame gid g Hgn Hgd) in Hg. ok_inv Hr.
    destruct (run_grant_update X _ _ _ _ _ _ Hrun I) as (I' & E' & _ & Hs').
    { intros g' n' Hg' Hn' _. assert (g' = g) as -> by congruence.
      assert (n' = n) as -> by congruence. eapply sound_reschedule; [done..|].
      pose proof (grant_below _ _ _ _ _ I Hg Hn'). lia. }
    set (g' := reschedule_grant (Some expiresAt) target g).
    assert (Hgr : db_grants s0 = <[gid := g']> (db_grants s)).
    { rewrite Hs', set_grants_grants. apply map_eq. intros i. destruct (decide (i = gid)) as [->|Hne].
      - by rewrite lookup_alter_eq, lookup_insert_eq, Hg.
      - by rewrite lookup_alter_ne, lookup_insert_ne. }
    destruct (grant_written_frame nodeId d gid g' s s0 Hgr Hgn Hgd) as [Hother Hdev].
    { intros g0 Hg0. by assert (g0 = g) as -> by congruence. }
    split; [|split; [done|]].
    + split_and!; [done|by etrans| |by etrans]. etrans; [exact O|]. rewrite Hs'. apply same_others_grants.
    + split; [|intros Hno; exfalso; apply Hno; by exists gid, g].
      intros id0 g0 Hg0. destruct (grant_on_unique X s _ _ id0 gid g0 g I Hg0) as [-> ->]; [done|].
      split; [done|]. by rewrite Hgr, lookup_insert_eq.
  - assert (Hno : ¬ ∃ id0 g, grant_on s nodeId d id0 g).
    { intros (id0 & g & Hg & Hgn & Hgd). apply (Hsame id0 g Hgn Hgd) in Hg.
      assert (map_get d byDevice = Some (id0, g)); [|congruence]. apply Hby.
      split; [done|]. unfold of_user. rewrite Hgd, Hd. simpl. apply bool_decide_eq_true. congruence. }
    ok_inv Hr. apply with_pepper_ok in Hrun0 as [_ ->], Hrun1 as [_ ->].
    lazymatch type of Hrun2 with grant_create ?i ?r _ = (_, ?y) =>
      rename i into id; rename y into s'; set (g := r) in * end.
    apply randomUUID_ok in Hrun as [_ Hs0]. destruct (drawn_inv X _ I) as [I0 E0].
    rewrite <- Hs0 in I0, E0. pose proof (same_others_drawn S s) as Hsm. rewrite <- Hs0 in Hsm.
    assert (Hgs : db_grants s0 = db_grants s) by (by rewrite Hs0, drawn_grants).
    destruct (run_grant_create X id g n _ _ _ Hrun2 I0) as (I' & E' & Hnew & Hs').
    { by rewrite (proj1 Hsm). } { simpl. lia. } { done. } { done. } { done. }
    { exists row. split; [|done]. simpl. destruct Hsm as (_ & _ & -> & _). done. }
    assert (Hgr : db_grants s' = <[id := g]> (db_grants s)) by (by rewrite Hs', set_grants_grants, Hgs).
    destruct (grant_written_frame nodeId d id g s s' Hgr) as [Hother Hdev]; [done|done| |].
    { intros g0 Hg0. rewrite Hgs in Hnew. congruence. }
    split; [|split; [done|]].
    + split_and!; [done|by do 2 (etrans; [eassumption|])| |by etrans].
      etrans; [exact O|]. etrans; [exact Hsm|]. rewrite Hs'. apply same_others_grants.
    + split; [intros id0 g0 Hg0; exfalso; apply Hno; by exists id0, g0|]. intros _. exists g.
      split_and!; [|done..]. split_and!; [|done..]. by rewrite Hgr, lookup_insert_eq.
Qed.

(** The loop over the eligible devices. *)
Lemma extend_devices_safe devices ids s' :
  mapM (extend_access uuid hmac_sha256 environment byDevice nodeId expiresAt target) devices db1 =
    (Ok ids, s') →
  NoDup devices → (∀ d, d ∈ devices → d ∈ active_devices db1 userId) →
  within_node s' ∧ (∀ d, d ∉ devices → same_device nodeId d db1 s') ∧
  Forall2 (λ d id, device_extended nodeId expiresAt target d id db1 s') devices ids.
Proof using All.
  intros Hr Hnd Hdev.
  apply (mapM_separate (λ d : string, d) within_node (same_device nodeId)
    (λ d id, device_extended nodeId expiresAt target d id)) in Hr as (H1 & H2 & H3).
  - split_and!; [done| |done]. intros d Hd. apply H2. by rewrite list_fmap_id.
  - intros d id s0 s s1 s2. apply device_extended_frame.
  - intros d s id s1 Hd Hrun Hw Hs. apply extend_access_safe; [done..|by apply Hdev].
  - by rewrite list_fmap_id.
  - apply within_node_start.
Qed.
End device.

(** ** One node *)

Lemma set_nodes_tables f db :
  db_nodes (set_nodes f db) = f (db_nodes db) ∧ db_grants (set_nodes f db) = db_grants db ∧
  db_devices (set_nodes f db) = db_devices db ∧ db_subscriptions (set_nodes f db) = db_subscriptions db ∧
  db_jobs (set_nodes f db) = db_jobs db.
Proof. by destruct db. Qed.

(** A node's row and its grants are untouched. *)
Definition same_node (k : string) (db db' : Db) : Prop :=
  db_nodes db' !! k = db_nodes db !! k ∧
  (∀ id g, gr_nodeId g = k → (db_grants db !! id = Some g ↔ db_grants db' !! id = Some g)) ∧
  evolves db db'.
#[export] Instance same_node_preorder k : PreOrder (same_node k).
Proof.
  split; [by intros db|]. intros db1 db2 db3 (H1 & H2 & H3) (H4 & H5 & H6).
  split_and!; [congruence| |by etrans]. intros id g Hg. by rewrite (H2 id g Hg), (H5 id g Hg).
Qed.

(** The access the trial gives: what a device has on the node after it. *)
Definition trial_grant (expiresAt target : Z) (g : NodeAccessGrant) : Prop :=
  gr_status g = GRANT_PENDING ∧ gr_expiresAt g = expiresAt ∧ gr_desiredVersion g = target.

Record extended_on_node (input : TrialAccessInput) (devices : list string) (nodeId : string)
    (n : Node) (db db' : Db) : Prop := {
  ex_grants : ∀ id g, db_grants db !! id = Some g → gr_nodeId g = nodeId →
    db_grants db' !! id = Some (if bool_decide (gr_deviceId g ∈ devices) && live g
      then reschedule_grant (Some (ta_expiresAt input)) (n_desiredConfigVersion n + 1) g else g);
  ex_new : ∀ id g, db_grants db' !! id = Some g → gr_nodeId g = nodeId →
    (∃ g0, db_grants db !! id = Some g0 ∧ gr_nodeId g0 = nodeId) ∨
    (gr_deviceId g ∈ devices ∧ n_status n = NODE_HEALTHY ∧
     trial_grant (ta_expiresAt input) (n_desiredConfigVersion n + 1) g);
  ex_given : ∀ d, d ∈ devices → n_status n = NODE_HEALTHY → ∃ id g, grant_on db' nodeId d id g;
  ex_told : ∀ d, d ∈ devices →
    (n_status n = NODE_HEALTHY ∧ (¬ ∃ id g, grant_on db nodeId d id g)) ∨
    (∃ id g, grant_on db nodeId d id g ∧ live g = true) →
    db_nodes db' !! nodeId = Some (increment_desired n) ∧
    ∃ jid j, db_jobs db' !! jid = Some j ∧ j_nodeId j = nodeId ∧
      j_targetVersion j = n_desiredConfigVersion n + 1;
}.

Lemma same_node_grant_on k d id g db db' :
  same_node k db db' → grant_on db k d id g ↔ grant_on db' k d id g.
Proof.
  intros (_ & Hs & _). unfold grant_on. split; intros (Hg & Hk & Hd); (split; [|done]); by apply (Hs id g Hk).
Qed.

Lemma extended_frame input devices nodeId n db0 db db' db2 :
  same_node nodeId db0 db → extended_on_node input devices nodeId n db db' → same_node nodeId db' db2 →
  extended_on_node input devices nodeId n db0 db2.
Proof.
  intros Hl [H1 H2 H3 H4] Hr. pose proof Hl as (Ll & Lg & Le). pose proof Hr as (Rl & Rg & Re). split.
  - intros id g Hg Hn. apply Rg; [by destruct (_ && _)|]. apply H1; [|done]. by apply (Lg id g Hn).
  - intros id g Hg Hn. apply (Rg id g Hn) in Hg. destruct (H2 id g Hg Hn) as [(g0 & Hg0 & Hn0)|]; [left|by right].
    exists g0. split; [|done]. by apply (Lg id g0 Hn0).
  - intros d Hd Hst. destruct (H3 d Hd Hst) as (id & g & Hg). exists id, g. by apply (same_node_grant_on _ _ _ _ _ _ Hr).
  - intros d Hd Hcase. destruct (H4 d Hd) as (Hn & jid & j & Hj & Hjn & Hjt).
    + destruct Hcase as [[Hst Hno]|(id & g & Hg & Hlv)]; [left|right].
      * split; [done|]. intros (id & g & Hg). apply Hno. exists id, g. by apply (same_node_grant_on _ _ _ _ _ _ Hl).
      * exists id, g. split; [|done]. by apply (same_node_grant_on _ _ _ _ _ _ Hl).
    + split; [congruence|]. destruct (ev_jobs _ _ Re _ _ Hj) as (j' & Hj' & E1 & E2 & _ & _ & _ & E3 & _).
      exists jid, j'. split_and!; [done|congruence|congruence].
Qed.

Section node.
Context (input : TrialAccessInput) (db0 : Db).
Let devices := active_devices db0 (ta_userId input).

Definition within_trial (s : Db) : Prop :=
  Inv nothing s ∧ evolves db0 s ∧ db_devices s = db_devices db0 ∧
  db_subscriptions s = db_subscriptions db0.

(** Which devices of the user are eligible on the node. *)
Lemma eligible_spec X db nodeId n d row :
  Inv X db → db_devices db !! d = Some row → dv_userId row = ta_userId input →
  eligible (grantsByDevice db (ta_userId input) nodeId) (n_status n) d = true ↔
  (n_status n = NODE_HEALTHY ∧ ¬ ∃ id g, grant_on db nodeId d id g) ∨
  (∃ id g, grant_on db nodeId d id g ∧ live g = true).
Proof.
  intros Hinv Hd Hu.
  assert (Hof : ∀ id g, grant_on db nodeId d id g → of_user db (ta_userId input) g = true).
  { intros id g (_ & _ & Hgd). unfold of_user. rewrite Hgd, Hd. simpl. apply bool_decide_eq_true. congruence. }
  unfold eligible. destruct (map_get d _) as [[id g]|] eqn:Hm.
  - apply (grantsByDevice_get X) in Hm as [Hg _]; [|done]. split; [intros Hl; right; by exists id, g|].
    intros [[_ Hno]|(id' & g' & Hg' & Hl)]; [exfalso; eauto|].
    by destruct (grant_on_unique X db _ _ _ _ _ _ Hinv Hg Hg') as [-> ->].
  - assert (Hno : ¬ ∃ id g, grant_on db nodeId d id g).
    { intros (id & g & Hg). assert (map_get d (grantsByDevice db (ta_userId input) nodeId) = Some (id, g));
        [|congruence]. apply (grantsByDevice_get X); [done|]. eauto. }
    rewrite bool_decide_eq_true. split; [by left|]. intros [[? _]|(id & g & Hg & _)]; [done|].
    exfalso. eauto.
Qed.

Lemma extended_quiet X db nodeId n :
  Inv X db → db_devices db = db_devices db0 →
  filter (λ d, eligible (grantsByDevice db (ta_userId input) nodeId) (n_status n) d = true) devices = [] →
  extended_on_node input devices nodeId n db db.
Proof.
  intros Hinv Hdev Hnone.
  assert (Hno : ∀ d, d ∈ devices → ¬ ((n_status n = NODE_HEALTHY ∧ ¬ ∃ id g, grant_on db nodeId d id g) ∨
    (∃ id g, grant_on db nodeId d id g ∧ live g = true))).
  { intros d Hd Hc. pose proof Hd as (row & Hrow & Hu & _)%active_devices_elem. rewrite <- Hdev in Hrow.
    eapply eligible_spec in Hc; [|done..]. eapply not_elem_of_nil. rewrite <- Hnone.
    by apply list_elem_of_filter. }
  split.
  - intros id g Hg Hn. case_bool_decide as Hd; [|done]. destruct (live g) eqn:Hl; [|done].
    exfalso. eapply Hno; [exact Hd|]. right. by exists id, g.
  - intros id g Hg Hn. left. by exists g.
  - intros d Hd Hst. destruct (map_get d (grantsByDevice db (ta_userId input) nodeId)) as [[id g]|] eqn:Hm.
    { apply (grantsByDevice_get X) in Hm as [Hg _]; [|done]. by exists id, g. }
    exfalso. pose proof Hd as (row & Hrow & Hu & _)%active_devices_elem. rewrite <- Hdev in Hrow.
    eapply Hno; [exact Hd|]. eapply eligible_spec; [done..|]. unfold eligible. rewrite Hm.
    by apply bool_decide_eq_true.
  - intros d Hd Hc. exfalso. by eapply Hno.
Qed.

(** What the loop over the eligible devices comes to. *)
Lemma extended_busy nodeId n eligibles db db1 s ids db' :
  Inv nothing db → db_devices db = db_devices db0 →
  db_grants db1 = db_grants db → NoDup eligibles →
  (∀ d, d ∈ eligibles ↔ d ∈ devices ∧
     eligible (grantsByDevice db (ta_userId input) nodeId) (n_status n) d = true) →
  within_node nothing db1 nodeId s →
  (∀ d, d ∉ eligibles → same_device nodeId d db1 s) →
  Forall2 (λ d id, device_extended nodeId (ta_expiresAt input) (n_desiredConfigVersion n + 1) d id db1 s)
    eligibles ids →
  db_grants db' = db_grants s → db_nodes db' !! nodeId = Some (increment_desired n) →
  (∃ jid j, db_jobs db' !! jid = Some j ∧ j_nodeId j = nodeId ∧
     j_targetVersion j = n_desiredConfigVersion n + 1) →
  extended_on_node input devices nodeId n db db'.
Proof.
  intros Hinv Hdev Hg1 Hnd Hel (Is & _ & _ & Hoth) Hsame Hall Hgs Hnode Hjob.
  assert (Hon : ∀ d id g, grant_on db1 nodeId d id g ↔ grant_on db nodeId d id g)
    by (intros; unfold grant_on; by rewrite Hg1).
  assert (Hext : ∀ d, d ∈ eligibles → ∃ id,
    device_extended nodeId (ta_expiresAt input) (n_desiredConfigVersion n + 1) d id db1 s).
  { intros d [i Hi]%list_elem_of_lookup. destruct (Forall2_lookup_l _ _ _ _ _ Hall Hi) as (id & _ & H).
    by exists id. }
  assert (Hspec : ∀ d, d ∈ devices → d ∈ eligibles ↔
    (n_status n = NODE_HEALTHY ∧ ¬ ∃ id g, grant_on db nodeId d id g) ∨
    (∃ id g, grant_on db nodeId d id g ∧ live g = true)).
  { intros d Hd. pose proof Hd as (row & Hrow & Hu & _)%active_devices_elem. rewrite <- Hdev in Hrow.
    rewrite Hel, <- eligible_spec by done. tauto. }
  split.
  - intros id g Hg Hn. rewrite Hgs. assert (Hgo : grant_on db nodeId (gr_deviceId g) id g) by (by split_and!).
    destruct (decide (gr_deviceId g ∈ eligibles)) as [He|He].
    + pose proof He as [Hd Hc]%Hel. assert (Hl : live g = true).
      { apply Hspec in He as [[_ Hno]|(id' & g' & Hg' & Hl)]; [exfalso; eauto| |done].
        by destruct (grant_on_unique nothing db _ _ _ _ _ _ Hinv Hgo Hg') as [-> ->]. }
      rewrite bool_decide_eq_true_2, Hl by done. simpl.
      destruct (Hext _ He) as (id' & H1 & _). by destruct (H1 id g) as [_ H]; [by apply Hon|].
    + assert (Hcond : bool_decide (gr_deviceId g ∈ devices) && live g = false).
      { case_bool_decide as Hd; [|done]. destruct (live g) eqn:Hl; [|done]. exfalso.
        apply He, Hspec; [done|]. right. by exists id, g. }
      rewrite Hcond. apply (Hsame _ He id g Hn eq_refl). by rewrite Hg1.
  - intros id g Hg Hn. rewrite Hgs in Hg. destruct (decide (gr_deviceId g ∈ eligibles)) as [He|He].
    + pose proof He as [Hd Hc]%Hel. destruct (Hext _ He) as (id' & H1 & H2).
      pose proof He as [[Hst Hno]|(id0 & g0 & Hg0 & Hl)]%Hspec; [| |done].
      * right. destruct H2 as (g' & Hg' & Hgrant). { intros (? & ? & ?%Hon). eauto. }
        assert (Hgo : grant_on s nodeId (gr_deviceId g) id g) by (by split_and!).
        destruct (grant_on_unique nothing s _ _ _ _ _ _ Is Hgo Hg') as [_ ->]. by split_and!.
      * left. destruct (H1 id0 g0) as [-> Hg2]; [by apply Hon|].
        assert (Hgo : grant_on s nodeId (gr_deviceId g) id g) by (by split_and!).
        assert (Hgo2 : grant_on s nodeId (gr_deviceId g) id0
          (reschedule_grant (Some (ta_expiresAt input)) (n_desiredConfigVersion n + 1) g0)).
        { destruct Hg0 as (_ & ? & ?). by split_and!. }
        destruct (grant_on_unique nothing s _ _ _ _ _ _ Is Hgo Hgo2) as [-> _].
        destruct Hg0 as (? & ? & _). by exists g0.
    + left. exists g. split; [|done]. rewrite <- Hg1. by apply (Hsame _ He id g Hn eq_refl).
  - intros d Hd Hst. destruct (decide (d ∈ eligibles)) as [He|He].
    + destruct (Hext _ He) as (id' & H1 & H2).
      destruct (map_get d (grantsByDevice db (ta_userId input) nodeId)) as [[id g]|] eqn:Hm.
      * apply (grantsByDevice_get nothing) in Hm as [Hg _]; [|done].
        destruct (H1 id g) as [-> Hg2]; [by apply Hon|]. eexists id, _. unfold grant_on. rewrite Hgs.
        destruct Hg as (_ & ? & ?). by split_and!.
      * destruct H2 as (g & Hg & _); [|exists id', g; unfold grant_on in *; by rewrite Hgs].
        intros (id & g & Hg%Hon). pose proof Hd as (row & Hrow & Hu & _)%active_devices_elem.
        assert (map_get d (grantsByDevice db (ta_userId input) nodeId) = Some (id, g)); [|congruence].
        apply (grantsByDevice_get nothing); [done|]. split; [done|]. unfold of_user.
        destruct Hg as (_ & _ & ->). rewrite Hdev, Hrow. simpl. apply bool_decide_eq_true. congruence.
    + destruct (map_get d (grantsByDevice db (ta_userId input) nodeId)) as [[id g]|] eqn:Hm.
      * apply (grantsByDevice_get nothing) in Hm as [(Hg & Hn & Hgd) _]; [|done].
        exists id, g. split_and!; [|done|done]. rewrite Hgs.
        apply (Hsame _ He id g Hn Hgd). by rewrite Hg1.
      * exfalso. apply He, Hel. split; [done|]. unfold eligible. rewrite Hm. by apply bool_decide_eq_true.
  - done.
Qed.

Context (uuid : nat → string) (hmac_sha256 : string → string → list Z).
Context (environment : ApiEnvironment) (now : Z).

Lemma extend_on_node_safe nodeId n s u s' :
  extend_on_node uuid hmac_sha256 environment input devices now (nodeId, n_status n) s = (Ok u, s') →
  within_trial s → db_nodes s !! nodeId = Some n →
  within_trial s' ∧ (∀ k, k ≠ nodeId → same_node k s s') ∧ extended_on_node input devices nodeId n s s'.
Proof.
  intros Hr (I & E & D & S) Hn. unfold extend_on_node in Hr. rewrite bind_get in Hr. cbv zeta in Hr.
  set (by_dev := grantsByDevice s (ta_userId input) nodeId) in *.
  destruct (filter _ devices) as [|e0 es] eqn:Hel.
  { ok_inv Hr. split; [by split_and!|]. split; [intros k _; reflexivity|].
    by apply (extended_quiet nothing). }
  rewrite <- Hel in Hr. set (els := filter _ devices) in *. ok_inv Hr.
  destruct (run_incrementNodeVersion nothing _ _ _ _ Hrun I) as (I1 & E1 & F1 & n' & Hn' & Hv & Hdb1).
  assert (n' = n) as -> by congruence.
  pose proof (set_nodes_tables <[nodeId := increment_desired n]> s) as (Hn1 & Hg1 & Hd1 & Hs1 & Hj1).
  rewrite <- Hdb1 in Hn1, Hg1, Hd1, Hs1, Hj1.
  pose proof (proj1 (node_checks_spec n) (iv_nodes _ _ I _ _ Hn)) as Hck.
  assert (Hels : ∀ d, d ∈ els ↔ d ∈ devices ∧ eligible by_dev (n_status n) d = true).
  { intros d. unfold els. rewrite list_elem_of_filter. tauto. }
  assert (Hnd : NoDup els) by apply NoDup_filter, active_devices_NoDup.
  assert (Hon : ∀ d id g, grant_on s0 nodeId d id g ↔ grant_on s nodeId d id g)
    by (intros; unfold grant_on; by rewrite Hg1).
  assert (Hby : ∀ d id g, map_get d by_dev = Some (id, g) ↔
    grant_on s0 nodeId d id g ∧ of_user s0 (ta_userId input) g = true).
  { intros d id g. unfold by_dev, of_user. rewrite (grantsByDevice_get nothing), Hon, Hd1 by done. done. }
  assert (Hact : ∀ d, d ∈ els → d ∈ active_devices s0 (ta_userId input)).
  { intros d [Hd _]%Hels. apply active_devices_elem. rewrite Hd1, D. by apply active_devices_elem. }
  subst a.
  destruct (extend_devices_safe uuid hmac_sha256 environment nothing s0 (ta_userId input) nodeId
    (increment_desired n) (ta_expiresAt input) (n_desiredConfigVersion n + 1) I1
    ltac:(by rewrite Hn1, lookup_insert_eq) eq_refl ltac:(lia) by_dev Hby _ _ _ Hrun0 Hnd Hact)
    as ((I2 & E2 & O2 & N2) & Hsm & Hall).
  pose proof O2 as (On & Oj & Od & _ & _ & Os).
  destruct (run_createNodeSyncOperation uuid nothing _ _ _ _ _ _ _ _ _ Hrun1 I2)
    as (I3 & E3 & N3 & D3 & G3 & _ & S3 & jobId & eventId & _ & J3 & _).
  { by eapply fresh_version_frame; [exact On|exact Oj|]. }
  destruct (run_audit nothing _ _ _ _ _ _ _ _ Hr I3) as (I4 & E4 & N4 & J4 & D4 & G4 & _ & _ & _ & S4).
  assert (Hev : evolves s s') by (etrans; [exact E1|]; etrans; [exact E2|]; by etrans).
  assert (Hnodes : db_nodes s' = <[nodeId := increment_desired n]> (db_nodes s)) by congruence.
  split; [split_and!; [done|by etrans|congruence|congruence]|]. split.
  - intros k Hk. split_and!; [by rewrite Hnodes, lookup_insert_ne| |done].
    intros id g Hg. rewrite G4, G3, <- Hg1. apply N2. congruence.
  - eapply (extended_busy nodeId n els s s0); [exact I|exact D|exact Hg1|exact Hnd|exact Hels| |exact Hsm|exact Hall| | |].
    + split; [exact I2|]. split; [exact E2|]. split; [exact O2|exact N2].
    + congruence.
    + by rewrite Hnodes, lookup_insert_eq.
    + eexists jobId, _. split; [by rewrite J4, J3, lookup_insert_eq|]. done.
Qed.

Lemma scheduleExistingDeviceAccess_safe u db' :
  scheduleExistingDeviceAccess uuid hmac_sha256 environment input now db0 = (Ok u, db') →
  Inv nothing db0 →
  Inv nothing db' ∧ evolves db0 db' ∧ db_devices db' = db_devices db0 ∧
  db_subscriptions db' = db_subscriptions db0 ∧
  (∀ nodeId n, db_nodes db0 !! nodeId = Some n → trial_node db0 (ta_userId input) nodeId n = true →
     extended_on_node input devices nodeId n db0 db') ∧
  ∀ nodeId, (∀ n, db_nodes db0 !! nodeId = Some n → trial_node db0 (ta_userId input) nodeId n = false) →
     same_node nodeId db0 db'.
Proof.
  intros Hr Hinv. unfold scheduleExistingDeviceAccess in Hr. rewrite bind_get in Hr.
  assert (Hstart : within_trial db0) by (by split_and!).
  fold devices in Hr. destruct devices as [|d0 ds] eqn:Hdevs.
  { ok_inv Hr. split_and!; [done..| |intros; reflexivity]. intros nodeId n Hn _.
    unfold devices in *. rewrite <- Hdevs. apply (extended_quiet nothing); [done|done|].
    unfold devices. by rewrite Hdevs. }
  rewrite <- Hdevs in *.
  apply (for_each_separate fst within_trial same_node (λ node s s', ∀ n,
    db_nodes db0 !! node.1 = Some n → extended_on_node input devices node.1 n s s')) in Hr
    as ((I & E & D & S) & Hsame & Hall).
  - split_and!; [done..| |].
    + intros nodeId n Hn Ht. apply (Hall (nodeId, n_status n)); [|done]. apply trial_nodes_elem. by exists n.
    + intros nodeId Hno. apply Hsame. intros ([k st] & -> & (n & Hn & _ & Ht)%trial_nodes_elem)%list_elem_of_fmap.
      simpl in *. by rewrite (Hno n Hn) in Ht.
  - intros [k st] s0 s s' s2 Hl HQ Hright n Hn. eapply extended_frame; [done| |done]. by apply HQ.
  - intros [nodeId st] s1 v s2 (n & Hn & <- & _)%trial_nodes_elem Hrun Hw [Hrow _].
    simpl in *. rewrite Hn in Hrow.
    destruct (extend_on_node_safe nodeId n _ _ _ Hrun Hw Hrow) as (Hw2 & Hs & Hx).
    split_and!; [done|done|]. intros n' Hn'. by assert (n' = n) as -> by congruence.
  - apply trial_nodes_NoDup.
  - done.
Qed.
End node.
