(* ===== verification/ControlFrame.v ===== *)
(** * What the control plane leaves of users' data

    The transactions of the control plane neither make nor remove devices and
    subscriptions.  A device changes only by its revocation, a subscription
    only in its status, away from ACTIVE.  A job's grant exists. *)

From stdpp Require Import pretty.
From S2P Require Import Prelude.
From S2P Require Import Keeps.
From S2P Require Import Json.
From S2P Require Import Sql.
From S2P Require Import OutboxStore.
From S2P Require Import NodeSyncStore.
From S2P Require Import NodeAgentContract.
From S2P Require Import XrayAccess.
From S2P Require Import ControlPlane.
From S2P Require Import DataPlaneCredential.
From S2P Require Import AccessPolicy.
From S2P Require Import ControlPlaneInvariant.
From S2P Require Import Orchestration.
From S2P Require Import NodeAgentApi.
From S2P Require Import SubscriptionAccess.
From S2P Require Import TrialAccess.
Open Scope Z_scope.

Definition subscription_kept (r r' : Subscription) : Prop :=
  sb_userId r' = sb_userId r ∧ sb_startsAt r' = sb_startsAt r ∧ sb_expiresAt r' = sb_expiresAt r ∧
  (r' = r ∨ subscription_checks r' = true ∧ sb_status r' ≠ SUB_ACTIVE) ∧
  (sb_status r = SUB_CANCELLED → r' = r).
Definition device_kept (d d' : Device) : Prop :=
  device_le d d' ∧ dv_displayName d' = dv_displayName d ∧ dv_platform d' = dv_platform d ∧
  dv_createdAt d' = dv_createdAt d.

#[export] Instance subscription_kept_preorder : PreOrder subscription_kept.
Proof.
  split; [intros r; split_and!; auto|]. intros r1 r2 r3 (?&?&?&H12&C12) (?&?&?&H23&C23).
  split_and!; [congruence..| |].
  - destruct H23 as [->|?]; [done|by right].
  - intros Hc. specialize (C12 Hc) as ->. auto.
Qed.
#[export] Instance device_kept_preorder : PreOrder device_kept.
Proof.
  split; [intros d; by split_and!|]. intros d1 d2 d3 (L&?&?&?) (L'&?&?&?).
  split_and!; [by etrans|congruence..].
Qed.

(** The same rows, changed along [R]. *)
Definition rows_kept {K A} `{Countable K} (R : A → A → Prop) (t t' : gmap K A) : Prop :=
  rows_evolve R t t' ∧ ∀ id, t !! id = None → t' !! id = None.
#[export] Instance rows_kept_preorder {K A} `{Countable K} (R : A → A → Prop) :
  PreOrder R → PreOrder (rows_kept (K:=K) R).
Proof.
  intros HR. split.
  - intros t. split; [reflexivity|done].
  - intros t1 t2 t3 [E1 N1] [E2 N2]. split; [by etrans|auto].
Qed.

(** Read backwards. *)
Lemma rows_kept_back {K A} `{Countable K} (R : A → A → Prop) (t t' : gmap K A) id r' :
  rows_kept R t t' → t' !! id = Some r' → ∃ r, t !! id = Some r ∧ R r r'.
Proof.
  intros [He Hn] Hr'. destruct (t !! id) as [r|] eqn:Hr; [|by rewrite (Hn _ Hr) in Hr'].
  destruct (He _ _ Hr) as (r2 & Hr2 & HR). exists r. split; [done|congruence].
Qed.

Lemma rows_kept_update {K A} `{Countable K} (R : A → A → Prop) `{!PreOrder R} (t : gmap K A) id old new :
  t !! id = Some old → R old new → rows_kept R t (<[id := new]> t).
Proof.
  intros Hold HR. split.
  - apply rows_evolve_insert; [done|]. intros r Hr. by assert (r = old) as -> by congruence.
  - intros id' Hn. rewrite lookup_insert_ne; [done|congruence].
Qed.

(** A job's grant exists ([NodeSyncJob_nodeAccessGrantId_nodeId_fkey]), and an
    idempotency key is that of a job. *)
Definition sourced (db : Db) : Prop :=
  (∀ jobId j grantId, db_jobs db !! jobId = Some j → j_nodeAccessGrantId j = Some grantId →
     is_Some (db_grants db !! grantId)) ∧
  ∀ key jobId, db_jobKeys db !! key = Some jobId → is_Some (db_jobs db !! jobId).

Record frame (db db' : Db) : Prop := {
  fr_subscriptions : rows_kept subscription_kept (db_subscriptions db) (db_subscriptions db');
  fr_devices : rows_kept device_kept (db_devices db) (db_devices db');
  fr_sourced : sourced db → sourced db';
}.
#[export] Instance frame_preorder : PreOrder frame.
Proof.
  split; [intros db; by split|]. intros db1 db2 db3 [] []. split; [by etrans|by etrans|auto].
Qed.

(** A statement on other tables. *)
Lemma frame_same db db' :
  db_subscriptions db' = db_subscriptions db → db_devices db' = db_devices db →
  (sourced db → sourced db') → frame db db'.
Proof. intros Hs Hd Hj. split; [by rewrite Hs|by rewrite Hd|done]. Qed.
Lemma sourced_same db db' :
  db_jobs db' = db_jobs db → db_jobKeys db' = db_jobKeys db → db_grants db' = db_grants db →
  sourced db → sourced db'.
Proof. unfold sourced. by intros -> -> ->. Qed.
Lemma frame_modify (f : Db → Db) :
  (∀ db, db_subscriptions (f db) = db_subscriptions db) → (∀ db, db_devices (f db) = db_devices db) →
  (∀ db, db_jobs (f db) = db_jobs db) → (∀ db, db_jobKeys (f db) = db_jobKeys db) →
  (∀ db, db_grants (f db) = db_grants db) → keeps (E:=ApiError) frame (modify f).
Proof. intros Hs Hd Hj Hk Hg. apply keeps_modify. intros db. apply frame_same; [done..|]. by apply sourced_same. Qed.

Ltac other_tables := solve [apply frame_modify; by intros []].

Section statements.
Context (uuid : nat → string).

Lemma randomUUID_frame : keeps frame (randomUUID uuid).
Proof. apply (frame_modify (set_drawn S)); by intros []. Qed.
Lemma node_update_frame id data : keeps frame (node_update id data).
Proof. unfold node_update. repeat (other_tables || keeps_step). Qed.
Lemma grant_create_frame id g : keeps frame (grant_create id g).
Proof.
  unfold grant_create. repeat keeps_step. apply keeps_modify. intros db.
  apply frame_same; [by destruct db..|]. intros [Hs Hk]. destruct db. simpl in *. split; [|done].
  intros jobId j grantId Hj Hg. simpl in *. destruct (decide (grantId = id)) as [->|Hne]; [rewrite lookup_insert_eq; eauto|].
  rewrite lookup_insert_ne by done. by eapply Hs.
Qed.
Lemma grants_update_frame sets p data : keeps frame (grants_update sets p data).
Proof.
  unfold grants_update. repeat keeps_step. apply keeps_modify. intros db.
  apply frame_same; [by destruct db..|]. intros [Hs Hk]. destruct db. simpl in *. split; [|done].
  intros jobId j grantId Hj Hg. simpl in *. rewrite map_lookup_imap. destruct (Hs jobId j grantId Hj Hg) as [g E]. simpl in E. rewrite E. simpl. eauto.
Qed.
Hint Resolve randomUUID_frame node_update_frame grant_create_frame grants_update_frame : keeps.
Lemma grant_update_frame sets id data : keeps frame (grant_update sets id data).
Proof. unfold grant_update. keeps. Qed.
Lemma grant_updateMany_frame sets ids data : keeps frame (grant_updateMany sets ids data).
Proof. unfold grant_updateMany. keeps. Qed.
Lemma job_create_frame nodeId r target key now : keeps frame (job_create uuid nodeId r target key now).
Proof.
  intros db. destruct (job_create uuid nodeId r target key now db) as [[id|e] db'] eqn:Hr; simpl.
  - pose proof Hr as (_ & _ & _ & ->)%job_create_ok. apply frame_same; [by destruct db..|].
    intros [Hs Hkeys]. unfold job_create in Hr. ok_inv Hr.
    apply orb_false_iff in Hguard1 as [_ Hsource%negb_false_iff].
    lazymatch type of Hrun with randomUUID _ _ = (Ok ?i, ?d) => rename i into id, d into db0 end.
    unfold randomUUID in Hrun. injection Hrun as Hid <-. destruct db as [? ? ? grants ? ? ? ? jobs].
    simpl in *. split; simpl.
    + intros jobId j grantId Hj Hg. apply lookup_insert_Some in Hj as [[<- <-]|[_ Hj]]; [|by eapply Hs].
      destruct r as [g|e p]; simpl in *; [|done]. injection Hg as ->.
      destruct (grants !! grantId) eqn:E; [by eexists|done].
    + intros k jobId [[<- <-]|[_ Hk]]%lookup_insert_Some; [rewrite lookup_insert_eq; eauto|].
      destruct (decide (jobId = id)) as [->|Hne]; [rewrite lookup_insert_eq; eauto|].
      rewrite lookup_insert_ne by done. by eapply Hkeys.
  - unfold job_create, throw_if in Hr. unfold mbind, M_bind, randomUUID, get in Hr.
    repeat match type of Hr with context [if ?b then _ else _] => destruct b end;
      simplify_eq/=; apply frame_same; by destruct db.
Qed.
Lemma event_create_frame topic at_ ai payload key now :
  keeps frame (event_create uuid topic at_ ai payload key now).
Proof. unfold event_create. repeat (other_tables || keeps_step). Qed.
Lemma audit_frame actor action entityType entityId metadata :
  keeps frame (audit actor action entityType entityId metadata).
Proof. unfold audit. other_tables. Qed.
Lemma endpoint_set_status_frame id st : keeps frame (endpoint_set_status id st).
Proof. unfold endpoint_set_status. repeat (other_tables || keeps_step). Qed.
Lemma profile_set_status_frame id st : keeps frame (profile_set_status id st).
Proof. unfold profile_set_status. repeat (other_tables || keeps_step). Qed.
Lemma route_create_frame e p nodeId : keeps frame (route_create e p nodeId).
Proof. unfold route_create. repeat (other_tables || keeps_step). Qed.
Lemma route_activate_frame e p v : keeps frame (route_activate e p v).
Proof. unfold route_activate. repeat (other_tables || keeps_step). Qed.
Lemma delivery_create_frame job hash d : keeps frame (delivery_create job hash d).
Proof. unfold delivery_create. repeat (other_tables || keeps_step). Qed.
Lemma ack_create_frame job a : keeps frame (ack_create job a).
Proof. unfold ack_create. repeat (other_tables || keeps_step). Qed.
Lemma with_pepper_frame {A} (o : option A) : keeps frame (with_pepper o).
Proof. unfold with_pepper. keeps. Qed.
Lemma find_frame {A} (column : Db → Table A) id : keeps frame (find column id).
Proof. unfold find. keeps. Qed.
Lemma job_by_key_frame key : keeps frame (job_by_key key).
Proof. unfold job_by_key. keeps. Qed.
Lemma event_by_key_frame key : keeps frame (event_by_key key).
Proof. unfold event_by_key. keeps. Qed.

(** A revocation is the one update of a device. *)
Lemma revoke_device_frame id now : keeps frame (device_update id (revoke_device now)).
Proof.
  intros db. unfold device_update. rewrite bind_get.
  destruct (db_devices db !! id) as [old|] eqn:Hold; [|reflexivity].
  unfold throw_if. destruct (negb _); [reflexivity|]. change ((ret tt ≫= ?k) ?s) with (k tt s).
  split; destruct db; simpl in *; [reflexivity| |done]. eapply rows_kept_update; [apply _|done|].
  by split_and!.
Qed.

(** The updates of a subscription take it away from ACTIVE. *)
Lemma subscription_update_frame id data db :
  (∀ old, db_subscriptions db !! id = Some old → subscription_checks (data old) = true →
     subscription_kept old (data old)) →
  frame db (subscription_update id data db).2.
Proof.
  intros Hk. unfold subscription_update. rewrite bind_get.
  destruct (db_subscriptions db !! id) as [old|] eqn:Hold; [|reflexivity].
  unfold throw_if. destruct (subscription_checks (data old)) eqn:Hc; [|reflexivity].
  change ((ret tt ≫= ?k) ?s) with (k tt s). cbv beta. destruct (_ && _); [reflexivity|].
  change ((ret tt ≫= ?k) ?s) with (k tt s). specialize (Hk old eq_refl Hc).
  split; destruct db; simpl in *; [|reflexivity|done]. eapply rows_kept_update; [apply _|done..].
Qed.
End statements.
#[export] Hint Resolve randomUUID_frame node_update_frame grant_create_frame grants_update_frame
  grant_update_frame grant_updateMany_frame job_create_frame event_create_frame audit_frame
  endpoint_set_status_frame profile_set_status_frame route_create_frame route_activate_frame
  delivery_create_frame ack_create_frame with_pepper_frame find_frame job_by_key_frame
  event_by_key_frame revoke_device_frame : keeps.

(** ** The transactions *)

Section transactions.
Context (uuid : nat → string) (hmac_sha256 : string → string → list Z).
Context (is_uuid : string → bool) (sha256 : json → string) `{DateStrings}.

Lemma schedule_frame provider input now :
  keeps frame (scheduleInTransaction uuid hmac_sha256 provider input now).
Proof. unfold scheduleInTransaction, schedule_existing, schedule_new. keeps. Qed.
Lemma revoke_frame userId deviceId now : keeps frame (revokeInTransaction uuid userId deviceId now).
Proof. unfold revokeInTransaction, revoke_device_grant. keeps. Qed.
Lemma change_status_frame target accepted action message nodeId actor :
  keeps frame (change_status target accepted action message nodeId actor).
Proof. unfold change_status. keeps. Qed.
Lemma quarantine_frame input now : keeps frame (quarantine uuid input now).
Proof. unfold quarantine, quarantine_existing, quarantine_new, quarantine_grants. keeps. Qed.
Lemma publish_frame input now : keeps frame (publishConnectionRoute uuid is_uuid input now).
Proof. unfold publishConnectionRoute, publish_existing, publish_new. keeps. Qed.
Lemma acknowledge_frame input now : keeps frame (acknowledgeNodeConfigInTransaction input now).
Proof. unfold acknowledgeNodeConfigInTransaction, applied_version, apply_grants. keeps. Qed.
Lemma snapshot_frame environment nodeId now :
  keeps frame (snapshotInTransaction hmac_sha256 sha256 environment nodeId now).
Proof. unfold snapshotInTransaction, snapshot_grant. keeps. Qed.
Lemma heartbeat_frame nodeId now : keeps frame (recordInTransaction nodeId now).
Proof. unfold recordInTransaction. keeps. Qed.
Lemma rotate_frame agentPepper nodeId secret now :
  keeps frame (rotate uuid hmac_sha256 agentPepper nodeId secret now).
Proof.
  unfold rotate, hashSecret, applied_version, revoke_credentials.
  repeat (other_tables || keeps_step).
Qed.
Lemma revokeCredential_frame nodeId now : keeps frame (revokeCredential nodeId now).
Proof. unfold revokeCredential, revoke_credentials. repeat (other_tables || keeps_step). Qed.

Lemma sync_operation_frame nodeId lead v key1 key2 now :
  keeps frame (createNodeSyncOperation uuid nodeId lead v key1 key2 now).
Proof. unfold createNodeSyncOperation. keeps. Qed.
Lemma increment_frame nodeId : keeps frame (incrementNodeVersion nodeId).
Proof. unfold incrementNodeVersion. keeps. Qed.
Lemma has_matching_frame nodeId lead key1 key2 :
  keeps frame (hasMatchingNodeSyncOperation nodeId lead key1 key2).
Proof. unfold hasMatchingNodeSyncOperation. keeps. Qed.
Hint Resolve sync_operation_frame increment_frame has_matching_frame : keeps.

Lemma expire_frame subscriptionId nodeId now :
  keeps frame (scheduleExpiredSubscriptionOnNode uuid subscriptionId nodeId now).
Proof. unfold scheduleExpiredSubscriptionOnNode. keeps. Qed.
Lemma reconcile_frame pepper nodeId missing now :
  keeps frame (reconcileOneNode uuid hmac_sha256 pepper nodeId missing now).
Proof. unfold reconcileOneNode, apply_change. keeps. Qed.
Lemma trial_frame environment input now :
  keeps frame (scheduleExistingDeviceAccess uuid hmac_sha256 environment input now).
Proof. unfold scheduleExistingDeviceAccess, extend_on_node, extend_access. keeps. Qed.

(** A bind whose first run is known. *)
Lemma frame_bind {A B} (m : DbM A) (k : A → DbM B) db :
  frame db (m db).2 → (∀ a, keeps frame (k a)) → frame db ((m ≫= k) db).2.
Proof.
  intros Hm Hk. unfold mbind, M_bind. destruct (m db) as [[a|e] db']; [|done]. etrans; [exact Hm|apply Hk].
Qed.

Lemma materialize_frame subscriptionId now :
  keeps frame (materializeExpiredSubscriptionStatus subscriptionId now).
Proof.
  intros db. unfold materializeExpiredSubscriptionStatus. rewrite bind_get.
  destruct (db_subscriptions db !! subscriptionId) as [s|] eqn:Hs; [|reflexivity].
  destruct (sb_expiresAt s); [|reflexivity]. destruct (negb _) eqn:Ha; [reflexivity|].
  destruct (now <? _); [reflexivity|]. apply frame_bind; [|intros; keeps].
  apply subscription_update_frame. intros old Hold Hc. assert (old = s) as -> by congruence.
  apply negb_false_iff, bool_decide_eq_true in Ha. split_and!; try done; [by right|congruence].
Qed.

Lemma cancel_frame subscriptionId now :
  keeps frame (cancelSubscriptionAccess uuid subscriptionId now).
Proof.
  apply keeps_atomically; [apply _|]. intros db. rewrite bind_get.
  destruct (db_subscriptions db !! subscriptionId) as [s|] eqn:Hs; [|reflexivity].
  case_bool_decide as Hst; [reflexivity|]. cbv zeta.
  apply frame_bind; [|intros; unfold cancel_on_node; keeps].
  apply subscription_update_frame. intros old Hold Hc. assert (old = s) as -> by congruence.
  split_and!; try done. by right.
Qed.
End transactions.
