(* ===== verification/ControlPlaneSystem.v ===== *)
(** * The control plane as one system

    The transactions of the services, of the worker's maintenance and of the
    node agents' endpoints, the statements of the worker on jobs and events,
    and the rows other components insert, interleaved in any order: every
    committed state satisfies the invariant, and states only evolve. *)

From stdpp Require Import pretty.
From S2P Require Import Prelude.
From S2P Require Import Json.
From S2P Require Import Sql.
From S2P Require OutboxStore.
From S2P Require NodeSyncStore.
From S2P Require Worker.
From S2P Require Import NodeAgentContract.
From S2P Require Import XrayAccess.
From S2P Require Import ControlPlane.
From S2P Require Import DataPlaneCredential.
From S2P Require Import AccessPolicy.
From S2P Require Import ControlPlaneInvariant.
From S2P Require Import Orchestration.
From S2P Require Import OrchestrationSafety.
From S2P Require Import NodeAgentApi.
From S2P Require Import NodeAgentApiSafety.
From S2P Require Import SubscriptionAccess.
From S2P Require Import SubscriptionAccessSafety.
From S2P Require Import Reconciliation.
From S2P Require Import AccessMaintenance.
From S2P Require Import TrialAccess.
From S2P Require Import TrialAccessSafety.
Import OutboxStore NodeSyncStore.
Open Scope Z_scope.

(** ** Rows other components insert *)

(** A new node has no configuration yet. *)
Lemma node_inserted_inv id n db :
  Inv nothing db → db_nodes db !! id = None → n_desiredConfigVersion n = 0 →
  n_appliedConfigVersion n = 0 →
  Inv nothing (set_nodes <[id := n]> db) ∧ evolves db (set_nodes <[id := n]> db).
Proof.
  intros [Nnodes Napplied Ngrants Nowners Npairs Njobs Nunique Nannounced Ndeliveries Nacks Nroutes] Hnew Hd Ha.
  assert (Hkeep : ∀ i n', db_nodes db !! i = Some n' → <[id := n]> (db_nodes db) !! i = Some n')
    by (intros i n' Hi; rewrite lookup_insert_ne; congruence).
  assert (H1 : map_Forall (λ _ n, node_checks n = true) (<[id := n]> (db_nodes db))).
  { apply map_Forall_insert_2; [|done]. apply node_checks_spec. lia. }
  assert (H2 : map_Forall (applied_ok (db_acks db)) (<[id := n]> (db_nodes db))).
  { apply map_Forall_insert_2; [by left|done]. }
  assert (H3 : map_Forall (λ _, grant_ok (<[id := n]> (db_nodes db))) (db_grants db)).
  { intros gid g Hg. destruct (Ngrants gid g Hg) as (Hc & n' & Hn' & Hrest). split; [done|].
    exists n'. split; [by apply Hkeep|done]. }
  assert (H4 : map_Forall (job_ok (<[id := n]> (db_nodes db))) (db_jobs db)).
  { intros jid j Hj. destruct (Njobs jid j Hj) as (Hc & Hid & n' & Hn' & Hle). split_and!; [done|done|].
    exists n'. split; [by apply Hkeep|done]. }
  assert (H5 : map_Forall (ack_ok nothing (set_nodes (λ _, <[id := n]> (db_nodes db)) db)) (db_acks db)).
  { intros job a Hja. destruct (Nacks job a Hja) as (Hj & Hdl & [[]|(n' & Hn' & Hle)]).
    db_cases db. split_and!; [done|done|]. right. exists n'. split; [by apply Hkeep|done]. }
  assert (H6 : map_Forall (route_ok (set_nodes (λ _, <[id := n]> (db_nodes db)) db)) (db_routes db)).
  { intros k r Hr. destruct (Nroutes k r Hr) as (n' & en & pr & Hn' & Hrest). db_cases db.
    exists n', en, pr. split; [by apply Hkeep|done]. }
  assert (H7 : rows_evolve node_le (db_nodes db) (<[id := n]> (db_nodes db))).
  { apply rows_evolve_insert; [apply _|]. congruence. }
  cols db.
Qed.

Lemma device_inserted_inv id d db :
  Inv nothing db → db_devices db !! id = None →
  Inv nothing (set_devices <[id := d]> db) ∧ evolves db (set_devices <[id := d]> db).
Proof.
  intros [Nnodes Napplied Ngrants Nowners Npairs Njobs Nunique Nannounced Ndeliveries Nacks Nroutes] Hnew.
  assert (H1 : map_Forall (λ _, owner_ok nothing (<[id := d]> (db_devices db))) (db_grants db)).
  { intros gid g Hg. destruct (Nowners gid g Hg) as (d' & Hd' & Hr). exists d'.
    split; [|done]. rewrite lookup_insert_ne; congruence. }
  assert (H2 : rows_evolve device_le (db_devices db) (<[id := d]> (db_devices db))).
  { apply rows_evolve_insert; [apply _|]. congruence. }
  cols db.
Qed.

Lemma endpoint_inserted_inv id en db :
  Inv nothing db → db_endpoints db !! id = None →
  Inv nothing (set_endpoints <[id := en]> db) ∧ evolves db (set_endpoints <[id := en]> db).
Proof.
  intros [Nnodes Napplied Ngrants Nowners Npairs Njobs Nunique Nannounced Ndeliveries Nacks Nroutes] Hnew.
  assert (H1 : map_Forall (route_ok (set_endpoints (λ _, <[id := en]> (db_endpoints db)) db)) (db_routes db)).
  { intros k r Hr. destruct (Nroutes k r Hr) as (n & e & pr & Hn & He & Hrest). db_cases db.
    exists n, e, pr. split; [done|]. split; [simpl; rewrite lookup_insert_ne; congruence|done]. }
  cols db.
Qed.

Lemma profile_inserted_inv id pr db :
  Inv nothing db → db_profiles db !! id = None →
  Inv nothing (set_profiles <[id := pr]> db) ∧ evolves db (set_profiles <[id := pr]> db).
Proof.
  intros [Nnodes Napplied Ngrants Nowners Npairs Njobs Nunique Nannounced Ndeliveries Nacks Nroutes] Hnew.
  assert (H1 : map_Forall (route_ok (set_profiles (λ _, <[id := pr]> (db_profiles db)) db)) (db_routes db)).
  { intros k r Hr. destruct (Nroutes k r Hr) as (n & e & p & Hn & He & Hen & Hp & Hrest). db_cases db.
    exists n, e, p. do 3 (split; [done|]). split; [simpl; rewrite lookup_insert_ne; congruence|done]. }
  cols db.
Qed.

Lemma config_inserted_inv id c db :
  Inv nothing db →
  Inv nothing (set_publicConfigs <[id := c]> db) ∧ evolves db (set_publicConfigs <[id := c]> db).
Proof.
  intros [Nnodes Napplied Ngrants Nowners Npairs Njobs Nunique Nannounced Ndeliveries Nacks Nroutes].
  assert (H1 : map_Forall (route_ok (set_publicConfigs (λ _, <[id := c]> (db_publicConfigs db)) db))
                 (db_routes db)).
  { intros k r Hr. destruct (Nroutes k r Hr) as (n & e & p & Hn & He & Hen & Hp & Hpn & Hle & Hact).
    db_cases db. exists n, e, p. do 6 (split; [done|]). intros v Hv.
    destruct (Hact v Hv) as (? & ? & ? & ? & ? & Hcfg & ?). split_and!; try done. simpl.
    destruct (decide (k.2 = id)) as [->|Hne]; [rewrite lookup_insert_eq; eauto|].
    by rewrite lookup_insert_ne. }
  cols db.
Qed.

(** ** Statements of the worker *)

(** An UPDATE writes nothing, or rows that are neither frozen nor invalid. *)
Lemma sql_update_rows {Row} (checks frozen : Row → bool) p f (t : Table Row) id r :
  t !! id = Some r →
  ∃ r', (sql_update checks frozen p f t).2 !! id = Some r' ∧
    (r' = r ∨ (frozen r = false ∧ checks (f r) = true ∧ r' = f r)).
Proof.
  intros Hr. unfold sql_update.
  destruct (existsb frozen (rows (sql_where p t))) eqn:Hf; [by exists r; auto|].
  destruct (forallb _ _) eqn:Hc; simpl; [|by exists r; auto].
  rewrite sql_set_lookup, Hr. simpl. eexists. split; [done|].
  destruct (p r) eqn:Hp; [right|by left].
  assert (Hin : r ∈ rows (sql_where p t)) by (apply rows_where; eauto).
  split_and!; [|by eapply forallb_forall in Hc; [|by apply list_elem_of_In]|done].
  apply not_true_iff_false. intros Hfr. apply not_true_iff_false in Hf. apply Hf, existsb_exists.
  exists r. split; [by apply list_elem_of_In|done].
Qed.

Lemma sql_update_None {Row} (checks frozen : Row → bool) p f (t : Table Row) id :
  t !! id = None → (sql_update checks frozen p f t).2 !! id = None.
Proof.
  intros Hr. unfold sql_update. destruct (existsb _ _); [done|]. destruct (forallb _ _); [|done].
  simpl. by rewrite sql_set_lookup, Hr.
Qed.

(** A table of jobs whose rows keep what the invariant speaks of. *)
Definition jobs_kept (t t' : Table NodeSyncJob) : Prop :=
  (∀ id, t !! id = None → t' !! id = None) ∧
  ∀ id j, t !! id = Some j → ∃ j', t' !! id = Some j' ∧ same_job j j' ∧
    (job_checks j = true → job_checks j' = true).

Lemma jobs_kept_inv f db :
  Inv nothing db → jobs_kept (db_jobs db) (f (db_jobs db)) →
  Inv nothing (set_jobs f db) ∧ evolves db (set_jobs f db).
Proof.
  intros Hinv [Hnone Hsome].
  destruct Hinv as [Nnodes Napplied Ngrants Nowners Npairs Njobs Nunique Nannounced Ndeliveries Nacks Nroutes].
  assert (Hback : ∀ id j', f (db_jobs db) !! id = Some j' → ∃ j, db_jobs db !! id = Some j ∧
    same_job j j' ∧ job_checks j' = true).
  { intros id j' Hj'. destruct (db_jobs db !! id) as [j|] eqn:Hj; [|by rewrite (Hnone _ Hj) in Hj'].
    destruct (Hsome id j Hj) as (j2 & Hj2 & Hs & Hc). assert (j2 = j') as -> by congruence.
    exists j. split_and!; [done|done|]. apply Hc. by destruct (Njobs id j Hj). }
  assert (H1 : map_Forall (job_ok (db_nodes db)) (f (db_jobs db))).
  { intros id j' (j & Hj & (E1 & E2 & _ & _ & _ & E3 & _) & Hc)%Hback.
    destruct (Njobs id j Hj) as (_ & Hid & n & Hn & Hle). split_and!; [done|congruence|].
    exists n. rewrite E2, E3. done. }
  assert (H2 : ∀ id1 id2 j1 j2, f (db_jobs db) !! id1 = Some j1 → f (db_jobs db) !! id2 = Some j2 →
    j_nodeId j1 = j_nodeId j2 → j_targetVersion j1 = j_targetVersion j2 → id1 = id2).
  { intros id1 id2 j1' j2' (j1 & Hj1 & (_ & E1 & _ & _ & _ & T1 & _) & _)%Hback
      (j2 & Hj2 & (_ & E2 & _ & _ & _ & T2 & _) & _)%Hback Hn Ht.
    eapply (Nunique id1 id2 j1 j2); congruence. }
  assert (H3 : map_Forall (λ id j, x_job nothing id ∨ announced (db_eventKeys db) (db_events db) id j)
    (f (db_jobs db))).
  { intros id j' (j & Hj & Hsame & _)%Hback.
    destruct (Nannounced id j Hj) as [[]|(r & key & k & e & Hr & Hk & He & Ht & Hp)].
    right. exists r, key, k, e. rewrite (same_resource r j j' Hsame).
    destruct Hsame as (_ & _ & _ & _ & _ & -> & _). by split_and!. }
  assert (H4 : map_Forall (delivery_ok (f (db_jobs db))) (db_deliveries db)).
  { intros k d Hd. destruct (Ndeliveries k d Hd) as (Hh & j & Hj & Hn & Ht). split; [done|].
    destruct (Hsome _ j Hj) as (j' & Hj' & (_ & E2 & _ & _ & _ & E3 & _) & _).
    exists j'. split_and!; congruence. }
  assert (H5 : map_Forall (ack_ok nothing (set_jobs f db)) (db_acks db)).
  { intros job a Ha. destruct (Nacks job a Ha) as ((j & Hj & Hst & Hn & Ht) & Hd & Hap).
    destruct (Hsome _ j Hj) as (j' & Hj' & (_ & E2 & _ & _ & _ & E3 & E4) & _). db_cases db.
    split_and!; [|done|done]. exists j'. split_and!; try done; [by apply E4|congruence|congruence]. }
  assert (H6 : map_Forall (route_ok (set_jobs f db)) (db_routes db)).
  { intros k r Hr. destruct (Nroutes k r Hr) as (n & e & p & Hn & He & Hen & Hp & Hpn & Hle & Hact).
    db_cases db. exists n, e, p. do 6 (split; [done|]). intros v Hv.
    destruct (Hact v Hv) as (? & ? & ? & ? & ? & ? & id & j & Hj & Hjn & Hjr & Hjt).
    destruct (Hsome _ j Hj) as (j' & Hj' & Hsame & _).
    split_and!; try done. exists id, j'. rewrite (same_resource _ _ _ Hsame).
    destruct Hsame as (_ & -> & _ & _ & _ & -> & _). by split_and!. }
  assert (H7 : rows_evolve same_job (db_jobs db) (f (db_jobs db))).
  { intros id j Hj. destruct (Hsome id j Hj) as (j' & Hj' & Hsame & _). by exists j'. }
  cols db.
Qed.

(** What the claiming statements join. *)
Definition context_of (db : Db) : SyncContext :=
  {| ctx_grants := (λ g, {| gc_nodeId := gr_nodeId g; gc_desiredVersion := gr_desiredVersion g |})
                     <$> db_grants db;
     ctx_routes := db_routes db; ctx_nodes := n_desiredConfigVersion <$> db_nodes db |}.
Definition reads (db : Db) (a : sync_action) : Prop :=
  match a with SLease ctx _ _ _ _ | SClose ctx _ _ => ctx = context_of db | _ => True end.

Lemma action_set_same lease delay max a j :
  job_terminal j = false → same_job j (action_set lease delay max a j).
Proof.
  intros Ht%job_terminal_false. unfold same_job.
  assert (Hns : j_status j ≠ JOB_SUCCEEDED) by (destruct Ht; congruence).
  destruct a; simpl; split_and!; done.
Qed.

Lemma statement_kept lease delay max a t :
  jobs_kept t (statement lease delay max a t).2.
Proof.
  split.
  - intros id. apply sql_update_None.
  - intros id j Hj. destruct (sql_update_rows job_checks job_terminal (action_where max a)
      (action_set lease delay max a) t id j Hj) as (j' & Hj' & [->|(Hf & Hc & ->)]).
    + exists j. split; [done|]. split; [reflexivity|done].
    + eexists. split; [exact Hj'|]. split; [by apply action_set_same|done].
Qed.

(** A table of events whose rows keep their topic and payload. *)
Definition events_kept (t t' : Table OutboxEvent) : Prop :=
  ∀ id e, t !! id = Some e → ∃ e', t' !! id = Some e' ∧ same_event e e'.

Lemma events_kept_inv f db :
  Inv nothing db → events_kept (db_events db) (f (db_events db)) →
  Inv nothing (set_events f db) ∧ evolves db (set_events f db).
Proof.
  intros [Nnodes Napplied Ngrants Nowners Npairs Njobs Nunique Nannounced Ndeliveries Nacks Nroutes] Hkept.
  assert (H1 : map_Forall (λ id j, x_job nothing id ∨
    announced (db_eventKeys db) (f (db_events db)) id j) (db_jobs db)).
  { intros id j Hj. destruct (Nannounced id j Hj) as [[]|(r & key & k & e & Hr & Hk & He & Ht & Hp)].
    destruct (Hkept _ e He) as (e' & He' & Et & Ep). right.
    exists r, key, k, e'. split_and!; congruence. }
  assert (H2 : rows_evolve same_event (db_events db) (f (db_events db))) by exact Hkept.
  cols db.
Qed.

Lemma outbox_update_kept p f t :
  (∀ r, same_event r (f r)) → events_kept t (sql_update outbox_checks outbox_terminal p f t).2.
Proof.
  intros Hf id e He.
  destruct (sql_update_rows outbox_checks outbox_terminal p f t id e He) as (e' & He' & [->|(_ & _ & ->)]).
  - exists e. split; [done|reflexivity].
  - eauto.
Qed.

(** The publisher's statements; the API's transactions insert the events. *)
Definition publisher_action (a : outbox_action) : Prop :=
  match a with AInsert _ _ _ _ => False | _ => True end.

Lemma events_kept_refl t : events_kept t t.
Proof. intros id e He. exists e. split; [done|reflexivity]. Qed.

(** A continuation that only returns leaves the state. *)
Lemma bind_pure_state {S E A B} (m : M S E A) (k : A → M S E B) s :
  (∀ a s, (k a s).2 = s) → ((m ≫= k) s).2 = (m s).2.
Proof. intros Hk. unfold mbind, M_bind. destruct (m s) as [[a|] s']; [apply Hk|done]. Qed.

Lemma perform_kept lease delay max ids a t :
  publisher_action a → events_kept t (perform lease delay max ids a t).2.
Proof.
  destruct a as [id topic payload now|now|owner token now locked|id owner token now|id owner token code now];
    intros Ha; [done|..]; cbn [perform]; rewrite bind_pure_state by done.
  - unfold OutboxStore.reclaimExpiredLeases. rewrite bind_pure_state by done. by apply outbox_update_kept.
  - unfold claimNext. rewrite bind_gets. destruct (candidate _ _ _ _ _) as [c|];
      [|apply events_kept_refl]. rewrite bind_pure_state by done. by apply outbox_update_kept.
  - unfold markPublished. rewrite bind_pure_state by done. by apply outbox_update_kept.
  - unfold OutboxStore.retry. rewrite bind_pure_state by done. by apply outbox_update_kept.
Qed.

(** ** The system *)

Section system.
Context (uuid : nat → string) (hmac_sha256 : string → string → list Z).
Context (is_uuid : string → bool) (sha256 : json → string) `{DateStrings}.
Context (environment : ApiEnvironment) (agentPepper : option string) (credentialPepper : string).
(** The worker's configuration. *)
Context (syncLease syncDelay syncMax outboxLease outboxDelay outboxMax : Z).
Context (eventIds : option (list string)).

(** The transactions of the API and of the worker's maintenance. *)
Inductive transaction : ∀ A, DbM A → Prop :=
| TSchedule input now : transaction _ (schedule uuid hmac_sha256 (Some environment) input now)
| TRevoke userId deviceId now : transaction _ (revoke uuid userId deviceId now)
| TRestore nodeId actor : transaction _ (restoreHealthy nodeId actor)
| TDrain nodeId actor : transaction _ (drain nodeId actor)
| TDisable nodeId actor : transaction _ (disable nodeId actor)
| TQuarantine input now : transaction _ (quarantine uuid input now)
| TPublish input now : transaction _ (publishConnectionRoute uuid is_uuid input now)
| TAcknowledge input now : transaction _ (acknowledgeNodeConfig input now)
| TSnapshot nodeId now :
    transaction _ (atomically (snapshotInTransaction hmac_sha256 sha256 environment nodeId now))
| THeartbeat nodeId now : transaction _ (atomically (recordInTransaction nodeId now))
| TRotate nodeId secret now : transaction _ (rotate uuid hmac_sha256 agentPepper nodeId secret now)
| TRevokeCredential nodeId now : transaction _ (revokeCredential nodeId now)
| TExpire subscriptionId nodeId now :
    transaction _ (atomically (scheduleExpiredSubscriptionOnNode uuid subscriptionId nodeId now))
| TMaterialize subscriptionId now :
    transaction _ (atomically (materializeExpiredSubscriptionStatus subscriptionId now))
| TCancel subscriptionId now : transaction _ (cancelSubscriptionAccess uuid subscriptionId now)
| TReconcile nodeId includeMissing now :
    transaction _ (atomically (reconcileOneNode uuid hmac_sha256 credentialPepper nodeId
                                 includeMissing now))
| TTrial input now :
    transaction _ (scheduleExistingDeviceAccess uuid hmac_sha256 environment input now).

(** A step: a transaction that commits, a statement of the worker, a row
    another component inserts, or what a larger transaction does besides: a
    drawn identifier, audit rows. *)
Inductive step : relation Db :=
| StepCommit A (m : DbM A) a db db' : transaction A m → m db = (Ok a, db') → step db db'
| StepJobs a db : reads db a →
    step db (set_jobs (λ t, (statement syncLease syncDelay syncMax a t).2) db)
| StepEvents a db : publisher_action a →
    step db (set_events (λ t, (perform outboxLease outboxDelay outboxMax eventIds a t).2) db)
| StepNode id n db : db_nodes db !! id = None → n_desiredConfigVersion n = 0 →
    n_appliedConfigVersion n = 0 → step db (set_nodes <[id := n]> db)
| StepDevice id d db : db_devices db !! id = None → step db (set_devices <[id := d]> db)
| StepSubscriptions f db : step db (set_subscriptions f db)
| StepEndpoint id en db : db_endpoints db !! id = None → step db (set_endpoints <[id := en]> db)
| StepProfile id pr db : db_profiles db !! id = None → step db (set_profiles <[id := pr]> db)
| StepConfig id c db : step db (set_publicConfigs <[id := c]> db)
| StepDrawn db : step db (set_drawn S db)
| StepAudit rows db : step db (set_audit (λ l, l ++ rows) db).

Definition reachable (db : Db) : Prop := rtc step empty_db db.

Lemma commit_inv A (m : DbM A) a db db' :
  transaction A m → m db = (Ok a, db') → Inv nothing db → Inv nothing db' ∧ evolves db db'.
Proof.
  intros Ht Hr Hinv. destruct Ht;
    first [apply (atomically_ok_inv (scheduleInTransaction _ _ _ _ _)) in Hr
          |apply (atomically_ok_inv (revokeInTransaction _ _ _ _)) in Hr
          |apply (atomically_ok_inv (change_status _ _ _ _ _ _)) in Hr
          |apply (atomically_ok_inv (acknowledgeNodeConfigInTransaction _ _)) in Hr
          |apply (atomically_ok_inv (snapshotInTransaction _ _ _ _ _)) in Hr
          |apply (atomically_ok_inv (recordInTransaction _ _)) in Hr
          |apply (atomically_ok_inv (scheduleExpiredSubscriptionOnNode _ _ _ _)) in Hr
          |apply (atomically_ok_inv (materializeExpiredSubscriptionStatus _ _)) in Hr
          |apply (atomically_ok_inv (reconcileOneNode _ _ _ _ _ _)) in Hr|idtac].
  - by destruct (scheduleInTransaction_safe _ _ _ _ _ _ _ _ Hr Hinv) as (I & E & _).
  - by destruct (revokeInTransaction_safe _ _ _ _ _ _ _ Hr Hinv) as (I & E & _).
  - by destruct (change_status_safe _ _ _ _ _ _ _ _ _ Hr Hinv) as (I & E & _); [set_solver|].
  - by destruct (change_status_safe _ _ _ _ _ _ _ _ _ Hr Hinv) as (I & E & _); [set_solver|].
  - by destruct (change_status_safe _ _ _ _ _ _ _ _ _ Hr Hinv) as (I & E & _); [set_solver|].
  - by destruct (quarantine_safe _ _ _ _ _ _ Hr Hinv) as (I & E & _).
  - by destruct (publish_safe _ _ _ _ _ _ _ Hr Hinv) as (I & E & _).
  - by destruct (acknowledge_safe _ _ _ _ _ Hr Hinv) as (I & E & _).
  - by destruct (snapshot_safe _ _ _ _ _ _ _ _ Hr Hinv) as (I & E & _).
  - by destruct (heartbeat_safe _ _ _ _ _ Hr Hinv) as (I & E & _).
  - destruct a as [id s]. by destruct (rotate_ok _ _ _ _ _ _ _ _ _ _ Hr Hinv) as (I & E & _).
  - by destruct (revokeCredential_ok _ _ _ _ _ Hr Hinv) as (I & E & _).
  - by destruct (scheduleExpired_safe _ _ _ _ _ _ _ Hr Hinv) as (I & E & _).
  - by destruct (materialize_safe _ _ _ _ _ Hr Hinv) as (I & E & _).
  - by eapply (cancel_safe uuid hmac_sha256) in Hr as (I & E & _).
  - by destruct (reconcile_safe _ _ _ _ _ _ _ _ _ Hr Hinv) as (I & E & _).
  - by destruct (scheduleExistingDeviceAccess_safe _ _ _ _ _ _ _ _ Hr Hinv) as (I & E & _).
Qed.

Lemma step_inv db db' : step db db' → Inv nothing db → Inv nothing db' ∧ evolves db db'.
Proof.
  intros Hs Hinv. destruct Hs.
  - by eapply commit_inv.
  - apply jobs_kept_inv; [done|apply statement_kept].
  - apply events_kept_inv; [done|by apply perform_kept].
  - by apply node_inserted_inv.
  - by apply device_inserted_inv.
  - by apply subscriptions_inv.
  - by apply endpoint_inserted_inv.
  - by apply profile_inserted_inv.
  - by apply config_inserted_inv.
  - by apply drawn_inv.
  - by apply audit_inv.
Qed.

Lemma steps_inv db db' : rtc step db db' → Inv nothing db → Inv nothing db' ∧ evolves db db'.
Proof.
  induction 1 as [|db1 db2 db3 Hs _ IH]; intros Hinv; [by split|].
  destruct (step_inv _ _ Hs Hinv) as [I E]. destruct (IH I) as [I' E']. split; [done|by etrans].
Qed.

Lemma reachable_inv db : reachable db → Inv nothing db.
Proof. intros Hr. by apply (steps_inv _ _ Hr Inv_empty). Qed.
End system.
