(* ===== verification/ControlPlaneTheorems.v ===== *)
(** * What the control plane guarantees

    The theorems on the system of ControlPlaneSystem.v: on every reachable
    state of the database, for any interleaving of the services, the workers
    and the node agents. *)

From S2P Require Import Prelude.
From S2P Require Import Json.
From S2P Require Import Sql.
From S2P Require OutboxStore.
From S2P Require NodeSyncStore.
From S2P Require Worker.
From S2P Require Import NodeAgentContract.
From S2P Require Import XrayAccess.
From S2P Require Import ControlPlane.
From S2P Require Import DataPlaneCredential.
From S2P Require Import AccessPolicy.
From S2P Require Import ControlPlaneInvariant.
From S2P Require Import Orchestration.
From S2P Require Import OrchestrationSafety.
From S2P Require Import NodeAgentApi.
From S2P Require Import NodeAgentApiSafety.
From S2P Require Import SubscriptionAccess.
From S2P Require Import SubscriptionAccessSafety.
From S2P Require Import Reconciliation.
From S2P Require Import AccessMaintenance.
From S2P Require Import ControlPlaneSystem.
Import OutboxStore NodeSyncStore.
Open Scope Z_scope.

Section theorems.
Context (uuid : nat → string) (hmac_sha256 : string → string → list Z).
Context (is_uuid : string → bool) (sha256 : json → string) `{DateStrings}.
Context (environment : ApiEnvironment) (agentPepper : option string) (credentialPepper : string).
Context (syncLease syncDelay syncMax outboxLease outboxDelay outboxMax : Z).
Context (eventIds : option (list string)).

Notation Step := (step uuid hmac_sha256 is_uuid sha256 environment agentPepper credentialPepper
  syncLease syncDelay syncMax outboxLease outboxDelay outboxMax eventIds).
Notation Reachable := (reachable uuid hmac_sha256 is_uuid sha256 environment agentPepper
  credentialPepper syncLease syncDelay syncMax outboxLease outboxDelay outboxMax eventIds).

Lemma inv db : Reachable db → Inv nothing db.
Proof. apply reachable_inv. Qed.

(** ** The invariant *)

(** C3: on every reachable state: a node's versions are ordered, and its
    applied version is 0 or the version of an acknowledgement whose job
    succeeded for this node; a grant's versions are ordered and not ahead of
    its node's; a grant is live only for an active device on a node that is
    not quarantined, and a device has at most one grant on a node; no two jobs
    of a node have the same version, and none is ahead of the node. *)
Theorem control_plane_invariant db :
  Reachable db →
  (∀ id n, db_nodes db !! id = Some n →
     0 ≤ n_appliedConfigVersion n ≤ n_desiredConfigVersion n ∧
     (n_appliedConfigVersion n = 0 ∨ ∃ job a j, db_acks db !! job = Some a ∧ na_nodeId a = id ∧
        na_targetVersion a = n_appliedConfigVersion n ∧ db_jobs db !! job = Some j ∧
        j_status j = JOB_SUCCEEDED ∧ j_nodeId j = id ∧ j_targetVersion j = n_appliedConfigVersion n)) ∧
  (∀ id g, db_grants db !! id = Some g → ∃ n d,
     db_nodes db !! gr_nodeId g = Some n ∧ db_devices db !! gr_deviceId g = Some d ∧
     0 ≤ gr_appliedVersion g ≤ gr_desiredVersion g ∧
     gr_desiredVersion g ≤ n_desiredConfigVersion n ∧
     gr_appliedVersion g ≤ n_appliedConfigVersion n ∧
     (live g = true → dv_status d = DEVICE_ACTIVE ∧ n_status n ≠ NODE_QUARANTINED)) ∧
  (∀ id1 id2 g1 g2, db_grants db !! id1 = Some g1 → db_grants db !! id2 = Some g2 →
     gr_nodeId g1 = gr_nodeId g2 → gr_deviceId g1 = gr_deviceId g2 → id1 = id2) ∧
  (∀ id1 id2 j1 j2, db_jobs db !! id1 = Some j1 → db_jobs db !! id2 = Some j2 →
     j_nodeId j1 = j_nodeId j2 → j_targetVersion j1 = j_targetVersion j2 → id1 = id2) ∧
  (∀ id j, db_jobs db !! id = Some j → ∃ n, db_nodes db !! j_nodeId j = Some n ∧
     1 ≤ j_targetVersion j ≤ n_desiredConfigVersion n).
Proof.
  intros Hinv%inv. split_and!.
  - intros id n Hn. split; [by apply node_checks_spec, (iv_nodes _ _ Hinv _ _ Hn)|].
    destruct (iv_applied _ _ Hinv _ _ Hn) as [?|(job & a & Ha & Hid & Hv)]; [by left|right].
    destruct (iv_acks _ _ Hinv _ _ Ha) as ((j & Hj & Hs & Hjn & Hjt) & _).
    exists job, a, j. split_and!; congruence.
  - intros id g Hg. destruct (iv_grants _ _ Hinv _ _ Hg) as (Hck & n & Hn & H1 & H2 & H3 & _).
    destruct (iv_owners _ _ Hinv _ _ Hg) as (d & Hd & Hr).
    apply grant_checks_spec in Hck as (Hv & _). exists n, d. split_and!; try done; try lia.
    unfold live. intros Hl%negb_true_iff%bool_decide_eq_false. split; [|by intros ?%H3].
    destruct (dv_status d) eqn:Hst; [done|]. by destruct (Hr eq_refl).
  - intros id1 id2 g1 g2. apply (iv_pairs _ _ Hinv).
  - intros id1 id2 j1 j2. apply (iv_unique _ _ Hinv).
  - intros id j Hj. by destruct (iv_jobs _ _ Hinv _ _ Hj) as (_ & _ & ?).
Qed.

(** C20: the transactional outbox: on every reachable state, each
    synchronisation job has an event on the outbox whose payload the worker's
    schema reads as a command that names exactly this job. *)
Theorem every_job_is_announced db id j :
  Reachable db → db_jobs db !! id = Some j → is_uuid id = true →
  (∀ g, j_nodeAccessGrantId j = Some g → is_uuid g = true) →
  (∀ e, j_routeEndpointId j = Some e → is_uuid e = true) →
  (∀ p, j_routeConnectionProfileId j = Some p → is_uuid p = true) →
  j_targetVersion j ≤ MAX_SAFE_INTEGER →
  ∃ key k e command, db_eventKeys db !! key = Some k ∧ db_events db !! ek_id k = Some e ∧
    oe_topic e = Worker.node_sync_topic ∧
    Worker.nodeSyncRequestedEventSchema is_uuid (oe_payload e) = Some command ∧
    names_job command j = true.
Proof.
  intros Hinv%inv Hj Hid Hg He Hp Hmax.
  destruct (iv_announced _ _ Hinv _ _ Hj) as [[]|(r & key & k & e & Hr & Hk & Hev & Ht & Hpay)].
  destruct (iv_jobs _ _ Hinv _ _ Hj) as (_ & Hjid & n & _ & Hv).
  exists key, k, e. eexists. rewrite Hpay. split_and!; [done|done|done|apply command_decodes|].
  - simpl. destruct r as [g|ep pr]; simpl in *.
    + apply bool_decide_eq_true in Hr. by apply Hg.
    + apply andb_prop in Hr as [[?%bool_decide_eq_true ?%bool_decide_eq_true]%andb_prop _]. auto.
  - done.
  - simpl. lia.
  - unfold names_job. simpl. rewrite Hjid, Z.eqb_refl, bool_decide_eq_true_2, andb_true_r by done.
    destruct r as [g|ep pr]; simpl in *; unfold sql_eq.
    + apply bool_decide_eq_true in Hr as ->. by apply bool_decide_eq_true_2.
    + apply andb_prop in Hr as [[->%bool_decide_eq_true ->%bool_decide_eq_true]%andb_prop _].
      by rewrite !bool_decide_eq_true_2.
Qed.

(** C5: revocation and quarantine are permanent: from a reachable state in
    which a device is revoked, or a node quarantined, every later state still
    has it so, with none of its grants live, whatever ran in between; a
    quarantined node has no open route either. *)
Theorem revocation_is_permanent db db' :
  Reachable db → rtc Step db db' →
  (∀ id d, db_devices db !! id = Some d → dv_status d = DEVICE_REVOKED →
     (∃ d', db_devices db' !! id = Some d' ∧ dv_status d' = DEVICE_REVOKED) ∧
     ∀ gid g, db_grants db' !! gid = Some g → gr_deviceId g = id → live g = false) ∧
  (∀ id n, db_nodes db !! id = Some n → n_status n = NODE_QUARANTINED →
     (∃ n', db_nodes db' !! id = Some n' ∧ n_status n' = NODE_QUARANTINED) ∧
     (∀ gid g, db_grants db' !! gid = Some g → gr_nodeId g = id → live g = false) ∧
     routes_closed db' id).
Proof.
  intros Hinv%inv Hsteps. destruct (steps_inv _ _ _ _ _ _ _ _ _ _ _ _ _ _ _ _ Hsteps Hinv) as [Hinv' Hev].
  split.
  - intros id d Hd Hst. destruct (ev_devices _ _ Hev _ _ Hd) as (d' & Hd' & _ & Hr & _).
    split; [by exists d'; auto|]. intros gid g Hg Hgd. apply live_false.
    destruct (iv_owners _ _ Hinv' _ _ Hg) as (d2 & Hd2 & Hr2). rewrite Hgd in Hd2.
    assert (d2 = d') as -> by congruence. by destruct (Hr2 (Hr Hst)).
  - intros id n Hn Hst. destruct (ev_nodes _ _ Hev _ _ Hn) as (n' & Hn' & _ & _ & Hq).
    destruct (quarantined_cut_off _ _ _ _ Hinv' Hn' (Hq Hst)) as [Hg Hr].
    split_and!; [by exists n'; auto| |done]. intros gid g Hgid Hgn. apply live_false. eauto.
Qed.

(** ** Delivering and acknowledging a configuration *)

(** An acknowledgement on a reachable state commits exactly when it repeats
    the one on record, or names a succeeded job of the node with this version
    and a delivered snapshot of this hash; it then leaves its row, the greater
    of the two applied versions, and exactly the grants up to its version
    applied; otherwise nothing changes. *)
Theorem acknowledge_exact input now db n :
  Reachable db → db_nodes db !! ai_nodeId input = Some n → int4 (n_desiredConfigVersion n) = true →
  match acknowledgeNodeConfig input now db with
  | (Ok r, db') => acknowledgement_accepted input db = true ∧ acknowledged db db' input r
  | (Throw _, db') => acknowledgement_accepted input db = false ∧ db' = db
  end.
Proof.
  intros Hinv%inv Hn Hint. unfold acknowledgeNodeConfig, atomically.
  destruct (acknowledgeNodeConfigInTransaction input now db) as [[r|e] db'] eqn:Hrun.
  - split; [by eapply acknowledge_accepted|].
    by destruct (acknowledge_safe _ _ _ _ _ Hrun Hinv) as (_ & _ & ?).
  - split; [|done]. apply not_true_is_false. intros Hacc.
    destruct (acknowledge_completes input now db n Hinv Hn Hint Hacc) as (r & db2 & Hok).
    by rewrite Hrun in Hok.
Qed.

Lemma acknowledgement_stays input db db' :
  Inv nothing db' → evolves db db' → acknowledgement_accepted input db = true →
  (∀ k, db_acks db' !! ai_nodeSyncJobId input = Some k → na_snapshotHash k = ai_snapshotHash input) →
  acknowledgement_accepted input db' = true.
Proof.
  intros Hinv [] Hacc Hk. unfold acknowledgement_accepted in *.
  destruct (db_acks db !! ai_nodeSyncJobId input) as [k|] eqn:Hack.
  { by rewrite (lookup_weaken _ _ _ _ Hack ev_acks). }
  apply acknowledgeable_ok in Hacc as (j & Hj & Hjn & Hjt & Hjs & d & Hd & Hdn & Hdt).
  destruct (ev_jobs _ _ Hj) as (j' & Hj' & _ & Hn' & _ & _ & _ & Ht' & Hs').
  destruct (db_acks db' !! ai_nodeSyncJobId input) as [k|] eqn:Hack'.
  - destruct (iv_acks _ _ Hinv _ _ Hack') as ((j2 & Hj2 & _ & Hkn & Hkt) & _).
    assert (j2 = j') as -> by congruence. rewrite (Hk k eq_refl), !bool_decide_eq_true_2 by congruence.
    rewrite andb_true_r. apply Z.eqb_eq. congruence.
  - unfold acknowledgeable. rewrite Hj', (lookup_weaken _ _ _ _ Hd ev_deliveries).
    rewrite !bool_decide_eq_true_2 by (congruence || by apply Hs').
    rewrite !andb_true_iff, !Z.eqb_eq. split_and!; congruence.
Qed.

(** C19: a snapshot the API delivers can be acknowledged: when a snapshot on a
    reachable state asks for an acknowledgement, making it later succeeds,
    whatever ran in between, unless the job was by then acknowledged with
    another snapshot: the node's applied version is then at least the
    snapshot's and at most the desired one, and every grant of the node up to
    the snapshot's version is applied; so nothing is left to apply where the
    desired version did not move on. *)
Theorem delivered_snapshot_is_acknowledged nodeId now later db sn db1 a db2 n :
  Reachable db → snapshotInTransaction hmac_sha256 sha256 environment nodeId now db = (Ok sn, db1) →
  sn_pendingAcknowledgement sn = Some a →
  rtc Step db1 db2 → db_nodes db2 !! nodeId = Some n → int4 (n_desiredConfigVersion n) = true →
  (∀ k, db_acks db2 !! ack_nodeSyncJobId a = Some k → na_snapshotHash k = ack_snapshotHash a) →
  ∃ r db3, acknowledgeNodeConfig (ack_input nodeId a) later db2 = (Ok r, db3) ∧
    n_appliedConfigVersion <$> db_nodes db3 !! nodeId = Some (ar_appliedConfigVersion r) ∧
    sn_desiredConfigVersion sn ≤ ar_appliedConfigVersion r ≤ n_desiredConfigVersion n ∧
    ∀ id g, db_grants db3 !! id = Some g → gr_nodeId g = nodeId →
      gr_desiredVersion g ≤ sn_desiredConfigVersion sn ∨
        n_desiredConfigVersion n = sn_desiredConfigVersion sn →
      gr_appliedVersion g = gr_desiredVersion g.
Proof.
  intros Hinv%inv Hsn Ha Hsteps Hn Hint Hk.
  destruct (snapshot_safe _ _ _ _ _ _ _ _ Hsn Hinv)
    as (Hinv1 & _ & node & Hnode & Hdes & _ & _ & _ & _ & Hpend).
  destruct (Hpend a Ha) as (Ht & _ & _ & Hacc).
  destruct (steps_inv _ _ _ _ _ _ _ _ _ _ _ _ _ _ _ _ Hsteps Hinv1) as [Hinv2 Hev].
  pose proof (acknowledgement_stays _ _ _ Hinv2 Hev Hacc Hk) as Hacc2.
  destruct (acknowledge_completes (ack_input nodeId a) later db2 n Hinv2 Hn Hint Hacc2) as (r & db3 & Hok).
  destruct (acknowledge_safe _ _ _ _ _ Hok Hinv2)
    as (Hinv3 & _ & _ & (n1 & n3 & Hn1 & Hn3 & _ & Hmax & Hr) & Hgr).
  assert (n1 = n) as -> by (simpl in Hn1; congruence). simpl in *.
  assert (Hle : sn_desiredConfigVersion sn ≤ n_desiredConfigVersion n).
  { destruct (snapshot_changes _ _ _ _ _ _ _ _ Hsn) as [f ->].
    destruct (ev_nodes _ _ Hev nodeId node) as (n' & Hn' & Hd & _); [by destruct db|].
    assert (n' = n) as -> by congruence. lia. }
  assert (Happ : n_appliedConfigVersion n ≤ n_desiredConfigVersion n).
  { apply (iv_nodes _ _ Hinv2) in Hn. unfold node_checks in Hn. lia. }
  exists r, db3. split; [unfold acknowledgeNodeConfig, atomically; by rewrite Hok|].
  split; [by rewrite Hn3; simpl; rewrite Hr|]. split; [rewrite Hr, Hmax; lia|].
  intros id g Hg Hgn Hcase. rewrite Hgr, written_grants_lookup in Hg. apply fmap_Some in Hg as (g0 & Hg0 & ->).
  destruct (unapplied _ _ g0) eqn:Hu; [done|].
  destruct (iv_grants _ _ Hinv2 _ _ Hg0) as (Hck & n0 & Hn0 & Hle0 & _).
  rewrite Hgn in Hn0. assert (n0 = n) as -> by congruence. apply grant_checks_spec in Hck as (Hv & _).
  unfold unapplied in Hu. rewrite bool_decide_eq_true_2 in Hu by done. simpl in Hu.
  destruct (Z.leb_spec (gr_desiredVersion g0) (ack_targetVersion a)); [|lia]. simpl in Hu.
  apply Z.ltb_ge in Hu. lia.
Qed.

(** A snapshot shows exactly the node: each of its grants once, with the
    columns of its row; a credential only for a grant that is live and not
    expired, the derived one whose hash is on record; only open routes of the
    node, up to the version it is to reach; and the hash it asks to
    acknowledge is the hash of this document. *)
Theorem snapshot_is_exact nodeId now db sn db1 :
  Reachable db →
  snapshotInTransaction hmac_sha256 sha256 environment nodeId now db = (Ok sn, db1) →
  (∀ out, out ∈ sn_grants sn → ∃ id g, db_grants db !! id = Some g ∧ gr_nodeId g = nodeId ∧
     snapshot_grant_exact hmac_sha256 environment nodeId now (id, g) out) ∧
  (∀ id g, db_grants db !! id = Some g → gr_nodeId g = nodeId →
     ∃ out, out ∈ sn_grants sn ∧ snapshot_grant_exact hmac_sha256 environment nodeId now (id, g) out) ∧
  (∀ out, out ∈ sn_routes sn → snapshot_route_exact db nodeId (sn_desiredConfigVersion sn) out) ∧
  (∀ a, sn_pendingAcknowledgement sn = Some a →
     ack_targetVersion a = sn_desiredConfigVersion sn ∧
     sn_appliedConfigVersion sn < sn_desiredConfigVersion sn ∧
     ack_snapshotHash a =
       sha256 (snapshot_document (sn_desiredConfigVersion sn) (sn_grants sn) (sn_routes sn))).
Proof.
  intros Hinv%inv Hsn.
  destruct (snapshot_safe _ _ _ _ _ _ _ _ Hsn Hinv)
    as (_ & _ & node & _ & Hdes & Happ & Hg1 & Hg2 & Hr & Hpend).
  split_and!; [done|done| |].
  - intros out Hout. rewrite Hr in Hout. rewrite Hdes. by apply snapshot_route_ok.
  - intros a Ha. destruct (Hpend a Ha) as (Ht & Hlt & Hh & _). rewrite Hdes, Happ. by split_and!.
Qed.

(** C9: access is ready only where it was applied: when, on a reachable state,
    the policy calls a route ready for a converged grant, the grant is live,
    its device and the node are in service, and the node acknowledged a
    succeeded job at a version that covers both the grant and the route. *)
Theorem ready_access_is_acknowledged db id g n entitled routeActive activation t :
  Reachable db → db_grants db !! id = Some g → db_nodes db !! gr_nodeId g = Some n →
  isRouteReady entitled
    (isGrantConverged (gr_status g) (gr_expiresAt g) (gr_desiredVersion g) (gr_appliedVersion g) t)
    (n_status n) routeActive activation (n_appliedConfigVersion n) = true →
  entitled = true ∧ routeActive = true ∧ t < gr_expiresAt g ∧ n_status n = NODE_HEALTHY ∧
  (∃ d, db_devices db !! gr_deviceId g = Some d ∧ dv_status d = DEVICE_ACTIVE) ∧
  ∃ job a j v, db_acks db !! job = Some a ∧ na_nodeId a = gr_nodeId g ∧
    db_jobs db !! job = Some j ∧ j_status j = JOB_SUCCEEDED ∧
    activation = Some v ∧ v ≤ na_targetVersion a ∧ gr_desiredVersion g ≤ na_targetVersion a.
Proof.
  intros Hinv%inv Hg Hn (He & (Hst & Ht & Hv)%isGrantConverged_spec & Hh & Ha & v & -> & Hle)%isRouteReady_spec.
  destruct (iv_owners _ _ Hinv _ _ Hg) as (d & Hd & Hr).
  destruct (applied_acknowledged _ _ _ _ Hinv Hg Hn Hst Hv) as (job & a & j & Hack & Hid & Hj & Hjs & Hap & Hdes).
  split_and!; try done.
  - exists d. split; [done|]. destruct (dv_status d); [done|]. destruct (Hr eq_refl); [congruence|done].
  - exists job, a, j, v. split_and!; try done; lia.
Qed.

(** ** Cutting off *)

(** C26: an emergency quarantine that commits leaves the node quarantined with
    all its grants revoked and all its routes closed; when grants were live, a
    job above the version the node had tells it; one that fails changes
    nothing. *)
Theorem quarantine_cuts_off input now db :
  Reachable db →
  match quarantine uuid input now db with
  | (Ok r, db') => qr_nodeId r = qi_nodeId input ∧ node_cut_off db db' input ∧ Reachable db'
  | (Throw _, db') => db' = db
  end.
Proof.
  intros Hreach. pose proof (inv _ Hreach) as Hinv.
  destruct (quarantine uuid input now db) as [[r|e] db'] eqn:Hrun.
  - destruct (quarantine_safe _ _ _ _ _ _ Hrun Hinv) as (_ & _ & Hcut & Hr). split_and!; [done|done|].
    eapply rtc_r; [exact Hreach|]. by eapply StepCommit; [apply TQuarantine|].
  - by eapply atomically_throw_inv.
Qed.

(** Revoking a device answers [DeviceNotFound] for a device that is not the
    user's and changes nothing; otherwise, repeated or not, it leaves the
    device revoked and none of its grants live, and the revocation that does it
    tells every node in access-control synchronisation that had one of them. *)
Theorem device_revocation_cuts_off userId deviceId now db :
  Reachable db →
  match revoke uuid userId deviceId now db with
  | (Ok DeviceNotFound, db') => db' = db ∧ dv_userId <$> db_devices db !! deviceId ≠ Some userId
  | (Ok _, db') => (db' = db ∨ device_cut_off db db' deviceId) ∧
      (∃ d, db_devices db' !! deviceId = Some d ∧ dv_userId d = userId ∧ dv_status d = DEVICE_REVOKED) ∧
      ∀ gid g, db_grants db' !! gid = Some g → gr_deviceId g = deviceId → live g = false
  | (Throw _, db') => db' = db
  end.
Proof.
  intros Hinv%inv. destruct (revoke uuid userId deviceId now db) as [[r|e] db'] eqn:Hrun;
    [|by eapply atomically_throw_inv].
  apply atomically_ok_inv in Hrun.
  destruct (revokeInTransaction_safe _ _ _ _ _ _ _ Hrun Hinv) as (Hinv' & Hev & Hcut).
  destruct (revokeInTransaction_cases _ _ _ _ _ _ _ Hrun) as [(-> & Hno)|(d & Hd & Hu & Hr)];
    [by split|].
  destruct (ev_devices _ _ Hev _ _ Hd) as (d' & Hd' & Hu' & Hst' & _).
  assert (Hdone : ∀ d', db_devices db' !! deviceId = Some d' → dv_status d' = DEVICE_REVOKED →
    ∀ gid g, db_grants db' !! gid = Some g → gr_deviceId g = deviceId → live g = false).
  { intros d2 Hd2 Hst2 gid g Hg Hgd. apply live_false.
    destruct (iv_owners _ _ Hinv' _ _ Hg) as (d3 & Hd3 & Hr3). rewrite Hgd in Hd3.
    assert (d3 = d2) as -> by congruence. by destruct (Hr3 Hst2). }
  destruct Hr as [->|[-> Hst]].
  - split; [by right|]. destruct Hcut as [(d2 & Hd2 & Hst2) Hrest].
    assert (d2 = d') as -> by congruence. split; [exists d'; split_and!; congruence|]. by eapply Hdone.
  - split; [by left|]. split; [exists d'; split_and!; try congruence; auto|]. eapply Hdone; eauto.
Qed.

(** Draining, disabling or restoring a node that commits sets exactly this
    status, closes the node's routes when the status changed, and restores a
    node to health only when it applied all it was asked to; an attempt that
    fails changes nothing. *)
Theorem lifecycle_changes nodeId actor db :
  Reachable db →
  ∀ target run, (target, run) ∈ [(NODE_HEALTHY, restoreHealthy nodeId actor);
                                 (NODE_DRAINING, drain nodeId actor);
                                 (NODE_DISABLED, disable nodeId actor)] →
  match run db with
  | (Ok r, db') => r = (nodeId, target) ∧ status_changed db db' nodeId target
  | (Throw _, db') => db' = db
  end.
Proof.
  intros Hinv%inv target run Hin.
  assert (Hrun : ∃ accepted action message, NODE_QUARANTINED ∉ accepted ∧
    run = atomically (change_status target accepted action message nodeId actor)).
  { repeat (apply elem_of_cons in Hin as [[= -> ->]|Hin]; [do 3 eexists; split; [|reflexivity]; set_solver|]).
    by apply elem_of_nil in Hin. }
  destruct Hrun as (accepted & action & message & Hacc & ->).
  destruct (atomically _ db) as [[r|e] db'] eqn:Hrun; [|by eapply atomically_throw_inv].
  apply atomically_ok_inv in Hrun.
  by destruct (change_status_safe _ _ _ _ _ _ _ _ _ Hrun Hinv Hacc) as (_ & _ & ? & ?).
Qed.

(** A cancellation that commits leaves the subscription cancelled; when it
    gave access, none of the user's grants is live any more and every node in
    access-control synchronisation that had one is told; cancelling again, or
    something that does not exist, changes nothing. *)
Theorem cancellation_cuts_off subscriptionId now db :
  Reachable db →
  match cancelSubscriptionAccess uuid subscriptionId now db with
  | (Ok Cancelled, db') => access_cancelled db db' subscriptionId now
  | (_, db') => db' = db
  end.
Proof.
  intros Hinv%inv.
  destruct (cancelSubscriptionAccess uuid subscriptionId now db) as [[r|e] db'] eqn:Hrun;
    [|by eapply atomically_throw_inv].
  destruct (cancel_safe uuid hmac_sha256 EmptyString _ _ _ _ _ Hrun Hinv) as (_ & _ & Hr). by destruct r.
Qed.

(** The expiry of a subscription on a node changes something only after the
    expiry, on a node that synchronises; it then dates every live grant of the
    user there to the user's running entitlement, or to the expiry when none
    runs, under one new version of the node, and tells it; otherwise nothing
    changes. *)
Theorem expiry_reaches_the_node subscriptionId nodeId now db :
  Reachable db →
  match atomically (scheduleExpiredSubscriptionOnNode uuid subscriptionId nodeId now) db with
  | (Ok true, db') => expiry_scheduled db db' subscriptionId nodeId now
  | (_, db') => db' = db
  end.
Proof.
  intros Hinv%inv. destruct (atomically _ db) as [[b|e] db'] eqn:Hrun; [|by eapply atomically_throw_inv].
  apply atomically_ok_inv in Hrun.
  destruct (scheduleExpired_safe _ _ _ _ _ _ _ Hrun Hinv) as (_ & _ & Hb). by destruct b.
Qed.

(** ** Granting *)

(** Scheduling a grant is idempotent: when it committed on a reachable
    state, the same request at any later time, whatever ran in between, gives
    the same answer and changes nothing; the answer names a grant of this
    device with its job on this node. *)
Theorem scheduling_is_idempotent input now later db r db1 db2 :
  Reachable db →
  schedule uuid hmac_sha256 (Some environment) input now db = (Ok r, db1) → rtc Step db1 db2 →
  schedule uuid hmac_sha256 (Some environment) input later db2 = (Ok r, db2) ∧
  grant_scheduled db2 input r.
Proof.
  intros Hinv%inv Hrun%atomically_ok_inv Hsteps.
  destruct (scheduleInTransaction_safe _ _ _ _ _ _ _ _ Hrun Hinv) as (Hinv1 & _ & Hr).
  destruct (steps_inv _ _ _ _ _ _ _ _ _ _ _ _ _ _ _ _ Hsteps Hinv1) as [_ Hev].
  pose proof (grant_scheduled_evolves _ _ _ _ Hev Hr) as Hr2. split; [|done].
  unfold schedule, atomically. by rewrite schedule_replay with (r := r).
Qed.

(** A publication that changes something on a reachable state opens the
    route at the next version of its healthy node, together with the job and
    the event that deliver it; and the same request at any later time finds
    that answer and changes nothing. *)
Theorem publication_opens_the_route input now later db r db1 db2 :
  Reachable db →
  publishConnectionRoute uuid is_uuid input now db = (Ok r, db1) → db1 ≠ db → rtc Step db1 db2 →
  is_uuid (pi_endpointId input) = true → is_uuid (pi_connectionProfileId input) = true →
  is_uuid (pr_nodeSyncJobId r) = true → pr_activationVersion r ≤ MAX_SAFE_INTEGER →
  route_published db1 input r ∧ route_announced db1 input r ∧
  publishConnectionRoute uuid is_uuid input later db2 = (Ok r, db2).
Proof.
  intros Hinv%inv Hrun Hne Hsteps U1 U2 U3 Hmax.
  destruct (publish_safe _ _ _ _ _ _ _ Hrun Hinv) as (Hinv1 & _ & Hr).
  destruct (Hr Hne) as [Hann Hpub]. split_and!; [done|done|].
  destruct (steps_inv _ _ _ _ _ _ _ _ _ _ _ _ _ _ _ _ Hsteps Hinv1) as [_ Hev].
  apply publish_replay; try done; [|by eapply route_announced_evolves]. destruct Hann as (_ & (j & Hj & _ & _ & _ & _ & Ht) & _).
  destruct (iv_jobs _ _ Hinv1 _ _ Hj) as (_ & _ & n & _ & Hle). lia.
Qed.

(** ** Reconciling *)

(** C6: reconciling a node implements its specification [node_settled]: when it
    reports no change, nothing changed, and a node in access-control
    synchronisation was settled already; when it reports a change, the node was
    not settled and is settled now, its status untouched, so that running it
    again at the same time finds nothing; when it fails, nothing changes. *)
Theorem reconciliation_settles nodeId includeMissing now db :
  Reachable db →
  match atomically (reconcileOneNode uuid hmac_sha256 credentialPepper nodeId includeMissing now) db with
  | (Ok b, db') => reconciled db db' nodeId includeMissing now b ∧
      (b = true → atomically (reconcileOneNode uuid hmac_sha256 credentialPepper nodeId
                     includeMissing now) db' = (Ok false, db'))
  | (Throw _, db') => db' = db
  end.
Proof.
  intros Hinv%inv. destruct (atomically _ db) as [[b|e] db'] eqn:Hrun; [|by eapply atomically_throw_inv].
  apply atomically_ok_inv in Hrun.
  destruct (reconcile_safe _ _ _ _ _ _ _ _ _ Hrun Hinv) as (Hinv' & _ & Hrec). split; [done|].
  intros ->. unfold reconciled in Hrec. destruct (db_nodes db !! nodeId) as [node|]; [|by destruct Hrec].
  destruct (isNodeInAccessControlSync (n_status node)) eqn:Hsync; [|by destruct Hrec].
  destruct Hrec as (_ & Hset & Hst). unfold atomically.
  by erewrite (settled_is_idle uuid hmac_sha256 credentialPepper nothing).
Qed.

(** On a reachable state the maintenance query selects exactly the nodes in
    access-control synchronisation that are not settled, where only healthy
    nodes get grants that are missing. *)
Theorem candidate_query_is_exact nodeId node now db :
  Reachable db → db_nodes db !! nodeId = Some node →
  reconciliation_candidate db now nodeId node = true ↔
  isNodeInAccessControlSync (n_status node) = true ∧
  ¬ node_settled db nodeId now (bool_decide (n_status node = NODE_HEALTHY)).
Proof. intros Hinv%inv Hn. by apply (candidate_iff nothing). Qed.

(** A node is restored to health only when its grants agree with every
    entitlement, the missing ones created, and it applied all it was asked to;
    otherwise the call reconciles it, leaving it settled and its status as it
    was, and says so. *)
Theorem restoring_requires_reconciliation nodeId actor now db r db' :
  Reachable db →
  restoreNodeToHealthy uuid hmac_sha256 credentialPepper nodeId actor now db = (Ok r, db') →
  match r with
  | Restored id => id = nodeId ∧ node_settled db nodeId now true ∧
      status_changed db db' nodeId NODE_HEALTHY
  | ReconciliationRequired id => id = nodeId ∧ ¬ node_settled db nodeId now true ∧
      node_settled db' nodeId now true ∧
      n_status <$> db_nodes db' !! nodeId = n_status <$> db_nodes db !! nodeId
  end.
Proof.
  intros Hinv%inv Hrun. by destruct (restore_safe _ _ _ _ _ _ _ _ _ Hrun Hinv) as (_ & _ & ?).
Qed.

(** The batches of the maintenance keep every reachable state sound: after
    an expiry or a reconciliation batch, whatever its candidates and whichever
    of its transactions fail, no row the invariant speaks of was lost and no
    version went back. *)
Theorem batches_keep_the_invariant limit cursor now db :
  Reachable db →
  let expired := materializeExpiredSubscriptions uuid limit cursor now db in
  let reconciled := reconcileAccess uuid hmac_sha256 credentialPepper limit cursor now db in
  Inv nothing expired.2 ∧ evolves db expired.2 ∧ Inv nothing reconciled.2 ∧ evolves db reconciled.2.
Proof.
  intros Hinv%inv expired reconciled.
  destruct (keeps_expired uuid limit cursor now db Hinv).
  destruct (keeps_reconcileAccess uuid hmac_sha256 credentialPepper limit cursor now db Hinv).
  by split_and!.
Qed.

(** ** The agents' endpoints *)

(** C37: the endpoints of the node agents act only for the node whose unrevoked
    credential the caller's secret hashes to, while that node may authenticate:
    the configuration it hands out is that node's, with its grants and routes
    only, and records nothing but what it delivers; a heartbeat stamps that
    node's row and nothing else of it; an acknowledgement acknowledges for that
    node; and every refusal, of the secret, of the body or of the operation,
    leaves the database as it was. *)
Theorem agent_requests_are_authenticated body authorization now db :
  Reachable db →
  match configurationSnapshot hmac_sha256 sha256 environment agentPepper authorization now db with
  | (Ok sn, db') => ∃ nodeId, authenticated hmac_sha256 agentPepper db
         (extractBearerToken authorization) nodeId ∧
      snapshot_delivered hmac_sha256 sha256 environment db db' nodeId now sn ∧
      (∀ out, out ∈ sn_routes sn → snapshot_route_exact db nodeId (sn_desiredConfigVersion sn) out) ∧
      ∃ f, db' = set_deliveries f db
  | (Throw _, db') => db' = db
  end ∧
  match heartbeat hmac_sha256 agentPepper authorization now db with
  | (Ok _, db') => ∃ nodeId n, authenticated hmac_sha256 agentPepper db
        (extractBearerToken authorization) nodeId ∧ db_nodes db !! nodeId = Some n ∧
      db_nodes db' = <[nodeId := set_heartbeat now n]> (db_nodes db)
  | (Throw _, db') => db' = db
  end ∧
  match acknowledge hmac_sha256 is_uuid agentPepper body authorization now db with
  | (Ok _, db') => ∃ a nodeId r, nodeAgentAcknowledgementSchema is_uuid body = Some a ∧
      authenticated hmac_sha256 agentPepper db (extractBearerToken authorization) nodeId ∧
      acknowledged db db' (ack_input nodeId a) r
  | (Throw _, db') => db' = db
  end.
Proof.
  intros Hinv%inv. split_and!.
  - destruct (configurationSnapshot _ _ _ _ _ _ db) as [r db'] eqn:Hrun. unfold configurationSnapshot in Hrun.
    apply respond_cases in Hrun. destruct r as [sn|]; [|done]. destruct Hrun as (nodeId & Hauth & Hrun).
    destruct (snapshot_safe _ _ _ _ _ _ _ _ Hrun Hinv) as (_ & _ & Hsn). exists nodeId. split_and!; try done.
    + destruct Hsn as (node & _ & -> & _ & _ & _ & -> & _). intros out. apply snapshot_route_ok.
    + by eapply snapshot_changes.
  - destruct (heartbeat _ _ _ _ db) as [r db'] eqn:Hrun. unfold heartbeat in Hrun.
    apply respond_cases in Hrun. destruct r as [u|]; [|done]. destruct Hrun as (nodeId & Hauth & Hrun).
    destruct (heartbeat_safe _ _ _ _ _ Hrun Hinv) as (_ & _ & n & Hn & Hnodes). by exists nodeId, n.
  - destruct (acknowledge _ _ _ _ _ _ db) as [r db'] eqn:Hrun. unfold acknowledge in Hrun.
    destruct (nodeAgentAcknowledgementSchema is_uuid body) as [a|]; [|by injection Hrun as <- <-].
    apply respond_cases in Hrun. destruct r as [u|]; [|done]. destruct Hrun as (nodeId & Hauth & Hrun).
    ok_inv Hrun. destruct (acknowledge_safe _ _ _ _ _ Hrun0 Hinv) as (_ & _ & Hack). by exists a, nodeId, a0.
Qed.

(** Rotating a node's credential makes the new secret the only one that
    speaks for the node, and revoking leaves none; both answer truthfully. *)
Theorem credential_rotation_is_exclusive nodeId secret now db :
  Reachable db →
  match rotate uuid hmac_sha256 agentPepper nodeId secret now db with
  | (Ok (_, s), db') => s = secret ∧ ∃ h, secret_hash hmac_sha256 agentPepper secret = Some h ∧
      ∀ c, speaks_for db' nodeId c ↔
           c = {| nc_nodeId := nodeId; nc_secretHash := h; nc_revokedAt := None |}
  | (Throw _, db') => db' = db
  end ∧
  match revokeCredential nodeId now db with
  | (Ok b, db') => (∀ c, ¬ speaks_for db' nodeId c) ∧ (b = true ↔ ∃ c, speaks_for db nodeId c)
  | (Throw _, db') => db' = db
  end.
Proof.
  intros Hinv%inv. split.
  - destruct (rotate _ _ _ _ _ _ db) as [[[id s]|e] db'] eqn:Hrun; [|by eapply rotate_throw].
    by destruct (rotate_ok _ _ _ _ _ _ _ _ _ _ Hrun Hinv) as (_ & _ & ? & _ & ?).
  - destruct (revokeCredential _ _ db) as [[b|e] db'] eqn:Hrun; [|by eapply atomically_throw_inv].
    by destruct (revokeCredential_ok _ _ _ _ _ Hrun Hinv) as (_ & _ & ? & ?).
Qed.
End theorems.

(** ** Paging *)

(** C38: the maintenance's cursor starves no candidate: over candidates that do
    not change, every one of them is on one of the next pages, before the pages
    have shown as many rows as there are candidates, wherever the cursor
    stands. *)
Theorem pages_visit_every_candidate {A} (p : string → A → bool) (t : Table A) limit cursor id row :
  (0 < limit)%nat → t !! id = Some row → p id row = true →
  ∃ k, (k * limit < length (candidates p t))%nat ∧
       id ∈ (next_page (query_page p t) limit (after_pages p t limit k cursor)).1.
Proof.
  intros Hl Hr Hp. assert (Hin : id ∈ candidates p t) by (apply candidates_elem; eauto).
  apply list_elem_of_lookup in Hin as [i Hi]. pose proof (lookup_lt_Some _ _ _ Hi) as Hlt.
  destruct (visited p t limit Hl (length (candidates p t) - 1) cursor i id Hi) as (k & Hk & Hin);
    [|exists k; split; [lia|done]].
  unfold ahead. pose proof (passed_le p t cursor). case_decide; lia.
Qed.
