(* ===== verification/Accounts.v ===== *)
(** * Accounts: [prisma/schema.prisma] and its migrations

    The tables of users, plans, trials, logins and bot requests that the API
    keeps beside the control plane's, their CHECKs, unique indexes, foreign
    keys and triggers, and the statements the account services make.  A
    transaction of these services also works on the control-plane database:
    its statements are lifted.

    [createdAt] and [updatedAt] are columns only where a query reads them.
    Nothing deletes the rows.  The columns of plans and campaigns that no
    service reads (code, price, currency, comment) are left out. *)

From S2P Require Import Prelude.
From S2P Require Import Json.
From S2P Require Import Sql.
From S2P Require Import ControlPlane.
From S2P Require Import AccessPolicy.
Open Scope Z_scope.

(** ** Rows *)

(** The role is CUSTOMER, the only value of its type. *)
Record User := { us_telegramUserId : string }.

Record Plan := { pl_name : string; pl_deviceLimit : Z; pl_isActive : bool }.

(** The columns of [Subscription] that only the account services read. *)
Record SubscriptionTerms := { te_planId : string; te_updatedAt : Z }.

Record TrialCampaign := {
  tc_planId : string;
  tc_durationDays : Z;
  tc_maxActivations : option Z;
  tc_startsAt : option Z;
  tc_endsAt : option Z;
  tc_isActive : bool;
  tc_archivedAt : option Z;
}.

Record TrialActivation := {
  tv_trialCampaignId : string;
  tv_userId : string;
  tv_subscriptionId : string;
  tv_planId : string;
  tv_durationDays : Z;
  tv_activatedAt : Z;
  tv_startsAt : Z;
  tv_expiresAt : Z;
}.

Record BotServicePrincipal := { bp_name : string }.
Record BotServiceCredential := {
  bc_principalId : string;
  bc_keyCiphertext : string;
  bc_nonce : string;
  bc_keyVersion : Z;
  bc_revokedAt : option Z;
}.

(** The unique columns of [BotRequestIdempotency] *)
Record BotScope := {
  sc_principalId : string;
  sc_method : string;
  sc_path : string;
  sc_telegramUserId : string;
  sc_idempotencyKey : string;
}.
#[export] Instance BotScope_eq_dec : EqDecision BotScope.
Proof. solve_decision. Defined.
#[export] Instance BotScope_countable : Countable BotScope.
Proof.
  apply (inj_countable'
    (λ s, (sc_principalId s, sc_method s, sc_path s, sc_telegramUserId s, sc_idempotencyKey s))
    (λ '(a, b, c, d, e), {| sc_principalId := a; sc_method := b; sc_path := c;
                            sc_telegramUserId := d; sc_idempotencyKey := e |})).
  by intros [].
Defined.
Record BotRequestIdempotency := {
  bi_requestHash : string;
  bi_responseStatus : option Z;
  bi_responseBody : option json;
  bi_completedAt : option Z;
}.

Record AuthChallenge := {
  au_launchId : string;
  au_tokenHash : string;
  au_telegramReplayHash : option string;
  au_sessionId : option string;
  au_expiresAt : Z;
  au_consumedAt : option Z;
  au_createdAt : Z;
  au_userId : option string;
}.

Inductive PendingLoginStatus := AWAITING_BOT_CONFIRM | BOT_CONFIRMED | CONSUMED.
#[export] Instance PendingLoginStatus_eq_dec : EqDecision PendingLoginStatus.
Proof. solve_decision. Defined.
Record PendingLogin := {
  pe_challengeId : string;
  pe_userId : string;
  pe_telegramUserId : string;
  pe_pendingTokenHash : string;
  pe_confirmationCodeHash : string;
  pe_status : PendingLoginStatus;
  pe_expiresAt : Z;
  pe_confirmedAt : option Z;
  pe_consumedAt : option Z;
  pe_createdAt : Z;
}.

Record UserSession := {
  ss_userId : string;
  ss_tokenHash : string;
  ss_telegramReplayHash : option string;
  ss_expiresAt : Z;
  ss_revokedAt : option Z;
}.

Record Accounts := MkAccounts {
  ac_control : Db;
  ac_users : Table User;
  ac_plans : Table Plan;
  ac_terms : Table SubscriptionTerms;
  ac_campaigns : Table TrialCampaign;
  ac_activations : Table TrialActivation;
  ac_principals : Table BotServicePrincipal;
  ac_botCredentials : Table BotServiceCredential;
  ac_requests : gmap BotScope BotRequestIdempotency;
  ac_challenges : Table AuthChallenge;
  ac_pendingLogins : Table PendingLogin;
  ac_sessions : Table UserSession;
}.
Definition empty_accounts : Accounts := MkAccounts empty_db ∅ ∅ ∅ ∅ ∅ ∅ ∅ ∅ ∅ ∅ ∅.

Definition set_control f '(MkAccounts d u p t c a n b r h l s) := MkAccounts (f d) u p t c a n b r h l s.
Definition set_users f '(MkAccounts d u p t c a n b r h l s) := MkAccounts d (f u) p t c a n b r h l s.
Definition set_plans f '(MkAccounts d u p t c a n b r h l s) := MkAccounts d u (f p) t c a n b r h l s.
Definition set_terms f '(MkAccounts d u p t c a n b r h l s) := MkAccounts d u p (f t) c a n b r h l s.
Definition set_campaigns f '(MkAccounts d u p t c a n b r h l s) := MkAccounts d u p t (f c) a n b r h l s.
Definition set_activations f '(MkAccounts d u p t c a n b r h l s) := MkAccounts d u p t c (f a) n b r h l s.
Definition set_principals f '(MkAccounts d u p t c a n b r h l s) := MkAccounts d u p t c a (f n) b r h l s.
Definition set_botCredentials f '(MkAccounts d u p t c a n b r h l s) := MkAccounts d u p t c a n (f b) r h l s.
Definition set_requests f '(MkAccounts d u p t c a n b r h l s) := MkAccounts d u p t c a n b (f r) h l s.
Definition set_challenges f '(MkAccounts d u p t c a n b r h l s) := MkAccounts d u p t c a n b r (f h) l s.
Definition set_pendingLogins f '(MkAccounts d u p t c a n b r h l s) := MkAccounts d u p t c a n b r h (f l) s.
Definition set_sessions f '(MkAccounts d u p t c a n b r h l s) := MkAccounts d u p t c a n b r h l (f s).

(** Nest's exceptions, and the errors of the layers below. *)
Inductive AccountError :=
| BadRequestException (message : string)
| UnauthorizedException (message : string)
| NotFoundException (message : string)
| ConflictException (message : string)
| TooManyRequests (message : string)
| ServiceUnavailableException (message : string)
| AccountFailure (e : ApiError).

Notation AccountM := (M Accounts AccountError).

(** A statement, or a part of the transaction, on the control-plane tables. *)
Definition control {A} (m : DbM A) : AccountM A := λ s,
  match m (ac_control s) with
  | (Ok a, db) => (Ok a, set_control (λ _, db) s)
  | (Throw e, db) => (Throw (AccountFailure e), set_control (λ _, db) s)
  end.
Definition database_error (b : bool) (e : DbError) : AccountM unit :=
  throw_if b (AccountFailure (Database e)).

(** ** Constraints *)

(** [TrialCampaign_durationDays_check] *)
Definition trial_days (d : Z) : bool := bool_decide (d ∈ [1; 3; 5]).

(** The CHECKs of [TrialCampaign] *)
Definition campaign_checks (c : TrialCampaign) : bool :=
  trial_days (tc_durationDays c) &&
  match tc_maxActivations c with Some m => 0 <? m | None => true end &&
  match tc_startsAt c, tc_endsAt c with Some s, Some e => s <? e | _, _ => true end &&
  (is_null (tc_archivedAt c) || negb (tc_isActive c)).

(** [Plan_deviceLimit_positive] *)
Definition plan_checks (p : Plan) : bool := 0 <? pl_deviceLimit p.

(** [AuthChallenge_consumption_complete], [..._expiry_after_creation],
    [..._consumed_after_creation] *)
Definition challenge_checks (c : AuthChallenge) : bool :=
  match au_consumedAt c with
  | None => is_null (au_telegramReplayHash c) && is_null (au_sessionId c)
  | Some t => negb (is_null (au_telegramReplayHash c)) && negb (is_null (au_sessionId c)) &&
              negb (is_null (au_userId c)) && (au_createdAt c <=? t)
  end && (au_createdAt c <? au_expiresAt c).

(** [PendingLogin_status_timestamps_check] *)
Definition pending_checks (p : PendingLogin) : bool :=
  match pe_status p with
  | AWAITING_BOT_CONFIRM => is_null (pe_confirmedAt p) && is_null (pe_consumedAt p)
  | BOT_CONFIRMED => negb (is_null (pe_confirmedAt p)) && is_null (pe_consumedAt p)
  | CONSUMED => negb (is_null (pe_confirmedAt p)) && negb (is_null (pe_consumedAt p))
  end.

(** [BotRequestIdempotency_response_check] *)
Definition request_checks (r : BotRequestIdempotency) : bool :=
  match bi_completedAt r with
  | None => is_null (bi_responseStatus r) && is_null (bi_responseBody r)
  | Some _ => match bi_responseStatus r with
              | Some status => (100 <=? status) && (status <=? 599)
              | None => true (* NULL BETWEEN ... is not false *)
              end
  end.

(** [protect_used_trial_campaign] *)
Definition campaign_update_refused (s : Accounts) (id : string) (old new : TrialCampaign) : bool :=
  exists_row (λ a, bool_decide (tv_trialCampaignId a = id)) (ac_activations s) &&
  (negb (bool_decide (tc_planId new = tc_planId old)) ||
   negb (tc_durationDays new =? tc_durationDays old)).

(** ** Statements *)

Section statements.
Context (uuid : nat → string).
(** [timestamptz + n * INTERVAL '1 day'], in the time zone of the session. *)
Context (plus_days : Z → Z → Z).

Definition account_uuid : AccountM string := control (randomUUID uuid).

(** The row of a unique column's value. *)
Definition find_row {A} (p : A → bool) (t : Table A) : option (string * A) :=
  head (filter (λ kv : string * A, p kv.2 = true) (map_to_list t)).

(** [user.upsert({ where: { telegramUserId }, update: {}, create: { telegramUserId } })] *)
Definition user_upsert (telegramUserId : string) : AccountM string :=
  s ← get;
  match find_row (λ u, bool_decide (us_telegramUserId u = telegramUserId)) (ac_users s) with
  | Some (id, _) => mret id
  | None =>
      id ← account_uuid;
      database_error (negb (is_null (ac_users s !! id))) UniqueViolation;;
      modify (set_users <[id := {| us_telegramUserId := telegramUserId |}]>);;
      mret id
  end.

(** [subscription.create] *)
Definition subscription_create (row : Subscription) (terms : SubscriptionTerms) : AccountM string :=
  id ← account_uuid;
  s ← get;
  database_error (negb (subscription_checks row)) CheckViolation;;
  database_error (negb (is_null (db_subscriptions (ac_control s) !! id)) ||
    bool_decide (sb_status row = SUB_ACTIVE) &&
    exists_row (λ r, bool_decide (sb_userId r = sb_userId row) && bool_decide (sb_status r = SUB_ACTIVE))
      (db_subscriptions (ac_control s))) UniqueViolation;;
  database_error (is_null (ac_users s !! sb_userId row) || is_null (ac_plans s !! te_planId terms))
    ForeignKeyViolation;;
  modify (set_control (ControlPlane.set_subscriptions <[id := row]>));;
  modify (set_terms <[id := terms]>);;
  mret id.

Definition expire_subscription (r : Subscription) : Subscription :=
  {| sb_userId := sb_userId r; sb_status := SUB_EXPIRED; sb_startsAt := sb_startsAt r;
     sb_expiresAt := sb_expiresAt r; sb_cancelledAt := sb_cancelledAt r |}.
(** [subscription.updateMany({ where: { id: { in: ids } }, data: { status: 'EXPIRED' } })] *)
Definition subscriptions_expire (ids : list string) (now : Z) : AccountM unit :=
  s ← get;
  let expired (id : string) (r : Subscription) := if bool_decide (id ∈ ids) then expire_subscription r else r in
  database_error (exists_row (λ r, negb (subscription_checks (expire_subscription r)))
    (filter (λ kv, kv.1 ∈ ids) (db_subscriptions (ac_control s)))) CheckViolation;;
  modify (set_control (ControlPlane.set_subscriptions (map_imap (λ id r, Some (expired id r)))));;
  modify (set_terms (map_imap (λ id t, Some (if bool_decide (id ∈ ids)
    then {| te_planId := te_planId t; te_updatedAt := now |} else t)))).

(** [INSERT INTO "TrialActivation"] *)
Definition activation_insert (id : string) (a : TrialActivation) : AccountM unit :=
  s ← get;
  database_error (negb (trial_days (tv_durationDays a) && (tv_activatedAt a =? tv_startsAt a) &&
    (tv_expiresAt a =? plus_days (tv_startsAt a) (tv_durationDays a)))) CheckViolation;;
  database_error (negb (is_null (ac_activations s !! id)) ||
    exists_row (λ x, bool_decide (tv_userId x = tv_userId a) ||
                     bool_decide (tv_subscriptionId x = tv_subscriptionId a)) (ac_activations s))
    UniqueViolation;;
  database_error (is_null (ac_users s !! tv_userId a) ||
    negb (bool_decide (tc_planId <$> ac_campaigns s !! tv_trialCampaignId a = Some (tv_planId a))) ||
    negb (bool_decide (sb_userId <$> db_subscriptions (ac_control s) !! tv_subscriptionId a =
                       Some (tv_userId a))) ||
    negb (bool_decide (te_planId <$> ac_terms s !! tv_subscriptionId a = Some (tv_planId a))))
    ForeignKeyViolation;;
  modify (set_activations <[id := a]>).

(** [device.create] *)
Definition device_create (d : Device) : AccountM string :=
  id ← account_uuid;
  s ← get;
  database_error (negb (device_checks d)) CheckViolation;;
  database_error (negb (is_null (db_devices (ac_control s) !! id)) ||
    exists_row (λ x, bool_decide (dv_subscriptionTokenHash x = dv_subscriptionTokenHash d) ||
      negb (is_null (dv_issuanceIdempotencyKeyHash d)) &&
      bool_decide (dv_issuanceIdempotencyKeyHash x = dv_issuanceIdempotencyKeyHash d))
      (db_devices (ac_control s))) UniqueViolation;;
  database_error (is_null (ac_users s !! dv_userId d)) ForeignKeyViolation;;
  modify (set_control (ControlPlane.set_devices <[id := d]>));;
  mret id.

(** [authChallenge.create] *)
Definition challenge_create (c : AuthChallenge) : AccountM string :=
  id ← account_uuid;
  s ← get;
  database_error (negb (challenge_checks c)) CheckViolation;;
  database_error (negb (is_null (ac_challenges s !! id)) ||
    exists_row (λ x, bool_decide (au_launchId x = au_launchId c) ||
                     bool_decide (au_tokenHash x = au_tokenHash c)) (ac_challenges s)) UniqueViolation;;
  database_error (match au_userId c with Some u => is_null (ac_users s !! u) | None => false end)
    ForeignKeyViolation;;
  modify (set_challenges <[id := c]>);;
  mret id.

(** [authChallenge.update] of a consumption *)
Definition challenge_consume (id replayHash sessionId : string) (now : Z) : AccountM unit :=
  s ← get;
  match ac_challenges s !! id with
  | None => throw (AccountFailure (Database RecordNotFound))
  | Some old =>
      let new := {| au_launchId := au_launchId old; au_tokenHash := au_tokenHash old;
                    au_telegramReplayHash := Some replayHash; au_sessionId := Some sessionId;
                    au_expiresAt := au_expiresAt old; au_consumedAt := Some now;
                    au_createdAt := au_createdAt old; au_userId := au_userId old |} in
      database_error (negb (challenge_checks new)) CheckViolation;;
      database_error (exists_row (λ x, bool_decide (au_telegramReplayHash x = Some replayHash) ||
          bool_decide (au_sessionId x = Some sessionId) && bool_decide (au_userId x = au_userId old))
        (delete id (ac_challenges s))) UniqueViolation;;
      database_error (negb (bool_decide (ss_userId <$> ac_sessions s !! sessionId = au_userId old)))
        ForeignKeyViolation;;
      modify (set_challenges <[id := new]>)
  end.

(** [botServiceCredential.create]; its CHECK, and the unique index on the key
    versions of a principal. *)
Definition credential_create (id : string) (c : BotServiceCredential) : AccountM unit :=
  s ← get;
  database_error (bc_keyVersion c <=? 0) CheckViolation;;
  database_error (2147483647 <? bc_keyVersion c) NumericOutOfRange;;
  database_error (negb (is_null (ac_botCredentials s !! id)) ||
    exists_row (λ x, bool_decide (bc_principalId x = bc_principalId c) &&
                     (bc_keyVersion x =? bc_keyVersion c)) (ac_botCredentials s)) UniqueViolation;;
  database_error (is_null (ac_principals s !! bc_principalId c)) ForeignKeyViolation;;
  modify (set_botCredentials <[id := c]>).

(** [botServicePrincipal.create]; the name is unique. *)
Definition principal_create (id name : string) : AccountM unit :=
  s ← get;
  database_error (negb (is_null (ac_principals s !! id)) ||
    exists_row (λ x, bool_decide (bp_name x = name)) (ac_principals s)) UniqueViolation;;
  modify (set_principals <[id := {| bp_name := name |}]>).

(** [pendingLogin.create] *)
Definition pending_create (p : PendingLogin) : AccountM string :=
  id ← account_uuid;
  s ← get;
  database_error (negb (pending_checks p)) CheckViolation;;
  database_error (negb (is_null (ac_pendingLogins s !! id)) ||
    exists_row (λ x, bool_decide (pe_pendingTokenHash x = pe_pendingTokenHash p) ||
      bool_decide (pe_telegramUserId x = pe_telegramUserId p) &&
      bool_decide (pe_confirmationCodeHash x = pe_confirmationCodeHash p)) (ac_pendingLogins s))
    UniqueViolation;;
  database_error
    (negb (bool_decide (ac_challenges s !! pe_challengeId p ≫= au_userId = Some (pe_userId p))) ||
     negb (bool_decide (us_telegramUserId <$> ac_users s !! pe_userId p = Some (pe_telegramUserId p))))
    ForeignKeyViolation;;
  modify (set_pendingLogins <[id := p]>);;
  mret id.

Definition with_pending_status (status : PendingLoginStatus) (confirmedAt consumedAt : option Z)
    (p : PendingLogin) : PendingLogin :=
  {| pe_challengeId := pe_challengeId p; pe_userId := pe_userId p;
     pe_telegramUserId := pe_telegramUserId p; pe_pendingTokenHash := pe_pendingTokenHash p;
     pe_confirmationCodeHash := pe_confirmationCodeHash p; pe_status := status;
     pe_expiresAt := pe_expiresAt p; pe_confirmedAt := confirmedAt; pe_consumedAt := consumedAt;
     pe_createdAt := pe_createdAt p |}.
(** [pendingLogin.update] of the status *)
Definition pending_update (id : string) (data : PendingLogin → PendingLogin) : AccountM unit :=
  s ← get;
  match ac_pendingLogins s !! id with
  | None => throw (AccountFailure (Database RecordNotFound))
  | Some old =>
      database_error (negb (pending_checks (data old))) CheckViolation;;
      modify (set_pendingLogins <[id := data old]>)
  end.

(** [userSession.create] *)
Definition session_create (row : UserSession) : AccountM string :=
  id ← account_uuid;
  s ← get;
  database_error (negb (is_null (ac_sessions s !! id)) ||
    exists_row (λ x, bool_decide (ss_tokenHash x = ss_tokenHash row) ||
      negb (is_null (ss_telegramReplayHash row)) &&
      bool_decide (ss_telegramReplayHash x = ss_telegramReplayHash row)) (ac_sessions s)) UniqueViolation;;
  database_error (is_null (ac_users s !! ss_userId row)) ForeignKeyViolation;;
  modify (set_sessions <[id := row]>);;
  mret id.
End statements.
