(* ===== verification/AccountInvariant.v ===== *)
(** * The invariant of the account tables

    What each statement of Accounts.v does when it returns, how the tables
    grow, and the constraints every statement keeps. *)

From S2P Require Import Prelude.
From S2P Require Import Keeps.
From S2P Require Import Json.
From S2P Require Import Sql.
From S2P Require Import ControlPlane.
From S2P Require Import AccessPolicy.
From S2P Require Import ControlPlaneInvariant.
From S2P Require Import Orchestration.
From S2P Require Import ControlFrame.
From S2P Require Import Accounts.
Open Scope Z_scope.

(** ** Running statements *)

Lemma control_ok {A} (m : DbM A) s a s' :
  control m s = (Ok a, s') → ∃ db, m (ac_control s) = (Ok a, db) ∧ s' = set_control (λ _, db) s.
Proof. unfold control. destruct (m (ac_control s)) as [[x|e] db]; naive_solver. Qed.

Lemma database_error_ok b e s u s' : database_error b e s = (Ok u, s') → b = false ∧ s' = s.
Proof. apply throw_if_ok_inv. Qed.

(** [acc_inv H]: [ok_inv H], also through the accounts' statements. *)
Ltac acc_inv H :=
  unfold database_error in H; ok_inv H.

(** A drawn identifier. *)
Definition drawn (s : Accounts) : Accounts := set_control (set_drawn S) s.

Lemma account_uuid_ok uuid s id s' :
  account_uuid uuid s = (Ok id, s') → id = uuid (db_drawn (ac_control s)) ∧ s' = drawn s.
Proof.
  unfold account_uuid, control, randomUUID, drawn. destruct s. simpl. by intros [= <- <-].
Qed.

Lemma find_row_Some {A} (p : A → bool) (t : Table A) id r :
  find_row p t = Some (id, r) → t !! id = Some r ∧ p r = true.
Proof.
  unfold find_row. intros Hh%head_Some_elem_of. apply list_elem_of_filter in Hh as [Hp Hin].
  by apply elem_of_map_to_list in Hin.
Qed.
Lemma find_row_None {A} (p : A → bool) (t : Table A) id r :
  find_row p t = None → t !! id = Some r → p r = false.
Proof.
  unfold find_row. intros Hh%head_None Hr. apply not_true_iff_false. intros Hp.
  assert (Hin : (id, r) ∈ filter (λ kv : string * A, p kv.2 = true) (map_to_list t)).
  { apply list_elem_of_filter. split; [done|]. by apply elem_of_map_to_list. }
  rewrite Hh in Hin. by apply elem_of_nil in Hin.
Qed.
(** The row of a unique value is the one that is found. *)
Lemma find_row_unique {A} (p : A → bool) (t : Table A) id r :
  t !! id = Some r → p r = true → (∀ id' r', t !! id' = Some r' → p r' = true → id' = id) →
  find_row p t = Some (id, r).
Proof.
  intros Hr Hp Hu. destruct (find_row p t) as [[id' r']|] eqn:Hf.
  - apply find_row_Some in Hf as [Hr' Hp']. specialize (Hu id' r' Hr' Hp') as ->. congruence.
  - by rewrite (find_row_None _ _ _ _ Hf Hr) in Hp.
Qed.

Section statements.
Context (uuid : nat → string) (plus_days : Z → Z → Z).

Lemma user_upsert_ok telegramUserId s id s' :
  user_upsert uuid telegramUserId s = (Ok id, s') →
  (s' = s ∧ us_telegramUserId <$> ac_users s !! id = Some telegramUserId) ∨
  (ac_users s !! id = None ∧
   (∀ id' u, ac_users s !! id' = Some u → us_telegramUserId u ≠ telegramUserId) ∧
   s' = set_users <[id := {| us_telegramUserId := telegramUserId |}]> (drawn s)).
Proof.
  unfold user_upsert. intros H. acc_inv H. destruct (find_row _ _) as [[i u]|] eqn:Hf.
  - acc_inv H. left. split; [done|]. apply find_row_Some in Hf as [-> Hu%bool_decide_eq_true]. by simpl; f_equal.
  - acc_inv H. apply account_uuid_ok in Hrun as [-> ->]. right.
    apply negb_false_iff, is_null_true in Hguard. split_and!; [done| |by destruct s].
    intros id' u Hu. apply (find_row_None _ _ _ _ Hf) in Hu. by apply bool_decide_eq_false in Hu.
Qed.

Lemma subscription_create_ok row terms s id s' :
  subscription_create uuid row terms s = (Ok id, s') →
  subscription_checks row = true ∧ db_subscriptions (ac_control s) !! id = None ∧
  (sb_status row = SUB_ACTIVE → ∀ id' r, db_subscriptions (ac_control s) !! id' = Some r →
     sb_userId r = sb_userId row → sb_status r ≠ SUB_ACTIVE) ∧
  is_Some (ac_users s !! sb_userId row) ∧ is_Some (ac_plans s !! te_planId terms) ∧
  s' = set_terms <[id := terms]> (set_control (set_subscriptions <[id := row]>) (drawn s)).
Proof.
  unfold subscription_create. intros H. acc_inv H. apply account_uuid_ok in Hrun as [-> ->].
  destruct s as [db]. simpl in *. apply negb_false_iff in Hguard.
  apply orb_false_iff in Hguard0 as [H1%negb_false_iff%is_null_true H2].
  apply orb_false_iff in Hguard1 as [H3%is_null_false H4%is_null_false].
  assert (E : db_subscriptions (set_drawn S db) = db_subscriptions db) by (by destruct db).
  rewrite E in *. split_and!; try done.
  intros Hst id' r Hr Hu Ha. rewrite bool_decide_eq_true_2 in H2 by done. simpl in H2.
  rewrite exists_row_false in H2. specialize (H2 id' r Hr).
  by rewrite !bool_decide_eq_true_2 in H2.
Qed.

Lemma activation_insert_ok id a s u s' :
  activation_insert plus_days id a s = (Ok u, s') →
  trial_days (tv_durationDays a) = true ∧ tv_activatedAt a = tv_startsAt a ∧
  tv_expiresAt a = plus_days (tv_startsAt a) (tv_durationDays a) ∧
  ac_activations s !! id = None ∧
  (∀ id' a', ac_activations s !! id' = Some a' →
     tv_userId a' ≠ tv_userId a ∧ tv_subscriptionId a' ≠ tv_subscriptionId a) ∧
  is_Some (ac_users s !! tv_userId a) ∧
  tc_planId <$> ac_campaigns s !! tv_trialCampaignId a = Some (tv_planId a) ∧
  sb_userId <$> db_subscriptions (ac_control s) !! tv_subscriptionId a = Some (tv_userId a) ∧
  te_planId <$> ac_terms s !! tv_subscriptionId a = Some (tv_planId a) ∧
  s' = set_activations <[id := a]> s.
Proof.
  unfold activation_insert. intros H. acc_inv H.
  apply negb_false_iff in Hguard. rewrite !andb_true_iff, !Z.eqb_eq in Hguard.
  destruct Hguard as [[Hd1 Hd2] Hd3].
  apply orb_false_iff in Hguard0 as [H1%negb_false_iff%is_null_true H2].
  rewrite !orb_false_iff, !negb_false_iff, !bool_decide_eq_true, is_null_false in Hguard1.
  destruct Hguard1 as [[[Hf1 Hf2] Hf3] Hf4]. split_and!; try done; intros id' a' Ha';
    rewrite exists_row_false in H2; specialize (H2 id' a' Ha');
    by apply orb_false_iff in H2 as [?%bool_decide_eq_false ?%bool_decide_eq_false].
Qed.

Lemma device_create_ok d s id s' :
  device_create uuid d s = (Ok id, s') →
  device_checks d = true ∧ db_devices (ac_control s) !! id = None ∧
  (∀ id' x, db_devices (ac_control s) !! id' = Some x →
     dv_subscriptionTokenHash x ≠ dv_subscriptionTokenHash d ∧
     (dv_issuanceIdempotencyKeyHash d = None ∨
      dv_issuanceIdempotencyKeyHash x ≠ dv_issuanceIdempotencyKeyHash d)) ∧
  is_Some (ac_users s !! dv_userId d) ∧
  s' = set_control (set_devices <[id := d]>) (drawn s).
Proof.
  unfold device_create. intros H. acc_inv H. apply account_uuid_ok in Hrun as [-> ->].
  destruct s as [db]. simpl in *. apply negb_false_iff in Hguard.
  apply orb_false_iff in Hguard0 as [H1%negb_false_iff%is_null_true H2].
  apply is_null_false in Hguard1.
  assert (E : db_devices (set_drawn S db) = db_devices db) by (by destruct db).
  rewrite E in *. split_and!; try done. intros id' x Hx.
  rewrite exists_row_false in H2. specialize (H2 id' x Hx).
  apply orb_false_iff in H2 as [?%bool_decide_eq_false H2]. split; [done|].
  apply andb_false_iff in H2 as [?%negb_false_iff%is_null_true|?%bool_decide_eq_false]; [by left|by right].
Qed.

Lemma challenge_create_ok c s id s' :
  challenge_create uuid c s = (Ok id, s') →
  challenge_checks c = true ∧ ac_challenges s !! id = None ∧
  (∀ id' x, ac_challenges s !! id' = Some x →
     au_launchId x ≠ au_launchId c ∧ au_tokenHash x ≠ au_tokenHash c) ∧
  (∀ u, au_userId c = Some u → is_Some (ac_users s !! u)) ∧
  s' = set_challenges <[id := c]> (drawn s).
Proof.
  unfold challenge_create. intros H. acc_inv H. apply account_uuid_ok in Hrun as [-> ->].
  destruct s as [db]. simpl in *. apply negb_false_iff in Hguard.
  apply orb_false_iff in Hguard0 as [H1%negb_false_iff%is_null_true H2].
  split_and!; try done; [|by intros u Hu; rewrite Hu in Hguard1; apply is_null_false].
  intros id' x Hx; rewrite exists_row_false in H2; specialize (H2 id' x Hx);
    by apply orb_false_iff in H2 as [?%bool_decide_eq_false ?%bool_decide_eq_false].
Qed.

Lemma challenge_consume_ok id replayHash sessionId now s u s' :
  challenge_consume id replayHash sessionId now s = (Ok u, s') →
  ∃ old, ac_challenges s !! id = Some old ∧
    let new := {| au_launchId := au_launchId old; au_tokenHash := au_tokenHash old;
                  au_telegramReplayHash := Some replayHash; au_sessionId := Some sessionId;
                  au_expiresAt := au_expiresAt old; au_consumedAt := Some now;
                  au_createdAt := au_createdAt old; au_userId := au_userId old |} in
    challenge_checks new = true ∧
    (∀ id' x, ac_challenges s !! id' = Some x → id' ≠ id → au_telegramReplayHash x ≠ Some replayHash) ∧
    ss_userId <$> ac_sessions s !! sessionId = au_userId old ∧
    s' = set_challenges <[id := new]> s.
Proof.
  unfold challenge_consume. intros H. acc_inv H. destruct (ac_challenges _ !! id) as [old|] eqn:Hold; [|done].
  acc_inv H. apply negb_false_iff in Hguard. apply negb_false_iff, bool_decide_eq_true in Hguard1.
  exists old. split_and!; try done; intros id' x Hx Hne; rewrite exists_row_false in Hguard0;
    specialize (Hguard0 id' x); rewrite lookup_delete_ne in Hguard0 by done; specialize (Hguard0 Hx);
    by apply orb_false_iff in Hguard0 as [?%bool_decide_eq_false _].
Qed.

Lemma credential_create_ok id c s u s' :
  credential_create id c s = (Ok u, s') →
  1 ≤ bc_keyVersion c ∧ ac_botCredentials s !! id = None ∧
  (∀ id' x, ac_botCredentials s !! id' = Some x → bc_principalId x = bc_principalId c →
     bc_keyVersion x ≠ bc_keyVersion c) ∧
  is_Some (ac_principals s !! bc_principalId c) ∧
  s' = set_botCredentials <[id := c]> s.
Proof.
  unfold credential_create. intros H. acc_inv H. apply Z.leb_gt in Hguard.
  apply orb_false_iff in Hguard1 as [H1%negb_false_iff%is_null_true H2]. apply is_null_false in Hguard2.
  split_and!; try done; [lia|]. intros id' x Hx Hp Hv. rewrite exists_row_false in H2.
  specialize (H2 id' x Hx). rewrite bool_decide_eq_true_2 in H2 by done. simpl in H2.
  by apply Z.eqb_neq in H2.
Qed.

Lemma principal_create_ok id name s u s' :
  principal_create id name s = (Ok u, s') →
  ac_principals s !! id = None ∧ (∀ id' p, ac_principals s !! id' = Some p → bp_name p ≠ name) ∧
  s' = set_principals <[id := {| bp_name := name |}]> s.
Proof.
  unfold principal_create. intros H. acc_inv H.
  apply orb_false_iff in Hguard as [H1%negb_false_iff%is_null_true H2]. split_and!; try done.
  intros id' p Hp. rewrite exists_row_false in H2. specialize (H2 id' p Hp). by apply bool_decide_eq_false in H2.
Qed.

Lemma pending_create_ok p s id s' :
  pending_create uuid p s = (Ok id, s') →
  pending_checks p = true ∧ ac_pendingLogins s !! id = None ∧
  (∀ id' x, ac_pendingLogins s !! id' = Some x → pe_pendingTokenHash x ≠ pe_pendingTokenHash p ∧
     (pe_telegramUserId x = pe_telegramUserId p → pe_confirmationCodeHash x ≠ pe_confirmationCodeHash p)) ∧
  ac_challenges s !! pe_challengeId p ≫= au_userId = Some (pe_userId p) ∧
  us_telegramUserId <$> ac_users s !! pe_userId p = Some (pe_telegramUserId p) ∧
  s' = set_pendingLogins <[id := p]> (drawn s).
Proof.
  unfold pending_create. intros H. acc_inv H. apply account_uuid_ok in Hrun as [-> ->].
  destruct s as [db]. simpl in *. apply negb_false_iff in Hguard.
  apply orb_false_iff in Hguard0 as [H1%negb_false_iff%is_null_true H2].
  apply orb_false_iff in Hguard1 as [H3%negb_false_iff%bool_decide_eq_true H4%negb_false_iff%bool_decide_eq_true].
  split_and!; try done; intros id' x Hx; rewrite exists_row_false in H2; specialize (H2 id' x Hx);
    apply orb_false_iff in H2 as [?%bool_decide_eq_false H2]; split; [done|].
  intros Ht. rewrite bool_decide_eq_true_2 in H2 by done. simpl in H2. by apply bool_decide_eq_false in H2.
Qed.

Lemma pending_update_ok id data s u s' :
  pending_update id data s = (Ok u, s') →
  ∃ old, ac_pendingLogins s !! id = Some old ∧ pending_checks (data old) = true ∧
    s' = set_pendingLogins <[id := data old]> s.
Proof.
  unfold pending_update. intros H. acc_inv H.
  destruct (ac_pendingLogins _ !! id) as [old|] eqn:Hold; [|done].
  acc_inv H. apply negb_false_iff in Hguard. eauto.
Qed.

Lemma session_create_ok row s id s' :
  session_create uuid row s = (Ok id, s') →
  ac_sessions s !! id = None ∧
  (∀ id' x, ac_sessions s !! id' = Some x → ss_tokenHash x ≠ ss_tokenHash row ∧
     (ss_telegramReplayHash row = None ∨ ss_telegramReplayHash x ≠ ss_telegramReplayHash row)) ∧
  is_Some (ac_users s !! ss_userId row) ∧
  s' = set_sessions <[id := row]> (drawn s).
Proof.
  unfold session_create. intros H. acc_inv H. apply account_uuid_ok in Hrun as [-> ->].
  destruct s as [db]. simpl in *.
  apply orb_false_iff in Hguard as [H1%negb_false_iff%is_null_true H2]. apply is_null_false in Hguard0.
  split_and!; try done. intros id' x Hx. rewrite exists_row_false in H2. specialize (H2 id' x Hx).
  apply orb_false_iff in H2 as [?%bool_decide_eq_false H2]. split; [done|].
  apply andb_false_iff in H2 as [?%negb_false_iff%is_null_true|?%bool_decide_eq_false]; [by left|by right].
Qed.
End statements.

(** ** How the tables grow *)

Definition credential_le (c c' : BotServiceCredential) : Prop :=
  c' = c ∨ bc_revokedAt c = None ∧ bc_revokedAt c' ≠ None ∧ bc_principalId c' = bc_principalId c ∧
    bc_keyCiphertext c' = bc_keyCiphertext c ∧ bc_nonce c' = bc_nonce c ∧
    bc_keyVersion c' = bc_keyVersion c.
Definition challenge_le (c c' : AuthChallenge) : Prop :=
  c' = c ∨ au_consumedAt c = None ∧ au_consumedAt c' ≠ None ∧ au_launchId c' = au_launchId c ∧
    au_userId c' = au_userId c ∧ au_expiresAt c' = au_expiresAt c.
(** A login advances from awaiting to confirmed to consumed. *)
Definition status_rank (st : PendingLoginStatus) : nat :=
  match st with AWAITING_BOT_CONFIRM => 0 | BOT_CONFIRMED => 1 | CONSUMED => 2 end.
Definition pending_le (p p' : PendingLogin) : Prop :=
  p' = p ∨ (status_rank (pe_status p) < status_rank (pe_status p'))%nat ∧
    pe_challengeId p' = pe_challengeId p ∧ pe_userId p' = pe_userId p ∧
    pe_telegramUserId p' = pe_telegramUserId p ∧
    pe_pendingTokenHash p' = pe_pendingTokenHash p ∧
    pe_confirmationCodeHash p' = pe_confirmationCodeHash p ∧ pe_expiresAt p' = pe_expiresAt p.
Definition session_le (x x' : UserSession) : Prop :=
  x' = x ∨ ss_revokedAt x = None ∧ ss_revokedAt x' ≠ None ∧ ss_userId x' = ss_userId x ∧
    ss_tokenHash x' = ss_tokenHash x ∧ ss_expiresAt x' = ss_expiresAt x.
Definition same_plan (t t' : SubscriptionTerms) : Prop := te_planId t' = te_planId t.

#[export] Instance credential_le_preorder : PreOrder credential_le.
Proof. split; [by left|]. intros c1 c2 c3. unfold credential_le. naive_solver congruence. Qed.
#[export] Instance challenge_le_preorder : PreOrder challenge_le.
Proof. split; [by left|]. intros c1 c2 c3. unfold challenge_le. naive_solver congruence. Qed.
#[export] Instance pending_le_preorder : PreOrder pending_le.
Proof.
  split; [by left|]. intros p1 p2 p3 [->|(R1&?&?&?&?&?&?)] [->|(R2&?&?&?&?&?&?)];
    [by left|right; by split_and!|right; by split_and!|right; split_and!; [lia|congruence..]].
Qed.
#[export] Instance session_le_preorder : PreOrder session_le.
Proof. split; [by left|]. intros x1 x2 x3. unfold session_le. naive_solver congruence. Qed.
#[export] Instance same_plan_preorder : PreOrder same_plan.
Proof. split; [done|]. intros t1 t2 t3. unfold same_plan. congruence. Qed.

Record tables_grow (s s' : Accounts) : Prop := {
  tg_subscriptions : rows_evolve subscription_kept (db_subscriptions (ac_control s))
                       (db_subscriptions (ac_control s'));
  tg_devices : rows_evolve device_kept (db_devices (ac_control s)) (db_devices (ac_control s'));
  tg_users : ac_users s ⊆ ac_users s';
  tg_terms : rows_evolve same_plan (ac_terms s) (ac_terms s');
  tg_activations : ac_activations s ⊆ ac_activations s';
  tg_principals : ac_principals s ⊆ ac_principals s';
  tg_credentials : rows_evolve credential_le (ac_botCredentials s) (ac_botCredentials s');
  tg_challenges : rows_evolve challenge_le (ac_challenges s) (ac_challenges s');
  tg_pendings : rows_evolve pending_le (ac_pendingLogins s) (ac_pendingLogins s');
  tg_sessions : rows_evolve session_le (ac_sessions s) (ac_sessions s');
}.
#[export] Instance tables_grow_preorder : PreOrder tables_grow.
Proof.
  split; [intros s; split; reflexivity|]. intros s1 s2 s3 [] []. split; by etrans.
Qed.

(** ** Unique values *)

Definition unique_by {A B} (key : A → option B) (t : Table A) : Prop :=
  ∀ id1 id2 r1 r2 k, t !! id1 = Some r1 → t !! id2 = Some r2 →
    key r1 = Some k → key r2 = Some k → id1 = id2.

Lemma unique_by_insert {A B} (key : A → option B) (t : Table A) id r :
  unique_by key t →
  (∀ id' x k, t !! id' = Some x → id' ≠ id → key r = Some k → key x ≠ Some k) →
  unique_by key (<[id := r]> t).
Proof.
  intros Hu Hn id1 id2 r1 r2 k [[<- <-]|[Hne1 H1]]%lookup_insert_Some [[<- <-]|[Hne2 H2]]%lookup_insert_Some K1 K2;
    [done|by destruct (Hn id2 r2 k)|by destruct (Hn id1 r1 k)|by eapply Hu].
Qed.

Lemma unique_by_kept {A B} (key : A → option B) (R : A → A → Prop) (t t' : Table A) :
  unique_by key t → rows_kept R t t' → (∀ r r' k, R r r' → key r' = Some k → key r = Some k) →
  unique_by key t'.
Proof.
  intros Hu HR Hk id1 id2 r1' r2' k H1 H2 K1 K2.
  destruct (rows_kept_back _ _ _ _ _ HR H1) as (r1 & G1 & R1).
  destruct (rows_kept_back _ _ _ _ _ HR H2) as (r2 & G2 & R2).
  eapply Hu; [exact G1|exact G2|by eapply Hk|by eapply Hk].
Qed.

(** ** What every committed state satisfies *)

Definition active_user (r : Subscription) : option string :=
  if bool_decide (sb_status r = SUB_ACTIVE) then Some (sb_userId r) else None.

(** Takes the state apart; what the statement leaves alone is as it was. *)
Ltac sound_split :=
  simpl in *; split_and!; [split|split|]; simpl; try assumption; try reflexivity.
Ltac sound_cases s := destruct s; sound_split.

Section invariant.
Context (uuid : nat → string) (plus_days : Z → Z → Z).

(** A trial: its campaign, its subscription and the subscription's plan. *)
Definition activation_ok (s : Accounts) (a : TrialActivation) : Prop :=
  trial_days (tv_durationDays a) = true ∧ tv_activatedAt a = tv_startsAt a ∧
  tv_expiresAt a = plus_days (tv_startsAt a) (tv_durationDays a) ∧
  tc_planId <$> ac_campaigns s !! tv_trialCampaignId a = Some (tv_planId a) ∧
  sb_userId <$> db_subscriptions (ac_control s) !! tv_subscriptionId a = Some (tv_userId a) ∧
  te_planId <$> ac_terms s !! tv_subscriptionId a = Some (tv_planId a) ∧
  is_Some (ac_users s !! tv_userId a).

Record account_ok (s : Accounts) : Prop := {
  ao_subscriptions : map_Forall (λ _ r, subscription_checks r = true) (db_subscriptions (ac_control s));
  ao_active : unique_by active_user (db_subscriptions (ac_control s));
  ao_users : unique_by (Some ∘ us_telegramUserId) (ac_users s);
  ao_issuance : unique_by dv_issuanceIdempotencyKeyHash (db_devices (ac_control s));
  ao_activations : map_Forall (λ _, activation_ok s) (ac_activations s);
  ao_trials : unique_by (Some ∘ tv_userId) (ac_activations s);
  ao_challenges : map_Forall (λ _ c, challenge_checks c = true) (ac_challenges s);
  ao_launches : unique_by (Some ∘ au_launchId) (ac_challenges s);
  ao_pendings : map_Forall (λ _ p, pending_checks p = true) (ac_pendingLogins s);
  ao_tokens : unique_by (Some ∘ pe_pendingTokenHash) (ac_pendingLogins s);
  ao_codes : unique_by (λ p, Some (pe_telegramUserId p, pe_confirmationCodeHash p)) (ac_pendingLogins s);
  ao_sessions : unique_by (Some ∘ ss_tokenHash) (ac_sessions s);
  ao_versions : unique_by (λ c, Some (bc_principalId c, bc_keyVersion c)) (ac_botCredentials s);
  ao_principals : unique_by (Some ∘ bp_name) (ac_principals s);
  ao_terms : ∀ id, db_subscriptions (ac_control s) !! id = None → ac_terms s !! id = None;
  ao_sourced : sourced (ac_control s);
  ao_owners : map_Forall (λ _ c, is_Some (ac_principals s !! bc_principalId c)) (ac_botCredentials s);
}.

Lemma account_ok_empty : account_ok empty_accounts.
Proof. split; try apply map_Forall_empty; try done; by intros id1 id2 r1 r2. Qed.

(** A statement keeps the invariant, grows the tables and leaves the stored
    requests. *)
Definition sound (s s' : Accounts) : Prop :=
  account_ok s → account_ok s' ∧ tables_grow s s' ∧ ac_requests s' = ac_requests s.
#[export] Instance sound_preorder : PreOrder sound.
Proof.
  split; [intros s Hs; split_and!; [done|reflexivity|done]|].
  intros s1 s2 s3 H12 H23 H1. destruct (H12 H1) as (H2 & G12 & E12). destruct (H23 H2) as (H3 & G23 & E23).
  split_and!; [done|by etrans|congruence].
Qed.

(** Trials depend on the tables they join. *)
Lemma activations_ok_grow s s' :
  map_Forall (λ _, activation_ok s) (ac_activations s) →
  rows_evolve subscription_kept (db_subscriptions (ac_control s)) (db_subscriptions (ac_control s')) →
  rows_evolve same_plan (ac_terms s) (ac_terms s') → ac_campaigns s' = ac_campaigns s →
  ac_users s ⊆ ac_users s' →
  ac_activations s' = ac_activations s → map_Forall (λ _, activation_ok s') (ac_activations s').
Proof.
  intros Ha Hs Ht Hc Hu -> id a Hid. destruct (Ha id a Hid) as (H1 & H2 & H3 & H4 & H5 & H6 & [u H7]).
  split_and!; [done|done|done|by rewrite Hc| | |exists u; by eapply lookup_weaken].
  - apply fmap_Some in H5 as (r & Hr & Hru). destruct (Hs _ _ Hr) as (r' & -> & Hu' & _).
    simpl. congruence.
  - apply fmap_Some in H6 as (t & Htt & Hp). destruct (Ht _ _ Htt) as (t' & -> & Hp').
    simpl. unfold same_plan in Hp'. congruence.
Qed.

(** Steps of the control plane. *)
Lemma frame_sound db s : frame (ac_control s) db → sound s (set_control (λ _, db) s).
Proof.
  intros [Hsub Hdev Hsrc] [].
  assert (Ha : map_Forall (λ _, activation_ok (set_control (λ _, db) s))
      (ac_activations (set_control (λ _, db) s))).
  { apply (activations_ok_grow s); [done|..]; destruct s; [apply Hsub|reflexivity|done|done|done]. }
  destruct s as [db0]. simpl in *. split_and!; [|split; simpl; try reflexivity; [apply Hsub|apply Hdev]|done].
  split; try assumption; simpl.
  - intros id r' Hr'. destruct (rows_kept_back _ _ _ _ _ Hsub Hr') as (r & Hr0 & _ & _ & _ & [->|[? _]] & _);
      [by apply (ao_subscriptions0 id)|done].
  - eapply unique_by_kept; [done|done|]. intros r r' k (Hu & _ & _ & [->|[_ Hs]] & _); [done|].
    unfold active_user. by rewrite bool_decide_eq_false_2.
  - eapply unique_by_kept; [done|done|]. intros d d' k ((_ & _ & _ & ->) & _). done.
  - intros id Hn. apply ao_terms0. destruct (db_subscriptions db0 !! id) as [r|] eqn:Hrow; [|done].
    destruct Hsub as [He _]. destruct (He _ _ Hrow) as (r' & Hr' & _). congruence.
  - by apply Hsrc.
Qed.
Lemma control_sound {A} (m : DbM A) : commits frame m → commits sound (control m).
Proof. intros Hm s a s' (db & Hr & ->)%control_ok. by eapply frame_sound, Hm. Qed.
Lemma control_keeps_sound {A} (m : DbM A) : keeps frame m → commits sound (control m).
Proof. intros Hm. by apply control_sound, commits_keeps. Qed.

Lemma subscriptions_kept_sound f s :
  rows_kept subscription_kept (db_subscriptions (ac_control s)) (f (db_subscriptions (ac_control s))) →
  sound s (set_control (set_subscriptions f) s).
Proof.
  intros Hk. replace (set_control (set_subscriptions f) s)
    with (set_control (λ _, set_subscriptions f (ac_control s)) s) by (by destruct s).
  apply frame_sound. destruct (ac_control s). split; [done|reflexivity|done].
Qed.
Lemma terms_kept_sound f s :
  rows_kept same_plan (ac_terms s) (f (ac_terms s)) → sound s (set_terms f s).
Proof.
  intros [He Hn] Hok. pose proof Hok as [].
  assert (Ha : map_Forall (λ _, activation_ok (set_terms f s)) (ac_activations (set_terms f s))).
  { apply (activations_ok_grow s); [done|..]; by destruct s. }
  destruct s. simpl in *. split_and!; [|split; simpl; try reflexivity; done|done].
  split; try assumption; simpl. intros id Hr. apply Hn, ao_terms0, Hr.
Qed.

(** *** Inserted and updated rows *)

Lemma evolve_fresh {A} (R : A → A → Prop) `{!PreOrder R} (t : Table A) id r :
  t !! id = None → rows_evolve R t (<[id := r]> t).
Proof. intros Hn. apply rows_evolve_insert; [done|]. congruence. Qed.


Lemma drawn_sound s : sound s (drawn s).
Proof.
  assert (Hm : commits sound (control (randomUUID uuid))).
  { apply control_keeps_sound, randomUUID_frame. }
  apply (Hm s (uuid (db_drawn (ac_control s)))). by destruct s.
Qed.

Lemma account_uuid_sound : commits sound (account_uuid uuid).
Proof. apply control_keeps_sound, randomUUID_frame. Qed.

(** A statement that draws an identifier first. *)
Lemma sound_after_drawn s s' : sound (drawn s) s' → sound s s'.
Proof. intros Hs. etrans; [apply drawn_sound|done]. Qed.

Lemma set_users_sound id telegramUserId s :
  ac_users s !! id = None →
  (∀ id' u, ac_users s !! id' = Some u → us_telegramUserId u ≠ telegramUserId) →
  sound s (set_users <[id := {| us_telegramUserId := telegramUserId |}]> s).
Proof.
  intros Hn Hu [].
  assert (Ha : map_Forall (λ _, activation_ok (set_users <[id := {| us_telegramUserId := telegramUserId |}]> s))
      (ac_activations (set_users <[id := {| us_telegramUserId := telegramUserId |}]> s))).
  { apply (activations_ok_grow s); [done|..]; destruct s; try done. by apply insert_subseteq. }
  sound_cases s.
  - apply unique_by_insert; [done|]. intros id' x k Hx _ [= <-] [=]. by eapply Hu.
  - by apply insert_subseteq.
Qed.
Lemma user_upsert_sound telegramUserId : commits sound (user_upsert uuid telegramUserId).
Proof.
  intros s id s' [[-> _]|(Hn & Hu & ->)]%user_upsert_ok; [reflexivity|].
  apply sound_after_drawn, set_users_sound; by destruct s.
Qed.

Lemma subscription_inserted_sound id row terms s :
  subscription_checks row = true → db_subscriptions (ac_control s) !! id = None →
  (sb_status row = SUB_ACTIVE → ∀ id' r, db_subscriptions (ac_control s) !! id' = Some r →
     sb_userId r = sb_userId row → sb_status r ≠ SUB_ACTIVE) →
  sound s (set_terms <[id := terms]> (set_control (set_subscriptions <[id := row]>) s)).
Proof.
  intros Hc Hn Ha Hok. pose proof (ao_terms _ Hok id Hn) as Ht. destruct Hok.
  assert (Hsub : rows_evolve subscription_kept (db_subscriptions (ac_control s))
                   (<[id := row]> (db_subscriptions (ac_control s)))) by (by apply evolve_fresh; [apply _|]).
  assert (Hterms : rows_evolve same_plan (ac_terms s) (<[id := terms]> (ac_terms s)))
    by (by apply evolve_fresh; [apply _|]).
  set (s' := set_terms _ _).
  assert (Hact : map_Forall (λ _, activation_ok s') (ac_activations s')).
  { apply (activations_ok_grow s); [done|..]; by destruct s as [[]]. }
  subst s'. destruct s as [[]]. sound_split.
  - by apply map_Forall_insert_2.
  - apply unique_by_insert; [done|]. intros id' x k Hx _. unfold active_user.
    case_bool_decide as H1; [|done]. case_bool_decide as H2; [|done]. intros [= <-] [= Hu].
    by apply (Ha H1 _ _ Hx Hu).
  - intros id' [Hn' Hne]%lookup_insert_None. apply lookup_insert_None. auto.
Qed.
Lemma subscription_create_sound row terms : commits sound (subscription_create uuid row terms).
Proof.
  intros s id s' (Hc & Hn & Ha & _ & _ & ->)%subscription_create_ok. apply sound_after_drawn.
  apply subscription_inserted_sound; by destruct s as [[]].
Qed.

Lemma activation_insert_sound id a : commits sound (activation_insert plus_days id a).
Proof.
  intros s u s' (H1 & H2 & H3 & Hn & Hu & H7 & H4 & H5 & H6 & ->)%activation_insert_ok [].
  sound_cases s.
  - apply map_Forall_insert_2; [by split_and!|done].
  - apply unique_by_insert; [done|]. intros id' x k Hx _ [= <-] [= Hx']. by destruct (Hu _ _ Hx).
  - by apply insert_subseteq.
Qed.

Lemma device_inserted_sound id d s :
  db_devices (ac_control s) !! id = None →
  (∀ id' x, db_devices (ac_control s) !! id' = Some x →
     dv_issuanceIdempotencyKeyHash d = None ∨
     dv_issuanceIdempotencyKeyHash x ≠ dv_issuanceIdempotencyKeyHash d) →
  sound s (set_control (set_devices <[id := d]>) s).
Proof.
  intros Hn Hu [].
  assert (Hact : map_Forall (λ _, activation_ok (set_control (set_devices <[id := d]>) s))
                   (ac_activations s)) by (by destruct s as [[]]).
  destruct s as [[]]. sound_split.
  - apply unique_by_insert; [done|]. intros id' x k Hx _ Hk. destruct (Hu _ _ Hx); congruence.
  - by apply evolve_fresh; [apply _|].
Qed.
Lemma device_create_sound d : commits sound (device_create uuid d).
Proof.
  intros s id s' (_ & Hn & Hu & _ & ->)%device_create_ok. apply sound_after_drawn.
  apply device_inserted_sound; [by destruct s as [[]]|]. intros id' x Hx. apply (Hu id'). by destruct s as [[]].
Qed.

Lemma challenge_inserted_sound id c s :
  challenge_checks c = true → ac_challenges s !! id = None →
  (∀ id' x, ac_challenges s !! id' = Some x → au_launchId x ≠ au_launchId c) →
  sound s (set_challenges <[id := c]> s).
Proof.
  intros Hc Hn Hu []. sound_cases s.
  - by apply map_Forall_insert_2.
  - apply unique_by_insert; [done|]. intros id' x k Hx _ [= <-] [=]. by eapply Hu.
  - by apply evolve_fresh; [apply _|].
Qed.

Lemma pending_inserted_sound id p s :
  pending_checks p = true → ac_pendingLogins s !! id = None →
  (∀ id' x, ac_pendingLogins s !! id' = Some x → pe_pendingTokenHash x ≠ pe_pendingTokenHash p ∧
     (pe_telegramUserId x = pe_telegramUserId p → pe_confirmationCodeHash x ≠ pe_confirmationCodeHash p)) →
  sound s (set_pendingLogins <[id := p]> s).
Proof.
  intros Hc Hn Hu []. sound_cases s.
  - by apply map_Forall_insert_2.
  - apply unique_by_insert; [done|]. intros id' x k Hx _ [= <-] [=]. by destruct (Hu _ _ Hx).
  - apply unique_by_insert; [done|]. intros id' x k Hx _ [= <-] [=]. destruct (Hu _ _ Hx). naive_solver.
  - by apply evolve_fresh; [apply _|].
Qed.
Lemma pending_create_sound p : commits sound (pending_create uuid p).
Proof.
  intros s id s' (Hc & Hn & Hu & _ & _ & ->)%pending_create_ok. apply sound_after_drawn.
  apply pending_inserted_sound; by destruct s as [[]].
Qed.

(** A login that advances. *)
Lemma pending_updated_sound id old st confirmed consumed s :
  ac_pendingLogins s !! id = Some old →
  (status_rank (pe_status old) < status_rank st)%nat →
  pending_checks (with_pending_status st confirmed consumed old) = true →
  sound s (set_pendingLogins <[id := with_pending_status st confirmed consumed old]> s).
Proof.
  intros Hold Hr Hc []. sound_cases s.
  - by apply map_Forall_insert_2.
  - apply unique_by_insert; [done|]. intros id' x k Hx Hne [= <-] [= Heq].
    apply Hne. by apply (ao_tokens0 id' id x old (pe_pendingTokenHash old)); simpl; rewrite ?Heq.
  - apply unique_by_insert; [done|]. intros id' x k Hx Hne [= <-] [= Heq1 Heq2].
    apply Hne. by apply (ao_codes0 id' id x old (pe_telegramUserId old, pe_confirmationCodeHash old));
      simpl; rewrite ?Heq1, ?Heq2.
  - apply rows_evolve_insert; [apply _|]. intros p Hp. assert (p = old) as -> by congruence.
    right. by split_and!.
Qed.

(** A challenge that is used. *)
Lemma challenge_consumed_sound id old replay sessionId now s :
  ac_challenges s !! id = Some old → au_consumedAt old = None →
  let new := {| au_launchId := au_launchId old; au_tokenHash := au_tokenHash old;
                au_telegramReplayHash := Some replay; au_sessionId := Some sessionId;
                au_expiresAt := au_expiresAt old; au_consumedAt := Some now;
                au_createdAt := au_createdAt old; au_userId := au_userId old |} in
  challenge_checks new = true →
  sound s (set_challenges <[id := new]> s).
Proof.
  intros Hold Hnone new Hc []. subst new. sound_cases s.
  - by apply map_Forall_insert_2.
  - apply unique_by_insert; [done|]. intros id' x k Hx Hne [= <-] [= Heq].
    apply Hne. by apply (ao_launches0 id' id x old (au_launchId old)); simpl; rewrite ?Heq.
  - apply rows_evolve_insert; [apply _|]. intros c Hcc. assert (c = old) as -> by congruence.
    right. by split_and!.
Qed.

Lemma session_inserted_sound id row s :
  ac_sessions s !! id = None →
  (∀ id' x, ac_sessions s !! id' = Some x → ss_tokenHash x ≠ ss_tokenHash row) →
  sound s (set_sessions <[id := row]> s).
Proof.
  intros Hn Hu []. sound_cases s.
  - apply unique_by_insert; [done|]. intros id' x k Hx _ [= <-] [=]. by eapply Hu.
  - by apply evolve_fresh; [apply _|].
Qed.
Lemma session_create_sound row : commits sound (session_create uuid row).
Proof.
  intros s id s' (Hn & Hu & _ & ->)%session_create_ok. apply sound_after_drawn.
  apply session_inserted_sound; [by destruct s|]. intros id' x Hx. apply (Hu id'). by destruct s.
Qed.

Lemma credential_create_sound id c : commits sound (credential_create id c).
Proof.
  intros s u s' (_ & Hn & Hu & Hp & ->)%credential_create_ok []. sound_cases s.
  - apply unique_by_insert; [done|]. intros id' x k Hx _ [= <-] [= H1 H2]. by eapply Hu.
  - by apply map_Forall_insert_2.
  - by apply evolve_fresh; [apply _|].
Qed.
Lemma principal_create_sound id name : commits sound (principal_create id name).
Proof.
  intros s u s' (Hn & Hu & ->)%principal_create_ok []. sound_cases s.
  - apply unique_by_insert; [done|]. intros id' x k Hx _ [= <-] [=]. by eapply Hu.
  - intros i c Hc. destruct (ao_owners0 i c Hc) as [p Hp]. exists p. rewrite lookup_insert_ne; [done|congruence].
  - by apply insert_subseteq.
Qed.
End invariant.
