(* ===== verification/Base64Url.v ===== *)
(** * Base64url, as Node's [Buffer] writes and reads it

    [buffer.toString('base64url')] and [Buffer.from(text, 'base64url')] of a
    text of the alphabet: secrets, launch identifiers and sealed keys are
    written this way.  Reading drops the bits that do not fill a byte, so a
    text is canonical when writing gives it back. *)

From Stdlib Require Import Ascii.
From S2P Require Import Prelude.
From S2P Require Import DataPlaneCredential.
Open Scope Z_scope.

(** A-Z, a-z, 0-9, [-], [_] *)
Definition sextet_char (n : Z) : ascii :=
  ascii_of_nat (Z.to_nat (if n <? 26 then 65 + n else if n <? 52 then 71 + n
    else if n <? 62 then n - 4 else if n =? 62 then 45 else 95)).
Definition char_sextet (a : ascii) : option Z :=
  let n := Z.of_nat (nat_of_ascii a) in
  if (65 <=? n) && (n <=? 90) then Some (n - 65)
  else if (97 <=? n) && (n <=? 122) then Some (n - 71)
  else if (48 <=? n) && (n <=? 57) then Some (n + 4)
  else if n =? 45 then Some 62
  else if n =? 95 then Some 63
  else None.

Fixpoint base64url (l : list Z) : string :=
  match l with
  | [] => EmptyString
  | [a] => String (sextet_char (a / 4)) (String (sextet_char (a mod 4 * 16)) EmptyString)
  | [a; b] => String (sextet_char (a / 4)) (String (sextet_char (a mod 4 * 16 + b / 16))
                (String (sextet_char (b mod 16 * 4)) EmptyString))
  | a :: b :: c :: rest =>
      String (sextet_char (a / 4)) (String (sextet_char (a mod 4 * 16 + b / 16))
        (String (sextet_char (b mod 16 * 4 + c / 64)) (String (sextet_char (c mod 64)) (base64url rest))))
  end.

(** [/^[A-Za-z0-9_-]*$/] *)
Definition base64url_text (s : string) : bool :=
  string_forall (λ a, negb (bool_decide (char_sextet a = None))) s.

(** Of a text of the alphabet. *)
Fixpoint from_base64url (s : string) : list Z :=
  let value a := default 0 (char_sextet a) in
  match s with
  | String a (String b EmptyString) => [value a * 4 + value b / 16]
  | String a (String b (String c EmptyString)) =>
      [value a * 4 + value b / 16; value b mod 16 * 16 + value c / 4]
  | String a (String b (String c (String d rest))) =>
      value a * 4 + value b / 16 :: value b mod 16 * 16 + value c / 4 ::
      value c mod 4 * 64 + value d :: from_base64url rest
  | _ => []
  end.

(** ** Facts *)

Lemma char_sextet_char n : 0 ≤ n < 64 → char_sextet (sextet_char n) = Some n.
Proof.
  intros Hn.
  assert (Hall : forallb (λ k, bool_decide (char_sextet (sextet_char (Z.of_nat k)) = Some (Z.of_nat k)))
    (seq 0 64) = true) by (vm_compute; reflexivity).
  rewrite forallb_forall in Hall. rewrite <- (Z2Nat.id n) by lia.
  apply (bool_decide_eq_true (char_sextet (sextet_char (Z.of_nat (Z.to_nat n))) = Some (Z.of_nat (Z.to_nat n)))).
  apply Hall, in_seq. lia.
Qed.

Ltac byte_arith := unfold is_byte in *; Z.to_euclidean_division_equations; lia.

(** Three bytes at a time. *)
Lemma base64url_ind (P : list Z → Prop) :
  P [] → (∀ a, P [a]) → (∀ a b, P [a; b]) →
  (∀ a b c rest, P rest → P (a :: b :: c :: rest)) → ∀ l, P l.
Proof.
  intros H0 H1 H2 H3. fix go 1. intros [|a [|b [|c rest]]]; [exact H0|apply H1|apply H2|apply H3, go].
Qed.

Lemma from_base64url_base64url l : Forall is_byte l → from_base64url (base64url l) = l.
Proof.
  induction l as [|a|a b|a b c rest IH] using base64url_ind; intros Hl; [done|..];
    repeat match goal with H : Forall _ (_ :: _) |- _ => apply Forall_cons in H as [? H] end;
    cbn [base64url from_base64url]; rewrite !char_sextet_char by byte_arith; cbn [default id];
    rewrite ?IH by done; repeat first [done | apply (f_equal2 cons); [byte_arith|]].
Qed.

Lemma base64url_is_text l : Forall is_byte l → base64url_text (base64url l) = true.
Proof.
  unfold base64url_text.
  induction l as [|a|a b|a b c rest IH] using base64url_ind; intros Hl; [done|..];
    repeat match goal with H : Forall _ (_ :: _) |- _ => apply Forall_cons in H as [? H] end;
    cbn [base64url string_forall]; rewrite !char_sextet_char by byte_arith; cbn; auto.
Qed.

Lemma base64url_length l :
  Z.of_nat (String.length (base64url l)) = (4 * Z.of_nat (length l) + 2) / 3.
Proof.
  induction l as [|a|a b|a b c rest IH] using base64url_ind; [done..|].
  cbn [base64url String.length length]. rewrite !Nat2Z.inj_succ, IH. Z.to_euclidean_division_equations. lia.
Qed.
