(* ===== verification/BotSigningKey.v ===== *)
(** * The envelope of the bot's signing key: [apps/api/src/auth/bot-signing-key.ts]

    The signing key of a bot credential is stored sealed under a key-encryption
    key, with the credential, its principal and the key's version as the
    associated data.  AES-256-GCM is a parameter. *)

From Stdlib Require Import Ascii.
From stdpp Require Import pretty.
From S2P Require Import Prelude.
From S2P Require Import DataPlaneCredential.
From S2P Require Import Base64Url.
Open Scope Z_scope.

(** [createCipheriv('aes-256-gcm', key, nonce)] and its inverse: [open] fails
    unless key, nonce, associated data and tag are those of the sealing. *)
Class Aes256Gcm := {
  seal : list Z → list Z → string → list Z → list Z * list Z;
  open : list Z → list Z → string → list Z → list Z → option (list Z);
  open_seal key nonce aad plain : Forall is_byte plain →
    open key nonce aad (seal key nonce aad plain).1 (seal key nonce aad plain).2 = Some plain;
  seal_length key nonce aad plain : length (seal key nonce aad plain).1 = length plain;
  tag_length key nonce aad plain : length (seal key nonce aad plain).2 = 16%nat;
  seal_bytes key nonce aad plain : Forall is_byte (seal key nonce aad plain).1;
  tag_bytes key nonce aad plain : Forall is_byte (seal key nonce aad plain).2;
}.

Definition keyByteLength : nat := 32.
Definition nonceByteLength : nat := 12.
Definition authenticationTagByteLength : nat := 16.

Record BotSigningKeyEnvelopeContext := {
  bk_credentialId : string;
  bk_principalId : string;
  bk_keyVersion : Z;
}.
Record EncryptedBotSigningKey := { bk_keyCiphertext : string; bk_nonce : string }.

Definition nul : string := String "000" EmptyString.

Definition envelopeAad (context : BotSigningKeyEnvelopeContext) : string :=
  "bot-signing-key-envelope-v1" +:+ nul +:+ bk_credentialId context +:+ nul +:+
  bk_principalId context +:+ nul +:+ pretty (bk_keyVersion context).

(** A text of the alphabet that encodes exactly [expectedLength] bytes. *)
Definition decodeBase64Url (value : string) (expectedLength : nat) : option (list Z) :=
  guard (value ≠ EmptyString);;
  guard (base64url_text value = true);;
  let decoded := from_base64url value in
  guard (length decoded = expectedLength);;
  guard (base64url decoded = value);;
  Some decoded.
Definition decodeKey (value : string) : option (list Z) := decodeBase64Url value keyByteLength.

(** [value.split('.')] *)
Fixpoint split_dots (s : string) : list string :=
  match s with
  | EmptyString => [EmptyString]
  | String a s' =>
      if Ascii.eqb a "." then EmptyString :: split_dots s'
      else match split_dots s' with
           | [] => [String a EmptyString]
           | t :: rest => String a t :: rest
           end
  end.

Section envelope.
Context `{Aes256Gcm}.

Definition encryptBotSigningKey (signingKey : list Z) (encodedKek : string)
    (context : BotSigningKeyEnvelopeContext) (nonce : list Z) : option EncryptedBotSigningKey :=
  guard (length signingKey = keyByteLength);; guard (length nonce = nonceByteLength);;
  kek ← decodeKey encodedKek;
  let '(ciphertext, tag) := seal kek nonce (envelopeAad context) signingKey in
  Some {| bk_keyCiphertext := base64url ciphertext +:+ "." +:+ base64url tag;
          bk_nonce := base64url nonce |}.

Definition decryptBotSigningKey (encrypted : EncryptedBotSigningKey) (encodedKek : string)
    (context : BotSigningKeyEnvelopeContext) : option (list Z) :=
  kek ← decodeKey encodedKek;
  nonce ← decodeBase64Url (bk_nonce encrypted) nonceByteLength;
  match split_dots (bk_keyCiphertext encrypted) with
  | [ciphertextValue; authenticationTagValue] =>
      ciphertext ← decodeBase64Url ciphertextValue keyByteLength;
      authenticationTag ← decodeBase64Url authenticationTagValue authenticationTagByteLength;
      signingKey ← open kek nonce (envelopeAad context) ciphertext authenticationTag;
      guard (length signingKey = keyByteLength);; Some signingKey
  | _ => None
  end.

Lemma decode_encoded l n :
  l ≠ [] → Forall is_byte l → length l = n → decodeBase64Url (base64url l) n = Some l.
Proof using Type.
  intros Hne Hl Hn. unfold decodeBase64Url.
  rewrite option_guard_True by (by destruct l as [|? [|? [|? ?]]]). simpl.
  rewrite option_guard_True by (by apply base64url_is_text). simpl.
  rewrite from_base64url_base64url by done. rewrite option_guard_True by done. simpl.
  by rewrite option_guard_True.
Qed.

(** A text of the alphabet has no dot. *)
Lemma split_dots_text s : base64url_text s = true → split_dots s = [s].
Proof using Type.
  induction s as [|a s IH]; [done|]. unfold base64url_text. cbn [string_forall split_dots].
  intros [Ha Hs]%andb_prop. rewrite (IH Hs).
  destruct (Ascii.eqb_spec a ".") as [->|]; [by vm_compute in Ha|done].
Qed.

Lemma split_dots_two s t :
  base64url_text s = true → base64url_text t = true → split_dots (s +:+ "." +:+ t) = [s; t].
Proof using Type.
  intros Hs Ht. induction s as [|a s IH].
  { change (EmptyString :: split_dots t = [EmptyString; t]). by rewrite (split_dots_text t Ht). }
  unfold base64url_text in Hs. cbn [string_forall] in Hs. apply andb_prop in Hs as [Ha Hs].
  change (split_dots (String a (s +:+ "." +:+ t)) = [String a s; t]). cbn [split_dots].
  rewrite (IH Hs). destruct (Ascii.eqb_spec a ".") as [->|]; [by vm_compute in Ha|done].
Qed.

(** A sealed signing key opens to itself, under the key-encryption key and
    for the credential, principal and version it was sealed for. *)
Lemma signing_key_roundtrip signingKey encodedKek context nonce encrypted :
  Forall is_byte signingKey → Forall is_byte nonce →
  encryptBotSigningKey signingKey encodedKek context nonce = Some encrypted →
  decryptBotSigningKey encrypted encodedKek context = Some signingKey.
Proof using Type.
  unfold encryptBotSigningKey, decryptBotSigningKey. intros Hbytes Hnonce Henc.
  option_invert Henc.
  lazymatch goal with Hk : length signingKey = _, Hn : length nonce = _, Hd : decodeKey _ = Some ?k |- _ =>
    rename Hk into Hkey, Hn into Hlen, Hd into Hkek; rename k into kek end.
  pose proof (open_seal kek nonce (envelopeAad context) signingKey Hbytes) as Hopen.
  pose proof (seal_length kek nonce (envelopeAad context) signingKey) as Hcl.
  pose proof (tag_length kek nonce (envelopeAad context) signingKey) as Htl.
  pose proof (seal_bytes kek nonce (envelopeAad context) signingKey) as Hcb.
  pose proof (tag_bytes kek nonce (envelopeAad context) signingKey) as Htb.
  destruct (seal kek nonce (envelopeAad context) signingKey) as [ciphertext tag]. simpl in *.
  injection Henc as <-. rewrite Hkek. simpl. rewrite decode_encoded; [|intros ->; done|done|done]. simpl.
  rewrite split_dots_two by (by apply base64url_is_text).
  rewrite (decode_encoded ciphertext); [|intros ->; unfold keyByteLength in *; simpl in *; lia|done|congruence].
  simpl. rewrite (decode_encoded tag); [|intros ->; done|done|done]. simpl. rewrite Hopen. simpl.
  by rewrite option_guard_True.
Qed.
End envelope.
