(* ===== verification/BotRequests.v ===== *)
(** * Signed requests of the bot: [apps/api/src/auth/]

    [BotRequestAuthenticationService] (the signature, the clock and the nonce of
    a request), [BotRequestExecutionService] (its idempotency), and the
    lifecycle of the bot's credentials (bot-credential-lifecycle.ts).  Redis,
    which reserves nonces, is a store of its own: a key lives until its time.
    A request's raw body is a string of bytes. *)

From Stdlib Require Import Ascii.
From stdpp Require Import pretty.
From S2P Require Import Prelude.
From S2P Require Import Text.
From S2P Require Import Json.
From S2P Require Import Sql.
From S2P Require Import NodeAgentContract.
From S2P Require Import ControlPlane.
From S2P Require Import DataPlaneCredential.
From S2P Require Import Base64Url.
From S2P Require Import BotSigningKey.
From S2P Require Import Accounts.
Open Scope Z_scope.

(** ** Execution *)

Record AuthenticatedBotRequest := {
  br_credentialId : string;
  br_idempotencyKey : string;
  br_method : string;
  br_path : string;
  br_principalId : string;
  br_requestHash : string;
  br_telegramUserId : string;
}.

Record BotOperationResponse := { or_statusCode : Z; or_body : json }.
Record BotExecutionResult := { xr_statusCode : Z; xr_body : json; xr_replayed : bool }.

Definition idempotencyScope (request : AuthenticatedBotRequest) : BotScope :=
  {| sc_principalId := br_principalId request; sc_method := br_method request;
     sc_path := br_path request; sc_telegramUserId := br_telegramUserId request;
     sc_idempotencyKey := br_idempotencyKey request |}.

(** The credential of the request, not revoked. *)
Definition credential_active (s : Accounts) (request : AuthenticatedBotRequest) : bool :=
  match ac_botCredentials s !! br_credentialId request with
  | Some c => bool_decide (bc_principalId c = br_principalId request) && is_null (bc_revokedAt c)
  | None => false
  end.

(** What a stored request answers. *)
Definition stored_response (request : AuthenticatedBotRequest) (existing : BotRequestIdempotency)
    : AccountM BotExecutionResult :=
  if negb (bool_decide (bi_requestHash existing = br_requestHash request))
  then throw (ConflictException "Idempotency key conflicts with another request")
  else match bi_completedAt existing, bi_responseStatus existing, bi_responseBody existing with
       | Some _, Some status, Some body =>
           mret {| xr_statusCode := status; xr_body := body; xr_replayed := true |}
       | _, _, _ => throw (ServiceUnavailableException "Bot request result is unavailable")
       end.

Definition execute (request : AuthenticatedBotRequest) (operation : AccountM BotOperationResponse)
    (now : Z) : AccountM BotExecutionResult :=
  let scope := idempotencyScope request in
  atomically (
    s ← get;
    throw_if (negb (credential_active s request)) (UnauthorizedException "Bot request is invalid");;
    match ac_requests s !! scope with
    | Some existing => stored_response request existing
    | None =>
        modify (set_requests <[scope := {| bi_requestHash := br_requestHash request;
          bi_responseStatus := None; bi_responseBody := None; bi_completedAt := None |}]>);;
        response ← operation;
        throw_if ((or_statusCode response <? 100) || (599 <? or_statusCode response))
          (AccountFailure (Thrown "Bot operation returned an invalid HTTP status"));;
        modify (set_requests <[scope := {| bi_requestHash := br_requestHash request;
          bi_responseStatus := Some (or_statusCode response); bi_responseBody := Some (or_body response);
          bi_completedAt := Some now |}]>);;
        mret {| xr_statusCode := or_statusCode response; xr_body := or_body response;
                xr_replayed := false |}
    end).

(** ** Rate limits: [auth-issuer-rate-limiter.service.ts],
    [trial-activation-rate-limiter.service.ts] *)

(** [attempts]: what [incrementWithExpiry] returns, or [None] when it throws. *)
Definition assert_allowed (attempts : option Z) (maximum : Z) (tooMany unavailable : string)
    : AccountM unit :=
  match attempts with
  | Some n => throw_if (maximum <? n) (TooManyRequests tooMany)
  | None => throw (ServiceUnavailableException unavailable)
  end.

(** ** Authentication *)

Record BotAuthenticationInput := {
  ba_credentialId : string;
  ba_idempotencyKey : string;
  ba_nonce : string;
  ba_signature : string;
  ba_timestamp : string;
  ba_method : string;
  ba_path : string;
  ba_rawBody : string;
  ba_telegramUserId : string;
}.

Definition newline : string := String "010" EmptyString.
Definition join (separator : string) (l : list string) : string := String.concat separator l.

(** [createBotRequestCanonicalString] of [packages/contracts/src/bot-auth.ts] *)
Definition createBotRequestCanonicalString (credentialId method path timestamp nonce telegramUserId
    idempotencyKey rawBodySha256 : string) : string :=
  join newline [credentialId; method; path; timestamp; nonce; telegramUserId; idempotencyKey;
                rawBodySha256].

(** The reserved keys of Redis, and until when. *)
Notation Reservations := (gmap string Z).
(** [SET key 1 PX ttl NX] *)
Definition reserveOnce (key : string) (ttlMs now : Z) (r : Reservations) : bool * Reservations :=
  match r !! key with
  | Some until => if now <? until then (false, r) else (true, <[key := now + ttlMs]> r)
  | None => (true, <[key := now + ttlMs]> r)
  end.

(** [Number(input.timestamp)] of [/^(?:0|[1-9]\d{0,10})$/] *)
Fixpoint digits_value (acc : Z) (s : string) : Z :=
  match s with
  | EmptyString => acc
  | String a s' => digits_value (acc * 10 + (Z.of_nat (nat_of_ascii a) - 48)) s'
  end.

Section authentication.
Context `{Aes256Gcm} (hmac_sha256 : list Z → string → list Z) (sha256_bytes : string → list Z).
Context (BOT_SIGNING_KEK : option string).

Definition createBotRequestHash (input : BotAuthenticationInput) : string :=
  to_hex (sha256_bytes (ba_method input +:+ newline +:+ ba_path input +:+ newline +:+
                        ba_telegramUserId input +:+ newline +:+ ba_rawBody input)).

Definition canonical_request (input : BotAuthenticationInput) : string :=
  createBotRequestCanonicalString (ba_credentialId input) (ba_method input) (ba_path input)
    (ba_timestamp input) (ba_nonce input) (ba_telegramUserId input) (ba_idempotencyKey input)
    (to_hex (sha256_bytes (ba_rawBody input))).

(** The signature is the HMAC of the canonical request under the opened key. *)
Definition signature_valid (encodedKek : string) (credentialId : string)
    (credential : BotServiceCredential) (input : BotAuthenticationInput) : bool :=
  match decryptBotSigningKey
          {| bk_keyCiphertext := bc_keyCiphertext credential; bk_nonce := bc_nonce credential |}
          encodedKek
          {| bk_credentialId := credentialId; bk_principalId := bc_principalId credential;
             bk_keyVersion := bc_keyVersion credential |} with
  | None => false
  | Some signingKey =>
      bool_decide (from_hex (ba_signature input) = hmac_sha256 signingKey (canonical_request input))
  end.

(** Seconds: [Math.abs(now / 1000 - timestamp) > 30]. *)
Definition timestamp_fresh (now : Z) (timestamp : string) : bool :=
  Z.abs (now - digits_value 0 timestamp * 1000) <=? 30000.

Definition nonce_key (principalId nonce : string) : string :=
  "bot-nonce:" +:+ principalId +:+ ":" +:+ nonce.
Definition NONCE_TTL_MS : Z := 120000.

(** What a request is checked against: the database at its two queries, the
    clock of the database, and Redis, [None] when it is unreachable. *)
Definition authenticate (s : Accounts) (databaseNow redisNow : Z) (redis : option Reservations)
    (input : BotAuthenticationInput)
    : outcome AccountError (option AuthenticatedBotRequest) * option Reservations :=
  match BOT_SIGNING_KEK with
  | None => (Ok None, redis)
  | Some encodedKek =>
      match ac_botCredentials s !! ba_credentialId input with
      | None => (Ok None, redis)
      | Some credential =>
          if negb (is_null (bc_revokedAt credential)) then (Ok None, redis)
          else if negb (signature_valid encodedKek (ba_credentialId input) credential input)
          then (Ok None, redis)
          else if negb (timestamp_fresh databaseNow (ba_timestamp input)) then (Ok None, redis)
          else match redis with
               | None => (Throw (ServiceUnavailableException "Bot authentication is unavailable"), redis)
               | Some r =>
                   let '(reserved, r') :=
                     reserveOnce (nonce_key (bc_principalId credential) (ba_nonce input)) NONCE_TTL_MS
                       redisNow r in
                   (Ok (if reserved
                        then Some {| br_credentialId := ba_credentialId input;
                                     br_idempotencyKey := ba_idempotencyKey input;
                                     br_method := ba_method input; br_path := ba_path input;
                                     br_principalId := bc_principalId credential;
                                     br_requestHash := createBotRequestHash input;
                                     br_telegramUserId := ba_telegramUserId input |}
                        else None), Some r')
               end
      end
  end.
End authentication.
