(* ===== verification/BotCredentials.v ===== *)
(** * The bot's credentials: [apps/api/src/auth/bot-credential-lifecycle.ts]

    Provisioning, rotation and revocation of a principal's signing keys.  The
    random key and nonce are arguments; the command-line tool that calls these
    and installs the credential file is not modelled. *)

From Stdlib Require Import Ascii.
From stdpp Require Import pretty.
From S2P Require Import Prelude.
From S2P Require Import Text.
From S2P Require Import Json.
From S2P Require Import Sql.
From S2P Require Import ControlPlane.
From S2P Require Import DataPlaneCredential.
From S2P Require Import Base64Url.
From S2P Require Import BotSigningKey.
From S2P Require Import Accounts.
From S2P Require Import BotRequests.
Open Scope Z_scope.

Record BotCredentialMaterial := {
  ma_credentialId : string;
  ma_keyVersion : Z;
  ma_principalId : string;
  ma_signingKey : list Z;
}.
Record BotCredentialChangeInput := { ci_principalName : string; ci_reason : string }.

Definition fail {A} (message : string) : AccountM A := throw (AccountFailure (Thrown message)).

(** [/^[A-Za-z0-9][A-Za-z0-9._-]{2,127}$/] *)
Definition principal_name_char (a : ascii) : bool :=
  id_char a || Ascii.eqb a "." || Ascii.eqb a "_".
Definition principal_name (s : string) : bool :=
  match s with
  | EmptyString => false
  | String a rest => id_char a && negb (Ascii.eqb a "-") && string_forall principal_name_char rest &&
      ((2 <=? String.length rest) && (String.length rest <=? 127))%nat
  end.
(** [/[\r\n\0]/] *)
Definition single_line (s : string) : bool :=
  string_forall (λ a, negb ((byte_of a =? 13) || (byte_of a =? 10) || (byte_of a =? 0))%nat) s.

Definition validateChangeInput (input : BotCredentialChangeInput)
    : AccountM BotCredentialChangeInput :=
  let principalName := trim (ci_principalName input) in
  let reason := trim (ci_reason input) in
  if negb (principal_name principalName) then fail "Principal name is invalid"
  else if (utf16_length reason <? 10)%nat || (500 <? utf16_length reason)%nat ||
          negb (single_line reason)
  then fail "Reason must contain 10-500 single-line characters"
  else mret {| ci_principalName := principalName; ci_reason := reason |}.

Definition principal_by_name (s : Accounts) (name : string) : option string :=
  fst <$> find_row (λ p, bool_decide (bp_name p = name)) (ac_principals s).
Definition credentials_of (s : Accounts) (principalId : string) : list BotServiceCredential :=
  rows (sql_where (λ c, bool_decide (bc_principalId c = principalId)) (ac_botCredentials s)).
Definition active_credentials (s : Accounts) (principalId : string) : list BotServiceCredential :=
  filter (λ c, bc_revokedAt c = None) (credentials_of s principalId).
(** [orderBy: { keyVersion: 'desc' }] *)
Definition latest_version (s : Accounts) (principalId : string) : option Z :=
  match bc_keyVersion <$> credentials_of s principalId with
  | [] => None
  | v :: vs => Some (foldr Z.max v vs)
  end.

Definition writeCredentialAudit (action credentialId : string) (keyVersion : Z)
    (principalId reason : string) : AccountM unit :=
  control (audit None action "BotServiceCredential" credentialId
    (JObj [("keyVersion"%string, jint keyVersion); ("principalId"%string, JStr principalId);
           ("reason"%string, JStr reason)])).

Section lifecycle.
Context (uuid : nat → string) `{Aes256Gcm} (is_uuid : string → bool).

(** The sealed key becomes a new version of the principal. *)
Definition store_key (credentialId principalId : string) (keyVersion : Z) (signingKey : list Z)
    (encodedKek : string) (nonce : list Z) : AccountM unit :=
  match encryptBotSigningKey signingKey encodedKek
          {| bk_credentialId := credentialId; bk_principalId := principalId;
             bk_keyVersion := keyVersion |} nonce with
  | None => fail "Encoded bot signing key material is invalid"
  | Some encrypted =>
      credential_create credentialId
        {| bc_principalId := principalId; bc_keyCiphertext := bk_keyCiphertext encrypted;
           bc_nonce := bk_nonce encrypted; bc_keyVersion := keyVersion; bc_revokedAt := None |}
  end.

Definition material (credentialId principalId : string) (keyVersion : Z) (signingKey : list Z)
    : BotCredentialMaterial :=
  {| ma_credentialId := credentialId; ma_keyVersion := keyVersion; ma_principalId := principalId;
     ma_signingKey := signingKey |}.

Definition provisionBotCredential (encodedKek : string) (input : BotCredentialChangeInput)
    (signingKey nonce : list Z) : AccountM BotCredentialMaterial :=
  validated ← validateChangeInput input;
  credentialId ← account_uuid uuid;
  atomically (
    s ← get;
    match principal_by_name s (ci_principalName validated) with
    | Some principalId =>
        match active_credentials s principalId with
        | _ :: _ => fail "Bot service principal already exists; use rotation"
        | [] =>
            let keyVersion := default 0 (latest_version s principalId) + 1 in
            store_key credentialId principalId keyVersion signingKey encodedKek nonce;;
            writeCredentialAudit "bot-service-credential.reprovisioned" credentialId keyVersion
              principalId (ci_reason validated);;
            mret (material credentialId principalId keyVersion signingKey)
        end
    | None =>
        principalId ← account_uuid uuid;
        principal_create principalId (ci_principalName validated);;
        store_key credentialId principalId 1 signingKey encodedKek nonce;;
        writeCredentialAudit "bot-service-credential.provisioned" credentialId 1 principalId
          (ci_reason validated);;
        mret (material credentialId principalId 1 signingKey)
    end).

Definition rotateBotCredential (encodedKek : string) (input : BotCredentialChangeInput)
    (signingKey nonce : list Z) : AccountM BotCredentialMaterial :=
  validated ← validateChangeInput input;
  credentialId ← account_uuid uuid;
  atomically (
    s ← get;
    match (principalId ← principal_by_name s (ci_principalName validated);
           v ← latest_version s principalId; Some (principalId, v)) with
    | None => fail "Bot service principal is not provisioned"
    | Some (principalId, latest) =>
        match active_credentials s principalId with
        | [_] =>
            let keyVersion := latest + 1 in
            store_key credentialId principalId keyVersion signingKey encodedKek nonce;;
            writeCredentialAudit "bot-service-credential.rotated" credentialId keyVersion principalId
              (ci_reason validated);;
            mret (material credentialId principalId keyVersion signingKey)
        | _ => fail "Bot credential rotation requires exactly one active credential"
        end
    end).

(** Exactly one of the two selectors. *)
Inductive CredentialSelector := ByCredentialId (id : string) | ByKeyVersion (version : Z).

Definition selector_valid (selector : CredentialSelector) : bool :=
  match selector with
  | ByCredentialId id => is_uuid id
  | ByKeyVersion v => (1 <=? v) && (v <=? MAX_SAFE_INTEGER)
  end.
Definition selected (selector : CredentialSelector) (id : string) (c : BotServiceCredential) : bool :=
  match selector with
  | ByCredentialId i => bool_decide (id = i)
  | ByKeyVersion v => bc_keyVersion c =? v
  end.

Definition revoke_credential (now : Z) (c : BotServiceCredential) : BotServiceCredential :=
  {| bc_principalId := bc_principalId c; bc_keyCiphertext := bc_keyCiphertext c;
     bc_nonce := bc_nonce c; bc_keyVersion := bc_keyVersion c; bc_revokedAt := Some now |}.

Definition revokeBotCredential (input : BotCredentialChangeInput) (selector : CredentialSelector)
    (protectedCredentialId : option string) (now : Z) : AccountM (bool * Z) :=
  validated ← validateChangeInput input;
  (if negb (selector_valid selector) then
     fail (match selector with ByCredentialId _ => "Credential ID is invalid"
           | ByKeyVersion _ => "Credential key version is invalid" end)
   else mret tt);;
  (if match protectedCredentialId with Some i => negb (is_uuid i) | None => false end
   then fail "Protected credential ID is invalid" else mret tt);;
  atomically (
    s ← get;
    match head (filter (λ kv : string * BotServiceCredential,
        selected selector kv.1 kv.2 = true ∧
        bp_name <$> ac_principals s !! bc_principalId kv.2 = Some (ci_principalName validated))
      (map_to_list (ac_botCredentials s))) with
    | None => fail "Bot service credential was not found"
    | Some (id, credential) =>
        if bool_decide (protectedCredentialId = Some id)
        then fail "Refusing to revoke the installed bot credential"
        else if negb (is_null (bc_revokedAt credential))
        then mret (false, bc_keyVersion credential)
        else
        modify (set_botCredentials <[id := revoke_credential now credential]>);;
        writeCredentialAudit "bot-service-credential.revoked" id (bc_keyVersion credential)
          (bc_principalId credential) (ci_reason validated);;
        mret (true, bc_keyVersion credential)
    end).
End lifecycle.
