(* ===== verification/Trial.v ===== *)
(** * Trials: [apps/api/src/trials/trial-activation.service.ts]

    [TrialActivationService.activate]: a bot request gives a Telegram user the
    one trial of their life.  The control-plane part is TrialAccess.v. *)

From S2P Require Import Prelude.
From S2P Require Import Json.
From S2P Require Import Sql.
From S2P Require Import NodeAgentContract.
From S2P Require Import XrayAccess.
From S2P Require Import ControlPlane.
From S2P Require Import AccessPolicy.
From S2P Require Import Orchestration.
From S2P Require Import TrialAccess.
From S2P Require Import Accounts.
From S2P Require Import BotRequests.
Open Scope Z_scope.

Definition trial_unavailable : string := "Trial activation is unavailable".

Record EligibleCampaign := {
  ec_id : string;
  ec_planId : string;
  ec_durationDays : Z;
  ec_maxActivations : option Z;
  ec_deviceLimit : Z;
}.

(** The campaigns a trial can come from at this moment, [ORDER BY id LIMIT 2]. *)
Definition campaign_eligible (s : Accounts) (now : Z) (c : TrialCampaign) : bool :=
  tc_isActive c && is_null (tc_archivedAt c) &&
  match tc_startsAt c with Some t => t <=? now | None => true end &&
  match tc_endsAt c with Some t => now <? t | None => true end &&
  match ac_plans s !! tc_planId c with Some p => pl_isActive p | None => false end.
Definition eligible_campaigns (s : Accounts) (now : Z) : list EligibleCampaign :=
  take 2 (omap (λ kv : string * TrialCampaign,
    p ← ac_plans s !! tc_planId kv.2;
    guard (campaign_eligible s now kv.2 = true);;
    Some {| ec_id := kv.1; ec_planId := tc_planId kv.2; ec_durationDays := tc_durationDays kv.2;
            ec_maxActivations := tc_maxActivations kv.2; ec_deviceLimit := pl_deviceLimit p |})
    (by_id (map_to_list (ac_campaigns s)))).

(** The trial of the user, joined with its subscription. *)
Definition findExistingActivation (s : Accounts) (userId : string) : option (string * TrialActivation) :=
  find_row (λ a, bool_decide (tv_userId a = userId) &&
    bool_decide (sb_userId <$> db_subscriptions (ac_control s) !! tv_subscriptionId a = Some (tv_userId a)) &&
    bool_decide (te_planId <$> ac_terms s !! tv_subscriptionId a = Some (tv_planId a)))
    (ac_activations s).

(** The ACTIVE subscriptions of a user, [ORDER BY id]. *)
Definition active_subscriptions (s : Accounts) (userId : string) : list (string * Subscription) :=
  by_id (map_to_list (filter (λ kv, sb_userId kv.2 = userId ∧ sb_status kv.2 = SUB_ACTIVE)
    (db_subscriptions (ac_control s)))).

Definition campaign_activations (s : Accounts) (campaignId : string) : nat :=
  length (rows (sql_where (λ a, bool_decide (tv_trialCampaignId a = campaignId)) (ac_activations s))).

Section trial.
Context (uuid : nat → string) (hmac_sha256 : string → string → list Z).
Context (is_uuid is_datetime : string → bool) `{DateStrings}.
Context (plus_days : Z → Z → Z) (environment : ApiEnvironment).

Definition serialize (id : string) (a : TrialActivation) : json :=
  JObj [("id", JStr id); ("trialCampaignId", JStr (tv_trialCampaignId a));
        ("subscriptionId", JStr (tv_subscriptionId a)); ("planId", JStr (tv_planId a));
        ("startsAt", JStr (toISOString (tv_startsAt a)));
        ("expiresAt", JStr (toISOString (tv_expiresAt a)));
        ("activatedAt", JStr (toISOString (tv_activatedAt a)))]%string.

(** [trialActivationSchema] of [packages/contracts/src/trials.ts] *)
Definition zod_uuid (j : json) : option string := s ← zod_string j; guard (is_uuid s = true);; Some s.
Definition zod_datetime (j : json) : option string :=
  s ← zod_string j; guard (is_datetime s = true);; Some s.
Definition trialActivationSchema (j : json) : option json :=
  m ← zod_object j;
  guard (strict_keys ["id"; "trialCampaignId"; "subscriptionId"; "planId"; "startsAt"; "expiresAt";
                      "activatedAt"]%string m = true);;
  field m "id" zod_uuid;; field m "trialCampaignId" zod_uuid;; field m "subscriptionId" zod_uuid;;
  field m "planId" zod_uuid;; field m "startsAt" zod_datetime;; field m "expiresAt" zod_datetime;;
  field m "activatedAt" zod_datetime;; Some j.

(** The user may have no running subscription; what has run out is marked so. *)
Definition expire_finished_subscriptions (userId : string) (now : Z) : AccountM unit :=
  s ← get;
  let subscriptions := active_subscriptions s userId in
  throw_if (existsb (λ kv : string * Subscription, sql_gt (sb_expiresAt kv.2) now) subscriptions)
    (ConflictException trial_unavailable);;
  match subscriptions with
  | [] => mret tt
  | _ => subscriptions_expire subscriptions.*1 now
  end.

(** The one campaign, if the user's devices fit and it is not exhausted. *)
Definition choose_campaign (userId : string) (now : Z) : AccountM EligibleCampaign :=
  s ← get;
  match eligible_campaigns s now with
  | [] => throw (ConflictException trial_unavailable)
  | [campaign] =>
      let activeDeviceCount := Z.of_nat (length (active_devices (ac_control s) userId)) in
      throw_if (ec_deviceLimit campaign <? activeDeviceCount) (ConflictException trial_unavailable);;
      throw_if (match ec_maxActivations campaign with
                | Some maximum => maximum <=? Z.of_nat (campaign_activations s (ec_id campaign))
                | None => false
                end) (ConflictException trial_unavailable);;
      mret campaign
  | _ => throw (ServiceUnavailableException trial_unavailable)
  end.

Definition activateInTransaction (telegramUserId : string) (now : Z) : AccountM BotOperationResponse :=
  userId ← user_upsert uuid telegramUserId;
  s ← get;
  match findExistingActivation s userId with
  | Some (id, existing) => mret {| or_statusCode := 200; or_body := serialize id existing |}
  | None =>
      expire_finished_subscriptions userId now;;
      campaign ← choose_campaign userId now;
      let expiresAt := plus_days now (ec_durationDays campaign) in
      subscriptionId ← subscription_create uuid
        {| sb_userId := userId; sb_status := SUB_ACTIVE; sb_startsAt := Some now;
           sb_expiresAt := Some expiresAt; sb_cancelledAt := None |}
        {| te_planId := ec_planId campaign; te_updatedAt := now |};
      activationId ← account_uuid uuid;
      let activation :=
        {| tv_trialCampaignId := ec_id campaign; tv_userId := userId;
           tv_subscriptionId := subscriptionId; tv_planId := ec_planId campaign;
           tv_durationDays := ec_durationDays campaign; tv_activatedAt := now; tv_startsAt := now;
           tv_expiresAt := expiresAt |} in
      activation_insert plus_days activationId activation;;
      control (scheduleExistingDeviceAccess uuid hmac_sha256 environment
        {| ta_activationId := activationId; ta_userId := userId; ta_expiresAt := expiresAt |} now);;
      control (audit (Some userId) "trial.activated" "TrialActivation" activationId
        (JObj [("trialCampaignId", JStr (ec_id campaign)); ("subscriptionId", JStr subscriptionId);
               ("planId", JStr (ec_planId campaign));
               ("durationDays", jint (ec_durationDays campaign))]%string));;
      mret {| or_statusCode := 200; or_body := serialize activationId activation |}
  end.

(** [attempts]: the answer of the rate limiter's Redis. *)
Definition activate (request : AuthenticatedBotRequest) (attempts : option Z) (maximum now : Z)
    : AccountM json :=
  result ← execute request (
    assert_allowed attempts maximum "Too many trial activation requests" trial_unavailable;;
    activateInTransaction (br_telegramUserId request) now) now;
  match trialActivationSchema (xr_body result) with
  | Some body => mret body
  | None => throw (AccountFailure (Thrown "ZodError"))
  end.
End trial.
