(* ===== verification/Cabinet.v ===== *)
(** * The cabinet: [apps/api/src/cabinet/]

    [CabinetDeviceService] (issuing and revoking a device) and [CabinetService]
    (the overview a user sees), with the request schema of
    [packages/contracts/src/devices.ts].  [new URL(path, base)] is a
    parameter. *)

From stdpp Require Import pretty.
From S2P Require Import Prelude.
From S2P Require Import Text.
From S2P Require Import Json.
From S2P Require Import Sql.
From S2P Require Import NodeAgentContract.
From S2P Require Import XrayAccess.
From S2P Require Import ControlPlane.
From S2P Require Import DataPlaneCredential.
From S2P Require Import AccessPolicy.
From S2P Require Import Orchestration.
From S2P Require Import SubscriptionFeed.
From S2P Require Import TrialAccess.
From S2P Require Import Base64Url.
From S2P Require Import BotSigningKey.
From S2P Require Import Accounts.
Open Scope Z_scope.

Record CreateCabinetDeviceRequest := { cd_displayName : option string; cd_platform : option string }.

(** [z.string().trim().min(1).max(n).optional()] *)
Definition zod_trimmed (n : nat) (j : json) : option string :=
  s ← zod_string j; guard (bounded_text n (trim s) = true);; Some (trim s).
Definition zod_optional {A} (schema : json → option A) (members : list (string * json)) (key : string)
    : option (option A) :=
  match map_get key members with None => Some None | Some j => Some <$> schema j end.
Definition createCabinetDeviceRequestSchema (j : json) : option CreateCabinetDeviceRequest :=
  m ← zod_object j;
  displayName ← zod_optional (zod_trimmed 128) m "displayName"%string;
  platform ← zod_optional (zod_trimmed 32) m "platform"%string;
  guard (strict_keys ["displayName"; "platform"]%string m = true);;
  Some {| cd_displayName := displayName; cd_platform := platform |}.

Record IssuedCabinetDevice := {
  id_id : string;
  id_displayName : option string;
  id_platform : option string;
  id_createdAt : Z;
  id_subscriptionUrl : string;
}.

(** A subscription joined with its plan. *)
Record SubscriptionWithPlan := { wp_subscription : Subscription; wp_plan : Plan }.

(** [ORDER BY "updatedAt" DESC, "id"] *)
Definition updated_order : relation (string * (SubscriptionTerms * SubscriptionWithPlan)) :=
  λ x y, te_updatedAt y.2.1 < te_updatedAt x.2.1 ∨
         te_updatedAt x.2.1 = te_updatedAt y.2.1 ∧ String.le x.1 y.1.
#[export] Instance updated_order_dec x y : Decision (updated_order x y).
Proof. unfold updated_order. apply _. Defined.

(** The user's subscriptions with their plans, the last updated first. *)
Definition user_subscriptions (s : Accounts) (userId : string) : list SubscriptionWithPlan :=
  (λ x : string * (SubscriptionTerms * SubscriptionWithPlan), x.2.2) <$>
  merge_sort updated_order (omap (λ kv : string * Subscription,
    guard (sb_userId kv.2 = userId);;
    terms ← ac_terms s !! kv.1; plan ← ac_plans s !! te_planId terms;
    Some (kv.1, (terms, {| wp_subscription := kv.2; wp_plan := plan |})))
    (map_to_list (db_subscriptions (ac_control s)))).

Definition gives_entitlement (now : Z) (x : SubscriptionWithPlan) : bool :=
  hasEntitlement DEVICE_ACTIVE (sb_status (wp_subscription x)) (sb_expiresAt (wp_subscription x)) now.

(** [SELECT ... WHERE "status" = 'HEALTHY' ORDER BY "id"] *)
Definition healthy_nodes (db : Db) : list string :=
  (by_id (map_to_list (filter (λ kv, n_status kv.2 = NODE_HEALTHY) (db_nodes db)))).*1.

Section devices.
Context (uuid : nat → string) (hmac_sha256 : string → string → list Z) `{DateStrings}.
Context (newURL : string → string → string).
Context (environment : ApiEnvironment) (SUBSCRIPTION_TOKEN_PEPPER SUBSCRIPTION_FEED_BASE_URL : option string).

(** A secret that is set and not empty. *)
Definition truthy (o : option string) : option string :=
  v ← o; if bool_decide (v = EmptyString) then None else Some v.

Definition hashIssuanceIdempotencyKey (userId idempotencyKey pepper : string) : string :=
  to_hex (hmac_sha256 pepper ("cabinet-device-issuance-v1" +:+ nul +:+ userId +:+ nul +:+ idempotencyKey)).
Definition deriveSubscriptionToken (userId idempotencyKey pepper : string) : string :=
  base64url (hmac_sha256 pepper ("cabinet-device-token-v1" +:+ nul +:+ userId +:+ nul +:+ idempotencyKey)).

(** [value.slice(0, n)] of a hexadecimal text. *)
Definition slice (n : nat) (s : string) : string := String.substring 0 n s.

Definition issue_key (hash nodeId : string) : string := "issue:" +:+ slice 48 hash +:+ ":" +:+ nodeId.
Definition issue_outbox_key (hash nodeId : string) : string :=
  "issue-o:" +:+ slice 46 hash +:+ ":" +:+ nodeId.

Definition json_text (o : option string) : json := match o with Some s => JStr s | None => JNull end.

(** A device, and access for it on every healthy node. *)
Definition create_device (userId hash token pepper : string) (input : CreateCabinetDeviceRequest)
    (nodes : list string) (expiresAt now : Z) : AccountM (string * Device) :=
  let device := {| dv_userId := userId; dv_displayName := cd_displayName input;
                   dv_platform := cd_platform input; dv_status := DEVICE_ACTIVE;
                   dv_subscriptionTokenHash := hashToken hmac_sha256 token pepper;
                   dv_issuanceIdempotencyKeyHash := Some hash; dv_revokedAt := None;
                   dv_createdAt := now |} in
  deviceId ← device_create uuid device;
  for_each nodes (λ nodeId,
    control (scheduleInTransaction uuid hmac_sha256 (Some environment)
      {| si_nodeId := nodeId; si_deviceId := deviceId; si_expiresAt := expiresAt;
         si_syncJobIdempotencyKey := issue_key hash nodeId;
         si_outboxEventIdempotencyKey := issue_outbox_key hash nodeId;
         si_actorUserId := Some userId |} now);;
    mret tt);;
  control (audit (Some userId) "device.issued" "Device" deviceId
    (JObj [("platform"%string, json_text (cd_platform input))]));;
  mret (deviceId, device).

Definition issue_new (userId hash token pepper : string) (input : CreateCabinetDeviceRequest)
    (now : Z) : AccountM (string * Device) :=
  s ← get;
  let nodes := healthy_nodes (ac_control s) in
  match List.find (gives_entitlement now) (user_subscriptions s userId) with
  | None => throw (ConflictException "An active subscription is required")
  | Some subscription =>
      throw_if (bool_decide (nodes = []))
        (ServiceUnavailableException "No VPN node is available for device issuance");;
      throw_if (pl_deviceLimit (wp_plan subscription) <=?
                Z.of_nat (length (active_devices (ac_control s) userId)))
        (ConflictException "Device limit has been reached");;
      match sb_expiresAt (wp_subscription subscription) with
      | Some expiresAt => create_device userId hash token pepper input nodes expiresAt now
      | None => throw (AccountFailure (Thrown "PrismaClientValidationError"))
      end
  end.

(** The device an earlier request with this key made. *)
Definition existing_device (s : Accounts) (hash : string) : option (string * Device) :=
  find_row (λ d, bool_decide (dv_issuanceIdempotencyKeyHash d = Some hash)) (db_devices (ac_control s)).

Definition issueInTransaction (userId hash token pepper : string) (input : CreateCabinetDeviceRequest)
    (now : Z) : AccountM (string * Device) :=
  s ← get;
  match existing_device s hash with
  | Some (deviceId, existing) =>
      throw_if (negb (bool_decide (dv_userId existing = userId) &&
                      bool_decide (dv_status existing = DEVICE_ACTIVE) &&
                      bool_decide (dv_displayName existing = cd_displayName input) &&
                      bool_decide (dv_platform existing = cd_platform input)))
        (ConflictException "Device request does not match its key");;
      mret (deviceId, existing)
  | None => issue_new userId hash token pepper input now
  end.

Definition issue (userId idempotencyKey : string) (input : CreateCabinetDeviceRequest) (now : Z)
    : AccountM IssuedCabinetDevice :=
  match truthy SUBSCRIPTION_TOKEN_PEPPER, truthy SUBSCRIPTION_FEED_BASE_URL with
  | Some tokenPepper, Some feedBaseUrl =>
      let hash := hashIssuanceIdempotencyKey userId idempotencyKey tokenPepper in
      let token := deriveSubscriptionToken userId idempotencyKey tokenPepper in
      device ← atomically (issueInTransaction userId hash token tokenPepper input now);
      mret {| id_id := device.1; id_displayName := dv_displayName device.2;
              id_platform := dv_platform device.2; id_createdAt := dv_createdAt device.2;
              id_subscriptionUrl := newURL ("/sub/" +:+ token) feedBaseUrl |}
  | _, _ => throw (ServiceUnavailableException "Device issuance is unavailable")
  end.

Definition revokeDevice (userId deviceId : string) (now : Z) : AccountM unit :=
  result ← control (revoke uuid userId deviceId now);
  match result with
  | DeviceNotFound => throw (NotFoundException "Device was not found")
  | _ => mret tt
  end.
End devices.

(** ** [CabinetService.overview] *)

Record CabinetSubscription := {
  cs_status : SubscriptionStatus;
  cs_planName : string;
  cs_deviceLimit : Z;
  cs_startsAt : option Z;
  cs_expiresAt : option Z;
}.
Record CabinetDevice := {
  cb_id : string;
  cb_displayName : option string;
  cb_platform : option string;
  cb_status : DeviceStatus;
  cb_createdAt : Z;
}.
Record CabinetOverview := { ov_subscription : option CabinetSubscription; ov_devices : list CabinetDevice }.

Definition subscriptionPriority (status : SubscriptionStatus) : nat :=
  match status with SUB_ACTIVE => 0 | SUB_PENDING => 1 | SUB_EXPIRED => 2 | SUB_CANCELLED => 3 end.

(** [subscriptions.sort((left, right) => ...)[0]]: the sort is stable. *)
Fixpoint first_by_priority (l : list SubscriptionWithPlan) : option SubscriptionWithPlan :=
  match l with
  | [] => None
  | x :: rest =>
      match first_by_priority rest with
      | Some y => if (subscriptionPriority (sb_status (wp_subscription y)) <?
                      subscriptionPriority (sb_status (wp_subscription x)))%nat then Some y else Some x
      | None => Some x
      end
  end.

Definition serializeSubscription (x : SubscriptionWithPlan) (databaseTime : Z) : CabinetSubscription :=
  {| cs_status := effectiveSubscriptionStatus (sb_status (wp_subscription x))
                    (sb_expiresAt (wp_subscription x)) databaseTime;
     cs_planName := pl_name (wp_plan x); cs_deviceLimit := pl_deviceLimit (wp_plan x);
     cs_startsAt := sb_startsAt (wp_subscription x); cs_expiresAt := sb_expiresAt (wp_subscription x) |}.

(** [orderBy: { createdAt: 'asc' }] *)
Definition created_order : relation (string * Device) :=
  λ x y, dv_createdAt x.2 < dv_createdAt y.2 ∨ dv_createdAt x.2 = dv_createdAt y.2 ∧ String.le x.1 y.1.
#[export] Instance created_order_dec x y : Decision (created_order x y).
Proof. unfold created_order. apply _. Defined.

(** Rows of one [updatedAt] or [createdAt] come in an order the database
    chooses; here it is that of their keys. *)
Definition overview (s : Accounts) (userId : string) (now : Z) : CabinetOverview :=
  {| ov_subscription := (λ x, serializeSubscription x now) <$>
       first_by_priority (user_subscriptions s userId);
     ov_devices := (λ kv : string * Device,
         {| cb_id := kv.1; cb_displayName := dv_displayName kv.2; cb_platform := dv_platform kv.2;
            cb_status := dv_status kv.2; cb_createdAt := dv_createdAt kv.2 |}) <$>
       merge_sort created_order (map_to_list (filter (λ kv, dv_userId kv.2 = userId)
         (db_devices (ac_control s)))) |}.
