(* ===== verification/TelegramInitData.v ===== *)
(** * Telegram's signed launch data: [apps/api/src/auth/telegram-init-data.ts]

    [verifyTelegramInitData] on the query string a Telegram Web App starts
    with: the parameters as [URLSearchParams] reads them, the signature over
    all of them but the hash, the age, and the user.  HMAC-SHA-256,
    [JSON.parse], [Number(text)] and [String(number)] are parameters. *)

From Stdlib Require Import Ascii.
From Stdlib Require Import QArith.
From S2P Require Import Prelude.
From S2P Require Import Text.
From S2P Require Import Json.
From S2P Require Import DataPlaneCredential.
From S2P Require Import Base64Url.
Open Scope Z_scope.

(** ** [URLSearchParams] *)

Definition replacement : string := String "239" (String "191" (String "189" EmptyString)).

(** The WHATWG decoder of UTF-8: what the first byte of a character asks for. *)
Definition lead_byte (a : ascii) : option (nat * nat * nat) :=
  let n := byte_of a in
  (if (194 <=? n) && (n <=? 223) then Some (1, 128, 191)
   else if n =? 224 then Some (2, 160, 191)
   else if (n =? 237) then Some (2, 128, 159)
   else if (225 <=? n) && (n <=? 239) then Some (2, 128, 191)
   else if n =? 240 then Some (3, 144, 191)
   else if (241 <=? n) && (n <=? 243) then Some (3, 128, 191)
   else if n =? 244 then Some (3, 128, 143)
   else None)%nat.
Fixpoint utf8_decode (needed lower upper : nat) (pending s : string) : string :=
  match s with
  | EmptyString => if bool_decide (pending = EmptyString) then EmptyString else replacement
  | String a s' =>
      let start :=
        if (byte_of a <? 128)%nat then String a (utf8_decode 0 128 191 EmptyString s') else
        match lead_byte a with
        | Some (n, l, u) => utf8_decode n l u (String a EmptyString) s'
        | None => replacement +:+ utf8_decode 0 128 191 EmptyString s'
        end in
      match needed with
      | O => start
      | S more =>
          if ((lower <=? byte_of a) && (byte_of a <=? upper))%nat then
            match more with
            | O => pending +:+ String a EmptyString +:+ utf8_decode 0 128 191 EmptyString s'
            | _ => utf8_decode more 128 191 (pending +:+ String a EmptyString) s'
            end
          else replacement +:+ start
      end
  end.

(** [+] is a space, [%XY] a byte. *)
Fixpoint percent_decode (s : string) : string :=
  match s with
  | EmptyString => EmptyString
  | String a s1 =>
      if Ascii.eqb a "+" then String " " (percent_decode s1) else
      if Ascii.eqb a "%" then
        match s1 with
        | String b (String c s2) =>
            match nibble_value b, nibble_value c with
            | Some x, Some y => String (ascii_of_nat (Z.to_nat (16 * x + y))) (percent_decode s2)
            | _, _ => String a (percent_decode s1)
            end
        | _ => String a (percent_decode s1)
        end
      else String a (percent_decode s1)
  end.
Definition form_text (s : string) : string := utf8_decode 0 128 191 EmptyString (percent_decode s).

(** The parts of a text between the occurrences of a character. *)
Fixpoint split_char (c : ascii) (s : string) : list string :=
  match s with
  | EmptyString => [EmptyString]
  | String a s' =>
      if Ascii.eqb a c then EmptyString :: split_char c s'
      else match split_char c s' with
           | [] => [String a EmptyString]
           | t :: rest => String a t :: rest
           end
  end.
(** What is before the first [=], and after it. *)
Fixpoint cut_equals (s : string) : string * string :=
  match s with
  | EmptyString => (EmptyString, EmptyString)
  | String a s' =>
      if Ascii.eqb a "=" then (EmptyString, s')
      else let '(name, value) := cut_equals s' in (String a name, value)
  end.

Definition URLSearchParams (init : string) : list (string * string) :=
  let query := match init with String a rest => if Ascii.eqb a "?" then rest else init | _ => init end in
  (λ part, let '(name, value) := cut_equals part in (form_text name, form_text value)) <$>
  filter (λ part, part ≠ EmptyString) (split_char "&" query).

(** ** Verification *)

Record VerifiedTelegramInitData := { vi_id : string; vi_replayKey : string; vi_startParam : string }.
#[export] Instance VerifiedTelegramInitData_eq_dec : EqDecision VerifiedTelegramInitData.
Proof. solve_decision. Defined.

(** [values.length === 1 ? values[0] : null] of [getAll(key)] *)
Definition uniqueParameter (parameters : list (string * string)) (key : string) : option string :=
  match filter (λ p : string * string, p.1 = key) parameters with
  | [(_, value)] => Some value
  | _ => None
  end.
(** A parameter that is there once and not empty. *)
Definition requiredParameter (parameters : list (string * string)) (key : string) : option string :=
  v ← uniqueParameter parameters key; guard (v ≠ EmptyString);; Some v.

Definition hex_digest_text (s : string) : bool :=
  (String.length s =? 64)%nat && string_forall (λ a, negb (bool_decide (nibble_value a = None))) s.
(** [/^[A-Za-z0-9_-]{43}$/] *)
Definition secret_text (s : string) : bool := (String.length s =? 43)%nat && base64url_text s.
Definition decimal_text (s : string) : bool :=
  ((1 <=? String.length s) && (String.length s <=? 32))%nat &&
  string_forall (λ a, (48 <=? byte_of a) && (byte_of a <=? 57))%nat s.

Section verify.
Context `{LocaleCompare} (hmac_sha256 : list Z → string → list Z).
Context (JSON_parse : string → option json) (Number_toString : Q → string).
(** [Number(text)], where it is a safe integer. *)
Context (safe_integer : string → option Z).

Definition locale_order : relation (string * string) := λ p q, localeCompare p.1 q.1 ≤ 0.
#[export] Instance locale_order_dec p q : Decision (locale_order p q).
Proof. unfold locale_order. apply _. Defined.

(** The parameters without some, sorted by key, one per line. *)
Definition check_string (omitted : list string) (parameters : list (string * string)) : string :=
  String.concat (String "010" EmptyString)
    ((λ p : string * string, p.1 +:+ "=" +:+ p.2) <$>
     merge_sort locale_order (filter (λ p : string * string, p.1 ∉ omitted) parameters)).

Definition parseTelegramUser (serializedUser : string) : option string :=
  j ← JSON_parse serializedUser;
  m ← zod_object j;
  id ← map_get "id"%string m;
  text ← match id with JNum q => Some (Number_toString q) | JStr s => Some s | _ => None end;
  guard (decimal_text text = true);; Some text.

(** [None]: it throws a [TelegramInitDataValidationError]. *)
Definition verifyTelegramInitData (initData encodedValidationKey : string) (maxAgeSeconds now : Z)
    : option VerifiedTelegramInitData :=
  let parameters := URLSearchParams initData in
  hash ← requiredParameter parameters "hash";
  authDate ← requiredParameter parameters "auth_date";
  user ← requiredParameter parameters "user";
  startParam ← requiredParameter parameters "start_param";
  guard (hex_digest_text hash = true);;
  guard (secret_text startParam = true);;
  let secretKey := from_base64url encodedValidationKey in
  guard (length secretKey = 32%nat);;
  guard (base64url secretKey = encodedValidationKey);;
  guard (from_hex hash = hmac_sha256 secretKey (check_string ["hash"%string] parameters));;
  authTimestamp ← safe_integer authDate;
  let nowTimestamp := now / 1000 in
  guard (authTimestamp ≤ nowTimestamp);;
  guard (nowTimestamp - authTimestamp ≤ maxAgeSeconds);;
  id ← parseTelegramUser user;
  Some {| vi_id := id; vi_replayKey := check_string ["hash"; "start_param"]%string parameters;
          vi_startParam := startParam |}.
End verify.
