(* ===== verification/Login.v ===== *)
(** * Logging in through Telegram: [apps/api/src/auth/]

    [BotAuthChallengeService] (the bot asks for a launch link),
    [PendingLoginService] (the web page begins a login with Telegram's signed
    data, the bot confirms the code it shows, the page completes it) and
    [AuthSessionService].  Random secrets and codes are arguments. *)

From Stdlib Require Import Ascii.
From Stdlib Require Import QArith.
From S2P Require Import Prelude.
From S2P Require Import Text.
From S2P Require Import Json.
From S2P Require Import Sql.
From S2P Require Import NodeAgentContract.
From S2P Require Import XrayAccess.
From S2P Require Import ControlPlane.
From S2P Require Import DataPlaneCredential.
From S2P Require Import Base64Url.
From S2P Require Import BotSigningKey.
From S2P Require Import TelegramInitData.
From S2P Require Import Accounts.
From S2P Require Import BotRequests.
From S2P Require Import Trial.
From S2P Require Import Cabinet.
Open Scope Z_scope.

Definition login_unavailable : string := "Telegram login is unavailable".
Definition invalidLogin : AccountError := UnauthorizedException "Telegram login is invalid".
Definition AUTH_CHALLENGE_TTL_MS : Z := 120000.
Definition PENDING_LOGIN_TTL_MS : Z := 120000.

(** [CROCKFORD_ALPHABET[byte & 31]] for every byte. *)
Definition CROCKFORD_ALPHABET : list ascii :=
  String.list_ascii_of_string "0123456789ABCDEFGHJKMNPQRSTVWXYZ".
Definition createCrockfordCode (bytes : list Z) : string :=
  String.string_of_list_ascii ((λ b, default zero (CROCKFORD_ALPHABET !! Z.to_nat (Z.land b 31))) <$> bytes).
(** [/^[0-9A-HJKMNP-TV-Z]{8}$/] *)
Definition confirmation_code (s : string) : bool :=
  (String.length s =? 8)%nat && string_forall (λ a, bool_decide (a ∈ CROCKFORD_ALPHABET)) s.

Record PendingTelegramLogin := { pt_confirmationCode : string; pt_expiresAt : Z }.
Record AuthenticatedSession := { as_userId : string; as_expiresAt : Z }.

(** A user who has or had a subscription that started. *)
Definition had_entitlement (s : Accounts) (userId : string) (now : Z) : bool :=
  exists_row (λ r, bool_decide (sb_userId r = userId) && negb (bool_decide (sb_status r = SUB_PENDING)) &&
    match sb_startsAt r with Some t => t <=? now | None => false end &&
    negb (is_null (sb_expiresAt r))) (db_subscriptions (ac_control s)).

(** The queries of a pending login with its challenge. *)
Definition login_open (s : Accounts) (p : PendingLogin) (now : Z) : bool :=
  match ac_challenges s !! pe_challengeId p with
  | Some c => (now <? pe_expiresAt p) && (now <? au_expiresAt c) && is_null (au_consumedAt c)
  | None => false
  end.

Section login.
Context (uuid : nat → string) `{LocaleCompare} `{DateStrings}.
Context (hmac_key : list Z → string → list Z) (hmac_sha256 : string → string → list Z).
Context (is_uuid is_datetime : string → bool).
Context (JSON_parse : string → option json) (Number_toString : Q → string).
Context (safe_integer : string → option Z).
(** The environment; [truthy] is a value that is set and not empty. *)
Context (AUTH_SESSION_PEPPER TELEGRAM_WEB_APP_VALIDATION_KEY : option string).
Context (TELEGRAM_INIT_DATA_MAX_AGE_SECONDS AUTH_SESSION_TTL_SECONDS : Z).
Context (AUTH_PRELAUNCH_RATE_LIMIT_MAX : Z).

Definition auth_allowed (attempts : option Z) : AccountM unit :=
  assert_allowed attempts AUTH_PRELAUNCH_RATE_LIMIT_MAX "Too many requests" login_unavailable.

(** [createHmac('sha256', pepper).update(secret).digest('hex')] *)
Definition hashSessionSecret (secret pepper : string) : string := to_hex (hmac_sha256 pepper secret).
Definition hashPendingSecret (secret pepper : string) : string :=
  to_hex (hmac_sha256 pepper ("telegram-pending-token-v1" +:+ nul +:+ secret)).
Definition hashConfirmationCode (telegramUserId code pepper : string) : string :=
  to_hex (hmac_sha256 pepper
    ("telegram-confirmation-code-v1" +:+ nul +:+ telegramUserId +:+ nul +:+ code)).
Definition replayHash (challengeId pepper : string) : string :=
  to_hex (hmac_sha256 pepper ("telegram-pending-replay-v1" +:+ nul +:+ challengeId)).

(** ** [BotAuthChallengeService.issue] *)

(** [launchId], [challengeSecret]: 32 random bytes each, in base64url. *)
Definition issueChallengeInTransaction (telegramUserId launchId challengeSecret pepper : string) (now : Z)
    : AccountM BotOperationResponse :=
  s ← get;
  match find_row (λ u, bool_decide (us_telegramUserId u = telegramUserId)) (ac_users s) with
  | None => throw (ConflictException "Cabinet access is unavailable")
  | Some (userId, _) =>
      throw_if (negb (had_entitlement s userId now)) (ConflictException "Cabinet access is unavailable");;
      let expiresAt := now + AUTH_CHALLENGE_TTL_MS in
      challenge_create uuid
        {| au_launchId := launchId; au_tokenHash := hashSessionSecret challengeSecret pepper;
           au_telegramReplayHash := None; au_sessionId := None; au_expiresAt := expiresAt;
           au_consumedAt := None; au_createdAt := now; au_userId := Some userId |};;
      mret {| or_statusCode := 201;
              or_body := JObj [("launchId", JStr launchId);
                               ("expiresAt", JStr (toISOString expiresAt))]%string |}
  end.

(** [issuedTelegramAuthChallengeSchema] *)
Definition issuedTelegramAuthChallengeSchema (j : json) : option json :=
  m ← zod_object j;
  guard (strict_keys ["launchId"; "expiresAt"]%string m = true);;
  launchId ← field m "launchId" zod_string; guard (secret_text launchId = true);;
  field m "expiresAt" (zod_datetime is_datetime);; Some j.

Definition issueChallenge (request : AuthenticatedBotRequest) (attempts : option Z)
    (launchId challengeSecret : string) (now : Z) : AccountM json :=
  match truthy AUTH_SESSION_PEPPER with
  | None => throw (ServiceUnavailableException login_unavailable)
  | Some pepper =>
      result ← execute request (
        auth_allowed attempts;;
        issueChallengeInTransaction (br_telegramUserId request) launchId challengeSecret pepper now) now;
      match issuedTelegramAuthChallengeSchema (xr_body result) with
      | Some body => mret body
      | None => throw (AccountFailure (Thrown "ZodError"))
      end
  end.

(** ** [PendingLoginService.begin] *)

Definition verify (initData validationKey : string) (now : Z) : option VerifiedTelegramInitData :=
  verifyTelegramInitData hmac_key JSON_parse Number_toString safe_integer initData validationKey
    TELEGRAM_INIT_DATA_MAX_AGE_SECONDS now.

(** [TelegramInitDataValidationError], which the controller answers as an
    invalid login. *)
Definition challenge_by_launch (s : Accounts) (launchId : string) : option (string * AuthChallenge) :=
  find_row (λ c, bool_decide (au_launchId c = launchId)) (ac_challenges s).

Definition beginInTransaction (initData validationKey pepper : string) (proof : VerifiedTelegramInitData)
    (secret code : string) (now : Z) : AccountM PendingTelegramLogin :=
  s ← get;
  match challenge_by_launch s (vi_startParam proof), verify initData validationKey now with
  | Some (challengeId, challenge), Some authoritative =>
      match au_userId challenge with
      | Some userId =>
          throw_if (negb (bool_decide (authoritative = proof) &&
              bool_decide (us_telegramUserId <$> ac_users s !! userId = Some (vi_id authoritative)) &&
              is_null (au_consumedAt challenge)) || (au_expiresAt challenge <=? now)) invalidLogin;;
          let expiresAt := Z.min (au_expiresAt challenge) (now + PENDING_LOGIN_TTL_MS) in
          pending_create uuid
            {| pe_challengeId := challengeId; pe_userId := userId;
               pe_telegramUserId := vi_id authoritative;
               pe_pendingTokenHash := hashPendingSecret secret pepper;
               pe_confirmationCodeHash := hashConfirmationCode (vi_id authoritative) code pepper;
               pe_status := AWAITING_BOT_CONFIRM; pe_expiresAt := expiresAt;
               pe_confirmedAt := None; pe_consumedAt := None; pe_createdAt := now |};;
          throw_if (negb (confirmation_code code && is_datetime (toISOString expiresAt)))
            (AccountFailure (Thrown "ZodError"));;
          mret {| pt_confirmationCode := code; pt_expiresAt := expiresAt |}
      | None => throw invalidLogin
      end
  | _, _ => throw invalidLogin
  end.

(** One random secret and code per attempt. *)
Fixpoint begin_attempts (initData validationKey pepper : string) (proof : VerifiedTelegramInitData)
    (material : list (string * list Z * Z)) : AccountM (PendingTelegramLogin * string) :=
  match material with
  | [] => throw (ServiceUnavailableException login_unavailable)
  | (secret, code, now) :: rest =>
      try_catch
        (pending ← atomically (beginInTransaction initData validationKey pepper proof secret
                                 (createCrockfordCode code) now);
         mret (pending, secret))
        (λ e, match e with
              | AccountFailure (Database UniqueViolation) =>
                  begin_attempts initData validationKey pepper proof rest
              | _ => throw e
              end)
  end.

(** [PENDING_MATERIAL_GENERATION_ATTEMPTS] is 5: the length of [material]. *)
Definition beginLogin (initData : string) (processNow : Z) (attempts : option Z)
    (material : list (string * list Z * Z)) : AccountM (PendingTelegramLogin * string) :=
  match truthy TELEGRAM_WEB_APP_VALIDATION_KEY, truthy AUTH_SESSION_PEPPER with
  | Some validationKey, Some pepper =>
      match verify initData validationKey processNow with
      | None => throw invalidLogin
      | Some proof =>
          auth_allowed attempts;;
          begin_attempts initData validationKey pepper proof material
      end
  | _, _ => throw (ServiceUnavailableException login_unavailable)
  end.

(** ** [PendingLoginService.confirm] *)

Definition awaiting (telegramUserId codeHash : string) (p : PendingLogin) : bool :=
  bool_decide (pe_telegramUserId p = telegramUserId) && bool_decide (pe_confirmationCodeHash p = codeHash) &&
  bool_decide (pe_status p = AWAITING_BOT_CONFIRM).

Definition confirmInTransaction (telegramUserId code pepper : string) (now : Z)
    : AccountM BotOperationResponse :=
  s ← get;
  match filter (λ kv : string * PendingLogin,
          awaiting telegramUserId (hashConfirmationCode telegramUserId code pepper) kv.2 = true)
          (map_to_list (ac_pendingLogins s)) with
  | [(id, pending)] =>
      throw_if (negb (login_open s pending now) || bool_decide (pe_userId pending = EmptyString)) invalidLogin;;
      pending_update id (with_pending_status BOT_CONFIRMED (Some now) (pe_consumedAt pending));;
      mret {| or_statusCode := 200; or_body := JObj [("status", JStr "BOT_CONFIRMED")]%string |}
  | _ => throw invalidLogin
  end.

Definition confirmedTelegramLoginSchema (j : json) : option json :=
  m ← zod_object j;
  guard (strict_keys ["status"]%string m = true);;
  status ← field m "status" zod_string; guard (status = "BOT_CONFIRMED"%string);; Some j.

Definition confirm (request : AuthenticatedBotRequest) (attempts : option Z) (code : string) (now : Z)
    : AccountM json :=
  match truthy AUTH_SESSION_PEPPER with
  | None => throw (ServiceUnavailableException login_unavailable)
  | Some pepper =>
      result ← execute request (
        auth_allowed attempts;;
        confirmInTransaction (br_telegramUserId request) code pepper now) now;
      match confirmedTelegramLoginSchema (xr_body result) with
      | Some body => mret body
      | None => throw (AccountFailure (Thrown "ZodError"))
      end
  end.

(** ** [PendingLoginService.complete] *)

Definition completeInTransaction (secret pepper sessionSecret : string) (now : Z)
    : AccountM AuthenticatedSession :=
  s ← get;
  match find_row (λ p, bool_decide (pe_pendingTokenHash p = hashPendingSecret secret pepper))
          (ac_pendingLogins s) with
  | None => throw invalidLogin
  | Some (pendingId, pending) =>
      throw_if (negb (login_open s pending now && bool_decide (pe_status pending = BOT_CONFIRMED))) invalidLogin;;
      throw_if (negb (bool_decide (us_telegramUserId <$> ac_users s !! pe_userId pending =
                                   Some (pe_telegramUserId pending)))) invalidLogin;;
      let expiresAt := now + AUTH_SESSION_TTL_SECONDS * 1000 in
      let replay := replayHash (pe_challengeId pending) pepper in
      sessionId ← session_create uuid
        {| ss_userId := pe_userId pending; ss_tokenHash := hashSessionSecret sessionSecret pepper;
           ss_telegramReplayHash := Some replay; ss_expiresAt := expiresAt; ss_revokedAt := None |};
      pending_update pendingId (with_pending_status CONSUMED (pe_confirmedAt pending) (Some now));;
      challenge_consume (pe_challengeId pending) replay sessionId now;;
      throw_if (negb (is_uuid (pe_userId pending) && is_datetime (toISOString expiresAt)))
        (AccountFailure (Thrown "ZodError"));;
      mret {| as_userId := pe_userId pending; as_expiresAt := expiresAt |}
  end.

Definition complete (secret sessionSecret : string) (now : Z) : AccountM (AuthenticatedSession * string) :=
  match truthy AUTH_SESSION_PEPPER with
  | None => throw invalidLogin
  | Some pepper =>
      throw_if (negb (secret_text secret)) invalidLogin;;
      session ← atomically (completeInTransaction secret pepper sessionSecret now);
      mret (session, sessionSecret)
  end.

(** ** [AuthSessionService] *)

Definition currentSession (s : Accounts) (secret : string) (now : Z) : option AuthenticatedSession :=
  pepper ← truthy AUTH_SESSION_PEPPER;
  guard (secret_text secret = true);;
  '(_, session) ← find_row (λ x, bool_decide (ss_tokenHash x = hashSessionSecret secret pepper) &&
      is_null (ss_revokedAt x) && (now <? ss_expiresAt x)) (ac_sessions s);
  Some {| as_userId := ss_userId session; as_expiresAt := ss_expiresAt session |}.

Definition revoke_session (now : Z) (x : UserSession) : UserSession :=
  {| ss_userId := ss_userId x; ss_tokenHash := ss_tokenHash x;
     ss_telegramReplayHash := ss_telegramReplayHash x; ss_expiresAt := ss_expiresAt x;
     ss_revokedAt := Some now |}.
Definition revokeSession (secret : string) (now : Z) : AccountM unit :=
  match truthy AUTH_SESSION_PEPPER with
  | None => mret tt
  | Some pepper =>
      if negb (secret_text secret) then mret tt else
      modify (set_sessions (fmap (λ x,
        if bool_decide (ss_tokenHash x = hashSessionSecret secret pepper) && is_null (ss_revokedAt x)
        then revoke_session now x else x)))
  end.
End login.

(** [readCookie(header, name)] of [AuthSessionService]: the first item of that
    name. *)
Fixpoint cookie_item (name : string) (items : list string) : string :=
  match items with
  | [] => EmptyString
  | item :: rest =>
      let '(key, value) := cut_equals (trim item) in
      if bool_decide (key = name) then value else cookie_item name rest
  end.
Definition readCookie (cookieHeader : option string) (name : string) : string :=
  match cookieHeader with
  | Some header => cookie_item name (split_char ";" header)
  | None => EmptyString
  end.
