(* ===== verification/BotClient.v ===== *)
(** * The Telegram bot: [apps/bot/src/] and [packages/contracts/src/bot-auth.ts]

    The bot reads its credential from a file, signs its requests
    (bot-api-client.ts) and turns messages into requests of the API
    (telegram-login-launch.ts, telegram-confirmation.ts).  A message is a list of
    UTF-16 code units, what goes over the wire a string of bytes.  Telegraf,
    [fetch] and the file system are not part of the model: what they give is an
    argument. *)

From Stdlib Require Import Ascii.
From stdpp Require Import pretty.
From S2P Require Import Prelude.
From S2P Require Import Text.
From S2P Require Import Regex.
From S2P Require Import Json.
From S2P Require Import NodeAgentContract.
From S2P Require Import DataPlaneCredential.
From S2P Require Import Base64Url.
From S2P Require Import BotSigningKey.
From S2P Require Import SafeLogger.
From S2P Require Import TelegramInitData.
From S2P Require Import BotRequests.
From S2P Require Import Login.
Open Scope Z_scope.

(** ** The contract *)

Definition BOT_AUTH_HEADER_NAMES_credentialId : string := "x-bot-credential-id".
Definition BOT_AUTH_HEADER_NAMES_idempotencyKey : string := "idempotency-key".
Definition BOT_AUTH_HEADER_NAMES_nonce : string := "x-bot-nonce".
Definition BOT_AUTH_HEADER_NAMES_signature : string := "x-bot-signature".
Definition BOT_AUTH_HEADER_NAMES_timestamp : string := "x-bot-timestamp".

(** A text of [lo] to [hi] bytes that all satisfy [p]: the classes of these
    schemas are ASCII, where bytes and code units agree. *)
Definition ascii_text (lo hi : nat) (p : ascii → bool) (s : string) : bool :=
  (lo <=? String.length s)%nat && (String.length s <=? hi)%nat && string_forall p s.
Definition byte_in (lo hi : nat) (a : ascii) : bool := (lo <=? byte_of a)%nat && (byte_of a <=? hi)%nat.
Definition digit : ascii → bool := byte_in 48 57.
Definition nonzero_digit : ascii → bool := byte_in 49 57.
Definition base64url_char (a : ascii) : bool := negb (bool_decide (char_sextet a = None)).

(** [/^(?:0|[1-9]\d{0,10})$/] *)
Definition botRequestTimestampSchema (s : string) : bool :=
  bool_decide (s = "0"%string) ||
  match s with String a rest => nonzero_digit a && ascii_text 0 10 digit rest | EmptyString => false end.
Definition botRequestNonceSchema : string → bool := ascii_text 16 128 base64url_char.
(** [/^[0-9a-f]{64}$/] *)
Definition botRequestSignatureSchema : string → bool := ascii_text 64 64 hex_digit.
Definition botRequestIdempotencyKeySchema : string → bool := ascii_text 1 128 (byte_in 33 126).
Definition botTelegramUserIdSchema (s : string) : bool :=
  ascii_text 1 20 digit s && match s with String a _ => nonzero_digit a | EmptyString => false end.
Definition botRequestMethodSchema : string → bool := ascii_text 3 12 (byte_in 65 90).
(** [.min(1).max(512).regex(/^\/[^?#\r\n]*$/)] *)
Definition path_char (a : ascii) : bool :=
  negb (existsb (Nat.eqb (byte_of a)) [63; 35; 13; 10]%nat).
Definition botRequestPathSchema (s : string) : bool :=
  (utf16_length s <=? 512)%nat &&
  match s with String a rest => Ascii.eqb a "/" && string_forall path_char rest | EmptyString => false end.
Definition botSigningKeySchema : string → bool := ascii_text 43 43 base64url_char.

(** A member of a schema of texts. *)
Definition text_field (m : list (string * json)) (key : string) (p : string → bool) : option string :=
  field m key (zod_text p).

Record BotCredentialFile := { cf_credentialId : string; cf_signingKey : string }.

(** [JSON.stringify] of an object of numbers and of texts without characters that
    need an escape. *)
Definition quote : ascii := ascii_of_nat 34.
Definition quoted (s : string) : string := String quote (s +:+ String quote EmptyString).
Inductive scalar := ScalarText (s : string) | ScalarInt (z : Z).
Definition scalar_json (v : scalar) : json :=
  match v with ScalarText s => JStr s | ScalarInt z => jint z end.
Definition stringify_scalar (v : scalar) : string :=
  match v with ScalarText s => quoted s | ScalarInt z => pretty z end.
Definition stringify_member (m : string * scalar) : string := quoted m.1 +:+ ":" +:+ stringify_scalar m.2.
Definition JSON_stringify (members : list (string * scalar)) : string :=
  "{" +:+ join "," (stringify_member <$> members) +:+ "}".
Definition object_json (members : list (string * scalar)) : json :=
  JObj ((λ m : string * scalar, (m.1, scalar_json m.2)) <$> members).
(** Printable ASCII apart from the quote and the backslash. *)
Definition plain_char (a : ascii) : bool := byte_in 32 126 a && negb (Ascii.eqb a quote) && negb (Ascii.eqb a "\").
Definition plain_text : string → bool := string_forall plain_char.

Inductive BotError := ZodError | BotFailure (message : string) | FileSystemError.

Section contract.
Context (is_uuid : string → bool) (JSON_parse : string → option json).

Definition botCredentialFileSchema (j : json) : option BotCredentialFile :=
  m ← zod_object j;
  guard (strict_keys ["formatVersion"; "credentialId"; "signingKey"]%string m = true);;
  version ← field m "formatVersion" zod_int; guard (version = 1);;
  credentialId ← text_field m "credentialId" is_uuid;
  signingKey ← text_field m "signingKey" botSigningKeySchema;
  Some {| cf_credentialId := credentialId; cf_signingKey := signingKey |}.

Definition credential_members (c : BotCredentialFile) : list (string * scalar) :=
  [("formatVersion", ScalarInt 1); ("credentialId", ScalarText (cf_credentialId c));
   ("signingKey", ScalarText (cf_signingKey c))]%string.
Definition serializeBotCredentialFile (c : BotCredentialFile) : option string :=
  guard (is_uuid (cf_credentialId c) = true);; guard (botSigningKeySchema (cf_signingKey c) = true);;
  Some (JSON_stringify (credential_members c) +:+ newline).

(** [content.slice(0, -1)] and the last character. *)
Fixpoint cut_last (s : string) : string * option ascii :=
  match s with
  | EmptyString => (EmptyString, None)
  | String a EmptyString => (EmptyString, Some a)
  | String a s' => let '(front, last) := cut_last s' in (String a front, last)
  end.
Definition parseBotCredentialFile (content : string) : outcome BotError BotCredentialFile :=
  let '(line, last) := cut_last content in
  if negb (bool_decide (last = Some "010"%char)) || negb (string_forall (λ a, negb (Ascii.eqb a "010")) line)
  then Throw (BotFailure "Bot credential file must contain one JSON line")
  else match JSON_parse line ≫= botCredentialFileSchema with
       | Some c => Ok c
       | None => Throw (BotFailure "Bot credential file is invalid")
       end.
End contract.

(** ** [bot-api-client.ts] *)

Record BotRequestSigner := { sg_credentialId : string; sg_signingKey : list Z; sg_destroyed : bool }.
Record BotSignInput := {
  si_method : string; si_path : string; si_telegramUserId : string; si_idempotencyKey : string; si_body : string;
}.
Record BotSignedRequest := { sr_body : string; sr_headers : list (string * string) }.

(** What [lstatSync] tells, and the process: its user and groups. *)
Record FileStats := { st_isFile : bool; st_isSymbolicLink : bool; st_uid : Z; st_gid : Z; st_mode : Z }.
Record Process := { pc_win32 : bool; pc_uid : option Z; pc_groups : list Z }.
(** A path as the bot meets it: whether it is absolute, and what is there. *)
Record FileAt := { fa_absolute : bool; fa_stats : option FileStats; fa_content : option string }.

Section client.
Context (is_uuid : string → bool) (JSON_parse : string → option json).
Context (hmac_sha256 : list Z → string → list Z) (sha256_bytes : string → list Z).

(** [Buffer.from(text, 'base64url')] of any text differs from writing it back
    unless the text is canonical. *)
Definition new_signer (credentialId encodedSigningKey : string) : outcome BotError BotRequestSigner :=
  if negb (is_uuid credentialId) then Throw ZodError else
  let signingKey := from_base64url encodedSigningKey in
  if negb (length signingKey =? 32)%nat || negb (bool_decide (base64url signingKey = encodedSigningKey))
  then Throw (BotFailure "Bot signing configuration is invalid")
  else Ok {| sg_credentialId := credentialId; sg_signingKey := signingKey; sg_destroyed := false |}.

(** [nonce]: 24 random bytes in base64url. *)
Definition sign (signer : BotRequestSigner) (input : BotSignInput) (now : Z) (nonce : string)
    : outcome BotError BotSignedRequest :=
  if sg_destroyed signer then Throw (BotFailure "Bot request signer is destroyed")
  else if negb (botRequestMethodSchema (si_method input) && botRequestPathSchema (si_path input) &&
                botTelegramUserIdSchema (si_telegramUserId input) &&
                botRequestIdempotencyKeySchema (si_idempotencyKey input) && botRequestNonceSchema nonce)
  then Throw ZodError
  else
    let timestamp := pretty (now / 1000) in
    let rawBodySha256 := to_hex (sha256_bytes (si_body input)) in
    let signature := to_hex (hmac_sha256 (sg_signingKey signer)
      (createBotRequestCanonicalString (sg_credentialId signer) (si_method input) (si_path input) timestamp nonce
         (si_telegramUserId input) (si_idempotencyKey input) rawBodySha256)) in
    Ok {| sr_body := si_body input;
          sr_headers := [(BOT_AUTH_HEADER_NAMES_credentialId, sg_credentialId signer);
                         (BOT_AUTH_HEADER_NAMES_idempotencyKey, si_idempotencyKey input);
                         (BOT_AUTH_HEADER_NAMES_nonce, nonce);
                         (BOT_AUTH_HEADER_NAMES_signature, signature);
                         (BOT_AUTH_HEADER_NAMES_timestamp, timestamp)] |}.

Definition destroy (signer : BotRequestSigner) : BotRequestSigner :=
  {| sg_credentialId := sg_credentialId signer; sg_signingKey := replicate (length (sg_signingKey signer)) 0;
     sg_destroyed := true |}.

(** The checks of [readBotCredentialFile] and [readTelegramBotTokenFile], with
    what the messages call the file. *)
Definition access_problem (process : Process) (stats : FileStats) (rootOwnedGroupId : option Z) : option string :=
  if pc_win32 process then None else
  match rootOwnedGroupId with
  | None =>
      if negb (bool_decide (pc_uid process = Some (st_uid stats))) then Some " file owner is invalid"%string
      else if negb (Z.land (st_mode stats) 63 =? 0) then Some " file permissions are invalid"%string
      else None
  | Some group =>
      if negb (st_uid stats =? 0) || negb (st_gid stats =? group) || negb (Z.land (st_mode stats) 511 =? 288) ||
         negb (bool_decide (group ∈ pc_groups process))
      then Some " root-owned group access is invalid"%string else None
  end.
Definition read_protected (what : string) (process : Process) (file : FileAt) (rootOwnedGroupId : option Z)
    : outcome BotError string :=
  if negb (fa_absolute file) then Throw (BotFailure (what +:+ " path must be absolute")) else
  match fa_stats file with
  | None => Throw FileSystemError
  | Some stats =>
      if negb (st_isFile stats) || st_isSymbolicLink stats
      then Throw (BotFailure (what +:+ " file type is invalid")) else
      match access_problem process stats rootOwnedGroupId with
      | Some problem => Throw (BotFailure (what +:+ problem))
      | None => match fa_content file with Some content => Ok content | None => Throw FileSystemError end
      end
  end.

Definition readBotCredentialFile (process : Process) (file : FileAt) (rootOwnedGroupId : option Z)
    : outcome BotError BotCredentialFile :=
  match read_protected "Bot credential" process file rootOwnedGroupId with
  | Ok content => parseBotCredentialFile is_uuid JSON_parse content
  | Throw e => Throw e
  end.
Definition createBotRequestSignerFromFile (process : Process) (file : FileAt) (rootOwnedGroupId : option Z)
    : outcome BotError BotRequestSigner :=
  match readBotCredentialFile process file rootOwnedGroupId with
  | Ok credential => new_signer (cf_credentialId credential) (cf_signingKey credential)
  | Throw e => Throw e
  end.

(** [/^[0-9]{5,}:[A-Za-z0-9_-]{20,}\n?$/], then [token.trimEnd()]: the text
    without its newline. *)
Definition token_text (s : string) : bool :=
  match split_char ":" s with
  | [number; secret] =>
      (5 <=? String.length number)%nat && string_forall digit number &&
      (20 <=? String.length secret)%nat && string_forall base64url_char secret
  | _ => false
  end.
Definition drop_newline (s : string) : string :=
  match cut_last s with (front, Some a) => if Ascii.eqb a "010" then front else s | _ => s end.
Definition readTelegramBotTokenFile (process : Process) (file : FileAt) (rootOwnedGroupId : option Z)
    : outcome BotError string :=
  match read_protected "Telegram token" process file rootOwnedGroupId with
  | Ok content =>
      let token := drop_newline content in
      if token_text token then Ok token else Throw (BotFailure "Telegram token file value is invalid")
  | Throw e => Throw e
  end.
End client.

(** ** Messages *)

(** A response of [fetch]: its status and, when it is JSON, its body. *)
Record Response := { rs_status : Z; rs_json : option json }.

Inductive ConfirmationResult := Confirmed | ConfirmationRejected | ConfirmationUnavailable.
Inductive TelegramLoginLaunchResult := LaunchIssued (launchId expiresAt : string) | LaunchRejected | LaunchUnavailable.

Record Message := { me_text : jstring; me_telegramUserId : string; me_updateId : Z }.

Definition CHALLENGE_PATH : string := "/auth/telegram/challenge".
Definition CONFIRM_PATH : string := "/auth/telegram/confirm".

(** [(?:@[a-z0-9_]+)?], ignoring case. *)
Definition bot_name : regex := maybe (sequence [char "@"; plus (chars (letter ++ digits :: point "_"))]).
Definition LAUNCH_COMMAND : regex :=
  sequence [StartOf; char "/"; words ["start"; "cabinet"]; bot_name; EndOf].
(** [/^\/confirm(?:@[a-z0-9_]+)?\s+(.+)$/i], up to the group and the rest; a dot
    is not a line terminator. *)
Definition confirm_prefix : regex :=
  sequence [StartOf; char "/"; literal_i "confirm"; bot_name; plus (chars white_space)].
Definition confirm_rest : regex := sequence [plus (but [(10, 10); (13, 13); (8232, 8233)]); EndOf].
(** The group of the first match. *)
Definition confirm_argument (normalized : jstring) : option jstring :=
  match filter (λ j, ends normalized confirm_rest j ≠ []) (ends normalized confirm_prefix 0) with
  | j :: _ => Some (drop j normalized)
  | [] => None
  end.
(** [.replaceAll('I', '1').replaceAll('L', '1').replaceAll('O', '0')] *)
Definition crockford_unit (c : Z) : Z :=
  if (c =? 73) || (c =? 76) then 49 else if c =? 79 then 48 else c.
Definition CROCKFORD_CODE : regex :=
  sequence [StartOf; times 8 (chars [digits; (65, 72); (74, 75); (77, 78); (80, 84); (86, 90)]); EndOf].
(** An ASCII text. *)
Definition text_of_units (s : jstring) : string :=
  String.string_of_list_ascii ((λ c, ascii_of_nat (Z.to_nat c)) <$> s).

Section messages.
Context (is_uuid is_datetime : string → bool).
Context (hmac_sha256 : list Z → string → list Z) (sha256_bytes : string → list Z).
(** [text.toUpperCase()] of Unicode, and a link with its [startapp] set. *)
Context (toUpperCase : jstring → jstring) (set_startapp : string → string → string).
Notation sign := (sign hmac_sha256 sha256_bytes).

Definition parseConfirmationCode (text : jstring) : option string :=
  let normalized := js_trim text in
  let command := confirm_argument normalized in
  let candidate := crockford_unit <$> toUpperCase (js_trim (default normalized command)) in
  if test candidate CROCKFORD_CODE then Some (text_of_units candidate) else None.

(** [issueTelegramAuthChallengeRequestSchema], [confirmTelegramLoginRequestSchema]
    on what the bot builds, and its [JSON.stringify]. *)
Definition challenge_body (telegramUserId : string) : outcome BotError string :=
  if botTelegramUserIdSchema telegramUserId
  then Ok (JSON_stringify [("telegramUserId", ScalarText telegramUserId)]%string) else Throw ZodError.
Definition confirm_body (telegramUserId code : string) : outcome BotError string :=
  if botTelegramUserIdSchema telegramUserId && confirmation_code code
  then Ok (JSON_stringify [("telegramUserId", ScalarText telegramUserId);
                           ("confirmationCode", ScalarText code)]%string)
  else Throw ZodError.

Definition signed_post (signer : BotRequestSigner) (path telegramUserId idempotencyKey : string)
    (body : outcome BotError string) (now : Z) (nonce : string) : outcome BotError BotSignedRequest :=
  match body with
  | Throw e => Throw e
  | Ok body => sign signer {| si_method := "POST"; si_path := path; si_telegramUserId := telegramUserId;
                              si_idempotencyKey := idempotencyKey; si_body := body |} now nonce
  end.

(** The request of a message, and what its response means. *)
Definition launch_request (signer : BotRequestSigner) (telegramUserId : string) (updateId now : Z) (nonce : string) :=
  signed_post signer CHALLENGE_PATH telegramUserId ("telegram-challenge-" +:+ pretty updateId)
    (challenge_body telegramUserId) now nonce.
Definition launch_result (response : option Response) : TelegramLoginLaunchResult :=
  match response with
  | None => LaunchUnavailable
  | Some r =>
      if rs_status r =? 201 then
        match j ← rs_json r; issuedTelegramAuthChallengeSchema is_datetime j with
        | Some body =>
            match m ← zod_object body; launchId ← field m "launchId" zod_string;
                  expiresAt ← field m "expiresAt" zod_string; Some (launchId, expiresAt) with
            | Some (launchId, expiresAt) => LaunchIssued launchId expiresAt
            | None => LaunchUnavailable
            end
        | None => LaunchUnavailable
        end
      else if bool_decide (rs_status r ∈ [400; 401; 409]) then LaunchRejected else LaunchUnavailable
  end.
(** [TelegramLoginLaunchClient.issue]: [fetch] answers the signed request. *)
Definition issue (signer : BotRequestSigner) (telegramUserId : string) (updateId now : Z) (nonce : string)
    (fetch : BotSignedRequest → option Response) : outcome BotError TelegramLoginLaunchResult :=
  match launch_request signer telegramUserId updateId now nonce with
  | Throw e => Throw e
  | Ok signed => Ok (launch_result (fetch signed))
  end.

Definition confirm_request (signer : BotRequestSigner) (telegramUserId code : string) (updateId now : Z)
    (nonce : string) :=
  signed_post signer CONFIRM_PATH telegramUserId ("telegram-update-" +:+ pretty updateId)
    (confirm_body telegramUserId code) now nonce.
Definition confirm_result (response : option Response) : ConfirmationResult :=
  match response with
  | None => ConfirmationUnavailable
  | Some r =>
      if rs_status r =? 200
      then if is_null (j ← rs_json r; confirmedTelegramLoginSchema j) then ConfirmationUnavailable else Confirmed
      else if bool_decide (rs_status r ∈ [400; 401; 404]) then ConfirmationRejected else ConfirmationUnavailable
  end.
Definition confirm_login (signer : BotRequestSigner) (telegramUserId code : string) (updateId now : Z)
    (nonce : string) (fetch : BotSignedRequest → option Response) : outcome BotError ConfirmationResult :=
  match confirm_request signer telegramUserId code updateId now nonce with
  | Throw e => Throw e
  | Ok signed => Ok (confirm_result (fetch signed))
  end.

(** The replies, by what they say. *)
Inductive Reply :=
| ReplyCabinetUnavailable
| ReplyServiceUnavailable
| ReplyOpenCabinet (miniAppUrl : string)
| ReplyConfirmation (r : ConfirmationResult).

(** [handleLoginLaunchMessage]: the miniapp link carries the launch. *)
Definition handleLoginLaunchMessage (message : Message)
    (client : string → Z → outcome BotError TelegramLoginLaunchResult) (miniAppBaseUrl : string)
    : outcome BotError (option Reply) :=
  if negb (test (js_trim (me_text message)) LAUNCH_COMMAND) then Ok None else
  match client (me_telegramUserId message) (me_updateId message) with
  | Throw e => Throw e
  | Ok LaunchRejected => Ok (Some ReplyCabinetUnavailable)
  | Ok LaunchUnavailable => Ok (Some ReplyServiceUnavailable)
  | Ok (LaunchIssued launchId _) => Ok (Some (ReplyOpenCabinet (set_startapp miniAppBaseUrl launchId)))
  end.
Definition handleConfirmationMessage (message : Message)
    (client : string → string → Z → outcome BotError ConfirmationResult) : outcome BotError (option Reply) :=
  match parseConfirmationCode (me_text message) with
  | None => Ok None
  | Some code =>
      match client (me_telegramUserId message) code (me_updateId message) with
      | Throw e => Throw e
      | Ok r => Ok (Some (ReplyConfirmation r))
      end
  end.
(** [bot.on('text', ...)] of main.ts: a launch first, else a confirmation; a throw
    goes to [bot.catch]. *)
Definition on_text (message : Message)
    (launches : string → Z → outcome BotError TelegramLoginLaunchResult) (miniAppBaseUrl : string)
    (confirmations : string → string → Z → outcome BotError ConfirmationResult) : outcome BotError (option Reply) :=
  match handleLoginLaunchMessage message launches miniAppBaseUrl with
  | Ok None => handleConfirmationMessage message confirmations
  | r => r
  end.
End messages.

(** ** Facts: texts *)

Lemma digits_value_app acc s t : digits_value acc (s +:+ t) = digits_value (digits_value acc s) t.
Proof. revert acc. induction s as [|a s IH]; intros acc; [done|]. apply IH. Qed.

(** [String(n)] is the digits of [n], without a leading zero. *)
Definition numeral (x : Z) (s : string) : Prop :=
  string_forall digit s = true ∧ (∀ acc, digits_value acc s = acc * 10 ^ Z.of_nat (String.length s) + x) ∧
  match s with String a _ => nonzero_digit a = true | EmptyString => x = 0 end.

Lemma digit_char y : (y < 10)%N →
  digit (pretty_N_char y) = true ∧ Z.of_nat (nat_of_ascii (pretty_N_char y)) - 48 = Z.of_N y ∧
  (y ≠ 0%N → nonzero_digit (pretty_N_char y) = true).
Proof.
  intros Hy. assert (y = 0 ∨ y = 1 ∨ y = 2 ∨ y = 3 ∨ y = 4 ∨ y = 5 ∨ y = 6 ∨ y = 7 ∨ y = 8 ∨ y = 9)%N by lia.
  destruct_or!; subst y; split_and!; (reflexivity || done).
Qed.

Lemma numeral_nil : numeral 0 EmptyString.
Proof. split_and!; [done| |done]. intros acc. simpl. lia. Qed.

Lemma pretty_go_numeral k x s : (x < 10 ^ N.of_nat k)%N →
  ∃ d, pretty_N_go x s = d +:+ s ∧ numeral (Z.of_N x) d ∧ (String.length d ≤ k)%nat.
Proof.
  revert x s. induction k as [|k IH]; intros x s Hx.
  { exists EmptyString. assert (x = 0)%N as -> by (simpl in Hx; lia). split; [done|]. split; [apply numeral_nil|simpl; lia]. }
  destruct (decide (x = 0)%N) as [->|Hne].
  { exists EmptyString. split; [done|]. split; [apply numeral_nil|simpl; lia]. }
  rewrite pretty_N_go_step by lia.
  destruct (IH (x / 10)%N (String (pretty_N_char (x mod 10)) s)) as (d & -> & (Hd & Hv & Hf) & Hl).
  { apply N.Div0.div_lt_upper_bound. rewrite Nat2N.inj_succ, N.pow_succ_r' in Hx. lia. }
  destruct (digit_char (x mod 10)) as (Hc & Hcv & Hcn); [by apply N.mod_lt|].
  exists (d +:+ String (pretty_N_char (x mod 10)) EmptyString).
  split; [clear; induction d as [|a d IH]; [done|by apply (f_equal (String a))]|].
  assert (Hdiv : Z.of_N x = Z.of_N (x / 10) * 10 + Z.of_N (x mod 10)).
  { pose proof (N.div_mod x 10 ltac:(done)). lia. }
  split; [split_and!|].
  - rewrite string_forall_app, Hd. simpl. by rewrite Hc.
  - intros acc. rewrite digits_value_app, Hv. cbn [digits_value]. rewrite string_length_app, Nat2Z.inj_add.
    rewrite Z.pow_add_r, Hdiv by lia. cbn [String.length]. change (10 ^ Z.of_nat 1) with 10. lia.
  - destruct d as [|a d]; [|done]. simpl. apply Hcn. intros E. rewrite E in Hdiv. simpl in Hf. lia.
  - rewrite string_length_app. simpl. lia.
Qed.

Lemma pretty_digits k z : (1 ≤ k)%nat → 0 ≤ z < 10 ^ Z.of_nat k →
  string_forall digit (pretty z) = true ∧ (1 ≤ String.length (pretty z) ≤ k)%nat ∧
  digits_value 0 (pretty z) = z ∧
  (pretty z = "0"%string ∨ ∃ a rest, pretty z = String a rest ∧ nonzero_digit a = true).
Proof.
  intros Hk Hz. destruct z as [|p|p]; [split_and!; [done|done|exact Hk|done|by left]| |lia].
  destruct (pretty_go_numeral k (N.pos p) EmptyString) as (d & Hd & (Hdig & Hv & Hf) & Hl).
  { apply N2Z.inj_lt. rewrite N2Z.inj_pow, nat_N_Z. simpl. lia. }
  assert (E : pretty (Z.pos p) = d).
  { unfold pretty, pretty_Z, pretty, pretty_positive, pretty, pretty_N. rewrite decide_False by done.
    rewrite Hd. clear. induction d as [|a d IH]; [done|by apply (f_equal (String a))]. }
  rewrite E. destruct d as [|a d]; [done|].
  split_and!; [done|simpl; lia|exact Hl|rewrite Hv; lia|].
  right. by exists a, d.
Qed.

(** The timestamp the bot writes is the one the API reads. *)
Lemma timestamp_text z : 0 ≤ z < 10 ^ 11 →
  botRequestTimestampSchema (pretty z) = true ∧ digits_value 0 (pretty z) = z.
Proof.
  intros Hz. destruct (pretty_digits 11 z ltac:(lia) Hz) as (Hdig & Hl & Hv & Hf). split; [|done].
  unfold botRequestTimestampSchema. destruct Hf as [->|(a & d & E & Ha)]; [done|]. rewrite E in *.
  rewrite Ha. cbn [string_forall String.length] in Hdig, Hl. apply andb_prop in Hdig as [_ Hdig].
  unfold ascii_text. rewrite Hdig. simpl. rewrite (proj2 (Nat.leb_le _ _)) by lia. apply orb_true_r.
Qed.

(** The idempotency key of an update. *)
Lemma update_key prefix z :
  (1 ≤ String.length prefix ≤ 64)%nat → string_forall (byte_in 33 126) prefix = true → 0 ≤ z < 10 ^ 30 →
  botRequestIdempotencyKeySchema (prefix +:+ pretty z) = true.
Proof.
  intros Hp Hc Hz. destruct (pretty_digits 30 z ltac:(lia) Hz) as (Hdig & Hl & _).
  unfold botRequestIdempotencyKeySchema, ascii_text.
  rewrite string_length_app, string_forall_app, Hc, (string_forall_impl digit); [|apply for_ascii_impl; vm_compute; reflexivity|done].
  rewrite !andb_true_iff, !Nat.leb_le. split_and!; lia || done.
Qed.

(** The texts of the requests are plain. *)
Lemma user_is_plain s : botTelegramUserIdSchema s = true → plain_text s = true.
Proof.
  unfold botTelegramUserIdSchema, ascii_text. intros [[_ Hd]%andb_prop _]%andb_prop.
  revert Hd. apply string_forall_impl, for_ascii_impl. vm_compute. reflexivity.
Qed.
Lemma code_is_plain s : confirmation_code s = true → plain_text s = true.
Proof.
  unfold confirmation_code. intros [_ Hd]%andb_prop.
  revert Hd. apply string_forall_impl, for_ascii_impl. vm_compute. reflexivity.
Qed.
Lemma key_is_plain s : botSigningKeySchema s = true → plain_text s = true.
Proof.
  unfold botSigningKeySchema, ascii_text. intros [_ Hd]%andb_prop.
  revert Hd. apply string_forall_impl, for_ascii_impl. vm_compute. reflexivity.
Qed.

(** *** One line *)

Definition one_line : string → bool := string_forall (λ a, negb (Ascii.eqb a "010")).

Lemma plain_one_line s : plain_text s = true → one_line s = true.
Proof. apply string_forall_impl, for_ascii_impl. vm_compute. reflexivity. Qed.
Lemma quoted_one_line s : plain_text s = true → one_line (quoted s) = true.
Proof.
  intros Hs. unfold one_line, quoted. cbn [string_forall]. rewrite string_forall_app.
  apply plain_one_line in Hs. unfold one_line in Hs. by rewrite Hs.
Qed.
Lemma text_member_one_line k s :
  plain_text k = true → plain_text s = true → one_line (stringify_member (k, ScalarText s)) = true.
Proof.
  intros Hk%quoted_one_line Hs%quoted_one_line. unfold one_line, stringify_member in *.
  cbn [fst snd stringify_scalar]. rewrite !string_forall_app. by rewrite Hk, Hs.
Qed.
Lemma members_one_line members :
  Forall (λ s, one_line s = true) (stringify_member <$> members) → one_line (JSON_stringify members) = true.
Proof.
  intros Hm. unfold one_line, JSON_stringify. rewrite !string_forall_app. simpl. rewrite andb_true_r.
  induction Hm as [|t l Ht Hl IH]; [done|]. destruct l as [|t' l]; [done|].
  change (join "," (t :: t' :: l)) with (t +:+ "," +:+ join "," (t' :: l)).
  rewrite !string_forall_app. unfold one_line in Ht. by rewrite Ht, IH.
Qed.

Lemma cut_last_snoc s a : cut_last (s +:+ String a EmptyString) = (s, Some a).
Proof.
  induction s as [|b s IH]; [done|]. change (String b s +:+ String a EmptyString) with (String b (s +:+ String a EmptyString)).
  cbn [cut_last]. rewrite IH. by destruct s.
Qed.

(** A credential file reads back. *)
Lemma credential_file_reads_back is_uuid JSON_parse credential content :
  plain_text (cf_credentialId credential) = true →
  JSON_parse (JSON_stringify (credential_members credential)) = Some (object_json (credential_members credential)) →
  serializeBotCredentialFile is_uuid credential = Some content →
  parseBotCredentialFile is_uuid JSON_parse content = Ok credential.
Proof.
  destruct credential as [id key]. simpl. intros Hp Hj Hs. unfold serializeBotCredentialFile in Hs.
  option_invert Hs. injection Hs as <-. simpl in *.
  unfold parseBotCredentialFile, newline. rewrite cut_last_snoc, bool_decide_eq_true_2 by done.
  match goal with |- context [string_forall ?p ?t] => replace (string_forall p t) with true end.
  - simpl. rewrite Hj. unfold botCredentialFileSchema, text_field, field, object_json, zod_text. simpl.
    repeat (rewrite option_guard_True by (done || by apply Is_true_true_2); simpl). done.
  - symmetry. apply members_one_line. unfold credential_members. simpl.
    repeat (apply Forall_cons; split); [reflexivity|by apply text_member_one_line| |by apply Forall_nil].
    apply text_member_one_line; [done|by apply key_is_plain].
Qed.
