(* ===== verification/HttpApi.v ===== *)
(** * The HTTP layer of the API: guards and controllers

    [BotRequestAuthenticationGuard], [TrustedOriginGuard], and the controllers
    behind them: [BotAuthController], [TrialController], [AuthController] and
    [CabinetController].  A handler is its controller's method; [behind_bot] and
    [behind_origin] put the guard before it.  Nest and Fastify route, parse the
    body and write the answer; Swagger's decorators say nothing of that. *)

From Stdlib Require Import Ascii.
From Stdlib Require Import QArith.
From stdpp Require Import pretty.
From S2P Require Import Prelude.
From S2P Require Import Text.
From S2P Require Import Json.
From S2P Require Import NodeAgentContract.
From S2P Require Import XrayAccess.
From S2P Require Import ControlPlane.
From S2P Require Import DataPlaneCredential.
From S2P Require Import Orchestration.
From S2P Require Import BotSigningKey.
From S2P Require Import TelegramInitData.
From S2P Require Import Accounts.
From S2P Require Import BotRequests.
From S2P Require Import Trial.
From S2P Require Import Cabinet.
From S2P Require Import Login.
From S2P Require Import BotClient.
Open Scope Z_scope.

(** ** Requests and replies *)

(** [rq_headers]: by their names in lower case, a text or an array of texts.  A
    reply lists a header once for each of its values. *)
Record HttpRequest := {
  rq_method : string;
  rq_url : option string;
  rq_headers : gmap string json;
  rq_body : option json;
  rq_rawBody : option string;
}.
Record HttpReply (A : Type) := { rp_status : Z; rp_headers : list (string * string); rp_body : A }.
Arguments rp_status {A}. Arguments rp_headers {A}. Arguments rp_body {A}.
Arguments Build_HttpReply {A}.

Inductive HttpError := ForbiddenException (message : string) | ServiceError (e : AccountError).
Notation HttpM := (M Accounts HttpError).

Definition of_service {A} (m : AccountM A) : HttpM A := λ s,
  match m s with (Ok a, s') => (Ok a, s') | (Throw e, s') => (Throw (ServiceError e), s') end.
Definition reply {A} (status : Z) (body : A) : HttpReply A := Build_HttpReply status [] body.
Definition answered {A} (status : Z) (m : AccountM A) : HttpM (HttpReply A) :=
  body ← of_service m; mret (reply status body).

(** The status Nest answers an exception with. *)
Definition error_status (e : HttpError) : Z :=
  match e with
  | ForbiddenException _ => 403
  | ServiceError (BadRequestException _) => 400
  | ServiceError (UnauthorizedException _) => 401
  | ServiceError (NotFoundException _) => 404
  | ServiceError (ConflictException _) => 409
  | ServiceError (TooManyRequests _) => 429
  | ServiceError (ServiceUnavailableException _) => 503
  | ServiceError (AccountFailure _) => 500
  end.
Definition response_status {A} (r : outcome HttpError (HttpReply A)) : Z :=
  match r with Ok reply => rp_status reply | Throw e => error_status e end.

Definition header_text (request : HttpRequest) (name : string) : option string :=
  rq_headers request !! name ≫= zod_string.

(** ** Schemas of the requests *)

Record BotSignedRequestHeaders := {
  sh_credentialId : string; sh_idempotencyKey : string; sh_nonce : string;
  sh_signature : string; sh_timestamp : string;
}.

Section api.
Context (uuid : nat → string) `{LocaleCompare} `{DateStrings} `{Aes256Gcm}.
Context (hmac_key : list Z → string → list Z) (hmac_sha256 : string → string → list Z).
Context (sha256_bytes : string → list Z).
Context (is_uuid is_datetime : string → bool) (plus_days : Z → Z → Z).
Context (JSON_parse : string → option json) (Number_toString : Q → string).
Context (safe_integer : string → option Z) (newURL : string → string → string).
Context (environment : ApiEnvironment) (BOT_SIGNING_KEK : option string).
Context (AUTH_SESSION_PEPPER TELEGRAM_WEB_APP_VALIDATION_KEY : option string).
Context (TELEGRAM_INIT_DATA_MAX_AGE_SECONDS AUTH_SESSION_TTL_SECONDS AUTH_PRELAUNCH_RATE_LIMIT_MAX : Z).
Context (SUBSCRIPTION_TOKEN_PEPPER SUBSCRIPTION_FEED_BASE_URL CABINET_ORIGIN : option string).
Context (production : bool).

Definition botSignedRequestHeadersSchema (request : HttpRequest) : option BotSignedRequestHeaders :=
  let header name p := j ← rq_headers request !! name; zod_text p j in
  credentialId ← header BOT_AUTH_HEADER_NAMES_credentialId is_uuid;
  idempotencyKey ← header BOT_AUTH_HEADER_NAMES_idempotencyKey botRequestIdempotencyKeySchema;
  nonce ← header BOT_AUTH_HEADER_NAMES_nonce botRequestNonceSchema;
  signature ← header BOT_AUTH_HEADER_NAMES_signature botRequestSignatureSchema;
  timestamp ← header BOT_AUTH_HEADER_NAMES_timestamp botRequestTimestampSchema;
  Some {| sh_credentialId := credentialId; sh_idempotencyKey := idempotencyKey; sh_nonce := nonce;
          sh_signature := signature; sh_timestamp := timestamp |}.

(** [.passthrough()]: other members are let be. *)
Definition botTelegramIdentitySchema (j : json) : option string :=
  m ← zod_object j; text_field m "telegramUserId" botTelegramUserIdSchema.

(** [issueTelegramAuthChallengeRequestSchema] and [activateTrialRequestSchema] *)
Definition issueTelegramAuthChallengeRequestSchema (j : json) : option string :=
  m ← zod_object j; guard (strict_keys ["telegramUserId"]%string m = true);;
  text_field m "telegramUserId" botTelegramUserIdSchema.
Definition confirmTelegramLoginRequestSchema (j : json) : option (string * string) :=
  m ← zod_object j; guard (strict_keys ["telegramUserId"; "confirmationCode"]%string m = true);;
  telegramUserId ← text_field m "telegramUserId" botTelegramUserIdSchema;
  confirmationCode ← text_field m "confirmationCode" confirmation_code;
  Some (telegramUserId, confirmationCode).
Definition telegramLoginRequestSchema (j : json) : option string :=
  m ← zod_object j; guard (strict_keys ["initData"]%string m = true);;
  text_field m "initData" (bounded_text 8192).

(** ** Guards *)

Definition invalidBotRequest : AccountError := UnauthorizedException "Bot request is invalid".

(** [BotRequestAuthenticationGuard.canActivate]; what it sets as
    [request.authenticatedBot] is its answer. *)
Definition canActivate (request : HttpRequest) (s : Accounts) (databaseNow redisNow : Z)
    (redis : option Reservations)
    : outcome AccountError AuthenticatedBotRequest * option Reservations :=
  match botSignedRequestHeadersSchema request,
        rq_body request ≫= botTelegramIdentitySchema, rq_url request, rq_rawBody request with
  | Some headers, Some telegramUserId, Some url, Some rawBody =>
      if negb (botRequestMethodSchema (rq_method request) && botRequestPathSchema url)
      then (Throw invalidBotRequest, redis)
      else
        match authenticate hmac_key sha256_bytes BOT_SIGNING_KEK s databaseNow redisNow redis
                {| ba_credentialId := sh_credentialId headers; ba_idempotencyKey := sh_idempotencyKey headers;
                   ba_nonce := sh_nonce headers; ba_signature := sh_signature headers;
                   ba_timestamp := sh_timestamp headers; ba_method := rq_method request; ba_path := url;
                   ba_rawBody := rawBody; ba_telegramUserId := telegramUserId |} with
        | (Ok (Some authenticated), redis') => (Ok authenticated, redis')
        | (Ok None, redis') => (Throw invalidBotRequest, redis')
        | (Throw e, redis') => (Throw e, redis')
        end
  | _, _, _, _ => (Throw invalidBotRequest, redis)
  end.

(** [@UseGuards(BotRequestAuthenticationGuard)] *)
Definition behind_bot {A} (request : HttpRequest) (databaseNow redisNow : Z) (redis : option Reservations)
    (handler : AuthenticatedBotRequest → HttpM A) (s : Accounts)
    : outcome HttpError A * Accounts * option Reservations :=
  match canActivate request s databaseNow redisNow redis with
  | (Ok authenticated, redis') => (handler authenticated s, redis')
  | (Throw e, redis') => (Throw (ServiceError e), s, redis')
  end.

(** [TrustedOriginGuard]: the exact origin, when one is configured. *)
Definition trusted_origin (request : HttpRequest) : bool :=
  match truthy CABINET_ORIGIN with
  | Some origin => bool_decide (rq_headers request !! "origin"%string = Some (JStr origin))
  | None => false
  end.
Definition behind_origin {A} (request : HttpRequest) (handler : HttpM A) : HttpM A :=
  if trusted_origin request then handler else throw (ForbiddenException "Cabinet origin is invalid").

(** ** [BotAuthController], [TrialController] *)

Definition bad_request {A} (message : string) : HttpM A := throw (ServiceError (BadRequestException message)).

(** The body names the user the request was signed for. *)
Definition POST_auth_telegram_challenge (request : HttpRequest) (authenticated : AuthenticatedBotRequest)
    (attempts : option Z) (launchId challengeSecret : string) (now : Z) : HttpM (HttpReply json) :=
  match rq_body request ≫= issueTelegramAuthChallengeRequestSchema with
  | Some telegramUserId =>
      if negb (bool_decide (br_telegramUserId authenticated = telegramUserId))
      then bad_request "Telegram challenge request is invalid"
      else answered 201 (issueChallenge uuid hmac_sha256 is_datetime AUTH_SESSION_PEPPER
             AUTH_PRELAUNCH_RATE_LIMIT_MAX authenticated attempts launchId challengeSecret now)
  | None => bad_request "Telegram challenge request is invalid"
  end.

Definition POST_auth_telegram_confirm (request : HttpRequest) (authenticated : AuthenticatedBotRequest)
    (attempts : option Z) (now : Z) : HttpM (HttpReply json) :=
  match rq_body request ≫= confirmTelegramLoginRequestSchema with
  | Some (telegramUserId, confirmationCode) =>
      if negb (bool_decide (br_telegramUserId authenticated = telegramUserId))
      then bad_request "Telegram confirmation request is invalid"
      else answered 200 (confirm hmac_sha256 AUTH_SESSION_PEPPER AUTH_PRELAUNCH_RATE_LIMIT_MAX
             authenticated attempts confirmationCode now)
  | None => bad_request "Telegram confirmation request is invalid"
  end.

Definition POST_trial_activate (request : HttpRequest) (authenticated : AuthenticatedBotRequest)
    (attempts : option Z) (maximum now : Z) : HttpM (HttpReply json) :=
  match rq_body request ≫= issueTelegramAuthChallengeRequestSchema with
  | Some telegramUserId =>
      if negb (bool_decide (br_telegramUserId authenticated = telegramUserId))
      then bad_request "Trial activation request is invalid"
      else answered 200 (activate uuid hmac_sha256 is_uuid is_datetime plus_days environment
             authenticated attempts maximum now)
  | None => bad_request "Trial activation request is invalid"
  end.

(** The routes of the bot, behind their guard. *)
Definition route_challenge (request : HttpRequest) (databaseNow redisNow : Z) (redis : option Reservations)
    (attempts : option Z) (launchId challengeSecret : string) (now : Z) :=
  behind_bot request databaseNow redisNow redis
    (λ authenticated, POST_auth_telegram_challenge request authenticated attempts launchId challengeSecret now).
Definition route_confirm (request : HttpRequest) (databaseNow redisNow : Z) (redis : option Reservations)
    (attempts : option Z) (now : Z) :=
  behind_bot request databaseNow redisNow redis
    (λ authenticated, POST_auth_telegram_confirm request authenticated attempts now).
Definition route_trial (request : HttpRequest) (databaseNow redisNow : Z) (redis : option Reservations)
    (attempts : option Z) (maximum now : Z) :=
  behind_bot request databaseNow redisNow redis
    (λ authenticated, POST_trial_activate request authenticated attempts maximum now).

(** What the API receives of the bot's [fetch], and what the bot gets back; the
    body of an error is Nest's. *)
Definition received (path : string) (signed : BotSignedRequest) : HttpRequest :=
  {| rq_method := "POST"; rq_url := Some path;
     rq_headers := list_to_map (prod_map id JStr <$> sr_headers signed);
     rq_body := JSON_parse (sr_body signed); rq_rawBody := Some (sr_body signed) |}.
Definition response (error_body : HttpError → option json) (r : outcome HttpError (HttpReply json)) : Response :=
  {| rs_status := response_status r;
     rs_json := match r with Ok reply => Some (rp_body reply) | Throw e => error_body e end |}.

(** ** [AuthController] *)

Definition sessionCookieName : string := "vpn_platform_session".
Definition pendingCookieName : string := "vpn_platform_pending_login".
Definition pendingCookieMaxAgeSeconds : Z := 120.

Definition serializeCookie (name secret : string) (maxAgeSeconds : Z) : string :=
  join "; " (app [name +:+ "=" +:+ secret; "HttpOnly"; "Path=/"; "SameSite=Strict";
                  "Max-Age=" +:+ pretty maxAgeSeconds]%string (if production then ["Secure"%string] else [])).

(** The controller's own [readCookie]: the first item that starts with the name
    and an equals sign. *)
Definition find_cookie (cookieHeader : option string) (name : string) : string :=
  match truthy cookieHeader with
  | Some header =>
      match List.find (String.prefix (name +:+ "=")) (trim <$> split_char ";" header) with
      | Some item => String.substring (String.length name + 1) (String.length item) item
      | None => EmptyString
      end
  | None => EmptyString
  end.

Definition no_store : string * string := ("Cache-Control", "no-store")%string.
Definition set_cookie (name secret : string) (maxAgeSeconds : Z) : string * string :=
  ("Set-Cookie"%string, serializeCookie name secret maxAgeSeconds).

Definition signIn (request : HttpRequest) (processNow : Z) (attempts : option Z)
    (material : list (string * list Z * Z)) : HttpM (HttpReply PendingTelegramLogin) :=
  match rq_body request ≫= telegramLoginRequestSchema with
  | None => bad_request "Telegram login request is invalid"
  | Some initData =>
      begun ← of_service (beginLogin uuid hmac_key hmac_sha256 is_datetime JSON_parse Number_toString
        safe_integer AUTH_SESSION_PEPPER TELEGRAM_WEB_APP_VALIDATION_KEY TELEGRAM_INIT_DATA_MAX_AGE_SECONDS
        AUTH_PRELAUNCH_RATE_LIMIT_MAX initData processNow attempts material);
      mret {| rp_status := 200; rp_headers := [no_store; set_cookie pendingCookieName begun.2 pendingCookieMaxAgeSeconds];
              rp_body := begun.1 |}
  end.

(** [attempts]: what the limiter's Redis counts for [request.ip]. *)
Definition completeTelegramLogin (request : HttpRequest) (attempts : option Z) (sessionSecret : string)
    (now : Z) : HttpM (HttpReply AuthenticatedSession) :=
  of_service (auth_allowed AUTH_PRELAUNCH_RATE_LIMIT_MAX attempts);;
  issued ← of_service (complete uuid hmac_sha256 is_uuid is_datetime AUTH_SESSION_PEPPER
    AUTH_SESSION_TTL_SECONDS (find_cookie (header_text request "cookie") pendingCookieName) sessionSecret now);
  mret {| rp_status := 200;
          rp_headers := [no_store; set_cookie sessionCookieName issued.2 AUTH_SESSION_TTL_SECONDS;
                         set_cookie pendingCookieName EmptyString 0];
          rp_body := issued.1 |}.

Definition route_complete (request : HttpRequest) (attempts : option Z) (sessionSecret : string) (now : Z) :=
  behind_origin request (completeTelegramLogin request attempts sessionSecret now).

(** [revokeFromCookie], [currentSessionFromCookie] *)
Definition logout (request : HttpRequest) (now : Z) : HttpM (HttpReply unit) :=
  of_service (revokeSession hmac_sha256 AUTH_SESSION_PEPPER
    (readCookie (header_text request "cookie") sessionCookieName) now);;
  mret {| rp_status := 204; rp_headers := [no_store; set_cookie sessionCookieName EmptyString 0]; rp_body := tt |}.
Definition route_logout (request : HttpRequest) (now : Z) := behind_origin request (logout request now).

Definition session_of (request : HttpRequest) (now : Z) : HttpM AuthenticatedSession :=
  s ← get;
  match currentSession hmac_sha256 AUTH_SESSION_PEPPER s
          (readCookie (header_text request "cookie") sessionCookieName) now with
  | Some session => mret session
  | None => throw (ServiceError (UnauthorizedException "Session is invalid"))
  end.
Definition current (request : HttpRequest) (now : Z) : HttpM (HttpReply AuthenticatedSession) :=
  session ← session_of request now; mret (reply 200 session).

(** ** [CabinetController] *)

Definition GET_overview (request : HttpRequest) (now databaseNow : Z) : HttpM (HttpReply CabinetOverview) :=
  session ← session_of request now;
  s ← get;
  mret (reply 200 (overview s (as_userId session) databaseNow)).

Definition issueDevice (request : HttpRequest) (now databaseNow : Z) : HttpM (HttpReply IssuedCabinetDevice) :=
  match rq_body request ≫= createCabinetDeviceRequestSchema with
  | None => bad_request "Device request is invalid"
  | Some input =>
      match j ← rq_headers request !! "idempotency-key"%string; zod_text is_uuid j with
      | None => bad_request "Device idempotency key is invalid"
      | Some idempotencyKey =>
          session ← session_of request now;
          device ← of_service (Cabinet.issue uuid hmac_sha256 newURL environment SUBSCRIPTION_TOKEN_PEPPER
            SUBSCRIPTION_FEED_BASE_URL (as_userId session) idempotencyKey input databaseNow);
          mret {| rp_status := 201; rp_headers := [no_store]; rp_body := device |}
      end
  end.

Definition route_issueDevice (request : HttpRequest) (now databaseNow : Z) :=
  behind_origin request (issueDevice request now databaseNow).

Definition POST_revokeDevice (request : HttpRequest) (deviceId : string) (now databaseNow : Z)
    : HttpM (HttpReply unit) :=
  if negb (is_uuid deviceId) then bad_request "Device id is invalid" else
  session ← session_of request now;
  of_service (atomically (revokeDevice uuid (as_userId session) deviceId databaseNow));;
  mret (reply 204 tt).
Definition route_revokeDevice (request : HttpRequest) (deviceId : string) (now databaseNow : Z) :=
  behind_origin request (POST_revokeDevice request deviceId now databaseNow).
End api.
