(* ===== verification/AccountFrame.v ===== *)
(** * What each statement of the accounts leaves alone

    A statement changes one table.  [same f s s']: the part [f] of the tables,
    which does not depend on the tables a statement changes, is as it was. *)

From S2P Require Import Prelude.
From S2P Require Import Keeps.
From S2P Require Import Json.
From S2P Require Import Sql.
From S2P Require Import ControlPlane.
From S2P Require Import Accounts.
From S2P Require Import AccountInvariant.
From S2P Require Import Trial.
Open Scope Z_scope.

Section same.
Context {T : Type} (f : Accounts → T) (uuid : nat → string) (plus_days : Z → Z → Z).
Context (Hcontrol : ∀ g s, f (set_control g s) = f s) (Husers : ∀ g s, f (set_users g s) = f s).
Context (Hterms : ∀ g s, f (set_terms g s) = f s) (Hactivations : ∀ g s, f (set_activations g s) = f s).
Context (Hrequests : ∀ g s, f (set_requests g s) = f s) (Hchallenges : ∀ g s, f (set_challenges g s) = f s).
Context (Hpendings : ∀ g s, f (set_pendingLogins g s) = f s) (Hsessions : ∀ g s, f (set_sessions g s) = f s).
Context (Hcredentials : ∀ g s, f (set_botCredentials g s) = f s) (Hprincipals : ∀ g s, f (set_principals g s) = f s).

Definition same (s s' : Accounts) : Prop := f s' = f s.
#[export] Instance same_preorder : PreOrder same.
Proof using Type. unfold same. split; [done|]. intros s1 s2 s3. congruence. Qed.

Lemma drawn_same s : f (drawn s) = f s.
Proof using Hcontrol. apply Hcontrol. Qed.
Lemma control_same {A} (m : DbM A) : commits same (control m).
Proof using Hcontrol. intros s a s' (db & _ & ->)%control_ok. apply Hcontrol. Qed.
Lemma uuid_same : commits same (account_uuid uuid).
Proof using Hcontrol. apply control_same. Qed.
Lemma upsert_same telegramUserId : commits same (user_upsert uuid telegramUserId).
Proof using Hcontrol Husers.
  intros s id s' [[-> _]|(_ & _ & ->)]%user_upsert_ok; [done|]. unfold same. by rewrite Husers, drawn_same.
Qed.
Lemma subscription_same row terms : commits same (subscription_create uuid row terms).
Proof using Hcontrol Hterms.
  intros s id s' (_&_&_&_&_& ->)%subscription_create_ok. unfold same. by rewrite Hterms, Hcontrol, drawn_same.
Qed.
Lemma expire_same userId now : commits same (expire_finished_subscriptions userId now).
Proof using Hcontrol Hterms.
  unfold expire_finished_subscriptions, subscriptions_expire, database_error. commits;
    intros s u s' [= <- <-]; [apply Hcontrol|apply Hterms].
Qed.
Lemma activation_same id a : commits same (activation_insert plus_days id a).
Proof using Hactivations.
  intros s u s' Hr. apply activation_insert_ok in Hr as (_&_&_&_&_&_&_&_&_& ->). apply Hactivations.
Qed.
Lemma device_same d : commits same (device_create uuid d).
Proof using Hcontrol.
  intros s id s' (_&_&_&_& ->)%device_create_ok. unfold same. by rewrite Hcontrol, drawn_same.
Qed.
Lemma requests_same g : commits (E:=AccountError) same (modify (set_requests g)).
Proof using Hrequests. intros s u s' [= <- <-]. apply Hrequests. Qed.
Lemma challenge_same c : commits same (challenge_create uuid c).
Proof using Hcontrol Hchallenges.
  intros s id s' (_&_&_&_& ->)%challenge_create_ok. unfold same. by rewrite Hchallenges, drawn_same.
Qed.
Lemma consume_same id replay sessionId now : commits same (challenge_consume id replay sessionId now).
Proof using Hchallenges. intros s u s' (old&_&_&_&_& ->)%challenge_consume_ok. apply Hchallenges. Qed.
Lemma pending_same p : commits same (pending_create uuid p).
Proof using Hcontrol Hpendings.
  intros s id s' (_&_&_&_&_& ->)%pending_create_ok. unfold same. by rewrite Hpendings, drawn_same.
Qed.
Lemma update_same id data : commits same (pending_update id data).
Proof using Hpendings. intros s u s' (old&_&_& ->)%pending_update_ok. apply Hpendings. Qed.
Lemma session_same row : commits same (session_create uuid row).
Proof using Hcontrol Hsessions.
  intros s id s' (_&_&_& ->)%session_create_ok. unfold same. by rewrite Hsessions, drawn_same.
Qed.
Lemma credential_same id c : commits same (credential_create id c).
Proof using Hcredentials. intros s u s' (_&_&_&_& ->)%credential_create_ok. apply Hcredentials. Qed.
Lemma principal_same id name : commits same (principal_create id name).
Proof using Hprincipals. intros s u s' (_&_& ->)%principal_create_ok. apply Hprincipals. Qed.
Lemma credentials_same g : commits (E:=AccountError) same (modify (set_botCredentials g)).
Proof using Hcredentials. intros s u s' [= <- <-]. apply Hcredentials. Qed.
End same.
