(* ===== verification/AccountSystem.v ===== *)
(** * The account services as a system

    Every operation of the API's account services as an action on the tables,
    the control plane's steps beside them, and what they all keep: the
    invariant of AccountInvariant.v, rows that only grow, stored answers that
    never change, and steps that are the control plane's own
    ([account_refines]). *)

From Stdlib Require Import QArith.
From S2P Require Import Prelude.
From S2P Require Import Keeps.
From S2P Require Import Json.
From S2P Require Import Sql.
From S2P Require Import OutboxStore.
From S2P Require Import NodeSyncStore.
From S2P Require Import XrayAccess.
From S2P Require Import ControlPlane.
From S2P Require Import DataPlaneCredential.
From S2P Require Import AccessPolicy.
From S2P Require Import ControlPlaneInvariant.
From S2P Require Import Orchestration.
From S2P Require Import NodeAgentApi.
From S2P Require Import SubscriptionAccess.
From S2P Require Import TrialAccess.
From S2P Require Import ControlFrame.
From S2P Require Import ControlPlaneSystem.
From S2P Require Import Base64Url.
From S2P Require Import BotSigningKey.
From S2P Require Import Accounts.
From S2P Require Import AccountInvariant.
From S2P Require Import BotRequests.
From S2P Require Import BotCredentials.
From S2P Require Import Trial.
From S2P Require Import Cabinet.
From S2P Require Import TelegramInitData.
From S2P Require Import Login.
From S2P Require Import AccountFrame.
Open Scope Z_scope.

(** ** Bot requests *)

Definition request_done (r : BotRequestIdempotency) : Prop :=
  is_Some (bi_completedAt r) ∧ is_Some (bi_responseStatus r) ∧ is_Some (bi_responseBody r).

Definition system_ok (plus_days : Z → Z → Z) (s : Accounts) : Prop :=
  account_ok plus_days s ∧ map_Forall (λ _, request_done) (ac_requests s).

(** A transaction keeps the invariant; rows grow, stored answers stay. *)
Definition grows (plus_days : Z → Z → Z) (s s' : Accounts) : Prop :=
  system_ok plus_days s →
  system_ok plus_days s' ∧ tables_grow s s' ∧ ac_requests s ⊆ ac_requests s'.
#[export] Instance grows_preorder plus_days : PreOrder (grows plus_days).
Proof.
  split; [intros s Hs; split_and!; [done|reflexivity|done]|].
  intros s1 s2 s3 H12 H23 H1. destruct (H12 H1) as (H2 & G12 & E12). destruct (H23 H2) as (H3 & G23 & E23).
  split_and!; [done|by etrans|by etrans].
Qed.

Lemma sound_grows plus_days s s' : sound plus_days s s' → grows plus_days s s'.
Proof.
  intros Hs [Hok Hreq]. destruct (Hs Hok) as (Hok' & Hg & E). split_and!; [by split; [|rewrite E]|done|by rewrite E].
Qed.

Section requests.
Context (plus_days : Z → Z → Z).

Lemma requests_apart f s :
  (account_ok plus_days (set_requests f s) ↔ account_ok plus_days s) ∧
  tables_grow s (set_requests f s) ∧ tables_grow (set_requests f s) s.
Proof. destruct s. split; [|split; split; reflexivity]. split; intros []; by split. Qed.

Definition open_request (request : AuthenticatedBotRequest) : BotRequestIdempotency :=
  {| bi_requestHash := br_requestHash request; bi_responseStatus := None; bi_responseBody := None;
     bi_completedAt := None |}.
Definition answered_request (request : AuthenticatedBotRequest) (response : BotOperationResponse)
    (now : Z) : BotRequestIdempotency :=
  {| bi_requestHash := br_requestHash request; bi_responseStatus := Some (or_statusCode response);
     bi_responseBody := Some (or_body response); bi_completedAt := Some now |}.

(** An executed request found its answer, or ran its operation and stored it. *)
Lemma request_executed_ok request operation now s r s' :
  execute request operation now s = (Ok r, s') →
  credential_active s request = true ∧
  ((∃ row, ac_requests s !! idempotencyScope request = Some row ∧ s' = s ∧
      bi_requestHash row = br_requestHash request ∧
      bi_responseStatus row = Some (xr_statusCode r) ∧ bi_responseBody row = Some (xr_body r) ∧
      xr_replayed r = true) ∨
   ∃ response s1, ac_requests s !! idempotencyScope request = None ∧
      operation (set_requests <[idempotencyScope request := open_request request]> s) =
        (Ok response, s1) ∧
      100 ≤ or_statusCode response ≤ 599 ∧
      r = {| xr_statusCode := or_statusCode response; xr_body := or_body response; xr_replayed := false |} ∧
      s' = set_requests <[idempotencyScope request := answered_request request response now]> s1).
Proof.
  unfold execute. intros H. ok_inv H. apply negb_false_iff in Hguard. split; [done|].
  destruct (ac_requests _ !! _) as [row|] eqn:Hrow.
  - left. exists row. unfold stored_response in H. case_bool_decide as Hh; [|done]. simpl in H.
    destruct (bi_completedAt row), (bi_responseStatus row), (bi_responseBody row); ok_inv H; done.
  - right. ok_inv H. apply orb_false_iff in Hguard0 as [?%Z.ltb_ge ?%Z.ltb_ge].
    eexists _, _. split_and!; [done|exact Hrun|lia|lia|done|done].
Qed.

Lemma execute_grows request operation now :
  commits (sound plus_days) operation → keeps (grows plus_days) (execute request operation now).
Proof.
  intros Hop s. destruct (execute request operation now s) as [[r|e] s'] eqn:He; simpl;
    [|apply atomically_throw_inv in He as ->; reflexivity].
  apply request_executed_ok in He as (_ & [(row & _ & -> & _)|(response & s1 & Hnone & Hrun & _ & _ & ->)]);
    [reflexivity|].
  intros [Haok Hreq].
  destruct (requests_apart <[idempotencyScope request := open_request request]> s) as (H1 & H2 & _).
  apply H1 in Haok. destruct (Hop _ _ _ Hrun Haok) as (Hok1 & Hg1 & E1).
  destruct (requests_apart <[idempotencyScope request := answered_request request response now]> s1)
    as (H3 & H4 & _).
  assert (Ereq : ac_requests (set_requests <[idempotencyScope request := answered_request request response now]> s1)
    = <[idempotencyScope request := answered_request request response now]> (ac_requests s)).
  { destruct s1, s. simpl in *. rewrite E1. by rewrite insert_insert_eq. }
  split_and!.
  - split; [by apply H3|]. rewrite Ereq. apply map_Forall_insert_2; [|done]. split_and!; simpl; eauto.
  - etrans; [exact H2|]. by etrans.
  - rewrite Ereq. by apply insert_subseteq.
Qed.

(** An executed request is stored, with its answer. *)
Definition stored (request : AuthenticatedBotRequest) (r : BotExecutionResult) (s : Accounts) : Prop :=
  ∃ row, ac_requests s !! idempotencyScope request = Some row ∧
    bi_requestHash row = br_requestHash request ∧ is_Some (bi_completedAt row) ∧
    bi_responseStatus row = Some (xr_statusCode r) ∧ bi_responseBody row = Some (xr_body r).

Lemma execute_stores request operation now s r s1 :
  system_ok plus_days s → execute request operation now s = (Ok r, s1) → stored request r s1.
Proof.
  intros [_ Hreq] He. apply request_executed_ok in He as (_ & Hc).
  destruct Hc as [(row & Hrow & -> & ? & ? & ? & _)|(response & sx & _ & _ & _ & -> & ->)].
  - exists row. split_and!; try done. by destruct (Hreq _ _ Hrow).
  - eexists. split; [by destruct sx; apply lookup_insert_eq|]. simpl. eauto.
Qed.
Lemma stored_grows request r s1 s2 :
  stored request r s1 → ac_requests s1 ⊆ ac_requests s2 → stored request r s2.
Proof. intros (row & Hrow & Hr) Hsub. exists row. split; [by eapply lookup_weaken|done]. Qed.

(** The same request later finds the answer, whatever it would do now; its key
    serves no other request. *)
Lemma stored_replay request r s operation now :
  stored request r s → credential_active s request = true →
  execute request operation now s =
    (Ok {| xr_statusCode := xr_statusCode r; xr_body := xr_body r; xr_replayed := true |}, s).
Proof.
  intros (row & Hrow & Hh & [c Hcomp] & Hst & Hb) Hact. unfold execute, atomically. rewrite bind_get.
  rewrite throw_if_pass by (by rewrite Hact). rewrite Hrow. unfold stored_response.
  rewrite bool_decide_eq_true_2 by done. simpl. by rewrite Hcomp, Hst, Hb.
Qed.
Lemma stored_conflict request r s request' operation now :
  stored request r s → idempotencyScope request' = idempotencyScope request →
  br_requestHash request' ≠ br_requestHash request → credential_active s request' = true →
  execute request' operation now s =
    (Throw (ConflictException "Idempotency key conflicts with another request"), s).
Proof.
  intros (row & Hrow & Hh & _) Hscope Hne Hact. unfold execute, atomically. rewrite bind_get.
  rewrite throw_if_pass by (by rewrite Hact). rewrite Hscope, Hrow. unfold stored_response.
  by rewrite bool_decide_eq_false_2 by congruence.
Qed.
End requests.

(** ** The operations *)

Section operations.
Context (uuid : nat → string) (plus_days : Z → Z → Z).
Notation sound := (sound plus_days).

(** A statement of the control plane that makes or removes no device and no
    subscription. *)
Lemma audit_sound actor action entityType entityId metadata :
  commits sound (control (audit actor action entityType entityId metadata)).
Proof. apply control_keeps_sound, audit_frame. Qed.

Lemma database_error_sound b e : commits sound (database_error b e).
Proof. unfold database_error. commits. Qed.

Hint Resolve audit_sound database_error_sound account_uuid_sound user_upsert_sound
  subscription_create_sound activation_insert_sound device_create_sound pending_create_sound
  session_create_sound credential_create_sound principal_create_sound : commits.

(** *** Trials *)

Lemma active_subscriptions_elem s userId id r :
  (id, r) ∈ active_subscriptions s userId ↔
  db_subscriptions (ac_control s) !! id = Some r ∧ sb_userId r = userId ∧ sb_status r = SUB_ACTIVE.
Proof.
  unfold active_subscriptions, by_id. rewrite merge_sort_Permutation, elem_of_map_to_list.
  rewrite map_lookup_filter_Some. simpl. tauto.
Qed.

Definition expired_rows (ids : list string) (t : Table Subscription) : Table Subscription :=
  map_imap (λ id r, Some (if bool_decide (id ∈ ids) then expire_subscription r else r)) t.

Lemma expired_rows_kept ids (t : Table Subscription) :
  (∀ id r, t !! id = Some r → id ∈ ids →
     sb_status r = SUB_ACTIVE ∧ subscription_checks (expire_subscription r) = true) →
  rows_kept subscription_kept t (expired_rows ids t).
Proof.
  intros Hids. unfold expired_rows. split.
  - intros id r Hr. exists (if bool_decide (id ∈ ids) then expire_subscription r else r).
    rewrite map_lookup_imap, Hr. split; [done|]. case_bool_decide as Hin; [|reflexivity].
    destruct (Hids id r Hr Hin) as [Hst Hc]. split_and!; try done; [by right|congruence].
  - intros id Hn. by rewrite map_lookup_imap, Hn.
Qed.

Lemma expire_finished_sound userId now : commits sound (expire_finished_subscriptions userId now).
Proof.
  intros s u s' H. unfold expire_finished_subscriptions in H. ok_inv H.
  destruct (active_subscriptions s userId) as [|x l] eqn:Hl; [ok_inv H; reflexivity|].
  rewrite <- Hl in H. unfold subscriptions_expire in H. acc_inv H.
  set (ids := (active_subscriptions s userId).*1) in *.
  etrans; [|apply terms_kept_sound].
  - apply (subscriptions_kept_sound plus_days (expired_rows ids)), expired_rows_kept.
    intros id r Hr Hin. pose proof Hin as ([id' r'] & -> & Hin')%list_elem_of_fmap.
    apply active_subscriptions_elem in Hin' as (Hr' & _ & Hst). simpl in *.
    assert (r' = r) as -> by congruence. split; [done|].
    rewrite exists_row_false in Hguard0. apply negb_false_iff, (Hguard0 id').
    by apply map_lookup_filter_Some.
  - split.
    + intros id t Ht. eexists. rewrite map_lookup_imap, Ht. split; [done|]. by case_bool_decide.
    + intros id Ht. by rewrite map_lookup_imap, Ht.
Qed.

Lemma choose_campaign_pure userId now s c s' : choose_campaign userId now s = (Ok c, s') → s' = s.
Proof.
  unfold choose_campaign. intros H. ok_inv H. destruct (eligible_campaigns _ now) as [|x [|]]; by ok_inv H.
Qed.

Lemma activate_sound hmac_sha256 `{DateStrings} environment telegramUserId now :
  commits sound (activateInTransaction uuid hmac_sha256 plus_days environment telegramUserId now).
Proof.
  unfold activateInTransaction. commits.
  - apply expire_finished_sound.
  - intros s c s' ->%choose_campaign_pure. reflexivity.
  - apply control_keeps_sound, trial_frame.
Qed.

(** *** The cabinet *)

Lemma schedule_sound hmac_sha256 provider input now :
  commits sound (control (scheduleInTransaction uuid hmac_sha256 provider input now)).
Proof. apply control_keeps_sound, schedule_frame. Qed.
Hint Resolve schedule_sound : commits.

Lemma issue_sound hmac_sha256 environment userId hash token pepper input now :
  commits sound (issueInTransaction uuid hmac_sha256 environment userId hash token pepper input now).
Proof. unfold issueInTransaction, issue_new, create_device. commits. Qed.

Lemma revoke_device_sound userId deviceId now :
  commits sound (revokeDevice uuid userId deviceId now).
Proof.
  unfold revokeDevice. apply commits_bind; [apply _| |intros []; commits].
  apply control_keeps_sound, keeps_atomically; [apply _|]. apply revoke_frame.
Qed.

(** *** The bot's credentials *)

Lemma validate_sound input : commits sound (validateChangeInput input).
Proof. unfold validateChangeInput, fail. commits. Qed.
Lemma store_key_sound `{Aes256Gcm} credentialId principalId version signingKey encodedKek nonce :
  commits sound (store_key credentialId principalId version signingKey encodedKek nonce).
Proof. unfold store_key, fail. commits. Qed.
Lemma credential_audit_sound action credentialId version principalId reason :
  commits sound (writeCredentialAudit action credentialId version principalId reason).
Proof. apply audit_sound. Qed.
Hint Resolve validate_sound store_key_sound credential_audit_sound : commits.

Lemma provision_sound `{Aes256Gcm} encodedKek input signingKey nonce :
  commits sound (provisionBotCredential uuid encodedKek input signingKey nonce).
Proof. unfold provisionBotCredential, fail. commits. Qed.
Lemma rotate_sound `{Aes256Gcm} encodedKek input signingKey nonce :
  commits sound (rotateBotCredential uuid encodedKek input signingKey nonce).
Proof. unfold rotateBotCredential, fail. commits. Qed.

Lemma credential_revoked_sound id c now s :
  ac_botCredentials s !! id = Some c → bc_revokedAt c = None →
  sound s (set_botCredentials <[id := revoke_credential now c]> s).
Proof.
  intros Hc Hn Hok. pose proof (ao_versions _ _ Hok) as Hv. pose proof (ao_owners _ _ Hok) as Ho.
  destruct Hok. sound_cases s.
  - apply unique_by_insert; [done|]. intros id' x k Hx Hne [= <-] [= H1 H2].
    apply Hne. apply (Hv id' id x c (bc_principalId c, bc_keyVersion c)); [done..| |done].
    simpl in *. congruence.
  - apply map_Forall_insert_2; [exact (Ho id c Hc)|done].
  - apply rows_evolve_insert; [apply _|]. intros old Hold. assert (old = c) as -> by congruence.
    right. by split_and!.
Qed.

Lemma revoke_credential_sound is_uuid input selector protected now :
  commits sound (revokeBotCredential is_uuid input selector protected now).
Proof.
  intros s r s' H. unfold revokeBotCredential, fail in H. ok_inv H.
  apply validate_sound in Hrun. etrans; [exact Hrun|]. clear Hrun.
  lazymatch type of Hrun0 with (if ?b then _ else _) _ = _ => destruct b; ok_inv Hrun0 end.
  lazymatch type of Hrun1 with (if ?b then _ else _) _ = _ => destruct b; ok_inv Hrun1 end.
  destruct (head _) as [[id c]|] eqn:Hh; [|ok_inv H]. case_bool_decide; [ok_inv H|].
  destruct (is_null (bc_revokedAt c)) eqn:Hn; simpl in H; [|by ok_inv H; reflexivity].
  apply head_Some_elem_of, list_elem_of_filter in Hh as [_ Hc%elem_of_map_to_list].
  ok_inv H. apply credential_audit_sound in Hrun. etrans; [|exact Hrun].
  by apply credential_revoked_sound; [|apply is_null_true].
Qed.

(** *** Logging in *)

Section login.
Context (hmac_key : list Z → string → list Z) (hmac_sha256 : string → string → list Z).
Context (is_uuid is_datetime : string → bool) (JSON_parse : string → option json) (Number_toString : Q → string).
Context (safe_integer : string → option Z) (maxAge ttl : Z) `{LocaleCompare} `{DateStrings}.

Lemma issue_challenge_sound telegramUserId launchId secret pepper now :
  commits sound (issueChallengeInTransaction uuid hmac_sha256 telegramUserId launchId secret pepper now).
Proof.
  unfold issueChallengeInTransaction. commits. intros s0 id s' (Hc & Hn & Hu & _ & ->)%challenge_create_ok.
  apply (sound_after_drawn uuid), challenge_inserted_sound; [done|by destruct s0|].
  intros id' x Hx. apply (Hu id'). by destruct s0.
Qed.

Lemma begin_sound initData key pepper proof secret code now :
  commits sound (beginInTransaction uuid hmac_key hmac_sha256 is_datetime JSON_parse Number_toString
    safe_integer maxAge initData key pepper proof secret code now).
Proof. unfold beginInTransaction. commits. Qed.

Lemma confirm_sound telegramUserId code pepper now :
  commits sound (confirmInTransaction hmac_sha256 telegramUserId code pepper now).
Proof.
  intros s r s' Hr. unfold confirmInTransaction in Hr. ok_inv Hr.
  destruct (filter _ _) as [|[id p] [|]] eqn:Hf; [ok_inv Hr| |ok_inv Hr].
  assert (Hin : (id, p) ∈ [(id, p)]) by left. rewrite <- Hf in Hin.
  apply list_elem_of_filter in Hin as [Ha Hp%elem_of_map_to_list]. simpl in Ha.
  ok_inv Hr. apply pending_update_ok in Hrun as (old & Hold & Hc & ->).
  assert (old = p) as -> by congruence. apply pending_updated_sound; [done| |done].
  unfold awaiting in Ha. rewrite !andb_true_iff, !bool_decide_eq_true in Ha.
  destruct Ha as [_ ->]. simpl. lia.
Qed.

Lemma complete_login_sound secret pepper sessionSecret now :
  commits sound (completeInTransaction uuid hmac_sha256 is_uuid is_datetime ttl secret pepper sessionSecret now).
Proof.
  intros s r s' Hr. unfold completeInTransaction in Hr. ok_inv Hr.
  destruct (find_row _ _) as [[id p]|] eqn:Hf; [|ok_inv Hr]. ok_inv Hr.
  apply find_row_Some in Hf as [Hp _]. unfold login_open in Hguard.
  destruct (ac_challenges _ !! pe_challengeId p) as [c|] eqn:Hc; [|done].
  apply negb_false_iff in Hguard. rewrite !andb_true_iff, !bool_decide_eq_true, is_null_true in Hguard.
  destruct Hguard as [[[_ _] Hopen] Hst].
  pose proof (session_create_sound _ plus_days _ _ _ _ Hrun) as Hs1.
  apply session_create_ok in Hrun as (_ & _ & _ & Es1).
  apply pending_update_ok in Hrun0 as (old & Hold & Hck & ->).
  assert (old = p) as ->. { rewrite Es1 in Hold. destruct s. simpl in *. congruence. }
  apply challenge_consume_ok in Hrun1 as (c' & Hc' & Hcc & _ & _ & ->).
  assert (c' = c) as ->. { rewrite Es1 in Hc'. destruct s. simpl in *. congruence. }
  etrans; [exact Hs1|]. etrans; [apply (pending_updated_sound plus_days id p CONSUMED); try done|].
  { rewrite Hst. simpl. lia. }
  by apply challenge_consumed_sound.
Qed.
End login.
End operations.
#[export] Hint Resolve audit_sound database_error_sound account_uuid_sound user_upsert_sound
  subscription_create_sound activation_insert_sound device_create_sound pending_create_sound
  session_create_sound credential_create_sound principal_create_sound schedule_sound store_key_sound
  credential_audit_sound : commits.

(** ** Actions and steps *)

Inductive action :=
| Activate (request : AuthenticatedBotRequest) (attempts : option Z) (maximum now : Z)
| IssueChallenge (request : AuthenticatedBotRequest) (attempts : option Z)
    (launchId challengeSecret : string) (now : Z)
| BeginLogin (initData : string) (processNow : Z) (attempts : option Z)
    (material : list (string * list Z * Z))
| ConfirmLogin (request : AuthenticatedBotRequest) (attempts : option Z) (code : string) (now : Z)
| CompleteLogin (secret sessionSecret : string) (now : Z)
| RevokeSession (secret : string) (now : Z)
| IssueDevice (userId idempotencyKey : string) (input : CreateCabinetDeviceRequest) (now : Z)
| RevokeDevice (userId deviceId : string) (now : Z)
| ProvisionCredential (encodedKek : string) (input : BotCredentialChangeInput) (signingKey nonce : list Z)
| RotateCredential (encodedKek : string) (input : BotCredentialChangeInput) (signingKey nonce : list Z)
| RevokeCredential (input : BotCredentialChangeInput) (selector : CredentialSelector)
    (protectedCredentialId : option string) (now : Z).

Section system.
Context (uuid : nat → string) (hmac_sha256 : string → string → list Z) (hmac_key : list Z → string → list Z).
Context (sha256 : json → string) (is_uuid is_datetime : string → bool) (plus_days : Z → Z → Z).
Context (JSON_parse : string → option json) (Number_toString : Q → string) (safe_integer : string → option Z).
Context (newURL : string → string → string) `{LocaleCompare} `{DateStrings} `{Aes256Gcm}.
(** The control plane's configuration. *)
Context (environment : ApiEnvironment) (agentPepper : option string) (credentialPepper : string).
Context (syncLease syncDelay syncMax outboxLease outboxDelay outboxMax : Z).
Context (eventIds : option (list string)).
(** The configuration of the account services. *)
Context (AUTH_SESSION_PEPPER TELEGRAM_WEB_APP_VALIDATION_KEY : option string).
Context (TELEGRAM_INIT_DATA_MAX_AGE_SECONDS AUTH_SESSION_TTL_SECONDS AUTH_PRELAUNCH_RATE_LIMIT_MAX : Z).
Context (SUBSCRIPTION_TOKEN_PEPPER SUBSCRIPTION_FEED_BASE_URL : option string).

(** What an operation makes of the tables, returning or throwing. *)
Definition act (a : action) (s : Accounts) : Accounts :=
  match a with
  | Activate request attempts maximum now =>
      (activate uuid hmac_sha256 is_uuid is_datetime plus_days environment request attempts maximum now s).2
  | IssueChallenge request attempts launchId challengeSecret now =>
      (issueChallenge uuid hmac_sha256 is_datetime AUTH_SESSION_PEPPER AUTH_PRELAUNCH_RATE_LIMIT_MAX
         request attempts launchId challengeSecret now s).2
  | BeginLogin initData processNow attempts material =>
      (beginLogin uuid hmac_key hmac_sha256 is_datetime JSON_parse Number_toString safe_integer
         AUTH_SESSION_PEPPER TELEGRAM_WEB_APP_VALIDATION_KEY TELEGRAM_INIT_DATA_MAX_AGE_SECONDS
         AUTH_PRELAUNCH_RATE_LIMIT_MAX initData processNow attempts material s).2
  | ConfirmLogin request attempts code now =>
      (confirm hmac_sha256 AUTH_SESSION_PEPPER AUTH_PRELAUNCH_RATE_LIMIT_MAX request attempts code now s).2
  | CompleteLogin secret sessionSecret now =>
      (complete uuid hmac_sha256 is_uuid is_datetime AUTH_SESSION_PEPPER AUTH_SESSION_TTL_SECONDS
         secret sessionSecret now s).2
  | RevokeSession secret now => (revokeSession hmac_sha256 AUTH_SESSION_PEPPER secret now s).2
  | IssueDevice userId idempotencyKey input now =>
      (issue uuid hmac_sha256 newURL environment SUBSCRIPTION_TOKEN_PEPPER SUBSCRIPTION_FEED_BASE_URL
         userId idempotencyKey input now s).2
  | RevokeDevice userId deviceId now => (atomically (revokeDevice uuid userId deviceId now) s).2
  | ProvisionCredential encodedKek input signingKey nonce =>
      (provisionBotCredential uuid encodedKek input signingKey nonce s).2
  | RotateCredential encodedKek input signingKey nonce =>
      (rotateBotCredential uuid encodedKek input signingKey nonce s).2
  | RevokeCredential input selector protected now =>
      (revokeBotCredential is_uuid input selector protected now s).2
  end.

(** A step of the control plane: its devices and subscriptions are the account
    services' ([commit_frame]). *)
Definition control_step (db db' : Db) : Prop :=
  step uuid hmac_sha256 is_uuid sha256 environment agentPepper credentialPepper
    syncLease syncDelay syncMax outboxLease outboxDelay outboxMax eventIds db db' ∧ frame db db'.

(** Users, plans, subscriptions and campaigns also come from elsewhere. *)
Inductive account_step : option action → relation Accounts :=
| StepAct a s : account_step (Some a) s (act a s)
| StepControl db s : control_step (ac_control s) db → account_step None s (set_control (λ _, db) s)
| StepUser telegramUserId s : account_step None s (atomically (user_upsert uuid telegramUserId) s).2
| StepSubscription row terms s : account_step None s (atomically (subscription_create uuid row terms) s).2
| StepPlan id p s : plan_checks p = true → account_step None s (set_plans <[id := p]> s)
| StepCampaign id c s : campaign_checks c = true →
    (∀ old, ac_campaigns s !! id = Some old → campaign_update_refused s id old c = false) →
    account_step None s (set_campaigns <[id := c]> s).

(** A run, with its actions, the latest first. *)
Inductive account_run : list action → relation Accounts :=
| RunDone s : account_run [] s s
| RunStep l o s1 s2 s3 : account_run l s1 s2 → account_step o s2 s3 →
    account_run (option_list o ++ l) s1 s3.

Lemma account_run_app l1 l2 s1 s2 s3 :
  account_run l1 s1 s2 → account_run l2 s2 s3 → account_run (l2 ++ l1) s1 s3.
Proof.
  intros H12. induction 1 as [|l o s2' s3' s4 _ IH Hs]; [done|].
  rewrite <- app_assoc. econstructor; [by apply IH|done].
Qed.

(** ** Every step grows the system *)

Notation sound := (sound plus_days).
Notation grows := (grows plus_days).

Lemma keeps_grows {A} (m : AccountM A) : commits sound m → keeps grows (atomically m).
Proof.
  intros Hm. apply transaction_keeps; [apply _|]. intros s a s' Hr. by eapply sound_grows, Hm.
Qed.

Lemma begin_attempts_grow initData key pepper proof material :
  keeps grows (begin_attempts uuid hmac_key hmac_sha256 is_datetime JSON_parse Number_toString
    safe_integer TELEGRAM_INIT_DATA_MAX_AGE_SECONDS initData key pepper proof material).
Proof.
  induction material as [|[[secret code] now] rest IH]; simpl; [keeps|].
  apply keeps_try; [apply _| |].
  - apply keeps_bind; [apply _|apply keeps_grows, begin_sound|intros; keeps].
  - intros e. repeat (exact IH || keeps_step).
Qed.

Lemma sessions_revoked_sound (p : UserSession → bool) now s :
  (∀ x, p x = true → ss_revokedAt x = None) →
  sound s (set_sessions (fmap (λ x, if p x then revoke_session now x else x)) s).
Proof.
  intros Hp Hok. pose proof (ao_sessions _ _ Hok) as Hu. destruct Hok. sound_cases s.
  - intros id1 id2 r1 r2 k. rewrite !lookup_fmap. intros (x1 & L1 & ->)%fmap_Some (x2 & L2 & ->)%fmap_Some K1 K2.
    eapply Hu; [exact L1|exact L2| |];
      [rewrite <- K1; simpl; by destruct (p x1)|rewrite <- K2; simpl; by destruct (p x2)].
  - intros id x Hx. exists (if p x then revoke_session now x else x). rewrite lookup_fmap, Hx.
    split; [done|]. destruct (p x) eqn:Hpx; [|reflexivity]. right. split_and!; try done. by apply Hp.
Qed.

Lemma limit_sound attempts maximum tooMany unavailable :
  commits sound (assert_allowed attempts maximum tooMany unavailable).
Proof. unfold assert_allowed. commits. Qed.

(** A request is executed and its answer read. *)
Ltac executes :=
  apply keeps_bind; [apply _|apply execute_grows, commits_bind; [apply _|apply limit_sound|intros _]|
                     intros; keeps].

Lemma audit_keeps action credentialId version principalId reason :
  keeps grows (writeCredentialAudit action credentialId version principalId reason).
Proof.
  intros s. unfold writeCredentialAudit, control, audit, modify. simpl.
  apply sound_grows, frame_sound. destruct (ac_control s). by apply frame_same.
Qed.
Lemma account_uuid_keeps : keeps grows (account_uuid uuid).
Proof. intros s. apply sound_grows, frame_sound, (randomUUID_frame uuid (ac_control s)). Qed.
Lemma validate_grows input : keeps grows (validateChangeInput input).
Proof. unfold validateChangeInput, fail. keeps. Qed.
Ltac change_credential :=
  apply keeps_bind; [apply _|apply validate_grows|intros ?];
  apply keeps_bind; [apply _|apply account_uuid_keeps|intros ?];
  apply keeps_grows; unfold fail; commits.

Lemma revoke_credential_keeps input selector protected now :
  keeps grows (revokeBotCredential is_uuid input selector protected now).
Proof.
  intros s. destruct (revokeBotCredential is_uuid input selector protected now s) as [[r|e] s'] eqn:Hr; simpl.
  { by eapply sound_grows, revoke_credential_sound. }
  assert (Hpure : keeps eq (validateChangeInput input)) by (unfold validateChangeInput, fail; keeps).
  specialize (Hpure s). unfold revokeBotCredential, fail in Hr.
  destruct (validateChangeInput input s) as [[v|e'] s1] eqn:Hv; simpl in Hpure; subst s1.
  - rewrite (bind_ok _ _ _ _ _ Hv) in Hr. destruct (negb _); [by injection Hr as _ <-; reflexivity|].
    rewrite bind_mret in Hr. destruct (match protected with Some _ => _ | None => _ end);
      [by injection Hr as _ <-; reflexivity|].
    rewrite bind_mret in Hr. apply atomically_throw_inv in Hr as ->. reflexivity.
  - rewrite (bind_throw _ _ _ _ _ Hv) in Hr. injection Hr as _ <-. reflexivity.
Qed.

Lemma act_grows a s : grows s (act a s).
Proof.
  destruct a; simpl; as_relation grows.
  - unfold activate. executes. apply activate_sound.
  - unfold issueChallenge. destruct (truthy _); [|keeps]. executes. apply issue_challenge_sound.
  - unfold beginLogin. destruct (truthy _); [|keeps]. destruct (truthy _); [|keeps].
    destruct (verify _ _ _ _ _ _ _ _); [|keeps]. apply keeps_bind; [apply _| |].
    + unfold auth_allowed, assert_allowed. keeps.
    + intros _. apply begin_attempts_grow.
  - unfold confirm. destruct (truthy _); [|keeps]. executes. apply confirm_sound.
  - unfold complete. destruct (truthy _); [|keeps]. apply keeps_bind; [apply _|keeps|intros _].
    apply keeps_bind; [apply _|apply keeps_grows, complete_login_sound|intros; keeps].
  - unfold revokeSession. destruct (truthy _); [|keeps]. destruct (negb _); [keeps|].
    apply keeps_modify. intros s'. apply sound_grows, sessions_revoked_sound.
    intros x [_ Hx]%andb_prop. by apply is_null_true.
  - unfold issue. destruct (truthy _); [|keeps]. destruct (truthy _); [|keeps].
    apply keeps_bind; [apply _|apply keeps_grows, issue_sound|intros; keeps].
  - apply keeps_grows, revoke_device_sound.
  - unfold provisionBotCredential. change_credential.
  - unfold rotateBotCredential. change_credential.
  - apply revoke_credential_keeps.
Qed.

(** A transaction of the control plane is a step of this kind. *)
Lemma commit_frame A (m : DbM A) a db db' :
  transaction uuid hmac_sha256 is_uuid sha256 environment agentPepper credentialPepper A m →
  m db = (Ok a, db') → control_step db db'.
Proof.
  intros Ht Hr. split; [by eapply StepCommit|]. eapply keeps_run; [|exact Hr].
  destruct Ht;
    first [apply quarantine_frame|apply publish_frame|apply rotate_frame|apply revokeCredential_frame
          |apply cancel_frame|apply trial_frame
          |apply keeps_atomically; [apply _|];
           first [apply schedule_frame|apply revoke_frame|apply change_status_frame
                 |apply acknowledge_frame|apply snapshot_frame|apply heartbeat_frame|apply expire_frame
                 |apply materialize_frame|apply reconcile_frame]].
Qed.
Lemma other_step db db' :
  step uuid hmac_sha256 is_uuid sha256 environment agentPepper credentialPepper
    syncLease syncDelay syncMax outboxLease outboxDelay outboxMax eventIds db db' →
  db_subscriptions db' = db_subscriptions db → db_devices db' = db_devices db →
  (sourced db → sourced db') → control_step db db'.
Proof. intros Hs E1 E2 Hj. split; [done|]. by apply frame_same. Qed.

Lemma campaign_sound id c s :
  campaign_checks c = true →
  (∀ old, ac_campaigns s !! id = Some old → campaign_update_refused s id old c = false) →
  sound s (set_campaigns <[id := c]> s).
Proof.
  intros _ Href Hok. pose proof (ao_activations _ _ Hok) as Ha.
  assert (Ha' : map_Forall (λ _, activation_ok plus_days (set_campaigns <[id := c]> s)) (ac_activations s)).
  { intros i a Hi. destruct (Ha i a Hi) as (A1 & A2 & A3 & A4 & A5 & A6 & A7).
    split_and!; [done|done|done| |by destruct s|by destruct s|by destruct s].
    replace (ac_campaigns (set_campaigns <[id := c]> s)) with (<[id := c]> (ac_campaigns s)) by (by destruct s).
    destruct (decide (tv_trialCampaignId a = id)) as [<-|Hne]; [|by rewrite lookup_insert_ne].
    rewrite lookup_insert_eq. apply fmap_Some in A4 as (old & Hold & Hp). specialize (Href _ Hold).
    unfold campaign_update_refused in Href. apply andb_false_iff in Href as [Hno|Hsame].
    - rewrite exists_row_false in Hno. specialize (Hno i a Hi). by apply bool_decide_eq_false in Hno.
    - apply orb_false_iff in Hsame as [Hsame%negb_false_iff%bool_decide_eq_true _]. simpl. congruence. }
  destruct Hok. sound_cases s.
Qed.

Lemma step_grows o s s' : account_step o s s' → grows s s'.
Proof.
  destruct 1 as [a s|db s [_ Hf]|tg s|row terms s|id p s Hp|id c s Hc Hr].
  - apply act_grows.
  - by apply sound_grows, frame_sound.
  - apply (keeps_grows _ (user_upsert_sound _ _ _)).
  - apply (keeps_grows _ (subscription_create_sound _ _ _ _)).
  - apply sound_grows. intros []. by sound_cases s.
  - by apply sound_grows, campaign_sound.
Qed.

Lemma run_grows l s s' : account_run l s s' → grows s s'.
Proof. induction 1 as [|l o s1 s2 s3 _ IH Hs]; [reflexivity|]. etrans; [exact IH|by eapply step_grows]. Qed.

Definition account_reachable (s : Accounts) : Prop := ∃ l, account_run l empty_accounts s.

Lemma system_ok_empty : system_ok plus_days empty_accounts.
Proof. split; [apply account_ok_empty|apply map_Forall_empty]. Qed.

Lemma reachable_ok s : account_reachable s → system_ok plus_days s.
Proof. intros [l Hr]. by apply (run_grows _ _ _ Hr), system_ok_empty. Qed.

(** ** What an operation keeps, from what its statements keep *)

Section families.
Context (R : relation Accounts) `{!PreOrder R}.

Section common.
Context (Huuid : commits R (account_uuid uuid)).
Context (Haudit : ∀ actor action entityType entityId metadata,
  commits R (control (audit actor action entityType entityId metadata))).
Context (Hrequests : ∀ f, commits (E:=AccountError) R (modify (set_requests f))).

Lemma error_commits b e : commits R (database_error b e).
Proof using PreOrder0. unfold database_error. commits. Qed.
Lemma execute_keeps request operation now :
  commits R operation → keeps R (execute request operation now).
Proof using PreOrder0 Hrequests.
  intros Hop. apply transaction_keeps; [apply _|]. unfold stored_response. commits.
Qed.
Lemma validate_keeps input : keeps R (validateChangeInput input).
Proof using PreOrder0. unfold validateChangeInput, fail. keeps. Qed.
Lemma uuid_keeps : keeps R (account_uuid uuid).
Proof using Huuid. intros s. apply (Huuid s (uuid (db_drawn (ac_control s)))). by destruct s. Qed.

(** A request is executed and its answer read. *)
Ltac keeps_request :=
  apply keeps_bind; [apply _|apply execute_keeps; unfold auth_allowed, assert_allowed; commits|
                     intros; keeps].

Section access.
Context (Hupsert : ∀ telegramUserId, commits R (user_upsert uuid telegramUserId)).
Context (Hsubscription : ∀ row terms, commits R (subscription_create uuid row terms)).
Context (Hexpire : ∀ userId now, commits R (expire_finished_subscriptions userId now)).
Context (Hactivation : ∀ id a, commits R (activation_insert plus_days id a)).
Context (Hdevice : ∀ d, commits R (device_create uuid d)).
Context (Hcontrol : ∀ A (m : DbM A), transaction uuid hmac_sha256 is_uuid sha256 environment agentPepper
  credentialPepper A m → commits R (control m)).

Lemma choose_campaign_commits userId now : commits R (choose_campaign userId now).
Proof using PreOrder0. intros s c s' ->%choose_campaign_pure. reflexivity. Qed.
Hint Resolve choose_campaign_commits : commits.

(** [schedule] is the transaction, [scheduleInTransaction] a part of one. *)
Lemma schedule_commits input now :
  commits R (control (scheduleInTransaction uuid hmac_sha256 (Some environment) input now)).
Proof using Hcontrol.
  intros s a s' (db & Hr & ->)%control_ok.
  apply (Hcontrol _ _ (TSchedule _ _ _ _ _ _ _ input now) s a). unfold control, schedule, atomically.
  by rewrite Hr.
Qed.
Hint Resolve schedule_commits : commits.

Lemma activate_keeps request attempts maximum now :
  keeps R (activate uuid hmac_sha256 is_uuid is_datetime plus_days environment request attempts maximum now).
Proof using All.
  unfold activate. keeps_request. unfold activateInTransaction. commits. apply Hcontrol. constructor.
Qed.
Lemma issue_keeps userId key input now :
  keeps R (issue uuid hmac_sha256 newURL environment SUBSCRIPTION_TOKEN_PEPPER SUBSCRIPTION_FEED_BASE_URL
    userId key input now).
Proof using All.
  unfold issue. destruct (truthy _); [|keeps]. destruct (truthy _); [|keeps].
  apply keeps_bind; [apply _| |intros; keeps]. apply transaction_keeps; [apply _|].
  unfold issueInTransaction, issue_new, create_device. commits.
Qed.
Lemma revokeDevice_keeps userId deviceId now :
  keeps R (atomically (revokeDevice uuid userId deviceId now)).
Proof using All.
  apply transaction_keeps; [apply _|]. unfold revokeDevice. commits. apply Hcontrol. constructor.
Qed.
End access.

Section login.
Context (Hchallenge : ∀ c, commits R (challenge_create uuid c)).
Context (Hconsume : ∀ id replay sessionId now, commits R (challenge_consume id replay sessionId now)).
Context (Hpending : ∀ p, commits R (pending_create uuid p)).
Context (Hupdate : ∀ id data, commits R (pending_update id data)).
Context (Hsession : ∀ row, commits R (session_create uuid row)).
Context (Hsessions : ∀ f s, R s (set_sessions f s)).

Lemma issueChallenge_keeps request attempts launchId secret now :
  keeps R (issueChallenge uuid hmac_sha256 is_datetime AUTH_SESSION_PEPPER AUTH_PRELAUNCH_RATE_LIMIT_MAX
    request attempts launchId secret now).
Proof using All.
  unfold issueChallenge. destruct (truthy _); [|keeps]. keeps_request. unfold issueChallengeInTransaction. commits.
Qed.
Lemma beginLogin_keeps initData processNow attempts material :
  keeps R (beginLogin uuid hmac_key hmac_sha256 is_datetime JSON_parse Number_toString safe_integer
    AUTH_SESSION_PEPPER TELEGRAM_WEB_APP_VALIDATION_KEY TELEGRAM_INIT_DATA_MAX_AGE_SECONDS
    AUTH_PRELAUNCH_RATE_LIMIT_MAX initData processNow attempts material).
Proof using All.
  unfold beginLogin. destruct (truthy _); [|keeps]. destruct (truthy _); [|keeps].
  destruct (verify _ _ _ _ _ _ _ _) as [proof|]; [|keeps].
  apply keeps_bind; [apply _|unfold auth_allowed, assert_allowed; keeps|intros _].
  induction material as [|[[secret code] now] rest IH]; simpl; [keeps|].
  apply keeps_try; [apply _| |intros e; repeat (exact IH || keeps_step)].
  apply keeps_bind; [apply _| |intros; keeps]. apply transaction_keeps; [apply _|].
  unfold beginInTransaction. commits.
Qed.
Lemma confirm_keeps request attempts code now :
  keeps R (confirm hmac_sha256 AUTH_SESSION_PEPPER AUTH_PRELAUNCH_RATE_LIMIT_MAX request attempts code now).
Proof using All.
  unfold confirm. destruct (truthy _); [|keeps]. keeps_request. unfold confirmInTransaction. commits.
Qed.
Lemma complete_keeps secret sessionSecret now :
  keeps R (complete uuid hmac_sha256 is_uuid is_datetime AUTH_SESSION_PEPPER AUTH_SESSION_TTL_SECONDS
    secret sessionSecret now).
Proof using All.
  unfold complete. destruct (truthy _); [|keeps]. apply keeps_bind; [apply _|keeps|intros _].
  apply keeps_bind; [apply _| |intros; keeps]. apply transaction_keeps; [apply _|].
  unfold completeInTransaction. commits.
Qed.
Lemma revokeSession_keeps secret now : keeps R (revokeSession hmac_sha256 AUTH_SESSION_PEPPER secret now).
Proof using All.
  unfold revokeSession. destruct (truthy _); [|keeps]. destruct (negb _); [keeps|].
  apply keeps_modify. intros s'. apply Hsessions.
Qed.
End login.

Section credentials.
Context (Hcredential : ∀ id c, commits R (credential_create id c)).
Context (Hprincipal : ∀ id name, commits R (principal_create id name)).
Context (Hcredentials : ∀ f, commits (E:=AccountError) R (modify (set_botCredentials f))).

Ltac keeps_change :=
  apply keeps_bind; [apply _|apply validate_keeps|intros ?];
  apply keeps_bind; [apply _|apply uuid_keeps|intros ?];
  apply transaction_keeps; [apply _|]; unfold fail, store_key, fail, writeCredentialAudit; commits.
Lemma provision_keeps encodedKek input signingKey nonce :
  keeps R (provisionBotCredential uuid encodedKek input signingKey nonce).
Proof using All. unfold provisionBotCredential. keeps_change. Qed.
Lemma rotate_keeps encodedKek input signingKey nonce :
  keeps R (rotateBotCredential uuid encodedKek input signingKey nonce).
Proof using All. unfold rotateBotCredential. keeps_change. Qed.
Lemma revokeBotCredential_keeps input selector protected now :
  keeps R (revokeBotCredential is_uuid input selector protected now).
Proof using All.
  unfold revokeBotCredential. apply keeps_bind; [apply _|apply validate_keeps|intros ?].
  unfold fail. apply keeps_bind; [apply _|keeps|intros _]. apply keeps_bind; [apply _|keeps|intros _].
  apply transaction_keeps; [apply _|]. unfold writeCredentialAudit. commits.
Qed.
End credentials.
End common.
End families.
Hint Extern 1 (commits _ (database_error _ _)) => apply error_commits; apply _ : commits.

(** ** What the operations leave alone *)

Definition access_action (a : action) : bool :=
  match a with Activate _ _ _ _ | IssueDevice _ _ _ _ | RevokeDevice _ _ _ => true | _ => false end.
Definition key_action (a : action) : bool :=
  match a with ProvisionCredential _ _ _ _ | RotateCredential _ _ _ _ | RevokeCredential _ _ _ _ => true
  | _ => false end.
Definition login_action (a : action) : bool := negb (access_action a) && negb (key_action a).

Create HintDb unchanged.
Section unchanged.
Context {T : Type} (f : Accounts → T).
Context (Hcontrol : ∀ g s, f (set_control g s) = f s) (Hrequests : ∀ g s, f (set_requests g s) = f s).
Hint Resolve uuid_same control_same requests_same upsert_same subscription_same expire_same activation_same
  device_same challenge_same consume_same pending_same update_same session_same credential_same
  principal_same credentials_same : unchanged.

(** Trials and the cabinet. *)
Lemma access_unchanged a s :
  (∀ g s, f (set_users g s) = f s) → (∀ g s, f (set_terms g s) = f s) →
  (∀ g s, f (set_activations g s) = f s) → access_action a = true → f (act a s) = f s.
Proof using All.
  intros Hu Ht Ha Hacc. change (same f s (act a s)).
  destruct a; try discriminate Hacc; simpl; as_relation (same f).
  - apply activate_keeps; eauto with typeclass_instances unchanged.
  - apply issue_keeps; eauto with typeclass_instances unchanged.
  - apply revokeDevice_keeps; eauto with typeclass_instances unchanged.
Qed.
(** Logging in. *)
Lemma login_unchanged a s :
  (∀ g s, f (set_challenges g s) = f s) → (∀ g s, f (set_pendingLogins g s) = f s) →
  (∀ g s, f (set_sessions g s) = f s) → login_action a = true → f (act a s) = f s.
Proof using All.
  intros Hc Hp Hs Hlog. change (same f s (act a s)).
  destruct a; try discriminate Hlog; simpl; as_relation (same f).
  - apply issueChallenge_keeps; eauto with typeclass_instances unchanged.
  - apply beginLogin_keeps; eauto with typeclass_instances unchanged.
  - apply confirm_keeps; eauto with typeclass_instances unchanged.
  - apply complete_keeps; eauto with typeclass_instances unchanged.
  - apply revokeSession_keeps; eauto with typeclass_instances unchanged.
Qed.
(** The bot's keys. *)
Lemma key_unchanged a s :
  (∀ g s, f (set_botCredentials g s) = f s) → (∀ g s, f (set_principals g s) = f s) →
  key_action a = true → f (act a s) = f s.
Proof using All.
  intros Hb Hp Hkey. change (same f s (act a s)).
  destruct a; try discriminate Hkey; simpl; as_relation (same f).
  - apply provision_keeps; eauto with typeclass_instances unchanged.
  - apply rotate_keeps; eauto with typeclass_instances unchanged.
  - apply revokeBotCredential_keeps; eauto with typeclass_instances unchanged.
Qed.
End unchanged.

(** ** Every step is steps of the control plane *)

Notation plane_step := (step uuid hmac_sha256 is_uuid sha256 environment agentPepper credentialPepper
  syncLease syncDelay syncMax outboxLease outboxDelay outboxMax eventIds).

Definition refines (s s' : Accounts) : Prop := rtc plane_step (ac_control s) (ac_control s').
#[export] Instance refines_preorder : PreOrder refines.
Proof. split; [intros s; apply rtc_refl|]. intros s1 s2 s3 H12 H23. unfold refines. by etrans. Qed.

Lemma control_refines {A} (m : DbM A) :
  (∀ db a db', m db = (Ok a, db') → rtc plane_step db db') → commits refines (control m).
Proof. intros Hm s a s' (db & Hr & ->)%control_ok. unfold refines. destruct s. by eapply Hm. Qed.

Lemma transaction_refines A (m : DbM A) :
  transaction uuid hmac_sha256 is_uuid sha256 environment agentPepper credentialPepper A m →
  commits refines (control m).
Proof. intros Ht. apply control_refines. intros db a db' Hr. by eapply rtc_once, StepCommit. Qed.

(** Accounts' own tables. *)
Lemma same_control s s' : ac_control s' = ac_control s → refines s s'.
Proof. intros E. unfold refines. by rewrite E. Qed.
Lemma drawn_control s s' : ac_control s' = set_drawn S (ac_control s) → refines s s'.
Proof. intros E. unfold refines. rewrite E. apply rtc_once, StepDrawn. Qed.
Lemma written_control f s s' :
  ac_control s' = f (set_drawn S (ac_control s)) → (∀ db, plane_step db (f db)) →
  refines s s'.
Proof. intros E Hs. unfold refines. rewrite E. eapply rtc_l; [apply StepDrawn|]. by apply rtc_once, Hs. Qed.

Lemma account_uuid_refines : commits refines (account_uuid uuid).
Proof. intros s id s' [_ ->]%account_uuid_ok. apply drawn_control. by destruct s. Qed.
Lemma audit_refines actor action entityType entityId metadata :
  commits refines (control (audit actor action entityType entityId metadata)).
Proof. apply control_refines. intros db a db' (l & ->)%audit_ok. apply rtc_once, StepAudit. Qed.
Lemma user_upsert_refines telegramUserId : commits refines (user_upsert uuid telegramUserId).
Proof.
  intros s id s' [[-> _]|(_ & _ & ->)]%user_upsert_ok; [reflexivity|]. apply drawn_control. by destruct s.
Qed.
Lemma subscription_create_refines row terms : commits refines (subscription_create uuid row terms).
Proof.
  intros s id s' (_ & _ & _ & _ & _ & ->)%subscription_create_ok.
  apply (written_control (set_subscriptions <[id := row]>)); [by destruct s|]. intros. apply StepSubscriptions.
Qed.
Lemma expire_finished_refines userId now : commits refines (expire_finished_subscriptions userId now).
Proof.
  unfold expire_finished_subscriptions, subscriptions_expire. commits.
  - intros s u s' [= <- <-]. unfold refines. destruct s. apply rtc_once, StepSubscriptions.
  - intros s u s' [= <- <-]. apply same_control. by destruct s.
Qed.
Lemma activation_insert_refines id a : commits refines (activation_insert plus_days id a).
Proof.
  intros s u s' Hr. apply activation_insert_ok in Hr as (_&_&_&_&_&_&_&_&_& ->).
  apply same_control. by destruct s.
Qed.
Lemma device_create_refines d : commits refines (device_create uuid d).
Proof.
  intros s id s' (_ & Hn & _ & _ & ->)%device_create_ok. unfold refines. destruct s as [db]. simpl in *.
  eapply rtc_l; [apply StepDrawn|]. apply rtc_once, StepDevice. by destruct db.
Qed.
Lemma challenge_create_refines c : commits refines (challenge_create uuid c).
Proof. intros s id s' (_&_&_&_& ->)%challenge_create_ok. apply drawn_control. by destruct s. Qed.
Lemma challenge_consume_refines id replay sessionId now :
  commits refines (challenge_consume id replay sessionId now).
Proof. intros s u s' (old & _ & _ & _ & _ & ->)%challenge_consume_ok. apply same_control. by destruct s. Qed.
Lemma credential_create_refines id c : commits refines (credential_create id c).
Proof. intros s u s' (_&_&_&_& ->)%credential_create_ok. apply same_control. by destruct s. Qed.
Lemma principal_create_refines id name : commits refines (principal_create id name).
Proof. intros s u s' (_&_& ->)%principal_create_ok. apply same_control. by destruct s. Qed.
Lemma pending_create_refines p : commits refines (pending_create uuid p).
Proof. intros s id s' (_&_&_&_&_& ->)%pending_create_ok. apply drawn_control. by destruct s. Qed.
Lemma pending_update_refines id data : commits refines (pending_update id data).
Proof. intros s u s' (old & _ & _ & ->)%pending_update_ok. apply same_control. by destruct s. Qed.
Lemma session_create_refines row : commits refines (session_create uuid row).
Proof. intros s id s' (_&_&_& ->)%session_create_ok. apply drawn_control. by destruct s. Qed.
Lemma requests_refines f : commits (E:=AccountError) refines (modify (set_requests f)).
Proof. intros s u s' [= <- <-]. apply same_control. by destruct s. Qed.
Lemma sessions_refines f s : refines s (set_sessions f s).
Proof. apply same_control. by destruct s. Qed.
Lemma credentials_refines f : commits (E:=AccountError) refines (modify (set_botCredentials f)).
Proof. intros s u s' [= <- <-]. apply same_control. by destruct s. Qed.
Hint Resolve account_uuid_refines audit_refines user_upsert_refines subscription_create_refines
  expire_finished_refines activation_insert_refines device_create_refines challenge_create_refines
  challenge_consume_refines credential_create_refines principal_create_refines pending_create_refines
  pending_update_refines session_create_refines requests_refines sessions_refines credentials_refines
  transaction_refines : commits.

Lemma act_refines a s : refines s (act a s).
Proof.
  destruct a; simpl; as_relation refines.
  - apply activate_keeps; eauto with typeclass_instances commits.
  - apply issueChallenge_keeps; eauto with typeclass_instances commits.
  - apply beginLogin_keeps; eauto with typeclass_instances commits.
  - apply confirm_keeps; eauto with typeclass_instances commits.
  - apply complete_keeps; eauto with typeclass_instances commits.
  - apply revokeSession_keeps; eauto with typeclass_instances commits.
  - apply issue_keeps; eauto with typeclass_instances commits.
  - apply revokeDevice_keeps; eauto with typeclass_instances commits.
  - apply provision_keeps; eauto with typeclass_instances commits.
  - apply rotate_keeps; eauto with typeclass_instances commits.
  - apply revokeBotCredential_keeps; eauto with typeclass_instances commits.
Qed.

(** The account services do nothing to the control plane's tables that is not
    steps of the control plane. *)
Lemma step_refines o s s' : account_step o s s' → refines s s'.
Proof.
  destruct 1 as [a s|db s [Hs _]|tg s|row terms s|id p s Hp|id c s Hc Hr].
  - apply act_refines.
  - unfold refines. destruct s. by apply rtc_once.
  - apply transaction_keeps; [apply _|]. apply user_upsert_refines.
  - apply transaction_keeps; [apply _|]. apply subscription_create_refines.
  - apply same_control. by destruct s.
  - apply same_control. by destruct s.
Qed.

Lemma run_refines l s s' : account_run l s s' → refines s s'.
Proof. induction 1 as [|l o s1 s2 s3 _ IH Hs]; [reflexivity|]. etrans; [exact IH|by eapply step_refines]. Qed.

Lemma reachable_inv_control s : account_reachable s → Inv nothing (ac_control s).
Proof. intros [l Hr%run_refines]. by eapply reachable_inv. Qed.
End system.
