(* ===== verification/TrialSafety.v ===== *)
(** * What a trial gives

    The branches of [activateInTransaction]: the user's earlier trial is
    found, or a new one is given, with the access of TrialAccessSafety.v. *)

From S2P Require Import Prelude.
From S2P Require Import Keeps.
From S2P Require Import Json.
From S2P Require Import Sql.
From S2P Require Import NodeSyncStore.
From S2P Require Import XrayAccess.
From S2P Require Import ControlPlane.
From S2P Require Import AccessPolicy.
From S2P Require Import ControlPlaneInvariant.
From S2P Require Import Orchestration.
From S2P Require Import SubscriptionAccess.
From S2P Require Import SubscriptionAccessSafety.
From S2P Require Import SubscriptionFeed.
From S2P Require Import Reconciliation.
From S2P Require Import TrialAccess.
From S2P Require Import TrialAccessSafety.
From S2P Require Import ControlFrame.
From S2P Require Import BotSigningKey.
From S2P Require Import Accounts.
From S2P Require Import AccountInvariant.
From S2P Require Import BotRequests.
From S2P Require Import Trial.
From S2P Require Import AccountSystem.
Open Scope Z_scope.

Section trial.
Context (uuid : nat → string) (hmac_sha256 : string → string → list Z) `{DateStrings}.
Context (plus_days : Z → Z → Z) (environment : ApiEnvironment).
Notation activateInTransaction := (activateInTransaction uuid hmac_sha256 plus_days environment).

(** ** Tables the access depends on *)

Definition same_access (db db' : Db) : Prop :=
  db_grants db' = db_grants db ∧ db_nodes db' = db_nodes db ∧ db_devices db' = db_devices db ∧
  db_jobs db' = db_jobs db.
#[local] Instance same_access_equivalence : Equivalence same_access.
Proof. split; [by intros db|by intros db1 db2 (?&?&?&?)|]. intros db1 db2 db3 (?&?&?&?) (?&?&?&?). split_and!; congruence. Qed.

Lemma same_access_extended input devices nodeId n db1 db1' db2 db2' :
  same_access db1 db2 → same_access db1' db2' →
  extended_on_node input devices nodeId n db1 db1' → extended_on_node input devices nodeId n db2 db2'.
Proof.
  intros (Eg & _ & _ & _) (Eg' & En' & _ & Ej') []. split; unfold grant_on in *; by rewrite ?Eg, ?Eg', ?En', ?Ej'.
Qed.
Lemma same_access_devices db1 db2 userId :
  same_access db1 db2 → active_devices db2 userId = active_devices db1 userId.
Proof. intros (_ & _ & E & _). unfold active_devices. by rewrite E. Qed.
Lemma same_access_trial_node db1 db2 userId nodeId n :
  same_access db1 db2 → trial_node db2 userId nodeId n = trial_node db1 userId nodeId n.
Proof. intros (Eg & _ & Ed & _). unfold trial_node, of_user. by rewrite Eg, Ed. Qed.

(** ** The transaction, branch by branch *)

(** What the transaction has checked, and made of the tables. *)
Record trial_given (s : Accounts) (userId : string) (now : Z) (s' : Accounts) (id : string)
    (a : TrialActivation) (campaign : EligibleCampaign) : Prop := {
  gv_activation : a = {| tv_trialCampaignId := ec_id campaign; tv_userId := userId;
    tv_subscriptionId := tv_subscriptionId a; tv_planId := ec_planId campaign;
    tv_durationDays := ec_durationDays campaign; tv_activatedAt := now; tv_startsAt := now;
    tv_expiresAt := plus_days now (ec_durationDays campaign) |};
  gv_none_running : ∀ i r, db_subscriptions (ac_control s) !! i = Some r → sb_userId r = userId →
    sb_status r = SUB_ACTIVE → ∃ e, sb_expiresAt r = Some e ∧ e ≤ now;
  gv_campaign : eligible_campaigns s now = [campaign];
  gv_devices : Z.of_nat (length (active_devices (ac_control s) userId)) ≤ ec_deviceLimit campaign;
  gv_left : ∀ m, ec_maxActivations campaign = Some m →
    Z.of_nat (campaign_activations s (ec_id campaign)) < m;
  gv_activations : ac_activations s' = <[id := a]> (ac_activations s);
  gv_fresh : ac_activations s !! id = None;
  gv_subscription : db_subscriptions (ac_control s') !! tv_subscriptionId a =
    Some {| sb_userId := userId; sb_status := SUB_ACTIVE; sb_startsAt := Some now;
            sb_expiresAt := Some (tv_expiresAt a); sb_cancelledAt := None |};
  gv_users : ac_users s' = ac_users s;
  gv_access : ∀ nodeId n, db_nodes (ac_control s) !! nodeId = Some n →
    trial_node (ac_control s) userId nodeId n = true →
    extended_on_node {| ta_activationId := id; ta_userId := userId; ta_expiresAt := tv_expiresAt a |}
      (active_devices (ac_control s) userId) nodeId n (ac_control s) (ac_control s');
}.

Lemma active_expiry r :
  subscription_checks r = true → sb_status r = SUB_ACTIVE → ∃ e, sb_expiresAt r = Some e.
Proof.
  unfold subscription_checks. intros [Hd _]%andb_prop Hst. rewrite bool_decide_eq_true_2 in Hd by done.
  destruct (sb_startsAt r), (sb_expiresAt r); simpl in Hd; eauto; done.
Qed.

Lemma take_two_one {A} (l : list A) x : take 2 l = [x] → l = [x].
Proof. destruct l as [|y [|z l]]; simpl; [done|done|]. by intros [=]. Qed.

(** The one eligible campaign, as a row. *)
Lemma eligible_one s now x :
  eligible_campaigns s now = [x] →
  ∃ campaign plan, ac_campaigns s !! ec_id x = Some campaign ∧ campaign_eligible s now campaign = true ∧
    ac_plans s !! tc_planId campaign = Some plan ∧ ec_planId x = tc_planId campaign ∧
    ec_durationDays x = tc_durationDays campaign ∧ ec_maxActivations x = tc_maxActivations campaign ∧
    ec_deviceLimit x = pl_deviceLimit plan ∧
    ∀ c campaign', ac_campaigns s !! c = Some campaign' → campaign_eligible s now campaign' = true → c = ec_id x.
Proof.
  unfold eligible_campaigns. intros Hl%take_two_one.
  assert (Hx : x ∈ [x]) by left. rewrite <- Hl in Hx at 1. apply list_elem_of_omap in Hx as ([c campaign] & Hin & Hf).
  rewrite by_id_elem, elem_of_map_to_list in Hin. option_invert Hf. simpl in *. simplify_eq. simpl in *.
  eexists _, _. split_and!; try done. intros c' campaign' Hc' He'.
  assert (Hp : ∃ p, ac_plans s !! tc_planId campaign' = Some p).
  { unfold campaign_eligible in He'. apply andb_prop in He' as [_ Hp].
    destruct (ac_plans s !! tc_planId campaign'); [eauto|done]. }
  destruct Hp as [p Hp].
  lazymatch type of Hl with omap ?f ?l = _ =>
    assert (Hy : {| ec_id := c'; ec_planId := tc_planId campaign'; ec_durationDays := tc_durationDays campaign';
       ec_maxActivations := tc_maxActivations campaign'; ec_deviceLimit := pl_deviceLimit p |} ∈ omap f l) end.
  { apply list_elem_of_omap. exists (c', campaign'). split; [by rewrite by_id_elem, elem_of_map_to_list|].
    simpl. rewrite Hp. simpl. by rewrite option_guard_True. }
  rewrite Hl in Hy. apply list_elem_of_singleton in Hy. by injection Hy.
Qed.

Lemma campaign_activations_insert (s s' : Accounts) id a c :
  ac_activations s' = <[id := a]> (ac_activations s) → ac_activations s !! id = None →
  tv_trialCampaignId a = c → campaign_activations s' c = S (campaign_activations s c).
Proof.
  intros E Hn Hc. unfold campaign_activations, rows, sql_where. rewrite E, !length_fmap.
  rewrite map_filter_insert_True by (by apply bool_decide_eq_true).
  rewrite map_to_list_insert; [done|]. apply map_lookup_filter_None. by left.
Qed.

(** Marking what has run out. *)
Lemma expire_finished_ok userId now s u s' :
  expire_finished_subscriptions userId now s = (Ok u, s') →
  (∀ i r, db_subscriptions (ac_control s) !! i = Some r → sb_userId r = userId →
     sb_status r = SUB_ACTIVE → sql_gt (sb_expiresAt r) now = false) ∧
  ∃ f g, s' = set_terms g (set_control (set_subscriptions f) s).
Proof.
  unfold expire_finished_subscriptions. intros Hr. ok_inv Hr. split.
  - intros i r Hi Hu Hst.
    assert (Hin : (i, r) ∈ active_subscriptions s userId) by (by apply active_subscriptions_elem).
    by apply (existsb_none _ _ Hguard) in Hin.
  - destruct (active_subscriptions s userId) as [|x l]; [ok_inv Hr|].
    + exists id, id. by destruct s as [[]].
    + unfold subscriptions_expire in Hr. acc_inv Hr. by eexists _, _.
Qed.

Lemma choose_campaign_ok userId now s campaign s' :
  choose_campaign userId now s = (Ok campaign, s') →
  s' = s ∧ eligible_campaigns s now = [campaign] ∧
  Z.of_nat (length (active_devices (ac_control s) userId)) ≤ ec_deviceLimit campaign ∧
  ∀ m, ec_maxActivations campaign = Some m → Z.of_nat (campaign_activations s (ec_id campaign)) < m.
Proof.
  unfold choose_campaign. intros Hr. ok_inv Hr.
  destruct (eligible_campaigns _ now) as [|c [|]] eqn:Hc; [done| |done]. ok_inv Hr.
  apply Z.ltb_ge in Hguard. split_and!; try done. intros m Hm. rewrite Hm in Hguard0.
  by apply Z.leb_gt in Hguard0.
Qed.

(** The transaction found the user's trial, or gave one. *)
Lemma activate_cases telegramUserId now s r s' :
  account_ok plus_days s → Inv nothing (ac_control s) →
  activateInTransaction telegramUserId now s = (Ok r, s') →
  ∃ userId s1, user_upsert uuid telegramUserId s = (Ok userId, s1) ∧
    ((∃ id a, findExistingActivation s1 userId = Some (id, a) ∧ s' = s1 ∧
        r = {| or_statusCode := 200; or_body := serialize id a |}) ∨
     (findExistingActivation s1 userId = None ∧ ∃ id a campaign,
        r = {| or_statusCode := 200; or_body := serialize id a |} ∧
        trial_given s1 userId now s' id a campaign)).
Proof.
  intros Hok Hinv Hr. unfold activateInTransaction in Hr. ok_inv Hr.
  rename a into userId, s0 into s1. exists userId, s1. split; [done|].
  destruct (user_upsert_sound _ plus_days _ _ _ _ Hrun Hok) as (Hok1 & _ & _).
  assert (Hinv1 : Inv nothing (ac_control s1)).
  { apply user_upsert_ok in Hrun as [[-> _]|(_ & _ & ->)]; [done|]. destruct s. exact (proj1 (drawn_inv _ _ Hinv)). }
  destruct (findExistingActivation s1 userId) as [[id a]|] eqn:Hex.
  { ok_inv Hr. left. by exists id, a. }
  right. split; [done|]. ok_inv Hr.
  apply expire_finished_ok in Hrun0 as (Hnone & f & g & ->).
  apply choose_campaign_ok in Hrun1 as (-> & Hcampaign & Hdevices & Hleft).
  apply subscription_create_ok in Hrun2 as (_ & _ & _ & _ & _ & ->).
  apply account_uuid_ok in Hrun3 as [_ ->].
  apply activation_insert_ok in Hrun4 as (_ & _ & _ & Hfresh & _ & _ & _ & _ & _ & ->).
  apply control_ok in Hrun5 as (db & Hschedule & ->).
  apply control_ok in Hrun6 as (db' & (rows & ->)%audit_ok & ->).
  destruct s1 as [db1]. simpl in *.
  assert (Hsame : same_access db1 (set_drawn S (set_subscriptions <[a1 := {| sb_userId := userId;
     sb_status := SUB_ACTIVE; sb_startsAt := Some now;
     sb_expiresAt := Some (plus_days now (ec_durationDays a0)); sb_cancelledAt := None |}]>
     (set_drawn S (set_subscriptions f db1))))) by (by destruct db1).
  eexists _, _, _. split; [done|]. split; simpl; try done.
  - intros i r Hi Hu Hst. destruct (active_expiry r) as [e He]; [by apply (ao_subscriptions _ _ Hok1 i)|done|].
    exists e. split; [done|]. specialize (Hnone i r Hi Hu Hst). rewrite He in Hnone. by apply Z.ltb_ge in Hnone.
  - etrans; [|exact Hdevices].
    by rewrite (same_access_devices db1 (set_subscriptions f db1) userId) by (by destruct db1).
  - destruct (scheduleExistingDeviceAccess_safe _ _ _ _ _ _ _ _ Hschedule) as (_ & _ & _ & Hsubs & _).
    { exact (proj1 (drawn_inv _ _ (proj1 (subscriptions_inv _ _ _ (proj1 (drawn_inv _ _
        (proj1 (subscriptions_inv _ _ _ Hinv1)))))))). }
    replace (db_subscriptions (set_audit _ db)) with (db_subscriptions db) by (by destruct db).
    rewrite Hsubs. destruct db1. simpl. by rewrite lookup_insert_eq.
  - intros nodeId n Hn Ht.
    destruct (scheduleExistingDeviceAccess_safe _ _ _ _ _ _ _ _ Hschedule) as (_ & _ & _ & _ & Hext & _).
    { exact (proj1 (drawn_inv _ _ (proj1 (subscriptions_inv _ _ _ (proj1 (drawn_inv _ _
        (proj1 (subscriptions_inv _ _ _ Hinv1)))))))). }
    specialize (Hext nodeId n). simpl in Hext.
    rewrite (same_access_trial_node _ _ userId nodeId n Hsame), (same_access_devices _ _ userId Hsame) in Hext.
    eapply same_access_extended; [symmetry; exact Hsame| |].
    2: { apply Hext; [|done]. destruct Hsame as (_ & -> & _). done. }
    by destruct db.
Qed.
End trial.
