(* ===== verification/CabinetSafety.v ===== *)
(** * What the cabinet issues

    The branches of [issueInTransaction]: the device of an earlier request is
    found, or a new device is made with access on every healthy node; and the
    subscription the overview shows. *)

From S2P Require Import Prelude.
From S2P Require Import Keeps.
From S2P Require Import Json.
From S2P Require Import Sql.
From S2P Require Import OutboxStore.
From S2P Require Import NodeSyncStore.
From S2P Require Import NodeAgentContract.
From S2P Require Import XrayAccess.
From S2P Require Import ControlPlane.
From S2P Require Import AccessPolicy.
From S2P Require Import DataPlaneCredential.
From S2P Require Import ControlPlaneInvariant.
From S2P Require Import Orchestration.
From S2P Require Import OrchestrationSafety.
From S2P Require Import SubscriptionAccess.
From S2P Require Import SubscriptionFeed.
From S2P Require Import TrialAccess.
From S2P Require Import TrialAccessSafety.
From S2P Require Import ControlFrame.
From S2P Require Import ControlPlaneSystem.
From S2P Require Import Accounts.
From S2P Require Import AccountInvariant.
From S2P Require Import Cabinet.
Open Scope Z_scope.

(** ** The user's subscriptions *)

Lemma user_subscriptions_elem s userId x :
  x ∈ user_subscriptions s userId ↔
  ∃ id terms, db_subscriptions (ac_control s) !! id = Some (wp_subscription x) ∧
    sb_userId (wp_subscription x) = userId ∧ ac_terms s !! id = Some terms ∧
    ac_plans s !! te_planId terms = Some (wp_plan x).
Proof.
  unfold user_subscriptions. rewrite list_elem_of_fmap. split.
  - intros ([id [terms y]] & -> & Hin). rewrite merge_sort_Permutation in Hin.
    apply list_elem_of_omap in Hin as ([id' r] & Hr & Ho). apply elem_of_map_to_list in Hr.
    option_invert Ho. simpl in *. simplify_eq. simpl. eauto 10.
  - intros (id & terms & Hr & Hu & Ht & Hp). exists (id, (terms, x)). split; [done|].
    rewrite merge_sort_Permutation. apply list_elem_of_omap. exists (id, wp_subscription x).
    split; [by apply elem_of_map_to_list|]. simpl. rewrite option_guard_True by done. simpl.
    rewrite Ht. simpl. rewrite Hp. simpl. by destruct x.
Qed.

Lemma gives_entitlement_spec now x :
  gives_entitlement now x = true ↔
  sb_status (wp_subscription x) = SUB_ACTIVE ∧
  ∃ e, sb_expiresAt (wp_subscription x) = Some e ∧ now < e.
Proof.
  unfold gives_entitlement, hasEntitlement. rewrite bool_decide_eq_true_2 by done. simpl.
  rewrite bool_decide_eq_true. apply effective_active.
Qed.

(** The sort finds a subscription that is ACTIVE if there is one. *)
Lemma first_by_priority_elem l x : first_by_priority l = Some x → x ∈ l.
Proof.
  revert x. induction l as [|y l IH]; intros x; simpl; [done|].
  destruct (first_by_priority l) as [z|]; [|intros [= <-]; left].
  destruct (_ <? _)%nat; intros [= <-]; [right; by apply IH|left].
Qed.
Lemma first_by_priority_least l x y :
  first_by_priority l = Some x → y ∈ l →
  (subscriptionPriority (sb_status (wp_subscription x)) ≤
   subscriptionPriority (sb_status (wp_subscription y)))%nat.
Proof.
  revert x. induction l as [|z l IH]; intros x; simpl; [done|].
  destruct (first_by_priority l) as [w|] eqn:Hw.
  - destruct (_ <? _)%nat eqn:Hlt; intros [= <-] [->|Hy]%elem_of_cons.
    + apply Nat.ltb_lt in Hlt. lia.
    + by apply IH.
    + done.
    + apply Nat.ltb_ge in Hlt. etrans; [exact Hlt|by apply IH].
  - intros [= <-] [->|Hy]%elem_of_cons; [done|].
    destruct l as [|v l]; [by apply elem_of_nil in Hy|]. simpl in Hw.
    destruct (first_by_priority l); [destruct (_ <? _)%nat|]; done.
Qed.

Lemma first_by_priority_some l x : x ∈ l → is_Some (first_by_priority l).
Proof.
  destruct l as [|y l]; [intros Hx; by apply elem_of_nil in Hx|]. intros _. simpl.
  destruct (first_by_priority l); [destruct (_ <? _)%nat|]; eauto.
Qed.

(** The overview says ACTIVE exactly when a device could be issued: both read
    the one ACTIVE subscription of the user. *)
Lemma overview_status plus_days s userId now :
  account_ok plus_days s →
  (cs_status <$> ov_subscription (overview s userId now) = Some SUB_ACTIVE ↔
   ∃ x, x ∈ user_subscriptions s userId ∧ gives_entitlement now x = true).
Proof.
  intros Hok. unfold overview. simpl.
  assert (Hser : ∀ x, cs_status (serializeSubscription x now) = SUB_ACTIVE ↔ gives_entitlement now x = true).
  { intros x. unfold serializeSubscription. simpl. by rewrite effective_active, gives_entitlement_spec. }
  split.
  - destruct (first_by_priority (user_subscriptions s userId)) as [x|] eqn:Hf; [|done]. simpl.
    intros [= Hx]. exists x. split; [by apply first_by_priority_elem|by apply Hser].
  - intros (x & Hx & Hg). destruct (first_by_priority_some _ _ Hx) as [y Hy]. rewrite Hy. simpl. f_equal.
    apply Hser. pose proof (first_by_priority_least _ _ _ Hy Hx) as Hle.
    pose proof Hg as (Hst & _)%gives_entitlement_spec. rewrite Hst in Hle.
    pose proof (first_by_priority_elem _ _ Hy) as Hin.
    destruct (sb_status (wp_subscription y)) eqn:Hsy; simpl in Hle; try lia.
    apply user_subscriptions_elem in Hx as (id & terms & Hr & Hu & Ht & Hp).
    apply user_subscriptions_elem in Hin as (id' & terms' & Hr' & Hu' & Ht' & Hp').
    assert (id' = id) as ->.
    { apply (ao_active _ _ Hok id' id _ _ userId Hr' Hr); unfold active_user;
        rewrite bool_decide_eq_true_2 by done; congruence. }
    assert (wp_subscription y = wp_subscription x) as E by congruence.
    destruct x, y. simpl in *. congruence.
Qed.

(** ** Access on one node *)

Section issue.
Context (uuid : nat → string) (hmac_sha256 : string → string → list Z).
Context (environment : ApiEnvironment).

(** Pending access of a device on a node, and the job that tells the node. *)
Definition access_pending (db : Db) (deviceId : string) (expiresAt : Z) (nodeId : string) : Prop :=
  ∃ grantId g jobId j, db_grants db !! grantId = Some g ∧ gr_nodeId g = nodeId ∧
    gr_deviceId g = deviceId ∧ gr_status g = GRANT_PENDING ∧ gr_expiresAt g = expiresAt ∧
    db_jobs db !! jobId = Some j ∧ j_nodeId j = nodeId ∧ j_nodeAccessGrantId j = Some grantId ∧
    j_targetVersion j = gr_desiredVersion g.

(** The grant a new scheduling makes, and the keys it takes. *)
Lemma schedule_new_grant input now db r db' :
  schedule_new uuid hmac_sha256 (Some environment) input now db = (Ok r, db') → Inv nothing db →
  ∃ g, let jobId := sr_nodeSyncJobId r in let grantId := sr_nodeAccessGrantId r in
    gr_nodeId g = si_nodeId input ∧ gr_deviceId g = si_deviceId input ∧ gr_status g = GRANT_PENDING ∧
    gr_expiresAt g = si_expiresAt input ∧ gr_desiredVersion g = sr_targetVersion r ∧
    db_grants db' = <[grantId := g]> (db_grants db) ∧
    db_jobs db' = <[jobId := new_job jobId (si_nodeId input) (GrantResource grantId) (sr_targetVersion r) now]>
                    (db_jobs db) ∧
    db_jobKeys db' = <[si_syncJobIdempotencyKey input := jobId]> (db_jobKeys db) ∧
    db_jobs db !! jobId = None ∧ db_devices db' = db_devices db ∧ db_subscriptions db' = db_subscriptions db.
Proof.
  unfold schedule_new, find. intros H Hinv. ok_inv H.
  destruct (db_nodes _ !! si_nodeId input) as [assigned|] eqn:Hassigned; [|discriminate H].
  ok_inv H.
  destruct (run_increment _ _ _ _ _ Hrun Hinv) as (_ & _ & _ & Hdb1 & _).
  apply randomUUID_ok in Hrun0 as [_ Hdb2].
  repeat match goal with H : with_pepper _ _ = (Ok _, _) |- _ => apply with_pepper_ok in H as [_ ->] end.
  apply grant_create_ok in Hrun3 as (_ & _ & _ & _ & _ & Hdb3).
  apply job_create_ok in Hrun4 as (Hj & _ & _ & Hdb4).
  apply event_create_ok in Hrun5 as (_ & _ & Hdb5).
  apply audit_ok in Hrun6 as (l & Hdb6). subst. clear Hinv. destruct db. simpl in *.
  exists {| gr_nodeId := si_nodeId input; gr_deviceId := si_deviceId input; gr_status := GRANT_PENDING;
            gr_dataPlaneCredentialHash := a4;
            gr_dataPlaneCredentialDerivationVersion := Some DATA_PLANE_CREDENTIAL_DERIVATION_VERSION;
            gr_expiresAt := si_expiresAt input; gr_desiredVersion := n_desiredConfigVersion a1;
            gr_appliedVersion := 0; gr_revokedAt := None |}.
  by split_and!.
Qed.

Lemma issue_key_inj hash a b : issue_key hash a = issue_key hash b → a = b.
Proof. unfold issue_key. intros E. by apply (inj (String.append _)), (inj (String.append _)), (inj (String.append _)) in E. Qed.

(** While the device's access is made, each job of its grants carries the key
    of a node that is done. *)
Definition done_nodes (hash deviceId : string) (done : list string) (db : Db) : Prop :=
  ∀ key jobId j grantId g, db_jobKeys db !! key = Some jobId → db_jobs db !! jobId = Some j →
    j_nodeAccessGrantId j = Some grantId → db_grants db !! grantId = Some g → gr_deviceId g = deviceId →
    ∃ nodeId, nodeId ∈ done ∧ key = issue_key hash nodeId.

(** The state between two nodes. *)
Record issuing (hash deviceId : string) (device : Device) (done : list string) (expiresAt : Z)
    (db : Db) : Prop := {
  is_inv : Inv nothing db;
  is_sourced : sourced db;
  is_device : db_devices db !! deviceId = Some device;
  is_done : done_nodes hash deviceId done db;
  is_access : ∀ nodeId, nodeId ∈ done → access_pending db deviceId expiresAt nodeId;
}.

Lemma access_pending_grows db db' deviceId expiresAt nodeId :
  access_pending db deviceId expiresAt nodeId → db_grants db ⊆ db_grants db' → db_jobs db ⊆ db_jobs db' →
  access_pending db' deviceId expiresAt nodeId.
Proof.
  intros (gid & g & jid & j & Hg & H1 & H2 & H3 & H4 & Hj & H5 & H6 & H7) Eg Ej.
  exists gid, g, jid, j. split_and!; try done; by eapply lookup_weaken.
Qed.

Lemma schedule_on_node hash deviceId device done expiresAt nodeId actor now db r db' :
  issuing hash deviceId device done expiresAt db → nodeId ∉ done →
  scheduleInTransaction uuid hmac_sha256 (Some environment)
    {| si_nodeId := nodeId; si_deviceId := deviceId; si_expiresAt := expiresAt;
       si_syncJobIdempotencyKey := issue_key hash nodeId;
       si_outboxEventIdempotencyKey := issue_outbox_key hash nodeId; si_actorUserId := actor |} now db =
    (Ok r, db') →
  issuing hash deviceId device (nodeId :: done) expiresAt db' ∧ evolves db db' ∧
  db_devices db' = db_devices db ∧ db_subscriptions db' = db_subscriptions db.
Proof.
  intros [Hinv Hsrc Hdev Hdone Hacc] Hnew Hr.
  destruct (scheduleInTransaction_safe _ _ _ _ _ _ _ _ Hr Hinv) as (Hinv' & Hev & Hsch).
  assert (Hsrc' : sourced db').
  { pose proof (schedule_frame uuid hmac_sha256 (Some environment)) as Hf.
    eapply keeps_run in Hr; [|apply Hf]. by apply Hr. }
  unfold scheduleInTransaction, job_by_key, event_by_key in Hr. ok_inv Hr. simpl in Hr.
  set (input := {| si_nodeId := nodeId; si_deviceId := deviceId; si_expiresAt := expiresAt;
       si_syncJobIdempotencyKey := issue_key hash nodeId;
       si_outboxEventIdempotencyKey := issue_outbox_key hash nodeId; si_actorUserId := actor |}) in *.
  assert (Hex : schedule_existing input
      (db_jobKeys db !! issue_key hash nodeId ≫= λ id, db_jobs db !! id)
      (k ← db_eventKeys db !! issue_outbox_key hash nodeId; e ← db_events db !! ek_id k; Some (k, e)) db =
      (Ok r, db') → False).
  { intros Hx. destruct (schedule_existing_ok _ input _ _ _ _ _ Hinv eq_refl eq_refl Hx)
      as [-> ((g & Hg & Hgd) & Hk & (j & Hj & _ & _ & Hjg & _) & _)].
    destruct (Hdone _ _ _ _ _ Hk Hj Hjg Hg Hgd) as (n & Hn & E%issue_key_inj). by subst n. }
  destruct (db_jobKeys db !! issue_key hash nodeId ≫= _) as [j|]; [by apply Hex in Hr|].
  destruct (db_eventKeys db !! issue_outbox_key hash nodeId ≫= _) as [[k e]|]; [by apply Hex in Hr|].
  clear Hex. destruct (schedule_new_safe _ _ _ _ _ _ _ _ Hr Hinv) as (_ & _ & _ & Hfresh & _).
  apply schedule_new_grant in Hr as (g & Gn & Gd & Gs & Ge & Gv & Eg & Ej & Ek & Hjob & Ed & Es); [|done].
  simpl in *. split; [|done]. split; [done|done|by rewrite Ed| |].
  - intros key jobId j grantId g' Hk Hj Hjg Hg' Hd. rewrite Ek in Hk. rewrite Ej in Hj. rewrite Eg in Hg'.
    apply lookup_insert_Some in Hk as [[<- <-]|[Hnk Hk]]; [exists nodeId; split; [left|done]|].
    apply lookup_insert_Some in Hj as [[<- <-]|[Hnj Hj]].
    + exfalso. destruct (proj2 Hsrc _ _ Hk) as [? E]. by rewrite Hjob in E.
    + apply lookup_insert_Some in Hg' as [[<- <-]|[_ Hg']].
      * exfalso. destruct (proj1 Hsrc _ _ _ Hj Hjg) as [? E]. by rewrite Hfresh in E.
      * destruct (Hdone key jobId j grantId g' Hk Hj Hjg Hg' Hd) as (n & Hn & ->). exists n. split; [by right|done].
  - intros n [->|Hn]%elem_of_cons.
    + exists (sr_nodeAccessGrantId r), g, (sr_nodeSyncJobId r), (new_job (sr_nodeSyncJobId r) nodeId
        (GrantResource (sr_nodeAccessGrantId r)) (sr_targetVersion r) now).
      rewrite Eg, Ej, !lookup_insert_eq. by split_and!.
    + apply (access_pending_grows db); [by apply Hacc| |]; rewrite ?Eg, ?Ej; by apply insert_subseteq.
Qed.

(** The loop over the healthy nodes. *)
Lemma schedule_on_nodes hash deviceId device expiresAt actor now nodes done s u s' :
  issuing hash deviceId device done expiresAt (ac_control s) → NoDup nodes → (∀ n, n ∈ nodes → n ∉ done) →
  for_each nodes (λ nodeId,
    control (scheduleInTransaction uuid hmac_sha256 (Some environment)
      {| si_nodeId := nodeId; si_deviceId := deviceId; si_expiresAt := expiresAt;
         si_syncJobIdempotencyKey := issue_key hash nodeId;
         si_outboxEventIdempotencyKey := issue_outbox_key hash nodeId; si_actorUserId := actor |} now);;
    mret tt) s = (Ok u, s') →
  issuing hash deviceId device (reverse nodes ++ done) expiresAt (ac_control s') ∧
  evolves (ac_control s) (ac_control s') ∧
  db_devices (ac_control s') = db_devices (ac_control s) ∧
  db_subscriptions (ac_control s') = db_subscriptions (ac_control s) ∧
  ∃ db, s' = set_control (λ _, db) s.
Proof.
  revert done s. induction nodes as [|n nodes IH]; intros done s His Hnd Hout Hr.
  { simpl in Hr. ok_inv Hr. split_and!; [exact His|reflexivity|done|done|]. exists (ac_control s). by destruct s. }
  apply NoDup_cons in Hnd as [Hn Hnd]. cbn [for_each] in Hr. ok_inv Hr.
  match goal with Hc : control _ _ = _ |- _ => apply control_ok in Hc as (db & Hrun & ->) end.
  destruct (schedule_on_node _ _ _ _ _ _ _ _ _ _ _ His (Hout n ltac:(left)) Hrun) as (His' & Hev & Ed & Es).
  apply (IH (n :: done)) in Hr as (His2 & Hev2 & Ed2 & Es2 & db2 & E2).
  - destruct s as [db0]. simpl in *. rewrite reverse_cons, <- app_assoc. simpl.
    split_and!; [done|by etrans|congruence|congruence|]. exists db2. by rewrite E2.
  - by destruct s.
  - done.
  - intros k Hk [->|Hd]%elem_of_cons; [done|]. apply (Hout k); [by right|done].
Qed.

Lemma healthy_nodes_elem db nodeId :
  nodeId ∈ healthy_nodes db ↔ ∃ n, db_nodes db !! nodeId = Some n ∧ n_status n = NODE_HEALTHY.
Proof.
  unfold healthy_nodes. rewrite list_elem_of_fmap. split.
  - intros ([id n] & -> & Hin). rewrite by_id_elem, elem_of_map_to_list in Hin.
    apply map_lookup_filter_Some in Hin as [Hn Hst]. eauto.
  - intros (n & Hn & Hst). exists (nodeId, n). split; [done|].
    apply by_id_elem, elem_of_map_to_list, map_lookup_filter_Some. done.
Qed.
Lemma healthy_nodes_NoDup db : NoDup (healthy_nodes db).
Proof. apply by_id_NoDup, NoDup_fst_map_to_list. Qed.

(** A new device belongs to nobody's grants. *)
Lemma device_created_issuing hash deviceId device expiresAt db :
  Inv nothing db → sourced db → db_devices db !! deviceId = None →
  issuing hash deviceId device [] expiresAt (set_devices <[deviceId := device]> (set_drawn S db)).
Proof.
  intros Hinv Hsrc Hnew. pose proof (proj1 (drawn_inv _ _ Hinv)) as Hinv1. split.
  - refine (proj1 (device_inserted_inv deviceId device _ Hinv1 _)). by destruct db.
  - by destruct db.
  - destruct db. apply lookup_insert_eq.
  - intros key jobId j grantId g _ _ _ Hg Hd. exfalso.
    assert (Hg' : db_grants db !! grantId = Some g) by (by destruct db).
    destruct (iv_owners _ _ Hinv _ _ Hg') as (d & Hdev & _). congruence.
  - intros n Hn. by apply elem_of_nil in Hn.
Qed.

(** What a new issuance has checked, and made of the tables. *)
Record device_issued (s : Accounts) (userId hash token tokenPepper : string)
    (input : CreateCabinetDeviceRequest) (now : Z) (s' : Accounts) (deviceId : string) (device : Device)
    (x : SubscriptionWithPlan) (expiresAt : Z) : Prop := {
  dd_subscription : x ∈ user_subscriptions s userId;
  dd_entitled : gives_entitlement now x = true;
  dd_expiry : sb_expiresAt (wp_subscription x) = Some expiresAt;
  dd_limit : Z.of_nat (length (active_devices (ac_control s) userId)) < pl_deviceLimit (wp_plan x);
  dd_device : device = {| dv_userId := userId; dv_displayName := cd_displayName input;
    dv_platform := cd_platform input; dv_status := DEVICE_ACTIVE;
    dv_subscriptionTokenHash := hashToken hmac_sha256 token tokenPepper;
    dv_issuanceIdempotencyKeyHash := Some hash; dv_revokedAt := None; dv_createdAt := now |};
  dd_new : db_devices (ac_control s) !! deviceId = None;
  dd_devices : db_devices (ac_control s') = <[deviceId := device]> (db_devices (ac_control s));
  dd_subscriptions : db_subscriptions (ac_control s') = db_subscriptions (ac_control s);
  dd_somewhere : healthy_nodes (ac_control s) ≠ [];
  dd_access : ∀ nodeId n, db_nodes (ac_control s) !! nodeId = Some n → n_status n = NODE_HEALTHY →
    access_pending (ac_control s') deviceId expiresAt nodeId;
}.

Lemma issue_new_ok plus_days userId hash token tokenPepper input now s deviceId device s' :
  account_ok plus_days s → Inv nothing (ac_control s) →
  issue_new uuid hmac_sha256 environment userId hash token tokenPepper input now s =
    (Ok (deviceId, device), s') →
  ∃ x expiresAt, device_issued s userId hash token tokenPepper input now s' deviceId device x expiresAt.
Proof.
  intros Hok Hinv Hr. unfold issue_new in Hr. ok_inv Hr.
  destruct (List.find _ _) as [x|] eqn:Hx; [|done]. ok_inv Hr.
  apply List.find_some in Hx as [Hin%list_elem_of_In Hent]. apply bool_decide_eq_false in Hguard.
  apply Z.leb_gt in Hguard0.
  destruct (sb_expiresAt (wp_subscription x)) as [e|] eqn:He; [|done].
  exists x, e. unfold create_device in Hr. ok_inv Hr.
  apply device_create_ok in Hrun as (_ & Hnew & _ & _ & ->).
  apply control_ok in Hrun1 as (db & (rows & ->)%audit_ok & ->).
  subst s'. set (device := {| dv_userId := userId |}) in *.
  assert (Hcols : ac_control (set_control (set_devices <[a1 := device]>) (drawn s)) =
    set_devices <[a1 := device]> (set_drawn S (ac_control s))) by (by destruct s).
  apply (schedule_on_nodes hash a1 device e (Some userId) now _ []) in Hrun0
    as (His & _ & Ed & Es & db & E).
  - assert (Ectl : ac_control (set_control (λ _, set_audit (λ a, a ++ rows) (ac_control s1)) s1) =
      set_audit (λ a, a ++ rows) (ac_control s1)) by (by destruct s1).
    rewrite Hcols in Ed, Es. split; rewrite ?Ectl; try done.
    + transitivity (db_devices (ac_control s1)); [by destruct (ac_control s1)|].
      rewrite Ed. by destruct (ac_control s).
    + transitivity (db_subscriptions (ac_control s1)); [by destruct (ac_control s1)|].
      rewrite Es. by destruct (ac_control s).
    + intros nodeId n Hn Hst. apply (access_pending_grows (ac_control s1)).
      * apply (is_access _ _ _ _ _ _ His). rewrite app_nil_r. apply elem_of_reverse, healthy_nodes_elem. eauto.
      * by destruct (ac_control s1).
      * by destruct (ac_control s1).
  - rewrite Hcols. apply device_created_issuing; [done|by apply (ao_sourced _ _ Hok)|done].
  - apply healthy_nodes_NoDup.
  - intros n _ Hn. by apply elem_of_nil in Hn.
Qed.

(** The user's active devices are one more. *)
Lemma active_devices_insert db db' userId deviceId device :
  db_devices db' = <[deviceId := device]> (db_devices db) → db_devices db !! deviceId = None →
  dv_userId device = userId → dv_status device = DEVICE_ACTIVE →
  length (active_devices db' userId) = S (length (active_devices db userId)).
Proof using Type.
  intros E Hn Hu Hst. unfold active_devices, by_id. rewrite !length_fmap, !merge_sort_Permutation, E.
  rewrite map_filter_insert_True by done. rewrite map_to_list_insert; [done|].
  apply map_lookup_filter_None. by left.
Qed.

(** An issued device carries the request's key. *)
Definition issued_for (s : Accounts) (userId hash : string) (input : CreateCabinetDeviceRequest)
    (deviceId : string) (d : Device) : Prop :=
  db_devices (ac_control s) !! deviceId = Some d ∧ dv_userId d = userId ∧
  dv_displayName d = cd_displayName input ∧ dv_platform d = cd_platform input ∧
  dv_issuanceIdempotencyKeyHash d = Some hash.

Lemma issue_cases plus_days userId hash token tokenPepper input now s deviceId d s' :
  account_ok plus_days s → Inv nothing (ac_control s) →
  issueInTransaction uuid hmac_sha256 environment userId hash token tokenPepper input now s =
    (Ok (deviceId, d), s') →
  issued_for s' userId hash input deviceId d ∧
  (existing_device s hash = Some (deviceId, d) ∧ s' = s ∨
   existing_device s hash = None ∧
   ∃ x expiresAt, device_issued s userId hash token tokenPepper input now s' deviceId d x expiresAt).
Proof.
  intros Hok Hinv Hr. unfold issueInTransaction in Hr. ok_inv Hr.
  destruct (existing_device s hash) as [[id existing]|] eqn:Hex.
  - ok_inv Hr. apply negb_false_iff in Hguard. rewrite !andb_true_iff, !bool_decide_eq_true in Hguard.
    destruct Hguard as [[[Hu _] Hn] Hp]. subst s'. split; [|by left].
    unfold existing_device in Hex. apply find_row_Some in Hex as [Hd Hh%bool_decide_eq_true]. unfold issued_for. by split_and!.
  - destruct (issue_new_ok _ _ _ _ _ _ _ _ _ _ _ Hok Hinv Hr) as (x & e & Hi). split; [|right; eauto].
    unfold issued_for. rewrite (dd_devices _ _ _ _ _ _ _ _ _ _ _ _ Hi), lookup_insert_eq.
    by rewrite (dd_device _ _ _ _ _ _ _ _ _ _ _ _ Hi).
Qed.

(** Issued again, it is found while it is active. *)
Lemma issue_again plus_days userId hash token tokenPepper input now s deviceId d :
  account_ok plus_days s → issued_for s userId hash input deviceId d → dv_status d = DEVICE_ACTIVE →
  issueInTransaction uuid hmac_sha256 environment userId hash token tokenPepper input now s =
    (Ok (deviceId, d), s).
Proof.
  intros Hok (Hd & Hu & Hn & Hp & Hh) Hst. unfold issueInTransaction. rewrite bind_get.
  assert (Hex : existing_device s hash = Some (deviceId, d)).
  { apply find_row_unique; [done|by apply bool_decide_eq_true|]. intros id' x Hx Hxh%bool_decide_eq_true.
    by apply (ao_issuance _ _ Hok id' deviceId x d hash). }
  rewrite Hex, throw_if_pass; [done|]. by rewrite !bool_decide_eq_true_2.
Qed.
End issue.
