(* ===== verification/BotSafety.v ===== *)
(** * The bot's keys and nonces

    What provisioning and rotation store, which requests a stored key
    authenticates, how many keys of a principal are active, and how long Redis
    remembers a nonce. *)

From Stdlib Require Import Ascii.
From stdpp Require Import pretty.
From S2P Require Import Prelude.
From S2P Require Import Keeps.
From S2P Require Import Text.
From S2P Require Import Json.
From S2P Require Import Sql.
From S2P Require Import ControlPlane.
From S2P Require Import DataPlaneCredential.
From S2P Require Import ControlPlaneInvariant.
From S2P Require Import Base64Url.
From S2P Require Import BotSigningKey.
From S2P Require Import Accounts.
From S2P Require Import AccountInvariant.
From S2P Require Import BotRequests.
From S2P Require Import BotCredentials.
From S2P Require Import Trial.
From S2P Require Import AccountFrame.
Open Scope Z_scope.

(** ** Nonces *)

(** Redis over time: reservations, of any requests. *)
Inductive reserved : relation Reservations :=
| ReservedNow r : reserved r r
| ReservedLater key ttl now r r' : 0 <= ttl → reserved (reserveOnce key ttl now r).2 r' → reserved r r'.

Lemma reserveOnce_ok key ttl now r r' :
  reserveOnce key ttl now r = (true, r') → r' !! key = Some (now + ttl) ∧
  ∀ until, r !! key = Some until → until ≤ now.
Proof.
  unfold reserveOnce. destruct (r !! key) as [u|] eqn:Hu.
  - destruct (Z.ltb_spec now u); intros [= <-]. rewrite lookup_insert_eq. split; [done|].
    by intros ? [= <-].
  - intros [= <-]. rewrite lookup_insert_eq. by split.
Qed.

(** A reservation is never shortened. *)
Lemma reserved_until r r' key u0 :
  reserved r r' → r !! key = Some u0 → ∃ v, r' !! key = Some v ∧ u0 ≤ v.
Proof.
  intros Hr. revert u0. induction Hr as [r|key' ttl now r r' Httl _ IH]; intros u0 Hk; [by exists u0|].
  assert (Hnext : ∃ u, (reserveOnce key' ttl now r).2 !! key = Some u ∧ u0 ≤ u).
  { unfold reserveOnce. destruct (decide (key' = key)) as [->|Hne].
    - rewrite Hk. destruct (Z.ltb_spec now u0); simpl; [by exists u0|].
      rewrite lookup_insert_eq. eexists. split; [done|lia].
    - exists u0. split; [|done]. destruct (r !! key') as [u|]; [destruct (now <? u)|]; simpl;
        rewrite ?lookup_insert_ne; done. }
  destruct Hnext as (u & Hu & Hle). destruct (IH u Hu) as (u' & Hu' & Hle'). exists u'. split; [done|lia].
Qed.

(** ** Authentication *)

Section authentication.
Context `{Aes256Gcm} (hmac_bytes : list Z → string → list Z) (sha256_bytes : string → list Z).
Context (BOT_SIGNING_KEK : option string).
Notation authenticate := (authenticate hmac_bytes sha256_bytes BOT_SIGNING_KEK).
Notation signature_valid := (signature_valid hmac_bytes sha256_bytes).

(** A request that is let in: signed, in time, its nonce unused until now. *)
Lemma authenticate_ok s databaseNow redisNow r input request redis' :
  authenticate s databaseNow redisNow (Some r) input = (Ok (Some request), redis') →
  ∃ encodedKek credential r', BOT_SIGNING_KEK = Some encodedKek ∧
    ac_botCredentials s !! ba_credentialId input = Some credential ∧ bc_revokedAt credential = None ∧
    signature_valid encodedKek (ba_credentialId input) credential input = true ∧
    timestamp_fresh databaseNow (ba_timestamp input) = true ∧
    redis' = Some r' ∧
    reserveOnce (nonce_key (bc_principalId credential) (ba_nonce input)) NONCE_TTL_MS redisNow r = (true, r') ∧
    request = {| br_credentialId := ba_credentialId input; br_idempotencyKey := ba_idempotencyKey input;
       br_method := ba_method input; br_path := ba_path input; br_principalId := bc_principalId credential;
       br_requestHash := createBotRequestHash sha256_bytes input;
       br_telegramUserId := ba_telegramUserId input |}.
Proof.
  unfold BotRequests.authenticate. destruct BOT_SIGNING_KEK as [kek|]; [|done].
  destruct (ac_botCredentials s !! _) as [c|]; [|done].
  destruct (is_null (bc_revokedAt c)) eqn:Hn; [|done]. apply is_null_true in Hn. simpl.
  destruct (BotRequests.signature_valid _ _ _ _ _ _) eqn:Hv; [|done]. simpl.
  destruct (timestamp_fresh _ _) eqn:Ht; [|done]. simpl.
  destruct (reserveOnce _ _ _ _) as [[] r'] eqn:Hr; [|done].
  intros [= <- <-]. exists kek, c, r'. by split_and!.
Qed.

Lemma authenticate_forward s databaseNow redisNow r input encodedKek credential r' :
  BOT_SIGNING_KEK = Some encodedKek →
  ac_botCredentials s !! ba_credentialId input = Some credential → bc_revokedAt credential = None →
  signature_valid encodedKek (ba_credentialId input) credential input = true →
  timestamp_fresh databaseNow (ba_timestamp input) = true →
  reserveOnce (nonce_key (bc_principalId credential) (ba_nonce input)) NONCE_TTL_MS redisNow r = (true, r') →
  authenticate s databaseNow redisNow (Some r) input =
    (Ok (Some {| br_credentialId := ba_credentialId input; br_idempotencyKey := ba_idempotencyKey input;
       br_method := ba_method input; br_path := ba_path input; br_principalId := bc_principalId credential;
       br_requestHash := createBotRequestHash sha256_bytes input;
       br_telegramUserId := ba_telegramUserId input |}), Some r').
Proof.
  intros Hk Hc Hn Hv Ht Hr. unfold BotRequests.authenticate. by rewrite Hk, Hc, Hn, Hv, Ht, Hr.
Qed.

(** The second of two requests with the same timestamp and nonce comes too
    late or too early: at most 60 seconds of the database's clock lie between
    them, and Redis remembers for 120. *)
Lemma authenticate_twice s1 s2 databaseNow1 databaseNow2 redisNow1 redisNow2 r1 r2 r3 input a c1 c2 :
  ac_botCredentials s1 !! ba_credentialId input = Some c1 →
  ac_botCredentials s2 !! ba_credentialId input = Some c2 → bc_principalId c2 = bc_principalId c1 →
  authenticate s1 databaseNow1 redisNow1 (Some r1) input = (Ok (Some a), Some r2) →
  reserved r2 r3 →
  Z.abs (databaseNow1 - redisNow1) < 30000 → Z.abs (databaseNow2 - redisNow2) < 30000 →
  (authenticate s2 databaseNow2 redisNow2 (Some r3) input).1 = Ok None.
Proof.
  intros Hc1 Hc2 Hp H1 Hres Hs1 Hs2. apply authenticate_ok in H1 as (kek & c & r' & _ & Hc & _ & _ & Ht1 & [= <-] & Hr & _).
  assert (c = c1) as -> by congruence. apply reserveOnce_ok in Hr as [Hk _].
  destruct (reserved_until _ _ _ _ Hres Hk) as (u & Hu & Hle).
  destruct (authenticate s2 databaseNow2 redisNow2 (Some r3) input) as [[[a2|]|e] redis2] eqn:H2; [|done|].
  - exfalso. apply authenticate_ok in H2 as (kek2 & c & r4 & _ & Hc' & _ & _ & Ht2 & _ & Hr2 & _).
    assert (c = c2) as -> by congruence. rewrite Hp in Hr2. apply reserveOnce_ok in Hr2 as [_ Hend].
    specialize (Hend u Hu). unfold timestamp_fresh in Ht1, Ht2. unfold NONCE_TTL_MS in Hle.
    apply Z.leb_le in Ht1, Ht2. lia.
  - exfalso. revert H2. unfold BotRequests.authenticate. destruct BOT_SIGNING_KEK; [|done].
    destruct (ac_botCredentials s2 !! _); [|done]. destruct (negb _); [done|]. destruct (negb _); [done|].
    destruct (negb _); [done|]. by destruct (reserveOnce _ _ _ _).
Qed.
End authentication.

(** ** Keys *)

Section keys.
Context (uuid : nat → string) `{Aes256Gcm} (hmac_bytes : list Z → string → list Z).

Lemma validate_pure input s v s' : validateChangeInput input s = (Ok v, s') → s' = s.
Proof using Type.
  unfold validateChangeInput, fail. destruct (negb _); [done|]. destruct (_ || _); [done|]. by intros [= _ <-].
Qed.

Lemma validate_value input s v s' : validateChangeInput input s = (Ok v, s') →
  v = {| ci_principalName := trim (ci_principalName input); ci_reason := trim (ci_reason input) |}.
Proof using Type.
  unfold validateChangeInput, fail. intros Hv. destruct (negb _) in Hv; [discriminate Hv|].
  destruct (_ || _) in Hv; [discriminate Hv|]. by injection Hv as <-.
Qed.

(** The credential as it is stored: sealed for itself. *)
Definition sealed_as (s : Accounts) (encodedKek : string) (m : BotCredentialMaterial) : Prop :=
  ∃ c, ac_botCredentials s !! ma_credentialId m = Some c ∧ bc_principalId c = ma_principalId m ∧
    bc_keyVersion c = ma_keyVersion m ∧
    decryptBotSigningKey {| bk_keyCiphertext := bc_keyCiphertext c; bk_nonce := bc_nonce c |} encodedKek
      {| bk_credentialId := ma_credentialId m; bk_principalId := bc_principalId c;
         bk_keyVersion := bc_keyVersion c |} = Some (ma_signingKey m).

Lemma store_key_ok credentialId principalId version signingKey encodedKek nonce s u s' :
  store_key credentialId principalId version signingKey encodedKek nonce s = (Ok u, s') →
  ∃ c, bc_principalId c = principalId ∧ bc_keyVersion c = version ∧ bc_revokedAt c = None ∧
    ac_botCredentials s !! credentialId = None ∧ s' = set_botCredentials <[credentialId := c]> s ∧
    (∀ id x, ac_botCredentials s !! id = Some x → bc_principalId x = principalId → bc_keyVersion x ≠ version) ∧
    encryptBotSigningKey signingKey encodedKek
      {| bk_credentialId := credentialId; bk_principalId := principalId; bk_keyVersion := version |} nonce =
      Some {| bk_keyCiphertext := bc_keyCiphertext c; bk_nonce := bc_nonce c |}.
Proof using Type.
  unfold store_key, fail. destruct (encryptBotSigningKey _ _ _ _) as [e|] eqn:He; [|done].
  intros (_ & Hn & Hu & _ & ->)%credential_create_ok.
  exists {| bc_principalId := principalId; bc_keyCiphertext := bk_keyCiphertext e; bc_nonce := bk_nonce e;
            bc_keyVersion := version; bc_revokedAt := None |}.
  split_and!; try done. by destruct e.
Qed.

(** What provisioning and rotation change. *)
Record key_issued (s : Accounts) (encodedKek : string) (signingKey nonce : list Z)
    (s' : Accounts) (m : BotCredentialMaterial) (c : BotServiceCredential) : Prop := {
  ki_key : ma_signingKey m = signingKey;
  ki_credentials : ac_botCredentials s' = <[ma_credentialId m := c]> (ac_botCredentials s);
  ki_fresh : ac_botCredentials s !! ma_credentialId m = None;
  ki_principal : bc_principalId c = ma_principalId m;
  ki_version : bc_keyVersion c = ma_keyVersion m;
  ki_active : bc_revokedAt c = None;
  ki_others : (length (active_credentials s (ma_principalId m)) ≤ 1)%nat;
  ki_sealed : encryptBotSigningKey signingKey encodedKek
    {| bk_credentialId := ma_credentialId m; bk_principalId := ma_principalId m;
       bk_keyVersion := ma_keyVersion m |} nonce =
    Some {| bk_keyCiphertext := bc_keyCiphertext c; bk_nonce := bc_nonce c |};
}.

(** A principal nobody has a credential of. *)
Lemma no_credentials plus_days s principalId :
  account_ok plus_days s → ac_principals s !! principalId = None → active_credentials s principalId = [].
Proof using Type.
  intros Hok Hn. destruct (active_credentials s principalId) as [|c l] eqn:Hc; [done|exfalso].
  assert (Hin : c ∈ active_credentials s principalId) by (rewrite Hc; left).
  unfold active_credentials, credentials_of in Hin. apply list_elem_of_filter in Hin as [_ Hin].
  apply rows_where in Hin as (id & Hid & Hp%bool_decide_eq_true).
  destruct (ao_owners _ _ Hok id c Hid) as [p Hpp]. rewrite Hp in Hpp. congruence.
Qed.

Lemma credential_audit_same action credentialId version principalId reason s u s' :
  writeCredentialAudit action credentialId version principalId reason s = (Ok u, s') →
  ac_botCredentials s' = ac_botCredentials s.
Proof using Type. intros (db & _ & ->)%control_ok. by destruct s. Qed.

Lemma active_same s s' principalId :
  ac_botCredentials s' = ac_botCredentials s → active_credentials s' principalId = active_credentials s principalId.
Proof using Type. unfold active_credentials, credentials_of. by intros ->. Qed.

Lemma provision_ok plus_days encodedKek input signingKey nonce s m s' :
  account_ok plus_days s → provisionBotCredential uuid encodedKek input signingKey nonce s = (Ok m, s') →
  ∃ c, key_issued s encodedKek signingKey nonce s' m c.
Proof using Type.
  intros Hok Hr. unfold provisionBotCredential, fail in Hr. ok_inv Hr.
  apply validate_pure in Hrun as ->. apply account_uuid_ok in Hrun0 as [_ ->].
  destruct (principal_by_name _ _) as [principalId|].
  - destruct (active_credentials _ _) as [|x l] eqn:Hact; [|done]. ok_inv Hr.
    apply store_key_ok in Hrun as (c & Hp & Hv & Hn & Hf & -> & _ & Henc).
    apply credential_audit_same in Hrun0. exists c. destruct s as [db]. simpl in *.
    split; simpl; try done. unfold active_credentials, credentials_of in *. simpl in *. rewrite Hact. simpl. lia.
  - ok_inv Hr. apply account_uuid_ok in Hrun as [_ ->].
    apply principal_create_ok in Hrun0 as (Hnew & _ & ->).
    apply store_key_ok in Hrun1 as (c & Hp & Hv & Hn & Hf & -> & _ & Henc).
    apply credential_audit_same in Hrun2. exists c.
    assert (Hnone : ac_principals s !! bc_principalId c = None) by (rewrite Hp; by destruct s).
    pose proof (no_credentials _ _ _ Hok Hnone) as Hact. rewrite Hp in Hact.
    destruct s as [db]. simpl in *. split; simpl; try done.
    unfold active_credentials, credentials_of in *. simpl in *. rewrite Hact. simpl. lia.
Qed.

Lemma rotate_key_ok encodedKek input signingKey nonce s m s' :
  rotateBotCredential uuid encodedKek input signingKey nonce s = (Ok m, s') →
  ∃ c, key_issued s encodedKek signingKey nonce s' m c.
Proof using Type.
  intros Hr. unfold rotateBotCredential, fail in Hr. ok_inv Hr.
  apply validate_pure in Hrun as ->. apply account_uuid_ok in Hrun0 as [_ ->].
  destruct (principal_by_name _ _ ≫= _) as [[principalId latest]|]; [|done].
  destruct (active_credentials _ _) as [|x [|y l]] eqn:Hact; [done| |done]. ok_inv Hr.
  apply store_key_ok in Hrun as (c & Hp & Hv & Hn & Hf & -> & _ & Henc).
  apply credential_audit_same in Hrun0. exists c. destruct s as [db]. simpl in *.
  split; simpl; try done. unfold active_credentials, credentials_of in *. simpl in *. by rewrite Hact.
Qed.

(** The number of active credentials. *)
Lemma active_insert s s' id c principalId :
  ac_botCredentials s' = <[id := c]> (ac_botCredentials s) → ac_botCredentials s !! id = None →
  length (active_credentials s' principalId) =
    ((if decide (bc_principalId c = principalId ∧ bc_revokedAt c = None) then 1 else 0) +
     length (active_credentials s principalId))%nat.
Proof using Type.
  intros E Hn. unfold active_credentials, credentials_of, rows, sql_where. rewrite E.
  destruct (decide (bc_principalId c = principalId)) as [Hp|Hp].
  - rewrite map_filter_insert_True by (by apply bool_decide_eq_true).
    rewrite map_to_list_insert by (apply map_lookup_filter_None; by left). rewrite fmap_cons, filter_cons. simpl.
    destruct (decide (bc_revokedAt c = None)); [by rewrite decide_True|rewrite decide_False; naive_solver].
  - rewrite map_filter_insert_False by (by rewrite bool_decide_eq_false_2).
    rewrite delete_id by done. rewrite decide_False; [done|naive_solver].
Qed.

Definition few_active (s : Accounts) : Prop := ∀ principalId, (length (active_credentials s principalId) ≤ 2)%nat.

Lemma key_issued_few s encodedKek signingKey nonce s' m c :
  key_issued s encodedKek signingKey nonce s' m c → few_active s → few_active s'.
Proof using Type.
  intros [_ E Hf Hp _ _ Hone _] Hfew principalId. rewrite (active_insert _ _ _ _ principalId E Hf).
  destruct (decide _) as [[Hpp _]|_]; [|by specialize (Hfew principalId)].
  assert (ma_principalId m = principalId) as <- by congruence. lia.
Qed.
Lemma revoked_few s id c now :
  ac_botCredentials s !! id = Some c → few_active s →
  few_active (set_botCredentials <[id := revoke_credential now c]> s).
Proof using Type.
  intros Hc Hfew principalId. set (s0 := set_botCredentials (delete id) s).
  assert (H0 : ac_botCredentials s0 !! id = None) by (subst s0; destruct s; apply lookup_delete_eq).
  rewrite (active_insert s0 _ id (revoke_credential now c)); [|subst s0; destruct s; simpl; by rewrite insert_delete_eq|done].
  rewrite decide_False by (by intros [_ ?]). specialize (Hfew principalId).
  rewrite (active_insert s0 s id c) in Hfew; [lia| |done].
  subst s0. destruct s. simpl in *. by rewrite insert_delete_id.
Qed.

(** A change that throws leaves the credentials; so does revoking one that is
    revoked. *)
Notation same_keys := (same ac_botCredentials).
Lemma validate_keeps_keys input : keeps same_keys (validateChangeInput input).
Proof using Type. unfold validateChangeInput, fail. keeps. Qed.
Lemma uuid_keeps_keys : keeps same_keys (account_uuid uuid).
Proof using Type. intros s. by destruct s. Qed.

Lemma provision_undone encodedKek input signingKey nonce :
  undone same_keys (provisionBotCredential uuid encodedKek input signingKey nonce).
Proof using Type.
  apply undone_bind; [apply _|apply validate_keeps_keys|intros v].
  apply undone_bind; [apply _|apply uuid_keeps_keys|intros id]. apply undone_atomically, _.
Qed.
Lemma rotate_undone encodedKek input signingKey nonce :
  undone same_keys (rotateBotCredential uuid encodedKek input signingKey nonce).
Proof using Type.
  apply undone_bind; [apply _|apply validate_keeps_keys|intros v].
  apply undone_bind; [apply _|apply uuid_keeps_keys|intros id]. apply undone_atomically, _.
Qed.
Lemma revoke_undone is_uuid input selector protected now :
  undone same_keys (revokeBotCredential is_uuid input selector protected now).
Proof using Type.
  apply undone_bind; [apply _|apply validate_keeps_keys|intros v]. unfold fail.
  apply undone_bind; [apply _|keeps|intros _]. apply undone_bind; [apply _|keeps|intros _].
  apply undone_atomically, _.
Qed.

Lemma revoke_key_ok is_uuid input selector protected now s r s' :
  revokeBotCredential is_uuid input selector protected now s = (Ok r, s') →
  ac_botCredentials s' = ac_botCredentials s ∧ r.1 = false ∨
  ∃ id c, ac_botCredentials s !! id = Some c ∧ bc_revokedAt c = None ∧ r = (true, bc_keyVersion c) ∧
    selected selector id c = true ∧ protected ≠ Some id ∧
    bp_name <$> ac_principals s !! bc_principalId c = Some (trim (ci_principalName input)) ∧
    ac_botCredentials s' = ac_botCredentials (set_botCredentials <[id := revoke_credential now c]> s).
Proof using Type.
  intros H'. unfold revokeBotCredential, fail in H'. ok_inv H'.
  apply validate_value in Hrun as Ha. subst a.
  apply validate_pure in Hrun as ->.
  lazymatch type of Hrun0 with (if ?b then _ else _) _ = _ => destruct b; ok_inv Hrun0 end.
  lazymatch type of Hrun1 with (if ?b then _ else _) _ = _ => destruct b; ok_inv Hrun1 end.
  destruct (head _) as [[id c]|] eqn:Hh; [|ok_inv H']. case_bool_decide as Hprot; [ok_inv H'|].
  destruct (is_null (bc_revokedAt c)) eqn:Hn; simpl in H'; [|ok_inv H'; by left].
  apply head_Some_elem_of, list_elem_of_filter in Hh as [[Hsel Hp] Hc%elem_of_map_to_list].
  ok_inv H'. apply credential_audit_same in Hrun. right. exists id, c. simpl in *.
  apply is_null_true in Hn. by split_and!.
Qed.
End keys.
