(* ===== verification/LoginSafety.v ===== *)
(** * What the operations of a login do

    The rows that issuing a launch link, beginning, confirming and completing
    a login make, whatever the operation answers. *)

From Stdlib Require Import QArith.
From S2P Require Import Prelude.
From S2P Require Import Keeps.
From S2P Require Import Json.
From S2P Require Import Sql.
From S2P Require Import NodeAgentContract.
From S2P Require Import XrayAccess.
From S2P Require Import ControlPlane.
From S2P Require Import DataPlaneCredential.
From S2P Require Import ControlPlaneInvariant.
From S2P Require Import Base64Url.
From S2P Require Import BotSigningKey.
From S2P Require Import TelegramInitData.
From S2P Require Import Accounts.
From S2P Require Import AccountInvariant.
From S2P Require Import BotRequests.
From S2P Require Import Trial.
From S2P Require Import Cabinet.
From S2P Require Import Login.
From S2P Require Import AccountSystem.
Open Scope Z_scope.

(** A request whose operation ran, or that changed nothing. *)
Lemma execute_cases request operation now s :
  (execute request operation now s).2 = s ∨
  ∃ response s1 f g, operation (set_requests f s) = (Ok response, s1) ∧
    (execute request operation now s).2 = set_requests g s1.
Proof.
  destruct (execute request operation now s) as [[r|e] s'] eqn:He; simpl;
    [|left; by apply atomically_throw_inv in He].
  apply request_executed_ok in He as (_ & [(_ & _ & -> & _)|(response & s1 & _ & Hop & _ & _ & ->)]); [by left|].
  right. by eexists response, s1, _, _.
Qed.

(** The tables of a login. *)
Definition login_tables (s : Accounts) := (ac_challenges s, ac_pendingLogins s, ac_sessions s, ac_users s).

Section login.
Context (uuid : nat → string) `{LocaleCompare} `{DateStrings}.
Context (hmac_key : list Z → string → list Z) (hmac_sha256 : string → string → list Z).
Context (is_uuid is_datetime : string → bool) (JSON_parse : string → option json) (Number_toString : Q → string).
Context (safe_integer : string → option Z) (AUTH_SESSION_PEPPER TELEGRAM_WEB_APP_VALIDATION_KEY : option string).
Context (TELEGRAM_INIT_DATA_MAX_AGE_SECONDS AUTH_SESSION_TTL_SECONDS AUTH_PRELAUNCH_RATE_LIMIT_MAX : Z).
Notation verify := (verify hmac_key JSON_parse Number_toString safe_integer TELEGRAM_INIT_DATA_MAX_AGE_SECONDS).

Lemma auth_allowed_ok attempts s u s' :
  auth_allowed AUTH_PRELAUNCH_RATE_LIMIT_MAX attempts s = (Ok u, s') → s' = s.
Proof using Type.
  unfold auth_allowed, assert_allowed. destruct attempts; [|done]. by intros [_ ->]%throw_if_ok_inv.
Qed.

(** A launch link: a challenge of the user whose bot asked for it. *)
Record challenge_issued (s : Accounts) (telegramUserId launchId : string) (s' : Accounts)
    (id : string) (c : AuthChallenge) (userId : string) : Prop := {
  ci_fresh : ac_challenges s !! id = None;
  ci_tables : login_tables s' =
    (<[id := c]> (ac_challenges s), ac_pendingLogins s, ac_sessions s, ac_users s);
  ci_launch : au_launchId c = launchId;
  ci_unused : au_sessionId c = None ∧ au_consumedAt c = None;
  ci_user : au_userId c = Some userId;
  ci_telegram : us_telegramUserId <$> ac_users s !! userId = Some telegramUserId;
}.

Lemma issueChallenge_cases request attempts launchId secret now s :
  let s' := (issueChallenge uuid hmac_sha256 is_datetime AUTH_SESSION_PEPPER AUTH_PRELAUNCH_RATE_LIMIT_MAX
               request attempts launchId secret now s).2 in
  s' = s ∨ ∃ id c userId, challenge_issued s (br_telegramUserId request) launchId s' id c userId.
Proof using Type.
  cbv zeta. unfold issueChallenge. destruct (truthy _) as [pepper|]; [|by left].
  rewrite then_same by (intros r; keeps).
  lazymatch goal with |- context[execute ?r ?op ?n s] => destruct (execute_cases r op n s) as [->|Hc]; [by left|] end.
  destruct Hc as (response & s1 & f & g & Hop & ->). right. ok_inv Hop.
  apply auth_allowed_ok in Hrun as ->. unfold issueChallengeInTransaction in Hop. ok_inv Hop.
  destruct (find_row _ _) as [[userId u]|] eqn:Hu; [|done]. ok_inv Hop.
  apply find_row_Some in Hu as [Hu Ht%bool_decide_eq_true].
  apply challenge_create_ok in Hrun as (_ & Hn & _ & _ & ->).
  destruct s. simpl in *. eexists _, _, userId. split; simpl; try done. by rewrite Hu, <- Ht.
Qed.
(** A login the page began with data that Telegram signed, for a challenge
    that is there. *)
Record login_begun (s : Accounts) (proof : VerifiedTelegramInitData) (secret code pepper : string)
    (now : Z) (s' : Accounts) (id : string) (p : PendingLogin) (c : AuthChallenge) : Prop := {
  lb_fresh : ac_pendingLogins s !! id = None;
  lb_tables : login_tables s' =
    (ac_challenges s, <[id := p]> (ac_pendingLogins s), ac_sessions s, ac_users s);
  lb_challenge : ac_challenges s !! pe_challengeId p = Some c;
  lb_launch : au_launchId c = vi_startParam proof;
  lb_user : au_userId c = Some (pe_userId p);
  lb_telegram : us_telegramUserId <$> ac_users s !! pe_userId p = Some (pe_telegramUserId p);
  lb_proof : pe_telegramUserId p = vi_id proof;
  lb_token : pe_pendingTokenHash p = hashPendingSecret hmac_sha256 secret pepper;
  lb_code : pe_confirmationCodeHash p = hashConfirmationCode hmac_sha256 (vi_id proof) code pepper;
  lb_status : pe_status p = AWAITING_BOT_CONFIRM;
  lb_open : login_open s p now = true;
}.

Lemma beginInTransaction_ok initData key pepper proof secret code now s r s' :
  beginInTransaction uuid hmac_key hmac_sha256 is_datetime JSON_parse Number_toString safe_integer
    TELEGRAM_INIT_DATA_MAX_AGE_SECONDS initData key pepper proof secret code now s = (Ok r, s') →
  verify initData key now = Some proof ∧ ∃ id p c, login_begun s proof secret code pepper now s' id p c.
Proof using Type.
  unfold beginInTransaction. intros Hr. ok_inv Hr.
  destruct (challenge_by_launch _ _) as [[cid c]|] eqn:Hc; [|done].
  destruct (Login.verify _ _ _ _ _ _ _ _) as [auth|] eqn:Hv; [|done].
  destruct (au_userId c) as [userId|] eqn:Hu; [|done]. ok_inv Hr.
  apply find_row_Some in Hc as [Hc Hl%bool_decide_eq_true].
  apply orb_false_iff in Hguard as [Hguard Hexp%Z.leb_gt]. apply negb_false_iff in Hguard.
  rewrite !andb_true_iff, !bool_decide_eq_true, is_null_true in Hguard.
  destruct Hguard as [[-> Ht] Hopen]. split; [done|].
  apply pending_create_ok in Hrun as (_ & Hn & _ & _ & _ & ->). simpl in *.
  eexists _, _, c. destruct s. split; simpl in *; try done.
  unfold login_open. simpl. rewrite Hc, Hopen. simpl.
  rewrite !andb_true_iff, !Z.ltb_lt. split_and!; try done. unfold PENDING_LOGIN_TTL_MS. lia.
Qed.

Lemma begin_attempts_cases initData key pepper proof material s :
  let s' := (begin_attempts uuid hmac_key hmac_sha256 is_datetime JSON_parse Number_toString safe_integer
    TELEGRAM_INIT_DATA_MAX_AGE_SECONDS initData key pepper proof material s).2 in
  s' = s ∨ ∃ secret code now id p c, (secret, code, now) ∈ material ∧ verify initData key now = Some proof ∧
    login_begun s proof secret (createCrockfordCode code) pepper now s' id p c.
Proof using Type.
  cbv zeta. induction material as [|[[secret code] now] rest IH]; simpl; [by left|].
  unfold try_catch.
  lazymatch goal with |- context[atomically ?m] => set (attempt := m) end.
  destruct (attempt s) as [[r|e] s1] eqn:Hr.
  - assert (Ha : atomically attempt s = (Ok r, s1)) by (unfold atomically; by rewrite Hr).
    rewrite (bind_ok _ _ _ _ _ Ha). right. apply beginInTransaction_ok in Hr as (Hv & id & p & c & Hb).
    exists secret, code, now, id, p, c. split_and!; [left|done|done].
  - assert (Ha : atomically attempt s = (Throw e, s)) by (unfold atomically; by rewrite Hr).
    rewrite (bind_throw _ _ _ _ _ Ha).
    destruct e as [| | | | | |[|[]]]; try (by left); destruct IH as [?|(secret' & code' & now' & id & p & c & Hin & ?)];
      [by left|right; exists secret', code', now', id, p, c; split; [by right|done]].
Qed.

Lemma beginLogin_cases initData processNow attempts material s :
  let s' := (beginLogin uuid hmac_key hmac_sha256 is_datetime JSON_parse Number_toString safe_integer
    AUTH_SESSION_PEPPER TELEGRAM_WEB_APP_VALIDATION_KEY TELEGRAM_INIT_DATA_MAX_AGE_SECONDS
    AUTH_PRELAUNCH_RATE_LIMIT_MAX initData processNow attempts material s).2 in
  s' = s ∨ ∃ pepper key proof secret code now id p c,
    truthy AUTH_SESSION_PEPPER = Some pepper ∧ truthy TELEGRAM_WEB_APP_VALIDATION_KEY = Some key ∧
    (secret, code, now) ∈ material ∧ verify initData key now = Some proof ∧
    login_begun s proof secret (createCrockfordCode code) pepper now s' id p c.
Proof using Type.
  cbv zeta. unfold beginLogin. destruct (truthy TELEGRAM_WEB_APP_VALIDATION_KEY) as [key|]; [|by left].
  destruct (truthy AUTH_SESSION_PEPPER) as [pepper|]; [|by left].
  destruct (Login.verify _ _ _ _ _ _ _ processNow) as [proof|]; [|by left].
  destruct (auth_allowed AUTH_PRELAUNCH_RATE_LIMIT_MAX attempts s) as [[u|e] s1] eqn:Ha.
  - apply auth_allowed_ok in Ha as Hs. subst s1. rewrite (bind_ok _ _ _ _ _ Ha).
    destruct (begin_attempts_cases initData key pepper proof material s) as [Hs|Hs]; [by left|right].
    destruct Hs as (secret & code & now & id & p & c & Hs). by exists pepper, key, proof, secret, code, now, id, p, c.
  - rewrite (bind_throw _ _ _ _ _ Ha). left. revert Ha. unfold auth_allowed, assert_allowed.
    destruct attempts as [n|]; [|by intros [= _ <-]]. unfold throw_if. destruct (_ <? n); by intros [= _ <-].
Qed.

(** A login the bot confirmed: the code it was sent. *)
Record login_confirmed (s : Accounts) (telegramUserId code pepper : string) (now : Z)
    (s' : Accounts) (id : string) (p : PendingLogin) : Prop := {
  lc_pending : ac_pendingLogins s !! id = Some p;
  lc_telegram : pe_telegramUserId p = telegramUserId;
  lc_code : pe_confirmationCodeHash p = hashConfirmationCode hmac_sha256 telegramUserId code pepper;
  lc_status : pe_status p = AWAITING_BOT_CONFIRM;
  lc_open : login_open s p now = true;
  lc_tables : login_tables s' =
    (ac_challenges s, <[id := with_pending_status BOT_CONFIRMED (Some now) (pe_consumedAt p) p]>
                        (ac_pendingLogins s), ac_sessions s, ac_users s);
}.

Lemma confirm_cases request attempts code now s :
  let s' := (confirm hmac_sha256 AUTH_SESSION_PEPPER AUTH_PRELAUNCH_RATE_LIMIT_MAX
               request attempts code now s).2 in
  s' = s ∨ ∃ pepper id p, truthy AUTH_SESSION_PEPPER = Some pepper ∧
    login_confirmed s (br_telegramUserId request) code pepper now s' id p.
Proof using Type.
  cbv zeta. unfold confirm. destruct (truthy _) as [pepper|]; [|by left].
  rewrite then_same by (intros r; keeps).
  lazymatch goal with |- context[execute ?r ?op ?n s] => destruct (execute_cases r op n s) as [->|Hc]; [by left|] end.
  destruct Hc as (response & s1 & f & g & Hop & ->). right. ok_inv Hop.
  apply auth_allowed_ok in Hrun as ->. unfold confirmInTransaction in Hop. ok_inv Hop.
  destruct (filter _ _) as [|[id p] [|]] eqn:Hf; [done| |done].
  assert (Hin : (id, p) ∈ [(id, p)]) by left. rewrite <- Hf in Hin. clear Hf.
  apply list_elem_of_filter in Hin as [Ha Hp%elem_of_map_to_list]. simpl in Ha.
  unfold awaiting in Ha. rewrite !andb_true_iff, !bool_decide_eq_true in Ha. ok_inv Hop.
  apply pending_update_ok in Hrun as (old & Hold & _ & ->). assert (old = p) as -> by congruence.
  apply orb_false_iff in Hguard as [Hopen%negb_false_iff _].
  exists pepper, id, p. split; [done|]. destruct s. simpl in *. destruct Ha as [[? ?] ?]. by split.
Qed.

(** A confirmed login the page completed: a session, and its challenge used. *)
Record login_completed (s : Accounts) (secret sessionSecret pepper : string) (now : Z)
    (s' : Accounts) (sessionId pendingId : string) (x : UserSession) (p : PendingLogin)
    (c c' : AuthChallenge) : Prop := {
  lo_pending : ac_pendingLogins s !! pendingId = Some p;
  lo_token : pe_pendingTokenHash p = hashPendingSecret hmac_sha256 secret pepper;
  lo_status : pe_status p = BOT_CONFIRMED;
  lo_open : login_open s p now = true;
  lo_telegram : us_telegramUserId <$> ac_users s !! pe_userId p = Some (pe_telegramUserId p);
  lo_fresh : ac_sessions s !! sessionId = None;
  lo_user : ss_userId x = pe_userId p;
  lo_session : ss_tokenHash x = hashSessionSecret hmac_sha256 sessionSecret pepper;
  lo_active : ss_revokedAt x = None ∧ ss_expiresAt x = now + AUTH_SESSION_TTL_SECONDS * 1000;
  lo_challenge : ac_challenges s !! pe_challengeId p = Some c;
  lo_launch : au_launchId c' = au_launchId c ∧ au_userId c' = au_userId c;
  lo_used : au_sessionId c' = Some sessionId;
  lo_tables : login_tables s' =
    (<[pe_challengeId p := c']> (ac_challenges s),
     <[pendingId := with_pending_status CONSUMED (pe_confirmedAt p) (Some now) p]> (ac_pendingLogins s),
     <[sessionId := x]> (ac_sessions s), ac_users s);
}.

Lemma completeInTransaction_ok secret pepper sessionSecret now s r s' :
  completeInTransaction uuid hmac_sha256 is_uuid is_datetime AUTH_SESSION_TTL_SECONDS secret pepper sessionSecret now s =
    (Ok r, s') →
  ∃ sessionId pendingId x p c c', login_completed s secret sessionSecret pepper now s' sessionId pendingId x p c c' ∧
    r = {| as_userId := ss_userId x; as_expiresAt := ss_expiresAt x |}.
Proof using Type.
  unfold completeInTransaction. intros Hr. ok_inv Hr.
  destruct (find_row _ _) as [[id p]|] eqn:Hf; [|done]. ok_inv Hr.
  apply find_row_Some in Hf as [Hp Htok%bool_decide_eq_true].
  apply negb_false_iff in Hguard. apply andb_prop in Hguard as [Hopen Hst%bool_decide_eq_true].
  apply negb_false_iff, bool_decide_eq_true in Hguard0.
  apply session_create_ok in Hrun as (Hn & _ & _ & ->).
  apply pending_update_ok in Hrun0 as (old & Hold & _ & ->).
  assert (old = p) as ->. { destruct s. simpl in *. congruence. }
  apply challenge_consume_ok in Hrun1 as (c & Hc & _ & _ & _ & ->).
  set (x := {| ss_userId := pe_userId p |}) in *.
  set (c' := {| au_launchId := au_launchId c |}) in *. eexists _, id, x, p, c, c'. split; [|done].
  destruct s. simpl in *. by split.
Qed.

Lemma complete_cases secret sessionSecret now s :
  let s' := (complete uuid hmac_sha256 is_uuid is_datetime AUTH_SESSION_PEPPER AUTH_SESSION_TTL_SECONDS
               secret sessionSecret now s).2 in
  s' = s ∨ ∃ pepper sessionId pendingId x p c c', truthy AUTH_SESSION_PEPPER = Some pepper ∧
    login_completed s secret sessionSecret pepper now s' sessionId pendingId x p c c'.
Proof using Type.
  cbv zeta. unfold complete. destruct (truthy _) as [pepper|]; [|by left].
  destruct (secret_text secret); [|by left]. rewrite throw_if_pass by done. rewrite then_same by (intros; keeps).
  unfold atomically. destruct (completeInTransaction _ _ _ _ _ _ _ _ _ _) as [[r|e] s1] eqn:Hr; [|by left].
  right. apply completeInTransaction_ok in Hr as (sid & pid & x & p & c & c' & Hr & _).
  by exists pepper, sid, pid, x, p, c, c'.
Qed.
End login.
