(* ===== verification/AccountHistory.v ===== *)
(** * What every run of the account services has gone through

    Invariants that relate the tables to the actions of the run: no principal
    has more than two active keys, and a session goes back to a challenge the
    user's bot asked for, to launch data Telegram signed for the user, and to
    the bot's confirmation of the code that was shown. *)

From Stdlib Require Import QArith.
From S2P Require Import Prelude.
From S2P Require Import Keeps.
From S2P Require Import Json.
From S2P Require Import Sql.
From S2P Require Import OutboxStore.
From S2P Require Import NodeSyncStore.
From S2P Require Import XrayAccess.
From S2P Require Import ControlPlane.
From S2P Require Import DataPlaneCredential.
From S2P Require Import AccessPolicy.
From S2P Require Import ControlPlaneInvariant.
From S2P Require Import Orchestration.
From S2P Require Import SubscriptionAccess.
From S2P Require Import ControlPlaneSystem.
From S2P Require Import Base64Url.
From S2P Require Import BotSigningKey.
From S2P Require Import Accounts.
From S2P Require Import AccountInvariant.
From S2P Require Import BotRequests.
From S2P Require Import BotCredentials.
From S2P Require Import Trial.
From S2P Require Import Cabinet.
From S2P Require Import TelegramInitData.
From S2P Require Import Login.
From S2P Require Import AccountFrame.
From S2P Require Import AccountSystem.
From S2P Require Import BotSafety.
From S2P Require Import LoginSafety.
Open Scope Z_scope.

Section system.
Context (uuid : nat → string) (hmac_sha256 : string → string → list Z) (hmac_key : list Z → string → list Z).
Context (sha256 : json → string) (is_uuid is_datetime : string → bool) (plus_days : Z → Z → Z).
Context (JSON_parse : string → option json) (Number_toString : Q → string) (safe_integer : string → option Z).
Context (newURL : string → string → string) `{LocaleCompare} `{DateStrings} `{Aes256Gcm}.
Context (environment : ApiEnvironment) (agentPepper : option string) (credentialPepper : string).
Context (syncLease syncDelay syncMax outboxLease outboxDelay outboxMax : Z).
Context (eventIds : option (list string)).
Context (AUTH_SESSION_PEPPER TELEGRAM_WEB_APP_VALIDATION_KEY : option string).
Context (TELEGRAM_INIT_DATA_MAX_AGE_SECONDS AUTH_SESSION_TTL_SECONDS AUTH_PRELAUNCH_RATE_LIMIT_MAX : Z).
Context (SUBSCRIPTION_TOKEN_PEPPER SUBSCRIPTION_FEED_BASE_URL : option string).

Notation act := (act uuid hmac_sha256 hmac_key is_uuid is_datetime plus_days JSON_parse
  Number_toString safe_integer newURL environment
  AUTH_SESSION_PEPPER TELEGRAM_WEB_APP_VALIDATION_KEY TELEGRAM_INIT_DATA_MAX_AGE_SECONDS
  AUTH_SESSION_TTL_SECONDS AUTH_PRELAUNCH_RATE_LIMIT_MAX SUBSCRIPTION_TOKEN_PEPPER SUBSCRIPTION_FEED_BASE_URL).
Notation account_step := (account_step uuid hmac_sha256 hmac_key sha256 is_uuid is_datetime plus_days JSON_parse
  Number_toString safe_integer newURL environment agentPepper credentialPepper
  syncLease syncDelay syncMax outboxLease outboxDelay outboxMax eventIds
  AUTH_SESSION_PEPPER TELEGRAM_WEB_APP_VALIDATION_KEY TELEGRAM_INIT_DATA_MAX_AGE_SECONDS
  AUTH_SESSION_TTL_SECONDS AUTH_PRELAUNCH_RATE_LIMIT_MAX SUBSCRIPTION_TOKEN_PEPPER SUBSCRIPTION_FEED_BASE_URL).
Notation account_run := (account_run uuid hmac_sha256 hmac_key sha256 is_uuid is_datetime plus_days JSON_parse
  Number_toString safe_integer newURL environment agentPepper credentialPepper
  syncLease syncDelay syncMax outboxLease outboxDelay outboxMax eventIds
  AUTH_SESSION_PEPPER TELEGRAM_WEB_APP_VALIDATION_KEY TELEGRAM_INIT_DATA_MAX_AGE_SECONDS
  AUTH_SESSION_TTL_SECONDS AUTH_PRELAUNCH_RATE_LIMIT_MAX SUBSCRIPTION_TOKEN_PEPPER SUBSCRIPTION_FEED_BASE_URL).

Notation access_unchanged := (@access_unchanged uuid hmac_sha256 hmac_key sha256 is_uuid is_datetime plus_days JSON_parse
  Number_toString safe_integer newURL _ _ _ environment agentPepper credentialPepper
  syncLease syncDelay syncMax outboxLease outboxDelay outboxMax eventIds
  AUTH_SESSION_PEPPER TELEGRAM_WEB_APP_VALIDATION_KEY TELEGRAM_INIT_DATA_MAX_AGE_SECONDS
  AUTH_SESSION_TTL_SECONDS AUTH_PRELAUNCH_RATE_LIMIT_MAX SUBSCRIPTION_TOKEN_PEPPER SUBSCRIPTION_FEED_BASE_URL).
Notation login_unchanged := (@login_unchanged uuid hmac_sha256 hmac_key sha256 is_uuid is_datetime plus_days JSON_parse
  Number_toString safe_integer newURL _ _ _ environment agentPepper credentialPepper
  syncLease syncDelay syncMax outboxLease outboxDelay outboxMax eventIds
  AUTH_SESSION_PEPPER TELEGRAM_WEB_APP_VALIDATION_KEY TELEGRAM_INIT_DATA_MAX_AGE_SECONDS
  AUTH_SESSION_TTL_SECONDS AUTH_PRELAUNCH_RATE_LIMIT_MAX SUBSCRIPTION_TOKEN_PEPPER SUBSCRIPTION_FEED_BASE_URL).
Notation key_unchanged := (@key_unchanged uuid hmac_sha256 hmac_key sha256 is_uuid is_datetime plus_days JSON_parse
  Number_toString safe_integer newURL _ _ _ environment agentPepper credentialPepper
  syncLease syncDelay syncMax outboxLease outboxDelay outboxMax eventIds
  AUTH_SESSION_PEPPER TELEGRAM_WEB_APP_VALIDATION_KEY TELEGRAM_INIT_DATA_MAX_AGE_SECONDS
  AUTH_SESSION_TTL_SECONDS AUTH_PRELAUNCH_RATE_LIMIT_MAX SUBSCRIPTION_TOKEN_PEPPER SUBSCRIPTION_FEED_BASE_URL).

(** A step that is no action leaves these tables. *)
Lemma none_unchanged {T} (f : Accounts → T) s s' :
  (∀ g s, f (set_control g s) = f s) → (∀ g s, f (set_users g s) = f s) →
  (∀ g s, f (set_plans g s) = f s) → (∀ g s, f (set_terms g s) = f s) →
  (∀ g s, f (set_campaigns g s) = f s) → account_step None s s' → f s' = f s.
Proof.
  intros Hc Hu Hp Ht Hca Hs. inversion Hs; subst; try done.
  - change (same f s (atomically (user_upsert uuid telegramUserId) s).2).
    by apply (transaction_keeps (same f)), upsert_same.
  - change (same f s (atomically (subscription_create uuid row terms) s).2).
    by apply (transaction_keeps (same f)), subscription_same.
Qed.

(** ** Keys *)

Lemma keys_same s a :
  key_action a = false → ac_botCredentials (act a s) = ac_botCredentials s.
Proof.
  intros Hk. destruct (access_action a) eqn:Ha.
  - by apply access_unchanged; [intros ? []..|].
  - apply login_unchanged; [intros ? []; done..|]. unfold login_action. by rewrite Ha, Hk.
Qed.

Lemma step_few o s s' :
  account_step o s s' → account_ok plus_days s → few_active s → few_active s'.
Proof.
  intros Hs Hok Hfew. assert (Hsame : ac_botCredentials s' = ac_botCredentials s → few_active s').
  { intros E principalId. rewrite (active_same _ _ _ E). apply Hfew. }
  destruct o as [a|]; [|by apply Hsame, none_unchanged; try intros ? []].
  inversion Hs; subst. destruct (key_action a) eqn:Hk; [|by apply Hsame, keys_same].
  destruct a; try discriminate Hk; simpl in *.
  - destruct (provisionBotCredential _ _ _ _ _ s) as [[m|e] s'] eqn:Hr; simpl in *.
    + apply (provision_ok _ plus_days) in Hr as [c Hr]; [|done]. by eapply key_issued_few.
    + apply Hsame. by eapply provision_undone.
  - destruct (rotateBotCredential _ _ _ _ _ s) as [[m|e] s'] eqn:Hr; simpl in *.
    + apply rotate_key_ok in Hr as [c Hr]. by eapply key_issued_few.
    + apply Hsame. by eapply rotate_undone.
  - destruct (revokeBotCredential _ _ _ _ _ s) as [[m|e] s'] eqn:Hr; simpl in *.
    + apply revoke_key_ok in Hr as [[E _]|(id & c & Hc & _ & _ & _ & _ & _ & E)]; [by apply Hsame|].
      intros principalId. rewrite (active_same _ _ _ E). by apply revoked_few.
    + apply Hsame. by eapply revoke_undone.
Qed.

Lemma run_few l s s' : account_run l s s' → system_ok plus_days s → few_active s → few_active s'.
Proof.
  induction 1 as [|l o s1 s2 s3 Hr IH Hs]; [done|]. intros Hok Hfew.
  eapply step_few; [exact Hs| |by apply IH]. apply run_grows in Hr. by apply Hr.
Qed.

(** ** Logins

    The evidence a login rests on, in the order it came; the latest action is
    the first. *)

(** An action of the run, and what was before it. *)
Definition happened (P : action → list action → Prop) (l : list action) : Prop :=
  ∃ l1 a l0, l = l1 ++ a :: l0 ∧ P a l0.
Lemma happened_later P l l' : happened P l → happened P (l' ++ l).
Proof using Type. intros (l1 & a & l0 & -> & HP). exists (l' ++ l1), a, l0. by rewrite <- app_assoc. Qed.
Lemma happened_now (P : action → list action → Prop) a l : P a l → happened P (a :: l).
Proof using Type. intros HP. by exists [], a, l. Qed.

(** The user's bot asked for the launch link. *)
Definition link_issued (telegramUserId launchId : string) : list action → Prop :=
  happened (λ a _, match a with
    | IssueChallenge request _ launch _ _ => launch = launchId ∧ br_telegramUserId request = telegramUserId
    | _ => False end).

(** Then a page began a login with data that Telegram signed for the user and
    that link, and was given the code. *)
Definition login_started (telegramUserId launchId tokenHash codeHash : string) : list action → Prop :=
  happened (λ a before, match a with
    | BeginLogin initData _ _ material => ∃ pepper key proof secret code now,
        truthy AUTH_SESSION_PEPPER = Some pepper ∧ truthy TELEGRAM_WEB_APP_VALIDATION_KEY = Some key ∧
        verify hmac_key JSON_parse Number_toString safe_integer TELEGRAM_INIT_DATA_MAX_AGE_SECONDS
          initData key now = Some proof ∧
        vi_id proof = telegramUserId ∧ vi_startParam proof = launchId ∧ (secret, code, now) ∈ material ∧
        tokenHash = hashPendingSecret hmac_sha256 secret pepper ∧
        codeHash = hashConfirmationCode hmac_sha256 telegramUserId (createCrockfordCode code) pepper ∧
        link_issued telegramUserId launchId before
    | _ => False end).

(** Then the user's bot sent a code of that hash. *)
Definition login_approved (telegramUserId launchId tokenHash codeHash : string) : list action → Prop :=
  happened (λ a before, match a with
    | ConfirmLogin request _ code _ => ∃ pepper,
        truthy AUTH_SESSION_PEPPER = Some pepper ∧ br_telegramUserId request = telegramUserId ∧
        codeHash = hashConfirmationCode hmac_sha256 telegramUserId code pepper ∧
        login_started telegramUserId launchId tokenHash codeHash before
    | _ => False end).

(** Then the page that has the secret of the login completed it. *)
Definition login_finished (telegramUserId launchId sessionHash : string) : list action → Prop :=
  happened (λ a before, match a with
    | CompleteLogin secret sessionSecret _ => ∃ pepper codeHash,
        truthy AUTH_SESSION_PEPPER = Some pepper ∧
        sessionHash = hashSessionSecret hmac_sha256 sessionSecret pepper ∧
        login_approved telegramUserId launchId (hashPendingSecret hmac_sha256 secret pepper) codeHash before
    | _ => False end).

(** What the rows of a login say of the run. *)
Definition telegram_of (s : Accounts) (userId telegramUserId : string) : Prop :=
  us_telegramUserId <$> ac_users s !! userId = Some telegramUserId.
Definition challenge_past (l : list action) (s : Accounts) (c : AuthChallenge) : Prop :=
  ∃ userId telegramUserId, au_userId c = Some userId ∧ telegram_of s userId telegramUserId ∧
    link_issued telegramUserId (au_launchId c) l.
Definition pending_past (l : list action) (s : Accounts) (p : PendingLogin) : Prop :=
  telegram_of s (pe_userId p) (pe_telegramUserId p) ∧
  ∃ c, ac_challenges s !! pe_challengeId p = Some c ∧ au_userId c = Some (pe_userId p) ∧
    login_started (pe_telegramUserId p) (au_launchId c) (pe_pendingTokenHash p) (pe_confirmationCodeHash p) l ∧
    (pe_status p = AWAITING_BOT_CONFIRM ∨
     login_approved (pe_telegramUserId p) (au_launchId c) (pe_pendingTokenHash p) (pe_confirmationCodeHash p) l).
Definition session_past (l : list action) (s : Accounts) (id : string) (x : UserSession) : Prop :=
  ∃ telegramUserId challengeId c, telegram_of s (ss_userId x) telegramUserId ∧
    ac_challenges s !! challengeId = Some c ∧ au_userId c = Some (ss_userId x) ∧ au_sessionId c = Some id ∧
    login_finished telegramUserId (au_launchId c) (ss_tokenHash x) l.

Record login_past (l : list action) (s : Accounts) : Prop := {
  lp_challenges : map_Forall (λ _, challenge_past l s) (ac_challenges s);
  lp_pendings : map_Forall (λ _, pending_past l s) (ac_pendingLogins s);
  lp_sessions : map_Forall (session_past l s) (ac_sessions s);
}.

Lemma login_past_empty : login_past [] empty_accounts.
Proof. split; apply map_Forall_empty. Qed.

(** Rows, as they were or advanced, keep their past. *)
Lemma telegram_later s s' userId telegramUserId :
  ac_users s ⊆ ac_users s' → telegram_of s userId telegramUserId → telegram_of s' userId telegramUserId.
Proof using Type.
  unfold telegram_of. intros Hsub (u & Hu & ->)%fmap_Some. by rewrite (lookup_weaken _ _ _ _ Hu Hsub).
Qed.
Lemma challenge_later l l' s s' c :
  ac_users s ⊆ ac_users s' → challenge_past l s c → challenge_past (l' ++ l) s' c.
Proof using Type.
  intros Hu (u & t & ? & ? & ?). exists u, t. split_and!; [done|by eapply telegram_later|by apply happened_later].
Qed.
(** A challenge that is used keeps its link and user. *)
Definition challenges_advance (s s' : Accounts) : Prop :=
  ∀ id c, ac_challenges s !! id = Some c → ∃ c', ac_challenges s' !! id = Some c' ∧
    au_launchId c' = au_launchId c ∧ au_userId c' = au_userId c ∧
    (is_Some (au_sessionId c) → au_sessionId c' = au_sessionId c).
Lemma pending_later l l' s s' p :
  ac_users s ⊆ ac_users s' → challenges_advance s s' → pending_past l s p → pending_past (l' ++ l) s' p.
Proof using Type.
  intros Hu Hc (Ht & c & Hcc & Huc & Hst & Hap). split; [by eapply telegram_later|].
  destruct (Hc _ _ Hcc) as (c' & Hc' & El & Eu & _). exists c'. rewrite El, Eu.
  split_and!; [done|done|by apply happened_later|]. destruct Hap; [by left|right; by apply happened_later].
Qed.
Lemma session_later l l' s s' id x :
  ac_users s ⊆ ac_users s' → challenges_advance s s' → session_past l s id x → session_past (l' ++ l) s' id x.
Proof using Type.
  intros Hu Hc (t & cid & c & Ht & Hcc & Huc & Hs & Hf).
  destruct (Hc _ _ Hcc) as (c' & Hc' & El & Eu & Es). exists t, cid, c'. rewrite El, Eu, Es by eauto.
  split_and!; [by eapply telegram_later|done|done|done|by apply happened_later].
Qed.

(** A step keeps the past of the rows it leaves. *)
Lemma login_past_same l l' s s' :
  login_tables s' = (ac_challenges s, ac_pendingLogins s, ac_sessions s, ac_users s') →
  ac_users s ⊆ ac_users s' → login_past l s → login_past (l' ++ l) s'.
Proof using Type.
  unfold login_tables. intros [= Ec Ep Es] Hu []. assert (Hadv : challenges_advance s s').
  { intros id c Hc. exists c. by rewrite Ec. }
  split; [rewrite Ec|rewrite Ep|rewrite Es]; intros id r Hr.
  - eapply challenge_later; eauto.
  - eapply pending_later; eauto.
  - eapply session_later; eauto.
Qed.

(** The action that came last. *)
Ltac newest l' := lazymatch goal with |- login_past (?a :: _) _ => pose (l' := [a]) end.

Lemma link_past l s s' telegramUserId id c userId request attempts launchId secret now :
  challenge_issued s telegramUserId launchId s' id c userId → br_telegramUserId request = telegramUserId →
  login_past l s → login_past (IssueChallenge request attempts launchId secret now :: l) s'.
Proof using Type.
  intros [Hn [= Ec Ep Es Eu] Hl _ Hu Ht] Hreq []. newest l'.
  assert (Hadv : challenges_advance s s').
  { intros i x Hx. exists x. rewrite Ec, lookup_insert_ne by congruence. by split_and!. }
  assert (Hus : ac_users s ⊆ ac_users s') by (by rewrite Eu).
  split; [rewrite Ec; intros i x [[<- <-]|[_ Hx]]%lookup_insert_Some|rewrite Ep; intros i r Hr|rewrite Es; intros i r Hr].
  - exists userId, telegramUserId. unfold telegram_of. rewrite Eu. split_and!; [done|done|].
    by apply happened_now.
  - by apply (challenge_later _ l' s); [|apply (lp_challenges0 i)].
  - by apply (pending_later _ l' s); [| |apply (lp_pendings0 i)].
  - by apply (session_later _ l' s); [| |apply (lp_sessions0 i)].
Qed.

Lemma started_past l s s' initData processNow attempts material key proof secret code now pepper id p c :
  truthy AUTH_SESSION_PEPPER = Some pepper → truthy TELEGRAM_WEB_APP_VALIDATION_KEY = Some key →
  (secret, code, now) ∈ material →
  verify hmac_key JSON_parse Number_toString safe_integer TELEGRAM_INIT_DATA_MAX_AGE_SECONDS
    initData key now = Some proof →
  login_begun hmac_sha256 s proof secret (createCrockfordCode code) pepper now s' id p c →
  login_past l s → login_past (BeginLogin initData processNow attempts material :: l) s'.
Proof using Type.
  intros Hpep Hkey Hmat Hv [Hn [= Ec Ep Es Eu] Hc Hl Hu Ht Hpr Htok Hcode Hst _] []. newest l'.
  assert (Hadv : challenges_advance s s') by (intros i x Hx; exists x; by rewrite Ec).
  assert (Hus : ac_users s ⊆ ac_users s') by (by rewrite Eu).
  split; [rewrite Ec; intros i r Hr|rewrite Ep; intros i x [[<- <-]|[_ Hx]]%lookup_insert_Some|rewrite Es; intros i r Hr].
  - by apply (challenge_later _ l' s); [|apply (lp_challenges0 i)].
  - unfold pending_past, telegram_of. rewrite Eu, Ec. split; [done|]. exists c. split_and!; [done|done| |by left].
    apply happened_now. exists pepper, key, proof, secret, code, now. rewrite Hpr, Hl in *.
    destruct (lp_challenges0 _ _ Hc) as (u & t & Hu' & Ht' & Hlink). split_and!; try done.
    assert (u = pe_userId p) as -> by congruence. unfold telegram_of in Ht'.
    assert (t = vi_id proof) as -> by congruence. by rewrite <- Hl.
  - by apply (pending_later _ l' s); [| |apply (lp_pendings0 i)].
  - by apply (session_later _ l' s); [| |apply (lp_sessions0 i)].
Qed.

Lemma approved_past l s s' request attempts code now pepper id p :
  truthy AUTH_SESSION_PEPPER = Some pepper →
  login_confirmed hmac_sha256 s (br_telegramUserId request) code pepper now s' id p →
  login_past l s → login_past (ConfirmLogin request attempts code now :: l) s'.
Proof using Type.
  intros Hpep [Hp Ht Hcode Hst _ [= Ec Ep Es Eu]] []. newest l'.
  assert (Hadv : challenges_advance s s') by (intros i x Hx; exists x; by rewrite Ec).
  assert (Hus : ac_users s ⊆ ac_users s') by (by rewrite Eu).
  split; [rewrite Ec; intros i r Hr|rewrite Ep; intros i x [[<- <-]|[_ Hx]]%lookup_insert_Some|rewrite Es; intros i r Hr].
  - by apply (challenge_later _ l' s); [|apply (lp_challenges0 i)].
  - destruct (lp_pendings0 _ _ Hp) as (Hu & c & Hc & Huc & Hstart & _).
    unfold pending_past, telegram_of. rewrite Eu, Ec. simpl. split; [done|]. exists c.
    split_and!; [done|done|by apply (happened_later _ _ l')|]. right. apply happened_now. exists pepper.
    by rewrite Ht, <- Hcode in *.
  - by apply (pending_later _ l' s); [| |apply (lp_pendings0 i)].
  - by apply (session_later _ l' s); [| |apply (lp_sessions0 i)].
Qed.

Lemma finished_past l s s' secret sessionSecret now pepper sessionId pendingId x p c c' :
  truthy AUTH_SESSION_PEPPER = Some pepper → account_ok plus_days s →
  login_completed hmac_sha256 AUTH_SESSION_TTL_SECONDS s secret sessionSecret pepper now s'
    sessionId pendingId x p c c' →
  login_past l s → login_past (CompleteLogin secret sessionSecret now :: l) s'.
Proof using Type.
  intros Hpep Hok [Hp Htok Hst Hopen Ht Hn Hxu Hxs _ Hc [El Ecu] Hused [= Ec Ep Es Eu]] [Hch Hpe Hse].
  newest l'. assert (Hfresh : au_sessionId c = None).
  { unfold login_open in Hopen. rewrite Hc in Hopen. apply andb_prop in Hopen as [_ Hopen%is_null_true].
    pose proof (ao_challenges _ _ Hok _ _ Hc) as Hck. unfold challenge_checks in Hck. simpl in Hck.
    rewrite Hopen in Hck. destruct (au_sessionId c); [|done]. by rewrite andb_false_r in Hck. }
  assert (Hadv : challenges_advance s s').
  { intros i y Hy. rewrite Ec. destruct (decide (i = pe_challengeId p)) as [->|Hne].
    - rewrite lookup_insert_eq. assert (y = c) as -> by congruence. exists c'. split_and!; try done.
      rewrite Hfresh. by intros [].
    - rewrite lookup_insert_ne by done. by exists y. }
  assert (Hus : ac_users s ⊆ ac_users s') by (by rewrite Eu).
  destruct (Hpe _ _ Hp) as (_ & c0 & Hc0 & Huc & Hstart & Happ). assert (c0 = c) as -> by congruence.
  split; [rewrite Ec|rewrite Ep|rewrite Es]; intros i r [[<- <-]|[_ Hr]]%lookup_insert_Some.
  - apply (challenge_later _ l' s); [done|]. destruct (Hch _ _ Hc) as (u & t & H1' & H2' & H3').
    exists u, t. by rewrite El, Ecu.
  - by apply (challenge_later _ l' s); [|apply (Hch i)].
  - destruct Happ as [Happ|Happ]; [congruence|].
    apply (pending_later _ l' s); [done|done|]. split; [done|]. exists c. simpl. by split_and!; [| | |right].
  - by apply (pending_later _ l' s); [| |apply (Hpe i)].
  - exists (pe_telegramUserId p), (pe_challengeId p), c'. unfold telegram_of.
    rewrite Eu, Ec, lookup_insert_eq, Ecu, El, Hxu. split_and!; try done.
    destruct Happ as [Happ|Happ]; [congruence|]. apply happened_now. exists pepper, (pe_confirmationCodeHash p).
    by rewrite <- Htok.
  - by apply (session_later _ l' s); [| |apply (Hse i)].
Qed.

Lemma revoked_past l s secret now :
  login_past l s → login_past (RevokeSession secret now :: l) (revokeSession hmac_sha256 AUTH_SESSION_PEPPER secret now s).2.
Proof using Type.
  intros Hpast. unfold revokeSession. destruct (truthy _) as [pepper|]; [|by apply (login_past_same _ [_] s)].
  destruct (negb _); [by apply (login_past_same _ [_] s)|]. destruct Hpast as [Hch Hpe Hse].
  newest l'. destruct s. simpl in *. split; simpl; intros i r Hr.
  - by apply (challenge_later _ l' _ _ _ (reflexivity _)), (Hch i).
  - apply (pending_later _ l' _ _ _ (reflexivity _)), (Hpe i); [|done]. intros j c Hc. by exists c.
  - apply lookup_fmap_Some in Hr as (x & <- & Hx).
    pose proof (session_later l l' _ (MkAccounts ac_control ac_users ac_plans ac_terms ac_campaigns ac_activations
      ac_principals ac_botCredentials ac_requests ac_challenges ac_pendingLogins
      ((λ x, if bool_decide (ss_tokenHash x = hashSessionSecret hmac_sha256 secret pepper) && is_null (ss_revokedAt x)
             then revoke_session now x else x) <$> ac_sessions)) i x (reflexivity _)) as Hlater.
    destruct (Hlater (λ j c Hc, ex_intro _ c (conj Hc (conj eq_refl (conj eq_refl (λ _, eq_refl))))) (Hse i x Hx))
      as (t & cid & c & Hpast). exists t, cid, c. by destruct (_ && _).
Qed.

Lemma step_past l o s s' :
  account_step o s s' → system_ok plus_days s → login_past l s → login_past (option_list o ++ l) s'.
Proof.
  intros Hs Hok Hpast. pose proof Hs as Hgrow. apply step_grows in Hgrow. destruct (Hgrow Hok) as (_ & Hg & _).
  pose proof (tg_users _ _ Hg) as Husers. clear Hgrow.
  set (f := λ s, (ac_challenges s, ac_pendingLogins s, ac_sessions s)).
  assert (Hsame : f s' = f s → login_past (option_list o ++ l) s').
  { intros [= E1 E2 E3]. apply (login_past_same _ _ s); [|done|done]. unfold login_tables. congruence. }
  destruct o as [a|]; [|by apply Hsame, none_unchanged; try intros ? []].
  inversion Hs; subst. destruct (key_action a) eqn:Hk; [by apply Hsame, key_unchanged; try intros ? []|].
  destruct (access_action a) eqn:Ha; [by apply Hsame, access_unchanged; try intros ? []|].
  destruct a; try discriminate Hk; try discriminate Ha; simpl in *; unfold act; simpl.
  - destruct (issueChallenge_cases uuid hmac_sha256 is_datetime AUTH_SESSION_PEPPER AUTH_PRELAUNCH_RATE_LIMIT_MAX
      request attempts launchId challengeSecret now s) as [E|(id & c & u & Hc)].
    + rewrite E in *. by apply Hsame.
    + by eapply link_past.
  - destruct (beginLogin_cases uuid hmac_key hmac_sha256 is_datetime JSON_parse Number_toString safe_integer
      AUTH_SESSION_PEPPER TELEGRAM_WEB_APP_VALIDATION_KEY TELEGRAM_INIT_DATA_MAX_AGE_SECONDS
      AUTH_PRELAUNCH_RATE_LIMIT_MAX initData processNow attempts material s)
      as [E|(pepper & key & proof & secret & code & now & id & p & c & Hb)].
    + rewrite E in *. by apply Hsame.
    + destruct Hb as (Hp & Hk' & Hm & Hv & Hb). by eapply (started_past _ _ _ _ _ _ _ _ _ _ _ _ _ _ _ _ Hp Hk' Hm Hv Hb).
  - destruct (confirm_cases hmac_sha256 AUTH_SESSION_PEPPER AUTH_PRELAUNCH_RATE_LIMIT_MAX
      request attempts code now s) as [E|(pepper & id & p & Hp & Hc)].
    + rewrite E in *. by apply Hsame.
    + by eapply approved_past.
  - destruct (complete_cases uuid hmac_sha256 is_uuid is_datetime AUTH_SESSION_PEPPER AUTH_SESSION_TTL_SECONDS
      secret sessionSecret now s) as [E|(pepper & sid & pid & x & p & c & c' & Hp & Hc)].
    + rewrite E in *. by apply Hsame.
    + destruct Hok as [Hok _]. by eapply finished_past.
  - by apply revoked_past.
Qed.

Lemma run_past l s s' l0 :
  account_run l s s' → system_ok plus_days s → login_past l0 s → login_past (l ++ l0) s'.
Proof.
  induction 1 as [|l o s1 s2 s3 Hr IH Hs]; [done|]. intros Hok Hpast. rewrite <- app_assoc.
  eapply step_past; [exact Hs| |by apply IH]. apply run_grows in Hr. by apply Hr.
Qed.
End system.
