(* ===== verification/AccountTheorems.v ===== *)
(** * What the account services promise

    Theorems on every reachable state of the system of AccountSystem.v: bot
    requests happen once, trials and issued devices give access within their
    limits, a session comes from a login the user's bot confirmed, and a
    provisioned key authenticates. *)

From Stdlib Require Import QArith.
From stdpp Require Import pretty.
From S2P Require Import Prelude.
From S2P Require Import Keeps.
From S2P Require Import Json.
From S2P Require Import Sql.
From S2P Require Import OutboxStore.
From S2P Require Import NodeSyncStore.
From S2P Require Import NodeAgentContract.
From S2P Require Import XrayAccess.
From S2P Require Import ControlPlane.
From S2P Require Import DataPlaneCredential.
From S2P Require Import AccessPolicy.
From S2P Require Import ControlPlaneInvariant.
From S2P Require Import Orchestration.
From S2P Require Import SubscriptionAccess.
From S2P Require Import SubscriptionFeed.
From S2P Require Import Reconciliation.
From S2P Require Import TrialAccess.
From S2P Require Import TrialAccessSafety.
From S2P Require Import ControlFrame.
From S2P Require Import ControlPlaneSystem.
From S2P Require Import Base64Url.
From S2P Require Import BotSigningKey.
From S2P Require Import Accounts.
From S2P Require Import AccountInvariant.
From S2P Require Import BotRequests.
From S2P Require Import BotCredentials.
From S2P Require Import Trial.
From S2P Require Import Cabinet.
From S2P Require Import TelegramInitData.
From S2P Require Import Login.
From S2P Require Import AccountSystem.
From S2P Require Import TrialSafety.
From S2P Require Import CabinetSafety.
From S2P Require Import BotSafety.
From S2P Require Import LoginSafety.
From S2P Require Import AccountHistory.
Open Scope Z_scope.

Section system.
Context (uuid : nat → string) (hmac_sha256 : string → string → list Z) (hmac_key : list Z → string → list Z).
Context (sha256 : json → string) (is_uuid is_datetime : string → bool) (plus_days : Z → Z → Z).
Context (JSON_parse : string → option json) (Number_toString : Q → string) (safe_integer : string → option Z).
Context (newURL : string → string → string) `{LocaleCompare} `{DateStrings} `{Aes256Gcm}.
Context (environment : ApiEnvironment) (agentPepper : option string) (credentialPepper : string).
Context (syncLease syncDelay syncMax outboxLease outboxDelay outboxMax : Z).
Context (eventIds : option (list string)).
Context (AUTH_SESSION_PEPPER TELEGRAM_WEB_APP_VALIDATION_KEY : option string).
Context (TELEGRAM_INIT_DATA_MAX_AGE_SECONDS AUTH_SESSION_TTL_SECONDS AUTH_PRELAUNCH_RATE_LIMIT_MAX : Z).
Context (SUBSCRIPTION_TOKEN_PEPPER SUBSCRIPTION_FEED_BASE_URL : option string).

Notation account_run := (account_run uuid hmac_sha256 hmac_key sha256 is_uuid is_datetime plus_days JSON_parse
  Number_toString safe_integer newURL environment agentPepper credentialPepper
  syncLease syncDelay syncMax outboxLease outboxDelay outboxMax eventIds
  AUTH_SESSION_PEPPER TELEGRAM_WEB_APP_VALIDATION_KEY TELEGRAM_INIT_DATA_MAX_AGE_SECONDS
  AUTH_SESSION_TTL_SECONDS AUTH_PRELAUNCH_RATE_LIMIT_MAX SUBSCRIPTION_TOKEN_PEPPER SUBSCRIPTION_FEED_BASE_URL).
Notation account_reachable := (account_reachable uuid hmac_sha256 hmac_key sha256 is_uuid is_datetime plus_days
  JSON_parse Number_toString safe_integer newURL environment agentPepper credentialPepper
  syncLease syncDelay syncMax outboxLease outboxDelay outboxMax eventIds
  AUTH_SESSION_PEPPER TELEGRAM_WEB_APP_VALIDATION_KEY TELEGRAM_INIT_DATA_MAX_AGE_SECONDS
  AUTH_SESSION_TTL_SECONDS AUTH_PRELAUNCH_RATE_LIMIT_MAX SUBSCRIPTION_TOKEN_PEPPER SUBSCRIPTION_FEED_BASE_URL).
Notation plane_step := (step uuid hmac_sha256 is_uuid sha256 environment agentPepper credentialPepper
  syncLease syncDelay syncMax outboxLease outboxDelay outboxMax eventIds).

Notation act := (act uuid hmac_sha256 hmac_key is_uuid is_datetime plus_days JSON_parse
  Number_toString safe_integer newURL environment
  AUTH_SESSION_PEPPER TELEGRAM_WEB_APP_VALIDATION_KEY TELEGRAM_INIT_DATA_MAX_AGE_SECONDS
  AUTH_SESSION_TTL_SECONDS AUTH_PRELAUNCH_RATE_LIMIT_MAX SUBSCRIPTION_TOKEN_PEPPER SUBSCRIPTION_FEED_BASE_URL).
Lemma act_ok a s : system_ok plus_days s → system_ok plus_days (act a s).
Proof using Type. intros Hs. by destruct (act_grows uuid hmac_sha256 hmac_key is_uuid is_datetime plus_days
  JSON_parse Number_toString safe_integer newURL environment AUTH_SESSION_PEPPER
  TELEGRAM_WEB_APP_VALIDATION_KEY TELEGRAM_INIT_DATA_MAX_AGE_SECONDS AUTH_SESSION_TTL_SECONDS
  AUTH_PRELAUNCH_RATE_LIMIT_MAX SUBSCRIPTION_TOKEN_PEPPER SUBSCRIPTION_FEED_BASE_URL a s Hs).
Qed.

(** Whatever the account services do to the control plane's tables is a
    sequence of the control plane's own steps, so that each theorem on the
    reachable states of the control plane holds of the whole system. *)
Theorem account_refinement l s s' :
  account_run l s s' → rtc plane_step (ac_control s) (ac_control s').
Proof. apply run_refines. Qed.

(** C8: an executed bot request has happened once and for all: after any run
    of the system a request with its key changes nothing, whatever the
    operation would do now.  While the credential it comes with is active, the
    same request is answered what was stored, and another is refused as a
    conflict; with a credential that is not, it is unauthorized. *)
Theorem bot_request_once request operation now s r s1 l s2 :
  account_reachable s → commits (sound plus_days) operation →
  execute request operation now s = (Ok r, s1) → account_run l s1 s2 →
  ∀ request' operation' now', idempotencyScope request' = idempotencyScope request →
    execute request' operation' now' s2 =
      (if negb (credential_active s2 request') then Throw (UnauthorizedException "Bot request is invalid")
       else if bool_decide (br_requestHash request' = br_requestHash request)
       then Ok {| xr_statusCode := xr_statusCode r; xr_body := xr_body r; xr_replayed := true |}
       else Throw (ConflictException "Idempotency key conflicts with another request"), s2).
Proof.
  intros Hs%reachable_ok Hop He Hrun%run_grows request' operation' now' Hscope.
  pose proof (execute_grows plus_days request operation now Hop s Hs) as (Hok1 & _ & _).
  apply (execute_stores plus_days) in He as Hst; [|done]. rewrite He in Hok1.
  apply (stored_grows _ _ _ s2) in Hst; [|by apply Hrun].
  destruct (credential_active s2 request') eqn:Hact; simpl.
  - case_bool_decide as Hh; [|by eapply stored_conflict].
    apply stored_replay; [|done]. unfold stored in *. by rewrite Hscope, Hh.
  - unfold execute, atomically. rewrite bind_get. by rewrite Hact.
Qed.

(** ** Trials *)

(** The Telegram user has no trial yet. *)
Definition no_trial (s : Accounts) (telegramUserId : string) : Prop :=
  ∀ id a, ac_activations s !! id = Some a →
    us_telegramUserId <$> ac_users s !! tv_userId a ≠ Some telegramUserId.

Lemma upsert_telegram telegramUserId s userId s1 :
  user_upsert uuid telegramUserId s = (Ok userId, s1) →
  us_telegramUserId <$> ac_users s1 !! userId = Some telegramUserId ∧
  ac_activations s1 = ac_activations s ∧ ac_campaigns s1 = ac_campaigns s ∧ ac_plans s1 = ac_plans s ∧
  same_access (ac_control s) (ac_control s1) ∧
  db_subscriptions (ac_control s1) = db_subscriptions (ac_control s) ∧ ac_users s ⊆ ac_users s1.
Proof.
  intros [[-> Hu]|(Hn & _ & ->)]%user_upsert_ok; [by split_and!|].
  destruct s as [[]]. simpl in *. rewrite lookup_insert_eq. split_and!; try done. by apply insert_subseteq.
Qed.

Lemma no_trial_found s telegramUserId userId s1 :
  account_ok plus_days s → no_trial s telegramUserId →
  user_upsert uuid telegramUserId s = (Ok userId, s1) → findExistingActivation s1 userId = None.
Proof.
  intros Hok Hno Hup. destruct (findExistingActivation s1 userId) as [[id a]|] eqn:Hf; [|done]. exfalso.
  unfold findExistingActivation in Hf. apply find_row_Some in Hf as [Ha Hp].
  rewrite !andb_true_iff, !bool_decide_eq_true in Hp. destruct Hp as [[Hu _] _].
  destruct (upsert_telegram _ _ _ _ Hup) as (Ht & Ea & _ & _ & _ & _ & Hsub). rewrite Ea in Ha.
  apply (Hno id a Ha). destruct (ao_activations _ _ Hok id a Ha) as (_ & _ & _ & _ & _ & _ & [u Hur]).
  eapply lookup_weaken in Hsub as Hur'; [|exact Hur]. rewrite Hu in Hur, Hur'. rewrite Hu, Hur.
  by rewrite Hur' in Ht.
Qed.


(** A trial is given within its limits: from the one campaign that is
    running, while it has activations left, for 1, 3 or 5 days, to a user with
    no running subscription and no more active devices than the plan allows. *)
Theorem trial_within_limits telegramUserId now s r s' :
  account_reachable s → no_trial s telegramUserId →
  activateInTransaction uuid hmac_sha256 plus_days environment telegramUserId now s = (Ok r, s') →
  ∃ userId c campaign plan,
    us_telegramUserId <$> ac_users s' !! userId = Some telegramUserId ∧
    ac_campaigns s !! c = Some campaign ∧ campaign_eligible s now campaign = true ∧
    ac_plans s !! tc_planId campaign = Some plan ∧ tc_durationDays campaign ∈ [1; 3; 5] ∧
    (∀ c' campaign', ac_campaigns s !! c' = Some campaign' → campaign_eligible s now campaign' = true → c' = c) ∧
    (∀ m, tc_maxActivations campaign = Some m → Z.of_nat (campaign_activations s' c) ≤ m) ∧
    Z.of_nat (length (active_devices (ac_control s) userId)) ≤ pl_deviceLimit plan ∧
    ∀ i row, db_subscriptions (ac_control s) !! i = Some row → sb_userId row = userId →
      sb_status row = SUB_ACTIVE → ∃ e, sb_expiresAt row = Some e ∧ e ≤ now.
Proof.
  intros Hs Hno Hr. pose proof Hs as Hinv%reachable_inv_control. apply reachable_ok in Hs as [Hok _].
  destruct (activate_cases _ _ _ _ _ _ _ _ _ Hok Hinv Hr) as (userId & s1 & Hup & Hc).
  pose proof (no_trial_found _ _ _ _ Hok Hno Hup) as Hnone.
  destruct Hc as [(id & a & Hex & _)|(_ & id & a & campaign & -> & Hg)]; [congruence|].
  destruct (upsert_telegram _ _ _ _ Hup) as (Ht & Ea & Ec & Ep & Hsame & Es & _).
  destruct Hg as [Ha Hrunning Hcampaign Hdev Hleft Hacts Hfresh Hsub Husers _].
  destruct (eligible_one _ _ _ Hcampaign) as (c & plan & Hc & He & Hp & _ & Hd & Hm & Hl & Huniq).
  exists userId, (ec_id campaign), c, plan.
  assert (Eel : ∀ c, campaign_eligible s now c = campaign_eligible s1 now c).
  { intros c'. unfold campaign_eligible. by rewrite Ep. }
  split_and!.
  - by rewrite Husers.
  - by rewrite <- Ec.
  - by rewrite Eel.
  - by rewrite <- Ep.
  - assert (Hid : ac_activations s' !! id = Some a) by (by rewrite Hacts, lookup_insert_eq).
    pose proof (activate_sound uuid plus_days hmac_sha256 environment _ _ _ _ _ Hr Hok) as (Hok' & _ & _).
    destruct (ao_activations _ _ Hok' id a Hid) as (Hdays & _). rewrite Ha in Hdays. simpl in Hdays.
    rewrite <- Hd. by apply bool_decide_eq_true in Hdays.
  - intros c' campaign' Hc' He'. rewrite <- Ec in Hc'. rewrite Eel in He'. by eapply Huniq.
  - intros m Hmm. rewrite <- Hm in Hmm. specialize (Hleft m Hmm).
    rewrite (campaign_activations_insert s1 s' id a (ec_id campaign)); [lia|done|done|by rewrite Ha].
  - rewrite <- Hl. by rewrite <- (same_access_devices _ _ userId Hsame).
  - intros i row Hi. rewrite <- Es in Hi. exact (Hrunning i row Hi).
Qed.

(** C21: a user has one trial in a life: it stays as it was given through every
    run of the system, no other trial of the user is ever made, and a request
    for one answers the first and changes nothing. *)
Theorem trial_once s id a l s' :
  account_reachable s → ac_activations s !! id = Some a → account_run l s s' →
  ac_activations s' !! id = Some a ∧
  (∀ id' a', ac_activations s' !! id' = Some a' → tv_userId a' = tv_userId a → id' = id ∧ a' = a) ∧
  ∀ telegramUserId now, us_telegramUserId <$> ac_users s !! tv_userId a = Some telegramUserId →
    activateInTransaction uuid hmac_sha256 plus_days environment telegramUserId now s' =
      (Ok {| or_statusCode := 200; or_body := serialize id a |}, s').
Proof.
  intros Hs%reachable_ok Ha Hrun%run_grows. destruct (Hrun Hs) as ([Hok' _] & Hgrow & _).
  pose proof (lookup_weaken _ _ _ _ Ha (tg_activations _ _ Hgrow)) as Ha'.
  assert (Huniq : ∀ id' a', ac_activations s' !! id' = Some a' → tv_userId a' = tv_userId a → id' = id ∧ a' = a).
  { intros id' a2 Ha2 Hu. assert (id' = id) as ->; [|split; [done|congruence]].
    apply (ao_trials _ _ Hok' id' id a2 a (tv_userId a)); [done|done|by simpl; rewrite Hu|done]. }
  split_and!; [done|done|]. intros tg now Htg.
  apply fmap_Some in Htg as (u & Hu & ->).
  pose proof (lookup_weaken _ _ _ _ Hu (tg_users _ _ Hgrow)) as Hu'.
  assert (Hup : user_upsert uuid (us_telegramUserId u) s' = (Ok (tv_userId a), s')).
  { unfold user_upsert. rewrite bind_get. rewrite (find_row_unique _ _ (tv_userId a) u); [done|done| |].
    - by apply bool_decide_eq_true.
    - intros i v Hv Heq%bool_decide_eq_true.
      apply (ao_users _ _ Hok' i (tv_userId a) v u (us_telegramUserId u)); [done|done|by simpl; rewrite Heq|done]. }
  assert (Hfound : findExistingActivation s' (tv_userId a) = Some (id, a)).
  { unfold findExistingActivation. apply find_row_unique; [done| |].
    - destruct (ao_activations _ _ Hok' id a Ha') as (_ & _ & _ & _ & -> & -> & _).
      by rewrite !bool_decide_eq_true_2.
    - intros i b Hb Hp. rewrite !andb_true_iff, !bool_decide_eq_true in Hp.
      destruct Hp as [[Hbu _] _]. by destruct (Huniq i b Hb Hbu). }
  unfold activateInTransaction. rewrite (bind_ok _ _ _ _ _ Hup), bind_get. by rewrite Hfound.
Qed.

(** ** Devices *)

Notation issue := (issue uuid hmac_sha256 newURL environment SUBSCRIPTION_TOKEN_PEPPER SUBSCRIPTION_FEED_BASE_URL).

Lemma issue_ok userId key input now s r s' :
  issue userId key input now s = (Ok r, s') →
  ∃ tokenPepper feedBaseUrl id d, truthy SUBSCRIPTION_TOKEN_PEPPER = Some tokenPepper ∧
    truthy SUBSCRIPTION_FEED_BASE_URL = Some feedBaseUrl ∧
    let hash := hashIssuanceIdempotencyKey hmac_sha256 userId key tokenPepper in
    let token := deriveSubscriptionToken hmac_sha256 userId key tokenPepper in
    issueInTransaction uuid hmac_sha256 environment userId hash token tokenPepper input now s = (Ok (id, d), s') ∧
    r = {| id_id := id; id_displayName := dv_displayName d; id_platform := dv_platform d;
           id_createdAt := dv_createdAt d; id_subscriptionUrl := newURL ("/sub/" +:+ token) feedBaseUrl |}.
Proof.
  unfold Cabinet.issue. intros Hr. destruct (truthy SUBSCRIPTION_TOKEN_PEPPER) as [tp|]; [|done].
  destruct (truthy SUBSCRIPTION_FEED_BASE_URL) as [fb|]; [|done]. ok_inv Hr.
  lazymatch type of Hrun with _ = (Ok ?p, _) => destruct p as [id d] end.
  exists tp, fb, id, d. by split_and!.
Qed.

(** C16: a device is issued only to a user with a running subscription and
    within its plan's limit; its feed is found by the token of its URL, and
    every healthy node, at least one, gets pending access for it until the
    subscription ends, with the job that tells the node. *)
Theorem issue_gives_access userId key input now s r s' tokenPepper :
  account_reachable s → truthy SUBSCRIPTION_TOKEN_PEPPER = Some tokenPepper →
  existing_device s (hashIssuanceIdempotencyKey hmac_sha256 userId key tokenPepper) = None →
  issue userId key input now s = (Ok r, s') →
  ∃ x expiresAt d feedBaseUrl, x ∈ user_subscriptions s userId ∧
    sb_status (wp_subscription x) = SUB_ACTIVE ∧ sb_expiresAt (wp_subscription x) = Some expiresAt ∧
    now < expiresAt ∧
    db_devices (ac_control s) !! id_id r = None ∧ db_devices (ac_control s') !! id_id r = Some d ∧
    dv_userId d = userId ∧ dv_status d = DEVICE_ACTIVE ∧
    (let token := deriveSubscriptionToken hmac_sha256 userId key tokenPepper in
     id_subscriptionUrl r = newURL ("/sub/" +:+ token) feedBaseUrl ∧
     dv_subscriptionTokenHash d = hashToken hmac_sha256 token tokenPepper) ∧
    Z.of_nat (length (active_devices (ac_control s') userId)) ≤ pl_deviceLimit (wp_plan x) ∧
    (∃ nodeId n, db_nodes (ac_control s) !! nodeId = Some n ∧ n_status n = NODE_HEALTHY) ∧
    ∀ nodeId n, db_nodes (ac_control s) !! nodeId = Some n → n_status n = NODE_HEALTHY →
      access_pending (ac_control s') (id_id r) expiresAt nodeId.
Proof.
  intros Hs Hpepper Hno Hr. pose proof Hs as Hinv%reachable_inv_control. apply reachable_ok in Hs as [Hok _].
  apply issue_ok in Hr as (tp & fb & id & d & Htp & _ & Hr & ->). assert (tp = tokenPepper) as -> by congruence.
  destruct (issue_cases _ _ _ _ _ _ _ _ _ _ _ _ _ _ Hok Hinv Hr)
    as [_ [[Hex _]|(_ & x & e & [Hin Hent He Hlim Hd Hnew Hdevs _ Hsome Hacc])]]; [congruence|].
  apply gives_entitlement_spec in Hent as (Hst & e' & He' & Hlt). assert (e' = e) as -> by congruence.
  exists x, e, d, fb. simpl. rewrite Hdevs, lookup_insert_eq. split_and!; try done; try (by rewrite Hd).
  - rewrite (active_devices_insert _ _ _ _ _ Hdevs Hnew); [lia|by rewrite Hd..].
  - destruct (healthy_nodes (ac_control s)) as [|n ns] eqn:Hns; [done|].
    exists n. apply healthy_nodes_elem. rewrite Hns. left.
Qed.

(** Issuing a device is idempotent in the user's key: asked again, after
    any run of the system that does not revoke the device, it answers the same
    device and URL, makes nothing, and needs no subscription any more. *)
Theorem issue_is_idempotent userId key input now now' s r s1 l s2 d :
  account_reachable s → issue userId key input now s = (Ok r, s1) → account_run l s1 s2 →
  db_devices (ac_control s2) !! id_id r = Some d → dv_status d = DEVICE_ACTIVE →
  issue userId key input now' s2 = (Ok r, s2).
Proof.
  intros Hs Hr Hrun%run_grows Hd2 Hst. pose proof Hs as Hinv%reachable_inv_control.
  apply reachable_ok in Hs as Hsok. pose proof Hsok as [Hok _].
  pose proof (act_ok (IssueDevice userId key input now) s Hsok) as Hok1.
  simpl in Hok1. rewrite Hr in Hok1. simpl in Hok1.
  destruct (Hrun Hok1) as ([Hok2 _] & Hgrow & _).
  apply issue_ok in Hr as (tp & fb & id & d1 & Htp & Hfb & Hr & ->). simpl in Hd2.
  destruct (issue_cases _ _ _ _ _ _ _ _ _ _ _ _ _ _ Hok Hinv Hr) as [(Hd1 & Hu & Hn & Hp & Hh) _].
  destruct (tg_devices _ _ Hgrow _ _ Hd1) as (d2 & Hd2' & ((Hu2 & _ & _ & Hh2) & Hn2 & Hp2 & Hc2)).
  assert (d2 = d) as -> by congruence.
  assert (Hagain : issued_for s2 userId (hashIssuanceIdempotencyKey hmac_sha256 userId key tp) input id d).
  { unfold issued_for. split_and!; congruence. }
  unfold Cabinet.issue. rewrite Htp, Hfb. cbv zeta. erewrite bind_ok; [|unfold atomically;
    by erewrite (issue_again uuid hmac_sha256 environment plus_days _ _ _ _ _ _ _ id d Hok2 Hagain Hst)].
  simpl. unfold mret, M_ret. by rewrite Hn2, Hp2, Hc2.
Qed.

(** The cabinet and the issuance agree: the overview shows an ACTIVE
    subscription exactly when the user's subscriptions, in the order the
    issuance looks through them, hold one that gives access now. *)
Theorem overview_agrees s userId now :
  account_reachable s →
  (cs_status <$> ov_subscription (overview s userId now) = Some SUB_ACTIVE ↔
   is_Some (List.find (gives_entitlement now) (user_subscriptions s userId))).
Proof.
  intros [Hok _]%reachable_ok. rewrite (overview_status _ _ _ _ Hok). split.
  - intros (x & Hx & Hg). destruct (List.find _ _) eqn:Hf; [eauto|].
    apply list_elem_of_In, (List.find_none _ _ Hf) in Hx. congruence.
  - intros [x Hf]. apply List.find_some in Hf as [Hx%list_elem_of_In Hg]. eauto.
Qed.

(** ** The bot's keys *)

(** However keys are provisioned, rotated and revoked, no principal ever
    has more than two active ones: the one in use and the one that replaces
    it. *)
Theorem two_active_credentials s principalId :
  account_reachable s → (length (active_credentials s principalId) ≤ 2)%nat.
Proof.
  intros [l Hr]. eapply run_few; [exact Hr|apply system_ok_empty|]. intros p.
  unfold active_credentials, credentials_of, rows, sql_where. simpl.
  rewrite map_filter_empty, map_to_list_empty. simpl. lia.
Qed.

Section bot.
Context (hmac_bytes : list Z → string → list Z) (sha256_bytes : string → list Z).
Context (hmac_is_bytes : ∀ key text, Forall is_byte (hmac_bytes key text)).

(** The bot signs the canonical request with the key it was given. *)
Definition signs (m : BotCredentialMaterial) (input : BotAuthenticationInput) : Prop :=
  ba_credentialId input = ma_credentialId m ∧
  ba_signature input = to_hex (hmac_bytes (ma_signingKey m) (canonical_request sha256_bytes input)).

(** A key the lifecycle gave out stands: after any run of the system that does
    not revoke it, the stored credential opens to it. *)
Lemma issued_key_stands s s1 l s2 encodedKek change signingKey nonce m c :
  account_reachable s → Forall is_byte signingKey → Forall is_byte nonce →
  provisionBotCredential uuid encodedKek change signingKey nonce s = (Ok m, s1) ∨
  rotateBotCredential uuid encodedKek change signingKey nonce s = (Ok m, s1) →
  account_run l s1 s2 → ac_botCredentials s2 !! ma_credentialId m = Some c → bc_revokedAt c = None →
  ma_signingKey m = signingKey ∧ length signingKey = keyByteLength ∧ bc_principalId c = ma_principalId m ∧
  decryptBotSigningKey {| bk_keyCiphertext := bc_keyCiphertext c; bk_nonce := bc_nonce c |} encodedKek
    {| bk_credentialId := ma_credentialId m; bk_principalId := bc_principalId c;
       bk_keyVersion := bc_keyVersion c |} = Some signingKey.
Proof.
  intros Hs Hkb Hbytes Hprov Hrun Hc Hact.
  apply reachable_ok in Hs as Hok. assert (Hk : ∃ c1, key_issued s encodedKek signingKey nonce s1 m c1).
  { destruct Hok as [Hok _]. destruct Hprov as [Hr|Hr];
      [by eapply provision_ok in Hr|by apply rotate_key_ok in Hr]. }
  destruct Hk as (c1 & [Hkey Hcreds _ Hp Hv _ _ Hsealed]).
  assert (Hok1 : system_ok plus_days s1).
  { destruct Hprov as [Hr|Hr].
    - pose proof (act_ok (ProvisionCredential encodedKek change signingKey nonce) s Hok) as Hok1.
      simpl in Hok1. by rewrite Hr in Hok1.
    - pose proof (act_ok (RotateCredential encodedKek change signingKey nonce) s Hok) as Hok1.
      simpl in Hok1. by rewrite Hr in Hok1. }
  apply run_grows in Hrun. destruct (Hrun Hok1) as (_ & Hg & _).
  assert (Hc1 : ac_botCredentials s1 !! ma_credentialId m = Some c1) by (by rewrite Hcreds, lookup_insert_eq).
  destruct (tg_credentials _ _ Hg _ _ Hc1) as (c' & Hc' & Hle). assert (c' = c) as -> by congruence.
  destruct Hle as [->|(_ & ? & _)]; [|done].
  assert (Hlen : length signingKey = keyByteLength).
  { unfold encryptBotSigningKey in Hsealed. by option_invert Hsealed. }
  split_and!; [done|done|done|]. rewrite Hp, Hv. by eapply signing_key_roundtrip.
Qed.

(** A request signed with such a key, in time and with a fresh nonce, is
    authenticated as the principal's. *)
Theorem provisioned_key_authenticates s s1 l s2 encodedKek change signingKey nonce m input c
    databaseNow redisNow r r' :
  account_reachable s → Forall is_byte signingKey → Forall is_byte nonce →
  provisionBotCredential uuid encodedKek change signingKey nonce s = (Ok m, s1) ∨
  rotateBotCredential uuid encodedKek change signingKey nonce s = (Ok m, s1) →
  account_run l s1 s2 → ac_botCredentials s2 !! ma_credentialId m = Some c → bc_revokedAt c = None →
  signs m input → timestamp_fresh databaseNow (ba_timestamp input) = true →
  reserveOnce (nonce_key (ma_principalId m) (ba_nonce input)) NONCE_TTL_MS redisNow r = (true, r') →
  ∃ request, authenticate hmac_bytes sha256_bytes (Some encodedKek) s2 databaseNow redisNow (Some r) input =
      (Ok (Some request), Some r') ∧
    br_principalId request = ma_principalId m ∧ br_credentialId request = ma_credentialId m ∧
    br_telegramUserId request = ba_telegramUserId input ∧ credential_active s2 request = true.
Proof.
  intros Hs Hkb Hbytes Hprov Hrun Hc Hact [Hid Hsig] Hts Hres.
  destruct (issued_key_stands _ _ _ _ _ _ _ _ _ _ Hs Hkb Hbytes Hprov Hrun Hc Hact) as (Hkey & _ & Hp & Hopens).
  rewrite <- Hid in Hc.
  eexists. split; [eapply authenticate_forward; [done|exact Hc|done| |done|by rewrite Hp]|].
  - unfold signature_valid. rewrite Hid, Hopens. apply bool_decide_eq_true. rewrite Hsig, Hkey. by apply from_to_hex.
  - simpl. split_and!; [done|done|done|]. unfold credential_active. simpl. rewrite Hc.
    by rewrite bool_decide_eq_true_2, Hact.
Qed.

(** C29: a request that was let in is not let in again: Redis remembers its
    nonce for as long as its timestamp passes, whatever is reserved and runs in
    between, when the clocks of the two databases are within half a minute. *)
Theorem replay_refused BOT_SIGNING_KEK s1 l s2 databaseNow1 databaseNow2 redisNow1 redisNow2 r1 r2 r3 input request :
  account_reachable s1 → account_run l s1 s2 →
  authenticate hmac_bytes sha256_bytes BOT_SIGNING_KEK s1 databaseNow1 redisNow1 (Some r1) input =
    (Ok (Some request), Some r2) → reserved r2 r3 →
  Z.abs (databaseNow1 - redisNow1) < 30000 → Z.abs (databaseNow2 - redisNow2) < 30000 →
  (authenticate hmac_bytes sha256_bytes BOT_SIGNING_KEK s2 databaseNow2 redisNow2 (Some r3) input).1 = Ok None.
Proof.
  intros Hs%reachable_ok Hrun%run_grows Hauth Hres H1' H2'. destruct (Hrun Hs) as (_ & Hg & _).
  pose proof Hauth as (kek & c1 & r' & _ & Hc1 & _)%authenticate_ok.
  destruct (tg_credentials _ _ Hg _ _ Hc1) as (c2 & Hc2 & Hle).
  eapply (authenticate_twice _ _ _ s1 s2); try done. by destruct Hle as [->|(_ & _ & ? & _)].
Qed.
End bot.

(** ** Logins *)

(** C4: every session goes back to a login of its user: the user's bot asked
    for a launch link, a page began with data Telegram signed for the user and
    that link, the user's bot sent the code that page was given, and the page
    completed it, in this order; a link opens no second session. *)
Theorem session_requires_confirmed_login l s id x :
  account_run l empty_accounts s → ac_sessions s !! id = Some x →
  ∃ telegramUserId challengeId c,
    us_telegramUserId <$> ac_users s !! ss_userId x = Some telegramUserId ∧
    ac_challenges s !! challengeId = Some c ∧ au_userId c = Some (ss_userId x) ∧
    login_finished hmac_sha256 hmac_key JSON_parse Number_toString safe_integer
      AUTH_SESSION_PEPPER TELEGRAM_WEB_APP_VALIDATION_KEY TELEGRAM_INIT_DATA_MAX_AGE_SECONDS
      telegramUserId (au_launchId c) (ss_tokenHash x) l ∧
    ∀ challengeId' c' id', ac_challenges s !! challengeId' = Some c' → au_launchId c' = au_launchId c →
      au_sessionId c' = Some id' → id' = id.
Proof.
  intros Hr Hx. pose proof Hr as Hgrow%run_grows. destruct (Hgrow (system_ok_empty _)) as ([Hok _] & _).
  eapply run_past in Hr; [|apply system_ok_empty|apply login_past_empty]. rewrite app_nil_r in Hr.
  destruct (lp_sessions _ _ _ _ _ _ _ _ _ _ Hr _ _ Hx) as (t & cid & c & Ht & Hc & Hu & Hid & Hf).
  exists t, cid, c. split_and!; try done. intros cid' c' id' Hc' Hl Hid'.
  assert (cid' = cid) as -> by (apply (ao_launches _ _ Hok cid' cid c' c (au_launchId c)); simpl; congruence).
  congruence.
Qed.

Notation complete := (complete uuid hmac_sha256 is_uuid is_datetime AUTH_SESSION_PEPPER AUTH_SESSION_TTL_SECONDS).
Notation currentSession := (currentSession hmac_sha256 AUTH_SESSION_PEPPER).
Notation revokeSession := (revokeSession hmac_sha256 AUTH_SESSION_PEPPER).

(** The session of a secret. *)
Lemma current_session_ok s secret t r :
  currentSession s secret t = Some r →
  ∃ pepper id x, truthy AUTH_SESSION_PEPPER = Some pepper ∧ ac_sessions s !! id = Some x ∧
    ss_tokenHash x = hashSessionSecret hmac_sha256 secret pepper ∧ ss_revokedAt x = None ∧ t < ss_expiresAt x ∧
    secret_text secret = true ∧ r = {| as_userId := ss_userId x; as_expiresAt := ss_expiresAt x |}.
Proof using Type.
  unfold Login.currentSession. intros Hr. option_invert Hr.
  lazymatch goal with Hf : find_row _ _ = Some ?x |- _ => destruct x as [id y]; rename Hf into Hfind end.
  apply find_row_Some in Hfind as [Hy Hp]. rewrite !andb_true_iff, bool_decide_eq_true, is_null_true, Z.ltb_lt in Hp.
  destruct Hp as [[Htok Hrev] Hexp]. injection Hr as <-. by eexists _, id, y.
Qed.

(** A completed login is a session: its secret opens it for the user, after
    any run of the system, until it expires, unless it is revoked. *)
Theorem login_opens_session s secret sessionSecret now session sessionSecret' s1 l s2 t :
  account_reachable s → secret_text sessionSecret = true →
  complete secret sessionSecret now s = (Ok (session, sessionSecret'), s1) → account_run l s1 s2 →
  t < now + AUTH_SESSION_TTL_SECONDS * 1000 →
  (∀ pepper id x, truthy AUTH_SESSION_PEPPER = Some pepper → ac_sessions s2 !! id = Some x →
     ss_tokenHash x = hashSessionSecret hmac_sha256 sessionSecret pepper → ss_revokedAt x = None) →
  sessionSecret' = sessionSecret ∧ currentSession s2 sessionSecret t = Some session.
Proof.
  intros Hs Htext Hr Hrun Ht Hact. apply reachable_ok in Hs as Hok.
  pose proof (act_ok (CompleteLogin secret sessionSecret now) s Hok) as Hok1.
  simpl in Hok1. rewrite Hr in Hok1. apply run_grows in Hrun. destruct (Hrun Hok1) as ([Hok2 _] & Hg & _).
  unfold Login.complete in Hr. destruct (truthy AUTH_SESSION_PEPPER) as [pepper|] eqn:Hp; [|done]. ok_inv Hr. subst.
  split; [done|].
  apply completeInTransaction_ok in Hrun0 as (sid & pid & x & p & c & c' & Hc & ->).
  destruct Hc as [_ _ _ _ _ _ _ Hxs [Hxr Hxe] _ _ _ [= _ _ Es _]].
  assert (Hx : ac_sessions s1 !! sid = Some x) by (by rewrite Es, lookup_insert_eq).
  destruct (tg_sessions _ _ Hg _ _ Hx) as (x2 & Hx2 & Hle).
  destruct Hle as [->|(_ & Hrev & _ & Htok & _)]; [|exfalso; apply Hrev, (Hact pepper sid); [done|done|congruence]].
  unfold Login.currentSession. rewrite Hp. simpl. rewrite option_guard_True by done. simpl.
  rewrite (find_row_unique _ _ sid x); [done|done| |].
  - rewrite bool_decide_eq_true_2 by done. rewrite Hxr, Hxe. simpl. by apply Z.ltb_lt.
  - intros id' y Hy Hpy. rewrite !andb_true_iff, bool_decide_eq_true in Hpy. destruct Hpy as [[Hty _] _].
    apply (ao_sessions _ _ Hok2 id' sid y x (ss_tokenHash x)); simpl; congruence.
Qed.

(** Logging out is final: a revoked session's secret opens nothing, at any
    time, after any run of the system. *)
Theorem logout_is_final s secret t0 r now l s2 t :
  account_reachable s → currentSession s secret t0 = Some r →
  account_run l (revokeSession secret now s).2 s2 → currentSession s2 secret t = None.
Proof.
  intros Hs Hcur Hrun. apply reachable_ok in Hs as Hok.
  pose proof (act_ok (RevokeSession secret now) s Hok) as Hok1.
  simpl in Hok1. apply run_grows in Hrun. destruct (Hrun Hok1) as ([Hok2 _] & Hg & _).
  apply current_session_ok in Hcur as (pepper & id & x & Hp & Hx & Htok & Hact & _ & Htext & _).
  set (s1 := (revokeSession secret now s).2) in *.
  assert (Hx1 : ac_sessions s1 !! id = Some (revoke_session now x)).
  { subst s1. unfold Login.revokeSession. rewrite Hp, Htext. destruct s. simpl in *.
    rewrite lookup_fmap, Hx. simpl. by rewrite bool_decide_eq_true_2, Hact. }
  destruct (tg_sessions _ _ Hg _ _ Hx1) as (x2 & Hx2 & [->|(Hnone & _)]); [|done].
  destruct (currentSession s2 secret t) as [r2|] eqn:H2; [|done]. exfalso.
  apply current_session_ok in H2 as (pepper2 & id2 & y & Hp2 & Hy & Hty & Hay & _).
  assert (id2 = id) as ->.
  { apply (ao_sessions _ _ Hok2 id2 id y (revoke_session now x) (ss_tokenHash x)); [done|done|simpl; congruence|done]. }
  assert (y = revoke_session now x) as -> by congruence. done.
Qed.
End system.
