(* ===== verification/Redis.v ===== *)
(** * Redis: [apps/api/src/redis/redis.service.ts]

    The keys of one database with their expiry, the commands the service's
    scripts are made of, and the service's operations.  A script runs as one
    step, at one time; an error in it keeps what it has written. *)

From stdpp Require Import gmap.
From S2P Require Import Prelude.
From S2P Require Import Keeps.
Open Scope Z_scope.

(** 2^63 - 1 *)
Notation INT64_MAX := 9223372036854775807.

(** A string that holds an integer, or a set. *)
Inductive RedisValue :=
| Counter (n : Z)
| Members (members : gset string).
Record RedisEntry := { re_value : RedisValue; re_expireAt : option Z }.
Notation Redis := (gmap string RedisEntry).

Inductive RedisError := RedisUnreachable | RedisWrongType | RedisOverflow.
Notation RedisM := (M Redis RedisError).

(** An entry whose time has come is no longer there. *)
Definition unexpired (now : Z) (e : RedisEntry) : bool :=
  match re_expireAt e with Some t => now <? t | None => true end.
Definition live (now : Z) (r : Redis) (key : string) : option RedisEntry :=
  e ← r !! key; guard (unexpired now e = true);; Some e.

(** ** Commands *)

Section commands.
Context (now : Z).

Definition redis_put (key : string) (v : RedisValue) (expireAt : option Z) : RedisM unit :=
  modify <[key := {| re_value := v; re_expireAt := expireAt |}]>.

(** [INCR]: a signed integer of 64 bits; the expiry stays. *)
Definition redis_incr (key : string) : RedisM Z :=
  r ← get;
  match live now r key with
  | None => redis_put key (Counter 1) None;; mret 1
  | Some e =>
      match re_value e with
      | Counter n =>
          throw_if (INT64_MAX <=? n) RedisOverflow;;
          redis_put key (Counter (n + 1)) (re_expireAt e);; mret (n + 1)
      | Members _ => throw RedisWrongType
      end
  end.

Definition redis_pexpire (key : string) (ms : Z) : RedisM unit :=
  r ← get;
  match live now r key with
  | None => mret tt
  | Some e => redis_put key (re_value e) (Some (now + ms))
  end.

(** [SADD]: the number of members added. *)
Definition redis_sadd (key member : string) : RedisM Z :=
  r ← get;
  match live now r key with
  | None => redis_put key (Members {[member]}) None;; mret 1
  | Some e =>
      match re_value e with
      | Members s =>
          if bool_decide (member ∈ s) then mret 0
          else redis_put key (Members ({[member]} ∪ s)) (re_expireAt e);; mret 1
      | Counter _ => throw RedisWrongType
      end
  end.

Definition redis_pttl (key : string) : RedisM Z :=
  r ← get;
  mret match live now r key with
       | None => -2
       | Some e => match re_expireAt e with None => -1 | Some t => t - now end
       end.

Definition redis_scard (key : string) : RedisM Z :=
  r ← get;
  match live now r key with
  | None => mret 0
  | Some e => match re_value e with
              | Members s => mret (Z.of_nat (size s))
              | Counter _ => throw RedisWrongType
              end
  end.
End commands.

(** ** The service *)

Section service.
(** [API_REDIS_KEY_NAMESPACE] *)
Context (namespace : string).

Definition keyFor (key : string) : string := namespace +:+ ":" +:+ key.

(** [connected]: whether the command reaches the server. *)
Definition ensureConnected (connected : bool) : RedisM unit :=
  throw_if (negb connected) RedisUnreachable.

Definition incrementWithExpiry (connected : bool) (key : string) (windowMs now : Z) : RedisM Z :=
  ensureConnected connected;;
  attempts ← redis_incr now (keyFor key);
  when (attempts =? 1) (redis_pexpire now (keyFor key) windowMs);;
  mret attempts.

Definition incrementWithCardinality (connected : bool) (rateKey cardinalityKey member : string)
    (windowMs now : Z) : RedisM (Z * Z) :=
  ensureConnected connected;;
  attempts ← redis_incr now (keyFor rateKey);
  when (attempts =? 1) (redis_pexpire now (keyFor rateKey) windowMs);;
  added ← redis_sadd now (keyFor cardinalityKey) member;
  (if added =? 1 then
     ttl ← redis_pttl now (keyFor cardinalityKey);
     when (ttl <? 0) (redis_pexpire now (keyFor cardinalityKey) windowMs)
   else mret tt);;
  cardinality ← redis_scard now (keyFor cardinalityKey);
  mret (attempts, cardinality).

Definition redis_delete (connected : bool) (key : string) : RedisM unit :=
  ensureConnected connected;; modify (delete (keyFor key)).

(** [SET key 1 PX ttl NX] *)
Definition redis_reserveOnce (connected : bool) (key : string) (ttlMs now : Z) : RedisM bool :=
  ensureConnected connected;;
  r ← get;
  match live now r (keyFor key) with
  | Some _ => mret false
  | None => redis_put (keyFor key) (Counter 1) (Some (now + ttlMs));; mret true
  end.

#[export] Instance keyFor_inj : Inj (=) (=) keyFor.
Proof.
  intros k1 k2 H. unfold keyFor in H. by do 2 apply (inj (String.app _)) in H.
Qed.
End service.

(** ** What is live *)

Lemma live_Some now r k e : live now r k = Some e ↔ r !! k = Some e ∧ unexpired now e = true.
Proof.
  unfold live. destruct (r !! k) as [e'|]; simpl; [|naive_solver].
  case_guard; naive_solver.
Qed.
Lemma live_insert now r k e :
  live now (<[k := e]> r) k = if unexpired now e then Some e else None.
Proof. unfold live. rewrite lookup_insert_eq. simpl. by destruct (unexpired now e). Qed.
Lemma live_insert_ne now r k k' e : k ≠ k' → live now (<[k := e]> r) k' = live now r k'.
Proof. intros Hk. unfold live. by rewrite lookup_insert_ne. Qed.
Lemma live_same now r r' k : r !! k = r' !! k → live now r k = live now r' k.
Proof. unfold live. by intros ->. Qed.
(** What is not there does not come back by itself. *)
Lemma live_later now now' r k e : live now' r k = Some e → now ≤ now' → live now r k = Some e.
Proof.
  rewrite !live_Some. unfold unexpired. intros [Hr He] Hn. split; [done|].
  destruct (re_expireAt e); [|done]. apply Z.ltb_lt in He. apply Z.ltb_lt. lia.
Qed.

(** ** Frame: a command changes its own key *)

Definition agree_off (k : string) : relation Redis := λ r r', ∀ k', k' ≠ k → r' !! k' = r !! k'.
#[export] Instance agree_off_preorder k : PreOrder (agree_off k).
Proof. split; [by intros r k'|]. intros r1 r2 r3 H1 H2 k' Hk. by rewrite H2, H1. Qed.

Definition fixes (k : string) : relation Redis := λ r r', r' !! k = r !! k.
#[export] Instance fixes_preorder k : PreOrder (fixes k).
Proof. unfold fixes. split; [by intros r|]. intros r1 r2 r3 H1 H2. congruence. Qed.

Section frame.
Context (k : string) (now : Z).

Lemma put_fixes key v t : key ≠ k → keeps (fixes k) (redis_put key v t).
Proof. intros Hk. apply keeps_modify. intros r. unfold fixes. by rewrite lookup_insert_ne. Qed.
Hint Resolve put_fixes : keeps.
Lemma incr_fixes key : key ≠ k → keeps (fixes k) (redis_incr now key).
Proof. intros Hk. unfold redis_incr. keeps. Qed.
Lemma pexpire_fixes key ms : key ≠ k → keeps (fixes k) (redis_pexpire now key ms).
Proof. intros Hk. unfold redis_pexpire. keeps. Qed.
Lemma sadd_fixes key m : key ≠ k → keeps (fixes k) (redis_sadd now key m).
Proof. intros Hk. unfold redis_sadd. keeps. Qed.
Lemma pttl_fixes key : keeps (fixes k) (redis_pttl now key).
Proof. unfold redis_pttl. keeps. Qed.
Lemma scard_fixes key : keeps (fixes k) (redis_scard now key).
Proof. unfold redis_scard. keeps. Qed.
End frame.
#[export] Hint Resolve put_fixes incr_fixes pexpire_fixes sadd_fixes pttl_fixes scard_fixes : keeps.

Section service_frame.
Context (namespace k : string).

Lemma increment_fixes connected key windowMs now :
  keyFor namespace key ≠ k → keeps (fixes k) (incrementWithExpiry namespace connected key windowMs now).
Proof. intros Hk. unfold incrementWithExpiry, ensureConnected. keeps. Qed.
Lemma cardinality_fixes connected rateKey cardinalityKey member windowMs now :
  keyFor namespace rateKey ≠ k → keyFor namespace cardinalityKey ≠ k →
  keeps (fixes k)
    (incrementWithCardinality namespace connected rateKey cardinalityKey member windowMs now).
Proof. intros Hk Hk'. unfold incrementWithCardinality, ensureConnected. keeps. Qed.
Lemma delete_fixes connected key :
  keyFor namespace key ≠ k → keeps (fixes k) (redis_delete namespace connected key).
Proof.
  intros Hk. unfold redis_delete, ensureConnected. keeps. apply keeps_modify. intros r.
  unfold fixes. by rewrite lookup_delete_ne.
Qed.
Lemma reserve_fixes connected key ttlMs now :
  keyFor namespace key ≠ k → keeps (fixes k) (redis_reserveOnce namespace connected key ttlMs now).
Proof. intros Hk. unfold redis_reserveOnce, ensureConnected. keeps. Qed.
End service_frame.

(** ** What the script of a counter does *)

Section counter.
Context (namespace : string).

(** The state a count leaves, when the key holds a counter or nothing. *)
Lemma increment_first connected key windowMs now r :
  connected = true → 0 < windowMs → live now r (keyFor namespace key) = None →
  incrementWithExpiry namespace connected key windowMs now r =
    (Ok 1, <[keyFor namespace key := {| re_value := Counter 1; re_expireAt := Some (now + windowMs) |}]> r).
Proof.
  intros -> Hw Hl. unfold incrementWithExpiry, ensureConnected.
  rewrite throw_if_pass by done. unfold redis_incr.
  autorewrite with run. rewrite Hl. unfold redis_put. autorewrite with run. simpl.
  unfold redis_pexpire. autorewrite with run. rewrite live_insert. simpl. unfold redis_put.
  autorewrite with run. by rewrite insert_insert_eq.
Qed.
Lemma increment_next connected key windowMs now r n t :
  connected = true → 0 < n < INT64_MAX →
  live now r (keyFor namespace key) = Some {| re_value := Counter n; re_expireAt := t |} →
  incrementWithExpiry namespace connected key windowMs now r =
    (Ok (n + 1), <[keyFor namespace key := {| re_value := Counter (n + 1); re_expireAt := t |}]> r).
Proof.
  intros -> Hn Hl. unfold incrementWithExpiry, ensureConnected.
  rewrite throw_if_pass by done. unfold redis_incr.
  autorewrite with run. rewrite Hl. simpl. autorewrite with run. rewrite throw_if_pass by lia.
  unfold redis_put. autorewrite with run. unfold when.
  by replace (n + 1 =? 1) with false by lia.
Qed.
End counter.
