(* ===== verification/RateLimits.v ===== *)
(** * Rate limits

    The limiters of the API: of logins (auth-issuer-rate-limiter.service.ts),
    trials (trial-activation-rate-limiter.service.ts), the subscription feed
    (subscription-feed-rate-limiter.service.ts), probe submissions
    (probe-ingestion-rate-limiter.service.ts), which count in Redis, and of the
    local subscription prototype (subscription-prototype-rate-limiter.service.ts),
    which counts in the process, and what the API does with Redis together. *)

From S2P Require Import Prelude.
From S2P Require Import Keeps.
From S2P Require Import Redis.
From S2P Require Import BotRequests.
Open Scope Z_scope.

(** ** The limiters *)

Inductive LimitError :=
| LimitExceeded (message : string)     (** 429 *)
| LimitUnavailable (message : string)  (** 503 *)
| LimitFailed (e : RedisError).
Notation LimitM := (M Redis LimitError).

Definition from_redis {A} (m : RedisM A) : LimitM A := λ r,
  match m r with
  | (Ok a, r') => (Ok a, r')
  | (Throw e, r') => (Throw (LimitFailed e), r')
  end.
(** [catch (error) { if (error instanceof HttpException) throw error; throw new
    ServiceUnavailableException(message); }] *)
Definition or_unavailable (message : string) (m : LimitM unit) : LimitM unit :=
  try_catch m (λ e, match e with
                    | LimitFailed _ => throw (LimitUnavailable message)
                    | _ => throw e
                    end).

Section limiters.
Context (namespace : string) (sha256_hex : string → string).
(** Whether Redis is reached, and its clock. *)
Context (connected : bool) (now : Z).

(** [assertAllowed] of the limiter of logins. *)
Definition auth_assertAllowed (AUTH_PRELAUNCH_RATE_LIMIT_WINDOW_MS AUTH_PRELAUNCH_RATE_LIMIT_MAX : Z)
    (key : string) : LimitM unit :=
  or_unavailable "Telegram login is unavailable" (
    attempts ← from_redis
      (incrementWithExpiry namespace connected key AUTH_PRELAUNCH_RATE_LIMIT_WINDOW_MS now);
    throw_if (AUTH_PRELAUNCH_RATE_LIMIT_MAX <? attempts) (LimitExceeded "Too many requests")).

Definition initial_key (telegramUserId : string) : string := "auth-initial:rate-limit:" +:+ telegramUserId.
Definition challenge_key (principalId telegramUserId : string) : string :=
  "auth-challenge:rate-limit:" +:+ principalId +:+ ":" +:+ telegramUserId.
Definition confirm_key (principalId telegramUserId : string) : string :=
  "auth-confirm:rate-limit:" +:+ principalId +:+ ":" +:+ telegramUserId.
Definition complete_key (clientIdentity : string) : string :=
  "auth-complete:rate-limit:" +:+ clientIdentity.

Definition assertInitialAllowed windowMs max telegramUserId : LimitM unit :=
  auth_assertAllowed windowMs max (initial_key telegramUserId).
Definition assertChallengeAllowed windowMs max principalId telegramUserId : LimitM unit :=
  auth_assertAllowed windowMs max (challenge_key principalId telegramUserId).
Definition assertConfirmationAllowed windowMs max principalId telegramUserId : LimitM unit :=
  auth_assertAllowed windowMs max (confirm_key principalId telegramUserId).
Definition assertCompletionAllowed windowMs max clientIdentity : LimitM unit :=
  auth_assertAllowed windowMs max (complete_key clientIdentity).

Definition trial_key (principalId telegramUserId : string) : string :=
  "trial-activation:rate-limit:" +:+ principalId +:+ ":" +:+ telegramUserId.
Definition trial_assertAllowed (TRIAL_ACTIVATION_RATE_LIMIT_WINDOW_MS TRIAL_ACTIVATION_RATE_LIMIT_MAX : Z)
    (principalId telegramUserId : string) : LimitM unit :=
  or_unavailable "Trial activation is unavailable" (
    attempts ← from_redis (incrementWithExpiry namespace connected (trial_key principalId telegramUserId)
                             TRIAL_ACTIVATION_RATE_LIMIT_WINDOW_MS now);
    throw_if (TRIAL_ACTIVATION_RATE_LIMIT_MAX <? attempts)
      (LimitExceeded "Too many trial activation requests")).

Definition feed_key (clientIp : string) : string := "subscription-feed:rate-limit:" +:+ clientIp.
(** Here a failure of Redis is not caught. *)
Definition feed_assertAllowed (SUBSCRIPTION_FEED_RATE_LIMIT_WINDOW_MS SUBSCRIPTION_FEED_RATE_LIMIT_MAX : Z)
    (clientIp : string) : LimitM unit :=
  attempts ← from_redis (incrementWithExpiry namespace connected (feed_key clientIp)
                           SUBSCRIPTION_FEED_RATE_LIMIT_WINDOW_MS now);
  throw_if (SUBSCRIPTION_FEED_RATE_LIMIT_MAX <? attempts) (LimitExceeded "Too many requests").

Definition probe_unavailable : string := "Probe ingestion is unavailable".
Definition probe_ip_key (clientIp : string) : string := "probe-ingestion:ip:" +:+ sha256_hex clientIp.
Definition probe_rate_key (probeSourceId : string) : string :=
  "probe-ingestion:source:" +:+ probeSourceId +:+ ":rate".
Definition probe_scopes_key (probeSourceId : string) : string :=
  "probe-ingestion:source:" +:+ probeSourceId +:+ ":scopes".

Section probe.
Context (PROBE_INGESTION_RATE_LIMIT_WINDOW_MS PROBE_INGESTION_RATE_LIMIT_MAX : Z).
Context (PROBE_INGESTION_MAX_SCOPES_PER_WINDOW : Z).

Definition assertIpAllowed (clientIp : string) : LimitM unit :=
  or_unavailable probe_unavailable (
    attempts ← from_redis (incrementWithExpiry namespace connected (probe_ip_key clientIp)
                             PROBE_INGESTION_RATE_LIMIT_WINDOW_MS now);
    throw_if (PROBE_INGESTION_RATE_LIMIT_MAX <? attempts) (LimitExceeded "Too many probe submissions")).

Definition assertSourceAllowed (probeSourceId kind id : string) : LimitM unit :=
  or_unavailable probe_unavailable (
    result ← from_redis (incrementWithCardinality namespace connected (probe_rate_key probeSourceId)
                           (probe_scopes_key probeSourceId) (sha256_hex (kind +:+ ":" +:+ id))
                           PROBE_INGESTION_RATE_LIMIT_WINDOW_MS now);
    throw_if ((PROBE_INGESTION_RATE_LIMIT_MAX <? result.1) ||
              (PROBE_INGESTION_MAX_SCOPES_PER_WINDOW <? result.2))
      (LimitExceeded "Too many probe submissions")).
End probe.
End limiters.

(** ** The prototype's limiter, in the process *)

Record RateLimitWindow := { rw_startedAt : Z; rw_attempts : Z }.
Notation Windows := (gmap string RateLimitWindow).

Section prototype.
Context (enabled : bool) (windowMs max maxClients : Z).

Definition removeExpiredWindows (now : Z) (w : Windows) : Windows :=
  filter (λ kv : string * RateLimitWindow, now - rw_startedAt kv.2 < windowMs) w.

Definition prototype_assertAllowed (clientIp : string) (now : Z) : M Windows LimitError unit :=
  if negb enabled then mret tt else
  modify (removeExpiredWindows now);;
  w ← get;
  let refused := LimitExceeded "Too many requests" in
  let restart :=
    throw_if (is_null (w !! clientIp) && (maxClients <=? Z.of_nat (size w))) refused;;
    modify <[clientIp := {| rw_startedAt := now; rw_attempts := 1 |}]> in
  match w !! clientIp with
  | None => restart
  | Some current =>
      if windowMs <=? now - rw_startedAt current then restart else
      throw_if (max <=? rw_attempts current) refused;;
      modify <[clientIp := {| rw_startedAt := rw_startedAt current;
                              rw_attempts := rw_attempts current + 1 |}]>
  end.
End prototype.

(** ** The limiters of the API *)

Record LimitEnvironment := {
  AUTH_PRELAUNCH_RATE_LIMIT_WINDOW_MS : Z;
  AUTH_PRELAUNCH_RATE_LIMIT_MAX : Z;
  TRIAL_ACTIVATION_RATE_LIMIT_WINDOW_MS : Z;
  TRIAL_ACTIVATION_RATE_LIMIT_MAX : Z;
  SUBSCRIPTION_FEED_RATE_LIMIT_WINDOW_MS : Z;
  SUBSCRIPTION_FEED_RATE_LIMIT_MAX : Z;
  PROBE_INGESTION_RATE_LIMIT_WINDOW_MS : Z;
  PROBE_INGESTION_RATE_LIMIT_MAX : Z;
  PROBE_INGESTION_MAX_SCOPES_PER_WINDOW : Z;
}.

(** Who is limited in what. *)
Inductive Limited :=
| InitialLogin (telegramUserId : string)
| ChallengeOf (principalId telegramUserId : string)
| ConfirmationOf (principalId telegramUserId : string)
| CompletionBy (clientIdentity : string)
| TrialOf (principalId telegramUserId : string)
| FeedOf (clientIp : string)
| ProbesFrom (clientIp : string).

(** What the API does with Redis. *)
Inductive ApiCommand :=
| Attempt (connected : bool) (x : Limited)
| ProbeAttempt (connected : bool) (probeSourceId kind id : string)
| NonceReservation (connected : bool) (principalId nonce : string).

Section api.
Context (env : LimitEnvironment) (namespace : string) (sha256_hex : string → string).

Definition limited_key (x : Limited) : string :=
  match x with
  | InitialLogin u => initial_key u
  | ChallengeOf p u => challenge_key p u
  | ConfirmationOf p u => confirm_key p u
  | CompletionBy c => complete_key c
  | TrialOf p u => trial_key p u
  | FeedOf ip => feed_key ip
  | ProbesFrom ip => probe_ip_key sha256_hex ip
  end.
Definition limited_window (x : Limited) : Z :=
  match x with
  | TrialOf _ _ => TRIAL_ACTIVATION_RATE_LIMIT_WINDOW_MS env
  | FeedOf _ => SUBSCRIPTION_FEED_RATE_LIMIT_WINDOW_MS env
  | ProbesFrom _ => PROBE_INGESTION_RATE_LIMIT_WINDOW_MS env
  | _ => AUTH_PRELAUNCH_RATE_LIMIT_WINDOW_MS env
  end.
Definition limited_max (x : Limited) : Z :=
  match x with
  | TrialOf _ _ => TRIAL_ACTIVATION_RATE_LIMIT_MAX env
  | FeedOf _ => SUBSCRIPTION_FEED_RATE_LIMIT_MAX env
  | ProbesFrom _ => PROBE_INGESTION_RATE_LIMIT_MAX env
  | _ => AUTH_PRELAUNCH_RATE_LIMIT_MAX env
  end.

Definition assert_limited (connected : bool) (now : Z) (x : Limited) : LimitM unit :=
  let window := AUTH_PRELAUNCH_RATE_LIMIT_WINDOW_MS env in
  let max := AUTH_PRELAUNCH_RATE_LIMIT_MAX env in
  match x with
  | InitialLogin u => assertInitialAllowed namespace connected now window max u
  | ChallengeOf p u => assertChallengeAllowed namespace connected now window max p u
  | ConfirmationOf p u => assertConfirmationAllowed namespace connected now window max p u
  | CompletionBy c => assertCompletionAllowed namespace connected now window max c
  | TrialOf p u => trial_assertAllowed namespace connected now
      (TRIAL_ACTIVATION_RATE_LIMIT_WINDOW_MS env) (TRIAL_ACTIVATION_RATE_LIMIT_MAX env) p u
  | FeedOf ip => feed_assertAllowed namespace connected now
      (SUBSCRIPTION_FEED_RATE_LIMIT_WINDOW_MS env) (SUBSCRIPTION_FEED_RATE_LIMIT_MAX env) ip
  | ProbesFrom ip => assertIpAllowed namespace sha256_hex connected now
      (PROBE_INGESTION_RATE_LIMIT_WINDOW_MS env) (PROBE_INGESTION_RATE_LIMIT_MAX env) ip
  end.

(** The state an API command leaves. *)
Definition api_command (c : Z * ApiCommand) (r : Redis) : Redis :=
  match c.2 with
  | Attempt connected x => (assert_limited connected c.1 x r).2
  | ProbeAttempt connected probeSourceId kind id =>
      (assertSourceAllowed namespace sha256_hex connected c.1 (PROBE_INGESTION_RATE_LIMIT_WINDOW_MS env)
         (PROBE_INGESTION_RATE_LIMIT_MAX env) (PROBE_INGESTION_MAX_SCOPES_PER_WINDOW env)
         probeSourceId kind id r).2
  | NonceReservation connected principalId nonce =>
      (redis_reserveOnce namespace connected (nonce_key principalId nonce) NONCE_TTL_MS c.1 r).2
  end.
Definition api_commands (l : list (Z * ApiCommand)) (r : Redis) : Redis :=
  foldl (λ r c, api_command c r) r l.

(** Whether a command is an attempt by [x] that its limiter lets through. *)
Definition admits (x : Limited) (c : Z * ApiCommand) (r : Redis) : bool :=
  match c.2 with
  | Attempt connected x' =>
      bool_decide (limited_key x' = limited_key x) &&
      match assert_limited connected c.1 x' r with (Ok _, _) => true | _ => false end
  | _ => false
  end.
Fixpoint admitted (x : Limited) (l : list (Z * ApiCommand)) (r : Redis) : Z :=
  match l with
  | [] => 0
  | c :: l' => (if admits x c r then 1 else 0) + admitted x l' (api_command c r)
  end.
End api.
