(* ===== verification/RateLimitBounds.v ===== *)
(** * What the rate limits promise

    Counters of Redis under any history of the API's commands: how many
    attempts pass in a time, that a refusal ends whatever is tried meanwhile,
    and that the prototype's limiter in the process lets through what a
    counter of Redis would. *)

From S2P Require Import Prelude.
From S2P Require Import Keeps.
From S2P Require Import Redis.
From S2P Require Import BotRequests.
From S2P Require Import RateLimits.
Open Scope Z_scope.

(** ** A history of Redis *)

Inductive RedisCommand :=
| Increment (connected : bool) (key : string) (windowMs : Z)
| IncrementCardinality (connected : bool) (rateKey cardinalityKey member : string) (windowMs : Z)
| Reserve (connected : bool) (key : string) (ttlMs : Z).

Section history.
Context (namespace : string).

(** Each command with the time it runs at. *)
Definition run_command (c : Z * RedisCommand) (r : Redis) : Redis :=
  match c.2 with
  | Increment connected key windowMs => (incrementWithExpiry namespace connected key windowMs c.1 r).2
  | IncrementCardinality connected rateKey cardinalityKey member windowMs =>
      (incrementWithCardinality namespace connected rateKey cardinalityKey member windowMs c.1 r).2
  | Reserve connected key ttlMs => (redis_reserveOnce namespace connected key ttlMs c.1 r).2
  end.
Definition run_commands (l : list (Z * RedisCommand)) (r : Redis) : Redis :=
  foldl (λ r c, run_command c r) r l.

(** Whether a command is a count of [key] that returns at most [max]. *)
Definition passes (key : string) (max : Z) (c : Z * RedisCommand) (r : Redis) : bool :=
  match c.2 with
  | Increment connected key' windowMs =>
      bool_decide (key' = key) &&
      match incrementWithExpiry namespace connected key' windowMs c.1 r with
      | (Ok n, _) => n <=? max
      | _ => false
      end
  | _ => false
  end.
Fixpoint passed (key : string) (max : Z) (l : list (Z * RedisCommand)) (r : Redis) : Z :=
  match l with
  | [] => 0
  | c :: l' => (if passes key max c r then 1 else 0) + passed key max l' (run_command c r)
  end.

(** The commands of a history that use [key] count it, in one window. *)
Definition counts_only (key : string) (windowMs : Z) (c : RedisCommand) : Prop :=
  match c with
  | Increment _ key' windowMs' => key' = key → windowMs' = windowMs
  | IncrementCardinality _ rateKey cardinalityKey _ _ => rateKey ≠ key ∧ cardinalityKey ≠ key
  | Reserve _ key' _ => key' ≠ key
  end.

(** Times that do not go back, from [now] on. *)
Fixpoint timed (now : Z) (l : list (Z * RedisCommand)) : Prop :=
  match l with
  | [] => True
  | c :: l' => now ≤ c.1 ∧ timed c.1 l'
  end.

(** The counter of a key at a time: nothing, or a count within its window. *)
Definition window_ok (key : string) (windowMs now : Z) (r : Redis) : Prop :=
  match live now r (keyFor namespace key) with
  | None => True
  | Some e => ∃ n t, e = {| re_value := Counter n; re_expireAt := Some t |} ∧
      0 < n ≤ INT64_MAX ∧ t ≤ now + windowMs
  end.

(** ** One count *)

Section counting.
Context (key : string) (windowMs : Z).
Implicit Types (r : Redis) (c : Z * RedisCommand) (l : list (Z * RedisCommand)).

(** What a count does to a counter in its window. *)
Inductive counted_as (now : Z) r : outcome RedisError Z * Redis → Prop :=
| CountFails e : counted_as now r (Throw e, r)
| CountStarts : live now r (keyFor namespace key) = None →
    counted_as now r (Ok 1,
      <[keyFor namespace key := {| re_value := Counter 1; re_expireAt := Some (now + windowMs) |}]> r)
| CountGoesOn n t :
    live now r (keyFor namespace key) = Some {| re_value := Counter n; re_expireAt := Some t |} →
    0 < n < INT64_MAX → t ≤ now + windowMs →
    counted_as now r (Ok (n + 1),
      <[keyFor namespace key := {| re_value := Counter (n + 1); re_expireAt := Some t |}]> r).

Lemma increment_counts connected now r :
  0 < windowMs → window_ok key windowMs now r →
  counted_as now r (incrementWithExpiry namespace connected key windowMs now r).
Proof.
  intros Hw Hok. destruct connected; [|apply CountFails]. unfold window_ok in Hok.
  destruct (live now r (keyFor namespace key)) as [e|] eqn:Hl.
  - destruct Hok as (n & t & -> & Hn & Ht).
    destruct (decide (n = INT64_MAX)) as [->|Hne].
    + unfold incrementWithExpiry, ensureConnected. rewrite throw_if_pass by done.
      unfold redis_incr. autorewrite with run. rewrite Hl. apply CountFails.
    + rewrite (increment_next _ _ _ _ _ _ n (Some t)) by (done || lia). apply CountGoesOn; [done|lia..].
  - rewrite increment_first by done. by apply CountStarts.
Qed.

Lemma window_ok_same now r r' :
  r' !! keyFor namespace key = r !! keyFor namespace key → window_ok key windowMs now r →
  window_ok key windowMs now r'.
Proof. intros Hr. unfold window_ok. by rewrite (live_same now r' r _ Hr). Qed.
Lemma window_ok_later now now' r :
  now ≤ now' → window_ok key windowMs now r → window_ok key windowMs now' r.
Proof.
  intros Hn Hok. unfold window_ok in *. destruct (live now' r _) as [e|] eqn:Hl; [|done].
  rewrite (live_later _ _ _ _ _ Hl Hn) in Hok. destruct Hok as (n & t & -> & ? & ?). exists n, t.
  split_and!; (done || lia).
Qed.
Lemma window_ok_empty now : window_ok key windowMs now ∅.
Proof. done. Qed.

(** A command of a history counts the key, or leaves it. *)
Lemma run_command_cases c r :
  counts_only key windowMs c.2 →
  (∃ connected, c.2 = Increment connected key windowMs) ∨
  (∀ max, passes key max c r = false) ∧ run_command c r !! keyFor namespace key = r !! keyFor namespace key.
Proof.
  destruct c as [now [connected key' windowMs'|connected k1 k2 m windowMs'|connected key' ttlMs]]; simpl.
  - intros Hw. destruct (decide (key' = key)) as [->|Hne]; [left; rewrite Hw by done; eauto|]. right. split.
    + intros max. unfold passes. simpl. by rewrite bool_decide_eq_false_2.
    + apply increment_fixes. by intros ?%(inj _).
  - intros [H1 H2]. right. split; [done|]. apply cardinality_fixes; by intros ?%(inj _).
  - intros Hk. right. split; [done|]. apply reserve_fixes. by intros ?%(inj _).
Qed.

Lemma run_command_window c r :
  0 < windowMs → counts_only key windowMs c.2 → window_ok key windowMs c.1 r →
  window_ok key windowMs c.1 (run_command c r).
Proof.
  intros Hw Hc Hok. destruct (run_command_cases c r Hc) as [[connected Hi]|[_ Hsame]];
    [|by eapply window_ok_same].
  unfold run_command. rewrite Hi. destruct (increment_counts connected c.1 r Hw Hok) as [e|Hl|n t Hl Hn Ht];
    simpl; [done|..]; unfold window_ok; rewrite live_insert; unfold unexpired; simpl;
    (destruct (c.1 <? _); [|done]).
  - exists 1, (c.1 + windowMs). split_and!; (done || lia).
  - exists (n + 1), t. split_and!; (done || lia).
Qed.

Lemma run_commands_window now l r :
  0 < windowMs → Forall (λ c, counts_only key windowMs c.2) l → timed now l →
  window_ok key windowMs now r → ∀ now', now ≤ now' → Forall (λ c, c.1 ≤ now') l →
  window_ok key windowMs now' (run_commands l r).
Proof.
  intros Hw Hc. revert now r. induction Hc as [|c l Hc Hl IH]; intros now r; simpl.
  - intros _ Hok now' Hn _. by eapply window_ok_later.
  - intros [H1 H2] Hok now' Hn [Hc' Hl']%Forall_cons. apply (IH c.1); try done.
    apply run_command_window; [done..|]. by eapply window_ok_later.
Qed.

(** ** How many pass *)

(** What a key may still pass before [finish]. *)
Definition allowance (max finish now : Z) r : Z :=
  match live now r (keyFor namespace key) with
  | None => max
  | Some e =>
      match re_value e, re_expireAt e with
      | Counter n, Some t => Z.max 0 (max - n) + (if t <? finish then max else 0)
      | _, _ => 0
      end
  end.

Lemma allowance_later max finish now now' r :
  0 ≤ max → now ≤ now' < finish → window_ok key windowMs now r →
  allowance max finish now' r ≤ allowance max finish now r.
Proof.
  intros Hm Hn Hok. unfold allowance, window_ok in *.
  destruct (live now r _) as [e|] eqn:Hl.
  - destruct Hok as (n & t & -> & _ & _). simpl.
    destruct (live now' r _) as [e'|] eqn:Hl'.
    + rewrite (live_later _ _ _ _ _ Hl') in Hl by lia. injection Hl as ->. simpl. lia.
    + apply live_Some in Hl as [Hl _]. unfold live in Hl'. rewrite Hl in Hl'. simpl in Hl'.
      unfold unexpired in Hl'. simpl in Hl'. destruct (Z.ltb_spec now' t); [done|].
      destruct (Z.ltb_spec t finish); lia.
  - destruct (live now' r _) as [e'|] eqn:Hl'; [|lia].
    rewrite (live_later _ _ _ _ _ Hl') in Hl by lia. done.
Qed.

Lemma one_passes max finish c r :
  0 < windowMs → 0 ≤ max → counts_only key windowMs c.2 → window_ok key windowMs c.1 r →
  finish ≤ c.1 + windowMs →
  (if passes key max c r then 1 else 0) + allowance max finish c.1 (run_command c r) ≤
  allowance max finish c.1 r.
Proof.
  intros Hw Hm Hc Hok Hf. destruct (run_command_cases c r Hc) as [[connected Hi]|[Hp Hsame]].
  2:{ rewrite Hp. unfold allowance. rewrite (live_same _ _ _ _ Hsame). lia. }
  unfold passes, run_command. rewrite Hi, bool_decide_eq_true_2 by done. simpl.
  destruct (increment_counts connected c.1 r Hw Hok) as [e|Hl|n t Hl Hn Ht]; simpl; [lia|..].
  - unfold allowance. rewrite live_insert, Hl. unfold unexpired. simpl.
    replace (c.1 <? c.1 + windowMs) with true by lia. simpl.
    destruct (Z.ltb_spec (c.1 + windowMs) finish); destruct (Z.leb_spec 1 max); lia.
  - unfold allowance. rewrite live_insert, Hl. unfold unexpired. simpl.
    apply live_Some in Hl as [_ Hl]. unfold unexpired in Hl. simpl in Hl. rewrite Hl. simpl.
    destruct (t <? finish); destruct (Z.leb_spec (n + 1) max); lia.
Qed.

Lemma passed_allowance max finish l : ∀ now r,
  0 < windowMs → 0 ≤ max → Forall (λ c, counts_only key windowMs c.2 ∧ c.1 < finish) l → timed now l →
  window_ok key windowMs now r → finish ≤ now + windowMs →
  passed key max l r ≤ allowance max finish now r.
Proof.
  intros now r Hw Hm Hl. revert now r. induction Hl as [|c l [Hc Ht] Hl IH]; intros now r; simpl.
  - intros _ Hok _. unfold allowance, window_ok in *. destruct (live now r _) as [e|]; [|done].
    destruct Hok as (n & t & -> & _ & _). simpl. destruct (t <? finish); lia.
  - intros [H1 H2] Hok Hf. pose proof (window_ok_later _ _ _ H1 Hok) as Hok'.
    pose proof (allowance_later max finish now c.1 r Hm ltac:(lia) Hok).
    pose proof (one_passes max finish c r Hw Hm Hc Hok' ltac:(lia)).
    specialize (IH c.1 (run_command c r) H2 (run_command_window _ _ Hw Hc Hok') ltac:(lia)). lia.
Qed.
End counting.
End history.

(** ** The API's commands as a history *)

Section api.
Context (env : LimitEnvironment) (namespace : string) (sha256_hex : string → string).
Notation limited_key := (limited_key sha256_hex).
Notation limited_window := (limited_window env).
Notation limited_max := (limited_max env).
Notation assert_limited := (assert_limited env namespace sha256_hex).
Notation api_command := (api_command env namespace sha256_hex).

(** The Redis command behind it. *)
Definition command_of (c : ApiCommand) : RedisCommand :=
  match c with
  | Attempt connected x => Increment connected (limited_key x) (limited_window x)
  | ProbeAttempt connected probeSourceId kind id =>
      IncrementCardinality connected (probe_rate_key probeSourceId) (probe_scopes_key probeSourceId)
        (sha256_hex (kind +:+ ":" +:+ id)) (PROBE_INGESTION_RATE_LIMIT_WINDOW_MS env)
  | NonceReservation connected principalId nonce =>
      Reserve connected (nonce_key principalId nonce) NONCE_TTL_MS
  end.
Definition timed_command (c : Z * ApiCommand) : Z * RedisCommand := (c.1, command_of c.2).

(** What a limiter makes of the count. *)
Lemma limit_outcome {A} (m : RedisM A) exceeded e r :
  (from_redis m ≫= λ a, throw_if (exceeded a) (LimitExceeded e)) r =
  match m r with
  | (Ok a, r') => (if exceeded a then Throw (LimitExceeded e) else Ok tt, r')
  | (Throw x, r') => (Throw (LimitFailed x), r')
  end.
Proof.
  unfold mbind, M_bind, from_redis. destruct (m r) as [[a|x] r']; [|done].
  by destruct (exceeded a).
Qed.
Lemma or_unavailable_outcome message m r :
  or_unavailable message m r =
  match m r with
  | (Throw (LimitFailed _), r') => (Throw (LimitUnavailable message), r')
  | o => o
  end.
Proof. unfold or_unavailable, try_catch. by destruct (m r) as [[[]|[| |]] ?]. Qed.

Lemma assert_limited_outcome connected now x r :
  let (count, r') := incrementWithExpiry namespace connected (limited_key x) (limited_window x) now r in
  (assert_limited connected now x r).2 = r' ∧
  ((assert_limited connected now x r).1 = Ok tt ↔ ∃ n, count = Ok n ∧ n ≤ limited_max x).
Proof.
  destruct x; simpl; unfold assertInitialAllowed, assertChallengeAllowed, assertConfirmationAllowed,
    assertCompletionAllowed, auth_assertAllowed, trial_assertAllowed, feed_assertAllowed, assertIpAllowed;
  rewrite ?or_unavailable_outcome, limit_outcome;
  (destruct (incrementWithExpiry _ _ _ _ _ _) as [[n|e] r'];
    [match goal with |- context [?m <? n] => destruct (Z.ltb_spec m n) end|]);
  simpl; (split; [done|]); naive_solver lia.
Qed.

(** Keys tell the kinds of limits apart. *)
Lemma limited_key_kind x y :
  limited_key x = limited_key y → limited_window x = limited_window y ∧ limited_max x = limited_max y.
Proof. destruct x, y; simpl; done || (intros [=]). Qed.

Lemma api_command_runs c r : api_command c r = run_command namespace (timed_command c) r.
Proof.
  destruct c as [now [connected x|connected source kind id|connected p n]]; [| |done].
  - unfold api_command, run_command. simpl. pose proof (assert_limited_outcome connected now x r) as Ho.
    destruct (incrementWithExpiry _ _ _ _ _ _) as [count r']. by destruct Ho.
  - unfold api_command, run_command, assertSourceAllowed. simpl. rewrite or_unavailable_outcome, limit_outcome.
    destruct (incrementWithCardinality _ _ _ _ _ _ _ _) as [[n|e] r']; [|done]. by destruct (_ || _).
Qed.
Lemma admits_passes x c r :
  admits env namespace sha256_hex x c r =
  passes namespace (limited_key x) (limited_max x) (timed_command c) r.
Proof.
  destruct c as [now [connected y|connected source kind id|connected p n]]; [|done..].
  unfold admits, passes. simpl. case_bool_decide as Hk; [|done]. simpl.
  destruct (limited_key_kind _ _ Hk) as [_ Hm]. pose proof (assert_limited_outcome connected now y r) as Ho.
  destruct (incrementWithExpiry _ _ _ _ _ _) as [count r'], (assert_limited _ _ _ _) as [o r''].
  destruct Ho as [_ Ho]. simpl in Ho. rewrite Hm in Ho.
  destruct o as [[]|e].
  - destruct Ho as [Ho _]. destruct (Ho eq_refl) as (n & -> & ?). symmetry. by apply Z.leb_le.
  - destruct count as [n|e']; [|done]. destruct (Z.leb_spec n (limited_max x)); [|done].
    destruct Ho as [_ Ho]. discriminate Ho. eauto.
Qed.
Lemma api_counts_only x c : counts_only (limited_key x) (limited_window x) (command_of c).
Proof.
  destruct c as [connected y|connected source kind id|connected p n]; simpl.
  - intros Hk. by apply limited_key_kind.
  - destruct x; split; intros [=].
  - destruct x; intros [=].
Qed.

Definition timed_commands (l : list (Z * ApiCommand)) : list (Z * RedisCommand) := timed_command <$> l.

Lemma api_commands_run l r :
  api_commands env namespace sha256_hex l r = run_commands namespace (timed_commands l) r.
Proof. revert r. induction l as [|c l IH]; intros r; simpl; [done|]. by rewrite api_command_runs, IH. Qed.
Lemma admitted_passed x l r :
  admitted env namespace sha256_hex x l r =
  passed namespace (limited_key x) (limited_max x) (timed_commands l) r.
Proof.
  revert r. induction l as [|c l IH]; intros r; simpl; [done|].
  by rewrite admits_passes, api_command_runs, IH.
Qed.
Lemma timed_counts_only x l : Forall (λ c, counts_only (limited_key x) (limited_window x) c.2) (timed_commands l).
Proof. apply Forall_fmap, Forall_forall. intros c _. apply api_counts_only. Qed.

(** Times that do not go back, from [now] on, and stay before [finish]. *)
Fixpoint clocked (now finish : Z) (l : list (Z * ApiCommand)) : Prop :=
  match l with
  | [] => True
  | c :: l' => now ≤ c.1 < finish ∧ clocked c.1 finish l'
  end.
Lemma clocked_timed now finish l :
  clocked now finish l → timed now (timed_commands l) ∧ Forall (λ c, c.1 < finish) (timed_commands l).
Proof.
  revert now. induction l as [|c l IH]; intros now; simpl; [by split|].
  intros [[? ?] [? ?]%IH]. split; [done|by constructor].
Qed.

(** Every history leaves the counters within their windows. *)
Lemma history_window x l now finish :
  0 < limited_window x → now ≤ finish → clocked now finish l →
  window_ok namespace (limited_key x) (limited_window x) finish (api_commands env namespace sha256_hex l ∅).
Proof.
  intros Hw Hn [Ht Hf]%clocked_timed. rewrite api_commands_run.
  apply (run_commands_window namespace _ _ now); try done; [apply timed_counts_only|].
  eapply Forall_impl; [exact Hf|]. intros c ?. simpl in *. lia.
Qed.

Lemma window_allowance x max finish now r :
  0 ≤ max → window_ok namespace (limited_key x) (limited_window x) now r →
  allowance namespace (limited_key x) max finish now r ≤ 2 * max.
Proof.
  intros Hm Hok. unfold allowance, window_ok in *. destruct (live now r _) as [e|]; [|lia].
  destruct Hok as (n & t & -> & ? & ?). simpl. destruct (t <? finish); lia.
Qed.

(** C17: whatever has been done with Redis before, and whatever else is done
    meanwhile, a rate limiter of the API lets at most twice its maximum through
    in a time as long as its window (the limit of a fixed window). *)
Theorem rate_limit_bound x before l now start :
  0 < limited_window x → 0 ≤ limited_max x → now ≤ start → clocked now start before →
  clocked start (start + limited_window x) l →
  admitted env namespace sha256_hex x l (api_commands env namespace sha256_hex before ∅) ≤ 2 * limited_max x.
Proof.
  intros Hw Hm Hn Hb Hl. pose proof (history_window _ _ _ _ Hw Hn Hb) as Hok.
  rewrite admitted_passed. destruct (clocked_timed _ _ _ Hl) as [Ht Hf].
  etrans; [|by apply (window_allowance x (limited_max x) (start + limited_window x) start)].
  apply (passed_allowance namespace _ (limited_window x)); try done.
  apply Forall_and. split; [apply timed_counts_only|done].
Qed.

(** ** Refusals end *)

(** The time a window ends does not move while it lasts. *)
Lemma command_keeps_expiry x c n t r :
  0 < limited_window x → window_ok namespace (limited_key x) (limited_window x) c.1 r →
  live c.1 r (keyFor namespace (limited_key x)) = Some {| re_value := Counter n; re_expireAt := Some t |} →
  ∃ n', live c.1 (api_command c r) (keyFor namespace (limited_key x)) =
        Some {| re_value := Counter n'; re_expireAt := Some t |}.
Proof.
  intros Hw Hok Hl. rewrite api_command_runs. pose proof (api_counts_only x c.2) as Hc.
  destruct (run_command_cases namespace _ _ (timed_command c) r Hc) as [[connected Hi]|[_ Hsame]].
  2:{ exists n. by rewrite (live_same _ _ _ _ Hsame). }
  unfold run_command. rewrite Hi. simpl.
  destruct (increment_counts namespace _ _ connected c.1 r Hw Hok) as [e|Hl'|n' t' Hl' Hn Ht]; simpl.
  - eauto.
  - congruence.
  - exists (n' + 1). rewrite live_insert. apply live_Some in Hl as [Hr Hu].
    apply live_Some in Hl' as [Hr' _]. rewrite Hr in Hr'. injection Hr' as <- <-.
    unfold unexpired in *. simpl in *. by rewrite Hu.
Qed.

Lemma window_over x l now until r n :
  0 < limited_window x → clocked now until l → window_ok namespace (limited_key x) (limited_window x) now r →
  r !! keyFor namespace (limited_key x) = Some {| re_value := Counter n; re_expireAt := Some until |} →
  ∃ n', api_commands env namespace sha256_hex l r !! keyFor namespace (limited_key x) =
        Some {| re_value := Counter n'; re_expireAt := Some until |}.
Proof.
  intros Hw. revert now r n. induction l as [|c l IH]; intros now r n; simpl; [eauto|].
  intros [Hc Hl] Hok Hr. pose proof (window_ok_later namespace _ _ now c.1 r ltac:(lia) Hok) as Hok'.
  destruct (command_keeps_expiry x c n until r Hw Hok') as [n' Hn'].
  { apply live_Some. split; [done|]. apply Z.ltb_lt. lia. }
  apply live_Some in Hn' as [Hn' _]. apply (IH c.1 _ n' Hl); [|done].
  rewrite api_command_runs.
  apply (run_command_window namespace _ _ (timed_command c)); [done|apply api_counts_only|done].
Qed.

Lemma admitted_when_over connected x r now :
  connected = true → 0 < limited_window x → 1 ≤ limited_max x →
  live now r (keyFor namespace (limited_key x)) = None → (assert_limited connected now x r).1 = Ok tt.
Proof.
  intros -> Hw Hm Hl. pose proof (assert_limited_outcome true now x r) as Ho.
  rewrite increment_first in Ho by done. destruct Ho as [_ ->]. eauto.
Qed.

(** Being refused does not prolong a refusal: when a limiter refuses an
    attempt, there is a time, at most its window later, from which the next
    attempt passes, whatever is tried until then. *)
Theorem refusal_ends x before now start :
  0 < limited_window x → 1 ≤ limited_max x → now ≤ start → clocked now start before →
  let r := api_commands env namespace sha256_hex before ∅ in
  (assert_limited true start x r).1 ≠ Ok tt →
  ∃ until, start < until ≤ start + limited_window x ∧
    ∀ l later, clocked start until l → until ≤ later →
      (assert_limited true later x
         (api_commands env namespace sha256_hex ((start, Attempt true x) :: l) r)).1 = Ok tt.
Proof.
  intros Hw Hm Hn Hb r Hno. pose proof (history_window _ _ _ _ Hw Hn Hb) as Hok. fold r in Hok.
  destruct (live start r (keyFor namespace (limited_key x))) as [e|] eqn:Hl.
  2:{ contradict Hno. by apply admitted_when_over. }
  pose proof Hok as Hok'. unfold window_ok in Hok'. rewrite Hl in Hok'.
  destruct Hok' as (n & until & -> & Hn' & Hu). apply live_Some in Hl as [Hr Hl].
  apply Z.ltb_lt in Hl. exists until. split; [done|]. intros l later Hc Hlater.
  apply admitted_when_over; [done..|].
  destruct (window_over x ((start, Attempt true x) :: l) start until r n) as [n' Hn'']; [done..| |done|done|].
  { simpl. split; [lia|done]. }
  unfold live. rewrite Hn''. simpl. unfold unexpired. simpl.
  by replace (later <? until) with false by lia.
Qed.
End api.

(** ** The limiter in the process *)

Section prototype.
Context (namespace : string) (windowMs max maxClients : Z).
Notation feed r ip now := (feed_assertAllowed namespace true now windowMs max ip r).
Notation proto w ip now := (prototype_assertAllowed true windowMs max maxClients ip now w).

Definition is_ok {E A} (o : outcome E A) : bool := match o with Ok _ => true | Throw _ => false end.

(** What the two limiters answer to the same attempts. *)
Fixpoint feed_answers (l : list (Z * string)) (r : Redis) : list bool :=
  match l with
  | [] => []
  | (now, ip) :: l' => is_ok (feed r ip now).1 :: feed_answers l' (feed r ip now).2
  end.
Fixpoint prototype_answers (l : list (Z * string)) (w : Windows) : list bool :=
  match l with
  | [] => []
  | (now, ip) :: l' => is_ok (proto w ip now).1 :: prototype_answers l' (proto w ip now).2
  end.

Definition window_at (now : Z) (w : Windows) (ip : string) : option RateLimitWindow :=
  removeExpiredWindows windowMs now w !! ip.

(** A counter of Redis and a window of the process that say the same. *)
Definition tells_the_same (now : Z) (e : option RedisEntry) (v : option RateLimitWindow) : Prop :=
  match e, v with
  | None, None => True
  | Some {| re_value := Counter n; re_expireAt := Some t |}, Some v =>
      0 < n ≤ INT64_MAX ∧ t = rw_startedAt v + windowMs ∧ rw_attempts v = Z.min n max ∧ t ≤ now + windowMs
  | _, _ => False
  end.
Definition same_windows (now : Z) (r : Redis) (w : Windows) : Prop :=
  ∀ ip, tells_the_same now (live now r (keyFor namespace (feed_key ip))) (window_at now w ip).

Lemma window_at_Some now w ip v :
  window_at now w ip = Some v ↔ w !! ip = Some v ∧ now < rw_startedAt v + windowMs.
Proof.
  unfold window_at, removeExpiredWindows. rewrite map_lookup_filter_Some. simpl.
  split; intros [? ?]; (split; [done|lia]).
Qed.
Lemma window_at_twice now w ip : window_at now (removeExpiredWindows windowMs now w) ip = window_at now w ip.
Proof.
  apply option_eq. intros v. rewrite window_at_Some. fold (window_at now w ip).
  rewrite window_at_Some. naive_solver.
Qed.

Lemma same_windows_later now now' r w : now ≤ now' → same_windows now r w → same_windows now' r w.
Proof.
  intros Hn Hs ip. specialize (Hs ip). unfold tells_the_same in *.
  destruct (live now' r _) as [e'|] eqn:Hl', (window_at now' w ip) as [v'|] eqn:Hw'.
  - rewrite (live_later _ _ _ _ _ Hl' Hn) in Hs. apply window_at_Some in Hw' as [Hw' ?].
    rewrite (proj2 (window_at_Some now w ip v')) in Hs by (split; [done|lia]).
    destruct e' as [[n|] [t|]]; naive_solver lia.
  - rewrite (live_later _ _ _ _ _ Hl' Hn) in Hs. apply live_Some in Hl' as [_ Hu]. unfold unexpired in Hu.
    destruct e' as [[n|] [t|]], (window_at now w ip) as [v|] eqn:Hw; try done. simpl in Hu.
    apply window_at_Some in Hw as [Hw ?]. apply Z.ltb_lt in Hu.
    rewrite (proj2 (window_at_Some now' w ip v)) in Hw'; [done|]. split; [done|lia].
  - apply window_at_Some in Hw' as [Hw' ?].
    rewrite (proj2 (window_at_Some now w ip v')) in Hs by (split; [done|lia]).
    destruct (live now r _) as [[[n|] [t|]]|] eqn:Hl; try done.
    destruct Hs as (? & -> & ?). apply live_Some in Hl as [Hr _]. unfold live in Hl'. rewrite Hr in Hl'.
    simpl in Hl'. unfold unexpired in Hl'. simpl in Hl'.
    replace (now' <? rw_startedAt v' + windowMs) with true in Hl' by lia. done.
  - done.
Qed.

(** An attempt at the process's limiter. *)
Lemma prototype_outcome w ip now :
  proto w ip now =
  match window_at now w ip with
  | None =>
      if maxClients <=? Z.of_nat (size (removeExpiredWindows windowMs now w))
      then (Throw (LimitExceeded "Too many requests"), removeExpiredWindows windowMs now w)
      else (Ok tt, <[ip := {| rw_startedAt := now; rw_attempts := 1 |}]> (removeExpiredWindows windowMs now w))
  | Some v =>
      if max <=? rw_attempts v
      then (Throw (LimitExceeded "Too many requests"), removeExpiredWindows windowMs now w)
      else (Ok tt, <[ip := {| rw_startedAt := rw_startedAt v; rw_attempts := rw_attempts v + 1 |}]>
                     (removeExpiredWindows windowMs now w))
  end.
Proof.
  unfold prototype_assertAllowed. simpl. autorewrite with run. fold (window_at now w ip).
  destruct (window_at now w ip) as [v|] eqn:Hv.
  - apply window_at_Some in Hv as [_ ?]. replace (windowMs <=? now - rw_startedAt v) with false by lia.
    by destruct (max <=? rw_attempts v).
  - simpl. by destruct (maxClients <=? _).
Qed.

Lemma window_at_insert now w ip v :
  now < rw_startedAt v + windowMs → window_at now (<[ip := v]> w) ip = Some v.
Proof. intros Hv. apply window_at_Some. by rewrite lookup_insert_eq. Qed.
Lemma window_at_insert_ne now w ip ip' v :
  ip ≠ ip' → window_at now (<[ip := v]> w) ip' = window_at now w ip'.
Proof. intros Hne. apply option_eq. intros v'. by rewrite !window_at_Some, lookup_insert_ne. Qed.

Lemma feed_keys_differ ip ip' : ip ≠ ip' → keyFor namespace (feed_key ip) ≠ keyFor namespace (feed_key ip').
Proof. intros Hne ?%(inj _). apply Hne. unfold feed_key in *. by simplify_eq/=. Qed.

Lemma feed_outcome r ip now :
  feed r ip now =
  match incrementWithExpiry namespace true (feed_key ip) windowMs now r with
  | (Ok n, r') => (if max <? n then Throw (LimitExceeded "Too many requests") else Ok tt, r')
  | (Throw e, r') => (Throw (LimitFailed e), r')
  end.
Proof. apply limit_outcome. Qed.

(** Both limiters change what they know of the client only. *)
Lemma same_windows_update now r w ip e v :
  same_windows now r w → unexpired now e = true → now < rw_startedAt v + windowMs →
  tells_the_same now (Some e) (Some v) →
  same_windows now (<[keyFor namespace (feed_key ip) := e]> r) (<[ip := v]> (removeExpiredWindows windowMs now w)).
Proof.
  intros Hs Hu Hv Ht ip'. destruct (decide (ip = ip')) as [<-|Hne].
  - by rewrite live_insert, Hu, window_at_insert.
  - rewrite live_insert_ne by by apply feed_keys_differ.
    rewrite window_at_insert_ne, window_at_twice by done. apply Hs.
Qed.
Lemma same_windows_clean now r w :
  same_windows now r w → same_windows now r (removeExpiredWindows windowMs now w).
Proof. intros Hs ip. rewrite window_at_twice. apply Hs. Qed.

Lemma answers_step now r w ip :
  0 < windowMs → 1 ≤ max < INT64_MAX → same_windows now r w →
  (window_at now w ip = None → Z.of_nat (size (removeExpiredWindows windowMs now w)) < maxClients) →
  is_ok (feed r ip now).1 = is_ok (proto w ip now).1 ∧ same_windows now (feed r ip now).2 (proto w ip now).2.
Proof.
  intros Hw Hm Hs Hroom. rewrite prototype_outcome, feed_outcome. pose proof (Hs ip) as Hip.
  destruct (live now r _) as [[[n|] [t|]]|] eqn:Hl, (window_at now w ip) as [v|] eqn:Hv; try done; simpl in Hip.
  - destruct Hip as (Hn & -> & Ha & Ht). pose proof (proj1 (live_Some _ _ _ _) Hl) as [_ Hu].
    pose proof (proj1 (window_at_Some _ _ _ _) Hv) as [_ Hlive]. rewrite Ha.
    destruct (decide (n = INT64_MAX)) as [->|Hne].
    { unfold incrementWithExpiry, ensureConnected. rewrite throw_if_pass by done. unfold redis_incr.
      autorewrite with run. rewrite Hl. simpl. replace (max <=? _) with true by lia. split; [done|].
      by apply same_windows_clean. }
    rewrite (increment_next _ _ _ _ _ _ n (Some (rw_startedAt v + windowMs))) by (done || lia).
    destruct (Z.ltb_spec max (n + 1)).
    + replace (max <=? Z.min n max) with true by lia. simpl. split; [done|]. intros ip'.
      destruct (decide (ip = ip')) as [<-|Hne'].
      * rewrite live_insert, window_at_twice, Hv. unfold unexpired in *. simpl in *. rewrite Hu.
        split_and!; (done || lia).
      * rewrite live_insert_ne by by apply feed_keys_differ. rewrite window_at_twice. apply Hs.
    + replace (max <=? Z.min n max) with false by lia. simpl. split; [done|].
      apply same_windows_update; [done..|]. simpl. split_and!; (done || lia).
  - rewrite increment_first by done. specialize (Hroom eq_refl).
    replace (max <? 1) with false by lia. replace (maxClients <=? _) with false by lia. simpl. split; [done|].
    apply same_windows_update; [done|unfold unexpired; simpl; lia|simpl; lia|].
    simpl. split_and!; (done || lia).
Qed.

Lemma proto_dom now w ip (clients : gset string) :
  ip ∈ clients → dom w ⊆ clients → dom (proto w ip now).2 ⊆ clients.
Proof.
  intros Hip Hd. assert (Hr : dom (removeExpiredWindows windowMs now w) ⊆ clients).
  { etrans; [apply dom_filter_subseteq|done]. }
  rewrite prototype_outcome. destruct (window_at now w ip) as [v|]; [destruct (max <=? _)|destruct (maxClients <=? _)];
    simpl; rewrite ?dom_insert_L; set_solver.
Qed.
Lemma room_left now w ip (clients : gset string) :
  ip ∈ clients → dom w ⊆ clients → Z.of_nat (size clients) ≤ maxClients → window_at now w ip = None →
  Z.of_nat (size (removeExpiredWindows windowMs now w)) < maxClients.
Proof.
  intros Hip Hd Hsize Hv. set (w' := removeExpiredWindows windowMs now w).
  assert (Hlt : (size (dom w') < size clients)%nat); [|rewrite size_dom in Hlt; lia].
  apply subset_size. split; [etrans; [apply dom_filter_subseteq|done]|].
  intros Hsub. apply Hsub, elem_of_dom in Hip as [v Hip]. unfold window_at in Hv. subst w'. congruence.
Qed.

(** Times that do not go back, from [now] on. *)
Fixpoint attempts_timed (now : Z) (l : list (Z * string)) : Prop :=
  match l with
  | [] => True
  | a :: l' => now ≤ a.1 ∧ attempts_timed a.1 l'
  end.

Lemma same_answers l (clients : gset string) : ∀ now r w,
  0 < windowMs → 1 ≤ max < INT64_MAX → Z.of_nat (size clients) ≤ maxClients →
  Forall (λ a : Z * string, a.2 ∈ clients) l → attempts_timed now l →
  same_windows now r w → dom w ⊆ clients →
  prototype_answers l w = feed_answers l r.
Proof.
  intros now r w Hw Hm Hc Hl. revert now r w.
  induction Hl as [|[t ip] l Hip Hl IH]; intros now r w; simpl; [done|].
  intros [Hn Ht] Hs Hd. apply (same_windows_later _ _ _ _ Hn) in Hs.
  destruct (answers_step t r w ip Hw Hm Hs) as [-> Hs']; [intros Hv; by eapply room_left|].
  f_equal. apply (IH t); [done..|]. by apply proto_dom.
Qed.

(** C33: the limiter of the local prototype, a map in the process, answers every
    sequence of attempts as the limiter of the feed does with its counters in
    Redis, while its map has room for the clients. *)
Theorem prototype_limits_as_redis l now :
  0 < windowMs → 1 ≤ max < INT64_MAX →
  Z.of_nat (size (list_to_set (C := gset string) l.*2)) ≤ maxClients → attempts_timed now l →
  prototype_answers l ∅ = feed_answers l ∅.
Proof.
  intros Hw Hm Hc Ht. eapply (same_answers l _ now); [done..| |done| |set_solver].
  - apply Forall_forall. intros a Ha. apply elem_of_list_to_set, list_elem_of_fmap. eauto.
  - intros ip. unfold window_at, removeExpiredWindows. by rewrite map_filter_empty, lookup_empty.
Qed.

(** Its map stays small. *)
Lemma prototype_bounded w ip now :
  0 ≤ maxClients → 1 ≤ max → Z.of_nat (size w) ≤ maxClients → map_Forall (λ _ v, 1 ≤ rw_attempts v ≤ max) w →
  Z.of_nat (size (proto w ip now).2) ≤ maxClients ∧
  map_Forall (λ _ v, 1 ≤ rw_attempts v ≤ max) (proto w ip now).2.
Proof.
  intros Hc Hm Hs Ha. set (w' := removeExpiredWindows windowMs now w).
  assert (Hsub : w' ⊆ w) by apply map_filter_subseteq.
  assert (Hs' : Z.of_nat (size w') ≤ maxClients).
  { pose proof (map_subseteq_size _ _ Hsub). lia. }
  assert (Ha' : map_Forall (λ _ v, 1 ≤ rw_attempts v ≤ max) w').
  { intros i v Hv. by eapply Ha, lookup_weaken. }
  rewrite prototype_outcome. fold w'. destruct (window_at now w ip) as [v|] eqn:Hv.
  - unfold window_at in Hv. fold w' in Hv. pose proof (Ha' _ _ Hv). simpl in *.
    destruct (Z.leb_spec max (rw_attempts v)); simpl; [done|]. split.
    + by rewrite map_size_insert_Some by eauto.
    + apply map_Forall_insert_2; [simpl; lia|done].
  - unfold window_at in Hv. fold w' in Hv. destruct (Z.leb_spec maxClients (Z.of_nat (size w'))); simpl; [done|].
    split; [rewrite map_size_insert_None by done; lia|]. apply map_Forall_insert_2; [simpl; lia|done].
Qed.
End prototype.
