(* ===== verification/ProbeIngestion.v ===== *)
(** * Probe ingestion: [apps/api/src/probe-agent/]

    [ProbeSourceCredentialService] (a probe source's secret is rotated, revoked
    and checked), the submission's schema (packages/contracts/src/probe-agent.ts)
    and [ProbeIngestionService.ingest].  The state is the health tables, the
    table [ProbeSourceCredential] and Redis; a transaction that throws leaves
    what it has written to Redis.  A transaction reads the clock once.  HMAC and
    SHA-256 are parameters, the random secret is an argument. *)

From Stdlib Require Import Ascii.
From S2P Require Import Prelude.
From S2P Require Import Text.
From S2P Require Import Json.
From S2P Require Import OperationalPolicy.
From S2P Require Import HealthDecision.
From S2P Require Import Sql.
From S2P Require Import XrayAccess.
From S2P Require Import HealthStore.
From S2P Require Import HealthEvidence.
From S2P Require Import NodeAgentContract.
From S2P Require Import DataPlaneCredential.
From S2P Require Import BotSigningKey.
From S2P Require Import Trial.
From S2P Require Import Cabinet.
From S2P Require Import TelegramInitData.
From S2P Require Import Redis.
From S2P Require Import RateLimits.
Open Scope Z_scope.

(** ** State *)

Record ProbeSourceCredential := {
  pr_probeSourceId : string;
  pr_secretHash : string;
  pr_revokedAt : option Z;
  pr_createdAt : Z;
}.

Record ProbeStore := MkProbeStore {
  pb_health : HealthDb;
  pb_credentials : Table ProbeSourceCredential;
  pb_redis : Redis;
}.
Definition set_health f '(MkProbeStore h c r) := MkProbeStore (f h) c r.
Definition set_probeCredentials f '(MkProbeStore h c r) := MkProbeStore h (f c) r.
Definition set_redis f '(MkProbeStore h c r) := MkProbeStore h c (f r).

Inductive ProbeError :=
| ProbeHealth (e : HealthError)
| ProbeLimit (e : LimitError)
| ProbeBadRequest (message : string)
| ProbeUnauthorized (message : string)
| ProbeConflict (message : string)
| ProbeThrown (message : string).
Notation ProbeM := (M ProbeStore ProbeError).

Definition on_health {A} (m : HealthM A) : ProbeM A := λ s,
  let '(o, h) := m (pb_health s) in
  (match o with Ok a => Ok a | Throw e => Throw (ProbeHealth e) end, set_health (λ _, h) s).
Definition on_redis {A} (m : LimitM A) : ProbeM A := λ s,
  let '(o, r) := m (pb_redis s) in
  (match o with Ok a => Ok a | Throw e => Throw (ProbeLimit e) end, set_redis (λ _, r) s).
(** [prisma.$transaction(m)]: a throw rolls the database back, not Redis. *)
Definition database_transaction {A} (m : ProbeM A) : ProbeM A := λ s,
  match m s with
  | (Ok a, s') => (Ok a, s')
  | (Throw e, s') => (Throw e, set_redis (λ _, pb_redis s') s)
  end.

Definition probe_throw {A} (e : DbError) : ProbeM A := throw (ProbeHealth (HealthDbError e)).

(** ** Statements on [ProbeSourceCredential] *)

Definition active_for (probeSourceId : string) (c : ProbeSourceCredential) : bool :=
  bool_decide (pr_probeSourceId c = probeSourceId) && is_null (pr_revokedAt c).
Definition revoke_credential (now : Z) (c : ProbeSourceCredential) : ProbeSourceCredential :=
  {| pr_probeSourceId := pr_probeSourceId c; pr_secretHash := pr_secretHash c;
     pr_revokedAt := Some now; pr_createdAt := pr_createdAt c |}.

(** [ProbeSourceCredential_revocation_order_check] *)
Definition credential_checks (c : ProbeSourceCredential) : bool :=
  match pr_revokedAt c with Some t => pr_createdAt c <=? t | None => true end.

(** [UPDATE ... SET "revokedAt" = clock_timestamp() WHERE ...]: the number of
    rows changed. *)
Definition revoke_active (probeSourceId : string) (now : Z) : ProbeM Z :=
  s ← get;
  match sql_update credential_checks (λ _, false) (active_for probeSourceId) (revoke_credential now)
          (pb_credentials s) with
  | (Ok changed, credentials) =>
      modify (set_probeCredentials (λ _, credentials));; mret (Z.of_nat (length changed))
  | (Throw e, _) => probe_throw e
  end.

Definition probe_credential_create (id : string) (c : ProbeSourceCredential) : ProbeM unit :=
  s ← get;
  let refuse b e := throw_if b (ProbeHealth (HealthDbError e)) in
  refuse (negb (credential_checks c)) CheckViolation;;
  refuse (negb (is_null (pb_credentials s !! id)) ||
          exists_in (λ _ x, bool_decide (pr_secretHash x = pr_secretHash c)) (pb_credentials s) ||
          is_null (pr_revokedAt c) &&
            exists_in (λ _ x, active_for (pr_probeSourceId c) x) (pb_credentials s)) UniqueViolation;;
  refuse (is_null (h_sources (pb_health s) !! pr_probeSourceId c)) ForeignKeyViolation;;
  modify (set_probeCredentials <[id := c]>).

Section credentials.
Context (uuid : nat → string) (hmac_sha256 : string → string → list Z).
Context (PROBE_SOURCE_CREDENTIAL_PEPPER : option string).

Definition hashDomain : string := "probe-source-credential-v1" +:+ nul.

Definition hashSecret (secret : string) : ProbeM string :=
  match truthy PROBE_SOURCE_CREDENTIAL_PEPPER with
  | None => throw (ProbeThrown "Probe source credential pepper is not configured")
  | Some pepper => mret (to_hex (hmac_sha256 pepper (hashDomain +:+ secret)))
  end.

Record IssuedProbeSourceCredential := { is_credentialId : string; is_secret : string }.

(** [secret]: 32 random bytes in base64url. *)
Definition rotate (probeSourceId secret : string) (now : Z) : ProbeM IssuedProbeSourceCredential :=
  secretHash ← hashSecret secret;
  database_transaction (
    s ← get;
    throw_if (is_null (h_sources (pb_health s) !! probeSourceId)) (ProbeHealth (HealthDbError RecordNotFound));;
    revoke_active probeSourceId now;;
    credentialId ← on_health (draw uuid);
    probe_credential_create credentialId
      {| pr_probeSourceId := probeSourceId; pr_secretHash := secretHash;
         pr_revokedAt := None; pr_createdAt := now |};;
    on_health (health_audit "probe-source-credential.rotated" probeSourceId);;
    mret {| is_credentialId := credentialId; is_secret := secret |}).

Definition revoke (probeSourceId : string) (now : Z) : ProbeM bool :=
  database_transaction (
    changed ← revoke_active probeSourceId now;
    if changed =? 0 then mret false else
    on_health (health_audit "probe-source-credential.revoked" probeSourceId);;
    mret true).

(** The rows of the query of [withAuthenticatedSourceTransaction]: the sources
    of unrevoked credentials with this hash that are active. *)
Definition authenticated_sources (s : ProbeStore) (secretHash : string) : list string :=
  omap (λ kv : string * ProbeSourceCredential,
    source ← h_sources (pb_health s) !! pr_probeSourceId kv.2;
    guard (pr_secretHash kv.2 = secretHash);; guard (pr_revokedAt kv.2 = None);;
    guard (so_status source = SOURCE_ACTIVE);; Some (pr_probeSourceId kv.2))
  (map_to_list (pb_credentials s)).

Definition withAuthenticatedSourceTransaction {A} (secret : string) (operation : string → ProbeM A)
    : ProbeM (option A) :=
  if negb (secret_text secret) then mret None else
  database_transaction (
    secretHash ← hashSecret secret;
    s ← get;
    match authenticated_sources s secretHash with
    | [] => mret None
    | probeSourceId :: _ => a ← operation probeSourceId; mret (Some a)
    end).
End credentials.

(** ** The submission *)

Record ProbeResultSubmission := {
  su_sourceResultId : string;
  su_affectedScope : Scope;
  su_cycleStartedAt : string;
  su_routeVersion : Z;
  su_outcome : ProbeOutcome;
  su_failureClass : option RouteFailureClass;
  su_controlHealthy : bool;
}.

Definition databaseIntegerSchema (j : json) : option Z := zod_int_range 0 2147483647 j.
Definition outcome_name (o : ProbeOutcome) : string :=
  match o with PO_SUCCESS => "SUCCESS" | PO_FAILURE => "FAILURE"
  | PO_PROBE_SOURCE_FAILURE => "PROBE_SOURCE_FAILURE" end.
Definition zod_scope_kind : json → option HealthScopeKind :=
  zod_enum (named scope_kind_name [PROFILE; ENDPOINT; NODE; PROVIDER_ASN]).
Definition zod_outcome : json → option ProbeOutcome :=
  zod_enum (named outcome_name [PO_SUCCESS; PO_FAILURE; PO_PROBE_SOURCE_FAILURE]).

Definition affected_scope_schema (j : json) : option Scope :=
  m ← zod_object j;
  kind ← field m "kind" zod_scope_kind;
  id ← field m "id" (zod_trimmed 128);
  guard (strict_keys ["kind"; "id"]%string m = true);;
  Some {| scope_kind := kind; scope_id := id |}.

Definition probeResultSubmissionSchema (is_datetime : string → bool) (j : json)
    : option ProbeResultSubmission :=
  m ← zod_object j;
  sourceResultId ← field m "sourceResultId" (zod_trimmed 128);
  affectedScope ← field m "affectedScope" affected_scope_schema;
  cycleStartedAt ← field m "cycleStartedAt" (zod_datetime is_datetime);
  routeVersion ← field m "routeVersion" databaseIntegerSchema;
  outcome ← field m "outcome" zod_outcome;
  failureClass ← zod_optional zod_route_failure_class m "failureClass";
  controlHealthy ← field m "controlHealthy" zod_boolean;
  guard (strict_keys ["sourceResultId"; "affectedScope"; "cycleStartedAt"; "routeVersion"; "outcome";
                      "failureClass"; "controlHealthy"]%string m = true);;
  guard (Bool.eqb (bool_decide (outcome = PO_FAILURE)) (negb (is_null failureClass)) = true);;
  Some {| su_sourceResultId := sourceResultId; su_affectedScope := affectedScope;
          su_cycleStartedAt := cycleStartedAt; su_routeVersion := routeVersion;
          su_outcome := outcome; su_failureClass := failureClass; su_controlHealthy := controlHealthy |}.

Record AcceptedProbeResult := { ap_probeResultId : string; ap_receivedAt : string; ap_replayed : bool }.

(** [/^Bearer ([A-Za-z0-9_-]{43})$/.exec(authorization ?? '')?.[1] ?? ''] *)
Definition extractProbeBearerSecret (authorization : option string) : string :=
  let text := default EmptyString authorization in
  let secret := String.substring 7 (String.length text - 7) text in
  if String.prefix "Bearer " text && secret_text secret then secret else EmptyString.

(** ** [ProbeIngestionService.ingest] *)

(** Prisma's P2004, or PostgreSQL's 23514. *)
Definition isConstraintFailure (e : ProbeError) : bool :=
  match e with ProbeHealth (HealthDbError CheckViolation) => true | _ => false end.

Section ingest.
Context (uuid : nat → string) (is_uuid is_datetime : string → bool).
Context `{LocaleCompare} `{DateStrings}.
Context (hmac_sha256 : string → string → list Z) (sha256_hex : string → string) (namespace : string).
Context (PROBE_SOURCE_CREDENTIAL_PEPPER : option string) (env : LimitEnvironment).

(** What the store is asked to record; [None] when the instant is no date. *)
Definition record_input (probeSourceId : string) (data : ProbeResultSubmission)
    : option RecordProbeResultInput :=
  t ← Date_parse (su_cycleStartedAt data);
  Some {| rp_probeSourceId := probeSourceId; rp_sourceResultId := su_sourceResultId data;
          rp_affectedScope := su_affectedScope data; rp_cycleStartedAt := t;
          rp_routeVersion := su_routeVersion data; rp_outcome := su_outcome data;
          rp_failureClass := su_failureClass data; rp_controlHealthy := su_controlHealthy data |}.

(** The operation that runs in the authenticated transaction. *)
Definition ingest_operation (connected : bool) (redisNow now : Z) (data : ProbeResultSubmission)
    (probeSourceId : string) : ProbeM RecordedProbeResult :=
  on_redis (assertSourceAllowed namespace sha256_hex connected redisNow
    (PROBE_INGESTION_RATE_LIMIT_WINDOW_MS env) (PROBE_INGESTION_RATE_LIMIT_MAX env)
    (PROBE_INGESTION_MAX_SCOPES_PER_WINDOW env) probeSourceId
    (scope_kind_name (scope_kind (su_affectedScope data))) (scope_id (su_affectedScope data)));;
  match record_input probeSourceId data with
  | None => throw (ProbeHealth HealthZodError)
  | Some input => on_health (recordProbeResultInTransaction uuid is_uuid input now)
  end.

Definition replay_conflict : string := "Probe result replay key conflicts with stored data".
Definition ingest_failed {A} (e : ProbeError) : ProbeM A :=
  match e with
  | ProbeHealth (HealthThrown message) =>
      if bool_decide (message = replay_conflict)
      then throw (ProbeConflict "Probe result replay conflicts with data") else throw e
  | _ => if isConstraintFailure e then throw (ProbeBadRequest "Probe result is invalid") else throw e
  end.

Definition ingest (bearerSecret clientIp : string) (untrustedBody : json)
    (connected : bool) (redisNow now : Z) : ProbeM AcceptedProbeResult :=
  on_redis (assertIpAllowed namespace sha256_hex connected redisNow
    (PROBE_INGESTION_RATE_LIMIT_WINDOW_MS env) (PROBE_INGESTION_RATE_LIMIT_MAX env) clientIp);;
  match probeResultSubmissionSchema is_datetime untrustedBody with
  | None => throw (ProbeBadRequest "Probe result is invalid")
  | Some data =>
      try_catch (
        recorded ← withAuthenticatedSourceTransaction hmac_sha256 PROBE_SOURCE_CREDENTIAL_PEPPER bearerSecret
          (ingest_operation connected redisNow now data);
        match recorded with
        | None => throw (ProbeUnauthorized "Probe source credential is invalid")
        | Some r =>
            mret {| ap_probeResultId := ps_id (rec_signal r);
                    ap_receivedAt := toISOString (ps_receivedAt (rec_signal r));
                    ap_replayed := rec_replayed r |}
        end) ingest_failed
  end.
End ingest.
