(* ===== verification/ProbeSafety.v ===== *)
(** * What probe ingestion does

    The statements of the credentials' table, rotation, revocation and an
    ingested submission taken apart; then the step relation of the probes, as
    steps of the health system together with the credentials, and its
    invariant. *)

From S2P Require Import Prelude.
From S2P Require Import Text.
From S2P Require Import Json.
From S2P Require Import OperationalPolicy.
From S2P Require Import HealthDecision.
From S2P Require Import Sql.
From S2P Require Import XrayAccess.
From S2P Require Import HealthStore.
From S2P Require Import HealthEvidence.
From S2P Require Import HealthInvariant.
From S2P Require Import HealthSystem.
From S2P Require Import DataPlaneCredential.
From S2P Require Import BotSigningKey.
From S2P Require Import Cabinet.
From S2P Require Import TelegramInitData.
From S2P Require Import Redis.
From S2P Require Import RateLimits.
From S2P Require Import ProbeIngestion.
Open Scope Z_scope.

(** ** The parts of the state *)

Lemma on_health_ok {A} (m : HealthM A) s a s' :
  on_health m s = (Ok a, s') → ∃ h, m (pb_health s) = (Ok a, h) ∧ s' = set_health (λ _, h) s.
Proof. unfold on_health. destruct (m (pb_health s)) as [[b|e] h]; [|done]. intros [= -> <-]. eauto. Qed.
Lemma on_redis_ok {A} (m : LimitM A) s a s' :
  on_redis m s = (Ok a, s') → ∃ r, m (pb_redis s) = (Ok a, r) ∧ s' = set_redis (λ _, r) s.
Proof. unfold on_redis. destruct (m (pb_redis s)) as [[b|e] r]; [|done]. intros [= -> <-]. eauto. Qed.
Lemma transaction_ok {A} (m : ProbeM A) s a s' : database_transaction m s = (Ok a, s') → m s = (Ok a, s').
Proof. unfold database_transaction. by destruct (m s) as [[b|e] s1]. Qed.

(** The database of two states is the same. *)
Definition same_database (s s' : ProbeStore) : Prop :=
  pb_health s' = pb_health s ∧ pb_credentials s' = pb_credentials s.
#[export] Instance same_database_preorder : PreOrder same_database.
Proof. split; [by split|]. intros s1 s2 s3 [H1 H2] [H3 H4]. split; congruence. Qed.
Lemma set_redis_same f s : same_database s (set_redis f s).
Proof. by destruct s. Qed.
Lemma on_redis_same {A} (m : LimitM A) s : same_database s (on_redis m s).2.
Proof. unfold on_redis. destruct (m (pb_redis s)) as [o r]. apply set_redis_same. Qed.
(** A transaction that throws leaves the database as it was. *)
Lemma transaction_throws {A} (m : ProbeM A) s e s' :
  database_transaction m s = (Throw e, s') → same_database s s'.
Proof.
  unfold database_transaction. destruct (m s) as [[b|e'] s1]; [done|]. intros [= _ <-]. apply set_redis_same.
Qed.

(** ** Credentials *)

Definition revoked_table (probeSourceId : string) (now : Z) (t : Table ProbeSourceCredential)
    : Table ProbeSourceCredential := sql_set (active_for probeSourceId) (revoke_credential now) t.

Lemma revoke_active_ok probeSourceId now s n s' :
  revoke_active probeSourceId now s = (Ok n, s') →
  n = Z.of_nat (length (rows (sql_where (active_for probeSourceId) (pb_credentials s)))) ∧
  s' = set_probeCredentials (λ _, revoked_table probeSourceId now (pb_credentials s)) s.
Proof.
  unfold revoke_active. rewrite bind_get. unfold sql_update.
  destruct (existsb _ _) eqn:He; [done|]. destruct (forallb _ _); [|done].
  autorewrite with run. intros [= <- <-]. by rewrite length_fmap.
Qed.

Lemma revoked_lookup probeSourceId now t id c :
  revoked_table probeSourceId now t !! id = Some c →
  ∃ c0, t !! id = Some c0 ∧ pr_probeSourceId c = pr_probeSourceId c0 ∧ pr_secretHash c = pr_secretHash c0 ∧
    (pr_revokedAt c = None → c = c0 ∧ pr_probeSourceId c ≠ probeSourceId) ∧
    (pr_revokedAt c0 ≠ None → c = c0).
Proof.
  unfold revoked_table. rewrite sql_set_lookup. intros (c0 & Hc & ->)%fmap_Some. exists c0.
  unfold active_for. destruct (bool_decide_reflect (pr_probeSourceId c0 = probeSourceId)) as [He|Hne]; simpl;
    [destruct (pr_revokedAt c0) as [t'|] eqn:Hr; simpl|]; split_and!; done || naive_solver.
Qed.

(** The hashes of the credentials, revoked ones too, are different, and a source
    has one that is not revoked at most. *)
Record CredentialsInv (t : Table ProbeSourceCredential) : Prop := {
  ci_hashes : ∀ id1 id2 c1 c2, t !! id1 = Some c1 → t !! id2 = Some c2 →
    pr_secretHash c1 = pr_secretHash c2 → id1 = id2;
  ci_active : ∀ id1 id2 c1 c2, t !! id1 = Some c1 → t !! id2 = Some c2 →
    pr_probeSourceId c1 = pr_probeSourceId c2 → pr_revokedAt c1 = None → pr_revokedAt c2 = None → id1 = id2;
}.

(** Rows stay, and what is revoked stays as it is. *)
Definition credentials_le (t t' : Table ProbeSourceCredential) : Prop :=
  ∀ id c, t !! id = Some c → ∃ c', t' !! id = Some c' ∧ pr_secretHash c' = pr_secretHash c ∧
    pr_probeSourceId c' = pr_probeSourceId c ∧ (pr_revokedAt c ≠ None → c' = c).
#[export] Instance credentials_le_preorder : PreOrder credentials_le.
Proof.
  split; [intros t id c Hc; by exists c|]. intros t1 t2 t3 H1 H2 id c Hc.
  destruct (H1 _ _ Hc) as (c2 & Hc2 & ? & ? & Hr2). destruct (H2 _ _ Hc2) as (c3 & Hc3 & ? & ? & Hr3).
  exists c3. split_and!; [done|congruence..|]. intros Hr. rewrite (Hr3 ltac:(by rewrite (Hr2 Hr))). auto.
Qed.

Lemma revoked_inv probeSourceId now t : CredentialsInv t → CredentialsInv (revoked_table probeSourceId now t).
Proof.
  intros [Hh Ha]. split.
  - intros id1 id2 c1 c2 (c1' & ? & ? & E1 & _)%revoked_lookup (c2' & ? & ? & E2 & _)%revoked_lookup He.
    eapply Hh; [done..|congruence].
  - intros id1 id2 c1 c2 (c1' & ? & ? & _ & R1 & _)%revoked_lookup (c2' & ? & ? & _ & R2 & _)%revoked_lookup ? N1 N2.
    destruct (R1 N1) as [-> _], (R2 N2) as [-> _]. by eapply Ha.
Qed.
Lemma revoked_le probeSourceId now t : credentials_le t (revoked_table probeSourceId now t).
Proof.
  intros id c Hc. unfold revoked_table. rewrite sql_set_lookup, Hc. simpl. eexists. split; [done|].
  unfold active_for. destruct (bool_decide _), (pr_revokedAt c); done.
Qed.

Lemma created_inv t id c :
  CredentialsInv t → (∀ id' c', t !! id' = Some c' → pr_secretHash c' ≠ pr_secretHash c) →
  (∀ id' c', t !! id' = Some c' → pr_probeSourceId c' = pr_probeSourceId c → pr_revokedAt c' ≠ None) →
  CredentialsInv (<[id := c]> t).
Proof.
  intros [Hh Ha] Hnew Hno. split; intros id1 id2 c1 c2;
    rewrite !lookup_insert_Some; intros [[<- <-]|[? H1]] [[<- <-]|[? H2]]; try done; naive_solver.
Qed.

Lemma create_ok id c s u s' :
  probe_credential_create id c s = (Ok u, s') →
  pb_credentials s !! id = None ∧
  (∀ id' c', pb_credentials s !! id' = Some c' → pr_secretHash c' ≠ pr_secretHash c) ∧
  s' = set_probeCredentials <[id := c]> s.
Proof.
  unfold probe_credential_create. intros Hr. ok_inv Hr.
  match goal with Hg : _ || _ || _ = false |- _ => apply orb_false_iff in Hg as [[Hi Hh]%orb_false_iff _] end.
  split_and!; [|intros id' c' Hc He|done].
  - by destruct (pb_credentials _ !! id).
  - apply not_true_iff_false in Hh. apply Hh. unfold exists_in. apply existsb_exists. exists (id', c').
    split; [by apply list_elem_of_In, elem_of_map_to_list|]. by apply bool_decide_eq_true.
Qed.

Lemma revoke_ok probeSourceId now s b s' :
  revoke probeSourceId now s = (Ok b, s') →
  s' = {| pb_health := set_health_audit (λ l, l ++
            (if b then [("probe-source-credential.revoked", probeSourceId)] else [])%string) (pb_health s);
          pb_credentials := revoked_table probeSourceId now (pb_credentials s); pb_redis := pb_redis s |}.
Proof.
  unfold revoke. intros Hr%transaction_ok. ok_inv Hr. apply revoke_active_ok in Hrun as [_ ->].
  destruct (a =? 0).
  - ok_inv Hr. destruct s as [[] t r]. simpl. by rewrite app_nil_r.
  - ok_inv Hr. apply on_health_ok in Hrun as (h & Ha & ->). unfold health_audit, modify in Ha.
    injection Ha as _ <-. by destruct s.
Qed.

Lemma authenticated_sources_spec s h probeSourceId :
  probeSourceId ∈ authenticated_sources s h ↔
  ∃ id c source, pb_credentials s !! id = Some c ∧ pr_probeSourceId c = probeSourceId ∧
    pr_secretHash c = h ∧ pr_revokedAt c = None ∧
    h_sources (pb_health s) !! probeSourceId = Some source ∧ so_status source = SOURCE_ACTIVE.
Proof.
  unfold authenticated_sources. rewrite list_elem_of_omap. split.
  - intros ([id c] & Hc%elem_of_map_to_list & Hs). simpl in Hs. option_invert Hs. simplify_eq.
    exists id, c. naive_solver.
  - intros (id & c & source & Hc & <- & <- & Hr & Hs & Ha). exists (id, c).
    split; [by apply elem_of_map_to_list|]. simpl. rewrite Hs. simpl.
    by rewrite !option_guard_True by done.
Qed.

(** ** Rotation and revocation *)

Section probes.
Context (uuid : nat → string) (is_uuid is_datetime : string → bool).
Context {Locale : LocaleCompare} {Dates : DateStrings}.
Context (hmac_sha256 : string → string → list Z) (sha256_hex : string → string) (namespace : string).
Context (PROBE_SOURCE_CREDENTIAL_PEPPER : option string) (env : LimitEnvironment).

(** What [hashSecret] returns when the pepper is set. *)
Definition hashed (pepper secret : string) : string := to_hex (hmac_sha256 pepper (hashDomain +:+ secret)).

Notation rotate := (rotate uuid hmac_sha256 PROBE_SOURCE_CREDENTIAL_PEPPER).
Notation ingest := (ingest uuid is_uuid is_datetime hmac_sha256 sha256_hex namespace
  PROBE_SOURCE_CREDENTIAL_PEPPER env).
Notation ingest_operation := (ingest_operation uuid is_uuid sha256_hex namespace env).

Lemma probe_hashSecret_ok secret s h s' :
  hashSecret hmac_sha256 PROBE_SOURCE_CREDENTIAL_PEPPER secret s = (Ok h, s') →
  s' = s ∧ ∃ pepper, truthy PROBE_SOURCE_CREDENTIAL_PEPPER = Some pepper ∧ h = hashed pepper secret.
Proof using Type.
  unfold hashSecret. destruct (truthy _) as [pepper|]; [|done]. intros Hr. ok_inv Hr. eauto.
Qed.

(** The credential a rotation creates. *)
Definition fresh_credential (probeSourceId pepper secret : string) (now : Z) : ProbeSourceCredential :=
  {| pr_probeSourceId := probeSourceId; pr_secretHash := hashed pepper secret;
     pr_revokedAt := None; pr_createdAt := now |}.

(** What a rotation that returns has done. *)
Record rotated (probeSourceId secret : string) (now : Z) (s : ProbeStore)
    (i : IssuedProbeSourceCredential) (s' : ProbeStore) (pepper : string) : Prop := {
  ro_pepper : truthy PROBE_SOURCE_CREDENTIAL_PEPPER = Some pepper;
  ro_issued : i = {| is_credentialId := uuid (h_drawn (pb_health s)); is_secret := secret |};
  ro_source : is_Some (h_sources (pb_health s) !! probeSourceId);
  ro_id : pb_credentials s !! uuid (h_drawn (pb_health s)) = None;
  ro_hash : ∀ id c, pb_credentials s !! id = Some c → pr_secretHash c ≠ hashed pepper secret;
  ro_state : s' = {|
    pb_health := set_health_audit (λ l, l ++ [("probe-source-credential.rotated", probeSourceId)]%string)
                   (set_health_drawn (Nat.add 1) (pb_health s));
    pb_credentials := <[uuid (h_drawn (pb_health s)) := fresh_credential probeSourceId pepper secret now]>
                        (revoked_table probeSourceId now (pb_credentials s));
    pb_redis := pb_redis s |};
}.

Lemma probe_rotate_ok probeSourceId secret now s i s' :
  rotate probeSourceId secret now s = (Ok i, s') → ∃ pepper, rotated probeSourceId secret now s i s' pepper.
Proof using Type.
  unfold ProbeIngestion.rotate. intros Hr. ok_inv Hr.
  apply probe_hashSecret_ok in Hrun as (-> & pepper & Hp & ->). exists pepper.
  apply transaction_ok in Hr. ok_inv Hr.
  apply revoke_active_ok in Hrun as [_ ->]. apply on_health_ok in Hrun0 as (h & Hd & ->).
  rewrite draw_run in Hd. injection Hd as <- <-.
  apply create_ok in Hrun1 as (Hid & Hh & ->). apply on_health_ok in Hrun2 as (h & Ha & ->).
  destruct s as [h0 t r]. simpl in *. unfold health_audit, modify in Ha. injection Ha as _ <-.
  assert (Hold : ∀ id c, t !! id = Some c → ∃ c', revoked_table probeSourceId now t !! id = Some c' ∧
    pr_secretHash c' = pr_secretHash c).
  { intros id c Hc. destruct (revoked_le probeSourceId now t id c Hc) as (c' & ? & ? & _). eauto. }
  split; simpl; try done.
  - destruct (h_sources h0 !! probeSourceId); [by eexists|done].
  - destruct (t !! _) as [c|] eqn:Hc; [|done]. destruct (Hold _ _ Hc) as (c' & Hc' & _). by simplify_eq.
  - intros id c Hc. destruct (Hold _ _ Hc) as (c' & Hc' & <-). by apply (Hh id).
Qed.

Lemma rotate_throws probeSourceId secret now s e s' :
  rotate probeSourceId secret now s = (Throw e, s') → same_database s s'.
Proof using Type.
  unfold ProbeIngestion.rotate, hashSecret. destruct (truthy _) as [pepper|].
  - rewrite bind_mret. apply transaction_throws.
  - unfold throw, mbind, M_bind. by intros [= _ <-].
Qed.

(** ** Ingestion *)

(** The secret is that of an unrevoked credential of the source, which is
    active. *)
Definition authenticates (s : ProbeStore) (secret probeSourceId : string) : Prop :=
  ∃ pepper id c source, truthy PROBE_SOURCE_CREDENTIAL_PEPPER = Some pepper ∧ secret_text secret = true ∧
    pb_credentials s !! id = Some c ∧ pr_probeSourceId c = probeSourceId ∧
    pr_secretHash c = hashed pepper secret ∧ pr_revokedAt c = None ∧
    h_sources (pb_health s) !! probeSourceId = Some source ∧ so_status source = SOURCE_ACTIVE.

Lemma with_source_ok {A} secret (operation : string → ProbeM A) s a s' :
  withAuthenticatedSourceTransaction hmac_sha256 PROBE_SOURCE_CREDENTIAL_PEPPER secret operation s = (Ok (Some a), s') →
  ∃ probeSourceId, authenticates s secret probeSourceId ∧ operation probeSourceId s = (Ok a, s').
Proof using Type.
  unfold withAuthenticatedSourceTransaction. destruct (secret_text secret) eqn:Ht; simpl; [|done].
  intros Hr%transaction_ok. ok_inv Hr. apply probe_hashSecret_ok in Hrun as (-> & pepper & Hp & ->).
  destruct (authenticated_sources s _) as [|probeSourceId rest] eqn:Hs; [done|]. ok_inv Hr.
  exists probeSourceId. split; [|done].
  assert (Hin : probeSourceId ∈ authenticated_sources s (hashed pepper secret)) by (rewrite Hs; left).
  apply authenticated_sources_spec in Hin as (id & c & source & ? & ? & ? & ? & ? & ?).
  by exists pepper, id, c, source.
Qed.
Lemma with_source_throws {A} secret (operation : string → ProbeM A) s e s' :
  withAuthenticatedSourceTransaction hmac_sha256 PROBE_SOURCE_CREDENTIAL_PEPPER secret operation s = (Throw e, s') →
  same_database s s'.
Proof using Type.
  unfold withAuthenticatedSourceTransaction. destruct (secret_text secret); simpl; [|done].
  apply transaction_throws.
Qed.
Lemma with_source_none {A} secret (operation : string → ProbeM A) s s' :
  withAuthenticatedSourceTransaction hmac_sha256 PROBE_SOURCE_CREDENTIAL_PEPPER secret operation s = (Ok None, s') →
  same_database s s'.
Proof using Type.
  unfold withAuthenticatedSourceTransaction. destruct (secret_text secret); simpl.
  - intros Hr%transaction_ok. ok_inv Hr. apply probe_hashSecret_ok in Hrun as (-> & _).
    destruct (authenticated_sources s _); [by injection Hr as <-|]. by apply bind_ok_inv in Hr as (? & ? & _ & [=]).
  - by intros [= <-].
Qed.

(** What an accepted submission has done: recorded, or found, the result, for
    the source its secret belongs to. *)
Record ingested (secret : string) (body : json) (now : Z) (s : ProbeStore) (a : AcceptedProbeResult)
    (s' : ProbeStore) (probeSourceId : string) (data : ProbeResultSubmission)
    (input : RecordProbeResultInput) (r : RecordedProbeResult) : Prop := {
  in_body : probeResultSubmissionSchema is_datetime body = Some data;
  in_source : authenticates s secret probeSourceId;
  in_input : record_input probeSourceId data = Some input;
  in_recorded : recordProbeResult uuid is_uuid input now (pb_health s) = (Ok r, pb_health s');
  in_credentials : pb_credentials s' = pb_credentials s;
  in_answer : a = {| ap_probeResultId := ps_id (rec_signal r);
                     ap_receivedAt := toISOString (ps_receivedAt (rec_signal r));
                     ap_replayed := rec_replayed r |};
}.

Lemma operation_ok connected redisNow now data probeSourceId s r s' :
  ingest_operation connected redisNow now data probeSourceId s = (Ok r, s') →
  ∃ input, record_input probeSourceId data = Some input ∧
    recordProbeResult uuid is_uuid input now (pb_health s) = (Ok r, pb_health s') ∧
    pb_credentials s' = pb_credentials s.
Proof using Type.
  unfold ProbeIngestion.ingest_operation. intros Hr. ok_inv Hr.
  apply on_redis_ok in Hrun as (redis & _ & ->). destruct (record_input _ _) as [input|]; [|done].
  exists input. apply on_health_ok in Hr as (h & Hr & ->). unfold recordProbeResult, atomically.
  destruct s. simpl in *. by rewrite Hr.
Qed.

Lemma ingest_ok secret clientIp body connected redisNow now s a s' :
  ingest secret clientIp body connected redisNow now s = (Ok a, s') →
  ∃ probeSourceId data input r, ingested secret body now s a s' probeSourceId data input r.
Proof using Type.
  unfold ProbeIngestion.ingest. intros Hr. ok_inv Hr. apply on_redis_ok in Hrun as (redis & _ & ->).
  destruct (probeResultSubmissionSchema _ _) as [data|] eqn:Hb; [|done].
  unfold try_catch in Hr.
  match type of Hr with (let (_, _) := ?m in _) = _ => destruct m as [[b|e] s1] eqn:Hm end.
  2:{ unfold ingest_failed in Hr. by repeat case_match. }
  injection Hr as -> ->. ok_inv Hm. destruct a1 as [r|]; [|done]. ok_inv Hm.
  apply with_source_ok in Hrun as (probeSourceId & Ha & Hop).
  apply operation_ok in Hop as (input & Hi & Hrec & Hc). exists probeSourceId, data, input, r.
  destruct s. by split.
Qed.

Lemma ingest_throws secret clientIp body connected redisNow now s e s' :
  ingest secret clientIp body connected redisNow now s = (Throw e, s') → same_database s s'.
Proof using Type.
  unfold ProbeIngestion.ingest. unfold mbind at 1, M_bind at 1.
  pose proof (on_redis_same (assertIpAllowed namespace sha256_hex connected redisNow
    (PROBE_INGESTION_RATE_LIMIT_WINDOW_MS env) (PROBE_INGESTION_RATE_LIMIT_MAX env) clientIp) s) as Hip.
  destruct (on_redis _ s) as [[[]|e'] s1]; simpl in Hip; [|by intros [= _ <-]].
  destruct (probeResultSubmissionSchema _ _) as [data|]; [|by intros [= _ <-]].
  unfold try_catch.
  match goal with |- (let (_, _) := ?m in _) = _ → _ => destruct m as [[b|e1] s2] eqn:Hm end; [done|].
  intros Hf.
  assert (s' = s2) as -> by (unfold ingest_failed, throw in Hf; repeat case_match; by simplify_eq).
  etrans; [exact Hip|]. unfold mbind, M_bind in Hm.
  destruct (withAuthenticatedSourceTransaction _ _ _ _ s1) as [[[r|]|e2] s3] eqn:Hw; simplify_eq/=.
  - injection Hm as _ <-. by eapply with_source_none.
  - by eapply with_source_throws.
Qed.
End probes.
