(* ===== verification/DurableFiles.v ===== *)
(** * Durable JSON files

    The file operations of the node agent's adapters
    ([LocalXrayStateFileOperations] and [StateFileOperations]) over a file
    system whose every operation may fail, and the routine both adapters use
    to replace a file: write a temporary file, sync it, rename it over the
    target, sync the directory ([writeJsonDurably] of local-xray-adapter.ts
    and [writeDurably] of simulation-adapter.ts, the same code).

    A file holds a JSON document or bytes that are not JSON; a document stands
    for the text [JSON.stringify] prints, which [JSON.parse] reads back. *)

From S2P Require Import Prelude.
From S2P Require Import Json.

Inductive FsError := ENOENT | EEXIST | EINVAL | ENOTSUP | EISDIR | EPERM | EIO.
#[export] Instance FsError_eq_dec : EqDecision FsError.
Proof. solve_decision. Defined.

(** The operations of the file interface, as a fault can hit them. *)
Inductive FsOp := OpMkdir | OpRead | OpOpenFile | OpWriteFile | OpSync | OpClose | OpRename | OpRemove | OpChmod.

Inductive Contents := Document (j : json) | NotJson.

Record FileSystem := { fs_files : gmap string Contents; fs_tick : nat }.

(** The flags the adapters open files with. *)
Inductive OpenFlags := FLAG_WX | FLAG_R_PLUS | FLAG_R.
Record FileHandle := { fh_path : string }.

(** [try { m } finally { fin }] *)
Definition finally {S E A} (m : M S E A) (fin : M S E unit) : M S E A := λ s,
  match m s with
  | (Ok a, s') => match fin s' with (Ok _, s'') => (Ok a, s'') | (Throw e, s'') => (Throw e, s'') end
  | (Throw e, s') => match fin s' with (Ok _, s'') => (Throw e, s'') | (Throw e', s'') => (Throw e', s'') end
  end.

(** Runs [cleanup] when [m] throws, ignoring its own error, and rethrows. *)
Definition cleanup_on_error {S E A} (m : M S E A) (cleanup : M S E unit) : M S E A := λ s,
  match m s with
  | (Ok a, s') => (Ok a, s')
  | (Throw e, s') => (Throw e, snd (cleanup s'))
  end.

Section files.
(** Which operations fail, when and how ([None]: the operation works), the
    platform, and [path.dirname]. *)
Context (fault : FsOp → nat → option FsError) (win32 : bool) (dirname : string → string).

Notation FsM := (M FileSystem FsError).

Definition set_files (fs : FileSystem) (files : gmap string Contents) : FileSystem :=
  {| fs_files := files; fs_tick := S (fs_tick fs) |}.

(** One operation: it may fail before having any effect. *)
Definition fs_operation {A} (op : FsOp) (f : gmap string Contents → outcome FsError A * gmap string Contents)
    : FsM A := λ fs,
  match fault op (fs_tick fs) with
  | Some e => (Throw e, set_files fs (fs_files fs))
  | None => let '(r, files) := f (fs_files fs) in (r, set_files fs files)
  end.

Definition fs_mkdir (path : string) : FsM unit := fs_operation OpMkdir (λ files, (Ok tt, files)).

Definition fs_read (path : string) : FsM Contents := fs_operation OpRead (λ files,
  match files !! path with Some c => (Ok c, files) | None => (Throw ENOENT, files) end).

(** A directory is not a file of the map: opening it for reading works. *)
Definition fs_openFile (path : string) (flags : OpenFlags) : FsM FileHandle :=
  fs_operation OpOpenFile (λ files,
    match flags with
    | FLAG_WX => match files !! path with
                 | Some _ => (Throw EEXIST, files)
                 | None => (Ok {| fh_path := path |}, <[path := NotJson]> files)
                 end
    | FLAG_R_PLUS => match files !! path with
                     | Some _ => (Ok {| fh_path := path |}, files)
                     | None => (Throw ENOENT, files)
                     end
    | FLAG_R => (Ok {| fh_path := path |}, files)
    end).

(** A failed write leaves part of the text behind. *)
Definition fs_writeFile (h : FileHandle) (j : json) : FsM unit := λ fs,
  match fault OpWriteFile (fs_tick fs) with
  | Some e => (Throw e, set_files fs (<[fh_path h := NotJson]> (fs_files fs)))
  | None => (Ok tt, set_files fs (<[fh_path h := Document j]> (fs_files fs)))
  end.

Definition fs_sync (h : FileHandle) : FsM unit := fs_operation OpSync (λ files, (Ok tt, files)).
Definition fs_close (h : FileHandle) : FsM unit := fs_operation OpClose (λ files, (Ok tt, files)).

Definition fs_rename (from to : string) : FsM unit := fs_operation OpRename (λ files,
  match files !! from with
  | Some c => (Ok tt, <[to := c]> (delete from files))
  | None => (Throw ENOENT, files)
  end).

(** [rm(path, { force: true })] *)
Definition fs_remove (path : string) : FsM unit := fs_operation OpRemove (λ files,
  (Ok tt, delete path files)).

(** [chmod]: the mode is not part of the model. *)
Definition fs_chmod (path : string) : FsM unit := fs_operation OpChmod (λ files,
  match files !! path with Some _ => (Ok tt, files) | None => (Throw ENOENT, files) end).

Definition isUnsupportedDirectorySync (e : FsError) : bool :=
  match e with
  | EINVAL | ENOTSUP | EISDIR => true
  | EPERM => win32
  | _ => false
  end.

Definition ignore_unsupported {A} (e : FsError) (a : A) : FsM A :=
  if isUnsupportedDirectorySync e then mret a else throw e.

Definition syncParentDirectory (path : string) : FsM unit :=
  directory ← try_catch (h ← fs_openFile path FLAG_R; mret (Some h))
                (λ e, ignore_unsupported e None);
  match directory : option FileHandle with
  | None => mret tt
  | Some h => finally (try_catch (fs_sync h) (λ e, ignore_unsupported e tt)) (fs_close h)
  end.

Definition temporary_path (path : string) : string := (path +:+ ".tmp")%string.

Definition writeJsonDurably (path : string) (value : json) : FsM unit :=
  let temporaryPath := temporary_path path in
  fs_mkdir (dirname path);;
  fs_remove temporaryPath;;
  finally
    (temporary ← fs_openFile temporaryPath FLAG_WX;
     cleanup_on_error
       (fs_writeFile temporary value;; fs_sync temporary;; fs_close temporary)
       (fs_close temporary);;
     fs_rename temporaryPath path;;
     syncParentDirectory (dirname path))
    (fs_remove temporaryPath).

Definition confirmDurability (path : string) : FsM unit :=
  stateFile ← fs_openFile path FLAG_R_PLUS;
  finally (fs_sync stateFile) (fs_close stateFile);;
  syncParentDirectory (dirname path).

(** ** What the operations do to the files *)

(** A computation that leaves every file as it was. *)
Definition leaves_files {A} (m : FsM A) : Prop :=
  ∀ fs, fs_files (snd (m fs)) = fs_files fs.

Lemma leaves_mret {A} (a : A) : leaves_files (mret a).
Proof. done. Qed.
Lemma leaves_throw {A} e : leaves_files (throw (A:=A) e).
Proof. done. Qed.
Lemma leaves_bind {A B} (m : FsM A) (f : A → FsM B) :
  leaves_files m → (∀ a, leaves_files (f a)) → leaves_files (m ≫= f).
Proof.
  intros Hm Hf fs. unfold mbind, M_bind. specialize (Hm fs).
  destruct (m fs) as [[a|e] fs']; simpl in *; [|done]. by rewrite Hf.
Qed.
Lemma leaves_finally {A} (m : FsM A) fin :
  leaves_files m → leaves_files fin → leaves_files (finally m fin).
Proof.
  intros Hm Hf fs. unfold finally. specialize (Hm fs).
  destruct (m fs) as [[a|e] fs']; simpl in *; specialize (Hf fs');
    destruct (fin fs') as [[|] ?]; simpl in *; congruence.
Qed.
Lemma leaves_try {A} (m : FsM A) h :
  leaves_files m → (∀ e, leaves_files (h e)) → leaves_files (try_catch m h).
Proof.
  intros Hm Hh fs. unfold try_catch. specialize (Hm fs).
  destruct (m fs) as [[a|e] fs']; simpl in *; [done|]. by rewrite Hh.
Qed.
Lemma leaves_operation {A} op (f : gmap string Contents → outcome FsError A * gmap string Contents) :
  (∀ files, snd (f files) = files) → leaves_files (fs_operation op f).
Proof.
  intros Hf fs. unfold fs_operation. destruct (fault _); [done|].
  specialize (Hf (fs_files fs)). by destruct (f (fs_files fs)).
Qed.
Lemma leaves_ignore {A} e (a : A) : leaves_files (ignore_unsupported e a).
Proof. unfold ignore_unsupported. by destruct (isUnsupportedDirectorySync e). Qed.

Lemma leaves_syncParentDirectory path : leaves_files (syncParentDirectory path).
Proof.
  unfold syncParentDirectory. apply leaves_bind.
  - apply leaves_try; [|intros e; apply leaves_ignore].
    apply leaves_bind; [by apply leaves_operation|intros h; apply leaves_mret].
  - intros [h|]; [|apply leaves_mret]. apply leaves_finally; [|by apply leaves_operation].
    apply leaves_try; [by apply leaves_operation|intros e; apply leaves_ignore].
Qed.

Lemma leaves_confirmDurability path : leaves_files (confirmDurability path).
Proof.
  unfold confirmDurability. apply leaves_bind.
  - apply leaves_operation. intros files. simpl. by destruct (files !! path).
  - intros h. apply leaves_bind; [|intros; apply leaves_syncParentDirectory].
    apply leaves_finally; by apply leaves_operation.
Qed.

Lemma leaves_read path : leaves_files (fs_read path).
Proof. apply leaves_operation. intros files. by destruct (files !! path). Qed.

Lemma temporary_path_ne path : temporary_path path ≠ path.
Proof.
  intros H. apply (f_equal String.length) in H. unfold temporary_path in H.
  rewrite string_length_app in H. simpl in H. lia.
Qed.

(** Rules for the combinators of this file. *)
Lemma triple_finally {S E A} (m : M S E A) fin P (Q Q' : A → S → Prop) X (X' : E → S → Prop) :
  triple P m Q X →
  (∀ a, triple (Q a) fin (λ _, Q' a) X') → (∀ e, triple (X e) fin (λ _, X' e) X') →
  triple P (finally m fin) Q' X'.
Proof.
  intros Hm Hq Hx s HP. specialize (Hm s HP). unfold finally.
  destruct (m s) as [[a|e] s'].
  - specialize (Hq a s' Hm). by destruct (fin s') as [[] ?].
  - specialize (Hx e s' Hm). by destruct (fin s') as [[] ?].
Qed.

Lemma triple_cleanup {S E A} (m : M S E A) c P Q (X X' : E → S → Prop) :
  triple P m Q X → (∀ e, triple (X e) c (λ _, X' e) (λ _, X' e)) →
  triple P (cleanup_on_error m c) Q X'.
Proof.
  intros Hm Hc s HP. specialize (Hm s HP). unfold cleanup_on_error.
  destruct (m s) as [[a|e] s']; [done|]. specialize (Hc e s' Hm). simpl.
  by destruct (c s') as [[] ?].
Qed.

Lemma triple_leaves {A} (m : FsM A) (P : gmap string Contents → Prop) :
  leaves_files m →
  triple (λ fs, P (fs_files fs)) m (λ _ fs, P (fs_files fs)) (λ _ fs, P (fs_files fs)).
Proof. intros Hm fs HP. specialize (Hm fs). destruct (m fs) as [[] ?]; simpl in *; congruence. Qed.

Lemma triple_operation {A} op (f : gmap string Contents → outcome FsError A * gmap string Contents)
    (P : gmap string Contents → Prop) (Q : A → gmap string Contents → Prop) X :
  (∀ files, P files → X files ∧
     match f files with (Ok a, files') => Q a files' | (Throw e, files') => X files' end) →
  triple (λ fs, P (fs_files fs)) (fs_operation op f) (λ a fs, Q a (fs_files fs))
    (λ _ fs, X (fs_files fs)).
Proof.
  intros H fs HP. unfold fs_operation. destruct (H _ HP) as [HX Hf].
  destruct (fault _); [done|]. by destruct (f (fs_files fs)) as [[]].
Qed.

Section write.
Context (path : string) (value : json) (files0 : gmap string Contents).
Let tmp := temporary_path path.

(** Before the rename, after it, and in between. *)
Definition kept (files : gmap string Contents) : Prop :=
  ∀ p, p ≠ tmp → files !! p = files0 !! p.
Definition replaced (files : gmap string Contents) : Prop :=
  files !! path = Some (Document value) ∧
  ∀ p, p ≠ path → p ≠ tmp → files !! p = files0 !! p.
Definition kept_or_replaced (files : gmap string Contents) : Prop := kept files ∨ replaced files.

Lemma kept_touch (files files' : gmap string Contents) :
  kept files → (∀ p, p ≠ tmp → files' !! p = files !! p) → kept files'.
Proof. intros Hk Ht p Hp. rewrite Ht by done. by apply Hk. Qed.

Lemma replaced_touch (files files' : gmap string Contents) :
  replaced files → (∀ p, p ≠ tmp → files' !! p = files !! p) → replaced files'.
Proof.
  intros [Hv Hk] Ht. split.
  - rewrite Ht; [done|]. apply not_eq_sym, temporary_path_ne.
  - intros p Hp Hp'. rewrite Ht by done. by apply Hk.
Qed.

Lemma remove_tmp_keeps P :
  (∀ files files', P files → (∀ p, p ≠ tmp → files' !! p = files !! p) → P files') →
  triple (λ fs, P (fs_files fs)) (fs_remove tmp) (λ _ fs, P (fs_files fs)) (λ _ fs, P (fs_files fs)).
Proof.
  intros HP. apply triple_operation. intros files H. split; [done|].
  eapply HP; [done|]. intros p Hp. by rewrite lookup_delete_ne.
Qed.

Lemma kept_or_replaced_touch (files files' : gmap string Contents) :
  kept_or_replaced files → (∀ p, p ≠ tmp → files' !! p = files !! p) → kept_or_replaced files'.
Proof. intros [H|H] Ht; [left; by eapply kept_touch|right; by eapply replaced_touch]. Qed.

(** Writing the temporary file. *)
Lemma fill_temporary :
  let P fs := kept (fs_files fs) ∧ is_Some (fs_files fs !! tmp) in
  triple (λ fs, kept (fs_files fs))
    (cleanup_on_error (fs_writeFile {| fh_path := tmp |} value;;
       fs_sync {| fh_path := tmp |};; fs_close {| fh_path := tmp |})
       (fs_close {| fh_path := tmp |}))
    (λ _ fs, kept (fs_files fs) ∧ fs_files fs !! tmp = Some (Document value))
    (λ _ fs, kept (fs_files fs)).
Proof.
  apply (triple_cleanup _ _ _ _ (λ _ fs, kept (fs_files fs))).
  - eapply (triple_bind _ _ _ (λ _ fs, kept (fs_files fs) ∧ fs_files fs !! tmp = Some (Document value))).
    { intros fs Hk. unfold fs_writeFile. destruct (fault _); simpl;
        [|split; [|by rewrite lookup_insert_eq]]; (eapply kept_touch; [done|]; intros p Hp;
        by rewrite lookup_insert_ne). }
    intros ?. assert (Hl : ∀ m : FsM unit, leaves_files m →
      triple (λ fs, kept (fs_files fs) ∧ fs_files fs !! tmp = Some (Document value)) m
        (λ _ fs, kept (fs_files fs) ∧ fs_files fs !! tmp = Some (Document value))
        (λ _ fs, kept (fs_files fs))).
    { intros m Hm. eapply triple_weaken; [by apply (triple_leaves m (λ files, kept files ∧
        files !! tmp = Some (Document value)))|done|done|by intros ?? []]. }
    eapply triple_bind; [by apply Hl, leaves_operation|].
    intros ?. by apply Hl, leaves_operation.
  - intros e. apply (triple_leaves _ kept). by apply leaves_operation.
Qed.

Lemma writeJsonDurably_spec :
  triple (λ fs, kept (fs_files fs)) (writeJsonDurably path value)
    (λ _ fs, replaced (fs_files fs)) (λ _ fs, kept_or_replaced (fs_files fs)).
Proof.
  unfold writeJsonDurably. fold tmp.
  assert (Hw : ∀ A (m : FsM A) P Q, triple P m Q (λ _ fs, kept (fs_files fs)) →
    triple P m Q (λ _ fs, kept_or_replaced (fs_files fs))).
  { intros A m P Q Hm. eapply triple_weaken; [done..|]. intros ? fs Hk. by left. }
  eapply triple_bind; [apply Hw, (triple_leaves _ kept); by apply leaves_operation|].
  intros ?. eapply triple_bind; [apply Hw, remove_tmp_keeps; apply kept_touch|].
  intros ?. eapply (triple_finally _ _ _ (λ _ fs, replaced (fs_files fs)) _
    (λ _ fs, kept_or_replaced (fs_files fs))).
  - eapply (triple_bind _ _ _ (λ h fs, kept (fs_files fs) ∧ h = {| fh_path := tmp |})).
    { apply Hw, (triple_operation _ _ kept (λ h files, kept files ∧ h = {| fh_path := tmp |})).
      intros files Hk. split; [done|]. destruct (files !! tmp); [done|]. split; [|done].
      eapply kept_touch; [done|]. intros p Hp. by rewrite lookup_insert_ne. }
    intros h. apply triple_pure. intros ->.
    eapply triple_bind; [apply Hw, fill_temporary|].
    intros ?. eapply (triple_bind _ _ _ (λ _ fs, replaced (fs_files fs))).
    { apply Hw, (triple_operation _ _ (λ files, kept files ∧ files !! tmp = Some (Document value))
        (λ _, replaced)). intros files [Hk Ht]. split; [done|]. rewrite Ht. split.
      - by rewrite lookup_insert_eq.
      - intros p Hp Hpt. rewrite lookup_insert_ne, lookup_delete_ne by done. by apply Hk. }
    intros ?. eapply triple_weaken;
      [apply (triple_leaves _ replaced), leaves_syncParentDirectory|done|done|by right].
  - intros ?. eapply triple_weaken;
      [apply (remove_tmp_keeps replaced), replaced_touch|done|done|by right].
  - intros ?. apply (remove_tmp_keeps kept_or_replaced), kept_or_replaced_touch.
Qed.
End write.
End files.

(** Replacing a file is atomic under any failures: whatever operation
    fails, and whatever it does, the target holds its old contents or the
    whole new document and no other file but the temporary one changes; when
    the routine returns, the target holds the new document. *)
Theorem durable_write_is_atomic fault win32 dirname path value fs :
  let '(result, fs') := writeJsonDurably fault win32 dirname path value fs in
  (fs_files fs' !! path = fs_files fs !! path ∨ fs_files fs' !! path = Some (Document value)) ∧
  (∀ p, p ≠ path → p ≠ temporary_path path → fs_files fs' !! p = fs_files fs !! p) ∧
  (result = Ok tt → fs_files fs' !! path = Some (Document value)).
Proof.
  assert (Hk : kept path (fs_files fs) (fs_files fs)) by done.
  pose proof (writeJsonDurably_spec fault win32 dirname path value (fs_files fs) fs Hk) as H.
  destruct (writeJsonDurably _ _ _ _ _ _) as [[[]|e] fs'].
  - destruct H as [Hv Ho]. auto.
  - split_and!; [| |done].
    + destruct H as [Hk'|[Hv _]]; [left; apply Hk', not_eq_sym, temporary_path_ne|by right].
    + intros p Hp Ht. destruct H as [Hk'|[_ Ho]]; [by apply Hk'|by apply Ho].
Qed.
