(* ===== verification/AgentState.v ===== *)
(** * The state a node agent keeps on disk

    The persisted state of apps/node-agent/src/local-xray-adapter.ts (the same
    format as simulation-adapter.ts): the envelope with the current and the
    previous snapshot, its Zod schema, its consistency check and the snapshot
    hash; and the stop-only latch with its canonical list of revoked grants.
    SHA-256 of the JSON text of a document is a parameter. *)

From S2P Require Import Prelude.
From S2P Require Import Json.
From S2P Require Import NodeAgentContract.
From S2P Require Import XrayAccess.
Open Scope Z_scope.

Record PersistedState := {
  ps_version : Z;
  ps_snapshotHash : string;
  ps_appliedAt : string;
  ps_snapshot : NodeAgentConfigurationSnapshot;
}.
Record StateEnvelope := { env_current : PersistedState; env_previous : option PersistedState }.

(** [formatVersion] has the one value 1. *)
Record StopOnlyLatch := {
  l_targetVersion : Z;
  l_enforcementDeadlineAt : string;
  l_revokedGrantIds : list string;
}.

(** ** Documents *)

Definition encode_persisted (p : PersistedState) : json :=
  JObj [("version", jint (ps_version p)); ("snapshotHash", JStr (ps_snapshotHash p));
        ("appliedAt", JStr (ps_appliedAt p)); ("snapshot", encode_snapshot (ps_snapshot p))]%string.
Definition encode_envelope (e : StateEnvelope) : json :=
  JObj [("current", encode_persisted (env_current e));
        ("previous", json_nullable encode_persisted (env_previous e))]%string.
Definition encode_latch (l : StopOnlyLatch) : json :=
  JObj [("formatVersion", jint 1); ("targetVersion", jint (l_targetVersion l));
        ("enforcementDeadlineAt", JStr (l_enforcementDeadlineAt l));
        ("revokedGrantIds", JArr (JStr <$> l_revokedGrantIds l))]%string.

(** What the snapshot hash covers: neither the applied versions nor the
    pending acknowledgement. *)
Definition hashed_grant (g : NodeAgentGrant) : json :=
  JObj [("id", JStr (g_id g)); ("status", JStr (grant_status_name (g_status g)));
        ("expiresAt", JStr (g_expiresAt g)); ("desiredVersion", jint (g_desiredVersion g));
        ("revokedAt", json_nullable JStr (g_revokedAt g));
        ("dataPlaneCredential", json_nullable JStr (g_dataPlaneCredential g))]%string.
Definition hashed_document (s : NodeAgentConfigurationSnapshot) : json :=
  JObj [("desiredConfigVersion", jint (sn_desiredConfigVersion s));
        ("grants", JArr (hashed_grant <$> sn_grants s));
        ("routes", JArr (encode_route <$> sn_routes s))]%string.

Definition encode_client (c : XrayServableClient) : json :=
  JObj [("grantId", JStr (cl_grantId c)); ("credential", JStr (cl_credential c))]%string.

(** [[...new Set(ids)].sort()] *)
Definition canonical_ids (ids : list string) : list string :=
  sort_strings (foldl (λ s x, set_add x s) [] ids).

Section state.
Context (is_uuid is_datetime : string → bool) (sha256 : json → string).

Definition hashNodeAgentSnapshot (s : NodeAgentConfigurationSnapshot) : string :=
  sha256 (hashed_document s).
Definition fingerprintClients (clients : list XrayServableClient) : string :=
  sha256 (JArr (encode_client <$> clients)).

Definition persistedStateSchema (j : json) : option PersistedState :=
  m ← zod_object j;
  guard (strict_keys ["version"; "snapshotHash"; "appliedAt"; "snapshot"]%string m);;
  version ← field m "version"%string (zod_int_min 0);
  hash ← field m "snapshotHash"%string (zod_text is_sha256_hex);
  appliedAt ← field m "appliedAt"%string (zod_text is_datetime);
  snapshot ← field m "snapshot"%string (nodeAgentConfigurationSnapshotSchema is_uuid is_datetime);
  Some {| ps_version := version; ps_snapshotHash := hash; ps_appliedAt := appliedAt;
          ps_snapshot := snapshot |}.

Definition stateEnvelopeSchema (j : json) : option StateEnvelope :=
  m ← zod_object j;
  guard (strict_keys ["current"; "previous"]%string m);;
  current ← field m "current"%string persistedStateSchema;
  previous ← field m "previous"%string (zod_nullable persistedStateSchema);
  Some {| env_current := current; env_previous := previous |}.

Definition stopOnlyLatchSchema (j : json) : option StopOnlyLatch :=
  m ← zod_object j;
  guard (strict_keys ["formatVersion"; "targetVersion"; "enforcementDeadlineAt";
                      "revokedGrantIds"]%string m);;
  format ← field m "formatVersion"%string zod_int;
  guard (format = 1);;
  target ← field m "targetVersion"%string (zod_int_min 0);
  deadline ← field m "enforcementDeadlineAt"%string (zod_text is_datetime);
  ids ← field m "revokedGrantIds"%string (zod_array (zod_text is_uuid));
  guard (ids ≠ []);;
  guard (canonical_ids ids = ids);;
  Some {| l_targetVersion := target; l_enforcementDeadlineAt := deadline;
          l_revokedGrantIds := ids |}.

Definition isPersistedStateConsistent (p : PersistedState) : bool :=
  (ps_version p =? sn_desiredConfigVersion (ps_snapshot p)) &&
  bool_decide (ps_snapshotHash p = hashNodeAgentSnapshot (ps_snapshot p)).

Definition isStateEnvelopeConsistent (e : StateEnvelope) : bool :=
  isPersistedStateConsistent (env_current e) &&
  match env_previous e with
  | None => true
  | Some previous => (ps_version previous <? ps_version (env_current e)) &&
                     isPersistedStateConsistent previous
  end.

(** ** What the schemas accept *)

Definition persisted_wf (p : PersistedState) : Prop :=
  version_ok 0 (ps_version p) ∧ is_sha256_hex (ps_snapshotHash p) ∧
  is_datetime (ps_appliedAt p) ∧ snapshot_wf is_uuid is_datetime (ps_snapshot p).
Definition envelope_wf (e : StateEnvelope) : Prop :=
  persisted_wf (env_current e) ∧ (∀ p, env_previous e = Some p → persisted_wf p).
Definition latch_wf (l : StopOnlyLatch) : Prop :=
  version_ok 0 (l_targetVersion l) ∧ is_datetime (l_enforcementDeadlineAt l) ∧
  Forall is_uuid (l_revokedGrantIds l) ∧ l_revokedGrantIds l ≠ [] ∧
  canonical_ids (l_revokedGrantIds l) = l_revokedGrantIds l.

Lemma persisted_sound j p : persistedStateSchema j = Some p → persisted_wf p.
Proof.
  unfold persistedStateSchema. intros H. option_invert H. simplify_eq. fields_sound.
  match goal with E : field _ _ (nodeAgentConfigurationSnapshotSchema _ _) = Some _ |- _ =>
    apply (field_sound _ _ _ _ _ (snapshot_schema_sound is_uuid is_datetime)) in E end.
  by split_and!.
Qed.

Lemma envelope_sound j e : stateEnvelopeSchema j = Some e → envelope_wf e.
Proof.
  unfold stateEnvelopeSchema. intros H. option_invert H. simplify_eq.
  match goal with E : field _ _ persistedStateSchema = Some _ |- _ =>
    apply (field_sound _ _ _ _ _ persisted_sound) in E end.
  match goal with E : field _ _ (zod_nullable persistedStateSchema) = Some _ |- _ =>
    apply bind_Some in E as (? & _ & E);
    pose proof (zod_nullable_sound _ _ _ _ persisted_sound E) end.
  by split.
Qed.

Lemma persisted_encode p :
  persisted_wf p → persistedStateSchema (encode_persisted p) = Some p.
Proof.
  intros (?&?&?&?). unfold persistedStateSchema. simpl. decode_fields.
  rewrite snapshot_encode by done. simpl. by destruct p.
Qed.

Lemma envelope_encode e : envelope_wf e → stateEnvelopeSchema (encode_envelope e) = Some e.
Proof.
  intros [Hc Hp]. unfold stateEnvelopeSchema. simpl. unfold field. simpl.
  rewrite persisted_encode by done. simpl.
  rewrite zod_nullable_encode by (intros p Hs; split; [by apply persisted_encode, Hp|done]).
  simpl. by destruct e.
Qed.

Lemma latch_encode l : latch_wf l → stopOnlyLatchSchema (encode_latch l) = Some l.
Proof.
  intros (?&?&Hu&Hn&Hc). unfold stopOnlyLatchSchema. simpl. unfold field. simpl.
  decode_fields.
  rewrite (mapM_encode (zod_text is_uuid)) by
    (eapply Forall_impl; [exact Hu|intros x; apply zod_text_encode]).
  simpl. rewrite option_guard_True by done. simpl. rewrite option_guard_True by done. simpl.
  by destruct l.
Qed.
End state.

(** ** Canonical lists *)

Lemma elem_of_set_add {A} `{EqDecision A} (x y : A) s : y ∈ set_add x s ↔ y ∈ s ∨ y = x.
Proof. unfold set_add. case_decide; set_solver. Qed.
Lemma NoDup_set_add {A} `{EqDecision A} (x : A) s : NoDup s → NoDup (set_add x s).
Proof.
  unfold set_add. case_decide; [done|]. intros Hs. apply NoDup_app.
  split_and!; [done|set_solver|apply NoDup_singleton].
Qed.

Lemma elem_of_set_of {A} `{EqDecision A} (l s : list A) x :
  x ∈ foldl (λ s x, set_add x s) s l ↔ x ∈ s ∨ x ∈ l.
Proof.
  revert s. induction l as [|y l IH]; intros s; simpl; [set_solver|].
  rewrite IH, elem_of_set_add. set_solver.
Qed.
Lemma NoDup_set_of {A} `{EqDecision A} (l s : list A) :
  NoDup s → NoDup (foldl (λ s x, set_add x s) s l).
Proof. revert s. induction l; intros s Hs; simpl; [done|]. by apply IHl, NoDup_set_add. Qed.
Lemma set_of_NoDup {A} `{EqDecision A} (l s : list A) :
  NoDup (s ++ l) → foldl (λ s x, set_add x s) s l = s ++ l.
Proof.
  revert s. induction l as [|x l IH]; intros s Hd; simpl; [by rewrite app_nil_r|].
  unfold set_add at 2. rewrite decide_False.
  - rewrite IH; by rewrite <- app_assoc.
  - apply NoDup_app in Hd as (_&Hn&_). intros Hx. apply (Hn _ Hx). left.
Qed.

Lemma elem_of_canonical_ids ids x : x ∈ canonical_ids ids ↔ x ∈ ids.
Proof.
  unfold canonical_ids, sort_strings. rewrite elem_of_merge_sort, elem_of_set_of. set_solver.
Qed.

Lemma canonical_ids_idempotent ids : canonical_ids (canonical_ids ids) = canonical_ids ids.
Proof.
  unfold canonical_ids at 1. rewrite set_of_NoDup; simpl.
  - unfold canonical_ids, sort_strings. apply (merge_sort_Permutation_eq String.le).
    + intros x y _ _. apply (anti_symm String.le).
    + apply merge_sort_Permutation.
  - unfold canonical_ids, sort_strings. rewrite merge_sort_Permutation.
    apply NoDup_set_of, NoDup_nil_2.
Qed.
