(* ===== verification/XrayRuntime.v ===== *)
(** * The Xray runtimes: [apps/node-agent/src/xray-runtime.ts] and
    [apps/node-agent/src/xray-serving-verifier.ts]

    The interface the local Xray adapter is written against, as a type class
    with its laws, and its two implementations: [InMemoryXrayRuntime], and
    [FileXrayRuntime] with the Docker verifier of production, which writes the
    Xray configuration, has Xray reload it and asks the running Xray who is
    served.  Docker, the reload command and [JSON.parse] on its output are
    parameters; what is assumed of Docker is the class [DockerLaws]. *)

From S2P Require Import Prelude.
From S2P Require Import Json.
From S2P Require Import NodeAgentContract.
From S2P Require Import XrayAccess.
From S2P Require Import DurableFiles.
Open Scope Z_scope.

(** ** The runtime interface ([XrayConfigRuntime]) *)

(** [serves] is what the runtime lets through: ghost state of the interface,
    no operation reads it. *)
Class XrayConfigRuntime (R RE : Type) := {
  rt_applyClients : list XrayServableClient → bool → M R RE unit;
  rt_failClosed : M R RE unit;
  rt_isServing : M R RE bool;
  rt_serves : R → list XrayServableClient;
}.

(** What an implementation promises. *)
Class XrayConfigRuntimeLaws (R RE : Type) `{XrayConfigRuntime R RE} := {
  rt_apply_serves clients reload (r r' : R) :
    rt_applyClients clients reload r = (Ok tt, r') → rt_serves r' ≡ₚ clients;
  rt_failClosed_stops (r r' : R) : rt_failClosed r = (Ok tt, r') → rt_serves r' = [];
  rt_isServing_keeps (r : R) : rt_serves (snd (rt_isServing r)) = rt_serves r;
}.

(** [InMemoryXrayRuntime]; the [afterApply] hook may throw. *)
Record InMemoryXrayRuntime := { im_clients : list XrayServableClient; im_serving : bool }.

Definition in_memory_runtime {RE} (afterApply : list XrayServableClient → option RE)
    : XrayConfigRuntime InMemoryXrayRuntime RE := {|
  rt_applyClients clients _ := λ _,
    (match afterApply clients with None => Ok tt | Some e => Throw e end,
     {| im_clients := clients; im_serving := true |});
  rt_failClosed := λ _, (Ok tt, {| im_clients := []; im_serving := false |});
  rt_isServing := λ r, (Ok (im_serving r), r);
  rt_serves r := im_clients r;
|}.

Lemma in_memory_runtime_laws {RE} (afterApply : list XrayServableClient → option RE) :
  @XrayConfigRuntimeLaws _ _ (in_memory_runtime afterApply).
Proof.
  split; simpl.
  - intros clients _ _ r'. by destruct (afterApply clients); intros [= <-].
  - by intros _ r' [= <-].
  - done.
Qed.


(** ** The configuration file *)

Inductive ConfigError :=
| NotValidJson | NotAnObject | MissingInbounds | MissingVlessInbound | NotVless
| MissingClientsArray | TemplateHasCredentials.

Definition config_result (A : Type) : Type := outcome ConfigError A.

(** [isRecord] and property access. *)
Definition record (j : json) : option (list (string * json)) :=
  match j with JObj m => Some m | _ => None end.
Definition array (o : option json) : option (list json) :=
  match o with Some (JArr l) => Some l | _ => None end.
Definition text (o : option json) : option string :=
  match o with Some (JStr s) => Some s | _ => None end.

Definition parseJsonObject (raw : Contents) : config_result (list (string * json)) :=
  match raw with
  | NotJson => Throw NotValidJson
  | Document (JObj m) => Ok m
  | Document _ => Throw NotAnObject
  end.

(** [inbound.settings] when it is a record. *)
Definition inbound_settings (inbound : json) : option (list (string * json)) :=
  match record inbound with
  | Some m => match map_get "settings"%string m with Some s => record s | None => None end
  | None => None
  end.
Definition inbound_clients (inbound : json) : option (list json) :=
  match inbound_settings inbound with Some s => array (map_get "clients"%string s) | None => None end.

Definition has_credentials (inbound : json) : bool :=
  match inbound_clients inbound with Some (_ :: _) => true | _ => false end.
(** [true] when the assertion holds. *)
Definition assertTemplateHasNoClientCredentials (config : list (string * json)) : bool :=
  match array (map_get "inbounds"%string config) with
  | None => true
  | Some inbounds => negb (existsb has_credentials inbounds)
  end.

Definition is_tagged (inboundTag : string) (inbound : json) : bool :=
  match record inbound with
  | Some m => bool_decide (text (map_get "tag"%string m) = Some inboundTag)
  | None => false
  end.

(** The checks on the inbound that was found. *)
Definition check_vless (inbound : json) : config_result (list (string * json)) :=
  match record inbound with
  | None => Throw MissingVlessInbound
  | Some m =>
      if negb (bool_decide (text (map_get "protocol"%string m) = Some "vless"%string)) then Throw NotVless
      else match inbound_clients inbound with
           | None => Throw MissingClientsArray
           | Some _ => Ok m
           end
  end.

Definition findVlessInbound (config : list (string * json)) (inboundTag : string)
    : config_result (list (string * json)) :=
  match array (map_get "inbounds"%string config) with
  | None => Throw MissingInbounds
  | Some inbounds =>
      match list_find (is_tagged inboundTag) inbounds with
      | None => Throw MissingVlessInbound
      | Some (_, inbound) => check_vless inbound
      end
  end.

Definition client_entry (c : XrayServableClient) : json :=
  JObj [("id", JStr (cl_credential c)); ("email", JStr (cl_grantId c))]%string.

(** [settings.clients = entries] on an inbound, in place. *)
Definition put_clients (entries : list json) (inbound : json) : json :=
  match inbound, inbound_settings inbound with
  | JObj m, Some s => JObj (map_set "settings"%string (JObj (map_set "clients"%string (JArr entries) s)) m)
  | _, _ => inbound
  end.
Fixpoint put_first (inboundTag : string) (entries : list json) (inbounds : list json) : list json :=
  match inbounds with
  | [] => []
  | i :: l => if is_tagged inboundTag i then put_clients entries i :: l
              else i :: put_first inboundTag entries l
  end.

Section config.
Context `{LocaleCompare}.

(** The configuration [applyClients] writes. *)
Definition runtime_config (template : list (string * json)) (inboundTag : string)
    (clients : list XrayServableClient) : config_result json :=
  if negb (assertTemplateHasNoClientCredentials template) then Throw TemplateHasCredentials
  else match findVlessInbound template inboundTag with
       | Throw e => Throw e
       | Ok _ =>
           let entries := client_entry <$> merge_sort client_order clients in
           match array (map_get "inbounds"%string template) with
           | None => Throw MissingInbounds
           | Some inbounds =>
               Ok (JObj (map_set "inbounds"%string (JArr (put_first inboundTag entries inbounds)) template))
           end
       end.

(** The clients of a configuration ([inspectClients]). *)
Definition entry_client (entry : json) : option XrayServableClient :=
  match record entry with
  | Some m => match text (map_get "id"%string m), text (map_get "email"%string m) with
              | Some id, Some email => Some {| cl_grantId := email; cl_credential := id |}
              | _, _ => None
              end
  | None => None
  end.
Definition config_clients (config : list (string * json)) (inboundTag : string)
    : config_result (list XrayServableClient) :=
  match findVlessInbound config inboundTag with
  | Throw e => Throw e
  | Ok m => match inbound_clients (JObj m) with
            | None => Ok []
            | Some entries => Ok (omap entry_client entries)
            end
  end.
End config.

(** *** Reading back what was written *)

Lemma put_clients_tagged tag entries inbound :
  is_tagged tag (put_clients entries inbound) = is_tagged tag inbound.
Proof.
  unfold put_clients. destruct inbound as [| | | | |m]; try done.
  destruct (inbound_settings (JObj m)) as [s|]; [|done].
  unfold is_tagged. simpl. by rewrite map_get_set_ne.
Qed.

Lemma put_first_find tag entries inbounds i inbound :
  list_find (is_tagged tag) inbounds = Some (i, inbound) →
  list_find (is_tagged tag) (put_first tag entries inbounds) = Some (i, put_clients entries inbound).
Proof.
  revert i. induction inbounds as [|x l IH]; intros i; simpl; [done|].
  destruct (is_tagged tag x) eqn:Hx.
  - rewrite decide_True by done. intros [= <- <-]. simpl. rewrite put_clients_tagged, Hx.
    by rewrite decide_True.
  - rewrite decide_False by (by intros []). intros H. simpl. rewrite Hx.
    rewrite decide_False by (by intros []).
    destruct (list_find (is_tagged tag) l) as [[k y]|] eqn:Hl; [|done].
    injection H as <- <-. by rewrite (IH k eq_refl).
Qed.

Lemma put_clients_check entries inbound m :
  check_vless inbound = Ok m →
  ∃ m', check_vless (put_clients entries inbound) = Ok m' ∧
        inbound_clients (JObj m') = Some entries.
Proof.
  unfold check_vless. destruct (record inbound) as [m0|] eqn:Hr; [|done].
  assert (inbound = JObj m0) as -> by (by destruct inbound; simplify_eq/=).
  case_bool_decide as Hp; simpl; [|done].
  destruct (inbound_clients (JObj m0)) as [l|] eqn:Hc; [|done]. intros [= <-].
  unfold inbound_clients in Hc. destruct (inbound_settings (JObj m0)) as [s|] eqn:Hs; [|done].
  unfold put_clients. simpl. rewrite map_get_set_ne by done.
  rewrite bool_decide_eq_true_2 by done. simpl.
  unfold inbound_clients, inbound_settings. simpl. rewrite map_get_set_eq. simpl.
  rewrite map_get_set_eq. simpl. eexists. split; [done|].
  simpl. rewrite map_get_set_eq. simpl. by rewrite map_get_set_eq.
Qed.

Lemma client_entries (l : list XrayServableClient) : omap entry_client (client_entry <$> l) = l.
Proof.
  induction l as [|c l IH]; simpl; [done|]. unfold client_entry. simpl.
  destruct c. by f_equal.
Qed.

(** What is written for a list of clients is read back as that list, sorted. *)
Lemma runtime_config_clients `{LocaleCompare} template tag clients j :
  runtime_config template tag clients = Ok j →
  ∃ m, j = JObj m ∧ config_clients m tag = Ok (merge_sort client_order clients).
Proof.
  unfold runtime_config. destruct (assertTemplateHasNoClientCredentials template); simpl; [|done].
  destruct (findVlessInbound template tag) as [m|e] eqn:Hf; [|done].
  destruct (array (map_get "inbounds"%string template)) as [inbounds|] eqn:Ha; [|done].
  intros [= <-]. eexists. split; [done|].
  unfold findVlessInbound in Hf. rewrite Ha in Hf.
  destruct (list_find (is_tagged tag) inbounds) as [[i inbound]|] eqn:Hl; [|done].
  set (entries := client_entry <$> _).
  destruct (put_clients_check entries inbound m Hf) as (m' & Hc & He).
  unfold config_clients, findVlessInbound. rewrite map_get_set_eq. simpl.
  rewrite (put_first_find _ _ _ _ _ Hl), Hc, He. unfold entries. by rewrite client_entries.
Qed.

(** ** The Docker verifier *)

Inductive DockerCommand :=
| DockerPs (all : bool)
| DockerStop (containers : list string)
| DockerExecInboundUsers (container : string).

(** What a verification can fail with: a [SafeServingVerificationError] with
    its message, or another error. *)
Inductive VerifierError :=
| ProbeCommandFailed
| NotExactlyOneContainer
| InvalidUsersResponse
| InvalidUser
| AccessListMismatch
| StillRunning
| VerificationFailed (last : option VerifierError).

(** [split(/\r?\n/u)], [trim] and [filter(Boolean)]: a carriage return before
    the newline is trimmed away in either case. *)
Definition whitespace (c : Ascii.ascii) : bool :=
  let n := Ascii.nat_of_ascii c in ((9 <=? n) && (n <=? 13) || (n =? 32) || (n =? 160))%nat.
Fixpoint split_lines (s : string) : list (list Ascii.ascii) :=
  match s with
  | EmptyString => [[]]
  | String c s => match split_lines s with
                  | [] => [[c]]
                  | l :: ls => if (Ascii.nat_of_ascii c =? 10)%nat then [] :: l :: ls else (c :: l) :: ls
                  end
  end.
Fixpoint trim_start (l : list Ascii.ascii) : list Ascii.ascii :=
  match l with
  | [] => []
  | c :: l' => if whitespace c then trim_start l' else l
  end.
Definition trim (l : list Ascii.ascii) : string :=
  String.string_of_list_ascii (rev (trim_start (rev (trim_start l)))).
Definition parse_containers (stdout : string) : list string :=
  filter (λ s, s ≠ ""%string) (trim <$> split_lines stdout).

(** [parseInboundUsers] on parsed output; [None] is text that is not JSON. *)
Definition inbound_user (entry : json) : option XrayServableClient :=
  match record entry with
  | Some m =>
      match text (map_get "email"%string m),
            match map_get "account"%string m with Some a => record a | None => None end with
      | Some email, Some account =>
          match text (map_get "id"%string account) with
          | Some id => Some {| cl_grantId := email; cl_credential := id |}
          | None => None
          end
      | _, _ => None
      end
  | None => None
  end.
Definition parseInboundUsers (parsed : option json) : outcome VerifierError (list XrayServableClient) :=
  match parsed with
  | Some (JObj m) =>
      match map_get "users"%string m with
      | None | Some JNull => Ok []
      | Some (JArr entries) =>
          match mapM inbound_user entries with Some l => Ok l | None => Throw InvalidUser end
      | Some _ => Throw InvalidUsersResponse
      end
  | _ => Throw InvalidUsersResponse
  end.

Section verifier.
Context `{LocaleCompare}.
Context {D : Type} (docker : DockerCommand → M D unit string) (JSON_parse : string → option json).
Context (attempts : nat).

Notation DM := (M D VerifierError).

(** [runCommand]: any failure of the command is the probe's. *)
Definition executeCommand (command : DockerCommand) : DM string := λ d,
  match docker command d with
  | (Ok out, d') => (Ok out, d')
  | (Throw _, d') => (Throw ProbeCommandFailed, d')
  end.
Definition of_outcome {S E A} (o : outcome E A) : M S E A := λ s, (o, s).

Definition findContainers (includeStopped : bool) : DM (list string) :=
  containers ← executeCommand (DockerPs includeStopped);
  mret (parse_containers containers).

Definition inspectServingClients : DM (list XrayServableClient) :=
  containerIds ← findContainers false;
  match containerIds : list string with
  | [id] => stdout ← executeCommand (DockerExecInboundUsers id);
            of_outcome (parseInboundUsers (JSON_parse stdout))
  | _ => throw NotExactlyOneContainer
  end.

(** [left.grantId.localeCompare(...) || left.credential.localeCompare(...)] *)
Definition same_order (l r : XrayServableClient) : Prop :=
  let c := localeCompare (cl_grantId l) (cl_grantId r) in
  if decide (c = 0) then localeCompare (cl_credential l) (cl_credential r) ≤ 0 else c < 0.
#[export] Instance same_order_dec l r : Decision (same_order l r).
Proof. unfold same_order. case_decide; apply _. Defined.
Definition sameClients (actual expected : list XrayServableClient) : bool :=
  bool_decide (merge_sort same_order actual = merge_sort same_order expected).

(** The loop of [verifyClients]; the pauses between attempts only pass time. *)
Fixpoint verify_loop (n : nat) (lastError : option VerifierError)
    (expectedClients : list XrayServableClient) : DM unit :=
  match n with
  | O => throw (VerificationFailed lastError)
  | S n =>
      r ← try_catch (actualClients ← inspectServingClients;
                     throw_if (negb (sameClients actualClients expectedClients)) AccessListMismatch;;
                     mret None)
            (λ e, mret (Some e));
      match r : option VerifierError with
      | None => mret tt
      | Some e => verify_loop n (Some e) expectedClients
      end
  end.
Definition verifyClients (expectedClients : list XrayServableClient) : DM unit :=
  verify_loop attempts None expectedClients.

Definition verifier_isServing : DM bool :=
  runningContainerIds ← findContainers false;
  mret (length runningContainerIds =? 1)%nat.

Definition stopServing : DM unit :=
  containerIds ← findContainers true;
  when (negb (bool_decide (containerIds = []))) (executeCommand (DockerStop containerIds);; mret tt);;
  runningContainerIds ← findContainers false;
  throw_if (negb (bool_decide (runningContainerIds = []))) StillRunning.

(** *** What is assumed of Docker and Xray

    [running] are the running containers of the service and [serves] what the
    running Xray lets through: listing and asking change nothing, [docker ps]
    lists the running containers, and the one running Xray answers with the
    users it serves; without a running container nobody is served. *)
Class DockerLaws := {
  running : D → list string;
  serves : D → list XrayServableClient;
  ps_keeps all d : serves (snd (docker (DockerPs all) d)) = serves d;
  ps_running d out d' : docker (DockerPs false) d = (Ok out, d') →
    parse_containers out = running d ∧ running d' = running d;
  exec_answers d id out d' : running d = [id] →
    docker (DockerExecInboundUsers id) d = (Ok out, d') →
    parseInboundUsers (JSON_parse out) = Ok (serves d) ∧ serves d' = serves d;
  not_running_serves_nobody d : running d = [] → serves d = [];
}.

Context `{!DockerLaws}.

Lemma execute_ok command d out d' :
  executeCommand command d = (Ok out, d') → docker command d = (Ok out, d').
Proof. unfold executeCommand. by destruct (docker command d) as [[]]; intros [= -> ->]. Qed.

Lemma findContainers_keeps all d : serves (snd (findContainers all d)) = serves d.
Proof.
  unfold findContainers, executeCommand, mbind, M_bind. pose proof (ps_keeps all d) as Hk.
  by destruct (docker (DockerPs all) d) as [[out|e] d'].
Qed.

Lemma findContainers_running d ids d' :
  findContainers false d = (Ok ids, d') → ids = running d ∧ running d' = running d ∧ serves d' = serves d.
Proof.
  intros Hf. pose proof (findContainers_keeps false d) as Hk. rewrite Hf in Hk.
  unfold findContainers, mbind, M_bind in Hf.
  destruct (executeCommand (DockerPs false) d) as [[out|e] d1] eqn:He; [|done].
  apply execute_ok, ps_running in He as [Hp Hr]. injection Hf as <- <-. done.
Qed.

Lemma inspect_serves d clients d' :
  inspectServingClients d = (Ok clients, d') → clients = serves d'.
Proof.
  unfold inspectServingClients, mbind, M_bind.
  destruct (findContainers false d) as [[ids|e] d1] eqn:Hf; [|done].
  apply findContainers_running in Hf as (-> & Hr & Hs).
  destruct (running d) as [|id [|]] eqn:Hrun; try done.
  destruct (executeCommand (DockerExecInboundUsers id) d1) as [[out|e] d2] eqn:He; [|done].
  apply execute_ok in He. destruct (exec_answers d1 id out d2 Hr He) as [Ho Hk].
  unfold of_outcome. rewrite Ho. intros [= <- <-]. done.
Qed.

(** A verification that succeeds proves what is served. *)
Lemma verify_loop_serves n last expected d d' :
  verify_loop n last expected d = (Ok tt, d') → serves d' ≡ₚ expected.
Proof.
  revert last d. induction n as [|n IH]; intros last d; simpl; [done|].
  unfold mbind, M_bind, try_catch, throw_if, mret, M_ret.
  destruct (inspectServingClients d) as [[actual|e] d1] eqn:Hi; [|apply IH].
  destruct (sameClients actual expected) eqn:Hs; simpl; [|apply IH].
  intros [= <-]. apply inspect_serves in Hi. subst actual.
  apply bool_decide_eq_true in Hs.
  rewrite <- (merge_sort_Permutation same_order (serves d1)), Hs. apply merge_sort_Permutation.
Qed.

Lemma stopServing_stops d d' : stopServing d = (Ok tt, d') → serves d' = [].
Proof.
  unfold stopServing. intros H1.
  unfold mbind at 1, M_bind at 1 in H1. destruct (findContainers true d) as [[ids|e] d1]; [|done].
  unfold mbind at 1, M_bind at 1 in H1.
  destruct (when _ _ d1) as [[[]|e] d2]; [|done].
  unfold mbind, M_bind in H1. destruct (findContainers false d2) as [[run|e] d3] eqn:Hf; [|done].
  apply findContainers_running in Hf as (-> & Hr & Hs).
  unfold throw_if in H1. case_bool_decide as Hn; [|done]. injection H1 as <-.
  apply not_running_serves_nobody. by rewrite Hr.
Qed.

Lemma isServing_keeps d : serves (snd (verifier_isServing d)) = serves d.
Proof.
  unfold verifier_isServing, mbind, M_bind. pose proof (findContainers_keeps false d) as Hk.
  by destruct (findContainers false d) as [[ids|e] d'].
Qed.
End verifier.

(** ** The file runtime *)

(** [FileXrayRuntimeOptions]: the modes of files are not modelled, and in
    production the Docker verifier is both the serving verifier and the
    fail-closed controller ([adapter-factory.ts]). *)
Record FileXrayRuntimeOptions := {
  templatePath : string;
  runtimeConfigPath : string;
  inboundTag : string;
  reloadCommand : option string;
  dockerController : bool;
}.

Inductive RuntimeError :=
| RuntimeFile (e : FsError)
| RuntimeConfigInvalid (e : ConfigError)
| ReloadFailed
| RuntimeVerifier (e : VerifierError).

Section file_runtime.
Context `{LocaleCompare}.
Context {D : Type} (docker : DockerCommand → M D unit string) (JSON_parse : string → option json).
(** Running the reload command. *)
Context (executeReloadCommand : string → M D unit unit).
Context (attempts : nat) (fault : FsOp → nat → option FsError) (dirname : string → string).
Context (options : FileXrayRuntimeOptions).

Record FileXrayRuntime := { fx_fs : FileSystem; fx_docker : D }.
Notation FM := (M FileXrayRuntime RuntimeError).

Definition on_fs {A} (m : M FileSystem FsError A) : FM A := λ w,
  match m (fx_fs w) with
  | (Ok a, fs) => (Ok a, {| fx_fs := fs; fx_docker := fx_docker w |})
  | (Throw e, fs) => (Throw (RuntimeFile e), {| fx_fs := fs; fx_docker := fx_docker w |})
  end.
Definition on_docker {A E} (wrap : E → RuntimeError) (m : M D E A) : FM A := λ w,
  match m (fx_docker w) with
  | (Ok a, d) => (Ok a, {| fx_fs := fx_fs w; fx_docker := d |})
  | (Throw e, d) => (Throw (wrap e), {| fx_fs := fx_fs w; fx_docker := d |})
  end.
Definition config_step {A} (o : config_result A) : FM A :=
  match o with Ok a => mret a | Throw e => throw (RuntimeConfigInvalid e) end.

Definition readRuntimeIfPresent (path : string) : FM (option Contents) :=
  try_catch (raw ← on_fs (fs_read fault path); mret (Some raw))
    (λ e, match e with RuntimeFile ENOENT => mret None | _ => throw e end).

Definition writeRuntimeConfig (path : string) (contents : json) : M FileSystem FsError unit :=
  let temporaryPath := temporary_path path in
  fs_mkdir fault (dirname path);;
  fs_remove fault temporaryPath;;
  finally
    (temporary ← fs_openFile fault temporaryPath FLAG_WX;
     cleanup_on_error
       (fs_writeFile fault temporary contents;; fs_sync fault temporary;; fs_close fault temporary)
       (fs_close fault temporary);;
     fs_chmod fault temporaryPath;;
     fs_rename fault temporaryPath path)
    (fs_remove fault temporaryPath).

Definition run_reload : FM unit :=
  match reloadCommand options with
  | Some command => on_docker (λ _, ReloadFailed) (executeReloadCommand command)
  | None => mret tt
  end.
Definition verify (clients : list XrayServableClient) : FM unit :=
  when (dockerController options)
    (on_docker RuntimeVerifier (verifyClients docker JSON_parse attempts clients)).

(** A file written by this code holds the text of its document, so equal
    documents are equal texts. *)
Definition applyClients (clients : list XrayServableClient) (reloadIfUnchanged : bool) : FM unit :=
  raw ← on_fs (fs_read fault (templatePath options));
  template ← config_step (parseJsonObject raw);
  serialized ← config_step (runtime_config template (inboundTag options) clients);
  existing ← readRuntimeIfPresent (runtimeConfigPath options);
  if match existing : option Contents with
     | Some (Document j) => bool_decide (j = serialized) | _ => false end
  then
    on_fs (fs_chmod fault (runtimeConfigPath options));;
    when reloadIfUnchanged run_reload;;
    verify clients
  else
    on_fs (writeRuntimeConfig (runtimeConfigPath options) serialized);;
    run_reload;;
    verify clients.

Definition isServing : FM bool :=
  if dockerController options then on_docker RuntimeVerifier (verifier_isServing docker)
  else mret true.

Definition inspectClients : FM (list XrayServableClient) :=
  raw ← readRuntimeIfPresent (runtimeConfigPath options);
  match raw : option Contents with
  | None => mret []
  | Some raw =>
      config ← config_step (parseJsonObject raw);
      config_step (config_clients config (inboundTag options))
  end.

Definition failClosed : FM unit :=
  if dockerController options then on_docker RuntimeVerifier (stopServing docker)
  else applyClients [] true.

(** *** The configuration that is written *)

Lemma on_fs_ok {A} (m : M FileSystem FsError A) w a w' :
  on_fs m w = (Ok a, w') → m (fx_fs w) = (Ok a, fx_fs w') ∧ fx_docker w' = fx_docker w.
Proof. unfold on_fs. destruct (m (fx_fs w)) as [[b|e] fs]; intros [= -> <-]; done. Qed.

Lemma on_docker_fs {A E} (wrap : E → RuntimeError) (m : M D E A) w a w' :
  on_docker wrap m w = (Ok a, w') → fx_fs w' = fx_fs w ∧ m (fx_docker w) = (Ok a, fx_docker w').
Proof. unfold on_docker. destruct (m (fx_docker w)) as [[b|e] d]; intros [= -> <-]; done. Qed.

Lemma bind_inv {S E A B} (m : M S E A) (f : A → M S E B) s b s' :
  (m ≫= f) s = (Ok b, s') → ∃ a s1, m s = (Ok a, s1) ∧ f a s1 = (Ok b, s').
Proof. unfold mbind, M_bind. destruct (m s) as [[a|e] s1]; [eauto|done]. Qed.

Lemma config_step_inv {A} (o : config_result A) w a w' :
  config_step o w = (Ok a, w') → o = Ok a ∧ w' = w.
Proof. unfold config_step. destruct o; by intros [= -> <-]. Qed.

Lemma readRuntime_inv path w o w' :
  readRuntimeIfPresent path w = (Ok o, w') →
  fs_files (fx_fs w') = fs_files (fx_fs w) ∧
  (∀ c, o = Some c → fs_files (fx_fs w) !! path = Some c).
Proof.
  unfold readRuntimeIfPresent, try_catch, on_fs, fs_read, fs_operation, mbind, M_bind, mret, M_ret.
  destruct (fault OpRead (fs_tick (fx_fs w))) as [e|].
  - destruct e; intros [= <- <-]; split; done.
  - destruct (fs_files (fx_fs w) !! path) as [c|] eqn:Hp; intros [= <- <-]; split; done || congruence.
Qed.

Lemma write_runtime_config path contents fs fs' :
  writeRuntimeConfig path contents fs = (Ok tt, fs') →
  fs_files fs' !! path = Some (Document contents).
Proof.
  assert (Ht : triple (λ s, True) (writeRuntimeConfig path contents)
    (λ _ s, fs_files s !! path = Some (Document contents)) (λ _ _, True)).
  { unfold writeRuntimeConfig.
    assert (Hany : ∀ A (m : M FileSystem FsError A), triple (λ _, True) m (λ _ _, True) (λ _ _, True))
      by (intros A m s _; by destruct (m s) as [[]]).
    eapply triple_bind; [apply Hany|]. intros ?. eapply triple_bind; [apply Hany|]. intros ?.
    set (final := λ files : gmap string Contents, files !! path = Some (Document contents)).
    eapply (triple_finally _ _ _ (λ _ s, final (fs_files s)) _ (λ _ _, True)).
    - eapply (triple_bind _ _ _ (λ h _, h = {| fh_path := temporary_path path |})).
      { intros s _. unfold fs_openFile, fs_operation. destruct (fault _ _); [done|].
        by destruct (fs_files s !! temporary_path path). }
      intros h. apply (triple_weaken _ _ (λ s, True ∧ h = {| fh_path := temporary_path path |})
        (λ _ s, final (fs_files s)) (λ _ s, final (fs_files s)) _ (λ _ _, True)); [|auto..].
      apply triple_pure. intros ->.
      set (filled := λ files : gmap string Contents, files !! temporary_path path = Some (Document contents)).
      eapply (triple_bind _ _ _ (λ _ s, filled (fs_files s))).
      { eapply (triple_cleanup _ _ _ _ (λ _ _, True)); [|intros e; apply Hany].
        eapply (triple_bind _ _ _ (λ _ s, filled (fs_files s))).
        { intros s _. unfold fs_writeFile. destruct (fault _ _); [done|]. apply lookup_insert_eq. }
        intros ?. eapply (triple_bind _ _ _ (λ _ s, filled (fs_files s))).
        - eapply triple_weaken; [apply (triple_leaves _ filled); by apply leaves_operation|done..].
        - intros ?. eapply triple_weaken; [apply (triple_leaves _ filled); by apply leaves_operation|done..]. }
      intros ?. eapply (triple_bind _ _ _ (λ _ s, filled (fs_files s))).
      { eapply triple_weaken; [apply (triple_leaves _ filled)|done..].
        apply leaves_operation. intros files. by destruct (files !! temporary_path path). }
      intros ?. intros s Hs. unfold fs_rename, fs_operation. destruct (fault _ _); [done|].
      rewrite Hs. apply lookup_insert_eq.
    - intros ? s Hs. unfold fs_remove, fs_operation. destruct (fault _ _); [done|].
      simpl. unfold final. rewrite lookup_delete_ne by apply temporary_path_ne. exact Hs.
    - intros ?. apply Hany. }
  intros He. specialize (Ht fs I). by rewrite He in Ht.
Qed.

(** When [applyClients] succeeds the configuration file holds the template
    with exactly these clients. *)
Lemma applyClients_config clients reload w w' :
  applyClients clients reload w = (Ok tt, w') →
  ∃ template j, runtime_config template (inboundTag options) clients = Ok j ∧
    fs_files (fx_fs w') !! runtimeConfigPath options = Some (Document j).
Proof.
  unfold applyClients. intros H1.
  apply bind_inv in H1 as (raw & w1 & _ & H1).
  apply bind_inv in H1 as (template & w2 & Ht & H1). apply config_step_inv in Ht as [_ ->].
  apply bind_inv in H1 as (j & w3 & Hj & H1). apply config_step_inv in Hj as [Hj ->].
  apply bind_inv in H1 as (existing & w4 & Hr & H1). apply readRuntime_inv in Hr as [Hf Hr].
  exists template, j. split; [done|].
  assert (Hend : ∀ w5, fs_files (fx_fs w5) !! runtimeConfigPath options = Some (Document j) →
    ∀ b w6, (when b run_reload;; verify clients) w5 = (Ok tt, w6) →
    fs_files (fx_fs w6) !! runtimeConfigPath options = Some (Document j)).
  { intros w5 H5 b w6 H6. apply bind_inv in H6 as ([] & w7 & Hrel & Hver).
    assert (fx_fs w7 = fx_fs w5) as Hw7.
    { destruct b; simpl in Hrel; [|by injection Hrel as <-]. unfold run_reload in Hrel.
      destruct (reloadCommand options); [by apply on_docker_fs in Hrel as [? _]|by injection Hrel as <-]. }
    assert (fx_fs w6 = fx_fs w7) as Hw6.
    { unfold verify, when in Hver. destruct (dockerController options);
        [by apply on_docker_fs in Hver as [? _]|by injection Hver as <-]. }
    by rewrite Hw6, Hw7. }
  destruct (match existing with Some (Document j') => _ | _ => _ end) eqn:Hsame.
  - apply bind_inv in H1 as ([] & w5 & Hc & H1). eapply Hend; [|exact H1].
    destruct existing as [[j'|]|]; try done. apply bool_decide_eq_true in Hsame as ->.
    apply on_fs_ok in Hc as [Hc _]. unfold fs_chmod, fs_operation in Hc.
    specialize (Hr _ eq_refl). rewrite <- Hf in Hr. rewrite Hr in Hc.
    destruct (fault OpChmod _); [done|]. injection Hc as Hc. by rewrite <- Hc.
  - apply bind_inv in H1 as ([] & w5 & Hc & H1). apply (Hend w5) with (b := true); [|exact H1].
    apply on_fs_ok in Hc as [Hc _]. by eapply write_runtime_config.
Qed.

(** *** The laws *)

Context `{!DockerLaws docker JSON_parse}.
Context (production : dockerController options = true).

#[export] Instance file_runtime : XrayConfigRuntime FileXrayRuntime RuntimeError := {|
  rt_applyClients := applyClients;
  rt_failClosed := failClosed;
  rt_isServing := isServing;
  rt_serves w := serves docker JSON_parse (fx_docker w);
|}.

Lemma applyClients_serves clients reload w w' :
  applyClients clients reload w = (Ok tt, w') →
  serves docker JSON_parse (fx_docker w') ≡ₚ clients.
Proof.
  unfold applyClients. intros H1.
  apply bind_inv in H1 as (raw & w1 & _ & H1). apply bind_inv in H1 as (template & w2 & _ & H1).
  apply bind_inv in H1 as (j & w3 & _ & H1). apply bind_inv in H1 as (existing & w4 & _ & H1).
  assert (Hv : ∀ w5, verify clients w5 = (Ok tt, w') → serves docker JSON_parse (fx_docker w') ≡ₚ clients).
  { intros w5 Hv. unfold verify in Hv. rewrite production in Hv. simpl in Hv.
    apply on_docker_fs in Hv as [_ Hv]. by eapply verify_loop_serves. }
  destruct (match existing with Some (Document j') => _ | _ => _ end);
    apply bind_inv in H1 as ([] & w5 & _ & H1); apply bind_inv in H1 as ([] & w6 & _ & H1);
    by eapply Hv.
Qed.

Lemma failClosed_stops w w' :
  failClosed w = (Ok tt, w') → serves docker JSON_parse (fx_docker w') = [].
Proof.
  unfold failClosed. rewrite production. intros Hs.
  apply on_docker_fs in Hs as [_ Hs]. by eapply stopServing_stops.
Qed.

#[export] Instance file_runtime_laws : XrayConfigRuntimeLaws FileXrayRuntime RuntimeError.
Proof.
  split; simpl.
  - intros clients reload w w'. apply applyClients_serves.
  - apply failClosed_stops.
  - intros w. unfold isServing. rewrite production. unfold on_docker.
    pose proof (isServing_keeps docker JSON_parse (fx_docker w)) as Hk.
    by destruct (verifier_isServing docker (fx_docker w)) as [[b|e] d].
Qed.

(** The production runtime keeps the promises of its interface: when
    [applyClients] succeeds, the running Xray serves exactly the given
    clients, and the configuration file lists them, sorted, and nothing else;
    when [failClosed] succeeds nobody is served. *)
Theorem file_runtime_keeps_promises clients reload w :
  (∀ w', applyClients clients reload w = (Ok tt, w') →
    serves docker JSON_parse (fx_docker w') ≡ₚ clients ∧
    ∃ config, fs_files (fx_fs w') !! runtimeConfigPath options = Some (Document (JObj config)) ∧
      config_clients config (inboundTag options) = Ok (merge_sort client_order clients)) ∧
  (∀ w', failClosed w = (Ok tt, w') → serves docker JSON_parse (fx_docker w') = []).
Proof.
  split; intros w' Hr.
  - split; [by eapply applyClients_serves|].
    destruct (applyClients_config _ _ _ _ Hr) as (template & j & Hj & Hf).
    destruct (runtime_config_clients _ _ _ _ Hj) as (m & -> & Hm). by exists m.
  - by apply failClosed_stops in Hr.
Qed.
End file_runtime.
