(* ===== verification/ReconcileLoop.v ===== *)
(** * The local reconcile loop: [apps/node-agent/src/local-state-reconciler.ts]

    [LocalStateReconcileLoop.run] as a machine that moves at every event of the
    process: the reconciler answers, the adapter notifies, the timer fires, the
    signal aborts, a settled wait resumes.  AgentLoops.v puts it beside its
    adapter and the control-plane loop. *)

From S2P Require Import Prelude.
Open Scope Z_scope.

(** ** The loop *)

Definition MAX_TIMER_DELAY_MS : Z := 2147483647.

Inductive WaitOutcome := WaitAborted | WaitDeadline | WaitReschedule | WaitStateChanged.
Inductive ReconcilerCall := CallReconcileLocalState | CallNextLocalReconcileAt.
(** What the call answers: a deadline or none, or a throw and the [clock.now()]
    of its handler. *)
Inductive ReconcilerAnswer := Deadline (deadlineAt : option Z) | Failed (failedAt : Z).

(** [clock.setTimeout(() => finish(...), delay)]: when it is due, the delay it
    was given, and what it finishes with. *)
Record Timer := { tm_dueAt : Z; tm_delayMs : Z; tm_reachesDeadline : bool }.

(** Where [run] is suspended. *)
Inductive Point :=
| NotRunning
| Awaiting (call : ReconcilerCall) (observedRevision : Z)
| Waiting (timer : option Timer)
| Settled (o : WaitOutcome)
| Returned.

(** [lo_subscribed]: the listener is among the adapter's. *)
Record Loop := {
  lo_point : Point;
  lo_stateRevision : Z;
  lo_subscribed : bool;
  lo_aborted : bool;
}.

Section loop.
Context (retryDelayMs : Z).

Definition at_point (p : Point) (l : Loop) : Loop :=
  {| lo_point := p; lo_stateRevision := lo_stateRevision l; lo_subscribed := lo_subscribed l;
     lo_aborted := lo_aborted l |}.

(** [finally { unsubscribe(); }] *)
Definition return_ (l : Loop) : Loop :=
  {| lo_point := Returned; lo_stateRevision := lo_stateRevision l; lo_subscribed := false;
     lo_aborted := lo_aborted l |}.

(** [while (!signal.aborted) { const observedRevision = ...; ... }] up to the
    call it awaits. *)
Definition iterate_loop (reconcileRuntime : bool) (l : Loop) : Loop :=
  if lo_aborted l then return_ l
  else at_point (Awaiting (if reconcileRuntime then CallReconcileLocalState else CallNextLocalReconcileAt)
                          (lo_stateRevision l)) l.

(** [finish]: [wakeWaiter] and the abort listener are set while it waits. *)
Definition finish (o : WaitOutcome) (l : Loop) : Loop :=
  match lo_point l with Waiting _ => at_point (Settled o) l | _ => l end.

Definition set_timer (deadlineAt now : Z) : Timer :=
  let remainingMs := Z.max 0 (deadlineAt - now) in
  let delay := Z.min remainingMs MAX_TIMER_DELAY_MS in
  {| tm_dueAt := now + delay; tm_delayMs := delay;
     tm_reachesDeadline := remainingMs <=? MAX_TIMER_DELAY_MS |}.

Definition waitUntil (deadlineAt : option Z) (observedRevision now : Z) (l : Loop) : Loop :=
  if lo_aborted l then at_point (Settled WaitAborted) l
  else if negb (lo_stateRevision l =? observedRevision) then at_point (Settled WaitStateChanged) l
  else at_point (Waiting ((λ d, set_timer d now) <$> deadlineAt)) l.

(** The listener: [this.stateRevision += 1; this.wakeWaiter?.()]. *)
Definition changed (l : Loop) : Loop :=
  if lo_subscribed l
  then finish WaitStateChanged
         {| lo_point := lo_point l; lo_stateRevision := lo_stateRevision l + 1;
            lo_subscribed := true; lo_aborted := lo_aborted l |}
  else l.

Definition deadline_of (a : ReconcilerAnswer) : option Z :=
  match a with Deadline d => d | Failed t => Some (t + retryDelayMs) end.

Inductive LoopEvent :=
| EvRun
| EvAnswered (a : ReconcilerAnswer) (now : Z)
| EvChanged
| EvAbort
| EvTimer (now : Z)
| EvResumed.

(** The loop after an event; [None] when it cannot happen. *)
Definition loop_event (e : LoopEvent) (l : Loop) : option Loop :=
  match e, lo_point l with
  | EvRun, NotRunning =>
      Some (iterate_loop true {| lo_point := NotRunning; lo_stateRevision := lo_stateRevision l;
                                 lo_subscribed := true; lo_aborted := lo_aborted l |})
  | EvAnswered a now, Awaiting _ observedRevision => Some (waitUntil (deadline_of a) observedRevision now l)
  | EvChanged, _ => Some (changed l)
  | EvAbort, _ =>
      Some (finish WaitAborted {| lo_point := lo_point l; lo_stateRevision := lo_stateRevision l;
                                  lo_subscribed := lo_subscribed l; lo_aborted := true |})
  | EvTimer now, Waiting (Some t) =>
      if now <? tm_dueAt t then None
      else Some (finish (if tm_reachesDeadline t then WaitDeadline else WaitReschedule) l)
  | EvResumed, Settled o =>
      Some (match o with
            | WaitAborted => return_ l
            | WaitDeadline => iterate_loop true l
            | _ => iterate_loop false l
            end)
  | _, _ => None
  end.

Fixpoint loop_run (events : list LoopEvent) (l : Loop) : option Loop :=
  match events with [] => Some l | e :: events => loop_event e l ≫= loop_run events end.

(** The loop moves at events of its own; the others happen to it. *)
Definition own (e : LoopEvent) : bool :=
  match e with EvChanged | EvAbort => false | _ => true end.

Definition new_loop (aborted : bool) : Loop :=
  {| lo_point := NotRunning; lo_stateRevision := 0; lo_subscribed := false; lo_aborted := aborted |}.
(** ** Timers *)

(** Node fires a timer at once when its delay is out of range; no delay is, and a
    wait that ends with the deadline ends after it. *)
Lemma set_timer_range d now : 0 ≤ tm_delayMs (set_timer d now) ≤ MAX_TIMER_DELAY_MS.
Proof. unfold set_timer, MAX_TIMER_DELAY_MS. simpl. lia. Qed.
Lemma set_timer_due d now :
  tm_dueAt (set_timer d now) ≤ Z.max now d ∧
  (tm_reachesDeadline (set_timer d now) = true → tm_dueAt (set_timer d now) = Z.max now d) ∧
  (d ≤ now + MAX_TIMER_DELAY_MS → tm_reachesDeadline (set_timer d now) = true).
Proof.
  unfold set_timer, MAX_TIMER_DELAY_MS. simpl. split; [lia|]. split; intros H; [apply Z.leb_le in H|apply Z.leb_le]; lia.
Qed.

(** ** Stopping *)

(** While the signal is aborted the loop does not wait. *)
Definition loop_ok (l : Loop) : Prop :=
  match lo_point l with
  | Waiting _ => lo_aborted l = false ∧ lo_subscribed l = true
  | Awaiting _ observedRevision => lo_subscribed l = true ∧ observedRevision ≤ lo_stateRevision l
  | Settled o => lo_subscribed l = true ∧ (o = WaitAborted → lo_aborted l = true)
  | Returned => lo_subscribed l = false ∧ lo_aborted l = true
  | NotRunning => lo_subscribed l = false
  end.

Lemma loop_event_ok e l l' : loop_ok l → loop_event e l = Some l' → loop_ok l'.
Proof.
  unfold loop_ok, loop_event, waitUntil, iterate_loop, changed, finish, at_point, return_.
  intros Hok He. destruct l as [p rev sub ab]; simpl in *.
  destruct e, p as [|call obs|[t|]|[]|]; simpl in *; try done;
    repeat match goal with
    | H : _ ∧ _ |- _ => destruct H
    | H : context [if ?b then _ else _] |- _ => destruct b eqn:?
    end; simplify_eq; simpl; naive_solver lia.
Qed.
Lemma loop_run_ok events l l' : loop_ok l → loop_run events l = Some l' → loop_ok l'.
Proof.
  revert l. induction events as [|e events IH]; intros l Hok; simpl; [by intros [= <-]|].
  intros (l1 & H1 & H2)%bind_Some. eapply IH; [by eapply loop_event_ok|done].
Qed.

(** How many events of its own it still has, once aborted. *)
Definition own_left (l : Loop) : nat :=
  match lo_point l with Awaiting _ _ => 2 | Settled _ | NotRunning => 1 | Waiting _ | Returned => 0 end.

Lemma aborted_event e l l' :
  loop_ok l → lo_aborted l = true → loop_event e l = Some l' →
  lo_aborted l' = true ∧ (own_left l' + (if own e then 1 else 0) = own_left l)%nat ∧
  ∀ call rev, lo_point l' = Awaiting call rev → lo_point l = Awaiting call rev.
Proof.
  unfold loop_ok, loop_event, waitUntil, iterate_loop, changed, finish, at_point, return_, own_left.
  intros Hok Ha He. destruct l as [p rev sub ab]; simpl in *. subst ab.
  destruct e, p as [|call obs|[t|]|[]|]; simpl in *; try done; repeat case_match; simplify_eq; simpl; naive_solver.
Qed.

(** C39: a stopped loop ends: after the signal has aborted it makes no further call
    of the reconciler, it has at most two events of its own to go (the answer of
    a call that is out, and one resumption), each of which can happen, and then
    it has returned and the adapter's listener is gone. *)
Theorem aborted_loop_returns events l events' l' b :
  loop_run events (new_loop b) = Some l → lo_aborted l = true → loop_run events' l = Some l' →
  (length (filter own events') ≤ 2)%nat ∧
  (∀ call rev, lo_point l' = Awaiting call rev → lo_point l = Awaiting call rev) ∧
  (lo_point l' = Returned ∧ lo_subscribed l' = false ∨
   ∃ e, own e = true ∧ is_Some (loop_event e l')).
Proof.
  intros Hr Ha Hr'. assert (Hok : loop_ok l) by (eapply loop_run_ok; [|exact Hr]; done).
  assert (Hgo : lo_aborted l' = true ∧ (own_left l' + length (filter own events') = own_left l)%nat ∧
    ∀ call rev, lo_point l' = Awaiting call rev → lo_point l = Awaiting call rev).
  { clear Hr. revert l Ha Hok Hr'. induction events' as [|e es IH]; intros l Ha Hok; simpl.
    { intros [= <-]. split_and!; [done|simpl; lia|done]. }
    intros (l1 & H1 & H2)%bind_Some. destruct (aborted_event e l l1 Hok Ha H1) as (Ha1 & Hn & Hc).
    destruct (IH l1 Ha1 (loop_event_ok _ _ _ Hok H1) H2) as (Ha' & Hn' & Hc').
    split_and!; [done| |by eauto]. rewrite filter_cons. destruct (own e); simpl in *; lia. }
  destruct Hgo as (Ha' & Hn & Hc). split_and!; [|done|].
  - enough (own_left l ≤ 2)%nat by lia. unfold own_left. destruct (lo_point l); lia.
  - pose proof (loop_run_ok _ _ _ Hok Hr') as Hok'. unfold loop_ok in Hok'. destruct (lo_point l') eqn:Hp.
    + right. exists EvRun. split; [done|]. simpl. rewrite Hp. by eexists.
    + right. exists (EvAnswered (Deadline None) 0). split; [done|]. simpl. rewrite Hp. by eexists.
    + destruct Hok'. congruence.
    + right. exists EvResumed. split; [done|]. simpl. rewrite Hp. by eexists.
    + left. by destruct Hok'.
Qed.
End loop.
