(* ===== verification/LocalXrayAdapter.v ===== *)
(** * The local Xray adapter: [apps/node-agent/src/local-xray-adapter.ts]

    The data-plane adapter of a node agent: it applies configuration
    snapshots to the Xray runtime, keeps the applied state durably, enforces
    expiries on its own and stops serving whenever it cannot prove that what
    is served is allowed.

    One adapter runs its operations one after the other ([runExclusive]); an
    operation is a computation over the world: the file system, the runtime,
    the adapter's own fields.  The clock and the clock-trust probe are oracles
    indexed by the number of earlier readings; the runtime is an interface.
    Logging is left out. *)

From S2P Require Import Prelude.
From S2P Require Import Json.
From S2P Require Import NodeAgentContract.
From S2P Require Import XrayAccess.
From S2P Require Import DurableFiles.
From S2P Require Import AgentState.
From S2P Require Import XrayRuntime.
From S2P Require Import Keeps.
Open Scope Z_scope.

(** ** Errors and results *)

Inductive AdapterError (RE : Type) :=
| ClockUntrusted
| VersionDowngrade
| VersionCollision
| LatchNotVerifiable
| LatchNotSatisfied
| LatchNotEnforced
| InvalidTimeValue
| ProbeFailure
| FileFailure (e : FsError)
| RuntimeFailure (e : RE)
| AggregateError (original failClosed : AdapterError RE).
Arguments ClockUntrusted {RE}. Arguments VersionDowngrade {RE}. Arguments VersionCollision {RE}.
Arguments LatchNotVerifiable {RE}. Arguments LatchNotSatisfied {RE}. Arguments LatchNotEnforced {RE}.
Arguments InvalidTimeValue {RE}. Arguments ProbeFailure {RE}. Arguments FileFailure {RE}.
Arguments RuntimeFailure {RE}. Arguments AggregateError {RE}.

Inductive ApplyResult := Applied | AlreadyApplied.
Inductive ClockOutcome := Trusted | Untrusted.
Inductive ServingPresence := Serving | NotServing.

(** [StateReadResult] and [StopOnlyLatchReadResult] *)
Inductive ReadResult (A : Type) := Valid (a : A) | Missing | Corrupt | Unreadable.
Arguments Valid {A}. Arguments Missing {A}. Arguments Corrupt {A}. Arguments Unreadable {A}.

Definition is_missing {A} (r : ReadResult A) : bool := match r with Missing => true | _ => false end.
Definition is_valid {A} (r : ReadResult A) : bool := match r with Valid _ => true | _ => false end.

(** JavaScript numbers as [Math.min] sees them. *)
Inductive JsNumber := Infinity | Finite (z : Z) | NaN.
Definition Math_min (a b : JsNumber) : JsNumber :=
  match a, b with
  | NaN, _ | _, NaN => NaN
  | Infinity, n | n, Infinity => n
  | Finite x, Finite y => Finite (Z.min x y)
  end.
Definition of_option (o : option Z) : JsNumber := match o with Some z => Finite z | None => NaN end.

(** ** The adapter *)

Section adapter.
Context `{LocaleCompare} `{DateStrings}.
Context {R RE : Type} `{!XrayConfigRuntime R RE}.
Context (is_uuid is_datetime : string → bool) (sha256 : json → string).
Context (fault : FsOp → nat → option FsError) (win32 : bool) (dirname : string → string).
(** [options.now] and [options.clockTrust]: a probe answers or throws. *)
Context (clock : nat → Z) (clockTrust : option (nat → option ClockOutcome)).
Context (statePath : string).

Record World := {
  w_fs : FileSystem;
  w_runtime : R;
  w_durabilityIsConfirmed : bool;
  w_runtimeClientsFingerprint : option string;
  w_runtimeIsFailClosed : bool;
  w_ticks : nat;
  w_notifications : nat;
}.

Notation AM := (M World (AdapterError RE)).

Definition set_fs (fs : FileSystem) (w : World) : World :=
  {| w_fs := fs; w_runtime := w_runtime w; w_durabilityIsConfirmed := w_durabilityIsConfirmed w;
     w_runtimeClientsFingerprint := w_runtimeClientsFingerprint w;
     w_runtimeIsFailClosed := w_runtimeIsFailClosed w; w_ticks := w_ticks w;
     w_notifications := w_notifications w |}.
Definition set_runtime (r : R) (w : World) : World :=
  {| w_fs := w_fs w; w_runtime := r; w_durabilityIsConfirmed := w_durabilityIsConfirmed w;
     w_runtimeClientsFingerprint := w_runtimeClientsFingerprint w;
     w_runtimeIsFailClosed := w_runtimeIsFailClosed w; w_ticks := w_ticks w;
     w_notifications := w_notifications w |}.
Definition set_durability (b : bool) (w : World) : World :=
  {| w_fs := w_fs w; w_runtime := w_runtime w; w_durabilityIsConfirmed := b;
     w_runtimeClientsFingerprint := w_runtimeClientsFingerprint w;
     w_runtimeIsFailClosed := w_runtimeIsFailClosed w; w_ticks := w_ticks w;
     w_notifications := w_notifications w |}.
Definition set_fingerprint (f : option string) (w : World) : World :=
  {| w_fs := w_fs w; w_runtime := w_runtime w; w_durabilityIsConfirmed := w_durabilityIsConfirmed w;
     w_runtimeClientsFingerprint := f;
     w_runtimeIsFailClosed := w_runtimeIsFailClosed w; w_ticks := w_ticks w;
     w_notifications := w_notifications w |}.
Definition set_failClosed (b : bool) (w : World) : World :=
  {| w_fs := w_fs w; w_runtime := w_runtime w; w_durabilityIsConfirmed := w_durabilityIsConfirmed w;
     w_runtimeClientsFingerprint := w_runtimeClientsFingerprint w;
     w_runtimeIsFailClosed := b; w_ticks := w_ticks w; w_notifications := w_notifications w |}.
Definition set_ticks (n : nat) (w : World) : World :=
  {| w_fs := w_fs w; w_runtime := w_runtime w; w_durabilityIsConfirmed := w_durabilityIsConfirmed w;
     w_runtimeClientsFingerprint := w_runtimeClientsFingerprint w;
     w_runtimeIsFailClosed := w_runtimeIsFailClosed w; w_ticks := n;
     w_notifications := w_notifications w |}.
Definition notify (w : World) : World :=
  {| w_fs := w_fs w; w_runtime := w_runtime w; w_durabilityIsConfirmed := w_durabilityIsConfirmed w;
     w_runtimeClientsFingerprint := w_runtimeClientsFingerprint w;
     w_runtimeIsFailClosed := w_runtimeIsFailClosed w; w_ticks := w_ticks w;
     w_notifications := S (w_notifications w) |}.

(** Calls of the file operations and of the runtime. *)
Definition files {A} (m : M FileSystem FsError A) : AM A := λ w,
  match m (w_fs w) with
  | (Ok a, fs) => (Ok a, set_fs fs w)
  | (Throw e, fs) => (Throw (FileFailure e), set_fs fs w)
  end.
Definition runtime {A} (m : M R RE A) : AM A := λ w,
  match m (w_runtime w) with
  | (Ok a, r) => (Ok a, set_runtime r w)
  | (Throw e, r) => (Throw (RuntimeFailure e), set_runtime r w)
  end.
Definition now : AM Z := λ w, (Ok (clock (w_ticks w)), set_ticks (S (w_ticks w)) w).

Definition date_toISOString (t : Z) : AM string :=
  if time_value t then mret (toISOString t) else throw InvalidTimeValue.

Definition stopOnlyLatchPath : string := (statePath +:+ ".stop-only.json")%string.
Definition notifyLocalStateChange : AM unit := modify notify.

(** *** Stopping *)

Definition forceFailClosed : AM unit :=
  modify (set_failClosed false);;
  modify (set_fingerprint None);;
  runtime rt_failClosed;;
  modify (set_failClosed true).
Definition enterFailClosed : AM unit := forceFailClosed.

Definition failClosedAndRethrow {A} (originalError : AdapterError RE) : AM A :=
  try_catch forceFailClosed (λ failClosedError, throw (AggregateError originalError failClosedError));;
  throw originalError.

Definition observeServingPresence : AM ServingPresence :=
  try_catch (serving ← runtime rt_isServing;
             mret (if (serving : bool) then Serving else NotServing))
    (λ _, mret NotServing).

Definition probe (assess : nat → option ClockOutcome) : AM ClockOutcome := λ w,
  (match assess (w_ticks w) with Some o => Ok o | None => Throw ProbeFailure end,
   set_ticks (S (w_ticks w)) w).

Definition enforceClockTrust : AM ClockOutcome :=
  match clockTrust with
  | None => mret Trusted
  | Some assess =>
      assessment ← try_catch (probe assess) failClosedAndRethrow;
      match assessment with
      | Trusted => mret Trusted
      | Untrusted => enterFailClosed;; mret Untrusted
      end
  end.

(** *** Reading *)

Definition read_document (path : string) : AM (ReadResult Contents) :=
  try_catch (raw ← files (fs_read fault path); mret (Valid raw))
    (λ e, mret (match e with FileFailure ENOENT => Missing | _ => Unreadable end)).

Definition parse_document {A} (schema : json → option A) (raw : ReadResult Contents)
    : ReadResult A :=
  match raw with
  | Valid (Document j) => match schema j with Some a => Valid a | None => Corrupt end
  | Valid NotJson => Corrupt
  | Missing => Missing
  | Corrupt => Corrupt
  | Unreadable => Unreadable
  end.

Definition consistent_envelope (j : json) : option StateEnvelope :=
  envelope ← stateEnvelopeSchema is_uuid is_datetime j;
  guard (isStateEnvelopeConsistent sha256 envelope);;
  Some envelope.

Definition readState : AM (ReadResult StateEnvelope) :=
  raw ← read_document statePath;
  mret (parse_document consistent_envelope raw).
Definition readStopOnlyLatch : AM (ReadResult StopOnlyLatch) :=
  raw ← read_document stopOnlyLatchPath;
  mret (parse_document (stopOnlyLatchSchema is_uuid is_datetime) raw).

(** *** Writing *)

Definition write_json (path : string) (j : json) : AM unit :=
  files (writeJsonDurably fault win32 dirname path j).
Definition writeDurably (state : StateEnvelope) : AM unit :=
  write_json statePath (encode_envelope state).

Definition confirm_durability : AM unit :=
  files (confirmDurability fault win32 dirname statePath).

Definition ensureDurabilityConfirmed : AM unit :=
  confirmed ← gets w_durabilityIsConfirmed;
  if (confirmed : bool) then mret tt
  else try_catch (confirm_durability;; modify (set_durability true)) failClosedAndRethrow.

(** [Math.min] over the deadlines, starting from the existing one. *)
Definition earliest_deadline (existing : option StopOnlyLatch)
    (enforcements : list XrayClientRevocationEnforcement) : JsNumber :=
  foldl (λ earliest e, Math_min earliest (of_option (en_deadlineAt e)))
    (match existing with
     | Some latch => of_option (Date_parse (l_enforcementDeadlineAt latch))
     | None => Infinity
     end) enforcements.

Definition persistStopOnlyLatch (targetVersion : Z)
    (enforcements : list XrayClientRevocationEnforcement) : AM unit :=
  existing ← readStopOnlyLatch;
  let existing := match existing : ReadResult StopOnlyLatch with
                  | Valid latch => Some latch | _ => None end in
  deadlineAt ← match earliest_deadline existing enforcements with
               | Finite t => date_toISOString t
               | _ => throw InvalidTimeValue
               end;
  write_json stopOnlyLatchPath (encode_latch {|
    l_targetVersion := match existing with
                       | Some latch => Z.max (l_targetVersion latch) targetVersion
                       | None => targetVersion
                       end;
    l_enforcementDeadlineAt := deadlineAt;
    l_revokedGrantIds := canonical_ids
      (match existing with Some latch => l_revokedGrantIds latch | None => [] end
       ++ (en_grantId <$> enforcements)) |}).

Definition latch_names_servable (latch : StopOnlyLatch)
    (snapshot : NodeAgentConfigurationSnapshot) (t : Z) : bool :=
  existsb (λ grantId, bool_decide (grantId ∈ cl_grantId <$> selectServableXrayClients snapshot t))
    (l_revokedGrantIds latch).

Definition clearStopOnlyLatchAfterVerifiedApply (snapshot : NodeAgentConfigurationSnapshot)
    (latchState : ReadResult StopOnlyLatch) : AM unit :=
  match latchState with
  | Missing => mret tt
  | Valid latch =>
      throw_if (sn_desiredConfigVersion snapshot <? l_targetVersion latch) LatchNotSatisfied;;
      t ← now;
      throw_if (latch_names_servable latch snapshot t) LatchNotEnforced;;
      files (fs_remove fault stopOnlyLatchPath);;
      files (syncParentDirectory fault win32 (dirname stopOnlyLatchPath))
  | _ => throw LatchNotVerifiable
  end.

(** *** Applying a snapshot *)

(** The branch for the version that is already current. *)
Definition apply_current_version (snapshot : NodeAgentConfigurationSnapshot)
    (stopOnlyLatch : ReadResult StopOnlyLatch) (current : PersistedState)
    (snapshotHash : string) (clients : list XrayServableClient) : AM ApplyResult :=
  throw_if (negb (bool_decide (ps_snapshotHash current = snapshotHash))) VersionCollision;;
  servingBeforeApply ← observeServingPresence;
  let recoverFromStoppedRuntime := match servingBeforeApply with NotServing => true | _ => false end in
  wasFailClosed ← gets w_runtimeIsFailClosed;
  try_catch
    (runtime (rt_applyClients clients (wasFailClosed || recoverFromStoppedRuntime));;
     modify (set_failClosed false);;
     confirm_durability;;
     modify (set_durability true))
    (λ e, if wasFailClosed || recoverFromStoppedRuntime then failClosedAndRethrow e else throw e);;
  try_catch (clearStopOnlyLatchAfterVerifiedApply snapshot stopOnlyLatch) failClosedAndRethrow;;
  modify (set_fingerprint (Some (fingerprintClients sha256 clients)));;
  notifyLocalStateChange;;
  mret AlreadyApplied.

(** The branch for a newer version, or without a readable state. *)
Definition apply_new_version (snapshot : NodeAgentConfigurationSnapshot)
    (stopOnlyLatch : ReadResult StopOnlyLatch) (state : ReadResult StateEnvelope)
    (snapshotHash : string) (applyTime : Z) (clients : list XrayServableClient) : AM ApplyResult :=
  let current := match state with Valid envelope => Some (env_current envelope) | _ => None end in
  let revocationDeadlineAt := match current with
    | Some c => findRevokedXrayClientEnforcementDeadline (ps_snapshot c) snapshot applyTime
                  ACCESS_CONTROL_ENFORCEMENT_SLA_MS
    | None => None
    end in
  closed ← gets w_runtimeIsFailClosed;
  when (negb closed && shouldFailClosed revocationDeadlineAt applyTime) enterFailClosed;;
  servingBeforeApply ← observeServingPresence;
  let recoverFromStoppedRuntime := match servingBeforeApply with NotServing => true | _ => false end in
  wasFailClosed ← gets w_runtimeIsFailClosed;
  try_catch
    (runtime (rt_applyClients clients true);; modify (set_failClosed false))
    (λ e,
      t ← (if wasFailClosed || recoverFromStoppedRuntime || negb (is_valid state)
           then mret true
           else t ← now; mret (shouldFailClosed revocationDeadlineAt t));
      if (t : bool) then failClosedAndRethrow e else throw e);;
  appliedAt ← date_toISOString applyTime;
  let next := {| ps_version := sn_desiredConfigVersion snapshot; ps_snapshotHash := snapshotHash;
                 ps_appliedAt := appliedAt; ps_snapshot := snapshot |} in
  modify (set_durability false);;
  try_catch (writeDurably {| env_current := next; env_previous := current |}) failClosedAndRethrow;;
  modify (set_durability true);;
  try_catch (clearStopOnlyLatchAfterVerifiedApply snapshot stopOnlyLatch) failClosedAndRethrow;;
  modify (set_fingerprint (Some (fingerprintClients sha256 clients)));;
  notifyLocalStateChange;;
  mret Applied.

Definition applySnapshot (snapshot : NodeAgentConfigurationSnapshot) : AM ApplyResult :=
  trust ← enforceClockTrust;
  match trust : ClockOutcome with
  | Untrusted => throw ClockUntrusted
  | Trusted =>
      let snapshotHash := hashNodeAgentSnapshot sha256 snapshot in
      applyTime ← now;
      let clients := selectServableXrayClients snapshot applyTime in
      stopOnlyLatch ← readStopOnlyLatch;
      when (negb (is_missing stopOnlyLatch)) enterFailClosed;;
      state ← readState;
      (if is_valid state then ensureDurabilityConfirmed else enterFailClosed);;
      match state : ReadResult StateEnvelope with
      | Valid envelope =>
          let current := env_current envelope in
          throw_if (sn_desiredConfigVersion snapshot <? ps_version current) VersionDowngrade;;
          if ps_version current =? sn_desiredConfigVersion snapshot
          then apply_current_version snapshot stopOnlyLatch current snapshotHash clients
          else apply_new_version snapshot stopOnlyLatch state snapshotHash applyTime clients
      | _ => apply_new_version snapshot stopOnlyLatch state snapshotHash applyTime clients
      end
  end.

(** *** The other operations *)

Definition enforceSnapshotSecurity (snapshot : NodeAgentConfigurationSnapshot) : AM unit :=
  trust ← enforceClockTrust;
  match trust : ClockOutcome with
  | Untrusted => throw ClockUntrusted
  | Trusted =>
      existingLatch ← readStopOnlyLatch;
      when (negb (is_missing existingLatch)) enterFailClosed;;
      state ← readState;
      t ← now;
      let enforcements := match state : ReadResult StateEnvelope with
        | Valid envelope => findRevokedXrayClientEnforcements (ps_snapshot (env_current envelope))
                              snapshot t ACCESS_CONTROL_ENFORCEMENT_SLA_MS
        | _ => findSnapshotRevocationEnforcements snapshot ACCESS_CONTROL_ENFORCEMENT_SLA_MS
        end in
      match enforcements with
      | [] => if is_valid state then mret tt else enterFailClosed
      | _ =>
          try_catch (persistStopOnlyLatch (sn_desiredConfigVersion snapshot) enforcements)
            failClosedAndRethrow;;
          enterFailClosed;;
          notifyLocalStateChange
      end
  end.

Definition nextIntegrityCheckAt (t : Z) : Z := t + LOCAL_STATE_INTEGRITY_CHECK_INTERVAL_MS.
Definition nextLocalSecurityCheckAt (snapshot : NodeAgentConfigurationSnapshot) (t : Z) : Z :=
  match findNextXrayClientExpiry snapshot t with
  | None => nextIntegrityCheckAt t
  | Some nextExpiryAt => Z.min (nextIntegrityCheckAt t) nextExpiryAt
  end.
Definition integrity_check_after (m : AM unit) : AM Z := m;; t ← now; mret (nextIntegrityCheckAt t).

Definition nextLocalReconcileAt : AM Z :=
  trust ← enforceClockTrust;
  match trust : ClockOutcome with
  | Untrusted => integrity_check_after (mret tt)
  | Trusted =>
      t ← now;
      latch ← readStopOnlyLatch;
      if negb (is_missing latch) then enterFailClosed;; mret (nextIntegrityCheckAt t)
      else
        state ← readState;
        match state : ReadResult StateEnvelope with
        | Valid envelope => mret (nextLocalSecurityCheckAt (ps_snapshot (env_current envelope)) t)
        | _ => enterFailClosed;; mret (nextIntegrityCheckAt t)
        end
  end.

(** The part of [reconcileLocalState] after the state is known to be valid. *)
Definition reconcile_current (current : PersistedState) : AM Z :=
  ensureDurabilityConfirmed;;
  t ← now;
  let snapshot := ps_snapshot current in
  let clients := selectServableXrayClients snapshot t in
  let clientsFingerprint := fingerprintClients sha256 clients in
  let enforcementDeadlineAt := findExpiredXrayClientEnforcementDeadline snapshot t
                                 ACCESS_CONTROL_ENFORCEMENT_SLA_MS in
  closed ← gets w_runtimeIsFailClosed;
  when (negb closed && shouldFailClosed enforcementDeadlineAt t) enterFailClosed;;
  servingBeforeApply ← observeServingPresence;
  wasFailClosed ← gets w_runtimeIsFailClosed;
  fingerprint ← gets w_runtimeClientsFingerprint;
  let recoverFromStoppedRuntime := match servingBeforeApply with NotServing => true | _ => false end in
  if negb wasFailClosed && bool_decide (fingerprint = Some clientsFingerprint) &&
     negb recoverFromStoppedRuntime
  then mret (nextLocalSecurityCheckAt snapshot t)
  else
    try_catch
      (runtime (rt_applyClients clients true);; modify (set_failClosed false))
      (λ e,
        failureTime ← now;
        if wasFailClosed || recoverFromStoppedRuntime ||
           shouldFailClosed enforcementDeadlineAt failureTime
        then failClosedAndRethrow e else throw e);;
    modify (set_fingerprint (Some clientsFingerprint));;
    mret (nextLocalSecurityCheckAt snapshot t).

Definition reconcileLocalState : AM Z :=
  trust ← enforceClockTrust;
  match trust : ClockOutcome with
  | Untrusted => integrity_check_after (mret tt)
  | Trusted =>
      latch ← readStopOnlyLatch;
      if negb (is_missing latch) then integrity_check_after enterFailClosed
      else
        state ← readState;
        match state : ReadResult StateEnvelope with
        | Valid envelope => reconcile_current (env_current envelope)
        | _ => integrity_check_after enterFailClosed
        end
  end.

(** ** Runs

    [runExclusive] chains each operation after the previous one, whether or
    not that one threw.  Between two operations the agent may be restarted:
    a new adapter starts from its initial fields while the files stay and the
    runtime is whatever it has become. *)

Inductive AdapterOperation :=
| OpApply (snapshot : NodeAgentConfigurationSnapshot)
| OpReconcileConfirmed (snapshot : NodeAgentConfigurationSnapshot)
| OpEnforceSecurity (snapshot : NodeAgentConfigurationSnapshot)
| OpNextReconcile
| OpReconcileLocal.
Inductive AdapterEvent := Run (op : AdapterOperation) | Restart (r : R).

Definition perform (op : AdapterOperation) : AM unit :=
  match op with
  | OpApply snapshot | OpReconcileConfirmed snapshot => applySnapshot snapshot;; mret tt
  | OpEnforceSecurity snapshot => enforceSnapshotSecurity snapshot
  | OpNextReconcile => nextLocalReconcileAt;; mret tt
  | OpReconcileLocal => reconcileLocalState;; mret tt
  end.

Definition new_adapter (fs : FileSystem) (r : R) (ticks : nat) : World :=
  {| w_fs := fs; w_runtime := r; w_durabilityIsConfirmed := false;
     w_runtimeClientsFingerprint := None; w_runtimeIsFailClosed := false; w_ticks := ticks;
     w_notifications := 0 |}.

Definition event (w : World) (e : AdapterEvent) : World :=
  match e with
  | Run op => snd (perform op w)
  | Restart r => new_adapter (w_fs w) r (w_ticks w)
  end.
Definition runExclusive (events : list AdapterEvent) (w : World) : World := foldl event w events.

(** ** The core of the world

    The properties speak about the files, the runtime, the fail-closed flag
    and the fingerprint; the other fields only matter to the oracles. *)

Record Core := { c_files : gmap string Contents; c_runtime : R; c_closed : bool;
  c_fingerprint : option string }.
Definition core (w : World) : Core :=
  {| c_files := fs_files (w_fs w); c_runtime := w_runtime w; c_closed := w_runtimeIsFailClosed w;
     c_fingerprint := w_runtimeClientsFingerprint w |}.

Definition ctriple {A} (P : Core → Prop) (m : AM A) (Q : A → Core → Prop)
    (X : AdapterError RE → Core → Prop) : Prop :=
  triple (λ w, P (core w)) m (λ a w, Q a (core w)) (λ e w, X e (core w)).

(** Nothing is served, and the adapter knows it. *)
Definition stopped (c : Core) : Prop := rt_serves (c_runtime c) = [].
Definition halted (c : Core) : Prop := c_closed c = true ∧ stopped c.
(** The adapter believes the runtime stopped only if it is. *)
Definition closed_ok (c : Core) : Prop := c_closed c = true → stopped c.
(** What a stop that failed leaves: the flag is not set, and the runtime is as
    the failed call left it. *)
Definition stop_failed (c : Core) : Prop :=
  c_closed c = false ∧ ∃ r e, rt_failClosed r = (Throw e, c_runtime c).
(** After a failure: stopped, or the stop failed too. *)
Definition stopped_or_failed (c : Core) : Prop := stopped c ∨ stop_failed c.
Definition latch_present (F : gmap string Contents) : Prop := is_Some (F !! stopOnlyLatchPath).

(** The status a file has when it can be read. *)
Definition file_status {A} (schema : json → option A) (o : option Contents) : ReadResult A :=
  match o with None => Missing | Some c => parse_document schema (Valid c) end.
Definition state_status (F : gmap string Contents) : ReadResult StateEnvelope :=
  file_status consistent_envelope (F !! statePath).
Definition latch_status (F : gmap string Contents) : ReadResult StopOnlyLatch :=
  file_status (stopOnlyLatchSchema is_uuid is_datetime) (F !! stopOnlyLatchPath).
Definition read_faults : Prop := ∃ t e, fault OpRead t = Some e.
(** What a read may report: the truth, or that the file is unreadable. *)
Definition reads {A} (truth st : ReadResult A) : Prop :=
  st = truth ∨ (st = Unreadable ∧ read_faults).

Lemma ct_bind {A B} (m : AM A) (f : A → AM B) P Rm Q X :
  ctriple P m Rm X → (∀ a, ctriple (Rm a) (f a) Q X) → ctriple P (m ≫= f) Q X.
Proof. apply triple_bind. Qed.
Lemma ct_try {A} (m : AM A) h P Q Y X :
  ctriple P m Q Y → (∀ e, ctriple (Y e) (h e) Q X) → ctriple P (try_catch m h) Q X.
Proof. apply triple_try. Qed.
Lemma ct_mret {A} (a : A) (P : Core → Prop) (Q : A → Core → Prop) X :
  (∀ c, P c → Q a c) → ctriple P (mret a) Q X.
Proof. intros H1. apply triple_mret. auto. Qed.
Lemma ct_throw {A} e (P : Core → Prop) (Q : A → Core → Prop) (X : AdapterError RE → Core → Prop) :
  (∀ c, P c → X e c) → ctriple P (throw e) Q X.
Proof. intros H1. apply triple_throw. auto. Qed.
Lemma ct_weaken {A} (m : AM A) (P P' : Core → Prop) (Q Q' : A → Core → Prop) X X' :
  ctriple P' m Q' X' → (∀ c, P c → P' c) → (∀ a c, Q' a c → Q a c) →
  (∀ e c, X' e c → X e c) → ctriple P m Q X.
Proof. intros Hm HP HQ HX. eapply triple_weaken; [exact Hm|..]; simpl; auto. Qed.
Lemma ct_pure {A} (φ : Prop) (m : AM A) (P : Core → Prop) Q X :
  (φ → ctriple P m Q X) → ctriple (λ c, P c ∧ φ) m Q X.
Proof. intros Hm. by apply triple_pure. Qed.
Lemma ct_if {A} (b : bool) (m1 m2 : AM A) (P : Core → Prop) Q X :
  (b = true → ctriple P m1 Q X) → (b = false → ctriple P m2 Q X) →
  ctriple P (if b then m1 else m2) Q X.
Proof. destruct b; auto. Qed.
Lemma ct_assume {A} (φ : Prop) (m : AM A) (P : Core → Prop) Q X :
  (∀ c, P c → φ) → (φ → ctriple P m Q X) → ctriple P m Q X.
Proof. intros HP Hm w Hw. exact (Hm (HP _ Hw) w Hw). Qed.

Lemma ct_assoc {A B C} (m : AM A) (f : A → AM B) (g : B → AM C) P Q X :
  ctriple P ((m ≫= f) ≫= g) Q X → ctriple P (m ≫= λ a, f a ≫= g) Q X.
Proof.
  intros Hm w Hw. specialize (Hm w Hw). unfold mbind, M_bind in *.
  by destruct (m w) as [[a|e] w'].
Qed.

Lemma ct_now P X : ctriple P now (λ t c, P c ∧ ∃ n, t = clock n) X.
Proof. intros w Hw. split; [done|by eexists]. Qed.
Lemma ct_modify f (P : Core → Prop) X :
  (∀ w, P (core w) → P (core (f w))) → ctriple P (modify f) (λ _, P) X.
Proof. intros Hf. apply triple_modify. exact Hf. Qed.
Lemma ct_gets_closed P X :
  ctriple P (gets w_runtimeIsFailClosed) (λ b c, P c ∧ b = c_closed c) X.
Proof. apply triple_gets. done. Qed.
Lemma ct_gets {A} (f : World → A) P X : ctriple P (gets f) (λ _, P) X.
Proof. apply triple_gets. done. Qed.
Lemma ct_throw_if (b : bool) e (P : Core → Prop) (X : AdapterError RE → Core → Prop) :
  (b = true → ∀ c, P c → X e c) → ctriple P (throw_if b e) (λ _ c, P c ∧ b = false) X.
Proof. destruct b; intros HX w Hw; simpl; auto. Qed.

Lemma ct_files {A} (m : M FileSystem FsError A) P (Q : A → gmap string Contents → Prop)
    (X : gmap string Contents → Prop) (L : R → bool → Prop) :
  triple (λ fs, P (fs_files fs)) m (λ a fs, Q a (fs_files fs)) (λ _ fs, X (fs_files fs)) →
  ctriple (λ c, P (c_files c) ∧ L (c_runtime c) (c_closed c)) (files m)
    (λ a c, Q a (c_files c) ∧ L (c_runtime c) (c_closed c))
    (λ _ c, X (c_files c) ∧ L (c_runtime c) (c_closed c)).
Proof.
  intros Hm w [HP HL]. specialize (Hm (w_fs w) HP). unfold files.
  by destruct (m (w_fs w)) as [[a|e] fs].
Qed.

Lemma ct_files_leaves {A} (m : M FileSystem FsError A) (P : Core → Prop) :
  leaves_files m → ctriple P (files m) (λ _, P) (λ _, P).
Proof.
  intros Hm w HP. unfold files. specialize (Hm (w_fs w)).
  assert (∀ fs, fs_files fs = fs_files (w_fs w) → core (set_fs fs w) = core w) as Hc
    by (intros fs Hfs; unfold core; simpl; by rewrite Hfs).
  destruct (m (w_fs w)) as [[a|e] fs]; simpl in Hm; by rewrite Hc.
Qed.

Lemma ct_runtime_call {A} (m : M R RE A) P (Q : A → R → Prop) (X : R → Prop)
    (L : gmap string Contents → bool → Prop) :
  triple P m Q (λ _, X) →
  ctriple (λ c, P (c_runtime c) ∧ L (c_files c) (c_closed c)) (runtime m)
    (λ a c, Q a (c_runtime c) ∧ L (c_files c) (c_closed c))
    (λ _ c, X (c_runtime c) ∧ L (c_files c) (c_closed c)).
Proof.
  intros Hm w [HP HL]. specialize (Hm (w_runtime w) HP). unfold runtime.
  by destruct (m (w_runtime w)) as [[a|e] r].
Qed.

(** ** The building blocks *)

Context (Hlaws : XrayConfigRuntimeLaws R RE).
(** A file is reported missing only when it is. *)
Context (no_spurious_ENOENT : ∀ op t, fault op t ≠ Some ENOENT).

Lemma force_spec P :
  ctriple (λ c, P (c_files c)) forceFailClosed (λ _ c, P (c_files c) ∧ halted c)
    (λ _ c, P (c_files c) ∧ stop_failed c).
Proof.
  intros w HP. unfold forceFailClosed, modify, runtime, mbind, M_bind. simpl.
  destruct (rt_failClosed (w_runtime w)) as [[[]|e] r'] eqn:Hr; simpl.
  - split; [done|]. split; [done|]. by apply (rt_failClosed_stops _ _ Hr).
  - split; [done|]. split; [done|]. by exists (w_runtime w), e.
Qed.

(** How a failure ends: halted, or with a failed stop. *)
Definition ended (c : Core) : Prop := halted c ∨ stop_failed c.

Lemma rethrow_spec {A} e P (Q : A → Core → Prop) :
  ctriple (λ c, P (c_files c)) (failClosedAndRethrow e) Q
    (λ _ c, P (c_files c) ∧ ended c).
Proof.
  unfold failClosedAndRethrow. eapply (ct_bind _ _ _ (λ _ c, P (c_files c) ∧ halted c)).
  - eapply ct_try; [apply force_spec|].
    intros e'. apply ct_throw. intros c [HP Hs]. split; [done|by right].
  - intros []. apply ct_throw. intros c [HP Hs]. split; [done|by left].
Qed.

Lemma observe_spec (L : list XrayServableClient → gmap string Contents → bool → option string → Prop) X :
  ctriple (λ c, L (rt_serves (c_runtime c)) (c_files c) (c_closed c) (c_fingerprint c))
    observeServingPresence
    (λ _ c, L (rt_serves (c_runtime c)) (c_files c) (c_closed c) (c_fingerprint c)) X.
Proof.
  intros w Hw. unfold observeServingPresence, try_catch, runtime, mbind, M_bind, mret, M_ret.
  pose proof (rt_isServing_keeps (w_runtime w)) as Hk.
  destruct (rt_isServing (w_runtime w)) as [[b|e] r]; simpl in *; by rewrite Hk.
Qed.

Lemma clockTrust_spec P :
  ctriple P enforceClockTrust
    (λ o c, match o with Trusted => P c | Untrusted => halted c ∧ ∃ c', P c' ∧ c_files c = c_files c' end)
    (λ _ c, ended c ∧ ∃ c', P c' ∧ c_files c = c_files c').
Proof.
  unfold enforceClockTrust. destruct clockTrust as [assess|]; [|by apply ct_mret].
  set (F := λ f, ∃ c', P c' ∧ f = c_files c').
  eapply (ct_bind _ _ _ (λ _, P)).
  - eapply (ct_try _ _ _ _ (λ _, P)); [intros w Hw; unfold probe; by destruct (assess _)|].
    intros e. eapply ct_weaken; [apply (rethrow_spec e F (λ _ _, False))|..].
    + intros c Hc. by exists c.
    + done.
    + by intros e' c [HF Hh].
  - intros []; [by apply ct_mret|]. eapply (ct_bind _ _ _ (λ _ c, F (c_files c) ∧ halted c)).
    + eapply ct_weaken; [apply (force_spec F)|..]; [intros c Hc; by exists c|done|].
      intros _ c [HF Hs]. split; [by right|done].
    + intros []. apply ct_mret. intros c [HF Hh]. done.
Qed.

Lemma read_document_spec path P X :
  ctriple P (read_document path)
    (λ st c, P c ∧ (st = match c_files c !! path with Some x => Valid x | None => Missing end ∨
                     st = Unreadable ∧ read_faults)) X.
Proof.
  intros w Hw. unfold read_document, try_catch, files, fs_read, fs_operation, mbind, M_bind, mret, M_ret.
  destruct (fault OpRead (fs_tick (w_fs w))) as [e|] eqn:He; simpl.
  - split; [done|]. right. split; [|by do 2 eexists].
    destruct e; try done. by apply no_spurious_ENOENT in He.
  - destruct (fs_files (w_fs w) !! path) as [x|] eqn:Hx; simpl; (split; [done|]);
      left; by rewrite Hx.
Qed.

Lemma readState_spec F P X :
  ctriple (λ c, c_files c = F ∧ P c) readState
    (λ st c, (c_files c = F ∧ P c) ∧ reads (state_status F) st) X.
Proof.
  eapply ct_bind; [apply (read_document_spec statePath (λ c, c_files c = F ∧ P c))|].
  intros raw. apply ct_mret. intros c [[HF HP] Hraw]. split; [done|]. rewrite HF in Hraw.
  unfold state_status. destruct Hraw as [->|[-> Hf]]; [left|right; done].
  by destruct (F !! statePath).
Qed.

Lemma readLatch_spec F P X :
  ctriple (λ c, c_files c = F ∧ P c) readStopOnlyLatch
    (λ st c, (c_files c = F ∧ P c) ∧ reads (latch_status F) st) X.
Proof.
  eapply ct_bind; [apply (read_document_spec stopOnlyLatchPath (λ c, c_files c = F ∧ P c))|].
  intros raw. apply ct_mret. intros c [[HF HP] Hraw]. split; [done|]. rewrite HF in Hraw.
  unfold latch_status. destruct Hraw as [->|[-> Hf]]; [left|right; done].
  by destruct (F !! stopOnlyLatchPath).
Qed.

Lemma parse_missing {A} (schema : json → option A) x :
  parse_document schema (Valid x) ≠ Missing.
Proof. destruct x as [j|]; simpl; [destruct (schema j)|]; done. Qed.

Lemma reads_missing F st :
  reads (latch_status F) st → is_missing st = true → ¬ latch_present F.
Proof.
  intros [->|[-> _]]; [|done]. unfold latch_status, file_status, latch_present.
  destruct (F !! stopOnlyLatchPath) as [x|] eqn:Hx.
  - intros Hm. exfalso. apply (parse_missing (stopOnlyLatchSchema is_uuid is_datetime) x).
    by destruct (parse_document _ _).
  - intros _ [y Hy]. done.
Qed.

Lemma paths_differ : stopOnlyLatchPath ≠ statePath.
Proof.
  intros He. apply (f_equal String.length) in He. unfold stopOnlyLatchPath in He.
  rewrite string_length_app in He. simpl in He. lia.
Qed.
Lemma state_not_latch_temporary : statePath ≠ temporary_path stopOnlyLatchPath.
Proof.
  intros He. apply (f_equal String.length) in He. unfold stopOnlyLatchPath, temporary_path in He.
  rewrite !string_length_app in He. simpl in He. lia.
Qed.
Lemma latch_not_state_temporary : stopOnlyLatchPath ≠ temporary_path statePath.
Proof.
  unfold stopOnlyLatchPath, temporary_path. intros He.
  apply (f_equal String.length) in He. rewrite !string_length_app in He. simpl in He. lia.
Qed.

(** Stopping when a condition asks for it. *)
Lemma when_closed (b : bool) F P :
  (∀ c, P c → closed_ok c) → (∀ c, c_files c = F ∧ halted c → P c) →
  ctriple (λ c, c_files c = F ∧ P c) (when b enterFailClosed)
    (λ _ c, c_files c = F ∧ P c ∧ (b = true → halted c)) (λ _ c, c_files c = F ∧ stop_failed c).
Proof.
  intros HP Hh. destruct b; simpl.
  - eapply ct_weaken; [apply (force_spec (λ f, f = F))|..]; [by intros c []| |done].
    intros _ c [HF Hc]. auto.
  - apply ct_mret. naive_solver.
Qed.

Lemma confirm_spec P : ctriple P confirm_durability (λ _, P) (λ _, P).
Proof. apply ct_files_leaves, leaves_confirmDurability. Qed.

Lemma ensure_spec F P :
  ctriple (λ c, c_files c = F ∧ P c) ensureDurabilityConfirmed
    (λ _ c, c_files c = F ∧ P c) (λ _ c, c_files c = F ∧ ended c).
Proof.
  unfold ensureDurabilityConfirmed. eapply ct_bind; [apply ct_gets|]. intros [].
  - by apply ct_mret.
  - eapply ct_try.
    + eapply ct_bind; [apply confirm_spec|]. intros []. by apply ct_modify.
    + intros e. eapply ct_weaken; [apply (rethrow_spec e (λ f, f = F) (λ _ _, False))|..];
        [by intros c []|done|done].
Qed.

(** The latch, if there was one, demanded no more than [snapshot] gives. *)
Definition latch_satisfied (snapshot : NodeAgentConfigurationSnapshot)
    (st : ReadResult StopOnlyLatch) : Prop :=
  match st with
  | Missing => True
  | Valid latch => l_targetVersion latch ≤ sn_desiredConfigVersion snapshot ∧
                   ∃ n, latch_names_servable latch snapshot (clock n) = false
  | _ => False
  end.

(** Clearing the latch removes it or throws; it never writes. *)
Lemma clear_spec snapshot st F (P : R → bool → Prop) :
  reads (latch_status F) st →
  ctriple (λ c, c_files c = F ∧ P (c_runtime c) (c_closed c))
    (clearStopOnlyLatchAfterVerifiedApply snapshot st)
    (λ _ c, (¬ latch_present (c_files c) ∧
             (∀ p, p ≠ stopOnlyLatchPath → c_files c !! p = F !! p) ∧
             latch_satisfied snapshot st) ∧ P (c_runtime c) (c_closed c))
    (λ _ c, ∀ p, p ≠ stopOnlyLatchPath → c_files c !! p = F !! p).
Proof.
  intros Hst. unfold clearStopOnlyLatchAfterVerifiedApply. destruct st as [latch| | |].
  2: { apply ct_mret. intros c [-> HP]. split_and!; try done. by apply (reads_missing _ Missing). }
  2, 3: apply ct_throw; by intros c [-> _].
  eapply ct_bind; [apply ct_throw_if; by intros _ c [-> _]|]. intros []. apply ct_pure. intros Hv.
  eapply ct_bind; [apply ct_now|]. intros t. apply ct_pure. intros [n ->].
  eapply ct_bind; [apply ct_throw_if; by intros _ c [-> _]|]. intros []. apply ct_pure. intros Hs.
  set (gone := λ f : gmap string Contents, f !! stopOnlyLatchPath = None ∧
                 ∀ p, p ≠ stopOnlyLatchPath → f !! p = F !! p).
  eapply (ct_bind _ _ _ (λ _ c, gone (c_files c) ∧ P (c_runtime c) (c_closed c))).
  - eapply ct_weaken; [eapply (ct_files _ (λ f, f = F) (λ _, gone) (λ f, f = F) P)|..]; [|done|done|].
    + apply (triple_operation _ _ _ (λ f, f = F) (λ _, gone) (λ f, f = F)). intros f ->.
      split; [done|]. split; [by rewrite lookup_delete_eq|]. intros p Hp.
      by rewrite lookup_delete_ne.
    + by intros _ c [-> _].
  - intros []. eapply ct_weaken; [apply (ct_files_leaves _ (λ c, gone (c_files c) ∧ P (c_runtime c) (c_closed c))),
      leaves_syncParentDirectory|done|..].
    + intros [] c [[Hg Ho] HP]. split; [|done]. split_and!; [|done|].
      * unfold latch_present. rewrite Hg. by intros [].
      * split; [by apply Z.ltb_ge|by exists n].
    + by intros _ c [[_ Ho] _].
Qed.

(** ** Applying a snapshot *)

Section apply.
(** The files at the start, and a reason not to serve (which an unreadable or
    present latch is). *)
Context (snapshot : NodeAgentConfigurationSnapshot) (F0 : gmap string Contents) (unsafe : Prop).
Context (latch_unsafe : latch_present F0 → unsafe).

Definition same_but_latch (F : gmap string Contents) : Prop :=
  ∀ p, p ≠ stopOnlyLatchPath → F !! p = F0 !! p.

(** Before the runtime is touched: a reason not to serve has stopped it. *)
Definition guarded (c : Core) : Prop := closed_ok c ∧ (unsafe → c_closed c = true).

(** After a failure. *)
Definition failed (c : Core) : Prop :=
  closed_ok c ∧ (latch_present (c_files c) → stopped_or_failed c) ∧ (unsafe → stopped_or_failed c).

Lemma ended_failed c : ended c → failed c.
Proof.
  unfold failed, closed_ok, stopped_or_failed. intros [[Hc Hs]|[Hc Hs]]; [by auto 6|].
  split; [by rewrite Hc|]. split; intros _; by right.
Qed.
Lemma guarded_failed c : c_files c = F0 → guarded c → failed c.
Proof. intros HF [Hc Hu]. unfold failed, closed_ok, stopped_or_failed in *. rewrite HF. naive_solver. Qed.

Definition serving (clients : list XrayServableClient) (c : Core) : Prop :=
  rt_serves (c_runtime c) ≡ₚ clients ∧ c_closed c = false.

Lemma observe_guarded X :
  ctriple (λ c, c_files c = F0 ∧ guarded c) observeServingPresence
    (λ _ c, c_files c = F0 ∧ guarded c) X.
Proof.
  apply (observe_spec (λ s f b _, f = F0 ∧ (b = true → s = []) ∧ (unsafe → b = true))).
Qed.

(** Handing the clients to the runtime, with what a failure leads to. *)
Lemma apply_clients_spec clients reload was :
  ctriple (λ c, c_files c = F0 ∧ c_closed c = was)
    (runtime (rt_applyClients clients reload);; modify (set_failClosed false))
    (λ _ c, c_files c = F0 ∧ serving clients c)
    (λ _ c, c_files c = F0 ∧ c_closed c = was).
Proof.
  eapply (ct_bind _ _ _ (λ _ c, rt_serves (c_runtime c) ≡ₚ clients ∧ c_files c = F0 ∧ c_closed c = was)).
  - eapply ct_weaken; [apply (ct_runtime_call _ (λ _, True) (λ _ r, rt_serves r ≡ₚ clients)
      (λ _, True) (λ f b, f = F0 ∧ b = was))|done|done|by intros _ ? []].
    intros r _. destruct (rt_applyClients clients reload r) as [[[]|e] r'] eqn:He; [|done].
    by eapply rt_apply_serves.
  - intros []. apply triple_modify. by intros w (Hs & HF & _).
Qed.

(** A failure is rethrown with the runtime stopped when that is needed. *)
Lemma rethrow_failed {A} (b : bool) e was (Q : A → Core → Prop) :
  (unsafe → b = true) →
  (b = false → was = false) →
  ctriple (λ c, c_files c = F0 ∧ (c_closed c = was ∨ c_closed c = false))
    (if b then failClosedAndRethrow e else throw e) Q (λ _ c, c_files c = F0 ∧ failed c).
Proof.
  intros Hu Hw. destruct b.
  - eapply ct_weaken; [apply (rethrow_spec e (λ f, f = F0) (λ _ _, False))|..];
      [by intros c []|done|]. intros _ c [HF Hh]. split; [done|]. by apply ended_failed.
  - apply ct_throw. intros c [HF Hc]. split; [done|].
    assert (c_closed c = false) as Hcl by (destruct Hc; [rewrite (Hw eq_refl) in *|]; done).
    unfold failed, closed_ok. rewrite Hcl, HF.
    split_and!; [done|intros Hl; by discriminate (Hu (latch_unsafe Hl))|
                 intros Hx; by discriminate (Hu Hx)].
Qed.

(** Clearing the latch under the apply's error handler. *)
Lemma clear_or_fail st F clients :
  reads (latch_status F) st →
  ctriple (λ c, c_files c = F ∧ serving clients c)
    (try_catch (clearStopOnlyLatchAfterVerifiedApply snapshot st) failClosedAndRethrow)
    (λ _ c, (¬ latch_present (c_files c) ∧ (∀ p, p ≠ stopOnlyLatchPath → c_files c !! p = F !! p) ∧
             latch_satisfied snapshot st) ∧ serving clients c)
    (λ _ c, (∀ p, p ≠ stopOnlyLatchPath → c_files c !! p = F !! p) ∧ failed c).
Proof.
  intros Hst. eapply ct_try.
  - apply (clear_spec snapshot st F (λ r b, rt_serves r ≡ₚ clients ∧ b = false) Hst).
  - intros e. eapply ct_weaken; [apply (rethrow_spec e
      (λ f, ∀ p, p ≠ stopOnlyLatchPath → f !! p = F !! p) (λ _ _, False))|done|done|].
    intros _ c [HF Hh]. split; [done|]. by apply ended_failed.
Qed.

Lemma apply_current_spec st current hash clients :
  reads (latch_status F0) st →
  ctriple (λ c, c_files c = F0 ∧ guarded c)
    (apply_current_version snapshot st current hash clients)
    (λ r c, r = AlreadyApplied ∧ ps_snapshotHash current = hash ∧ ¬ latch_present (c_files c) ∧
            same_but_latch (c_files c) ∧ latch_satisfied snapshot st ∧ serving clients c)
    (λ _ c, same_but_latch (c_files c) ∧ failed c).
Proof.
  intros Hst. unfold apply_current_version.
  eapply ct_bind; [apply ct_throw_if; intros _ c [HF Hg]; split; [by intros p _; rewrite HF|
    by apply guarded_failed]|].
  intros []. apply ct_pure. intros Hh%negb_false_iff%bool_decide_eq_true.
  eapply ct_bind; [apply observe_guarded|]. intros presence.
  eapply ct_bind; [apply ct_gets_closed|]. intros was.
  apply (ct_assume (unsafe → was = true)); [by intros c [[_ [_ Hu]] ->]|]. intros Hu.
  eapply (ct_bind _ _ _ (λ _ c, c_files c = F0 ∧ serving clients c)).
  { eapply (ct_try _ _ _ _ (λ _ c, c_files c = F0 ∧ (c_closed c = was ∨ c_closed c = false))).
    - apply (ct_assoc _ (λ _, modify (set_failClosed false))). eapply ct_bind;
        [|intros []; eapply (ct_bind _ _ _ (λ _ c, c_files c = F0 ∧ serving clients c));
          [|intros []; by apply ct_modify]].
      + eapply ct_weaken; [apply (apply_clients_spec _ _ was)|by intros c [[? _] ->]|done|
          intros _ c []; auto].
      + eapply ct_weaken; [apply (confirm_spec (λ c, c_files c = F0 ∧ serving clients c))|done|done|]. intros _ c (?&_&?). auto.
    - intros e. eapply ct_weaken; [apply (rethrow_failed _ e was (λ _ _, False))|done|done|].
      + intros Hx. by rewrite (Hu Hx).
      + by intros [? _]%orb_false_iff.
      + intros _ c [-> Hf]. split; [by intros p _|done]. }
  intros []. eapply ct_bind; [by apply clear_or_fail|]. intros [].
  eapply ct_bind; [by apply ct_modify|]. intros []. eapply ct_bind; [by apply ct_modify|]. intros [].
  apply ct_mret. by intros c [(Hl&HF&Hs) Hc].
Qed.
End apply.

Definition written_state (snapshot : NodeAgentConfigurationSnapshot) (t : Z)
    (state : ReadResult StateEnvelope) : StateEnvelope :=
  {| env_current := {| ps_version := sn_desiredConfigVersion snapshot;
                       ps_snapshotHash := hashNodeAgentSnapshot sha256 snapshot;
                       ps_appliedAt := toISOString t; ps_snapshot := snapshot |};
     env_previous := match state with Valid e => Some (env_current e) | _ => None end |}.

(** The clock shows time values, as a [Date] does. *)
Context (clock_is_time : ∀ n, time_value (clock n)).

Section apply_new.
Context (snapshot : NodeAgentConfigurationSnapshot) (F0 : gmap string Contents) (n : nat).
Context (st : ReadResult StopOnlyLatch) (state : ReadResult StateEnvelope).
Let t := clock n.
Let clients := selectServableXrayClients snapshot t.
Let document := Document (encode_envelope (written_state snapshot t state)).

Definition new_state (F : gmap string Contents) : Prop :=
  F !! statePath = Some document ∧ F !! stopOnlyLatchPath = F0 !! stopOnlyLatchPath.
Definition old_or_new (F : gmap string Contents) : Prop :=
  F !! statePath = F0 !! statePath ∨ F !! statePath = Some document.

Lemma write_state_spec (P : R → bool → Prop) :
  ctriple (λ c, c_files c = F0 ∧ P (c_runtime c) (c_closed c))
    (try_catch (writeDurably (written_state snapshot t state)) failClosedAndRethrow)
    (λ _ c, new_state (c_files c) ∧ P (c_runtime c) (c_closed c))
    (λ _ c, old_or_new (c_files c) ∧ ended c).
Proof.
  eapply (ct_try _ _ _ _ (λ _ c, old_or_new (c_files c))).
  - eapply ct_weaken; [apply (ct_files _ (λ f, kept statePath F0 f)
      (λ _ f, replaced statePath (encode_envelope (written_state snapshot t state)) F0 f)
      (λ f, kept_or_replaced statePath (encode_envelope (written_state snapshot t state)) F0 f) P)|..].
    + apply writeJsonDurably_spec.
    + intros c [-> HP]. split; [done|done].
    + intros _ c [[Hs Ho] HP]. split; [split; [done|]|done].
      apply Ho; [apply paths_differ|apply latch_not_state_temporary].
    + intros _ c [[Hk|[Hs _]] _]; [left; apply Hk, not_eq_sym, temporary_path_ne|by right].
  - intros e. eapply ct_weaken; [apply (rethrow_spec e old_or_new (λ _ _, False))|done|done|done].
Qed.

Lemma ct_fix {A} (m : AM A) (B : gmap string Contents → Prop) P Q X :
  (∀ F, B F → ctriple (λ c, c_files c = F ∧ P c) m Q X) →
  ctriple (λ c, B (c_files c) ∧ P c) m Q X.
Proof. intros Hm w [HB HP]. by apply (Hm _ HB). Qed.

Lemma reads_latch_same F :
  F !! stopOnlyLatchPath = F0 !! stopOnlyLatchPath → reads (latch_status F0) st →
  reads (latch_status F) st.
Proof. intros HF. unfold latch_status. by rewrite HF. Qed.

(** The reason to stop that the revocations of the new snapshot give. *)
Definition revocation_deadline_passed : Prop :=
  match state with
  | Valid envelope => shouldFailClosed (findRevokedXrayClientEnforcementDeadline
      (ps_snapshot (env_current envelope)) snapshot t ACCESS_CONTROL_ENFORCEMENT_SLA_MS) t = true
  | _ => False
  end.

Lemma apply_new_spec unsafe :
  reads (latch_status F0) st → (latch_present F0 → unsafe) → (is_valid state = false → unsafe) →
  ctriple (λ c, c_files c = F0 ∧ guarded unsafe c)
    (apply_new_version snapshot st state (hashNodeAgentSnapshot sha256 snapshot) t clients)
    (λ r c, r = Applied ∧ c_files c !! statePath = Some document ∧ ¬ latch_present (c_files c) ∧
            latch_satisfied snapshot st ∧ serving clients c)
    (λ _ c, old_or_new (c_files c) ∧ failed (unsafe ∨ revocation_deadline_passed) c).
Proof.
  intros Hst Hlu Hvu. unfold apply_new_version.
  set (u := unsafe ∨ revocation_deadline_passed).
  assert (Hlu' : latch_present F0 → u) by (intros; left; auto).
  set (deadline := match match state with Valid _ => _ | _ => _ end with Some c => _ | None => _ end).
  assert (Hdl : revocation_deadline_passed → shouldFailClosed deadline t = true)
    by (unfold deadline, revocation_deadline_passed; by destruct state).
  eapply ct_bind; [apply ct_gets_closed|]. intros closed.
  eapply (ct_bind _ _ _ (λ _ c, c_files c = F0 ∧ guarded u c)).
  { eapply (ct_weaken _ _ (λ c, c_files c = F0 ∧ (closed_ok c ∧
      (unsafe ∨ closed = true → c_closed c = true))));
      [eapply (when_closed _ F0)|..]; [by intros c []| | | |].
    - intros c (HF&Hcl&Hs). unfold closed_ok. auto.
    - intros c [[HF [Ho Hu]] ->]. naive_solver.
    - intros _ c (HF&[Ho Hu]&Hw). split; [done|]. split; [done|].
      intros [Hx|Hx%Hdl]; [by apply Hu; left|]. destruct closed; [by apply Hu; right|].
      by apply Hw; rewrite Hx.
    - intros _ c [HF Hs]. split; [left; by rewrite HF|by apply ended_failed; right]. }
  intros []. eapply ct_bind; [apply observe_guarded|]. intros presence.
  eapply ct_bind; [apply ct_gets_closed|]. intros was.
  apply (ct_assume (u → was = true)); [by intros c [[_ [_ Hu]] ->]|]. intros Hu.
  eapply (ct_bind _ _ _ (λ _ c, c_files c = F0 ∧ serving clients c)).
  { eapply (ct_try _ _ _ _ (λ _ c, c_files c = F0 ∧ c_closed c = was)).
    - eapply ct_weaken; [apply (apply_clients_spec F0 clients true was)|by intros c [[? _] ->]|done|done].
    - intros e. eapply (ct_bind _ _ _ (λ b c, (c_files c = F0 ∧ c_closed c = was) ∧
        (b = false → was = false))).
      + apply ct_if; intros Hb.
        * by apply ct_mret.
        * eapply ct_bind; [apply ct_now|]. intros t'. apply ct_mret. intros c [Hc _].
          split; [done|]. intros _. by destruct was.
      + intros b. apply ct_pure. intros Hb. eapply ct_weaken;
          [apply (rethrow_failed F0 u Hlu' b e was (λ _ _, False))|intros c []; auto|done|].
        * intros Hx. apply Hu in Hx. destruct b; [done|]. by rewrite Hb in Hx.
        * done.
        * intros _ c [HF Hf]. split; [left; by rewrite HF|done]. }
  intros []. unfold date_toISOString. 
  assert (time_value t = true) as -> by apply Is_true_true, clock_is_time.
  eapply (ct_bind _ _ _ (λ a c, (c_files c = F0 ∧ serving clients c) ∧ a = toISOString t));
    [by apply ct_mret|]. intros a. apply ct_pure. intros ->.
  eapply ct_bind; [by apply ct_modify|]. intros [].
  eapply (ct_bind _ _ _ (λ _ c, new_state (c_files c) ∧ serving clients c)).
  { eapply ct_weaken; [apply (write_state_spec (λ r b, rt_serves r ≡ₚ clients ∧ b = false))|done|done|].
    intros _ c [Hf Hh]. split; [done|]. by apply ended_failed. }
  intros []. eapply ct_bind; [by apply ct_modify|]. intros [].
  apply ct_fix. intros F [Hs Hl].
  eapply ct_bind.
  { eapply ct_weaken; [apply (clear_or_fail snapshot u st F clients)|done|done|].
    - by apply reads_latch_same.
    - intros _ c [Ho Hf]. split; [|done]. right. rewrite Ho; [done|apply not_eq_sym, paths_differ]. }
  intros []. eapply ct_bind; [by apply ct_modify|]. intros []. eapply ct_bind; [by apply ct_modify|].
  intros []. apply ct_mret. intros c [(Hn&Ho&Hls) Hc]. split_and!; try done.
  rewrite Ho; [done|apply not_eq_sym, paths_differ].
Qed.
End apply_new.

Section apply_snapshot.
Context (snapshot : NodeAgentConfigurationSnapshot) (c0 : Core).
Let F0 := c_files c0.

(** Why nothing may be served before the snapshot is applied: the adapter has
    stopped the runtime, a latch stands, there is no valid state, or the
    snapshot revokes access whose enforcement deadline has come. *)
Definition unsafe_start : Prop :=
  c_closed c0 = true ∨ latch_present F0 ∨ is_valid (state_status F0) = false.
Definition overdue_revocation : Prop :=
  ∃ envelope, state_status F0 = Valid envelope ∧
    ps_version (env_current envelope) < sn_desiredConfigVersion snapshot ∧
    ∀ n, shouldFailClosed (findRevokedXrayClientEnforcementDeadline
      (ps_snapshot (env_current envelope)) snapshot (clock n) ACCESS_CONTROL_ENFORCEMENT_SLA_MS)
      (clock n) = true.

(** A newer state may be written over [state]. *)
Definition may_write (state : ReadResult StateEnvelope) : Prop :=
  reads (state_status F0) state ∧
  ∀ envelope, state = Valid envelope →
    ps_version (env_current envelope) < sn_desiredConfigVersion snapshot.

Definition applied (r : ApplyResult) (n : nat) (F : gmap string Contents) : Prop :=
  match r with
  | AlreadyApplied => F !! statePath = F0 !! statePath ∧
      ∃ envelope, state_status F0 = Valid envelope ∧
        ps_version (env_current envelope) = sn_desiredConfigVersion snapshot ∧
        ps_snapshotHash (env_current envelope) = hashNodeAgentSnapshot sha256 snapshot
  | Applied => ∃ state, may_write state ∧
      F !! statePath = Some (Document (encode_envelope (written_state snapshot (clock n) state)))
  end.

Definition kept_or_written (F : gmap string Contents) : Prop :=
  F !! statePath = F0 !! statePath ∨
  ∃ n state, may_write state ∧
    F !! statePath = Some (Document (encode_envelope (written_state snapshot (clock n) state))).

Definition latch_demands_met : Prop :=
  ∀ latch, latch_status F0 = Valid latch →
    l_targetVersion latch ≤ sn_desiredConfigVersion snapshot ∧
    ∃ n, latch_names_servable latch snapshot (clock n) = false.

Lemma reads_valid {A} (truth : ReadResult A) a : reads truth (Valid a) → truth = Valid a.
Proof. by intros [|[]]. Qed.

Lemma failed_weaken (u u' : Prop) c : (u' → u) → failed u c → failed u' c.
Proof. unfold failed. naive_solver. Qed.

Lemma latch_satisfied_demands st :
  reads (latch_status F0) st → latch_satisfied snapshot st → latch_demands_met.
Proof.
  intros [->|[-> _]]; [|done]. unfold latch_demands_met. intros Hs latch Hl.
  by rewrite Hl in Hs.
Qed.

Lemma apply_tail n st state :
  let reason := unsafe_start ∨ is_missing st = false ∨ is_valid state = false in
  reads (latch_status F0) st → reads (state_status F0) state →
  ctriple (λ c, c_files c = F0 ∧ guarded reason c)
    (match state with
     | Valid envelope =>
         throw_if (sn_desiredConfigVersion snapshot <? ps_version (env_current envelope)) VersionDowngrade;;
         if ps_version (env_current envelope) =? sn_desiredConfigVersion snapshot
         then apply_current_version snapshot st (env_current envelope)
                (hashNodeAgentSnapshot sha256 snapshot) (selectServableXrayClients snapshot (clock n))
         else apply_new_version snapshot st state (hashNodeAgentSnapshot sha256 snapshot) (clock n)
                (selectServableXrayClients snapshot (clock n))
     | _ => apply_new_version snapshot st state (hashNodeAgentSnapshot sha256 snapshot) (clock n)
              (selectServableXrayClients snapshot (clock n))
     end)
    (λ r c, serving (selectServableXrayClients snapshot (clock n)) c ∧
            ¬ latch_present (c_files c) ∧ latch_satisfied snapshot st ∧ applied r n (c_files c))
    (λ _ c, kept_or_written (c_files c) ∧ failed (unsafe_start ∨ overdue_revocation) c).
Proof.
  intros reason Hst Hstate.
  assert (Hl : latch_present F0 → reason) by (intros; left; right; by left).
  assert (Hnew : may_write state →
    ctriple (λ c, c_files c = F0 ∧ guarded reason c)
      (apply_new_version snapshot st state (hashNodeAgentSnapshot sha256 snapshot) (clock n)
        (selectServableXrayClients snapshot (clock n)))
      (λ r c, serving (selectServableXrayClients snapshot (clock n)) c ∧
            ¬ latch_present (c_files c) ∧ latch_satisfied snapshot st ∧ applied r n (c_files c))
      (λ _ c, kept_or_written (c_files c) ∧ failed (unsafe_start ∨ overdue_revocation) c)).
  { intros Hmay. eapply ct_weaken; [apply (apply_new_spec snapshot F0 n st state reason); [done|done|]|done|..].
    - intros. by right; right.
    - intros r c (->&Hd&?&?&?). split_and!; [done|done|done|]. by exists state.
    - intros _ c [Hf Hfail]. split.
      + destruct Hf as [Hf|Hf]; [by left|right]. by exists n, state.
      + eapply failed_weaken; [|exact Hfail]. intros [Hu|(envelope&Hv&_&Hd)]; [left; by left|].
        destruct Hstate as [->|[-> _]]; [|left; by right; right].
        right. unfold revocation_deadline_passed. rewrite Hv. apply Hd. }
  destruct state as [envelope| | |]; [|apply Hnew; split; [done|by intros]..].
  eapply ct_bind.
  { apply ct_throw_if. intros Hlt%Z.ltb_lt c [HF Hg]. split; [left; by rewrite HF|].
    eapply failed_weaken, guarded_failed; [|exact Hl|exact HF|exact Hg].
    intros [Hu|(e&He&Hv&_)]; [by left|]. apply reads_valid in Hstate.
      rewrite Hstate in He. injection He as <-. lia. }
  intros []. apply ct_pure. intros Hge%Z.ltb_ge.
  destruct (Z.eqb_spec (ps_version (env_current envelope)) (sn_desiredConfigVersion snapshot)) as [Hv|Hv].
  - eapply ct_weaken; [apply (apply_current_spec snapshot F0 reason Hl st _ _ _ Hst)|done|..].
    + intros r c (->&Hh&Hn&Hs&Hls&Hc). split_and!; [done|done|done|]. split.
      * apply Hs, not_eq_sym, paths_differ.
      * exists envelope. by apply reads_valid in Hstate.
    + intros _ c [Hs Hf]. split; [left; apply Hs, not_eq_sym, paths_differ|].
      eapply failed_weaken; [|exact Hf]. intros [Hu|(e&He&Hlt&_)]; [by left|].
      apply reads_valid in Hstate.
      rewrite Hstate in He. injection He as <-. lia.
  - apply Hnew. split; [done|]. intros e [= <-]. lia.
Qed.

Lemma applySnapshot_spec :
  closed_ok c0 →
  ctriple (λ c, c = c0) (applySnapshot snapshot)
    (λ r c, ∃ n, serving (selectServableXrayClients snapshot (clock n)) c ∧
            ¬ latch_present (c_files c) ∧ latch_demands_met ∧ applied r n (c_files c))
    (λ _ c, kept_or_written (c_files c) ∧ failed (unsafe_start ∨ overdue_revocation) c).
Proof.
  intros H0ok. unfold applySnapshot.
  assert (Hh : ∀ c, ended c → c_files c = F0 →
    kept_or_written (c_files c) ∧ failed (unsafe_start ∨ overdue_revocation) c).
  { intros c Hc HF. split; [left; by rewrite HF|by apply ended_failed]. }
  eapply ct_bind; [eapply ct_weaken; [apply (clockTrust_spec (λ c, c = c0))|done|by intros ???|
    by intros _ c [Hc (?&->&HF)]; apply Hh]|].
  intros []; [|apply ct_throw; by intros c [Hc (?&->&HF)]; apply Hh; [left|]].
  eapply ct_bind; [apply ct_now|]. intros t. apply ct_pure. intros [n ->].
  eapply ct_bind.
  { eapply ct_weaken; [apply (readLatch_spec F0 (λ c, guarded (c_closed c0 = true) c) (λ _ _, False))|..].
    - by intros c ->.
    - by intros ???.
    - by intros ?? []. }
  intros st. apply ct_pure. intros Hst.
  eapply (ct_bind _ _ _ (λ _ c, c_files c = F0 ∧
    guarded (c_closed c0 = true ∨ is_missing st = false) c)).
  { eapply ct_weaken; [apply (when_closed _ F0 (guarded (c_closed c0 = true)))|..].
    - by intros c [].
    - intros c (_&Hc&Hs). by split; intros _.
    - done.
    - intros _ c (HF&[Ho Hg]&Hw). split; [done|]. split; [done|]. intros [Hc|Hm]; [by apply Hg|].
      apply Hw. by rewrite Hm.
    - intros _ c [HF Hs]. by apply Hh; [right|]. }
  intros []. eapply ct_bind.
  { apply (readState_spec F0 (guarded (c_closed c0 = true ∨ is_missing st = false))). }
  intros state. apply ct_pure. intros Hstate.
  eapply (ct_bind _ _ _ (λ _ c, c_files c = F0 ∧
    guarded (unsafe_start ∨ is_missing st = false ∨ is_valid state = false) c)).
  { apply ct_if; intros Hv.
    - eapply ct_weaken; [apply (ensure_spec F0 (guarded (c_closed c0 = true ∨ is_missing st = false)))|done|..].
      + intros _ c (HF&Ho&Hg). split; [done|]. split; [done|].
        intros [[Hc|[Hl|Hs]]|[Hm|Hs]]; [apply Hg; by left| | |apply Hg; by right|congruence].
        * apply Hg. right. destruct (is_missing st) eqn:Hm; [|done].
          by destruct (reads_missing F0 st Hst Hm).
        * destruct state; [|done..]. apply reads_valid in Hstate. by rewrite Hstate in Hs.
      + intros _ c [HF Hc]. by apply Hh.
    - eapply ct_weaken; [apply (force_spec (λ f, f = F0))|by intros c []| |].
      + intros _ c [HF [Hc Hs]]. split; [done|]. by split; intros _.
      + intros _ c [HF Hs]. by apply Hh; [right|]. }
  intros []. eapply ct_weaken; [apply (apply_tail n st state Hst Hstate)|done|..|done].
  intros r c (Hc&Hn&Hls&Ha). exists n. split_and!; [done|done| |done].
  by apply (latch_satisfied_demands st).
Qed.
End apply_snapshot.

(** ** The other operations *)

(** What an operation that writes no state leaves. *)
Definition after (F0 : gmap string Contents) (c : Core) : Prop :=
  c_files c !! statePath = F0 !! statePath ∧ closed_ok c ∧
  (latch_present (c_files c) → stopped c).

Lemma halted_after F0 c : c_files c = F0 → halted c → after F0 c.
Proof. intros HF [Hc Hs]. unfold after, closed_ok. rewrite HF. auto. Qed.

(** What one that fails leaves. *)
Definition abandoned (F0 : gmap string Contents) (c : Core) : Prop :=
  c_files c !! statePath = F0 !! statePath ∧ closed_ok c ∧
  (latch_present (c_files c) → stopped_or_failed c).

Lemma ended_abandoned F0 c : c_files c !! statePath = F0 !! statePath → ended c → abandoned F0 c.
Proof.
  intros HF [[Hc Hs]|Hs]; unfold abandoned, closed_ok, stopped_or_failed.
  - split_and!; [done|done|by left].
  - destruct Hs as [Hc Hs]. rewrite Hc. split_and!; [done|done|by right].
Qed.
Lemma ended_same F0 c : c_files c = F0 → ended c → abandoned F0 c.
Proof. intros HF. apply ended_abandoned. by rewrite HF. Qed.

(** The latch an enforcement leaves, over what it read of an earlier one. *)
Definition latch_written (snapshot : NodeAgentConfigurationSnapshot)
    (enforcements : list XrayClientRevocationEnforcement)
    (F0 F : gmap string Contents) : Prop :=
  ∃ existing latch, reads (latch_status F0) existing ∧
    F !! stopOnlyLatchPath = Some (Document (encode_latch latch)) ∧
    sn_desiredConfigVersion snapshot ≤ l_targetVersion latch ∧
    (∀ e, e ∈ enforcements → en_grantId e ∈ l_revokedGrantIds latch) ∧
    (∀ before, existing = Valid before →
       l_targetVersion before ≤ l_targetVersion latch ∧
       ∀ id, id ∈ l_revokedGrantIds before → id ∈ l_revokedGrantIds latch).

Lemma persist_spec snapshot enforcements F0 P :
  ctriple (λ c, c_files c = F0 ∧ P c)
    (persistStopOnlyLatch (sn_desiredConfigVersion snapshot) enforcements)
    (λ _ c, latch_written snapshot enforcements F0 (c_files c) ∧
            c_files c !! statePath = F0 !! statePath)
    (λ _ c, c_files c !! statePath = F0 !! statePath).
Proof.
  unfold persistStopOnlyLatch. eapply ct_bind; [apply readLatch_spec|]. intros existing.
  apply ct_pure. intros Hread.
  eapply (ct_bind _ _ _ (λ _ c, c_files c = F0 ∧ True)).
  { destruct (earliest_deadline _ _) as [|t|]; [apply ct_throw; by intros c [-> _]| |
      apply ct_throw; by intros c [-> _]].
    unfold date_toISOString. destruct (time_value t); [apply ct_mret; by intros c []|
      apply ct_throw; by intros c [-> _]]. }
  intros deadlineAt. set (latch := {| l_targetVersion := _ |}).
  eapply ct_weaken; [apply (ct_files _ (λ f, kept stopOnlyLatchPath F0 f)
    (λ _ f, replaced stopOnlyLatchPath (encode_latch latch) F0 f)
    (λ f, kept_or_replaced stopOnlyLatchPath (encode_latch latch) F0 f) (λ _ _, True))|..].
  - apply writeJsonDurably_spec.
  - intros c [-> _]. split; [done|done].
  - intros _ c [[Hl Ho] _]. split; [|apply Ho; [apply not_eq_sym, paths_differ|apply state_not_latch_temporary]].
    exists existing, latch. split_and!; [done|done| | |].
    + unfold latch. simpl. destruct existing; lia.
    + intros e He. unfold latch. simpl. apply elem_of_canonical_ids, elem_of_app. right.
      apply list_elem_of_fmap. eauto.
    + intros before ->. unfold latch. simpl. split; [lia|]. intros id Hid.
      apply elem_of_canonical_ids, elem_of_app. by left.
  - intros _ c [[Hk|[_ Ho]] _]; [apply Hk, state_not_latch_temporary|].
    apply Ho; [apply not_eq_sym, paths_differ|apply state_not_latch_temporary].
Qed.

(** The grants the new snapshot takes access away from, as the adapter sees it. *)
Definition snapshot_enforcements (snapshot : NodeAgentConfigurationSnapshot)
    (state : ReadResult StateEnvelope) (t : Z) : list XrayClientRevocationEnforcement :=
  match state with
  | Valid envelope => findRevokedXrayClientEnforcements (ps_snapshot (env_current envelope))
                        snapshot t ACCESS_CONTROL_ENFORCEMENT_SLA_MS
  | _ => findSnapshotRevocationEnforcements snapshot ACCESS_CONTROL_ENFORCEMENT_SLA_MS
  end.

Lemma enforce_spec snapshot c0 :
  closed_ok c0 →
  ctriple (λ c, c = c0) (enforceSnapshotSecurity snapshot)
    (λ _ c, after (c_files c0) c ∧
       ∃ n state, reads (state_status (c_files c0)) state ∧
         (halted c ∨ is_valid state = true ∧ snapshot_enforcements snapshot state (clock n) = []) ∧
         (snapshot_enforcements snapshot state (clock n) ≠ [] →
          halted c ∧ latch_written snapshot (snapshot_enforcements snapshot state (clock n))
                       (c_files c0) (c_files c)))
    (λ _ c, abandoned (c_files c0) c ∧ ended c).
Proof.
  intros H0ok. set (F0 := c_files c0). unfold enforceSnapshotSecurity.
  assert (Hh : ∀ c, ended c → c_files c = F0 → abandoned F0 c ∧ ended c)
    by (intros; split; [by apply ended_same|done]).
  eapply ct_bind; [eapply ct_weaken; [apply (clockTrust_spec (λ c, c = c0))|done|by intros ???|
    by intros _ c [Hc (?&->&HF)]; apply Hh]|].
  intros []; [|apply ct_throw; by intros c [Hc (?&->&HF)]; apply Hh; [left|]].
  eapply ct_bind.
  { eapply ct_weaken; [apply (readLatch_spec F0 closed_ok (λ _ _, False))| |by intros ???|by intros ?? []].
    by intros c ->. }
  intros st. apply ct_pure. intros Hst.
  set (P := λ c, closed_ok c ∧ (latch_present F0 → halted c)).
  eapply (ct_bind _ _ _ (λ _ c, c_files c = F0 ∧ P c)).
  { eapply ct_weaken; [apply (when_closed _ F0 closed_ok)|..]; [done| |by intros c| |by intros _ c [HF Hs]; apply Hh; [right|]].
    - intros c [_ [? ?]]. by intros _.
    - intros _ c (HF&Ho&Hw). split; [done|]. split; [done|]. intros Hl. apply Hw.
      destruct (is_missing st) eqn:Hm; [|done]. by destruct (reads_missing F0 st Hst Hm). }
  intros []. eapply ct_bind; [apply (readState_spec F0 P)|].
  intros state. apply ct_pure. intros Hstate.
  eapply ct_bind; [apply ct_now|]. intros t. apply ct_pure. intros [n ->].
  change (match state with Valid _ => _ | _ => _ end)
    with (snapshot_enforcements snapshot state (clock n)).
  destruct (snapshot_enforcements snapshot state (clock n)) as [|e l] eqn:He.
  - apply ct_if; intros Hv.
    + apply ct_mret. intros c [HF [Ho Hl]]. split.
      * unfold after. rewrite HF. split_and!; [done|done|]. intros Hp. by apply Hl.
      * exists n, state. rewrite He. split_and!; [done|by right|done].
    + eapply ct_weaken; [apply (force_spec (λ f, f = F0))|by intros c []| |by intros _ c [HF Hs]; apply Hh; [right|]].
      intros _ c [HF Hc]. split; [by apply halted_after|]. exists n, state. rewrite He.
      split_and!; [done|by left|done].
  - eapply ct_bind.
    { eapply ct_try; [apply (persist_spec snapshot (e :: l) F0 P)|]. intros err.
      eapply ct_weaken; [apply (rethrow_spec err (λ f, f !! statePath = F0 !! statePath) (λ _ _, False))|done|done|].
      intros _ c [HF Hc]. split; [by apply ended_abandoned|done]. }
    intros []. eapply (ct_bind _ _ _ (λ _ c, (latch_written snapshot (e :: l) F0 (c_files c) ∧
      c_files c !! statePath = F0 !! statePath) ∧ halted c)).
    { eapply ct_weaken; [apply (force_spec (λ f, latch_written snapshot (e :: l) F0 f ∧
        f !! statePath = F0 !! statePath))|done|done|].
      intros _ c [[_ HF] Hs]. split; [by apply ended_abandoned; [|right]|by right]. }
    intros []. apply triple_modify. intros w [[Hl HF] [Hc Hs]]. split.
    + unfold after, closed_ok. auto.
    + exists n, state. rewrite He. split_and!; [done|by left|done].
Qed.

Lemma next_check_bounds snapshot t :
  t < nextLocalSecurityCheckAt snapshot t ≤ t + LOCAL_STATE_INTEGRITY_CHECK_INTERVAL_MS.
Proof.
  unfold nextLocalSecurityCheckAt, nextIntegrityCheckAt, LOCAL_STATE_INTEGRITY_CHECK_INTERVAL_MS.
  destruct (findNextXrayClientExpiry snapshot t) as [next|] eqn:He; [|lia].
  pose proof (findNextXrayClientExpiry_min snapshot t) as Hm. rewrite He in Hm.
  destruct Hm as [(g & _ & Hg)%list_elem_of_omap _]. unfold future_expiry in Hg.
  destruct (getActiveGrantExpiry g); [|done]. destruct (Z.leb_spec z t); simplify_eq. lia.
Qed.

(** A time for the next check, soon after some reading of the clock. *)
Definition soon (v : Z) : Prop :=
  ∃ n, clock n < v ≤ clock n + LOCAL_STATE_INTEGRITY_CHECK_INTERVAL_MS.

Lemma soon_integrity n : soon (nextIntegrityCheckAt (clock n)).
Proof. exists n. unfold nextIntegrityCheckAt, LOCAL_STATE_INTEGRITY_CHECK_INTERVAL_MS. lia. Qed.
Lemma soon_security snapshot n : soon (nextLocalSecurityCheckAt snapshot (clock n)).
Proof. exists n. apply next_check_bounds. Qed.

Lemma integrity_check_spec m P Q X :
  ctriple P m (λ _, Q) X →
  ctriple P (integrity_check_after m) (λ v c, Q c ∧ soon v) X.
Proof.
  intros Hm. eapply ct_bind; [exact Hm|]. intros []. eapply ct_bind; [apply ct_now|].
  intros t. apply ct_pure. intros [n ->]. apply ct_mret. intros c Hc. split; [done|apply soon_integrity].
Qed.

(** The clock check in front of an operation that only reschedules itself. *)
Lemma stop_files F0 P :
  ctriple (λ c, c_files c = F0 ∧ P c) enterFailClosed (λ _ c, after F0 c ∧ halted c)
    (λ _ c, abandoned F0 c ∧ ended c).
Proof.
  eapply ct_weaken; [apply (force_spec (λ f, f = F0))|by intros c []| |].
  - intros _ c [HF Hc]. split; [by apply halted_after|done].
  - intros _ c [HF Hc]. split; [by apply ended_same; [|right]|by right].
Qed.

Lemma next_spec c0 :
  closed_ok c0 →
  ctriple (λ c, c = c0) nextLocalReconcileAt
    (λ v c, after (c_files c0) c ∧ soon v) (λ _ c, abandoned (c_files c0) c ∧ ended c).
Proof.
  intros H0ok. set (F0 := c_files c0). unfold nextLocalReconcileAt.
  eapply ct_bind; [eapply ct_weaken; [apply (clockTrust_spec (λ c, c = c0))|done|by intros ???|
    by intros _ c [Hc (?&->&HF)]; split; [apply ended_same|]]|].
  intros [].
  2: { apply integrity_check_spec, ct_mret. intros c [Hc (?&->&HF)]. by apply halted_after. }
  eapply ct_bind; [apply ct_now|]. intros t. apply ct_pure. intros [n ->].
  eapply ct_bind.
  { eapply ct_weaken; [apply (readLatch_spec F0 closed_ok (λ _ _, False))| |by intros ???|by intros ?? []].
    by intros c ->. }
  intros st. apply ct_pure. intros Hst. apply ct_if; intros Hm.
  - eapply ct_bind; [apply stop_files|]. intros []. apply ct_mret. intros c [Ha _].
    split; [done|apply soon_integrity].
  - apply negb_false_iff in Hm. pose proof (reads_missing F0 st Hst Hm) as Hn.
    eapply ct_bind; [apply (readState_spec F0 closed_ok)|]. intros state. apply ct_pure. intros _.
    destruct state; try (eapply ct_bind; [apply stop_files|]; intros []; apply ct_mret;
      intros c [Ha _]; split; [done|apply soon_integrity]).
    apply ct_mret. intros c [HF Ho]. split; [|apply soon_security]. unfold after. by rewrite HF.
Qed.

(** The expiry of a grant of the current snapshot is overdue. *)
Definition overdue_expiry (snapshot : NodeAgentConfigurationSnapshot) : Prop :=
  ∀ n, shouldFailClosed (findExpiredXrayClientEnforcementDeadline snapshot (clock n)
         ACCESS_CONTROL_ENFORCEMENT_SLA_MS) (clock n) = true.

(** What a reconcile with a valid state leaves: the clients of the snapshot
    at a reading of the clock, applied now or known from the fingerprint. *)
Definition reconciled (snapshot : NodeAgentConfigurationSnapshot) (c0 c : Core) : Prop :=
  ∃ n, let clients := selectServableXrayClients snapshot (clock n) in
    c_closed c = false ∧ c_fingerprint c = Some (fingerprintClients sha256 clients) ∧
    (rt_serves (c_runtime c) ≡ₚ clients ∨
     rt_serves (c_runtime c) = rt_serves (c_runtime c0) ∧ c_fingerprint c0 = c_fingerprint c ∧
     c_closed c0 = false).

(** Either stopped, or what the reconcile started from. *)
Definition stopped_or_same (c0 : Core) (c : Core) : Prop :=
  c_files c = c_files c0 ∧
  (halted c ∨ rt_serves (c_runtime c) = rt_serves (c_runtime c0) ∧ c_closed c = c_closed c0 ∧
              c_fingerprint c = c_fingerprint c0).

Lemma reconcile_current_spec current c0 :
  closed_ok c0 → ¬ latch_present (c_files c0) →
  let u := c_closed c0 = true ∨ overdue_expiry (ps_snapshot current) in
  ctriple (λ c, stopped_or_same c0 c) (reconcile_current current)
    (λ v c, c_files c = c_files c0 ∧ soon v ∧ reconciled (ps_snapshot current) c0 c)
    (λ _ c, c_files c = c_files c0 ∧ failed u c).
Proof.
  intros H0ok Hnl u. set (F0 := c_files c0). unfold reconcile_current.
  assert (Hlu : latch_present F0 → u) by done.
  eapply (ct_bind _ _ _ (λ _, stopped_or_same c0)).
  { eapply ct_weaken; [apply (ensure_spec F0 (stopped_or_same c0))|intros c Hc; split; [apply Hc|exact Hc]|..].
    - intros [] c [_ Hc]. exact Hc.
    - intros _ c [HF Hc]. split; [done|by apply ended_failed]. }
  intros []. eapply ct_bind; [apply ct_now|]. intros t. apply ct_pure. intros [n ->].
  set (clients := selectServableXrayClients _ _). set (deadline := findExpiredXrayClientEnforcementDeadline _ _ _).
  eapply ct_bind; [apply ct_gets_closed|]. intros closed.
  set (known := λ c, stopped_or_same c0 c ∧ (u → c_closed c = true)).
  eapply (ct_bind _ _ _ (λ _, known)).
  { destruct (negb closed && shouldFailClosed deadline (clock n)) eqn:Hb; simpl.
    - eapply ct_weaken; [apply (force_spec (λ f, f = F0))|by intros c [[]]| |
        by intros _ c [HF Hs]; split; [done|apply ended_failed; right]].
      intros _ c [HF Hc]. split; [split; [done|by left]|by intros _; apply Hc].
    - apply ct_mret. intros c [Hs ->]. split; [done|]. intros [Hc|Ho].
      + destruct Hs as [_ [[Hx _]|(_&Hx&_)]]; [done|by rewrite Hx].
      + rewrite (Ho n : shouldFailClosed deadline (clock n) = true), andb_true_r in Hb.
        by apply negb_false_iff. }
  intros []. eapply (ct_bind _ _ _ (λ _, known)).
  { apply (observe_spec (λ s f b fp, (f = F0 ∧ ((b = true ∧ s = []) ∨
      s = rt_serves (c_runtime c0) ∧ b = c_closed c0 ∧ fp = c_fingerprint c0)) ∧ (u → b = true))). }
  intros presence. eapply ct_bind; [apply ct_gets_closed|]. intros was.
  eapply (ct_bind _ _ _ (λ fp c, (known c ∧ was = c_closed c) ∧ fp = c_fingerprint c));
    [by apply triple_gets|]. intros fp.
  apply ct_if; intros Hskip.
  - apply andb_true_iff in Hskip as [[Hw%negb_true_iff Hfp%bool_decide_eq_true]%andb_true_iff _].
    apply ct_mret. intros c [[[[HF Hs] _] Hc] Hf]. split; [done|]. split; [apply soon_security|].
    exists n. subst was fp. destruct Hs as [[Hx _]|(Hs&Hc'&Hf')]; [congruence|].
    split; [congruence|]. split; [done|]. right. split_and!; congruence.
  - apply (ct_assume (u → was = true)); [by intros c [[[_ Hu] ->] _]|]. intros Hu.
    eapply (ct_bind _ _ _ (λ _ c, c_files c = F0 ∧ serving clients c)).
    { eapply (ct_try _ _ _ _ (λ _ c, c_files c = F0 ∧ c_closed c = was)).
      - eapply ct_weaken; [apply (apply_clients_spec F0 clients true was)| |done|done].
        by intros c [[[[HF _] _] ->] _].
      - intros e. eapply ct_bind; [apply ct_now|]. intros t. apply ct_pure. intros _.
        eapply ct_weaken; [apply (rethrow_failed F0 u Hlu _ e was (λ _ _, False))|intros c []; auto|done|done].
        + intros Hx. by rewrite (Hu Hx).
        + by intros [[? _]%orb_false_iff _]%orb_false_iff. }
    intros []. eapply (ct_bind _ _ _ (λ _ c, c_files c = F0 ∧ reconciled (ps_snapshot current) c0 c)).
    + apply triple_modify. intros w (HF&Hs&Hc). split; [done|]. exists n. split_and!; [done|done|by left].
    + intros []. apply ct_mret. intros c []. split_and!; [done|apply soon_security|done].
Qed.

Lemma reconcile_spec c0 :
  closed_ok c0 →
  ctriple (λ c, c = c0) reconcileLocalState
    (λ v c, after (c_files c0) c ∧ soon v ∧
       (halted c ∨ ∃ envelope, state_status (c_files c0) = Valid envelope ∧
          ¬ latch_present (c_files c0) ∧ reconciled (ps_snapshot (env_current envelope)) c0 c))
    (λ _ c, abandoned (c_files c0) c ∧
       (c_closed c0 = true → stopped_or_failed c) ∧
       ∀ envelope, state_status (c_files c0) = Valid envelope →
         overdue_expiry (ps_snapshot (env_current envelope)) → stopped_or_failed c).
Proof.
  intros H0ok. set (F0 := c_files c0). unfold reconcileLocalState.
  set (X := λ (_ : AdapterError RE) c, abandoned F0 c ∧ (c_closed c0 = true → stopped_or_failed c) ∧
    ∀ envelope, state_status F0 = Valid envelope →
      overdue_expiry (ps_snapshot (env_current envelope)) → stopped_or_failed c).
  assert (Hx : ∀ e c, abandoned F0 c ∧ ended c → X e c).
  { intros e c [Ha Hc]. assert (stopped_or_failed c) by (destruct Hc as [[_ Hc]|Hc]; [by left|by right]).
    by split_and!. }
  assert (Hstop : ∀ P, ctriple (λ c, c_files c = F0 ∧ P c) (integrity_check_after enterFailClosed)
    (λ v c, after F0 c ∧ soon v ∧ (halted c ∨ ∃ envelope, state_status F0 = Valid envelope ∧
       ¬ latch_present F0 ∧ reconciled (ps_snapshot (env_current envelope)) c0 c)) X).
  { intros P. eapply ct_weaken;
      [apply (integrity_check_spec _ _ (λ c, after F0 c ∧ halted c)), (stop_files F0 P)|done| |by apply Hx].
    intros v c [[Ha Hh] Hs]. split_and!; [done|done|by left]. }
  eapply ct_bind; [eapply ct_weaken; [apply (clockTrust_spec (λ c, c = c0))|done|by intros ???|]|].
  { intros e c [Hc (?&->&HF)]. apply Hx. split; [by apply ended_same|done]. }
  intros [].
  2: { eapply ct_weaken; [apply (integrity_check_spec _
         (λ c, halted c ∧ ∃ c', c' = c0 ∧ c_files c = c_files c') (λ c, after F0 c ∧ halted c)
         (λ _ _, False)), ct_mret|done| |by intros ?? []].
       - intros c [Hc (?&->&HF)]. split; [by apply halted_after|done].
       - intros v c [[Ha Hh] Hs]. split_and!; [done|done|by left]. }
  eapply ct_bind.
  { eapply ct_weaken; [apply (readLatch_spec F0 (stopped_or_same c0) (λ _ _, False))| |by intros ???|by intros ?? []].
    intros c ->. split; [done|]. split; [done|by right]. }
  intros st. apply ct_pure. intros Hst. apply ct_if; intros Hm; [apply Hstop|].
  apply negb_false_iff in Hm. pose proof (reads_missing F0 st Hst Hm) as Hn.
  eapply ct_bind; [apply (readState_spec F0 (stopped_or_same c0))|]. intros state.
  apply ct_pure. intros Hstate. destruct state as [envelope| | |]; [|apply Hstop..].
  apply reads_valid in Hstate.
  eapply ct_weaken; [apply (reconcile_current_spec (env_current envelope) c0 H0ok Hn)|by intros c []|..].
  - intros v c (HF&Hs&Hr). split_and!; [|done|right; by exists envelope].
    unfold after, closed_ok. rewrite HF. destruct Hr as (n&Hc&_). rewrite Hc. split_and!; done.
  - intros err c (HF&Ho&Hl&Hu). split; [|split].
    + unfold abandoned. by rewrite HF in *.
    + intros Hc. apply Hu. by left.
    + intros e He Hov. rewrite Hstate in He. injection He as <-. apply Hu. by right.
Qed.

(** ** Runs *)

Lemma ctriple_run {A} (m : AM A) P Q X w :
  ctriple P m Q X → P (core w) →
  match m w with (Ok a, w') => Q a (core w') | (Throw e, w') => X e (core w') end.
Proof. intros Hm HP. exact (Hm w HP). Qed.

(** Every operation keeps the flag truthful and never serves past a latch. *)
Lemma perform_spec op c0 :
  closed_ok c0 →
  ctriple (λ c, c = c0) (perform op)
    (λ _ c, closed_ok c ∧ (latch_present (c_files c) → stopped c))
    (λ _ c, closed_ok c ∧ (latch_present (c_files c) → stopped_or_failed c)).
Proof.
  intros Ho.
  assert (Ha : ∀ F c, after F c → closed_ok c ∧ (latch_present (c_files c) → stopped c))
    by (by intros F c (_&?&?)).
  assert (Hb : ∀ F c, abandoned F c → closed_ok c ∧ (latch_present (c_files c) → stopped_or_failed c))
    by (by intros F c (_&?&?)).
  assert (Hp : ∀ snapshot, ctriple (λ c, c = c0) (applySnapshot snapshot;; mret tt)
    (λ _ c, closed_ok c ∧ (latch_present (c_files c) → stopped c))
    (λ _ c, closed_ok c ∧ (latch_present (c_files c) → stopped_or_failed c))).
  { intros s. eapply ct_bind; [eapply ct_weaken; [by apply applySnapshot_spec|done|by intros ???|]|].
    - intros _ c [_ (?&?&_)]. done.
    - intros r. apply ct_mret. intros c (n&[_ Hc]&Hl&_). unfold closed_ok. rewrite Hc. by split. }
  destruct op; simpl; [apply Hp|apply Hp|..].
  - eapply ct_weaken; [by apply enforce_spec|done|intros [] c [Hx _]; by eapply Ha|].
    intros _ c [Hx _]. by eapply Hb.
  - eapply ct_bind; [eapply ct_weaken; [by apply next_spec|done|by intros ???|]|].
    + intros _ c [Hx _]. by eapply Hb.
    + intros v. apply ct_mret. intros c [Hx _]. by eapply Ha.
  - eapply ct_bind; [eapply ct_weaken; [by apply reconcile_spec|done|by intros ???|]|].
    + intros _ c [Hx _]. by eapply Hb.
    + intros v. apply ct_mret. intros c [Hx _]. by eapply Ha.
Qed.

Lemma event_closed_ok e w : closed_ok (core w) → closed_ok (core (event w e)).
Proof.
  intros Ho. destruct e as [op|r]; simpl; [|done].
  pose proof (ctriple_run _ _ _ _ w (perform_spec op (core w) Ho) eq_refl) as H1.
  destruct (perform op w) as [[[]|err] w']; by destruct H1.
Qed.

Lemma run_closed_ok events w : closed_ok (core w) → closed_ok (core (runExclusive events w)).
Proof.
  unfold runExclusive. revert w. induction events as [|e es IH]; intros w Ho; simpl; [done|].
  by apply IH, event_closed_ok.
Qed.

(** *** The stored state *)

Section stored.
Context (sha256_hex : ∀ j, is_sha256_hex (sha256 j)).
Context (iso_is_datetime : ∀ n, is_datetime (toISOString (clock n))).

Lemma state_status_sound F envelope :
  state_status F = Valid envelope →
  envelope_wf is_uuid is_datetime envelope ∧ isStateEnvelopeConsistent sha256 envelope.
Proof.
  unfold state_status, file_status, parse_document.
  destruct (F !! statePath) as [[j|]|]; try done.
  destruct (consistent_envelope j) as [e|] eqn:He; [|done]. intros [= <-].
  unfold consistent_envelope in He. option_invert He. simplify_eq.
  split; [by eapply envelope_sound|done].
Qed.

Lemma written_status snapshot F0 F n state :
  snapshot_wf is_uuid is_datetime snapshot → reads (state_status F0) state →
  (∀ envelope, state = Valid envelope →
    ps_version (env_current envelope) < sn_desiredConfigVersion snapshot) →
  F !! statePath = Some (Document (encode_envelope (written_state snapshot (clock n) state))) →
  state_status F = Valid (written_state snapshot (clock n) state).
Proof.
  intros Hwf Hr Hlt HF. unfold state_status, file_status. rewrite HF. simpl.
  assert (Hprev : ∀ e, state = Valid e →
    envelope_wf is_uuid is_datetime e ∧ isStateEnvelopeConsistent sha256 e).
  { intros e ->. eapply state_status_sound. by apply reads_valid. }
  unfold consistent_envelope. rewrite envelope_encode; [simpl|].
  - rewrite option_guard_True; [done|]. unfold isStateEnvelopeConsistent, isPersistedStateConsistent. simpl.
    rewrite Z.eqb_refl, bool_decide_eq_true_2 by done. simpl.
    destruct state as [e| | |]; try done. simpl. destruct (Hprev e eq_refl) as [_ Hc].
    unfold isStateEnvelopeConsistent in Hc. apply andb_True in Hc as [Hc _].
    apply andb_True. split; [|exact Hc]. apply Is_true_true, Z.ltb_lt. by apply Hlt.
  - split; simpl.
    + split_and!; simpl; [apply Hwf|apply sha256_hex|apply iso_is_datetime|done].
    + intros p Hp. destruct state as [e| | |]; try done. injection Hp as <-.
      by destruct (Hprev e eq_refl) as [[Hc _] _].
Qed.

(** The state file holds [snapshot]: its version and its hash. *)
Definition holds_snapshot (snapshot : NodeAgentConfigurationSnapshot) (F : gmap string Contents) : Prop :=
  ∃ envelope, state_status F = Valid envelope ∧
    ps_version (env_current envelope) = sn_desiredConfigVersion snapshot ∧
    ps_snapshotHash (env_current envelope) = hashNodeAgentSnapshot sha256 snapshot.

Lemma applied_holds snapshot c0 r n F :
  snapshot_wf is_uuid is_datetime snapshot → applied snapshot c0 r n F → holds_snapshot snapshot F.
Proof.
  intros Hwf. destruct r; simpl.
  - intros (state & [Hr Hlt] & HF). eexists. split; [by eapply written_status|done].
  - intros (HF & e & He & Hv & Hh). exists e. unfold state_status. rewrite HF. done.
Qed.

(** A successful apply serves what the snapshot allows at a reading of the clock. *)
Lemma applied_serves snapshot w r w' :
  closed_ok (core w) → applySnapshot snapshot w = (Ok r, w') →
  ∃ n, rt_serves (w_runtime w') ≡ₚ selectServableXrayClients snapshot (clock n).
Proof.
  intros Ho Ha.
  pose proof (ctriple_run _ _ _ _ w (applySnapshot_spec snapshot (core w) Ho) eq_refl) as H1.
  rewrite Ha in H1. destruct H1 as (n&[Hs _]&_). by exists n.
Qed.

(** C18: what a successful apply means.  When [apply] or
    [reconcileConfirmedSnapshot] returns, the runtime serves exactly the
    clients the snapshot allows at a reading of the clock, the state file
    holds the snapshot, and no stop-only latch is left; a latch that stood
    before demanded at most this version and names no client the snapshot
    serves. *)
Theorem apply_serves_exactly_the_snapshot snapshot w r w' :
  closed_ok (core w) → snapshot_wf is_uuid is_datetime snapshot →
  applySnapshot snapshot w = (Ok r, w') →
  (∃ n, rt_serves (w_runtime w') ≡ₚ selectServableXrayClients snapshot (clock n)) ∧
  holds_snapshot snapshot (fs_files (w_fs w')) ∧
  fs_files (w_fs w') !! stopOnlyLatchPath = None ∧
  (∀ latch, latch_status (fs_files (w_fs w)) = Valid latch →
     l_targetVersion latch ≤ sn_desiredConfigVersion snapshot ∧
     ∃ n, ∀ client, client ∈ selectServableXrayClients snapshot (clock n) →
       cl_grantId client ∉ l_revokedGrantIds latch).
Proof.
  intros Ho Hwf Ha.
  pose proof (ctriple_run _ _ _ _ w (applySnapshot_spec snapshot (core w) Ho) eq_refl) as H1.
  rewrite Ha in H1. destruct H1 as (n&[Hs Hc]&Hl&Hd&Hap).
  split; [by exists n|]. split; [by eapply applied_holds|]. split.
  - apply eq_None_not_Some. exact Hl.
  - intros latch Hlatch. destruct (Hd latch Hlatch) as [Hv [k Hk]]. split; [done|].
    exists k. intros client Hcl Hin. unfold latch_names_servable in Hk.
    apply not_true_iff_false in Hk. apply Hk, existsb_exists. exists (cl_grantId client).
    split; [by apply list_elem_of_In|]. apply bool_decide_eq_true, list_elem_of_fmap. eauto.
Qed.

Definition stored_version (w : World) : option Z :=
  match state_status (fs_files (w_fs w)) with
  | Valid envelope => Some (ps_version (env_current envelope))
  | _ => None
  end.

Definition event_snapshots_wf (e : AdapterEvent) : Prop :=
  match e with
  | Run (OpApply s) | Run (OpReconcileConfirmed s) => snapshot_wf is_uuid is_datetime s
  | _ => True
  end.

Lemma kept_or_written_version snapshot c0 F envelope :
  ¬ read_faults → snapshot_wf is_uuid is_datetime snapshot →
  state_status (c_files c0) = Valid envelope → kept_or_written snapshot c0 F →
  ∃ envelope', state_status F = Valid envelope' ∧
    ps_version (env_current envelope) ≤ ps_version (env_current envelope').
Proof.
  intros Hnf Hwf He [HF|(n&state&[[->|[_ Hf]] Hlt]&HF)]; [| |done].
  - exists envelope. unfold state_status. rewrite HF. done.
  - eexists. split; [eapply (written_status snapshot (c_files c0) F n (state_status (c_files c0))); [done|by left|done|done]|].
    simpl. apply Z.lt_le_incl. by apply Hlt.
Qed.

Lemma event_version e w v :
  ¬ read_faults → closed_ok (core w) → event_snapshots_wf e → stored_version w = Some v →
  ∃ v', stored_version (event w e) = Some v' ∧ v ≤ v'.
Proof.
  intros Hnf Ho Hwf Hv. unfold stored_version in *.
  destruct (state_status (fs_files (w_fs w))) as [envelope| | |] eqn:He; simplify_eq.
  assert (Hsame : ∀ w', c_files (core w') !! statePath = c_files (core w) !! statePath →
    ∃ v', match state_status (fs_files (w_fs w')) with
          | Valid e => Some (ps_version (env_current e)) | _ => None end = Some v' ∧
          ps_version (env_current envelope) ≤ v').
  { intros w' Hs. exists (ps_version (env_current envelope)). simpl in Hs.
    unfold state_status in *. by rewrite Hs, He. }
  assert (Hap : ∀ s, snapshot_wf is_uuid is_datetime s →
    ∃ v', match state_status (fs_files (w_fs (snd ((applySnapshot s;; mret tt) w)))) with
          | Valid e => Some (ps_version (env_current e)) | _ => None end = Some v' ∧
          ps_version (env_current envelope) ≤ v').
  { intros s Hs. assert (∃ e', state_status (fs_files (w_fs (snd ((applySnapshot s;; mret tt) w)))) = Valid e' ∧
      ps_version (env_current envelope) ≤ ps_version (env_current e')) as (e'&->&?); [|eauto].
    pose proof (ctriple_run _ _ _ _ w (applySnapshot_spec s (core w) Ho) eq_refl) as H1.
    unfold mbind, M_bind, mret, M_ret. destruct (applySnapshot s w) as [[r|err] w']; simpl.
    - destruct H1 as (n&_&_&_&Hx). eapply (kept_or_written_version s (core w)); [done|done|exact He|].
      destruct r; [right; destruct Hx as (state&?&?); by exists n, state|left; apply Hx].
    - destruct H1 as [Hx _]. by eapply (kept_or_written_version s (core w)). }
  destruct e as [[s|s|s| |]|r]; simpl; [by apply Hap|by apply Hap|..|by apply Hsame].
  - pose proof (ctriple_run _ _ _ _ w (enforce_spec s (core w) Ho) eq_refl) as H1. apply Hsame.
    destruct (enforceSnapshotSecurity s w) as [[[]|err] w']; apply H1.
  - pose proof (ctriple_run _ _ _ _ w (next_spec (core w) Ho) eq_refl) as H1. apply Hsame.
    unfold mbind, M_bind, mret, M_ret. destruct (nextLocalReconcileAt w) as [[r|err] w']; apply H1.
  - pose proof (ctriple_run _ _ _ _ w (reconcile_spec (core w) Ho) eq_refl) as H1. apply Hsame.
    unfold mbind, M_bind, mret, M_ret. destruct (reconcileLocalState w) as [[r|err] w']; apply H1.
Qed.

(** The stored configuration never goes back.  Whatever operations run,
    fail or are followed by restarts, and whatever file operations fail
    (reading apart), a valid state file stays valid and its version never
    decreases. *)
Theorem stored_version_never_decreases events w v :
  (∀ t, fault OpRead t = None) → closed_ok (core w) → Forall event_snapshots_wf events →
  stored_version w = Some v →
  ∃ v', stored_version (runExclusive events w) = Some v' ∧ v ≤ v'.
Proof.
  intros Hnf. assert (¬ read_faults) as Hn by (intros (t&e&He); by rewrite Hnf in He).
  unfold runExclusive. revert w v. induction events as [|e es IH]; intros w v Ho Hwf Hv; simpl.
  - by exists v.
  - apply Forall_cons in Hwf as [He Hes].
    destruct (event_version e w v Hn Ho He Hv) as (v1&Hv1&Hle).
    destruct (IH (event w e) v1 (event_closed_ok e w Ho) Hes Hv1) as (v'&Hv'&?).
    exists v'. split; [done|lia].
Qed.
End stored.

(** A failed apply never opens the gate.  If [apply] throws, the adapter's
    flag is truthful; and if there was a reason not to serve (the runtime was
    stopped, a latch stands, the state is missing or not valid, or the
    snapshot revokes access whose deadline has come) nothing is served, or the
    runtime is left by a stop that failed. *)
Theorem failed_apply_serves_nothing_unsafe snapshot w e w' :
  closed_ok (core w) → applySnapshot snapshot w = (Throw e, w') →
  closed_ok (core w') ∧
  (latch_present (fs_files (w_fs w')) → stopped_or_failed (core w')) ∧
  (unsafe_start (core w) ∨ overdue_revocation snapshot (core w) → stopped_or_failed (core w')).
Proof.
  intros Ho Ha.
  pose proof (ctriple_run _ _ _ _ w (applySnapshot_spec snapshot (core w) Ho) eq_refl) as H1.
  rewrite Ha in H1. destruct H1 as [_ H1]. exact H1.
Qed.

(** C13: while a stop-only latch stands nothing is served: after any operation
    of any run, with restarts, failing file operations and failing stops, if a
    latch file is present the runtime serves nobody; unless the operation threw
    because the stop itself failed, and then the runtime is as the failed call
    left it and the adapter does not take it for stopped. *)
Theorem latch_means_stopped events op w :
  closed_ok (core w) →
  let before := runExclusive events w in
  let r := perform op before in
  is_Some (fs_files (w_fs r.2) !! stopOnlyLatchPath) →
  rt_serves (w_runtime r.2) = [] ∨
  (∃ e, r.1 = Throw e) ∧ w_runtimeIsFailClosed r.2 = false ∧
  ∃ runtime e, rt_failClosed runtime = (Throw e, w_runtime r.2).
Proof.
  intros Ho before r. unfold r. clear r. assert (Ho1 : closed_ok (core before)) by by apply run_closed_ok.
  pose proof (ctriple_run _ _ _ _ before (perform_spec op (core before) Ho1) eq_refl) as H1.
  destruct (perform op before) as [[[]|err] w2]; intros Hl.
  - left. by apply H1.
  - destruct (proj2 H1 Hl) as [Hs|[Hc Hs]]; [by left|right]. split; [by eexists|done].
Qed.

(** A revocation without a command is enforced at once and remembered:
    when [enforceSnapshotSecurity] returns, then either the state is valid and
    the snapshot revokes nothing that was served, or nothing is served; and
    if it revokes something, the latch file names every revoked grant and at
    least the snapshot's version, and keeps what an earlier latch demanded. *)
Theorem uncommanded_revocation_is_latched snapshot w w' :
  closed_ok (core w) → enforceSnapshotSecurity snapshot w = (Ok tt, w') →
  ∃ n state,
    reads (state_status (fs_files (w_fs w))) state ∧
    let enforcements := snapshot_enforcements snapshot state (clock n) in
    (rt_serves (w_runtime w') = [] ∨ is_valid state = true ∧ enforcements = []) ∧
    (enforcements ≠ [] → rt_serves (w_runtime w') = [] ∧
       latch_written snapshot enforcements (fs_files (w_fs w)) (fs_files (w_fs w'))).
Proof.
  intros Ho Ha.
  pose proof (ctriple_run _ _ _ _ w (enforce_spec snapshot (core w) Ho) eq_refl) as H1.
  rewrite Ha in H1. destruct H1 as [_ (n&state&Hr&Hs&Hl)]. exists n, state.
  split; [exact Hr|]. split.
  - destruct Hs as [[_ Hs]|Hs]; [by left|by right].
  - intros He. destruct (Hl He) as [[_ Hz] Hw]. done.
Qed.

(** The agent enforces expiries on its own.  When [reconcileLocalState]
    returns it asks to run again within ten seconds of a reading of the clock,
    and either nothing is served, or the state is valid, no latch stands and
    the runtime serves the clients the stored snapshot allows (applied in this
    call, or kept when the fingerprint of the last applied clients says so).
    When it throws, nothing is served if the runtime had been stopped or an
    expiry is overdue, or a stop has failed. *)
Theorem reconcile_enforces_expiry w :
  closed_ok (core w) →
  match reconcileLocalState w with
  | (Ok next, w') =>
      (∃ n, clock n < next ≤ clock n + 10000) ∧
      (rt_serves (w_runtime w') = [] ∨
       ∃ envelope n, state_status (fs_files (w_fs w)) = Valid envelope ∧
         fs_files (w_fs w) !! stopOnlyLatchPath = None ∧
         let clients := selectServableXrayClients (ps_snapshot (env_current envelope)) (clock n) in
         w_runtimeClientsFingerprint w' = Some (fingerprintClients sha256 clients) ∧
         (rt_serves (w_runtime w') ≡ₚ clients ∨
          rt_serves (w_runtime w') = rt_serves (w_runtime w) ∧
          w_runtimeClientsFingerprint w = w_runtimeClientsFingerprint w'))
  | (Throw _, w') =>
      (w_runtimeIsFailClosed w = true → stopped_or_failed (core w')) ∧
      ∀ envelope, state_status (fs_files (w_fs w)) = Valid envelope →
        overdue_expiry (ps_snapshot (env_current envelope)) → stopped_or_failed (core w')
  end.
Proof.
  intros Ho.
  pose proof (ctriple_run _ _ _ _ w (reconcile_spec (core w) Ho) eq_refl) as H1.
  destruct (reconcileLocalState w) as [[next|err] w'].
  - destruct H1 as (_&Hs&H1). split; [exact Hs|]. destruct H1 as [[_ Hh]|(e&He&Hn&n&_&Hf&Hr)]; [by left|].
    right. exists e, n. split; [exact He|]. split; [by apply eq_None_not_Some|]. split; [exact Hf|].
    destruct Hr as [Hr|(Hr&Hx&_)]; [by left|by right].
  - destruct H1 as (_&Hc&Hx). exact (conj Hc Hx).
Qed.

(** ** What the local reconcile loop relies on

    An operation that does not notify leaves the stored state as it is, or it
    has stopped the runtime; and the time an operation answers is within ten
    seconds and not after the next expiry of the stored snapshot. *)

(** The flag is set, or it was not and the stored state is the same. *)
Definition quiet (w w' : World) : Prop :=
  w_runtimeIsFailClosed w' = true ∨
  (fs_files (w_fs w') !! statePath = fs_files (w_fs w) !! statePath ∧ w_runtimeIsFailClosed w = false).
#[local] Instance quiet_preorder : PreOrder quiet.
Proof.
  split.
  - intros w. unfold quiet. destruct (w_runtimeIsFailClosed w) eqn:Hc; [by left|by right].
  - intros w1 w2 w3 H12 [H23|[H23 Hc2]]; [by left|].
    destruct H12 as [H12|[H12 Hc]]; [congruence|]. right. split; [congruence|done].
Qed.
Lemma quiet_same w w' :
  fs_files (w_fs w') !! statePath = fs_files (w_fs w) !! statePath →
  w_runtimeIsFailClosed w' = w_runtimeIsFailClosed w → quiet w w'.
Proof. intros Hf Hc. unfold quiet. destruct (w_runtimeIsFailClosed w) eqn:He; [by left|by right]. Qed.

(** The state a failed stop leaves. *)
Definition broken (w : World) : Prop := stop_failed (core w).

(** The flag is set whenever [m] throws, unless a stop has failed. *)
Definition throws_closed {A} (m : AM A) : Prop :=
  ∀ w e w', m w = (Throw e, w') → w_runtimeIsFailClosed w' = true ∨ broken w'.

Lemma throws_undone {A} (m : AM A) : throws_closed m → undone_unless quiet broken m.
Proof. intros Hm w e w' Hr. destruct (Hm w e w' Hr); [left; by left|by right]. Qed.
Lemma throws_closed_bind {A B} (m : AM A) (f : A → AM B) :
  throws_closed m → (∀ a, throws_closed (f a)) → throws_closed (m ≫= f).
Proof.
  intros Hm Hf w e w'. unfold mbind, M_bind. destruct (m w) as [[a|e1] w1] eqn:He.
  - intros Hr. by eapply Hf.
  - intros [= <- <-]. by eapply Hm.
Qed.
Lemma throws_closed_try {A} (m : AM A) h : (∀ e, throws_closed (h e)) → throws_closed (try_catch m h).
Proof.
  intros Hh w e w'. unfold try_catch. destruct (m w) as [[a|e1] w1]; [done|]. intros Hr. by eapply Hh.
Qed.
Lemma throws_closed_modify f : throws_closed (modify f).
Proof. by intros w e w' [=]. Qed.
Lemma throws_closed_mret {A} (a : A) : throws_closed (mret a).
Proof. by intros w e w' [=]. Qed.

Lemma forced_closed w :
  match forceFailClosed w with
  | (Ok _, w') => w_runtimeIsFailClosed w' = true
  | (Throw _, w') => broken w'
  end.
Proof.
  pose proof (force_spec (λ _, True) w I) as Hf. destruct (forceFailClosed w) as [[a|e] w']; by apply Hf.
Qed.
Lemma quiet_force : keeps_unless quiet broken forceFailClosed.
Proof.
  intros w. pose proof (forced_closed w) as Hf. destruct (forceFailClosed w) as [[a|e] w']; [by left|by right].
Qed.
Lemma rethrow_closes {A} e : throws_closed (A:=A) (failClosedAndRethrow e).
Proof.
  intros w e' w'. unfold failClosedAndRethrow, try_catch, mbind, M_bind. pose proof (forced_closed w) as Hf.
  destruct (forceFailClosed w) as [[[]|e1] w1]; intros [= <- <-]; [by left|by right].
Qed.
Lemma rethrow_throws {A} e w : ∃ e' w', failClosedAndRethrow (A:=A) e w = (Throw e', w').
Proof.
  unfold failClosedAndRethrow, try_catch, mbind, M_bind. destruct (forceFailClosed w) as [[[]|e1] w1]; by do 2 eexists.
Qed.
Lemma quiet_rethrow {A} e : keeps_unless quiet broken (failClosedAndRethrow (A:=A) e).
Proof.
  intros w. destruct (rethrow_throws (A:=A) e w) as (e' & w' & Hr). rewrite Hr.
  destruct (rethrow_closes e w e' w' Hr); [left; by left|by right].
Qed.

(** File operations and calls of the runtime. *)
Lemma quiet_files {A} (m : M FileSystem FsError A) :
  keeps (λ f f', fs_files f' !! statePath = fs_files f !! statePath) m → keeps quiet (files m).
Proof.
  intros Hm w. specialize (Hm (w_fs w)). unfold files. destruct (m (w_fs w)) as [[a|e] fs]; by apply quiet_same.
Qed.
Lemma quiet_runtime {A} (m : M R RE A) : keeps quiet (runtime m).
Proof. intros w. unfold runtime. destruct (m (w_runtime w)) as [[a|e] r]; by apply quiet_same. Qed.
Lemma quiet_modify f :
  (∀ w, w_fs (f w) = w_fs w) → (∀ w, w_runtimeIsFailClosed (f w) = w_runtimeIsFailClosed w) →
  keeps (E:=AdapterError RE) quiet (modify f).
Proof. intros Hf Hc w. apply quiet_same; simpl; [by rewrite Hf|done]. Qed.
Lemma quiet_now : keeps quiet now.
Proof. intros w. by apply quiet_same. Qed.

Lemma quiet_read_document path : keeps quiet (read_document path).
Proof.
  apply keeps_try; [apply _| |intros e; destruct e as [[]| | | | | | | | | |]; apply keeps_mret; apply _].
  apply keeps_bind; [apply _| |intros c; apply keeps_mret; apply _].
  apply quiet_files. intros f. by rewrite leaves_read.
Qed.
#[local] Hint Resolve quiet_runtime quiet_now quiet_read_document : keeps.
#[local] Hint Resolve quiet_force quiet_rethrow : keeps_unless.

Lemma quiet_probe assess : keeps quiet (probe assess).
Proof. intros w. by apply quiet_same. Qed.
#[local] Hint Resolve quiet_probe : keeps.
Lemma quiet_clock : keeps_unless quiet broken enforceClockTrust.
Proof. unfold enforceClockTrust, enterFailClosed. keeps_unless. Qed.
Lemma quiet_readState : keeps quiet readState.
Proof. unfold readState. keeps. Qed.
Lemma quiet_readLatch : keeps quiet readStopOnlyLatch.
Proof. unfold readStopOnlyLatch. keeps. Qed.
Lemma quiet_confirm : keeps quiet confirm_durability.
Proof. apply quiet_files. intros f. by rewrite leaves_confirmDurability. Qed.
Lemma quiet_durability b : keeps (E:=AdapterError RE) quiet (modify (set_durability b)).
Proof. by apply quiet_modify. Qed.
#[local] Hint Resolve quiet_readState quiet_readLatch quiet_confirm quiet_durability : keeps.
Lemma quiet_ensure : keeps_unless quiet broken ensureDurabilityConfirmed.
Proof. unfold ensureDurabilityConfirmed. keeps_unless. Qed.
Lemma quiet_observe : keeps quiet observeServingPresence.
Proof. unfold observeServingPresence. keeps. Qed.
Lemma quiet_date t : keeps quiet (date_toISOString t).
Proof. unfold date_toISOString. keeps. Qed.
Lemma quiet_write_latch j : keeps quiet (write_json stopOnlyLatchPath j).
Proof.
  apply quiet_files. intros f.
  pose proof (writeJsonDurably_spec fault win32 dirname stopOnlyLatchPath j (fs_files f) f) as Hw.
  specialize (Hw (λ _ _, eq_refl)).
  pose proof paths_differ. pose proof state_not_latch_temporary.
  destruct (writeJsonDurably _ _ _ _ _ f) as [[a|e] f']; simpl.
  - destruct Hw as [_ Hw]. by apply Hw.
  - destruct Hw as [Hw|[_ Hw]]; by apply Hw.
Qed.
#[local] Hint Resolve quiet_observe quiet_date quiet_write_latch : keeps.
#[local] Hint Resolve quiet_clock quiet_ensure : keeps_unless.

(** An enforcement leaves the stored state, or it has stopped the runtime, or
    the stop has failed. *)
Lemma quiet_notify : keeps (E:=AdapterError RE) quiet notifyLocalStateChange.
Proof. by apply quiet_modify. Qed.
#[local] Hint Resolve quiet_notify : keeps.
Lemma quiet_enforce snapshot : keeps_unless quiet broken (enforceSnapshotSecurity snapshot).
Proof. unfold enforceSnapshotSecurity, enterFailClosed, persistStopOnlyLatch. keeps_unless. Qed.

(** So does an apply that throws. *)
Lemma quiet_clear_latch snapshot st : keeps quiet (clearStopOnlyLatchAfterVerifiedApply snapshot st).
Proof.
  assert (keeps quiet (files (fs_remove fault stopOnlyLatchPath))).
  { apply quiet_files. intros f. unfold fs_remove, fs_operation. destruct (fault _ _); [done|]. simpl.
    by rewrite lookup_delete_ne by (apply paths_differ). }
  assert (keeps quiet (files (syncParentDirectory fault win32 (dirname stopOnlyLatchPath)))).
  { apply quiet_files. intros f. by rewrite leaves_syncParentDirectory. }
  unfold clearStopOnlyLatchAfterVerifiedApply. keeps.
Qed.
#[local] Hint Resolve quiet_clear_latch : keeps.

Definition same_state (w w' : World) : Prop :=
  fs_files (w_fs w') !! statePath = fs_files (w_fs w) !! statePath.
#[local] Instance same_state_preorder : PreOrder same_state.
Proof. split; unfold same_state; [done|congruence]. Qed.
Lemma same_runtime {A} (m : M R RE A) : keeps same_state (runtime m).
Proof. intros w. unfold runtime. by destruct (m (w_runtime w)) as [[a|e] r]. Qed.
Lemma same_confirm : keeps same_state confirm_durability.
Proof.
  intros w. unfold confirm_durability, files.
  pose proof (leaves_confirmDurability fault win32 dirname statePath (w_fs w)) as Hl.
  destruct (confirmDurability _ _ _ _ _) as [[a|e] f]; unfold same_state; simpl in *; by rewrite Hl.
Qed.
#[local] Hint Resolve same_runtime same_confirm : keeps.
#[local] Hint Extern 1 (keeps same_state (modify _)) => by apply keeps_modify : keeps.

(** Handing the clients to the runtime under a handler that stops it when it
    was stopped before. *)
Lemma undone_handled {A} (was : bool) (m : AM A) h w e w' :
  w_runtimeIsFailClosed w = was → keeps same_state m → (∀ e, keeps_unless quiet broken (h e)) →
  (was = true → ∀ e, throws_closed (h e)) →
  try_catch m h w = (Throw e, w') → quiet w w' ∨ broken w'.
Proof.
  intros Hw Hm Hh Hc. unfold try_catch. specialize (Hm w). destruct (m w) as [[a|e1] w1]; [done|]. intros Hr.
  destruct was; [destruct (Hc eq_refl e1 w1 e w' Hr); [left; by left|by right]|].
  specialize (Hh e1 w1). rewrite Hr in Hh. destruct Hh as [Hh|Hh]; [left|by right].
  destruct Hh as [Hh|[Hh _]]; [by left|right]. split; [|done]. simpl in *. unfold same_state in Hm. congruence.
Qed.
(** Nothing after it throws without stopping the runtime. *)
Lemma undone_then {A B} (m : AM A) (f : A → AM B) w e w' :
  (∀ e w', m w = (Throw e, w') → quiet w w' ∨ broken w') → (∀ a, throws_closed (f a)) →
  (m ≫= f) w = (Throw e, w') → quiet w w' ∨ broken w'.
Proof.
  intros Hm Hf. unfold mbind, M_bind. destruct (m w) as [[a|e1] w1] eqn:He.
  - intros Hr. destruct (Hf a w1 e w' Hr); [left; by left|by right].
  - intros [= <- <-]. by apply (Hm e1).
Qed.
Lemma undone_gets {A B} (g : World → A) (f : A → AM B) :
  (∀ w e w', f (g w) w = (Throw e, w') → quiet w w' ∨ broken w') → undone_unless quiet broken (gets g ≫= f).
Proof. intros Hf w e w' Hr. by apply (Hf w e w'). Qed.

Lemma clear_throws_closed {B} snapshot st (f : unit → AM B) :
  (∀ a, throws_closed (f a)) →
  throws_closed (try_catch (clearStopOnlyLatchAfterVerifiedApply snapshot st) failClosedAndRethrow ≫= f).
Proof. intros Hf. apply throws_closed_bind; [|done]. apply throws_closed_try. intros e. apply rethrow_closes. Qed.

Ltac closed_tail :=
  repeat first [apply throws_closed_bind; [apply throws_closed_modify|intros []]
               | apply clear_throws_closed; intros []
               | apply throws_closed_bind; [apply throws_closed_try; intros ?; apply rethrow_closes|intros []]
               | apply throws_closed_mret].

Lemma undone_apply_current snapshot st current hash clients :
  undone_unless quiet broken (apply_current_version snapshot st current hash clients).
Proof.
  unfold apply_current_version. apply undone_unless_bind; [apply _|keeps_unless|intros []].
  apply undone_unless_bind; [apply _|keeps_unless|intros presence]. cbv zeta.
  apply undone_gets. intros w e w'. apply undone_then; [|intros []; closed_tail].
  intros e1 w1.
  apply (undone_handled (w_runtimeIsFailClosed w)); [done| | |].
  - keeps.
  - intros e2. keeps_unless.
  - intros -> e2. apply rethrow_closes.
Qed.

Lemma date_of_time t : time_value t → throws_closed (date_toISOString t).
Proof. intros Ht w e w'. unfold date_toISOString. by destruct (time_value t). Qed.

Lemma undone_apply_new snapshot st state hash t clients :
  time_value t → undone_unless quiet broken (apply_new_version snapshot st state hash t clients).
Proof.
  intros Ht. unfold apply_new_version, enterFailClosed. cbv zeta.
  apply undone_unless_bind; [apply _|keeps_unless|intros closed].
  apply undone_unless_bind; [apply _|keeps_unless|intros []].
  apply undone_unless_bind; [apply _|keeps_unless|intros presence].
  apply undone_gets. intros w e w'. apply undone_then.
  - intros e1 w1. apply (undone_handled (w_runtimeIsFailClosed w)); [done| | |].
    + keeps.
    + intros e2. keeps_unless.
    + intros -> e2. apply rethrow_closes.
  - intros []. apply throws_closed_bind; [by apply date_of_time|intros appliedAt]. closed_tail.
Qed.

Lemma undone_now {A} (f : Z → AM A) : (∀ n, undone_unless quiet broken (f (clock n))) → undone_unless quiet broken (now ≫= f).
Proof.
  intros Hf w e w' Hr. destruct (Hf (w_ticks w) (now w).2 e w' Hr); [left|by right].
  by etrans; [apply (quiet_now w)|].
Qed.

Lemma undone_apply snapshot : undone_unless quiet broken (applySnapshot snapshot).
Proof.
  assert (Hu : ∀ e : AdapterError RE, undone_unless quiet broken (throw (A:=ApplyResult) e))
    by (intros e w e' w' [= <- <-]; left; reflexivity).
  unfold applySnapshot, enterFailClosed. apply undone_unless_bind; [apply _|keeps_unless|intros []]; [|apply Hu].
  apply undone_now. intros n. cbv zeta.
  apply undone_unless_bind; [apply _|keeps_unless|intros st].
  apply undone_unless_bind; [apply _|keeps_unless|intros []].
  apply undone_unless_bind; [apply _|keeps_unless|intros state].
  apply undone_unless_bind; [apply _|keeps_unless|intros []].
  assert (Hnew : ∀ hash clients,
    undone_unless quiet broken (apply_new_version snapshot st state hash (clock n) clients))
    by (intros; by apply undone_apply_new).
  destruct state as [envelope| | |]; [|apply Hnew..].
  apply undone_unless_bind; [apply _|keeps_unless|intros []].
  destruct (_ =? _); [apply undone_apply_current|apply Hnew].
Qed.

(** *** Notifications *)

Definition notices (w w' : World) : Prop := (w_notifications w ≤ w_notifications w')%nat.
#[local] Instance notices_preorder : PreOrder notices.
Proof. split; [intros w|intros w1 w2 w3]; unfold notices; lia. Qed.
Definition notifies {A} (m : AM A) : Prop :=
  ∀ w a w', m w = (Ok a, w') → (w_notifications w < w_notifications w')%nat.
Lemma notifies_after {A B} (m : AM A) (f : A → AM B) :
  keeps notices m → (∀ a, notifies (f a)) → notifies (m ≫= f).
Proof.
  intros Hm Hf w b w' (a & w1 & H1 & H2)%bind_ok_inv. apply (keeps_run notices) in H1; [|done].
  specialize (Hf a w1 b w' H2). unfold notices in H1. lia.
Qed.
Lemma notices_files {A} (m : M FileSystem FsError A) : keeps notices (files m).
Proof. intros w. unfold files, notices. by destruct (m (w_fs w)) as [[a|e] fs]. Qed.
Lemma notices_runtime {A} (m : M R RE A) : keeps notices (runtime m).
Proof. intros w. unfold runtime, notices. by destruct (m (w_runtime w)) as [[a|e] r]. Qed.
Lemma notices_modify f :
  (∀ w, (w_notifications w ≤ w_notifications (f w))%nat) → keeps (E:=AdapterError RE) notices (modify f).
Proof. intros Hf w. apply Hf. Qed.
Lemma notices_now : keeps notices now.
Proof. intros w. unfold notices. done. Qed.
Lemma notices_probe assess : keeps notices (probe assess).
Proof. intros w. unfold notices. done. Qed.
#[local] Hint Resolve notices_files notices_runtime notices_now notices_probe : keeps.
#[local] Hint Extern 1 (keeps notices (modify _)) => apply notices_modify; simpl; intros; lia : keeps.

Lemma notices_force : keeps notices forceFailClosed.
Proof. unfold forceFailClosed. keeps. Qed.
Lemma notices_rethrow {A} e : keeps notices (failClosedAndRethrow (A:=A) e).
Proof. pose proof notices_force. unfold failClosedAndRethrow. keeps. Qed.
#[local] Hint Resolve notices_force notices_rethrow : keeps.
Ltac notices :=
  unfold enforceClockTrust, enterFailClosed, readStopOnlyLatch, readState,
    read_document, ensureDurabilityConfirmed, confirm_durability, observeServingPresence, date_toISOString,
    writeDurably, write_json, clearStopOnlyLatchAfterVerifiedApply, notifyLocalStateChange; keeps.

Lemma notifies_end {A} (a : A) : notifies (notifyLocalStateChange;; mret a).
Proof. intros w b w' [= <- <-]. simpl. lia. Qed.
Ltac notifying := repeat first [apply notifies_end | apply notifies_after; [solve [notices]|intros ?]].

Lemma apply_notifies snapshot : notifies (applySnapshot snapshot).
Proof.
  assert (Hcur : ∀ st current hash clients, notifies (apply_current_version snapshot st current hash clients))
    by (intros; unfold apply_current_version; cbv zeta; notifying).
  assert (Hnew : ∀ st state hash t clients, notifies (apply_new_version snapshot st state hash t clients))
    by (intros; unfold apply_new_version; cbv zeta; notifying).
  unfold applySnapshot. apply notifies_after; [notices|intros []]; [|by intros w a w' [=]].
  cbv zeta. do 5 (apply notifies_after; [notices|intros ?]).
  match goal with |- notifies (match ?st with _ => _ end) => destruct st as [envelope| | |]; [|apply Hnew..] end.
  apply notifies_after; [notices|intros ?]. destruct (_ =? _); [apply Hcur|apply Hnew].
Qed.

(** *** The next check *)

(** [d] is within ten seconds of a reading of the clock, and not after the next
    expiry of the stored snapshot, unless the runtime is stopped. *)
Definition covers (d : Z) (c : Core) : Prop :=
  ∃ n, clock n < d ≤ clock n + LOCAL_STATE_INTEGRITY_CHECK_INTERVAL_MS ∧
    (c_closed c = true ∨
     ∀ envelope grant e, state_status (c_files c) = Valid envelope →
       grant ∈ sn_grants (ps_snapshot (env_current envelope)) →
       getActiveGrantExpiry grant = Some e → clock n < e → d ≤ e).

Lemma covers_closed n c : c_closed c = true → covers (nextIntegrityCheckAt (clock n)) c.
Proof.
  intros Hc. exists n. split; [|by left]. unfold nextIntegrityCheckAt, LOCAL_STATE_INTEGRITY_CHECK_INTERVAL_MS. lia.
Qed.
Lemma covers_security envelope n c :
  state_status (c_files c) = Valid envelope →
  covers (nextLocalSecurityCheckAt (ps_snapshot (env_current envelope)) (clock n)) c.
Proof.
  intros Hs. exists n. split; [apply next_check_bounds|right]. intros envelope' grant e Hs' Hg He Hlt.
  rewrite Hs in Hs'. injection Hs' as <-.
  pose proof (findNextXrayClientExpiry_min (ps_snapshot (env_current envelope)) (clock n)) as Hm.
  assert (Hin : e ∈ omap (future_expiry (clock n)) (sn_grants (ps_snapshot (env_current envelope)))).
  { apply list_elem_of_omap. exists grant. split; [done|]. unfold future_expiry. rewrite He.
    destruct (Z.leb_spec e (clock n)); [lia|done]. }
  unfold nextLocalSecurityCheckAt, nextIntegrityCheckAt in *.
  destruct (findNextXrayClientExpiry _ _) as [next|]; simpl in Hm.
  - destruct Hm as [_ Hm]. specialize (Hm e Hin). lia.
  - rewrite Hm in Hin. by apply not_elem_of_nil in Hin.
Qed.

Lemma integrity_covers m (P : Core → Prop) X :
  ctriple P m (λ _ c, c_closed c = true) X → ctriple P (integrity_check_after m) covers X.
Proof.
  intros Hm. eapply ct_bind; [exact Hm|]. intros []. eapply ct_bind; [apply ct_now|].
  intros t. apply ct_pure. intros [n ->]. apply ct_mret. apply covers_closed.
Qed.
Lemma stop_closes (P : Core → Prop) : ctriple P enterFailClosed (λ _ c, c_closed c = true) (λ _ _, True).
Proof.
  eapply ct_weaken; [apply (force_spec (λ _, True))|done| |done].
  by intros _ c [_ [Hc _]].
Qed.

Lemma stop_covers n (P : Core → Prop) :
  ctriple P (enterFailClosed;; mret (nextIntegrityCheckAt (clock n))) covers (λ _ _, True).
Proof. eapply ct_bind; [apply stop_closes|]. intros []. apply ct_mret. apply covers_closed. Qed.

Lemma next_covers F : ctriple (λ c, c_files c = F) nextLocalReconcileAt covers (λ _ _, True).
Proof.
  unfold nextLocalReconcileAt.
  eapply ct_bind; [eapply ct_weaken; [apply (clockTrust_spec (λ c, c_files c = F))|done|by intros ???|done]|].
  intros []; [|apply integrity_covers, ct_mret; by intros c [[Hc _] _]].
  eapply ct_bind; [apply ct_now|]. intros t. apply ct_pure. intros [n ->].
  eapply ct_bind.
  { eapply ct_weaken; [apply (readLatch_spec F (λ _, True) (λ _ _, False))|done|by intros ???|done]. }
  intros st. apply ct_pure. intros _. apply ct_if; intros _; [apply stop_covers|].
  eapply ct_bind; [apply (readState_spec F (λ _, True))|]. intros state. apply ct_pure. intros Hs.
  destruct state as [envelope| | |]; [|apply stop_covers..]. apply reads_valid in Hs.
  apply ct_mret. intros c [<- _]. by apply covers_security.
Qed.

(** The files stay as they are. *)
Lemma stays_runtime {A} (m : M R RE A) F :
  ctriple (λ c, c_files c = F) (runtime m) (λ _ c, c_files c = F) (λ _ c, c_files c = F).
Proof. intros w Hw. unfold runtime. by destruct (m (w_runtime w)) as [[a|e] r]. Qed.
Lemma stays_stop F : ctriple (λ c, c_files c = F) enterFailClosed (λ _ c, c_files c = F) (λ _ _, True).
Proof.
  eapply ct_weaken; [apply (force_spec (λ f, f = F))|done|by intros _ c []|done].
Qed.
Lemma stays_observe F X : ctriple (λ c, c_files c = F) observeServingPresence (λ _ c, c_files c = F) X.
Proof. apply (observe_spec (λ _ f _ _, f = F)). Qed.

Lemma reconcile_current_covers envelope F :
  state_status F = Valid envelope →
  ctriple (λ c, c_files c = F) (reconcile_current (env_current envelope)) covers (λ _ _, True).
Proof.
  intros Hs. unfold reconcile_current. cbv zeta.
  assert (Hend : ∀ n X, ctriple (λ c, c_files c = F)
    (mret (nextLocalSecurityCheckAt (ps_snapshot (env_current envelope)) (clock n))) covers X).
  { intros n X. apply ct_mret. intros c <-. by apply covers_security. }
  eapply (ct_bind _ _ _ (λ _ c, c_files c = F)).
  { eapply ct_weaken; [apply (ensure_spec F (λ _, True))|done|by intros _ c []|done]. }
  intros [].
  eapply ct_bind; [apply ct_now|]. intros t. apply ct_pure. intros [n ->].
  eapply ct_bind; [apply ct_gets|]. intros closed. simpl.
  eapply (ct_bind _ _ _ (λ _ c, c_files c = F)).
  { destruct (_ && _); [apply stays_stop|by apply ct_mret]. }
  intros []. eapply ct_bind; [apply stays_observe|]. intros presence.
  eapply ct_bind; [apply ct_gets|]. intros was. eapply ct_bind; [apply ct_gets|]. intros fp. simpl.
  apply ct_if; intros _; [apply Hend|].
  eapply (ct_bind _ _ _ (λ _ c, c_files c = F)).
  { eapply (ct_try _ _ _ _ (λ _ _, True)).
    - eapply (ct_bind _ _ _ (λ _ c, c_files c = F)); [eapply ct_weaken; [apply (stays_runtime _ F)|intros c Hc; exact Hc|done|done]|].
      intros ?. by apply ct_modify.
    - intros e. eapply ct_bind; [apply ct_now|]. intros t.
      apply ct_if; intros _; [|by apply ct_throw].
      eapply ct_weaken; [apply (rethrow_spec e (λ _, True) (λ _ _, False))|done|done|done]. }
  intros []. eapply (ct_bind _ _ _ (λ _ c, c_files c = F)); [by apply ct_modify|]. intros []. apply Hend.
Qed.

Lemma reconcile_covers F : ctriple (λ c, c_files c = F) reconcileLocalState covers (λ _ _, True).
Proof.
  unfold reconcileLocalState.
  eapply ct_bind; [eapply ct_weaken; [apply (clockTrust_spec (λ c, c_files c = F))|done|by intros ???|done]|].
  intros []; [|apply integrity_covers, ct_mret; by intros c [[Hc _] _]].
  eapply ct_bind.
  { eapply ct_weaken; [apply (readLatch_spec F (λ _, True) (λ _ _, False))|done|by intros ???|done]. }
  intros st. apply ct_pure. intros _. apply ct_if; intros _; [apply integrity_covers, stop_closes|].
  eapply ct_bind; [apply (readState_spec F (λ _, True))|]. intros state. apply ct_pure. intros Hs.
  destruct state as [envelope| | |]; [|apply integrity_covers, stop_closes..]. apply reads_valid in Hs.
  eapply ct_weaken; [by apply (reconcile_current_covers envelope F)|by intros c []|done|done].
Qed.

End adapter.
