(* ===== verification/AgentLoops.v ===== *)
(** * The loops of the node agent's process: [apps/node-agent/src/main.ts]

    [runNodeAgent] runs two loops over one adapter: the control-plane loop, which
    applies snapshots and enforces revocations, and the local reconcile loop of
    ReconcileLoop.v.  [runExclusive] lets the adapter's operations through one
    at a time; their notifications reach the reconcile loop as they happen.
    Whatever comes in between, the reconcile loop waits for no longer than ten
    seconds and not past the next expiry of the snapshot that is stored. *)

From S2P Require Import Prelude.
From S2P Require Import Json.
From S2P Require Import Keeps.
From S2P Require Import NodeAgentContract.
From S2P Require Import XrayAccess.
From S2P Require Import DurableFiles.
From S2P Require Import AgentState.
From S2P Require Import XrayRuntime.
From S2P Require Import ReconcileLoop.
From S2P Require Import LocalXrayAdapter.
Open Scope Z_scope.

(** ** The control-plane loop *)

(** [nextCycleDelayMs] after a cycle. *)
Definition nextCycleDelayMs {E} (r : outcome E CycleOutcome) (pollIntervalMs retryIntervalMs : Z) : Z :=
  match r with
  | Ok o => successfulControlPlaneCycleDelay o pollIntervalMs retryIntervalMs
  | Throw _ => retryIntervalMs
  end.

Section agent.
Context `{LocaleCompare} `{DateStrings}.
Context {R RE : Type} `{!XrayConfigRuntime R RE}.
Context (is_uuid is_datetime : string → bool) (sha256 : json → string).
Context (fault : FsOp → nat → option FsError) (win32 : bool) (dirname : string → string).
Context (clock : nat → Z) (clockTrust : option (nat → option ClockOutcome)).
Context (statePath : string).

Notation World := (World (R:=R)).
Notation perform := (perform (RE:=RE) is_uuid is_datetime sha256 fault win32 dirname clock clockTrust statePath).
Notation nextLocalReconcileAt :=
  (nextLocalReconcileAt (RE:=RE) is_uuid is_datetime sha256 fault clock clockTrust statePath).
Notation reconcileLocalState :=
  (reconcileLocalState (RE:=RE) is_uuid is_datetime sha256 fault win32 dirname clock clockTrust statePath).
Notation covers := (covers (R:=R) is_uuid is_datetime sha256 clock statePath).

(** ** The process *)

(** [ag_answer]: the answer of the loop's call, which it has not seen yet;
    [ag_failed]: whether its last call threw; [ag_stopFailed]: whether, since that
    call, an operation of the control plane threw because a stop failed. *)
Record Agent := {
  ag_world : World;
  ag_loop : Loop;
  ag_answer : option (outcome (AdapterError RE) Z);
  ag_failed : bool;
  ag_stopFailed : Prop;
}.

Definition call_of (call : ReconcilerCall) : M World (AdapterError RE) Z :=
  match call with
  | CallReconcileLocalState => reconcileLocalState
  | CallNextLocalReconcileAt => nextLocalReconcileAt
  end.

(** Every notification calls the listener. *)
Definition deliver (w w' : World) (l : Loop) : Loop :=
  Nat.iter (w_notifications w' - w_notifications w) changed l.

Definition by_control_plane (op : AdapterOperation) : bool :=
  match op with OpApply _ | OpReconcileConfirmed _ | OpEnforceSecurity _ => true | _ => false end.

(** [catch (error) { ... deadlineAt = this.clock.now() + retryDelayMs; }], and the
    reading of the clock in [waitUntil]. *)
Definition answer_of (r : outcome (AdapterError RE) Z) (k : nat) : LoopEvent :=
  match r with
  | Ok d => EvAnswered (Deadline (Some d)) (clock k)
  | Throw _ => EvAnswered (Failed (clock k)) (clock (S k))
  end.
Definition threw {E A} (r : outcome E A) : bool := match r with Throw _ => true | Ok _ => false end.

(** The operation threw, and the runtime is as a failed stop left it. *)
Definition stop_broke (r : outcome (AdapterError RE) unit * World) : Prop :=
  threw r.1 = true ∧ stop_failed (core r.2).

Inductive agent_step (s : Agent) : Agent → Prop :=
| AgentOperates op : by_control_plane op = true →
    let r := perform op (ag_world s) in
    agent_step s {| ag_world := r.2; ag_loop := deliver (ag_world s) r.2 (ag_loop s);
                    ag_answer := ag_answer s; ag_failed := ag_failed s;
                    ag_stopFailed := ag_stopFailed s ∨ stop_broke r |}
| AgentCalls call rev : lo_point (ag_loop s) = Awaiting call rev → ag_answer s = None →
    let r := call_of call (ag_world s) in
    agent_step s {| ag_world := r.2; ag_loop := deliver (ag_world s) r.2 (ag_loop s);
                    ag_answer := Some r.1; ag_failed := threw r.1; ag_stopFailed := False |}
| AgentAnswers r l' : ag_answer s = Some r →
    loop_event LOCAL_SECURITY_RETRY_DELAY_MS (answer_of r (w_ticks (ag_world s))) (ag_loop s) = Some l' →
    agent_step s {| ag_world := set_ticks (S (S (w_ticks (ag_world s)))) (ag_world s); ag_loop := l';
                    ag_answer := None; ag_failed := ag_failed s; ag_stopFailed := ag_stopFailed s |}
| AgentMoves e l' : match e with EvAnswered _ _ | EvChanged => False | _ => True end →
    loop_event LOCAL_SECURITY_RETRY_DELAY_MS e (ag_loop s) = Some l' →
    agent_step s {| ag_world := ag_world s; ag_loop := l'; ag_answer := ag_answer s;
                    ag_failed := ag_failed s; ag_stopFailed := ag_stopFailed s |}.

Definition new_agent (fs : FileSystem) (r : R) (ticks : nat) : Agent :=
  {| ag_world := new_adapter fs r ticks; ag_loop := new_loop false; ag_answer := None; ag_failed := false;
     ag_stopFailed := False |}.
Definition agent_reachable (s : Agent) : Prop :=
  ∃ fs r ticks, rtc agent_step (new_agent fs r ticks) s.

(** ** The wait *)

Context (Hlaws : XrayConfigRuntimeLaws R RE).
Context (no_spurious_ENOENT : ∀ op t, fault op t ≠ Some ENOENT).
Context (clock_is_time : ∀ n, time_value (clock n)).

Lemma covers_quiet d w w' : quiet statePath w w' → covers d (core w) → covers d (core w').
Proof.
  intros Hq (n & Hd & Hc). exists n. split; [done|]. destruct Hq as [Hq|[Hf Hcl]]; [by left|right].
  destruct Hc as [Hc|Hc]; [simpl in Hc; congruence|]. intros envelope grant e Hs. apply Hc.
  revert Hs. unfold state_status. simpl. by rewrite Hf.
Qed.

(** An operation that does not notify is quiet, unless its stop has failed. *)
Lemma operation_quiet op w :
  by_control_plane op = true → (w_notifications (perform op w).2 ≤ w_notifications w)%nat →
  quiet statePath w (perform op w).2 ∨ stop_broke (perform op w).
Proof.
  intros Hop. assert (Ha : ∀ snapshot,
    let m := applySnapshot is_uuid is_datetime sha256 fault win32 dirname clock clockTrust statePath snapshot in
    (w_notifications ((m;; mret tt) w).2 ≤ w_notifications w)%nat →
    quiet statePath w ((m;; mret tt) w).2 ∨ stop_broke ((m;; mret tt) w)).
  { intros snapshot m. unfold mbind, M_bind. destruct (m w) as [[a|e] w'] eqn:Hm; simpl.
    - apply (apply_notifies is_uuid is_datetime sha256 fault win32 dirname clock clockTrust statePath) in Hm. lia.
    - intros _. destruct (undone_apply is_uuid is_datetime sha256 fault win32 dirname clock clockTrust statePath
        Hlaws clock_is_time snapshot w e w' Hm); [by left|by right]. }
  destruct op as [s|s|s| |]; try done; try apply Ha. intros _. simpl.
  pose proof (quiet_enforce is_uuid is_datetime sha256 fault win32 dirname clock clockTrust statePath Hlaws s w) as Hq.
  destruct (enforceSnapshotSecurity _ _ _ _ _ _ _ _ _ s w) as [[a|e] w']; [by left|]. destruct Hq; [by left|by right].
Qed.

Lemma operation_closed_ok op w : closed_ok (core w) → closed_ok (core (perform op w).2).
Proof.
  apply (event_closed_ok is_uuid is_datetime sha256 fault win32 dirname clock clockTrust statePath) with (e := Run op);
    done.
Qed.
Lemma call_closed_ok call w : closed_ok (core w) → closed_ok (core (call_of call w).2).
Proof.
  intros Ho. destruct call.
  - pose proof (operation_closed_ok OpReconcileLocal w Ho) as Hp. simpl in Hp.
    by rewrite then_same in Hp by (intros a s; reflexivity).
  - pose proof (operation_closed_ok OpNextReconcile w Ho) as Hp. simpl in Hp.
    by rewrite then_same in Hp by (intros a s; reflexivity).
Qed.
Lemma call_covers call w d : (call_of call w).1 = Ok d → covers d (core (call_of call w).2).
Proof.
  intros Hr. destruct call; simpl in *.
  - pose proof (ctriple_run _ _ _ _ w (reconcile_covers is_uuid is_datetime sha256 fault win32 dirname clock
      clockTrust statePath Hlaws no_spurious_ENOENT (c_files (core w))) eq_refl) as Hc.
    by destruct (reconcileLocalState w) as [[d'|e] w']; simplify_eq/=.
  - pose proof (ctriple_run _ _ _ _ w (next_covers is_uuid is_datetime sha256 fault clock
      clockTrust statePath Hlaws no_spurious_ENOENT (c_files (core w))) eq_refl) as Hc.
    by destruct (nextLocalReconcileAt w) as [[d'|e] w']; simplify_eq/=.
Qed.

(** What a notification does. *)
Lemma changed_ok l : loop_ok l → loop_ok (changed l).
Proof. intros Hok. by apply (loop_event_ok 0 EvChanged l). Qed.
Lemma iter_changed_ok k l : loop_ok l → loop_ok (Nat.iter k changed l).
Proof. intros Hok. induction k as [|k IH]; simpl; [done|by apply changed_ok]. Qed.
Lemma iter_changed_awaiting k l call rev :
  loop_ok l → lo_point l = Awaiting call rev →
  lo_point (Nat.iter k changed l) = Awaiting call rev ∧
  lo_stateRevision (Nat.iter k changed l) = lo_stateRevision l + Z.of_nat k.
Proof.
  intros Hok Hp. induction k as [|k IH]; [simpl; split; [done|lia]|]. destruct IH as [IHp IHr].
  rewrite Nat.iter_succ.
  pose proof (iter_changed_ok k l Hok) as Hk. destruct (Nat.iter k changed l) as [p r su ab].
  unfold loop_ok, changed, finish in *. simpl in *. subst p. destruct Hk as [-> _]. simpl.
  split; [done|lia].
Qed.
Lemma iter_changed_waiting k l t :
  loop_ok l → lo_point (Nat.iter k changed l) = Waiting t → k = 0%nat.
Proof.
  intros Hok. destruct k as [|k]; [done|]. pose proof (iter_changed_ok k l Hok) as Hk. rewrite Nat.iter_succ.
  destruct (Nat.iter k changed l) as [p r su ab]. unfold changed, finish, loop_ok in *. simpl in *.
  destruct p, su; simpl in *; naive_solver.
Qed.
Lemma iter_changed_other k l :
  match lo_point (Nat.iter k changed l) with
  | Awaiting call rev => lo_point l = Awaiting call rev
  | _ => match lo_point l with Awaiting _ _ => False | _ => True end
  end.
Proof.
  induction k as [|k IH]; [simpl; by destruct (lo_point l)|]. rewrite Nat.iter_succ.
  destruct (Nat.iter k changed l) as [p r su ab]. unfold changed, finish. simpl in *.
  by destruct su, p.
Qed.

(** [d] is soon, and computed from the stored state unless a stop has failed. *)
Definition agent_covers (s : Agent) (d : Z) : Prop :=
  covers d (core (ag_world s)) ∨ soon clock d ∧ ag_stopFailed s.
Lemma covers_soon d c : covers d c → soon clock d.
Proof. intros (n & Hd & _). by exists n. Qed.
(** [d] was computed from the stored state, unless the call threw. *)
Definition agent_inv (s : Agent) : Prop :=
  closed_ok (core (ag_world s)) ∧ loop_ok (ag_loop s) ∧
  match lo_point (ag_loop s) with
  | Awaiting _ rev =>
      match ag_answer s with
      | Some r => ag_failed s = threw r ∧
          ∀ d, r = Ok d → rev = lo_stateRevision (ag_loop s) → agent_covers s d
      | None => True
      end
  | Waiting t => ag_answer s = None ∧ ∃ d m, t = Some (set_timer d (clock m)) ∧
      if ag_failed s then ∃ n, d = clock n + LOCAL_SECURITY_RETRY_DELAY_MS else agent_covers s d
  | _ => ag_answer s = None
  end.

Lemma operates_inv s op : by_control_plane op = true → agent_inv s →
  let r := perform op (ag_world s) in
  agent_inv {| ag_world := r.2; ag_loop := deliver (ag_world s) r.2 (ag_loop s);
               ag_answer := ag_answer s; ag_failed := ag_failed s;
               ag_stopFailed := ag_stopFailed s ∨ stop_broke r |}.
Proof.
  intros Hop (Ho & Hok & Hp) r. unfold agent_inv, deliver. simpl.
  set (k := (w_notifications r.2 - w_notifications (ag_world s))%nat).
  assert (Hcov : ∀ d, k = 0%nat → agent_covers s d → agent_covers {| ag_world := r.2;
    ag_loop := Nat.iter k changed (ag_loop s); ag_answer := ag_answer s; ag_failed := ag_failed s;
    ag_stopFailed := ag_stopFailed s ∨ stop_broke r |} d).
  { intros d Hk [Hc|[Hs Hb]]; [|right; split; [done|by left]].
    destruct (operation_quiet op (ag_world s) Hop) as [Hq|Hb]; [unfold k, r in Hk; lia|left; by eapply covers_quiet|].
    right. split; [by eapply covers_soon|by right]. }
  split_and!; [by apply operation_closed_ok|by apply iter_changed_ok|].
  pose proof (iter_changed_other k (ag_loop s)) as Hother.
  destruct (lo_point (Nat.iter k changed (ag_loop s))) as [|call rev|t| |] eqn:Hl.
  all: try (by destruct (lo_point (ag_loop s)); try done; destruct Hp).
  - rewrite Hother in Hp. destruct (ag_answer s) as [a|]; [|done]. destruct Hp as [Hf Hc]. split; [done|].
    intros d Hr Hrev. destruct (iter_changed_awaiting k _ _ _ Hok Hother) as [_ Hn].
    assert (rev ≤ lo_stateRevision (ag_loop s)) by (unfold loop_ok in Hok; rewrite Hother in Hok; tauto).
    assert (Hk : k = 0%nat) by lia. apply Hcov; [done|]. apply Hc; [done|lia].
  - pose proof (iter_changed_waiting k _ _ Hok Hl) as Hk. rewrite Hk in Hl. simpl in Hl. rewrite Hl in Hp.
    destruct Hp as (Ha & d & m & -> & Hc). split; [done|]. exists d, m. split; [done|].
    destruct (ag_failed s); [done|]. by apply Hcov.
Qed.

Lemma calls_inv s call rev : lo_point (ag_loop s) = Awaiting call rev → agent_inv s →
  let r := call_of call (ag_world s) in
  agent_inv {| ag_world := r.2; ag_loop := deliver (ag_world s) r.2 (ag_loop s);
               ag_answer := Some r.1; ag_failed := threw r.1; ag_stopFailed := False |}.
Proof.
  intros Hl (Ho & Hok & Hp) r. unfold agent_inv, deliver. simpl.
  split_and!; [by apply call_closed_ok|by apply iter_changed_ok|].
  destruct (iter_changed_awaiting (w_notifications r.2 - w_notifications (ag_world s)) _ _ _ Hok Hl) as [-> _].
  split; [done|]. intros d Hr _. left. by apply call_covers.
Qed.

Lemma answers_inv s r l' : ag_answer s = Some r →
  loop_event LOCAL_SECURITY_RETRY_DELAY_MS (answer_of r (w_ticks (ag_world s))) (ag_loop s) = Some l' →
  agent_inv s →
  agent_inv {| ag_world := set_ticks (S (S (w_ticks (ag_world s)))) (ag_world s); ag_loop := l';
               ag_answer := None; ag_failed := ag_failed s; ag_stopFailed := ag_stopFailed s |}.
Proof.
  intros Ha He (Ho & Hok & Hp). split; [exact Ho|]. split; [by eapply loop_event_ok|]. simpl.
  destruct (lo_point (ag_loop s)) as [|call rev| | |] eqn:Hl; try (by rewrite Hp in Ha); [|by destruct Hp; congruence].
  rewrite Ha in Hp. destruct Hp as [Hf Hc]. unfold loop_event in He. rewrite Hl in He.
  destruct r as [d|e]; simpl in *; injection He as <-; unfold waitUntil;
    (destruct (lo_aborted _); [done|]); (destruct (Z.eqb_spec (lo_stateRevision (ag_loop s)) rev); [|done]); simpl.
  - split; [done|]. exists d, (w_ticks (ag_world s)). split; [done|]. rewrite Hf. by apply Hc.
  - split; [done|]. eexists _, _. split; [done|]. rewrite Hf. by exists (w_ticks (ag_world s)).
Qed.

Lemma moves_inv s e l' : match e with EvAnswered _ _ | EvChanged => False | _ => True end →
  loop_event LOCAL_SECURITY_RETRY_DELAY_MS e (ag_loop s) = Some l' → agent_inv s →
  agent_inv {| ag_world := ag_world s; ag_loop := l'; ag_answer := ag_answer s; ag_failed := ag_failed s;
               ag_stopFailed := ag_stopFailed s |}.
Proof.
  intros He Hl (Ho & Hok & Hp). split; [exact Ho|]. split; [by eapply loop_event_ok|]. simpl.
  unfold loop_event, iterate_loop, finish, at_point, return_ in Hl.
  destruct (ag_loop s) as [p rev sub ab]; simpl in *.
  destruct e; try done; destruct p as [|call obs|[t|]|[]|]; simpl in *; try done;
    repeat match goal with
    | H : context [if ?b then _ else _] |- _ => destruct b
    end; simplify_eq; simpl; try done; try (by rewrite Hp); naive_solver.
Qed.

Lemma agent_reachable_inv s : agent_reachable s → agent_inv s.
Proof.
  intros (fs & r & ticks & Hr). assert (Hi : agent_inv (new_agent fs r ticks)) by (split_and!; done).
  induction Hr as [|s1 s2 s3 Hs _ IH]; [done|]. apply IH. destruct Hs.
  - by apply operates_inv.
  - by eapply calls_inv.
  - by eapply answers_inv.
  - by eapply moves_inv.
Qed.

(** C14: whatever the control plane and the other loop do, while the local
    reconcile loop waits, its timer is in Node's range and is due within ten
    seconds of a reading of the clock; and unless its last call threw, the
    runtime is stopped, or an operation of the control plane has since thrown
    because a stop failed, it is due by every expiry still to come of the
    snapshot that is stored now: no state change is missed. *)
Theorem loop_waits_for_the_next_expiry s t :
  agent_reachable s → lo_point (ag_loop s) = Waiting t →
  ∃ timer n m, t = Some timer ∧ 0 ≤ tm_delayMs timer ≤ MAX_TIMER_DELAY_MS ∧
    tm_dueAt timer ≤ Z.max (clock m) (clock n + 10000) ∧
    (ag_failed s = true ∨ w_runtimeIsFailClosed (ag_world s) = true ∨ ag_stopFailed s ∨
     ∀ envelope grant e, state_status is_uuid is_datetime sha256 statePath (fs_files (w_fs (ag_world s))) = Valid envelope →
       grant ∈ sn_grants (ps_snapshot (env_current envelope)) →
       getActiveGrantExpiry grant = Some e → clock n < e → tm_dueAt timer ≤ Z.max (clock m) e).
Proof.
  intros (_ & _ & Hp)%agent_reachable_inv Ht. rewrite Ht in Hp. destruct Hp as (_ & d & m & -> & Hc).
  pose proof (set_timer_range d (clock m)) as Hrange. pose proof (proj1 (set_timer_due d (clock m))) as Hdue.
  destruct (ag_failed s).
  - destruct Hc as [n ->]. exists (set_timer (clock n + LOCAL_SECURITY_RETRY_DELAY_MS) (clock m)), n, m.
    split_and!; [done|apply Hrange..|exact Hdue|by left].
  - unfold agent_covers, covers, soon, LOCAL_STATE_INTEGRITY_CHECK_INTERVAL_MS in Hc.
    destruct Hc as [(n & Hd & Hc)|[[n Hd] Hb]]; exists (set_timer d (clock m)), n, m;
      (split_and!; [done|apply Hrange..|lia|]); [|by right; right; left].
    right. destruct Hc as [Hc|Hc]; [by left|right; right]. intros envelope grant e Hs Hg He Hlt.
    specialize (Hc envelope grant e Hs Hg He Hlt). lia.
Qed.
End agent.
