(* ===== verification/NodeAgent.v ===== *)
(** * The node agent's cycle and its simulation adapter

    [NodeAgentRunner.runCycle] of apps/node-agent/src/agent.ts, written
    against two interfaces: the control plane ([NodeAgentControlPlane], an
    HTTP client) and the data-plane adapter ([NodeAgentDataPlaneAdapter]),
    each a type class with what it promises.  [LocalXrayAdapter] (through the
    library's results about it) and [StateFileSimulationAdapter] of
    apps/node-agent/src/simulation-adapter.ts are the adapters. *)

From S2P Require Import Prelude.
From S2P Require Import Json.
From S2P Require Import NodeAgentContract.
From S2P Require Import XrayAccess.
From S2P Require Import DurableFiles.
From S2P Require Import AgentState.
From S2P Require Import XrayRuntime.
From S2P Require Import LocalXrayAdapter.
Open Scope Z_scope.

(** ** The interfaces *)

Class NodeAgentControlPlane (C CE : Type) := {
  cp_heartbeat : M C CE unit;
  cp_configuration : M C CE NodeAgentConfigurationSnapshot;
  cp_acknowledge : NodeAgentAcknowledgement → M C CE unit;
}.

(** Only [acknowledge] acknowledges, and only what it is given. *)
Class ControlPlaneLaws (C CE : Type) `{NodeAgentControlPlane C CE} := {
  acknowledged : C → list NodeAgentAcknowledgement;
  heartbeat_law l : triple (λ c, acknowledged c = l) cp_heartbeat
    (λ _ c, acknowledged c = l) (λ _ c, acknowledged c = l);
  configuration_law l : triple (λ c, acknowledged c = l) cp_configuration
    (λ _ c, acknowledged c = l) (λ _ c, acknowledged c = l);
  acknowledge_law l a : triple (λ c, acknowledged c = l) (cp_acknowledge a)
    (λ _ c, acknowledged c = a :: l) (λ _ c, acknowledged c = l ∨ acknowledged c = a :: l);
}.

(** The optional methods are optional here too. *)
Class NodeAgentDataPlaneAdapter (W WE : Type) := {
  dp_apply : NodeAgentConfigurationSnapshot → M W WE ApplyResult;
  dp_reconcileConfirmedSnapshot : option (NodeAgentConfigurationSnapshot → M W WE ApplyResult);
  dp_enforceSnapshotSecurity : option (NodeAgentConfigurationSnapshot → M W WE unit);
}.

(** [dp_ok] is the adapter's invariant and [dp_holds] that a snapshot is
    durably applied. *)
Class DataPlaneLaws (W WE : Type) `{NodeAgentDataPlaneAdapter W WE} := {
  dp_ok : W → Prop;
  dp_admissible : NodeAgentConfigurationSnapshot → Prop;
  dp_holds : NodeAgentConfigurationSnapshot → W → Prop;
  apply_law s : dp_admissible s →
    triple dp_ok (dp_apply s) (λ _ w, dp_ok w ∧ dp_holds s w) (λ _, dp_ok);
  reconcile_law s f : dp_admissible s → dp_reconcileConfirmedSnapshot = Some f →
    triple dp_ok (f s) (λ _ w, dp_ok w ∧ dp_holds s w) (λ _, dp_ok);
  enforce_law s f : dp_enforceSnapshotSecurity = Some f →
    triple dp_ok (f s) (λ _, dp_ok) (λ _, dp_ok);
}.

(** ** The cycle *)

Inductive CycleError (CE WE : Type) := ControlPlaneFailed (e : CE) | AdapterFailed (e : WE).
Arguments ControlPlaneFailed {CE WE}. Arguments AdapterFailed {CE WE}.

Section runner.
Context {C CE W WE : Type} `{NodeAgentControlPlane C CE} `{NodeAgentDataPlaneAdapter W WE}.

Definition on_control_plane {A} (m : M C CE A) : M (C * W) (CycleError CE WE) A := λ s,
  match m (fst s) with
  | (Ok a, c) => (Ok a, (c, snd s))
  | (Throw e, c) => (Throw (ControlPlaneFailed e), (c, snd s))
  end.
Definition on_adapter {A} (m : M W WE A) : M (C * W) (CycleError CE WE) A := λ s,
  match m (snd s) with
  | (Ok a, w) => (Ok a, (fst s, w))
  | (Throw e, w) => (Throw (AdapterFailed e), (fst s, w))
  end.
(** [await this.adapter.method?.(snapshot)] *)
Definition optional_call {A} (method : option (NodeAgentConfigurationSnapshot → M W WE A))
    (snapshot : NodeAgentConfigurationSnapshot) : M (C * W) (CycleError CE WE) unit :=
  match method with Some f => on_adapter (f snapshot);; mret tt | None => mret tt end.

Definition runCycle : M (C * W) (CycleError CE WE) CycleOutcome :=
  on_control_plane cp_heartbeat;;
  snapshot ← on_control_plane cp_configuration;
  let acknowledgement := sn_pendingAcknowledgement (snapshot : NodeAgentConfigurationSnapshot) in
  match acknowledgement with
  | None =>
      if negb (sn_desiredConfigVersion snapshot =? sn_appliedConfigVersion snapshot)
      then optional_call dp_enforceSnapshotSecurity snapshot;; mret WaitingForCommand
      else optional_call dp_reconcileConfirmedSnapshot snapshot;; mret Synchronized
  | Some acknowledgement =>
      on_adapter (dp_apply snapshot);;
      on_control_plane (cp_acknowledge acknowledgement);;
      mret Acknowledged
  end.

Lemma triple_control_plane {A} (m : M C CE A) (P : C → Prop) (Q : A → C → Prop) (X : C → Prop) (K : W → Prop) :
  triple P m Q (λ _, X) →
  triple (λ s, P (fst s) ∧ K (snd s)) (on_control_plane m)
    (λ a s, Q a (fst s) ∧ K (snd s)) (λ _ s, X (fst s) ∧ K (snd s)).
Proof.
  intros Hm [c w] [HP HK]. specialize (Hm c HP). unfold on_control_plane. simpl.
  by destruct (m c) as [[a|e] c'].
Qed.
Lemma triple_adapter {A} (m : M W WE A) (P : W → Prop) (Q : A → W → Prop) (X : W → Prop) (K : C → Prop) :
  triple P m Q (λ _, X) →
  triple (λ s, K (fst s) ∧ P (snd s)) (on_adapter m)
    (λ a s, K (fst s) ∧ Q a (snd s)) (λ _ s, K (fst s) ∧ X (snd s)).
Proof.
  intros Hm [c w] [HK HP]. specialize (Hm w HP). unfold on_adapter. simpl.
  by destruct (m w) as [[a|e] w'].
Qed.

Context `{!ControlPlaneLaws C CE} `{!DataPlaneLaws W WE}.
(** The control plane's answers are admissible (the client parses them with
    the snapshot schema). *)
Context (configuration_admissible : ∀ c s c', cp_configuration c = (Ok s, c') → dp_admissible s).

Lemma configuration_spec l :
  triple (λ c, acknowledged c = l) cp_configuration
    (λ s c, acknowledged c = l ∧ dp_admissible s) (λ _ c, acknowledged c = l).
Proof.
  intros c Hc. pose proof (configuration_law l c Hc) as Hl.
  destruct (cp_configuration c) as [[s|e] c'] eqn:He; [|done].
  split; [done|]. by eapply configuration_admissible.
Qed.

Lemma optional_call_ok {A} (method : option (NodeAgentConfigurationSnapshot → M W WE A)) s l :
  (∀ f, method = Some f → triple dp_ok (f s) (λ _, dp_ok) (λ _, dp_ok)) →
  triple (λ p, acknowledged (fst p) = l ∧ dp_ok (snd p)) (optional_call method s)
    (λ _ p, acknowledged (fst p) = l ∧ dp_ok (snd p))
    (λ _ p, acknowledged (fst p) = l ∧ dp_ok (snd p)).
Proof.
  intros Hm. unfold optional_call. destruct method as [f|]; [|by apply triple_mret].
  eapply triple_bind; [apply (triple_adapter _ dp_ok (λ _, dp_ok) dp_ok (λ c, acknowledged c = l)); by apply Hm|].
  intros a. by apply triple_mret.
Qed.

(** What a command's acknowledgement means. *)
Definition applied_and_acknowledged (l : list NodeAgentAcknowledgement) (c : C) (w : W) : Prop :=
  ∃ snapshot a, sn_pendingAcknowledgement snapshot = Some a ∧
    dp_holds snapshot w ∧ acknowledged c = a :: l.

Lemma runCycle_spec l :
  let same := λ p : C * W, acknowledged (fst p) = l ∧ dp_ok (snd p) in
  let X := λ (e : CycleError CE WE) p, dp_ok (snd p) ∧
    (acknowledged (fst p) = l ∨ applied_and_acknowledged l (fst p) (snd p)) in
  triple same runCycle
    (λ o p, dp_ok (snd p) ∧ match o with
                            | Acknowledged => applied_and_acknowledged l (fst p) (snd p)
                            | _ => acknowledged (fst p) = l
                            end) X.
Proof.
  intros same X.
  assert (Hsame : ∀ e p, same p → X e p) by (intros e p [??]; split; [done|by left]).
  unfold runCycle. eapply triple_bind.
  { eapply triple_weaken; [apply (triple_control_plane _ _ (λ _ c, acknowledged c = l) (λ c, acknowledged c = l) dp_ok
      (heartbeat_law l))|done|by intros ???|apply Hsame]. }
  intros []. eapply triple_bind.
  { eapply triple_weaken; [apply (triple_control_plane _ _ _ _ dp_ok (configuration_spec l))|done|
      by intros ???|apply Hsame]. }
  intros s. apply (triple_weaken _ _ (λ p, same p ∧ dp_admissible s) _
    (λ o p, dp_ok (snd p) ∧ match o with
       | Acknowledged => applied_and_acknowledged l (fst p) (snd p) | _ => acknowledged (fst p) = l end) X X);
    [|intros p [[? ?] ?]; by repeat split|auto|auto].
  apply triple_pure. intros Hs.
  destruct (sn_pendingAcknowledgement s) as [a|] eqn:Ha.
  - eapply (triple_bind _ _ _ (λ _ p, acknowledged (fst p) = l ∧ (dp_ok (snd p) ∧ dp_holds s (snd p)))).
    { eapply triple_weaken; [apply (triple_adapter _ _ _ _ (λ c, acknowledged c = l) (apply_law s Hs))|
        done|done|apply Hsame]. }
    intros r. eapply triple_bind.
    { eapply triple_weaken; [apply (triple_control_plane _ _ (λ _ c, acknowledged c = a :: l)
        (λ c, acknowledged c = l ∨ acknowledged c = a :: l) (λ w, dp_ok w ∧ dp_holds s w)
        (acknowledge_law l a))|done|by intros ???|].
      intros e p [Hc [Ho Hh]]. split; [done|]. destruct Hc; [by left|right]. by exists s, a. }
    intros []. apply triple_mret. intros p [Hc [Ho Hh]]. split; [done|]. by exists s, a.
  - apply triple_if; intros _.
    + eapply triple_bind; [eapply triple_weaken; [apply (optional_call_ok _ s l)|done|by intros ???|apply Hsame]|].
      { intros f Hf. by apply enforce_law. }
      intros []. apply triple_mret. by intros p [].
    + eapply triple_bind; [eapply triple_weaken; [apply (optional_call_ok _ s l)|done|by intros ???|apply Hsame]|].
      { intros f Hf. eapply triple_weaken; [by apply reconcile_law|done|by intros ?? []|done]. }
      intros []. apply triple_mret. by intros p [].
Qed.

(** A cycle acknowledges only what is durably applied.  It acknowledges
    at most one command; when it returns [Acknowledged] the adapter holds the
    snapshot the command came with; when it fails after the apply, or returns
    anything else, no other acknowledgement is sent; the adapter's invariant
    is kept throughout. *)
Theorem cycle_acknowledges_only_applied c w :
  dp_ok w →
  match runCycle (c, w) with
  | (Ok Acknowledged, (c', w')) =>
      dp_ok w' ∧ ∃ snapshot a, sn_pendingAcknowledgement snapshot = Some a ∧
        dp_holds snapshot w' ∧ acknowledged c' = a :: acknowledged c
  | (Ok _, (c', w')) => dp_ok w' ∧ acknowledged c' = acknowledged c
  | (Throw _, (c', w')) =>
      dp_ok w' ∧ (acknowledged c' = acknowledged c ∨
        ∃ snapshot a, sn_pendingAcknowledgement snapshot = Some a ∧
          dp_holds snapshot w' ∧ acknowledged c' = a :: acknowledged c)
  end.
Proof.
  intros Hw. pose proof (runCycle_spec (acknowledged c) (c, w) (conj eq_refl Hw)) as Ht.
  destruct (runCycle (c, w)) as [[o|e] [c' w']]; [destruct o|]; exact Ht.
Qed.
End runner.

(** ** The local Xray adapter as the data plane *)

Section local_xray.
Context `{LocaleCompare} `{DateStrings}.
Context {R RE : Type} `{!XrayConfigRuntime R RE} `{!XrayConfigRuntimeLaws R RE}.
Context (is_uuid is_datetime : string → bool) (sha256 : json → string).
Context (fault : FsOp → nat → option FsError) (win32 : bool) (dirname : string → string).
Context (clock : nat → Z) (clockTrust : option (nat → option ClockOutcome)) (statePath : string).
Context (no_spurious_ENOENT : ∀ op t, fault op t ≠ Some ENOENT).
Context (clock_is_time : ∀ n, time_value (clock n)).
Context (sha256_hex : ∀ j, is_sha256_hex (sha256 j)).
Context (iso_is_datetime : ∀ n, is_datetime (toISOString (clock n))).

Notation xray_apply := (applySnapshot is_uuid is_datetime sha256 fault win32 dirname clock clockTrust statePath).
Notation xray_enforce := (enforceSnapshotSecurity is_uuid is_datetime sha256 fault win32 dirname clock clockTrust statePath).

Definition local_xray_adapter : NodeAgentDataPlaneAdapter (World (R:=R)) (AdapterError RE) :=
  {| dp_apply := xray_apply;
     dp_reconcileConfirmedSnapshot := Some xray_apply;
     dp_enforceSnapshotSecurity := Some xray_enforce |}.

Definition local_xray_laws : @DataPlaneLaws _ _ local_xray_adapter.
Proof.
  unshelve refine (@Build_DataPlaneLaws _ _ local_xray_adapter
    (λ w, closed_ok (core w)) (snapshot_wf is_uuid is_datetime)
    (λ s w, holds_snapshot is_uuid is_datetime sha256 statePath s (fs_files (w_fs w))) _ _ _).
  all: assert (Happly : ∀ s, snapshot_wf is_uuid is_datetime s →
    triple (λ w, closed_ok (core w)) (xray_apply s)
      (λ _ w, closed_ok (core w) ∧ holds_snapshot is_uuid is_datetime sha256 statePath s (fs_files (w_fs w)))
      (λ _ w, closed_ok (core w))).
  1, 3, 5: intros s Hs w Hw;
    pose proof (ctriple_run _ _ _ _ w (applySnapshot_spec is_uuid is_datetime sha256 fault win32 dirname clock
      clockTrust statePath _ no_spurious_ENOENT clock_is_time s (core w) Hw) eq_refl) as H1;
    destruct (xray_apply s w) as [[r|e] w'];
    [ destruct H1 as (n & [_ Hc] & _ & _ & Ha); split;
      [ unfold closed_ok; by rewrite Hc | by eapply applied_holds ]
    | by destruct H1 as [_ [Ho _]] ].
  - exact Happly.
  - intros s f Hs [= <-]. by apply Happly.
  - intros s f [= <-] w Hw.
    pose proof (ctriple_run _ _ _ _ w (enforce_spec is_uuid is_datetime sha256 fault win32 dirname clock
      clockTrust statePath _ no_spurious_ENOENT s (core w) Hw) eq_refl) as H1.
    destruct (xray_enforce s w) as [[[]|e] w']; by destruct H1 as [(_ & Ho & _) _].
Defined.
End local_xray.

(** ** The simulation adapter *)

Module Simulation.
Inductive SimulationError :=
| SimulationDowngrade | SimulationCollision | InvalidState | InvalidTime | SimulationFile (e : FsError).

Section simulation.
Context `{DateStrings}.
Context (is_uuid is_datetime : string → bool) (sha256 : json → string).
Context (fault : FsOp → nat → option FsError) (win32 : bool) (dirname : string → string).
Context (clock : nat → Z) (statePath : string).

Record SimulationState := { sim_fs : FileSystem; sim_ticks : nat }.
Notation SM := (M SimulationState SimulationError).

Definition sim_files {A} (m : M FileSystem FsError A) : SM A := λ w,
  match m (sim_fs w) with
  | (Ok a, fs) => (Ok a, {| sim_fs := fs; sim_ticks := sim_ticks w |})
  | (Throw e, fs) => (Throw (SimulationFile e), {| sim_fs := fs; sim_ticks := sim_ticks w |})
  end.
Definition new_Date : SM Z := λ w,
  (Ok (clock (sim_ticks w)), {| sim_fs := sim_fs w; sim_ticks := S (sim_ticks w) |}).

(** Only a missing file is no state; a state that does not parse throws. *)
Definition readState : SM (option StateEnvelope) :=
  try_catch
    (raw ← sim_files (fs_read fault statePath);
     match (raw : Contents) with
     | Document j => match stateEnvelopeSchema is_uuid is_datetime j with
                     | Some envelope => mret (Some envelope)
                     | None => throw InvalidState
                     end
     | NotJson => throw InvalidState
     end)
    (λ e, match e with SimulationFile ENOENT => mret None | _ => throw e end).

Definition confirm_state : SM unit := sim_files (confirmDurability fault win32 dirname statePath).
Definition writeDurably (state : StateEnvelope) : SM unit :=
  sim_files (writeJsonDurably fault win32 dirname statePath (encode_envelope state)).

Definition next_state (snapshot : NodeAgentConfigurationSnapshot) (t : Z)
    (current : option PersistedState) : StateEnvelope :=
  {| env_current := {| ps_version := sn_desiredConfigVersion snapshot;
                       ps_snapshotHash := hashNodeAgentSnapshot sha256 snapshot;
                       ps_appliedAt := toISOString t; ps_snapshot := snapshot |};
     env_previous := current |}.

Definition store_next (snapshot : NodeAgentConfigurationSnapshot) (current : option PersistedState)
    : SM ApplyResult :=
  t ← new_Date;
  (if time_value t then mret tt else throw InvalidTime);;
  writeDurably (next_state snapshot t current);;
  mret Applied.

Definition apply (snapshot : NodeAgentConfigurationSnapshot) : SM ApplyResult :=
  let snapshotHash := hashNodeAgentSnapshot sha256 snapshot in
  envelope ← readState;
  match (env_current <$> (envelope : option StateEnvelope)) with
  | Some current =>
      throw_if (sn_desiredConfigVersion snapshot <? ps_version current) SimulationDowngrade;;
      if ps_version current =? sn_desiredConfigVersion snapshot
      then throw_if (negb (bool_decide (ps_snapshotHash current = snapshotHash))) SimulationCollision;;
           confirm_state;;
           mret AlreadyApplied
      else store_next snapshot (Some current)
  | None => store_next snapshot None
  end.

(** *** What is stored *)

Definition sim_stored (F : gmap string Contents) : option StateEnvelope :=
  match F !! statePath with
  | Some (Document j) => stateEnvelopeSchema is_uuid is_datetime j
  | _ => None
  end.
Definition sim_holds (s : NodeAgentConfigurationSnapshot) (F : gmap string Contents) : Prop :=
  ∃ e, sim_stored F = Some e ∧ ps_version (env_current e) = sn_desiredConfigVersion s ∧
       ps_snapshotHash (env_current e) = hashNodeAgentSnapshot sha256 s.
(** A stored state is never replaced by an older one or lost. *)
Definition not_older (F F' : gmap string Contents) : Prop :=
  ∀ e, sim_stored F = Some e →
    ∃ e', sim_stored F' = Some e' ∧ ps_version (env_current e) ≤ ps_version (env_current e').

Context (no_spurious_ENOENT : ∀ op t, fault op t ≠ Some ENOENT).
Context (sha256_hex : ∀ j, is_sha256_hex (sha256 j)).
Context (iso_is_datetime : ∀ n, is_datetime (toISOString (clock n))).

Lemma triple_sim_files {A} (m : M FileSystem FsError A) P (Q : A → gmap string Contents → Prop) X :
  triple (λ fs, P (fs_files fs)) m (λ a fs, Q a (fs_files fs)) (λ _ fs, X (fs_files fs)) →
  triple (λ w, P (fs_files (sim_fs w))) (sim_files m)
    (λ a w, Q a (fs_files (sim_fs w))) (λ _ w, X (fs_files (sim_fs w))).
Proof.
  intros Hm w HP. specialize (Hm (sim_fs w) HP). unfold sim_files.
  by destruct (m (sim_fs w)) as [[a|e] fs].
Qed.

Lemma sim_readState_spec F :
  triple (λ w, fs_files (sim_fs w) = F) readState
    (λ o w, fs_files (sim_fs w) = F ∧
            match o with Some e => sim_stored F = Some e | None => F !! statePath = None end)
    (λ _ w, fs_files (sim_fs w) = F).
Proof.
  intros w Hw. unfold readState, try_catch, sim_files, fs_read, fs_operation, mbind, M_bind.
  destruct (fault OpRead (fs_tick (sim_fs w))) as [e|] eqn:He; simpl.
  - destruct e; try exact Hw. by apply no_spurious_ENOENT in He.
  - unfold sim_stored. rewrite Hw. destruct (F !! statePath) as [[j|]|] eqn:Hs; simpl; try (by auto).
    destruct (stateEnvelopeSchema is_uuid is_datetime j) as [e|] eqn:Hj; simpl; auto.
Qed.

Lemma store_next_spec F snapshot current :
  snapshot_wf is_uuid is_datetime snapshot →
  (∀ c, current = Some c → persisted_wf is_uuid is_datetime c) →
  (∀ e, sim_stored F = Some e → ps_version (env_current e) ≤ sn_desiredConfigVersion snapshot) →
  triple (λ w, fs_files (sim_fs w) = F) (store_next snapshot current)
    (λ _ w, sim_holds snapshot (fs_files (sim_fs w)) ∧ not_older F (fs_files (sim_fs w)))
    (λ _ w, not_older F (fs_files (sim_fs w))).
Proof.
  intros Hwf Hcur Hle.
  assert (Hsame : ∀ F', F' !! statePath = F !! statePath → not_older F F').
  { intros F' HF e He. exists e. unfold sim_stored in *. by rewrite HF. }
  unfold store_next. eapply (triple_bind _ _ _ (λ t w, fs_files (sim_fs w) = F ∧ ∃ n, t = clock n)).
  { intros w Hw. split; [done|by eexists]. }
  intros t. apply triple_pure. intros [n ->].
  eapply (triple_bind _ _ _ (λ _ w, fs_files (sim_fs w) = F)).
  { destruct (time_value (clock n)); [by apply triple_mret|]. apply triple_throw. intros w <-. by apply Hsame. }
  intros [].
  set (env := next_state snapshot (clock n) current).
  assert (Hdec : ∀ F', F' !! statePath = Some (Document (encode_envelope env)) → sim_stored F' = Some env).
  { intros F' HF. unfold sim_stored. rewrite HF. apply envelope_encode. split; simpl; [|exact Hcur].
    split_and!; simpl; [apply Hwf|apply sha256_hex|apply iso_is_datetime|done]. }
  assert (Hnew : ∀ F', F' !! statePath = Some (Document (encode_envelope env)) → not_older F F').
  { intros F' HF e He. exists env. split; [by apply Hdec|]. simpl. by apply Hle. }
  eapply (triple_bind _ _ _ (λ _ w, fs_files (sim_fs w) !! statePath = Some (Document (encode_envelope env)))).
  { eapply triple_weaken; [apply (triple_sim_files _ (λ f, kept statePath F f)
      (λ _ f, replaced statePath (encode_envelope env) F f)
      (λ f, kept_or_replaced statePath (encode_envelope env) F f)), writeJsonDurably_spec|..].
    - intros w <-. done.
    - by intros ? w [Hs _].
    - intros _ w [Hk|[Hs _]]; [apply Hsame, Hk, not_eq_sym, temporary_path_ne|by apply Hnew]. }
  intros ?. apply triple_mret. intros w Hs. split; [|by apply Hnew].
  exists env. split; [by apply Hdec|done].
Qed.

Lemma sim_apply_spec F snapshot :
  snapshot_wf is_uuid is_datetime snapshot →
  triple (λ w, fs_files (sim_fs w) = F) (apply snapshot)
    (λ _ w, sim_holds snapshot (fs_files (sim_fs w)) ∧ not_older F (fs_files (sim_fs w)))
    (λ _ w, not_older F (fs_files (sim_fs w))).
Proof.
  intros Hwf.
  assert (Hsame : ∀ w, fs_files (sim_fs w) = F → not_older F (fs_files (sim_fs w)))
    by (intros w -> e He; by exists e).
  unfold apply. eapply triple_bind.
  { eapply triple_weaken; [apply (sim_readState_spec F)|done|by intros ???|intros ? w; apply Hsame]. }
  intros o. apply triple_pure. intros Ho. destruct o as [e|]; simpl.
  - assert (He : envelope_wf is_uuid is_datetime e).
    { unfold sim_stored in Ho. destruct (F !! statePath) as [[j|]|]; try done. by eapply envelope_sound. }
    eapply (triple_bind _ _ _ (λ _ w, fs_files (sim_fs w) = F ∧
      ps_version (env_current e) ≤ sn_desiredConfigVersion snapshot)).
    { unfold throw_if. apply triple_if; intros Hlt.
      - apply triple_throw. apply Hsame.
      - apply triple_ret. intros w Hw. split; [done|]. by apply Z.ltb_ge. }
    intros []. apply triple_pure. intros Hle. apply triple_if; intros Hv.
    + eapply (triple_bind _ _ _ (λ _ w, fs_files (sim_fs w) = F ∧
        ps_snapshotHash (env_current e) = hashNodeAgentSnapshot sha256 snapshot)).
      { unfold throw_if. case_bool_decide as Hh; simpl; [by apply triple_ret|].
        apply triple_throw. apply Hsame. }
      intros []. apply triple_pure. intros Hh.
      eapply (triple_bind _ _ _ (λ _ w, fs_files (sim_fs w) = F)).
      { eapply triple_weaken; [apply (triple_sim_files _ (λ f, f = F) (λ _ f, f = F) (λ f, f = F))|done|done|
          intros ? w; apply Hsame].
        eapply triple_weaken; [apply (triple_leaves _ (λ f, f = F)), leaves_confirmDurability|done..]. }
      intros []. apply triple_mret. intros w Hw. split; [|by apply Hsame].
      exists e. rewrite Hw. split_and!; [done|by apply Z.eqb_eq|done].
    + apply store_next_spec; [done| |].
      * intros c [= <-]. by destruct He.
      * intros e' He'. rewrite Ho in He'. by injection He' as <-.
  - apply store_next_spec; [done|done|]. intros e He. unfold sim_stored in He. by rewrite Ho in He.
Qed.

(** The simulation adapter has no optional methods. *)
Definition simulation_adapter : NodeAgentDataPlaneAdapter SimulationState SimulationError :=
  {| dp_apply := apply; dp_reconcileConfirmedSnapshot := None; dp_enforceSnapshotSecurity := None |}.
Definition simulation_laws : @DataPlaneLaws _ _ simulation_adapter.
Proof.
  refine (@Build_DataPlaneLaws _ _ simulation_adapter (λ _, True) (snapshot_wf is_uuid is_datetime)
    (λ s w, sim_holds s (fs_files (sim_fs w))) _ _ _); [|done|done].
  intros s Hs w _. pose proof (sim_apply_spec (fs_files (sim_fs w)) s Hs w eq_refl) as H1.
  simpl. destruct (apply s w) as [[r|e] w']; [split; [done|apply H1]|done].
Defined.
End simulation.
End Simulation.
