(* ===== verification/ClockTrust.v ===== *)
(** * Whether the node's clock can be trusted: [apps/node-agent/src/clock-trust.ts]

    The assessment of chrony's tracking report and of a failure to get one.
    JavaScript numbers are exact rationals here, finite when they round to a
    finite double; the one sum the code computes is not rounded.  Running
    chronyc is a parameter. *)

From Stdlib Require Import QArith Qabs Ascii.
From S2P Require Import Prelude.
From S2P Require Import XrayRuntime.
From S2P Require Import LocalXrayAdapter.
Open Scope Z_scope.

Definition CLOCK_TRUST_THRESHOLD_MS : Q := 30000#1.
Definition CHRONYC_TRACKING_CSV_FIELD_COUNT : nat := 14.
Definition CHRONYC_CSV_REFERENCE_ID_INDEX : nat := 0.
Definition CHRONYC_CSV_SYSTEM_TIME_INDEX : nat := 4.
Definition CHRONYC_CSV_ROOT_DELAY_INDEX : nat := 10.
Definition CHRONYC_CSV_ROOT_DISPERSION_INDEX : nat := 11.
Definition CHRONYC_CSV_LEAP_STATUS_INDEX : nat := 13.
Definition CHRONY_LOCAL_REFERENCE_ID : string := "7F7F0101".
Definition CHRONYC_SYNCHRONIZED_LEAP_STATES : list string :=
  ["Normal"; "Insert second"; "Delete second"]%string.

Inductive ClockTrustReason :=
| REASON_TRUSTED | THRESHOLD_EXCEEDED | UNSYNCHRONIZED | LOCAL_REFERENCE | MISSING_EXECUTABLE
| TIMED_OUT | NON_ZERO_EXIT | MALFORMED_OUTPUT | INVALID_UNCERTAINTY | PROBE_FAILED.
#[export] Instance ClockTrustReason_eq_dec : EqDecision ClockTrustReason.
Proof. solve_decision. Defined.

Record ClockTrustAssessment := {
  ca_synchronized : bool;
  ca_estimatedAbsoluteErrorMs : option Q;
  ca_outcome : ClockOutcome;
  ca_reason : ClockTrustReason;
}.

Definition untrustedClock (reason : ClockTrustReason) (synchronized : option bool)
    (estimatedAbsoluteErrorMs : option Q) : ClockTrustAssessment :=
  {| ca_synchronized := default false synchronized;
     ca_estimatedAbsoluteErrorMs := estimatedAbsoluteErrorMs;
     ca_outcome := Untrusted; ca_reason := reason |}.

(** ** Numbers *)

Definition digit (c : ascii) : option Z :=
  let n := Z.of_nat (nat_of_ascii c) in
  if (48 <=? n) && (n <=? 57) then Some (n - 48) else None.

(** The longest prefix of digits, as a number and its length. *)
Fixpoint digits (l : list ascii) (value : Z) (count : nat) : Z * nat * list ascii :=
  match l with
  | c :: l' => match digit c with
               | Some d => digits l' (10 * value + d) (S count)
               | None => (value, count, l)
               end
  | [] => (value, count, [])
  end.
Definition sign (l : list ascii) : Z * list ascii :=
  match l with
  | c :: l' => if Ascii.eqb c "+"%char then (1, l')
               else if Ascii.eqb c "-"%char then (-1, l') else (1, l)
  | [] => (1, [])
  end.
(** The exponent, [0] without one; [None] when the rest is not an exponent. *)
Definition exponent (l : list ascii) : option Z :=
  match l with
  | [] => Some 0
  | c :: l' =>
      if Ascii.eqb c "e"%char || Ascii.eqb c "E"%char then
        let '(s, l'') := sign l' in
        let '(v, n, rest) := digits l'' 0 0 in
        match n, rest with S _, [] => Some (s * v) | _, _ => None end
      else None
  end.

(** The decimal numbers [parseSeconds] accepts (a sign, digits with an optional
    fraction or a fraction alone, an exponent), and their value [Number(...)]. *)
Definition decimal (l : list ascii) : option Q :=
  let '(s, l1) := sign l in
  let '(whole, n, l2) := digits l1 0 0 in
  let '(mantissa, fraction, l3) :=
    match l2 with
    | c :: l2' => if Ascii.eqb c "."%char then digits l2' whole 0 else (whole, 0%nat, l2)
    | [] => (whole, 0%nat, l2)
    end in
  if (n + fraction =? 0)%nat then None
  else e ← exponent l3;
       Some ((s * mantissa # 1) * Qpower (10#1) (e - Z.of_nat fraction))%Q.

(** Numbers from 2^1024 - 2^970 on round to Infinity. *)
Definition is_finite (q : Q) : bool := negb (Qle_bool (2 ^ 1024 - 2 ^ 970 # 1) (Qabs q)).

Definition trim_ascii (l : list ascii) : list ascii := rev (trim_start (rev (trim_start l))).

Definition parseSeconds (raw : list ascii) : option Q :=
  value ← decimal (trim_ascii raw);
  guard (is_finite value);;
  Some value.

(** ** The report *)

Definition is_char (n : nat) (c : ascii) : bool := (nat_of_ascii c =? n)%nat.
(** [replace(/\r\n/g, '\n').replace(/\r/g, '\n')] *)
Fixpoint normalize_newlines (l : list ascii) : list ascii :=
  match l with
  | [] => []
  | c :: l' =>
      if is_char 13 c then
        match l' with
        | c' :: l'' => if is_char 10 c' then c' :: normalize_newlines l''
                       else ascii_of_nat 10 :: normalize_newlines l'
        | [] => [ascii_of_nat 10]
        end
      else c :: normalize_newlines l'
  end.
Fixpoint split_commas (l : list ascii) : list (list ascii) :=
  match l with
  | [] => [[]]
  | c :: l' => match split_commas l' with
               | [] => [[c]]
               | f :: fs => if is_char 44 c then [] :: f :: fs else (c :: f) :: fs
               end
  end.

Definition to_upper (c : ascii) : ascii :=
  let n := nat_of_ascii c in
  if ((97 <=? n) && (n <=? 122))%nat then ascii_of_nat (n - 32) else c.
Definition isChronyLocalReferenceId (raw : list ascii) : bool :=
  bool_decide (String.string_of_list_ascii (map to_upper (trim_ascii raw)) = CHRONY_LOCAL_REFERENCE_ID).

Definition field_at (fields : list (list ascii)) (i : nat) : list ascii := nth i fields [].

Definition estimated_error (offset dispersion delay : Q) : Q :=
  ((Qabs offset + dispersion + (1#2) * delay) * (1000#1))%Q.

Definition negative (q : Q) : bool := negb (Qle_bool 0 q).

Definition evaluate_fields (fields : list (list ascii)) : ClockTrustAssessment :=
  let leapStatus := String.string_of_list_ascii (field_at fields CHRONYC_CSV_LEAP_STATUS_INDEX) in
  match parseSeconds (field_at fields CHRONYC_CSV_SYSTEM_TIME_INDEX),
        parseSeconds (field_at fields CHRONYC_CSV_ROOT_DELAY_INDEX),
        parseSeconds (field_at fields CHRONYC_CSV_ROOT_DISPERSION_INDEX) with
  | Some systemTimeOffsetSeconds, Some rootDelaySeconds, Some rootDispersionSeconds =>
      if negative rootDelaySeconds || negative rootDispersionSeconds
      then untrustedClock INVALID_UNCERTAINTY None None
      else
        let estimated := estimated_error systemTimeOffsetSeconds rootDispersionSeconds rootDelaySeconds in
        if negb (is_finite estimated) || negative estimated
        then untrustedClock INVALID_UNCERTAINTY None None
        else
          let synchronized := bool_decide (leapStatus ∈ CHRONYC_SYNCHRONIZED_LEAP_STATES) in
          if isChronyLocalReferenceId (field_at fields CHRONYC_CSV_REFERENCE_ID_INDEX)
          then untrustedClock LOCAL_REFERENCE (Some synchronized) (Some estimated)
          else if negb synchronized
          then untrustedClock UNSYNCHRONIZED (Some false) (Some estimated)
          else if negb (Qle_bool estimated CLOCK_TRUST_THRESHOLD_MS)
          then {| ca_synchronized := true; ca_estimatedAbsoluteErrorMs := Some estimated;
                  ca_outcome := Untrusted; ca_reason := THRESHOLD_EXCEEDED |}
          else {| ca_synchronized := true; ca_estimatedAbsoluteErrorMs := Some estimated;
                  ca_outcome := Trusted; ca_reason := REASON_TRUSTED |}
  | _, _, _ => untrustedClock INVALID_UNCERTAINTY None None
  end.

Definition evaluateChronyTrackingCsv (stdout : list ascii) : ClockTrustAssessment :=
  let line := trim_ascii (normalize_newlines stdout) in
  if bool_decide (line = []) || existsb (is_char 10) line
  then untrustedClock MALFORMED_OUTPUT None None
  else
    let fields := split_commas line in
    if negb (length fields =? CHRONYC_TRACKING_CSV_FIELD_COUNT)%nat
    then untrustedClock MALFORMED_OUTPUT None None
    else evaluate_fields fields.

(** ** The probe *)

Inductive FailureCode := CodeText (s : string) | CodeNumber (z : Z).
#[export] Instance FailureCode_eq_dec : EqDecision FailureCode.
Proof. solve_decision. Defined.
(** What execFile rejects with; [pf_signal] is the name of the signal. *)
Record ChronyProbeFailure := {
  pf_instanceof_Error : bool;
  pf_killed : bool;
  pf_signal : option string;
  pf_code : option FailureCode;
  pf_status : option Z;
}.

Definition classifyChronyExecutionFailure (f : ChronyProbeFailure) : ClockTrustReason :=
  if negb (pf_instanceof_Error f) then PROBE_FAILED
  else if pf_killed f || bool_decide (pf_signal f = Some "SIGTERM"%string)
          || bool_decide (pf_signal f = Some "SIGKILL"%string)
          || bool_decide (pf_code f = Some (CodeText "ETIMEDOUT")) then TIMED_OUT
  else if bool_decide (pf_code f = Some (CodeText "ENOENT")) then MISSING_EXECUTABLE
  else if bool_decide (pf_code f = Some (CodeText "ERR_CHILD_PROCESS_STDIO_MAXBUFFER")) then MALFORMED_OUTPUT
  else if match pf_status f with Some z => negb (z =? 0) | None => false end then NON_ZERO_EXIT
  else if match pf_code f with Some (CodeNumber z) => negb (z =? 0) | _ => false end then NON_ZERO_EXIT
  else PROBE_FAILED.

Record ChronyCommandResult := { cr_status : Z; cr_stdout : list ascii }.

(** [ChronyClockTrustProbe.assess] on what the command gave. *)
Definition assess (result : outcome ChronyProbeFailure ChronyCommandResult) : ClockTrustAssessment :=
  match result with
  | Throw error => untrustedClock (classifyChronyExecutionFailure error) None None
  | Ok r => if negb (cr_status r =? 0) then untrustedClock NON_ZERO_EXIT None None
            else evaluateChronyTrackingCsv (cr_stdout r)
  end.

(** The probe the adapter gets: it never throws. *)
Definition chrony_probe (command : nat → outcome ChronyProbeFailure ChronyCommandResult)
    : nat → option ClockOutcome := λ n, Some (ca_outcome (assess (command n))).

(** ** Properties *)

Lemma negative_false q : negative q = false ↔ (0 <= q)%Q.
Proof. unfold negative. rewrite negb_false_iff. apply Qle_bool_iff. Qed.

(** A nonnegative report gives a nonnegative error. *)
Lemma estimated_error_nonneg offset dispersion delay :
  (0 <= dispersion)%Q → (0 <= delay)%Q → (0 <= estimated_error offset dispersion delay)%Q.
Proof.
  intros Hd Hl. unfold estimated_error. pose proof (Qabs_nonneg offset).
  apply Qmult_le_0_compat; [|easy].
  assert (0 <= (1#2) * delay)%Q by (by apply Qmult_le_0_compat).
  rewrite <- (Qplus_0_l 0). apply Qplus_le_compat; [|done].
  rewrite <- (Qplus_0_l 0). by apply Qplus_le_compat.
Qed.

(** The conditions under which a clock is trusted. *)
Definition trustworthy_report (stdout : list ascii) : Prop :=
  let line := trim_ascii (normalize_newlines stdout) in
  let fields := split_commas line in
  line ≠ [] ∧ existsb (is_char 10) line = false ∧ length fields = 14%nat ∧
  ∃ offset delay dispersion,
    parseSeconds (field_at fields 4) = Some offset ∧
    parseSeconds (field_at fields 10) = Some delay ∧ (0 <= delay)%Q ∧
    parseSeconds (field_at fields 11) = Some dispersion ∧ (0 <= dispersion)%Q ∧
    (estimated_error offset dispersion delay <= 30000#1)%Q ∧
    isChronyLocalReferenceId (field_at fields 0) = false ∧
    String.string_of_list_ascii (field_at fields 13) ∈ ["Normal"; "Insert second"; "Delete second"]%string.

Lemma evaluate_fields_trusted fields :
  ca_outcome (evaluate_fields fields) = Trusted ↔
  ∃ offset delay dispersion,
    parseSeconds (field_at fields 4) = Some offset ∧
    parseSeconds (field_at fields 10) = Some delay ∧ (0 <= delay)%Q ∧
    parseSeconds (field_at fields 11) = Some dispersion ∧ (0 <= dispersion)%Q ∧
    (estimated_error offset dispersion delay <= 30000#1)%Q ∧
    isChronyLocalReferenceId (field_at fields 0) = false ∧
    String.string_of_list_ascii (field_at fields 13) ∈ ["Normal"; "Insert second"; "Delete second"]%string.
Proof.
  unfold evaluate_fields, CHRONYC_CSV_SYSTEM_TIME_INDEX, CHRONYC_CSV_ROOT_DELAY_INDEX,
    CHRONYC_CSV_ROOT_DISPERSION_INDEX, CHRONYC_CSV_REFERENCE_ID_INDEX, CHRONYC_CSV_LEAP_STATUS_INDEX.
  destruct (parseSeconds (field_at fields 4)) as [offset|]; [|split; [done|naive_solver]].
  destruct (parseSeconds (field_at fields 10)) as [delay|]; [|split; [done|naive_solver]].
  destruct (parseSeconds (field_at fields 11)) as [dispersion|]; [|split; [done|naive_solver]].
  set (est := estimated_error offset dispersion delay).
  destruct (negative delay) eqn:Hdelay; simpl.
  { split; [done|]. intros (?&?&?&_&[= <-]&Hd&_). apply negative_false in Hd. congruence. }
  destruct (negative dispersion) eqn:Hdisp; simpl.
  { split; [done|]. intros (?&?&?&_&_&_&[= <-]&Hd&_). apply negative_false in Hd. congruence. }
  apply negative_false in Hdelay, Hdisp.
  pose proof (estimated_error_nonneg offset dispersion delay Hdisp Hdelay) as Hpos. fold est in Hpos.
  rewrite (proj2 (negative_false est) Hpos), orb_false_r.
  destruct (is_finite est) eqn:Hfin; simpl.
  - destruct (isChronyLocalReferenceId (field_at fields 0)) eqn:Href; simpl.
    { split; [done|]. intros (?&?&?&_&_&_&_&_&_&?&_). done. }
    case_bool_decide as Hleap; simpl.
    2: { split; [done|]. intros (?&?&?&_&_&_&_&_&_&_&?). done. }
    destruct (Qle_bool est CLOCK_TRUST_THRESHOLD_MS) eqn:Hle; simpl.
    + split; [|done]. intros _. exists offset, delay, dispersion. apply Qle_bool_iff in Hle.
      split_and!; done.
    + split; [done|]. intros (?&?&?&[= <-]&[= <-]&_&[= <-]&_&Hx&_). apply Qle_bool_iff in Hx.
      unfold est, CLOCK_TRUST_THRESHOLD_MS in Hle. congruence.
  - split; [done|]. intros (?&?&?&[= <-]&[= <-]&_&[= <-]&_&Hx&_).
    unfold is_finite in Hfin. apply negb_false_iff, Qle_bool_iff in Hfin.
    rewrite Qabs_pos in Hfin by exact Hpos.
    assert ((2 ^ 1024 - 2 ^ 970 # 1) <= 30000#1)%Q as Habs by (eapply Qle_trans; eassumption).
    by apply Qle_bool_iff in Habs.
Qed.

(** A clock is trusted only on a full and good report: exactly when the
    command succeeded and printed one line of fourteen fields with a decimal
    offset and nonnegative decimal delay and dispersion whose error estimate
    is at most thirty seconds, the reference is not the local clock and the
    leap status is a synchronized one.  Every failure to get a report makes
    the clock untrusted, and the probe never throws. *)
Theorem clock_trusted_exact command n :
  chrony_probe command n = Some Trusted ↔
  ∃ result, command n = Ok result ∧ cr_status result = 0 ∧ trustworthy_report (cr_stdout result).
Proof.
  unfold chrony_probe, assess. destruct (command n) as [r|e]; simpl; [|naive_solver].
  destruct (Z.eqb_spec (cr_status r) 0) as [Hs|Hs]; simpl; [|naive_solver].
  unfold evaluateChronyTrackingCsv, trustworthy_report, CHRONYC_TRACKING_CSV_FIELD_COUNT.
  set (line := trim_ascii (normalize_newlines (cr_stdout r))).
  case_bool_decide as Hl; simpl; [split; [done|]; intros (?&[= <-]&_&?&_); done|].
  destruct (existsb (is_char 10) line) eqn:Hn; simpl;
    [split; [done|]; intros (?&[= <-]&_&_&Hx&_); fold line in Hx; congruence|].
  destruct (Nat.eqb_spec (length (split_commas line)) 14) as [Hf|Hf]; simpl;
    [|split; [done|]; intros (?&[= <-]&_&_&_&?&_); done].
  split.
  - intros [= He]. apply evaluate_fields_trusted in He. exists r. by split_and!.
  - intros (?&[= <-]&_&_&_&_&He). f_equal. by apply evaluate_fields_trusted.
Qed.

(** Reports of a synchronized clock, of the local clock and of one that is
    forty seconds off. *)
Example report_trusted :
  ca_outcome (evaluateChronyTrackingCsv (String.list_ascii_of_string
    "A29FC87B,162.159.200.123,3,1700000000.5,-0.000012,1e-5,0.0,1.2,-.5,0.1,0.020,1.5E-3,64.5,Normal"%string))
  = Trusted.
Proof. vm_compute. reflexivity. Qed.
Example report_local :
  ca_reason (evaluateChronyTrackingCsv (String.list_ascii_of_string
    "7f7f0101,,10,1700000000.5,0.0,0.0,0.0,1.2,0.5,0.1,0.020,0.0015,64.5,Normal"%string))
  = LOCAL_REFERENCE.
Proof. vm_compute. reflexivity. Qed.
Example report_off :
  ca_reason (evaluateChronyTrackingCsv (String.list_ascii_of_string
    "A29FC87B,162.159.200.123,3,1700000000.5,-40.0,0.0,0.0,1.2,0.5,0.1,0.020,0.0015,64.5,Normal"%string))
  = THRESHOLD_EXCEEDED.
Proof. vm_compute. reflexivity. Qed.
