(* ===== verification/EndToEnd.v ===== *)
(** * From the control plane to the served clients

    The composition of the API with the node agent: the snapshot the API
    delivers meets the contract the agent reads it by, and what the agent
    serves after applying it are exactly the rows of the database that give
    access. *)

From S2P Require Import Prelude.
From S2P Require Import Text.
From S2P Require Import Json.
From S2P Require Import Sql.
From S2P Require OutboxStore.
From S2P Require NodeSyncStore.
From S2P Require Import NodeAgentContract.
From S2P Require Import XrayAccess.
From S2P Require Import ControlPlane.
From S2P Require Import DataPlaneCredential.
From S2P Require Import AccessPolicy.
From S2P Require Import ControlPlaneInvariant.
From S2P Require Import Orchestration.
From S2P Require Import OrchestrationSafety.
From S2P Require Import NodeAgentApi.
From S2P Require Import NodeAgentApiSafety.
From S2P Require Import ControlPlaneSystem.
From S2P Require Import DurableFiles.
From S2P Require Import AgentState.
From S2P Require Import XrayRuntime.
From S2P Require Import LocalXrayAdapter.
Open Scope Z_scope.

(** What the column types and the CHECK constraints of the material tables say
    (schema.prisma and its migrations): UUID keys (the database draws version
    4), INTEGER values, instants a JavaScript Date can hold, texts by
    [char_length], which counts characters; the CHECKs on hosts and server names
    allow ASCII characters only. *)
Definition char_length_between (lo hi : nat) (s : string) : Prop := (lo ≤ codePointLength s ≤ hi)%nat.
Definition ascii_text (s : string) : bool := string_forall (λ a, byte_of a <? 128)%nat s.

Record columns_typed (is_uuid : string → bool) (db : Db) : Prop := {
  ct_nodes : map_Forall (λ _ n, int4 (n_desiredConfigVersion n) = true) (db_nodes db);
  ct_grants : map_Forall (λ id g, is_uuid id ∧ time_value (gr_expiresAt g) ∧
    ∀ t, gr_revokedAt g = Some t → time_value t) (db_grants db);
  ct_jobs : map_Forall (λ id _, is_uuid id) (db_jobs db);
  ct_endpoints : map_Forall (λ id e, is_uuid id ∧ char_length_between 1 253 (en_host e) ∧
    ascii_text (en_host e) ∧ 1 ≤ en_port e ≤ 65535 ∧ version_ok 0 (en_priority e)) (db_endpoints db);
  ct_profiles : map_Forall (λ id p, is_uuid id ∧ is_uuid (cp_profileKey p) ∧
    version_ok 1 (cp_version p) ∧ version_ok 0 (cp_priority p)) (db_profiles db);
  ct_configs : map_Forall (λ _ c, char_length_between 1 253 (pc_tlsServerName c) ∧
    ascii_text (pc_tlsServerName c) ∧ char_length_between 1 128 (pc_displayName c)) (db_publicConfigs db);
}.

(** The years 0000 to 9999, which [toISOString] prints with four digits; it
    prints the others with a sign and six, which [z.datetime] refuses. *)
Definition four_digit_year (t : Z) : bool :=
  (-62167219200000 <=? t) && (t <? 253402300800000).

Lemma ascii_length s : ascii_text s → utf16_length s = codePointLength s.
Proof.
  unfold ascii_text. induction s as [|a s IH]; [done|]. cbn [string_forall utf16_length codePointLength].
  rewrite andb_True. intros [Ha%Is_true_true%Nat.ltb_lt Hs]. rewrite IH by done.
  replace (240 <=? byte_of a)%nat with false by (symmetry; apply Nat.leb_gt; lia). by destruct (continues a).
Qed.
Lemma code_points_units s : (codePointLength s ≤ utf16_length s)%nat.
Proof.
  induction s as [|a s IH]; [done|]. cbn [utf16_length codePointLength].
  destruct (continues a); [done|]. destruct (240 <=? byte_of a)%nat; lia.
Qed.
Lemma ascii_text_wf n s : char_length_between 1 n s → ascii_text s → text_wf n s.
Proof. unfold char_length_between, text_wf. intros H ->%ascii_length. done. Qed.

(** What the agent's contract asks beyond what the columns allow: the names of
    the delivered routes in UTF-16 units, the instants of the node's grants
    within four-digit years. *)
Definition fits_contract (db : Db) (nodeId : string) (sn : NodeAgentConfigurationSnapshot) : Prop :=
  (∀ id g, db_grants db !! id = Some g → gr_nodeId g = nodeId →
     four_digit_year (gr_expiresAt g) ∧ ∀ t, gr_revokedAt g = Some t → four_digit_year t) ∧
  Forall (λ route, (utf16_length (pc_displayName (rt_publicConfig route)) ≤ 128)%nat) (sn_routes sn).

Section delivery.
Context (hmac_sha256 : string → string → list Z) {Hmac : HmacSha256 hmac_sha256}.
Context (is_uuid is_datetime : string → bool) (sha256 : json → string) `{DateStrings}.
Context (environment : ApiEnvironment).
(** SHA-256 prints as 64 hexadecimal digits, Zod accepts a version 4 UUID as a
    UUID, and the ISO text of an instant as a datetime exactly within the years
    0000 to 9999. *)
Context (sha256_hex : ∀ j, is_sha256_hex (sha256 j)).
Context (v4_is_uuid : ∀ s, is_uuid_v4 s = true → is_uuid s).
Context (iso_is_datetime : ∀ t, time_value t → is_datetime (toISOString t) = four_digit_year t).

Lemma derived_is_v4 binding c :
  derive hmac_sha256 environment binding = Some c → is_uuid_v4 c = true.
Proof using Hmac.
  unfold derive, pepper, deriveDataPlaneCredential. intros Hc. option_invert Hc.
  injection Hc as <-. unfold hmac in *. case_bool_decide; simplify_eq.
  apply format_uuid_v4; [by rewrite length_take, hmac_length|by apply Forall_take, hmac_bytes].
Qed.

Lemma int4_version lo z : lo ≤ z → int4 z = true → version_ok lo z.
Proof.
  intros Hz [_ Hm%Z.leb_le]%andb_prop. split; [done|].
  assert (2147483647 ≤ MAX_SAFE_INTEGER) by (vm_compute; discriminate). lia.
Qed.

Lemma node_versions X db nodeId n :
  Inv X db → columns_typed is_uuid db → db_nodes db !! nodeId = Some n →
  0 ≤ n_appliedConfigVersion n ≤ n_desiredConfigVersion n ∧ version_ok 0 (n_desiredConfigVersion n).
Proof.
  intros Hinv Hty Hn. pose proof (iv_nodes _ _ Hinv _ _ Hn) as Hv%node_checks_spec.
  split; [done|]. apply int4_version; [lia|]. exact (ct_nodes _ _ Hty _ _ Hn).
Qed.

Lemma grant_out_wf db nodeId now id g out n :
  Inv nothing db → columns_typed is_uuid db → db_grants db !! id = Some g →
  db_nodes db !! nodeId = Some n → gr_nodeId g = nodeId →
  snapshot_grant_exact hmac_sha256 environment nodeId now (id, g) out →
  four_digit_year (gr_expiresAt g) → (∀ t, gr_revokedAt g = Some t → four_digit_year t) →
  grant_wf is_uuid is_datetime out.
Proof using Hmac v4_is_uuid iso_is_datetime.
  intros Hinv Hty Hg Hn Hgn (E1 & _ & E3 & E4 & E5 & E6 & Hc) Hy Hyr. simpl in *.
  destruct (iv_grants _ _ Hinv _ _ Hg) as (Hck & n' & Hn' & Hle & _).
  assert (n' = n) as -> by congruence. apply grant_checks_spec in Hck as (Hv & _).
  destruct (ct_grants _ _ Hty _ _ Hg) as (Hid & Hexp & Hrev).
  destruct (node_versions _ _ _ _ Hinv Hty Hn) as [_ [_ Hmax]].
  unfold grant_wf. rewrite E1, E3, E4, E5, E6. split_and!; try done; try (split; lia); auto.
  - by rewrite iso_is_datetime.
  - intros t (r & Hr & ->)%fmap_Some. rewrite iso_is_datetime by auto. auto.
  - intros c (_ & _ & _ & Hd & _)%Hc. by eapply v4_is_uuid, derived_is_v4.
Qed.

Lemma route_out_wf db nodeId n out :
  Inv nothing db → columns_typed is_uuid db → db_nodes db !! nodeId = Some n →
  out ∈ snapshot_routes db nodeId (n_desiredConfigVersion n) →
  (utf16_length (pc_displayName (rt_publicConfig out)) ≤ 128)%nat → route_wf is_uuid out.
Proof.
  intros Hinv Hty Hn. unfold snapshot_routes. rewrite elem_of_merge_sort, list_elem_of_omap.
  intros ([[e p] r] & Hr%elem_of_map_to_list & Hout) Hname. unfold snapshot_route in Hout.
  option_invert Hout. injection Hout as <-. simpl in Hname.
  destruct (iv_routes _ _ Hinv _ _ Hr) as (n' & en & pr & _ & _ & _ & _ & _ & _ & Hact).
  destruct (Hact _ E) as (_ & Hv & _).
  destruct (node_versions _ _ _ _ Hinv Hty Hn) as [_ [_ Hmax]].
  destruct (ct_endpoints _ _ Hty _ _ E0) as (? & ? & ? & ? & ?).
  destruct (ct_profiles _ _ Hty _ _ E1) as (? & ? & ? & ?).
  destruct (ct_configs _ _ Hty _ _ E2) as (? & ? & [Hchars _]).
  unfold route_wf, endpoint_wf, profile_wf, version_ok in *. simpl.
  assert (text_wf 128 (pc_displayName x2)).
  { split; [|exact Hname]. etransitivity; [exact Hchars|apply code_points_units]. }
  assert (text_wf 253 (en_host x0)) by (by apply ascii_text_wf).
  assert (text_wf 253 (pc_tlsServerName x2)) by (by apply ascii_text_wf).
  split_and!; first [assumption | lia | naive_solver].
Qed.

(** The contract of the agent's package holds of what the API delivers exactly
    when the delivery fits it. *)
Lemma delivered_wf nodeId now db sn db1 :
  Inv nothing db → columns_typed is_uuid db →
  snapshotInTransaction hmac_sha256 sha256 environment nodeId now db = (Ok sn, db1) →
  fits_contract db nodeId sn → snapshot_wf is_uuid is_datetime sn.
Proof using Hmac v4_is_uuid iso_is_datetime sha256_hex.
  intros Hinv Hty Hsn [Hyears Hnames].
  destruct (snapshot_safe _ _ _ _ _ _ _ _ Hsn Hinv)
    as (_ & _ & n & Hn & Hdes & Happ & Hg1 & _ & Hr & Hpend).
  destruct (node_versions _ _ _ _ Hinv Hty Hn) as [Hv [? Hmax]].
  assert (Hack : ∀ a, sn_pendingAcknowledgement sn = Some a → acknowledgement_wf is_uuid a ∧
    ack_targetVersion a = n_desiredConfigVersion n ∧
    n_appliedConfigVersion n < n_desiredConfigVersion n).
  { intros a Ha. destruct (Hpend a Ha) as (Ht & Hlt & Hh & Hacc). split; [|done].
    split; [|rewrite Ht, Hh; by split; [|apply hash_spec]].
    destruct (snapshot_changes _ _ _ _ _ _ _ _ Hsn) as [f ->].
    assert (Hjob : is_Some (db_jobs db !! ack_nodeSyncJobId a)).
    { unfold acknowledgement_accepted, acknowledgeable in Hacc. destruct db. simpl in *.
      destruct (db_acks !! _) eqn:Hk in Hacc.
      - destruct (iv_acks _ _ Hinv _ _ Hk) as ((j & Hj & _) & _). eauto.
      - destruct (db_jobs !! _) eqn:Hj in Hacc; [eauto|done]. }
    destruct Hjob as [j Hj]. exact (ct_jobs _ _ Hty _ _ Hj). }
  unfold snapshot_wf. rewrite Hdes, Happ. split_and!; try done; try (split; lia).
  - lia.
  - apply Forall_forall. intros out Hout. destruct (Hg1 out Hout) as (id & g & Hg & Hgn & Hex).
    destruct (Hyears _ _ Hg Hgn). by eapply grant_out_wf.
  - rewrite Hr in *. rewrite Forall_forall in Hnames. apply Forall_forall. intros out Hout.
    by eapply route_out_wf; [..|apply Hnames].
Qed.

Lemma wf_fits nodeId now db sn db1 :
  Inv nothing db → columns_typed is_uuid db →
  snapshotInTransaction hmac_sha256 sha256 environment nodeId now db = (Ok sn, db1) →
  snapshot_wf is_uuid is_datetime sn → fits_contract db nodeId sn.
Proof using iso_is_datetime.
  intros Hinv Hty Hsn (_ & _ & _ & _ & Hgrants & Hroutes).
  destruct (snapshot_safe _ _ _ _ _ _ _ _ Hsn Hinv) as (_ & _ & n & _ & _ & _ & _ & Hg2 & _).
  rewrite Forall_forall in Hgrants. split.
  - intros id g Hg Hgn. destruct (Hg2 _ _ Hg Hgn) as (out & Hout & _ & _ & E3 & E4 & _). simpl in *.
    destruct (Hgrants out Hout) as (_ & He & _ & _ & Hrev & _).
    destruct (ct_grants _ _ Hty _ _ Hg) as (_ & Hexp & Hrevoked). rewrite E3, iso_is_datetime in He by done.
    split; [done|]. intros t Ht. rewrite <- (iso_is_datetime t) by auto. apply Hrev. by rewrite E4, Ht.
  - eapply Forall_impl; [exact Hroutes|]. by intros out (_ & _ & _ & _ & _ & Hn).
Qed.
End delivery.

(** ** What the agent serves *)

(** The grant row gives its device access to the node at both clocks: the
    API's when it delivered, the agent's when it applied. *)
Definition gives_access hmac_sha256 (environment : ApiEnvironment) (db : Db)
    (nodeId : string) (delivered applied : Z) (client : XrayServableClient) : Prop :=
  ∃ g d, db_grants db !! cl_grantId client = Some g ∧ gr_nodeId g = nodeId ∧
    gr_status g = GRANT_ACTIVE ∧ delivered < gr_expiresAt g ∧ applied < gr_expiresAt g ∧
    db_devices db !! gr_deviceId g = Some d ∧ dv_status d = DEVICE_ACTIVE ∧
    gr_dataPlaneCredentialDerivationVersion g = Some DATA_PLANE_CREDENTIAL_DERIVATION_VERSION ∧
    derive hmac_sha256 environment
      {| b_grantId := cl_grantId client; b_deviceId := gr_deviceId g; b_nodeId := nodeId |} =
      Some (cl_credential client) ∧
    verifyHash hmac_sha256 environment (cl_credential client) (gr_dataPlaneCredentialHash g) = Some true.

Section agent.
Context (uuid : nat → string) (hmac_sha256 : string → string → list Z).
Context {Hmac : HmacSha256 hmac_sha256}.
Context (is_uuid is_datetime : string → bool) (sha256 : json → string).
Context `{LocaleCompare} `{DateStrings}.
Context (environment : ApiEnvironment) (agentPepper : option string) (credentialPepper : string).
Context (syncLease syncDelay syncMax outboxLease outboxDelay outboxMax : Z).
Context (eventIds : option (list string)).
Notation Reachable := (reachable uuid hmac_sha256 is_uuid sha256 environment agentPepper
  credentialPepper syncLease syncDelay syncMax outboxLease outboxDelay outboxMax eventIds).

(** C35: the API and the agent's contract: of a snapshot delivered on a reachable
    state, whose columns hold what their types and checks allow, the agent reads
    nothing but the snapshot; and it reads it exactly when the display names of
    the delivered routes have at most 128 UTF-16 units and the expiries and
    revocations of the node's grants lie in the years 0000 to 9999.  The columns
    allow more: a name of 65 characters outside the BMP passes its CHECK and the
    agent refuses the whole snapshot. *)
Theorem delivered_snapshot_is_understood nodeId now db sn db1 :
  (∀ j, is_sha256_hex (sha256 j)) → (∀ s, is_uuid_v4 s = true → is_uuid s) →
  (∀ t, time_value t → is_datetime (toISOString t) = four_digit_year t) →
  Reachable db → columns_typed is_uuid db →
  snapshotInTransaction hmac_sha256 sha256 environment nodeId now db = (Ok sn, db1) →
  ∀ document, nodeAgentConfigurationSnapshotSchema is_uuid is_datetime (encode_snapshot sn) = Some document ↔
    document = sn ∧ fits_contract db nodeId sn.
Proof using Hmac.
  intros Hhex Hv4 Hiso Hinv%reachable_inv Hty Hsn document. split.
  - intros Hd. pose proof (snapshot_decoded _ _ _ _ Hd) as ->. split; [done|].
    eapply wf_fits; try done. by eapply snapshot_schema_sound.
  - intros [-> Hfits]. apply snapshot_encode. by eapply delivered_wf.
Qed.

(** A client is selected from a delivered snapshot exactly when its row gives access. *)
Lemma selected_iff nodeId now db sn db1 t client :
  Inv nothing db → columns_typed is_uuid db →
  snapshotInTransaction hmac_sha256 sha256 environment nodeId now db = (Ok sn, db1) →
  client ∈ selectServableXrayClients sn t ↔
  gives_access hmac_sha256 environment db nodeId now t client.
Proof.
  intros Hinv Hty Hsn.
  destruct (snapshot_safe _ _ _ _ _ _ _ _ Hsn Hinv) as (_ & _ & n & Hn & _ & _ & Hg1 & Hg2 & _).
  rewrite select_servable_elem. unfold grants_access, gives_access. split.
  - intros (out & Hout & Hst & Hrev & Hc & Hid & e & He & Hlt).
    destruct (Hg1 out Hout) as (id & g & Hg & Hgn & E1 & E2 & E3 & E4 & _ & _ & E5). simpl in *.
    apply E5 in Hc as (Hl & Hnow & Hv & Hd & Hver).
    destruct (ct_grants _ _ Hty _ _ Hg) as (_ & Hexp & _).
    rewrite E3, Date_parse_toISOString in He by done. injection He as <-.
    destruct (iv_owners _ _ Hinv _ _ Hg) as (d & Hdev & Hr). exists g, d.
    rewrite <- Hid, E1. split_and!; try done; try congruence.
    destruct (dv_status d) eqn:Hds; [done|]. destruct (Hr eq_refl); [|done].
    unfold live in Hl. by rewrite bool_decide_eq_true_2 in Hl.
  - intros (g & d & Hg & Hgn & Hst & Hnow & Ht & Hdev & Hds & Hv & Hd & Hver).
    destruct (Hg2 _ _ Hg Hgn) as (out & Hout & E1 & E2 & E3 & E4 & _ & _ & E5). simpl in *.
    destruct (ct_grants _ _ Hty _ _ Hg) as (_ & Hexp & _).
    destruct (iv_grants _ _ Hinv _ _ Hg) as (Hck & _).
    apply grant_checks_spec in Hck as (_ & _ & Hck & _).
    exists out. split_and!; try done; try congruence.
    + by rewrite E4, Hck.
    + apply E5. split_and!; try done. unfold live. by rewrite Hst.
    + exists (gr_expiresAt g). by rewrite E3, Date_parse_toISOString.
Qed.

Section served.
Context {R RE : Type} `{!XrayConfigRuntime R RE} (Hlaws : XrayConfigRuntimeLaws R RE).
Context (fault : FsOp → nat → option FsError) (win32 : bool) (dirname : string → string).
Context (clock : nat → Z) (clockTrust : option (nat → option ClockOutcome)) (statePath : string).
Context (no_spurious_ENOENT : ∀ op t, fault op t ≠ Some ENOENT).
Context (clock_is_time : ∀ n, time_value (clock n)).

(** C1: end to end, access is exact: when the agent reads a delivered snapshot
    and applies it, its runtime serves exactly the clients whose row on the
    control plane is an ACTIVE grant on this node, unexpired by the API's clock
    and by a reading of the agent's, of an active device, with the derived
    credential whose hash is on record. *)
Theorem served_access_is_exact nodeId now db sn db1 document w r w' :
  Reachable db → columns_typed is_uuid db →
  snapshotInTransaction hmac_sha256 sha256 environment nodeId now db = (Ok sn, db1) →
  nodeAgentConfigurationSnapshotSchema is_uuid is_datetime (encode_snapshot sn) = Some document →
  closed_ok (core w) →
  applySnapshot (RE:=RE) is_uuid is_datetime sha256 fault win32 dirname clock clockTrust statePath
    document w = (Ok r, w') →
  ∃ n, ∀ client, client ∈ rt_serves (w_runtime w') ↔
    gives_access hmac_sha256 environment db nodeId now (clock n) client.
Proof using Hmac Hlaws no_spurious_ENOENT clock_is_time.
  intros Hinv%reachable_inv Hty Hsn Hread Hclosed Happ.
  apply snapshot_decoded in Hread as ->.
  destruct (applied_serves is_uuid is_datetime sha256 fault win32 dirname clock clockTrust statePath
    Hlaws no_spurious_ENOENT clock_is_time _ _ _ _ Hclosed Happ) as [n Hn].
  exists n. intros client. rewrite Hn. by eapply selected_iff.
Qed.
End served.
End agent.
