(* ===== verification/AgentExamples.v ===== *)
(** * Concrete runs of the node agent

    Instances of the parameters of the node agent's model (dates, identifier
    order, hash, clock, file system without faults, in-memory runtime) and the
    theorems of the agent applied to concrete runs. *)

From Stdlib Require Import Ascii.
From S2P Require Import Prelude.
From S2P Require Import Json.
From S2P Require Import NodeAgentContract.
From S2P Require Import XrayAccess.
From S2P Require Import DurableFiles.
From S2P Require Import AgentState.
From S2P Require Import XrayRuntime.
From S2P Require Import ReconcileLoop.
From S2P Require Import LocalXrayAdapter.
From S2P Require Import AgentLoops.
From S2P Require Import NodeAgent.
Open Scope Z_scope.

(** ** Dates written in binary *)

Fixpoint print_positive (p : positive) : string :=
  match p with
  | xH => "1"%string
  | xO p => String "0"%char (print_positive p)
  | xI p => String "1"%char (print_positive p)
  end.
Definition print_instant (t : Z) : string :=
  match t with
  | Z0 => "Z"%string
  | Zpos p => String "P"%char (print_positive p)
  | Zneg p => String "N"%char (print_positive p)
  end.

Fixpoint read_positive (s : string) : option positive :=
  match s with
  | String c EmptyString => if Ascii.eqb c "1"%char then Some xH else None
  | String c s => if Ascii.eqb c "0"%char then xO <$> read_positive s
                  else if Ascii.eqb c "1"%char then xI <$> read_positive s else None
  | EmptyString => None
  end.
Definition read_instant (s : string) : option Z :=
  match s with
  | String c EmptyString => if Ascii.eqb c "Z"%char then Some 0 else None
  | String c s => if Ascii.eqb c "P"%char then Zpos <$> read_positive s
                  else if Ascii.eqb c "N"%char then Zneg <$> read_positive s else None
  | EmptyString => None
  end.

Lemma print_positive_cons p : ∃ c s, print_positive p = String c s.
Proof. destruct p; simpl; eauto. Qed.

Lemma read_print_positive p : read_positive (print_positive p) = Some p.
Proof.
  induction p as [p IH|p IH|]; simpl; [..|done];
    destruct (print_positive_cons p) as (c&s&Hp); rewrite Hp in *; by rewrite IH.
Qed.

Lemma read_print_instant t : read_instant (print_instant t) = Some t.
Proof.
  destruct t as [|p|p]; simpl; [done|..];
    pose proof (read_print_positive p) as Hr;
    destruct (print_positive_cons p) as (c&s&Hp); rewrite Hp in *; by rewrite Hr.
Qed.

#[export] Instance binaryDates : DateStrings :=
  {| Date_parse := read_instant; toISOString := print_instant;
     Date_parse_toISOString t _ := read_print_instant t |}.
#[export] Existing Instance codeUnitLocale.

(** ** The other parameters *)

Definition any_text (s : string) : bool := true.
Definition readable_date (s : string) : bool := negb (is_null (read_instant s)).

(** A toy hash: the size of the document, in one repeated digit. *)
Fixpoint json_nodes (j : json) : nat :=
  match j with
  | JArr l => S (foldr (λ j n, json_nodes j + n)%nat 0%nat l)
  | JObj m => S (foldr (λ kv n, json_nodes kv.2 + n)%nat 0%nat m)
  | JStr s => S (String.length s)
  | _ => 1
  end.
Fixpoint repeat_char (n : nat) (c : Ascii.ascii) : string :=
  match n with O => EmptyString | S n => String c (repeat_char n c) end.
Definition node_hash (j : json) : string :=
  repeat_char 64 (Ascii.ascii_of_nat (48 + json_nodes j mod 10)).

Lemma node_hash_hex j : is_sha256_hex (node_hash j).
Proof.
  unfold node_hash. pose proof (Nat.mod_upper_bound (json_nodes j) 10 ltac:(done)) as Hm.
  set (k := (json_nodes j mod 10)%nat) in *. clearbody k.
  do 10 (destruct k as [|k]; [vm_compute; done|]). lia.
Qed.

Definition no_faults (op : FsOp) (t : nat) : option FsError := None.
(** A clock that stops at a bound, so that it always shows a time value. *)
Definition example_clock (n : nat) : Z := 100000 + Z.min (Z.of_nat n) 1000.
Lemma example_clock_is_time n : time_value (example_clock n).
Proof. apply Is_true_true, Z.leb_le. unfold example_clock. lia. Qed.
Lemma example_clock_datetime n : readable_date (toISOString (example_clock n)).
Proof. unfold readable_date. cbn [toISOString binaryDates]. by rewrite read_print_instant. Qed.

#[export] Instance example_runtime : XrayConfigRuntime InMemoryXrayRuntime unit :=
  in_memory_runtime (λ _, None).
Lemma example_runtime_laws : XrayConfigRuntimeLaws InMemoryXrayRuntime unit.
Proof. apply in_memory_runtime_laws. Qed.
Lemma no_faults_ENOENT op t : no_faults op t ≠ Some ENOENT.
Proof. done. Qed.

Definition parent (path : string) : string := "."%string.

(** ** Snapshots *)

Definition example_grant (id : string) (status : GrantStatus) (revokedAt : option string) : NodeAgentGrant :=
  {| g_id := id; g_status := status; g_expiresAt := print_instant 900000; g_desiredVersion := 1;
     g_appliedVersion := 0; g_revokedAt := revokedAt; g_dataPlaneCredential := Some "credential"%string |}.
Definition example_snapshot (version : Z) (grants : list NodeAgentGrant) : NodeAgentConfigurationSnapshot :=
  {| sn_desiredConfigVersion := version; sn_appliedConfigVersion := 0;
     sn_pendingAcknowledgement := None; sn_grants := grants; sn_routes := [] |}.

(** Alice is served by version 1 and revoked in version 2. *)
Definition snapshot_1 : NodeAgentConfigurationSnapshot :=
  example_snapshot 1 [example_grant "alice"%string GRANT_ACTIVE None; example_grant "bob"%string GRANT_ACTIVE None].
Definition snapshot_2 : NodeAgentConfigurationSnapshot :=
  example_snapshot 2 [example_grant "alice"%string GRANT_REVOKED (Some (print_instant 99000));
                      example_grant "bob"%string GRANT_ACTIVE None].

Lemma example_grant_wf id status revokedAt :
  (∀ t, revokedAt = Some t → readable_date t) →
  grant_wf any_text readable_date (example_grant id status revokedAt).
Proof. intros Hr. by split_and!. Qed.

Lemma snapshot_1_wf : snapshot_wf any_text readable_date snapshot_1.
Proof. split_and!; try done. do 2 (apply Forall_cons_2; [by apply example_grant_wf|]). done. Qed.
Lemma snapshot_2_wf : snapshot_wf any_text readable_date snapshot_2.
Proof.
  split_and!; try done. do 2 (apply Forall_cons_2; [apply example_grant_wf; by intros t [= <-]|]). done.
Qed.

(** ** Runs of the local Xray adapter *)

Notation example_apply := (applySnapshot (RE:=unit) any_text readable_date node_hash no_faults false
  parent example_clock None "state"%string).
Notation example_enforce := (enforceSnapshotSecurity (RE:=unit) any_text readable_date node_hash no_faults false
  parent example_clock None "state"%string).
Notation example_run := (runExclusive (RE:=unit) any_text readable_date node_hash no_faults false
  parent example_clock None "state"%string).
Notation example_reconcile := (reconcileLocalState (RE:=unit) any_text readable_date node_hash no_faults false
  parent example_clock None "state"%string).

Definition fresh_world : World :=
  new_adapter {| fs_files := ∅; fs_tick := 0 |} {| im_clients := []; im_serving := true |} 0.
Definition world_1 : World := snd (example_apply snapshot_1 fresh_world).
(** After the control plane showed version 2 without a command. *)
Definition latched_world : World := snd (example_enforce snapshot_2 world_1).

Lemma pair_fst {A B} (p : A * B) a : fst p = a → p = (a, snd p).
Proof. by destruct p; intros <-. Qed.

(** The runs behave as expected: alice and bob are served, the revocation
    stops everything, the next apply serves bob, a downgrade is refused. *)
Example example_serves :
  cl_grantId <$> im_clients (w_runtime world_1) = ["alice"; "bob"]%string.
Proof. vm_compute. reflexivity. Qed.
Example example_latched :
  (im_clients (w_runtime latched_world),
   bool_decide (is_Some (fs_files (w_fs latched_world) !! "state.stop-only.json"%string))) = ([], true).
Proof. vm_compute. reflexivity. Qed.
Example example_resumes :
  let '(r, w) := example_apply snapshot_2 latched_world in
  (r, cl_grantId <$> im_clients (w_runtime w),
   bool_decide (is_Some (fs_files (w_fs w) !! "state.stop-only.json"%string))) =
  (Ok Applied, ["bob"%string], false).
Proof. vm_compute. reflexivity. Qed.
Example example_refuses_downgrade :
  fst (example_apply snapshot_1 (snd (example_apply snapshot_2 latched_world))) = Throw VersionDowngrade.
Proof. vm_compute. reflexivity. Qed.

(** ** The theorems on these runs *)

Lemma fresh_closed_ok : closed_ok (core fresh_world).
Proof. done. Qed.
Lemma world_1_closed_ok : closed_ok (core world_1).
Proof. intros H. exfalso. by vm_compute in H. Qed.

Lemma apply_serves_exactly_the_snapshot_witness :
  fst (example_apply snapshot_1 fresh_world) = Ok Applied ∧
  holds_snapshot any_text readable_date node_hash "state"%string snapshot_1 (fs_files (w_fs world_1)).
Proof.
  assert (H : fst (example_apply snapshot_1 fresh_world) = Ok Applied) by (vm_compute; reflexivity).
  split; [exact H|].
  exact (proj1 (proj2 (apply_serves_exactly_the_snapshot any_text readable_date node_hash no_faults false
    parent example_clock None "state"%string example_runtime_laws no_faults_ENOENT
    example_clock_is_time node_hash_hex example_clock_datetime snapshot_1 fresh_world Applied world_1
    fresh_closed_ok snapshot_1_wf (pair_fst _ _ H)))).
Defined.

Lemma failed_apply_serves_nothing_unsafe_witness :
  fst (example_apply snapshot_1 (snd (example_apply snapshot_2 latched_world))) = Throw VersionDowngrade ∧
  closed_ok (core (snd (example_apply snapshot_1 (snd (example_apply snapshot_2 latched_world))))).
Proof.
  assert (H : fst (example_apply snapshot_1 (snd (example_apply snapshot_2 latched_world)))
    = Throw VersionDowngrade) by (vm_compute; reflexivity).
  split; [exact H|].
  refine (proj1 (failed_apply_serves_nothing_unsafe any_text readable_date node_hash no_faults false
    parent example_clock None "state"%string example_runtime_laws no_faults_ENOENT
    example_clock_is_time snapshot_1 _ VersionDowngrade _ _ (pair_fst _ _ H))).
  intros Hc. exfalso. by vm_compute in Hc.
Defined.

Lemma latch_means_stopped_witness :
  im_clients (w_runtime (example_enforce snapshot_2 (example_run [Run (OpApply snapshot_1)] fresh_world)).2) = [].
Proof.
  pose proof (latch_means_stopped any_text readable_date node_hash no_faults false parent example_clock None
    "state"%string example_runtime_laws no_faults_ENOENT example_clock_is_time
    [Run (OpApply snapshot_1)] (OpEnforceSecurity snapshot_2) fresh_world fresh_closed_ok) as Hstopped.
  destruct Hstopped as [Hs|[[e He] _]]; [apply (bool_decide_unpack _); vm_compute; exact I|exact Hs|].
  vm_compute in He. discriminate He.
Defined.

(** A stop that fails: the runtime of this agent refuses to stop.  The operation
    throws, the latch is written, the runtime still serves, and the adapter
    does not take it for stopped. *)
Definition stuck_runtime : XrayConfigRuntime InMemoryXrayRuntime unit := {|
  rt_applyClients := rt_applyClients; rt_failClosed := λ r, (Throw tt, r);
  rt_isServing := rt_isServing; rt_serves := rt_serves |}.
Example stop_that_fails :
  let r := @enforceSnapshotSecurity _ _ InMemoryXrayRuntime unit stuck_runtime any_text readable_date node_hash no_faults false
    parent example_clock None "state"%string snapshot_2 world_1 in
  r.1 = Throw (RuntimeFailure tt) ∧ w_runtimeIsFailClosed r.2 = false ∧
  bool_decide (is_Some (fs_files (w_fs r.2) !! stopOnlyLatchPath "state"%string)) = true ∧
  bool_decide (im_clients (w_runtime r.2) = []) = false.
Proof. vm_compute. done. Qed.


Lemma stored_version_never_decreases_witness :
  ∃ v', stored_version any_text readable_date node_hash "state"%string
    (example_run [Run (OpEnforceSecurity snapshot_2); Restart (w_runtime fresh_world);
                  Run (OpApply snapshot_2)] world_1) = Some v' ∧ 1 ≤ v'.
Proof.
  apply (stored_version_never_decreases any_text readable_date node_hash no_faults false parent example_clock
    None "state"%string example_runtime_laws no_faults_ENOENT example_clock_is_time
    node_hash_hex example_clock_datetime).
  - reflexivity.
  - exact world_1_closed_ok.
  - repeat apply Forall_cons_2; try exact I; [exact snapshot_2_wf|apply Forall_nil_2].
  - vm_compute. reflexivity.
Defined.

Lemma reconcile_enforces_expiry_witness :
  match example_reconcile world_1 with
  | (Ok next, w') => ∃ n, example_clock n < next ≤ example_clock n + 10000
  | (Throw _, w') => True
  end.
Proof.
  pose proof (reconcile_enforces_expiry any_text readable_date node_hash no_faults false parent example_clock
    None "state"%string example_runtime_laws no_faults_ENOENT
    world_1 world_1_closed_ok) as H.
  destruct (example_reconcile world_1) as [[next|e] w']; [exact (proj1 H)|exact I].
Defined.

Lemma uncommanded_revocation_is_latched_witness :
  fst (example_enforce snapshot_2 world_1) = Ok tt ∧
  ∃ n state,
    (rt_serves (RE:=unit) (w_runtime latched_world) = [] ∨
     is_valid state = true ∧ snapshot_enforcements snapshot_2 state (example_clock n) = []).
Proof.
  assert (H : fst (example_enforce snapshot_2 world_1) = Ok tt) by (vm_compute; reflexivity).
  split; [exact H|].
  destruct (uncommanded_revocation_is_latched any_text readable_date node_hash no_faults false parent
    example_clock None "state"%string example_runtime_laws no_faults_ENOENT
    snapshot_2 world_1 latched_world world_1_closed_ok (pair_fst _ _ H)) as (n & state & _ & Hs & _).
  exists n, state. exact Hs.
Defined.

Lemma revocation_enforcements_exact_witness :
  {| en_grantId := "alice"%string; en_deadlineAt := Some 399000 |} ∈
  findRevokedXrayClientEnforcements snapshot_1 snapshot_2 100000 ACCESS_CONTROL_ENFORCEMENT_SLA_MS.
Proof.
  apply revocation_enforcements_exact.
  - apply (bool_decide_unpack _). vm_compute. exact I.
  - exists (example_grant "alice"%string GRANT_REVOKED (Some (print_instant 99000))),
      (print_instant 99000), 99000, (example_grant "alice"%string GRANT_ACTIVE None).
    split_and!; try reflexivity; try done; try (by left); try lia; try by eexists.
    intros x Hx. vm_compute in Hx. injection Hx as <-. lia.
Defined.

(** A failed apply leaves the fingerprint of the clients before it: with a
    runtime that hands the clients over and then fails to verify them, the
    next reconcile finds the old fingerprint and leaves the new clients. *)
Definition failing_runtime : XrayConfigRuntime InMemoryXrayRuntime unit :=
  in_memory_runtime (λ clients, if (length clients =? 1)%nat then Some tt else None).
Definition snapshot_3 : NodeAgentConfigurationSnapshot :=
  example_snapshot 2 [example_grant "carol"%string GRANT_ACTIVE None].
Definition failing_apply (s : NodeAgentConfigurationSnapshot) :=
  @applySnapshot _ _ _ unit failing_runtime any_text readable_date node_hash no_faults false
    parent example_clock None "state"%string s.
Definition failing_reconcile :=
  @reconcileLocalState _ _ _ unit failing_runtime any_text readable_date node_hash no_faults false
    parent example_clock None "state"%string.

Theorem failed_apply_keeps_stale_fingerprint :
  let w1 := snd (failing_apply snapshot_1 fresh_world) in
  let '(r2, w2) := failing_apply snapshot_3 w1 in
  let '(r3, w3) := failing_reconcile w2 in
  r2 = Throw (RuntimeFailure tt) ∧ r3 = Ok 110003 ∧
  cl_grantId <$> im_clients (w_runtime w1) = ["alice"; "bob"]%string ∧
  cl_grantId <$> im_clients (w_runtime w3) = ["carol"%string] ∧
  stored_version any_text readable_date node_hash "state"%string w3 = Some 1.
Proof. vm_compute. split_and!; reflexivity. Qed.

(** The control plane makes a PENDING grant ACTIVE when its version is
    acknowledged, without a new version; the adapter takes the same version
    with another status for a collision, so the grant is not served. *)
Theorem acknowledged_activation_collides :
  let pending := example_snapshot 1 [example_grant "alice"%string GRANT_PENDING None] in
  let active := example_snapshot 1 [example_grant "alice"%string GRANT_ACTIVE None] in
  let '(r1, w1) := example_apply pending fresh_world in
  let '(r2, w2) := example_apply active w1 in
  r1 = Ok Applied ∧ r2 = Throw VersionCollision ∧ im_clients (w_runtime w2) = [].
Proof. vm_compute. split_and!; reflexivity. Qed.

(** ** The production runtime over a small Docker

    One container of Xray, running or not, that serves nobody or alice; a
    reload makes it serve alice. *)

Inductive SmallDocker := DockerDown | DockerEmpty | DockerAlice.
Definition alice : XrayServableClient := {| cl_grantId := "alice"; cl_credential := "secret" |}.
Definition small_docker (c : DockerCommand) : M SmallDocker unit string := λ d,
  match c, d with
  | DockerPs false, DockerDown => (Ok ""%string, d)
  | DockerPs _, _ => (Ok "xray1"%string, d)
  | DockerStop _, _ => (Ok ""%string, DockerDown)
  | DockerExecInboundUsers _, DockerAlice => (Ok "alice"%string, d)
  | DockerExecInboundUsers _, _ => (Ok "nobody"%string, d)
  end.
Definition small_parse (s : string) : option json :=
  if decide (s = "alice"%string)
  then Some (JObj [("users", JArr [JObj [("email", JStr "alice");
                                         ("account", JObj [("id", JStr "secret")])]])]%string)
  else Some (JObj []).
Definition small_reload (command : string) : M SmallDocker unit unit := λ _, (Ok tt, DockerAlice).

Definition small_docker_laws : DockerLaws small_docker small_parse.
Proof.
  refine {| running d := match d with DockerDown => [] | _ => ["xray1"%string] end;
            serves d := match d with DockerAlice => [alice] | _ => [] end |}.
  - intros [] []; reflexivity.
  - intros [] out d' [= <- <-]; split; vm_compute; reflexivity.
  - intros [] id out d' Hr [= <- <-]; try discriminate Hr; split; vm_compute; reflexivity.
  - intros []; done.
Defined.

Definition production_options : FileXrayRuntimeOptions :=
  {| templatePath := "template"; runtimeConfigPath := "config"; inboundTag := "vless-in";
     reloadCommand := Some "reload"%string; dockerController := true |}.
Definition production_template : json :=
  JObj [("inbounds", JArr [JObj [("tag", JStr "vless-in"); ("protocol", JStr "vless");
                                 ("settings", JObj [("clients", JArr [])])]])]%string.
Definition production_world : FileXrayRuntime (D:=SmallDocker) :=
  {| fx_fs := {| fs_files := <["template"%string := Document production_template]> ∅; fs_tick := 0 |};
     fx_docker := DockerEmpty |}.

Lemma file_runtime_keeps_promises_witness :
  let applied := applyClients small_docker small_parse small_reload 2 no_faults parent
                   production_options [alice] false production_world in
  fst applied = Ok tt ∧ ∃ config,
    fs_files (fx_fs (snd applied)) !! "config"%string = Some (Document (JObj config)) ∧
    config_clients config "vless-in"%string = Ok (merge_sort client_order [alice]).
Proof.
  cbv zeta.
  assert (H : fst (applyClients small_docker small_parse small_reload 2 no_faults parent
    production_options [alice] false production_world) = Ok tt) by (vm_compute; reflexivity).
  split; [exact H|].
  exact (proj2 (proj1 (file_runtime_keeps_promises (DockerLaws0:=small_docker_laws) small_docker small_parse
    small_reload 2 no_faults parent production_options eq_refl [alice] false production_world)
    _ (pair_fst _ _ H))).
Defined.

(** ** A cycle of the agent with the simulation adapter *)

(** A control plane that shows one snapshot and records acknowledgements. *)
Record SmallControlPlane := { scp_snapshot : NodeAgentConfigurationSnapshot;
                              scp_acknowledged : list NodeAgentAcknowledgement }.
Definition commanded_snapshot : NodeAgentConfigurationSnapshot :=
  {| sn_desiredConfigVersion := 1; sn_appliedConfigVersion := 0;
     sn_pendingAcknowledgement := Some {| ack_nodeSyncJobId := "job"; ack_targetVersion := 1;
                                          ack_snapshotHash := node_hash JNull |};
     sn_grants := [example_grant "alice"%string GRANT_ACTIVE None]; sn_routes := [] |}.
#[export] Instance small_control_plane : NodeAgentControlPlane SmallControlPlane unit :=
  {| cp_heartbeat := λ c, (Ok tt, c);
     cp_configuration := λ c, (Ok commanded_snapshot, c);
     cp_acknowledge a := λ c,
       (Ok tt, {| scp_snapshot := scp_snapshot c; scp_acknowledged := a :: scp_acknowledged c |}) |}.
#[export] Instance small_control_plane_laws : ControlPlaneLaws SmallControlPlane unit.
Proof.
  refine {| acknowledged := scp_acknowledged |}; [intros l c Hc; exact Hc|intros l c Hc; exact Hc|].
  intros l a c <-. reflexivity.
Defined.

Lemma commanded_snapshot_wf : snapshot_wf any_text readable_date commanded_snapshot.
Proof.
  split_and!; try done.
  - intros a [= <-]. split; [|done]. split; [done|]. split; [done|]. apply hash_spec, node_hash_hex.
  - apply Forall_cons_2; [by apply example_grant_wf|done].
Qed.

(** Read back as written; refused when the version is already applied. *)
Definition applied_snapshot : NodeAgentConfigurationSnapshot :=
  {| sn_desiredConfigVersion := 1; sn_appliedConfigVersion := 1;
     sn_pendingAcknowledgement := sn_pendingAcknowledgement commanded_snapshot; sn_grants := []; sn_routes := [] |}.
Lemma snapshot_roundtrip_witness :
  nodeAgentConfigurationSnapshotSchema any_text readable_date (encode_snapshot commanded_snapshot) =
    Some commanded_snapshot ∧
  nodeAgentConfigurationSnapshotSchema any_text readable_date (encode_snapshot applied_snapshot) = None.
Proof.
  destruct (snapshot_roundtrip any_text readable_date) as [_ Hround]. split.
  - apply Hround. split; [reflexivity|exact commanded_snapshot_wf].
  - destruct (nodeAgentConfigurationSnapshotSchema _ _ (encode_snapshot applied_snapshot)) as [s|] eqn:Hs; [|done].
    apply Hround in Hs as [_ (_ & _ & _ & Hack & _)].
    destruct (Hack _ eq_refl) as (_ & _ & Hlt). discriminate Hlt.
Defined.

#[export] Instance example_simulation :
  NodeAgentDataPlaneAdapter Simulation.SimulationState Simulation.SimulationError :=
  Simulation.simulation_adapter any_text readable_date node_hash no_faults false parent example_clock "state"%string.
#[export] Instance example_simulation_laws :
  DataPlaneLaws Simulation.SimulationState Simulation.SimulationError :=
  Simulation.simulation_laws any_text readable_date node_hash no_faults false parent example_clock
    "state"%string no_faults_ENOENT node_hash_hex example_clock_datetime.

Lemma small_configuration_admissible (c c' : SmallControlPlane) s :
  cp_configuration (CE:=unit) c = (Ok s, c') → dp_admissible s.
Proof. intros Hc. simpl in Hc. assert (s = commanded_snapshot) as -> by congruence. exact commanded_snapshot_wf. Qed.

Definition cycle_start : SmallControlPlane * Simulation.SimulationState :=
  ({| scp_snapshot := commanded_snapshot; scp_acknowledged := [] |},
   {| Simulation.sim_fs := {| fs_files := ∅; fs_tick := 0 |}; Simulation.sim_ticks := 0 |}).

Lemma cycle_acknowledges_only_applied_witness :
  fst (runCycle cycle_start) = Ok Acknowledged ∧
  match runCycle cycle_start with
  | (Ok Acknowledged, (c, w)) =>
      ∃ snapshot a, sn_pendingAcknowledgement snapshot = Some a ∧
        dp_holds snapshot w ∧ acknowledged c = [a]
  | _ => False
  end.
Proof.
  assert (H : fst (runCycle cycle_start) = Ok Acknowledged) by (vm_compute; reflexivity).
  split; [exact H|].
  pose proof (cycle_acknowledges_only_applied (C:=SmallControlPlane) (CE:=unit)
    (λ c s c', small_configuration_admissible c c' s)
    (fst cycle_start) (snd cycle_start) I) as Hcycle.
  change (fst cycle_start, snd cycle_start) with cycle_start in Hcycle.
  destruct (runCycle cycle_start) as [o p]. simpl in H. subst o. destruct p as [c w].
  exact (proj2 Hcycle).
Defined.

(** ** The loops of the process

    The reconcile loop starts and is told that there is no state; before it
    sees that, a snapshot is applied whose grant expires in four seconds; it
    asks again and sets its timer to that expiry. *)

Notation example_agent := (Agent (R:=InMemoryXrayRuntime) (RE:=unit)).
Notation example_step := (agent_step (RE:=unit) any_text readable_date node_hash no_faults false
  parent example_clock None "state"%string).
Definition short_lived : NodeAgentConfigurationSnapshot :=
  example_snapshot 1 [{| g_id := "dave"; g_status := GRANT_ACTIVE; g_expiresAt := print_instant 104000;
    g_desiredVersion := 1; g_appliedVersion := 0; g_revokedAt := None; g_dataPlaneCredential := Some "credential"%string |}].

Definition operated (op : AdapterOperation) (s : example_agent) : example_agent :=
  let r := perform (RE:=unit) any_text readable_date node_hash no_faults false parent example_clock None
             "state"%string op (ag_world s) in
  {| ag_world := r.2; ag_loop := deliver (ag_world s) r.2 (ag_loop s); ag_answer := ag_answer s;
     ag_failed := ag_failed s; ag_stopFailed := ag_stopFailed s ∨ stop_broke r |}.
Definition called (call : ReconcilerCall) (s : example_agent) : example_agent :=
  let r := call_of (RE:=unit) any_text readable_date node_hash no_faults false parent example_clock None
             "state"%string call (ag_world s) in
  {| ag_world := r.2; ag_loop := deliver (ag_world s) r.2 (ag_loop s); ag_answer := Some r.1; ag_failed := threw r.1;
     ag_stopFailed := False |}.
Definition answered (s : example_agent) : example_agent :=
  let k := w_ticks (ag_world s) in
  match ag_answer s with
  | Some r => {| ag_world := set_ticks (S (S k)) (ag_world s);
                 ag_loop := default (ag_loop s)
                   (loop_event LOCAL_SECURITY_RETRY_DELAY_MS (answer_of example_clock r k) (ag_loop s));
                 ag_answer := None; ag_failed := ag_failed s; ag_stopFailed := ag_stopFailed s |}
  | None => s
  end.
Definition moved (e : LoopEvent) (s : example_agent) : example_agent :=
  {| ag_world := ag_world s;
     ag_loop := default (ag_loop s) (loop_event LOCAL_SECURITY_RETRY_DELAY_MS e (ag_loop s));
     ag_answer := ag_answer s; ag_failed := ag_failed s; ag_stopFailed := ag_stopFailed s |}.

Definition agent_started : example_agent := moved EvRun (new_agent {| fs_files := ∅; fs_tick := 0 |} {| im_clients := []; im_serving := true |} 0).
Definition agent_told : example_agent := called CallReconcileLocalState agent_started.
Definition agent_applied : example_agent := operated (OpApply short_lived) agent_told.
Definition agent_woken : example_agent := moved EvResumed (answered agent_applied).
Definition agent_asked : example_agent := called CallNextLocalReconcileAt agent_woken.
Definition agent_waiting : example_agent := answered agent_asked.

Lemma answered_step s r l' :
  ag_answer s = Some r →
  loop_event LOCAL_SECURITY_RETRY_DELAY_MS (answer_of example_clock r (w_ticks (ag_world s))) (ag_loop s) = Some l' →
  example_step s (answered s).
Proof. intros Ha Hl. unfold answered. rewrite Ha, Hl. by eapply AgentAnswers. Qed.
Lemma moved_step e s l' :
  match e with EvAnswered _ _ | EvChanged => False | _ => True end →
  loop_event LOCAL_SECURITY_RETRY_DELAY_MS e (ag_loop s) = Some l' → example_step s (moved e s).
Proof. intros He Hl. unfold moved. rewrite Hl. by eapply AgentMoves. Qed.

Lemma operated_step op s : by_control_plane op = true → example_step s (operated op s).
Proof. intros Hop. unfold operated. by apply (AgentOperates _ _ _ _ _ _ _ _ _ s op). Qed.
Lemma called_step call rev s :
  lo_point (ag_loop s) = Awaiting call rev → ag_answer s = None → example_step s (called call s).
Proof. intros Hp Ha. unfold called. by apply (AgentCalls _ _ _ _ _ _ _ _ _ s call rev). Qed.

Lemma agent_waiting_reachable :
  agent_reachable (RE:=unit) any_text readable_date node_hash no_faults false parent example_clock None
    "state"%string agent_waiting.
Proof.
  exists {| fs_files := ∅; fs_tick := 0 |}, {| im_clients := []; im_serving := true |}, 0%nat.
  eapply rtc_l; [eapply (moved_step EvRun); [exact I|vm_compute; reflexivity]|].
  eapply rtc_l; [eapply (called_step CallReconcileLocalState _ agent_started); vm_compute; reflexivity|].
  eapply rtc_l; [exact (operated_step (OpApply short_lived) agent_told eq_refl)|].
  eapply rtc_l; [eapply (answered_step agent_applied); vm_compute; reflexivity|].
  eapply rtc_l; [eapply (moved_step EvResumed (answered agent_applied)); [exact I|vm_compute; reflexivity]|].
  eapply rtc_l; [eapply (called_step CallNextLocalReconcileAt _ agent_woken); vm_compute; reflexivity|].
  assert (Ha : ag_answer agent_asked = Some (Ok 104000)) by (vm_compute; reflexivity).
  eassert (Hl : loop_event LOCAL_SECURITY_RETRY_DELAY_MS
    (answer_of example_clock (Ok 104000) (w_ticks (ag_world agent_asked))) (ag_loop agent_asked) = Some _)
    by (vm_compute; reflexivity).
  eapply rtc_l; [exact (answered_step agent_asked _ _ Ha Hl)|apply rtc_refl].
Qed.
Example agent_waits_for_the_expiry :
  lo_point (ag_loop agent_waiting) =
    Waiting (Some {| tm_dueAt := 104000; tm_delayMs := 3995; tm_reachesDeadline := true |}).
Proof. vm_compute. reflexivity. Qed.

Lemma loop_waits_for_the_next_expiry_witness :
  ∃ timer m n, lo_point (ag_loop agent_waiting) = Waiting (Some timer) ∧
    tm_dueAt timer ≤ Z.max (example_clock m) (example_clock n + 10000).
Proof.
  destruct (loop_waits_for_the_next_expiry any_text readable_date node_hash no_faults false parent example_clock
    None "state"%string example_runtime_laws no_faults_ENOENT example_clock_is_time
    agent_waiting _ agent_waiting_reachable agent_waits_for_the_expiry) as (timer & n & m & Ht & _ & Hd & _).
  exists timer, m, n. rewrite <- Ht. split; [exact agent_waits_for_the_expiry|exact Hd].
Defined.

Definition stopped_loop_events : list LoopEvent := [EvRun; EvAbort].
Lemma aborted_loop_returns_witness :
  match loop_run 10000 stopped_loop_events (new_loop false) ≫=
    loop_run 10000 [EvChanged; EvAnswered (Deadline (Some 5)) 7; EvResumed; EvChanged] with
  | Some l => lo_point l = Returned ∧ lo_subscribed l = false ∨
              ∃ e, own e = true ∧ is_Some (loop_event 10000 e l)
  | None => False
  end.
Proof.
  refine (proj2 (proj2 (aborted_loop_returns 10000 stopped_loop_events _
    [EvChanged; EvAnswered (Deadline (Some 5)) 7; EvResumed; EvChanged] _ false eq_refl eq_refl eq_refl))).
Defined.
