(* ===== verification/ControlPlaneExamples.v ===== *)
(** * Concrete runs of the control plane

    Instances of the parameters of the control plane's model (identifiers,
    HMAC, hash, dates, configuration) and the theorems of
    ControlPlaneTheorems.v applied to a run of one node with one device: its
    access scheduled, delivered, acknowledged, and then cut off. *)

From stdpp Require Import pretty.
From S2P Require Import Prelude.
From S2P Require Import Text.
From S2P Require Import Json.
From S2P Require Import Sql.
From S2P Require OutboxStore.
From S2P Require NodeSyncStore.
From S2P Require Worker.
From S2P Require Import NodeAgentContract.
From S2P Require Import XrayAccess.
From S2P Require Import ControlPlane.
From S2P Require Import DataPlaneCredential.
From S2P Require Import AccessPolicy.
From S2P Require Import ControlPlaneInvariant.
From S2P Require Import Orchestration.
From S2P Require Import OrchestrationSafety.
From S2P Require Import NodeAgentApi.
From S2P Require Import NodeAgentApiSafety.
From S2P Require Import SubscriptionAccess.
From S2P Require Import SubscriptionAccessSafety.
From S2P Require Import Reconciliation.
From S2P Require Import AccessMaintenance.
From S2P Require Import ControlPlaneSystem.
From S2P Require Import ControlPlaneTheorems.
From S2P Require Import DurableFiles.
From S2P Require Import AgentState.
From S2P Require Import XrayRuntime.
From S2P Require LocalXrayAdapter.
From S2P Require Import EndToEnd.
From S2P Require AgentExamples.
Import OutboxStore NodeSyncStore.
Open Scope Z_scope.

(** ** The parameters *)

Definition plain_uuid (n : nat) : string := "u" +:+ pretty n.
Definition config : ApiEnvironment := {| DATA_PLANE_CREDENTIAL_PEPPER := Some "pepper"%string |}.
#[local] Existing Instance AgentExamples.binaryDates.
#[local] Existing Instance codeUnitLocale.
#[local] Existing Instance AgentExamples.example_runtime.

Notation plain_transaction := (transaction plain_uuid toy_hmac AgentExamples.any_text AgentExamples.node_hash
  config (Some "agents"%string) "pepper").
Notation Step := (step plain_uuid toy_hmac AgentExamples.any_text AgentExamples.node_hash
  config (Some "agents"%string) "pepper" 30 10 5 30 10 5 None).
Notation Reachable := (reachable plain_uuid toy_hmac AgentExamples.any_text AgentExamples.node_hash
  config (Some "agents"%string) "pepper" 30 10 5 30 10 5 None).

Definition succeeds {A} (r : outcome ApiError A * Db) : bool :=
  match r.1 with Ok _ => true | Throw _ => false end.

Lemma steps_commit A (m : DbM A) db :
  plain_transaction A m → succeeds (m db) = true → rtc Step db (m db).2.
Proof.
  intros Ht Hok. destruct (m db) as [[a|e] db'] eqn:Hm; [|done].
  eapply rtc_once, StepCommit; done.
Qed.

Lemma later_reachable db db' : Reachable db → rtc Step db db' → Reachable db'.
Proof. unfold reachable. by etrans. Qed.

(** ** The run *)

(** A node, a device of a subscriber, and the parts of a route. *)
Definition node : Node := {| n_status := NODE_HEALTHY; n_desiredConfigVersion := 0;
  n_appliedConfigVersion := 0; n_lastHeartbeatAt := None |}.
Definition device_token : string := "aaaaaaaaaaaaaaaaaaaaaaaaaaaaaaaaaaaaaaaaaaa".
Definition device : Device := {| dv_userId := "alice"; dv_displayName := None; dv_platform := None;
  dv_status := DEVICE_ACTIVE; dv_subscriptionTokenHash := to_hex (toy_hmac "tokens" device_token); dv_issuanceIdempotencyKeyHash := None;
  dv_revokedAt := None; dv_createdAt := 0 |}.
Definition subscription : Subscription := {| sb_userId := "alice"; sb_status := SUB_ACTIVE;
  sb_startsAt := Some 0; sb_expiresAt := Some 900000; sb_cancelledAt := None |}.
Definition endpoint : Endpoint := {| en_nodeId := "n1"; en_status := MATERIAL_ACTIVE;
  en_host := "192.0.2.1"; en_addressKind := IPV4; en_port := 443; en_priority := 1 |}.
Definition profile : ConnectionProfile := {| cp_nodeId := "n1"; cp_status := MATERIAL_DRAFT;
  cp_profileKey := "default"; cp_version := 1; cp_protocolKind := VLESS; cp_transportKind := TCP;
  cp_securityKind := TLS; cp_priority := 1 |}.
Definition public_config : RoutePublicConfig :=
  {| pc_tlsServerName := "example.org"; pc_displayName := "Node" |}.

Definition base_db : Db :=
  set_publicConfigs <["p1"%string := public_config]> (
  set_profiles <["p1"%string := profile]> (
  set_endpoints <["e1"%string := endpoint]> (
  set_subscriptions <["s1"%string := subscription]> (
  set_devices <["d1"%string := device]> (
  set_nodes <["n1"%string := node]> empty_db))))).

Lemma base_reachable : Reachable base_db.
Proof.
  unfold reachable, base_db.
  eapply rtc_r; [|apply StepConfig].
  eapply rtc_r; [|apply StepProfile; vm_compute; reflexivity].
  eapply rtc_r; [|apply StepEndpoint; vm_compute; reflexivity].
  eapply rtc_r; [|apply StepSubscriptions].
  eapply rtc_r; [|apply StepDevice; vm_compute; reflexivity].
  apply rtc_once, StepNode; reflexivity.
Qed.

(** Alice's access is scheduled at 10. *)
Definition grant_request : ScheduleNodeAccessGrantInput := {| si_nodeId := "n1"; si_deviceId := "d1";
  si_expiresAt := 900000; si_syncJobIdempotencyKey := "job"; si_outboxEventIdempotencyKey := "event";
  si_actorUserId := None |}.
Definition granted_db : Db := (schedule plain_uuid toy_hmac (Some config) grant_request 10 base_db).2.

Lemma granted_steps : rtc Step base_db granted_db.
Proof. apply steps_commit; [apply TSchedule|vm_compute; reflexivity]. Qed.

(** The worker leases and completes the job of version 1. *)
Definition grant_job : NodeSyncRequestedEvent := {| cmd_resource := GrantResource "u0";
  cmd_nodeSyncJobId := "u1"; cmd_targetVersion := 1 |}.
Definition worked (a : sync_action) (db : Db) : Db :=
  set_jobs (λ t, (statement 30 10 5 a t).2) db.
Definition leased_db : Db :=
  worked (SLease (context_of granted_db) grant_job "worker" "lease" 20) granted_db.
Definition delivered_db : Db := worked (SComplete "u1" "worker" "lease" 21) leased_db.
(** The agent fetches its configuration at 30 and acknowledges it at 40. *)
Definition fetch := snapshotInTransaction toy_hmac AgentExamples.node_hash config "n1" 30.
Definition fetched_db : Db := (atomically fetch delivered_db).2.
Definition pending : NodeAgentAcknowledgement := {| ack_nodeSyncJobId := "u1"; ack_targetVersion := 1;
  ack_snapshotHash := "8888888888888888888888888888888888888888888888888888888888888888" |}.
Definition delivered_snapshot : NodeAgentConfigurationSnapshot :=
  {| sn_desiredConfigVersion := 1; sn_appliedConfigVersion := 0;
     sn_pendingAcknowledgement := Some pending;
     sn_grants := [{| g_id := "u0"; g_status := GRANT_PENDING;
                      g_expiresAt := AgentExamples.print_instant 900000; g_desiredVersion := 1;
                      g_appliedVersion := 0; g_revokedAt := None;
                      g_dataPlaneCredential := Some "48484848-4848-4848-8848-484848484848"%string |}];
     sn_routes := [] |}.
Definition acknowledgement : AcknowledgeNodeConfigInput := ack_input "n1" pending.
Definition acknowledged_db : Db := (acknowledgeNodeConfig acknowledgement 40 fetched_db).2.

Lemma delivered_steps : rtc Step granted_db delivered_db.
Proof.
  eapply rtc_l; [by apply (StepJobs _ _ _ _ _ _ _ 30 10 5 30 10 5 None
    (SLease (context_of granted_db) grant_job "worker" "lease" 20))|].
  apply rtc_once. by apply (StepJobs _ _ _ _ _ _ _ 30 10 5 30 10 5 None
    (SComplete "u1" "worker" "lease" 21)).
Qed.
Lemma fetched_steps : rtc Step delivered_db fetched_db.
Proof. apply steps_commit; [apply TSnapshot|vm_compute; reflexivity]. Qed.
Lemma fetched_runs : fetch delivered_db = (Ok delivered_snapshot, fetched_db).
Proof. vm_compute. reflexivity. Qed.
Lemma acknowledged_steps : rtc Step fetched_db acknowledged_db.
Proof. apply steps_commit; [apply TAcknowledge|vm_compute; reflexivity]. Qed.

Lemma granted_reachable : Reachable granted_db.
Proof. exact (later_reachable _ _ base_reachable granted_steps). Qed.
Lemma delivered_reachable : Reachable delivered_db.
Proof. exact (later_reachable _ _ granted_reachable delivered_steps). Qed.
Lemma fetched_reachable : Reachable fetched_db.
Proof. exact (later_reachable _ _ delivered_reachable fetched_steps). Qed.
Lemma acknowledged_reachable : Reachable acknowledged_db.
Proof. exact (later_reachable _ _ fetched_reachable acknowledged_steps). Qed.

(** ** The theorems on this run *)

Lemma control_plane_invariant_witness :
  ∃ n, db_nodes acknowledged_db !! "n1"%string = Some n ∧ n_appliedConfigVersion n = 1 ∧
    (n_appliedConfigVersion n = 0 ∨ ∃ job a j, db_acks acknowledged_db !! job = Some a ∧
       na_nodeId a = "n1"%string ∧ na_targetVersion a = n_appliedConfigVersion n ∧
       db_jobs acknowledged_db !! job = Some j ∧ j_status j = JOB_SUCCEEDED ∧
       j_nodeId j = "n1"%string ∧ j_targetVersion j = n_appliedConfigVersion n).
Proof.
  eexists. split; [vm_compute; reflexivity|]. split; [reflexivity|].
  eapply (control_plane_invariant _ _ _ _ _ _ _ _ _ _ _ _ _ _ acknowledged_db acknowledged_reachable).
  vm_compute. reflexivity.
Defined.

Lemma every_job_is_announced_witness :
  ∃ j, db_jobs granted_db !! "u1"%string = Some j ∧
  ∃ key k e command, db_eventKeys granted_db !! key = Some k ∧
    db_events granted_db !! ek_id k = Some e ∧ oe_topic e = Worker.node_sync_topic ∧
    Worker.nodeSyncRequestedEventSchema AgentExamples.any_text (oe_payload e) = Some command ∧
    names_job command j = true.
Proof.
  eexists. split; [vm_compute; reflexivity|].
  eapply (every_job_is_announced _ _ _ _ _ _ _ _ _ _ _ _ _ _ granted_db "u1" _ granted_reachable);
    [vm_compute; reflexivity|reflexivity|done..|vm_compute; discriminate].
Defined.

Lemma acknowledge_exact_witness :
  acknowledgement_accepted acknowledgement fetched_db = true ∧
  ∃ r, acknowledged fetched_db acknowledged_db acknowledgement r.
Proof.
  assert (Hrun : acknowledgeNodeConfig acknowledgement 40 fetched_db =
    (Ok {| ar_nodeId := "n1"; ar_nodeSyncJobId := "u1"; ar_appliedConfigVersion := 1 |}, acknowledged_db)).
  { apply AgentExamples.pair_fst. vm_compute. reflexivity. }
  assert (Hn : is_Some (db_nodes fetched_db !! "n1"%string)) by (vm_compute; eauto).
  destruct Hn as [n Hn].
  pose proof (acknowledge_exact _ _ _ _ _ _ _ _ _ _ _ _ _ _ acknowledgement 40 fetched_db n
    fetched_reachable Hn) as Hex.
  rewrite Hrun in Hex. destruct Hex as [H1 H2]; [vm_compute in Hn; by injection Hn as <-|].
  split; [exact H1|]. eexists. exact H2.
Defined.

Lemma snapshot_is_exact_witness :
  ∃ out, out ∈ sn_grants delivered_snapshot ∧ ∃ g, db_grants delivered_db !! "u0"%string = Some g ∧
    snapshot_grant_exact toy_hmac config "n1" 30 ("u0"%string, g) out.
Proof.
  assert (Hg : is_Some (db_grants delivered_db !! "u0"%string)) by (vm_compute; eauto).
  destruct Hg as [g Hg].
  destruct (snapshot_is_exact _ _ _ _ _ _ _ _ _ _ _ _ _ _ "n1" 30 delivered_db delivered_snapshot
    fetched_db delivered_reachable fetched_runs) as (_ & Hout & _).
  destruct (Hout "u0"%string g Hg) as (out & Hin & Hex).
  - vm_compute in Hg. by injection Hg as <-.
  - exists out. split; [exact Hin|]. exists g. split; [exact Hg|exact Hex].
Defined.

Lemma ready_access_is_acknowledged_witness :
  ∃ g, db_grants acknowledged_db !! "u0"%string = Some g ∧
  ∃ job a j v, db_acks acknowledged_db !! job = Some a ∧ na_nodeId a = gr_nodeId g ∧
    db_jobs acknowledged_db !! job = Some j ∧ j_status j = JOB_SUCCEEDED ∧
    Some 1 = Some v ∧ v ≤ na_targetVersion a ∧ gr_desiredVersion g ≤ na_targetVersion a.
Proof.
  assert (Hg : is_Some (db_grants acknowledged_db !! "u0"%string)) by (vm_compute; eauto).
  assert (Hn : is_Some (db_nodes acknowledged_db !! "n1"%string)) by (vm_compute; eauto).
  destruct Hg as [g Hg], Hn as [n Hn]. exists g. split; [exact Hg|].
  pose proof Hg as Eg. pose proof Hn as En. vm_compute in Eg, En. injection Eg as Eg. injection En as En.
  apply (ready_access_is_acknowledged _ _ _ _ _ _ _ _ _ _ _ _ _ _ acknowledged_db "u0" g n true true
    (Some 1) 60 acknowledged_reachable Hg); rewrite <- Eg; [exact Hn|]. rewrite <- En. reflexivity.
Defined.

(** ** Cutting off *)

Definition quarantine_request : QuarantineNodeInput := {| qi_nodeId := "n1";
  qi_syncJobIdempotencyKey := "quarantine"; qi_outboxEventIdempotencyKey := "quarantine-event";
  qi_actorUserId := None |}.
Definition quarantined_db : Db := (quarantine plain_uuid quarantine_request 70 acknowledged_db).2.
Definition revoked_db : Db := (revoke plain_uuid "alice" "d1" 70 acknowledged_db).2.

Lemma quarantine_cuts_off_witness :
  node_cut_off acknowledged_db quarantined_db quarantine_request ∧ Reachable quarantined_db.
Proof.
  pose proof (quarantine_cuts_off _ _ _ _ _ _ _ _ _ _ _ _ _ _ quarantine_request 70 acknowledged_db
    acknowledged_reachable) as H. fold quarantined_db in H.
  assert (Hok : succeeds (quarantine plain_uuid quarantine_request 70 acknowledged_db) = true)
    by (vm_compute; reflexivity).
  unfold quarantined_db, succeeds in *.
  destruct (quarantine _ _ _ _) as [[r|e] db']; [|discriminate Hok]. exact (proj2 H).
Defined.

Lemma device_revocation_cuts_off_witness :
  succeeds (revoke plain_uuid "alice" "d1" 70 acknowledged_db) = true ∧
  ∀ gid g, db_grants revoked_db !! gid = Some g → gr_deviceId g = "d1"%string → live g = false.
Proof.
  pose proof (device_revocation_cuts_off _ _ _ _ _ _ _ _ _ _ _ _ _ _ "alice" "d1" 70 acknowledged_db
    acknowledged_reachable) as H.
  assert (Hok : (revoke plain_uuid "alice" "d1" 70 acknowledged_db).1 = Ok DeviceRevoked)
    by (vm_compute; reflexivity).
  unfold revoked_db, succeeds. destruct (revoke _ _ _ _ _) as [r db']. simpl in Hok. subst r.
  split; [reflexivity|exact (proj2 (proj2 H))].
Defined.

Lemma revoked_steps : rtc Step acknowledged_db revoked_db.
Proof. apply steps_commit; [apply TRevoke|vm_compute; reflexivity]. Qed.

(** The worker runs after the revocation. *)
Lemma revocation_is_permanent_witness :
  let later := worked (SReclaim 90) revoked_db in
  (∃ d, db_devices later !! "d1"%string = Some d ∧ dv_status d = DEVICE_REVOKED) ∧
  ∀ gid g, db_grants later !! gid = Some g → gr_deviceId g = "d1"%string → live g = false.
Proof.
  intros later.
  assert (Hsteps : rtc Step revoked_db later)
    by (apply rtc_once; by apply (StepJobs _ _ _ _ _ _ _ 30 10 5 30 10 5 None (SReclaim 90))).
  assert (Hd : db_devices revoked_db !! "d1"%string =
    Some (revoke_device 70 device))
    by (vm_compute; reflexivity).
  exact (proj1 (revocation_is_permanent _ _ _ _ _ _ _ _ _ _ _ _ _ _ revoked_db later
    (later_reachable _ _ acknowledged_reachable revoked_steps) Hsteps) _ _ Hd eq_refl).
Defined.

Lemma lifecycle_changes_witness :
  succeeds (drain "n1" None acknowledged_db) = true ∧
  status_changed acknowledged_db (drain "n1" None acknowledged_db).2 "n1" NODE_DRAINING.
Proof.
  assert (Hok : succeeds (drain "n1" None acknowledged_db) = true) by (vm_compute; reflexivity).
  split; [exact Hok|].
  pose proof (lifecycle_changes _ _ _ _ _ _ _ _ _ _ _ _ _ _ "n1" None acknowledged_db
    acknowledged_reachable NODE_DRAINING (drain "n1" None)) as H.
  unfold succeeds in *. destruct (drain _ _ _) as [[r|e] db']; [|discriminate Hok].
  apply H. right. left.
Defined.

Lemma cancellation_cuts_off_witness :
  (cancelSubscriptionAccess plain_uuid "s1" 70 acknowledged_db).1 = Ok Cancelled ∧
  access_cancelled acknowledged_db (cancelSubscriptionAccess plain_uuid "s1" 70 acknowledged_db).2 "s1" 70.
Proof.
  pose proof (cancellation_cuts_off _ _ _ _ _ _ _ _ _ _ _ _ _ _ "s1" 70 acknowledged_db
    acknowledged_reachable) as H.
  assert (Hok : (cancelSubscriptionAccess plain_uuid "s1" 70 acknowledged_db).1 = Ok Cancelled)
    by (vm_compute; reflexivity).
  split; [exact Hok|]. destruct (cancelSubscriptionAccess _ _ _ _) as [r db']. simpl in Hok. subst r. exact H.
Defined.

Lemma expiry_reaches_the_node_witness :
  let run := atomically (scheduleExpiredSubscriptionOnNode plain_uuid "s1" "n1" 1000000) acknowledged_db in
  run.1 = Ok true ∧ expiry_scheduled acknowledged_db run.2 "s1" "n1" 1000000.
Proof.
  intros run. pose proof (expiry_reaches_the_node _ _ _ _ _ _ _ _ _ _ _ _ _ _ "s1" "n1" 1000000
    acknowledged_db acknowledged_reachable) as H.
  assert (Hok : run.1 = Ok true) by (vm_compute; reflexivity).
  split; [exact Hok|]. fold run in H. destruct run as [r db']. simpl in Hok. subst r. exact H.
Defined.

(** ** Granting, publishing, reconciling *)

Definition grant_result : ScheduleNodeAccessGrantResult := {| sr_nodeAccessGrantId := "u0";
  sr_nodeSyncJobId := "u1"; sr_outboxEventId := "u2"; sr_targetVersion := 1 |}.

Lemma scheduling_is_idempotent_witness :
  schedule plain_uuid toy_hmac (Some config) grant_request 80 acknowledged_db =
    (Ok grant_result, acknowledged_db) ∧
  grant_scheduled acknowledged_db grant_request grant_result.
Proof.
  assert (Hrun : schedule plain_uuid toy_hmac (Some config) grant_request 10 base_db =
    (Ok grant_result, granted_db)) by (apply AgentExamples.pair_fst; vm_compute; reflexivity).
  apply (scheduling_is_idempotent _ _ _ _ _ _ _ _ _ _ _ _ _ _ grant_request 10 80 base_db grant_result
    granted_db acknowledged_db base_reachable Hrun).
  etrans; [exact delivered_steps|]. etrans; [exact fetched_steps|exact acknowledged_steps].
Defined.

Definition route_request : PublishConnectionRouteInput := {| pi_nodeId := "n1"; pi_endpointId := "e1";
  pi_connectionProfileId := "p1"; pi_syncJobIdempotencyKey := "route-job";
  pi_outboxEventIdempotencyKey := "route-event"; pi_actorUserId := None |}.
Definition published_db : Db :=
  (publishConnectionRoute plain_uuid AgentExamples.any_text route_request 90 acknowledged_db).2.
Definition publish_result : PublishConnectionRouteResult :=
  {| pr_nodeSyncJobId := "u3"; pr_outboxEventId := "u4"; pr_activationVersion := 2 |}.

Lemma publication_opens_the_route_witness :
  route_published published_db route_request publish_result ∧
  publishConnectionRoute plain_uuid AgentExamples.any_text route_request 95 published_db =
    (Ok publish_result, published_db).
Proof.
  assert (Hrun : publishConnectionRoute plain_uuid AgentExamples.any_text route_request 90 acknowledged_db =
    (Ok publish_result, published_db)) by (apply AgentExamples.pair_fst; vm_compute; reflexivity).
  destruct (publication_opens_the_route plain_uuid toy_hmac AgentExamples.any_text AgentExamples.node_hash
    config (Some "agents"%string) "pepper" 30 10 5 30 10 5 None route_request 90 95 acknowledged_db
    publish_result published_db published_db acknowledged_reachable Hrun) as (H1 & _ & H2);
    [|apply rtc_refl|reflexivity..|vm_compute; discriminate|split; [exact H1|exact H2]].
  intros Heq. apply (f_equal (λ db, db_routes db !! ("e1", "p1")%string)) in Heq.
  vm_compute in Heq. discriminate Heq.
Defined.

Lemma reconciliation_settles_witness :
  let run := atomically (reconcileOneNode plain_uuid toy_hmac "pepper" "n1" false 100) base_db in
  run.1 = Ok true ∧ reconciled base_db run.2 "n1" false 100 true ∧
  atomically (reconcileOneNode plain_uuid toy_hmac "pepper" "n1" false 100) run.2 = (Ok false, run.2).
Proof.
  intros run. pose proof (reconciliation_settles _ _ _ _ _ _ _ _ _ _ _ _ _ _ "n1" false 100 base_db
    base_reachable) as H.
  assert (Hok : run.1 = Ok true) by (vm_compute; reflexivity).
  split; [exact Hok|]. fold run in H. destruct run as [r db']. simpl in Hok. subst r.
  split; [exact (proj1 H)|]. exact (proj2 H eq_refl).
Defined.

Lemma candidate_query_is_exact_witness :
  reconciliation_candidate base_db 100 "n1" node = true ∧ ¬ node_settled base_db "n1" 100 true.
Proof.
  assert (Hc : reconciliation_candidate base_db 100 "n1" node = true) by (vm_compute; reflexivity).
  split; [exact Hc|].
  refine (proj2 (proj1 (candidate_query_is_exact plain_uuid toy_hmac AgentExamples.any_text
    AgentExamples.node_hash config (Some "agents"%string) "pepper" 30 10 5 30 10 5 None "n1" node 100
    base_db base_reachable _) Hc)).
  vm_compute. reflexivity.
Defined.

(** The drained node with a grant missing is reconciled, not restored. *)
Definition drained_db : Db := (drain "n1" None base_db).2.
Lemma drained_steps : rtc Step base_db drained_db.
Proof. apply steps_commit; [apply TDrain|vm_compute; reflexivity]. Qed.

Lemma restoring_requires_reconciliation_witness :
  let run := restoreNodeToHealthy plain_uuid toy_hmac "pepper" "n1" None 100 drained_db in
  run.1 = Ok (ReconciliationRequired "n1") ∧ ¬ node_settled drained_db "n1" 100 true ∧
  node_settled run.2 "n1" 100 true.
Proof.
  intros run.
  assert (Hok : run.1 = Ok (ReconciliationRequired "n1")) by (vm_compute; reflexivity).
  split; [exact Hok|].
  destruct (restoring_requires_reconciliation plain_uuid toy_hmac AgentExamples.any_text
    AgentExamples.node_hash config (Some "agents"%string) "pepper" 30 10 5 30 10 5 None "n1" None 100
    drained_db _ _ (later_reachable _ _ base_reachable drained_steps) (AgentExamples.pair_fst _ _ Hok))
    as (_ & H1 & H2 & _). split; [exact H1|exact H2].
Defined.

(** ** The agent's endpoints *)

Definition secret : string := "0123456789012345678901234567890123456789012".
Definition rotated_db : Db :=
  (rotate plain_uuid toy_hmac (Some "agents"%string) "n1" secret 50 fetched_db).2.
Lemma rotated_steps : rtc Step fetched_db rotated_db.
Proof. apply steps_commit; [apply TRotate|vm_compute; reflexivity]. Qed.

Lemma credential_rotation_is_exclusive_witness :
  (rotate plain_uuid toy_hmac (Some "agents"%string) "n1" secret 50 fetched_db).1 = Ok ("u3"%string, secret) ∧
  ∃ h, secret_hash toy_hmac (Some "agents"%string) secret = Some h ∧
    ∀ c, speaks_for rotated_db "n1" c ↔
         c = {| nc_nodeId := "n1"; nc_secretHash := h; nc_revokedAt := None |}.
Proof.
  pose proof (credential_rotation_is_exclusive plain_uuid toy_hmac AgentExamples.any_text
    AgentExamples.node_hash config (Some "agents"%string) "pepper" 30 10 5 30 10 5 None "n1" secret 50
    fetched_db fetched_reachable) as [H _].
  assert (Hok : (rotate plain_uuid toy_hmac (Some "agents"%string) "n1" secret 50 fetched_db).1 =
    Ok ("u3"%string, secret)) by (vm_compute; reflexivity).
  split; [exact Hok|]. unfold rotated_db.
  destruct (rotate _ _ _ _ _ _ _) as [r db']. simpl in Hok. subst r. exact (proj2 H).
Defined.

(** A snapshot is acknowledged after the credential was rotated. *)
Lemma delivered_snapshot_is_acknowledged_witness :
  ∃ r db3, acknowledgeNodeConfig acknowledgement 60 rotated_db = (Ok r, db3) ∧
    ar_appliedConfigVersion r = 1 ∧ n_appliedConfigVersion <$> db_nodes db3 !! "n1"%string = Some 1 ∧
    ∀ id g, db_grants db3 !! id = Some g → gr_nodeId g = "n1"%string →
      gr_appliedVersion g = gr_desiredVersion g.
Proof.
  assert (Hd : n_desiredConfigVersion <$> db_nodes rotated_db !! "n1"%string = Some 1) by (vm_compute; reflexivity).
  apply fmap_Some in Hd as (n & Hn & Hd).
  destruct (delivered_snapshot_is_acknowledged _ _ _ _ _ _ _ _ _ _ _ _ _ _ "n1" 30 60 delivered_db
    delivered_snapshot fetched_db pending rotated_db n delivered_reachable fetched_runs eq_refl rotated_steps Hn)
    as (r & db3 & Hrun & Happ & Hver & Hall).
  - by rewrite <- Hd.
  - intros k Hk. assert (Hnone : is_null (db_acks rotated_db !! ack_nodeSyncJobId pending) = true) by (vm_compute; reflexivity).
    by rewrite Hk in Hnone.
  - simpl in Hver. assert (Hr : ar_appliedConfigVersion r = 1) by lia. exists r, db3. rewrite <- Hr.
    split_and!; [exact Hrun|done|exact Happ|]. intros id g Hg Hgn. by apply (Hall id g Hg Hgn); right.
Defined.

Definition bearer : option string := Some ("Bearer " +:+ secret).
Lemma agent_requests_are_authenticated_witness :
  let run := acknowledge toy_hmac AgentExamples.any_text (Some "agents"%string)
               (encode_acknowledgement pending) bearer 60 rotated_db in
  run.1 = Ok tt ∧
  ∃ a nodeId r, nodeAgentAcknowledgementSchema AgentExamples.any_text (encode_acknowledgement pending) = Some a ∧
    authenticated toy_hmac (Some "agents"%string) rotated_db (extractBearerToken bearer) nodeId ∧
    acknowledged rotated_db run.2 (ack_input nodeId a) r.
Proof.
  intros run. pose proof (agent_requests_are_authenticated plain_uuid toy_hmac AgentExamples.any_text
    AgentExamples.node_hash config (Some "agents"%string) "pepper" 30 10 5 30 10 5 None
    (encode_acknowledgement pending) bearer 60 rotated_db
    (later_reachable _ _ fetched_reachable rotated_steps)) as (_ & _ & H).
  assert (Hok : run.1 = Ok tt) by (vm_compute; reflexivity).
  split; [exact Hok|]. fold run in H. destruct run as [r db']. simpl in Hok. subst r. exact H.
Defined.

(** ** Paging *)

Lemma pages_visit_every_candidate_witness :
  let p (id : string) (n : Z) := 0 <? n in
  let t : Table Z := {["a"%string := 1; "b"%string := 0; "c"%string := 2; "d"%string := 3]} in
  ∃ k, (k * 2 < 3)%nat ∧
       "a"%string ∈ (next_page (query_page p t) 2 (after_pages p t 2 k (Some "a"%string))).1.
Proof.
  intros p t.
  apply (pages_visit_every_candidate p t 2 (Some "a"%string) "a"%string 1); [lia|reflexivity|reflexivity].
Defined.

(** ** End to end *)

Definition served_snapshot : NodeAgentConfigurationSnapshot :=
  {| sn_desiredConfigVersion := 1; sn_appliedConfigVersion := 1; sn_pendingAcknowledgement := None;
     sn_grants := [{| g_id := "u0"; g_status := GRANT_ACTIVE;
                      g_expiresAt := AgentExamples.print_instant 900000; g_desiredVersion := 1;
                      g_appliedVersion := 1; g_revokedAt := None;
                      g_dataPlaneCredential := Some "48484848-4848-4848-8848-484848484848"%string |}];
     sn_routes := [] |}.
Lemma served_fetch : fetch acknowledged_db = (Ok served_snapshot, acknowledged_db).
Proof. vm_compute. reflexivity. Qed.

Lemma rows_checked {A} (p : A → bool) (t : Table A) :
  forallb p (map_to_list t).*2 = true → ∀ id a, t !! id = Some a → p a = true.
Proof.
  intros Hall id a Ha. eapply forallb_forall in Hall; [exact Hall|].
  apply list_elem_of_In, list_elem_of_fmap. exists (id, a). by rewrite elem_of_map_to_list.
Qed.

Definition characters (n : nat) (s : string) : bool :=
  ((1 <=? Text.codePointLength s) && (Text.codePointLength s <=? n))%nat.
Lemma characters_spec n s : characters n s = true → char_length_between 1 n s.
Proof. intros [H1%Nat.leb_le H2%Nat.leb_le]%andb_prop. by split. Qed.

Lemma acknowledged_typed : columns_typed AgentExamples.any_text acknowledged_db.
Proof.
  split; intros id row Hrow.
  - refine (rows_checked (λ n, int4 (n_desiredConfigVersion n)) (db_nodes acknowledged_db) _ _ _ Hrow).
    vm_compute. reflexivity.
  - assert (H := rows_checked (λ g, (gr_expiresAt g =? 900000) && is_null (gr_revokedAt g))
      (db_grants acknowledged_db)).
    destruct (andb_prop _ _ (H ltac:(vm_compute; reflexivity) _ _ Hrow)) as [->%Z.eqb_eq ->%is_null_true].
    split_and!; [exact I|apply Is_true_true; reflexivity|intros t Ht; discriminate Ht].
  - exact I.
  - assert (H := rows_checked (λ e, characters 253 (en_host e) && ascii_text (en_host e) &&
      (en_port e =? 443) && (en_priority e =? 1)) (db_endpoints acknowledged_db)).
    destruct (andb_prop _ _ (H ltac:(vm_compute; reflexivity) _ _ Hrow))
      as [[[H1%characters_spec H2]%andb_prop ->%Z.eqb_eq]%andb_prop ->%Z.eqb_eq].
    clear Hrow H. split_and!; try done. by apply Is_true_true.
  - assert (H := rows_checked (λ e, (cp_version e =? 1) && (cp_priority e =? 1)) (db_profiles acknowledged_db)).
    destruct (andb_prop _ _ (H ltac:(vm_compute; reflexivity) _ _ Hrow)) as [->%Z.eqb_eq ->%Z.eqb_eq].
    clear Hrow H. by split_and!.
  - assert (H := rows_checked (λ c, characters 253 (pc_tlsServerName c) && ascii_text (pc_tlsServerName c) &&
      characters 128 (pc_displayName c)) (db_publicConfigs acknowledged_db)).
    destruct (andb_prop _ _ (H ltac:(vm_compute; reflexivity) _ _ Hrow))
      as [[H1%characters_spec H2]%andb_prop H3%characters_spec].
    clear Hrow H. split_and!; try done. by apply Is_true_true.
Qed.

(** A stand-in for [z.datetime]: what reads as an instant of a four-digit year. *)
Definition datetime_text (s : string) : bool := from_option four_digit_year false (Date_parse s).
Lemma print_instant_datetime t : time_value t → datetime_text (toISOString t) = four_digit_year t.
Proof. intros _. unfold datetime_text. cbn. by rewrite AgentExamples.read_print_instant. Qed.

Lemma served_fits : fits_contract acknowledged_db "n1" served_snapshot.
Proof.
  split.
  - intros id g Hg _. assert (H := rows_checked (λ g, four_digit_year (gr_expiresAt g) && is_null (gr_revokedAt g))
      (db_grants acknowledged_db)).
    destruct (andb_prop _ _ (H ltac:(vm_compute; reflexivity) _ _ Hg)) as [-> ->%is_null_true].
    split; [exact I|intros t Ht; discriminate Ht].
  - apply Forall_forall. intros route Hr. apply Nat.leb_le.
    assert (H : forallb (λ route, (Text.utf16_length (pc_displayName (rt_publicConfig route)) <=? 128)%nat)
      (sn_routes served_snapshot) = true) by (vm_compute; reflexivity).
    eapply forallb_forall in H; [exact H|by apply list_elem_of_In].
Qed.

Lemma delivered_snapshot_is_understood_witness :
  nodeAgentConfigurationSnapshotSchema AgentExamples.any_text datetime_text
    (encode_snapshot served_snapshot) = Some served_snapshot.
Proof.
  apply (delivered_snapshot_is_understood plain_uuid toy_hmac AgentExamples.any_text
    datetime_text AgentExamples.node_hash config (Some "agents"%string) "pepper"
    30 10 5 30 10 5 None "n1" 30 acknowledged_db served_snapshot acknowledged_db
    AgentExamples.node_hash_hex (λ _ _, I) print_instant_datetime
    acknowledged_reachable acknowledged_typed served_fetch).
  split; [reflexivity|exact served_fits].
Defined.

(** A name of 65 characters outside the BMP passes its CHECK, and the agent's
    contract refuses it. *)
Definition emoji_name : string :=
  Nat.iter 65 (String.append (String.string_of_list_ascii (Ascii.ascii_of_nat <$> [240; 159; 152; 128]%nat))) EmptyString.
Example emoji_name_is_refused :
  characters 128 emoji_name = true ∧
  public_config_schema (encode_public_config {| pc_tlsServerName := "example.org"; pc_displayName := emoji_name |}) = None.
Proof. split; vm_compute; reflexivity. Qed.

Definition served := AgentExamples.example_apply served_snapshot AgentExamples.fresh_world.
Lemma served_access_is_exact_witness :
  rt_serves (LocalXrayAdapter.w_runtime served.2) =
    [{| cl_grantId := "u0"; cl_credential := "48484848-4848-4848-8848-484848484848" |}] ∧
  ∃ n, ∀ client, client ∈ rt_serves (LocalXrayAdapter.w_runtime served.2) ↔
    gives_access toy_hmac config acknowledged_db "n1" 30 (AgentExamples.example_clock n) client.
Proof.
  split; [vm_compute; reflexivity|].
  assert (Hok : served.1 = Ok LocalXrayAdapter.Applied) by (vm_compute; reflexivity).
  refine (served_access_is_exact plain_uuid toy_hmac AgentExamples.any_text
    AgentExamples.readable_date AgentExamples.node_hash config (Some "agents"%string) "pepper"
    30 10 5 30 10 5 None AgentExamples.example_runtime_laws AgentExamples.no_faults false AgentExamples.parent
    AgentExamples.example_clock None "state"
    AgentExamples.no_faults_ENOENT AgentExamples.example_clock_is_time "n1" 30
    acknowledged_db served_snapshot acknowledged_db served_snapshot AgentExamples.fresh_world _ _
    acknowledged_reachable acknowledged_typed served_fetch _ AgentExamples.fresh_closed_ok
    (AgentExamples.pair_fst _ _ Hok)).
  vm_compute. reflexivity.
Defined.
