(* ===== verification/HealthExamples.v ===== *)
(** * Concrete health cycles

    Two sources report a failing route, the cycle excludes the scope and the
    decision opens an incident with a promotion: the run the theorems on the
    health stores are applied to. *)

From stdpp Require Import pretty.
From S2P Require Import Prelude.
From S2P Require Import Json.
From S2P Require Import OperationalPolicy.
From S2P Require Import HealthDecision.
From S2P Require Import Sql.
From S2P Require Import XrayAccess.
From S2P Require Import HealthStore.
From S2P Require Import HealthEvidence.
From S2P Require Import HealthAction.
From S2P Require Import HealthInvariant.
From S2P Require Import HealthSystem.
From S2P Require Import HealthExact.
From S2P Require AgentExamples.
From S2P Require Import ControlPlaneExamples.
Open Scope Z_scope.

#[local] Existing Instance AgentExamples.binaryDates.
#[local] Existing Instance codeUnitLocale.

(** A stand-in for SHA-256 of a cycle document: its first field. *)
Definition cycle_hash (j : json) : string :=
  match j with JObj ((_, JStr version) :: _) => "cycle " +:+ version | _ => "" end.

Notation health_step := (health_step plain_uuid AgentExamples.any_text cycle_hash id 5).
Notation health_reachable := (health_reachable plain_uuid AgentExamples.any_text cycle_hash id 5).

Lemma plain_uuid_inj : Inj (=) (=) plain_uuid.
Proof. intros x y Heq. unfold plain_uuid in Heq. injection Heq as Heq. by apply pretty_nat_inj. Qed.

Definition strict_policy : HealthPolicyConfig :=
  {| heartbeatIntervalSeconds := 30; probeIntervalSeconds := 60; probeTimeoutSeconds := 10;
     probeSourceQuorum := 2; degradedFailureCycles := 1; excludeFailureCycles := 2;
     recoverySuccessCycles := 2; recoveryMinimumSeconds := 60; cooldownSeconds := 300;
     staleHeartbeatSeconds := 90; resultFreshnessSeconds := 60;
     mixedUnknownDegradedCycles := 2; additionalProbeDelaySeconds := 15;
     partialBlockedFailureCycles := 2; blockedTargetNetworkQuorum := 2;
     routeFailureClasses := ROUTE_FAILURE_CLASSES |}.

(** ** The run *)

Definition affected : Scope := {| scope_kind := PROFILE; scope_id := "route" |}.
Definition report (source id : string) (start : Z) : RecordProbeResultInput :=
  {| rp_probeSourceId := source; rp_sourceResultId := id; rp_affectedScope := affected;
     rp_cycleStartedAt := start; rp_routeVersion := 1; rp_outcome := PO_FAILURE;
     rp_failureClass := Some DNS; rp_controlHealthy := true |}.
Definition cycle (start : Z) (ids : list string) : ApplyHealthCycleInput :=
  {| ah_affectedScope := affected; ah_routeVersion := 1; ah_cycleStartedAt := start;
     ah_probeResultIds := ids; ah_lastHeartbeatAt := Some start;
     ah_recoveryGates := {| rg_clockTrusted := true; rg_servingCheckPassed := true;
       rg_desiredVersion := 3; rg_appliedVersion := 3 |};
     ah_criticalTrustFailure := None |}.
Definition source (key : string) : ProbeSource :=
  {| so_independenceKey := key; so_status := SOURCE_ACTIVE |}.
Definition policy_version : PolicyVersion :=
  {| pv_id := "p1"; pv_code := "strict"; pv_config := encode_health_policy strict_policy |}.

Definition administered_db : HealthDb :=
  set_activations (λ l, l ++ [{| pa_sequence := 1; pa_policyVersionId := "p1" |}])
    (set_versions (λ l, l ++ [policy_version])
      (set_sources <["b"%string := source "asn-2"]>
        (set_sources <["a"%string := source "asn-1"]> empty_health_db))).
Definition record_run input now db := recordProbeResult plain_uuid AgentExamples.any_text input now db.
Definition cycle_run input version now db :=
  evaluateAndApplyDecision plain_uuid AgentExamples.any_text cycle_hash input version false now db.
Definition reported_db : HealthDb :=
  (record_run (report "b" "r2" 1000) 3000 (record_run (report "a" "r1" 1000) 2000 administered_db).2).2.
Definition failing_cycle : ApplyHealthCycleInput := cycle 1000 ["u0"; "u1"]%string.
Definition degraded_db : HealthDb := (cycle_run failing_cycle 0 4000 reported_db).2.
Definition again_db : HealthDb :=
  (record_run (report "b" "r4" 70000) 72000 (record_run (report "a" "r3" 70000) 71000 degraded_db).2).2.
Definition second_cycle : ApplyHealthCycleInput := cycle 70000 ["u4"; "u5"]%string.
Definition excluded_db : HealthDb := (cycle_run second_cycle 1 73000 again_db).2.
Definition action : MaterializeInput :=
  {| mi_availabilityDecisionId := "u7"; mi_servicePrincipal := "health-worker" |}.
Definition acted_db : HealthDb :=
  (materializeDecisionActions plain_uuid AgentExamples.any_text id 5 action 74000 excluded_db).2.

Definition ok {A} (r : outcome HealthError A * HealthDb) : bool :=
  match r.1 with Ok _ => true | Throw _ => false end.

Lemma ok_run {A} (x : outcome HealthError A * HealthDb) : ok x = true → ∃ r, x = (Ok r, x.2).
Proof. destruct x as [[r|e] db]; [eauto|done]. Qed.

Lemma recorded_step input now db : ok (record_run input now db) = true →
  rtc health_step db (record_run input now db).2.
Proof.
  destruct (record_run input now db) as [[r|e] db'] eqn:Hr; [|done]. intros _. by eapply rtc_once, HStepRecord.
Qed.
Lemma decided_step input version now db : ok (cycle_run input version now db) = true →
  rtc health_step db (cycle_run input version now db).2.
Proof.
  destruct (cycle_run input version now db) as [[r|e] db'] eqn:Hr; [|done]. intros _. by eapply rtc_once, HStepDecide.
Qed.

Lemma administered_reachable : health_reachable administered_db.
Proof.
  unfold health_reachable, administered_db.
  eapply rtc_l; [apply (HStepSource _ _ _ _ _ _ "a"%string)|].
  eapply rtc_l; [apply (HStepSource _ _ _ _ _ _ "b"%string)|].
  eapply rtc_l; [apply HStepVersion|]. eapply rtc_l; [apply HStepActivation|]. done.
Qed.
Lemma reported_reachable : health_reachable reported_db.
Proof.
  unfold health_reachable, reported_db. etrans; [apply administered_reachable|].
  etrans; apply recorded_step; by vm_compute.
Qed.
Lemma degraded_steps : rtc health_step reported_db degraded_db.
Proof. apply decided_step. by vm_compute. Qed.
Lemma again_reachable : health_reachable again_db.
Proof.
  unfold health_reachable, again_db. etrans; [apply reported_reachable|]. etrans; [apply degraded_steps|].
  etrans; apply recorded_step; by vm_compute.
Qed.
Lemma excluded_steps : rtc health_step again_db excluded_db.
Proof. apply decided_step. by vm_compute. Qed.
Lemma excluded_reachable : health_reachable excluded_db.
Proof. unfold health_reachable. etrans; [apply again_reachable|apply excluded_steps]. Qed.
Lemma acted_reachable : health_reachable acted_db.
Proof.
  unfold health_reachable. etrans; [apply excluded_reachable|]. unfold acted_db.
  destruct (materializeDecisionActions _ _ _ _ _ _ _) as [[r|e] db'] eqn:Hr.
  - by eapply rtc_once, HStepMaterialize.
  - exfalso. assert (Hok : ok (materializeDecisionActions plain_uuid AgentExamples.any_text id 5 action 74000
      excluded_db) = true) by by vm_compute. by rewrite Hr in Hok.
Qed.

(** ** The theorems at work *)

Lemma found {A B} (o : option A) (f : A → B) b : f <$> o = Some b → ∃ x, o = Some x ∧ f x = b.
Proof. intros (x & Hx & ->)%fmap_Some. eauto. Qed.

(** After two failed cycles the scope's state is the run of two evaluations. *)
Lemma availability_is_a_run_witness :
  ∃ s inputs, h_states acted_db !! "u2"%string = Some s ∧ length inputs = 2%nat ∧
    st_state s = health_run initial_health_state inputs.
Proof.
  destruct (found (h_states acted_db !! "u2"%string) st_version 2) as (s & Hs & Hv); [by vm_compute|].
  destruct (availability_is_a_run _ _ _ _ _ _ _ _ acted_reachable Hs) as (inputs & Hlen & Hrun & _).
  exists s, inputs. split_and!; [done| |done]. lia.
Defined.

(** The second decision's verdict has its quorum. *)
Lemma decisions_are_backed_witness :
  ∃ d policy scope votes verdict, h_decisions acted_db !! "u7"%string = Some d ∧
    de_cycleDecision d = Some CD_FAILED ∧ backed acted_db "u7" d scope policy votes verdict.
Proof.
  destruct (found (h_decisions acted_db !! "u7"%string) de_cycleDecision (Some CD_FAILED)) as (d & Hd & Hv);
    [by vm_compute|].
  destruct (decisions_are_backed _ _ _ _ _ _ _ _ _ acted_reachable Hd Hv)
    as (v & policy & scope & votes & verdict & _ & _ & _ & _ & Hb).
  exists d, policy, scope, votes, verdict. by split_and!.
Defined.

(** The result [u4] was counted by the second decision alone. *)
Lemma evidence_counts_once_witness :
  counted acted_db "u7" "u4" ∧ ∀ did, counted acted_db did "u4" → did = "u7"%string.
Proof.
  destruct (found (h_signals acted_db !! ("u7"%string, "u4"%string)) sg_disposition ACCEPTED) as (row & Hrow & Ha);
    [by vm_compute|].
  pose proof (ex_intro _ row (conj Hrow Ha) : counted acted_db "u7" "u4") as Hc. split; [exact Hc|].
  intros did Hd. eapply evidence_counts_once; [exact acted_reachable|exact Hd|exact Hc].
Defined.

(** The promotion opened for the second decision. *)
Lemma promotions_are_justified_witness :
  ∃ o, h_operations acted_db !! "u9"%string = Some o ∧ op_availabilityDecisionId o = "u7"%string ∧
    op_type o = OT_PROMOTE_STANDBY.
Proof.
  destruct (found (h_operations acted_db !! "u9"%string) op_availabilityDecisionId "u7"%string) as (o & Ho & Hd);
    [by vm_compute|].
  exists o. split_and!; [done..|]. by destruct (promotions_are_justified _ _ _ _ _ _ _ _ acted_reachable Ho).
Defined.

Lemma no_rows {A} (t : Table A) id x : t = ∅ → t !! id = Some x → False.
Proof. intros -> Hx. by rewrite lookup_empty in Hx. Qed.



(** The schema accepts an identifier in upper case, and the row it names is
    found; the trigger of the links does not know it. *)
Example upper_case_is_refused :
  (cycle_run (cycle 1000 ["U0"; "u1"]%string) 0 4000 reported_db).1 = Throw (HealthDbError TriggerRaised).
Proof. by vm_compute. Qed.


(** Its retry, after another cycle was applied, is a replay. *)
Lemma cycle_retry_is_idempotent_witness :
  ∃ r, cycle_run failing_cycle 0 4000 reported_db = (Ok r, degraded_db) ∧
    cycle_run failing_cycle 0 90000 degraded_db =
      (Ok {| ad_decisionId := ad_decisionId r; ad_idempotencyKey := ad_idempotencyKey r;
             ad_stateVersion := ad_stateVersion r; ad_replayed := true |}, degraded_db).
Proof.
  destruct (ok_run (cycle_run failing_cycle 0 4000 reported_db)) as [r Hr]; [by vm_compute|].
  exists r. split; [exact Hr|]. eapply (cycle_retry_is_idempotent plain_uuid (Huuid := plain_uuid_inj));
    [exact reported_reachable|exact Hr|constructor].
Defined.

(** A new report, and its repetition. *)
Lemma record_is_exact_witness :
  let input := report "a" "r9" 1000 in
  record_run input 2000 administered_db =
    (Ok {| rec_signal := probeRowToSignal "u0" (new_result input "asn-1" 2000); rec_replayed := false |},
     set_results <["u0"%string := new_result input "asn-1" 2000]> (set_health_drawn S administered_db)).
Proof.
  intros input. assert (Hs : recordProbeResultSchema AgentExamples.any_text input = Some input) by by vm_compute.
  pose proof (record_is_exact plain_uuid (Huuid := plain_uuid_inj) AgentExamples.any_text cycle_hash id 5
    administered_db input input 2000 administered_reachable Hs) as [_ Hnew].
  destruct Hnew as [Hrun _]; [|exact Hrun].
  intros rid row Hrow. destruct (no_rows (h_results administered_db) rid row ltac:(by vm_compute) Hrow).
Defined.
