(* ===== verification/AccountExamples.v ===== *)
(** * Concrete runs of the account services

    Instances of the parameters of the accounts' model and the theorems of
    AccountTheorems.v applied to one run: a bot is given a key, a subscriber
    gets a device, then a trial, and logs in through Telegram and out again. *)

From Stdlib Require Import QArith.
From stdpp Require Import pretty.
From S2P Require Import Prelude.
From S2P Require Import Keeps.
From S2P Require Import Text.
From S2P Require Import Json.
From S2P Require Import Sql.
From S2P Require Import NodeAgentContract.
From S2P Require Import XrayAccess.
From S2P Require Import ControlPlane.
From S2P Require Import DataPlaneCredential.
From S2P Require Import AccessPolicy.
From S2P Require Import ControlPlaneInvariant.
From S2P Require Import Orchestration.
From S2P Require Import SubscriptionAccess.
From S2P Require Import SubscriptionFeed.
From S2P Require Import Reconciliation.
From S2P Require Import TrialAccess.
From S2P Require Import ControlFrame.
From S2P Require Import ControlPlaneSystem.
From S2P Require Import Base64Url.
From S2P Require Import BotSigningKey.
From S2P Require Import Accounts.
From S2P Require Import AccountInvariant.
From S2P Require Import BotRequests.
From S2P Require Import BotCredentials.
From S2P Require Import Trial.
From S2P Require Import Cabinet.
From S2P Require Import TelegramInitData.
From S2P Require Import Login.
From S2P Require Import AccountSystem.
From S2P Require Import TrialSafety.
From S2P Require Import CabinetSafety.
From S2P Require Import BotSafety.
From S2P Require Import AccountHistory.
From S2P Require Import AccountTheorems.
From S2P Require AgentExamples.
Open Scope Z_scope.

(** ** The parameters *)

Definition numbered (n : nat) : string := "u" +:+ pretty n.
Definition any (s : string) : bool := true.
Definition api : ApiEnvironment := {| DATA_PLANE_CREDENTIAL_PEPPER := Some "pepper"%string |}.
#[local] Existing Instance AgentExamples.binaryDates.
#[local] Existing Instance codeUnitLocale.

(** A stand-in for HMAC-SHA-256 and SHA-256: the bytes of a checksum. *)
Definition checksum (bytes : list Z) : Z := foldl (λ acc b, (acc * 8191 + b + 1) mod 2 ^ 256) 1 bytes.
Fixpoint digest_bytes (n : nat) (z : Z) : list Z :=
  match n with O => [] | S n' => z mod 256 :: digest_bytes n' (z / 256) end.
Definition text_bytes (s : string) : list Z :=
  (λ a, Z.of_nat (Ascii.nat_of_ascii a)) <$> String.list_ascii_of_string s.
Definition key_mac (key : list Z) (text : string) : list Z :=
  digest_bytes 32 (checksum (key ++ 256 :: text_bytes text)).
Definition text_mac (key text : string) : list Z := key_mac (text_bytes key) text.
Definition text_digest (text : string) : list Z := key_mac [] text.
Lemma digest_are_bytes n z : Forall is_byte (digest_bytes n z).
Proof. revert z. induction n as [|n IH]; intros z; constructor; [by apply Z.mod_pos_bound|apply IH]. Qed.

(** A stand-in for AES-256-GCM that hides nothing. *)
Lemma masked_bytes l : Forall is_byte ((λ b, b mod 256) <$> l : list Z).
Proof. apply Forall_fmap, Forall_true. intros b. by apply Z.mod_pos_bound. Qed.
#[local] Instance clear_cipher : Aes256Gcm.
Proof.
  refine {| seal key nonce aad plain := ((λ b, b mod 256) <$> plain, replicate 16 0);
            open key nonce aad ciphertext tag := Some ciphertext |}.
  - intros _ _ _ plain Hb. simpl. f_equal. induction Hb as [|b l Hb _ IH]; [done|]. simpl.
    f_equal; [by apply Z.mod_small|exact IH].
  - intros. apply length_fmap.
  - intros. apply length_replicate.
  - intros. apply masked_bytes.
  - intros. apply Forall_replicate. unfold is_byte. lia.
Defined.

Definition days_later (t n : Z) : Z := t + n * 86400000.
(** The user of Telegram's data is its identifier. *)
Definition user_json (s : string) : option json := Some (JObj [("id"%string, JStr s)]).
Definition whole_number (s : string) : option Z := if decimal_text s then Some (digits_value 0 s) else None.
Definition zero_text (q : Q) : string := "0".
Definition joined (path base : string) : string := base +:+ path.
Definition validation_key : string := base64url (replicate 32 7).

Notation Act := (act numbered text_mac key_mac any any days_later user_json zero_text whole_number joined api
  (Some "sessions"%string) (Some validation_key) 300 86400 5 (Some "tokens"%string) (Some "https://example.org"%string)).
Notation Step := (account_step numbered text_mac key_mac AgentExamples.node_hash any any days_later user_json
  zero_text whole_number joined api (Some "agents"%string) "pepper" 30 10 5 30 10 5 None
  (Some "sessions"%string) (Some validation_key) 300 86400 5 (Some "tokens"%string) (Some "https://example.org"%string)).
Notation Run := (account_run numbered text_mac key_mac AgentExamples.node_hash any any days_later user_json
  zero_text whole_number joined api (Some "agents"%string) "pepper" 30 10 5 30 10 5 None
  (Some "sessions"%string) (Some validation_key) 300 86400 5 (Some "tokens"%string) (Some "https://example.org"%string)).
Notation Reachable := (account_reachable numbered text_mac key_mac AgentExamples.node_hash any any days_later
  user_json zero_text whole_number joined api (Some "agents"%string) "pepper" 30 10 5 30 10 5 None
  (Some "sessions"%string) (Some validation_key) 300 86400 5 (Some "tokens"%string) (Some "https://example.org"%string)).

(** Equal by evaluation. *)
Ltac computed := lazymatch goal with |- _ = ?b => vm_cast_no_check (eq_refl b) end.

(** ** The run *)

(** A node, a plan with a campaign, and a subscriber. *)
Definition node : Node := {| n_status := NODE_HEALTHY; n_desiredConfigVersion := 0;
  n_appliedConfigVersion := 0; n_lastHeartbeatAt := None |}.
Definition plan : Plan := {| pl_name := "Basic"; pl_deviceLimit := 2; pl_isActive := true |}.
Definition campaign : TrialCampaign := {| tc_planId := "p1"; tc_durationDays := 3;
  tc_maxActivations := Some 10; tc_startsAt := Some 0; tc_endsAt := None; tc_isActive := true;
  tc_archivedAt := None |}.
Definition first_term : Subscription := {| sb_userId := "u0"; sb_status := SUB_ACTIVE;
  sb_startsAt := Some 0; sb_expiresAt := Some 1000; sb_cancelledAt := None |}.

Definition node_state : Accounts := set_control (λ _, set_nodes <["n1"%string := node]> empty_db) empty_accounts.
Definition plan_state : Accounts := set_campaigns <["c1"%string := campaign]> (set_plans <["p1"%string := plan]> node_state).
Definition user_state : Accounts := (atomically (user_upsert numbered "7001") plan_state).2.
Definition base_state : Accounts :=
  (atomically (subscription_create numbered first_term {| te_planId := "p1"; te_updatedAt := 0 |}) user_state).2.

Lemma next_step l o s1 s2 s3 : Run l s1 s2 → Step o s2 s3 → Run (option_list o ++ l) s1 s3.
Proof. apply RunStep. Qed.
Lemma next_action l a s1 s2 : Run l s1 s2 → Run (a :: l) s1 (Act a s2).
Proof. intros Hr. eapply (next_step _ (Some a)); [exact Hr|apply StepAct]. Qed.

Lemma base_run : Run [] empty_accounts base_state.
Proof.
  apply (next_step _ None _ user_state); [|apply StepSubscription].
  apply (next_step _ None _ plan_state); [|apply StepUser].
  apply (next_step _ None _ (set_plans <["p1"%string := plan]> node_state));
    [|apply StepCampaign; [reflexivity|intros old Hold; discriminate Hold]].
  apply (next_step _ None _ node_state); [|by apply StepPlan].
  apply (next_step _ None _ empty_accounts); [apply RunDone|].
  apply StepControl. apply other_step; try done. by apply StepNode.
Qed.

(** The bot is given a key. *)
Definition kek : string := base64url (replicate 32 9).
Definition change : BotCredentialChangeInput :=
  {| ci_principalName := "telegram-bot"; ci_reason := "first credential" |}.
Definition first_key : list Z := replicate 32 17.
Definition first_nonce : list Z := replicate 12 3.
Definition provision : action := ProvisionCredential kek change first_key first_nonce.
Definition bot_state : Accounts := Act provision base_state.
Definition bot_material : BotCredentialMaterial :=
  {| ma_credentialId := "u2"; ma_keyVersion := 1; ma_principalId := "u3"; ma_signingKey := first_key |}.
Lemma bot_provisioned : provisionBotCredential numbered kek change first_key first_nonce base_state = (Ok bot_material, bot_state).
Proof. computed. Qed.

(** A device under the first subscription, then, when that has run out, a
    trial. *)
Definition new_device : CreateCabinetDeviceRequest := {| cd_displayName := Some "Phone"%string; cd_platform := None |}.
Definition issue_device : action := IssueDevice "u0" "device-key" new_device 500.
Definition device_state : Accounts := Act issue_device bot_state.
Definition bot_request (path key : string) : AuthenticatedBotRequest :=
  {| br_credentialId := "u2"; br_idempotencyKey := key; br_method := "POST"; br_path := path;
     br_principalId := "u3"; br_requestHash := "hash of " +:+ path; br_telegramUserId := "7001" |}.
Definition trial_request : AuthenticatedBotRequest := bot_request "/trials" "k1".
Definition activate_trial : action := Activate trial_request (Some 1) 5 2000.
Definition trial_state : Accounts := Act activate_trial device_state.

(** The login. *)
Definition secret_of (s : string) : string := String.concat EmptyString (replicate 43 s).
Definition link : string := secret_of "L".
Definition ask_link : action := IssueChallenge (bot_request "/login" "k2") (Some 1) link (secret_of "C") 3000.
Definition link_state : Accounts := Act ask_link trial_state.
Definition launch_parameters : list (string * string) :=
  [("auth_date", "3"); ("start_param", link); ("user", "7001")]%string.
Definition launch_data : string :=
  "auth_date=3&start_param=" +:+ link +:+ "&user=7001&hash=" +:+
  to_hex (key_mac (replicate 32 7) (check_string [] launch_parameters)).
Definition page_secret : string := secret_of "P".
Definition begin_login : action := BeginLogin launch_data 4000 (Some 1) [(page_secret, replicate 8 10, 4000)].
Definition begun_state : Accounts := Act begin_login link_state.
Definition shown_code : string := createCrockfordCode (replicate 8 10).
Definition confirm_login : action := ConfirmLogin (bot_request "/confirm" "k3") (Some 1) shown_code 5000.
Definition confirmed_state : Accounts := Act confirm_login begun_state.
Definition session_secret : string := secret_of "S".
Definition complete_login : action := CompleteLogin page_secret session_secret 6000.
Definition session_state : Accounts := Act complete_login confirmed_state.

(** The runs between those states. *)
Lemma trial_run : Run [activate_trial; issue_device; provision] base_state trial_state.
Proof. repeat apply next_action. apply RunDone. Qed.
Lemma login_run : Run [complete_login; confirm_login; begin_login; ask_link] trial_state session_state.
Proof. repeat apply next_action. apply RunDone. Qed.
Lemma device_run : Run [complete_login; confirm_login; begin_login; ask_link; activate_trial] device_state session_state.
Proof. repeat apply next_action. apply RunDone. Qed.
Lemma bot_run : Run [complete_login; confirm_login; begin_login; ask_link; activate_trial; issue_device] bot_state session_state.
Proof. repeat apply next_action. apply RunDone. Qed.
Definition session_actions : list action :=
  [complete_login; confirm_login; begin_login; ask_link] ++ [activate_trial; issue_device; provision].
Lemma session_run : Run session_actions empty_accounts session_state.
Proof.
  eapply account_run_app; [|apply login_run]. rewrite <- (app_nil_r [_; _; _]).
  eapply account_run_app; [apply base_run|apply trial_run].
Qed.
Lemma base_state_reachable : Reachable base_state.
Proof. eexists. apply base_run. Qed.
Lemma bot_reachable : Reachable bot_state.
Proof. eexists. apply next_action, base_run. Qed.
Lemma device_reachable : Reachable device_state.
Proof. eexists. apply next_action, next_action, base_run. Qed.
Lemma trial_reachable : Reachable trial_state.
Proof. eexists. apply next_action, next_action, next_action, base_run. Qed.
Lemma confirmed_reachable : Reachable confirmed_state.
Proof. eexists. apply next_action, next_action, next_action, next_action, next_action, next_action, base_run. Qed.
Lemma session_reachable : Reachable session_state.
Proof. eexists. apply session_run. Qed.

(** ** The theorems of this run *)

Lemma account_refinement_witness :
  rtc (step numbered text_mac any AgentExamples.node_hash api (Some "agents"%string) "pepper" 30 10 5 30 10 5 None)
    (ac_control base_state) (ac_control trial_state).
Proof. eapply account_refinement. exact trial_run. Defined.

Definition trial_operation : AccountM BotOperationResponse :=
  assert_allowed (Some 1) 5 "Too many trial activation requests" trial_unavailable;;
  activateInTransaction numbered text_mac days_later api "7001" 2000.
Definition trial_activation : TrialActivation :=
  {| tv_trialCampaignId := "c1"; tv_userId := "u0"; tv_subscriptionId := "u8"; tv_planId := "p1";
     tv_durationDays := 3; tv_activatedAt := 2000; tv_startsAt := 2000; tv_expiresAt := 259202000 |}.
Definition trial_answer : BotExecutionResult :=
  {| xr_statusCode := 200; xr_body := serialize "u9" trial_activation; xr_replayed := false |}.

Lemma trial_operation_sound : commits (sound days_later) trial_operation.
Proof.
  unfold trial_operation. apply commits_bind; [apply _|apply limit_sound|intros _]. apply activate_sound.
Qed.
Lemma trial_executed : execute trial_request trial_operation 2000 device_state = (Ok trial_answer, trial_state).
Proof. computed. Qed.

Lemma bot_request_once_witness :
  execute trial_request (mret {| or_statusCode := 204; or_body := JNull |}) 9000 session_state =
    (Ok {| xr_statusCode := 200; xr_body := serialize "u9" trial_activation; xr_replayed := true |}, session_state).
Proof.
  etrans; [eapply (bot_request_once numbered text_mac key_mac AgentExamples.node_hash any any days_later user_json zero_text
    whole_number joined) with (request := trial_request) (operation := trial_operation) (r := trial_answer)|].
  - exact device_reachable.
  - exact trial_operation_sound.
  - exact trial_executed.
  - exact login_run.
  - reflexivity.
  - computed.
Defined.

Definition trial_done : Accounts :=
  (activateInTransaction numbered text_mac days_later api "7001" 2000 device_state).2.
Lemma trial_activated :
  activateInTransaction numbered text_mac days_later api "7001" 2000 device_state =
    (Ok {| or_statusCode := 200; or_body := serialize "u9" trial_activation |}, trial_done).
Proof. computed. Qed.
Lemma no_trial_yet : no_trial device_state "7001".
Proof.
  intros id a Ha. assert (Hn : ac_activations device_state !! id = None) by computed.
  pose proof (eq_trans (eq_sym Ha) Hn) as Hno. discriminate Hno.
Qed.



Lemma trial_within_limits_witness :
  ∃ c campaign, ac_campaigns device_state !! c = Some campaign ∧ tc_durationDays campaign ∈ [1; 3; 5] ∧
    ∀ m, tc_maxActivations campaign = Some m → Z.of_nat (campaign_activations trial_done c) ≤ m.
Proof.
  edestruct trial_within_limits as (u & c & campaign & p & _ & Hc & _ & _ & Hd & _ & Hm & _);
    [exact device_reachable|exact no_trial_yet|exact trial_activated|].
  exists c, campaign. split; [exact Hc|]. split; [exact Hd|exact Hm].
Defined.

Lemma trial_once_witness :
  activateInTransaction numbered text_mac days_later api "7001" 9000 session_state =
    (Ok {| or_statusCode := 200; or_body := serialize "u9" trial_activation |}, session_state).
Proof.
  eapply trial_once; [exact trial_reachable|computed|exact login_run|computed].
Defined.

(** *** Devices *)

Definition issued : IssuedCabinetDevice :=
  {| id_id := "u4"; id_displayName := Some "Phone"%string; id_platform := None; id_createdAt := 500;
     id_subscriptionUrl := "https://example.org/sub/" +:+ deriveSubscriptionToken text_mac "u0" "device-key" "tokens" |}.
Notation issue_now := (issue numbered text_mac joined api (Some "tokens"%string) (Some "https://example.org"%string)
  "u0" "device-key" new_device).
Lemma device_issued : issue_now 500 bot_state = (Ok issued, device_state).
Proof. computed. Qed.

Lemma issue_gives_access_witness :
  ∃ expiresAt, 500 < expiresAt ∧ access_pending (ac_control device_state) "u4" expiresAt "n1".
Proof.
  edestruct issue_gives_access as (x & e & d & url & _ & _ & _ & He & _ & _ & _ & _ & _ & _ & _ & Hacc);
    [exact bot_reachable|reflexivity| |exact device_issued|]; [computed|].
  exists e. split; [exact He|]. apply (Hacc "n1"%string node); [computed|reflexivity].
Defined.

Definition phone : Device :=
  {| dv_userId := "u0"; dv_displayName := Some "Phone"%string; dv_platform := None; dv_status := DEVICE_ACTIVE;
     dv_subscriptionTokenHash := hashToken text_mac (deriveSubscriptionToken text_mac "u0" "device-key" "tokens") "tokens";
     dv_issuanceIdempotencyKeyHash := Some (hashIssuanceIdempotencyKey text_mac "u0" "device-key" "tokens");
     dv_revokedAt := None; dv_createdAt := 500 |}.
Lemma issue_is_idempotent_witness : issue_now 9000 session_state = (Ok issued, session_state).
Proof.
  eapply (issue_is_idempotent numbered text_mac key_mac AgentExamples.node_hash any any days_later user_json zero_text
    whole_number joined) with (d := phone); [exact bot_reachable|exact device_issued| | |].
  - exact device_run.
  - computed.
  - reflexivity.
Defined.

Lemma overview_agrees_witness :
  cs_status <$> ov_subscription (overview session_state "u0" 7000) = Some SUB_ACTIVE.
Proof.
  eapply overview_agrees; [exact session_reachable|]. eexists. vm_compute. reflexivity.
Defined.

(** *** Keys *)

Lemma two_active_credentials_witness : (length (active_credentials session_state "u3") ≤ 2)%nat.
Proof. eapply two_active_credentials. exact session_reachable. Defined.

Definition unsigned (nonce : string) : BotAuthenticationInput :=
  {| ba_credentialId := "u2"; ba_idempotencyKey := "k9"; ba_nonce := nonce; ba_signature := EmptyString;
     ba_timestamp := "10"; ba_method := "POST"; ba_path := "/trials"; ba_rawBody := "{}";
     ba_telegramUserId := "7001" |}.
Definition signed (nonce : string) : BotAuthenticationInput :=
  {| ba_credentialId := "u2"; ba_idempotencyKey := "k9"; ba_nonce := nonce;
     ba_signature := to_hex (key_mac first_key (canonical_request text_digest (unsigned nonce)));
     ba_timestamp := "10"; ba_method := "POST"; ba_path := "/trials"; ba_rawBody := "{}";
     ba_telegramUserId := "7001" |}.
Notation authenticate_now := (authenticate key_mac text_digest (Some kek)).
Definition reservations : gmap string Z := (reserveOnce (nonce_key "u3" "n") NONCE_TTL_MS 9500 ∅).2.

Definition stored_key : BotServiceCredential :=
  {| bc_principalId := "u3"; bc_keyCiphertext := base64url first_key +:+ "." +:+ base64url (replicate 16 0);
     bc_nonce := base64url first_nonce; bc_keyVersion := 1; bc_revokedAt := None |}.
Lemma provisioned_key_authenticates_witness :
  ∃ request, authenticate_now session_state 9000 9500 (Some ∅) (signed "n") =
      (Ok (Some request), Some reservations) ∧ br_principalId request = "u3"%string.
Proof.
  edestruct (provisioned_key_authenticates numbered text_mac key_mac AgentExamples.node_hash any any days_later
    user_json zero_text whole_number joined) with (s := base_state) (s1 := bot_state)
    (s2 := session_state) (encodedKek := kek) (change := change) (signingKey := first_key) (nonce := first_nonce)
    (input := signed "n") (m := bot_material) (c := stored_key) (r := ∅ : gmap string Z)
    (hmac_bytes := key_mac) (sha256_bytes := text_digest) (databaseNow := 9000) (redisNow := 9500)
    as (request & Hr & Hp & _); [|exact base_state_reachable|..].
  - intros key text. apply digest_are_bytes.
  - apply Forall_replicate. by split.
  - apply Forall_replicate. by split.
  - left. exact bot_provisioned.
  - exact bot_run.
  - computed.
  - reflexivity.
  - split; [reflexivity|computed].
  - computed.
  - computed.
  - exists request. split; [exact Hr|exact Hp].
Defined.

Definition let_in : AuthenticatedBotRequest :=
  {| br_credentialId := "u2"; br_idempotencyKey := "k9"; br_method := "POST"; br_path := "/trials";
     br_principalId := "u3"; br_requestHash := createBotRequestHash text_digest (signed "n");
     br_telegramUserId := "7001" |}.
Lemma replay_refused_witness :
  (authenticate_now session_state 39000 39000 (Some reservations) (signed "n")).1 = Ok None.
Proof.
  eapply (replay_refused numbered text_mac key_mac AgentExamples.node_hash any any days_later
    user_json zero_text whole_number joined) with (s1 := bot_state) (r1 := ∅ : gmap string Z) (r2 := reservations)
    (request := let_in) (databaseNow1 := 9000) (redisNow1 := 9500).
  - exact bot_reachable.
  - exact bot_run.
  - computed.
  - apply ReservedNow.
  - reflexivity.
  - reflexivity.
Defined.

(** *** Sessions *)

Definition session : UserSession :=
  {| ss_userId := "u0"; ss_tokenHash := hashSessionSecret text_mac session_secret "sessions";
     ss_telegramReplayHash := Some (replayHash text_mac "u12" "sessions"); ss_expiresAt := 86406000;
     ss_revokedAt := None |}.
Lemma session_requires_confirmed_login_witness :
  ∃ telegramUserId launchId, us_telegramUserId <$> ac_users session_state !! "u0"%string = Some telegramUserId ∧
    login_finished text_mac key_mac user_json zero_text whole_number (Some "sessions"%string) (Some validation_key) 300
      telegramUserId launchId (ss_tokenHash session) session_actions.
Proof.
  edestruct session_requires_confirmed_login as (telegramUserId & cid & c & Ht & _ & _ & Hf & _);
    [exact session_run| |].
  - instantiate (1 := session). instantiate (1 := "u14"%string). computed.
  - exists telegramUserId, (au_launchId c). split; [exact Ht|exact Hf].
Defined.

Notation current := (currentSession text_mac (Some "sessions"%string)).
Lemma session_open : current session_state session_secret 7000 = Some {| as_userId := "u0"; as_expiresAt := 86406000 |}.
Proof. computed. Qed.

Lemma only_session (id : string) x : ac_sessions session_state !! id = Some x → ss_revokedAt x = None.
Proof.
  assert (E : bool_decide (map_Forall (λ _ y, ss_revokedAt y = None) (ac_sessions session_state)) = true) by computed.
  apply bool_decide_eq_true in E. apply E.
Qed.
Lemma login_opens_session_witness :
  current session_state session_secret 7000 = Some {| as_userId := "u0"; as_expiresAt := 86406000 |}.
Proof.
  eapply (login_opens_session numbered text_mac key_mac AgentExamples.node_hash any any days_later
    user_json zero_text whole_number joined) with (s := confirmed_state) (s1 := session_state) (now := 6000)
    (secret := page_secret) (sessionSecret' := session_secret).
  - exact confirmed_reachable.
  - computed.
  - computed.
  - apply RunDone.
  - reflexivity.
  - intros pepper id x _ Hx _. exact (only_session id x Hx).
Defined.

Lemma logout_is_final_witness :
  current (revokeSession text_mac (Some "sessions"%string) session_secret 8000 session_state).2 session_secret 9000 = None.
Proof.
  eapply (logout_is_final numbered text_mac key_mac AgentExamples.node_hash any any days_later
    user_json zero_text whole_number joined); [exact session_reachable|exact session_open|apply RunDone].
Defined.
