(* ===== verification/SubscriptionFeedTheorems.v ===== *)
(** * What the subscription feed lists

    The lemmas on the feed's texts and on its loop, and the theorems on the
    feed of a reachable state: every line is a client the node's agent serves,
    no node is listed twice, and nothing ready is left out below the limits. *)

From Stdlib Require Import Ascii.
From stdpp Require Import pretty.
From S2P Require Import Prelude.
From S2P Require Import Text.
From S2P Require Import Json.
From S2P Require Import Sql.
From S2P Require Import NodeSyncStore.
From S2P Require Import NodeAgentContract.
From S2P Require Import XrayAccess.
From S2P Require Import ControlPlane.
From S2P Require Import DataPlaneCredential.
From S2P Require Import AccessPolicy.
From S2P Require Import ControlPlaneInvariant.
From S2P Require Import Orchestration.
From S2P Require Import ControlPlaneSystem.
From S2P Require Import SubscriptionFeed.
From S2P Require Import EndToEnd.
From S2P Require Import NodeAgentApi.
From S2P Require Import NodeAgentApiSafety.
From S2P Require AgentExamples.
From S2P Require Import ControlPlaneExamples.
Open Scope Z_scope.

(** ** Texts *)

Definition printable (a : ascii) : bool := ((33 <=? byte_of a) && (byte_of a <=? 126))%nat.

Lemma percent_encode_printable keep s :
  (∀ a, keep a = true → printable a = true) → string_forall printable (percent_encode keep s) = true.
Proof.
  intros Hk. induction s as [|a s IH]; simpl; [done|].
  destruct (keep a) eqn:Ha; simpl; [by rewrite Hk, IH|]. rewrite IH, andb_true_r. simpl.
  apply (for_ascii (λ a, printable (upper_nibble (byte_of a / 16)) &&
    printable (upper_nibble (byte_of a mod 16)))). vm_compute. reflexivity.
Qed.

Lemma encodeURIComponent_printable s : string_forall printable (encodeURIComponent s) = true.
Proof. apply percent_encode_printable, for_ascii_impl. vm_compute. reflexivity. Qed.

Lemma list_ascii_forall p l : forallb p l = string_forall p (String.string_of_list_ascii l).
Proof. induction l; simpl; congruence. Qed.
Lemma form_encode_printable s : string_forall printable (form_encode s) = true.
Proof.
  unfold form_encode. rewrite <- list_ascii_forall.
  induction s as [|a s IH]; [done|]. cbn [percent_encode].
  destruct (alphanumeric a || char_in "*-._ " a) eqn:Ha; cbn [String.list_ascii_of_string fmap list_fmap forallb];
    rewrite IH, ?andb_true_r.
  - apply (for_ascii_impl (λ a, alphanumeric a || char_in "*-._ " a)
      (λ a, printable (if Ascii.eqb a " " then "+"%char else a))); [vm_compute; reflexivity|done].
  - apply (for_ascii (λ a, printable (if Ascii.eqb "%" " " then "+"%char else "%"%char) &&
      (printable (if Ascii.eqb (upper_nibble (byte_of a / 16)) " " then "+"%char
                  else upper_nibble (byte_of a / 16)) &&
       printable (if Ascii.eqb (upper_nibble (byte_of a mod 16)) " " then "+"%char
                  else upper_nibble (byte_of a mod 16))))). vm_compute. reflexivity.
Qed.

Lemma pretty_N_printable (x : N) : string_forall printable (pretty x) = true.
Proof.
  unfold pretty, pretty_N. case_decide; [done|].
  assert (Hgo : ∀ x s, string_forall printable s = true →
    string_forall printable (pretty_N_go x s) = true).
  { clear. intros x. induction (N.lt_wf_0 x) as [x _ IH]. intros s Hs.
    destruct (decide (0 < x)%N) as [Hx|Hx].
    - rewrite pretty_N_go_step by done. apply IH; [by apply N.div_lt|].
      cbn [string_forall]. rewrite Hs, andb_true_r. unfold pretty_N_char.
      destruct (x `mod` 10)%N as [|p]; [done|]. do 4 (destruct p; try done).
    - assert (x = 0)%N as -> by lia. by rewrite pretty_N_go_0. }
  by apply Hgo.
Qed.
Lemma pretty_Z_printable (z : Z) : string_forall printable (pretty z) = true.
Proof.
  unfold pretty, pretty_Z. destruct z; [done|apply pretty_N_printable|].
  cbn. apply pretty_N_printable.
Qed.

Lemma pattern_char_printable p a :
  printable p = true → pattern_char p a = true → printable a = true.
Proof.
  unfold pattern_char. destruct (Ascii.eqb p "x"); [intros _; revert a; apply for_ascii_impl; vm_compute; reflexivity|].
  destruct (Ascii.eqb p "y"); [intros _; revert a; apply for_ascii_impl; vm_compute; reflexivity|].
  by intros Hp ->%Ascii.eqb_eq.
Qed.
Lemma matches_printable pattern s :
  string_forall printable pattern = true → matches pattern s = true → string_forall printable s = true.
Proof.
  revert s. induction pattern as [|p pattern IH]; intros [|a s]; simpl; try done.
  intros [Hp Hps]%andb_prop [Ha Hs]%andb_prop.
  by rewrite (pattern_char_printable p a Hp Ha), (IH s Hps Hs).
Qed.
Lemma uuid_v4_printable s : is_uuid_v4 s = true → string_forall printable s = true.
Proof. by apply matches_printable. Qed.

Lemma split_on_forall p c s :
  p c = true → Forall (λ t, string_forall p t = true) (split_on c s) → string_forall p s = true.
Proof.
  intros Hc. induction s as [|a s IH]; simpl; [done|].
  destruct (Ascii.eqb_spec a c) as [->|Hne].
  - intros [_ Hs]%Forall_cons_1. by rewrite Hc, IH.
  - destruct (split_on c s) as [|t rest].
    + intros [Ha _]%Forall_cons_1. simpl in Ha. rewrite andb_true_r in Ha. by rewrite Ha, IH.
    + intros [[Ha Ht]%andb_prop Hr]%Forall_cons_1. rewrite Ha, IH; [done|by constructor].
Qed.

(** The lines of a text joined from lines. *)
Lemma split_on_app c s t :
  string_forall (λ a, negb (Ascii.eqb a c)) s = true →
  split_on c (s +:+ String c t) = s :: split_on c t.
Proof.
  induction s as [|a s IH]; simpl; [by rewrite Ascii.eqb_refl|].
  intros [Ha%negb_true_iff Hs]%andb_prop. by rewrite Ha, IH.
Qed.
Lemma split_on_none c s :
  string_forall (λ a, negb (Ascii.eqb a c)) s = true → split_on c s = [s].
Proof.
  induction s as [|a s IH]; simpl; [done|]. intros [Ha%negb_true_iff Hs]%andb_prop. by rewrite Ha, IH.
Qed.
Lemma split_on_concat c l :
  l ≠ [] → Forall (λ s, string_forall (λ a, negb (Ascii.eqb a c)) s = true) l →
  split_on c (String.concat (String c EmptyString) l) = l.
Proof.
  intros Hne Hl. induction Hl as [|s l Hs Hl IH]; [done|]. simpl. destruct l as [|s' l].
  - by apply split_on_none.
  - change (String c EmptyString +:+ ?t) with (String c t). rewrite split_on_app by done.
    f_equal. by apply IH.
Qed.

Lemma hostname_printable s : asciiHostnamePattern s = true → string_forall printable s = true.
Proof.
  intros Hs. apply (split_on_forall _ "."%char); [done|]. apply Forall_forall. intros t Ht.
  eapply forallb_forall in Hs; [|by apply list_elem_of_In].
  unfold hostname_label in Hs. destruct t as [|a t]; [done|]. destruct (last_char _); [|done].
  apply andb_prop in Hs as [[_ Hs]%andb_prop _]. revert Hs.
  apply string_forall_impl, for_ascii_impl. vm_compute. reflexivity.
Qed.

Lemma printable_lines l : l ≠ [] → Forall (λ s, string_forall printable s = true) l →
  split_on "010" (String.concat LF l) = l.
Proof.
  intros Hne Hl. apply split_on_concat; [done|]. eapply Forall_impl; [exact Hl|].
  intros s. apply string_forall_impl, for_ascii_impl. vm_compute. reflexivity.
Qed.

(** Printable texts joined by line feeds are ASCII. *)
Lemma ascii_utf16_length s :
  string_forall (λ a, (byte_of a <? 128)%nat) s = true → utf16_length s = String.length s.
Proof.
  induction s as [|a s IH]; cbn [string_forall utf16_length String.length]; [done|].
  intros [Ha%Nat.ltb_lt Hs]%andb_prop. rewrite IH by done.
  unfold continues. rewrite (proj2 (Nat.leb_gt 128 _)), (proj2 (Nat.leb_gt 240 _)) by lia. done.
Qed.
Lemma concat_ascii l : Forall (λ s, string_forall printable s = true) l →
  string_forall (λ a, (byte_of a <? 128)%nat) (String.concat LF l) = true.
Proof.
  induction 1 as [|s l Hs Hl IH]; [done|].
  assert (Ha : string_forall (λ a, (byte_of a <? 128)%nat) s = true).
  { revert Hs. apply string_forall_impl, for_ascii_impl. vm_compute. reflexivity. }
  simpl. destruct l as [|s' l]; [done|]. by rewrite !string_forall_app, Ha, IH.
Qed.

Lemma concat_snoc l s :
  String.length (String.concat LF (l ++ [s])) =
  (String.length (String.concat LF l) + (if bool_decide (l = []) then 0 else 1) + String.length s)%nat.
Proof.
  induction l as [|t l IH]; [done|]. destruct l as [|t' l].
  - simpl. rewrite !string_length_app. simpl. lia.
  - change (String.concat LF ((t :: t' :: l) ++ [s])) with
      (t +:+ LF +:+ String.concat LF ((t' :: l) ++ [s])).
    change (String.concat LF (t :: t' :: l)) with (t +:+ LF +:+ String.concat LF (t' :: l)).
    rewrite !string_length_app, IH. simpl. lia.
Qed.

(** ** One row *)

Section feed_theorems.
Context (uuid : nat → string) (hmac_sha256 : string → string → list Z).
Context (is_uuid : string → bool) (sha256 : json → string) `{DateStrings} (isIP : string → Z).
Context (environment : ApiEnvironment) (feedEnvironment : FeedEnvironment).
(** An accepted IP literal is digits, letters and punctuation. *)
Context (isIP_chars : ∀ s, isIP s ≠ 0 → string_forall printable s = true).

Notation render := (render_route hmac_sha256 isIP environment).
Notation feed_step := (feed_route hmac_sha256 isIP environment feedEnvironment).
Notation feed_loop := (feed_routes hmac_sha256 isIP environment feedEnvironment).

(** The row is for a client and the line is its address. *)
Definition line_of (deviceId : string) (row : ConnectionRouteProjection) (uri : string) : Prop :=
  ∃ credential name display,
    cr_protocolKind row = VLESS ∧ cr_transportKind row = TCP ∧ cr_securityKind row = TLS ∧
    cr_tlsServerName row = Some name ∧ cr_displayName row = Some display ∧
    cr_dataPlaneCredentialDerivationVersion row = Some DATA_PLANE_CREDENTIAL_DERIVATION_VERSION ∧
    derive hmac_sha256 environment
      {| b_grantId := cr_grantId row; b_deviceId := deviceId; b_nodeId := cr_nodeId row |} =
      Some credential ∧
    verifyHash hmac_sha256 environment credential (cr_dataPlaneCredentialHash row) = Some true ∧
    renderVlessTcpTls isIP
      {| vr_host := cr_endpointHost row; vr_addressKind := cr_endpointAddressKind row;
         vr_port := cr_endpointPort row; vr_credential := credential;
         vr_tlsServerName := name; vr_displayName := display |} = Some uri.

Lemma render_line deviceId row uri : render deviceId row = Ok (Some uri) → line_of deviceId row uri.
Proof.
  unfold render_route, line_of. intros Hr.
  destruct (cr_protocolKind row), (cr_transportKind row), (cr_securityKind row); try done.
  destruct (cr_tlsServerName row) as [name|], (cr_displayName row) as [display|]; try done.
  destruct (_ || _) eqn:Hskip; [done|]. apply orb_false_iff in Hskip as [_ Hv%negb_false_iff].
  apply bool_decide_eq_true in Hv. destruct (derive _ _ _) as [c|] eqn:Hc; [|done].
  destruct (verifyHash _ _ _ _) as [[]|] eqn:Hh; [|done..]. injection Hr as Hr.
  by exists c, name, display.
Qed.

Lemma render_throws deviceId row e :
  render deviceId row = Throw e → e = FeedFailed ∧ pepper environment = None.
Proof.
  unfold render_route, derive, verifyHash. intros Hr.
  destruct (cr_protocolKind row), (cr_transportKind row), (cr_securityKind row); try done.
  destruct (cr_tlsServerName row) as [name|], (cr_displayName row) as [display|]; try done.
  destruct (_ || _); [done|]. destruct (pepper environment) as [p|] eqn:Hp.
  - exfalso. simpl in Hr. assert (Hne : p ≠ EmptyString).
    { unfold pepper in Hp. destruct (DATA_PLANE_CREDENTIAL_PEPPER environment); simpl in Hp; [|done].
      case_bool_decide; by simplify_eq. }
    unfold deriveDataPlaneCredential, verifyDataPlaneCredentialHash, hashDataPlaneCredential in Hr.
    repeat (rewrite hmac_present in Hr by done; simpl in Hr). destruct (_ && _) in Hr; done.
  - simpl in Hr. by injection Hr as <-.
Qed.

Lemma uri_printable route uri :
  renderVlessTcpTls isIP route = Some uri → string_forall printable uri = true.
Proof using isIP_chars.
  unfold renderVlessTcpTls. intros Hr.
  destruct (negb (is_uuid_v4 _)) eqn:Hc; [done|]. destruct (_ || _) in Hr; [done|].
  destruct (negb _) in Hr; [done|]. destruct (negb _) in Hr; [done|].
  destruct (negb (host_matches _ _ _)) eqn:Hh; [done|].
  apply negb_false_iff in Hc, Hh. injection Hr as <-.
  assert (Hhost : string_forall printable (vr_host route) = true).
  { unfold host_matches in Hh. destruct (vr_addressKind route).
    - by apply andb_prop in Hh as [_ ?%hostname_printable].
    - apply isIP_chars. apply Z.eqb_eq in Hh as ->. done.
    - apply isIP_chars. apply Z.eqb_eq in Hh as ->. done. }
  rewrite !string_forall_app, (uuid_v4_printable _ Hc), pretty_Z_printable, form_encode_printable,
    encodeURIComponent_printable.
  destruct (vr_addressKind route); rewrite ?string_forall_app, Hhost; done.
Qed.

Lemma line_printable deviceId row uri :
  line_of deviceId row uri → string_forall printable uri = true.
Proof using isIP_chars. intros (c & name & display & _ & _ & _ & _ & _ & _ & _ & _ & Hr). by eapply uri_printable. Qed.

(** ** The loop

    [limit] is the candidate limit of each pool. *)

Notation Line := (ConnectionRouteProjection * string)%type.

Section loop.
Context (limit : string → Z).

Definition pool_count (pool : string) (lines : list Line) : Z :=
  Z.of_nat (length (filter (λ l : Line, cr_poolId l.1 = pool) lines)).

(** The limits on a feed. *)
Record admissible (lines : list Line) : Prop := {
  ad_nodes : NoDup (cr_nodeId <$> lines.*1);
  ad_uris : NoDup lines.*2;
  ad_count : Z.of_nat (length lines) ≤ Z.max 0 (SUBSCRIPTION_FEED_MAX_ROUTES feedEnvironment);
  ad_bytes : Z.of_nat (String.length (String.concat LF lines.*2)) ≤ MAX_FEED_BYTES;
  ad_pools : ∀ pool, pool_count pool lines ≤ Z.max 0 (limit pool);
}.

(** A route with this address adds nothing to the feed. *)
Definition covered (lines : list Line) (row : ConnectionRouteProjection) (uri : string) : Prop :=
  cr_nodeId row ∈ cr_nodeId <$> lines.*1 ∨ uri ∈ lines.*2 ∨
  limit (cr_poolId row) ≤ pool_count (cr_poolId row) lines.

(** One more line is more than the feed may have. *)
Definition overflows (lines : list Line) (uri : string) : Prop :=
  SUBSCRIPTION_FEED_MAX_ROUTES feedEnvironment ≤ Z.of_nat (length lines) ∨
  MAX_FEED_BYTES < Z.of_nat (String.length (String.concat LF (lines.*2 ++ [uri]))).

Record feed_inv deviceId (processed : list ConnectionRouteProjection) (lines : list Line)
    (st : FeedState) : Prop := {
  fi_rendered : fd_rendered st = lines.*2;
  fi_nodes : fd_renderedNodeIds st = cr_nodeId <$> lines.*1;
  fi_bytes : fd_feedBytes st = Z.of_nat (String.length (String.concat LF lines.*2));
  fi_pools : ∀ pool, default 0 (map_get pool (fd_renderedByPool st)) = pool_count pool lines;
  fi_admissible : admissible lines;
  fi_order : lines.*1 `sublist_of` processed;
  fi_lines : Forall (λ l, render deviceId l.1 = Ok (Some l.2)) lines;
  fi_complete : Forall (λ row, ∀ uri, render deviceId row = Ok (Some uri) → covered lines row uri)
    processed;
}.

Lemma pool_count_snoc pool lines l :
  pool_count pool (lines ++ [l]) = pool_count pool lines + (if decide (cr_poolId l.1 = pool) then 1 else 0).
Proof.
  unfold pool_count. rewrite filter_app, length_app. destruct (decide _).
  - rewrite filter_cons_True by done. simpl. lia.
  - rewrite filter_cons_False by done. simpl. lia.
Qed.

Lemma covered_snoc lines l row uri : covered lines row uri → covered (lines ++ [l]) row uri.
Proof.
  unfold covered. rewrite pool_count_snoc, !fmap_app, !elem_of_app. destruct (decide _); naive_solver lia.
Qed.

Lemma feed_inv_skip deviceId processed lines st row :
  feed_inv deviceId processed lines st →
  (∀ uri, render deviceId row = Ok (Some uri) → covered lines row uri) →
  feed_inv deviceId (processed ++ [row]) lines st.
Proof.
  intros [] Hc. split; try done.
  - by apply sublist_inserts_r.
  - apply Forall_app_2; [done|by constructor].
Qed.

Lemma feed_inv_empty deviceId : feed_inv deviceId [] [] empty_feed.
Proof. split; try done; [|by constructor..]. split; try constructor; simpl; try lia; try done. unfold pool_count. simpl. lia. Qed.

(** One row of the loop. *)
Definition row_outcome deviceId processed lines (row : ConnectionRouteProjection)
    (o : outcome FeedError FeedState) : Prop :=
  match o with
  | Ok st => ∃ lines', feed_inv deviceId (processed ++ [row]) lines' st
  | Throw FeedUnavailable => ∃ uri, render deviceId row = Ok (Some uri) ∧
      ¬ covered lines row uri ∧ overflows lines uri
  | Throw FeedFailed => pepper environment = None
  | Throw _ => False
  end.

Lemma feed_route_spec deviceId processed lines st row :
  limit (cr_poolId row) = cr_poolCandidateLimit row → feed_inv deviceId processed lines st →
  row_outcome deviceId processed lines row (feed_step deviceId st row).
Proof.
  intros Hlim Hst. pose proof Hst as [Hr Hn Hb Hp Ha Ho Hl Hc]. unfold feed_route.
  rewrite Hn, Hr, Hp, Hb. case_bool_decide as Hnode.
  { exists lines. apply feed_inv_skip; [done|]. by left. }
  destruct (render deviceId row) as [[uri|]|e] eqn:Hrow.
  2: { exists lines. apply feed_inv_skip; [done|congruence]. }
  2: { by destruct (render_throws _ _ _ Hrow) as [-> ?]. }
  destruct (bool_decide _ || _) eqn:Hcov.
  { exists lines. apply feed_inv_skip; [done|]. intros uri' Hu. right.
    assert (uri' = uri) as -> by congruence.
    apply orb_prop in Hcov as [?%bool_decide_eq_true|?%Z.leb_le]; [by left|right]. by rewrite Hlim. }
  apply orb_false_iff in Hcov as [Huri%bool_decide_eq_false Hpool%Z.leb_gt].
  assert (Hnew : ¬ covered lines row uri) by (intros [?|[?|?]]; [done..|lia]).
  rewrite length_fmap. destruct (Z.leb_spec (SUBSCRIPTION_FEED_MAX_ROUTES feedEnvironment)
    (Z.of_nat (length lines))) as [Hmax|Hmax].
  { exists uri. split_and!; [done..|by left]. }
  assert (Hbytes : Z.of_nat (String.length (String.concat LF lines.*2)) +
      (if Z.of_nat (length lines) =? 0 then 0 else 1) + Z.of_nat (String.length uri) =
    Z.of_nat (String.length (String.concat LF (lines.*2 ++ [uri])))).
  { rewrite concat_snoc. destruct lines; [simpl; lia|]. rewrite bool_decide_eq_false_2 by done.
    destruct (Z.eqb_spec (Z.of_nat (length (p :: lines))) 0); simpl in *; lia. }
  rewrite Hbytes. destruct (Z.ltb_spec MAX_FEED_BYTES
    (Z.of_nat (String.length (String.concat LF (lines.*2 ++ [uri]))))) as [Hsize|Hsize].
  { exists uri. split_and!; [done..|by right]. }
  exists (lines ++ [(row, uri)]). split; simpl; rewrite ?fmap_app; simpl; try done.
  - intros pool. rewrite pool_count_snoc. simpl. destruct (decide (cr_poolId row = pool)) as [<-|Hne].
    + by rewrite map_get_set_eq.
    + rewrite map_get_set_ne, Hp by done. lia.
  - destruct Ha. split; rewrite ?fmap_app; simpl.
    + apply NoDup_app. split_and!; [done| |apply NoDup_singleton]. set_solver.
    + apply NoDup_app. split_and!; [done| |apply NoDup_singleton]. set_solver.
    + rewrite length_app. simpl. lia.
    + done.
    + intros pool. rewrite pool_count_snoc. simpl. specialize (ad_pools0 pool).
      destruct (decide _) as [<-|]; lia.
  - by apply sublist_app.
  - apply Forall_app_2; [done|]. by constructor.
  - apply Forall_app_2.
    + eapply Forall_impl; [exact Hc|]. intros r' Hr' uri' Hu. by apply covered_snoc, Hr'.
    + constructor; [|done]. intros uri' _. left. rewrite !fmap_app. set_solver.
Qed.

(** What the loop does with the rows. *)
Definition loop_outcome deviceId rows (o : outcome FeedError FeedState) : Prop :=
  match o with
  | Ok st => ∃ lines, feed_inv deviceId rows lines st
  | Throw FeedUnavailable => ∃ lines row uri, admissible lines ∧ lines.*1 `sublist_of` rows ∧
      row ∈ rows ∧ render deviceId row = Ok (Some uri) ∧ ¬ covered lines row uri ∧ overflows lines uri
  | Throw FeedFailed => pepper environment = None
  | Throw _ => False
  end.

Lemma feed_routes_spec deviceId rows processed lines st :
  (∀ row, row ∈ rows → limit (cr_poolId row) = cr_poolCandidateLimit row) →
  feed_inv deviceId processed lines st →
  loop_outcome deviceId (processed ++ rows) (feed_loop deviceId st rows).
Proof.
  revert processed lines st. induction rows as [|row rows IH]; intros processed lines st Hlim Hst; simpl.
  { rewrite app_nil_r. by exists lines. }
  pose proof (feed_route_spec _ _ _ _ row (Hlim row ltac:(left)) Hst) as Hrow.
  destruct (feed_route _ _ _ _ _ _ _) as [st'|[]]; simpl in *; try done.
  - destruct Hrow as [lines' Hst']. rewrite (cons_middle row), app_assoc.
    eapply IH; [|done]. intros r Hr. apply Hlim. by right.
  - destruct Hrow as (uri & Hr & Hc & Hov). exists lines, row, uri.
    split_and!; [by destruct Hst|apply sublist_inserts_r; by destruct Hst| |done..]. set_solver.
Qed.
End loop.

(** ** The rows *)

Lemma elem_option_list {A} (x : A) o : x ∈ option_list o ↔ o = Some x.
Proof. destruct o; simpl; set_solver. Qed.

(** Where a selected row comes from. *)
Definition row_of (pools : PoolTables) (db : Db) (deviceId : string) (now : Z)
    (row : ConnectionRouteProjection) : Prop :=
  ∃ g n r en pr, db_grants db !! cr_grantId row = Some g ∧ gr_deviceId g = deviceId ∧
    gr_nodeId g = cr_nodeId row ∧ db_nodes db !! cr_nodeId row = Some n ∧
    db_routes db !! (cr_endpointId row, cr_profileId row) = Some r ∧
    db_endpoints db !! cr_endpointId row = Some en ∧ en_status en = MATERIAL_ACTIVE ∧
    db_profiles db !! cr_profileId row = Some pr ∧ cp_status pr = MATERIAL_ACTIVE ∧
    isRouteReady true
      (isGrantConverged (gr_status g) (gr_expiresAt g) (gr_desiredVersion g) (gr_appliedVersion g) now)
      (n_status n) true (rc_activationVersion r) (n_appliedConfigVersion n) = true ∧
    cr_dataPlaneCredentialHash row = gr_dataPlaneCredentialHash g ∧
    cr_dataPlaneCredentialDerivationVersion row = gr_dataPlaneCredentialDerivationVersion g ∧
    cr_endpointHost row = en_host en ∧ cr_endpointPort row = en_port en ∧
    ∃ m pool, pt_memberships pools !! cr_nodeId row = Some m ∧ lm_role m = SERVING ∧
      lm_locationPoolId m = cr_poolId row ∧ pt_pools pools !! cr_poolId row = Some pool ∧
      lp_enabled pool = true ∧ lp_candidateLimit pool = cr_poolCandidateLimit row.

Lemma project_route_row pools db deviceId now grant route row :
  db_grants db !! grant.1 = Some grant.2 → grant_ready deviceId now grant.2 = true →
  db_routes db !! route.1 = Some route.2 → project_route pools db grant route = Some row →
  row_of pools db deviceId now row.
Proof.
  destruct grant as [grantId g], route as [[e p] r]. simpl. intros Hg Hready Hr Hrow.
  unfold grant_ready in Hready. apply andb_prop in Hready as [Hd%bool_decide_eq_true Hconv].
  option_invert Hrow. injection Hrow as <-. simpl.
  do 5 eexists. simpl. split_and!; try eassumption; try reflexivity.
  - apply isRouteReady_spec. naive_solver.
  - do 2 eexists. split_and!; try eassumption; reflexivity.
Qed.

(** The device is active, of this user, with a running subscription. *)
Definition entitled_device (db : Db) (deviceId userId : string) (now : Z) : Prop :=
  ∃ d id sub, db_devices db !! deviceId = Some d ∧ dv_userId d = userId ∧
    dv_status d = DEVICE_ACTIVE ∧ db_subscriptions db !! id = Some sub ∧ running userId now sub = true.

Lemma selected_row pools deviceId userId now db row :
  row ∈ selected_routes pools deviceId userId now db →
  entitled_device db deviceId userId now ∧ row_of pools db deviceId now row.
Proof.
  unfold selected_routes. rewrite list_elem_of_bind. intros (d & Hrow & Hd).
  rewrite list_elem_of_bind in Hrow. destruct Hrow as (sub & Hrow & Hsub).
  rewrite list_elem_of_bind in Hrow. destruct Hrow as (grant & Hrow & Hg).
  apply list_elem_of_omap in Hrow as (route & Hroute%elem_of_map_to_list' & Hrow).
  apply elem_of_map_to_list', map_lookup_filter_Some in Hg as [Hg Hready].
  split; [|by eapply project_route_row].
  apply rows_where in Hsub as (id & Hsub & Hrun).
  apply elem_option_list in Hd. option_invert Hd. injection Hd as <-. by eexists _, id, sub.
Qed.

Lemma select_ok pools deviceId userId now db routes :
  selectForAuthorizedDevice is_uuid pools deviceId userId now db = Ok routes →
  routes = merge_sort projection_order (selected_routes pools deviceId userId now db) ∧
  Forall (λ row, connectionRouteProjectionSchema is_uuid row = true) routes.
Proof.
  unfold selectForAuthorizedDevice. destruct (negb _); [done|].
  destruct (forallb _ _) eqn:Hall; [|done]. intros [= <-]. split; [done|].
  by apply Forall_forall; intros row Hrow; eapply forallb_forall in Hall; [|apply list_elem_of_In].
Qed.

Lemma resolve_device token now db deviceId userId :
  resolveAuthorizedDevice hmac_sha256 feedEnvironment token now db = Some (deviceId, userId) →
  ∃ d pepper, db_devices db !! deviceId = Some d ∧ dv_userId d = userId ∧
    SUBSCRIPTION_TOKEN_PEPPER feedEnvironment = Some pepper ∧
    dv_subscriptionTokenHash d = hashToken hmac_sha256 token pepper.
Proof.
  unfold resolveAuthorizedDevice. intros Hr. option_invert Hr.
  apply head_Some_elem_of, list_elem_of_omap in Hr as ([id d] & Hd%elem_of_map_to_list & Hr).
  option_invert Hr. injection Hr as <- <-. eauto 10.
Qed.

Definition pool_limit (pools : PoolTables) (pool : string) : Z :=
  default 0 (lp_candidateLimit <$> pt_pools pools !! pool).

Lemma row_limit pools db deviceId now row :
  row_of pools db deviceId now row → pool_limit pools (cr_poolId row) = cr_poolCandidateLimit row.
Proof.
  intros (g & n & r & en & pr & Hrow). destruct_and! Hrow.
  match goal with H : ∃ _ _, _ |- _ => destruct H as (m & pool & _ & _ & _ & Hp & _ & Hl) end.
  unfold pool_limit. by rewrite Hp.
Qed.

Lemma select_loop pools deviceId userId now db routes :
  selectForAuthorizedDevice is_uuid pools deviceId userId now db = Ok routes →
  loop_outcome (pool_limit pools) deviceId routes (feed_loop deviceId empty_feed routes).
Proof.
  intros [Hsort _]%select_ok. apply (feed_routes_spec _ _ _ [] []); [|apply feed_inv_empty].
  intros row Hrow. subst routes. apply elem_of_merge_sort, selected_row in Hrow as [_ Hrow].
  by eapply row_limit.
Qed.

Lemma inv_printable limit deviceId processed lines st :
  feed_inv limit deviceId processed lines st →
  Forall (λ s, string_forall printable s = true) lines.*2.
Proof using isIP_chars.
  intros Hst. rewrite Forall_fmap. eapply Forall_impl; [by destruct Hst|].
  intros [row uri] Hr%render_line. by eapply line_printable.
Qed.

Lemma inv_text limit deviceId processed lines st :
  feed_inv limit deviceId processed lines st → lines ≠ [] →
  subscriptionFeedSchema (String.concat LF lines.*2) = true ∧
  split_on "010" (String.concat LF lines.*2) = lines.*2.
Proof using isIP_chars.
  intros Hst Hne. pose proof (inv_printable _ _ _ _ _ Hst) as Hp.
  split; [|apply printable_lines; [by destruct lines|done]].
  unfold subscriptionFeedSchema. rewrite ascii_utf16_length by (by apply concat_ascii).
  destruct Hst as [_ _ _ _ [_ _ _ Hb _] _ _ _]. by apply Z.leb_le.
Qed.

Lemma sublist_sorted {A} (R : relation A) l l' :
  l `sublist_of` l' → StronglySorted R l' → StronglySorted R l.
Proof.
  induction 1 as [|x l l' Hl IH|x l l' Hl IH]; [done| |];
    rewrite StronglySorted_cons; intros [Hx Hs]; [|auto].
  rewrite StronglySorted_cons. split; [|auto].
  rewrite Forall_forall in *. intros y Hy. eapply Hx, elem_of_sublist; eauto.
Qed.

(** What a text lists: lines within the limits, each the address of a
    selected row's client, in the order of the query; and every row that
    renders is listed, or what it would add is. *)
Record listing pools deviceId (routes : list ConnectionRouteProjection) (lines : list Line)
    (text : string) : Prop := {
  ls_some : lines ≠ [];
  ls_text : split_on "010" text = lines.*2;
  ls_bytes : (String.length text ≤ Z.to_nat MAX_FEED_BYTES)%nat;
  ls_admissible : admissible (pool_limit pools) lines;
  ls_sorted : StronglySorted projection_order lines.*1;
  ls_routes : lines.*1 `sublist_of` routes;
  ls_lines : Forall (λ l, line_of deviceId l.1 l.2) lines;
  ls_complete : Forall (λ row, ∀ uri, render deviceId row = Ok (Some uri) →
    covered (pool_limit pools) lines row uri) routes;
}.

Lemma inv_listing pools deviceId routes lines st :
  feed_inv (pool_limit pools) deviceId routes lines st → StronglySorted projection_order routes →
  lines ≠ [] → listing pools deviceId routes lines (String.concat LF lines.*2).
Proof using isIP_chars.
  intros Hst Hsorted Hne. destruct (inv_text _ _ _ _ _ Hst Hne) as [_ Hsplit].
  destruct Hst as [_ _ _ _ Ha Ho Hl Hc]. split; try done.
  - destruct Ha as [_ _ _ Hb _]. lia.
  - by eapply sublist_sorted.
  - eapply Forall_impl; [exact Hl|]. intros l. apply render_line.
Qed.

Notation feed_of := (feed hmac_sha256 is_uuid isIP environment feedEnvironment).
Notation resolve := (resolveAuthorizedDevice hmac_sha256 feedEnvironment).
Notation select := (selectForAuthorizedDevice is_uuid).

(** What a request comes to. *)
Definition feed_outcome pools token t0 db0 now db (o : outcome FeedError string) : Prop :=
  match o with
  | Ok text => ∃ deviceId userId routes lines, resolve token t0 db0 = Some (deviceId, userId) ∧
      select pools deviceId userId now db = Ok routes ∧ listing pools deviceId routes lines text
  | Throw FeedUnauthorized => resolve token t0 db0 = None
  | Throw FeedUnavailable => SUBSCRIPTION_FEED_RENDERING_ENABLED feedEnvironment = false ∨
      ∃ deviceId userId routes, resolve token t0 db0 = Some (deviceId, userId) ∧
        select pools deviceId userId now db = Ok routes ∧
        (Forall (λ row, ∀ uri, render deviceId row ≠ Ok (Some uri)) routes ∨
         ∃ lines row uri, admissible (pool_limit pools) lines ∧ lines.*1 `sublist_of` routes ∧
           row ∈ routes ∧ render deviceId row = Ok (Some uri) ∧
           ¬ covered (pool_limit pools) lines row uri ∧ overflows lines uri)
  | Throw FeedMalformed => ∃ deviceId userId, resolve token t0 db0 = Some (deviceId, userId) ∧
      select pools deviceId userId now db = Throw FeedMalformed
  | Throw FeedFailed => pepper environment = None
  end.

Lemma select_error pools deviceId userId now db e :
  select pools deviceId userId now db = Throw e → e = FeedMalformed.
Proof. unfold selectForAuthorizedDevice. destruct (negb _); [by intros [= <-]|]. by destruct (forallb _ _); [|intros [= <-]]. Qed.

(** A selected row has room in its empty pool. *)
Lemma nothing_renders pools deviceId userId now db routes st :
  select pools deviceId userId now db = Ok routes →
  feed_inv (pool_limit pools) deviceId routes [] st →
  Forall (λ row, ∀ uri, render deviceId row ≠ Ok (Some uri)) routes.
Proof.
  intros [Hsort Hschema]%select_ok Hst. pose proof (fi_complete _ _ _ _ _ Hst) as Hc.
  rewrite !Forall_forall in *. intros row Hrow uri Hr. specialize (Hschema row Hrow).
  subst routes. pose proof Hrow as [_ Hl%row_limit]%elem_of_merge_sort%selected_row.
  destruct (Hc row Hrow uri Hr) as [?|[?|Hfull]]; [set_solver..|]. rewrite Hl in Hfull.
  unfold connectionRouteProjectionSchema in Hschema. apply andb_prop in Hschema as [_ Hz].
  unfold z_range, pool_count in *. simpl in Hfull. lia.
Qed.

Lemma feed_spec pools token t0 db0 now db :
  feed_outcome pools token t0 db0 now db (feed_of pools token t0 db0 now db).
Proof using isIP_chars.
  unfold feed. destruct (resolve token t0 db0) as [[deviceId userId]|] eqn:Hres; [|done].
  destruct (SUBSCRIPTION_FEED_RENDERING_ENABLED feedEnvironment) eqn:Hon; [|by left]. simpl.
  destruct (select pools deviceId userId now db) as [routes|e] eqn:Hsel.
  2: { pose proof (select_error _ _ _ _ _ _ Hsel) as ->. by exists deviceId, userId. }
  pose proof (select_loop _ _ _ _ _ _ Hsel) as Hloop.
  destruct (feed_loop deviceId empty_feed routes) as [st|[]]; simpl in *; try done.
  2: { right. exists deviceId, userId, routes. split_and!; [done..|by right]. }
  destruct Hloop as [lines Hst]. rewrite (fi_rendered _ _ _ _ _ Hst). case_bool_decide as Hnil.
  - right. exists deviceId, userId, routes. split_and!; [done..|left].
    destruct lines; [|done]. by eapply nothing_renders.
  - destruct (inv_text _ _ _ _ _ Hst) as [-> Hsplit]; [by destruct lines|].
    exists deviceId, userId, routes, lines. split_and!; [done..|].
    apply inv_listing with st; [done| |by destruct lines].
    apply select_ok in Hsel as [-> _]. apply (StronglySorted_merge_sort projection_order).
Qed.

(** ** The theorems *)

(** A feed request comes to exactly one of: a refusal of the token; 503
    because rendering is off, no ready row renders, or one more line would
    pass the limits; an error for ids or rows out of schema; an error for want
    of the pepper; or a text whose lines are clients of ready rows in the
    order of the query, one per node and without repetition, within the
    limits on lines, bytes and each pool, that leaves out no row that renders
    unless its node or address is listed or its pool is full. *)
Theorem feed_is_exact pools token t0 db0 now db :
  feed_outcome pools token t0 db0 now db (feed_of pools token t0 db0 now db).
Proof using isIP_chars. apply feed_spec. Qed.

Context (agentPepper : option string) (credentialPepper : string).
Context (syncLease syncDelay syncMax outboxLease outboxDelay outboxMax : Z).
Context (eventIds : option (list string)).
Notation Step := (step uuid hmac_sha256 is_uuid sha256 environment agentPepper credentialPepper
  syncLease syncDelay syncMax outboxLease outboxDelay outboxMax eventIds).
Notation Reachable := (reachable uuid hmac_sha256 is_uuid sha256 environment agentPepper
  credentialPepper syncLease syncDelay syncMax outboxLease outboxDelay outboxMax eventIds).

(** The node has acknowledged a version of its configuration that has both
    the grant and the route of the row. *)
Definition acknowledged_row (db : Db) (row : ConnectionRouteProjection) : Prop :=
  ∃ g r v job a j, db_grants db !! cr_grantId row = Some g ∧
    db_routes db !! (cr_endpointId row, cr_profileId row) = Some r ∧ rc_activationVersion r = Some v ∧
    db_acks db !! job = Some a ∧ na_nodeId a = cr_nodeId row ∧
    db_jobs db !! job = Some j ∧ j_status j = JOB_SUCCEEDED ∧
    v ≤ na_targetVersion a ∧ gr_desiredVersion g ≤ na_targetVersion a.

Lemma ready_row_acknowledged pools db deviceId now row :
  Inv nothing db → row_of pools db deviceId now row → acknowledged_row db row.
Proof.
  intros Hinv (g & n & r & en & pr & Hg & _ & Hgn & Hn & Hr & _ & _ & _ & _ & Hready & _).
  apply isRouteReady_spec in Hready as (_ & (Hst & _ & Hv)%isGrantConverged_spec & _ & _ & v & Hact & Hle).
  destruct (applied_acknowledged _ _ _ _ Hinv Hg ltac:(by rewrite Hgn) Hst Hv)
    as (job & a & j & Hack & Hid & Hj & Hs & Hd & Ht).
  exists g, r, v, job, a, j. rewrite <- Hgn. split_and!; try done; lia.
Qed.

Lemma row_gives_access pools db deviceId userId now row uri :
  entitled_device db deviceId userId now → row_of pools db deviceId now row →
  line_of deviceId row uri →
  ∃ credential name display,
    renderVlessTcpTls isIP
      {| vr_host := cr_endpointHost row; vr_addressKind := cr_endpointAddressKind row;
         vr_port := cr_endpointPort row; vr_credential := credential;
         vr_tlsServerName := name; vr_displayName := display |} = Some uri ∧
    gives_access hmac_sha256 environment db (cr_nodeId row) now now
      {| cl_grantId := cr_grantId row; cl_credential := credential |}.
Proof.
  intros (d & _ & _ & Hd & _ & Hds & _)
    (g & n & r & en & pr & Hg & Hdev & Hgn & _ & _ & _ & _ & _ & _ & Hready & Hhash & Hver & _)
    (c & name & display & _ & _ & _ & _ & _ & Hv & Hder & Hok & Hr).
  apply isRouteReady_spec in Hready as (_ & (Hst & Ht & _)%isGrantConverged_spec & _).
  exists c, name, display. split; [done|]. exists g, d. simpl.
  rewrite Hhash in Hok. rewrite Hver in Hv. rewrite Hdev. by split_and!.
Qed.

(** C2: the feed of a reachable state lists served clients only.  Whoever
    presents the token of a device gets lines only while the device is active
    with a running subscription, and each line is the address, with the
    derived credential, of a grant that gives the device access to the node,
    and whose grant and route the node has acknowledged. *)
Theorem feed_lists_served_clients pools token t0 db0 now db text :
  Reachable db0 → rtc Step db0 db → feed_of pools token t0 db0 now db = Ok text →
  ∃ deviceId d pepper lines,
    db_devices db !! deviceId = Some d ∧ dv_status d = DEVICE_ACTIVE ∧
    SUBSCRIPTION_TOKEN_PEPPER feedEnvironment = Some pepper ∧
    dv_subscriptionTokenHash d = hashToken hmac_sha256 token pepper ∧
    (∃ id sub, db_subscriptions db !! id = Some sub ∧ running (dv_userId d) now sub = true) ∧
    lines ≠ [] ∧ split_on "010" text = lines.*2 ∧
    Forall (λ l, acknowledged_row db l.1 ∧ ∃ credential name display,
      renderVlessTcpTls isIP
        {| vr_host := cr_endpointHost l.1; vr_addressKind := cr_endpointAddressKind l.1;
           vr_port := cr_endpointPort l.1; vr_credential := credential;
           vr_tlsServerName := name; vr_displayName := display |} = Some l.2 ∧
      gives_access hmac_sha256 environment db (cr_nodeId l.1) now now
        {| cl_grantId := cr_grantId l.1; cl_credential := credential |}) lines.
Proof using isIP_chars.
  intros Hr0 Hsteps Hfeed. pose proof (feed_spec pools token t0 db0 now db) as Hspec.
  rewrite Hfeed in Hspec. destruct Hspec as (deviceId & userId & routes & lines & Hres & Hsel & Hls).
  pose proof (reachable_inv _ _ _ _ _ _ _ _ _ _ _ _ _ _ _ Hr0) as Hinv0.
  destruct (steps_inv _ _ _ _ _ _ _ _ _ _ _ _ _ _ _ _ Hsteps Hinv0) as [Hinv Hev].
  destruct (resolve_device _ _ _ _ _ Hres) as (d0 & p & Hd0 & Hu & Hp & Hhash).
  destruct (ev_devices _ _ Hev _ _ Hd0) as (d & Hd & Hud & _ & Htok & _).
  destruct (select_ok _ _ _ _ _ _ Hsel) as [-> _]. destruct Hls as [Hne Htext _ _ _ Hsub Hlines _].
  assert (Hrows : ∀ l, l ∈ lines → entitled_device db deviceId userId now ∧
    row_of pools db deviceId now l.1).
  { intros l Hl. eapply selected_row, elem_of_merge_sort, elem_of_sublist, Hsub.
    apply list_elem_of_fmap. by exists l. }
  assert (Hent : entitled_device db deviceId userId now).
  { destruct lines as [|l lines]; [done|]. by destruct (Hrows l ltac:(left)). }
  pose proof Hent as (d' & id & sub & Hd' & Hu' & Hds & Hs & Hrun).
  assert (d' = d) as -> by congruence. rewrite <- Hu' in Hrun.
  exists deviceId, d, p, lines. split_and!; try done; [congruence|by exists id, sub|].
  rewrite Forall_forall in *. intros l Hl. destruct (Hrows l Hl) as [_ Hrow]. split.
  - by eapply ready_row_acknowledged.
  - eapply row_gives_access; [done..|]. by apply Hlines.
Qed.
End feed_theorems.

(** ** Concrete feeds

    The run of ControlPlaneExamples.v continued: the published route is
    delivered and acknowledged, and the device's feed lists it. *)

Import NodeSyncStore.

#[local] Existing Instance AgentExamples.binaryDates.

(** A stand-in for [net.isIP]: digits and dots, or with a colon. *)
Definition ip_char (a : ascii) : bool :=
  let n := byte_of a in ((46 <=? n) && (n <=? 58))%nat.
Definition toy_isIP (s : string) : Z :=
  if negb (string_forall ip_char s) then 0
  else if (length (split_on ":" s) =? 1)%nat then 4 else 6.

Lemma toy_isIP_chars s : toy_isIP s ≠ 0 → string_forall printable s = true.
Proof.
  unfold toy_isIP. destruct (string_forall ip_char s) eqn:Hs; [|done]. intros _. revert Hs.
  apply string_forall_impl, for_ascii_impl. vm_compute. reflexivity.
Qed.

(** The published route's job is completed, fetched and acknowledged. *)
Definition route_job : NodeSyncRequestedEvent := {| cmd_resource := RouteResource "e1" "p1";
  cmd_nodeSyncJobId := "u3"; cmd_targetVersion := 2 |}.
Definition route_leased : Db :=
  worked (SLease (context_of published_db) route_job "worker" "lease2" 91) published_db.
Definition route_completed : Db := worked (SComplete "u3" "worker" "lease2" 92) route_leased.
Definition route_fetch :=
  atomically (snapshotInTransaction toy_hmac AgentExamples.node_hash config "n1" 93) route_completed.
Definition route_acknowledgement : AcknowledgeNodeConfigInput :=
  match route_fetch.1 with
  | Ok sn => match sn_pendingAcknowledgement sn with Some a => ack_input "n1" a | None => acknowledgement end
  | Throw _ => acknowledgement
  end.
Definition feed_db : Db := (acknowledgeNodeConfig route_acknowledgement 94 route_fetch.2).2.

Definition example_pools : PoolTables := {|
  pt_pools := {["pool"%string := {| lp_enabled := true; lp_candidateLimit := 2 |}]};
  pt_memberships := {["n1"%string := {| lm_locationPoolId := "pool"; lm_role := SERVING |}]} |}.
Definition feed_config : FeedEnvironment := {| SUBSCRIPTION_TOKEN_PEPPER := Some "tokens"%string;
  SUBSCRIPTION_FEED_RENDERING_ENABLED := true; SUBSCRIPTION_FEED_MAX_ROUTES := 20 |}.

Definition example_feed (db : Db) : outcome FeedError string :=
  feed toy_hmac AgentExamples.any_text toy_isIP config feed_config example_pools device_token 95 db 95 db.
Definition example_uri : string :=
  "vless://48484848-4848-4848-8848-484848484848@192.0.2.1:443?encryption=none&security=tls&type=tcp&sni=example.org#Node".

Lemma example_feed_runs : example_feed feed_db = Ok example_uri.
Proof. vm_compute. reflexivity. Qed.

Lemma feed_db_reachable : Reachable feed_db.
Proof.
  assert (H1 : Reachable published_db).
  { apply (later_reachable _ _ acknowledged_reachable), steps_commit;
      [apply TPublish|vm_compute; reflexivity]. }
  assert (H2 : Reachable route_completed).
  { apply (later_reachable _ _ H1). eapply rtc_l; [by apply (StepJobs _ _ _ _ _ _ _ 30 10 5 30 10 5 None
      (SLease (context_of published_db) route_job "worker" "lease2" 91))|].
    apply rtc_once. by apply (StepJobs _ _ _ _ _ _ _ 30 10 5 30 10 5 None
      (SComplete "u3" "worker" "lease2" 92)). }
  assert (H3 : Reachable route_fetch.2).
  { apply (later_reachable _ _ H2), steps_commit; [apply TSnapshot|vm_compute; reflexivity]. }
  apply (later_reachable _ _ H3), steps_commit; [apply TAcknowledge|vm_compute; reflexivity].
Qed.

Lemma feed_lists_served_clients_witness :
  ∃ deviceId d lines, db_devices feed_db !! deviceId = Some d ∧ dv_status d = DEVICE_ACTIVE ∧
    lines.*2 = [example_uri] ∧
    Forall (λ l : ConnectionRouteProjection * string, acknowledged_row feed_db l.1) lines.
Proof.
  destruct (feed_lists_served_clients plain_uuid toy_hmac AgentExamples.any_text AgentExamples.node_hash
    toy_isIP config feed_config toy_isIP_chars (Some "agents"%string) "pepper" 30 10 5 30 10 5 None
    example_pools device_token 95 feed_db 95 feed_db example_uri feed_db_reachable (rtc_refl _ _)
    example_feed_runs) as (deviceId & d & p & lines & Hd & Hs & _ & _ & _ & _ & Hl & Hf).
  exists deviceId, d, lines. split; [exact Hd|]. split; [exact Hs|]. split.
  - rewrite <- Hl. vm_compute. reflexivity.
  - eapply Forall_impl; [exact Hf|]. intros l [Hack _]. exact Hack.
Defined.

(** Before the route is acknowledged nothing is ready. *)
Lemma feed_is_exact_witness :
  feed_outcome toy_hmac AgentExamples.any_text toy_isIP config feed_config example_pools device_token
    95 feed_db 95 feed_db (Ok example_uri) ∧
  feed_outcome toy_hmac AgentExamples.any_text toy_isIP config feed_config example_pools device_token
    95 published_db 95 published_db (Throw FeedUnavailable).
Proof.
  assert (Hrun : example_feed published_db = Throw FeedUnavailable) by (vm_compute; reflexivity).
  rewrite <- Hrun, <- example_feed_runs. split; apply feed_is_exact, toy_isIP_chars.
Defined.
