(* ===== verification/HttpSafety.v ===== *)
(** * From a message to the service and back, and the cookie of a session

    A request the bot signs with the installed credential passes the API's
    guard; what the bot then answers to the message is what the service did.
    The cookie a completed login sets opens the cabinet for its user. *)

From Stdlib Require Import Ascii.
From Stdlib Require Import QArith.
From stdpp Require Import pretty.
From S2P Require Import Prelude.
From S2P Require Import Text.
From S2P Require Import Regex.
From S2P Require Import Json.
From S2P Require Import NodeAgentContract.
From S2P Require Import XrayAccess.
From S2P Require Import ControlPlane.
From S2P Require Import DataPlaneCredential.
From S2P Require Import Orchestration.
From S2P Require Import Base64Url.
From S2P Require Import BotSigningKey.
From S2P Require Import SafeLogger.
From S2P Require Import TelegramInitData.
From S2P Require Import Accounts.
From S2P Require Import BotRequests.
From S2P Require Import BotCredentials.
From S2P Require Import Trial.
From S2P Require Import Cabinet.
From S2P Require Import Login.
From S2P Require Import AccountSystem.
From S2P Require Import BotSafety.
From S2P Require Import AccountTheorems.
From S2P Require Import BotClient.
From S2P Require Import HttpApi.
From S2P Require AgentExamples.
From S2P Require Import AccountExamples.
Open Scope Z_scope.

(** ** A signed request *)

Section signed.
Context `{Aes256Gcm} (hmac_key : list Z → string → list Z) (sha256_bytes : string → list Z).
Context (is_uuid : string → bool) (JSON_parse : string → option json) (encodedKek : string).
Context (hmac_is_bytes : ∀ key text, Forall is_byte (hmac_key key text)).
Context (hmac_length : ∀ key text, length (hmac_key key text) = 32%nat).

Notation sign := (sign hmac_key sha256_bytes).
Notation canActivate := (canActivate hmac_key sha256_bytes is_uuid (Some encodedKek)).

(** The file of a credential, as [persistMaterial] installs it. *)
Definition credential_file (m : BotCredentialMaterial) : BotCredentialFile :=
  {| cf_credentialId := ma_credentialId m; cf_signingKey := base64url (ma_signingKey m) |}.
Definition signer_of (m : BotCredentialMaterial) : BotRequestSigner :=
  {| sg_credentialId := ma_credentialId m; sg_signingKey := ma_signingKey m; sg_destroyed := false |}.

Lemma installed_signer m content process file group :
  Forall is_byte (ma_signingKey m) → length (ma_signingKey m) = keyByteLength →
  plain_text (ma_credentialId m) = true →
  JSON_parse (JSON_stringify (credential_members (credential_file m))) =
    Some (object_json (credential_members (credential_file m))) →
  serializeBotCredentialFile is_uuid (credential_file m) = Some content →
  read_protected "Bot credential" process file group = Ok content →
  createBotRequestSignerFromFile is_uuid JSON_parse process file group = Ok (signer_of m).
Proof using Type.
  intros Hb Hlen Hp Hj Hs Hr. assert (Hid : is_uuid (ma_credentialId m) = true).
  { unfold serializeBotCredentialFile in Hs. by option_invert Hs. }
  eapply credential_file_reads_back in Hs; [|exact Hp|exact Hj].
  unfold createBotRequestSignerFromFile, readBotCredentialFile. rewrite Hr, Hs.
  unfold new_signer, credential_file. simpl. rewrite Hid, from_base64url_base64url by done.
  rewrite Hlen, bool_decide_eq_true_2 by done. reflexivity.
Qed.

(** What the signer signs, as the API reads it. *)
Definition input_of (signer : BotRequestSigner) (i : BotSignInput) (now : Z) (nonce : string)
    (signature : string) : BotAuthenticationInput :=
  {| ba_credentialId := sg_credentialId signer; ba_idempotencyKey := si_idempotencyKey i; ba_nonce := nonce;
     ba_signature := signature; ba_timestamp := pretty (now / 1000); ba_method := si_method i;
     ba_path := si_path i; ba_rawBody := si_body i; ba_telegramUserId := si_telegramUserId i |}.

Definition input_valid (i : BotSignInput) (nonce : string) : Prop :=
  botRequestMethodSchema (si_method i) = true ∧ botRequestPathSchema (si_path i) = true ∧
  botTelegramUserIdSchema (si_telegramUserId i) = true ∧
  botRequestIdempotencyKeySchema (si_idempotencyKey i) = true ∧ botRequestNonceSchema nonce = true.

Lemma sign_forward signer i now nonce :
  sg_destroyed signer = false → input_valid i nonce →
  let signature := to_hex (hmac_key (sg_signingKey signer)
    (canonical_request sha256_bytes (input_of signer i now nonce EmptyString))) in
  sign signer i now nonce = Ok {| sr_body := si_body i; sr_headers :=
    [(BOT_AUTH_HEADER_NAMES_credentialId, sg_credentialId signer);
     (BOT_AUTH_HEADER_NAMES_idempotencyKey, si_idempotencyKey i);
     (BOT_AUTH_HEADER_NAMES_nonce, nonce); (BOT_AUTH_HEADER_NAMES_signature, signature);
     (BOT_AUTH_HEADER_NAMES_timestamp, pretty (now / 1000))] |}.
Proof using Type.
  intros Hd (Hm & Hp & Hu & Hk & Hn). unfold BotClient.sign. by rewrite Hd, Hm, Hp, Hu, Hk, Hn.
Qed.

Lemma header_read p s : p s = true → zod_text p (JStr s) = Some s.
Proof using Type. intros Hs. unfold zod_text. simpl. by rewrite option_guard_True by by apply Is_true_true_2. Qed.

(** A request that is signed with the stored key, in time and with a fresh
    nonce, passes the guard as the user's it names. *)
Lemma signed_request_is_let_in signer i now nonce members s c databaseNow redisNow r r' :
  sg_destroyed signer = false → input_valid i nonce → si_method i = "POST"%string →
  is_uuid (sg_credentialId signer) = true →
  si_body i = JSON_stringify members → JSON_parse (si_body i) = Some (object_json members) →
  botTelegramIdentitySchema (object_json members) = Some (si_telegramUserId i) →
  ac_botCredentials s !! sg_credentialId signer = Some c → bc_revokedAt c = None →
  decryptBotSigningKey {| bk_keyCiphertext := bc_keyCiphertext c; bk_nonce := bc_nonce c |} encodedKek
    {| bk_credentialId := sg_credentialId signer; bk_principalId := bc_principalId c;
       bk_keyVersion := bc_keyVersion c |} = Some (sg_signingKey signer) →
  0 ≤ now < 10 ^ 14 → Z.abs (databaseNow - now) ≤ 29000 →
  reserveOnce (nonce_key (bc_principalId c) nonce) NONCE_TTL_MS redisNow r = (true, r') →
  ∃ signed, sign signer i now nonce = Ok signed ∧ rq_body (received JSON_parse (si_path i) signed) = Some (object_json members) ∧
    canActivate (received JSON_parse (si_path i) signed) s databaseNow redisNow (Some r) =
      (Ok {| br_credentialId := sg_credentialId signer; br_idempotencyKey := si_idempotencyKey i;
             br_method := si_method i; br_path := si_path i; br_principalId := bc_principalId c;
             br_requestHash := createBotRequestHash sha256_bytes (input_of signer i now nonce EmptyString);
             br_telegramUserId := si_telegramUserId i |}, Some r').
Proof using hmac_is_bytes hmac_length.
  intros Hd Hv Hpost Huuid Hbody Hjson Hid Hc Hact Hopen Hnow Hclock Hres.
  destruct i as [method path user key body]. cbn [si_method si_path si_telegramUserId si_idempotencyKey si_body] in *. subst method body.
  eexists. split; [by apply sign_forward|]. split; [exact Hjson|].
  destruct Hv as (Hm & Hp & Hu & Hk & Hn).
  cbn [si_method si_path si_telegramUserId si_idempotencyKey si_body] in Hm, Hp, Hu, Hk.
  destruct (timestamp_text (now / 1000)) as [Ht Hval].
  { split; [apply Z.div_pos; lia|]. apply Z.div_lt_upper_bound; lia. }
  set (signature := to_hex _).
  assert (Hsig : botRequestSignatureSchema signature = true).
  { unfold botRequestSignatureSchema, ascii_text, signature. by rewrite to_hex_length, hmac_length, to_hex_digits. }
  set (request := received JSON_parse _ _).
  assert (Hh : botSignedRequestHeadersSchema is_uuid request = Some {| sh_credentialId := sg_credentialId signer;
    sh_idempotencyKey := key; sh_nonce := nonce; sh_signature := signature;
    sh_timestamp := pretty (now / 1000) |}).
  { unfold botSignedRequestHeadersSchema.
    change (rq_headers request !! BOT_AUTH_HEADER_NAMES_credentialId) with (Some (JStr (sg_credentialId signer))).
    change (rq_headers request !! BOT_AUTH_HEADER_NAMES_idempotencyKey) with (Some (JStr key)).
    change (rq_headers request !! BOT_AUTH_HEADER_NAMES_nonce) with (Some (JStr nonce)).
    change (rq_headers request !! BOT_AUTH_HEADER_NAMES_signature) with (Some (JStr signature)).
    change (rq_headers request !! BOT_AUTH_HEADER_NAMES_timestamp) with (Some (JStr (pretty (now / 1000)))).
    cbn -[zod_text]. rewrite !header_read by done. reflexivity. }
  assert (Hb : rq_body request = Some (object_json members)) by exact Hjson.
  unfold HttpApi.canActivate. rewrite Hh, Hb. cbn [mbind option_bind]. rewrite Hid. cbn [request received rq_url rq_rawBody rq_method].
  rewrite Hm, Hp. cbn [negb andb].
  rewrite (authenticate_forward hmac_key sha256_bytes (Some encodedKek) s databaseNow redisNow r _ encodedKek c r').
  - reflexivity.
  - done.
  - exact Hc.
  - exact Hact.
  - unfold signature_valid. simpl. rewrite Hopen. apply bool_decide_eq_true. simpl. unfold signature.
    rewrite from_to_hex by done. reflexivity.
  - unfold timestamp_fresh. simpl. rewrite Hval. apply Z.leb_le.
    pose proof (Z.div_mod now 1000 ltac:(done)). pose proof (Z.mod_pos_bound now 1000 ltac:(done)). lia.
  - exact Hres.
Qed.
End signed.

(** ** A code as a person types it *)

Section messages.
Context (toUpperCase : jstring → jstring).

(** [c] of the code is typed as [t]: in either case, and I, L, O for 1, 1, 0. *)
Definition ascii_upper (c : Z) : Z := if (97 <=? c) && (c <=? 122) then c - 32 else c.
Definition typed (c t : Z) : Prop :=
  ascii_upper t = c ∨ c = 49 ∧ (ascii_upper t = 73 ∨ ascii_upper t = 76) ∨ c = 48 ∧ ascii_upper t = 79.
Context (upper_of_ascii : ∀ s, Forall (λ c, 0 ≤ c < 128) s → toUpperCase s = ascii_upper <$> s).

Definition code_class : charclass := one_of [digits; (65, 72); (74, 75); (77, 78); (80, 84); (86, 90)].

Lemma iterate_class s cc k i j :
  iterate (denote s (Chars cc)) k i j ↔
  j = (i + k)%nat ∧ ∀ n, (n < k)%nat → ∃ c, s !! (i + n)%nat = Some c ∧ in_class cc c = true.
Proof using Type.
  revert i. induction k as [|k IH]; intros i; cbn [iterate].
  { split; [intros <-; split; [lia|intros; lia]|intros [-> _]; lia]. }
  split.
  - intros (m & (c & Hc & Hin & ->) & [-> Hn]%IH). split; [lia|]. intros [|n] Hlt; [rewrite Nat.add_0_r; eauto|].
    destruct (Hn n) as (c' & Hc' & Hin'); [lia|]. exists c'. split; [|done]. rewrite <- Hc'. f_equal. lia.
  - intros [-> Hn]. destruct (Hn 0%nat) as (c & Hc & Hin); [lia|]. rewrite Nat.add_0_r in Hc.
    exists (S i). split; [by exists c|]. apply IH. split; [lia|]. intros n Hlt.
    destruct (Hn (S n)) as (c' & Hc' & Hin'); [lia|]. exists c'. split; [|done]. rewrite <- Hc'. f_equal. lia.
Qed.

Lemma code_test s : test s CROCKFORD_CODE = true ↔ length s = 8%nat ∧ Forall (λ c, in_class code_class c = true) s.
Proof using Type.
  rewrite test_spec by done. split.
  - intros (i & j & _ & m & [-> <-] & m' & (k & Hk1 & Hk2 & [-> Hk]%iterate_class) & m'' & [Hl <-] & _).
    simpl in Hk2. assert (k = 8)%nat as -> by lia. split; [lia|]. apply Forall_lookup. intros n c Hc.
    destruct (Hk n) as (c' & Hc' & Hin); [apply lookup_lt_Some in Hc; lia|]. rewrite Nat.add_0_l, Hc in Hc'. by injection Hc' as <-.
  - intros [Hl Hall]. exists 0%nat, 8%nat. split; [lia|]. exists 0%nat. split; [by split|]. exists 8%nat. split.
    + exists 8%nat. split; [lia|]. split; [simpl; lia|]. apply iterate_class. split; [done|]. intros n Hn.
      destruct (lookup_lt_is_Some_2 s n) as [c Hc]; [lia|]. exists c. split; [done|]. by eapply Forall_lookup_1 in Hall.
    + exists 8%nat. split; [|done]. by split; [rewrite Hl|].
Qed.

Lemma text_of_units_units s : text_of_units (units s) = s.
Proof using Type.
  unfold text_of_units, units. induction s as [|a s IH]; [done|]. cbn. f_equal; [|exact IH].
  by rewrite Nat2Z.id, ascii_nat_embedding.
Qed.

(** The codes the API makes are what the pattern takes. *)
Lemma code_units code : confirmation_code code = true → test (units code) CROCKFORD_CODE = true.
Proof using Type.
  unfold confirmation_code. intros [Hl%Nat.eqb_eq Hc]%andb_prop. apply code_test. split.
  - unfold units. rewrite length_fmap. rewrite <- Hl. clear. induction code; simpl; congruence.
  - clear Hl. induction code as [|a code IH]; [by constructor|]. cbn [string_forall] in Hc.
    apply andb_prop in Hc as [Ha Hc]. constructor; [|by apply IH].
    refine (for_ascii_impl (λ a, bool_decide (a ∈ CROCKFORD_ALPHABET))
      (λ a, in_class code_class (Z.of_nat (nat_of_ascii a))) _ a Ha). vm_compute. reflexivity.
Qed.
Lemma code_of_units s : test s CROCKFORD_CODE = true → confirmation_code (text_of_units s) = true.
Proof using Type.
  intros [Hl Hc]%code_test. unfold confirmation_code, text_of_units. apply andb_true_intro. split.
  - apply Nat.eqb_eq. rewrite <- Hl. clear. induction s as [|c s IH]; [done|by apply (f_equal S)].
  - clear Hl. induction Hc as [|c s Hc _ IH]; [done|]. cbn. apply andb_true_intro. split; [|exact IH].
    assert (Hall : forallb (λ n, negb (in_class code_class (Z.of_nat n)) ||
      bool_decide (ascii_of_nat (Z.to_nat (Z.of_nat n)) ∈ CROCKFORD_ALPHABET)) (seq 0 91) = true)
      by (vm_compute; reflexivity).
    assert (Hr : 48 ≤ c ≤ 90).
    { unfold in_class, code_class, one_of, digits in Hc. simpl in Hc. lia. }
    rewrite forallb_forall in Hall. specialize (Hall (Z.to_nat c)). rewrite Z2Nat.id in Hall by lia.
    rewrite Hc in Hall. apply Hall, in_seq. lia.
Qed.

Lemma not_white_trim s : Forall (λ c, is_white c = false) s → js_trim s = s.
Proof using Type.
  assert (Hd : ∀ s, Forall (λ c, is_white c = false) s → drop_white s = s).
  { intros s' [|c l Hc _]; simpl; [done|by rewrite Hc]. }
  intros Hs. unfold js_trim. rewrite (Hd s Hs), Hd by by apply Forall_reverse. apply reverse_involutive.
Qed.

(** The characters of a typed code: printable, and no slash. *)
Definition keys : jstring := filter (λ c, c ≠ 47) (Z.of_nat <$> seq 33 94).
Lemma typed_key c t :
  in_class code_class c = true → typed c t → t ∈ keys ∧ crockford_unit (ascii_upper t) = c.
Proof using Type.
  unfold in_class, code_class, one_of, digits. simpl. intros Hc Ht.
  assert (Hr : 48 ≤ c ≤ 90 ∧ c ≠ 73 ∧ c ≠ 76 ∧ c ≠ 79) by lia. clear Hc.
  assert (Ht' : 48 ≤ ascii_upper t ≤ 90 ∧ crockford_unit (ascii_upper t) = c).
  { unfold typed in Ht. split; [lia|]. unfold crockford_unit.
    destruct (_ || _) eqn:E1; [lia|]. destruct (ascii_upper t =? 79) eqn:E2; lia. }
  destruct Ht' as [Hu ->]. split; [|done]. assert (48 ≤ t ≤ 122) by (unfold ascii_upper in Hu; destruct (_ && _) eqn:E; lia).
  apply list_elem_of_filter. split; [lia|].
  apply list_elem_of_fmap. exists (Z.to_nat t). split; [lia|]. apply elem_of_seq. lia.
Qed.
Lemma key_not_white t : t ∈ keys → is_white t = false.
Proof using Type.
  assert (Hall : forallb (λ t, negb (is_white t)) keys = true) by (vm_compute; reflexivity).
  rewrite forallb_forall in Hall. intros Ht%list_elem_of_In%Hall. by apply negb_true_iff.
Qed.

Lemma typed_code code ts :
  confirmation_code code = true → Forall2 typed (units code) ts →
  Forall (λ t, t ∈ keys) ts ∧ crockford_unit <$> toUpperCase ts = units code.
Proof using upper_of_ascii.
  intros [_ Hc]%code_units%code_test Ht. revert Hc Ht. generalize (units code). intros cs Hc Ht.
  assert (Hk : Forall (λ t, t ∈ keys) ts ∧ crockford_unit <$> (ascii_upper <$> ts) = cs).
  { induction Ht as [|c t cs ts Ht _ IH]; [done|]. apply Forall_cons in Hc as [Hc Hcs].
    destruct (typed_key _ _ Hc Ht) as [? E]. destruct (IH Hcs) as [? Es].
    split; [by constructor|]. simpl. by f_equal. }
  destruct Hk as [Hk Hu]. split; [done|]. rewrite upper_of_ascii; [done|].
  eapply Forall_impl; [exact Hk|]. intros t (_ & (n & -> & Hn%elem_of_seq)%list_elem_of_fmap)%list_elem_of_filter. lia.
Qed.
Lemma keys_not_white ts : Forall (λ t, t ∈ keys) ts → Forall (λ c, is_white c = false) ts.
Proof using Type. intros Hk. eapply Forall_impl; [exact Hk|apply key_not_white]. Qed.

(** A candidate that reads as a code is the code. *)
Lemma candidate_is_code code ts candidate :
  confirmation_code code = true → Forall2 typed (units code) ts → js_trim candidate = ts →
  (let c := crockford_unit <$> toUpperCase (js_trim candidate) in
   if test c CROCKFORD_CODE then Some (text_of_units c) else None) = Some code.
Proof using upper_of_ascii.
  intros Hc Ht ->. destruct (typed_code _ _ Hc Ht) as [_ Hu]. cbv zeta. by rewrite Hu, code_units, text_of_units_units.
Qed.

(** A message that is a code and nothing else is no command. *)
Lemma bare_code_is_read code text :
  confirmation_code code = true → Forall2 typed (units code) (js_trim text) →
  parseConfirmationCode toUpperCase text = Some code ∧ test (js_trim text) LAUNCH_COMMAND = false.
Proof using upper_of_ascii.
  intros Hc Ht. destruct (typed_code _ _ Hc Ht) as [Hk _]. split; [|by eapply test_blocked].
  unfold parseConfirmationCode.
  assert (Hend : ends (js_trim text) confirm_prefix 0 = []).
  { destruct (ends (js_trim text) confirm_prefix 0) as [|j l] eqn:He; [done|]. exfalso.
    eapply (blocked_sound keys); [exact Hk| |apply ends_spec; [| |rewrite He; left]]; [vm_compute; reflexivity|done|lia]. }
  unfold confirm_argument. rewrite Hend. eapply candidate_is_code; [exact Hc|exact Ht|].
  by apply not_white_trim, keys_not_white.
Qed.

(** ** The confirmation command *)

(** A bot's name after the command: [@] and letters, digits and underscores. *)
Definition bot_suffix (name : jstring) : Prop :=
  name = [] ∨ ∃ bot, name = 64 :: bot ∧ bot ≠ [] ∧ Forall (λ c, in_class word_class c = true) bot.
(** The ways the bot lets a user send a code: alone, or after [/confirm] in
    either case, with or without the bot's name, and some white space. *)
Inductive typed_message (code : string) (text : jstring) : Prop :=
| TypedAlone : Forall2 typed (units code) (js_trim text) → typed_message code text
| TypedCommand command name white t :
    js_trim text = command ++ name ++ white ++ t →
    Forall2 (λ c u, ascii_upper u = c) (units "/CONFIRM") command → bot_suffix name →
    white ≠ [] → Forall (λ c, is_white c = true) white → Forall2 typed (units code) t →
    typed_message code text.

Lemma trim_white w t :
  Forall (λ c, is_white c = true) w → Forall (λ c, is_white c = false) t → js_trim (w ++ t) = t.
Proof using Type.
  intros Hw Ht. rewrite <- (not_white_trim t Ht) at 2. unfold js_trim. do 3 f_equal.
  induction Hw as [|c w Hc _ IH]; [done|]. simpl. by rewrite Hc.
Qed.
Lemma lookup_middle (p q r : jstring) n : (n < length q)%nat → (p ++ q ++ r) !! (length p + n)%nat = q !! n.
Proof using Type. intros Hn. rewrite lookup_app_r by lia. rewrite lookup_app_l by lia. f_equal. lia. Qed.

(** What follows white space that lies between others. *)
Lemma drop_after_white p w t i c :
  Forall (λ c, is_white c = false) p → Forall (λ c, is_white c = false) t →
  (p ++ w ++ t) !! i = Some c → is_white c = true → ∃ k, drop (S i) (p ++ w ++ t) = drop k w ++ t.
Proof using Type.
  intros Hp Ht Hi Hc. apply lookup_app_Some in Hi as [Hi|[Hle Hi]].
  { by rewrite (Forall_lookup_1 _ _ _ _ Hp Hi) in Hc. }
  apply lookup_app_Some in Hi as [Hi|[Hle' Hi]]; [|by rewrite (Forall_lookup_1 _ _ _ _ Ht Hi) in Hc].
  apply lookup_lt_Some in Hi. exists (S i - length p)%nat. rewrite drop_app_ge by lia. by rewrite drop_app_le by lia.
Qed.
Lemma prefix_ends_in_white s j :
  denote s confirm_prefix 0 j → ∃ i c, j = S i ∧ s !! i = Some c ∧ is_white c = true.
Proof using Type.
  intros (m1 & _ & m2 & _ & m3 & _ & m4 & _ & m5 & (k & Hk & _ & [-> Hw]%iterate_class) & <-).
  destruct k as [|k]; [lia|]. destruct (Hw k) as (c & Hc & Hin); [lia|]. exists (m4 + k)%nat, c. split_and!; [lia|done|done].
Qed.

Lemma case_letter c u : 97 ≤ c ≤ 122 → ascii_upper u = c - 32 → in_class (one_of (both_cases c)) u = true.
Proof using Type.
  intros Hc. unfold ascii_upper, both_cases, in_class, one_of, unit_range.
  replace ((97 <=? c) && (c <=? 122)) with true by lia. simpl. destruct ((97 <=? u) && (u <=? 122)) eqn:E; lia.
Qed.

#[local] Ltac one_unit := eexists; split; [eexists; split; [reflexivity|split; [|reflexivity]]|].

(** The letters of the command. *)
Lemma command_units command :
  Forall2 (λ c u, ascii_upper u = c) (units "/CONFIRM") command →
  ∃ u0 u1 u2 u3 u4 u5 u6 u7, command = [u0; u1; u2; u3; u4; u5; u6; u7] ∧
    u0 = 47 ∧ ascii_upper u1 = 67 ∧ ascii_upper u2 = 79 ∧ ascii_upper u3 = 78 ∧ ascii_upper u4 = 70 ∧
    ascii_upper u5 = 73 ∧ ascii_upper u6 = 82 ∧ ascii_upper u7 = 77.
Proof using Type.
  change (units "/CONFIRM") with [47; 67; 79; 78; 70; 73; 82; 77]. intros H.
  repeat match type of H with
    | Forall2 _ (_ :: _) _ => let u := fresh "u" in let E := fresh "E" in let l := fresh "l" in
        apply Forall2_cons_inv_l in H as (u & l & E & H & ->)
    | Forall2 _ [] _ => apply Forall2_nil_inv_l in H as -> end.
  do 8 eexists. split_and!; try done. unfold ascii_upper in E. destruct (_ && _) eqn:?; lia.
Qed.

Lemma command_letters command s :
  Forall2 (λ c u, ascii_upper u = c) (units "/CONFIRM") command →
  denote (command ++ s) (char "/") 0 1 ∧ denote (command ++ s) (literal_i "confirm") 1 8.
Proof using Type.
  intros (u0&u1&u2&u3&u4&u5&u6&u7&->&->&H1&H2&H3&H4&H5&H6&H7)%command_units. split.
  - exists 1%nat. split; [by exists 47|done].
  - do 7 (one_unit; [apply case_letter; [done|assumption]|]). done.
Qed.

Lemma run_of_class s cc k i :
  (∀ n, (n < k)%nat → ∃ c, s !! (i + n)%nat = Some c ∧ in_class cc c = true) → (0 < k)%nat →
  denote s (plus (Chars cc)) i (i + k)%nat.
Proof using Type. intros Hn Hk. exists k. split; [lia|]. split; [done|]. by apply iterate_class. Qed.
Lemma run_in_middle (p q r : jstring) cc :
  Forall (λ c, in_class cc c = true) q → q ≠ [] →
  denote (p ++ q ++ r) (plus (Chars cc)) (length p) (length p + length q)%nat.
Proof using Type.
  intros Hq Hne. apply run_of_class; [|destruct q; [done|simpl; lia]]. intros n Hn. rewrite lookup_middle by done.
  destruct (lookup_lt_is_Some_2 q n Hn) as [c Hc]. exists c. split; [done|]. by apply (Forall_lookup_1 _ _ _ _ Hq Hc).
Qed.

Lemma bot_name_denotes command name s :
  length command = 8%nat → bot_suffix name →
  denote (command ++ name ++ s) bot_name 8 (8 + length name)%nat.
Proof using Type.
  intros Hlen [->|(bot & -> & Hbot & Hall)]; [exists 0%nat; split_and!; [lia|simpl; lia|simpl; lia]|].
  exists 1%nat. split_and!; [lia|simpl; lia|]. exists (9 + length bot)%nat. split; [|simpl; lia].
  exists 9%nat. split; [exists 9%nat; split; [exists 64; split_and!; [|done..]|done]|].
  { rewrite lookup_app_r by lia. by rewrite Hlen. }
  exists (9 + length bot)%nat. split; [|done].
  replace (command ++ (64 :: bot) ++ s) with ((command ++ [64]) ++ bot ++ s) by by rewrite <- app_assoc.
  replace 9%nat with (length (command ++ [64])) by (rewrite length_app; simpl; lia). apply run_in_middle; [|done].
  eapply Forall_impl; [exact Hall|]. intros c. unfold in_class, word_class, one_of, letter, lower, upper, digits, point, unit_range.
  change (units "_") with [95]. simpl. lia.
Qed.

Lemma command_prefix command name white t :
  Forall2 (λ c u, ascii_upper u = c) (units "/CONFIRM") command → bot_suffix name → white ≠ [] →
  Forall (λ c, is_white c = true) white →
  denote (command ++ name ++ white ++ t) confirm_prefix 0 (length (command ++ name ++ white)).
Proof using Type.
  intros Hcom Hname Hne Hw. assert (Hlen : length command = 8%nat) by (apply Forall2_length in Hcom; by rewrite <- Hcom).
  destruct (command_letters command (name ++ white ++ t) Hcom) as [Hslash Hword].
  exists 0%nat. split; [by split|]. exists 1%nat. split; [done|]. exists 8%nat. split; [done|].
  exists (8 + length name)%nat. split; [by apply bot_name_denotes|].
  exists (8 + length name + length white)%nat. split; [|rewrite !length_app; simpl; lia].
  rewrite (app_assoc command). replace (8 + length name)%nat with (length (command ++ name)) by (rewrite length_app; lia).
  by apply run_in_middle.
Qed.

(** No confirmation is taken for a launch. *)
Lemma command_is_no_launch command s :
  Forall2 (λ c u, ascii_upper u = c) (units "/CONFIRM") command → test (command ++ s) LAUNCH_COMMAND = false.
Proof using Type.
  intros (u0&u1&u2&u3&u4&u5&u6&u7&->&->&H1&H2&_)%command_units. apply not_true_iff_false.
  intros (i & j & _ & m1 & [-> <-] & m2 & (m3 & (c & _ & _ & ->) & <-) & m4 & Hw & _)%test_spec; [|done].
  unfold ascii_upper in *. destruct Hw as [Hw|Hw].
  - destruct Hw as (n & (c1 & [= <-] & In1 & ->) & _). change (in_class (one_of [(115, 115); (83, 83)]) u1 = true) in In1.
    unfold in_class in In1. simpl in In1.
    destruct ((97 <=? u1) && (u1 <=? 122)) eqn:E; lia.
  - destruct Hw as (n & (c1 & _ & _ & ->) & n2 & (c2 & [= <-] & In2 & ->) & _). change (in_class (one_of [(97, 97); (65, 65)]) u2 = true) in In2.
    unfold in_class in In2. simpl in In2.
    destruct ((97 <=? u2) && (u2 <=? 122)) eqn:E; lia.
Qed.

(** The argument of the command, trimmed, is the code as it was typed. *)
Lemma command_argument command name white t :
  Forall2 (λ c u, ascii_upper u = c) (units "/CONFIRM") command → bot_suffix name → white ≠ [] →
  Forall (λ c, is_white c = true) white → Forall (λ t, t ∈ keys) t → t ≠ [] →
  ∃ argument, confirm_argument (command ++ name ++ white ++ t) = Some argument ∧ js_trim argument = t.
Proof using Type.
  intros Hcom Hname Hne Hw Ht Htne. set (s := command ++ name ++ white ++ t).
  assert (Hhead : Forall (λ c, is_white c = false) (command ++ name)).
  { apply Forall_app. split.
    - apply command_units in Hcom as (u0&u1&u2&u3&u4&u5&u6&u7&->&->&H1&H2&H3&H4&H5&H6&H7).
      assert (Hup : ∀ u, 67 ≤ ascii_upper u ≤ 82 → is_white u = false).
      { intros u. unfold ascii_upper, is_white, in_class, white_space, one_of. simpl.
        destruct ((97 <=? u) && (u <=? 122)) eqn:E; lia. }
      constructor; [done|]. repeat (constructor; [apply Hup; lia|]). constructor.
    - destruct Hname as [->|(bot & -> & _ & Hall)]; [constructor|]. constructor; [done|].
      eapply Forall_impl; [exact Hall|]. intros c. unfold is_white, in_class, white_space, word_class, one_of. simpl. lia. }
  assert (Hmine : length (command ++ name ++ white) ∈
    filter (λ j, ends s confirm_rest j ≠ []) (ends s confirm_prefix 0)).
  { apply list_elem_of_filter. split; [|apply ends_spec; [done|lia|by apply command_prefix]].
    assert (Hrest : denote s confirm_rest (length (command ++ name ++ white)) (length s)).
    { exists (length s). split; [|exists (length s); by split].
      replace (length s) with (length (command ++ name ++ white) + length t)%nat
        by (unfold s; rewrite !length_app; lia).
      replace s with ((command ++ name ++ white) ++ t ++ []) by (unfold s; by rewrite app_nil_r, <- !app_assoc).
      apply run_in_middle; [|done]. eapply Forall_impl; [exact Ht|].
      assert (Hall : forallb (in_class (none_of [(10, 10); (13, 13); (8232, 8233)])) keys = true) by (vm_compute; reflexivity).
      rewrite forallb_forall in Hall. intros c Hc%list_elem_of_In. by apply Hall. }
    apply ends_spec in Hrest; [|done|unfold s; rewrite !length_app; lia]. intros He. rewrite He in Hrest. by apply elem_of_nil in Hrest. }
  unfold confirm_argument. destruct (filter _ _) as [|j l] eqn:Hf; [by apply elem_of_nil in Hmine|].
  assert (Hj : j ∈ filter (λ j, ends s confirm_rest j ≠ []) (ends s confirm_prefix 0)) by (rewrite Hf; left).
  apply list_elem_of_filter in Hj as [_ Hj%ends_spec]; [|done|lia].
  apply prefix_ends_in_white in Hj as (i & c & -> & Hi & Hc). eexists. split; [done|].
  replace s with ((command ++ name) ++ white ++ t) in * by (unfold s; by rewrite <- app_assoc).
  destruct (drop_after_white _ _ _ _ _ Hhead (keys_not_white _ Ht) Hi Hc) as [k ->].
  apply trim_white; [by apply Forall_drop|by apply keys_not_white].
Qed.

(** However a person sends a code the API made, the bot reads that code, and
    does not take it for a launch. *)
Lemma typed_message_is_read code text :
  confirmation_code code = true → typed_message code text →
  parseConfirmationCode toUpperCase text = Some code ∧ test (js_trim text) LAUNCH_COMMAND = false.
Proof using upper_of_ascii.
  intros Hc [Ht|command name white t Htext Hcom Hname Hne Hw Ht]; [by apply bare_code_is_read|].
  destruct (typed_code _ _ Hc Ht) as [Hk _]. rewrite Htext. split; [|by apply command_is_no_launch].
  destruct (command_argument command name white t) as (argument & Harg & Htrim); try done.
  { intros ->. apply Forall2_nil_inv_r in Ht. apply code_units, code_test in Hc as [Hl _]. by rewrite Ht in Hl. }
  unfold parseConfirmationCode. rewrite Htext, Harg. by eapply candidate_is_code.
Qed.
End messages.

(** ** Cookies *)

(** What a browser keeps of a [Set-Cookie] header and sends back. *)
Definition cookie_pair (setCookie : string) : string :=
  default EmptyString (head (split_char ";" setCookie)).
Definition no_semicolon : string → bool := string_forall (λ a, negb (Ascii.eqb a ";")).

Lemma split_char_app s t :
  no_semicolon s = true → split_char ";" (s +:+ String ";" t) = s :: split_char ";" t.
Proof.
  induction s as [|a s IH]; [done|]. intros [Ha Hs]%andb_prop. specialize (IH Hs).
  change (String a s +:+ String ";" t) with (String a (s +:+ String ";" t)). cbn [split_char].
  apply negb_true_iff in Ha. by rewrite Ha, IH.
Qed.
Lemma split_char_none s : no_semicolon s = true → split_char ";" s = [s].
Proof.
  induction s as [|a s IH]; [done|]. intros [Ha Hs]%andb_prop. cbn [split_char].
  apply negb_true_iff in Ha. by rewrite Ha, IH.
Qed.

(** Text without white space is trimmed to itself. *)
Definition visible : ascii → bool := byte_in 33 126.
Lemma visible_trimStart a s : visible a = true → trimStart (String a s) = String a s.
Proof.
  intros Ha. pose proof (for_ascii_impl visible (λ a, negb ((9 <=? byte_of a) && (byte_of a <=? 13) || (byte_of a =? 32))
    && negb (byte_of a =? 194) && negb (byte_of a =? 225) && negb (byte_of a =? 226) && negb (byte_of a =? 227)
    && negb (byte_of a =? 239))%nat ltac:(vm_compute; reflexivity) a Ha) as Hn.
  rewrite !andb_true_iff, !negb_true_iff in Hn. destruct Hn as (((((H1 & H2) & H3) & H4) & H5) & H6).
  cbn [trimStart]. rewrite H1. destruct s as [|b [|c s]]; [done| |]; rewrite H2; [done|]. cbn [andb].
  by rewrite H3, H4, H5, H6.
Qed.
Lemma visible_trim s : string_forall visible s = true → trim s = s.
Proof.
  intros Hs. unfold trim. assert (trimStart s = s) as ->.
  { destruct s as [|a s]; [done|]. apply andb_prop in Hs as [Ha _]. by apply visible_trimStart. }
  induction s as [|a s IH]; [done|]. apply andb_prop in Hs as [Ha Hs]. cbn [trimEnd].
  rewrite visible_trimStart, bool_decide_eq_false_2 by done. by rewrite IH.
Qed.

(** A browser's cookie header: the pairs it keeps, separated by a semicolon and a
    space. *)
Lemma split_header item items :
  Forall (λ i, no_semicolon i = true) (item :: items) →
  trim <$> split_char ";" (join "; " (item :: items)) = trim <$> (item :: items).
Proof.
  intros Hall. revert item Hall. induction items as [|i items IH]; intros item [Hi Hall]%Forall_cons.
  { simpl. by rewrite split_char_none. }
  change (join "; " (item :: i :: items)) with (item +:+ String ";" (String " " (join "; " (i :: items)))).
  rewrite split_char_app by done. cbn [fmap list_fmap]. f_equal. specialize (IH i Hall).
  revert IH. generalize (join "; " (i :: items)). intros t IH. cbn [split_char].
  change (Ascii.eqb " " ";") with false. cbn iota.
  destruct (split_char ";" t) as [|u us]; [done|]. exact IH.
Qed.

Lemma cookie_item_skip name before item after :
  Forall (λ i, (cut_equals (trim i)).1 ≠ name) before →
  cookie_item name (before ++ item :: after) = cookie_item name (item :: after).
Proof.
  induction 1 as [|i before Hi _ IH]; [done|]. cbn [app]. simpl. destruct (cut_equals (trim i)) as [k v].
  by rewrite bool_decide_eq_false_2.
Qed.
Lemma cookie_item_trim name items items' :
  trim <$> items = trim <$> items' → cookie_item name items = cookie_item name items'.
Proof.
  revert items'. induction items as [|i items IH]; intros [|i' items']; [done..|]. intros [= E Es].
  simpl. rewrite E. destruct (cut_equals (trim i')). case_bool_decide; [done|by apply IH].
Qed.

(** The cookie the login sets is the cookie the services read, among others of
    other names. *)
Lemma session_cookie_roundtrip production secret ttl before after :
  base64url_text secret = true →
  Forall (λ i, no_semicolon i = true ∧ (cut_equals (trim i)).1 ≠ sessionCookieName) before →
  Forall (λ i, no_semicolon i = true) after →
  readCookie (Some (join "; " (before ++ cookie_pair (serializeCookie production sessionCookieName secret ttl) :: after)))
    sessionCookieName = secret.
Proof.
  intros Hs Hb Ha.
  assert (Hvis : string_forall visible secret = true ∧ no_semicolon secret = true).
  { unfold base64url_text in Hs. split; (eapply string_forall_impl; [|exact Hs]); apply for_ascii_impl; vm_compute; reflexivity. }
  destruct Hvis as [Hvis Hsemi].
  assert (Hpair : cookie_pair (serializeCookie production sessionCookieName secret ttl) =
                  sessionCookieName +:+ "=" +:+ secret).
  { unfold cookie_pair, serializeCookie.
    change (join "; " (app (?x :: ?y :: ?l) ?l')) with (x +:+ String ";" (String " " (join "; " (app (y :: l) l')))).
    rewrite split_char_app; [done|]. unfold no_semicolon in *. by rewrite !string_forall_app, Hsemi. }
  rewrite Hpair. unfold readCookie.
  set (pair := sessionCookieName +:+ "=" +:+ secret).
  assert (Hp : string_forall visible pair = true).
  { unfold pair. by rewrite !string_forall_app, Hvis. }
  assert (Hps : no_semicolon pair = true).
  { unfold pair, no_semicolon in *. by rewrite !string_forall_app, Hsemi. }
  rewrite (cookie_item_trim _ _ (before ++ pair :: after)).
  - rewrite cookie_item_skip by (eapply Forall_impl; [exact Hb|by intros ? []]).
    cbn [cookie_item]. rewrite visible_trim by done. reflexivity.
  - assert (Hall : Forall (λ i, no_semicolon i = true) (before ++ pair :: after)).
    { apply Forall_app. split; [eapply Forall_impl; [exact Hb|by intros ? []]|by constructor]. }
    destruct before as [|i before]; by apply split_header.
Qed.

(** ** The answers of the bot *)

Section system.
Context (uuid : nat → string) (hmac_sha256 : string → string → list Z) (hmac_key : list Z → string → list Z).
Context (sha256 : json → string) (is_uuid is_datetime : string → bool) (plus_days : Z → Z → Z).
Context (JSON_parse : string → option json) (Number_toString : Q → string) (safe_integer : string → option Z).
Context (newURL : string → string → string) `{LocaleCompare} `{DateStrings} `{Aes256Gcm}.
Context (environment : ApiEnvironment) (agentPepper : option string) (credentialPepper : string).
Context (syncLease syncDelay syncMax outboxLease outboxDelay outboxMax : Z).
Context (eventIds : option (list string)).
Context (AUTH_SESSION_PEPPER TELEGRAM_WEB_APP_VALIDATION_KEY : option string).
Context (TELEGRAM_INIT_DATA_MAX_AGE_SECONDS AUTH_SESSION_TTL_SECONDS AUTH_PRELAUNCH_RATE_LIMIT_MAX : Z).
Context (SUBSCRIPTION_TOKEN_PEPPER SUBSCRIPTION_FEED_BASE_URL : option string).
Context (sha256_bytes : string → list Z) (encodedKek : string).

Notation account_run := (account_run uuid hmac_sha256 hmac_key sha256 is_uuid is_datetime plus_days JSON_parse
  Number_toString safe_integer newURL environment agentPepper credentialPepper
  syncLease syncDelay syncMax outboxLease outboxDelay outboxMax eventIds
  AUTH_SESSION_PEPPER TELEGRAM_WEB_APP_VALIDATION_KEY TELEGRAM_INIT_DATA_MAX_AGE_SECONDS
  AUTH_SESSION_TTL_SECONDS AUTH_PRELAUNCH_RATE_LIMIT_MAX SUBSCRIPTION_TOKEN_PEPPER SUBSCRIPTION_FEED_BASE_URL).
Notation account_reachable := (account_reachable uuid hmac_sha256 hmac_key sha256 is_uuid is_datetime plus_days
  JSON_parse Number_toString safe_integer newURL environment agentPepper credentialPepper
  syncLease syncDelay syncMax outboxLease outboxDelay outboxMax eventIds
  AUTH_SESSION_PEPPER TELEGRAM_WEB_APP_VALIDATION_KEY TELEGRAM_INIT_DATA_MAX_AGE_SECONDS
  AUTH_SESSION_TTL_SECONDS AUTH_PRELAUNCH_RATE_LIMIT_MAX SUBSCRIPTION_TOKEN_PEPPER SUBSCRIPTION_FEED_BASE_URL).
Notation issueChallenge := (issueChallenge uuid hmac_sha256 is_datetime AUTH_SESSION_PEPPER AUTH_PRELAUNCH_RATE_LIMIT_MAX).
Notation confirm := (confirm hmac_sha256 AUTH_SESSION_PEPPER AUTH_PRELAUNCH_RATE_LIMIT_MAX).
Notation route_challenge := (route_challenge uuid hmac_key hmac_sha256 sha256_bytes is_uuid is_datetime
  (Some encodedKek) AUTH_SESSION_PEPPER AUTH_PRELAUNCH_RATE_LIMIT_MAX).
Notation route_confirm := (route_confirm hmac_key hmac_sha256 sha256_bytes is_uuid
  (Some encodedKek) AUTH_SESSION_PEPPER AUTH_PRELAUNCH_RATE_LIMIT_MAX).

(** What the service did, as the bot tells it. *)
Definition launchId_of (body : json) : string :=
  default EmptyString (m ← zod_object body; field m "launchId" zod_string).
Definition launch_reply (set_startapp : string → string → string) (miniAppBaseUrl : string)
    (r : outcome AccountError json) : Reply :=
  match r with
  | Ok body => ReplyOpenCabinet (set_startapp miniAppBaseUrl (launchId_of body))
  | Throw (BadRequestException _ | UnauthorizedException _ | ConflictException _) => ReplyCabinetUnavailable
  | Throw _ => ReplyServiceUnavailable
  end.
Definition confirmation_reply (r : outcome AccountError json) : Reply :=
  ReplyConfirmation match r with
                    | Ok _ => Confirmed
                    | Throw (BadRequestException _ | UnauthorizedException _ | NotFoundException _) => ConfirmationRejected
                    | Throw _ => ConfirmationUnavailable
                    end.

(** The service's body is the one its schema lets through, which the bot reads. *)
Lemma issued_schema j body :
  issuedTelegramAuthChallengeSchema is_datetime j = Some body →
  issuedTelegramAuthChallengeSchema is_datetime body = Some body ∧
  ∃ m e, zod_object body = Some m ∧ field m "launchId" zod_string = Some (launchId_of body) ∧
    field m "expiresAt" zod_string = Some e.
Proof using Type.
  intros Hs. pose proof Hs as Hs'. unfold issuedTelegramAuthChallengeSchema in Hs. option_invert Hs.
  injection Hs as <-. split; [done|]. unfold launchId_of. rewrite E. cbn [mbind option_bind]. rewrite E0.
  exists x, x1. split_and!; [done|done|]. unfold field, zod_datetime in *.
  option_invert E1. rewrite E2. simpl. congruence.
Qed.
Lemma issued_body request attempts launchId challengeSecret now s body s' :
  issueChallenge request attempts launchId challengeSecret now s = (Ok body, s') →
  ∃ j, issuedTelegramAuthChallengeSchema is_datetime j = Some body.
Proof using Type.
  unfold Login.issueChallenge. destruct (truthy _); [|done]. intros Hr. ok_inv Hr.
  destruct (issuedTelegramAuthChallengeSchema is_datetime _) as [b|] eqn:Hs; ok_inv Hr. subst. eauto.
Qed.
Lemma confirmed_body request attempts code now s body s' :
  confirm request attempts code now s = (Ok body, s') → confirmedTelegramLoginSchema body = Some body.
Proof using Type.
  unfold Login.confirm. destruct (truthy _); [|done]. intros Hr. ok_inv Hr.
  destruct (confirmedTelegramLoginSchema _) as [b|] eqn:Hs; ok_inv Hr. subst.
  pose proof Hs as Hs'. unfold confirmedTelegramLoginSchema in Hs. option_invert Hs. congruence.
Qed.

Section ready.
(** [JSON.parse] of the bot and of the API's body parser. *)
Context (parse : string → option json).
Context (hmac_is_bytes : ∀ key text, Forall is_byte (hmac_key key text)).
Context (hmac_length : ∀ key text, length (hmac_key key text) = 32%nat).
(** A credential the lifecycle gave out, not revoked. *)
Context (s s1 s2 : Accounts) (l : list action) (change : BotCredentialChangeInput) (signingKey nonce : list Z).
Context (m : BotCredentialMaterial) (c : BotServiceCredential).
Context (Hs : account_reachable s) (Hkey : Forall is_byte signingKey) (Hnonce : Forall is_byte nonce).
Context (Hgiven : provisionBotCredential uuid encodedKek change signingKey nonce s = (Ok m, s1) ∨
                  rotateBotCredential uuid encodedKek change signingKey nonce s = (Ok m, s1)).
Context (Hrun : account_run l s1 s2) (Hc : ac_botCredentials s2 !! ma_credentialId m = Some c).
Context (Hact : bc_revokedAt c = None).
(** It is in the bot's file, which the bot may read; [JSON.parse] reads back what
    [JSON.stringify] wrote there. *)
Context (content : string) (process : Process) (file : FileAt) (group : option Z).
Context (Hplain : plain_text (ma_credentialId m) = true).
Context (Hjson : parse (JSON_stringify (credential_members (credential_file m))) =
                 Some (object_json (credential_members (credential_file m)))).
Context (Hcontent : serializeBotCredentialFile is_uuid (credential_file m) = Some content).
Context (Hread : read_protected "Bot credential" process file group = Ok content).
(** A message of a user; the clocks agree, and the nonce is fresh. *)
Context (message : Message) (now databaseNow redisNow : Z) (nonceText : string) (r r' : gmap string Z).
Context (Huser : botTelegramUserIdSchema (me_telegramUserId message) = true).
Context (Hupdate : 0 ≤ me_updateId message < 10 ^ 30) (HnonceText : botRequestNonceSchema nonceText = true).
Context (Hnow : 0 ≤ now < 10 ^ 14) (Hclock : Z.abs (databaseNow - now) ≤ 29000).
Context (Hres : reserveOnce (nonce_key (ma_principalId m) nonceText) NONCE_TTL_MS redisNow r = (true, r')).

Lemma key_stands :
  ma_signingKey m = signingKey ∧ length signingKey = keyByteLength ∧ bc_principalId c = ma_principalId m ∧
  decryptBotSigningKey {| bk_keyCiphertext := bc_keyCiphertext c; bk_nonce := bc_nonce c |} encodedKek
    {| bk_credentialId := ma_credentialId m; bk_principalId := bc_principalId c;
       bk_keyVersion := bc_keyVersion c |} = Some signingKey.
Proof using Hs Hkey Hnonce Hgiven Hrun Hc Hact.
  eapply issued_key_stands; [exact Hs|exact Hkey|exact Hnonce|exact Hgiven|exact Hrun|exact Hc|exact Hact].
Qed.

Lemma ready_signer : createBotRequestSignerFromFile is_uuid parse process file group = Ok (signer_of m).
Proof using Hs Hkey Hnonce Hgiven Hrun Hc Hact Hplain Hjson Hcontent Hread.
  destruct key_stands as (E & Hlen & _).
  eapply installed_signer; [by rewrite E|by rewrite E|exact Hplain|exact Hjson|exact Hcontent|exact Hread].
Qed.

Definition request_for (path key : string) (members : list (string * scalar)) : BotSignInput :=
  {| si_method := "POST"; si_path := path; si_telegramUserId := me_telegramUserId message;
     si_idempotencyKey := key; si_body := JSON_stringify members |}.

(** The request the guard lets in. *)
Definition request_of (path key : string) (members : list (string * scalar)) : AuthenticatedBotRequest :=
  {| br_credentialId := ma_credentialId m; br_idempotencyKey := key; br_method := "POST"; br_path := path;
     br_principalId := ma_principalId m;
     br_requestHash := createBotRequestHash sha256_bytes
       (input_of (signer_of m) (request_for path key members) now nonceText EmptyString);
     br_telegramUserId := me_telegramUserId message |}.

Lemma ready_request path key members :
  botRequestPathSchema path = true → botRequestIdempotencyKeySchema key = true →
  parse (JSON_stringify members) = Some (object_json members) →
  botTelegramIdentitySchema (object_json members) = Some (me_telegramUserId message) →
  ∃ signed, sign hmac_key sha256_bytes (signer_of m) (request_for path key members) now nonceText = Ok signed ∧
    rq_body (received parse path signed) = Some (object_json members) ∧
    canActivate hmac_key sha256_bytes is_uuid (Some encodedKek) (received parse path signed) s2
      databaseNow redisNow (Some r) = (Ok (request_of path key members), Some r').
Proof using Type*.
  intros Hp Hk Hj Hi. destruct key_stands as (E & Hlen & Ep & Hopen).
  assert (Hid : is_uuid (ma_credentialId m) = true).
  { unfold serializeBotCredentialFile in Hcontent. by option_invert Hcontent. }
  destruct (signed_request_is_let_in hmac_key sha256_bytes is_uuid parse encodedKek hmac_is_bytes hmac_length
    (signer_of m) (request_for path key members) now nonceText members s2 c databaseNow redisNow r r')
    as (signed & Hsig & Hb & Hcan); try done.
  - by rewrite <- E in Hopen.
  - by rewrite Ep.
  - exists signed. split; [exact Hsig|]. split; [exact Hb|]. unfold request_of. rewrite <- Ep. exact Hcan.
Qed.
(** What the bot makes of the status and body of an answer of the API. *)
Lemma launch_response error_body request attempts launchId challengeSecret serviceNow set_startapp miniAppBaseUrl :
  match launch_result is_datetime (Some (response error_body
          (answered 201 (issueChallenge request attempts launchId challengeSecret serviceNow) s2).1)) with
  | LaunchIssued launchId' _ => ReplyOpenCabinet (set_startapp miniAppBaseUrl launchId')
  | LaunchRejected => ReplyCabinetUnavailable
  | LaunchUnavailable => ReplyServiceUnavailable
  end = launch_reply set_startapp miniAppBaseUrl
          (issueChallenge request attempts launchId challengeSecret serviceNow s2).1.
Proof using Type.
  unfold answered, of_service, mbind, M_bind.
  destruct (issueChallenge request attempts launchId challengeSecret serviceNow s2) as [[body|e] s'] eqn:Hr; simpl.
  - apply issued_body in Hr as [j Hj]. apply issued_schema in Hj as (Hb & ms & e & Hm & Hl & He).
    unfold launch_result. simpl. rewrite Hb, Hm. simpl. by rewrite Hl, He.
  - unfold launch_result. by destruct e.
Qed.
Lemma confirm_response error_body request attempts code serviceNow :
  ReplyConfirmation (confirm_result (Some (response error_body
    (answered 200 (confirm request attempts code serviceNow) s2).1))) =
  confirmation_reply (confirm request attempts code serviceNow s2).1.
Proof using Type.
  unfold answered, of_service, mbind, M_bind.
  destruct (confirm request attempts code serviceNow s2) as [[body|e] s'] eqn:Hr; simpl.
  - apply confirmed_body in Hr. unfold confirm_result. simpl. by rewrite Hr.
  - unfold confirm_result. by destruct e.
Qed.

(** C30: a launch command is answered as the service decides it: with a credential
    the lifecycle gave out and that is not revoked, installed in the bot's file,
    the signer the bot makes of the file signs a request that passes the API's
    guard as [request_of] says, and the reply opens the cabinet with
    the launch the service issued, or says that it was refused or is not
    available exactly when the service said so. *)
Theorem launch_message_is_answered attempts launchId challengeSecret serviceNow error_body toUpperCase
    set_startapp miniAppBaseUrl confirmations :
  parse (JSON_stringify [("telegramUserId"%string, ScalarText (me_telegramUserId message))]) =
    Some (object_json [("telegramUserId"%string, ScalarText (me_telegramUserId message))]) →
  test (js_trim (me_text message)) LAUNCH_COMMAND = true →
  let request := request_of CHALLENGE_PATH ("telegram-challenge-" +:+ pretty (me_updateId message))
    [("telegramUserId"%string, ScalarText (me_telegramUserId message))] in
  ∃ signer, createBotRequestSignerFromFile is_uuid parse process file group = Ok signer ∧
    on_text toUpperCase set_startapp message
      (λ telegramUserId updateId, BotClient.issue is_datetime hmac_key sha256_bytes signer telegramUserId updateId now
         nonceText (λ signed, Some (response error_body (route_challenge (received parse CHALLENGE_PATH signed)
           databaseNow redisNow (Some r) attempts launchId challengeSecret serviceNow s2).1.1)))
      miniAppBaseUrl confirmations =
    Ok (Some (launch_reply set_startapp miniAppBaseUrl
                (issueChallenge request attempts launchId challengeSecret serviceNow s2).1)).
Proof using Type*.
  intros Hj Htest request. exists (signer_of m).
  destruct (ready_request CHALLENGE_PATH ("telegram-challenge-" +:+ pretty (me_updateId message))
    [("telegramUserId"%string, ScalarText (me_telegramUserId message))])
    as (signed & Hsig & Hb & Hcan); [done|by apply update_key; [simpl; lia|..]|exact Hj| |].
  { unfold botTelegramIdentitySchema, text_field, field, object_json. simpl. by apply header_read. }
  split; [exact ready_signer|].
  unfold on_text, handleLoginLaunchMessage. rewrite Htest. cbn [negb].
  unfold BotClient.issue, launch_request, signed_post, challenge_body. rewrite Huser.
  unfold request_for in Hsig. rewrite Hsig.
  unfold HttpApi.route_challenge, behind_bot. rewrite Hcan. unfold POST_auth_telegram_challenge. rewrite Hb.
  replace (Some (object_json _) ≫= issueTelegramAuthChallengeRequestSchema) with (Some (me_telegramUserId message))
    by (symmetry; apply (header_read _ _ Huser)).
  rewrite bool_decide_eq_true_2 by done. cbn [negb fst].
  rewrite <- (launch_response error_body request attempts launchId challengeSecret serviceNow).
  by destruct (launch_result _ _).
Qed.

(** C31: a confirmation is answered as the service decides it: a code the API
    made, typed by the user in either case and with the usual confusions, alone
    or after the confirmation command with or without the bot's name, reaches
    the service as the request of that user for that code, and the reply says
    what the service said. *)
Theorem confirmation_is_answered code attempts serviceNow error_body toUpperCase set_startapp launches miniAppBaseUrl :
  (∀ s, Forall (λ c, 0 ≤ c < 128) s → toUpperCase s = ascii_upper <$> s) →
  parse (JSON_stringify [("telegramUserId", ScalarText (me_telegramUserId message));
                              ("confirmationCode", ScalarText code)]%string) =
    Some (object_json [("telegramUserId", ScalarText (me_telegramUserId message));
                       ("confirmationCode", ScalarText code)]%string) →
  confirmation_code code = true → typed_message code (me_text message) →
  let request := request_of CONFIRM_PATH ("telegram-update-" +:+ pretty (me_updateId message))
    [("telegramUserId", ScalarText (me_telegramUserId message)); ("confirmationCode", ScalarText code)]%string in
  ∃ signer, createBotRequestSignerFromFile is_uuid parse process file group = Ok signer ∧
    on_text toUpperCase set_startapp message launches miniAppBaseUrl
      (λ telegramUserId code updateId, BotClient.confirm_login hmac_key sha256_bytes signer telegramUserId code updateId now
         nonceText (λ signed, Some (response error_body (route_confirm (received parse CONFIRM_PATH signed)
           databaseNow redisNow (Some r) attempts serviceNow s2).1.1))) =
    Ok (Some (confirmation_reply (confirm request attempts code serviceNow s2).1)).
Proof using Type*.
  intros Hup Hj Hcode Htyped request. exists (signer_of m).
  destruct (typed_message_is_read toUpperCase Hup code (me_text message) Hcode Htyped) as [Hparse Htest].
  destruct (ready_request CONFIRM_PATH ("telegram-update-" +:+ pretty (me_updateId message))
    [("telegramUserId", ScalarText (me_telegramUserId message)); ("confirmationCode", ScalarText code)]%string)
    as (signed & Hsig & Hb & Hcan); [done|by apply update_key; [simpl; lia|..]|exact Hj| |].
  { unfold botTelegramIdentitySchema, text_field, field, object_json. simpl. by apply header_read. }
  split; [exact ready_signer|].
  unfold on_text, handleLoginLaunchMessage. rewrite Htest. cbn [negb].
  unfold handleConfirmationMessage. rewrite Hparse.
  unfold BotClient.confirm_login, confirm_request, signed_post, confirm_body. rewrite Huser, Hcode. cbn [andb].
  unfold request_for in Hsig. rewrite Hsig.
  unfold HttpApi.route_confirm, behind_bot. rewrite Hcan. unfold POST_auth_telegram_confirm. rewrite Hb.
  replace (Some (object_json _) ≫= confirmTelegramLoginRequestSchema) with (Some (me_telegramUserId message, code)).
  - rewrite bool_decide_eq_true_2 by done. cbn [negb fst]. by rewrite confirm_response.
  - transitivity (u ← zod_text botTelegramUserIdSchema (JStr (me_telegramUserId message));
                  code ← zod_text confirmation_code (JStr code); Some (u, code)); [|reflexivity].
    by rewrite !header_read.
Qed.
End ready.

Notation route_complete := (route_complete uuid hmac_sha256 is_uuid is_datetime AUTH_SESSION_PEPPER
  AUTH_SESSION_TTL_SECONDS AUTH_PRELAUNCH_RATE_LIMIT_MAX).

Lemma completed_reply origin production request attempts sessionSecret now s answer s1 :
  route_complete origin production request attempts sessionSecret now s = (Ok answer, s1) →
  ∃ secret, complete uuid hmac_sha256 is_uuid is_datetime AUTH_SESSION_PEPPER AUTH_SESSION_TTL_SECONDS
      (find_cookie (header_text request "cookie") pendingCookieName) sessionSecret now s =
      (Ok (rp_body answer, secret), s1) ∧
    rp_headers answer = [no_store; set_cookie production sessionCookieName secret AUTH_SESSION_TTL_SECONDS;
                         set_cookie production pendingCookieName EmptyString 0].
Proof using Type.
  unfold HttpApi.route_complete, behind_origin. destruct (trusted_origin _ _); [|done].
  unfold completeTelegramLogin, of_service, auth_allowed, assert_allowed, mbind, M_bind.
  intros Hr. destruct attempts as [n|]; [|discriminate Hr]. unfold throw_if in Hr.
  destruct (_ <? _); [discriminate Hr|]. simpl in Hr. revert Hr.
  destruct (complete _ _ _ _ _ _ _ _ _ _) as [[[session secret]|e] s'] eqn:Hr; [|done].
  intros [= <- <-]. by exists secret.
Qed.

(** C32: the cookie of a completed login opens the cabinet for the user who logged
    in: whatever other cookies a browser sends beside it, and after any run of
    the system, until the session expires or is revoked, the API answers the
    session the login gave and the overview of its user. *)
Theorem session_cookie_opens_the_cabinet origin production s request attempts sessionSecret now answer s1 l s2
    setCookie before after request' t databaseNow :
  account_reachable s → secret_text sessionSecret = true →
  route_complete origin production request attempts sessionSecret now s = (Ok answer, s1) → account_run l s1 s2 →
  rp_headers answer !! 1%nat = Some ("Set-Cookie"%string, setCookie) →
  Forall (λ i, no_semicolon i = true ∧ (cut_equals (trim i)).1 ≠ sessionCookieName) before →
  Forall (λ i, no_semicolon i = true) after →
  header_text request' "cookie" = Some (join "; " (before ++ cookie_pair setCookie :: after)) →
  t < now + AUTH_SESSION_TTL_SECONDS * 1000 →
  (∀ pepper id x, truthy AUTH_SESSION_PEPPER = Some pepper → ac_sessions s2 !! id = Some x →
     ss_tokenHash x = hashSessionSecret hmac_sha256 sessionSecret pepper → ss_revokedAt x = None) →
  HttpApi.current hmac_sha256 AUTH_SESSION_PEPPER request' t s2 = (Ok (reply 200 (rp_body answer)), s2) ∧
  GET_overview hmac_sha256 AUTH_SESSION_PEPPER request' t databaseNow s2 =
    (Ok (reply 200 (overview s2 (as_userId (rp_body answer)) databaseNow)), s2).
Proof.
  intros Hs Htext Hr Hrun Hset Hb Ha Hcookie Ht Hact. apply completed_reply in Hr as (secret & Hr & Hh).
  rewrite Hh in Hset. injection Hset as <-.
  assert (Hopen : secret = sessionSecret ∧
    currentSession hmac_sha256 AUTH_SESSION_PEPPER s2 sessionSecret t = Some (rp_body answer)).
  { eapply login_opens_session; [exact Hs|exact Htext|exact Hr|exact Hrun|exact Ht|exact Hact]. }
  destruct Hopen as [-> Hopen].
  assert (Hsession : session_of hmac_sha256 AUTH_SESSION_PEPPER request' t s2 = (Ok (rp_body answer), s2)).
  { unfold session_of, mbind, M_bind, get. rewrite Hcookie, session_cookie_roundtrip; [by rewrite Hopen| |done..].
    unfold secret_text in Htext. by apply andb_prop in Htext as [_ ?]. }
  unfold HttpApi.current, GET_overview, mbind, M_bind. rewrite Hsession. done.
Qed.
End system.

(** ** Concrete messages and cookies

    The theorems applied to the run of AccountExamples.v: the bot with its first
    key answers a launch command and a typed code, and the cookie of the login
    opens the cabinet. *)

#[local] Existing Instance AgentExamples.binaryDates.
#[local] Existing Instance codeUnitLocale.
#[local] Existing Instance clear_cipher.

(** [JSON.parse] of the texts of these runs. *)
Definition written : list (list (string * scalar)) :=
  [credential_members (credential_file bot_material);
   [("telegramUserId", ScalarText "7001")]; [("telegramUserId", ScalarText "7001"); ("confirmationCode", ScalarText shown_code)]]%string.
Definition parse_written (s : string) : option json :=
  object_json <$> List.find (λ members, bool_decide (JSON_stringify members = s)) written.
Definition uppercase (s : jstring) : jstring := ascii_upper <$> s.
Definition with_launch (base launchId : string) : string := base +:+ "?startapp=" +:+ launchId.
Definition no_body (e : HttpError) : option json := None.

Lemma mac_bytes key text : Forall is_byte (key_mac key text).
Proof. apply digest_are_bytes. Qed.
Lemma digest_length n z : length (digest_bytes n z) = n.
Proof. revert z. induction n as [|n IH]; intros z; simpl; [done|by rewrite IH]. Qed.
Lemma mac_length key text : length (key_mac key text) = 32%nat.
Proof. apply digest_length. Qed.

(** The installed file: root's, readable for the bot's group. *)
Definition bot_process : Process := {| pc_win32 := false; pc_uid := Some 1000; pc_groups := [1001] |}.
Definition bot_content : string := default EmptyString (serializeBotCredentialFile any (credential_file bot_material)).
Definition bot_file : FileAt :=
  {| fa_absolute := true; fa_content := Some bot_content;
     fa_stats := Some {| st_isFile := true; st_isSymbolicLink := false; st_uid := 0; st_gid := 1001; st_mode := 288 |} |}.
Definition fresh_nonce : string := "0123456789abcdef".
Definition reserved : gmap string Z := (reserveOnce (nonce_key "u3" fresh_nonce) NONCE_TTL_MS 9000 ∅).2.

(** ** A launch command *)

Definition start_message : Message :=
  {| me_text := units " /start@vpn_bot "; me_telegramUserId := "7001"; me_updateId := 77 |}.
Definition other_link : string := secret_of "M".
Definition start_request : AuthenticatedBotRequest :=
  request_of text_digest bot_material start_message 9000 fresh_nonce CHALLENGE_PATH "telegram-challenge-77"
    [("telegramUserId", ScalarText "7001")]%string.

Lemma start_is_issued : launch_reply with_launch "https://t.me/vpn"
    (issueChallenge numbered text_mac any (Some "sessions"%string) 5 start_request (Some 1) other_link (secret_of "D")
       9000 session_state).1 = ReplyOpenCabinet ("https://t.me/vpn?startapp=" +:+ other_link).
Proof. computed. Qed.

Lemma launch_message_is_answered_witness :
  ∃ signer, createBotRequestSignerFromFile any parse_written bot_process bot_file (Some 1001) = Ok signer ∧
    on_text uppercase with_launch start_message
      (λ telegramUserId updateId, BotClient.issue any key_mac text_digest signer telegramUserId updateId 9000
         fresh_nonce (λ signed, Some (response no_body (route_challenge numbered key_mac text_mac text_digest any any
           (Some kek) (Some "sessions"%string) 5 (received parse_written CHALLENGE_PATH signed)
           9000 9000 (Some ∅) (Some 1) other_link (secret_of "D") 9000 session_state).1.1)))
      "https://t.me/vpn" (λ _ _ _, Ok ConfirmationUnavailable) =
    Ok (Some (ReplyOpenCabinet ("https://t.me/vpn?startapp=" +:+ other_link))).
Proof.
  edestruct (launch_message_is_answered numbered text_mac key_mac AgentExamples.node_hash any any days_later
    user_json zero_text whole_number joined) with (s := base_state) (s1 := bot_state) (s2 := session_state)
    (encodedKek := kek) (parse := parse_written) (change := change) (signingKey := first_key) (nonce := first_nonce)
    (m := bot_material) (c := stored_key) (content := bot_content) (process := bot_process) (file := bot_file)
    (group := Some 1001) (message := start_message) (now := 9000) (databaseNow := 9000) (redisNow := 9000)
    (nonceText := fresh_nonce) (r := ∅ : gmap string Z) (r' := reserved) (sha256_bytes := text_digest)
    (attempts := Some 1) (launchId := other_link) (challengeSecret := secret_of "D") (serviceNow := 9000)
    (error_body := no_body) (toUpperCase := uppercase) (set_startapp := with_launch)
    (miniAppBaseUrl := "https://t.me/vpn"%string)
    (confirmations := λ (_ _ : string) (_ : Z), Ok (E:=BotError) ConfirmationUnavailable)
    as (signer & Hsigner & Hreply).
  - exact mac_bytes.
  - exact mac_length.
  - exact base_state_reachable.
  - apply Forall_replicate. by split.
  - apply Forall_replicate. by split.
  - left. exact bot_provisioned.
  - exact bot_run.
  - computed.
  - reflexivity.
  - reflexivity.
  - computed.
  - computed.
  - computed.
  - computed.
  - split; [done|reflexivity].
  - reflexivity.
  - split; [done|reflexivity].
  - done.
  - computed.
  - computed.
  - computed.
  - exists signer. split; [exact Hsigner|]. etrans; [exact Hreply|].
    exact (f_equal (λ x, Ok (Some x)) start_is_issued).
Defined.

(** ** A typed code *)

Definition command_message : Message :=
  {| me_text := units "  /Confirm@vpn_bot  aAaaaaaA "; me_telegramUserId := "7001"; me_updateId := 78 |}.
Definition typed_request : AuthenticatedBotRequest :=
  request_of text_digest bot_material command_message 5000 fresh_nonce CONFIRM_PATH "telegram-update-78"
    [("telegramUserId", ScalarText "7001"); ("confirmationCode", ScalarText shown_code)]%string.
Definition reserved_early : gmap string Z := (reserveOnce (nonce_key "u3" fresh_nonce) NONCE_TTL_MS 5000 ∅).2.

Lemma code_is_confirmed : confirmation_reply
    (confirm text_mac (Some "sessions"%string) 5 typed_request (Some 1) shown_code 5000 begun_state).1 =
  ReplyConfirmation Confirmed.
Proof. computed. Qed.

Lemma begun_run : Run [begin_login; ask_link; activate_trial; issue_device] bot_state begun_state.
Proof. repeat apply next_action. apply RunDone. Qed.

Lemma confirmation_is_answered_witness :
  ∃ signer, createBotRequestSignerFromFile any parse_written bot_process bot_file (Some 1001) = Ok signer ∧
    on_text uppercase with_launch command_message (λ _ _, Ok LaunchUnavailable) "https://t.me/vpn"
      (λ telegramUserId code updateId, BotClient.confirm_login key_mac text_digest signer telegramUserId code updateId 5000
         fresh_nonce (λ signed, Some (response no_body (route_confirm key_mac text_mac text_digest any
           (Some kek) (Some "sessions"%string) 5 (received parse_written CONFIRM_PATH signed)
           5000 5000 (Some ∅) (Some 1) 5000 begun_state).1.1))) =
    Ok (Some (ReplyConfirmation Confirmed)).
Proof.
  edestruct (confirmation_is_answered numbered text_mac key_mac AgentExamples.node_hash any any days_later
    user_json zero_text whole_number joined) with (s := base_state) (s1 := bot_state) (s2 := begun_state)
    (encodedKek := kek) (parse := parse_written) (change := change) (signingKey := first_key) (nonce := first_nonce)
    (m := bot_material) (c := stored_key) (content := bot_content) (process := bot_process) (file := bot_file)
    (group := Some 1001) (message := command_message) (now := 5000) (databaseNow := 5000) (redisNow := 5000)
    (nonceText := fresh_nonce) (r := ∅ : gmap string Z) (r' := reserved_early) (sha256_bytes := text_digest)
    (attempts := Some 1) (code := shown_code) (serviceNow := 5000)
    (error_body := no_body) (toUpperCase := uppercase) (set_startapp := with_launch)
    (miniAppBaseUrl := "https://t.me/vpn"%string)
    (launches := λ (_ : string) (_ : Z), Ok (E:=BotError) LaunchUnavailable)
    as (signer & Hsigner & Hreply).
  - exact mac_bytes.
  - exact mac_length.
  - exact base_state_reachable.
  - apply Forall_replicate. by split.
  - apply Forall_replicate. by split.
  - left. exact bot_provisioned.
  - exact begun_run.
  - computed.
  - reflexivity.
  - reflexivity.
  - computed.
  - computed.
  - computed.
  - computed.
  - split; [done|reflexivity].
  - reflexivity.
  - split; [done|reflexivity].
  - done.
  - computed.
  - intros s _. reflexivity.
  - computed.
  - computed.
  - apply (TypedCommand _ _ (units "/Confirm") (units "@vpn_bot") (units "  ") (units "aAaaaaaA")).
    + computed.
    + change (units "/CONFIRM") with [47; 67; 79; 78; 70; 73; 82; 77].
      change (units "/Confirm") with [47; 67; 111; 110; 102; 105; 114; 109]. by repeat constructor.
    + right. exists (units "vpn_bot"). split; [computed|]. split; [done|].
      apply Forall_forall. intros c. change (units "vpn_bot") with [118; 112; 110; 95; 98; 111; 116].
      intros Hc. by repeat (apply elem_of_cons in Hc as [->|Hc]; [reflexivity|]); apply elem_of_nil in Hc.
    + done.
    + by repeat constructor.
    + replace (units shown_code) with (units "AAAAAAAA") by (vm_compute; reflexivity).
      repeat constructor; try (by vm_compute).
  - exists signer. split; [exact Hsigner|]. etrans; [exact Hreply|].
    exact (f_equal (λ x, Ok (Some x)) code_is_confirmed).
Defined.

(** ** The cookie of the login *)

Definition from_page (cookie : string) : HttpRequest :=
  {| rq_method := "POST"; rq_url := None; rq_headers := list_to_map [("cookie", JStr cookie); ("origin", JStr "https://cabinet.example")]%string; rq_body := None;
     rq_rawBody := None |}.
Definition login_request : HttpRequest := from_page ("theme=dark; " +:+ pendingCookieName +:+ "=" +:+ page_secret).
Definition set_session : string := serializeCookie true sessionCookieName session_secret 86400.
Definition cabinet_request : HttpRequest := from_page (join "; " ["theme=dark"%string; cookie_pair set_session]).
Definition logged_in : HttpReply AuthenticatedSession :=
  {| rp_status := 200; rp_headers := [no_store; ("Set-Cookie"%string, set_session); set_cookie true pendingCookieName EmptyString 0];
     rp_body := {| as_userId := "u0"; as_expiresAt := 86406000 |} |}.

Lemma session_cookie_opens_the_cabinet_witness :
  HttpApi.current text_mac (Some "sessions"%string) cabinet_request 7000 session_state =
    (Ok (reply 200 {| as_userId := "u0"; as_expiresAt := 86406000 |}), session_state).
Proof.
  edestruct (session_cookie_opens_the_cabinet numbered text_mac key_mac AgentExamples.node_hash any any days_later
    user_json zero_text whole_number joined) with (s := confirmed_state) (s1 := session_state) (s2 := session_state)
    (now := 6000) (origin := Some "https://cabinet.example"%string) (production := true) (request := login_request) (attempts := Some 1)
    (sessionSecret := session_secret) (answer := logged_in) (setCookie := set_session)
    (before := ["theme=dark"%string]) (after := @nil string) (request' := cabinet_request) (t := 7000) (databaseNow := 7000)
    as [Hopen _].
  - exact confirmed_reachable.
  - computed.
  - computed.
  - apply RunDone.
  - computed.
  - apply Forall_singleton. split; [computed|]. by vm_compute.
  - by apply Forall_nil.
  - computed.
  - reflexivity.
  - intros pepper id x _ Hx _. exact (only_session id x Hx).
  - exact Hopen.
Defined.
