(* ===== verification/ProbeSystem.v ===== *)
(** * The system of the probes

    Credentials rotate, submissions come in and the health transactions run, in
    any order: the health tables move by the steps of the health system, every
    recorded result came with the secret of its source, a replaced secret is
    dead, and a valid submission is recorded once. *)

From S2P Require Import Prelude.
From S2P Require Import Text.
From S2P Require Import Json.
From S2P Require Import OperationalPolicy.
From S2P Require Import HealthDecision.
From S2P Require Import Sql.
From S2P Require Import XrayAccess.
From S2P Require Import HealthStore.
From S2P Require Import HealthEvidence.
From S2P Require Import HealthInvariant.
From S2P Require Import HealthSystem.
From S2P Require Import HealthExact.
From S2P Require Import Cabinet.
From S2P Require Import TelegramInitData.
From S2P Require Import Redis.
From S2P Require Import RateLimits.
From S2P Require Import ProbeIngestion.
From S2P Require Import ProbeSafety.
From S2P Require Import BotRequests.
From S2P Require Import RateLimitBounds.
From S2P Require AgentExamples.
From S2P Require Import ControlPlaneExamples.
From S2P Require HealthExamples.
From S2P Require AccountExamples.
Open Scope Z_scope.

Section system.
Context (uuid : nat → string) (is_uuid is_datetime : string → bool).
Context (sha256 : json → string) (sha256_text : string → string) (maxAttempts : Z).
Context {Locale : LocaleCompare} {Dates : DateStrings}.
Context (hmac_sha256 : string → string → list Z) (sha256_hex : string → string) (namespace : string).
Context (PROBE_SOURCE_CREDENTIAL_PEPPER : option string) (env : LimitEnvironment).

Notation health_step := (health_step uuid is_uuid sha256 sha256_text maxAttempts).
Notation health_reachable := (health_reachable uuid is_uuid sha256 sha256_text maxAttempts).
Notation rotate := (rotate uuid hmac_sha256 PROBE_SOURCE_CREDENTIAL_PEPPER).
Notation ingest := (ingest uuid is_uuid is_datetime hmac_sha256 sha256_hex namespace
  PROBE_SOURCE_CREDENTIAL_PEPPER env).
Notation ingested := (ingested uuid is_uuid is_datetime hmac_sha256 PROBE_SOURCE_CREDENTIAL_PEPPER).
Notation authenticates := (authenticates hmac_sha256 PROBE_SOURCE_CREDENTIAL_PEPPER).
Notation hashed := (hashed hmac_sha256).

(** A step of the health system that records no result, whatever else happens
    to Redis, or a call of the two services, whether it returns or throws. *)
Inductive probe_step (s : ProbeStore) : ProbeStore → Prop :=
| PStepHealth h : health_step (pb_health s) h → h_results h = h_results (pb_health s) →
    probe_step s (set_health (λ _, h) s)
| PStepRedis r : probe_step s (set_redis (λ _, r) s)
| PStepRotate probeSourceId secret now : probe_step s (rotate probeSourceId secret now s).2
| PStepRevoke probeSourceId now : probe_step s (revoke probeSourceId now s).2
| PStepIngest secret clientIp body connected redisNow now :
    probe_step s (ingest secret clientIp body connected redisNow now s).2.

Definition empty_probe_store : ProbeStore :=
  {| pb_health := empty_health_db; pb_credentials := ∅; pb_redis := ∅ |}.
Definition probe_reachable (s : ProbeStore) : Prop := rtc probe_step empty_probe_store s.

(** ** Rotation *)

Lemma rotated_credentials probeSourceId secret now s i s' pepper :
  rotated uuid hmac_sha256 PROBE_SOURCE_CREDENTIAL_PEPPER probeSourceId secret now s i s' pepper →
  CredentialsInv (pb_credentials s) →
  CredentialsInv (pb_credentials s') ∧ credentials_le (pb_credentials s) (pb_credentials s') ∧
  ∀ id c, pb_credentials s !! id = Some c → pr_probeSourceId c = probeSourceId →
    ∃ c', pb_credentials s' !! id = Some c' ∧ pr_secretHash c' = pr_secretHash c ∧ pr_revokedAt c' ≠ None.
Proof.
  intros [] Hinv. rewrite ro_state. simpl. split_and!.
  - apply created_inv; [by apply revoked_inv| |].
    + intros id c (c0 & Hc & _ & -> & _)%revoked_lookup. by eapply ro_hash.
    + intros id c (c0 & _ & _ & _ & Hr & _)%revoked_lookup E N. by destruct (Hr N).
  - intros id c Hc. destruct (revoked_le probeSourceId now _ _ _ Hc) as (c' & Hc' & ?).
    exists c'. split; [|done]. rewrite lookup_insert_ne; [done|]. intros <-. congruence.
  - intros id c Hc E. destruct (revoked_le probeSourceId now _ _ _ Hc) as (c' & Hc' & Hh & Hs & _).
    exists c'. split; [|split; [done|]].
    + rewrite lookup_insert_ne; [done|]. intros <-. congruence.
    + apply revoked_lookup in Hc' as (c0 & _ & _ & _ & Hr & _). intros N. destruct (Hr N). congruence.
Qed.

Lemma revoked_credentials probeSourceId now t id c :
  t !! id = Some c → pr_probeSourceId c = probeSourceId →
  ∃ c', revoked_table probeSourceId now t !! id = Some c' ∧ pr_secretHash c' = pr_secretHash c ∧
    pr_revokedAt c' ≠ None.
Proof.
  intros Hc E. destruct (revoked_le probeSourceId now _ _ _ Hc) as (c' & Hc' & Hh & Hs & _).
  exists c'. split_and!; [done..|].
  apply revoked_lookup in Hc' as (c0 & _ & _ & _ & Hr & _). intros N. destruct (Hr N). congruence.
Qed.

(** ** Every step *)

Lemma rotate_health s h s' entries n :
  pb_health s' = set_health_audit (λ l, l ++ entries) (set_health_drawn (Nat.add n) h) →
  pb_health s = h → health_step (pb_health s) (pb_health s').
Proof. intros -> <-. apply HStepElsewhere. Qed.

(** What the probes do is a step of the health system, or none, and keeps the
    credentials in order. *)
Lemma probe_step_sound s s' :
  probe_step s s' → CredentialsInv (pb_credentials s) →
  rtc health_step (pb_health s) (pb_health s') ∧ CredentialsInv (pb_credentials s') ∧
  credentials_le (pb_credentials s) (pb_credentials s').
Proof.
  assert (Hsame : ∀ s', same_database s s' → CredentialsInv (pb_credentials s) →
    rtc health_step (pb_health s) (pb_health s') ∧ CredentialsInv (pb_credentials s') ∧
    credentials_le (pb_credentials s) (pb_credentials s')) by (by intros s1 [-> ->]).
  intros [h Hh _|r|p secret now|p now|secret ip body connected redisNow now] Hinv.
  - destruct s. simpl. split_and!; [by apply rtc_once|done..].
  - apply Hsame; [apply set_redis_same|done].
  - destruct (rotate p secret now s) as [[i|e] s1] eqn:Hr; simpl.
    + apply probe_rotate_ok in Hr as [pepper Hr]. destruct (rotated_credentials _ _ _ _ _ _ _ Hr Hinv) as (? & ? & _).
      split_and!; [|done..]. destruct Hr. apply rtc_once. by eapply rotate_health; [rewrite ro_state|].
    + apply rotate_throws in Hr. by apply Hsame.
  - destruct (revoke p now s) as [[b|e] s1] eqn:Hr; simpl.
    + apply revoke_ok in Hr as ->. simpl. split_and!; [|by apply revoked_inv|apply revoked_le].
      apply rtc_once. eapply (rotate_health s _ (MkProbeStore _ ∅ ∅) _ 0); [simpl|done].
      by destruct (pb_health s).
    + apply Hsame; [|done]. unfold revoke in Hr. by eapply transaction_throws.
  - destruct (ingest secret ip body connected redisNow now s) as [[a|e] s1] eqn:Hr; simpl.
    + apply ingest_ok in Hr as (p & data & input & r & []). rewrite in_credentials.
      split_and!; [|done..]. apply rtc_once. by eapply HStepRecord.
    + apply ingest_throws in Hr. by apply Hsame.
Qed.

Lemma probe_steps_sound s s' :
  rtc probe_step s s' → CredentialsInv (pb_credentials s) →
  rtc health_step (pb_health s) (pb_health s') ∧ CredentialsInv (pb_credentials s') ∧
  credentials_le (pb_credentials s) (pb_credentials s').
Proof.
  induction 1 as [s|s1 s2 s3 Hs _ IH]; intros Hinv; [done|].
  destruct (probe_step_sound _ _ Hs Hinv) as (H1 & I1 & L1), (IH I1) as (H2 & I2 & L2).
  split_and!; [by etrans|done|by etrans].
Qed.

Lemma probe_reachable_sound s :
  probe_reachable s → health_reachable (pb_health s) ∧ CredentialsInv (pb_credentials s).
Proof.
  intros Hr. destruct (probe_steps_sound _ _ Hr) as (Hh & Hc & _); [|done].
  split; intros ????; simpl; by rewrite lookup_empty.
Qed.

(** C22: whatever the probe services do, together with the health
    transactions, the health tables are in a state the health system reaches,
    so all that holds of its reachable states holds of them; and a source has
    at most one credential that is not revoked. *)
Theorem probes_refine_health s id1 id2 c1 c2 :
  probe_reachable s →
  health_reachable (pb_health s) ∧
  (pb_credentials s !! id1 = Some c1 → pb_credentials s !! id2 = Some c2 →
   pr_probeSourceId c1 = pr_probeSourceId c2 → pr_revokedAt c1 = None → pr_revokedAt c2 = None → id1 = id2).
Proof. intros [Hh [_ Ha]]%probe_reachable_sound. split; [done|]. by apply Ha. Qed.

(** ** Where results come from *)

(** The result [rid] of [s] was submitted, with the secret of its source. *)
Definition submitted (s : ProbeStore) (rid : string) (r : ProbeResult) : Prop :=
  ∃ s0 secret clientIp body connected redisNow now a s1 data,
    probe_reachable s0 ∧ ingest secret clientIp body connected redisNow now s0 = (Ok a, s1) ∧
    rtc probe_step s1 s ∧ authenticates s0 secret (rs_probeSourceId r) ∧
    ap_probeResultId a = rid ∧ ap_replayed a = false ∧
    probeResultSubmissionSchema is_datetime body = Some data ∧
    rs_sourceResultId r = su_sourceResultId data ∧ rs_scope r = su_affectedScope data ∧
    Date_parse (su_cycleStartedAt data) = Some (rs_cycleStartedAt r) ∧
    rs_routeVersion r = su_routeVersion data ∧ rs_outcome r = su_outcome data ∧
    rs_failureClass r = su_failureClass data ∧ rs_controlHealthy r = su_controlHealthy data ∧
    rs_receivedAt r = now.

Lemma trimmed_text_ok s x : trimmed_text s = Some x → x = trim s.
Proof. unfold trimmed_text. intros H. option_invert H. by simplify_eq. Qed.

Lemma clean_input input clean :
  recordProbeResultSchema is_uuid input = Some clean →
  rp_probeSourceId clean = rp_probeSourceId input ∧ rp_routeVersion clean = rp_routeVersion input ∧
  rp_outcome clean = rp_outcome input ∧ rp_failureClass clean = rp_failureClass input ∧
  rp_controlHealthy clean = rp_controlHealthy input ∧ rp_cycleStartedAt clean = rp_cycleStartedAt input ∧
  rp_sourceResultId clean = trim (rp_sourceResultId input) ∧
  rp_affectedScope clean = {| scope_kind := scope_kind (rp_affectedScope input);
                              scope_id := trim (scope_id (rp_affectedScope input)) |}.
Proof.
  unfold recordProbeResultSchema, scopeSchema. intros H. option_invert H. simplify_eq/=. option_invert E0. simplify_eq/=.
  apply trimmed_text_ok in E as ->. by split_and!; [..|f_equal; apply trimmed_text_ok].
Qed.

Lemma zod_trimmed_is_trimmed n j x : zod_trimmed n j = Some x → trim x = x.
Proof. unfold zod_trimmed. intros H. option_invert H. simplify_eq. apply trim_idemp. Qed.

(** A submission is in trimmed texts. *)
Lemma submission_trimmed body data :
  probeResultSubmissionSchema is_datetime body = Some data →
  trim (su_sourceResultId data) = su_sourceResultId data ∧
  {| scope_kind := scope_kind (su_affectedScope data); scope_id := trim (scope_id (su_affectedScope data)) |} =
    su_affectedScope data.
Proof.
  unfold probeResultSubmissionSchema. intros H. option_invert H. simplify_eq/=.
  apply bind_Some in E0 as (j0 & _ & H0%zod_trimmed_is_trimmed), E1 as (j1 & _ & H1). split; [done|].
  unfold affected_scope_schema in H1. option_invert H1. simplify_eq/=.
  match goal with H : field _ "id"%string _ = Some _ |- _ => apply bind_Some in H as (j2 & _ & H2%zod_trimmed_is_trimmed) end.
  by rewrite H2.
Qed.

Lemma results_of_step s s' rid r :
  probe_reachable s → probe_step s s' → h_results (pb_health s') !! rid = Some r →
  h_results (pb_health s) !! rid = Some r ∨ submitted s' rid r.
Proof.
  intros Hreach Hstep Hr. destruct Hstep as [h _ Hh|redis|p secret now|p now|secret ip body connected redisNow now].
  - left. by destruct s; simpl in *; rewrite <- Hh.
  - left. by destruct s.
  - left. destruct (rotate p secret now s) as [[i|e] s1] eqn:Hrun; simpl in *.
    + apply probe_rotate_ok in Hrun as [pepper []]. rewrite ro_state in Hr. by destruct (pb_health s).
    + apply rotate_throws in Hrun as [Hs _]. by rewrite <- Hs.
  - left. destruct (revoke p now s) as [[b|e] s1] eqn:Hrun; simpl in *.
    + apply revoke_ok in Hrun as ->. by destruct (pb_health s).
    + unfold revoke in Hrun. apply transaction_throws in Hrun as [Hs _]. by rewrite <- Hs.
  - destruct (ingest secret ip body connected redisNow now s) as [[a|e] s1] eqn:Hrun; simpl in *.
    2:{ left. apply ingest_throws in Hrun as [Hs _]. by rewrite <- Hs. }
    pose proof Hrun as Hrun'. apply ingest_ok in Hrun' as (p & data & input & res & []).
    destruct (record_ok _ _ _ _ _ _ _ in_recorded) as (clean & Hclean & [(id & row & _ & _ & _ & Hs & _)|
      (source & _ & _ & Hnew & _ & Hs & Hres)]).
    { left. by rewrite <- Hs. }
    rewrite Hs in Hr. replace (h_results (set_results _ _)) with
      (<[uuid (h_drawn (pb_health s)) := new_result clean (so_independenceKey source) now]>
        (h_results (pb_health s))) in Hr by (by destruct (pb_health s)).
    apply lookup_insert_Some in Hr as [[<- <-]|[_ Hr]]; [right|by left].
    destruct (clean_input _ _ Hclean) as (E1 & E2 & E3 & E4 & E5 & E6 & E7 & E8).
    destruct (submission_trimmed _ _ in_body) as [T1 T2], (probe_reachable_sound _ Hreach) as [Hhr _].
    unfold record_input in in_input. option_invert in_input. injection in_input as <-.
    exists s, secret, ip, body, connected, redisNow, now, a, s1, data. simpl in *.
    pose proof in_source as (pepper & cid & c & source0 & _ & _ & _ & _ & _ & _ & Hso & _).
    rewrite E1, E2, E3, E4, E5, E6, E7, E8, T1, T2. simpl.
    rewrite (reachable_sources _ _ _ _ _ _ _ _ Hhr Hso). subst a res. by split_and!.
Qed.

Lemma submitted_later s s' rid r : submitted s rid r → rtc probe_step s s' → submitted s' rid r.
Proof.
  intros (s0 & secret & ip & body & connected & redisNow & now & a & s1 & data & ? & ? & ? & ?) Hs.
  exists s0, secret, ip, body, connected, redisNow, now, a, s1, data. split; [done|]. split; [done|]. split; [by etrans|done].
Qed.

(** C12: every probe result on record was submitted: with the secret of a
    credential of its source that was not revoked, while the source was active,
    as a document the schema accepts; and it says what the document said: the
    source's identifier of it, the scope, the start of the cycle, the route
    version, the outcome with its failure class, and the health of the
    control, received when it was submitted. *)
Theorem results_are_submitted s rid r :
  probe_reachable s → h_results (pb_health s) !! rid = Some r → submitted s rid r.
Proof.
  intros Hreach. revert rid r. revert s Hreach.
  refine (rtc_ind_r (λ s, ∀ rid r, h_results (pb_health s) !! rid = Some r → submitted s rid r) _ _ _).
  { intros rid r Hr. simpl in Hr. by rewrite lookup_empty in Hr. }
  intros s1 s2 H1 Hs IH rid r Hr. destruct (results_of_step _ _ _ _ H1 Hs Hr) as [Hold|Hsub]; [|done].
  eapply submitted_later; [by apply IH|by apply rtc_once].
Qed.

(** ** Secrets that are replaced *)

Lemma authenticates_again s secret p id c pepper :
  CredentialsInv (pb_credentials s) → truthy PROBE_SOURCE_CREDENTIAL_PEPPER = Some pepper →
  pb_credentials s !! id = Some c → pr_secretHash c = hashed pepper secret → authenticates s secret p →
  pr_revokedAt c = None ∧ pr_probeSourceId c = p.
Proof.
  intros [Hh _] Hp Hc Hhash (pepper' & id' & c' & source & Hp' & _ & Hc' & Hs & Hhash' & Hr & _).
  assert (pepper' = pepper) as -> by congruence.
  assert (id' = id) as -> by (eapply Hh; [done..|congruence]). by simplify_eq.
Qed.

(** C27: once the credential of a source is rotated or revoked, no submission
    with the secret it had is ever accepted again, for any source. *)
Theorem replaced_secret_is_dead s secret p now s1 s2 :
  probe_reachable s → authenticates s secret p →
  (∃ secret' i, rotate p secret' now s = (Ok i, s1)) ∨ (∃ b, revoke p now s = (Ok b, s1)) →
  rtc probe_step s1 s2 →
  ∀ clientIp body connected redisNow now' a s3,
    ingest secret clientIp body connected redisNow now' s2 ≠ (Ok a, s3).
Proof.
  intros Hreach Ha Hreplaced Hs ip body connected redisNow now' a s3 Hrun.
  destruct (probe_reachable_sound _ Hreach) as [_ Hinv].
  destruct Ha as (pepper & id & c & source & Hp & _ & Hc & Hsrc & Hhash & _).
  assert (CredentialsInv (pb_credentials s1) ∧ ∃ c', pb_credentials s1 !! id = Some c' ∧
    pr_secretHash c' = pr_secretHash c ∧ pr_revokedAt c' ≠ None) as [Hinv1 (c1 & Hc1 & Hh1 & Hr1)].
  { destruct Hreplaced as [(secret' & i & Hrot)|[b Hrev]].
    - apply probe_rotate_ok in Hrot as [pepper' Hrot].
      destruct (rotated_credentials _ _ _ _ _ _ _ Hrot Hinv) as (? & _ & Hall). eauto.
    - apply revoke_ok in Hrev as ->. simpl. split; [by apply revoked_inv|]. by apply revoked_credentials. }
  destruct (probe_steps_sound _ _ Hs Hinv1) as (_ & Hinv2 & Hle).
  destruct (Hle _ _ Hc1) as (c2 & Hc2 & Hh2 & _ & Hr2). specialize (Hr2 Hr1) as ->.
  apply ingest_ok in Hrun as (p' & data & input & r & []).
  destruct (authenticates_again s2 secret p' id c1 pepper) as [Hn _]; [done..|congruence|done|done].
Qed.

(** ** Submissions are accepted, once *)

(** The limiters let a submission of [data] by [probeSourceId] pass. *)
Definition limits_pass (s : ProbeStore) (probeSourceId clientIp : string) (data : ProbeResultSubmission)
    (connected : bool) (redisNow : Z) : Prop :=
  ∃ r1 r2,
    assertIpAllowed namespace sha256_hex connected redisNow (PROBE_INGESTION_RATE_LIMIT_WINDOW_MS env)
      (PROBE_INGESTION_RATE_LIMIT_MAX env) clientIp (pb_redis s) = (Ok tt, r1) ∧
    assertSourceAllowed namespace sha256_hex connected redisNow (PROBE_INGESTION_RATE_LIMIT_WINDOW_MS env)
      (PROBE_INGESTION_RATE_LIMIT_MAX env) (PROBE_INGESTION_MAX_SCOPES_PER_WINDOW env) probeSourceId
      (scope_kind_name (scope_kind (su_affectedScope data))) (scope_id (su_affectedScope data)) r1 = (Ok tt, r2).

Lemma on_redis_run (m : LimitM unit) s r : m (pb_redis s) = (Ok tt, r) → on_redis m s = (Ok tt, set_redis (λ _, r) s).
Proof. unfold on_redis. by intros ->. Qed.
Lemma on_health_run {A} (m : HealthM A) s a h :
  m (pb_health s) = (Ok a, h) → on_health m s = (Ok a, set_health (λ _, h) s).
Proof. unfold on_health. by intros ->. Qed.

Lemma authenticated_first s secret p :
  CredentialsInv (pb_credentials s) → authenticates s secret p →
  ∃ pepper rest, truthy PROBE_SOURCE_CREDENTIAL_PEPPER = Some pepper ∧ secret_text secret = true ∧
    authenticated_sources s (hashed pepper secret) = p :: rest.
Proof.
  intros [Hh _] (pepper & id & c & source & Hp & Ht & Hc & Hs & Hhash & Hr & Hso & Ha).
  assert (Hin : p ∈ authenticated_sources s (hashed pepper secret)).
  { apply authenticated_sources_spec. by exists id, c, source. }
  destruct (authenticated_sources s _) as [|p' rest] eqn:Hl; [by apply elem_of_nil in Hin|].
  assert (Hin' : p' ∈ authenticated_sources s (hashed pepper secret)) by (rewrite Hl; left).
  apply authenticated_sources_spec in Hin' as (id' & c' & source' & Hc' & Hs' & Hhash' & _).
  assert (id' = id) as -> by (eapply Hh; [done..|congruence]). simplify_eq. by exists pepper, rest.
Qed.

Definition accepted (r : RecordedProbeResult) : AcceptedProbeResult :=
  {| ap_probeResultId := ps_id (rec_signal r); ap_receivedAt := toISOString (ps_receivedAt (rec_signal r));
     ap_replayed := rec_replayed r |}.

(** The answer to an authenticated submission within the limits is the
    store's. *)
Lemma ingest_run s secret p clientIp body data input connected redisNow now r h :
  CredentialsInv (pb_credentials s) → authenticates s secret p →
  probeResultSubmissionSchema is_datetime body = Some data → record_input p data = Some input →
  limits_pass s p clientIp data connected redisNow →
  recordProbeResult uuid is_uuid input now (pb_health s) = (Ok r, h) →
  ∃ redis, ingest secret clientIp body connected redisNow now s =
    (Ok (accepted r), {| pb_health := h; pb_credentials := pb_credentials s; pb_redis := redis |}).
Proof.
  intros Hinv Ha Hb Hi (r1 & r2 & Hip & Hsrc) Hrec.
  destruct (authenticated_first _ _ _ Hinv Ha) as (pepper & rest & Hp & Ht & Hl).
  unfold ProbeIngestion.ingest. rewrite (bind_ok _ _ _ _ _ (on_redis_run _ _ _ Hip)), Hb.
  set (s1 := set_redis _ s). assert (Hl1 : authenticated_sources s1 (hashed pepper secret) = p :: rest) by (by destruct s).
  unfold recordProbeResult in Hrec. apply atomically_ok_inv in Hrec.
  assert (Hop : ingest_operation uuid is_uuid sha256_hex namespace env connected redisNow now data p s1 =
    (Ok r, set_health (λ _, h) (set_redis (λ _, r2) s1))).
  { unfold ingest_operation. assert (Hr1 : pb_redis s1 = r1) by (by destruct s). rewrite <- Hr1 in Hsrc.
    rewrite (bind_ok _ _ _ _ _ (on_redis_run _ _ _ Hsrc)), Hi. apply on_health_run. by destruct s. }
  exists r2. unfold try_catch. erewrite bind_ok; [|].
  2:{ unfold withAuthenticatedSourceTransaction. rewrite Ht. simpl. unfold database_transaction.
      unfold hashSecret. rewrite Hp, bind_mret, bind_get. fold (hashed pepper secret). rewrite Hl1.
      rewrite (bind_ok _ _ _ _ _ Hop). reflexivity. }
  simpl. by destruct s.
Qed.

Lemma record_signal r id row b : r = {| rec_signal := probeRowToSignal id row; rec_replayed := b |} →
  accepted r = {| ap_probeResultId := id; ap_receivedAt := toISOString (rs_receivedAt row); ap_replayed := b |}.
Proof. by intros ->. Qed.

Lemma new_result_retry clean key now :
  same_source_result clean (new_result clean key now) = true ∧ exactRetry clean (new_result clean key now) = true.
Proof.
  unfold same_source_result, exactRetry, new_result. simpl.
  rewrite !bool_decide_eq_true_2, !Z.eqb_refl, Bool.eqb_reflx by done. done.
Qed.

(** C28: a valid submission with the source's secret, within the limits, of a
    cycle that has started and a result not yet on record, is accepted and
    recorded; and whatever happens then, submitting the same again, with a
    secret that is the source's by then and within the limits of then, answers
    with the same result and instant, marked as a replay, and changes no
    table. *)
Theorem submission_accepted_once (Huuid : Inj (=) (=) uuid)
    s secret p clientIp body data input clean connected redisNow now :
  probe_reachable s → authenticates s secret p →
  probeResultSubmissionSchema is_datetime body = Some data → record_input p data = Some input →
  recordProbeResultSchema is_uuid input = Some clean →
  (∀ id row, h_results (pb_health s) !! id = Some row → same_source_result clean row = false) →
  rp_cycleStartedAt clean ≤ now → limits_pass s p clientIp data connected redisNow →
  let answer replayed := {| ap_probeResultId := uuid (h_drawn (pb_health s));
    ap_receivedAt := toISOString now; ap_replayed := replayed |} in
  ∃ s1, ingest secret clientIp body connected redisNow now s = (Ok (answer false), s1) ∧
    ∀ s2 secret2 clientIp2 connected2 redisNow2 now2,
      rtc probe_step s1 s2 → authenticates s2 secret2 p → limits_pass s2 p clientIp2 data connected2 redisNow2 →
      ∃ s3, ingest secret2 clientIp2 body connected2 redisNow2 now2 s2 = (Ok (answer true), s3) ∧
        same_database s2 s3.
Proof.
  intros Hreach Ha Hb Hi Hclean Hnone Hnow Hlim answer.
  destruct (probe_reachable_sound _ Hreach) as [Hh Hinv].
  destruct (record_is_exact uuid is_uuid sha256 sha256_text maxAttempts _ input clean now Hh Hclean) as [_ Hrun].
  specialize (Hrun Hnone).
  pose proof Ha as (pepper & id & c & source & _ & _ & _ & _ & _ & _ & Hso & Hact).
  destruct (clean_input _ _ Hclean) as (E1 & _).
  assert (E0 : rp_probeSourceId input = p).
  { unfold record_input in Hi. option_invert Hi. by simplify_eq. }
  rewrite E1, E0, (reachable_sources _ _ _ _ _ _ _ _ Hh Hso), Hso in Hrun. rewrite bool_decide_eq_true_2 in Hrun by done.
  replace (rp_cycleStartedAt clean <=? now) with true in Hrun by lia. destruct Hrun as [Hrun _].
  destruct (ingest_run _ _ _ _ _ _ _ _ _ _ _ _ Hinv Ha Hb Hi Hlim Hrun) as [redis Hin].
  eexists. split; [exact Hin|]. set (s1 := {| pb_health := _ |}).
  intros s2 secret2 ip2 connected2 redisNow2 now2 Hs Ha2 Hlim2.
  assert (Hr1 : probe_reachable s1).
  { eapply rtc_r; [exact Hreach|]. pose proof (PStepIngest s secret clientIp body connected redisNow now) as Hst.
    by rewrite Hin in Hst. }
  assert (Hr2 : probe_reachable s2) by (by unfold probe_reachable in *; etrans).
  destruct (probe_reachable_sound _ Hr1) as [Hh1 Hinv1], (probe_reachable_sound _ Hr2) as [Hh2 Hinv2].
  destruct (probe_steps_sound _ _ Hs Hinv1) as (Hsteps & _ & _).
  destruct (health_steps_inv _ _ _ _ _ _ _ Hsteps) as [_ Hle]; [by eapply health_reachable_inv|].
  set (row := new_result clean (so_independenceKey source) now) in *.
  assert (Hrow : h_results (pb_health s2) !! uuid (h_drawn (pb_health s)) = Some row).
  { eapply lookup_weaken; [|apply Hle]. subst s1. simpl. destruct (pb_health s). simpl. by rewrite lookup_insert_eq. }
  destruct (new_result_retry clean (so_independenceKey source) now) as [Hsame Hexact]. fold row in Hsame, Hexact.
  destruct (record_is_exact uuid is_uuid sha256 sha256_text maxAttempts _ input clean now2 Hh2 Hclean) as [Hagain _].
  specialize (Hagain _ _ Hrow Hsame). rewrite Hexact in Hagain.
  destruct (ingest_run _ _ _ _ _ _ _ _ _ _ _ _ Hinv2 Ha2 Hb Hi Hlim2 Hagain) as [redis2 Hin2].
  eexists. split; [exact Hin2|done].
Qed.
End system.

(** ** Concrete probes and limits

    A source is given a secret, submits a result, is given another secret and
    submits again; clients are limited.  The theorems of RateLimitBounds.v and
    of this file are applied to these runs. *)

#[local] Existing Instance AgentExamples.binaryDates.
#[local] Existing Instance codeUnitLocale.

Ltac computed := lazymatch goal with |- _ = ?rhs => vm_cast_no_check (eq_refl rhs) end.

(** ** Limits *)

Definition limits : LimitEnvironment :=
  {| AUTH_PRELAUNCH_RATE_LIMIT_WINDOW_MS := 60000; AUTH_PRELAUNCH_RATE_LIMIT_MAX := 2;
     TRIAL_ACTIVATION_RATE_LIMIT_WINDOW_MS := 60000; TRIAL_ACTIVATION_RATE_LIMIT_MAX := 2;
     SUBSCRIPTION_FEED_RATE_LIMIT_WINDOW_MS := 60000; SUBSCRIPTION_FEED_RATE_LIMIT_MAX := 2;
     PROBE_INGESTION_RATE_LIMIT_WINDOW_MS := 60000; PROBE_INGESTION_RATE_LIMIT_MAX := 2;
     PROBE_INGESTION_MAX_SCOPES_PER_WINDOW := 1 |}.
Notation api_run := (api_commands limits "api" id).
Notation admitted_of := (admitted limits "api" id).

(** Two attempts at the end of a window, and more when it is over. *)
Definition early : list (Z * ApiCommand) :=
  [(1000, Attempt true (FeedOf "ip")); (1500, NonceReservation true "p" "n")].
Definition late : list (Z * ApiCommand) :=
  [(60000, Attempt true (FeedOf "ip")); (60500, Attempt false (FeedOf "ip"));
   (61000, Attempt true (FeedOf "ip")); (61500, Attempt true (FeedOf "ip"));
   (62000, Attempt true (FeedOf "ip"))].

Example late_admitted : admitted_of (FeedOf "ip") late (api_run early ∅) = 3.
Proof. by vm_compute. Qed.
Lemma rate_limit_bound_witness : admitted_of (FeedOf "ip") late (api_run early ∅) ≤ 4.
Proof.
  apply (rate_limit_bound limits "api" id (FeedOf "ip") early late 0 60000); simpl; lia.
Defined.

(** Refused at 3000, let in again when the window of 1000 is over. *)
Definition attempts : list (Z * ApiCommand) :=
  [(1000, Attempt true (TrialOf "p" "7")); (2000, Attempt true (TrialOf "p" "7"))].
Lemma refusal_ends_witness :
  ∃ until, 3000 < until ≤ 63000 ∧ ∀ later, until ≤ later →
    (assert_limited limits "api" id true later (TrialOf "p" "7")
       (api_run [(3000, Attempt true (TrialOf "p" "7"))] (api_run attempts ∅))).1 = Ok tt.
Proof.
  destruct (refusal_ends limits "api" id (TrialOf "p" "7") attempts 0 3000) as (until & Hu & Hend);
    [done|done|done|simpl; lia|by vm_compute|].
  exists until. split; [exact Hu|]. intros later Hl. by apply (Hend [] later).
Defined.

Lemma prototype_limits_as_redis_witness :
  let l := [(0, "a"); (1, "b"); (2, "a"); (3, "a"); (60000, "a"); (60001, "b")]%string in
  prototype_answers 60000 2 8 l ∅ = feed_answers "api" 60000 2 l ∅ ∧
  feed_answers "api" 60000 2 l ∅ = [true; true; true; false; true; true].
Proof.
  intros l. split; [|by vm_compute].
  apply (prototype_limits_as_redis "api" 60000 2 8 l 0); [lia|lia|by vm_compute|simpl; lia].
Defined.

(** ** Probes *)

Notation health_step := (health_step plain_uuid AgentExamples.any_text HealthExamples.cycle_hash id 5).
Definition probe_pepper : option string := Some "probe pepper"%string.
Notation step := (probe_step plain_uuid AgentExamples.any_text AgentExamples.any_text
  HealthExamples.cycle_hash id 5 AccountExamples.text_mac id "api" probe_pepper limits).
Notation reachable := (probe_reachable plain_uuid AgentExamples.any_text AgentExamples.any_text
  HealthExamples.cycle_hash id 5 AccountExamples.text_mac id "api" probe_pepper limits).
Notation rotate_run := (rotate plain_uuid AccountExamples.text_mac probe_pepper).
Notation submission := (ingest plain_uuid AgentExamples.any_text AgentExamples.any_text
  AccountExamples.text_mac id "api" probe_pepper limits).

Definition first_secret : string := "AAAAAAAAAAAAAAAAAAAAAAAAAAAAAAAAAAAAAAAAAAA".
Definition second_secret : string := "BBBBBBBBBBBBBBBBBBBBBBBBBBBBBBBBBBBBBBBBBBB".
Definition body : json :=
  JObj [("sourceResultId", JStr " r1 ");
        ("affectedScope", JObj [("kind", JStr "PROFILE"); ("id", JStr "route")]);
        ("cycleStartedAt", JStr (toISOString 1000));
        ("routeVersion", jint 1);
        ("outcome", JStr "FAILURE"); ("failureClass", JStr "DNS");
        ("controlHealthy", JBool true)]%string.

Definition sourced_store : ProbeStore :=
  set_health (λ _, set_sources <["a"%string := HealthExamples.source "asn-1"]> empty_health_db) empty_probe_store.
Definition armed_store : ProbeStore := (rotate_run "a" first_secret 500 sourced_store).2.
Definition submitted_store : ProbeStore := (submission first_secret "ip" body true 2000 2000 armed_store).2.
Definition rearmed_store : ProbeStore := (rotate_run "a" second_secret 3000 submitted_store).2.

Lemma sourced_reachable : reachable sourced_store.
Proof.
  unfold probe_reachable, sourced_store. apply rtc_once. apply PStepHealth; [apply (HStepSource _ _ _ _ _ _ "a"%string)|done].
Qed.
Lemma armed_reachable : reachable armed_store.
Proof. eapply rtc_r; [exact sourced_reachable|apply PStepRotate]. Qed.
Lemma submitted_reachable : reachable submitted_store.
Proof. eapply rtc_r; [exact armed_reachable|apply PStepIngest]. Qed.
Lemma rearmed_step : step submitted_store rearmed_store.
Proof. apply PStepRotate. Qed.
Lemma rearmed_reachable : reachable rearmed_store.
Proof. eapply rtc_r; [exact submitted_reachable|exact rearmed_step]. Qed.

Definition the_data : ProbeResultSubmission :=
  {| su_sourceResultId := "r1"; su_affectedScope := HealthExamples.affected;
     su_cycleStartedAt := toISOString 1000; su_routeVersion := 1; su_outcome := PO_FAILURE;
     su_failureClass := Some DNS; su_controlHealthy := true |}.
Lemma body_parsed : probeResultSubmissionSchema AgentExamples.any_text body = Some the_data.
Proof. computed. Qed.
Lemma body_recorded : record_input "a" the_data = Some (HealthExamples.report "a" "r1" 1000).
Proof. computed. Qed.
Lemma body_clean : recordProbeResultSchema AgentExamples.any_text (HealthExamples.report "a" "r1" 1000) =
  Some (HealthExamples.report "a" "r1" 1000).
Proof. computed. Qed.

Notation authentic := (authenticates AccountExamples.text_mac probe_pepper).
Lemma authentic_when (s : ProbeStore) secret id c :
  TelegramInitData.secret_text secret = true → pb_credentials s !! id = Some c →
  pr_probeSourceId c = "a"%string → pr_secretHash c = hashed AccountExamples.text_mac "probe pepper" secret →
  pr_revokedAt c = None → h_sources (pb_health s) !! "a"%string = Some (HealthExamples.source "asn-1") →
  authentic s secret "a".
Proof. intros. by exists "probe pepper"%string, id, c, (HealthExamples.source "asn-1"). Qed.
Definition credential_of (secret : string) (now : Z) : ProbeSourceCredential :=
  fresh_credential AccountExamples.text_mac "a" "probe pepper" secret now.
Lemma first_authentic : authentic armed_store first_secret "a".
Proof.
  apply (authentic_when armed_store first_secret "u0" (credential_of first_secret 500)); computed.
Qed.
Lemma second_authentic : authentic rearmed_store second_secret "a".
Proof.
  apply (authentic_when rearmed_store second_secret "u2" (credential_of second_secret 3000)); computed.
Qed.

Notation passing := (limits_pass id "api" limits).
Lemma passing_when (s : ProbeStore) (redisNow : Z) :
  (let first := assertIpAllowed "api" id true redisNow 60000 2 "ip" (pb_redis s) in
   bool_decide (is_ok first.1 = true) &&
   bool_decide (is_ok (assertSourceAllowed "api" id true redisNow 60000 2 1 "a" "PROFILE" "route" first.2).1 = true)) = true →
  passing s "a" "ip" the_data true redisNow.
Proof.
  unfold limits_pass. simpl. destruct (assertIpAllowed _ _ _ _ _ _ _ _) as [[[]|] r1]; [|done]. simpl.
  destruct (assertSourceAllowed _ _ _ _ _ _ _ _ _ _ r1) as [[[]|] r2] eqn:Hs; [|done]. simpl.
  intros _. by exists r1, r2.
Qed.

(** The same submission twice, around a rotation. *)
Lemma submission_accepted_once_witness :
  ∃ s3, (submission first_secret "ip" body true 2000 2000 armed_store).1 =
    Ok {| ap_probeResultId := "u1"; ap_receivedAt := toISOString 2000; ap_replayed := false |} ∧
  submission second_secret "ip" body true 4000 4000 rearmed_store =
    (Ok {| ap_probeResultId := "u1"; ap_receivedAt := toISOString 2000; ap_replayed := true |}, s3) ∧
  same_database rearmed_store s3.
Proof.
  destruct (submission_accepted_once plain_uuid AgentExamples.any_text AgentExamples.any_text
    HealthExamples.cycle_hash id 5 AccountExamples.text_mac id "api" probe_pepper limits HealthExamples.plain_uuid_inj
    armed_store first_secret "a" "ip" body the_data (HealthExamples.report "a" "r1" 1000)
    (HealthExamples.report "a" "r1" 1000) true 2000 2000 armed_reachable first_authentic body_parsed body_recorded
    body_clean) as (s1 & Hrun & Hagain).
  - intros rid row Hrow. destruct (HealthExamples.no_rows (h_results (pb_health armed_store)) rid row ltac:(by vm_compute) Hrow).
  - exact (proj1 (Z.leb_le 1000 2000) eq_refl).
  - apply passing_when. computed.
  - assert (Hs1 : s1 = submitted_store) by (unfold submitted_store; by rewrite Hrun).
    destruct (Hagain rearmed_store second_secret "ip"%string true 4000 4000) as (s3 & Hrun3 & Hsame).
    + rewrite Hs1. apply rtc_once. exact rearmed_step.
    + exact second_authentic.
    + apply passing_when. computed.
    + exists s3. split; [|split; [|exact Hsame]].
      * rewrite Hrun. computed.
      * rewrite Hrun3. computed.
Defined.

(** The first secret is dead then. *)
Lemma replaced_secret_is_dead_witness :
  ¬ ∃ a s3, submission first_secret "ip" body true 4000 4000 rearmed_store = (Ok a, s3).
Proof.
  intros (a & s3 & Ha).
  assert (Hauth : authentic submitted_store first_secret "a").
  { apply (authentic_when submitted_store first_secret "u0" (credential_of first_secret 500)); computed. }
  revert Ha. apply (replaced_secret_is_dead plain_uuid AgentExamples.any_text AgentExamples.any_text
    HealthExamples.cycle_hash id 5 AccountExamples.text_mac id "api" probe_pepper limits
    submitted_store first_secret "a" 3000 rearmed_store rearmed_store submitted_reachable Hauth).
  - left. exists second_secret, {| is_credentialId := "u2"; is_secret := second_secret |}. computed.
  - apply rtc_refl.
Defined.

Definition the_result : ProbeResult := new_result (HealthExamples.report "a" "r1" 1000) "asn-1" 2000.
Lemma results_are_submitted_witness :
  submitted plain_uuid AgentExamples.any_text AgentExamples.any_text HealthExamples.cycle_hash id 5
    AccountExamples.text_mac id "api" probe_pepper limits rearmed_store "u1" the_result.
Proof. apply results_are_submitted; [exact rearmed_reachable|computed]. Defined.

Lemma probes_refine_health_witness :
  health_reachable plain_uuid AgentExamples.any_text HealthExamples.cycle_hash id 5 (pb_health rearmed_store) ∧
  ∀ id1 id2 c1 c2, pb_credentials rearmed_store !! id1 = Some c1 → pb_credentials rearmed_store !! id2 = Some c2 →
    pr_probeSourceId c1 = pr_probeSourceId c2 → pr_revokedAt c1 = None → pr_revokedAt c2 = None → id1 = id2.
Proof.
  split; [|intros id1 id2 c1 c2].
  - exact (proj1 (probes_refine_health plain_uuid AgentExamples.any_text AgentExamples.any_text
      HealthExamples.cycle_hash id 5 AccountExamples.text_mac id "api" probe_pepper limits
      rearmed_store "u0" "u0" (credential_of first_secret 500) (credential_of first_secret 500) rearmed_reachable)).
  - exact (proj2 (probes_refine_health plain_uuid AgentExamples.any_text AgentExamples.any_text
      HealthExamples.cycle_hash id 5 AccountExamples.text_mac id "api" probe_pepper limits
      rearmed_store id1 id2 c1 c2 rearmed_reachable)).
Defined.
