(* ===== verification/SafeLoggerSafety.v ===== *)
(** * What the log may contain

    Whatever is logged, pino's method is handed clean trees: string values that
    are not sensitive (or the texts of the bigints and dates that were logged), no
    value but a safe aggregate under a secret key, requests, responses and errors
    as their projections; not deeper than the limit and not larger than the
    objects that are logged.  A child of a logger whose bindings cannot be
    sanitized hands on minimal records only.  Keys are not examined by the code,
    and what pino makes of its arguments is not part of the model. *)

From Stdlib Require Import QArith.
From stdpp Require Import gmap pretty.
From S2P Require Import Prelude.
From S2P Require Import Keeps.
From S2P Require Import Json.
From S2P Require Import Regex.
From S2P Require Import XrayAccess.
From S2P Require Import SafeLogger.
From S2P Require AgentExamples.
Open Scope Z_scope.

(** ** Strings that are not sensitive *)

Lemma drop_white_sub s c : c ∈ drop_white s → c ∈ s.
Proof. induction s as [|d s IH]; simpl; [done|]. destruct (is_white d); [|done]. right. auto. Qed.
Lemma trim_sub s c : c ∈ js_trim s → c ∈ s.
Proof. unfold js_trim. rewrite elem_of_reverse. intros Hc%drop_white_sub. rewrite elem_of_reverse in Hc.
  by apply drop_white_sub. Qed.

(** The letters, upper and lower case. *)
Definition letters : jstring := (Z.of_nat <$> seq 65 26) ++ (Z.of_nat <$> seq 97 26).

Section strings.
Context (isIP : jstring → Z).
(** An address has a dot or a colon. *)
Context (isIP_text : ∀ s, isIP s ≠ 0 → 46 ∈ s ∨ 58 ∈ s).

Lemma not_an_address s : 46 ∉ s → 58 ∉ s → isIP s = 0.
Proof using isIP_text. intros Hd Hc. destruct (decide (isIP s = 0)) as [|Hne]; [done|]. destruct (isIP_text s Hne); done. Qed.

Lemma letters_not_sensitive s :
  Forall (λ c, c ∈ letters) s → (length s < 43)%nat → containsSensitiveString isIP s = false.
Proof using isIP_text.
  intros Hs Hlen. rewrite Forall_forall in Hs.
  assert (Hno : 46 ∉ s ∧ 58 ∉ s).
  { split; intros Hin%Hs; revert Hin; by refine (bool_decide_eq_false_1 (_ ∈ letters) _). }
  destruct Hno as [Hdot Hcolon].
  assert (Htrim : ∀ c, c ∈ js_trim s → c ∈ letters) by (intros c Hc%trim_sub; auto).
  pose proof (proj2 (Forall_forall _ _) Hs) as Hs'. pose proof (proj2 (Forall_forall _ _) Htrim) as Ht'.
  unfold containsSensitiveString, containsIpv6. simpl existsb.
  rewrite not_an_address by (intros ?%trim_sub; done).
  rewrite !(match_all_none s) by (done || by eapply test_blocked).
  rewrite (test_short s PLATFORM_OPAQUE_SECRET_PATTERN) by done.
  rewrite !(test_blocked letters s) by done.
  by rewrite (test_blocked letters (js_trim s)) by done.
Qed.

Lemma error_not_sensitive : containsSensitiveString isIP (units "Error") = false.
Proof using isIP_text.
  apply letters_not_sensitive; [|simpl; lia]. by refine (bool_decide_unpack _ _).
Qed.
Lemma method_not_sensitive m : test m method_pattern = true → containsSensitiveString isIP m = false.
Proof using isIP_text.
  intros (i & j & _ & Hd)%test_spec; [|done]. destruct Hd as (a & [-> <-] & b & Hr & e & [-> <-] & Hj).
  simpl in Hj. destruct Hr as (k & Hk & Hmax & Hit). simpl in Hmax. subst j.
  assert (Hall : ∀ k i j, iterate (denote m (chars [upper])) k i j → j = (i + k)%nat ∧
    ∀ p, (i ≤ p < j)%nat → ∃ c, m !! p = Some c ∧ in_class (one_of [upper]) c = true).
  { clear. induction k as [|k IH]; intros i j; simpl; [intros <-; split; [lia|intros; lia]|].
    intros (n & (c & Hc & Hin & ->) & Hit). apply IH in Hit as [-> Hp]. split; [lia|].
    intros p Hp'. destruct (decide (p = i)) as [->|]; [eauto|apply Hp; lia]. }
  apply Hall in Hit as [Hlen Hp]. apply letters_not_sensitive; [|lia].
  apply Forall_lookup_2. intros p c Hc. pose proof (lookup_lt_Some _ _ _ Hc).
  destruct (Hp p ltac:(lia)) as (c' & Hc' & Hin). assert (c' = c) as -> by congruence.
  unfold in_class in Hin. simpl in Hin. rewrite orb_false_r in Hin.
  unfold letters. apply elem_of_app. left. apply list_elem_of_fmap. exists (Z.to_nat c).
  split; [lia|]. apply list_elem_of_In, in_seq. lia.
Qed.
Lemma sanitized_not_sensitive s :
  sanitizeString isIP s = SAFE_LOG_CENSOR ∨ containsSensitiveString isIP (sanitizeString isIP s) = false.
Proof. unfold sanitizeString. destruct (containsSensitiveString isIP s) eqn:Hs; [by left|by right]. Qed.
End strings.

(** ** How large and deep a tree becomes *)

Fixpoint nodes (o : out) : nat :=
  match o with
  | OArray l => S (foldr (λ e n, match e with Some o => nodes o | None => 0 end + n)%nat 0%nat l)
  | OObject l => S (foldr (λ m n, nodes m.2 + n)%nat 0%nat l)
  | _ => 1
  end.
Fixpoint depth (o : out) : nat :=
  match o with
  | OArray l => S (foldr (λ e n, match e with Some o => depth o | None => 0 end `max` n)%nat 0%nat l)
  | OObject l => S (foldr (λ m n, depth m.2 `max` n)%nat 0%nat l)
  | _ => 1
  end.

Section sizes.
Context (h : heap).

(** The entries of an object, and of a set of objects. *)
Definition width (l : loc) : nat :=
  match ob_kind (object_of h l) with
  | PlainObject => length (ob_own (object_of h l))
  | ArrayObject elements => length elements
  | _ => 0
  end.
Definition total (l : list nat) : nat := foldr Nat.add 0%nat l.
Definition entries_of (X : gset loc) : nat := total (width <$> elements X).

Lemma total_cons n l : total (n :: l) = (n + total l)%nat.
Proof. done. Qed.
Lemma total_app (l k : list nat) : total (l ++ k) = (total l + total k)%nat.
Proof. induction l as [|n l IH]; simpl; [done|]. rewrite IH. lia. Qed.
Lemma total_permutation (l k : list nat) : l ≡ₚ k → total l = total k.
Proof. induction 1; simpl; lia. Qed.

Lemma entries_union X Y : X ## Y → entries_of (X ∪ Y) = (entries_of X + entries_of Y)%nat.
Proof.
  intros Hd. unfold entries_of. rewrite <- total_app, <- fmap_app. apply total_permutation.
  by rewrite (elements_disj_union X Y Hd).
Qed.
Lemma entries_subset X Y : X ⊆ Y → (entries_of X ≤ entries_of Y)%nat.
Proof.
  intros Hs. assert (HY : Y = X ∪ Y ∖ X) by (by apply union_difference_L).
  rewrite HY, entries_union by set_solver. lia.
Qed.
(** There is nothing outside the heap. *)
Lemma entries_outside X : X ## dom h → entries_of X = 0%nat.
Proof.
  intros Hd. unfold entries_of. assert (Hw : ∀ l, l ∈ elements X → width l = 0%nat).
  { intros l Hl%elem_of_elements. unfold width, object_of. destruct (h !! l) as [x|] eqn:Hx; [|done].
    apply elem_of_dom_2 in Hx. set_solver. }
  induction (elements X) as [|l ls IH]; [done|]. rewrite fmap_cons, total_cons, Hw by left.
  simpl. apply IH. intros l' Hl'. apply Hw. by right.
Qed.
Lemma entries_between X Y Z : X ⊆ Y → Y ⊆ Z → entries_of (Z ∖ X) = (entries_of (Y ∖ X) + entries_of (Z ∖ Y))%nat.
Proof.
  intros H1 H2. rewrite <- entries_union by set_solver. f_equal. apply set_eq. intros x.
  destruct (decide (x ∈ Y)); set_solver.
Qed.
Lemma entries_first l s s' : l ∉ s → {[l]} ∪ s ⊆ s' → entries_of (s' ∖ s) = (width l + entries_of (s' ∖ ({[l]} ∪ s)))%nat.
Proof.
  intros Hl Hs. rewrite (entries_between s ({[l]} ∪ s) s') by set_solver. f_equal.
  replace (({[l]} ∪ s) ∖ s) with ({[l]} : gset loc) by set_solver.
  unfold entries_of. rewrite elements_singleton. simpl. lia.
Qed.

(** A computation that expands objects it has not seen, and whose result is no
    larger than they are. *)
Definition grows_within {A} (size : A → nat) (base : nat) (m : LogM A) : Prop :=
  ∀ s a s', m s = (Ok a, s') → s ⊆ s' ∧ (size a ≤ base + 2 * entries_of (s' ∖ s))%nat.

Lemma grows_leaf {A} (size : A → nat) base (a : A) s : (size a ≤ base)%nat →
  s ⊆ s ∧ (size a ≤ base + 2 * entries_of (s ∖ s))%nat.
Proof. intros Ha. split; [done|lia]. Qed.

Lemma mapM_grows {A B} (size : B → nat) base (f : A → LogM B) l :
  (∀ x, grows_within size base (f x)) →
  grows_within (λ bs, total (size <$> bs)) (base * length l) (mapM f l).
Proof.
  intros Hf. induction l as [|x l IH]; simpl; intros s bs s'.
  { intros [= <- <-]. apply grows_leaf. simpl. lia. }
  intros (b & s1 & H1 & H2)%bind_ok_inv. apply bind_ok_inv in H2 as (bs' & s2 & H2 & [= <- <-]).
  apply Hf in H1 as [Hs1 Hb]. apply IH in H2 as [Hs2 Hbs]. split; [by etrans|].
  rewrite (entries_between s s1 s2) by done. rewrite fmap_cons, total_cons.
  cbn [length]. rewrite Nat.mul_succ_r. lia.
Qed.

End sizes.

Lemma nodes_array es : nodes (OArray es) = S (total ((λ e, from_option nodes 0%nat e) <$> es)).
Proof. simpl. f_equal. induction es as [|[o|] es IH]; simpl; [done|f_equal; exact IH|exact IH]. Qed.
Lemma nodes_object ms : nodes (OObject ms) = S (total ((λ m : jstring * out, nodes m.2) <$> ms)).
Proof. simpl. f_equal. induction ms as [|m ms IH]; simpl; [done|f_equal; exact IH]. Qed.
Lemma mapM_same {A B} (f : A → LogM B) l s bs s' :
  (∀ x, keeps eq (f x)) → mapM f l s = (Ok bs, s') → s' = s ∧ length bs = length l.
Proof.
  intros Hf Hr. split.
  - symmetry. by apply (keeps_run eq) in Hr; [|apply (keeps_mapM eq)].
  - revert s bs Hr. induction l as [|x l IH]; intros s bs; simpl; [by intros [= <- <-]|].
    intros (b & s1 & _ & H2)%bind_ok_inv. apply bind_ok_inv in H2 as (bs' & s2 & H2 & [= <- <-]).
    simpl. f_equal. by eapply IH.
Qed.

(** ** Clean trees *)

Section clean.
Context (isIP : jstring → Z) {Dates : DateStrings}.
Context (isIP_text : ∀ s, isIP s ≠ 0 → 46 ∈ s ∨ 58 ∈ s).

(** The texts of the bigints and dates that are logged: they pass as they are. *)
Context (told : jstring → Prop).
Definition value_told (v : value) : Prop :=
  match v with VBigInt z => told (units (pretty z)) | _ => True end.
Record heap_told (h : heap) : Prop := {
  ht_dates : ∀ l t, ob_kind (object_of h l) = DateObject (Some t) → told (units (toISOString t));
  ht_own : ∀ l k v, (k, Holds v) ∈ ob_own (object_of h l) → value_told v;
  ht_elements : ∀ l es v, ob_kind (object_of h l) = ArrayObject es → Some (Holds v) ∈ es → value_told v;
}.

(** A string value handed to the log: not sensitive, or the censor, or the text
    of a bigint or a date. *)
Definition clean_text (s : jstring) : Prop :=
  containsSensitiveString isIP s = false ∨ s = SAFE_LOG_CENSOR ∨ told s.

Definition projected_request (o : out) : Prop :=
  o = OObject [] ∨ ∃ m, test m method_pattern = true ∧ o = OObject [(units "method", OString m)].
Definition projected_response (o : out) : Prop :=
  o = OObject [] ∨ ∃ q, Q_int q ≠ None ∧ o = OObject [(units "statusCode", ONumber (Finite q))].
Definition projected_error (o : out) : Prop :=
  ∃ s, (s = SAFE_LOG_CENSOR ∨ containsSensitiveString isIP s = false) ∧ o = type_record s.

(** What may be told under a secret name. *)
Definition aggregate (key : jstring) (o : out) : Prop :=
  match o with
  | OBool _ => True
  | ONumber (Finite _) => ends_with (units "count") (normalizeKey key) = true
  | OString _ => ends_with (units "outcome") (normalizeKey key) = true
  | _ => False
  end.

(** What may stand under a key. *)
Definition named_well (key : option jstring) (o : out) : Prop :=
  if key_is key ["req"; "request"] then projected_request o
  else if key_is key ["res"; "response"] then projected_response o
  else if key_is key ["err"; "error"] then projected_error o
  else match key with
       | Some k => secret_name k = true → o = censored ∨ aggregate k o
       | None => True
       end.

Fixpoint clean (o : out) : Prop :=
  match o with
  | ONull | OBool _ | ONumber _ => True
  | OString s => clean_text s
  | OArray l => foldr (λ e P, match e with Some o => clean o | None => True end ∧ P) True l
  | OObject l => foldr (λ m P, named_well (Some m.1) m.2 ∧ clean m.2 ∧ P) True l
  end.


Lemma censored_clean : clean censored.
Proof. right. by left. Qed.
Lemma sanitized_clean s : clean (OString (sanitizeString isIP s)).
Proof. destruct (sanitized_not_sensitive isIP s) as [->|Hs]; [apply censored_clean|by left]. Qed.

(** The names of the projections are no secrets. *)
Lemma plain_name k o : secret_name k = false → key_is (Some k) ["req"; "request"] = false →
  key_is (Some k) ["res"; "response"] = false → key_is (Some k) ["err"; "error"] = false → named_well (Some k) o.
Proof. intros Hk H1 H2 H3. unfold named_well. rewrite H1, H2, H3. by rewrite Hk. Qed.
Lemma method_name o : named_well (Some (units "method")) o.
Proof. by apply plain_name. Qed.
Lemma status_name o : named_well (Some (units "statusCode")) o.
Proof. by apply plain_name. Qed.
Lemma type_name o : named_well (Some (units "type")) o.
Proof. by apply plain_name. Qed.

Lemma request_clean o : projected_request o → clean o.
Proof using isIP_text.
  intros [->|(m & Hm & ->)]; [done|]. split_and!; [apply method_name| |done].
  left. by apply method_not_sensitive.
Qed.
Lemma response_clean o : projected_response o → clean o.
Proof. intros [->|(q & _ & ->)]; [done|]. by split_and!; [apply status_name|..]. Qed.
Lemma error_clean o : projected_error o → clean o.
Proof.
  intros (s & Hs & ->). split_and!; [apply type_name| |done].
  destruct Hs as [->|Hs]; [apply censored_clean|by left].
Qed.

(** ** The projections *)

Context (h : heap).

Lemma from_slot_same x : keeps eq (from_slot x).
Proof. unfold from_slot. keeps. Qed.
Hint Resolve from_slot_same : keeps.
Lemma read_same r key : keeps eq (read h r key).
Proof. unfold read. keeps. Qed.
Hint Resolve read_same : keeps.
Lemma read_or_raw_same r key : keeps eq (read_or_raw h r key).
Proof. unfold read_or_raw. keeps. Qed.
Hint Resolve read_or_raw_same : keeps.

Lemma http_method_some v m : http_method v = Some m → test m method_pattern = true.
Proof. unfold http_method. destruct v; try done. destruct (test _ _) eqn:Ht; [|done]. by intros [= <-]. Qed.
Lemma http_status_some v q : http_status v = Some q → Q_int q ≠ None.
Proof.
  unfold http_status. destruct v as [| | |[q'|]| | | | |]; try done. destruct (Q_int q') eqn:Hq; simpl; [|done].
  intros [= <-]. by rewrite Hq.
Qed.

Lemma projectRequest_ok v s o s' : projectRequest h v s = (Ok o, s') → s' = s ∧ projected_request o.
Proof.
  unfold projectRequest. intros Hr. ok_inv Hr. apply (keeps_run eq) in Hrun as <-; [|apply read_or_raw_same]. split; [done|]. destruct (http_method _) as [m|] eqn:Hm; [right|by left].
  exists m. split; [by eapply http_method_some|done].
Qed.
Lemma projectResponse_ok v s o s' : projectResponse h v s = (Ok o, s') → s' = s ∧ projected_response o.
Proof.
  unfold projectResponse. intros Hr. ok_inv Hr. apply (keeps_run eq) in Hrun as <-; [|apply read_or_raw_same]. split; [done|]. destruct (http_status _) as [q|] eqn:Hq; [right|by left].
  exists q. split; [by eapply http_status_some|done].
Qed.
Lemma type_record_projected s : projected_error (type_record (sanitizeString isIP s)).
Proof. exists (sanitizeString isIP s). split; [apply sanitized_not_sensitive|done]. Qed.
Lemma projectError_same v : keeps eq (projectError isIP h v).
Proof. unfold projectError. keeps. Qed.
Lemma projectError_ok v s o s' : projectError isIP h v s = (Ok o, s') → s' = s ∧ projected_error o.
Proof using isIP_text.
  intros Hr. pose proof (projectError_same v s) as Hs. rewrite Hr in Hs. simpl in Hs. subst s'. split; [done|].
  unfold projectError in Hr.
  set (other := _ ≫= _) in Hr. assert (Hother : ∀ s o s', other s = (Ok o, s') → projected_error o).
  { clear Hr. intros s1 o1 s1' Hr. unfold other in Hr. ok_inv Hr. destruct a0; try apply type_record_projected;
      exists (units "Error"); (split; [right; by apply error_not_sensitive|done]). }
  destruct v; try exact (Hother _ _ _ Hr).
  destruct (ob_kind _) as [| |[name|]| |]; try exact (Hother _ _ _ Hr); [|done].
  injection Hr as <-. apply type_record_projected.
Qed.

(** ** [sanitizeValue] *)

Lemma name_of_value key v o :
  from_option (λ k, isSecretKey k v) false key = false →
  (∀ k, isSafeAggregate (normalizeKey k) v = true → aggregate k o) →
  match key with Some k => secret_name k = true → o = censored ∨ aggregate k o | None => True end.
Proof.
  destruct key as [k|]; simpl; [|done]. unfold isSecretKey. intros Hk Ha Hn. right.
  apply Ha. destruct (isSafeAggregate _ v); [done|congruence].
Qed.

Lemma mapM_each {A B} (Q : B → Prop) (f : A → LogM B) l s bs s' :
  (∀ x s b s', x ∈ l → f x s = (Ok b, s') → Q b) → mapM f l s = (Ok bs, s') → Forall Q bs.
Proof.
  revert s bs. induction l as [|x l IH]; intros s bs Hf; simpl; [by intros [= <- <-]|].
  intros (b & s1 & H1 & H2)%bind_ok_inv. apply bind_ok_inv in H2 as (bs' & s2 & H2 & [= <- <-]).
  constructor; [eapply Hf; [left|done]|]. eapply IH; [|done]. intros y sy c sy' Hy. apply Hf. by right.
Qed.

Lemma expand_ok l m s o s' :
  expand l m s = (Ok o, s') → o = censored ∧ s' = s ∨ l ∉ s ∧ m ({[l]} ∪ s) = (Ok o, s').
Proof.
  unfold expand. rewrite bind_get. case_bool_decide; [intros [= <- <-]; by left|]. rewrite bind_modify.
  by right.
Qed.

(** The objects whose entries are expanded. *)
Definition expand_object (budget : nat) (l : loc) : LogM out :=
  entries ← mapM (λ kx : jstring * slot, entry ← from_slot kx.2; mret (kx.1, entry)) (ob_own (object_of h l));
  members ← mapM (λ kv : jstring * value,
              o ← sanitizeValue isIP h budget kv.2 (Some kv.1); mret (kv.1, o)) entries;
  mret (OObject members).
Definition expand_array (budget : nat) (elements : list (option slot)) : LogM out :=
  es ← mapM (λ element : option slot,
         match element with
         | None => mret None
         | Some x => entry ← from_slot x; o ← sanitizeValue isIP h budget entry None; mret (Some o)
         end) elements;
  mret (OArray es).

(** No array and no object. *)
Definition leaf (o : out) : Prop := match o with OArray _ | OObject _ => False | _ => True end.

(** What becomes of an object. *)
Lemma object_cases budget l key s o s' :
  sanitizeValue isIP h (S budget) (VObject l) key s = (Ok o, s') →
  (s' = s ∧ named_well key o ∧ (heap_told h → clean o) ∧
   (leaf o ∨ projected_request o ∨ projected_response o ∨ projected_error o)) ∨
  from_option (λ k, isSecretKey k (VObject l)) false key = false ∧ key_is key ["req"; "request"] = false ∧
  key_is key ["res"; "response"] = false ∧ key_is key ["err"; "error"] = false ∧ l ∉ s ∧
  (ob_kind (object_of h l) = PlainObject ∧ expand_object budget l ({[l]} ∪ s) = (Ok o, s') ∨
   ∃ elements, ob_kind (object_of h l) = ArrayObject elements ∧
     expand_array budget elements ({[l]} ∪ s) = (Ok o, s')).
Proof using isIP_text.
  cbn [sanitizeValue]. unfold named_well.
  destruct (key_is key ["req"; "request"]).
  { intros [-> Hp]%projectRequest_ok. left. split_and!; [done..|intros _; by apply request_clean|auto]. }
  destruct (key_is key ["res"; "response"]).
  { intros [-> Hp]%projectResponse_ok. left. split_and!; [done..|intros _; by apply response_clean|auto]. }
  destruct (key_is key ["err"; "error"]).
  { intros [-> Hp]%projectError_ok. left. split_and!; [done..|intros _; by apply error_clean|auto]. }
  destruct (from_option (λ k, isSecretKey k (VObject l)) false key) eqn:Hsecret.
  { intros [= <- <-]. left. split_and!; [done|destruct key; auto|intros _; apply censored_clean|by left]. }
  assert (Hname : match key with Some k => secret_name k = true → o = censored ∨ aggregate k o | None => True end)
    by (by apply (name_of_value _ (VObject l))).
  intros (b & s1 & H1 & Hr)%bind_ok_inv.
  assert (Hs1 : ∀ s b s', isHttpRequestLike h (VObject l) s = (Ok b, s') → s' = s).
  { intros s2 b2 s2' Hx. apply (keeps_run eq) in Hx; [done|]. unfold isHttpRequestLike. keeps. }
  apply Hs1 in H1 as ->. destruct b.
  { apply projectRequest_ok in Hr as [-> Hp]. left. split_and!; [done..|intros _; by apply request_clean|auto]. }
  apply bind_ok_inv in Hr as (b & s2 & H2 & Hr).
  assert (Hs2 : ∀ s b s', isHttpResponseLike h (VObject l) s = (Ok b, s') → s' = s).
  { intros s3 b2 s2' Hx. apply (keeps_run eq) in Hx; [done|]. unfold isHttpResponseLike. keeps. }
  apply Hs2 in H2 as ->. destruct b.
  { apply projectResponse_ok in Hr as [-> Hp]. left. split_and!; [done..|intros _; by apply response_clean|auto]. }
  destruct (ob_kind (object_of h l)) as [|elements|name|[t|]|] eqn:Hkind.
  - apply expand_ok in Hr as [[-> ->]|[Hl Hr]]; [left; split_and!; [done..|intros _; apply censored_clean|by left]|right].
    split_and!; [done..|]. by left.
  - apply expand_ok in Hr as [[-> ->]|[Hl Hr]]; [left; split_and!; [done..|intros _; apply censored_clean|by left]|right].
    split_and!; [done..|]. right. by exists elements.
  - apply projectError_ok in Hr as [-> Hp]. left. split_and!; [done..|intros _; by apply error_clean|auto].
  - injection Hr as <- <-. left. split_and!; [done..| |by left]. intros Hh. right. right. exact (ht_dates _ Hh l t Hkind).
  - done.
  - injection Hr as <- <-. left. split_and!; [done..|intros _; apply censored_clean|by left].
Qed.

(** What becomes of anything else, and of objects at the limit. *)
Lemma leaf_cases budget v key s o s' :
  (∀ l, v ≠ VObject l) ∨ budget = O →
  sanitizeValue isIP h budget v key s = (Ok o, s') →
  s' = s ∧ named_well key o ∧ (value_told v → clean o) ∧
  (leaf o ∨ projected_request o ∨ projected_response o ∨ projected_error o).
Proof using isIP_text.
  intros Hv Hr. assert (Hr' : (
    if key_is key ["req"; "request"] then projectRequest h v
    else if key_is key ["res"; "response"] then projectResponse h v
    else if key_is key ["err"; "error"] then projectError isIP h v
    else if from_option (λ k, isSecretKey k v) false key then mret censored
    else match v with
         | VString s => mret (OString (sanitizeString isIP s))
         | VNull => mret ONull
         | VNumber n => mret (ONumber n)
         | VBool b => mret (OBool b)
         | VBigInt z => mret (OString (units (pretty z)))
         | _ => mret censored
         end) s = (Ok o, s')).
  { revert Hr. destruct Hv as [Hv| ->]; [|by destruct v].
    destruct budget; destruct v as [| | | | | | | |l]; by try destruct (Hv l). }
  clear Hr. revert Hr'. unfold named_well.
  destruct (key_is key ["req"; "request"]).
  { intros [-> Hp]%projectRequest_ok. split_and!; [done..|intros _; by apply request_clean|auto]. }
  destruct (key_is key ["res"; "response"]).
  { intros [-> Hp]%projectResponse_ok. split_and!; [done..|intros _; by apply response_clean|auto]. }
  destruct (key_is key ["err"; "error"]).
  { intros [-> Hp]%projectError_ok. split_and!; [done..|intros _; by apply error_clean|auto]. }
  destruct (from_option (λ k, isSecretKey k v) false key) eqn:Hsecret.
  { intros [= <- <-]. split_and!; [done|destruct key; auto|intros _; apply censored_clean|by left]. }
  intros Hr. assert (Hname : ∀ o', (∀ k, isSafeAggregate (normalizeKey k) v = true → aggregate k o') →
    match key with Some k => secret_name k = true → o' = censored ∨ aggregate k o' | None => True end)
    by (intros o'; by apply name_of_value).
  destruct v as [| |b|n|t|z| | |l]; injection Hr as <- <-; (split; [done|]); (split; [apply Hname|split; [|by left]]).
  all: try (intros _; apply censored_clean); try (by intros k); try done.
  - intros k. by destruct n.
  - intros _. apply sanitized_clean.
  - intros Hz. right. by right.
Qed.



(** ** The tree [sanitizeValue] makes *)

Lemma simple_nodes o :
  leaf o ∨ projected_request o ∨ projected_response o ∨ projected_error o → (nodes o ≤ 2 ∧ depth o ≤ 2)%nat.
Proof.
  intros [Ho|[[->|(m & _ & ->)]|[[->|(q & _ & ->)]|(t & _ & ->)]]]; simpl; try lia.
  destruct o; simpl in *; done || lia.
Qed.

Lemma sanitizeValue_grows budget : ∀ v key, grows_within h nodes 2 (sanitizeValue isIP h budget v key).
Proof using isIP_text told.
  induction budget as [|budget IH]; intros v key s o s' Hr.
  { apply leaf_cases in Hr as (-> & _ & _ & [Ho Hd]%simple_nodes); [|by right]. by apply grows_leaf. }
  destruct v as [| | | | | | | |l];
    try by (apply leaf_cases in Hr as (-> & _ & _ & [Ho Hd]%simple_nodes); [by apply grows_leaf|by left]).
  apply object_cases in Hr as [(-> & _ & _ & [Ho Hd]%simple_nodes)|(_ & _ & _ & _ & Hl & Hrest)]; [by apply grows_leaf|].
  destruct Hrest as [[Hk Hr]|(elements & Hk & Hr)].
  - unfold expand_object in Hr. ok_inv Hr. apply mapM_same in Hrun as [-> Hlen]; [|intros x; keeps].
    apply (mapM_grows h (λ m : jstring * out, nodes m.2) 2) in Hrun0 as [Hs Hn].
    2:{ intros kv sx m sx' Hm. cbv beta in Hm. ok_inv Hm. simpl. by eapply IH. }
    split; [set_solver|]. rewrite (entries_first h l), nodes_object by done. unfold width. rewrite Hk. lia.
  - unfold expand_array in Hr. ok_inv Hr. apply (mapM_grows h (λ e, from_option nodes 0%nat e) 2) in Hrun as [Hs Hn].
    2:{ intros [x|] sx e sx' He; cbv beta in He; [|injection He as <- <-; by apply grows_leaf; simpl; lia].
        ok_inv He. simpl. apply (keeps_run eq) in Hrun0 as <-; [|apply from_slot_same]. by eapply IH. }
    split; [set_solver|]. rewrite (entries_first h l), nodes_array by done. unfold width. rewrite Hk. lia.
Qed.

Lemma depth_array es n : Forall (λ e, (from_option depth 0 e ≤ n)%nat) es → (depth (OArray es) ≤ S n)%nat.
Proof. simpl. induction 1 as [|[o|] es Ho _ IH]; simpl in *; lia. Qed.
Lemma depth_object ms n : Forall (λ m : jstring * out, (depth m.2 ≤ n)%nat) ms → (depth (OObject ms) ≤ S n)%nat.
Proof. simpl. induction 1 as [|m ms Ho _ IH]; simpl in *; lia. Qed.

Lemma sanitizeValue_depth budget : ∀ v key s o s',
  sanitizeValue isIP h budget v key s = (Ok o, s') → (depth o ≤ budget + 2)%nat.
Proof using isIP_text told.
  induction budget as [|budget IH]; intros v key s o s' Hr.
  { apply leaf_cases in Hr as (_ & _ & _ & [Ho Hd]%simple_nodes); [|by right]. lia. }
  destruct v as [| | | | | | | |l];
    try by (apply leaf_cases in Hr as (_ & _ & _ & [Ho Hd]%simple_nodes); [lia|by left]).
  apply object_cases in Hr as [(_ & _ & _ & [Ho Hd]%simple_nodes)|(_ & _ & _ & _ & _ & Hrest)]; [lia|].
  destruct Hrest as [[_ Hr]|(elements & _ & Hr)].
  - unfold expand_object in Hr. ok_inv Hr. apply depth_object.
    eapply mapM_each; [|exact Hrun0]. intros kv sx m sx' _ Hm. cbv beta in Hm. ok_inv Hm. simpl. by eapply IH.
  - unfold expand_array in Hr. ok_inv Hr. apply depth_array. eapply mapM_each; [|exact Hrun].
    intros [x|] sx e sx' _ He; cbv beta in He; [|injection He as <- <-; simpl; lia]. ok_inv He. by eapply IH.
Qed.
End clean.

(** ** What the logger hands to pino *)


Section logger.
Context (isIP : jstring → Z) {Dates : DateStrings}.
Context (isIP_text : ∀ s, isIP s ≠ 0 → 46 ∈ s ∨ 58 ∈ s).

Section told.
Context (told : jstring → Prop).

End told.

Lemma sanitize_argument_depth h iv s o s' :
  sanitize_argument isIP h iv s = (Ok o, s') → (depth o ≤ 14)%nat.
Proof using isIP_text.
  unfold sanitize_argument. destruct (_ && _); intros Hr.
  - ok_inv Hr. apply (projectError_ok isIP isIP_text) in Hrun as [-> (t & _ & ->)]. simpl. lia.
  - by eapply (sanitizeValue_depth isIP isIP_text (λ _, True)) in Hr.
Qed.
Lemma sanitize_argument_grows h iv : grows_within h nodes 3 (sanitize_argument isIP h iv).
Proof using isIP_text.
  unfold sanitize_argument. destruct (_ && _); intros s o s' Hr.
  - ok_inv Hr. apply (projectError_ok isIP isIP_text) in Hrun as [-> (t & _ & ->)]. apply grows_leaf. simpl. lia.
  - apply (sanitizeValue_grows isIP isIP_text (λ _, True)) in Hr as [Hs Hn]. split; [done|lia].
Qed.

Lemma logMethod_cases h args :
  (∃ os s', mapM (sanitize_argument isIP h) (imap pair args) ∅ = (Ok os, s') ∧ logMethod isIP h args = os) ∨
  logMethod isIP h args = minimalSafeLogArguments.
Proof.
  unfold logMethod, sanitizeLogArguments.
  destruct (mapM (sanitize_argument isIP h) (imap pair args) ∅) as [[os|e] s']; [left|by right].
  by exists os, s'.
Qed.

Lemma logMethod_depth h args : Forall (λ o, (depth o ≤ 14)%nat) (logMethod isIP h args).
Proof using isIP_text.
  destruct (logMethod_cases h args) as [(os & s' & Hr & ->)| ->].
  - eapply mapM_each; [|exact Hr]. intros iv s o s1 _. apply sanitize_argument_depth.
  - apply Forall_cons. split; [|apply Forall_singleton]; simpl; lia.
Qed.



(** A logger and its children. *)
Definition descendant (family : list (heap * value)) : Logger :=
  foldl (λ logger c, child isIP c.1 logger c.2) createSafeLogger family.




(** What is handed to pino is not deeper than 14 levels and, however the logged
    objects refer to each other, not larger than they are: at most 3 nodes per
    argument, and two per entry of an object of the heap. *)
Theorem log_is_small h args :
  Forall (λ o, depth o ≤ 14)%nat (logMethod isIP h args) ∧
  (total (nodes <$> logMethod isIP h args) ≤ 3 + 3 * length args + 2 * entries_of h (dom h))%nat.
Proof using isIP_text.
  split; [apply logMethod_depth|].
  destruct (logMethod_cases h args) as [(os & s' & Hr & ->)| ->]; [|simpl; lia].
  apply (mapM_grows h nodes 3) in Hr as [_ Hn]; [|apply sanitize_argument_grows].
  rewrite length_imap, difference_empty_L in Hn.
  assert (Hd : entries_of h s' = entries_of h (s' ∩ dom h)).
  { assert (Hs : s' = (s' ∩ dom h) ∪ (s' ∖ dom h)) by (apply set_eq; intros l; destruct (decide (l ∈ dom h)); set_solver).
    assert (Ho : entries_of h (s' ∖ dom h) = 0%nat) by (apply entries_outside; set_solver).
    rewrite Hs at 1. rewrite entries_union by set_solver. lia. }
  pose proof (entries_subset h (s' ∩ dom h) (dom h) ltac:(set_solver)). lia.
Qed.
End logger.

(** ** Loggers that have failed *)

Section failed.
Context (isIP : jstring → Z) {Dates : DateStrings}.

Lemma minimal_object_stays h l b s :
  object_of h l = minimal_object → l ∉ s →
  sanitizeValue isIP h (S b) (VObject l) None s =
    (Ok (OObject [(units "sanitizationFailure", OBool true)]), {[l]} ∪ s).
Proof.
  intros Ho Hl. cbn [sanitizeValue key_is from_option].
  unfold if_then, isHttpRequestLike, isHttpResponseLike, getRecord, read_or_raw, read, properties.
  rewrite Ho. simpl. unfold expand. unfold mbind, M_bind. simpl. rewrite bool_decide_eq_false_2 by done.
  by destruct b.
Qed.
Lemma censor_stays : sanitizeString isIP SAFE_LOG_CENSOR = SAFE_LOG_CENSOR.
Proof. unfold sanitizeString. by destruct (containsSensitiveString isIP SAFE_LOG_CENSOR). Qed.

Lemma force_stays family lg :
  lg_forceMinimalRecord lg = true →
  lg_forceMinimalRecord (foldl (λ logger c, child isIP c.1 logger c.2) lg family) = true.
Proof.
  revert lg. induction family as [|[h v] family IH]; intros lg Hlg; simpl; [done|]. apply IH. unfold child.
  destruct (trySanitizeBindings isIP h v) as [ok bs]. simpl. by rewrite Hlg.
Qed.

(** Once a logger has been given bindings that cannot be sanitized, it and
    all its children hand on the minimal record, whatever they are asked to log. *)
Theorem failed_bindings_minimize family h0 bindings family' h method args :
  (trySanitizeBindings isIP h0 bindings).1 = false → method ∈ SAFE_LOG_METHODS →
  log isIP h (descendant isIP (family ++ (h0, bindings) :: family')) method args = minimalSafeLogArguments.
Proof.
  intros Hfail Hm. unfold log. rewrite bool_decide_eq_true_2 by done.
  unfold descendant. rewrite foldl_app. simpl. rewrite force_stays.
  2:{ unfold child. destruct (trySanitizeBindings _ _ _) as [ok bs]. simpl in *. subst ok. by rewrite orb_true_r. }
  simpl. set (l := fresh _). set (h' := <[l := _]> h).
  assert (Ho : object_of h' l = minimal_object) by (unfold object_of, h'; by rewrite lookup_insert_eq).
  assert (H1 : sanitize_argument isIP h' (0%nat, VObject l) ∅ =
    (Ok (OObject [(units "sanitizationFailure", OBool true)]), {[l]} ∪ ∅)).
  { unfold sanitize_argument, is_error. cbn [fst snd]. rewrite Ho. simpl ob_kind. cbn [Nat.eqb andb].
    apply minimal_object_stays; [done|set_solver]. }
  assert (H2 : ∀ s, sanitize_argument isIP h' (1%nat, VString SAFE_LOG_CENSOR) s = (Ok censored, s)).
  { intros s. unfold sanitize_argument. cbn [fst snd Nat.eqb andb sanitizeValue key_is from_option].
    by rewrite censor_stays. }
  unfold logMethod, sanitizeLogArguments. cbn [imap mapM]. unfold compose.
  rewrite (bind_ok _ _ _ _ _ H1), bind_bind, (bind_ok _ _ _ _ _ (H2 _)). done.
Qed.
End failed.

(** ** Plain data is logged as it is *)

Section plain.
Context (isIP : jstring → Z) {Dates : DateStrings} (h : heap).

(** A key under which a value is neither projected nor censored. *)
Definition ordinary (key : option jstring) (v : value) : Prop :=
  key_is key ["req"; "request"] = false ∧ key_is key ["res"; "response"] = false ∧
  key_is key ["err"; "error"] = false ∧ from_option (λ k, isSecretKey k v) false key = false.

(** Not taken for a request or a response. *)
Definition not_http (l : loc) : Prop :=
  slot_of (units "raw") (properties h l) = None ∧ slot_of (units "method") (properties h l) = None ∧
  slot_of (units "statusCode") (properties h l) = None.

Definition shows (v : value) (o : out) : Prop :=
  match v with
  | VNull => o = ONull
  | VBool b => o = OBool b
  | VNumber n => o = ONumber n
  | VString s => containsSensitiveString isIP s = false ∧ o = OString s
  | _ => False
  end.

(** Data made of the objects of a set, none of them twice, as a tree. *)
Inductive plain : gset loc → value → out → Prop :=
| plain_leaf v o : shows v o → plain ∅ v o
| plain_array l es X os : ob_kind (object_of h l) = ArrayObject es → not_http l →
    plain_elements X es os → l ∉ X → plain ({[l]} ∪ X) (VObject l) (OArray os)
| plain_object l X ms : ob_kind (object_of h l) = PlainObject → not_http l →
    plain_members X (ob_own (object_of h l)) ms → l ∉ X → plain ({[l]} ∪ X) (VObject l) (OObject ms)
with plain_elements : gset loc → list (option slot) → list (option out) → Prop :=
| elements_nil : plain_elements ∅ [] []
| elements_hole X es os : plain_elements X es os → plain_elements X (None :: es) (None :: os)
| elements_cons X Y v o es os : plain X v o → plain_elements Y es os → X ## Y →
    plain_elements (X ∪ Y) (Some (Holds v) :: es) (Some o :: os)
with plain_members : gset loc → list (jstring * slot) → list (jstring * out) → Prop :=
| members_nil : plain_members ∅ [] []
| members_cons X Y k v o kxs ms : plain X v o → ordinary (Some k) v → plain_members Y kxs ms → X ## Y →
    plain_members (X ∪ Y) ((k, Holds v) :: kxs) ((k, o) :: ms).

Scheme plain_mut := Induction for plain Sort Prop
with plain_elements_mut := Induction for plain_elements Sort Prop
with plain_members_mut := Induction for plain_members Sort Prop.

(** The levels of objects in a tree. *)
Fixpoint levels (o : out) : nat :=
  match o with
  | OArray l => S (foldr (λ e n, match e with Some o => levels o | None => 0 end `max` n)%nat 0%nat l)
  | OObject l => S (foldr (λ m n, levels m.2 `max` n)%nat 0%nat l)
  | _ => 0
  end.
Definition levels_of_elements (os : list (option out)) : nat :=
  foldr (λ e n, match e with Some o => levels o | None => 0 end `max` n)%nat 0%nat os.
Definition levels_of_members (ms : list (jstring * out)) : nat := foldr (λ m n, levels m.2 `max` n)%nat 0%nat ms.

Lemma sanitize_leaf v o budget key s :
  shows v o → ordinary key v → sanitizeValue isIP h budget v key s = (Ok o, s).
Proof.
  intros Hv (K1 & K2 & K3 & K4).
  destruct budget; cbn [sanitizeValue]; rewrite K1, K2, K3, K4; destruct v; simpl in Hv; try done; subst; try done;
    destruct Hv as [Hs ->]; unfold sanitizeString; by rewrite Hs.
Qed.

Lemma sanitize_container l budget key s m :
  ordinary key (VObject l) → not_http l → l ∉ s →
  (ob_kind (object_of h l) = PlainObject ∧ m = expand_object isIP h budget l ∨
   ∃ es, ob_kind (object_of h l) = ArrayObject es ∧ m = expand_array isIP h budget es) →
  sanitizeValue isIP h (S budget) (VObject l) key s = m ({[l]} ∪ s).
Proof.
  intros (K1 & K2 & K3 & K4) (R1 & R2 & R3) Hl Hm. cbn [sanitizeValue]. rewrite K1, K2, K3, K4.
  unfold if_then. rewrite (bind_ok _ _ s false s).
  2:{ unfold isHttpRequestLike, getRecord, read_or_raw, read. rewrite R1, R2. done. }
  rewrite (bind_ok _ _ s false s).
  2:{ unfold isHttpResponseLike, getRecord, read_or_raw, read. rewrite R1, R3. done. }
  destruct Hm as [[-> ->]|(es & -> & ->)]; unfold expand; rewrite bind_get, bool_decide_eq_false_2 by done; done.
Qed.

Lemma entries_run kxs X ms s :
  plain_members X kxs ms → ∃ kvs, mapM (λ kx : jstring * slot, entry ← from_slot kx.2; mret (kx.1, entry)) kxs s =
    (Ok kvs, s) ∧ kxs = (λ kv : jstring * value, (kv.1, Holds kv.2)) <$> kvs.
Proof.
  induction 1 as [|X Y k v o kxs ms _ _ _ (kvs & IH & ->) _]; [by exists []|].
  exists ((k, v) :: kvs). split; [|done]. simpl. autorewrite with run. by rewrite (bind_ok _ _ _ _ _ IH).
Qed.

Lemma plain_runs X v o (Hp : plain X v o) : ∀ budget key s,
  (levels o ≤ budget)%nat → ordinary key v → X ## s →
  sanitizeValue isIP h budget v key s = (Ok o, X ∪ s).
Proof.
  induction Hp using plain_mut with
    (P0 := λ X es os _, ∀ budget s, (levels_of_elements os ≤ budget)%nat → X ## s →
      mapM (λ element : option slot,
         match element with
         | None => mret None
         | Some x => entry ← from_slot x; o ← sanitizeValue isIP h budget entry None; mret (Some o)
         end) es s = (Ok os, X ∪ s))
    (P1 := λ X kxs ms _, ∀ budget s kvs, (levels_of_members ms ≤ budget)%nat → X ## s →
      kxs = (λ kv : jstring * value, (kv.1, Holds kv.2)) <$> kvs →
      mapM (λ kv : jstring * value, o ← sanitizeValue isIP h budget kv.2 (Some kv.1); mret (kv.1, o)) kvs s =
        (Ok ms, X ∪ s)).
  - intros budget key t _ Hk _. rewrite (sanitize_leaf v o) by done. by rewrite (left_id_L ∅ (∪)).
  - intros budget key t Hb Hk Hd. destruct budget as [|budget]; [simpl in Hb; lia|].
    rewrite (sanitize_container l budget key t (expand_array isIP h budget es)); [|done|done|set_solver|by right; exists es].
    unfold expand_array. rewrite (bind_ok _ _ _ _ _ (IHHp budget ({[l]} ∪ t) ltac:(simpl in Hb; unfold levels_of_elements; lia) ltac:(set_solver))).
    unfold mret, M_ret. f_equal. set_solver.
  - intros budget key t Hb Hk Hd. destruct budget as [|budget]; [simpl in Hb; lia|].
    rewrite (sanitize_container l budget key t (expand_object isIP h budget l)); [|done|done|set_solver|by left].
    unfold expand_object. destruct (entries_run _ _ _ ({[l]} ∪ t) p) as (kvs & Hr & Hkvs).
    rewrite (bind_ok _ _ _ _ _ Hr).
    rewrite (bind_ok _ _ _ _ _ (IHHp budget ({[l]} ∪ t) kvs ltac:(simpl in Hb; unfold levels_of_members; lia) ltac:(set_solver) Hkvs)).
    unfold mret, M_ret. f_equal. set_solver.
  - intros budget t _ _. simpl. by rewrite (left_id_L ∅ (∪)).
  - intros budget t Hb Hd. simpl. rewrite bind_mret.
    by rewrite (bind_ok _ _ _ _ _ (IHHp budget t ltac:(simpl in Hb; lia) Hd)).
  - intros budget t Hb Hd. simpl in *. autorewrite with run.
    rewrite (bind_ok _ _ _ _ _ (IHHp budget None t ltac:(lia) ltac:(done) ltac:(set_solver))).
    autorewrite with run. rewrite (bind_ok _ _ _ _ _ (IHHp0 budget (X ∪ t) ltac:(lia) ltac:(set_solver))).
    unfold mret, M_ret. f_equal. set_solver.
  - intros budget t kvs _ _ Hk. destruct kvs; [|done]. simpl. by rewrite (left_id_L ∅ (∪)).
  - intros budget t kvs Hb Hd Hk. destruct kvs as [|[k' v'] kvs]; [done|]. injection Hk as -> -> Hk. simpl in *.
    autorewrite with run.
    rewrite (bind_ok _ _ _ _ _ (IHHp budget (Some k') t ltac:(lia) ltac:(done) ltac:(set_solver))).
    autorewrite with run. rewrite (bind_ok _ _ _ _ _ (IHHp0 budget (X ∪ t) kvs ltac:(lia) ltac:(set_solver) Hk)).
    unfold mret, M_ret. f_equal. set_solver.
Qed.

Lemma plain_no_error X v o : plain X v o → is_error h v = false.
Proof. destruct 1 as [v o Hv|l es X os Hk _ _ _|l X ms Hk _ _ _]; [by destruct v|simpl; by rewrite Hk..]. Qed.

Lemma plain_arguments X es eos : plain_elements X es eos → ∀ (args : list (nat * value)) os s,
  es = (λ a : nat * value, Some (Holds a.2)) <$> args → eos = Some <$> os → X ## s →
  Forall (λ o, (levels o ≤ 12)%nat) os → mapM (sanitize_argument isIP h) args s = (Ok os, X ∪ s).
Proof.
  induction 1 as [|X es eos _ _|X Y v o es eos Hp _ IH Hd]; intros args os s He Ho Hs Hl.
  - destruct args, os; try done. simpl. by rewrite (left_id_L ∅ (∪)).
  - by destruct args.
  - destruct args as [|[i v'] args], os as [|o' os]; try done. injection He as -> He. injection Ho as -> Ho.
    apply Forall_cons in Hl as [Hl1 Hl2]. cbn [snd] in Hp. cbn [mapM].
    assert (Ha : sanitize_argument isIP h (i, v') s = (Ok o', X ∪ s)).
    { unfold sanitize_argument. cbn [fst snd]. rewrite (plain_no_error _ _ _ Hp), andb_false_r.
      apply plain_runs; [done|done|done|set_solver]. }
    rewrite (bind_ok _ _ _ _ _ Ha), (bind_ok _ _ _ _ _ (IH args os (X ∪ s) He Ho ltac:(set_solver) Hl2)).
    unfold mret, M_ret. f_equal. set_solver.
Qed.

(** C34: plain data is handed to pino as it is: arguments that are trees of plain
    objects and arrays, no object in two places, at most 12 levels of them deep,
    none with a property [raw], [method] or [statusCode] (those are taken for
    requests and responses), whose keys are neither secret nor [req], [request],
    [res], [response], [err] or [error], and whose leaves are null, booleans,
    numbers and strings that are not sensitive, are handed on unchanged. *)
Theorem plain_data_is_logged X args os :
  plain_elements X ((λ v, Some (Holds v)) <$> args) (Some <$> os) → Forall (λ o, (levels o ≤ 12)%nat) os →
  logMethod isIP h args = os.
Proof.
  intros Hp Hl. unfold logMethod, sanitizeLogArguments.
  rewrite (plain_arguments _ _ _ Hp (imap pair args) os ∅); [done| |done|set_solver|done].
  clear. generalize 0%nat. assert (Hgo : ∀ (f : nat → value → nat * value) l, (∀ i v, (f i v).2 = v) →
    (λ v, Some (Holds v)) <$> l = (λ a : nat * value, Some (Holds a.2)) <$> imap f l).
  { intros f l. revert f. induction l as [|v l IH]; intros f Hf; simpl; [done|]. rewrite Hf. f_equal.
    apply IH. intros i w. apply Hf. }
  intros _. by apply Hgo.
Qed.
End plain.

(** ** Concrete logs

    A cyclic object with secrets, a request, an error and plain data are logged;
    the theorems are applied to them. *)

#[local] Existing Instance AgentExamples.binaryDates.

(** A stand-in for [isIP]: a dotted quad, or anything with two colons in a row. *)
Definition by_shape (s : jstring) : Z :=
  if bool_decide (46 ∈ s ∨ 58 ∈ s) then
    (if test s (sequence [StartOf; times 3 (sequence [ipv4_part; char "."]); ipv4_part; EndOf]) then 4
     else if includes s [58; 58] then 6 else 0)
  else 0.
Lemma by_shape_text s : by_shape s ≠ 0 → 46 ∈ s ∨ 58 ∈ s.
Proof. unfold by_shape. by case_bool_decide. Qed.

Notation text s := (VString (units s)).
Definition plain_object_of (own : list (string * slot)) : object :=
  {| ob_kind := PlainObject; ob_own := (λ kx : string * slot, (units kx.1, kx.2)) <$> own; ob_other := [] |}.

Definition memory : heap :=
  <[1%positive := plain_object_of
      [("event", Holds (text "started")); ("note", Holds (text "password: hunter2"));
       ("userId", Holds (VNumber (Finite (QArith_base.Qmake 7 1)))); ("tokenCount", Holds (VNumber (Finite (QArith_base.Qmake 3 1))));
       ("self", Holds (VObject 1)); ("req", Holds (VObject 2)); ("err", Holds (VObject 3));
       ("peer", Holds (text "10.0.0.1"))]%string]>
  (<[2%positive := plain_object_of
      [("method", Holds (text "POST")); ("url", Holds (text "/sub/abc"))]%string]>
  (<[3%positive := {| ob_kind := ErrorObject (Some (units "TypeError")); ob_own := []; ob_other := [] |}]>
  (<[4%positive := plain_object_of [("x", Raises)]%string]>
  (<[5%positive := plain_object_of
      [("event", Holds (text "stopped")); ("after", Holds (VObject 6))]%string]>
  (<[6%positive := {| ob_kind := ArrayObject [Some (Holds (VBool true)); None; Some (Holds VNull)];
      ob_own := []; ob_other := [] |}]> ∅))))).

Definition obj (l : list (string * out)) : out := OObject ((λ ko : string * out, (units ko.1, ko.2)) <$> l).

(** Keys are not examined: what looks like a password in one is handed on. *)
Example keys_are_not_examined :
  logMethod by_shape (<[1%positive := plain_object_of [("password: hunter2", Holds (VBool true))]%string]> ∅)
    [VObject 1] = [obj [("password: hunter2", OBool true)]%string].
Proof. by vm_compute. Qed.
(** A bigint of 43 digits passes, though its text would not. *)
Example bigints_pass :
  logMethod by_shape ∅ [VBigInt (10 ^ 42)] = [OString (units (pretty (10 ^ 42)))] ∧
  logMethod by_shape ∅ [VString (units (pretty (10 ^ 42)))] = [censored].
Proof. by vm_compute. Qed.


Lemma log_is_small_witness :
  (total (nodes <$> logMethod by_shape memory [VObject 1; VObject 1; VObject 5]) ≤ 12 + 2 * entries_of memory (dom memory))%nat.
Proof. exact (proj2 (log_is_small by_shape by_shape_text memory [VObject 1; VObject 1; VObject 5])). Defined.

(** The bindings of object 4 have a getter that throws. *)
Lemma failed_bindings_minimize_witness :
  log by_shape memory (descendant by_shape [(memory, VObject 5); (memory, VObject 4); (memory, VObject 5)]) "warn"
    [VObject 1; text "done"] = minimalSafeLogArguments.
Proof.
  apply (failed_bindings_minimize by_shape [(memory, VObject 5)] memory (VObject 4) [(memory, VObject 5)]).
  - by vm_compute.
  - by refine (bool_decide_unpack _ _).
Defined.

Definition stopped : out :=
  OObject [(units "event", OString (units "stopped"));
           (units "after", OArray [Some (OBool true); None; Some ONull])].
Lemma event_ordinary v : match v with VString _ | VObject _ => True | _ => False end → ordinary (Some (units "event")) v.
Proof. by destruct v. Qed.
Lemma stopped_plain :
  plain_elements by_shape memory ({[5%positive]} ∪ (∅ ∪ ({[6%positive]} ∪ (∅ ∪ (∅ ∪ ∅)) ∪ ∅)) ∪ ∅)
    [Some (Holds (VObject 5))] [Some stopped].
Proof.
  apply elements_cons; [|apply elements_nil|set_solver].
  apply plain_object; [done|done| |set_solver].
  change (ob_own (object_of memory 5)) with
    [(units "event", Holds (text "stopped")); (units "after", Holds (VObject 6))].
  apply members_cons; [by apply plain_leaf|by apply event_ordinary| |set_solver].
  apply members_cons; [|done|apply members_nil|set_solver].
  apply (plain_array by_shape memory 6 [Some (Holds (VBool true)); None; Some (Holds VNull)]); [done|done| |set_solver].
  apply elements_cons; [by apply plain_leaf| |set_solver]. apply elements_hole.
  apply elements_cons; [by apply plain_leaf|apply elements_nil|set_solver].
Qed.
Lemma plain_data_is_logged_witness : logMethod by_shape memory [VObject 5] = [stopped].
Proof.
  eapply (plain_data_is_logged by_shape memory _ [VObject 5] [stopped] stopped_plain).
  apply Forall_singleton. simpl. lia.
Defined.
